(* ===== verification/_CoqProject ===== *)
-Q . S2P
Prelude.v
F64.v
Padic.v
Message.v
Json.v
Bls.v
Encoders.v
Simplex.v
Matrix.v
Homology.v
Persistence.v
AdicComplex.v
Streaming.v
Amount.v
Supply.v
EconStorage.v
Balance.v
Ledger.v
Lock.v
Deposit.v
Reputation.v
Admissibility.v
Validation.v
Escrow.v
Vrf.v
Quorum.v
Challenge.v
Treasury.v
Engine.v
Emission.v
Genesis.v
Dag.v
Kcore.v
Bottleneck.v
F2.v
Energy.v
Consensus.v
Checkpoint.v
Finality.v
ParamStore.v
Voting.v
Grants.v
Application.v
NetworkMetadata.v
Lifecycle.v
MarketTypes.v
Market.v
MarketProof.v
Marketplace.v
Mrw.v
TaskTypes.v
Executor.v
Dkg.v
Signing.v
ResultValidator.v
Receipts.v
Committee.v
Orchestrator.v
Tasks.v
Workers.v
Rewards.v
Disputes.v
AxisCatalog.v
Conflicts.v
Registry.v
Retrieval.v
Providers.v
MarketDisputes.v
Aggregation.v
