(* ===== verification/Prelude.v ===== *)
(** * adic-core: a verification development

    adic-core is a node for a message DAG: messages carry p-adic feature vectors, are
    finalized by k-core depth (F1) or by persistent homology (F2), and pay for themselves
    with the tokens of an economics engine.  This library models the crates that hold the
    protocol's own logic and proves what makes each of them correct.

    ** How it is organised

    Every file models one part of the program, in the order of the dependencies; paths are
    under [src/crates/].

    - Shared: [Prelude] (results, the state-and-error monad [M] with its lemmas and the
      tactics, [u64] arithmetic, lists and maps), [F64] ([f64]).
    - Types and arithmetic: [Padic] ([adic-types/src/features.rs], [adic-math]), [Message]
      ([adic-types]: ids, messages, value transfers), [Encoders] ([adic-types/src/encoders.rs]),
      [Json] ([canonical_json.rs] of the same crate).
    - Threshold signatures: [Bls] ([adic-crypto/src/bls.rs]), [Dkg] (key generation:
      [adic-crypto/src/dkg.rs], [adic-pouw/src/dkg_manager.rs]), [Signing]
      ([adic-pouw/src/bls_coordinator.rs]), [Orchestrator] ([adic-pouw/src/dkg_orchestrator.rs],
      which drives the two).  The scheme itself is the library's: an interface,
      [Bls.ThresholdScheme], with its laws, [Bls.ThresholdLaws].
    - Persistent homology, [adic-finality/src/ph/]: [Simplex] (filtered complexes), [Matrix]
      (boundary matrices over F2 and both reductions), [Homology] (what the reduction means
      for a complex), [Persistence] (diagrams, Betti numbers), [AdicComplex] (from messages to
      a complex), [Streaming] (incremental reduction), [Bottleneck] (bottleneck distance),
      [F2] (the finality test that composes them).
    - The DAG: [Dag] ([adic-storage/src/memory.rs] and [store.rs]), [Kcore]
      ([adic-finality/src/kcore.rs]).
    - Economics, [adic-economics/src/]: [Amount] ([types.rs]), [Supply], [EconStorage]
      ([storage.rs]), [Balance], [Lock] (the contract of locked balances), [Ledger] (runs of the
      balance manager), [Treasury], [Engine] (the shared state), [Emission], [Genesis] (with the
      operations of [lib.rs]).
    - Users of the balance manager: [Deposit] ([adic-consensus/src/deposit.rs]), [Escrow]
      ([adic-app-common/src/escrow.rs]).
    - Consensus, [adic-consensus/src/]: [Reputation], [Admissibility] (with
      [adic-crypto/src/ultrametric_security.rs] and the parameters of [adic-types/src/lib.rs]),
      [Validation], [Energy] ([energy_descent.rs]), [Consensus] ([lib.rs]: the engine that owns
      them and the deposits).
    - The finality engine, [adic-finality/src/]: [Checkpoint] ([artifact.rs], [checkpoint.rs]),
      [Finality] ([engine.rs]), which calls [Kcore], [F2], [Dag] and [Consensus].
    - Committees: [Vrf] ([adic-vrf/src/]), [Quorum] ([adic-quorum/src/]), [Challenge]
      ([adic-challenges/src/]).
    - Applications: [ParamStore] (the governed parameters, [adic-app-common/src/]
      [parameter_store.rs]), [Application] ([finality_adapter.rs] and [lifecycle.rs] of the same
      crate), [NetworkMetadata] ([network_metadata.rs] of it).
    - Governance, [adic-governance/src/]: [Voting] ([voting.rs], [overlap_penalties.rs]), [Grants]
      ([treasury.rs]), [Lifecycle] ([lifecycle.rs]: the proposals, which vote, change parameters
      and pay grants by the former), [Conflicts] ([conflict_resolution.rs]), [AxisCatalog]
      ([axis_catalog.rs]), [Registry] ([parameters.rs], compared with [ParamStore]).
    - The storage market, [adic-storage-market/src/]: [MarketTypes] ([types.rs],
      [deal_management.rs]), [Market] ([intent.rs], [jitca.rs]), [MarketProof] ([proof.rs]),
      [Marketplace] ([coordinator.rs]), which share one state, [Market.Market]; [Retrieval],
      [Providers] ([provider.rs]), [MarketDisputes] ([dispute.rs]) and [Aggregation], each with
      the state of its own manager.
    - Proof of useful work, [adic-pouw/src/]: [TaskTypes] ([types.rs], [error.rs]), [Tasks]
      ([task_manager.rs]), [Workers] ([worker_selection.rs]), [Executor] ([executor.rs] and the
      stores of tasks and inputs), [ResultValidator] ([validator.rs], which executes again with
      the former and signs with [Signing]), [Receipts] ([receipt_validator.rs]), [Committee]
      ([committee.rs]), [Rewards] ([rewards.rs], [reputation.rs]), [Disputes] ([disputes.rs]).
    - Parent selection: [Mrw] ([adic-mrw/src/], with [proximity_score] of [adic-math] and the
      selector of [adic-storage-market/src/mrw.rs]).

    ** Conventions

    - A definition has the name of the Rust function it translates; a [struct] is a record
      with the same fields, an [enum] an inductive type with the same constructors.
    - An operation of a stateful part is a function in [M S E A], that is
      [S -> result E A * S]: the [?] operator is the monad's bind, and an error keeps the
      writes made before it.  The parts of the program share state through [Arc<RwLock<_>>]
      and hold a lock for each access, so an operation is one transition; interleavings of
      several operations are the step relations over which the invariants are stated.
    - [Panic] is the third outcome of a [result]: an [unwrap] of [None], an index out of
      range, a division by zero.  Integers wrap or saturate as the source writes it; the
      release profile does not check overflow, so a plain [+] on [u64] is taken modulo
      [2^64].
    - [f64] is the Standard Library's executable binary64; transcendental functions are
      parameters.
    - A [HashMap] or [HashSet] is a [gmap] or [gset].  Where the code depends on the order of
      iteration, that order is an argument ([ball_iter], [map_iter], [set_iter],
      [windows_iter], ...) known only to be a permutation of the entries.
    - Hashes, encodings, clocks and lookups into services outside [src/] are parameters.  What
      a theorem needs of one is a named hypothesis, such as the permutation above, and the
      witness of the theorem instantiates it.

    ** Loops and fuel

    A loop that is not structural carries fuel and the theorems show that the fuel given is
    enough: [vp] and the digit loops take one step per bit of the number ([Padic.vp_correct]);
    the reduction of a column takes one step per row, as the pivot falls
    ([Matrix.reduce_boundary_matrix_correct]); the traversals of the DAG take one step per
    stored message ([Kcore.kcore_of_cone], [Energy.support_of_descendants]); augmenting paths
    one per point ([Bottleneck.bottleneck_matching]).

    ** What the theorems show

    - Tokens: the supply never exceeds its cap, and the balances never exceed the supply and what
      [credit] was called for without minting, as the node does for the allocations of its
      configuration ([Genesis.engine_backed], [Genesis.node_genesis_unbacked]); transfers are
      atomic ([Balance.transfer_atomic]); the accepted nonces of a sender are consecutive as long
      as the cache is not cleared ([Ledger.message_nonces_consecutive]); the treasury pays a
      proposal once and only by threshold; a deposit settles once, and can be settled as long as
      the lock of its proposer covers it ([Deposit.deposit_settled_once]).
    - Finality: the k-core computed is the largest one of the forward cone; F2 is final exactly
      when the diagrams are stable; the reduction pairs births with deaths, and streaming
      refines the batch algorithm; the search for a perfect matching decides whether there is
      one and never indexes out of range ([Bottleneck.bottleneck_matching]); a check of the
      engine finalizes exactly the messages final in turn, with a valid artifact and a refund
      each, and stops at a deposit already settled or a full checkpoint
      ([Finality.finality_check_correct]).
    - Consensus: messages are valid, admissible and slashed exactly by the stated rules, of
      which a slash needs a lock that still covers the deposit
      ([Consensus.validate_and_slash_correct]); supports are sums over the descendants, at the
      depths the cache holds ([Energy.support_of_descendants]).
    - Structure: the complexes are closed and indexed; the DAG, deletions included, is acyclic,
      its indexes agree with its messages, and a tip is a message without a stored child that
      was neither finalized nor left by a deleted child ([Dag.dag_structure],
      [Dag.deletion_leaves_no_tip]); balls are an ultrametric's.
    - Committees: randomness comes from reveals that open the commits of reputed members, in
      whatever order they arrive, but a reveal made twice cancels
      ([Vrf.vrf_randomness_committed], [Vrf.repeated_reveal_cancels]); committees respect their
      caps.
    - Governance: a proposal only moves along its allowed transitions unless its id is submitted
      again ([Lifecycle.resubmission_reopens]), is decided exactly by quorum
      and threshold, and enacted exactly when its changes and its grant go through; parameters
      keep their types and rules; grants pay what they record ([Lifecycle.proposal_statuses_follow],
      [Lifecycle.finalize_voting_correct], [Lifecycle.enact_proposal_correct],
      [ParamStore.param_store_typed], [Grants.grants_accounted]).
    - Storage market: deals are compiled exactly under the stated conditions and keep their terms,
      their status only advances, proofs pay what is recorded up to the escrow, and a Merkle proof of
      the length of the tree that verifies for other data exhibits two inputs of the hash that
      collide ([Market.compile_correct], [Marketplace.deals_advance],
      [MarketProof.deal_pays_its_escrow], [MarketTypes.merkle_proof_correct]).
    - Axes and conflicts: axes only move along their lifecycle and always have a weight, and the
      winner of a conflict is the stated one, by class, time, margin and id
      ([AxisCatalog.axes_follow_lifecycle], [Conflicts.resolve_conflict_set_correct]); the two parameter registries accept the same
      values ([Registry.registry_validates_as_store]).
    - Storage services: sessions time out and providers fall silent exactly when due, quorums
      rule by their threshold, and two lists with one aggregated root exhibit a collision
      ([Retrieval.check_timeouts_correct], [Providers.check_heartbeats_correct],
      [MarketDisputes.quorum_ruling_correct], [Aggregation.combined_root_binds]).
    - Proof of useful work: tasks only move forward unless their id is submitted again
      ([Tasks.resubmission_takes_over]), a selection locks the collateral of the workers it picks,
      an arbitration moves the reputations of the parties by the stated amounts
      ([Tasks.tasks_follow_lifecycle], [Workers.select_workers_correct],
      [Disputes.process_arbitration_correct]); a result is accepted or refused as its checks
      deserve, or not judged in the stated cases; receipts are valid exactly by their signature,
      their challenges and their window, certificates are signed by the committee they name
      ([ResultValidator.validate_result_correct], [Receipts.validate_receipt_correct],
      [Committee.generate_certificate_correct]).
    - Threshold signatures: a ceremony whose messages all arrive in the expected order ends with
      the key set of one member, a session collects shares of its committee only
      ([Orchestrator.orchestrated_ceremony_completes], [Signing.signing_sessions_sound]).
    - Canonical JSON: two values have one form exactly when they are the same up to the order of
      fields and the writing of numbers, and the form is itself such a value
      ([Json.canonical_form_normal], [Json.hash_of_fields], [Json.large_integers_collide]).
    - Encoders: the features of a message are the digits of its time, topic, region and stake
      ([Encoders.encode_all_correct]).
    - Parent selection: a selection is made of distinct tips of the candidates, scored by the
      stated weights ([Mrw.engine_select_correct], [Mrw.few_tips_invalid]).
    - Errors: what the code does in cases it does not mean to handle that way is proved too
      ([Genesis.node_genesis_unbacked], [Dag.deletion_leaves_no_tip],
      [Admissibility.default_params_admit_nothing], [Consensus.forged_copy_slashes],
      [Finality.checkpoint_deadlock], [Finality.settled_deposit_stalls_queue],
      [Balance.cleared_cache_admits_replay], [Kcore.depth_cache_is_stale],
      [Application.strict_wait_times_out], [Lifecycle.racing_votes_block],
      [Marketplace.completing_mints_tokens], [Tasks.finalized_sponsor_refused],
      [AxisCatalog.deprecating_proposed_gains_weight], [Conflicts.redetection_reopens],
      [MarketDisputes.resolution_replaced], [Aggregation.short_batch_loses_proofs],
      [ResultValidator.default_validation_fails], [Receipts.cleanup_forgets_fraud],
      [Committee.certificate_members_unchecked], [Orchestrator.early_share_lost]
      and the theorems named after findings in each file).

    ** Not modelled

    Sockets, HTTP, command lines and background tasks ([adic-network], [adic-node]); calls into
    cryptographic libraries ([adic-crypto], signatures, bech32); serialisation, of which the
    values and their canonical form are modelled and the text is a parameter;
    the RocksDB back ends, which implement the interfaces whose in-memory implementation is
    modelled; logging and Prometheus metrics; of proof of useful work
    the waiting for finality and the types of hooks and claims. *)

From Stdlib Require Export ZArith Lia.
From stdpp Require Export base gmap list list_numbers sets fin_sets fin_maps strings numbers sorting.

#[export] Set Default Goal Selector "!".
Open Scope Z_scope.

(** ** Results: Rust's [Result], with a third outcome for a panic

    [Ok] and [Err] are the two constructors of Rust's [Result]; [Panic] stands for an
    [unwrap] on [None], a failed [assert!], a division by zero, or an index out of
    range.  The release profile of the workspace aborts on panic, so a panic never
    produces a further state. *)
Inductive result (E A : Type) : Type :=
  | Ok (a : A)
  | Err (e : E)
  | Panic.
Arguments Ok {E A} a.
Arguments Err {E A} e.
Arguments Panic {E A}.

#[export] Instance Ok_inj {E A} : Inj (=) (=) (@Ok E A).
Proof. by intros a b [= ->]. Qed.

Definition result_bind {E A B : Type} (m : result E A) (k : A -> result E B) : result E B :=
  match m with
  | Ok a => k a
  | Err e => Err e
  | Panic => Panic
  end.

Definition result_of_option {E A : Type} (o : option A) (e : E) : result E A :=
  match o with
  | Some a => Ok a
  | None => Err e
  end.

Definition is_err {E A : Type} (r : result E A) : bool :=
  match r with Err _ => true | _ => false end.

Declare Scope adic_scope.
Delimit Scope adic_scope with adic.
Notation "'let?' x := m 'in' k" := (result_bind m (fun x => k))
  (at level 10, x pattern, m at level 100, k at level 200) : adic_scope.
Open Scope adic_scope.

Lemma result_bind_Ok {E A B} (m : result E A) (k : A -> result E B) (b : B) :
  result_bind m k = Ok b <-> exists a, m = Ok a /\ k a = Ok b.
Proof. destruct m; simpl; naive_solver. Qed.

Lemma result_of_option_Ok {E A} (o : option A) (e : E) (a : A) :
  result_of_option o e = Ok a <-> o = Some a.
Proof. destruct o; simpl; naive_solver. Qed.

(** Two equations for one computation have equal results. *)
Ltac res_eq :=
  simplify_eq; repeat match goal with
  | H1 : ?x = Ok ?a, H2 : ?x = Ok ?b |- _ =>
      rewrite H1 in H2; injection H2 as H2; try subst
  end; simplify_eq.

(** ** Machine integers

    A [u64] (or [u32], [u8]) is a [Z] in its range.  Plain [+], [-] and [*] of Rust wrap
    around in the release profile (overflow checks are off); the [checked_*] and
    [saturating_*] methods are as in the standard library. *)
Definition u8_max : Z := 2 ^ 8 - 1.
Definition u32_max : Z := 2 ^ 32 - 1.
Definition u64_max : Z := 2 ^ 64 - 1.

Definition is_u8 (z : Z) : Prop := 0 <= z <= u8_max.
Definition is_u32 (z : Z) : Prop := 0 <= z <= u32_max.
Definition is_u64 (z : Z) : Prop := 0 <= z <= u64_max.

Definition to_u8 (z : Z) : Z := z mod 2 ^ 8.
Definition to_u32 (z : Z) : Z := z mod 2 ^ 32.
Definition to_u64 (z : Z) : Z := z mod 2 ^ 64.
Definition to_i64 (z : Z) : Z := (z + 2 ^ 63) mod 2 ^ 64 - 2 ^ 63.

Definition u64_checked_add (a b : Z) : option Z :=
  if a + b <=? u64_max then Some (a + b) else None.
Definition u64_checked_sub (a b : Z) : option Z :=
  if b <=? a then Some (a - b) else None.
Definition u64_saturating_add (a b : Z) : Z := Z.min (a + b) u64_max.
Definition u64_saturating_sub (a b : Z) : Z := Z.max (a - b) 0.
Definition u32_saturating_sub (a b : Z) : Z := Z.max (a - b) 0.

(** [uint_unfold] turns every range and width statement into linear arithmetic. *)
Ltac uint_unfold :=
  unfold is_u8, is_u32, is_u64, to_u8, to_u32, to_u64, u64_checked_add, u64_checked_sub,
    u64_saturating_add, u64_saturating_sub, u32_saturating_sub,
    u8_max, u32_max, u64_max in *.

(** [zbool] turns boolean comparisons on [Z] and [nat] into propositions. *)
Ltac zbool :=
  repeat match goal with
  | H : (_ <? _) = true |- _ => apply Z.ltb_lt in H
  | H : (_ <? _) = false |- _ => apply Z.ltb_ge in H
  | H : (_ <=? _) = true |- _ => apply Z.leb_le in H
  | H : (_ <=? _) = false |- _ => apply Z.leb_gt in H
  | H : (_ =? _) = true |- _ => apply Z.eqb_eq in H
  | H : (_ =? _) = false |- _ => apply Z.eqb_neq in H
  | H : (_ <? _)%nat = true |- _ => apply Nat.ltb_lt in H
  | H : (_ <? _)%nat = false |- _ => apply Nat.ltb_ge in H
  | H : (_ <=? _)%nat = true |- _ => apply Nat.leb_le in H
  | H : (_ <=? _)%nat = false |- _ => apply Nat.leb_gt in H
  | H : (_ =? _)%nat = true |- _ => apply Nat.eqb_eq in H
  | H : (_ =? _)%nat = false |- _ => apply Nat.eqb_neq in H
  | H : andb _ _ = true |- _ => apply andb_true_iff in H; destruct H
  | H : orb _ _ = false |- _ => apply orb_false_iff in H; destruct H
  | H : negb _ = true |- _ => apply negb_true_iff in H
  | H : negb _ = false |- _ => apply negb_false_iff in H
  end.

(** [ztest b] case-splits on the Boolean test [b] and turns it into arithmetic. *)
Ltac ztest b := let E := fresh "E" in destruct b eqn:E; zbool.

Lemma u64_checked_add_Some a b c :
  u64_checked_add a b = Some c <-> c = a + b /\ a + b <= u64_max.
Proof. unfold u64_checked_add. ztest (a + b <=? u64_max); naive_solver lia. Qed.

Lemma u64_checked_sub_Some a b c :
  u64_checked_sub a b = Some c <-> c = a - b /\ b <= a.
Proof. unfold u64_checked_sub. ztest (b <=? a); naive_solver lia. Qed.

(** ** Sorting

    Rust's [sort_by] is stable and [sort_unstable] on integers has one possible result, so
    the stable insertion sort below returns the same vector as either. *)
Section isort.
Context {A : Type} (leb : A -> A -> bool).

Fixpoint insert_sorted (x : A) (l : list A) : list A :=
  match l with
  | [] => [x]
  | y :: l' => if leb x y then x :: y :: l' else y :: insert_sorted x l'
  end.

Fixpoint isort (l : list A) : list A :=
  match l with
  | [] => []
  | x :: l' => insert_sorted x (isort l')
  end.

Lemma insert_sorted_Permutation x l : insert_sorted x l ≡ₚ x :: l.
Proof.
  induction l as [|y l IH]; simpl; [done|]. destruct (leb x y); [done|].
  rewrite IH. apply Permutation_swap.
Qed.

Lemma isort_Permutation l : isort l ≡ₚ l.
Proof. induction l as [|x l IH]; simpl; [done|]. by rewrite insert_sorted_Permutation, IH. Qed.

Lemma isort_length l : length (isort l) = length l.
Proof. by rewrite isort_Permutation. Qed.

Lemma elem_of_isort x l : x ∈ isort l <-> x ∈ l.
Proof. by rewrite isort_Permutation. Qed.

Context (P : A -> Prop).
Context (Htot : forall x y, P x -> P y -> leb x y = false -> leb y x = true).
Context (Htrans : forall x y z, P x -> P y -> P z -> leb x y = true -> leb y z = true -> leb x z = true).

Lemma insert_sorted_sorted x l :
  P x -> Forall P l -> StronglySorted (fun a b => leb a b = true) l ->
  StronglySorted (fun a b => leb a b = true) (insert_sorted x l).
Proof.
  intros Hx. induction 1 as [|y l Hy Hl IH]; intros Hs; simpl.
  { repeat constructor. }
  apply StronglySorted_inv in Hs as [Hs Hall].
  destruct (leb x y) eqn:E.
  - constructor; [by constructor|]. constructor; [done|].
    rewrite Forall_forall in *. intros z Hz. eapply (Htrans x y z); auto.
  - constructor; [by apply IH|]. rewrite insert_sorted_Permutation.
    constructor; [by apply Htot|done].
Qed.

Lemma isort_sorted l : Forall P l -> StronglySorted (fun a b => leb a b = true) (isort l).
Proof.
  induction 1 as [|x l Hx Hl IH]; simpl; [constructor|].
  apply insert_sorted_sorted; [done| |done]. by rewrite isort_Permutation.
Qed.

Lemma isort_sorted_id l : StronglySorted (fun a b => leb a b = true) l -> isort l = l.
Proof.
  induction 1 as [|x l Hs IH Hall]; simpl; [done|]. rewrite IH.
  destruct Hall as [|y l Hxy _]; simpl; [done|]. by rewrite Hxy.
Qed.
End isort.

(** [sort_unstable] on a vector of [usize]. *)
Definition nat_sort : list nat -> list nat := isort Nat.leb.

Lemma nat_sort_Permutation l : nat_sort l ≡ₚ l.
Proof. apply isort_Permutation. Qed.

Lemma nat_sort_sorted l : StronglySorted le (nat_sort l).
Proof.
  assert (StronglySorted (fun a b => (a <=? b)%nat = true) (nat_sort l)) as H.
  { apply (isort_sorted _ (fun _ => True)); [intros; zbool; apply Nat.leb_le; lia|..].
    - intros. zbool. apply Nat.leb_le; lia.
    - by apply Forall_true. }
  induction H as [|x l' _ IH Hall]; constructor; [done|].
  eapply Forall_impl; [exact Hall|]. intros y; simpl. apply Nat.leb_le.
Qed.

Lemma nat_sort_sorted_id l : StronglySorted le l -> nat_sort l = l.
Proof.
  intros H. apply isort_sorted_id. induction H as [|x l' _ IH Hall]; constructor; [done|].
  eapply Forall_impl; [exact Hall|]. intros y; simpl. apply Nat.leb_le.
Qed.

(** A strictly sorted list is determined by its elements. *)
Lemma sorted_lt_NoDup (l : list nat) : StronglySorted lt l -> NoDup l.
Proof.
  induction 1 as [|x l _ IH Hall]; constructor; [|done].
  intros Hx. rewrite Forall_forall in Hall. specialize (Hall x Hx). lia.
Qed.

Lemma sorted_le_NoDup_lt (l : list nat) : StronglySorted le l -> NoDup l -> StronglySorted lt l.
Proof.
  induction 1 as [|x l _ IH Hall]; intros Hnd; constructor; apply NoDup_cons in Hnd as [Hx Hnd];
    [by apply IH|].
  rewrite Forall_forall in *. intros y Hy. specialize (Hall y Hy).
  assert (x <> y) by (intros ->; done). lia.
Qed.

Lemma sorted_lt_ext (l1 l2 : list nat) :
  StronglySorted lt l1 -> StronglySorted lt l2 -> (forall x, x ∈ l1 <-> x ∈ l2) -> l1 = l2.
Proof.
  intros H1; revert l2; induction H1 as [|x l1 Hs1 IH Hall1]; intros l2 H2 Hext.
  { destruct l2 as [|y l2]; [done|]. specialize (Hext y). set_solver. }
  destruct H2 as [|y l2 Hs2 Hall2]; [specialize (Hext x); set_solver|].
  rewrite Forall_forall in *.
  assert (x = y) as ->.
  { assert (x ∈ y :: l2) as [->|Hx]%elem_of_cons by (apply Hext; left); [done|].
    assert (y ∈ x :: l1) as [->|Hy]%elem_of_cons by (apply Hext; left); [done|].
    specialize (Hall1 y Hy). specialize (Hall2 x Hx). lia. }
  f_equal. apply IH; [done|]. intros z. specialize (Hext z). rewrite !elem_of_cons in Hext.
  split; intros Hz.
  - destruct Hext as [[->|] _]; [by right| |done]. specialize (Hall1 y Hz); lia.
  - destruct Hext as [_ [->|]]; [by right| |done]. specialize (Hall2 y Hz); lia.
Qed.

Lemma StronglySorted_lookup_lt {A} (R : A -> A -> Prop) (l : list A) i j x y :
  StronglySorted R l -> l !! i = Some x -> l !! j = Some y -> (i < j)%nat -> R x y.
Proof.
  intros H; revert i j; induction H as [|z l _ IH Hall]; intros [|i] [|j]; simpl; intros; try done;
    try lia; simplify_eq.
  - rewrite Forall_lookup in Hall. by eapply Hall.
  - eapply (IH i j); [done..|lia].
Qed.

(** The Standard Library's Boolean [filter] is stdpp's on [f x = true]. *)
Lemma list_filter_bool {A} (f : A -> bool) (l : list A) :
  List.filter f l = filter (fun x => f x = true) l.
Proof.
  induction l as [|x l IH]; simpl; [done|]. rewrite filter_cons. destruct (f x) eqn:E.
  - rewrite decide_True by done. by rewrite IH.
  - by rewrite decide_False.
Qed.

(** ** Sums over lists *)

Definition zsum {A} (f : A -> Z) (l : list A) : Z := foldr (fun a acc => f a + acc) 0 l.

Lemma zsum_cons {A} (f : A -> Z) a l : zsum f (a :: l) = f a + zsum f l.
Proof. done. Qed.

Lemma zsum_app {A} (f : A -> Z) l1 l2 : zsum f (l1 ++ l2) = zsum f l1 + zsum f l2.
Proof. induction l1 as [|a l IH]; simpl; [done|]. rewrite IH. lia. Qed.

#[export] Instance zsum_Permutation {A} (f : A -> Z) : Proper ((≡ₚ) ==> (=)) (zsum f).
Proof. induction 1; simpl; lia. Qed.

Lemma zsum_ext {A} (f g : A -> Z) l : (forall a, a ∈ l -> f a = g a) -> zsum f l = zsum g l.
Proof.
  induction l as [|a l IH]; intros H; simpl; [done|]. rewrite H by left. rewrite IH; [done|].
  intros; apply H; by right.
Qed.

Lemma zsum_fmap {A B} (g : A -> B) (f : B -> Z) l : zsum f (g <$> l) = zsum (fun a => f (g a)) l.
Proof. induction l as [|a l IH]; [done|]. by rewrite fmap_cons, !zsum_cons, IH. Qed.

Lemma zsum_add {A} (f g : A -> Z) l : zsum (fun a => f a + g a) l = zsum f l + zsum g l.
Proof. induction l as [|a l IH]; simpl; [done|]. rewrite IH. lia. Qed.

Lemma zsum_zero {A} (f : A -> Z) l : (forall a, a ∈ l -> f a = 0) -> zsum f l = 0.
Proof. intros H. rewrite (zsum_ext _ (fun _ => 0)) by done. induction l as [|a l IH]; simpl; [done|]. apply IH. intros; apply H; by right. Qed.

Lemma zsum_nonneg {A} (f : A -> Z) l : (forall a, a ∈ l -> 0 <= f a) -> 0 <= zsum f l.
Proof.
  induction l as [|a l IH]; intros H; simpl; [done|].
  pose proof (H a ltac:(left)). specialize (IH ltac:(intros; apply H; by right)). lia.
Qed.

Lemma zsum_submseteq {A} (f : A -> Z) l1 l2 : (forall a, 0 <= f a) -> l1 ⊆+ l2 -> zsum f l1 <= zsum f l2.
Proof.
  intros Hf [k ->]%submseteq_Permutation. rewrite zsum_app. pose proof (zsum_nonneg f k (fun a _ => Hf a)). lia.
Qed.

Lemma zsum_one {A} `{EqDecision A} (x : A) (f : A -> Z) l :
  NoDup l -> x ∈ l -> zsum (fun d => if decide (d = x) then f d else 0) l = f x.
Proof.
  induction 1 as [|y l Hy _ IH]; [by intros ?%elem_of_nil|].
  intros [->|Hx]%elem_of_cons; simpl.
  - rewrite decide_True by done. rewrite zsum_zero; [lia|]. intros d Hd. rewrite decide_False; [done|]. by intros ->.
  - rewrite decide_False by (by intros ->). by rewrite IH.
Qed.

(** ** Sums over maps *)

Section mapsum.
Context `{Countable K} {A : Type} (f : K * A -> Z).
Implicit Types m : gmap K A.

Definition mapsum m : Z := zsum f (map_to_list m).

Lemma mapsum_empty : mapsum ∅ = 0.
Proof. unfold mapsum. by rewrite map_to_list_empty. Qed.

Lemma mapsum_fresh m i x : m !! i = None -> mapsum (<[i := x]> m) = f (i, x) + mapsum m.
Proof. intros Hi. unfold mapsum. by rewrite map_to_list_insert. Qed.

Lemma mapsum_delete m i x : m !! i = Some x -> mapsum m = f (i, x) + mapsum (delete i m).
Proof. intros Hi. unfold mapsum. by rewrite <-(map_to_list_delete m i x Hi). Qed.

Lemma mapsum_insert m i x :
  mapsum (<[i := x]> m) = f (i, x) + mapsum m - match m !! i with Some y => f (i, y) | None => 0 end.
Proof.
  destruct (m !! i) as [y|] eqn:E; [|rewrite mapsum_fresh by done; lia].
  rewrite <-insert_delete_eq, mapsum_fresh by apply lookup_delete_eq. rewrite (mapsum_delete m i y E). lia.
Qed.

Lemma mapsum_nonneg m : (forall i x, m !! i = Some x -> 0 <= f (i, x)) -> 0 <= mapsum m.
Proof. intros Hf. apply zsum_nonneg. intros [i x] Hin%elem_of_map_to_list. by apply Hf. Qed.

Lemma mapsum_lookup_le m i x : (forall i x, m !! i = Some x -> 0 <= f (i, x)) -> m !! i = Some x -> f (i, x) <= mapsum m.
Proof.
  intros Hf Hi. rewrite (mapsum_delete m i x Hi). assert (0 <= mapsum (delete i m)); [|lia].
  apply mapsum_nonneg. intros j y Hj. apply Hf. by apply lookup_delete_Some in Hj as [_ ?].
Qed.

Lemma mapsum_filter (P : K * A -> Prop) `{forall e, Decision (P e)} m :
  (forall i x, m !! i = Some x -> ~ P (i, x) -> f (i, x) = 0) -> mapsum (filter P m) = mapsum m.
Proof.
  induction m as [|i x m Hi IH] using map_ind; intros Hf; [by rewrite map_filter_empty|].
  assert (mapsum (filter P m) = mapsum m) as IH'.
  { apply IH. intros j y Hj. apply Hf. rewrite lookup_insert_ne; [done|]. intros ->. congruence. }
  rewrite map_filter_insert. case_decide as HP.
  - rewrite !mapsum_fresh; [lia|done|]. apply map_lookup_filter_None. by left.
  - rewrite mapsum_fresh by done. rewrite (Hf i x) by (rewrite ?lookup_insert_eq; done).
    rewrite delete_id by done. lia.
Qed.
End mapsum.

(** Changing an entry that is there is writing it. *)
Lemma alter_is_insert `{Countable K} {A} (f : A -> A) (m : gmap K A) i x : m !! i = Some x -> alter f i m = <[i := f x]> m.
Proof.
  intros Hi. apply map_eq. intros j. destruct (decide (j = i)) as [->|].
  - by rewrite lookup_alter_eq, lookup_insert_eq, Hi.
  - by rewrite lookup_alter_ne, lookup_insert_ne by done.
Qed.

(** ** Loops over the entries of a map

    [for (k, a) in map.iter_mut()] with a body that changes the entry when it is due, and collects its key. *)
Section entries.
Context `{Countable K} {A : Type} (due : A -> bool) (upd : K -> A -> A).

Definition loop_entry (acc : gmap K A * list K) (ka : K * A) : gmap K A * list K :=
  if due ka.2 then (<[ka.1 := upd ka.1 ka.2]> acc.1, acc.2 ++ [ka.1]) else acc.
Definition loop_entries (entries : list (K * A)) (m : gmap K A) : gmap K A * list K := foldl loop_entry (m, []) entries.

Lemma loop_entry_list (l : list (K * A)) (m : gmap K A) acc :
  NoDup l.*1 -> (forall k a, (k, a) ∈ l -> m !! k = Some a) ->
  let (m', out) := foldl loop_entry (m, acc) l in
  out = acc ++ (filter (fun ka => due ka.2 = true) l).*1 /\
  (forall k a, (k, a) ∈ l -> m' !! k = Some (if due a then upd k a else a)) /\
  (forall k, k ∉ l.*1 -> m' !! k = m !! k).
Proof.
  revert m acc. induction l as [|[k a] l IH]; intros m acc Hnd Hl.
  { cbn. rewrite app_nil_r. split; [done|]. split; [by intros ?? ?%elem_of_nil|done]. }
  rewrite fmap_cons in Hnd. apply NoDup_cons in Hnd as [Hk Hnd]. cbn [fst] in Hk. cbn [foldl]. unfold loop_entry at 2. cbn [fst snd].
  set (m1 := if due a then <[k := upd k a]> m else m).
  assert (m1 !! k = Some (if due a then upd k a else a)) as Hm1k by (unfold m1; destruct (due a); [apply lookup_insert_eq|apply Hl; by left]).
  assert (forall j, j <> k -> m1 !! j = m !! j) as Hm1 by (intros j Hj; unfold m1; destruct (due a); [by rewrite lookup_insert_ne|done]).
  replace (if due a then _ else (m, acc)) with (m1, acc ++ if due a then [k] else []) by (unfold m1; destruct (due a); by rewrite ?app_nil_r).
  specialize (IH m1 (acc ++ if due a then [k] else []) Hnd). destruct (foldl _ _ l) as [m' out]. destruct IH as (H1 & H2 & H3).
  { intros j b Hj. rewrite Hm1; [apply Hl; by right|]. intros ->. apply Hk, list_elem_of_fmap. by exists (k, b). }
  split; [|split].
  - rewrite H1, <-app_assoc, filter_cons. cbn [snd]. by destruct (due a).
  - intros j b [[= -> ->]|Hj]%elem_of_cons; [|by apply H2]. by rewrite H3.
  - intros j Hj. rewrite fmap_cons, not_elem_of_cons in Hj. cbn [fst] in Hj. rewrite H3 by tauto. apply Hm1. tauto.
Qed.

Lemma loop_entries_spec (entries : list (K * A)) (m : gmap K A) :
  entries ≡ₚ map_to_list m ->
  let (m', out) := loop_entries entries m in
  (forall k, m' !! k = (fun a => if due a then upd k a else a) <$> m !! k) /\ NoDup out /\
  (forall k, k ∈ out <-> exists a, m !! k = Some a /\ due a = true).
Proof.
  intros Hp. assert (NoDup entries.*1) as Hnd by (rewrite Hp; apply NoDup_fst_map_to_list).
  pose proof (loop_entry_list entries m [] Hnd) as Hl. unfold loop_entries. destruct (foldl _ _ _) as [m' out].
  destruct Hl as (-> & Hin & Hout); [intros k a; rewrite Hp; apply elem_of_map_to_list|]. rewrite app_nil_l. split; [|split].
  - intros k. destruct (m !! k) as [a|] eqn:E; cbn [fmap option_fmap option_map].
    + apply Hin. rewrite Hp. by apply elem_of_map_to_list.
    + rewrite Hout; [done|]. rewrite Hp, list_elem_of_fmap. intros ([j b] & -> & Hj%elem_of_map_to_list). cbn in E. congruence.
  - apply (sublist_NoDup _ _ Hnd), fmap_sublist, sublist_filter.
  - intros k. rewrite list_elem_of_fmap. split.
    + intros ([j a] & -> & Hj). rewrite list_elem_of_filter, Hp, elem_of_map_to_list in Hj. exists a. by destruct Hj.
    + intros (a & Ha & Hd). exists (k, a). split; [done|]. by rewrite list_elem_of_filter, Hp, elem_of_map_to_list.
Qed.
End entries.

(** ** Choosing along a list *)

Lemma Forall2_choose {A B} (R : A -> B -> Prop) (l : list A) :
  (forall a, a ∈ l -> exists b, R a b) -> exists k, Forall2 R l k.
Proof.
  induction l as [|a l IH]; intros H; [by exists []|].
  destruct (H a ltac:(left)) as [b Hb]. destruct IH as [k Hk]; [intros; apply H; by right|].
  exists (b :: k). by constructor.
Qed.

Lemma nat_sort_strict (l : list nat) : NoDup l -> StronglySorted lt (nat_sort l).
Proof. intros Hl. apply sorted_le_NoDup_lt; [apply nat_sort_sorted|by rewrite nat_sort_Permutation]. Qed.

Lemma nat_sort_unique (l k : list nat) : StronglySorted lt k -> l ≡ₚ k -> nat_sort l = k.
Proof.
  intros Hk Hp. apply sorted_lt_ext; [|done|].
  - apply nat_sort_strict. rewrite Hp. by apply sorted_lt_NoDup.
  - intros x. by rewrite nat_sort_Permutation, Hp.
Qed.

Lemma list_filter_ext {A} (P Q : A -> Prop) `{forall x, Decision (P x)} `{forall x, Decision (Q x)} (l : list A) :
  (forall x, x ∈ l -> P x <-> Q x) -> filter P l = filter Q l.
Proof.
  induction l as [|x l IH]; intros Hl; [done|]. rewrite !filter_cons.
  rewrite IH by (intros; apply Hl; by right). destruct (Hl x ltac:(left)).
  destruct (decide (P x)), (decide (Q x)); tauto || done.
Qed.

Lemma filter_all {A} (P : A -> Prop) `{forall x, Decision (P x)} (l : list A) :
  length (filter P l) = length l -> filter P l = l.
Proof.
  induction l as [|x l IH]; [done|]. rewrite filter_cons. case_decide; simpl; [intros; f_equal; apply IH; lia|].
  pose proof (length_filter P l). lia.
Qed.

(** A list as long as its set of elements has no duplicates. *)
Lemma size_list_to_set_le `{Countable A} (l : list A) : (size (list_to_set l : gset A) <= length l)%nat.
Proof.
  induction l as [|x l IH]; [done|].
  rewrite list_to_set_cons, size_union_alt. etransitivity; [|apply le_n_S, IH].
  rewrite size_singleton. simpl. apply le_n_S, subseteq_size. set_solver.
Qed.

Lemma size_list_to_set_NoDup `{Countable A} (l : list A) :
  size (list_to_set l : gset A) = length l -> NoDup l.
Proof.
  induction l as [|x l IH]; [constructor|]. rewrite list_to_set_cons. simpl. intros Hs.
  pose proof (size_list_to_set_le l) as Hl.
  destruct (decide (x ∈ l)) as [Hx|Hx].
  - replace ({[x]} ∪ list_to_set l : gset A) with (list_to_set l : gset A) in Hs by set_solver. lia.
  - rewrite size_union, size_singleton in Hs by set_solver. constructor; [done|]. apply IH. lia.
Qed.

(** *** Occurrences *)
Definition occ `{EqDecision A} (x : A) (l : list A) : nat := length (filter (fun y => y = x) l).

Lemma occ_nil `{EqDecision A} (x : A) : occ x [] = 0%nat.
Proof. done. Qed.
Lemma occ_cons `{EqDecision A} (x y : A) l : occ x (y :: l) = ((if decide (y = x) then 1 else 0) + occ x l)%nat.
Proof. unfold occ. rewrite filter_cons. by case_decide. Qed.
Lemma occ_app `{EqDecision A} (x : A) l k : occ x (l ++ k) = (occ x l + occ x k)%nat.
Proof. unfold occ. by rewrite filter_app, length_app. Qed.
Lemma occ_pos `{EqDecision A} (x : A) l : (0 < occ x l)%nat <-> x ∈ l.
Proof.
  induction l as [|y l IH]; [split; [by intros ?%Nat.lt_irrefl|by intros ?%elem_of_nil]|].
  rewrite occ_cons, elem_of_cons, <-IH. case_decide as Hy; [subst y; split; [by left|intros; lia]|].
  split; [intros; right; lia|intros [->|?]; [done|lia]].
Qed.
Lemma occ_replicate `{EqDecision A} (x y : A) n : occ x (replicate n y) = if decide (y = x) then n else 0%nat.
Proof. induction n as [|n IH]; simpl; [by case_decide|]. rewrite occ_cons, IH. by case_decide. Qed.

(** ** Stateful fallible code

    A method on [&self] that may fail: it reads and writes a state of type [S], and the
    writes made before an error stay, as they do in Rust. *)

Definition M (S E A : Type) : Type := S -> result E A * S.

#[export] Instance M_ret {S E} : MRet (M S E) := fun A a s => (Ok a, s).
#[export] Instance M_bind {S E} : MBind (M S E) := fun A B k m s =>
  match m s with
  | (Ok a, s) => k a s
  | (Err e, s) => (Err e, s)
  | (Panic, s) => (Panic, s)
  end.

Definition mfail {S E A} (e : E) : M S E A := fun s => (Err e, s).
Definition mpanic {S E A} : M S E A := fun s => (Panic, s).
Definition mread {S E A} (f : S -> A) : M S E A := fun s => (Ok (f s), s).
Definition mwrite {S E} (f : S -> S) : M S E unit := fun s => (Ok tt, f s).
Definition mwhen {S E} (b : bool) (m : M S E unit) : M S E unit := if b then m else mret tt.
(** [bail!] when the condition holds. *)
Definition mbail {S E} (b : bool) (e : E) : M S E unit := if b then mfail e else mret tt.
Definition mopt {S E A} (o : option A) (e : E) : M S E A :=
  match o with Some a => mret a | None => mfail e end.
(** A result as a computation. *)
Definition mresult {S E A} (r : result E A) : M S E A := fun s => (r, s).
(** [if let Err(_) = m { .. }], [unwrap_or]: an error is turned into a value. *)
Definition mor {S E A} (m : M S E A) (k : E -> M S E A) : M S E A := fun s =>
  match m s with
  | (Err e, s) => k e s
  | r => r
  end.
(** Run a method of a component of the state. *)
Definition mzoom {S T E A} (get : S -> T) (put : T -> S -> S) (m : M T E A) : M S E A := fun s =>
  let '(r, t) := m (get s) in (r, put t s).

Lemma M_bind_Ok {S E A B} (m : M S E A) (k : A -> M S E B) s a s' :
  m s = (Ok a, s') -> (m ≫= k) s = k a s'.
Proof. intros H. unfold mbind, M_bind. by rewrite H. Qed.

Lemma M_bind_Err {S E A B} (m : M S E A) (k : A -> M S E B) s e s' :
  m s = (Err e, s') -> (m ≫= k) s = (Err e, s').
Proof. intros H. unfold mbind, M_bind. by rewrite H. Qed.

(** The two ways an operation of the monad can succeed or fail, for case analysis. *)
Lemma M_bind_inv {S E A B} (m : M S E A) (k : A -> M S E B) s b s'' :
  (m ≫= k) s = (Ok b, s'') <-> exists a s', m s = (Ok a, s') /\ k a s' = (Ok b, s'').
Proof. unfold mbind, M_bind. destruct (m s) as [[a|e|] s1]; naive_solver. Qed.

(** *** Triples

    [hoare P m Q X]: from a state in [P], [m] either returns a value and a state in [Q], or
    stops (an error or a panic) in a state of [X]. *)
Definition hoare {S E A} (P : S -> Prop) (m : M S E A) (Q : A -> S -> Prop) (X : S -> Prop) : Prop :=
  forall s, P s -> let '(r, s') := m s in match r with Ok a => Q a s' | _ => X s' end.

Section hoare.
Context {S E : Type}.
Implicit Types P X : S -> Prop.

Lemma hoare_bind {A B} P (m : M S E A) (k : A -> M S E B) R Q X :
  hoare P m R X -> (forall a, hoare (R a) (k a) Q X) -> hoare P (m ≫= k) Q X.
Proof.
  intros Hm Hk s Hs. specialize (Hm s Hs). unfold mbind, M_bind.
  destruct (m s) as [[a|e|] s']; [apply (Hk a s' Hm)|done..].
Qed.

Lemma hoare_ret {A} P (a : A) (Q : A -> S -> Prop) X :
  (forall s, P s -> Q a s) -> hoare P (mret (M := M S E) a) Q X.
Proof. intros H s Hs. by apply H. Qed.

Lemma hoare_read {A} P (f : S -> A) X : hoare P (mread (E := E) f) (fun a s => P s /\ a = f s) X.
Proof. by intros s Hs. Qed.

Lemma hoare_write P (f : S -> S) (Q : S -> Prop) X :
  (forall s, P s -> Q (f s)) -> hoare P (mwrite (E := E) f) (fun _ => Q) X.
Proof. intros H s Hs. by apply H. Qed.

Lemma hoare_bail P b (e : E) X :
  (forall s, P s -> X s) -> hoare P (mbail b e) (fun _ s => P s /\ b = false) X.
Proof. intros H s Hs. destruct b; simpl; auto. Qed.

Lemma hoare_opt {A} P (o : option A) (e : E) X :
  (forall s, P s -> X s) -> hoare P (mopt o e) (fun a s => P s /\ o = Some a) X.
Proof. intros H s Hs. destruct o; simpl; auto. Qed.

Lemma hoare_or {A} P (m : M S E A) (k : E -> M S E A) Q X :
  hoare P m Q X -> (forall e, hoare X (k e) Q X) -> hoare P (mor m k) Q X.
Proof.
  intros Hm Hk s Hs. specialize (Hm s Hs). unfold mor. destruct (m s) as [[a|e|] s']; [done| |done].
  by apply Hk.
Qed.

Lemma hoare_conseq {A} P P' (m : M S E A) (Q Q' : A -> S -> Prop) X X' :
  hoare P' m Q' X' -> (forall s, P s -> P' s) -> (forall a s, Q' a s -> Q a s) -> (forall s, X' s -> X s) ->
  hoare P m Q X.
Proof. intros H HP HQ HX s Hs. specialize (H s (HP s Hs)). destruct (m s) as [[a|e|] s']; auto. Qed.

(** A precondition that carries a fact. *)
Lemma hoare_pure {A} P (p : Prop) (m : M S E A) Q X :
  (p -> hoare P m Q X) -> hoare (fun s => P s /\ p) m Q X.
Proof. intros H s [Hs Hp]. by apply H. Qed.

Lemma hoare_zoom {T A} P (get : S -> T) (put : T -> S -> S) (m : M T E A) (Q : A -> S -> Prop) X :
  (forall s, P s -> let '(r, t) := m (get s) in match r with Ok a => Q a (put t s) | _ => X (put t s) end) ->
  hoare P (mzoom get put m) Q X.
Proof. intros H s Hs. specialize (H s Hs). unfold mzoom. by destruct (m (get s)) as [r t]. Qed.

Lemma hoare_bind_read {A B} P (f : S -> A) (k : A -> M S E B) Q X :
  (forall s, P s -> hoare (fun s' => s' = s) (k (f s)) Q X) -> hoare P (mread f ≫= k) Q X.
Proof. intros H s Hs. by apply (H s Hs). Qed.

Lemma hoare_bind_read_any {A B} P (f : S -> A) (k : A -> M S E B) Q X :
  (forall a, hoare P (k a) Q X) -> hoare P (mread f ≫= k) Q X.
Proof. intros H s Hs. by apply H. Qed.

Lemma hoare_bind_bail {B} P b (e : E) (k : unit -> M S E B) Q X :
  (forall s, P s -> X s) -> (b = false -> hoare P (k tt) Q X) -> hoare P (mbail b e ≫= k) Q X.
Proof. intros HX H s Hs. destruct b; [by apply HX|by apply H]. Qed.

Lemma hoare_bind_opt {A B} P (o : option A) (e : E) (k : A -> M S E B) Q X :
  (forall s, P s -> X s) -> (forall a, o = Some a -> hoare P (k a) Q X) -> hoare P (mopt o e ≫= k) Q X.
Proof. intros HX H s Hs. destruct o; [by apply H|by apply HX]. Qed.
End hoare.

(** [map_err]: the error of another crate, wrapped. *)
Definition mmap_err {S E F A} (f : E -> F) (m : M S E A) : M S F A := fun s =>
  match m s with
  | (Ok a, s) => (Ok a, s)
  | (Err e, s) => (Err (f e), s)
  | (Panic, s) => (Panic, s)
  end.

(** *** What a computation does not change

    [keeps R m]: however [m] ends, the states before and after are related by the preorder [R]. *)
Definition keeps {S E A} (R : S -> S -> Prop) (m : M S E A) : Prop := forall s, R s (m s).2.

Create HintDb keeps.

Section keeps.
Context {S : Type} (R : S -> S -> Prop) `{!PreOrder R}.

Lemma keeps_pure {E A} (m : M S E A) : (forall s, (m s).2 = s) -> keeps R m.
Proof. intros H s. by rewrite H. Qed.
Lemma keeps_ret {E A} (a : A) : keeps R (mret (M := M S E) a).
Proof. by apply keeps_pure. Qed.
Lemma keeps_read {E A} (f : S -> A) : keeps R (mread (E := E) f).
Proof. by apply keeps_pure. Qed.
Lemma keeps_fail {E A} (e : E) : keeps R (mfail (S := S) (A := A) e).
Proof. by apply keeps_pure. Qed.
Lemma keeps_bail {E} b (e : E) : keeps R (mbail (S := S) b e).
Proof. apply keeps_pure. intros s. by destruct b. Qed.
Lemma keeps_opt {E A} (o : option A) (e : E) : keeps R (mopt (S := S) o e).
Proof. apply keeps_pure. intros s. by destruct o. Qed.
Lemma keeps_write {E} (f : S -> S) : (forall s, R s (f s)) -> keeps R (mwrite (E := E) f).
Proof. intros H s. apply H. Qed.
Lemma keeps_bind {E A B} (m : M S E A) (k : A -> M S E B) : keeps R m -> (forall a, keeps R (k a)) -> keeps R (m ≫= k).
Proof.
  intros Hm Hk s. specialize (Hm s). unfold mbind, M_bind. destruct (m s) as [[a|e|] s']; simpl in *; [|done..].
  etransitivity; [exact Hm|apply Hk].
Qed.
Lemma keeps_or {E A} (m : M S E A) (k : E -> M S E A) : keeps R m -> (forall e, keeps R (k e)) -> keeps R (mor m k).
Proof.
  intros Hm Hk s. specialize (Hm s). unfold mor. destruct (m s) as [[a|e|] s']; simpl in *; [done| |done].
  etransitivity; [exact Hm|apply Hk].
Qed.
Lemma keeps_map_err {E F A} (f : E -> F) (m : M S E A) : keeps R m -> keeps R (mmap_err f m).
Proof. intros Hm s. specialize (Hm s). unfold mmap_err. by destruct (m s) as [[a|e|] s']. Qed.
Lemma keeps_zoom {T E A} (get : S -> T) (put : T -> S -> S) (m : M T E A) :
  (forall s, R s (put (m (get s)).2 s)) -> keeps R (mzoom get put m).
Proof. intros H s. specialize (H s). unfold mzoom. by destruct (m (get s)) as [r t]. Qed.
End keeps.

#[export] Hint Resolve keeps_ret keeps_read keeps_fail keeps_bail keeps_opt keeps_map_err : keeps.

(** Walks through a computation; what is left are its writes and the calls no hint covers. *)
Ltac keeps_step :=
  first
    [ progress (intros)
    | progress (eauto 2 with keeps typeclass_instances)
    | apply keeps_bind | apply keeps_or | apply keeps_map_err
    | match goal with |- keeps _ (match ?b with _ => _ end) => destruct b end ].
Ltac keeps_auto := repeat keeps_step.

(** ** Frames

    [frames f c]: running [c] does not change the part [f] of the state, whatever its outcome. *)

Definition frames {S E A T} (f : S -> T) (c : M S E A) : Prop := forall s, f (c s).2 = f s.

Section frames.
Context {S E T : Type} (f : S -> T).
Lemma frames_bind {A B} (c : M S E A) (k : A -> M S E B) : frames f c -> (forall a, frames f (k a)) -> frames f (c ≫= k).
Proof. intros Hc Hk s. specialize (Hc s). unfold mbind, M_bind. destruct (c s) as [[a|e|] s1]; simpl in *; [by rewrite Hk|done..]. Qed.
Lemma frames_ret {A} (a : A) : frames (E := E) f (mret a).
Proof. done. Qed.
Lemma frames_read {A} (g : S -> A) : frames (E := E) f (mread g).
Proof. done. Qed.
Lemma frames_write g : (forall s, f (g s) = f s) -> frames (E := E) f (mwrite g).
Proof. intros H s. apply H. Qed.
Lemma frames_bail b (e : E) : frames f (mbail b e).
Proof. by destruct b. Qed.
Lemma frames_opt {A} (o : option A) (e : E) : frames f (mopt o e).
Proof. by destruct o. Qed.
Lemma frames_result {A} (r : result E A) : frames f (mresult r).
Proof. done. Qed.
Lemma frames_panic {A} : frames (A := A) (E := E) f mpanic.
Proof. done. Qed.
Lemma frames_when b (c : M S E unit) : frames f c -> frames f (mwhen b c).
Proof. by destruct b. Qed.
Lemma frames_or {A} (c : M S E A) k : frames f c -> (forall e, frames f (k e)) -> frames f (mor c k).
Proof. intros Hc Hk s. specialize (Hc s). unfold mor. destruct (c s) as [[a|e|] s1]; simpl in *; [done|by rewrite Hk|done]. Qed.
Lemma frames_err {A E'} (h : E' -> E) (c : M S E' A) : frames f c -> frames f (mmap_err h c).
Proof. intros Hc s. specialize (Hc s). unfold mmap_err. by destruct (c s) as [[a|e|] s1]. Qed.
Lemma frames_zoom {A T'} (get : S -> T') put (c : M T' E A) : (forall x s, f (put x s) = f s) -> frames f (mzoom get put c).
Proof. intros H s. unfold mzoom. destruct (c (get s)) as [r x]. apply H. Qed.
End frames.
Create HintDb frame.
#[export] Hint Resolve frames_ret frames_read frames_bail frames_opt frames_result frames_panic frames_when frames_or frames_err : frame.
#[export] Hint Extern 1 (frames _ (mwrite _)) => apply frames_write; done : frame.
#[export] Hint Extern 1 (frames _ (mzoom _ _ _)) => apply frames_zoom; done : frame.
#[export] Hint Extern 2 (frames _ (_ ≫= _)) => apply frames_bind; [|intros] : frame.
Ltac solve_frames := repeat (cbv zeta; first [solve [auto with frame] | apply frames_bind; [|intros ?] | case_match]).
