(* ===== verification/F64.v ===== *)
(** * IEEE-754 binary64

    Rust's [f64] as the Standard Library's executable [spec_float] at precision 53 and
    maximal exponent 1024: the arithmetic is round-to-nearest-even, the comparisons are
    those of the standard ([NaN] compares with nothing), and the [as] casts saturate.  The
    transcendental functions ([powf], [exp]) come from the platform's maths library and are
    parameters of the definitions that use them. *)

From Stdlib Require Export SpecFloat.
From S2P Require Import Prelude.

Abbreviation f64 := spec_float.

Definition f64_prec : Z := 53.
Definition f64_emax : Z := 1024.

Definition f64_add : f64 -> f64 -> f64 := SFadd f64_prec f64_emax.
Definition f64_sub : f64 -> f64 -> f64 := SFsub f64_prec f64_emax.
Definition f64_mul : f64 -> f64 -> f64 := SFmul f64_prec f64_emax.
Definition f64_div : f64 -> f64 -> f64 := SFdiv f64_prec f64_emax.
Definition f64_abs : f64 -> f64 := SFabs.
Definition f64_sqrt : f64 -> f64 := SFsqrt f64_prec f64_emax.

(** [partial_cmp] and the comparison operators. *)
Definition f64_partial_cmp : f64 -> f64 -> option comparison := SFcompare.
Definition f64_ltb : f64 -> f64 -> bool := SFltb.
Definition f64_leb : f64 -> f64 -> bool := SFleb.
Definition f64_eqb : f64 -> f64 -> bool := SFeqb.
Definition f64_gtb (x y : f64) : bool := SFltb y x.
Definition f64_geb (x y : f64) : bool := SFleb y x.

(** An integer cast [as f64]: the nearest double, ties to even. *)
Definition f64_of_Z (z : Z) : f64 := binary_normalize f64_prec f64_emax z 0 false.

(** The value rounded toward zero; [None] for an infinity or a [NaN]. *)
Definition f64_trunc (x : f64) : option Z :=
  match x with
  | S754_zero _ => Some 0
  | S754_finite s m e =>
      let a := if 0 <=? e then Z.pos m * 2 ^ e else Z.pos m / 2 ^ (- e) in
      Some (if s then - a else a)
  | _ => None
  end.

(** A cast of a float [as u64] (or another unsigned type with largest value [max])
    truncates and saturates; [NaN] becomes 0. *)
Definition f64_to_uint (max : Z) (x : f64) : Z :=
  match x with
  | S754_infinity s => if s then 0 else max
  | S754_nan => 0
  | _ => Z.max 0 (Z.min (default 0 (f64_trunc x)) max)
  end.
Definition f64_to_u64 : f64 -> Z := f64_to_uint u64_max.
Definition f64_to_u32 : f64 -> Z := f64_to_uint u32_max.
(** The same [as i64]. *)
Definition f64_to_i64 (x : f64) : Z :=
  match x with
  | S754_infinity s => if s then - 2 ^ 63 else 2 ^ 63 - 1
  | S754_nan => 0
  | _ => Z.max (- 2 ^ 63) (Z.min (default 0 (f64_trunc x)) (2 ^ 63 - 1))
  end.

Definition f64_zero : f64 := S754_zero false.
Definition f64_infinity : f64 := S754_infinity false.
Definition is_nan (x : f64) : bool := match x with S754_nan => true | _ => false end.
Definition is_finite (x : f64) : bool := match x with S754_zero _ => true | S754_finite _ _ _ => true | _ => false end.

(** A quotient of two integers exactly representable as doubles: a decimal literal such as
    [0.2] is the double nearest to [1/5], which the correctly rounded division returns. *)
Definition f64_lit (n d : Z) : f64 := f64_div (f64_of_Z n) (f64_of_Z d).

#[export] Instance spec_float_eq_dec : EqDecision f64.
Proof. solve_decision. Defined.

Lemma f64_to_uint_range max x : 0 <= max -> 0 <= f64_to_uint max x <= max.
Proof. intros. destruct x as [|[]| |]; simpl; lia. Qed.

(** ** Order *)

Lemma f64_partial_cmp_None x y :
  f64_partial_cmp x y = None <-> is_nan x = true \/ is_nan y = true.
Proof.
  unfold f64_partial_cmp, SFcompare.
  destruct x as [[]|[]| |[]], y as [[]|[]| |[]]; simpl; repeat case_match; naive_solver.
Qed.

Lemma f64_partial_cmp_refl x : is_nan x = false -> f64_partial_cmp x x = Some Eq.
Proof.
  destruct x as [[]|[]| |[] m e]; simpl; try done; intros _; unfold f64_partial_cmp, SFcompare;
    by rewrite Z.compare_refl, Pos.compare_cont_refl.
Qed.

Lemma f64_partial_cmp_antisym x y :
  f64_partial_cmp y x = CompOpp <$> f64_partial_cmp x y.
Proof.
  unfold f64_partial_cmp, SFcompare.
  destruct x as [[]|[]| |[] m e], y as [[]|[]| |[] m' e']; simpl; try done.
  - rewrite (Z.compare_antisym e e'). destruct (e ?= e'); simpl; try done.
    by rewrite (Pos.compare_cont_antisym m m' Eq).
  - rewrite (Z.compare_antisym e e'). destruct (e ?= e'); simpl; try done.
    by rewrite (Pos.compare_cont_antisym m m' Eq).
Qed.

(** A rank that represents the order of the non-[NaN] doubles in a lexicographic product of
    integers, so that transitivity is inherited. *)
Definition f64_rank (x : f64) : Z * (Z * Z) :=
  match x with
  | S754_infinity true => (-2, (0, 0))
  | S754_finite true m e => (-1, (- e, - Z.pos m))
  | S754_zero _ | S754_nan => (0, (0, 0))
  | S754_finite false m e => (1, (e, Z.pos m))
  | S754_infinity false => (2, (0, 0))
  end.

Definition rank_compare (a b : Z * (Z * Z)) : comparison :=
  match a.1 ?= b.1 with
  | Eq => match a.2.1 ?= b.2.1 with Eq => a.2.2 ?= b.2.2 | c => c end
  | c => c
  end.

Lemma f64_partial_cmp_rank x y :
  is_nan x = false -> is_nan y = false ->
  f64_partial_cmp x y = Some (rank_compare (f64_rank x) (f64_rank y)).
Proof.
  unfold f64_partial_cmp, SFcompare, rank_compare.
  destruct x as [[]|[]| |[] m e], y as [[]|[]| |[] m' e']; simpl; try done; intros _ _.
  - rewrite Z.compare_opp, (Z.compare_antisym e e'). by destruct (e ?= e').
Qed.

Lemma f64_leb_rank x y :
  is_nan x = false -> is_nan y = false ->
  f64_leb x y = true <-> rank_compare (f64_rank x) (f64_rank y) <> Gt.
Proof.
  intros Hx Hy. unfold f64_leb, SFleb. change (SFcompare x y) with (f64_partial_cmp x y).
  rewrite f64_partial_cmp_rank by done. destruct (rank_compare _ _); naive_solver.
Qed.

Lemma rank_compare_le a b :
  rank_compare a b <> Gt <->
  a.1 < b.1 \/ (a.1 = b.1 /\ (a.2.1 < b.2.1 \/ (a.2.1 = b.2.1 /\ a.2.2 <= b.2.2))).
Proof.
  unfold rank_compare.
  destruct (Z.compare_spec a.1 b.1), (Z.compare_spec a.2.1 b.2.1), (Z.compare_spec a.2.2 b.2.2);
    split; intros; try done; lia.
Qed.

Lemma rank_compare_le_trans a b c :
  rank_compare a b <> Gt -> rank_compare b c <> Gt -> rank_compare a c <> Gt.
Proof. rewrite !rank_compare_le. lia. Qed.

Lemma f64_leb_trans x y z :
  is_nan y = false -> f64_leb x y = true -> f64_leb y z = true -> f64_leb x z = true.
Proof.
  intros Hy Hxy Hyz.
  assert (is_nan x = false) by (by destruct x).
  assert (is_nan z = false) by (destruct z; try done; by destruct y as [|[]| |[]]).
  rewrite f64_leb_rank in * by done. by eapply rank_compare_le_trans.
Qed.

Lemma f64_leb_total x y :
  is_nan x = false -> is_nan y = false -> f64_leb x y = false -> f64_leb y x = true.
Proof.
  intros Hx Hy. unfold f64_leb, SFleb.
  change (SFcompare x y) with (f64_partial_cmp x y). change (SFcompare y x) with (f64_partial_cmp y x).
  rewrite (f64_partial_cmp_antisym x y), f64_partial_cmp_rank by done.
  by destruct (rank_compare _ _).
Qed.

Lemma f64_leb_refl x : is_nan x = false -> f64_leb x x = true.
Proof.
  intros Hx. unfold f64_leb, SFleb. change (SFcompare x x) with (f64_partial_cmp x x).
  by rewrite f64_partial_cmp_refl.
Qed.

(** ** Casts from integers are never [NaN] *)

Definition f64_sign (x : f64) : bool :=
  match x with S754_zero s | S754_infinity s | S754_finite s _ _ => s | S754_nan => false end.

Lemma shr_1_nonneg r : 0 <= shr_m r -> 0 <= shr_m (shr_1 r).
Proof. destruct r as [[|[]|[]] r s]; simpl; lia. Qed.

Lemma iter_pos_invariant {A} (P : A -> Prop) (g : A -> A) (n : positive) (x : A) :
  (forall y, P y -> P (g y)) -> P x -> P (SpecFloat.iter_pos g n x).
Proof. intros Hg. revert x; induction n as [n IH|n IH|]; intros x Hx; simpl; auto. Qed.

Lemma shr_fexp_nonneg m e l : 0 <= m -> 0 <= shr_m (shr_fexp f64_prec f64_emax m e l).1.
Proof.
  intros Hm. assert (0 <= shr_m (shr_record_of_loc m l)) by (by destruct l as [|[]]).
  unfold shr_fexp, shr. destruct (_ - _); simpl; try done.
  apply (iter_pos_invariant (fun r => 0 <= shr_m r)); [apply shr_1_nonneg|done].
Qed.

Lemma binary_round_aux_ok s m e l :
  0 <= m -> let x := binary_round_aux f64_prec f64_emax s m e l in is_nan x = false /\ f64_sign x = s.
Proof.
  intros Hm. unfold binary_round_aux.
  pose proof (shr_fexp_nonneg m e l Hm) as H1. destruct (shr_fexp _ _ m e l) as [r1 e1]. simpl in H1.
  assert (0 <= round_nearest_even (shr_m r1) (loc_of_shr_record r1)) as H2
    by (unfold round_nearest_even; repeat case_match; lia).
  pose proof (shr_fexp_nonneg _ e1 loc_Exact H2) as H3. destruct (shr_fexp _ _ _ e1 loc_Exact) as [r2 e2].
  simpl in H3. destruct (shr_m r2); [done| |lia]. by destruct (e2 <=? _).
Qed.

Lemma f64_of_Z_ok z : is_nan (f64_of_Z z) = false /\ f64_sign (f64_of_Z z) = (z <? 0).
Proof.
  unfold f64_of_Z, binary_normalize. destruct z as [|z|z]; [done|..];
    unfold binary_round; destruct (shl_align _ _ _) as [mz ez]; by apply binary_round_aux_ok.
Qed.

Lemma f64_zero_le x : is_nan x = false -> f64_sign x = false -> f64_leb f64_zero x = true.
Proof. by destruct x as [[]|[]| |[]]. Qed.

(** [f64::max]: a [NaN] operand is ignored. *)
Definition f64_max (x y : f64) : f64 :=
  if is_nan x then y else if is_nan y then x else if f64_ltb x y then y else x.

Lemma f64_max_nonneg x y :
  is_nan x = false -> f64_sign x = false -> is_nan y = false ->
  is_nan (f64_max x y) = false /\ f64_sign (f64_max x y) = false.
Proof.
  intros Hx Hsx Hy. unfold f64_max. rewrite Hx, Hy. destruct (f64_ltb x y) eqn:E; [|done].
  split; [done|]. destruct x as [[]|[]| |[]], y as [[]|[]| |[]]; done.
Qed.

(** [f64::min] likewise. *)
Definition f64_min (x y : f64) : f64 :=
  if is_nan x then y else if is_nan y then x else if f64_ltb y x then y else x.

(** [f64::clamp]: a [NaN] stays. *)
Definition f64_clamp (lo hi x : f64) : f64 := if f64_ltb x lo then lo else if f64_gtb x hi then hi else x.

Definition f64_neg : f64 -> f64 := SFopp.

Lemma f64_ltb_leb x y : is_nan x = false -> is_nan y = false -> f64_ltb x y = negb (f64_leb y x).
Proof.
  intros Hx Hy. unfold f64_ltb, f64_leb, SFltb, SFleb.
  change (SFcompare x y) with (f64_partial_cmp x y). change (SFcompare y x) with (f64_partial_cmp y x).
  rewrite (f64_partial_cmp_antisym x y), f64_partial_cmp_rank by done. by destruct (rank_compare _ _).
Qed.

Lemma f64_leb_not_nan x y : f64_leb x y = true -> is_nan x = false /\ is_nan y = false.
Proof. by destruct x as [[]|[]| |[]], y as [[]|[]| |[]]. Qed.

Lemma f64_ltb_le x y : f64_ltb x y = true -> f64_leb x y = true.
Proof. unfold f64_ltb, f64_leb, SFltb, SFleb. by destruct (SFcompare x y) as [[]|]. Qed.

Lemma f64_max_ge_r x y : is_nan y = false -> f64_leb y (f64_max x y) = true.
Proof.
  intros Hy. unfold f64_max. destruct (is_nan x) eqn:Hx; [by apply f64_leb_refl|]. rewrite Hy.
  rewrite f64_ltb_leb by done. destruct (f64_leb y x) eqn:E; simpl; [done|by apply f64_leb_refl].
Qed.

Lemma f64_max_ge_l x y : is_nan x = false -> f64_leb x (f64_max x y) = true.
Proof.
  intros Hx. unfold f64_max. rewrite Hx. destruct (is_nan y) eqn:Hy; [by apply f64_leb_refl|].
  destruct (f64_ltb x y) eqn:E; [by apply f64_ltb_le|by apply f64_leb_refl].
Qed.

Lemma f64_max_case x y : f64_max x y = x \/ f64_max x y = y.
Proof. unfold f64_max. repeat case_match; auto. Qed.

Lemma f64_min_le_r x y : is_nan y = false -> f64_leb (f64_min x y) y = true.
Proof.
  intros Hy. unfold f64_min. destruct (is_nan x) eqn:Hx; [by apply f64_leb_refl|]. rewrite Hy.
  rewrite f64_ltb_leb by done. destruct (f64_leb x y) eqn:E; simpl; [done|by apply f64_leb_refl].
Qed.

Lemma f64_clamp_range lo hi x :
  f64_leb lo hi = true ->
  (is_nan (f64_clamp lo hi x) = true /\ is_nan x = true) \/
  (f64_leb lo (f64_clamp lo hi x) = true /\ f64_leb (f64_clamp lo hi x) hi = true).
Proof.
  intros Hle. destruct (f64_leb_not_nan _ _ Hle) as [Hlo Hhi]. unfold f64_clamp, f64_gtb.
  change (SFltb hi x) with (f64_ltb hi x).
  destruct (is_nan x) eqn:Hx.
  { left. by destruct x, lo as [[]|[]| |[]], hi as [[]|[]| |[]]. }
  right. rewrite !f64_ltb_leb by done.
  destruct (f64_leb lo x) eqn:E1; simpl; [|by rewrite f64_leb_refl].
  destruct (f64_leb x hi) eqn:E2; simpl; [done|by rewrite f64_leb_refl].
Qed.

Lemma f64_add_nonneg x y :
  is_nan x = false -> f64_sign x = false -> is_nan y = false -> f64_sign y = false ->
  is_nan (f64_add x y) = false /\ f64_sign (f64_add x y) = false.
Proof.
  intros Hx Hsx Hy Hsy. unfold f64_add, SFadd.
  destruct x as [[]|[]| |[] m e], y as [[]|[]| |[] m' e']; try done. simpl cond_Zopp. unfold binary_normalize.
  destruct (_ + _) as [|z|z] eqn:E; [done| |].
  - clear E. unfold binary_round. destruct (shl_align z _ _) as [mz ez]. by apply binary_round_aux_ok.
  - exfalso. pose proof (Pos2Z.neg_is_neg z). simpl in E.
    destruct (shl_align m e (Z.min e e')) as [a ?], (shl_align m' e' (Z.min e e')) as [b ?]. simpl in E. lia.
Qed.

Lemma f64_div_finite m e m' e' :
  let x := f64_div (S754_finite false m e) (S754_finite false m' e') in is_nan x = false /\ f64_sign x = false.
Proof.
  unfold f64_div, SFdiv. destruct (SFdiv_core_binary _ _ _ _ _ _) as [[q e0] l] eqn:E. cbn [xorb].
  apply binary_round_aux_ok. revert E. unfold SFdiv_core_binary. cbv zeta.
  match goal with |- (let '(_, _) := Z.div_eucl ?a ?b in _) = _ -> _ =>
    assert (0 <= a) as Ha; [|assert (0 <= b) as Hb; [|pose proof (Z.div_pos a b) as Hq; unfold Z.div in Hq; destruct (Z.div_eucl a b) as [q' r]]] end.
  - repeat case_match; try lia. by apply Z.shiftl_nonneg.
  - repeat case_match; try lia. 
  - intros [= <- _ _]. destruct (decide (Z.pos m' = 0)); [done|]. apply Hq; [done|]. repeat case_match; lia.
Qed.

Lemma f64_div_sign x y : f64_sign x = false -> f64_sign y = false -> f64_sign (f64_div x y) = false.
Proof. intros Hsx Hsy. destruct x as [[]|[]| |[] m e], y as [[]|[]| |[] m' e']; try done. apply f64_div_finite. Qed.

(** ** Powers

    [f64::powi], whose precision the documentation leaves open, is a parameter of the definitions that use
    it.  Of a positive integer every power is a number that is not negative: in particular of the power
    rounded once, which is one of the values the documentation allows. *)
Definition powers_nonneg (powi : f64 -> Z -> f64) : Prop :=
  forall b n, 0 < b -> is_nan (powi (f64_of_Z b) n) = false /\ f64_sign (powi (f64_of_Z b) n) = false.

Definition powi_rounded (x : f64) (n : Z) : f64 :=
  match f64_trunc x with
  | Some z => if 0 <=? n then f64_of_Z (z ^ n) else f64_div (f64_of_Z 1) (f64_of_Z (z ^ (- n)))
  | None => x
  end.

Lemma f64_trunc_nonneg x z : f64_sign x = false -> f64_trunc x = Some z -> 0 <= z.
Proof. destruct x as [| | |[] m e]; simpl; intros Hs [= <-]; [done|done|]. destruct (Z.leb_spec 0 e); [apply Z.mul_nonneg_nonneg; [lia|by apply Z.pow_nonneg]|apply Z.div_pos; [lia|apply Z.pow_pos_nonneg; lia]]. Qed.

Lemma powi_rounded_nonneg : powers_nonneg powi_rounded.
Proof.
  intros b n Hb. destruct (f64_of_Z_ok b) as [Hn Hs]. rewrite (proj2 (Z.ltb_ge b 0)) in Hs by lia. unfold powi_rounded.
  destruct (f64_trunc (f64_of_Z b)) as [z|] eqn:E; [|by rewrite Hn, Hs]. pose proof (f64_trunc_nonneg _ _ Hs E) as Hz.
  assert (forall k, is_nan (f64_of_Z (z ^ k)) = false /\ f64_sign (f64_of_Z (z ^ k)) = false) as Hp.
  { intros k. destruct (f64_of_Z_ok (z ^ k)) as [-> ->]. split; [done|]. apply Z.ltb_ge. by apply Z.pow_nonneg. }
  destruct (0 <=? n); [apply Hp|]. destruct (Hp (- n)) as [Hn' Hs']. change (f64_of_Z 1) with (S754_finite false (2 ^ 52) (-52)).
  destruct (f64_of_Z (z ^ (- n))) as [[]|[]| |[] m e]; try done. apply f64_div_finite.
Qed.

Lemma binary_round_sign s m e : binary_round f64_prec f64_emax (negb s) m e = f64_neg (binary_round f64_prec f64_emax s m e).
Proof.
  unfold binary_round. destruct (shl_align _ _ _) as [mz ez]. unfold binary_round_aux.
  destruct (shr_fexp _ _ _ ez loc_Exact) as [r1 e1]. destruct (shr_fexp _ _ _ e1 loc_Exact) as [r2 e2].
  destruct (shr_m r2); [done| |done]. by destruct (e2 <=? _).
Qed.

(** Swapping the operands of a difference changes its sign, but a zero stays positive. *)
Lemma f64_sub_swap x y : f64_sub y x = f64_neg (f64_sub x y) \/ f64_sub y x = f64_zero /\ f64_sub x y = f64_zero.
Proof.
  unfold f64_sub, SFsub. destruct x as [[]|[]| |[] m e], y as [[]|[]| |[] m' e']; auto.
  all: rewrite (Z.min_comm e' e); set (e0 := Z.min e e').
  all: match goal with |- binary_normalize _ _ ?a _ _ = f64_neg (binary_normalize _ _ ?b _ _) \/ _ => 
    assert (a = - b) as -> by (simpl; lia); destruct b; simpl; auto; left end.
  all: try apply (binary_round_sign false); try apply (binary_round_sign true).
Qed.

Lemma f64_add_zero x : x <> S754_zero true -> f64_add x f64_zero = x.
Proof. by destruct x as [[]|[]| |[]]. Qed.

Lemma f64_leb_ltb_trans x y z : f64_leb x y = true -> f64_ltb y z = true -> f64_ltb x z = true.
Proof.
  intros Hxy Hyz. destruct (f64_leb_not_nan _ _ Hxy) as [Hx Hy].
  destruct (f64_leb_not_nan _ _ (f64_ltb_le _ _ Hyz)) as [_ Hz]. rewrite f64_ltb_leb in * by done.
  apply negb_true_iff in Hyz. apply negb_true_iff. destruct (f64_leb z x) eqn:E; [|done].
  rewrite <-Hyz. symmetry. by apply (f64_leb_trans _ x).
Qed.

(** ** [NaN] *)

Lemma f64_add_nan_l x : f64_add S754_nan x = S754_nan.
Proof. done. Qed.
Lemma f64_add_nan_r x : f64_add x S754_nan = S754_nan.
Proof. by destruct x. Qed.
Lemma f64_sub_nan_l x : f64_sub S754_nan x = S754_nan.
Proof. done. Qed.
Lemma f64_mul_nan_r x : f64_mul x S754_nan = S754_nan.
Proof. by destruct x. Qed.
Lemma f64_div_nan_l x : f64_div S754_nan x = S754_nan.
Proof. done. Qed.
Lemma f64_div_nan_r x : f64_div x S754_nan = S754_nan.
Proof. by destruct x. Qed.
Lemma f64_ltb_nan x y : x = S754_nan \/ y = S754_nan -> f64_ltb x y = false.
Proof. by intros [->| ->]; [|destruct x as [[]|[]| |[]]]. Qed.
Lemma f64_leb_nan x y : x = S754_nan \/ y = S754_nan -> f64_leb x y = false.
Proof. by intros [->| ->]; [|destruct x as [[]|[]| |[]]]. Qed.

(** A [NaN] anywhere in a sum makes it a [NaN]. *)
Lemma foldl_add_nan l : foldl f64_add S754_nan l = S754_nan.
Proof. by induction l. Qed.
Lemma foldl_add_elem_nan l acc : S754_nan ∈ l -> foldl f64_add acc l = S754_nan.
Proof.
  revert acc. induction l as [|x l IH]; intros acc; [by intros ?%elem_of_nil|].
  intros [<-|Hl]%elem_of_cons; simpl; [|by apply IH]. rewrite f64_add_nan_r. apply foldl_add_nan.
Qed.

(** ** Integers as floats

    Below [2 ^ 53] every integer is a double; from there on the exponent is positive. *)

Lemma digits2_bound p : 2 ^ (Z.pos (digits2_pos p) - 1) <= Z.pos p < 2 ^ Z.pos (digits2_pos p).
Proof.
  induction p as [p IH|p IH|]; cbn [digits2_pos]; [| |lia];
    rewrite Pos2Z.inj_succ; replace (Z.succ (Z.pos (digits2_pos p)) - 1) with (Z.succ (Z.pos (digits2_pos p) - 1)) by lia;
    rewrite !Z.pow_succ_r by lia; lia.
Qed.

Lemma iter_xO p k : Z.pos (Pos.iter xO p k) = Z.pos p * 2 ^ Z.pos k /\ Z.pos (digits2_pos (Pos.iter xO p k)) = Z.pos (digits2_pos p) + Z.pos k.
Proof.
  induction k as [|k IH] using Pos.peano_ind; [cbn; lia|]. rewrite Pos.iter_succ. destruct IH as [IH1 IH2].
  rewrite !Pos2Z.inj_succ, Z.pow_succ_r by lia. cbn [digits2_pos]. rewrite Pos2Z.inj_succ. lia.
Qed.

Lemma binary_round_exact s p : Z.pos p < 2 ^ 53 ->
  exists m e, binary_round f64_prec f64_emax s p 0 = S754_finite s m e /\ e <= 0 /\ Z.pos m = Z.pos p * 2 ^ (- e) /\ Z.pos (digits2_pos m) = 53 /\ e = Z.pos (digits2_pos p) - 53.
Proof.
  intros Hp. pose proof (digits2_bound p) as [Hlo _].
  assert (1 <= Z.pos (digits2_pos p) <= 53) as Hd.
  { split; [lia|]. destruct (Z.le_gt_cases (Z.pos (digits2_pos p)) 53) as [|H]; [done|].
    pose proof (Z.pow_le_mono_r 2 53 (Z.pos (digits2_pos p) - 1) ltac:(lia) ltac:(lia)). lia. }
  assert (forall m e, e <= 0 -> Z.pos (digits2_pos m) = 53 -> -52 <= e -> binary_round_aux f64_prec f64_emax s (Z.pos m) e loc_Exact = S754_finite s m e) as Haux.
  { intros m e He Hm He'. unfold binary_round_aux, shr_fexp. cbn [Zdigits2]. rewrite Hm.
    assert (fexp f64_prec f64_emax (53 + e) - e = 0) as E by (unfold fexp, emin, f64_prec, f64_emax; lia). rewrite E. cbn [shr shr_record_of_loc shr_m loc_of_shr_record round_nearest_even Zdigits2].
    rewrite Hm, E. cbn. destruct (Z.leb_spec e (f64_emax - f64_prec)) as [|H]; [done|unfold f64_emax, f64_prec in H; lia]. }
  unfold binary_round. rewrite Z.add_0_r.
  replace (fexp f64_prec f64_emax (Z.pos (digits2_pos p))) with (Z.pos (digits2_pos p) - 53) by (unfold fexp, emin, f64_prec, f64_emax; lia).
  unfold shl_align. rewrite Z.sub_0_r. destruct (Z.pos (digits2_pos p) - 53) as [|k|k] eqn:E; [|lia|].
  - exists p, 0. rewrite Haux by lia. split; [done|]. lia.
  - destruct (iter_xO p k) as [H1 H2]. exists (Pos.iter xO p k), (Z.neg k). rewrite Haux by lia. split; [done|]. rewrite H1. cbn [Z.opp]. split_and!; [lia|done|lia|lia].
Qed.

Lemma f64_of_Z_exact z : Z.abs z < 2 ^ 53 -> f64_trunc (f64_of_Z z) = Some z.
Proof.
  intros Hz. unfold f64_of_Z, binary_normalize. destruct z as [|p|p]; [done|..].
  - destruct (binary_round_exact false p Hz) as (m & e & -> & He & Hm & _). cbn [f64_trunc]. f_equal. destruct (Z.leb_spec 0 e) as [H|H].
    + replace e with 0 in * by lia. lia.
    + rewrite Hm, Z.div_mul; [done|]. apply Z.pow_nonzero; lia.
  - destruct (binary_round_exact true p Hz) as (m & e & -> & He & Hm & _). cbn [f64_trunc]. f_equal. destruct (Z.leb_spec 0 e) as [H|H].
    + replace e with 0 in * by lia. lia.
    + rewrite Hm, Z.div_mul; [done|]. apply Z.pow_nonzero; lia.
Qed.

Definition two53 : f64 := f64_of_Z (2 ^ 53).

Lemma two53_eq : two53 = S754_finite false (2 ^ 52) 1.
Proof. vm_compute. reflexivity. Qed.
Lemma ltb_finite s m e c e' : f64_ltb (f64_abs (S754_finite s m e)) (S754_finite false c e') = match e ?= e' with Lt => true | Gt => false | Eq => (m <? c)%positive end.
Proof. unfold f64_ltb, SFltb, f64_abs, SFabs, SFcompare, Pos.ltb. change (Pos.compare_cont Eq m c) with (Pos.compare m c). by destruct (e ?= e'). Qed.

Lemma f64_of_Z_below z : Z.abs z < 2 ^ 53 -> f64_ltb (f64_abs (f64_of_Z z)) two53 = true.
Proof.
  intros Hz. unfold f64_of_Z, binary_normalize. destruct z as [|p|p]; [reflexivity|..].
  - destruct (binary_round_exact false p Hz) as (m & e & -> & He & _). rewrite two53_eq, ltb_finite. destruct (Z.compare_spec e 1); [lia|reflexivity|lia].
  - destruct (binary_round_exact true p Hz) as (m & e & -> & He & _). rewrite two53_eq, ltb_finite. destruct (Z.compare_spec e 1); [lia|reflexivity|lia].
Qed.

(** Shifting right by [k] places divides by [2 ^ k]. *)
Lemma shr_1_div r : 0 <= shr_m r -> shr_m (shr_1 r) = shr_m r / 2.
Proof.
  destruct r as [[|[p|p|]|p] b b']; cbn; try done; intros _.
  - rewrite (Pos2Z.inj_xI p). apply Z.div_unique with 1; lia.
  - rewrite (Pos2Z.inj_xO p). apply Z.div_unique with 0; lia.
Qed.
Lemma shr_div k r : 0 <= shr_m r -> shr_m (SpecFloat.iter_pos shr_1 k r) = shr_m r / 2 ^ Z.pos k.
Proof.
  revert r. induction k as [k IH|k IH|]; intros r Hr; cbn [SpecFloat.iter_pos].
  - assert (0 <= shr_m (shr_1 r)) as H1 by by apply shr_1_nonneg.
    assert (0 <= shr_m (SpecFloat.iter_pos shr_1 k (shr_1 r))) as H2 by (apply (iter_pos_invariant (fun y => 0 <= shr_m y)); [apply shr_1_nonneg|done]).
    rewrite !IH, shr_1_div by done. rewrite !Z.div_div by lia. f_equal. rewrite (Pos2Z.inj_xI k).
    replace (2 * Z.pos k + 1) with (1 + Z.pos k + Z.pos k) by lia. rewrite !Z.pow_add_r by lia. lia.
  - assert (0 <= shr_m (SpecFloat.iter_pos shr_1 k r)) as H2 by (apply (iter_pos_invariant (fun y => 0 <= shr_m y)); [apply shr_1_nonneg|done]).
    rewrite !IH by done. rewrite !Z.div_div by lia. f_equal. rewrite (Pos2Z.inj_xO k). replace (2 * Z.pos k) with (Z.pos k + Z.pos k) by lia. rewrite Z.pow_add_r by lia. lia.
  - by rewrite shr_1_div.
Qed.

Lemma digits2_unique p d : 2 ^ (d - 1) <= Z.pos p < 2 ^ d -> Z.pos (digits2_pos p) = d.
Proof.
  intros [H1 H2]. pose proof (digits2_bound p) as [H3 H4].
  assert (0 <= d) as Hd0 by (destruct (Z.le_gt_cases 0 d) as [|H]; [done|rewrite (Z.pow_neg_r 2 d) in H2 by lia; lia]).
  destruct (Z.lt_trichotomy (Z.pos (digits2_pos p)) d) as [H|[H|H]]; [|done|].
  - pose proof (Z.pow_le_mono_r 2 (Z.pos (digits2_pos p)) (d - 1) ltac:(lia) ltac:(lia)). lia.
  - pose proof (Z.pow_le_mono_r 2 d (Z.pos (digits2_pos p) - 1) ltac:(lia) ltac:(lia)). lia.
Qed.

(** From [2 ^ 53] on the mantissa is full and the exponent positive. *)
Lemma binary_round_large s p : 2 ^ 53 <= Z.pos p < 2 ^ 64 ->
  exists m e, binary_round f64_prec f64_emax s p 0 = S754_finite s m e /\ 1 <= e /\ 2 ^ 52 <= Z.pos m < 2 ^ 53 /\ e <= 12.
Proof.
  intros [Hlo Hhi]. pose proof (digits2_bound p) as [Hd1 Hd2].
  assert (54 <= Z.pos (digits2_pos p) <= 64) as Hd.
  { split; apply Znot_gt_le; intros H.
    - pose proof (Z.pow_le_mono_r 2 (Z.pos (digits2_pos p)) 53 ltac:(lia) ltac:(lia)). lia.
    - pose proof (Z.pow_le_mono_r 2 64 (Z.pos (digits2_pos p) - 1) ltac:(lia) ltac:(lia)). lia. }
  unfold binary_round. rewrite Z.add_0_r. assert (exists k, Z.pos k = Z.pos (digits2_pos p) - 53) as [k Hk] by (exists (Z.to_pos (Z.pos (digits2_pos p) - 53)); lia).
  replace (fexp f64_prec f64_emax (Z.pos (digits2_pos p))) with (Z.pos k) by (unfold fexp, emin, f64_prec, f64_emax; lia). assert (shl_align p 0 (Z.pos k) = (p, 0)) as -> by reflexivity.
  unfold binary_round_aux. unfold shr_fexp at 1. cbn [Zdigits2]. rewrite Z.add_0_r.
  replace (fexp f64_prec f64_emax (Z.pos (digits2_pos p)) - 0) with (Z.pos k) by (unfold fexp, emin, f64_prec, f64_emax; lia).
  cbn [shr shr_record_of_loc]. rewrite (Z.add_0_l (Z.pos k)). set (r := SpecFloat.iter_pos shr_1 k _). assert (shr_m r = Z.pos p / 2 ^ Z.pos k) as Hr by by apply (shr_div k {| shr_m := Z.pos p; shr_r := false; shr_s := false |}).
  assert (2 ^ 52 <= shr_m r < 2 ^ 53) as Hrb.
  { rewrite Hr. split.
    - apply Z.div_le_lower_bound; [lia|]. rewrite <-Z.pow_add_r by lia. replace (Z.pos k + 52) with (Z.pos (digits2_pos p) - 1) by lia. done.
    - apply Z.div_lt_upper_bound; [lia|]. rewrite <-Z.pow_add_r by lia. replace (Z.pos k + 53) with (Z.pos (digits2_pos p)) by lia. done. }
  clearbody r. set (q := round_nearest_even _ _). assert (q = shr_m r \/ q = shr_m r + 1) as Hq by (unfold q, round_nearest_even; repeat case_match; auto).
  clearbody q. assert (exists mq, q = Z.pos mq) as [mq ->] by (exists (Z.to_pos q); lia).
  unfold shr_fexp. cbn [Zdigits2]. destruct (Z.eq_dec (Z.pos mq) (2 ^ 53)) as [E|E].
  - rewrite (digits2_unique mq 54) by (rewrite E; lia). assert (mq = (2 ^ 53)%positive) as -> by lia.
    replace (fexp f64_prec f64_emax (54 + Z.pos k) - Z.pos k) with 1 by (unfold fexp, emin, f64_prec, f64_emax; lia).
    change (shr (shr_record_of_loc (Z.pos (2 ^ 53)) loc_Exact) (Z.pos k) 1) with ({| shr_m := Z.pos (2 ^ 52); shr_r := false; shr_s := false |}, Z.pos k + 1).
    cbn [shr_m]. change (f64_emax - f64_prec) with 971. destruct (Z.leb_spec (Z.pos k + 1) 971) as [H|H]; [|lia]. exists (2 ^ 52)%positive, (Z.pos k + 1). split; [reflexivity|]. lia.
  - rewrite (digits2_unique mq 53) by lia.
    replace (fexp f64_prec f64_emax (53 + Z.pos k) - Z.pos k) with 0 by (unfold fexp, emin, f64_prec, f64_emax; lia).
    cbn [shr shr_record_of_loc shr_m]. change (f64_emax - f64_prec) with 971. destruct (Z.leb_spec (Z.pos k) 971) as [H|H]; [|lia]. exists mq, (Z.pos k). split; [reflexivity|]. lia.
Qed.

Lemma f64_of_Z_large z : 2 ^ 53 <= Z.abs z < 2 ^ 64 -> f64_ltb (f64_abs (f64_of_Z z)) two53 = false.
Proof.
  intros Hz. unfold f64_of_Z, binary_normalize. destruct z as [|p|p]; [cbn in Hz; lia|..].
  - destruct (binary_round_large false p Hz) as (m & e & -> & He & Hm & _). rewrite two53_eq, ltb_finite. destruct (Z.compare_spec e 1); [|lia|reflexivity].
    apply Pos.ltb_ge. lia.
  - destruct (binary_round_large true p Hz) as (m & e & -> & He & Hm & _). rewrite two53_eq, ltb_finite. destruct (Z.compare_spec e 1); [|lia|reflexivity].
    apply Pos.ltb_ge. lia.
Qed.
