(* ===== verification/Padic.v ===== *)
(** * p-adic features and arithmetic

    [adic-types/src/features.rs] (the p-adic digit vectors every message carries, one per
    axis) and the whole of [adic-math/src]: valuations of integers ([padic.rs],
    [valuation.rs]), the valuation of a difference of digit vectors, balls ([ball.rs]) and
    nearest/furthest candidates ([distance.rs]).

    Conventions: a [BigUint] and a [u64] are nonnegative [Z]s, a [u8] digit is a [Z], an
    index or radius ([usize]) is a [nat].  [Panic] covers a division by [p = 0] and a failed
    [assert_eq!]; a [while] loop has fuel, and running out of it is [None]. *)

From S2P Require Import Prelude.

(** ** [adic-types/src/features.rs] *)

Record QpDigits := mkQpDigits { digits : list Z; qp_p : Z }.
Definition AxisId : Type := Z.
Record AxisPhi := mkAxisPhi { axis : AxisId; qp_digits : QpDigits }.
Record AdicFeatures := mkAdicFeatures { phi : list AxisPhi }.

#[export] Instance QpDigits_eq_dec : EqDecision QpDigits.
Proof. solve_decision. Defined.

(** The low 32-bit limb of a [BigUint] ([to_u32_digits().first()], 0 for zero), cast [as u8]. *)
Definition low_digit (v : Z) : Z := to_u8 (to_u32 v).

(** The first [for] loop of [QpDigits::new], with its early [break]. *)
Fixpoint qp_new_loop (precision : nat) (v p : Z) : list Z :=
  match precision with
  | O => []
  | S k =>
      let digit := low_digit (v mod p) in
      let v' := v / p in
      if v' =? 0 then [digit] else digit :: qp_new_loop k v' p
  end.

Definition QpDigits_new (value p : Z) (precision : nat) : result Empty_set QpDigits :=
  if (p =? 0) && negb (precision =? 0)%nat then Panic
  else
    let ds := qp_new_loop precision value p in
    Ok (mkQpDigits (ds ++ replicate (precision - length ds) 0) p).

Definition QpDigits_from_u64 (value p : Z) (precision : nat) : result Empty_set QpDigits :=
  QpDigits_new value p precision.

Definition QpDigits_ball_id (x : QpDigits) (radius : nat) : list Z := take radius (digits x).

Definition QpDigits_is_zero (x : QpDigits) : bool := forallb (fun d => d =? 0) (digits x).

Definition QpDigits_to_bytes (x : QpDigits) : list Z := digits x.

Definition AxisPhi_new (a : Z) (d : QpDigits) : AxisPhi := mkAxisPhi a d.

Definition AdicFeatures_get_axis (f : AdicFeatures) (a : AxisId) : option AxisPhi :=
  List.find (fun q => axis q =? a) (phi f).

Definition AdicFeatures_dimension (f : AdicFeatures) : nat := length (phi f).

(** ** [adic-math/src/padic.rs] *)

(** [while m % p == 0 { v += 1; m /= p }]. *)
Fixpoint vp_loop (fuel : nat) (m p v : Z) : option Z :=
  match fuel with
  | O => None
  | S k => if m mod p =? 0 then vp_loop k (m / p) p (to_u32 (v + 1)) else Some v
  end.

(** 64 iterations are enough for a [u64] and [p >= 2] ([vp_total]). *)
Definition vp (n p : Z) : result Empty_set (option Z) :=
  if n =? 0 then Ok (Some u32_max)
  else if p =? 0 then Panic
  else Ok (vp_loop 65 n p 0).

(** A [BigUint] has no fixed width: the fuel is one more than its bit length. *)
Definition vp_bigint (n p : Z) : result Empty_set (option Z) :=
  if n =? 0 then Ok (Some u32_max)
  else if p =? 0 then Panic
  else Ok (vp_loop (S (Z.to_nat (Z.log2 n + 1))) n p 0).

Definition digit_at (x : QpDigits) (i : nat) : Z := default 0 (digits x !! i).

(** The [for i in 0..max_len] loop: the first index with different digits, or [max_len]. *)
Fixpoint first_diff (x y : QpDigits) (i len : nat) : nat :=
  match len with
  | O => i
  | S k => if digit_at x i =? digit_at y i then first_diff x y (S i) k else i
  end.

Definition vp_diff (x y : QpDigits) : result Empty_set Z :=
  if negb (qp_p x =? qp_p y) then Panic
  else
    let max_len := Nat.max (length (digits x)) (length (digits y)) in
    Ok (to_u32 (Z.of_nat (first_diff x y 0 max_len))).

Definition compute_unit (n p valuation : Z) : result Empty_set Z :=
  if n =? 0 then Ok 0
  else
    let p_power := p ^ valuation in
    if p_power =? 0 then Panic else Ok (n / p_power).

(** The loop of [expand_padic]; unlike [qp_new_loop] it runs all [precision] rounds. *)
Fixpoint expand_loop (precision : nat) (value p : Z) : list Z :=
  match precision with
  | O => []
  | S k =>
      if value =? 0 then 0 :: expand_loop k value p
      else low_digit (value mod p) :: expand_loop k (value / p) p
  end.

Definition expand_padic (n p : Z) (precision : nat) : result Empty_set (list Z) :=
  if (p =? 0) && negb (n =? 0) && negb (precision =? 0)%nat then Panic
  else Ok (expand_loop precision n p).

(** ** [adic-math/src/valuation.rs] *)

Record PadicValuation := mkVal { v_value : Z; is_infinite : bool }.

#[export] Instance PadicValuation_eq_dec : EqDecision PadicValuation.
Proof. solve_decision. Defined.

Definition val_new (value : Z) : PadicValuation := mkVal value false.
Definition val_infinite : PadicValuation := mkVal u32_max true.
Definition val_is_zero (v : PadicValuation) : bool := negb (is_infinite v) && (v_value v =? 0).
Definition val_finite_value (v : PadicValuation) : option Z :=
  if is_infinite v then None else Some (v_value v).

Definition val_min (a b : PadicValuation) : PadicValuation :=
  match is_infinite a, is_infinite b with
  | true, true => val_infinite
  | true, false => b
  | false, true => a
  | false, false => val_new (Z.min (v_value a) (v_value b))
  end.

Definition val_max (a b : PadicValuation) : PadicValuation :=
  match is_infinite a, is_infinite b with
  | true, _ | _, true => val_infinite
  | false, false => val_new (Z.max (v_value a) (v_value b))
  end.

Definition compute_valuation (n p : Z) : result Empty_set (option PadicValuation) :=
  if n =? 0 then Ok (Some val_infinite)
  else if p =? 0 then Panic
  else Ok (val_new <$> vp_loop (S (Z.to_nat (Z.log2 n + 1))) n p 0).

Definition valuation_of_sum (a b : PadicValuation) : PadicValuation := val_min a b.

Definition valuation_of_product (a b : PadicValuation) : PadicValuation :=
  match is_infinite a, is_infinite b with
  | true, _ | _, true => val_infinite
  | false, false => val_new (to_u32 (v_value a + v_value b))
  end.

Definition valuation_of_quotient (a b : PadicValuation) : option PadicValuation :=
  if is_infinite b then None
  else if is_infinite a then Some val_infinite
  else Some (val_new (u32_saturating_sub (v_value a) (v_value b))).

(** ** [adic-math/src/ball.rs] *)

Definition ball_id (x : QpDigits) (radius : nat) : list Z := QpDigits_ball_id x radius.

(** The loop of [balls_are_distinct]: insert the ball, return early once [min_distinct]
    different balls are known. *)
Fixpoint distinct_loop (points : list QpDigits) (radius min_distinct : nat)
    (unique_balls : gset (list Z)) : bool :=
  match points with
  | [] => (min_distinct <=? size unique_balls)%nat
  | point :: rest =>
      let unique_balls := {[ ball_id point radius ]} ∪ unique_balls in
      if (min_distinct <=? size unique_balls)%nat then true
      else distinct_loop rest radius min_distinct unique_balls
  end.

Definition balls_are_distinct (points : list QpDigits) (radius min_distinct : nat) : bool :=
  distinct_loop points radius min_distinct ∅.

Definition count_distinct_balls (points : list QpDigits) (radius : nat) : nat :=
  size (foldl (fun (s : gset (list Z)) q => {[ ball_id q radius ]} ∪ s) ∅ points).

Fixpoint in_ball_loop (x c : QpDigits) (i len : nat) : bool :=
  match len with
  | O => true
  | S k => if negb (digit_at x i =? digit_at c i) then false else in_ball_loop x c (S i) k
  end.

Definition is_in_ball (x center : QpDigits) (radius : nat) : result Empty_set bool :=
  if negb (qp_p x =? qp_p center) then Panic else Ok (in_ball_loop x center 0 radius).

Definition find_ball_representative (points : list QpDigits) (radius : nat) : option (list Z) :=
  match points with
  | [] => None
  | first :: rest =>
      let first_id := ball_id first radius in
      if forallb (fun q => bool_decide (ball_id q radius = first_id)) rest
      then Some first_id else None
  end.

(** ** [adic-math/src/distance.rs] (the integer part) *)

Definition are_close (x y : QpDigits) (min_valuation : Z) : result Empty_set bool :=
  let? v := vp_diff x y in Ok (min_valuation <=? v).

(** The scan of [find_closest] ([better := Z.gtb]) and [find_furthest] ([better := Z.ltb]):
    [better new best] replaces the incumbent. *)
Fixpoint scan_best (better : Z -> Z -> bool) (reference : QpDigits) (cs : list QpDigits)
    (i best_idx : nat) (best : Z) : result Empty_set nat :=
  match cs with
  | [] => Ok best_idx
  | c :: rest =>
      let? v := vp_diff reference c in
      if better v best then scan_best better reference rest (S i) i v
      else scan_best better reference rest (S i) best_idx best
  end.

Definition find_closest (reference : QpDigits) (candidates : list QpDigits)
    : result Empty_set (option nat) :=
  match candidates with
  | [] => Ok None
  | c0 :: rest =>
      let? v0 := vp_diff reference c0 in
      let? i := scan_best Z.gtb reference rest 1 0 v0 in Ok (Some i)
  end.

Definition find_furthest (reference : QpDigits) (candidates : list QpDigits)
    : result Empty_set (option nat) :=
  match candidates with
  | [] => Ok None
  | c0 :: rest =>
      let? v0 := vp_diff reference c0 in
      let? i := scan_best Z.ltb reference rest 1 0 v0 in Ok (Some i)
  end.

(** ** Lemmas on digit vectors *)

Lemma low_digit_small v p : 1 <= p <= 256 -> 0 <= v -> low_digit (v mod p) = v mod p.
Proof.
  intros Hp Hv. pose proof (Z.mod_pos_bound v p ltac:(lia)).
  unfold low_digit. uint_unfold. rewrite (Z.mod_small _ (2 ^ 32)) by lia.
  apply Z.mod_small; lia.
Qed.

Lemma expand_loop_zero k p : expand_loop k 0 p = replicate k 0.
Proof. induction k as [|k IH]; simpl; [done|]. by rewrite IH. Qed.

Lemma qp_new_loop_length k v p : (length (qp_new_loop k v p) <= k)%nat.
Proof.
  revert v; induction k as [|k IH]; intros v; simpl; [lia|].
  destruct (v / p =? 0); simpl; [lia|]. specialize (IH (v / p)); lia.
Qed.

(** The early [break] and the padding loop of [QpDigits::new] compute what the plain loop
    of [expand_padic] computes. *)
Lemma qp_new_loop_pad k v p :
  0 <= v -> 0 < p ->
  qp_new_loop k v p ++ replicate (k - length (qp_new_loop k v p)) 0 = expand_loop k v p.
Proof.
  intros Hv Hp. revert v Hv; induction k as [|k IH]; intros v Hv; [done|]. simpl.
  pose proof (Z.div_pos v p Hv Hp).
  ztest (v =? 0).
  - subst v. rewrite Z.mod_0_l, Z.div_0_l by lia. simpl.
    by rewrite expand_loop_zero, Nat.sub_0_r.
  - ztest (v / p =? 0); simpl; [|by rewrite IH].
    replace (v / p) with 0 by done. by rewrite expand_loop_zero, Nat.sub_0_r.
Qed.

Lemma expand_loop_lookup k n p i :
  0 <= n -> 1 <= p <= 256 ->
  default 0 (expand_loop k n p !! i) = if decide (i < k)%nat then (n / p ^ Z.of_nat i) mod p else 0.
Proof.
  intros Hn Hp. revert n i Hn; induction k as [|k IH]; intros n i Hn.
  { case_decide; [lia|done]. }
  cbn [expand_loop].
  ztest (n =? 0).
  - subst n. destruct i as [|i]; cbn [lookup list_lookup default].
    + case_decide; [|lia]. by rewrite Z.div_1_r.
    + rewrite IH by lia. rewrite !Z.div_0_l by lia.
      repeat case_decide; done || lia.
  - destruct i as [|i]; cbn [lookup list_lookup default].
    + case_decide; [|lia]. rewrite low_digit_small by lia. by rewrite Z.div_1_r.
    + rewrite IH by (apply Z.div_pos; lia).
      rewrite Zdiv_Zdiv by lia.
      rewrite Nat2Z.inj_succ, Z.pow_succ_r by lia.
      repeat case_decide; done || lia.
Qed.

Lemma expand_loop_length k n p : length (expand_loop k n p) = k.
Proof. revert n; induction k as [|k IH]; intros n; simpl; [done|]. destruct (n =? 0); simpl; by rewrite IH. Qed.

Lemma QpDigits_new_Ok n p k :
  0 <= n -> 0 < p -> QpDigits_new n p k = Ok (mkQpDigits (expand_loop k n p) p).
Proof.
  intros Hn Hp. unfold QpDigits_new.
  destruct (p =? 0) eqn:E; zbool; [lia|]. simpl. by rewrite qp_new_loop_pad.
Qed.

(** The integer a little-endian digit vector denotes. *)
Fixpoint digits_value (p : Z) (ds : list Z) : Z :=
  match ds with
  | [] => 0
  | d :: ds => d + p * digits_value p ds
  end.

Lemma expand_loop_value k n p :
  0 <= n -> 1 <= p <= 256 -> digits_value p (expand_loop k n p) = n mod p ^ Z.of_nat k.
Proof.
  intros Hn Hp. revert n Hn; induction k as [|k IH]; intros n Hn.
  { simpl. by rewrite Z.mod_1_r. }
  replace (Z.of_nat (S k)) with (Z.succ (Z.of_nat k)) by lia.
  rewrite Z.pow_succ_r, Z.rem_mul_r by lia. simpl.
  ztest (n =? 0); simpl.
  - subst n. rewrite IH by lia. rewrite Z.div_0_l, !Z.mod_0_l by lia. lia.
  - rewrite IH, low_digit_small by (try apply Z.div_pos; lia). done.
Qed.

(** Equal low digits are equality modulo a power of [p]. *)
Lemma low_digits_mod a b p k :
  0 < p ->
  (forall m, (m < k)%nat -> (a / p ^ Z.of_nat m) mod p = (b / p ^ Z.of_nat m) mod p) <->
  a mod p ^ Z.of_nat k = b mod p ^ Z.of_nat k.
Proof.
  intros Hp. induction k as [|k IH].
  { simpl. rewrite !Z.mod_1_r. split; [done|lia]. }
  assert (0 < p ^ Z.of_nat k) as Hk by (apply Z.pow_pos_nonneg; lia).
  replace (Z.of_nat (S k)) with (Z.succ (Z.of_nat k)) by lia.
  rewrite Z.pow_succ_r, (Z.mul_comm p), !Z.rem_mul_r by lia.
  pose proof (Z.mod_pos_bound a _ Hk). pose proof (Z.mod_pos_bound b _ Hk).
  set (u := (a / p ^ Z.of_nat k) mod p) in *. set (w := (b / p ^ Z.of_nat k) mod p) in *.
  split.
  - intros Hall. rewrite (proj1 IH) by (intros; apply Hall; lia).
    pose proof (Hall k ltac:(lia)). subst u w. by f_equal; f_equal.
  - intros Heq. assert (u = w) as Huw by nia. rewrite Huw in Heq.
    assert (a mod p ^ Z.of_nat k = b mod p ^ Z.of_nat k) as Hm by lia.
    intros m Hlt. destruct (decide (m = k)) as [->|]; [done|].
    apply (proj2 IH Hm); lia.
Qed.

(** ** The scan of [vp_diff] *)

Lemma first_diff_spec x y i len j :
  first_diff x y i len = j ->
  (i <= j <= i + len)%nat /\
  (forall m, (i <= m < j)%nat -> digit_at x m = digit_at y m) /\
  ((j < i + len)%nat -> digit_at x j <> digit_at y j).
Proof.
  revert i; induction len as [|k IH]; intros i; simpl.
  { intros <-. repeat split; lia. }
  destruct (digit_at x i =? digit_at y i) eqn:E; zbool.
  - intros Hj. destruct (IH _ Hj) as (? & Heq & Hne). repeat split; [lia|lia| |intros; apply Hne; lia].
    intros m Hm. destruct (decide (m = i)) as [->|]; [done|]. apply Heq; lia.
  - intros <-. repeat split; lia.
Qed.

(** A valuation of at least [k] is agreement on the first [k] digits. *)
Lemma first_diff_ge x y len k :
  (k <= len)%nat ->
  (k <= first_diff x y 0 len)%nat <-> (forall m, (m < k)%nat -> digit_at x m = digit_at y m).
Proof.
  intros Hk. destruct (first_diff_spec x y 0 len _ eq_refl) as (Hle & Heq & Hne). split.
  - intros ? m Hm. apply Heq; lia.
  - intros Hall. destruct (Nat.le_gt_cases k (first_diff x y 0 len)) as [|Hlt]; [done|].
    exfalso. apply Hne; [lia|]. apply Hall; lia.
Qed.

Definition max_digits (x y : QpDigits) : nat := Nat.max (length (digits x)) (length (digits y)).

(** Digit vectors whose length fits a [u32], as every vector built by the encoders does. *)
Definition short (x : QpDigits) : Prop := Z.of_nat (length (digits x)) <= u32_max.

Lemma vp_diff_Ok x y :
  qp_p x = qp_p y -> short x -> short y ->
  vp_diff x y = Ok (Z.of_nat (first_diff x y 0 (max_digits x y))).
Proof.
  intros Hp Hx Hy. unfold vp_diff, short, max_digits in *. rewrite Hp, Z.eqb_refl. simpl.
  f_equal. destruct (first_diff_spec x y 0 (max_digits x y) _ eq_refl) as (? & _).
  unfold max_digits in *. uint_unfold. apply Z.mod_small; lia.
Qed.

(** ** Integer valuations *)

(** [k] is the exponent of [p] in [m]. *)
Definition is_valuation (p m k : Z) : Prop :=
  0 <= k /\ exists u, m = p ^ k * u /\ ~ (p | u).

Lemma is_valuation_unique p m k1 k2 :
  1 < p -> is_valuation p m k1 -> is_valuation p m k2 -> k1 = k2.
Proof.
  intros Hp.
  assert (forall a b, is_valuation p m a -> is_valuation p m b -> ~ a < b) as Hlt.
  { intros a b (Ha & u & Hu & Hnu) (Hb & w & Hw & _) Hab. apply Hnu.
    exists (p ^ (b - a - 1) * w).
    assert (0 < p ^ a) by (apply Z.pow_pos_nonneg; lia).
    apply (Z.mul_reg_l _ _ (p ^ a)); [lia|]. rewrite <-Hu, Hw.
    replace b with (a + (b - a - 1) + 1) at 1 by lia.
    rewrite !Z.pow_add_r, Z.pow_1_r by lia. ring. }
  intros H1 H2. pose proof (Hlt _ _ H1 H2). pose proof (Hlt _ _ H2 H1). lia.
Qed.

Lemma vp_loop_spec fuel m p v :
  2 <= p -> 0 < m -> Z.log2 m < Z.of_nat fuel -> 0 <= v -> v + Z.log2 m <= u32_max ->
  exists k, vp_loop fuel m p v = Some (v + k) /\ is_valuation p m k /\ k <= Z.log2 m.
Proof.
  intros Hp. revert m v; induction fuel as [|fuel IH]; intros m v Hm Hf Hv Hmax.
  { pose proof (Z.log2_nonneg m); lia. }
  pose proof (Z.log2_nonneg m). cbn [vp_loop].
  destruct (m mod p =? 0) eqn:E; zbool.
  - apply Z.mod_divide in E as [q Hq]; [|lia].
    assert (m / p = q) as Hdiv by (rewrite Hq; apply Z.div_mul; lia).
    assert (0 < q) by nia.
    assert (1 + Z.log2 q <= Z.log2 m) as Hlog.
    { pose proof (Z.log2_double q ltac:(lia)). pose proof (Z.log2_le_mono (2 * q) m ltac:(nia)). lia. }
    pose proof (Z.log2_nonneg q).
    replace (to_u32 (v + 1)) with (v + 1) by (uint_unfold; rewrite Z.mod_small; lia).
    rewrite Hdiv. destruct (IH q (v + 1)) as (k & Hk & (Hk0 & u & Hu & Hnu) & Hkl); [lia..|].
    exists (k + 1). rewrite Hk. split; [f_equal; lia|]. split; [|lia].
    split; [lia|]. exists u. split; [|done]. rewrite Z.pow_add_r, Z.pow_1_r, Hq, Hu by lia. ring.
  - exists 0. rewrite Z.add_0_r. split; [done|]. split; [|lia]. split; [lia|].
    exists m. rewrite Z.pow_0_r, Z.mul_1_l. split; [done|]. intros ?%Z.mod_divide; lia.
Qed.

Lemma compute_valuation_spec n p :
  2 <= p -> 0 < n -> Z.log2 n <= u32_max ->
  exists k, compute_valuation n p = Ok (Some (val_new k)) /\ is_valuation p n k /\ k <= Z.log2 n.
Proof.
  intros Hp Hn Hl. unfold compute_valuation. pose proof (Z.log2_nonneg n).
  replace (n =? 0) with false by lia. replace (p =? 0) with false by lia.
  destruct (vp_loop_spec (S (Z.to_nat (Z.log2 n + 1))) n p 0) as (k & -> & ? & ?); [lia..|].
  by exists k.
Qed.

(** ** Properties *)

(** the valuation of two digit vectors built by [QpDigits::new] is the p-adic valuation
    of the difference of the two integers, cut off at the precision: for every
    [k <= precision], [vp_diff] is at least [k] exactly when [p^k] divides the difference. *)
Theorem vp_diff_is_valuation (p a b : Z) (precision : nat)
    (Hp : 2 <= p <= 256) (Ha : 0 <= a) (Hb : 0 <= b) (Hprec : Z.of_nat precision <= u32_max) :
  exists x y v,
    QpDigits_new a p precision = Ok x /\ QpDigits_new b p precision = Ok y /\
    vp_diff x y = Ok v /\ 0 <= v <= Z.of_nat precision /\
    forall k : nat, (k <= precision)%nat -> (Z.of_nat k <= v <-> (p ^ Z.of_nat k | a - b)).
Proof.
  set (x := mkQpDigits (expand_loop precision a p) p).
  set (y := mkQpDigits (expand_loop precision b p) p).
  assert (max_digits x y = precision) as Hmax
    by (unfold max_digits; simpl; rewrite !expand_loop_length; lia).
  exists x, y, (Z.of_nat (first_diff x y 0 precision)).
  rewrite !QpDigits_new_Ok by lia. split; [done|]. split; [done|]. split.
  { rewrite vp_diff_Ok, Hmax by (unfold short; simpl; rewrite ?expand_loop_length; done). done. }
  split; [destruct (first_diff_spec x y 0 precision _ eq_refl); lia|].
  intros k Hk. rewrite <-Nat2Z.inj_le, first_diff_ge by done.
  assert (0 < p ^ Z.of_nat k) by (apply Z.pow_pos_nonneg; lia).
  rewrite <-Z.mod_divide, <-Z.cong_iff_0, <-low_digits_mod by lia.
  unfold digit_at, x, y; simpl.
  split; intros Hall m Hm; specialize (Hall m Hm);
    rewrite !expand_loop_lookup in * by lia; repeat case_decide; done || lia.
Qed.

Lemma vp_diff_is_valuation_witness :
  exists x y v,
    QpDigits_new 42 3 10 = Ok x /\ QpDigits_new 15 3 10 = Ok y /\ vp_diff x y = Ok v /\
    0 <= v <= Z.of_nat 10 /\
    forall k : nat, (k <= 10)%nat -> (Z.of_nat k <= v <-> (3 ^ Z.of_nat k | 42 - 15)).
Proof. apply (vp_diff_is_valuation 3 42 15 10); unfold u32_max; lia. Defined.

(** round trip between integers and digit vectors: the digits of [QpDigits::new n p k] are
    [k] base-[p] digits of [n], least significant first, and the integer they denote is [n]
    modulo [p^k]; [expand_padic] returns the same digits. *)
Theorem digits_roundtrip (n p : Z) (k : nat) (Hn : 0 <= n) (Hp : 2 <= p <= 256) :
  exists x,
    QpDigits_new n p k = Ok x /\ expand_padic n p k = Ok (digits x) /\
    length (digits x) = k /\ Forall (fun d => 0 <= d < p) (digits x) /\
    digits_value p (digits x) = n mod p ^ Z.of_nat k.
Proof.
  exists (mkQpDigits (expand_loop k n p) p). rewrite QpDigits_new_Ok by lia. split; [done|].
  split. { unfold expand_padic. by replace (p =? 0) with false by lia. }
  simpl. rewrite expand_loop_length, expand_loop_value by lia. repeat split.
  apply Forall_lookup. intros i d Hd. pose proof (expand_loop_lookup k n p i Hn ltac:(lia)) as Hl.
  rewrite Hd in Hl; simpl in Hl. subst d.
  pose proof (Z.mod_pos_bound (n / p ^ Z.of_nat i) p ltac:(lia)). case_decide; lia.
Qed.

Lemma digits_roundtrip_witness :
  exists x,
    QpDigits_new 1000 3 5 = Ok x /\ expand_padic 1000 3 5 = Ok (digits x) /\
    length (digits x) = 5%nat /\ Forall (fun d => 0 <= d < 3) (digits x) /\
    digits_value 3 (digits x) = 1000 mod 3 ^ Z.of_nat 5.
Proof. apply (digits_roundtrip 1000 3 5); lia. Defined.

(** the strong triangle inequality that makes the digit vectors an ultrametric space: for
    vectors of one length and one prime, [vp_diff] is symmetric, and the valuation of [x, z] is
    at least the smaller of those of [x, y] and [y, z]. *)
Theorem vp_diff_ultrametric (x y z : QpDigits) (a b c : Z)
    (Hlen : length (digits x) = length (digits y) /\ length (digits y) = length (digits z))
    (Hs : short y)
    (Hxy : vp_diff x y = Ok a) (Hyz : vp_diff y z = Ok b) (Hxz : vp_diff x z = Ok c) :
  Z.min a b <= c /\ vp_diff y x = Ok a.
Proof.
  destruct Hlen as [H1 H2].
  assert (qp_p x = qp_p y) as Hpxy
    by (unfold vp_diff in Hxy; ztest (qp_p x =? qp_p y); done).
  assert (qp_p y = qp_p z) as Hpyz
    by (unfold vp_diff in Hyz; ztest (qp_p y =? qp_p z); done).
  unfold short in *. set (n := length (digits y)) in *.
  assert (max_digits x y = n /\ max_digits y z = n /\ max_digits x z = n /\ max_digits y x = n)
    as (M1 & M2 & M3 & M4) by (unfold max_digits; lia).
  rewrite vp_diff_Ok, ?M1, ?M2, ?M3, ?M4 in * by (unfold short; congruence || lia).
  injection Hxy as <-. injection Hyz as <-. injection Hxz as <-.
  rewrite <-Nat2Z.inj_min, <-Nat2Z.inj_le.
  pose proof (first_diff_spec x y 0 n _ eq_refl) as (? & Exy & _).
  pose proof (first_diff_spec y z 0 n _ eq_refl) as (? & Eyz & _).
  split.
  - apply first_diff_ge; [lia|]. intros m Hm. rewrite Exy, Eyz by lia. done.
  - do 2 f_equal.
    assert (forall k, (k <= n)%nat -> (k <= first_diff x y 0 n)%nat <-> (k <= first_diff y x 0 n)%nat)
      as Hk by (intros k Hk; rewrite !first_diff_ge by done; naive_solver).
    pose proof (first_diff_spec y x 0 n _ eq_refl) as (? & _ & _).
    apply Nat.le_antisymm; apply Hk; lia.
Qed.

Lemma vp_diff_ultrametric_witness :
  Z.min 1 3 <= 1 /\ vp_diff (mkQpDigits [1; 2; 0; 1] 3) (mkQpDigits [1; 0; 2; 0] 3) = Ok 1.
Proof.
  apply (vp_diff_ultrametric (mkQpDigits [1; 0; 2; 0] 3) (mkQpDigits [1; 2; 0; 1] 3)
           (mkQpDigits [1; 2; 0; 0] 3) 1 3 1); try done.
Defined.

(** Vectors of different lengths are compared as if padded with zeros, but two vectors that
    agree everywhere get the larger of the two lengths: the inequality then fails. *)
Example vp_diff_lengths :
  vp_diff (mkQpDigits [1] 3) (mkQpDigits [1; 0] 3) = Ok 2 /\
  vp_diff (mkQpDigits [1; 0] 3) (mkQpDigits [1] 3) = Ok 2 /\
  vp_diff (mkQpDigits [1] 3) (mkQpDigits [1] 3) = Ok 1.
Proof. done. Qed.

(** [vp] terminates on every [u64] for every [p >= 2] and returns the exponent of [p]
    in the number ([u32::MAX] for zero); [vp_bigint] and [compute_valuation] agree with it.
    The fuel of the model is never exhausted. *)
Theorem vp_correct (n p : Z) (Hn : is_u64 n) (Hp : 2 <= p <= u32_max) :
  exists k,
    vp n p = Ok (Some k) /\ vp_bigint n p = Ok (Some k) /\
    compute_valuation n p = Ok (Some (if n =? 0 then val_infinite else val_new k)) /\
    (n = 0 -> k = u32_max) /\ (n <> 0 -> is_valuation p n k /\ k < 64).
Proof.
  unfold vp, vp_bigint, compute_valuation.
  destruct (n =? 0) eqn:E; zbool.
  { exists u32_max. subst n. repeat split; done. }
  replace (p =? 0) with false by lia.
  assert (0 < n < 2 ^ 64) as Hn' by (uint_unfold; lia).
  assert (Z.log2 n < 64) by (apply Z.log2_lt_pow2; lia). pose proof (Z.log2_nonneg n).
  destruct (vp_loop_spec 65 n p 0) as (k & -> & Hk & ?); [uint_unfold; lia..|].
  destruct (vp_loop_spec (S (Z.to_nat (Z.log2 n + 1))) n p 0) as (k' & -> & Hk' & ?);
    [uint_unfold; lia..|].
  rewrite (is_valuation_unique p n k' k) by (done || lia).
  exists k. repeat split; done || lia || apply Hk.
Qed.

Lemma vp_correct_witness :
  exists k,
    vp 162 3 = Ok (Some k) /\ vp_bigint 162 3 = Ok (Some k) /\
    compute_valuation 162 3 = Ok (Some (if 162 =? 0 then val_infinite else val_new k)) /\
    (162 = 0 -> k = u32_max) /\ (162 <> 0 -> is_valuation 3 162 k /\ k < 64).
Proof. apply (vp_correct 162 3); uint_unfold; lia. Defined.

(** With [p = 1] the loop never ends, whatever the fuel: callers must pass [p >= 2]. *)
Lemma vp_loop_one_diverges fuel n v : vp_loop fuel n 1 v = None.
Proof. revert n v; induction fuel as [|k IH]; intros n v; simpl; [done|]. by rewrite Z.mod_1_r, IH. Qed.

(** the valuation calculus is sound for a prime [p]: [valuation_of_product] is exactly the
    valuation of the product, and the valuation of a sum is at least [valuation_of_sum]. *)
Theorem valuation_laws (a b p : Z) (Hp : Z.prime p) (Ha : 0 < a) (Hb : 0 < b)
    (Hab : Z.log2 (a * b) <= u32_max) (Hs : Z.log2 (a + b) <= u32_max) :
  exists va vb vs,
    compute_valuation a p = Ok (Some va) /\ compute_valuation b p = Ok (Some vb) /\
    compute_valuation (a * b) p = Ok (Some (valuation_of_product va vb)) /\
    compute_valuation (a + b) p = Ok (Some vs) /\
    v_value (valuation_of_sum va vb) <= v_value vs.
Proof.
  pose proof (Z.prime_ge_2 p Hp).
  assert (Z.log2 a <= Z.log2 (a * b)) by (apply Z.log2_le_mono; nia).
  assert (Z.log2 b <= Z.log2 (a * b)) by (apply Z.log2_le_mono; nia).
  destruct (compute_valuation_spec a p) as (ka & -> & (Hka & u & Hu & Hnu) & ?); [lia..|].
  destruct (compute_valuation_spec b p) as (kb & -> & (Hkb & w & Hw & Hnw) & ?); [lia..|].
  destruct (compute_valuation_spec (a * b) p) as (k & Eab & Hk & ?); [nia..|].
  destruct (compute_valuation_spec (a + b) p) as (ks & Es & Hks & ?); [lia..|].
  exists (val_new ka), (val_new kb), (val_new ks). rewrite Eab, Es.
  assert (k = ka + kb) as ->.
  { apply (is_valuation_unique p (a * b)); [lia|done|]. split; [lia|].
    exists (u * w). rewrite Hu, Hw, Z.pow_add_r by lia. split; [ring|].
    intros [?|?]%Z.divide_prime_mul; done. }
  do 2 (split; [done|]). split.
  { unfold valuation_of_product; simpl. do 3 f_equal. uint_unfold. symmetry. apply Z.mod_small; lia. }
  split; [done|]. simpl. destruct Hks as (? & t & Ht & Hnt).
  destruct (Z_le_gt_dec (Z.min ka kb) ks) as [|Hgt]; [done|]. exfalso. apply Hnt.
  exists (p ^ (ka - ks - 1) * u + p ^ (kb - ks - 1) * w).
  assert (0 < p ^ ks) by (apply Z.pow_pos_nonneg; lia).
  apply (Z.mul_reg_l _ _ (p ^ ks)); [lia|]. rewrite <-Ht, Hu, Hw.
  replace ka with (ks + (ka - ks - 1) + 1) at 1 by lia.
  replace kb with (ks + (kb - ks - 1) + 1) at 1 by lia.
  rewrite !Z.pow_add_r, Z.pow_1_r by lia. ring.
Qed.

Lemma valuation_laws_witness :
  exists va vb vs,
    compute_valuation 18 3 = Ok (Some va) /\ compute_valuation 12 3 = Ok (Some vb) /\
    compute_valuation (18 * 12) 3 = Ok (Some (valuation_of_product va vb)) /\
    compute_valuation (18 + 12) 3 = Ok (Some vs) /\
    v_value (valuation_of_sum va vb) <= v_value vs.
Proof. apply (valuation_laws 18 12 3); [apply Z.prime_3|..]; vm_compute; congruence. Defined.

(** the three ways the code has to say "same ball" agree: for vectors of one prime and at
    least [radius] digits, [is_in_ball] holds exactly when the ball ids are equal, and exactly
    when the points are [radius]-close. *)
Theorem ball_membership (x c : QpDigits) (radius : nat)
    (Hp : qp_p x = qp_p c) (Hx : short x) (Hc : short c)
    (Hrx : (radius <= length (digits x))%nat) (Hrc : (radius <= length (digits c))%nat) :
  exists b, is_in_ball x c radius = Ok b /\ are_close x c (Z.of_nat radius) = Ok b /\
    (b = true <-> ball_id x radius = ball_id c radius).
Proof.
  assert (forall len i, in_ball_loop x c i len = true <->
    forall m, (i <= m < i + len)%nat -> digit_at x m = digit_at c m) as Hloop.
  { induction len as [|len IH]; intros i; simpl.
    { split; [lia|done]. }
    ztest (digit_at x i =? digit_at c i); simpl.
    - rewrite IH. split; intros Hall m Hm; [|apply Hall; lia].
      destruct (decide (m = i)) as [->|]; [done|]. apply Hall; lia.
    - split; [done|]. intros Hall. destruct E. apply Hall; lia. }
  exists (in_ball_loop x c 0 radius). unfold is_in_ball. rewrite Hp, Z.eqb_refl. split; [done|].
  assert (in_ball_loop x c 0 radius = true <->
    (forall m, (m < radius)%nat -> digit_at x m = digit_at c m)) as Hb
    by (rewrite Hloop; split; intros Hall m Hm; apply Hall; lia).
  split.
  - unfold are_close. rewrite vp_diff_Ok by done. simpl. f_equal. apply eq_bool_prop_intro.
    rewrite !Is_true_true, Hb, <-(first_diff_ge x c (max_digits x c)) by (unfold max_digits; lia).
    rewrite Z.leb_le. lia.
  - rewrite Hb. unfold ball_id, QpDigits_ball_id.
    split.
    + intros Hall. apply list_eq. intros m. destruct (decide (m < radius)%nat).
      * rewrite !lookup_take_lt by done. specialize (Hall m ltac:(done)). unfold digit_at in Hall.
        destruct (lookup_lt_is_Some_2 (digits x) m ltac:(lia)) as [dx Edx].
        destruct (lookup_lt_is_Some_2 (digits c) m ltac:(lia)) as [dc Edc].
        rewrite Edx, Edc in *. simpl in Hall. by subst.
      * by rewrite !lookup_take_ge by lia.
    + intros Heq m Hm. unfold digit_at.
      rewrite <-(lookup_take_lt (digits x) radius), <-(lookup_take_lt (digits c) radius) by done.
      by rewrite Heq.
Qed.

Lemma ball_membership_witness :
  exists b, is_in_ball (mkQpDigits [1; 2; 0] 3) (mkQpDigits [1; 2; 2] 3) 2 = Ok b /\
    are_close (mkQpDigits [1; 2; 0] 3) (mkQpDigits [1; 2; 2] 3) (Z.of_nat 2) = Ok b /\
    (b = true <-> ball_id (mkQpDigits [1; 2; 0] 3) 2 = ball_id (mkQpDigits [1; 2; 2] 3) 2).
Proof.
  apply (ball_membership (mkQpDigits [1; 2; 0] 3) (mkQpDigits [1; 2; 2] 3) 2);
    try done; simpl; lia.
Defined.

(** *** Distinct balls *)

Lemma foldl_ball_mono (points : list QpDigits) (radius : nat) (s : gset (list Z)) :
  s ⊆ foldl (fun (s : gset (list Z)) q => {[ ball_id q radius ]} ∪ s) s points.
Proof.
  revert s; induction points as [|q points IH]; intros s; simpl; [done|].
  etrans; [|apply IH]. set_solver.
Qed.

Lemma distinct_loop_count (points : list QpDigits) (radius m : nat) (s : gset (list Z)) :
  distinct_loop points radius m s =
  (m <=? size (foldl (fun (s : gset (list Z)) q => {[ ball_id q radius ]} ∪ s) s points))%nat.
Proof.
  revert s; induction points as [|q points IH]; intros s; simpl; [done|].
  destruct (m <=? _)%nat eqn:E; [|apply IH]. zbool. symmetry. apply Nat.leb_le.
  etrans; [exact E|]. apply subseteq_size, foldl_ball_mono.
Qed.

(** The early return of [balls_are_distinct] does not change its meaning: it decides whether
    the points occupy at least [min_distinct] different balls of the given radius. *)
Theorem balls_are_distinct_count (points : list QpDigits) (radius min_distinct : nat) :
  balls_are_distinct points radius min_distinct =
  (min_distinct <=? count_distinct_balls points radius)%nat /\
  count_distinct_balls points radius =
  size (list_to_set ((fun q => ball_id q radius) <$> points) : gset (list Z)).
Proof.
  split; [apply distinct_loop_count|]. unfold count_distinct_balls. f_equal.
  assert (forall s : gset (list Z),
    foldl (fun (s : gset (list Z)) q => {[ ball_id q radius ]} ∪ s) s points =
    list_to_set ((fun q => ball_id q radius) <$> points) ∪ s) as H.
  { induction points as [|q points IH]; intros s; simpl; [set_solver|].
    rewrite IH. set_solver. }
  rewrite H. set_solver.
Qed.

(** *** Nearest and furthest candidates *)

(** Both scans prefer a candidate whose valuation, times the sign [s], is strictly larger. *)
Lemma scan_best_spec (better : Z -> Z -> bool) (s : Z)
    (Hbetter : forall a b, better a b = (s * b <? s * a)) reference cs :
  (forall c, c ∈ cs -> exists v, vp_diff reference c = Ok v) ->
  forall i best_idx best,
  exists r v,
    scan_best better reference cs i best_idx best = Ok r /\ s * best <= s * v /\
    (forall k c w, cs !! k = Some c -> vp_diff reference c = Ok w -> s * w <= s * v) /\
    ((r = best_idx /\ v = best) \/
     (exists k c, r = (i + k)%nat /\ cs !! k = Some c /\ vp_diff reference c = Ok v /\ s * best < s * v /\
        forall k' c' w, (k' < k)%nat -> cs !! k' = Some c' -> vp_diff reference c' = Ok w -> s * w < s * v)).
Proof.
  induction cs as [|c cs IH]; intros Hok i best_idx best.
  { exists best_idx, best. simpl. repeat split; [lia|done|by left]. }
  destruct (Hok c ltac:(left)) as [v Hv]. cbn [scan_best]. rewrite Hv. simpl. rewrite Hbetter.
  assert (forall c0, c0 ∈ cs -> exists v, vp_diff reference c0 = Ok v) as Hok'
    by (intros; apply Hok; by right).
  ztest (s * best <? s * v).
  - destruct (IH Hok' (S i) i v) as (r & w & -> & Hle & Hall & Hcase).
    exists r, w. split; [done|]. split; [lia|]. split.
    + intros [|k] c' w'; simpl; [|apply Hall]. intros [= <-] ?. res_eq. lia.
    + right. destruct Hcase as [[-> ->]|(k & c' & -> & Hk & Hw & Hlt & Hfirst)].
      * exists 0%nat, c. split_and!; try done; lia.
      * exists (S k), c'. split; [lia|]. split; [exact Hk|]. split; [exact Hw|]. split; [lia|].
        intros [|k'] c0 w0 Hk' Hj Hw0; simpl in Hj; [res_eq; lia|].
        eapply (Hfirst k'); [lia|done..].
  - destruct (IH Hok' (S i) best_idx best) as (r & w & -> & Hle & Hall & Hcase).
    exists r, w. split; [done|]. split; [lia|]. split.
    + intros [|k] c' w'; simpl; [|apply Hall]. intros [= <-] ?. res_eq. lia.
    + destruct Hcase as [[-> ->]|(k & c' & -> & Hk & Hw & Hlt & Hfirst)]; [by left|right].
      exists (S k), c'. split; [lia|]. split; [exact Hk|]. split; [exact Hw|]. split; [lia|].
      intros [|k'] c0 w0 Hk' Hj Hw0; simpl in Hj; [res_eq; lia|].
        eapply (Hfirst k'); [lia|done..].
Qed.

(** [closest s reference cs i]: candidate [i] has the best valuation, and is the first such. *)
Definition first_best (s : Z) (reference : QpDigits) (cs : list QpDigits) (i : nat) : Prop :=
  exists c v, cs !! i = Some c /\ vp_diff reference c = Ok v /\
    forall j c' w, cs !! j = Some c' -> vp_diff reference c' = Ok w ->
      s * w <= s * v /\ ((j < i)%nat -> s * w < s * v).

Lemma scan_candidates (better : Z -> Z -> bool) (s : Z)
    (Hbetter : forall a b, better a b = (s * b <? s * a)) reference c0 cs v0 :
  vp_diff reference c0 = Ok v0 ->
  (forall c, c ∈ cs -> exists v, vp_diff reference c = Ok v) ->
  exists i, scan_best better reference cs 1 0 v0 = Ok i /\ first_best s reference (c0 :: cs) i.
Proof.
  intros Hv0 Hok.
  destruct (scan_best_spec better s Hbetter reference cs Hok 1%nat 0%nat v0)
    as (r & v & -> & Hle & Hall & Hcase).
  exists r. split; [done|]. destruct Hcase as [[-> ->]|(k & c & -> & Hk & Hv & Hlt & Hfirst)].
  - exists c0, v0. split; [done|]. split; [done|]. intros [|j] c' w; simpl; intros Hj Hw.
    + res_eq. split; lia.
    + split; [by eapply Hall|lia].
  - exists c, v. split; [done|]. split; [done|]. intros [|j] c' w; simpl; intros Hj Hw.
    + res_eq. split; lia.
    + split; [by eapply Hall|]. intros ?. eapply Hfirst; [|done..]; lia.
Qed.

(** [find_closest] returns the first candidate of greatest valuation (smallest p-adic
    distance) and [find_furthest] the first of least valuation, for any non-empty list of
    candidates over the reference's prime; the empty list gives [None]. *)
Theorem find_closest_furthest (reference c0 : QpDigits) (cs : list QpDigits)
    (Hr : short reference)
    (Hcs : Forall (fun c => qp_p reference = qp_p c /\ short c) (c0 :: cs)) :
  exists i j,
    find_closest reference (c0 :: cs) = Ok (Some i) /\ first_best 1 reference (c0 :: cs) i /\
    find_furthest reference (c0 :: cs) = Ok (Some j) /\ first_best (-1) reference (c0 :: cs) j /\
    find_closest reference [] = Ok None /\ find_furthest reference [] = Ok None.
Proof.
  assert (forall c, c ∈ c0 :: cs -> exists v, vp_diff reference c = Ok v) as Hok.
  { intros c Hc. rewrite Forall_forall in Hcs. destruct (Hcs c Hc).
    eexists. by apply vp_diff_Ok. }
  destruct (Hok c0 ltac:(left)) as [v0 Hv0].
  assert (forall a b, Z.gtb a b = (1 * b <? 1 * a)) as Hgt
    by (intros a b; rewrite Z.gtb_ltb; f_equal; lia).
  assert (forall a b, Z.ltb a b = (-1 * b <? -1 * a)) as Hlt
    by (intros a b; apply eq_true_iff_eq; rewrite !Z.ltb_lt; lia).
  destruct (scan_candidates Z.gtb 1 Hgt reference c0 cs v0 Hv0) as (i & Hi & ?);
    [intros; apply Hok; by right|].
  destruct (scan_candidates Z.ltb (-1) Hlt reference c0 cs v0 Hv0) as (j & Hj & ?);
    [intros; apply Hok; by right|].
  exists i, j. unfold find_closest, find_furthest. rewrite Hv0. cbn [result_bind]. rewrite Hi, Hj. done.
Qed.

Lemma find_closest_furthest_witness :
  let r := mkQpDigits [1; 2; 0] 3 in
  let c := mkQpDigits [1; 0; 0] 3 in
  let cs := [mkQpDigits [1; 2; 1] 3; mkQpDigits [0; 2; 1] 3] in
  exists i j,
    find_closest r (c :: cs) = Ok (Some i) /\ first_best 1 r (c :: cs) i /\
    find_furthest r (c :: cs) = Ok (Some j) /\ first_best (-1) r (c :: cs) j /\
    find_closest r [] = Ok None /\ find_furthest r [] = Ok None.
Proof.
  apply (find_closest_furthest (mkQpDigits [1; 2; 0] 3) (mkQpDigits [1; 0; 0] 3)
           [mkQpDigits [1; 2; 1] 3; mkQpDigits [0; 2; 1] 3]); [done|].
  repeat constructor; done.
Defined.
