(* ===== verification/Message.v ===== *)
(** * Messages

    [adic-types/src/id.rs], [message.rs] and [transfer.rs]: the message every node of the DAG
    carries.  A 32-byte id, a key or an address is its list of bytes; a [DateTime<Utc>] is its
    Unix timestamp in seconds, the only use the modelled code makes of it.  The canonical hash
    (canonical JSON under BLAKE3) is a parameter. *)

From Stdlib Require Import Ascii.
From S2P Require Import Prelude Padic.

Abbreviation Bytes := (list Z).

(** [str::as_bytes]. *)
Fixpoint str_bytes (s : string) : Bytes :=
  match s with
  | EmptyString => []
  | String c s => Z.of_N (N_of_ascii c) :: str_bytes s
  end.

Definition MessageId : Type := Bytes.
Definition PublicKey : Type := Bytes.
Definition Signature : Type := Bytes.
Definition ConflictId : Type := string.

Definition ConflictId_none : ConflictId := EmptyString.
Definition ConflictId_is_none (c : ConflictId) : bool := String.eqb c EmptyString.

Record AdicMeta := mkMeta {
  timestamp : Z;
  axes : gmap string string;
  conflict : ConflictId;
}.

Definition AdicMeta_new (ts : Z) : AdicMeta := mkMeta ts ∅ ConflictId_none.
Definition with_conflict (m : AdicMeta) (c : ConflictId) : AdicMeta := mkMeta (timestamp m) (axes m) c.
Definition add_axis_tag (m : AdicMeta) (key value : string) : AdicMeta :=
  mkMeta (timestamp m) (<[key := value]> (axes m)) (conflict m).

(** ** [transfer.rs] *)

Record ValueTransfer := mkTransfer {
  vt_from : Bytes;
  vt_to : Bytes;
  vt_amount : Z;
  vt_nonce : Z;
}.

#[export] Instance ValueTransfer_eq_dec : EqDecision ValueTransfer.
Proof. solve_decision. Defined.

Definition transfer_is_valid (t : ValueTransfer) : bool :=
  (0 <? vt_amount t) && negb (bool_decide (vt_from t = vt_to t)) &&
  (length (vt_from t) =? 32)%nat && (length (vt_to t) =? 32)%nat.

(** [to_le_bytes] of an integer of [n] bytes. *)
Fixpoint to_le_bytes (n : nat) (z : Z) : Bytes :=
  match n with
  | O => []
  | S k => z mod 256 :: to_le_bytes k (z / 256)
  end.

Definition transfer_to_bytes (t : ValueTransfer) : Bytes :=
  vt_from t ++ vt_to t ++ to_le_bytes 8 (vt_amount t) ++ to_le_bytes 8 (vt_nonce t).

(** ** [message.rs] *)

Record AdicMessage := mkMessage {
  msg_id : MessageId;
  parents : list MessageId;
  features : AdicFeatures;
  meta : AdicMeta;
  proposer_pk : PublicKey;
  signature : Signature;
  transfer : option ValueTransfer;
  data : Bytes;
}.

Definition has_value_transfer (m : AdicMessage) : bool := bool_decide (is_Some (transfer m)).
Definition parent_count (m : AdicMessage) : nat := length (parents m).
Definition is_genesis (m : AdicMessage) : bool := bool_decide (parents m = []).

(** The struct that is hashed: everything but the id and the signature. *)
Record CanonicalMessage := mkCanonical {
  cm_parents : list MessageId;
  cm_features : AdicFeatures;
  cm_meta : AdicMeta;
  cm_proposer_pk : PublicKey;
  cm_transfer : option ValueTransfer;
  cm_data : Bytes;
}.

Section ids.
Context (canonical_hash : CanonicalMessage -> Bytes).

Definition compute_id (m : AdicMessage) : MessageId :=
  canonical_hash (mkCanonical (parents m) (features m) (meta m) (proposer_pk m) (transfer m) (data m)).

Definition verify_id (m : AdicMessage) : bool := bool_decide (msg_id m = compute_id m).

Definition set_id (m : AdicMessage) (i : MessageId) : AdicMessage :=
  mkMessage i (parents m) (features m) (meta m) (proposer_pk m) (signature m) (transfer m) (data m).

Definition message_new (ps : list MessageId) (f : AdicFeatures) (mt : AdicMeta) (pk : PublicKey)
    (d : Bytes) : AdicMessage :=
  let m := mkMessage (replicate 32 0) ps f mt pk [] None d in set_id m (compute_id m).

Definition message_new_with_transfer (ps : list MessageId) (f : AdicFeatures) (mt : AdicMeta)
    (pk : PublicKey) (t : ValueTransfer) (d : Bytes) : AdicMessage :=
  let m := mkMessage (replicate 32 0) ps f mt pk [] (Some t) d in set_id m (compute_id m).

Lemma message_new_verifies ps f mt pk d : verify_id (message_new ps f mt pk d) = true.
Proof. apply bool_decide_eq_true. done. Qed.
End ids.

(** ** The signed bytes of a transfer determine it *)

Lemma length_to_le_bytes n z : length (to_le_bytes n z) = n.
Proof. revert z; induction n as [|n IH]; intros z; simpl; [done|]. by rewrite IH. Qed.

Lemma to_le_bytes_inj n a b :
  0 <= a < 256 ^ Z.of_nat n -> 0 <= b < 256 ^ Z.of_nat n -> to_le_bytes n a = to_le_bytes n b -> a = b.
Proof.
  revert a b; induction n as [|n IH]; intros a b Ha Hb; simpl; [simpl in *; lia|].
  intros [= Hm Hd]. rewrite Nat2Z.inj_succ, Z.pow_succ_r in * by lia.
  rewrite (Z.div_mod a 256), (Z.div_mod b 256), Hm by lia. f_equal. f_equal.
  apply IH; [|..|done]; (split; [apply Z.div_pos; lia|apply Z.div_lt_upper_bound; lia]).
Qed.

(** no two valid transfers have the same byte representation, so a signature over
    [to_bytes] fixes sender, receiver, amount and nonce; the representation has 80 bytes. *)
Theorem transfer_to_bytes_injective (t u : ValueTransfer)
    (Ht : transfer_is_valid t = true) (Hu : transfer_is_valid u = true)
    (Hat : is_u64 (vt_amount t)) (Hnt : is_u64 (vt_nonce t))
    (Hau : is_u64 (vt_amount u)) (Hnu : is_u64 (vt_nonce u)) :
  length (transfer_to_bytes t) = 80%nat /\ (transfer_to_bytes t = transfer_to_bytes u -> t = u).
Proof.
  unfold transfer_is_valid in *. zbool. unfold transfer_to_bytes. split.
  { rewrite !length_app, !length_to_le_bytes. lia. }
  intros Heq.
  apply app_inj_1 in Heq as [Hf Heq]; [|lia]. apply app_inj_1 in Heq as [Hto Heq]; [|lia].
  apply app_inj_1 in Heq as [Ha Hn]; [|by rewrite !length_to_le_bytes].
  apply to_le_bytes_inj in Ha; [|uint_unfold; lia..]. apply to_le_bytes_inj in Hn; [|uint_unfold; lia..].
  destruct t, u; simpl in *; congruence.
Qed.

Lemma transfer_to_bytes_injective_witness :
  let t := mkTransfer (replicate 32 1) (replicate 32 2) 5 7 in
  let u := mkTransfer (replicate 32 1) (replicate 32 2) 5 8 in
  length (transfer_to_bytes t) = 80%nat /\ (transfer_to_bytes t = transfer_to_bytes u -> t = u).
Proof.
  apply (transfer_to_bytes_injective (mkTransfer (replicate 32 1) (replicate 32 2) 5 7)
           (mkTransfer (replicate 32 1) (replicate 32 2) 5 8)); [by vm_compute..| | | |];
    uint_unfold; simpl; lia.
Defined.
