(* ===== verification/Json.v ===== *)
(** * Canonical JSON

    [adic-types/src/canonical_json.rs]: values with sorted keys, without null fields and with one form for
    each number, and the hash of their text.  A value is [serde_json]'s, with the fields of an object in
    the order of its map; the conversion of a program value to it, its text and parsing belong to the
    library: the first is written for each type that is hashed, the others are arguments. *)

From Stdlib Require Import OrdersEx.
From S2P Require Import Prelude F64 Message.

(** ** Values *)

Inductive Number := PosInt (n : Z) | NegInt (n : Z) | Float (f : f64).
Inductive Value :=
  | JNull
  | JBool (b : bool)
  | JNumber (n : Number)
  | JString (s : string)
  | JArray (l : list Value)
  | JObject (m : list (string * Value)).

(** ** Numbers *)

Definition as_f64 (n : Number) : f64 := match n with PosInt z | NegInt z => f64_of_Z z | Float f => f end.
Definition number_of_i64 (z : Z) : Number := if z <? 0 then NegInt z else PosInt z.
Definition f64_fract (f : f64) : f64 := match f64_trunc f with Some z => f64_sub f (f64_of_Z z) | None => S754_nan end.
Definition is_small_integer (f : f64) : bool := f64_eqb (f64_fract f) f64_zero && f64_ltb (f64_abs f) two53.
Definition canonicalize_number (n : Number) : Number :=
  let f := as_f64 n in
  if is_small_integer f then number_of_i64 (f64_to_i64 f)
  else if is_finite f then Float f else n.

(** ** Objects: a [BTreeMap] by the bytes of the key *)

Section btree.
Context {A : Type}.
Fixpoint btree_insert (k : string) (v : A) (l : list (string * A)) : list (string * A) :=
  match l with
  | [] => [(k, v)]
  | (k', v') :: l' =>
      match String.compare k k' with
      | Lt => (k, v) :: l
      | Eq => (k, v) :: l'
      | Gt => (k', v') :: btree_insert k v l'
      end
  end.
Definition btree_of (l : list (string * A)) : list (string * A) := foldl (fun t kv => btree_insert kv.1 kv.2 t) [] l.
End btree.

Definition is_null (v : Value) : bool := match v with JNull => true | _ => false end.

(** Converting the sorted entries back to a map keeps them. *)
Fixpoint canonicalize_value (v : Value) : Value :=
  match v with
  | JObject m =>
      JObject (btree_of ((fix entries (m : list (string * Value)) : list (string * Value) :=
        match m with
        | [] => []
        | (k, v) :: m => if is_null v then entries m else (k, canonicalize_value v) :: entries m
        end) m))
  | JArray l => JArray (map canonicalize_value l)
  | JNumber n => JNumber (canonicalize_number n)
  | JString s => JString s
  | JBool b => JBool b
  | JNull => JNull
  end.

Section hashing.
Context (blake3 : Bytes -> Bytes) (to_string : Value -> string) (from_str : string -> option Value).

Inductive CanonicalJsonError := SerializationError | InvalidStructure (what : string).

Definition to_canonical_json (v : Value) : string := to_string (canonicalize_value v).
Definition canonical_hash (v : Value) : Bytes := blake3 (str_bytes (to_canonical_json v)).
Definition verify_canonical_match (a b : Value) : bool := bool_decide (canonical_hash a = canonical_hash b).
Definition parse_and_verify_hash (json : string) (expected_hash : Bytes) : result CanonicalJsonError Value :=
  let? value := result_of_option (from_str json) SerializationError in
  if bool_decide (canonical_hash value = expected_hash) then Ok value else Err (InvalidStructure "Hash mismatch").
End hashing.

(** ** Numbers keep their value up to [2 ^ 53] *)

(** What [serde_json] can hold. *)
Definition number_ok (n : Number) : Prop :=
  match n with
  | PosInt z => 0 <= z < 2 ^ 64
  | NegInt z => - 2 ^ 63 <= z < 0
  | Float f => is_finite f = true /\ valid_binary f64_prec f64_emax f = true
  end.

Lemma f64_sub_self x : is_finite x = true -> f64_eqb (f64_sub x x) f64_zero = true.
Proof.
  destruct x as [[]|[]| |s m e]; try done; intros _. unfold f64_sub, SFsub. destruct (shl_align m e (Z.min e e)) as [m' e']. by rewrite Z.sub_diag.
Qed.
Lemma f64_of_Z_finite z : Z.abs z < 2 ^ 64 -> is_finite (f64_of_Z z) = true.
Proof.
  intros Hz. unfold f64_of_Z, binary_normalize. destruct (Z.lt_ge_cases (Z.abs z) (2 ^ 53)) as [H|H].
  - destruct z as [|p|p]; [done|..]; [destruct (binary_round_exact false p H) as (? & ? & -> & _)|destruct (binary_round_exact true p H) as (? & ? & -> & _)]; done.
  - destruct z as [|p|p]; [done|..]; [destruct (binary_round_large false p (conj H Hz)) as (? & ? & -> & _)|destruct (binary_round_large true p (conj H Hz)) as (? & ? & -> & _)]; done.
Qed.
Lemma fract_exact z : Z.abs z < 2 ^ 53 -> f64_eqb (f64_fract (f64_of_Z z)) f64_zero = true.
Proof. intros Hz. unfold f64_fract. rewrite f64_of_Z_exact by done. apply f64_sub_self, f64_of_Z_finite. lia. Qed.

Lemma small_of_Z z : Z.abs z < 2 ^ 53 -> is_small_integer (f64_of_Z z) = true /\ f64_to_i64 (f64_of_Z z) = z.
Proof.
  intros Hz. split; [unfold is_small_integer; by rewrite fract_exact, f64_of_Z_below|].
  pose proof (f64_of_Z_exact z Hz) as He. pose proof (f64_of_Z_finite z ltac:(lia)) as Hf. unfold f64_to_i64.
  destruct (f64_of_Z z) as [s|s| |s m e]; try done; rewrite He; cbn [default from_option id]; lia.
Qed.

Lemma number_kept z : Z.abs z < 2 ^ 53 -> canonicalize_number (number_of_i64 z) = number_of_i64 z.
Proof.
  intros Hz. destruct (small_of_Z z Hz) as [H1 H2]. unfold canonicalize_number.
  assert (as_f64 (number_of_i64 z) = f64_of_Z z) as -> by (unfold number_of_i64; by destruct (z <? 0)). by rewrite H1, H2.
Qed.

(** A small float truncates to a small integer. *)
Lemma small_trunc n : number_ok n -> is_small_integer (as_f64 n) = true -> Z.abs (f64_to_i64 (as_f64 n)) < 2 ^ 53.
Proof.
  intros Hok [_ Hlt]%andb_prop.
  assert (forall z, Z.abs z < 2 ^ 64 -> f64_ltb (f64_abs (f64_of_Z z)) two53 = true -> Z.abs (f64_to_i64 (f64_of_Z z)) < 2 ^ 53) as HZ.
  { intros z Hz H. destruct (Z.lt_ge_cases (Z.abs z) (2 ^ 53)) as [Hs|Hs]; [by destruct (small_of_Z z Hs) as [_ ->]|]. by rewrite f64_of_Z_large in H. }
  destruct n as [z|z|f]; cbn [as_f64 number_ok] in *; [apply HZ; [lia|done]..|]. destruct Hok as [Hf Hv]. destruct f as [s|s| |s m e]; try done.
  rewrite two53_eq, ltb_finite in Hlt. cbn [valid_binary] in Hv. apply andb_prop in Hv as [Hv _]. apply Z.eqb_eq in Hv.
  pose proof (digits2_bound m) as [_ Hm]. assert (e <= 1 /\ Z.pos m < 2 ^ 53 /\ (e = 1 -> Z.pos m < 2 ^ 52)) as (He & Hm53 & Hm52).
  { unfold fexp, emin, f64_prec, f64_emax in Hv. assert (Z.pos (digits2_pos m) <= 53) as Hd by lia.
    pose proof (Z.pow_le_mono_r 2 (Z.pos (digits2_pos m)) 53 ltac:(lia) Hd). destruct (Z.compare_spec e 1) as [->|H1|H1]; [apply Pos.ltb_lt in Hlt; lia|lia|done]. }
  unfold f64_to_i64, f64_trunc. cbn [default from_option id]. set (a := if 0 <=? e then _ else _). assert (0 <= a < 2 ^ 53) as Ha; [|clearbody a; destruct s; lia].
  unfold a. destruct (Z.leb_spec 0 e) as [H|H].
  - assert (e = 0 \/ e = 1) as [E|E] by lia; subst e; [lia|]. specialize (Hm52 eq_refl). lia.
  - assert (0 < 2 ^ (- e)) by (apply Z.pow_pos_nonneg; lia). split; [apply Z.div_pos; lia|]. apply Z.div_lt_upper_bound; [lia|nia].
Qed.

(** ** Numbers and their values *)

Lemma f64_eqb_refl x : is_finite x = true -> f64_eqb x x = true.
Proof.
  intros Hx. unfold f64_eqb, SFeqb. change (SFcompare x x) with (f64_partial_cmp x x). rewrite f64_partial_cmp_refl; [done|by destruct x].
Qed.
Lemma f64_eqb_cases x y : is_finite x = true -> f64_eqb x y = true <-> (x = y \/ exists s s', x = S754_zero s /\ y = S754_zero s').
Proof.
  intros Hx. split; [|by intros [<-|(s & s' & -> & ->)]; [apply f64_eqb_refl|]].
  destruct x as [s|s| |s m e]; try done; destruct y as [s'|s'| |s' m' e']; try done.
  - intros _. right. by exists s, s'.
  - by destruct s'.
  - by destruct s'.
  - by destruct s.
  - by destruct s, s'.
  - unfold f64_eqb, SFeqb, SFcompare. change (Pos.compare_cont Eq m m') with (Pos.compare m m'). intros H. left.
    destruct s, s'; try done; destruct (Z.compare_spec e e') as [->|E|E]; try done; destruct (Pos.compare_spec m m') as [->|E|E]; done.
Qed.
Lemma f64_eqb_sym x y : is_finite x = true -> f64_eqb x y = true -> is_finite y = true /\ f64_eqb y x = true.
Proof. intros H [<-|(s & s' & -> & ->)]%f64_eqb_cases; [by split; [|apply f64_eqb_refl]|done..]. Qed.
Lemma f64_eqb_trans x y z : is_finite x = true -> f64_eqb x y = true -> f64_eqb y z = true -> f64_eqb x z = true.
Proof.
  intros H H1 H2. pose proof (f64_eqb_sym x y H H1) as [Hy _]. apply f64_eqb_cases in H1 as [<-|(s & s' & -> & ->)]; [done| |done].
  apply f64_eqb_cases in H2 as [<-|(? & ? & [= <-] & ->)]; done.
Qed.

(** Rounding something that fits does not lose it. *)
Lemma binary_round_nonzero s p e : Z.pos (digits2_pos p) <= 53 -> -1074 <= e -> f64_eqb (binary_round f64_prec f64_emax s p e) f64_zero = false.
Proof.
  intros Hp He. unfold binary_round. set (k := fexp f64_prec f64_emax (Z.pos (digits2_pos p) + e)).
  assert (k <= e /\ -1074 <= k) as [Hk Hk'] by (unfold k, fexp, emin, f64_prec, f64_emax; lia).
  assert (exists m, shl_align p e k = (m, k) /\ Z.pos (digits2_pos m) + k = Z.pos (digits2_pos p) + e) as (m & -> & Hm).
  { unfold shl_align. destruct (k - e) as [|d|d] eqn:E; [exists p; split; [f_equal; lia|lia]|lia|]. eexists. split; [done|].
    destruct (iter_xO p d) as [_ H]. unfold shift_pos. rewrite H. lia. }
  assert (fexp f64_prec f64_emax (Z.pos (digits2_pos m) + k) - k = 0) as E by (rewrite Hm; fold k; lia).
  unfold binary_round_aux, shr_fexp. cbn [Zdigits2]. rewrite E. cbn [shr shr_record_of_loc shr_m loc_of_shr_record round_nearest_even Zdigits2]. rewrite E.
  unfold shr. cbn. by destruct (k <=? _), s.
Qed.

(** A double without a fractional part is the integer that it truncates to. *)
Lemma whole_value f :
  is_finite f = true -> valid_binary f64_prec f64_emax f = true -> is_small_integer f = true -> f64_eqb f (f64_of_Z (f64_to_i64 f)) = true.
Proof.
  intros Hf Hv Hsm. pose proof Hsm as [Hfr Hlt]%andb_prop. destruct f as [s|s| |s m e]; [by destruct s|done..|].
  pose proof (small_trunc (Float (S754_finite s m e)) (conj Hf Hv) Hsm) as Hi. cbn [as_f64] in Hi.
  rewrite two53_eq, ltb_finite in Hlt. cbn [valid_binary] in Hv. apply andb_prop in Hv as [Hv _]. apply Z.eqb_eq in Hv.
  pose proof (digits2_bound m) as [Hm1 Hm2]. unfold fexp, emin, f64_prec, f64_emax in Hv. assert (Z.pos (digits2_pos m) <= 53) as Hd by lia.
  assert (e <= 0) as He.
  { destruct (Z.compare_spec e 1) as [->|H1|H1]; [|lia|done]. apply Pos.ltb_lt in Hlt. assert (Z.pos (digits2_pos m) = 53) as E by lia. rewrite E in Hm1. lia. }
  unfold f64_to_i64 in *. unfold f64_fract in Hfr. cbn [f64_trunc default from_option id] in *. set (q := if 0 <=? e then Z.pos m * 2 ^ e else Z.pos m / 2 ^ (- e)) in *.
  assert (q = Z.pos m / 2 ^ (- e)) as Hq.
  { unfold q. destruct (Z.leb_spec 0 e); [|done]. assert (e = 0) as -> by lia. by rewrite Z.div_1_r, Z.mul_1_r. }
  clearbody q. assert (0 < 2 ^ (- e)) as Hpow by (apply Z.pow_pos_nonneg; lia).
  assert (Z.pos m < 2 ^ 53) as Hm53 by (pose proof (Z.pow_le_mono_r 2 (Z.pos (digits2_pos m)) 53 ltac:(lia) Hd); lia).
  assert (0 <= q < 2 ^ 53) as Hqb by (rewrite Hq; split; [apply Z.div_pos; lia|apply Z.div_lt_upper_bound; [lia|nia]]).
  replace (Z.max _ _) with (if s then - q else q) by (destruct s; lia). clear Hi Hlt Hsm.
  destruct q as [|p|p]; [by destruct s|..|lia].
  pose proof (Z.mul_div_le (Z.pos m) (2 ^ (- e)) Hpow) as Hle. rewrite <-Hq in Hle.
  assert (Z.pos (digits2_pos m) = 53) as Hdm.
  { destruct (Z.eq_dec (Z.pos (digits2_pos m)) 53) as [|Hne]; [done|]. assert (e = -1074) as -> by lia. pose proof (Z.pow_le_mono_r 2 53 (- -1074) ltac:(lia) ltac:(lia)). nia. }
  assert (- e <= 52) as He52.
  { apply Z.lt_succ_r. apply (Z.pow_lt_mono_r_iff 2); [lia|lia|]. change (Z.succ 52) with 53. nia. }
  rewrite Hdm in Hm1, Hm2. change (53 - 1) with 52 in Hm1.
  assert (Z.pos (digits2_pos p) = 53 + e) as Hdp.
  { apply digits2_unique. rewrite Hq. split.
    - apply Z.div_le_lower_bound; [lia|]. rewrite <-Z.pow_add_r by lia. by replace (- e + (53 + e - 1)) with 52 by lia.
    - apply Z.div_lt_upper_bound; [lia|]. rewrite <-Z.pow_add_r by lia. by replace (- e + (53 + e)) with 53 by lia. }
  destruct (binary_round_exact s p (proj2 Hqb)) as (m' & e' & Hround & _ & Hm' & _ & ->). rewrite Hdp in *. replace (53 + e - 53) with e in * by lia.
  assert (f64_of_Z (if s then - Z.pos p else Z.pos p) = S754_finite s m' e) as Hz by (rewrite <-Hround; by destruct s). rewrite Hz in *.
  destruct (Z.eq_dec (Z.pos m) (Z.pos m')) as [[= <-]|Hne]; [by apply f64_eqb_refl|]. exfalso. clear Hz Hround.
  assert (exists r, Z.pos m - Z.pos m' = Z.pos r) as [r Hr] by (exists (Z.to_pos (Z.pos m - Z.pos m')); lia).
  assert (Z.pos (digits2_pos r) <= 53) as Hdr.
  { pose proof (digits2_bound r) as [Hr1 _]. destruct (Z.le_gt_cases (Z.pos (digits2_pos r)) 53) as [|H]; [done|].
    pose proof (Z.pow_le_mono_r 2 53 (Z.pos (digits2_pos r) - 1) ltac:(lia) ltac:(lia)). lia. }
  unfold f64_sub, SFsub in Hfr. rewrite Z.min_id in Hfr. unfold shl_align in Hfr. rewrite Z.sub_diag in Hfr. cbn [fst] in Hfr.
  assert (forall szero, binary_normalize f64_prec f64_emax (cond_Zopp s (Z.pos m) - cond_Zopp s (Z.pos m')) e szero = binary_round f64_prec f64_emax s r e) as E.
  { intros szero. unfold cond_Zopp. destruct s; [replace (- Z.pos m - - Z.pos m') with (Z.neg r) by lia|rewrite Hr]; done. }
  rewrite E in Hfr. by rewrite binary_round_nonzero in Hfr by lia.
Qed.

Lemma whole_number n :
  number_ok n -> is_small_integer (as_f64 n) = true -> f64_eqb (as_f64 n) (f64_of_Z (f64_to_i64 (as_f64 n))) = true.
Proof.
  assert (forall z, Z.abs z < 2 ^ 64 -> is_small_integer (f64_of_Z z) = true -> f64_eqb (f64_of_Z z) (f64_of_Z (f64_to_i64 (f64_of_Z z))) = true) as HZ.
  { intros z Hz [_ H]%andb_prop. destruct (Z.lt_ge_cases (Z.abs z) (2 ^ 53)) as [Hs|Hs]; [|by rewrite f64_of_Z_large in H].
    destruct (small_of_Z z Hs) as [_ ->]. apply f64_eqb_refl, f64_of_Z_finite. lia. }
  destruct n as [z|z|f]; intros Hok H; [apply HZ; [cbn in Hok; lia|done]..|]. destruct Hok. by apply whole_value.
Qed.

(** The canonical numbers: the integers below [2 ^ 53] in size, and the doubles that are none of them. *)
Definition canonical_number (n : Number) : Prop :=
  (exists z, Z.abs z < 2 ^ 53 /\ n = number_of_i64 z) \/
  (exists f, n = Float f /\ is_finite f = true /\ forall z, Z.abs z < 2 ^ 53 -> f64_eqb f (f64_of_Z z) = false).

(** Equal as doubles. *)
Definition same_number (a b : Number) : Prop := f64_eqb (as_f64 a) (as_f64 b) = true.

Lemma number_finite n : number_ok n -> is_finite (as_f64 n) = true.
Proof. destruct n; cbn; [intros; apply f64_of_Z_finite; lia..|by intros []]. Qed.
Lemma as_f64_of_i64 z : as_f64 (number_of_i64 z) = f64_of_Z z.
Proof. unfold number_of_i64. by destruct (z <? 0). Qed.
Lemma small_eqb f g : is_finite f = true -> f64_eqb f g = true -> is_small_integer f = is_small_integer g /\ f64_to_i64 f = f64_to_i64 g.
Proof. intros Hf [<-|([] & [] & -> & ->)]%f64_eqb_cases; done. Qed.

Lemma canonicalize_number_canonical n : number_ok n -> canonical_number (canonicalize_number n).
Proof.
  intros Hok. pose proof (number_finite n Hok) as Hf. unfold canonicalize_number. destruct (is_small_integer (as_f64 n)) eqn:E.
  - left. eexists. split; [by apply small_trunc|done].
  - rewrite Hf. right. eexists. split; [done|]. split; [done|]. intros z Hz. destruct (f64_eqb _ _) eqn:Ee; [|done].
    apply small_eqb in Ee as [Es _]; [|done]. destruct (small_of_Z z Hz) as [H _]. congruence.
Qed.
Lemma canonicalize_number_same n : number_ok n -> same_number (canonicalize_number n) n.
Proof.
  intros Hok. pose proof (number_finite n Hok) as Hf. unfold canonicalize_number, same_number. destruct (is_small_integer (as_f64 n)) eqn:E.
  - rewrite as_f64_of_i64. apply f64_eqb_sym; [done|]. by apply whole_number.
  - rewrite Hf. by apply f64_eqb_refl.
Qed.
Lemma canonicalize_number_iff a b : number_ok a -> number_ok b -> canonicalize_number a = canonicalize_number b <-> same_number a b.
Proof.
  intros Ha Hb. split.
  - intros E. pose proof (canonicalize_number_same a Ha) as H1. pose proof (canonicalize_number_same b Hb) as H2. rewrite E in H1. unfold same_number in *.
    pose proof (number_finite a Ha) as Hf. pose proof (number_finite b Hb) as Hg.
    assert (is_finite (as_f64 (canonicalize_number b)) = true) as Hc.
    { unfold canonicalize_number. destruct (is_small_integer _) eqn:Es; [rewrite as_f64_of_i64; apply f64_of_Z_finite; pose proof (small_trunc b Hb Es); lia|by rewrite Hg]. }
    destruct (f64_eqb_sym _ _ Hc H1) as [_ H1']. by apply (f64_eqb_trans _ (as_f64 (canonicalize_number b))).
  - intros E. pose proof (number_finite a Ha) as Hf. pose proof (number_finite b Hb) as Hg. unfold canonicalize_number. rewrite Hf, Hg.
    destruct (small_eqb _ _ Hf E) as [Hs Hi]. rewrite Hs, Hi. destruct (is_small_integer (as_f64 b)) eqn:Es; [done|]. f_equal.
    apply f64_eqb_cases in E as [E|(s & s' & _ & E)]; [done| |done]. rewrite E in Es. by destruct s'.
Qed.

(** ** Sorted objects *)

Definition key_lt {A} (a b : string * A) : Prop := String.compare a.1 b.1 = Lt.
Lemma key_lt_trans a b c : String.compare a b = Lt -> String.compare b c = Lt -> String.compare a c = Lt.
Proof. change (String_as_OT.lt a b -> String_as_OT.lt b c -> String_as_OT.lt a c). intros. by transitivity b. Qed.
Lemma key_irrefl a : String.compare a a = Eq.
Proof. pose proof (String.compare_antisym a a) as H. by destruct (String.compare a a). Qed.
Lemma key_gt a b : String.compare a b = Gt <-> String.compare b a = Lt.
Proof. rewrite (String.compare_antisym a b). by destruct (String.compare b a). Qed.

Section btree_facts.
Context {A : Type}.
Implicit Types l : list (string * A).

Lemma btree_insert_elem k v l x : x ∈ btree_insert k v l -> x = (k, v) \/ x ∈ l.
Proof.
  induction l as [|[k' v'] l IH]; cbn; [intros ->%list_elem_of_singleton; by left|].
  destruct (String.compare k k'); rewrite !elem_of_cons; tauto.
Qed.

Lemma btree_insert_sorted k v l : StronglySorted key_lt l -> StronglySorted key_lt (btree_insert k v l).
Proof.
  induction 1 as [|[k' v'] l Hl IH Hk]; cbn; [repeat constructor|]. destruct (String.compare k k') eqn:E.
  - apply String.compare_eq_iff in E as ->. constructor; [done|]. eapply Forall_impl; [exact Hk|]. by intros [].
  - constructor; [by constructor|]. constructor; [done|]. eapply Forall_impl; [exact Hk|]. intros [k2 v2] H. exact (key_lt_trans _ _ _ E H).
  - constructor; [done|]. apply Forall_forall. intros x [->|Hx]%btree_insert_elem; [by apply key_gt|]. rewrite Forall_forall in Hk. by apply Hk.
Qed.

Lemma foldl_btree_sorted l t : StronglySorted key_lt t -> StronglySorted key_lt (foldl (fun t kv => btree_insert kv.1 kv.2 t) t l).
Proof. revert t. induction l as [|kv l IH]; intros t Ht; [done|]. cbn. by apply IH, btree_insert_sorted. Qed.
Lemma btree_of_sorted l : StronglySorted key_lt (btree_of l).
Proof. apply foldl_btree_sorted. constructor. Qed.
Lemma btree_of_elem l x : x ∈ btree_of l -> x ∈ l.
Proof.
  unfold btree_of. assert (forall t, x ∈ foldl (fun t kv => btree_insert kv.1 kv.2 t) t l -> x ∈ t \/ x ∈ l) as H.
  { induction l as [|[k v] l IH]; intros t; cbn; [by left|]. intros [[->|H]%btree_insert_elem|H]%IH; rewrite elem_of_cons; tauto. }
  intros [H'|H']%H; [by apply elem_of_nil in H'|done].
Qed.

Lemma elem_of_btree l x : NoDup l.*1 -> x ∈ l -> x ∈ btree_of l.
Proof.
  assert (forall k (v : A) t, (k, v) ∈ btree_insert k v t) as Hself by (intros k v t; induction t as [|[k' v'] t IH]; cbn; [left|destruct (String.compare k k'); [left|left|by right]]).
  assert (forall k (v : A) t y, y ∈ t -> y.1 <> k -> y ∈ btree_insert k v t) as Hkeep.
  { intros k v t y Hy Hk. induction t as [|[k' v'] t IH]; [by apply elem_of_nil in Hy|]. cbn. apply elem_of_cons in Hy as [->|Hy].
    - destruct (String.compare k k') eqn:E; [|by right; left|by left]. apply String.compare_eq_iff in E. by destruct Hk.
    - destruct (String.compare k k'); [by right|by do 2 right|right; by apply IH]. }
  intros Hnd Hx. unfold btree_of. assert (forall t, x ∈ l \/ x ∈ t /\ x.1 ∉ l.*1 -> x ∈ foldl (fun t kv => btree_insert kv.1 kv.2 t) t l) as H; [|apply H; by left].
  clear Hx. induction l as [|[k v] l IH]; intros t H; [destruct H as [H|[H _]]; [by apply elem_of_nil in H|done]|]. cbn in *.
  apply NoDup_cons in Hnd as [Hk Hnd]. apply IH; [done|]. destruct H as [[->|H]%elem_of_cons|[H [H1 H2]%not_elem_of_cons]]; [right; by split|by left|].
  right. split; [by apply Hkeep|done].
Qed.

Lemma btree_insert_last k v l : Forall (fun x => String.compare x.1 k = Lt) l -> btree_insert k v l = l ++ [(k, v)].
Proof. induction 1 as [|[k' v'] l Hk _ IH]; [done|]. cbn in *. apply key_gt in Hk. by rewrite Hk, IH. Qed.
Lemma btree_of_id l : StronglySorted key_lt l -> btree_of l = l.
Proof.
  intros Hl. unfold btree_of. change l with ([] ++ l) at 2. assert (Forall (fun x => Forall (key_lt x) l) (@nil (string * A))) as H0 by constructor.
  revert H0. generalize (@nil (string * A)). induction Hl as [|[k v] l Hl IH Hk]; intros t Ht; [by rewrite app_nil_r|]. cbn [foldl fst snd].
  rewrite btree_insert_last by (eapply Forall_impl; [exact Ht|]; intros x Hx; by inversion_clear Hx).
  rewrite IH; [by rewrite <-app_assoc|]. apply Forall_app. split; [eapply Forall_impl; [exact Ht|]; intros x Hx; by inversion_clear Hx|by constructor].
Qed.

(** Insertions at different keys commute. *)
Lemma btree_insert_comm k v k' v' l : k <> k' -> btree_insert k v (btree_insert k' v' l) = btree_insert k' v' (btree_insert k v l).
Proof.
  intros Hne. assert (String.compare k k' <> Eq) as Hc by (by intros ?%String.compare_eq_iff). assert (String.compare k' k = CompOpp (String.compare k k')) as Hc' by apply String.compare_antisym.
  induction l as [|[k0 v0] l IH].
  - cbn. rewrite Hc'. by destruct (String.compare k k').
  - cbn [btree_insert]. destruct (String.compare k' k0) eqn:E', (String.compare k k0) eqn:E; cbn [btree_insert]; rewrite ?E, ?E'.
    + apply String.compare_eq_iff in E, E'. congruence.
    + apply String.compare_eq_iff in E' as ->. rewrite E, Hc', E. cbn. by rewrite ?key_irrefl.
    + apply String.compare_eq_iff in E' as ->. rewrite E. cbn. by rewrite ?key_irrefl.
    + apply String.compare_eq_iff in E as ->. rewrite E', Hc' in *. destruct (String.compare k0 k'); try done; cbn; by rewrite ?key_irrefl.
    + rewrite Hc'. destruct (String.compare k k') eqn:Ec; cbn; rewrite ?E, ?E'; done.
    + assert (String.compare k k' = Gt) as Ec by (apply key_gt, (key_lt_trans _ k0); [done|by apply key_gt]). by rewrite Ec.
    + apply String.compare_eq_iff in E as ->. rewrite E'. cbn. by rewrite ?key_irrefl.
    + assert (String.compare k k' = Lt) as Ec by (apply (key_lt_trans _ k0); [done|by apply key_gt]). by rewrite Hc', Ec.
    + by rewrite IH.
Qed.

Lemma btree_of_permutation l l' : l ≡ₚ l' -> NoDup l.*1 -> btree_of l = btree_of l'.
Proof.
  intros Hp Hnd. unfold btree_of. generalize (@nil (string * A)). induction Hp as [|x l l' Hp IH|[k v] [k' v'] l|l1 l2 l3 H1 IH1 H2 IH2]; intros t; [done|..].
  - cbn in *. apply IH. by apply NoDup_cons in Hnd as [_ ?].
  - cbn in *. rewrite btree_insert_comm; [done|]. apply NoDup_cons in Hnd as [Hnd _]. intros ->. apply Hnd. left.
  - rewrite IH1 by done. apply IH2. by rewrite <-H1.
Qed.
End btree_facts.

(** ** The canonical form *)

Section value_induction.
Context (P : Value -> Prop) (Hnull : P JNull) (Hbool : forall b, P (JBool b)) (Hnumber : forall n, P (JNumber n)) (Hstring : forall s, P (JString s)).
Context (Harray : forall l, Forall P l -> P (JArray l)) (Hobject : forall m, Forall (fun kv => P kv.2) m -> P (JObject m)).
Fixpoint value_induction (v : Value) : P v :=
  match v with
  | JNull => Hnull
  | JBool b => Hbool b
  | JNumber n => Hnumber n
  | JString s => Hstring s
  | JArray l => Harray l ((fix go l : Forall P l := match l with [] => Forall_nil_2 P | v :: l => Forall_cons_2 P v l (value_induction v) (go l) end) l)
  | JObject m => Hobject m ((fix go m : Forall (fun kv => P kv.2) m :=
      match m with [] => Forall_nil_2 _ | kv :: m => Forall_cons_2 _ kv m (value_induction kv.2) (go m) end) m)
  end.
End value_induction.

Definition fields (m : list (string * Value)) : list (string * Value) :=
  map (fun kv => (kv.1, canonicalize_value kv.2)) (List.filter (fun kv => negb (is_null kv.2)) m).
Lemma canonicalize_object m : canonicalize_value (JObject m) = JObject (btree_of (fields m)).
Proof. cbn. do 2 f_equal. induction m as [|[k v] m IH]; [done|]. unfold fields. cbn. destruct (is_null v); cbn; by rewrite IH. Qed.

Inductive canonical : Value -> Prop :=
  | canonical_null : canonical JNull
  | canonical_bool b : canonical (JBool b)
  | canonical_num n : canonical_number n -> canonical (JNumber n)
  | canonical_string s : canonical (JString s)
  | canonical_array l : Forall canonical l -> canonical (JArray l)
  | canonical_object m : StronglySorted key_lt m -> Forall (fun kv => is_null kv.2 = false /\ canonical kv.2) m -> canonical (JObject m).

(** What [serde_json] can hold: its map has each key once. *)
Inductive value_ok : Value -> Prop :=
  | ok_null : value_ok JNull
  | ok_bool b : value_ok (JBool b)
  | ok_number n : number_ok n -> value_ok (JNumber n)
  | ok_string s : value_ok (JString s)
  | ok_array l : Forall value_ok l -> value_ok (JArray l)
  | ok_object m : NoDup m.*1 -> Forall (fun kv => value_ok kv.2) m -> value_ok (JObject m).

Lemma is_null_canonicalize v : is_null (canonicalize_value v) = is_null v.
Proof. by destruct v. Qed.
Lemma elem_of_fields kv m : kv ∈ fields m <-> exists kv', kv' ∈ m /\ is_null kv'.2 = false /\ kv = (kv'.1, canonicalize_value kv'.2).
Proof.
  unfold fields. rewrite list_elem_of_In, in_map_iff. split.
  - intros (kv' & <- & [H1 H2]%filter_In). exists kv'. rewrite list_elem_of_In. apply negb_true_iff in H2. done.
  - intros (kv' & H1 & H2 & ->). exists kv'. rewrite filter_In, <-list_elem_of_In, H2. done.
Qed.

Lemma canonicalize_canonical v : value_ok v -> canonical (canonicalize_value v).
Proof.
  induction v as [| | | |l IH|m IH] using value_induction; intros Hok; inversion_clear Hok as [| |? Hn| |? Hl|? _ Hm]; try by constructor.
  - constructor. by apply canonicalize_number_canonical.
  - cbn. constructor. rewrite Forall_forall in *. intros x (y & <- & Hy%list_elem_of_In)%list_elem_of_In%in_map_iff. auto.
  - rewrite canonicalize_object. constructor; [apply btree_of_sorted|]. rewrite Forall_forall in *.
    intros x ([k y] & Hy & Hnull & ->)%btree_of_elem%elem_of_fields. cbn [snd]. rewrite is_null_canonicalize. split; [done|]. apply (IH (k, y) Hy), (Hm (k, y) Hy).
Qed.

(** Equal values: of equal numbers, with the same fields that are not null, whatever their order. *)
Inductive same_value : Value -> Value -> Prop :=
  | same_null : same_value JNull JNull
  | same_bool b : same_value (JBool b) (JBool b)
  | same_num a b : same_number a b -> same_value (JNumber a) (JNumber b)
  | same_string s : same_value (JString s) (JString s)
  | same_array l l' : Forall2 same_value l l' -> same_value (JArray l) (JArray l')
  | same_object m m' :
      (forall k v, (k, v) ∈ m -> v <> JNull -> exists v', (k, v') ∈ m' /\ same_value v v') ->
      (forall k v', (k, v') ∈ m' -> v' <> JNull -> exists v, (k, v) ∈ m /\ same_value v v') ->
      same_value (JObject m) (JObject m').

Lemma not_null v : v <> JNull <-> is_null v = false.
Proof. by destruct v. Qed.
Lemma fields_keys m : NoDup m.*1 -> NoDup (fields m).*1.
Proof.
  intros Hnd. apply (sublist_NoDup _ m.*1); [done|]. clear. unfold fields. induction m as [|[k v] m IH]; [constructor|]. cbn. destruct (is_null v); cbn; by constructor.
Qed.
Lemma elem_of_object kv m : NoDup m.*1 -> kv ∈ btree_of (fields m) <-> kv ∈ fields m.
Proof. intros Hnd. split; [apply btree_of_elem|apply elem_of_btree, fields_keys, Hnd]. Qed.

Lemma canonicalize_same v : value_ok v -> same_value (canonicalize_value v) v.
Proof.
  induction v as [| | | |l IH|m IH] using value_induction; intros Hok; inversion_clear Hok as [| |? Hn| |? Hl|? Hnd Hm]; try by constructor.
  - constructor. by apply canonicalize_number_same.
  - constructor. induction IH as [|v l Hv _ IHl]; [constructor|]. inversion_clear Hl. constructor; auto.
  - rewrite canonicalize_object. rewrite Forall_forall in IH, Hm. constructor.
    + intros k v (kv & Hkv & Hnull & [= -> ->])%elem_of_object%elem_of_fields _; [|done]. destruct kv as [k v]. exists v. split; [done|]. by apply (IH (k, v) Hkv), (Hm (k, v) Hkv).
    + intros k v Hkv Hnull%not_null. exists (canonicalize_value v). split; [|by apply (IH (k, v) Hkv), (Hm (k, v) Hkv)].
      apply elem_of_object; [done|]. apply elem_of_fields. by exists (k, v).
Qed.

Lemma canonical_forms_same v w : value_ok v -> value_ok w -> canonicalize_value v = canonicalize_value w -> same_value v w.
Proof.
  revert w. induction v as [| | | |l IH|m IH] using value_induction; intros w Hv Hw E; destruct w; try done; inversion_clear Hv as [| |? Hn| |? Hl|? Hnd Hm];
    inversion_clear Hw as [| |? Hn'| |? Hl'|? Hnd' Hm'].
  - constructor.
  - injection E as ->. constructor.
  - constructor. apply canonicalize_number_iff; [done..|]. by injection E.
  - injection E as ->. constructor.
  - constructor. cbn in E. injection E as E. revert l0 Hl' E. induction IH as [|v l Hv _ IHl]; intros [|w l'] Hl' E; try done.
    inversion_clear Hl. inversion_clear Hl'. injection E as E1 E2. constructor; auto.
  - rewrite !canonicalize_object in E. injection E as E. rewrite Forall_forall in IH, Hm, Hm'. constructor.
    + intros k v Hkv Hnull%not_null. assert ((k, canonicalize_value v) ∈ btree_of (fields m0)) as H.
      { rewrite <-E. apply elem_of_object; [done|]. apply elem_of_fields. by exists (k, v). }
      apply elem_of_object, elem_of_fields in H as ([k' w] & Hw & _ & [= <- Ew]); [|done]. exists w. split; [done|].
      by apply (IH (k, v) Hkv); [apply (Hm (k, v) Hkv)|apply (Hm' (k, w) Hw)|].
    + intros k w Hkw Hnull%not_null. assert ((k, canonicalize_value w) ∈ btree_of (fields m)) as H.
      { rewrite E. apply elem_of_object; [done|]. apply elem_of_fields. by exists (k, w). }
      apply elem_of_object, elem_of_fields in H as ([k' v] & Hv & _ & [= <- Ev]); [|done]. exists v. split; [done|].
      by apply (IH (k, v) Hv); [apply (Hm (k, v) Hv)|apply (Hm' (k, w) Hkw)|].
Qed.

Lemma same_canonical_forms v w : value_ok v -> value_ok w -> same_value v w -> canonicalize_value v = canonicalize_value w.
Proof.
  revert w. induction v as [| | | |l IH|m IH] using value_induction; intros w Hv Hw E; inversion E as [| |? ? Hab| |l1 l2 Hll|m1 m2 H1 H2]; subst; try done;
    inversion_clear Hv as [| |? Hn| |? Hl|? Hnd Hm]; inversion_clear Hw as [| |? Hn'| |? Hl'|? Hnd' Hm'].
  - cbn. f_equal. by apply canonicalize_number_iff.
  - cbn. f_equal. clear E. induction Hll as [|v w l l' Hvw _ IHl]; [done|]. inversion_clear IH. inversion_clear Hl. inversion_clear Hl'. cbn. f_equal; auto.
  - rewrite !canonicalize_object. f_equal. rewrite Forall_forall in IH, Hm, Hm'. apply btree_of_permutation; [|by apply fields_keys].
    apply NoDup_Permutation; [by eapply NoDup_fmap_1, fields_keys..|]. intros [k u]. rewrite !elem_of_fields. split.
    + intros ([k' v] & Hkv & Hnull & [= -> ->]). destruct (H1 k' v Hkv (proj2 (not_null v) Hnull)) as (w & Hw & Hvw). exists (k', w). split; [done|].
      assert (canonicalize_value v = canonicalize_value w) as Ec by (by apply (IH (k', v) Hkv); [apply (Hm (k', v) Hkv)|apply (Hm' (k', w) Hw)|]).
      cbn. by rewrite Ec, <-is_null_canonicalize, <-Ec, is_null_canonicalize.
    + intros ([k' w] & Hkw & Hnull & [= -> ->]). destruct (H2 k' w Hkw (proj2 (not_null w) Hnull)) as (v & Hv & Hvw). exists (k', v). split; [done|].
      assert (canonicalize_value v = canonicalize_value w) as Ec by (by apply (IH (k', v) Hv); [apply (Hm (k', v) Hv)|apply (Hm' (k', w) Hkw)|]).
      cbn. by rewrite Ec, <-is_null_canonicalize, Ec, is_null_canonicalize.
Qed.

(** C27: The canonical form of a value is canonical: its objects have their keys in increasing order and no
    null fields, at every depth, and its numbers are integers below [2 ^ 53] in size or doubles that are none
    of those.  It is equal to the value up to null fields, and two values have the same form exactly when they
    are equal, numbers as doubles, objects by their fields that are not null. *)
Theorem canonical_form_normal v w :
  value_ok v -> value_ok w ->
  canonical (canonicalize_value v) /\ same_value (canonicalize_value v) v /\ (canonicalize_value v = canonicalize_value w <-> same_value v w).
Proof.
  intros Hv Hw. split; [by apply canonicalize_canonical|]. split; [by apply canonicalize_same|].
  split; [by apply canonical_forms_same|by apply same_canonical_forms].
Qed.

(** The hash of an object depends on nothing but its fields that are not null: not on their order, nor on
    the null ones. *)
Theorem hash_of_fields blake3 to_string m m' :
  NoDup m.*1 -> List.filter (fun kv => negb (is_null kv.2)) m ≡ₚ List.filter (fun kv => negb (is_null kv.2)) m' ->
  canonical_hash blake3 to_string (JObject m) = canonical_hash blake3 to_string (JObject m').
Proof.
  intros Hnd Hp. unfold canonical_hash, to_canonical_json. rewrite !canonicalize_object. do 4 f_equal. apply btree_of_permutation.
  - unfold fields. by apply Permutation_map.
  - apply (sublist_NoDup _ m.*1); [done|]. clear. unfold fields. induction m as [|[k v] m IH]; [constructor|]. cbn. destruct (is_null v); cbn; by constructor.
Qed.

(** Integers smaller than [2 ^ 53] keep their value, so that different ones keep different forms. *)
Theorem small_integers_kept z : Z.abs z < 2 ^ 53 -> canonicalize_value (JNumber (number_of_i64 z)) = JNumber (number_of_i64 z).
Proof. intros Hz. cbn. by rewrite number_kept. Qed.

(** Larger integers do not: values that differ in one of them can have the same hash, and a document then
    passes the check against the hash of the other. *)
Theorem large_integers_collide blake3 to_string from_str json key :
  from_str json = Some (JObject [(key, JNumber (PosInt (2 ^ 53 + 1)))]) ->
  parse_and_verify_hash blake3 to_string from_str json (canonical_hash blake3 to_string (JObject [(key, JNumber (PosInt (2 ^ 53)))])) =
  Ok (JObject [(key, JNumber (PosInt (2 ^ 53 + 1)))]).
Proof. intros E. unfold parse_and_verify_hash. rewrite E. cbn [result_of_option result_bind]. by rewrite bool_decide_eq_true_2. Qed.

Lemma canonical_form_normal_witness :
  let v := JObject [("b", JNumber (PosInt 2)); ("a", JArray [JNull; JObject [("y", JBool true); ("x", JNull)]]); ("c", JNull)]%string in
  let w := JObject [("a", JArray [JNull; JObject [("y", JBool true)]]); ("b", JNumber (Float (f64_of_Z 2)))]%string in
  canonical (canonicalize_value v) /\ same_value (canonicalize_value v) v /\ same_value v w.
Proof.
  intros v w. assert (value_ok v) as Hv by (unfold v; repeat constructor; cbn; first [lia|set_solver]).
  assert (value_ok w) as Hw by (unfold w; repeat constructor; cbn; first [lia|set_solver]).
  destruct (canonical_form_normal v w Hv Hw) as (H1 & H2 & H3).
  split; [exact H1|]. split; [exact H2|]. apply H3. vm_compute. reflexivity.
Defined.
Lemma hash_of_fields_witness :
  canonical_hash (fun b => b) (fun v => "") (JObject [("b", JBool true); ("a", JString "x")]%string) = canonical_hash (fun b => b) (fun v => "") (JObject [("a", JString "x"); ("n", JNull); ("b", JBool true)]%string).
Proof. apply hash_of_fields; [vm_compute; repeat constructor; set_solver|cbn; apply perm_swap]. Defined.
Lemma large_integers_collide_witness :
  parse_and_verify_hash (fun b => b) (fun v => "") (fun _ => Some (JObject [("n", JNumber (PosInt (2 ^ 53 + 1)))]%string)) "" (canonical_hash (fun b => b) (fun v => ""%string) (JObject [("n", JNumber (PosInt (2 ^ 53)))]%string)) =
  Ok (JObject [("n", JNumber (PosInt (2 ^ 53 + 1)))]%string).
Proof. apply large_integers_collide. reflexivity. Defined.
