(* ===== verification/Bls.v ===== *)
(** * Threshold signatures

    [adic-crypto/src/bls.rs].  The library [threshold_crypto] with its serialisation is the class
    [ThresholdScheme], what it documents the class [ThresholdLaws]; hexadecimal text is a pair of
    parameters.  Secrets drawn at random are arguments.  A toy instance of both classes shows that the
    laws can hold. *)

From S2P Require Import Prelude Message.

(** ** The library *)

Class ThresholdScheme := {
  SecretKeySet : Type;
  SecretKeyShare : Type;
  PublicKeySet : Type;
  PublicKeyShare : Type;
  SignatureShare : Type;
  Signature : Type;
  public_keys : SecretKeySet -> PublicKeySet;
  secret_key_share : SecretKeySet -> nat -> SecretKeyShare;
  public_key_share : PublicKeySet -> nat -> PublicKeyShare;
  (** the degree of the polynomial: one more share is needed to sign *)
  degree : PublicKeySet -> nat;
  sign_with : SecretKeyShare -> Bytes -> SignatureShare;
  check_share : PublicKeyShare -> SignatureShare -> Bytes -> bool;
  combine_signatures : PublicKeySet -> list (nat * SignatureShare) -> option Signature;
  check_signature : PublicKeySet -> Signature -> Bytes -> bool;
  ser_signature : Signature -> Bytes;
  de_signature : Bytes -> option Signature;
  ser_signature_share : SignatureShare -> Bytes;
  de_signature_share : Bytes -> option SignatureShare;
  ser_public_key_set : PublicKeySet -> Bytes;
  de_public_key_set : Bytes -> option PublicKeySet;
  ser_public_key_share : PublicKeyShare -> Bytes;
  de_public_key_share : Bytes -> option PublicKeyShare;
  public_key_share_eq_dec :: EqDecision PublicKeyShare;
}.

Class ThresholdLaws (TS : ThresholdScheme) := {
  de_ser_signature s : de_signature (ser_signature s) = Some s;
  de_ser_signature_share s : de_signature_share (ser_signature_share s) = Some s;
  de_ser_public_key_set p : de_public_key_set (ser_public_key_set p) = Some p;
  de_ser_public_key_share p : de_public_key_share (ser_public_key_share p) = Some p;
  share_checks sk i m : check_share (public_key_share (public_keys sk) i) (sign_with (secret_key_share sk i) m) m = true;
  enough_shares_combine sk (ids : list nat) m :
    NoDup ids -> (degree (public_keys sk) < length ids)%nat ->
    exists sg, combine_signatures (public_keys sk) ((fun i => (i, sign_with (secret_key_share sk i) m)) <$> ids) = Some sg /\
      check_signature (public_keys sk) sg m = true;
}.

(** ** Errors and domains *)

Inductive BLSError :=
  | InvalidThreshold (t n : nat)
  | InsufficientShares (got need : nat)
  | DuplicateShare (participant : nat)
  | BlsSerialization (what : string)
  | ThresholdCryptoError (what : string)
  | HexError.

Definition GOV_PROPOSAL : Bytes := str_bytes "ADIC-GOV-PROP-v1".
Definition GOV_VOTE : Bytes := str_bytes "ADIC-GOV-VOTE-v1".
Definition GOV_RECEIPT : Bytes := str_bytes "ADIC-GOV-R-v1".
Definition POUW_RECEIPT : Bytes := str_bytes "ADIC-PoUW-RECEIPT-v1".
Definition POUW_HOOK : Bytes := str_bytes "ADIC-PoUW-HOOK-v1".
Definition POUW_CLAIM : Bytes := str_bytes "ADIC-PoUW-CLAIM-v1".
Definition POUW_RESULT : Bytes := str_bytes "ADIC-PoUW-RESULT-v1".
Definition POUW_VERDICT : Bytes := str_bytes "ADIC-PoUW-VERDICT-v1".
Definition POUW_COMMITTEE : Bytes := str_bytes "ADIC-PoUW-COMMITTEE-v1".
Definition all_dsts : list Bytes :=
  [GOV_PROPOSAL; GOV_VOTE; GOV_RECEIPT; POUW_RECEIPT; POUW_HOOK; POUW_CLAIM; POUW_RESULT; POUW_VERDICT; POUW_COMMITTEE].

(** ** The threshold *)

Record ThresholdConfig := mkThreshold { total_participants : nat; threshold : nat }.

Definition threshold_config_new (total t : nat) : result BLSError ThresholdConfig :=
  let min_threshold := ((total + 1) / 2)%nat in
  if (total <? t)%nat then Err (InvalidThreshold t total)
  else if (t <? min_threshold)%nat then Err (InvalidThreshold t total)
  else Ok (mkThreshold total t).
Definition with_bft_threshold (total : nat) : result BLSError ThresholdConfig :=
  threshold_config_new total ((2 * total + 2) / 3)%nat.

(** ** Signing *)

Definition prefixed_message (dst message : Bytes) : Bytes := dst ++ message.

Section bls.
Context {TS : ThresholdScheme} (hex : Bytes -> string) (unhex : string -> option Bytes).

(** [BLSSignature] is the text; a share carries its index. *)
Definition BLSSignature : Type := string.
Record BLSSignatureShare := mkShare { participant_id : nat; signature_hex : string }.

Definition from_tc_signature (sig : Signature) : BLSSignature := hex (ser_signature sig).
Definition to_tc_signature (s : BLSSignature) : result BLSError Signature :=
  let? bytes := result_of_option (unhex s) HexError in
  result_of_option (de_signature bytes) (BlsSerialization "Failed to deserialize signature").

Definition share_new (participant_id : nat) (sig_share : SignatureShare) : BLSSignatureShare :=
  mkShare participant_id (hex (ser_signature_share sig_share)).
Definition to_tc_signature_share (s : BLSSignatureShare) : result BLSError SignatureShare :=
  let? bytes := result_of_option (unhex (signature_hex s)) HexError in
  result_of_option (de_signature_share bytes) (BlsSerialization "Failed to deserialize signature share").

Definition sign_share (secret : SecretKeyShare) (participant_id : nat) (message dst : Bytes) : BLSSignatureShare :=
  share_new participant_id (sign_with secret (prefixed_message dst message)).

Definition verify_share (pk_set : PublicKeySet) (message dst : Bytes) (share : BLSSignatureShare) : result BLSError bool :=
  let pk_share := public_key_share pk_set (participant_id share) in
  let? sig_share := to_tc_signature_share share in
  Ok (check_share pk_share sig_share (prefixed_message dst message)).

(** The loop that fills the map; the entries of a [BTreeMap] are in the order of their keys. *)
Fixpoint collect_shares (entries : list (nat * SignatureShare)) (shares : list BLSSignatureShare)
    : result BLSError (list (nat * SignatureShare)) :=
  match shares with
  | [] => Ok entries
  | s :: shares =>
      if bool_decide (participant_id s ∈ entries.*1) then Err (DuplicateShare (participant_id s))
      else let? sig_share := to_tc_signature_share s in
           collect_shares (entries ++ [(participant_id s, sig_share)]) shares
  end.

Definition by_participant (a b : nat * SignatureShare) : bool := (a.1 <=? b.1)%nat.

Definition aggregate_shares (config : ThresholdConfig) (pk_set : PublicKeySet) (shares : list BLSSignatureShare) : result BLSError BLSSignature :=
  if (length shares <? threshold config)%nat then Err (InsufficientShares (length shares) (threshold config))
  else
    let? shares_map := collect_shares [] shares in
    let? combined := result_of_option (combine_signatures pk_set (isort by_participant shares_map))
                       (ThresholdCryptoError "Failed to combine signatures") in
    Ok (from_tc_signature combined).

Definition bls_verify (pk_set : PublicKeySet) (message dst : Bytes) (signature : BLSSignature) : result BLSError bool :=
  let? sig := to_tc_signature signature in
  Ok (check_signature pk_set sig (prefixed_message dst message)).

(** The dealer of the tests: [sk_set] is the random polynomial of degree [threshold - 1]. *)
Definition generate_threshold_keys (sk_set : nat -> SecretKeySet) (total t : nat)
    : result BLSError (PublicKeySet * list SecretKeyShare) :=
  let? config := threshold_config_new total t in
  let sk := sk_set (threshold config - 1)%nat in
  Ok (public_keys sk, secret_key_share sk <$> seq 0 total).
End bls.

(** ** Thresholds and domains *)

(** A threshold is accepted exactly between half of the participants, rounded up, and all of them; the
    Byzantine threshold is the least one with three times as many signers as participants twice, and is
    always accepted. *)
Theorem thresholds_correct total t :
  (threshold_config_new total t = Ok (mkThreshold total t) <-> (total <= 2 * t /\ t <= total)%nat) /\
  (exists b, with_bft_threshold total = Ok (mkThreshold total b) /\ (2 * total <= 3 * b /\ 3 * b < 2 * total + 3)%nat).
Proof.
  assert (forall t, threshold_config_new total t = Ok (mkThreshold total t) <-> (total <= 2 * t /\ t <= total)%nat) as H.
  { intros u. unfold threshold_config_new. pose proof (Nat.div_mod_eq (total + 1) 2) as Hd.
    pose proof (Nat.mod_upper_bound (total + 1) 2). destruct (Nat.ltb_spec total u); [split; [done|lia]|].
    destruct (Nat.ltb_spec u ((total + 1) / 2)); split; (done || lia). }
  split; [apply H|]. exists ((2 * total + 2) / 3)%nat. pose proof (Nat.div_mod_eq (2 * total + 2) 3).
  pose proof (Nat.mod_upper_bound (2 * total + 2) 3). split; [apply H; lia|lia].
Qed.

(** One list begins with the other. *)
Fixpoint is_prefix (a b : Bytes) : bool :=
  match a, b with
  | [], _ => true
  | x :: a, y :: b => (x =? y) && is_prefix a b
  | _ :: _, [] => false
  end.

Lemma prefix_of_app a b m m' : a ++ m = b ++ m' -> is_prefix a b = true \/ is_prefix b a = true.
Proof.
  revert b. induction a as [|x a IH]; intros [|y b]; cbn; auto. intros [= -> H].
  rewrite Z.eqb_refl. cbn. by apply IH.
Qed.

Lemma dsts_prefix_free : forallb (fun a => forallb (fun b => negb (is_prefix a b) || bool_decide (a = b)) all_dsts) all_dsts = true.
Proof. vm_compute. reflexivity. Qed.

(** The domains separate: what is signed under one of the listed tags is nothing that could be signed
    under another, nor another message under the same. *)
Theorem domains_separate dst dst' m m' :
  dst ∈ all_dsts -> dst' ∈ all_dsts -> prefixed_message dst m = prefixed_message dst' m' -> dst = dst' /\ m = m'.
Proof.
  intros Hd Hd' H. assert (forall a b, a ∈ all_dsts -> b ∈ all_dsts -> is_prefix a b = true -> a = b) as Hfree.
  { intros a b Ha Hb E. pose proof dsts_prefix_free as F. rewrite forallb_forall in F.
    specialize (F a (proj1 (list_elem_of_In _ _) Ha)). rewrite forallb_forall in F.
    specialize (F b (proj1 (list_elem_of_In _ _) Hb)). rewrite E in F. cbn in F. by apply bool_decide_eq_true in F. }
  assert (dst = dst') as ->; [|split; [done|by apply (app_inv_head dst')]].
  destruct (prefix_of_app _ _ _ _ H); [|symmetry]; by apply Hfree.
Qed.

Lemma domains_separate_witness : GOV_VOTE = GOV_VOTE /\ [7] = [7].
Proof. apply (domains_separate GOV_VOTE GOV_VOTE [7] [7]); [|..|reflexivity]; apply list_elem_of_In; vm_compute; tauto. Defined.

(** ** Shares *)

Section facts.
Context {TS : ThresholdScheme} {TL : ThresholdLaws TS} (hex : Bytes -> string) (unhex : string -> option Bytes).
Context (Hhex : forall bs, unhex (hex bs) = Some bs).

Lemma signature_roundtrip sig : to_tc_signature unhex (from_tc_signature hex sig) = Ok sig.
Proof using Hhex TL. unfold to_tc_signature, from_tc_signature. rewrite Hhex. cbn. by rewrite de_ser_signature. Qed.
Lemma share_roundtrip i sig : to_tc_signature_share unhex (share_new hex i sig) = Ok sig.
Proof using Hhex TL. unfold to_tc_signature_share, share_new. cbn. rewrite Hhex. cbn. by rewrite de_ser_signature_share. Qed.

(** The shares of some participants. *)
Definition shares_of (sk : SecretKeySet) (message dst : Bytes) (ids : list nat) : list BLSSignatureShare :=
  (fun i => sign_share hex (secret_key_share sk i) i message dst) <$> ids.
Definition entries_of (sk : SecretKeySet) (m : Bytes) (ids : list nat) : list (nat * SignatureShare) :=
  (fun i => (i, sign_with (secret_key_share sk i) m)) <$> ids.

Lemma entries_ids sk m ids : (entries_of sk m ids).*1 = ids.
Proof. unfold entries_of. rewrite <-list_fmap_compose. apply list_fmap_id. Qed.

Lemma collect_entries sk message dst ids done_ids :
  NoDup (done_ids ++ ids) ->
  collect_shares unhex (entries_of sk (prefixed_message dst message) done_ids) (shares_of sk message dst ids) =
    Ok (entries_of sk (prefixed_message dst message) (done_ids ++ ids)).
Proof using Hhex TL.
  revert done_ids. induction ids as [|i ids IH]; intros done_ids Hnd; [by rewrite app_nil_r|].
  cbn [shares_of fmap list_fmap collect_shares]. rewrite entries_ids. cbn [participant_id sign_share share_new].
  rewrite bool_decide_eq_false_2 by (apply NoDup_app in Hnd as (_ & H & _); intros Hi; apply (H i Hi); left).
  unfold sign_share at 1. rewrite share_roundtrip. cbn [result_bind].
  replace (entries_of sk (prefixed_message dst message) done_ids ++ [(i, sign_with (secret_key_share sk i) (prefixed_message dst message))])
    with (entries_of sk (prefixed_message dst message) (done_ids ++ [i])) by (unfold entries_of; by rewrite fmap_app).
  specialize (IH (done_ids ++ [i])). rewrite <-app_assoc in IH. exact (IH Hnd).
Qed.

Lemma isort_entries sk m ids : exists ids', ids' ≡ₚ ids /\ isort by_participant (entries_of sk m ids) = entries_of sk m ids'.
Proof.
  exists (nat_sort ids). split; [apply isort_Permutation|]. unfold nat_sort, entries_of.
  induction ids as [|i ids IH]; [done|]. cbn [fmap list_fmap isort]. rewrite IH. clear IH.
  induction (isort Nat.leb ids) as [|j l IH]; [done|]. cbn [fmap list_fmap insert_sorted by_participant fst]. unfold by_participant at 1. cbn [fst].
  destruct (i <=? j)%nat; [done|]. cbn [fmap list_fmap]. by rewrite <-IH.
Qed.

(** Shares of enough different participants, signed for one message and domain, combine into a signature
    that verifies for that message and domain, in whatever order they come. *)
Theorem aggregate_shares_correct config sk message dst ids :
  NoDup ids -> (threshold config <= length ids)%nat -> (degree (public_keys sk) < length ids)%nat ->
  exists signature, aggregate_shares hex unhex config (public_keys sk) (shares_of sk message dst ids) = Ok signature /\
    bls_verify unhex (public_keys sk) message dst signature = Ok true.
Proof using Hhex TL.
  intros Hnd Ht Hd. unfold aggregate_shares. unfold shares_of at 1. rewrite length_fmap.
  destruct (Nat.ltb_spec (length ids) (threshold config)); [lia|].
  change (@nil (nat * SignatureShare)) with (entries_of sk (prefixed_message dst message) []). rewrite collect_entries by done.
  cbn [app result_bind]. destruct (isort_entries sk (prefixed_message dst message) ids) as (ids' & Hp & ->).
  destruct (enough_shares_combine sk ids' (prefixed_message dst message)) as (sg & Hs & Hc); [by rewrite Hp|by rewrite Hp|].
  unfold entries_of. rewrite Hs. cbn. eexists. split; [done|]. unfold bls_verify. rewrite signature_roundtrip. cbn. by rewrite Hc.
Qed.

(** A share verifies for its participant, message and domain. *)
Theorem own_share_verifies sk i message dst :
  verify_share unhex (public_keys sk) message dst (sign_share hex (secret_key_share sk i) i message dst) = Ok true.
Proof using Hhex TL. unfold verify_share, sign_share. rewrite share_roundtrip. cbn. by rewrite share_checks. Qed.
End facts.

Section errors.
Context {TS : ThresholdScheme} (hex : Bytes -> string) (unhex : string -> option Bytes).

Lemma collect_duplicate (shares : list BLSSignatureShare) entries :
  (exists s, s ∈ shares /\ participant_id s ∈ entries.*1) \/ ~ NoDup (participant_id <$> shares) ->
  is_err (collect_shares unhex entries shares) = true.
Proof.
  revert entries. induction shares as [|s shares IH]; intros entries H.
  { destruct H as [(s & Hs & _)|H]; [by apply elem_of_nil in Hs|destruct H; constructor]. }
  cbn [collect_shares]. case_bool_decide as Hin; [done|]. destruct (to_tc_signature_share unhex s) as [x|e|] eqn:E; cbn [result_bind]; [|done|].
  - apply IH. destruct H as [(s' & Hs' & Hi)|Hnd].
    + apply elem_of_cons in Hs' as [->|Hs']; [done|]. left. exists s'. split; [done|]. rewrite fmap_app. set_solver.
    + destruct (decide (participant_id s ∈ participant_id <$> shares)) as [Hi|Hi].
      * apply list_elem_of_fmap in Hi as (s' & Hs' & Hs). left. exists s'. split; [done|]. rewrite fmap_app, <-Hs'. set_solver.
      * right. intros Hnd'. apply Hnd. by constructor.
  - unfold to_tc_signature_share in E. destruct (unhex _); cbn in E; [by destruct (de_signature_share _)|done].
Qed.

(** Two shares of one participant, or too few shares, are refused. *)
Theorem bad_shares_refused config pk_set (shares : list BLSSignatureShare) :
  (length shares < threshold config)%nat \/ ~ NoDup (participant_id <$> shares) ->
  is_err (aggregate_shares hex unhex config pk_set shares) = true.
Proof.
  intros H. unfold aggregate_shares. destruct (Nat.ltb_spec (length shares) (threshold config)); [done|].
  destruct H as [H|H]; [lia|]. pose proof (collect_duplicate shares [] (or_intror H)) as E. by destruct (collect_shares _ _ _).
Qed.
End errors.

(** ** A toy instance

    Keys are numbers and a signature is the key with the message; shares of different keys combine into one
    that verifies for no key.  It satisfies the laws, and protects nothing. *)

Definition toy_combine (pk : Z * nat) (l : list (nat * (Z * nat * Bytes))) : option (Z * Bytes) :=
  match l with
  | (_, (key, _, m)) :: _ =>
      if (pk.2 <? length l)%nat && bool_decide (NoDup l.*1)
      then Some (if forallb (fun x => bool_decide (x.2 = (key, x.1, m))) l then key else -1, m) else None
  | [] => None
  end.
Definition toy_de2 (bs : Bytes) : option (Z * nat) := match bs with [k; n] => Some (k, Z.to_nat n) | _ => None end.

#[export] Instance toy_scheme : ThresholdScheme := {|
  SecretKeySet := Z * nat; SecretKeyShare := Z * nat; PublicKeySet := Z * nat; PublicKeyShare := Z * nat;
  SignatureShare := Z * nat * Bytes; Signature := Z * Bytes;
  public_keys sk := sk;
  secret_key_share sk i := (sk.1, i);
  public_key_share pk i := (pk.1, i);
  degree pk := pk.2;
  sign_with ks m := (ks.1, ks.2, m);
  check_share ps s m := bool_decide (s = (ps.1, ps.2, m));
  combine_signatures := toy_combine;
  check_signature pk sg m := bool_decide (sg = (pk.1, m));
  ser_signature sg := sg.1 :: sg.2;
  de_signature bs := match bs with k :: m => Some (k, m) | [] => None end;
  ser_signature_share s := s.1.1 :: Z.of_nat s.1.2 :: s.2;
  de_signature_share bs := match bs with k :: i :: m => Some (k, Z.to_nat i, m) | _ => None end;
  ser_public_key_set p := [p.1; Z.of_nat p.2];
  de_public_key_set := toy_de2;
  ser_public_key_share p := [p.1; Z.of_nat p.2];
  de_public_key_share := toy_de2;
  public_key_share_eq_dec := _;
|}.

Lemma toy_combines sk (ids : list nat) m :
  NoDup ids -> (sk.2 < length ids)%nat -> toy_combine sk ((fun i => (i, (sk.1, i, m))) <$> ids) = Some (sk.1, m).
Proof.
  intros Hnd Hl. destruct ids as [|i ids]; [cbn in Hl; lia|]. unfold toy_combine. cbn [fmap list_fmap].
  change ((i, (sk.1, i, m)) :: ((fun i => (i, (sk.1, i, m))) <$> ids)) with ((fun i => (i, (sk.1, i, m))) <$> (i :: ids)).
  rewrite length_fmap, (proj2 (Nat.ltb_lt _ _) Hl), <-list_fmap_compose. cbn [andb].
  replace ((i, (sk.1, i, m)).1 :: (fst ∘ (fun i0 => (i0, (sk.1, i0, m))) <$> ids)) with (i :: ids) by (cbn; f_equal; symmetry; apply list_fmap_id).
  rewrite bool_decide_eq_true_2 by done.
  replace (forallb _ _) with true; [done|]. symmetry. apply forallb_forall. intros x (j & -> & _)%list_elem_of_In%list_elem_of_fmap.
  by apply bool_decide_eq_true.
Qed.

#[export] Instance toy_laws : ThresholdLaws toy_scheme.
Proof.
  split; cbn.
  - by intros [].
  - intros [[k i] m]. cbn. by rewrite Nat2Z.id.
  - intros [k i]. cbn. by rewrite Nat2Z.id.
  - intros [k i]. cbn. by rewrite Nat2Z.id.
  - intros [k d] i m. cbn. by apply bool_decide_eq_true.
  - intros sk ids m Hnd Hl. eexists. split; [by apply toy_combines|]. by apply bool_decide_eq_true.
Defined.

(** Text that keeps every list of bytes: the binary digits of its number. *)
Fixpoint pos_text (p : positive) : string :=
  match p with xH => EmptyString | xO p => String Ascii.zero (pos_text p) | xI p => String Ascii.one (pos_text p) end.
Fixpoint text_pos (s : string) : positive :=
  match s with EmptyString => xH | String c s => if Ascii.eqb c Ascii.zero then xO (text_pos s) else xI (text_pos s) end.
Definition toy_hex (bs : Bytes) : string := pos_text (encode bs).
Definition toy_unhex (s : string) : option Bytes := decode (text_pos s).

Lemma toy_hex_roundtrip bs : toy_unhex (toy_hex bs) = Some bs.
Proof.
  unfold toy_unhex, toy_hex. assert (forall p, text_pos (pos_text p) = p) as -> by (induction p; cbn; congruence). apply decode_encode.
Qed.

Definition toy_key : SecretKeySet (ThresholdScheme := toy_scheme) := (5, 2%nat).

Lemma aggregate_shares_correct_witness :
  exists signature, aggregate_shares toy_hex toy_unhex (mkThreshold 4 3) (public_keys toy_key) (shares_of toy_hex toy_key [7] GOV_VOTE [3; 1; 2]%nat) = Ok signature /\
    bls_verify toy_unhex (public_keys toy_key) [7] GOV_VOTE signature = Ok true.
Proof.
  apply (aggregate_shares_correct toy_hex toy_unhex toy_hex_roundtrip (mkThreshold 4 3) toy_key [7] GOV_VOTE [3; 1; 2]%nat).
  - apply NoDup_ListNoDup. repeat constructor; cbn; lia.
  - cbn. lia.
  - cbn. lia.
Defined.
Lemma own_share_verifies_witness :
  verify_share toy_unhex (public_keys toy_key) [7] GOV_VOTE (sign_share toy_hex (secret_key_share toy_key 1%nat) 1%nat [7] GOV_VOTE) = Ok true.
Proof. apply (own_share_verifies toy_hex toy_unhex toy_hex_roundtrip). Defined.
Lemma bad_shares_refused_witness :
  is_err (aggregate_shares toy_hex toy_unhex (mkThreshold 4 1) (public_keys toy_key) [mkShare 1 ""; mkShare 1 ""]) = true.
Proof. apply bad_shares_refused. right. intros H. apply NoDup_cons in H as [H _]. apply H. left. Defined.
