(* ===== verification/Encoders.v ===== *)
(** * Feature encoders

    [adic-types/src/encoders.rs]: the maps from a message's time, topic, region, stake or network to
    the digit vector of an axis.  An encoder receives the bytes of a string, checks that they are UTF-8
    and parses them ([utf8_valid], [parse_unsigned] and [parse_signed] are the standard library's); a
    [&str] is its bytes.  [Box<dyn FeatureEncoder>] is [BoxEncoder], a value packed with its instance of
    the class.  BLAKE3 is the parameter [blake3]. *)

From Stdlib Require Import Ascii.
From stdpp Require Import pretty.
From S2P Require Import Prelude Padic Message.

Abbreviation Coded := (result Empty_set QpDigits).

(** ** Strings and numbers of the standard library *)

Definition in_range (lo hi b : Z) : bool := (lo <=? b) && (b <=? hi).

(** [std::str::from_utf8(_).is_ok()]: the well-formed sequences of one to four bytes. *)
Fixpoint utf8_valid (bs : Bytes) : bool :=
  match bs with
  | [] => true
  | b1 :: bs1 =>
      if in_range 0 127 b1 then utf8_valid bs1
      else match bs1 with
      | [] => false
      | b2 :: bs2 =>
          if in_range 194 223 b1 && in_range 128 191 b2 then utf8_valid bs2
          else match bs2 with
          | [] => false
          | b3 :: bs3 =>
              if ((b1 =? 224) && in_range 160 191 b2 || in_range 225 236 b1 && in_range 128 191 b2 ||
                  (b1 =? 237) && in_range 128 159 b2 || in_range 238 239 b1 && in_range 128 191 b2) && in_range 128 191 b3
              then utf8_valid bs3
              else match bs3 with
              | [] => false
              | b4 :: bs4 =>
                  ((b1 =? 240) && in_range 144 191 b2 || in_range 241 243 b1 && in_range 128 191 b2 ||
                   (b1 =? 244) && in_range 128 143 b2) && in_range 128 191 b3 && in_range 128 191 b4 && utf8_valid bs4
              end
          end
      end
  end.

Definition from_utf8 (bs : Bytes) : option Bytes := if utf8_valid bs then Some bs else None.

Fixpoint digits_from (acc : Z) (bs : Bytes) : option Z :=
  match bs with
  | [] => Some acc
  | b :: bs => if in_range 48 57 b then digits_from (10 * acc + (b - 48)) bs else None
  end.

(** The digits of a number, at least one. *)
Definition parse_digits (bs : Bytes) : option Z := match bs with [] => None | _ => digits_from 0 bs end.
Definition within (lo hi v : Z) : option Z := if in_range lo hi v then Some v else None.

(** [parse::<u64>()] and [parse::<u32>()]: an optional [+], then digits without overflow. *)
Definition parse_unsigned (max : Z) (bs : Bytes) : option Z :=
  let digits_of := match bs with b :: rest => if b =? 43 then rest else bs | [] => bs end in
  parse_digits digits_of ≫= within 0 max.

(** [parse::<i64>()]. *)
Definition parse_signed (min max : Z) (bs : Bytes) : option Z :=
  match bs with
  | b :: rest => if b =? 45 then parse_digits rest ≫= (fun v => within min 0 (- v)) else parse_unsigned max bs
  | [] => None
  end.

Definition i64_min : Z := - 2 ^ 63.
Definition i64_max : Z := 2 ^ 63 - 1.
Definition parse_i64 : Bytes -> option Z := parse_signed i64_min i64_max.
Definition parse_u64 : Bytes -> option Z := parse_unsigned u64_max.
Definition parse_u32 : Bytes -> option Z := parse_unsigned u32_max.

(** [i64::to_string] and [u64::to_string]. *)
Definition show_int (z : Z) : Bytes := str_bytes (pretty z).

(** [trim_start_matches] of a two-byte pattern. *)
Fixpoint trim_start_matches (a b : Z) (bs : Bytes) : Bytes :=
  match bs with
  | x :: (y :: bs') as bs => if (x =? a) && (y =? b) then trim_start_matches a b bs' else bs
  | bs => bs
  end.

(** [BigUint::from_bytes_be] and [u32::from_be_bytes]. *)
Definition from_bytes_be (bs : Bytes) : Z := foldl (fun acc b => 256 * acc + b) 0 bs.

(** [precision as u32]; [u32::pow] wraps around. *)
Definition pow_u32 (p : Z) (precision : nat) : Z := to_u32 (p ^ to_u32 (Z.of_nat precision)).
Definition pow_big (p : Z) (precision : nat) : Z := p ^ to_u32 (Z.of_nat precision).

(** [%] and [/] of an unsigned number: a zero divisor panics. *)
Definition rem_by {E} (a b : Z) : result E Z := if b =? 0 then Panic else Ok (a mod b).
Definition div_by {E} (a b : Z) : result E Z := if b =? 0 then Panic else Ok (a / b).

(** ** The encoders *)

Class FeatureEncoder (T : Type) := {
  encode : (Bytes -> Bytes) -> T -> Bytes -> Z -> nat -> Coded;
  axis_id : T -> AxisId;
  encoder_name : T -> string;
}.

Section encoders.
Context (blake3 : Bytes -> Bytes).
Implicit Types (value : Bytes) (p : Z) (precision : nat).

Record TimeEpochEncoder := mkTimeEpoch { te_axis : Z; te_bucket_size : Z }.

(** The timestamp of a [DateTime] in seconds. *)
Definition encode_timestamp (e : TimeEpochEncoder) (timestamp : Z) p precision : Coded :=
  let? bucket := div_by (to_u64 timestamp) (te_bucket_size e) in
  QpDigits_from_u64 bucket p precision.

Definition encode_time_epoch (e : TimeEpochEncoder) value p precision : Coded :=
  let timestamp := default 0 (parse_i64 (default (str_bytes "0") (from_utf8 value))) in
  let? bucket := div_by (to_u64 timestamp) (te_bucket_size e) in
  QpDigits_from_u64 bucket p precision.

Record TopicHashEncoder := mkTopicHash { th_axis : Z }.

(** [encode_topic] and [encode] of the topic encoder have the same body. *)
Definition encode_topic_hash (_ : TopicHashEncoder) value p precision : Coded :=
  let? hash_value := rem_by (from_bytes_be (blake3 value)) (pow_big p precision) in
  QpDigits_new hash_value p precision.

Record RegionCodeEncoder := mkRegionCode { rc_axis : Z }.

Definition region_value (region_code : Bytes) : Z :=
  if bool_decide (region_code = str_bytes "US") then 1
  else if bool_decide (region_code = str_bytes "EU") then 2
  else if bool_decide (region_code = str_bytes "ASIA") then 3
  else if bool_decide (region_code = str_bytes "AF") then 4
  else if bool_decide (region_code = str_bytes "SA") then 5
  else if bool_decide (region_code = str_bytes "OC") then 6
  else default 0 (blake3 region_code !! 0%nat) mod 100 + 7.

Definition encode_region (_ : RegionCodeEncoder) (region_code : Bytes) p precision : Coded :=
  QpDigits_from_u64 (region_value region_code) p precision.

Definition encode_region_code (e : RegionCodeEncoder) value p precision : Coded :=
  encode_region e (default (str_bytes "UNKNOWN") (from_utf8 value)) p precision.

Record StakeTierEncoder := mkStakeTier { st_axis : Z; tier_thresholds : list Z }.

Definition default_thresholds : list Z := [0; 10; 100; 1000; 10000; 100000; 1000000; 10000000; 100000000].
Definition stake_tier_new (a : Z) : StakeTierEncoder := mkStakeTier a default_thresholds.

Definition tier_of (thresholds : list Z) (stake_amount : Z) : Z :=
  match list_find (fun threshold => threshold <= stake_amount) (reverse thresholds) with
  | Some (pos, _) => Z.of_nat (length thresholds - 1 - pos)
  | None => 0
  end.

Definition encode_stake (e : StakeTierEncoder) (stake_amount : Z) p precision : Coded :=
  QpDigits_from_u64 (tier_of (tier_thresholds e) stake_amount) p precision.

Definition encode_stake_tier (e : StakeTierEncoder) value p precision : Coded :=
  encode_stake e (default 0 (parse_u64 (default (str_bytes "0") (from_utf8 value)))) p precision.

Record AsnEncoder := mkAsn { asn_axis : Z }.

Definition encode_asn (_ : AsnEncoder) (asn : Z) p precision : Coded :=
  let? asn_value := rem_by asn (pow_u32 p precision) in
  QpDigits_from_u64 asn_value p precision.

Definition asn_number (asn_str : Bytes) : Z :=
  default (from_bytes_be (take 4 (blake3 asn_str)))
    (parse_u32 (trim_start_matches 97 115 (trim_start_matches 65 83 asn_str))).

Definition encode_asn_str (e : AsnEncoder) (asn_str : Bytes) p precision : Coded :=
  encode_asn e (asn_number asn_str) p precision.

Definition encode_asn_bytes (e : AsnEncoder) value p precision : Coded :=
  encode_asn_str e (default (str_bytes "0") (from_utf8 value)) p precision.
End encoders.

#[export] Instance time_epoch_encoder : FeatureEncoder TimeEpochEncoder := {
  encode _ := encode_time_epoch; axis_id := te_axis; encoder_name _ := "time_epoch" }.
#[export] Instance topic_hash_encoder : FeatureEncoder TopicHashEncoder := {
  encode := encode_topic_hash; axis_id := th_axis; encoder_name _ := "topic_hash" }.
#[export] Instance region_code_encoder : FeatureEncoder RegionCodeEncoder := {
  encode := encode_region_code; axis_id := rc_axis; encoder_name _ := "region_code" }.
#[export] Instance stake_tier_encoder : FeatureEncoder StakeTierEncoder := {
  encode _ := encode_stake_tier; axis_id := st_axis; encoder_name _ := "stake_tier" }.
#[export] Instance asn_encoder : FeatureEncoder AsnEncoder := {
  encode := encode_asn_bytes; axis_id := asn_axis; encoder_name _ := "asn" }.

(** ** The set of encoders *)

Inductive BoxEncoder :=
  | Boxed (T : Type) (F : FeatureEncoder T) (e : T).
Arguments Boxed {T F} e.

Record EncoderSet := mkEncoders { es_encoders : list BoxEncoder }.
Definition default_phase0 : EncoderSet :=
  mkEncoders [Boxed (mkTimeEpoch 0 60); Boxed (mkTopicHash 1); Boxed (mkRegionCode 2)].
Definition default_full : EncoderSet :=
  mkEncoders [Boxed (mkTimeEpoch 0 60); Boxed (mkTopicHash 1); Boxed (mkRegionCode 2); Boxed (stake_tier_new 3)].
Definition with_asn_set : EncoderSet :=
  mkEncoders [Boxed (mkTimeEpoch 0 60); Boxed (mkTopicHash 1); Boxed (mkAsn 2); Boxed (stake_tier_new 3)].

Record EncoderData := mkEncoderData {
  ed_timestamp : Z;
  ed_topic : Bytes;
  ed_region : Bytes;
  ed_stake_amount : Z;
  ed_asn : Bytes;
}.

Definition encoder_data_new (timestamp : Z) (topic region : Bytes) : EncoderData :=
  mkEncoderData timestamp topic region 0 (str_bytes "0").
Definition with_stake (stake_amount : Z) (d : EncoderData) : EncoderData :=
  mkEncoderData (ed_timestamp d) (ed_topic d) (ed_region d) stake_amount (ed_asn d).
Definition with_asn (asn : Bytes) (d : EncoderData) : EncoderData :=
  mkEncoderData (ed_timestamp d) (ed_topic d) (ed_region d) (ed_stake_amount d) asn.

Definition value_for (name : string) (data : EncoderData) : Bytes :=
  if bool_decide (name = "time_epoch") then show_int (ed_timestamp data)
  else if bool_decide (name = "topic_hash") then ed_topic data
  else if bool_decide (name = "region_code") then ed_region data
  else if bool_decide (name = "stake_tier") then show_int (ed_stake_amount data)
  else if bool_decide (name = "asn") then ed_asn data
  else [].

(** The iterator's [map] into a vector: a panic of one encoder is a panic of the whole. *)
Fixpoint map_result {E A B} (f : A -> result E B) (l : list A) : result E (list B) :=
  match l with
  | [] => Ok []
  | a :: l => let? b := f a in let? bs := map_result f l in Ok (b :: bs)
  end.

Definition encode_one (blake3 : Bytes -> Bytes) (data : EncoderData) (p : Z) (precision : nat) (b : BoxEncoder)
    : result Empty_set AxisPhi :=
  match b with
  | @Boxed _ F e =>
      let? d := encode blake3 e (value_for (encoder_name e) data) p precision in
      Ok (AxisPhi_new (axis_id e) d)
  end.

Definition encode_all (blake3 : Bytes -> Bytes) (s : EncoderSet) (data : EncoderData) (p : Z) (precision : nat)
    : result Empty_set (list AxisPhi) :=
  map_result (encode_one blake3 data p precision) (es_encoders s).

(** ** Numbers and strings *)

Definition is_digit (b : Z) : Prop := 48 <= b <= 57.

Lemma pretty_char_digit (d : N) : (d < 10)%N -> Z.of_N (N_of_ascii (pretty_N_char d)) = 48 + Z.of_N d.
Proof.
  intros Hd. assert (d ∈ [0; 1; 2; 3; 4; 5; 6; 7; 8; 9]%N) as Hin.
  { rewrite !elem_of_cons, elem_of_nil. lia. }
  repeat (apply elem_of_cons in Hin as [->|Hin]; [done|]). by apply elem_of_nil in Hin.
Qed.

Lemma pretty_go_digits x s : Forall is_digit (str_bytes s) -> Forall is_digit (str_bytes (pretty_N_go x s)).
Proof.
  revert s. induction (N.lt_wf_0 x) as [x _ IH]. intros s Hs. destruct (decide (x = 0%N)) as [->|Hx]; [by rewrite pretty_N_go_0|].
  rewrite pretty_N_go_step by lia. apply IH; [apply N.div_lt; lia|]. simpl. constructor; [|done].
  pose proof (N.mod_lt x 10 ltac:(lia)). pose proof (N2Z.is_nonneg (x `mod` 10)). rewrite pretty_char_digit by done. unfold is_digit. lia.
Qed.

Lemma digits_from_pretty x s : digits_from 0 (str_bytes (pretty_N_go x s)) = digits_from (Z.of_N x) (str_bytes s).
Proof.
  revert s. induction (N.lt_wf_0 x) as [x _ IH]. intros s. destruct (decide (x = 0%N)) as [->|Hx]; [by rewrite pretty_N_go_0|].
  rewrite pretty_N_go_step by lia. rewrite IH by (apply N.div_lt; lia). simpl.
  pose proof (N.mod_lt x 10 ltac:(lia)) as Hlt. rewrite pretty_char_digit by done. pose proof (N.div_mod x 10 ltac:(lia)) as Hdm.
  generalize dependent (x `mod` 10)%N. intros d Hlt Hdm. unfold in_range. rewrite !(proj2 (Z.leb_le _ _)) by lia. simpl.
  f_equal. lia.
Qed.

(** The decimal digits of a natural number. *)
Lemma show_nonneg z : 0 <= z -> exists b bs, show_int z = b :: bs /\ Forall is_digit (b :: bs) /\ digits_from 0 (b :: bs) = Some z.
Proof.
  intros Hz. unfold show_int. destruct z as [|q|q]; [|clear Hz|lia].
  { exists 48, []. split; [done|]. split; [repeat constructor; unfold is_digit; lia|done]. }
  change (pretty (Z.pos q)) with (pretty_N_go (N.pos q) "").
  pose proof (pretty_go_digits (N.pos q) "" ltac:(constructor)) as Hd. pose proof (digits_from_pretty (N.pos q) "") as Hv.
  destruct (str_bytes (pretty_N_go (N.pos q) "")) as [|b bs] eqn:E; [|eauto].
  simpl in Hv. by injection Hv.
Qed.

Lemma parse_show_unsigned max z : 0 <= z <= max -> parse_unsigned max (show_int z) = Some z.
Proof.
  intros Hz. destruct (show_nonneg z) as (b & bs & -> & Hd & Hv); [lia|]. unfold parse_unsigned, parse_digits.
  inversion_clear Hd. unfold is_digit in *. replace (b =? 43) with false by lia. rewrite Hv. simpl.
  unfold within, in_range. by replace (0 <=? z) with true by lia; replace (z <=? max) with true by lia.
Qed.

Lemma parse_show_signed min max z : min <= z <= max -> parse_signed min max (show_int z) = Some z.
Proof.
  intros Hz. destruct (decide (0 <= z)) as [Hp|Hn].
  - destruct (show_nonneg z) as (b & bs & E & Hd & Hv); [lia|]. pose proof (parse_show_unsigned max z ltac:(lia)) as H.
    rewrite E in *. simpl. inversion_clear Hd. unfold is_digit in *. by replace (b =? 45) with false by lia.
  - destruct z as [|q|q]; [lia..|]. change (show_int (Z.neg q)) with (45 :: show_int (Z.pos q)).
    destruct (show_nonneg (Z.pos q)) as (b & bs & -> & Hd & Hv); [lia|]. unfold parse_signed, parse_digits. simpl (45 =? 45). cbv iota.
    rewrite Hv. simpl. unfold within, in_range. change (- Z.pos q) with (Z.neg q). by rewrite (proj2 (Z.leb_le _ _) (proj1 Hz)).
Qed.

Lemma utf8_ascii bs : Forall (fun b => 0 <= b <= 127) bs -> utf8_valid bs = true.
Proof.
  induction 1 as [|b bs Hb _ IH]; [done|]. simpl in *. unfold in_range at 1.
  by replace (0 <=? b) with true by lia; replace (b <=? 127) with true by lia.
Qed.

Lemma show_int_utf8 z : from_utf8 (show_int z) = Some (show_int z).
Proof.
  unfold from_utf8. rewrite utf8_ascii; [done|].
  assert (forall z, 0 <= z -> Forall (fun b => 0 <= b <= 127) (show_int z)) as Hp.
  { intros y Hy. destruct (show_nonneg y Hy) as (b & bs & -> & Hd & _). eapply Forall_impl; [done|]. unfold is_digit. simpl. lia. }
  destruct (decide (0 <= z)); [by apply Hp|]. destruct z as [|q|q]; [lia..|].
  change (show_int (Z.neg q)) with (45 :: show_int (Z.pos q)). constructor; [lia|by apply Hp].
Qed.

(** ** What a feature vector says *)

(** The numbers behind the default axes. *)
Definition feature_values (blake3 : Bytes -> Bytes) (data : EncoderData) : list (AxisId * Z) :=
  [(0, to_u64 (ed_timestamp data) / 60); (1, from_bytes_be (blake3 (ed_topic data)));
   (2, region_value blake3 (ed_region data)); (3, tier_of default_thresholds (ed_stake_amount data))].

Definition denotes (p : Z) (precision : nat) (f : AxisPhi) (av : AxisId * Z) : Prop :=
  axis f = av.1 /\ qp_p (qp_digits f) = p /\ length (digits (qp_digits f)) = precision /\
  Forall (fun d => 0 <= d < p) (digits (qp_digits f)) /\
  digits_value p (digits (qp_digits f)) = av.2 mod p ^ Z.of_nat precision.

Lemma digits_denote p precision a v : 2 <= p <= 256 -> 0 <= v ->
  exists d, QpDigits_new v p precision = Ok d /\ denotes p precision (AxisPhi_new a d) (a, v).
Proof.
  intros Hp Hv. rewrite QpDigits_new_Ok by lia. eexists. split; [done|]. unfold denotes. simpl.
  rewrite expand_loop_length, expand_loop_value by lia. split_and!; try done.
  apply Forall_lookup. intros i d Hd. pose proof (expand_loop_lookup precision v p i Hv ltac:(lia)) as Hl.
  rewrite Hd in Hl. simpl in Hl. subst d. pose proof (Z.mod_pos_bound (v / p ^ Z.of_nat i) p ltac:(lia)). case_decide; lia.
Qed.

Lemma tier_of_nonneg ts s : 0 <= tier_of ts s.
Proof. unfold tier_of. destruct (list_find _ _) as [[]|]; lia. Qed.

Lemma byte_rem_nonneg (o : option Z) : 0 <= default 0 o mod 100 + 7.
Proof. pose proof (Z.mod_pos_bound (default 0 o) 100 ltac:(lia)). lia. Qed.

Lemma region_value_nonneg blake3 r : 0 <= region_value blake3 r.
Proof. unfold region_value. repeat case_bool_decide; try lia. apply byte_rem_nonneg. Qed.

(** C39: The default encoders never fail on a prime up to 256: whatever goes through decimal text and
    back, the vector has one entry per axis, whose digits are those of the time bucket, the hash of
    the topic, the number of the region and the tier of the stake. *)
Theorem encode_all_correct blake3 data p precision :
  2 <= p <= 256 -> Z.of_nat precision <= u32_max ->
  i64_min <= ed_timestamp data <= i64_max -> is_u64 (ed_stake_amount data) -> utf8_valid (ed_region data) = true ->
  exists fs, encode_all blake3 default_full data p precision = Ok fs /\
    Forall2 (denotes p precision) fs (feature_values blake3 data).
Proof.
  intros Hp Hk Ht Hs Hr. unfold encode_all, default_full. simpl.
  unfold encode_time_epoch, encode_topic_hash, encode_region_code, encode_region, encode_stake_tier, encode_stake, value_for. simpl.
  rewrite !show_int_utf8. unfold from_utf8. rewrite Hr. simpl. unfold parse_i64, parse_u64.
  rewrite parse_show_signed, parse_show_unsigned by done. simpl. unfold div_by, rem_by. simpl.
  assert (pow_big p precision = p ^ Z.of_nat precision) as Hpow.
  { unfold pow_big. f_equal. uint_unfold. apply Z.mod_small. lia. }
  assert (0 < p ^ Z.of_nat precision) as Hpos by (apply Z.pow_pos_nonneg; lia).
  rewrite Hpow. replace (p ^ Z.of_nat precision =? 0) with false by lia. simpl. unfold QpDigits_from_u64.
  assert (0 <= to_u64 (ed_timestamp data) / 60) as H0.
  { apply Z.div_pos; [|lia]. uint_unfold. apply Z.mod_pos_bound. lia. }
  assert (0 <= from_bytes_be (blake3 (ed_topic data)) mod p ^ Z.of_nat precision) as H1 by (apply Z.mod_pos_bound; lia).
  destruct (digits_denote p precision 0 _ Hp H0) as (d0 & -> & D0). destruct (digits_denote p precision 1 _ Hp H1) as (d1 & -> & D1).
  destruct (digits_denote p precision 2 _ Hp (region_value_nonneg blake3 (ed_region data))) as (d2 & -> & D2).
  destruct (digits_denote p precision 3 _ Hp (tier_of_nonneg default_thresholds (ed_stake_amount data))) as (d3 & -> & D3).
  simpl. eexists. split; [done|].
  apply Forall2_cons; split; [done|]. apply Forall2_cons; split; [|by repeat (apply Forall2_cons; split; [done|])].
  destruct D1 as (? & ? & ? & ? & Hv). unfold denotes. simpl in *. by rewrite Z.mod_mod in Hv by lia.
Qed.

Definition demo_data : EncoderData := with_stake 2500 (encoder_data_new 1700000000 (str_bytes "blockchain") (str_bytes "EU")).

Lemma encode_all_correct_witness :
  exists fs, encode_all (fun b => b) default_full demo_data 3 10 = Ok fs /\
    Forall2 (denotes 3 10) fs (feature_values (fun b => b) demo_data).
Proof. apply encode_all_correct; [lia|unfold u32_max; lia|unfold i64_min, i64_max; simpl; lia|uint_unfold; simpl; lia|done]. Defined.

(** ** Tiers *)

(** The tier is the position of the last threshold that the stake reaches. *)
Lemma tier_of_spec ts s :
  (exists i t, ts !! i = Some t /\ t <= s /\ (forall j u, ts !! j = Some u -> (i < j)%nat -> s < u) /\ tier_of ts s = Z.of_nat i) \/
  (Forall (fun t => s < t) ts /\ tier_of ts s = 0).
Proof.
  unfold tier_of. destruct (list_find _ (reverse ts)) as [[pos t]|] eqn:E.
  - left. apply list_find_Some in E as (Hl & Ht & Hfirst). pose proof (lookup_lt_Some _ _ _ Hl) as Hlt. rewrite length_reverse in Hlt.
    rewrite reverse_lookup in Hl by done. exists (length ts - 1 - pos)%nat, t.
    split; [replace (length ts - 1 - pos)%nat with (length ts - S pos)%nat by lia; done|]. split; [done|]. split; [|done].
    intros j u Hj Hij. pose proof (lookup_lt_Some _ _ _ Hj). apply Z.lt_nge, (Hfirst (length ts - S j)%nat); [|lia].
    rewrite reverse_lookup by lia. by replace (length ts - S (length ts - S j))%nat with j by lia.
  - right. split; [|done]. apply list_find_None in E. apply Forall_forall. intros t Ht. rewrite Forall_forall in E.
    apply Z.lt_nge, E, elem_of_reverse, Ht.
Qed.

Lemma tier_of_mono ts s s' : s <= s' -> tier_of ts s <= tier_of ts s'.
Proof.
  intros Hs. destruct (tier_of_spec ts s) as [(i & t & Hi & Ht & _ & ->)|[_ ->]]; [|apply tier_of_nonneg].
  destruct (tier_of_spec ts s') as [(j & u & Hj & Hu & Hmax & ->)|[Hall _]].
  - destruct (decide (j < i)%nat) as [Hji|]; [|lia]. specialize (Hmax i t Hi Hji). lia.
  - rewrite Forall_forall in Hall. specialize (Hall t ltac:(by eapply list_elem_of_lookup_2)). lia.
Qed.

(** With the default thresholds a stake of tier [k > 0] lies between [10^k] and [10^(k+1)], and what
    is above [10^8] is one tier. *)
Lemma default_tier s : 0 <= s ->
  let k := tier_of default_thresholds s in
  0 <= k <= 8 /\ (0 < k -> 10 ^ k <= s) /\ (k < 8 -> s < 10 ^ (k + 1)).
Proof.
  intros Hs. destruct (tier_of_spec default_thresholds s) as [(i & t & Hi & Ht & Hmax & E)|[Hall _]].
  - cbv zeta. rewrite E. clear E. pose proof (lookup_lt_Some _ _ _ Hi) as Hlt. simpl in Hlt.
    assert (forall u, default_thresholds !! S i = Some u -> s < u) as Hnext by (intros u Hu; apply (Hmax (S i) u Hu); lia). clear Hmax.
    do 9 (destruct i as [|i]; [simpl in Hi; simplify_eq; try specialize (Hnext _ eq_refl);
      repeat match goal with |- context [10 ^ ?e] => let v := eval vm_compute in (10 ^ e) in change (10 ^ e) with v end; simpl; lia|]). lia.
  - inversion_clear Hall. lia.
Qed.
