(* ===== verification/Simplex.v ===== *)
(** * Simplices and filtered simplicial complexes

    [adic-finality/src/ph/simplex.rs].  A simplex is its sorted vertex list with a filtration
    weight; a complex is the vector of its simplices, the index from vertex lists to
    positions, and the next free id.  Logging and the dimension counters kept only for it
    are left out. *)

From S2P Require Import Prelude F64.

Abbreviation SimplexId := nat.
Abbreviation VertexId := nat.
Abbreviation Weight := f64.

Record Simplex := mkSimplex {
  sx_id : SimplexId;
  vertices : list VertexId;
  dimension : nat;
  weight : Weight;
}.

Definition Simplex_new (id : SimplexId) (vs : list VertexId) (w : Weight) : Simplex :=
  let vs := nat_sort vs in
  let dim := match vs with [] => 0%nat | _ => (length vs - 1)%nat end in
  mkSimplex id vs dim w.

(** [face.remove(i)] on a clone of the vertex list, for every position [i]. *)
Definition faces (s : Simplex) : list (list VertexId) :=
  if (dimension s =? 0)%nat then []
  else (fun i => delete i (vertices s)) <$> seq 0 (length (vertices s)).

Definition contains_face (s : Simplex) (face_vertices : list VertexId) : bool :=
  forallb (fun v => bool_decide (v ∈ vertices s)) face_vertices.

Record SimplicialComplex := mkComplex {
  simplices : list Simplex;
  vertex_to_simplex : gmap (list VertexId) SimplexId;
  next_id : SimplexId;
}.

Definition complex_new : SimplicialComplex := mkComplex [] ∅ 0.

Definition add_simplex (c : SimplicialComplex) (vs : list VertexId) (w : Weight)
    : SimplicialComplex * SimplexId :=
  let vs := nat_sort vs in
  match vertex_to_simplex c !! vs with
  | Some id => (c, id)
  | None =>
      let id := next_id c in
      (mkComplex (simplices c ++ [Simplex_new id vs w])
         (<[vs := id]> (vertex_to_simplex c)) (S (next_id c)), id)
  end.

(** The recursion of [add_simplex_with_faces]: every face of the sorted simplex first, with
    weight [0.0], then the simplex.  A face has one vertex less, so the number of vertices is
    enough fuel ([add_simplex_with_faces_unfold]). *)
Fixpoint add_with_faces (fuel : nat) (c : SimplicialComplex) (vs : list VertexId) (w : Weight)
    : SimplicialComplex * SimplexId :=
  let temp_simplex := Simplex_new 0 vs w in
  let c :=
    match fuel with
    | O => c
    | S k => foldl (fun c face => (add_with_faces k c face f64_zero).1) c (faces temp_simplex)
    end in
  add_simplex c vs w.

Definition add_simplex_with_faces (c : SimplicialComplex) (vs : list VertexId) (w : Weight)
    : SimplicialComplex * SimplexId :=
  add_with_faces (length vs) c vs w.

Definition get_simplex (c : SimplicialComplex) (id : SimplexId) : option Simplex := simplices c !! id.
Definition get_simplex_id (c : SimplicialComplex) (vs : list VertexId) : option SimplexId :=
  vertex_to_simplex c !! vs.
Definition num_simplices (c : SimplicialComplex) : nat := length (simplices c).

Inductive PhError := MonotonicityViolated (min_new max_existing : Weight).

Definition positive_weights (l : list Simplex) : list Weight :=
  List.filter (fun w => f64_gtb w f64_zero) (weight <$> l).

(** [max_by] keeps the last maximum, [min_by] the first minimum; the positive weights exclude
    [NaN], so [partial_cmp(..).unwrap()] cannot panic here. *)
Definition max_by (l : list Weight) (default : Weight) : Weight :=
  match l with
  | [] => default
  | w :: ws => foldl (fun a b => match f64_partial_cmp a b with Some Gt => a | _ => b end) w ws
  end.
Definition min_by (l : list Weight) (default : Weight) : Weight :=
  match l with
  | [] => default
  | w :: ws => foldl (fun a b => match f64_partial_cmp a b with Some Gt => b | _ => a end) w ws
  end.

Definition append_one (c : SimplicialComplex) (s : Simplex) : SimplicialComplex :=
  let new_id := next_id c in
  mkComplex (simplices c ++ [mkSimplex new_id (vertices s) (dimension s) (weight s)])
    (<[vertices s := new_id]> (vertex_to_simplex c)) (S (next_id c)).

Definition append_simplices (c new_complex : SimplicialComplex) : result PhError SimplicialComplex :=
  let max_existing_weight := max_by (positive_weights (simplices c)) f64_zero in
  let min_new_nonzero_weight := min_by (positive_weights (simplices new_complex)) f64_infinity in
  if f64_ltb min_new_nonzero_weight max_existing_weight
  then Err (MonotonicityViolated min_new_nonzero_weight max_existing_weight)
  else Ok (foldl append_one c (simplices new_complex)).

(** The order of [sort_by_filtration]: weight, then dimension. *)
Definition filtration_leb (a b : Simplex) : bool :=
  match f64_partial_cmp (weight a) (weight b) with
  | Some Lt => true
  | Some Eq => (dimension a <=? dimension b)%nat
  | _ => false
  end.

Definition renumber (id : SimplexId) (s : Simplex) : Simplex :=
  mkSimplex id (vertices s) (dimension s) (weight s).

(** The comparison panics as soon as it meets a [NaN] weight, which needs two simplices. *)
Definition sort_by_filtration (c : SimplicialComplex) : result PhError SimplicialComplex :=
  if (2 <=? length (simplices c))%nat && existsb (fun s => is_nan (weight s)) (simplices c)
  then Panic
  else
    let sorted := imap renumber (isort filtration_leb (simplices c)) in
    Ok (mkComplex sorted
          (foldl (fun m s => <[vertices s := sx_id s]> m) ∅ sorted)
          (length sorted)).

Definition get_face_ids (c : SimplicialComplex) (simplex_id : SimplexId) : list SimplexId :=
  match get_simplex c simplex_id with
  | Some s => omap (get_simplex_id c) (faces s)
  | None => []
  end.

Definition simplices_by_dimension (c : SimplicialComplex) (d : nat) : list SimplexId :=
  sx_id <$> List.filter (fun s => (dimension s =? d)%nat) (simplices c).

(** ** The invariant *)

Definition simplex_wf (s : Simplex) : Prop :=
  StronglySorted le (vertices s) /\ dimension s = (length (vertices s) - 1)%nat.

(** Ids are positions, and the index is exactly the graph of "position of a vertex list". *)
Record complex_wf (c : SimplicialComplex) : Prop := {
  wf_next : next_id c = length (simplices c);
  wf_simplex : forall i s, simplices c !! i = Some s -> sx_id s = i /\ simplex_wf s;
  wf_index : forall vs i, vertex_to_simplex c !! vs = Some i <->
    exists s, simplices c !! i = Some s /\ vertices s = vs;
}.

(** Every face of a simplex of the complex is in the complex. *)
Definition complex_closed (c : SimplicialComplex) : Prop :=
  forall i s f, simplices c !! i = Some s -> f ∈ faces s -> is_Some (vertex_to_simplex c !! f).

(** No simplex repeats a vertex. *)
Definition complex_simple (c : SimplicialComplex) : Prop :=
  forall i s, simplices c !! i = Some s -> NoDup (vertices s).

Lemma Simplex_new_wf id vs w : simplex_wf (Simplex_new id vs w).
Proof.
  split; simpl; [apply nat_sort_sorted|]. destruct (nat_sort vs); simpl; lia.
Qed.

Lemma Simplex_new_vertices id vs w : vertices (Simplex_new id vs w) = nat_sort vs.
Proof. done. Qed.

Lemma elem_of_faces s f :
  f ∈ faces s <-> dimension s <> 0%nat /\ exists i, (i < length (vertices s))%nat /\ f = delete i (vertices s).
Proof.
  unfold faces. destruct (dimension s =? 0)%nat eqn:E; zbool.
  - split; [by intros ?%elem_of_nil|]. by intros [].
  - rewrite list_elem_of_fmap. setoid_rewrite elem_of_seq. naive_solver lia.
Qed.

Lemma delete_sorted (l : list nat) i : StronglySorted le l -> StronglySorted le (delete i l).
Proof.
  intros H; revert i; induction H as [|x l Hs IH Hall]; intros i; [by destruct i; constructor|].
  destruct i as [|i]; simpl; [exact Hs|]. constructor; [apply IH|].
  by apply Forall_delete.
Qed.

(** A face of a well-formed simplex is sorted and one vertex shorter. *)
Lemma faces_sorted s f :
  simplex_wf s -> f ∈ faces s -> nat_sort f = f /\ S (length f) = length (vertices s).
Proof.
  intros [Hs Hd] (? & i & Hi & ->)%elem_of_faces. split.
  - apply nat_sort_sorted_id. by apply delete_sorted.
  - rewrite length_delete by (by apply lookup_lt_is_Some_2). lia.
Qed.

Lemma faces_NoDup s f : NoDup (vertices s) -> f ∈ faces s -> NoDup f.
Proof.
  intros Hnd (_ & i & _ & ->)%elem_of_faces. eapply sublist_NoDup; [exact Hnd|apply sublist_delete].
Qed.

Lemma new_faces_NoDup id vs w f : NoDup vs -> f ∈ faces (Simplex_new id vs w) -> NoDup f.
Proof. intros Hnd. apply faces_NoDup. rewrite Simplex_new_vertices. by rewrite nat_sort_Permutation. Qed.

(** ** Adding simplices *)

(** [c'] keeps every simplex of [c], at its place. *)
Definition extends (c c' : SimplicialComplex) : Prop :=
  simplices c `prefix_of` simplices c' /\ vertex_to_simplex c ⊆ vertex_to_simplex c'.

#[export] Instance extends_preorder : PreOrder extends.
Proof.
  split.
  - intros c. by split.
  - intros c1 c2 c3 [H1 H2] [H3 H4]. split; by etrans.
Qed.

Lemma extends_lookup c c' i s : extends c c' -> simplices c !! i = Some s -> simplices c' !! i = Some s.
Proof. intros [Hp _] Hi. by eapply prefix_lookup_Some. Qed.

Lemma extends_index c c' vs :
  extends c c' -> is_Some (vertex_to_simplex c !! vs) -> is_Some (vertex_to_simplex c' !! vs).
Proof. intros [_ Hs] [i Hi]. exists i. by eapply lookup_weaken. Qed.

Lemma complex_new_wf : complex_wf complex_new.
Proof.
  split; simpl; [done|by intros ? ?|].
  intros vs i. rewrite lookup_empty. split; [done|]. by intros (s & ? & _).
Qed.

Lemma complex_new_closed : complex_closed complex_new.
Proof. by intros i s f. Qed.

(** What [add_simplex] does, whether or not the simplex is new. *)
Lemma add_simplex_spec c vs w c' id :
  complex_wf c -> add_simplex c vs w = (c', id) ->
  complex_wf c' /\ extends c c' /\ vertex_to_simplex c' !! nat_sort vs = Some id /\
  (forall i s, simplices c' !! i = Some s ->
     simplices c !! i = Some s \/ (vertices s = nat_sort vs /\ s = Simplex_new i (nat_sort vs) w)).
Proof.
  intros [Hn Hs Hi] Hadd. unfold add_simplex in Hadd.
  destruct (vertex_to_simplex c !! nat_sort vs) as [id'|] eqn:Hl; simplify_eq.
  { split; [by split|]. split; [done|]. split; [done|]. intros; by left. }
  assert (nat_sort (nat_sort vs) = nat_sort vs) as Hss by apply nat_sort_sorted_id, nat_sort_sorted.
  assert (forall i s, (simplices c ++ [Simplex_new (next_id c) (nat_sort vs) w]) !! i = Some s <->
    simplices c !! i = Some s \/ (i = next_id c /\ s = Simplex_new i (nat_sort vs) w)) as Hlook.
  { intros i s. rewrite lookup_app, Hn. destruct (simplices c !! i) eqn:E.
    - apply lookup_lt_Some in E. naive_solver lia.
    - apply lookup_ge_None in E. rewrite list_lookup_singleton_Some. split.
      + intros [? <-]. right. split; [lia|]. f_equal; lia.
      + intros [?|[-> ->]]; [done|]. split; [lia|done]. }
  split; [split; simpl|split; [split; simpl|split; simpl]].
  - rewrite length_app, Hn; simpl; lia.
  - intros i s [?|[-> ->]]%Hlook; [by apply Hs|]. split; [done|]. apply Simplex_new_wf.
  - intros us i. rewrite lookup_insert. setoid_rewrite Hlook. case_decide as Hd.
    + subst us. split.
      * intros [= <-]. eexists. split; [right; split; done|]. by rewrite Simplex_new_vertices.
      * intros (s & [Hs'|[-> _]] & Hv); [|done]. exfalso.
        assert (vertex_to_simplex c !! nat_sort vs = Some i) by (apply Hi; eauto). congruence.
    + rewrite Hi. split; [naive_solver|]. intros (s & [Hs'|[-> ->]] & Hv); [eauto|].
      rewrite Simplex_new_vertices, Hss in Hv. done.
  - by eexists.
  - by apply insert_subseteq.
  - by rewrite lookup_insert_eq.
  - intros i s [?|[-> ->]]%Hlook; [by left|right]. by rewrite Simplex_new_vertices, Hss.
Qed.

Lemma add_simplex_closed c vs w :
  complex_wf c -> complex_closed c ->
  (forall f, f ∈ faces (Simplex_new 0 vs w) -> is_Some (vertex_to_simplex c !! f)) ->
  complex_closed (add_simplex c vs w).1.
Proof.
  intros Hwf Hcl Hf. destruct (add_simplex c vs w) as [c' id] eqn:E; simpl.
  destruct (add_simplex_spec _ _ _ _ _ Hwf E) as (_ & Hext & _ & Hnew).
  intros i s f [Hi|[_ ->]]%Hnew Hfs; (eapply extends_index; [exact Hext|]); [by eapply Hcl|].
  apply Hf. unfold faces, Simplex_new in *; simpl in *.
  rewrite (nat_sort_sorted_id (nat_sort vs)) in Hfs by apply nat_sort_sorted. done.
Qed.

Lemma add_simplex_simple c vs w :
  complex_wf c -> complex_simple c -> NoDup vs -> complex_simple (add_simplex c vs w).1.
Proof.
  intros Hwf Hc Hnd. destruct (add_simplex c vs w) as [c' id] eqn:E; simpl.
  destruct (add_simplex_spec _ _ _ _ _ Hwf E) as (_ & _ & _ & Hnew).
  intros i s [Hi|[-> _]]%Hnew; [by eapply Hc|]. by rewrite nat_sort_Permutation.
Qed.


(** ** Adding a simplex with all its faces *)

Lemma add_with_faces_step k c vs w :
  add_with_faces (S k) c vs w =
  add_simplex (foldl (fun c face => (add_with_faces k c face f64_zero).1) c
                 (faces (Simplex_new 0 vs w))) vs w.
Proof. done. Qed.

Lemma faces_small vs w : (length vs <= 1)%nat -> faces (Simplex_new 0 vs w) = [].
Proof.
  intros H. unfold faces, Simplex_new; simpl.
  pose proof (isort_length Nat.leb vs). fold nat_sort in *.
  destruct (nat_sort vs) as [|a [|b l]]; simpl in *; try done; lia.
Qed.

Lemma faces_length vs w f :
  f ∈ faces (Simplex_new 0 vs w) -> nat_sort f = f /\ S (length f) = length vs.
Proof.
  intros Hf. destruct (faces_sorted _ _ (Simplex_new_wf 0 vs w) Hf) as [? Hl].
  split; [done|]. rewrite Hl, Simplex_new_vertices. apply isort_length.
Qed.

(** More fuel than vertices changes nothing. *)
Lemma add_with_faces_fuel k1 k2 c vs w :
  (length vs <= k1)%nat -> (length vs <= k2)%nat ->
  add_with_faces k1 c vs w = add_with_faces k2 c vs w.
Proof.
  revert k2 c vs w; induction k1 as [|k1 IH]; intros k2 c vs w H1 H2.
  { destruct k2 as [|k2]; [done|]. rewrite add_with_faces_step, faces_small by lia. done. }
  destruct k2 as [|k2]; [rewrite add_with_faces_step, faces_small by lia; done|].
  rewrite !add_with_faces_step. f_equal.
  assert (forall f, f ∈ faces (Simplex_new 0 vs w) -> (length f <= k1 /\ length f <= k2)%nat) as Hall
    by (intros f [_ Hf]%faces_length; lia).
  revert c Hall. generalize (faces (Simplex_new 0 vs w)) as fs.
  induction fs as [|f fs IHfs]; intros c Hall; simpl; [done|].
  destruct (Hall f ltac:(left)). rewrite (IH k2) by done. apply IHfs.
  intros f' Hf'. apply Hall. by right.
Qed.

(** The recursion equation of the Rust function: the fuel is enough. *)
Lemma add_simplex_with_faces_unfold c vs w :
  add_simplex_with_faces c vs w =
  add_simplex (foldl (fun c face => (add_simplex_with_faces c face f64_zero).1) c
                 (faces (Simplex_new 0 vs w))) vs w.
Proof.
  unfold add_simplex_with_faces at 1.
  rewrite (add_with_faces_fuel _ (S (length vs))), add_with_faces_step by lia. f_equal.
  assert (forall f, f ∈ faces (Simplex_new 0 vs w) -> (length f <= length vs)%nat) as Hall
    by (intros f [_ Hf]%faces_length; lia).
  revert c Hall. generalize (faces (Simplex_new 0 vs w)) as fs.
  induction fs as [|f fs IHfs]; intros c Hall; simpl; [done|].
  unfold add_simplex_with_faces at 2. rewrite (add_with_faces_fuel (length vs) (length f)).
  - apply IHfs. intros f' Hf'. apply Hall. by right.
  - apply Hall. by left.
  - lia.
Qed.

(** The invariant carried through the recursion; [P] is a further property of complexes,
    kept by adding one simplex whose vertex list satisfies [Q]. *)
Section add_faces_invariant.
Context (P : SimplicialComplex -> Prop) (Q : list VertexId -> Weight -> Prop).
Context (HP : forall c vs w, complex_wf c -> P c -> Q vs w -> P (add_simplex c vs w).1).
Context (HQ : forall vs w f, Q vs w -> f ∈ faces (Simplex_new 0 vs w) -> Q f f64_zero).

Definition add_ok (c c' : SimplicialComplex) : Prop :=
  complex_wf c' /\ complex_closed c' /\ extends c c' /\ P c'.

Lemma add_simplex_with_faces_spec n c vs w :
  (length vs <= n)%nat -> complex_wf c -> complex_closed c -> P c -> Q vs w ->
  let '(c', id) := add_simplex_with_faces c vs w in
  add_ok c c' /\ vertex_to_simplex c' !! nat_sort vs = Some id.
Proof.
  revert c vs w; induction n as [n IH] using lt_wf_ind; intros c vs w Hn Hwf Hcl Hpc Hq.
  rewrite add_simplex_with_faces_unfold.
  set (c1 := foldl _ _ _).
  assert (add_ok c c1 /\ forall f, f ∈ faces (Simplex_new 0 vs w) -> is_Some (vertex_to_simplex c1 !! f))
    as [(Hwf1 & Hcl1 & Hext1 & Hp1) Hf1].
  { assert (forall f, f ∈ faces (Simplex_new 0 vs w) -> (length f < n)%nat /\ nat_sort f = f /\ Q f f64_zero) as Hall.
    { intros f Hf. pose proof (HQ _ _ _ Hq Hf). apply faces_length in Hf as [? ?]. split_and!; [lia|done..]. }
    subst c1. clear Hq Hn. revert c Hwf Hcl Hpc Hall. generalize (faces (Simplex_new 0 vs w)) as fs.
    induction fs as [|f fs IHfs]; intros c Hwf Hcl Hpc Hall; simpl.
    { split; [by split|]. by intros ? ?%elem_of_nil. }
    destruct (Hall f ltac:(left)) as (Hlt & Hsf & Hqf).
    pose proof (IH (length f) Hlt c f f64_zero ltac:(lia) Hwf Hcl Hpc Hqf) as Hone.
    destruct (add_simplex_with_faces c f f64_zero) as [c2 id2]; simpl.
    destruct Hone as ((Hwf2 & Hcl2 & Hext2 & Hp2) & Hid2). rewrite Hsf in Hid2.
    destruct (IHfs c2) as [(? & ? & Hext3 & ?) Hf3]; [done..|intros; apply Hall; by right|].
    split; [split_and!; try done; by etrans|].
    intros f' [->|Hf']%elem_of_cons; [|by apply Hf3]. eapply extends_index; [exact Hext3|]. by exists id2. }
  pose proof (add_simplex_closed c1 vs w Hwf1 Hcl1 Hf1) as Hcl'.
  pose proof (HP c1 vs w Hwf1 Hp1 Hq) as Hp'.
  destruct (add_simplex c1 vs w) as [c' id] eqn:E. simpl in *.
  destruct (add_simplex_spec _ _ _ _ _ Hwf1 E) as (Hwf' & Hext' & Hid & _).
  split; [|done]. split_and!; [done..|by etrans|done].
Qed.
End add_faces_invariant.

(** ** Sorting by filtration *)

Lemma index_foldl (l : list Simplex) (m : gmap (list VertexId) SimplexId) vs i :
  NoDup (vertices <$> l) ->
  foldl (fun m s => <[vertices s := sx_id s]> m) m l !! vs = Some i <->
  (exists s, s ∈ l /\ vertices s = vs /\ sx_id s = i) \/ (vs ∉ vertices <$> l /\ m !! vs = Some i).
Proof.
  revert m; induction l as [|s l IH]; intros m; simpl.
  { intros _. split; [right; split; [apply not_elem_of_nil|done]|]. intros [(? & ?%elem_of_nil & _)|[_ ?]]; done. }
  intros [Hs Hnd]%NoDup_cons. rewrite IH by done. rewrite lookup_insert. split.
  - intros [(s' & ? & ? & ?)|[Hvs Hm]]; [left; exists s'; split_and!; [by right|done..]|].
    case_decide; simplify_eq; [left; exists s; split_and!; [by left|done..]|].
    right. split; [|done]. by rewrite not_elem_of_cons.
  - intros [(s' & [->|Hin]%elem_of_cons & <- & <-)|[Hvs Hm]].
    + right. split; [done|]. by case_decide.
    + left. by exists s'.
    + apply not_elem_of_cons in Hvs as [Hne Hvs]. right. split; [done|]. by case_decide.
Qed.

Lemma wf_vertices_NoDup c : complex_wf c -> NoDup (vertices <$> simplices c).
Proof.
  intros [_ _ Hi]. apply NoDup_alt. intros i j vs.
  rewrite !list_lookup_fmap. intros (s & Hs & Hv)%fmap_Some (t & Ht & Hv')%fmap_Some.
  assert (vertex_to_simplex c !! vs = Some i) by (apply Hi; eauto).
  assert (vertex_to_simplex c !! vs = Some j) by (apply Hi; eauto). congruence.
Qed.

Definition no_nan (c : SimplicialComplex) : Prop :=
  Forall (fun s => is_nan (weight s) = false) (simplices c).

Lemma filtration_leb_le a b :
  filtration_leb a b = true -> f64_leb (weight a) (weight b) = true.
Proof.
  unfold filtration_leb, f64_leb, SFleb. change (SFcompare (weight a) (weight b)) with (f64_partial_cmp (weight a) (weight b)).
  by destruct (f64_partial_cmp _ _) as [[]|].
Qed.

Lemma filtration_leb_spec a b :
  is_nan (weight a) = false -> is_nan (weight b) = false ->
  filtration_leb a b = true <->
  f64_leb (weight a) (weight b) = true /\
  (f64_leb (weight b) (weight a) = true -> (dimension a <= dimension b)%nat).
Proof.
  intros Ha Hb. unfold filtration_leb, f64_leb, SFleb.
  change (SFcompare (weight a) (weight b)) with (f64_partial_cmp (weight a) (weight b)).
  change (SFcompare (weight b) (weight a)) with (f64_partial_cmp (weight b) (weight a)).
  rewrite (f64_partial_cmp_antisym (weight a) (weight b)).
  rewrite f64_partial_cmp_rank by done.
  destruct (rank_compare _ _); simpl; rewrite ?Nat.leb_le; naive_solver.
Qed.

Lemma isort_filtration_sorted l :
  Forall (fun s => is_nan (weight s) = false) l ->
  StronglySorted (fun a b => filtration_leb a b = true) (isort filtration_leb l).
Proof.
  apply isort_sorted.
  - intros x y Hx Hy Hf. apply filtration_leb_spec; [done..|].
    destruct (f64_leb (weight x) (weight y)) eqn:E; [|split; [by apply f64_leb_total|done]].
    apply not_true_iff_false in Hf. rewrite filtration_leb_spec in Hf by done.
    destruct (f64_leb (weight y) (weight x)) eqn:E'; [|naive_solver].
    split; [done|]. intros _. destruct (Nat.le_gt_cases (dimension x) (dimension y)); [naive_solver|lia].
  - intros x y z Hx Hy Hz. rewrite !filtration_leb_spec by done. intros [H1 H2] [H3 H4].
    split; [by eapply (f64_leb_trans _ (weight y))|]. intros H5.
    assert (f64_leb (weight y) (weight x) = true) by (by eapply (f64_leb_trans _ (weight z))).
    assert (f64_leb (weight z) (weight y) = true) by (by eapply (f64_leb_trans _ (weight x))).
    etrans; [by apply H2|by apply H4].
Qed.

Lemma sort_by_filtration_spec c :
  complex_wf c -> no_nan c ->
  exists c', sort_by_filtration c = Ok c' /\ complex_wf c' /\
    simplices c' = imap renumber (isort filtration_leb (simplices c)) /\
    vertices <$> simplices c' ≡ₚ vertices <$> simplices c /\ no_nan c'.
Proof.
  intros Hwf Hn. unfold sort_by_filtration.
  replace (existsb _ _) with false.
  2: { symmetry. apply not_true_iff_false. rewrite existsb_exists. intros (s & Hs%list_elem_of_In & Hnan).
       unfold no_nan in Hn. rewrite Forall_forall in Hn. rewrite Hn in Hnan; done. }
  rewrite andb_false_r. set (l := imap _ _).
  assert (forall i s, l !! i = Some s <->
    exists t, isort filtration_leb (simplices c) !! i = Some t /\ s = renumber i t) as Hlook.
  { intros i s. subst l. rewrite list_lookup_imap. destruct (isort _ _ !! i); simpl; naive_solver. }
  assert (vertices <$> l = vertices <$> isort filtration_leb (simplices c)) as Hv.
  { apply list_eq. intros i. subst l. rewrite !list_lookup_fmap, list_lookup_imap.
    by destruct (isort _ _ !! i). }
  assert (vertices <$> l ≡ₚ vertices <$> simplices c) as Hperm
    by (rewrite Hv; apply fmap_Permutation, isort_Permutation).
  eexists. split; [done|]. split_and!; [|done|done|].
  - split; [done|..].
    + intros i s (t & Ht & ->)%Hlook. split; [done|].
      assert (t ∈ simplices c) as (j & Hj)%list_elem_of_lookup
        by (apply (elem_of_isort filtration_leb), list_elem_of_lookup; eauto).
      by destruct (wf_simplex _ Hwf j t Hj).
    + intros vs i. simpl. rewrite index_foldl by (rewrite Hperm; by apply wf_vertices_NoDup).
      rewrite lookup_empty. split.
      * intros [(s & (j & Hj)%list_elem_of_lookup & Hvs & Hi)|[_ ?]]; [|done].
        exists s. split; [|done]. destruct (proj1 (Hlook j s) Hj) as (t & _ & ->). simpl in Hi. by subst j.
      * intros (s & Hs & Hvs). left. exists s. split_and!; [apply list_elem_of_lookup; eauto|done|].
        by destruct (proj1 (Hlook i s) Hs) as (t & _ & ->).
  - apply Forall_lookup. intros i s (t & Ht & ->)%Hlook. simpl.
    unfold no_nan in Hn. rewrite Forall_forall in Hn. apply Hn.
    apply (elem_of_isort filtration_leb), list_elem_of_lookup; eauto.
Qed.

(** A filtration: a face never has a larger weight than the simplex it bounds. *)
Definition filtered (c : SimplicialComplex) : Prop :=
  forall s t, s ∈ simplices c -> t ∈ simplices c -> vertices t ∈ faces s ->
    f64_leb (weight t) (weight s) = true.

(** The decision procedure for [filtered]. *)
Definition filteredb (c : SimplicialComplex) : bool :=
  forallb (fun s => forallb (fun t =>
    implb (bool_decide (vertices t ∈ faces s)) (f64_leb (weight t) (weight s)))
    (simplices c)) (simplices c).

Lemma filteredb_correct c : filteredb c = true -> filtered c.
Proof.
  unfold filteredb. rewrite forallb_forall. intros H s t Hs Ht Hf.
  specialize (H s ltac:(by apply list_elem_of_In)). rewrite forallb_forall in H.
  specialize (H t ltac:(by apply list_elem_of_In)). by rewrite bool_decide_true in H by done.
Qed.

Lemma faces_renumber i s : faces (renumber i s) = faces s.
Proof. done. Qed.

Lemma sort_by_filtration_ok (c : SimplicialComplex)
    (Hwf : complex_wf c) (Hcl : complex_closed c) (Hn : no_nan c) (Hf : filtered c) :
  exists c', sort_by_filtration c = Ok c' /\ complex_wf c' /\ complex_closed c' /\
    vertices <$> simplices c' ≡ₚ vertices <$> simplices c /\
    forall j i, i ∈ get_face_ids c' j -> (i < j)%nat.
Proof.
  destruct (sort_by_filtration_spec c Hwf Hn) as (c' & Hsort & Hwf' & Hc' & Hperm & Hn').
  exists c'. split; [done|]. split; [done|].
  assert (forall i s, simplices c' !! i = Some s -> exists t,
    isort filtration_leb (simplices c) !! i = Some t /\ s = renumber i t /\ t ∈ simplices c) as Hlook.
  { intros i s. rewrite Hc', list_lookup_imap.
    destruct (isort _ _ !! i) as [t|] eqn:E; simpl; [|done]. intros [= <-]. exists t.
    split_and!; [done..|]. apply (elem_of_isort filtration_leb), list_elem_of_lookup; eauto. }
  split; [|split; [done|]].
  - intros i s f (t & _ & -> & Hin)%Hlook Hfs. rewrite faces_renumber in Hfs.
    apply list_elem_of_lookup in Hin as [k Hk]. destruct (Hcl k t f Hk Hfs) as [m Hm].
    apply (wf_index _ Hwf) in Hm as (u & Hu & Hv).
    assert (f ∈ vertices <$> simplices c') as (u' & Hv' & Hu')%list_elem_of_fmap.
    { rewrite Hperm. apply list_elem_of_fmap. exists u. split; [done|]. apply list_elem_of_lookup; eauto. }
    apply list_elem_of_lookup in Hu' as [m' Hm']. exists m'. apply (wf_index _ Hwf'). by exists u'.
  - intros j i. unfold get_face_ids, get_simplex. destruct (simplices c' !! j) as [s|] eqn:Hj; [|by intros ?%elem_of_nil].
    intros (f & Hfs & Hi)%list_elem_of_omap. apply (wf_index _ Hwf') in Hi as (u & Hu & Hv).
    destruct (Hlook _ _ Hj) as (t & Ht & -> & Htin). destruct (Hlook _ _ Hu) as (v & Hv' & -> & Hvin).
    rewrite faces_renumber in Hfs. simpl in Hv. subst f.
    pose proof (Hf t v Htin Hvin Hfs) as Hle.
    apply list_elem_of_lookup in Htin as [k Hk]. destruct (wf_simplex _ Hwf _ _ Hk) as [_ Hwt].
    apply list_elem_of_lookup in Hvin as [m Hm]. destruct (wf_simplex _ Hwf _ _ Hm) as [_ [_ Hdv]].
    destruct (faces_sorted t _ Hwt Hfs) as [_ Hlen]. apply elem_of_faces in Hfs as [Hd0 _].
    destruct Hwt as [_ Hdt].
    destruct (Nat.lt_trichotomy i j) as [|[->|Hlt]]; [done|exfalso..].
    + assert (t = v) by congruence. subst v. lia.
    + assert (filtration_leb t v = true) as Htv by (eapply (StronglySorted_lookup_lt (fun a b => filtration_leb a b = true) _ j i); [exact (isort_filtration_sorted _ Hn)|done..]).
      apply filtration_leb_spec in Htv as [_ Hd].
      * specialize (Hd Hle). lia.
      * unfold no_nan in Hn. rewrite Forall_lookup in Hn. by eapply Hn.
      * unfold no_nan in Hn. rewrite Forall_lookup in Hn. by eapply Hn.
Qed.

(** ** Properties *)

(** A complex built with [add_simplex_with_faces] alone. *)
Definition build_complex (ops : list (list VertexId * Weight)) : SimplicialComplex :=
  foldl (fun c op => (add_simplex_with_faces c op.1 op.2).1) complex_new ops.

Lemma build_complex_ok (ops : list (list VertexId * Weight))
    (Hops : Forall (fun op => NoDup op.1) ops) :
  let c := build_complex ops in
  complex_wf c /\ complex_closed c /\ complex_simple c /\
  Forall (fun op => exists i s, get_simplex_id c (nat_sort op.1) = Some i /\
                      get_simplex c i = Some s /\ vertices s = nat_sort op.1) ops.
Proof.
  unfold build_complex.
  assert (forall c, complex_wf c -> complex_closed c -> complex_simple c ->
    let c' := foldl (fun c op => (add_simplex_with_faces c op.1 op.2).1) c ops in
    add_ok complex_simple c c' /\
    Forall (fun op => is_Some (vertex_to_simplex c' !! nat_sort op.1)) ops) as H.
  { induction Hops as [|[vs w] ops Hnd _ IH]; intros c Hwf Hcl Hsi; simpl.
    { split; [by split|constructor]. }
    pose proof (add_simplex_with_faces_spec complex_simple (fun vs _ => NoDup vs)
      ltac:(intros; by apply add_simplex_simple)
      ltac:(intros ? ? ?; apply new_faces_NoDup)
      (length vs) c vs w ltac:(lia) Hwf Hcl Hsi Hnd) as Hadd.
    destruct (add_simplex_with_faces c vs w) as [c1 id]; simpl.
    destruct Hadd as ((Hwf1 & Hcl1 & Hext1 & Hsi1) & Hid).
    destruct (IH c1 Hwf1 Hcl1 Hsi1) as [(? & ? & Hext2 & ?) Hall].
    split; [split_and!; try done; by etrans|]. constructor; [|done].
    eapply extends_index; [exact Hext2|]. by exists id. }
  destruct (H complex_new complex_new_wf complex_new_closed ltac:(by intros ? ?)) as [(Hwf & Hcl & _ & Hsi) Hall].
  simpl. split_and!; [done..|]. eapply Forall_impl; [exact Hall|]. intros op [i Hi].
  destruct (proj1 (wf_index _ Hwf _ _) Hi) as (s & Hs & Hv). by exists i, s.
Qed.

(** a complex built by any sequence of [add_simplex_with_faces] calls on vertex lists
    without repetition is a valid indexed simplicial complex: ids are positions, the index is
    exact, every face of every simplex is present, and every requested simplex is found. *)
Theorem build_complex_valid (ops : list (list VertexId * Weight))
    (Hops : Forall (fun op => NoDup op.1) ops) :
  let c := build_complex ops in
  complex_wf c /\ complex_closed c /\ complex_simple c /\
  Forall (fun op => exists i s, get_simplex_id c (nat_sort op.1) = Some i /\
                      get_simplex c i = Some s /\ vertices s = nat_sort op.1) ops.
Proof. by apply build_complex_ok. Qed.

Lemma build_complex_valid_witness :
  let ops := [([2; 0; 1]%nat, f64_of_Z 7); ([1; 3]%nat, f64_of_Z 9)] in
  let c := build_complex ops in
  complex_wf c /\ complex_closed c /\ complex_simple c /\
  Forall (fun op => exists i s, get_simplex_id c (nat_sort op.1) = Some i /\
                      get_simplex c i = Some s /\ vertices s = nat_sort op.1) ops.
Proof.
  apply (build_complex_valid [([2; 0; 1]%nat, f64_of_Z 7); ([1; 3]%nat, f64_of_Z 9)]).
  repeat constructor; set_solver.
Defined.

(** [sort_by_filtration] turns a closed complex whose face weights do not exceed those of
    their cofaces into a filtration order: it does not panic, keeps the simplices, the index
    and closure, and every face gets a smaller id than the simplex it bounds. *)
Theorem sort_by_filtration_valid (c : SimplicialComplex)
    (Hwf : complex_wf c) (Hcl : complex_closed c) (Hn : no_nan c) (Hf : filtered c) :
  exists c', sort_by_filtration c = Ok c' /\ complex_wf c' /\ complex_closed c' /\
    vertices <$> simplices c' ≡ₚ vertices <$> simplices c /\
    forall j i, i ∈ get_face_ids c' j -> (i < j)%nat.
Proof. by apply sort_by_filtration_ok. Qed.

Lemma sort_by_filtration_valid_witness :
  let c := build_complex [([0; 1]%nat, f64_of_Z 5)] in
  exists c', sort_by_filtration c = Ok c' /\ complex_wf c' /\ complex_closed c' /\
    vertices <$> simplices c' ≡ₚ vertices <$> simplices c /\
    forall j i, i ∈ get_face_ids c' j -> (i < j)%nat.
Proof.
  destruct (build_complex_ok [([0; 1]%nat, f64_of_Z 5)]) as (Hwf & Hcl & _ & _).
  { repeat constructor; set_solver. }
  apply (sort_by_filtration_valid (build_complex [([0; 1]%nat, f64_of_Z 5)])); [done|done|..].
  - by repeat constructor.
  - apply filteredb_correct. by vm_compute.
Defined.
