(* ===== verification/Matrix.v ===== *)
(** * The boundary matrix over F2 and its reduction

    [adic-finality/src/ph/matrix.rs] and [ph/reduction.rs].  A column is the sorted list of
    its non-zero rows; the pivot ("lowest face") is its last entry.  [reduce_boundary_matrix]
    is the standard persistence algorithm: from left to right, add to a column the earlier
    column with the same pivot until the pivot is new or the column is zero. *)

From S2P Require Import Prelude F64 Simplex.

Abbreviation Column := (list SimplexId).
Abbreviation RowIndex := SimplexId.
Abbreviation ColIndex := nat.

Record BoundaryMatrix := mkMatrix {
  columns : list Column;
  pivot_map : gmap RowIndex ColIndex;
}.

Definition from_complex (complex : SimplicialComplex) : BoundaryMatrix :=
  mkMatrix ((fun s => nat_sort (get_face_ids complex (sx_id s))) <$> simplices complex) ∅.

Definition num_columns (m : BoundaryMatrix) : nat := length (columns m).
Definition append_columns (m : BoundaryMatrix) (new_columns : list Column) : BoundaryMatrix :=
  mkMatrix (columns m ++ new_columns) (pivot_map m).
Definition get_column (m : BoundaryMatrix) (col : ColIndex) : option Column := columns m !! col.
Definition is_empty_column (m : BoundaryMatrix) (col : ColIndex) : bool :=
  match columns m !! col with None => true | Some c => (length c =? 0)%nat end.
Definition lowest_face (m : BoundaryMatrix) (col : ColIndex) : option RowIndex :=
  columns m !! col ≫= last.
Definition find_column_with_pivot (m : BoundaryMatrix) (pivot : RowIndex) : option ColIndex :=
  pivot_map m !! pivot.

(** The merge loop of [xor_columns]: the symmetric difference of two sorted lists. *)
Fixpoint xor_lists (t : Column) : Column -> Column :=
  fix go (s : Column) : Column :=
    match t, s with
    | [], _ => s
    | _, [] => t
    | x :: t', y :: s' =>
        match Nat.compare x y with
        | Lt => x :: xor_lists t' s
        | Gt => y :: go s'
        | Eq => xor_lists t' s'
        end
    end.

Definition xor_columns (m : BoundaryMatrix) (target_col source_col : ColIndex) : BoundaryMatrix :=
  match columns m !! target_col, columns m !! source_col with
  | Some target, Some source =>
      mkMatrix (<[target_col := xor_lists target source]> (columns m)) (pivot_map m)
  | _, _ => m
  end.

Definition update_pivot (m : BoundaryMatrix) (col : ColIndex) : BoundaryMatrix :=
  match lowest_face m col with
  | Some pivot => mkMatrix (columns m) (<[pivot := col]> (pivot_map m))
  | None => m
  end.

Definition clear_pivots (m : BoundaryMatrix) : BoundaryMatrix := mkMatrix (columns m) ∅.

(** ** [reduction.rs] *)

Record ReductionResult := mkReduction {
  matrix : BoundaryMatrix;
  pairs : gmap ColIndex RowIndex;
  unpaired : list ColIndex;
}.

(** The [while let] loop on one column; [None] when the fuel is exhausted. *)
Fixpoint reduce_column (fuel : nat) (m : BoundaryMatrix) (col : ColIndex) : option BoundaryMatrix :=
  match lowest_face m col with
  | None => Some m
  | Some pivot =>
      match find_column_with_pivot m pivot with
      | None => Some (update_pivot m col)
      | Some other_col =>
          match fuel with
          | O => None
          | S k => reduce_column k (xor_columns m col other_col) col
          end
      end
  end.

(** The pivot strictly decreases, so it bounds the number of iterations. *)
Definition column_fuel (m : BoundaryMatrix) (col : ColIndex) : nat :=
  match lowest_face m col with Some p => S p | None => 0 end.

(** The [for col in ..] loop over a range of columns. *)
Fixpoint reduce_range (m : BoundaryMatrix) (cols : list ColIndex) : option BoundaryMatrix :=
  match cols with
  | [] => Some m
  | col :: rest =>
      match reduce_column (column_fuel m col) m col with
      | Some m' => reduce_range m' rest
      | None => None
      end
  end.

(** [pairs] inverts the pivot map; [unpaired] keeps the columns that are neither a key nor a
    value of it, in order. *)
Definition extract_pairs (pm : gmap RowIndex ColIndex) : gmap ColIndex RowIndex :=
  map_fold (fun pivot_row column acc => <[column := pivot_row]> acc) ∅ pm.

Definition extract_unpaired (n : nat) (prs : gmap ColIndex RowIndex) : list ColIndex :=
  let paired_deaths : gset nat := dom prs in
  let paired_births : gset nat := list_to_set (map_to_list prs).*2 in
  List.filter (fun col => negb (bool_decide (col ∈ paired_deaths)) && negb (bool_decide (col ∈ paired_births)))
    (seq 0 n).

Definition reduce_boundary_matrix (m : BoundaryMatrix) : option ReductionResult :=
  let n := num_columns m in
  m ← reduce_range (clear_pivots m) (seq 0 n);
  let prs := extract_pairs (pivot_map m) in
  Some (mkReduction m prs (extract_unpaired n prs)).

(** [reduce_with_clearing]: before reducing a column, drop from it every row that already
    served as a pivot.  [Panic] is the out-of-range index into [cleared_rows]; [Ok None] an
    exhausted fuel. *)
Fixpoint clearing_loop (m : BoundaryMatrix) (cleared_rows : list bool) (cols : list ColIndex)
    : result Empty_set (option BoundaryMatrix) :=
  match cols with
  | [] => Ok (Some m)
  | col :: rest =>
      let? m :=
        match get_column m col with
        | Some column_data =>
            if forallb (fun row => (row <? length cleared_rows)%nat) column_data then
              let filtered := List.filter (fun row => negb (default false (cleared_rows !! row))) column_data in
              if (length filtered =? length column_data)%nat then Ok m
              else Ok (mkMatrix (<[col := filtered]> (columns m)) (pivot_map m))
            else Panic
        | None => Ok m
        end in
      match reduce_column (column_fuel m col) m col with
      | None => Ok None
      | Some m' =>
          let cleared_rows :=
            match lowest_face m' col with
            | Some pivot => <[pivot := true]> cleared_rows
            | None => cleared_rows
            end in
          clearing_loop m' cleared_rows rest
      end
  end.

Definition reduce_with_clearing (m : BoundaryMatrix) : result Empty_set (option ReductionResult) :=
  let n := num_columns m in
  let? o := clearing_loop (clear_pivots m) (replicate n false) (seq 0 n) in
  Ok (m ← o;
      let prs := extract_pairs (pivot_map m) in
      Some (mkReduction m prs (extract_unpaired n prs))).

(** ** Columns as sets *)

Definition sorted_col (c : Column) : Prop := StronglySorted lt c.
Definition matrix_sorted (m : BoundaryMatrix) : Prop := Forall sorted_col (columns m).

Lemma sorted_col_tail x c : sorted_col (x :: c) -> sorted_col c /\ forall y, y ∈ c -> (x < y)%nat.
Proof. intros [Hs Hall]%StronglySorted_inv. rewrite Forall_forall in Hall. done. Qed.

Lemma elem_of_xor_lists t s x :
  sorted_col t -> sorted_col s ->
  x ∈ xor_lists t s <-> (x ∈ t /\ x ∉ s) \/ (x ∉ t /\ x ∈ s).
Proof.
  revert s; induction t as [|a t IHt]; intros s Ht Hs.
  { destruct s; simpl; set_solver. }
  destruct (sorted_col_tail _ _ Ht) as [Ht' Hat].
  induction s as [|b s IHs]; [simpl; set_solver|].
  destruct (sorted_col_tail _ _ Hs) as [Hs' Hbs]. cbn [xor_lists].
  destruct (Nat.compare_spec a b) as [->|Hab|Hab].
  - rewrite IHt by done. specialize (Hat b). specialize (Hbs b).
    rewrite !elem_of_cons. destruct (decide (x = b)) as [->|]; [|tauto].
    split; [intros [[? _]|[_ ?]]; exfalso; naive_solver lia|tauto].
  - rewrite elem_of_cons, IHt by done. rewrite !elem_of_cons.
    destruct (decide (x = a)) as [->|]; [|tauto].
    split; [|by left]. intros _. left. split; [by left|].
    intros [->|Hin]; [lia|]. specialize (Hbs a Hin); lia.
  - change ((fix go (s : Column) : Column := _) s) with (xor_lists (a :: t) s).
    rewrite elem_of_cons, IHs by done. rewrite !elem_of_cons.
    destruct (decide (x = b)) as [->|]; [|tauto].
    split; [|by left]. intros _. right. split; [|by left].
    intros [->|Hin]; [lia|]. specialize (Hat b Hin); lia.
Qed.

Lemma xor_lists_sorted t s : sorted_col t -> sorted_col s -> sorted_col (xor_lists t s).
Proof.
  revert s; induction t as [|a t IHt]; intros s Ht Hs; [by destruct s|].
  destruct (sorted_col_tail _ _ Ht) as [Ht' Hat].
  induction s as [|b s IHs]; [done|].
  destruct (sorted_col_tail _ _ Hs) as [Hs' Hbs]. cbn [xor_lists].
  destruct (Nat.compare_spec a b) as [->|Hab|Hab]; [by apply IHt|..].
  - constructor; [by apply IHt|]. rewrite Forall_forall. intros x Hx.
    apply elem_of_xor_lists in Hx as [[Hx _]|[_ Hx]]; [by apply Hat| |done..].
    apply elem_of_cons in Hx as [->|Hx]; [done|]. specialize (Hbs x Hx); lia.
  - change ((fix go (s : Column) : Column := _) s) with (xor_lists (a :: t) s).
    constructor; [by apply IHs|]. rewrite Forall_forall. intros x Hx.
    apply elem_of_xor_lists in Hx as [[Hx _]|[_ Hx]]; [|by apply Hbs|done..].
    apply elem_of_cons in Hx as [->|Hx]; [done|]. specialize (Hat x Hx); lia.
Qed.

Lemma sorted_last_max c p : sorted_col c -> last c = Some p -> p ∈ c /\ forall x, x ∈ c -> (x <= p)%nat.
Proof.
  intros Hs Hl. rewrite last_lookup in Hl. split; [apply list_elem_of_lookup; eauto|].
  intros x [i Hi]%list_elem_of_lookup.
  assert (i < length c)%nat by (by eapply lookup_lt_Some).
  destruct (decide (i = pred (length c))) as [->|]; [by simplify_eq|].
  assert (x < p)%nat; [|lia]. eapply (StronglySorted_lookup_lt lt c i); [done..|lia].
Qed.

Lemma xor_lists_last t s p q :
  sorted_col t -> sorted_col s -> last t = Some p -> last s = Some p ->
  last (xor_lists t s) = Some q -> (q < p)%nat.
Proof.
  intros Ht Hs Hlt Hls Hq.
  destruct (sorted_last_max _ _ Ht Hlt) as [Hpt Hmt]. destruct (sorted_last_max _ _ Hs Hls) as [Hps Hms].
  destruct (sorted_last_max _ _ (xor_lists_sorted _ _ Ht Hs) Hq) as [Hin _].
  apply elem_of_xor_lists in Hin; [|done..].
  assert (q <> p) by (intros ->; tauto).
  assert (q <= p)%nat; [|lia]. destruct Hin as [[? _]|[_ ?]]; auto.
Qed.

(** ** Linear combinations of columns over F2 *)

Lemma odd_size_symdiff (A B : gset nat) :
  Nat.odd (size ((A ∖ B) ∪ (B ∖ A))) = xorb (Nat.odd (size A)) (Nat.odd (size B)).
Proof.
  assert (size A = size (A ∖ B) + size (A ∩ B))%nat as ->.
  { rewrite <-size_union by set_solver. f_equal. apply set_eq. intros x. destruct (decide (x ∈ B)); set_solver. }
  assert (size B = size (B ∖ A) + size (A ∩ B))%nat as ->.
  { rewrite <-size_union by set_solver. f_equal. apply set_eq. intros x. destruct (decide (x ∈ A)); set_solver. }
  rewrite size_union by set_solver. rewrite !Nat.odd_add.
  by destruct (Nat.odd (size (A ∖ B))), (Nat.odd (size (B ∖ A))), (Nat.odd (size (A ∩ B))).
Qed.

Definition col_at (D : list Column) (i : nat) : Column := default [] (D !! i).

(** Row [x] of the sum over F2 of the columns of [D] whose indices are in [V]. *)
Definition parity (D : list Column) (x : nat) (V : gset nat) : bool :=
  Nat.odd (size (filter (fun i => x ∈ col_at D i) V)).

Lemma parity_symdiff D x (A B : gset nat) :
  parity D x ((A ∖ B) ∪ (B ∖ A)) = xorb (parity D x A) (parity D x B).
Proof.
  unfold parity. rewrite <-odd_size_symdiff. do 2 f_equal. set_solver.
Qed.

Lemma parity_singleton D x i : parity D x {[ i ]} = bool_decide (x ∈ col_at D i).
Proof.
  unfold parity. case_bool_decide as H.
  - replace (filter _ {[ i ]}) with ({[ i ]} : gset nat) by set_solver. by rewrite size_singleton.
  - replace (filter _ {[ i ]}) with (∅ : gset nat) by set_solver. by rewrite size_empty.
Qed.

Lemma parity_empty D x : parity D x ∅ = false.
Proof. unfold parity. replace (filter _ ∅) with (∅ : gset nat) by set_solver. by rewrite size_empty. Qed.

(** [col] is column [j] of [D] plus a sum of earlier columns: a column of [D * V] for a unit
    upper triangular [V]. *)
Definition is_combination (D : list Column) (j : nat) (col : Column) : Prop :=
  exists V : gset nat, j ∈ V /\ (forall i, i ∈ V -> (i <= j)%nat) /\
    forall x, x ∈ col <-> parity D x V = true.

Lemma combination_base D j c : D !! j = Some c -> is_combination D j c.
Proof.
  intros Hj. exists {[ j ]}. split; [set_solver|]. split; [set_solver by lia|].
  intros x. rewrite parity_singleton, bool_decide_eq_true. unfold col_at. by rewrite Hj.
Qed.

Lemma combination_xor D j t i s :
  (i < j)%nat -> sorted_col t -> sorted_col s ->
  is_combination D j t -> is_combination D i s -> is_combination D j (xor_lists t s).
Proof.
  intros Hij Ht Hs (V & HjV & HV & Hx) (W & HiW & HW & Hy).
  exists ((V ∖ W) ∪ (W ∖ V)). split; [|split].
  - apply elem_of_union_l, elem_of_difference. split; [done|]. intros Hin. specialize (HW j Hin). lia.
  - intros k [[Hk _]%elem_of_difference|[Hk _]%elem_of_difference]%elem_of_union; [by apply HV|].
    specialize (HW k Hk). lia.
  - intros x. rewrite elem_of_xor_lists, parity_symdiff, Hx, Hy by done.
    clear. destruct (parity D x V), (parity D x W); simpl; intuition discriminate.
Qed.

(** ** The reduction loop *)

(** Columns below [k] are reduced, columns from [u] on are those of [D]. *)
Record reducing (D : list Column) (m : BoundaryMatrix) (k u : nat) : Prop := {
  rd_length : length (columns m) = length D;
  rd_columns : forall j c, columns m !! j = Some c -> sorted_col c /\ is_combination D j c;
  rd_pivots : forall p j, pivot_map m !! p = Some j <-> (j < k)%nat /\ lowest_face m j = Some p;
  rd_untouched : forall j, (u <= j)%nat -> columns m !! j = D !! j;
}.

Lemma lowest_face_Some m j p :
  lowest_face m j = Some p <-> exists c, columns m !! j = Some c /\ last c = Some p.
Proof. unfold lowest_face. destruct (columns m !! j); simpl; naive_solver. Qed.

Lemma reducing_start D : Forall sorted_col D -> reducing D (mkMatrix D ∅) 0 0.
Proof.
  intros Hs. split; simpl; [done|..|done].
  - intros j c Hj. split; [|by apply combination_base]. rewrite Forall_lookup in Hs. by eapply Hs.
  - intros p j. rewrite lookup_empty. split; [done|lia].
Qed.

Lemma lowest_face_xor_other m t s j : j <> t -> lowest_face (xor_columns m t s) j = lowest_face m j.
Proof.
  intros Hne. unfold lowest_face, xor_columns. destruct (columns m !! t), (columns m !! s); simpl; try done.
  by rewrite list_lookup_insert_ne.
Qed.

Lemma pivot_map_xor m t s : pivot_map (xor_columns m t s) = pivot_map m.
Proof. unfold xor_columns. by destruct (columns m !! t), (columns m !! s). Qed.

(** One addition of the loop body keeps the invariant and lowers the pivot. *)
Lemma reducing_xor D m k pivot other :
  (k < length D)%nat -> reducing D m k (S k) ->
  lowest_face m k = Some pivot -> pivot_map m !! pivot = Some other ->
  reducing D (xor_columns m k other) k (S k) /\
  forall q, lowest_face (xor_columns m k other) k = Some q -> (q < pivot)%nat.
Proof.
  intros Hk [Hl Hc Hp Hu] Hlow Hfind.
  apply Hp in Hfind as [Hok Hlo]. apply lowest_face_Some in Hlow as (t & Ht & Hlt).
  apply lowest_face_Some in Hlo as (s & Hs & Hls).
  destruct (Hc k t Ht) as [Hst Hct], (Hc other s Hs) as [Hss Hcs].
  assert (columns (xor_columns m k other) = <[k := xor_lists t s]> (columns m)) as Hcols
    by (unfold xor_columns; by rewrite Ht, Hs).
  assert (columns (xor_columns m k other) !! k = Some (xor_lists t s)) as Hnew.
  { rewrite Hcols. apply list_lookup_insert_eq. lia. }
  split; [split|].
  - rewrite Hcols, length_insert. done.
  - intros j c Hj. destruct (decide (j = k)) as [->|Hne].
    + rewrite Hnew in Hj. simplify_eq. split; [by apply xor_lists_sorted|]. by eapply combination_xor.
    + rewrite Hcols, list_lookup_insert_ne in Hj by done. by apply Hc.
  - intros p j. rewrite pivot_map_xor, Hp. destruct (decide (j = k)) as [->|Hne]; [lia|].
    by rewrite lowest_face_xor_other.
  - intros j Hj. rewrite Hcols, list_lookup_insert_ne by lia. by apply Hu.
  - intros q (c & Hc' & Hq)%lowest_face_Some. rewrite Hnew in Hc'. simplify_eq.
    by eapply (xor_lists_last t s).
Qed.

Lemma reducing_done D m k :
  reducing D m k (S k) ->
  (forall pivot, lowest_face m k = Some pivot -> pivot_map m !! pivot = None) ->
  reducing D (update_pivot m k) (S k) (S k).
Proof.
  intros [Hl Hc Hp Hu] Hnew. unfold update_pivot.
  destruct (lowest_face m k) as [pivot|] eqn:Hlow; split; try done; intros p j; simpl.
  - rewrite lookup_insert. specialize (Hnew pivot eq_refl). case_decide as Hd.
    + subst p. split.
      * intros [= <-]. split; [lia|]. exact Hlow.
      * intros [Hj Hlj]. destruct (decide (j = k)) as [->|Hne]; [done|].
        assert (pivot_map m !! pivot = Some j) by (apply Hp; split; [lia|done]). congruence.
    + rewrite Hp. split; intros [Hj Hlj]; (split; [|exact Hlj]); [lia|].
      destruct (decide (j = k)) as [->|]; [|lia]. exfalso. unfold lowest_face in *. simpl in Hlj. congruence.
  - rewrite Hp. split; intros [Hj Hlj]; (split; [|exact Hlj]); [lia|].
    destruct (decide (j = k)) as [->|]; [congruence|lia].
Qed.

Lemma reduce_column_ok fuel D m k :
  (k < length D)%nat -> reducing D m k (S k) ->
  (forall p, lowest_face m k = Some p -> (p < fuel)%nat) ->
  exists m', reduce_column fuel m k = Some m' /\ reducing D m' (S k) (S k).
Proof.
  intros Hk. revert m; induction fuel as [|fuel IH]; intros m Hrd Hf;
    cbn [reduce_column]; destruct (lowest_face m k) as [pivot|] eqn:Hlow.
  - specialize (Hf pivot eq_refl). lia.
  - exists m. split; [done|]. pose proof (reducing_done D m k Hrd) as H.
    unfold update_pivot in H. rewrite Hlow in H. by apply H.
  - unfold find_column_with_pivot. destruct (pivot_map m !! pivot) as [other|] eqn:Hfind.
    + destruct (reducing_xor D m k pivot other) as [Hrd' Hlt]; [done..|].
      apply IH; [done|]. intros q Hq. specialize (Hlt q Hq). specialize (Hf pivot eq_refl). lia.
    + eexists. split; [done|]. apply reducing_done; [done|]. intros ? ?. congruence.
  - exists m. split; [done|]. pose proof (reducing_done D m k Hrd) as H.
    unfold update_pivot in H. rewrite Hlow in H. by apply H.
Qed.

Lemma reducing_widen D m k u u' : (u <= u')%nat -> reducing D m k u -> reducing D m k u'.
Proof. intros Hle [? ? ? Hu]. split; try done. intros j Hj. apply Hu. lia. Qed.

Lemma reduce_range_ok len D m k :
  (k + len <= length D)%nat -> reducing D m k k ->
  exists m', reduce_range m (seq k len) = Some m' /\ reducing D m' (k + len) (k + len).
Proof.
  revert m k; induction len as [|len IH]; intros m k Hle Hrd; simpl.
  { exists m. by rewrite Nat.add_0_r. }
  destruct (reduce_column_ok (column_fuel m k) D m k) as (m' & -> & Hrd'); [lia|..].
  - eapply reducing_widen; [|done]. lia.
  - intros p Hp. unfold column_fuel. rewrite Hp. lia.
  - destruct (IH m' (S k)) as (m'' & Hm & Hrd''); [lia|done|]. exists m''.
    replace (k + S len)%nat with (S k + len)%nat by lia. done.
Qed.

(** ** Reducing a matrix that grows *)

(** Reducing a column leaves the others alone. *)
Lemma reduce_column_other fuel m k m' j :
  reduce_column fuel m k = Some m' -> j <> k -> columns m' !! j = columns m !! j.
Proof.
  intros H Hj. revert m H; induction fuel as [|fuel IH]; intros m; cbn [reduce_column]; unfold update_pivot;
    destruct (lowest_face m k) as [pivot|] eqn:Hlow; try (by intros [= <-]);
    destruct (find_column_with_pivot m pivot); try done; try (by intros [= <-]).
  intros H%IH. rewrite H. unfold xor_columns.
  destruct (columns m !! k), (columns m !! _); try done. by apply list_lookup_insert_ne.
Qed.

Lemma reduce_range_app m l1 l2 :
  reduce_range m (l1 ++ l2) = m' ← reduce_range m l1; reduce_range m' l2.
Proof.
  revert m; induction l1 as [|k l1 IH]; intros m; simpl; [done|]. destruct (reduce_column _ _ _); [apply IH|done].
Qed.

(** Columns to the right of the pivot map play no part. *)
Definition pivots_below (m : BoundaryMatrix) : Prop :=
  forall p j, pivot_map m !! p = Some j -> (j < num_columns m)%nat.

Lemma lowest_face_append m X k :
  (k < num_columns m)%nat -> lowest_face (append_columns m X) k = lowest_face m k.
Proof. intros Hk. unfold lowest_face, append_columns; simpl. by rewrite lookup_app_l. Qed.

Lemma xor_columns_append m X k other :
  (k < num_columns m)%nat -> (other < num_columns m)%nat ->
  xor_columns (append_columns m X) k other = append_columns (xor_columns m k other) X.
Proof.
  intros Hk Ho. unfold xor_columns, append_columns; simpl. rewrite !lookup_app_l by done.
  destruct (columns m !! k) eqn:E1, (columns m !! other) eqn:E2; simpl; try done.
  f_equal. rewrite insert_app_l; [done|]. by eapply lookup_lt_Some.
Qed.

Lemma num_columns_xor m k other : num_columns (xor_columns m k other) = num_columns m.
Proof.
  unfold xor_columns, num_columns. destruct (columns m !! k), (columns m !! other); simpl; try done.
  apply length_insert.
Qed.

Lemma reduce_column_append fuel m X k :
  (k < num_columns m)%nat -> pivots_below m ->
  reduce_column fuel (append_columns m X) k = (fun m' => append_columns m' X) <$> reduce_column fuel m k.
Proof.
  intros Hk. revert m Hk; induction fuel as [|fuel IH]; intros m Hk Hb; cbn [reduce_column]; unfold update_pivot;
    rewrite !lowest_face_append by done; destruct (lowest_face m k) as [pivot|]; try done;
    unfold find_column_with_pivot; cbn [pivot_map append_columns];
    destruct (pivot_map m !! pivot) as [other|] eqn:E; try done.
  rewrite xor_columns_append by (done || by eapply Hb). apply IH; [by rewrite num_columns_xor|].
  intros p j. rewrite pivot_map_xor, num_columns_xor. apply Hb.
Qed.

Lemma reduce_range_append D m X k len :
  (k + len <= length D)%nat -> reducing D m k k ->
  reduce_range (append_columns m X) (seq k len) = (fun m' => append_columns m' X) <$> reduce_range m (seq k len).
Proof.
  revert m k; induction len as [|len IH]; intros m k Hle Hrd; cbn [seq reduce_range]; [done|].
  assert (num_columns m = length D) as Hn by apply Hrd.
  rewrite reduce_column_append; [|lia|].
  2: { intros p j Hp. apply (rd_pivots _ _ _ _ Hrd) in Hp as [Hj _]. lia. }
  assert (column_fuel (append_columns m X) k = column_fuel m k) as ->
    by (unfold column_fuel; by rewrite lowest_face_append by lia).
  destruct (reduce_column_ok (column_fuel m k) D m k) as (m' & -> & Hrd'); [lia|..].
  - eapply reducing_widen; [|done]. lia.
  - intros p Hp. unfold column_fuel. rewrite Hp. lia.
  - simpl. apply IH; [lia|done].
Qed.

(** The state after [length D] columns is a state in the middle of the grown matrix. *)
Lemma reducing_grow D X m n :
  length D = n -> Forall sorted_col X -> reducing D m n n ->
  reducing (D ++ X) (append_columns m X) n n.
Proof.
  intros <- HX [Hl Hc Hp Hu]. split.
  - simpl. rewrite !length_app. lia.
  - intros j c Hj. simpl in Hj. apply lookup_app_Some in Hj as [Hj|[Hge Hj]].
    + destruct (Hc j c Hj) as [Hs (V & HjV & HV & Hx)]. split; [done|]. exists V. split; [done|]. split; [done|].
      intros x. rewrite Hx. unfold parity. do 3 f_equiv. apply set_eq. intros i. rewrite !elem_of_filter.
      assert (i ∈ V -> col_at (D ++ X) i = col_at D i) as Hi.
      { intros Hi. unfold col_at. rewrite lookup_app_l; [done|]. specialize (HV i Hi).
        apply lookup_lt_Some in Hj. lia. }
      split; intros [? Hin]; (split; [|done]); [by rewrite Hi|by rewrite <-Hi].
    + rewrite Forall_lookup in HX. split; [by eapply HX|]. apply combination_base.
      rewrite lookup_app_r by lia. by rewrite <-Hl.
  - intros p j. simpl. rewrite Hp. split; intros [Hj Hlow]; (split; [done|]);
      [rewrite lowest_face_append by (unfold num_columns; lia)|rewrite lowest_face_append in Hlow by (unfold num_columns; lia)]; done.
  - intros j Hj. simpl. rewrite !lookup_app_r by lia. by rewrite Hl.
Qed.

(** Batch reduction of a grown matrix goes on from the reduction of its first columns. *)
Lemma reduce_range_grow D X m n k :
  length D = n -> length X = k -> Forall sorted_col D -> Forall sorted_col X ->
  reduce_range (mkMatrix D ∅) (seq 0 n) = Some m ->
  reduce_range (mkMatrix (D ++ X) ∅) (seq 0 (n + k)) = reduce_range (append_columns m X) (seq n k).
Proof.
  intros <- <- HD HX Hm. rewrite seq_app, reduce_range_app.
  change (mkMatrix (D ++ X) ∅) with (append_columns (mkMatrix D ∅) X).
  rewrite (reduce_range_append D), Hm by (done || by apply reducing_start). done.
Qed.

(** ** Pairs and unpaired columns *)

Lemma extract_pairs_lookup (pm : gmap RowIndex ColIndex) j p :
  (forall p q c, pm !! p = Some c -> pm !! q = Some c -> p = q) ->
  extract_pairs pm !! j = Some p <-> pm !! p = Some j.
Proof.
  intros Hinj. unfold extract_pairs. rewrite map_fold_foldr.
  assert (NoDup (fmap snd (map_to_list pm))) as Hnd.
  { apply NoDup_fmap_2_strong; [|apply NoDup_map_to_list].
    intros [p1 c1] [p2 c2] H1%elem_of_map_to_list H2%elem_of_map_to_list Heq; simpl in *; subst.
    by rewrite (Hinj p1 p2 c2). }
  rewrite <-(elem_of_map_to_list pm p j). revert Hnd. generalize (map_to_list pm) as l.
  induction l as [|[q c] l IH]; simpl; intros Hnd.
  { rewrite lookup_empty, elem_of_nil. naive_solver. }
  apply NoDup_cons in Hnd as [Hc Hnd]. rewrite lookup_insert, elem_of_cons. case_decide as Hd.
  - subst j. split; [intros [= <-]; by left|]. intros [[= <-]|Hin]; [done|].
    exfalso. apply Hc. apply list_elem_of_fmap. by exists (p, c).
  - rewrite IH by done. naive_solver.
Qed.

Lemma extract_unpaired_sorted n prs : StronglySorted lt (extract_unpaired n prs).
Proof.
  unfold extract_unpaired. generalize 0%nat. intros a; revert a.
  induction n as [|n IH]; intros a; simpl; [constructor|].
  case_match; [|apply IH]. constructor; [apply IH|]. rewrite Forall_forall. intros x Hx.
  rewrite list_elem_of_In, filter_In, <-list_elem_of_In, elem_of_seq in Hx. lia.
Qed.

Lemma elem_of_extract_unpaired n prs j :
  j ∈ extract_unpaired n prs <->
  (j < n)%nat /\ prs !! j = None /\ forall d, prs !! d <> Some j.
Proof.
  unfold extract_unpaired. rewrite list_elem_of_In, filter_In, <-list_elem_of_In, elem_of_seq.
  rewrite andb_true_iff, !negb_true_iff, !bool_decide_eq_false.
  rewrite not_elem_of_dom, elem_of_list_to_set, list_elem_of_fmap.
  split.
  - intros (? & ? & Hb). split_and!; [lia|done|]. intros d Hd. apply Hb. exists (d, j).
    split; [done|]. by apply elem_of_map_to_list.
  - intros (? & ? & Hb). split_and!; [lia|lia|done|]. intros ([d j'] & ? & Hd%elem_of_map_to_list); simpl in *; subst.
    by apply (Hb d).
Qed.

(** ** Properties of the reduction *)

(** [xor_columns] adds two columns over F2: on sorted columns the new target is sorted and
    contains exactly the rows of one of the two; other columns and the pivots are untouched, and an
    index out of range changes nothing. *)
Theorem xor_columns_spec (m : BoundaryMatrix) (t s : ColIndex) (Hm : matrix_sorted m) :
  let m' := xor_columns m t s in
  matrix_sorted m' /\ num_columns m' = num_columns m /\ pivot_map m' = pivot_map m /\
  (forall j, j <> t -> get_column m' j = get_column m j) /\
  (forall ct cs, get_column m t = Some ct -> get_column m s = Some cs ->
     exists c, get_column m' t = Some c /\
       forall x, x ∈ c <-> (x ∈ ct /\ x ∉ cs) \/ (x ∉ ct /\ x ∈ cs)) /\
  (get_column m t = None \/ get_column m s = None -> m' = m).
Proof.
  unfold xor_columns, get_column, num_columns, matrix_sorted in *. rewrite Forall_lookup in Hm.
  destruct (columns m !! t) as [ct|] eqn:Ht; [destruct (columns m !! s) as [cs|] eqn:Hs|]; simpl.
  2-3: split_and!; try done; first [by rewrite Forall_lookup | intros; congruence].
  assert (t < length (columns m))%nat by (by eapply lookup_lt_Some).
  split_and!; [|by rewrite length_insert|done|..|by intros [?|?]].
  - apply Forall_insert; [by rewrite Forall_lookup|]. apply xor_lists_sorted; eauto.
  - intros j Hj. by rewrite list_lookup_insert_ne.
  - intros ? ? [= <-] [= <-]. exists (xor_lists ct cs). rewrite list_lookup_insert_eq by done.
    split; [done|]. intros x. apply elem_of_xor_lists; eauto.
Qed.

Lemma xor_columns_spec_witness :
  let m := mkMatrix [[0; 1]; [1; 2]]%nat ∅ in
  let m' := xor_columns m 0 1 in
  matrix_sorted m' /\ num_columns m' = num_columns m /\ pivot_map m' = pivot_map m /\
  (forall j, j <> 0%nat -> get_column m' j = get_column m j) /\
  (forall ct cs, get_column m 0 = Some ct -> get_column m 1 = Some cs ->
     exists c, get_column m' 0 = Some c /\
       forall x, x ∈ c <-> (x ∈ ct /\ x ∉ cs) \/ (x ∉ ct /\ x ∈ cs)) /\
  (get_column m 0 = None \/ get_column m 1 = None -> m' = m).
Proof.
  apply (xor_columns_spec (mkMatrix [[0; 1]; [1; 2]]%nat ∅) 0 1).
  repeat constructor.
Defined.

(** The reduced form of a sorted matrix [D], as the algorithm promises it: sorted columns that
    are [D * V] with [V] unit upper triangular, and no pivot used twice. *)
Definition is_reduction (D R : list Column) : Prop :=
  length R = length D /\
  (forall j c, R !! j = Some c -> sorted_col c /\ is_combination D j c) /\
  (forall i j ci cj p, R !! i = Some ci -> R !! j = Some cj ->
     last ci = Some p -> last cj = Some p -> i = j).

Lemma reducing_is_reduction D m :
  reducing D m (length D) (length D) -> is_reduction D (columns m).
Proof.
  intros [Hl Hc Hp _]. split; [done|]. split; [done|].
  intros i j ci cj p Hi Hj Hli Hlj.
  assert (pivot_map m !! p = Some i) as H1.
  { apply Hp. split; [rewrite <-Hl; by eapply lookup_lt_Some|]. apply lowest_face_Some. eauto. }
  assert (pivot_map m !! p = Some j) as H2.
  { apply Hp. split; [rewrite <-Hl; by eapply lookup_lt_Some|]. apply lowest_face_Some. eauto. }
  congruence.
Qed.

Lemma reducing_pairs D m j p :
  reducing D m (length D) (length D) ->
  extract_pairs (pivot_map m) !! j = Some p <-> lowest_face m j = Some p.
Proof.
  intros [Hl _ Hp _]. rewrite extract_pairs_lookup.
  - rewrite Hp. split; [by intros []|]. intros Hlow. split; [|done].
    apply lowest_face_Some in Hlow as (c & Hj & _). rewrite <-Hl. by eapply lookup_lt_Some.
  - intros p1 p2 c [_ H1]%Hp [_ H2]%Hp. congruence.
Qed.

Lemma reduce_boundary_matrix_ok (D : list Column) (pm : gmap RowIndex ColIndex) :
  Forall sorted_col D ->
  exists m, reduce_range (clear_pivots (mkMatrix D pm)) (seq 0 (length D)) = Some m /\
    reducing D m (length D) (length D) /\
    reduce_boundary_matrix (mkMatrix D pm) =
      Some (mkReduction m (extract_pairs (pivot_map m))
              (extract_unpaired (length D) (extract_pairs (pivot_map m)))).
Proof.
  intros Hs. destruct (reduce_range_ok (length D) D (mkMatrix D ∅) 0) as (m & Hm & Hrd);
    [lia|by apply reducing_start|].
  exists m. split; [done|]. split; [done|].
  unfold reduce_boundary_matrix, num_columns, clear_pivots; simpl. by rewrite Hm.
Qed.

(** C3: the standard reduction terminates on every matrix of sorted columns and is correct:
    its result is [R = D * V] with [V] unit upper triangular and every non-zero column of [R]
    has its own pivot; [pairs] maps exactly the non-zero columns to their pivots, and
    [unpaired] lists exactly the zero columns that are not the pivot of another column. *)
Theorem reduce_boundary_matrix_correct (m : BoundaryMatrix) (Hm : matrix_sorted m) :
  exists r, reduce_boundary_matrix m = Some r /\
    is_reduction (columns m) (columns (matrix r)) /\
    (forall j p, pairs r !! j = Some p <-> lowest_face (matrix r) j = Some p) /\
    (forall j, j ∈ unpaired r <-> (j < num_columns m)%nat /\
       lowest_face (matrix r) j = None /\ forall d, lowest_face (matrix r) d <> Some j) /\
    StronglySorted lt (unpaired r).
Proof.
  destruct m as [D pm]. destruct (reduce_boundary_matrix_ok D pm Hm) as (m & _ & Hrd & ->).
  eexists. split; [done|]. simpl. split; [by apply reducing_is_reduction|].
  pose proof (fun j p => reducing_pairs D m j p Hrd) as Hpairs. split; [exact Hpairs|]. split.
  - intros j. rewrite elem_of_extract_unpaired. unfold num_columns; simpl.
    assert (extract_pairs (pivot_map m) !! j = None <-> lowest_face m j = None) as ->.
    { rewrite !eq_None_not_Some. unfold is_Some. by setoid_rewrite Hpairs. }
    by setoid_rewrite Hpairs.
  - apply extract_unpaired_sorted.
Qed.

Lemma reduce_boundary_matrix_correct_witness :
  let m := mkMatrix [[]; []; [0; 1]; []; [1; 3]; [0; 3]]%nat ∅ in
  exists r, reduce_boundary_matrix m = Some r /\
    is_reduction (columns m) (columns (matrix r)) /\
    (forall j p, pairs r !! j = Some p <-> lowest_face (matrix r) j = Some p) /\
    (forall j, j ∈ unpaired r <-> (j < num_columns m)%nat /\
       lowest_face (matrix r) j = None /\ forall d, lowest_face (matrix r) d <> Some j) /\
    StronglySorted lt (unpaired r).
Proof.
  apply (reduce_boundary_matrix_correct (mkMatrix [[]; []; [0; 1]; []; [1; 3]; [0; 3]]%nat ∅)).
  repeat constructor.
Defined.

(** The pairing of the hollow triangle: vertices 0, 1, 3 and edges 2, 4, 5. *)
Example reduce_triangle :
  match reduce_boundary_matrix (mkMatrix [[]; []; [0; 1]; []; [1; 3]; [0; 3]]%nat ∅) with
  | Some r => (columns (matrix r), map_to_list (pairs r), unpaired r)
  | None => ([], [], [])
  end = ([[]; []; [0; 1]; []; [1; 3]; []], [(4, 3); (2, 1)], [0; 5])%nat.
Proof. vm_compute. reflexivity. Qed.

(** on the hollow triangle [reduce_with_clearing] returns another pairing: it erases the row of
    an earlier pivot from a column instead of adding the column that has the pivot, so the
    edge that closes the loop becomes the death of the first vertex and no class survives. *)
Theorem clearing_differs :
  let m := mkMatrix [[]; []; [0; 1]; []; [1; 3]; [0; 3]]%nat ∅ in
  exists r r',
    reduce_boundary_matrix m = Some r /\ reduce_with_clearing m = Ok (Some r') /\
    map_to_list (pairs r) = [(4, 3); (2, 1)]%nat /\ unpaired r = [0; 5]%nat /\
    map_to_list (pairs r') = [(4, 3); (2, 1); (5, 0)]%nat /\ unpaired r' = [].
Proof. do 2 eexists. split; [vm_compute; reflexivity|]. split; [vm_compute; reflexivity|]. by vm_compute. Qed.
