(* ===== verification/Homology.v ===== *)
(** * The boundary matrix of a complex, and what its reduction pairs

    The chain-complex facts behind [adic-finality/src/ph]: the matrix built by
    [BoundaryMatrix::from_complex] squares to zero over F2, and the reduction of such a
    matrix splits the simplices into births, deaths and essential classes. *)

From S2P Require Import Prelude F64 Simplex Matrix.

(** ** Every face of codimension two is reached twice *)

Definition all_faces {A} (l : list A) : list (list A) := (fun i => delete i l) <$> seq 0 (length l).
#[global] Arguments all_faces : simpl never.

Lemma all_faces_cons {A} (x : A) l : all_faces (x :: l) = l :: (cons x <$> all_faces l).
Proof.
  unfold all_faces. simpl. f_equal. rewrite <-fmap_S_seq, <-!list_fmap_compose. done.
Qed.

Lemma all_faces_twice {A} (l : list A) : exists E, concat (all_faces <$> all_faces l) ≡ₚ E ++ E.
Proof.
  induction l as [|x l [E IH]]; [by exists []|].
  exists (all_faces l ++ (cons x <$> E)). rewrite all_faces_cons, fmap_cons. cbn [concat].
  assert (forall fs : list (list A), concat (all_faces <$> (cons x <$> fs)) ≡ₚ
    fs ++ (cons x <$> concat (all_faces <$> fs))) as H.
  { induction fs as [|f fs IHfs]; [done|]. rewrite !fmap_cons. cbn [concat].
    rewrite all_faces_cons, IHfs, fmap_app. solve_Permutation. }
  rewrite H, IH, fmap_app. solve_Permutation.
Qed.

(** ** Parities as occurrence counts *)

Abbreviation occ x l := (count_occ Nat.eq_dec l x).

Lemma occ_Permutation x (l1 l2 : list nat) : l1 ≡ₚ l2 -> occ x l1 = occ x l2.
Proof.
  intros H. by apply (Permutation_count_occ Nat.eq_dec).
Qed.

Lemma occ_NoDup x (l : list nat) : NoDup l -> Nat.odd (occ x l) = bool_decide (x ∈ l).
Proof.
  intros Hnd. induction Hnd as [|y l Hy _ IH]; simpl; [done|].
  destruct (Nat.eq_dec y x) as [->|Hne].
  - rewrite bool_decide_true by (by left).
    replace (occ x l) with 0%nat; [done|]. symmetry. apply count_occ_not_In.
    by rewrite <-list_elem_of_In.
  - rewrite IH. apply bool_decide_ext. rewrite elem_of_cons. naive_solver.
Qed.

(** The parity of row [x] over the columns listed in [c] counts the occurrences of [x]. *)
Lemma parity_list D x (c : list nat) :
  NoDup c -> (forall i, i ∈ c -> NoDup (col_at D i)) ->
  parity D x (list_to_set c) = Nat.odd (occ x (concat (col_at D <$> c))).
Proof.
  intros Hnd Hcols. induction Hnd as [|i c Hi Hnd IH]; [apply parity_empty|].
  rewrite list_to_set_cons, fmap_cons. cbn [concat].
  rewrite count_occ_app, Nat.odd_add, <-IH by (intros; apply Hcols; by right).
  rewrite occ_NoDup, <-parity_singleton, <-parity_symdiff by (apply Hcols; by left).
  f_equal. set_solver.
Qed.

Lemma bool_decide_col D k c x b :
  D !! k = Some c -> (x ∈ c <-> b = true) -> bool_decide (x ∈ col_at D k) = b.
Proof.
  intros Hk Hx. assert (x ∈ col_at D k <-> b = true) as H by (unfold col_at; by rewrite Hk).
  case_bool_decide; [by symmetry; apply H|]. destruct b; [|done]. exfalso. naive_solver.
Qed.

Lemma parity_add D x i (V : gset nat) :
  i ∉ V -> parity D x ({[ i ]} ∪ V) = xorb (bool_decide (x ∈ col_at D i)) (parity D x V).
Proof. intros Hi. rewrite <-parity_singleton, <-parity_symdiff. f_equal. clear -Hi. set_solver. Qed.

(** ** The boundary of a boundary *)

Section boundary.
Context (c : SimplicialComplex).
Context (Hwf : complex_wf c) (Hcl : complex_closed c) (Hsi : complex_simple c).

Let D : list Column := columns (from_complex c).

Lemma from_complex_lookup j :
  D !! j = (fun s => nat_sort (omap (get_simplex_id c) (faces s))) <$> simplices c !! j.
Proof.
  unfold D, from_complex; simpl. rewrite list_lookup_fmap.
  destruct (simplices c !! j) as [s|] eqn:Hj; simpl; [|done].
  destruct (wf_simplex _ Hwf _ _ Hj) as [-> _]. unfold get_face_ids, get_simplex. by rewrite Hj.
Qed.

(** The ids of the faces of a simplex are distinct. *)
Lemma face_ids_NoDup s : s ∈ simplices c -> NoDup (omap (get_simplex_id c) (faces s)).
Proof.
  intros [j Hj]%list_elem_of_lookup.
  assert (NoDup (faces s)) as Hnd.
  { unfold faces. destruct (dimension s =? 0)%nat; [constructor|].
    assert (NoDup (vertices s)) as Hv by (by eapply Hsi). fold (all_faces (vertices s)).
    induction Hv as [|x l Hx Hv IH]; [constructor|]. rewrite all_faces_cons.
    constructor; [|by apply NoDup_fmap_2; [apply _|]].
    intros (f & -> & _)%list_elem_of_fmap. apply Hx. by left. }
  induction Hnd as [|f fs Hf Hnd IH]; simpl; [constructor|].
  destruct (get_simplex_id c f) as [i|] eqn:Hi; [|done]. constructor; [|done].
  intros (f' & Hf' & Hi')%list_elem_of_omap. apply Hf.
  apply (wf_index _ Hwf) in Hi as (t & Ht & <-). apply (wf_index _ Hwf) in Hi' as (t' & Ht' & <-).
  by simplify_eq.
Qed.

Lemma from_complex_sorted : matrix_sorted (from_complex c).
Proof.
  apply Forall_lookup. intros j col Hj. change (D !! j = Some col) in Hj.
  rewrite from_complex_lookup in Hj. apply fmap_Some in Hj as (s & Hs & ->).
  apply sorted_le_NoDup_lt; [apply nat_sort_sorted|]. rewrite nat_sort_Permutation.
  apply face_ids_NoDup, list_elem_of_lookup. eauto.
Qed.

(** The faces of a face, read off its vertex list. *)
Definition faces_of (f : list VertexId) : list (list VertexId) :=
  if (length f - 1 =? 0)%nat then [] else all_faces f.

Lemma faces_eq s : simplex_wf s -> faces s = faces_of (vertices s).
Proof. intros [_ Hd]. unfold faces, faces_of, all_faces. by rewrite Hd. Qed.

Lemma col_at_face f i : get_simplex_id c f = Some i -> col_at D i ≡ₚ omap (get_simplex_id c) (faces_of f).
Proof.
  intros Hi. apply (wf_index _ Hwf) in Hi as (t & Ht & <-).
  unfold col_at. rewrite from_complex_lookup, Ht. simpl.
  rewrite nat_sort_Permutation, faces_eq; [done|]. by destruct (wf_simplex _ Hwf _ _ Ht).
Qed.

Lemma concat_cols fs :
  (forall f, f ∈ fs -> is_Some (get_simplex_id c f)) ->
  concat (col_at D <$> omap (get_simplex_id c) fs) ≡ₚ omap (get_simplex_id c) (concat (faces_of <$> fs)).
Proof.
  induction fs as [|f fs IH]; intros Hall; simpl; [done|].
  destruct (Hall f ltac:(left)) as [i Hi]. rewrite Hi. simpl. rewrite omap_app.
  apply Permutation_app; [by apply col_at_face|]. apply IH. intros f' ?. apply Hall. by right.
Qed.

Lemma faces_of_twice s : simplex_wf s -> exists E, concat (faces_of <$> faces s) ≡ₚ E ++ E.
Proof.
  intros Hs. destruct (le_lt_dec (length (vertices s)) 2) as [Hlen|Hlen].
  - exists []. assert (forall f, f ∈ faces s -> faces_of f = []) as Hall.
    { intros f Hf. destruct (faces_sorted _ _ Hs Hf) as [_ Hl]. unfold faces_of.
      by replace (length f - 1 =? 0)%nat with true by (symmetry; apply Nat.eqb_eq; lia). }
    induction (faces s) as [|f fs IH]; simpl; [done|]. rewrite Hall by left. apply IH.
    intros; apply Hall; by right.
  - destruct (all_faces_twice (vertices s)) as [E HE]. exists E. rewrite <-HE.
    rewrite faces_eq by done. unfold faces_of at 2.
    replace (length (vertices s) - 1 =? 0)%nat with false by (symmetry; apply Nat.eqb_neq; lia).
    assert (forall f, f ∈ all_faces (vertices s) -> faces_of f = all_faces f) as Hall.
    { intros f (i & -> & Hi%elem_of_seq)%list_elem_of_fmap. unfold faces_of.
      rewrite length_delete by (apply lookup_lt_is_Some_2; lia).
      by replace (length (vertices s) - 1 - 1 =? 0)%nat with false by (symmetry; apply Nat.eqb_neq; lia). }
    clear HE. induction (all_faces (vertices s)) as [|f fs IH]; [done|].
    rewrite !fmap_cons. cbn [concat]. rewrite Hall by left.
    apply Permutation_app_head, IH. intros; apply Hall; by right.
Qed.

Lemma boundary_squared j col x : D !! j = Some col -> parity D x (list_to_set col) = false.
Proof.
  intros Hj. pose proof from_complex_sorted as Hsort. unfold matrix_sorted in Hsort. fold D in Hsort.
  rewrite Forall_lookup in Hsort. rewrite parity_list.
  2: { by eapply sorted_lt_NoDup, Hsort. }
  2: { intros i _. unfold col_at. destruct (D !! i) as [ci|] eqn:Hi; simpl; [|constructor].
       by eapply sorted_lt_NoDup, Hsort. }
  rewrite from_complex_lookup in Hj. apply fmap_Some in Hj as (s & Hs & ->).
  destruct (wf_simplex _ Hwf _ _ Hs) as [_ Hws]. destruct (faces_of_twice s Hws) as [E HE].
  rewrite (occ_Permutation x _ (omap (get_simplex_id c) E ++ omap (get_simplex_id c) E)).
  - rewrite count_occ_app, Nat.odd_add. by destruct (Nat.odd _).
  - rewrite <-omap_app, <-HE. rewrite <-concat_cols by (intros f Hf; unfold get_simplex_id; by eapply Hcl).
    by rewrite nat_sort_Permutation.
Qed.
End boundary.

(** ** Births, deaths and essential classes *)

Section pairing.
Context (D R : list Column).
Context (Hchain : forall j col x, D !! j = Some col -> parity D x (list_to_set col) = false).
Context (HR : is_reduction D R).

(** The sum of any columns of [D] is a cycle. *)
Lemma sum_is_cycle (V : gset nat) :
  exists S : gset nat, (forall x, x ∈ S <-> parity D x V = true) /\ forall x, parity D x S = false.
Proof.
  induction V as [|i V Hi (S & HS & Hcyc)] using set_ind_L.
  { exists ∅. split; [|intros; apply parity_empty]. intros x. rewrite parity_empty. set_solver. }
  set (T := list_to_set (col_at D i) : gset nat).
  assert (forall x, parity D x T = false) as HT.
  { intros x. subst T. unfold col_at. destruct (D !! i) eqn:E; simpl; [by eapply Hchain|apply parity_empty]. }
  exists ((T ∖ S) ∪ (S ∖ T)). split.
  - intros x. rewrite parity_add by done.
    rewrite elem_of_union, !elem_of_difference, HS. subst T. rewrite elem_of_list_to_set.
    case_bool_decide; destruct (parity D x V); simpl; intuition congruence.
  - intros x. by rewrite parity_symdiff, HT, Hcyc.
Qed.

(** Sums of the first [k] columns of [D] are sums of the first [k] columns of [R]. *)
Lemma span_reduced k (W : gset nat) :
  (k <= length D)%nat -> (forall i, i ∈ W -> (i < k)%nat) ->
  exists U : gset nat, (forall i, i ∈ U -> (i < k)%nat) /\ forall x, parity D x W = parity R x U.
Proof.
  destruct HR as (HRl & HRc & _).
  revert W; induction k as [|k IH]; intros W Hk HW.
  { exists ∅. split; [set_solver|]. replace W with (∅ : gset nat) by set_solver by lia. intros; by rewrite !parity_empty. }
  destruct (decide (k ∈ W)) as [Hin|Hnin].
  2: { destruct (IH W) as (U & HU & Hpar); [lia| |].
       - intros i Hi. specialize (HW i Hi). assert (i <> k) by (by intros ->). lia.
       - exists U. split; [|done]. intros i Hi. specialize (HU i Hi). lia. }
  destruct (lookup_lt_is_Some_2 R k) as [c Hc]; [lia|].
  destruct (HRc k c Hc) as [_ (V & HkV & HV & Hx)].
  destruct (IH ((W ∖ V) ∪ (V ∖ W))) as (U & HU & Hpar); [lia| |].
  { intros i [[Hi Hn]%elem_of_difference|[Hi Hn]%elem_of_difference]%elem_of_union.
    - specialize (HW i Hi). assert (i <> k) by (by intros ->). lia.
    - specialize (HV i Hi). assert (i <> k) by (by intros ->). lia. }
  exists ({[k]} ∪ U). split; [intros i [->%elem_of_singleton|Hi]%elem_of_union; [lia|]; specialize (HU i Hi); lia|].
  intros x. rewrite parity_add by (intros Hn; specialize (HU k Hn); lia).
  rewrite <-Hpar, parity_symdiff.
  rewrite (bool_decide_col R k c x (parity D x V)) by done.
  by destruct (parity D x W), (parity D x V).
Qed.

(** Columns with distinct pivots are independent: a sum that contains a non-zero one is not zero. *)
Lemma reduced_independent (U : gset nat) p c :
  p ∈ U -> R !! p = Some c -> c <> [] -> exists x, parity R x U = true.
Proof.
  destruct HR as (_ & HRc & Hpiv). intros Hp Hc Hne.
  set (piv := fun i => default 0%nat (last (col_at R i))).
  set (T := filter (fun i => col_at R i <> []) U).
  set (higher := fun i j : nat => (piv j <= piv i)%nat).
  assert (Transitive higher) by (intros ? ? ? ? ?; unfold higher in *; lia).
  assert (forall i j, Decision (higher i j)) by (intros; unfold higher; apply _).
  destruct (minimal_exists_elem_of_L higher T) as (m & Hm & Hmax).
  { assert (p ∈ T); [|set_solver]. apply elem_of_filter. split; [|done]. unfold col_at. by rewrite Hc. }
  apply elem_of_filter in Hm as [Hmne HmU].
  unfold col_at in Hmne. destruct (R !! m) as [cm|] eqn:Em; [|done]. simpl in Hmne.
  destruct (last cm) as [q|] eqn:Eq; [|by apply last_None in Eq].
  exists q. unfold parity. replace (filter (fun i => q ∈ col_at R i) U) with ({[m]} : gset nat); [by rewrite size_singleton|].
  apply set_eq. intros i. rewrite elem_of_singleton, elem_of_filter. split.
  - intros ->. split; [|done]. unfold col_at. rewrite Em. simpl.
    by destruct (sorted_last_max cm q (proj1 (HRc _ _ Em)) Eq).
  - intros [Hqi HiU]. assert (i ∈ T) as HiT.
    { apply elem_of_filter. split; [|done]. intros Hnil. rewrite Hnil in Hqi. by apply elem_of_nil in Hqi. }
    unfold col_at in Hqi. destruct (R !! i) as [ci|] eqn:Ei; [|by apply elem_of_nil in Hqi]. simpl in Hqi.
    destruct (last ci) as [r|] eqn:Er; [|apply last_None in Er; subst ci; by apply elem_of_nil in Hqi].
    destruct (sorted_last_max ci r (proj1 (HRc _ _ Ei)) Er) as [_ Hr]. specialize (Hr q Hqi).
    specialize (Hmax i HiT). unfold higher, piv, col_at in Hmax. rewrite Em, Ei in Hmax. simpl in Hmax.
    rewrite Eq, Er in Hmax. simpl in Hmax. eapply (Hpiv i m ci cm q); try done. rewrite Er. f_equal. lia.
Qed.

(** A simplex that is the pivot of a column has a zero column itself: a birth is no death. *)
Lemma pivot_column_zero j cj p cp :
  R !! j = Some cj -> last cj = Some p -> R !! p = Some cp -> cp = [].
Proof.
  pose proof HR as (HRl & HRc & _). intros Hj Hlast Hp.
  destruct (decide (cp = [])) as [|Hne]; [done|exfalso].
  destruct (HRc _ _ Hj) as [Hsj (V & _ & _ & HxV)].
  destruct (sum_is_cycle V) as (S & HS & Hcyc).
  assert (forall x, x ∈ S <-> x ∈ cj) as HSj by (intros x; by rewrite HS, HxV).
  destruct (sorted_last_max cj p Hsj Hlast) as [Hpin Hpmax].
  destruct (HRc _ _ Hp) as [_ (W & HpW & HW & HxW)].
  assert (p < length D)%nat by (rewrite <-HRl; by eapply lookup_lt_Some).
  destruct (span_reduced p ((S ∖ W) ∪ (W ∖ S))) as (U & HU & Hpar); [lia| |].
  { intros i [[Hi Hn]%elem_of_difference|[Hi Hn]%elem_of_difference]%elem_of_union.
    - assert (i <> p) by (by intros ->). apply HSj in Hi. specialize (Hpmax i Hi). lia.
    - assert (i <> p) by (intros ->; apply Hn, HSj, Hpin). specialize (HW i Hi). lia. }
  destruct (reduced_independent ({[p]} ∪ U) p cp) as [x Hx]; [set_solver|done..|].
  revert Hx. apply not_true_iff_false.
  rewrite parity_add by (intros Hn; specialize (HU p Hn); lia).
  rewrite <-Hpar, parity_symdiff, Hcyc.
  rewrite (bool_decide_col R p cp x (parity D x W)) by done.
  by destruct (parity D x W).
Qed.
End pairing.

(** ** Properties *)

(** The sum over F2 of a list of columns, computed with the code's merge. *)
Definition sum_columns (cs : list Column) : Column := foldr xor_lists [] cs.

Lemma sum_columns_spec cs :
  Forall sorted_col cs ->
  sorted_col (sum_columns cs) /\ forall x, x ∈ sum_columns cs <-> Nat.odd (occ x (concat cs)) = true.
Proof.
  induction 1 as [|c cs Hc _ [IHs IHx]]; simpl.
  { split; [constructor|]. intros x. split; [by intros ?%elem_of_nil|done]. }
  split; [by apply xor_lists_sorted|]. intros x.
  rewrite elem_of_xor_lists, IHx, count_occ_app, Nat.odd_add by done.
  rewrite (occ_NoDup x c) by (by apply sorted_lt_NoDup).
  case_bool_decide; destruct (Nat.odd (occ x (concat cs))); simpl; intuition congruence.
Qed.

(** the boundary of a boundary is zero: in the matrix of a valid complex every column is
    strictly sorted, and adding over F2 the columns of the faces of any simplex gives the empty
    column. *)
Theorem boundary_of_boundary (c : SimplicialComplex)
    (Hwf : complex_wf c) (Hcl : complex_closed c) (Hsi : complex_simple c) :
  let m := from_complex c in
  matrix_sorted m /\
  forall j col, get_column m j = Some col -> sum_columns (col_at (columns m) <$> col) = [].
Proof.
  simpl. pose proof (from_complex_sorted c Hwf Hsi) as Hs. split; [done|]. intros j col Hj.
  assert (forall i, sorted_col (col_at (columns (from_complex c)) i)) as Hcols.
  { intros i. unfold matrix_sorted in Hs. rewrite Forall_lookup in Hs. unfold col_at.
    destruct (columns (from_complex c) !! i) eqn:E; simpl; [by eapply Hs|constructor]. }
  destruct (sum_columns_spec (col_at (columns (from_complex c)) <$> col)) as [_ Hx].
  { apply Forall_fmap, Forall_true. intros i. apply Hcols. }
  destruct (sum_columns _) as [|x l] eqn:E; [done|exfalso].
  pose proof (boundary_squared c Hwf Hcl Hsi j col x Hj) as Hp.
  rewrite parity_list in Hp.
  - assert (x ∈ x :: l) as Hin by left. apply Hx in Hin. congruence.
  - apply sorted_lt_NoDup. unfold matrix_sorted in Hs. rewrite Forall_lookup in Hs. by eapply Hs.
  - intros i _. apply sorted_lt_NoDup, Hcols.
Qed.

Lemma boundary_of_boundary_witness :
  let m := from_complex (build_complex [([0; 1; 2]%nat, f64_of_Z 1)]) in
  matrix_sorted m /\
  forall j col, get_column m j = Some col -> sum_columns (col_at (columns m) <$> col) = [].
Proof.
  destruct (build_complex_ok [([0; 1; 2]%nat, f64_of_Z 1)]) as (Hwf & Hcl & Hsi & _).
  { repeat constructor; set_solver. }
  apply (boundary_of_boundary (build_complex [([0; 1; 2]%nat, f64_of_Z 1)])); done.
Defined.

(** What [sort_by_filtration] establishes: faces come before the simplices they bound. *)
Definition filtration_ordered (c : SimplicialComplex) : Prop :=
  forall j i, i ∈ get_face_ids c j -> (i < j)%nat.

Lemma combination_bound D j col x :
  (forall i ci y, D !! i = Some ci -> y ∈ ci -> (y < i)%nat) ->
  is_combination D j col -> x ∈ col -> (x < j)%nat.
Proof.
  intros HD (V & _ & HV & Hx) Hin. apply Hx in Hin. unfold parity in Hin.
  destruct (decide (filter (fun i => x ∈ col_at D i) V = ∅)) as [He|Hne].
  { rewrite He, size_empty in Hin. done. }
  apply set_choose_L in Hne as [i [Hxi HiV]%elem_of_filter]. specialize (HV i HiV).
  unfold col_at in Hxi. destruct (D !! i) as [ci|] eqn:E; [|by apply elem_of_nil in Hxi].
  specialize (HD i ci x E Hxi). lia.
Qed.

(** The decision procedure for [filtration_ordered]. *)
Definition filtration_orderedb (c : SimplicialComplex) : bool :=
  forallb (fun j => forallb (fun i => (i <? j)%nat) (get_face_ids c j)) (seq 0 (num_simplices c)).

Lemma filtration_orderedb_correct c : filtration_orderedb c = true -> filtration_ordered c.
Proof.
  unfold filtration_orderedb. rewrite forallb_forall. intros H j i Hi.
  destruct (decide (j < num_simplices c)%nat) as [Hj|Hj].
  - specialize (H j ltac:(apply in_seq; lia)). rewrite forallb_forall in H.
    apply Nat.ltb_lt, H, list_elem_of_In, Hi.
  - unfold get_face_ids, get_simplex, num_simplices in *. rewrite lookup_ge_None_2 in Hi by lia.
    by apply elem_of_nil in Hi.
Qed.

(** ** The reduction respects dimensions *)

Section grading.
Context (dm : nat -> nat).

(** Every entry of column [j] is one dimension below [j]. *)
Definition graded (m : BoundaryMatrix) : Prop :=
  forall j c x, columns m !! j = Some c -> x ∈ c -> S (dm x) = dm j.

Lemma graded_xor D m k pivot other :
  reducing D m k (S k) -> graded m ->
  lowest_face m k = Some pivot -> pivot_map m !! pivot = Some other -> graded (xor_columns m k other).
Proof.
  intros [_ Hc Hp _] Hg Hlow Hfind.
  apply Hp in Hfind as [_ Hlo]. apply lowest_face_Some in Hlow as (t & Ht & Hlt).
  apply lowest_face_Some in Hlo as (s & Hs & Hls).
  destruct (Hc _ _ Ht) as [Hst _], (Hc _ _ Hs) as [Hss _].
  assert (dm k = dm other) as Hd.
  { rewrite <-(Hg k t pivot), <-(Hg other s pivot); try done; by eapply sorted_last_max. }
  unfold xor_columns. rewrite Ht, Hs. intros j c x Hj Hx. simpl in Hj.
  apply list_lookup_insert_Some in Hj as [(<- & <- & _)|[_ Hj]]; [|by eapply Hg].
  apply elem_of_xor_lists in Hx as [[Hx _]|[_ Hx]]; [by eapply Hg|rewrite Hd; by eapply Hg|done..].
Qed.

Lemma reduce_column_graded fuel D m k m' :
  (k < length D)%nat -> reducing D m k (S k) -> graded m ->
  reduce_column fuel m k = Some m' -> graded m'.
Proof.
  intros Hk. revert m; induction fuel as [|fuel IH]; intros m Hrd Hg;
    cbn [reduce_column]; unfold update_pivot; destruct (lowest_face m k) as [pivot|] eqn:Hlow;
    try (intros [= <-]; exact Hg);
    unfold find_column_with_pivot; destruct (pivot_map m !! pivot) as [other|] eqn:Hfind;
    try discriminate; try (intros [= <-]; exact Hg).
  apply IH; [by eapply reducing_xor|by eapply graded_xor].
Qed.

Lemma reduce_range_graded len D m k m' :
  (k + len <= length D)%nat -> reducing D m k k -> graded m ->
  reduce_range m (seq k len) = Some m' -> graded m'.
Proof.
  revert m k; induction len as [|len IH]; intros m k Hle Hrd Hg; simpl; [by intros [= <-]|].
  destruct (reduce_column_ok (column_fuel m k) D m k) as (m1 & E & Hrd'); [lia|..].
  - eapply reducing_widen; [|done]. lia.
  - intros p Hp. unfold column_fuel. rewrite Hp. lia.
  - rewrite E. apply IH; [lia|done|].
    eapply (reduce_column_graded (column_fuel m k) D m k); [lia| |done..]. eapply reducing_widen; [|done]. lia.
Qed.
End grading.

Definition dim_at (c : SimplicialComplex) (j : nat) : nat := default 0%nat (dimension <$> simplices c !! j).

Lemma from_complex_graded c : complex_wf c -> graded (dim_at c) (from_complex c).
Proof.
  intros Hwf j col x Hj Hx. rewrite from_complex_lookup in Hj by done.
  apply fmap_Some in Hj as (s & Hs & ->). rewrite nat_sort_Permutation in Hx.
  apply list_elem_of_omap in Hx as (f & Hf & Hi). unfold get_simplex_id in Hi.
  apply (wf_index _ Hwf) in Hi as (t & Ht & <-). unfold dim_at. rewrite Hs, Ht. simpl.
  destruct (wf_simplex _ Hwf _ _ Hs) as [_ Hws], (wf_simplex _ Hwf _ _ Ht) as [_ [_ Hdt]].
  pose proof (faces_sorted _ _ Hws Hf) as [_ Hl]. apply elem_of_faces in Hf as [Hne _].
  destruct Hws as [_ Hds]. lia.
Qed.

(** What [build_from_messages] has to establish: a valid complex in filtration order. *)
Record filtration (c : SimplicialComplex) : Prop := {
  fl_wf : complex_wf c;
  fl_closed : complex_closed c;
  fl_simple : complex_simple c;
  fl_ordered : filtration_ordered c;
}.

(** The complex of the three edges of a triangle, used as an example below. *)
Definition hollow_triangle : SimplicialComplex :=
  build_complex [([0; 1]%nat, f64_of_Z 1); ([1; 2]%nat, f64_of_Z 2); ([0; 2]%nat, f64_of_Z 3)].

Lemma hollow_triangle_filtration : filtration hollow_triangle.
Proof.
  destruct (build_complex_ok [([0; 1]%nat, f64_of_Z 1); ([1; 2]%nat, f64_of_Z 2); ([0; 2]%nat, f64_of_Z 3)])
    as (Hwf & Hcl & Hsi & _); [repeat constructor; set_solver|].
  split; [done..|]. apply filtration_orderedb_correct. by vm_compute.
Qed.

(** ** Births, deaths and essential classes of a complex *)

Record persistence_split (c : SimplicialComplex) (r : ReductionResult) : Prop := {
  ps_total : forall j, (j < num_simplices c)%nat ->
    is_Some (pairs r !! j) \/ (exists d, pairs r !! d = Some j) \/ j ∈ unpaired r;
  ps_pair : forall d b, pairs r !! d = Some b ->
    (b < d < num_simplices c)%nat /\ pairs r !! b = None /\ b ∉ unpaired r /\ d ∉ unpaired r /\
    dim_at c d = S (dim_at c b) /\ forall d', pairs r !! d' = Some b -> d' = d;
  ps_unpaired : StronglySorted lt (unpaired r) /\ forall j, j ∈ unpaired r -> (j < num_simplices c)%nat;
}.

Lemma persistence_split_ok (c : SimplicialComplex) :
  filtration c -> exists r, reduce_boundary_matrix (from_complex c) = Some r /\ persistence_split c r.
Proof.
  intros [Hwf Hcl Hsi Hord].
  pose proof (from_complex_sorted c Hwf Hsi) as Hs. set (D := columns (from_complex c)).
  assert (length D = num_simplices c) as HlenD by (unfold D, from_complex; simpl; apply length_fmap).
  destruct (reduce_boundary_matrix_ok D ∅ Hs) as (m & Hrange & Hrd & Hr).
  change (mkMatrix D ∅) with (from_complex c) in Hr. rewrite Hr. eexists. split; [done|]. simpl.
  pose proof (fun j p => reducing_pairs D m j p Hrd) as Hpairs.
  pose proof (reducing_is_reduction D m Hrd) as HR.
  assert (graded (dim_at c) m) as Hgr.
  { eapply (reduce_range_graded (dim_at c) (length D) D); [| |by apply from_complex_graded|exact Hrange]; [done|].
    by apply reducing_start. }
  split; simpl.
  - intros j Hj. rewrite elem_of_extract_unpaired.
    destruct (extract_pairs (pivot_map m) !! j) as [p|] eqn:E; [by left; eexists|].
    destruct (decide (j ∈ (map_to_list (extract_pairs (pivot_map m))).*2)) as [Hin|Hnin].
    { apply list_elem_of_fmap in Hin as ([d b] & -> & Hd%elem_of_map_to_list). right; left. by exists d. }
    right; right. split_and!; [lia|done|]. intros d Hd. apply Hnin, list_elem_of_fmap.
    exists (d, j). split; [done|]. by apply elem_of_map_to_list.
  - intros d b Hd. pose proof Hd as Hlow. rewrite Hpairs in Hlow.
    apply lowest_face_Some in Hlow as (cd & Hcd & Hlast).
    pose proof HR as (HlenR & HRc & Hpiv). destruct (HRc _ _ Hcd) as [Hscd Hcomb].
    destruct (sorted_last_max _ _ Hscd Hlast) as [Hbin _].
    assert (b < d)%nat as Hbd.
    { eapply (combination_bound D); [|exact Hcomb|exact Hbin]. intros i ci y Hi Hy.
      apply (Hord i). unfold D in Hi. rewrite from_complex_lookup in Hi by done.
      apply fmap_Some in Hi as (s & Hsi' & ->). unfold get_face_ids, get_simplex. rewrite Hsi'.
      by rewrite nat_sort_Permutation in Hy. }
    assert (d < length D)%nat by (rewrite <-HlenR; by eapply lookup_lt_Some).
    destruct (lookup_lt_is_Some_2 (columns m) b) as [cb Hcb]; [lia|].
    assert (cb = []) as -> by (by apply (pivot_column_zero D (columns m) (boundary_squared c Hwf Hcl Hsi) HR d cd b cb)).
    split_and!; [done|lia|..].
    + apply eq_None_not_Some. intros [q Hq]. apply Hpairs, lowest_face_Some in Hq as (? & ? & ?). by simplify_eq.
    + rewrite elem_of_extract_unpaired. intros (_ & _ & Hn). by eapply Hn.
    + rewrite elem_of_extract_unpaired. intros (_ & Hn & _). congruence.
    + symmetry. by eapply Hgr.
    + intros d' Hd'. apply Hpairs, lowest_face_Some in Hd' as (c' & Hc' & Hl'). by eapply Hpiv.
  - split; [apply extract_unpaired_sorted|]. intros j (Hj & _)%elem_of_extract_unpaired. by rewrite <-HlenD.
Qed.

(** C38: Persistence pairing: reducing the matrix of a filtered complex puts every simplex in
    exactly one of three classes, the deaths (keys of [pairs]), the births (values of [pairs])
    and the essential classes ([unpaired]); a birth precedes its death, has one dimension less
    and is paired once. *)
Theorem persistence_pairing (c : SimplicialComplex) (Hc : filtration c) :
  exists r, reduce_boundary_matrix (from_complex c) = Some r /\ persistence_split c r.
Proof. by apply persistence_split_ok. Qed.

Lemma persistence_pairing_witness :
  exists r, reduce_boundary_matrix (from_complex hollow_triangle) = Some r /\
    persistence_split hollow_triangle r.
Proof. apply (persistence_pairing hollow_triangle), hollow_triangle_filtration. Defined.
