(* ===== verification/Persistence.v ===== *)
(** * Persistence diagrams and Betti numbers

    [adic-finality/src/ph/persistence.rs].  [from_reduction] walks the pairs of a reduction in
    the order of a [HashMap]'s iterator, which the language leaves open: that order is an
    argument here, and the theorems hold for every permutation of the map's entries. *)

From S2P Require Import Prelude F64 Simplex Matrix Homology.

Record PersistenceInterval := mkInterval {
  pi_birth : Weight;
  pi_death : option Weight;
  pi_dimension : nat;
}.

Definition interval_finite (birth death : Weight) (d : nat) : PersistenceInterval :=
  mkInterval birth (Some death) d.
Definition interval_infinite (birth : Weight) (d : nat) : PersistenceInterval :=
  mkInterval birth None d.

Definition persistence (i : PersistenceInterval) : option Weight :=
  (fun d => f64_sub d (pi_birth i)) <$> pi_death i.
Definition interval_is_infinite (i : PersistenceInterval) : bool :=
  match pi_death i with None => true | Some _ => false end.
Definition midpoint (i : PersistenceInterval) : Weight * Weight :=
  match pi_death i with
  | Some d => (pi_birth i, d)
  | None => (pi_birth i, f64_add (pi_birth i) (f64_of_Z 1000))
  end.

Record PersistenceDiagram := mkDiagram {
  pd_dimension : nat;
  pd_intervals : list PersistenceInterval;
}.

Definition diagram_new (d : nat) : PersistenceDiagram := mkDiagram d [].

(** [assert_eq!(interval.dimension, self.dimension)]. *)
Definition add_interval (dg : PersistenceDiagram) (i : PersistenceInterval)
    : result Empty_set PersistenceDiagram :=
  if (pi_dimension i =? pd_dimension dg)%nat
  then Ok (mkDiagram (pd_dimension dg) (pd_intervals dg ++ [i]))
  else Panic.

Definition num_intervals (dg : PersistenceDiagram) : nat := length (pd_intervals dg).
Definition num_infinite (dg : PersistenceDiagram) : nat :=
  length (List.filter interval_is_infinite (pd_intervals dg)).
Definition num_finite (dg : PersistenceDiagram) : nat :=
  length (List.filter (fun i => negb (interval_is_infinite i)) (pd_intervals dg)).
Definition betti_number (dg : PersistenceDiagram) : nat := num_infinite dg.

Definition filter_by_persistence (dg : PersistenceDiagram) (min_persistence : Weight)
    : list PersistenceInterval :=
  List.filter (fun i => match persistence i with
                   | Some p => f64_geb p min_persistence
                   | None => true
                   end) (pd_intervals dg).

Definition finite_points (dg : PersistenceDiagram) : list (Weight * Weight) :=
  omap (fun i => (fun d => (pi_birth i, d)) <$> pi_death i) (pd_intervals dg).

Record PersistenceData := mkData {
  diagrams : gmap nat PersistenceDiagram;
  max_dimension : nat;
}.

Definition data_new : PersistenceData := mkData ∅ 0.

(** [diagrams.entry(dimension).or_insert_with(..).add_interval(interval)] and the running
    maximum, the common tail of the two loops. *)
Definition record_interval (data : PersistenceData) (i : PersistenceInterval)
    : result Empty_set PersistenceData :=
  let d := pi_dimension i in
  let dg := default (diagram_new d) (diagrams data !! d) in
  let? dg := add_interval dg i in
  Ok (mkData (<[d := dg]> (diagrams data)) (Nat.max (max_dimension data) d)).

(** The two loop bodies: look the simplices up ([unwrap]) and build the interval. *)
Definition pair_interval (c : SimplicialComplex) (pr : ColIndex * RowIndex)
    : result Empty_set PersistenceInterval :=
  match get_simplex c pr.1, get_simplex c pr.2 with
  | Some death_simplex, Some birth_simplex =>
      Ok (interval_finite (weight birth_simplex) (weight death_simplex) (dimension birth_simplex))
  | _, _ => Panic
  end.

Definition essential_interval (c : SimplicialComplex) (col : ColIndex)
    : result Empty_set PersistenceInterval :=
  match get_simplex c col with
  | Some s => Ok (interval_infinite (weight s) (dimension s))
  | None => Panic
  end.

Fixpoint record_all {A} (mk : A -> result Empty_set PersistenceInterval) (l : list A)
    (data : PersistenceData) : result Empty_set PersistenceData :=
  match l with
  | [] => Ok data
  | a :: l => let? i := mk a in let? data := record_interval data i in record_all mk l data
  end.

(** [pair_order] is the order in which the iterator of [pairs] yields its entries. *)
Definition from_reduction (pair_order : list (ColIndex * RowIndex)) (r : ReductionResult)
    (c : SimplicialComplex) : result Empty_set PersistenceData :=
  let? data := record_all (pair_interval c) pair_order data_new in
  record_all (essential_interval c) (unpaired r) data.

Definition get_diagram (data : PersistenceData) (d : nat) : option PersistenceDiagram :=
  diagrams data !! d.

Definition betti_numbers (data : PersistenceData) : list nat :=
  (fun d => default 0%nat (betti_number <$> diagrams data !! d)) <$> seq 0 (S (max_dimension data)).

Definition is_stable_at (data : PersistenceData) (d : nat) (time : Weight) : bool :=
  match get_diagram data d with
  | Some dg =>
      forallb (fun i => match pi_death i with Some t => f64_leb t time | None => true end)
        (List.filter (fun i => negb (interval_is_infinite i)) (pd_intervals dg)) &&
      forallb (fun i => f64_leb (pi_birth i) time)
        (List.filter interval_is_infinite (pd_intervals dg))
  | None => true
  end.

(** ** The diagrams as functions of the recorded intervals *)

Definition of_dim (d : nat) (l : list PersistenceInterval) : list PersistenceInterval :=
  filter (fun i => pi_dimension i = d) l.

(** [data] is what recording the intervals of [l], in this order, leaves behind. *)
Record records (l : list PersistenceInterval) (data : PersistenceData) : Prop := {
  rec_diagram : forall d, diagrams data !! d =
    match of_dim d l with [] => None | il => Some (mkDiagram d il) end;
  rec_max : max_dimension data = foldr Nat.max 0%nat (pi_dimension <$> l);
}.

Lemma records_new : records [] data_new.
Proof. done. Qed.

Lemma foldr_max_app l1 l2 :
  foldr Nat.max 0%nat (l1 ++ l2) = Nat.max (foldr Nat.max 0%nat l1) (foldr Nat.max 0%nat l2).
Proof. induction l1 as [|x l1 IH]; simpl; [done|]. rewrite IH. lia. Qed.

Lemma foldr_max_le x l : x ∈ l -> (x <= foldr Nat.max 0 l)%nat.
Proof. induction l as [|y l IH]; [by intros ?%elem_of_nil|]. intros [->|H]%elem_of_cons; simpl; [lia|]. specialize (IH H). lia. Qed.

Lemma record_interval_ok l data i :
  records l data -> exists data', record_interval data i = Ok data' /\ records (l ++ [i]) data'.
Proof.
  intros [Hd Hm]. unfold record_interval. set (d := pi_dimension i).
  assert (default (diagram_new d) (diagrams data !! d) = mkDiagram d (of_dim d l)) as ->.
  { rewrite Hd. by destruct (of_dim d l). }
  unfold add_interval; simpl. fold d. rewrite Nat.eqb_refl. cbn [result_bind].
  eexists. split; [done|]. split; simpl.
  - intros d'. unfold of_dim in *. rewrite filter_app, lookup_insert. case_decide as E.
    + subst d'. rewrite filter_cons_True, filter_nil by done. by destruct (filter _ l).
    + rewrite filter_cons_False, filter_nil, app_nil_r by (intros Hx; apply E; exact Hx). apply Hd.
  - rewrite fmap_app, foldr_max_app, Hm. simpl. fold d. lia.
Qed.

Lemma record_all_ok {A} (mk : A -> result Empty_set PersistenceInterval) (f : A -> PersistenceInterval) l :
  (forall a, a ∈ l -> mk a = Ok (f a)) -> forall l0 data, records l0 data ->
  exists data', record_all mk l data = Ok data' /\ records (l0 ++ (f <$> l)) data'.
Proof.
  induction l as [|a l IH]; intros Hmk l0 data Hr; simpl.
  { exists data. by rewrite app_nil_r. }
  rewrite Hmk by left. cbn [result_bind].
  destruct (record_interval_ok l0 data (f a) Hr) as (data1 & -> & Hr1). cbn [result_bind].
  destruct (IH ltac:(intros; apply Hmk; by right) (l0 ++ [f a]) data1 Hr1) as (data2 & -> & Hr2).
  exists data2. split; [done|]. by rewrite <-app_assoc in Hr2.
Qed.

Definition weight_at (c : SimplicialComplex) (j : nat) : Weight :=
  default f64_zero (weight <$> simplices c !! j).

Definition interval_of_pair (c : SimplicialComplex) (pr : ColIndex * RowIndex) : PersistenceInterval :=
  interval_finite (weight_at c pr.2) (weight_at c pr.1) (dim_at c pr.2).
Definition interval_of_column (c : SimplicialComplex) (j : ColIndex) : PersistenceInterval :=
  interval_infinite (weight_at c j) (dim_at c j).

(** Every interval the reduction of a filtration gives rise to. *)
Definition all_intervals (c : SimplicialComplex) (pair_order : list (nat * nat)) (r : ReductionResult) :=
  (interval_of_pair c <$> pair_order) ++ (interval_of_column c <$> unpaired r).

(** The diagrams exist as soon as every index of the reduction names a simplex. *)
Lemma from_reduction_total c r pair_order :
  (forall d b, pairs r !! d = Some b -> (d < num_simplices c /\ b < num_simplices c)%nat) ->
  (forall j, j ∈ unpaired r -> (j < num_simplices c)%nat) ->
  pair_order ≡ₚ map_to_list (pairs r) ->
  exists data, from_reduction pair_order r c = Ok data /\ records (all_intervals c pair_order r) data.
Proof.
  intros Hp Hu Hperm. unfold from_reduction.
  assert (forall j, (j < num_simplices c)%nat -> exists s, simplices c !! j = Some s) as Hs
    by (intros j Hj; by apply lookup_lt_is_Some_2).
  destruct (record_all_ok (pair_interval c) (interval_of_pair c) pair_order) with (l0 := @nil PersistenceInterval) (data := data_new)
    as (data1 & -> & Hr1); [|apply records_new|].
  { intros [d b] Hin. rewrite Hperm in Hin. apply elem_of_map_to_list in Hin.
    destruct (Hp d b Hin). destruct (Hs d) as [sd Hd]; [done|]. destruct (Hs b) as [sb Hb]; [done|].
    unfold pair_interval, interval_of_pair, get_simplex, weight_at, dim_at; simpl. by rewrite Hd, Hb. }
  cbn [result_bind].
  destruct (record_all_ok (essential_interval c) (interval_of_column c) (unpaired r)) with (l0 := interval_of_pair c <$> pair_order) (data := data1)
    as (data2 & -> & Hr2); [|done|by exists data2].
  intros j Hin. destruct (Hs j) as [s Hj]; [by apply Hu|].
  unfold essential_interval, interval_of_column, get_simplex, weight_at, dim_at. by rewrite Hj.
Qed.

Lemma from_reduction_ok c r pair_order :
  persistence_split c r -> pair_order ≡ₚ map_to_list (pairs r) ->
  exists data, from_reduction pair_order r c = Ok data /\ records (all_intervals c pair_order r) data.
Proof.
  intros [_ Hp [_ Hu]] Hperm. apply from_reduction_total; [|done|done].
  intros d b Hd. destruct (Hp d b Hd) as [? _]. lia.
Qed.

(** The betti numbers in terms of the recorded intervals. *)
Lemma betti_numbers_records l data d :
  records l data ->
  default 0%nat (betti_numbers data !! d) = length (filter (fun i => interval_is_infinite i = true) (of_dim d l)).
Proof.
  intros [Hd Hm]. unfold betti_numbers. rewrite list_lookup_fmap.
  destruct (decide (d < S (max_dimension data))%nat) as [Hlt|Hge].
  - rewrite lookup_seq_lt by done. simpl. rewrite Hd.
    destruct (of_dim d l) as [|i il]; [done|]. simpl. unfold betti_number, num_infinite.
    by rewrite list_filter_bool.
  - rewrite lookup_ge_None_2 by (rewrite length_seq; lia). simpl.
    replace (of_dim d l) with (@nil PersistenceInterval); [done|].
    destruct (of_dim d l) as [|i il] eqn:E; [done|]. exfalso.
    assert (i ∈ of_dim d l) as [Hdi Hi]%list_elem_of_filter by (rewrite E; left).
    assert (d <= foldr Nat.max 0 (pi_dimension <$> l))%nat; [|lia].
    apply foldr_max_le. subst d. by apply list_elem_of_fmap_2.
Qed.

(** The essential classes of dimension [d]. *)
Definition essential (c : SimplicialComplex) (r : ReductionResult) (d : nat) : list nat :=
  filter (fun j => dim_at c j = d) (unpaired r).

Lemma infinite_of_dim c pair_order r d :
  length (filter (fun i => interval_is_infinite i = true) (of_dim d (all_intervals c pair_order r))) =
  length (essential c r d).
Proof.
  unfold of_dim, all_intervals, essential. rewrite !filter_app, length_app.
  replace (filter _ (filter _ (interval_of_pair c <$> pair_order))) with (@nil PersistenceInterval); simpl.
  - induction (unpaired r) as [|j l IH]; [done|]. rewrite fmap_cons, !filter_cons. simpl.
    destruct (decide (dim_at c j = d)); [|done]. rewrite filter_cons_True by done. simpl. by rewrite IH.
  - induction pair_order as [|pr l IH]; [done|]. rewrite fmap_cons, filter_cons. simpl.
    case_decide; [|done]. by rewrite filter_cons_False.
Qed.

Lemma from_reduction_betti c r pair_order data d :
  records (all_intervals c pair_order r) data ->
  default 0%nat (betti_numbers data !! d) = length (essential c r d).
Proof. intros Hr. by rewrite (betti_numbers_records _ _ _ Hr), infinite_of_dim. Qed.

(** The time by which an interval is settled: its death, or its birth if it never dies. *)
Definition settled (i : PersistenceInterval) (time : Weight) : bool :=
  f64_leb (default (pi_birth i) (pi_death i)) time.

Lemma is_stable_records l data d time :
  records l data ->
  is_stable_at data d time = true <-> forall i, i ∈ l -> pi_dimension i = d -> settled i time = true.
Proof.
  intros [Hd _]. unfold is_stable_at, get_diagram. rewrite Hd.
  transitivity (forall i, i ∈ of_dim d l -> settled i time = true).
  - assert (forall il, forallb (fun i => match pi_death i with Some t => f64_leb t time | None => true end)
        (List.filter (fun i => negb (interval_is_infinite i)) il) &&
      forallb (fun i => f64_leb (pi_birth i) time) (List.filter interval_is_infinite il) = true <->
      forall i, i ∈ il -> settled i time = true) as H.
    { intros il. rewrite andb_true_iff, !forallb_forall. setoid_rewrite filter_In.
      setoid_rewrite <-list_elem_of_In. unfold settled, interval_is_infinite. split.
      - intros [H1 H2] i Hi. specialize (H1 i). specialize (H2 i). destruct (pi_death i); simpl in *; auto.
      - intros H. split; intros i [Hi Hf]; specialize (H i Hi); by destruct (pi_death i). }
    destruct (of_dim d l) as [|i il]; [|apply H]. split; [by intros _ i ?%elem_of_nil|done].
  - unfold of_dim. setoid_rewrite list_elem_of_filter. naive_solver.
Qed.

(** ** Euler-Poincare *)

Definition sgn (d : nat) : Z := if Nat.even d then 1 else -1.

Lemma sgn_S d : sgn (S d) = - sgn d.
Proof. unfold sgn. rewrite Nat.even_succ, <-Nat.negb_even. by destruct (Nat.even d). Qed.

(** [b0 - (b1 - (b2 - ...))]. *)
Definition alternating (l : list nat) : Z := foldr (fun b acc => Z.of_nat b - acc) 0 l.

Definition euler_characteristic (c : SimplicialComplex) : Z := zsum (fun s => sgn (dimension s)) (simplices c).

Lemma alternating_sum (f : nat -> nat) k n :
  sgn k * alternating (f <$> seq k n) = zsum (fun d => sgn d * Z.of_nat (f d)) (seq k n).
Proof.
  revert k; induction n as [|n IH]; intros k; [simpl; unfold alternating; simpl; lia|].
  rewrite <-cons_seq, fmap_cons, zsum_cons. cbn [alternating foldr].
  specialize (IH (S k)). rewrite sgn_S in IH. unfold alternating, zsum in *. lia.
Qed.

(** Counting by dimension and summing signs is summing signs. *)
Lemma sgn_count {A} (dm : A -> nat) (l : list A) n :
  (forall a, a ∈ l -> (dm a < n)%nat) ->
  zsum (fun d => sgn d * Z.of_nat (length (filter (fun a => dm a = d) l))) (seq 0 n) = zsum (fun a => sgn (dm a)) l.
Proof.
  induction l as [|a l IH]; intros Hl.
  { apply zsum_zero. intros. rewrite filter_nil. simpl; lia. }
  rewrite zsum_cons, <-IH by (intros; apply Hl; by right).
  rewrite <-(zsum_one (dm a) sgn (seq 0 n)), <-zsum_add.
  - apply zsum_ext. intros d _. rewrite filter_cons. destruct (decide (dm a = d)) as [->|Hne].
    + rewrite decide_True by done. simpl. lia.
    + rewrite decide_False by congruence. lia.
  - apply NoDup_seq.
  - apply elem_of_seq. specialize (Hl a ltac:(left)). lia.
Qed.

(** Every column is a birth, a death or essential, and a pair's signs cancel. *)
Lemma split_sum c r (f : nat -> Z) :
  persistence_split c r ->
  zsum f (seq 0 (num_simplices c)) =
  zsum f (unpaired r) + zsum (fun pr => f pr.1 + f pr.2) (map_to_list (pairs r)).
Proof.
  intros [Ht Hp [Hs Hu]].
  assert (seq 0 (num_simplices c) ≡ₚ
    unpaired r ++ ((map_to_list (pairs r)).*1 ++ (map_to_list (pairs r)).*2)) as ->.
  2: { rewrite !zsum_app, !zsum_fmap, zsum_add. done. }
  assert (forall j, j ∈ (map_to_list (pairs r)).*1 <-> is_Some (pairs r !! j)) as H1.
  { intros j. rewrite list_elem_of_fmap. split.
    - intros ([d b] & -> & Hd%elem_of_map_to_list). by exists b.
    - intros [b Hb]. exists (j, b). by rewrite elem_of_map_to_list. }
  assert (forall j, j ∈ (map_to_list (pairs r)).*2 <-> exists d, pairs r !! d = Some j) as H2.
  { intros j. rewrite list_elem_of_fmap. split.
    - intros ([d b] & -> & Hd%elem_of_map_to_list). by exists d.
    - intros [d Hd]. exists (d, j). by rewrite elem_of_map_to_list. }
  apply NoDup_Permutation; [apply NoDup_seq|..].
  - apply NoDup_app. split; [by apply sorted_lt_NoDup|]. split.
    + intros j Hj. rewrite elem_of_app, H1, H2. intros [[b Hb]|[d Hd]].
      * by destruct (Hp _ _ Hb) as (_ & _ & _ & ? & _).
      * by destruct (Hp _ _ Hd) as (_ & _ & ? & _).
    + apply NoDup_app. split; [apply NoDup_fst_map_to_list|]. split.
      * intros j. rewrite H1, H2. intros [b Hb] [d Hd]. destruct (Hp _ _ Hd) as (_ & Hn & _). congruence.
      * apply NoDup_fmap_2_strong; [|apply NoDup_map_to_list].
        intros [d b] [d' b'] Hd%elem_of_map_to_list Hd'%elem_of_map_to_list; simpl; intros <-.
        destruct (Hp _ _ Hd) as (_ & _ & _ & _ & _ & Hinj). by rewrite (Hinj d').
  - intros j. rewrite elem_of_seq, !elem_of_app, H1, H2. split.
    + intros [_ Hj]. destruct (Ht j ltac:(lia)) as [?|[?|?]]; tauto.
    + intros [Hj|[[b Hb]|[d Hd]]]; [specialize (Hu j Hj)|destruct (Hp _ _ Hb)|destruct (Hp _ _ Hd)]; lia.
Qed.

(** ** Properties *)

(** the diagrams are computed without panicking from the reduction of any filtration, in
    whatever order the pairs are visited: the diagram of dimension [d] holds one finite interval
    per pair born in dimension [d] and one infinite interval per essential simplex, and the
    [d]-th Betti number is the number of essential [d]-simplices. *)
Theorem from_reduction_correct (c : SimplicialComplex) (r : ReductionResult)
    (pair_order : list (ColIndex * RowIndex)) (Hc : filtration c)
    (Hr : reduce_boundary_matrix (from_complex c) = Some r)
    (Hperm : pair_order ≡ₚ map_to_list (pairs r)) :
  exists data, from_reduction pair_order r c = Ok data /\
    (forall d, default [] (pd_intervals <$> get_diagram data d) ≡ₚ
       of_dim d (interval_of_pair c <$> map_to_list (pairs r)) ++
       (interval_of_column c <$> essential c r d)) /\
    (forall d, default 0%nat (betti_numbers data !! d) = length (essential c r d)).
Proof.
  destruct (persistence_split_ok c Hc) as (r' & Hr' & Hsp). rewrite Hr in Hr'. injection Hr' as <-.
  destruct (from_reduction_ok c r pair_order Hsp Hperm) as (data & -> & Hrec).
  exists data. split; [done|]. split; [|intros d; by eapply from_reduction_betti].
  intros d. unfold get_diagram. rewrite (rec_diagram _ _ Hrec).
  assert (of_dim d (all_intervals c pair_order r) ≡ₚ
    of_dim d (interval_of_pair c <$> map_to_list (pairs r)) ++ (interval_of_column c <$> essential c r d)) as <-.
  { unfold of_dim, all_intervals, essential. rewrite filter_app, Hperm. apply Permutation_app_head.
    induction (unpaired r) as [|j l IH]; [done|]. rewrite fmap_cons, !filter_cons. simpl.
    case_decide; [|done]. rewrite fmap_cons. by constructor. }
  by destruct (of_dim d (all_intervals c pair_order r)).
Qed.

Lemma from_reduction_correct_witness :
  exists r, reduce_boundary_matrix (from_complex hollow_triangle) = Some r /\
  exists data, from_reduction (reverse (map_to_list (pairs r))) r hollow_triangle = Ok data /\
    (forall d, default [] (pd_intervals <$> get_diagram data d) ≡ₚ
       of_dim d (interval_of_pair hollow_triangle <$> map_to_list (pairs r)) ++
       (interval_of_column hollow_triangle <$> essential hollow_triangle r d)) /\
    (forall d, default 0%nat (betti_numbers data !! d) = length (essential hollow_triangle r d)).
Proof.
  destruct (persistence_split_ok hollow_triangle hollow_triangle_filtration) as (r & Hr & _).
  exists r. split; [done|]. apply (from_reduction_correct hollow_triangle); [apply hollow_triangle_filtration|done|].
  apply reverse_Permutation.
Defined.

(** the Euler-Poincare formula: the alternating sum of the Betti numbers the code computes
    is the alternating count of the simplices of the complex. *)
Theorem euler_poincare (c : SimplicialComplex) (r : ReductionResult)
    (pair_order : list (ColIndex * RowIndex)) (data : PersistenceData) (Hc : filtration c)
    (Hr : reduce_boundary_matrix (from_complex c) = Some r)
    (Hperm : pair_order ≡ₚ map_to_list (pairs r))
    (Hdata : from_reduction pair_order r c = Ok data) :
  alternating (betti_numbers data) = euler_characteristic c.
Proof.
  destruct (persistence_split_ok c Hc) as (r' & Hr' & Hsp). rewrite Hr in Hr'. injection Hr' as <-.
  destruct (from_reduction_ok c r pair_order Hsp Hperm) as (data' & Hdata' & Hrec).
  rewrite Hdata in Hdata'. injection Hdata' as <-.
  assert (euler_characteristic c = zsum (fun j => sgn (dim_at c j)) (seq 0 (num_simplices c))) as ->.
  { unfold euler_characteristic, num_simplices.
    transitivity (zsum (fun j => sgn (default 0%nat (dimension <$> simplices c !! j))) (seq 0 (length (simplices c)))); [|done].
    clear. generalize (simplices c). intros l. induction l as [|s l IH] using rev_ind; [done|].
    rewrite length_app, Nat.add_1_r, seq_S, !zsum_app. f_equal.
    - rewrite IH. apply zsum_ext. intros j Hj%elem_of_seq. rewrite lookup_app_l by lia. done.
    - simpl. by rewrite lookup_app_r, Nat.sub_diag by lia. }
  rewrite (split_sum c r) by done.
  rewrite (zsum_zero _ (map_to_list (pairs r))), Z.add_0_r.
  2: { intros [d b] Hd%elem_of_map_to_list. simpl.
       destruct (ps_pair _ _ Hsp d b Hd) as (_ & _ & _ & _ & -> & _). rewrite sgn_S. lia. }
  rewrite <-(sgn_count (dim_at c) (unpaired r) (S (max_dimension data))).
  2: { intros j Hj. rewrite (rec_max _ _ Hrec). unfold all_intervals. rewrite fmap_app, foldr_max_app.
       assert (dim_at c j <= foldr Nat.max 0 (pi_dimension <$> (interval_of_column c <$> unpaired r)))%nat; [|lia].
       apply foldr_max_le. apply list_elem_of_fmap. exists (interval_of_column c j). split; [done|].
       by apply list_elem_of_fmap_2. }
  unfold betti_numbers. set (f := fun d => default 0%nat (betti_number <$> diagrams data !! d)).
  pose proof (alternating_sum f 0 (S (max_dimension data))) as Ha.
  rewrite Z.mul_1_l in Ha. rewrite Ha. apply zsum_ext. intros d Hd%elem_of_seq. do 2 f_equal.
  fold (essential c r d). rewrite <-(from_reduction_betti c r pair_order data d Hrec).
  unfold betti_numbers. rewrite list_lookup_fmap, lookup_seq_lt by lia. done.
Qed.

(** A loop and one component: [1 - 1 = 3 - 3]. *)
Lemma euler_poincare_witness :
  exists r data, reduce_boundary_matrix (from_complex hollow_triangle) = Some r /\
    from_reduction (map_to_list (pairs r)) r hollow_triangle = Ok data /\
    betti_numbers data = [1; 1]%nat /\
    alternating (betti_numbers data) = euler_characteristic hollow_triangle.
Proof.
  do 2 eexists. split; [vm_compute; reflexivity|]. split; [vm_compute; reflexivity|]. split; [done|].
  eapply (euler_poincare hollow_triangle); [apply hollow_triangle_filtration|vm_compute; reflexivity|..].
  - reflexivity.
  - vm_compute. reflexivity.
Defined.

(** what [is_stable_at] decides, whatever the order of the pairs: every class born in the
    dimension has died by the given time if it dies at all, and was born by then otherwise. *)
Theorem is_stable_at_correct (c : SimplicialComplex) (r : ReductionResult)
    (pair_order : list (ColIndex * RowIndex)) (data : PersistenceData) (d : nat) (time : Weight)
    (Hc : filtration c) (Hr : reduce_boundary_matrix (from_complex c) = Some r)
    (Hperm : pair_order ≡ₚ map_to_list (pairs r))
    (Hdata : from_reduction pair_order r c = Ok data) :
  is_stable_at data d time = true <->
  (forall death birth, pairs r !! death = Some birth -> dim_at c birth = d ->
     f64_leb (weight_at c death) time = true) /\
  (forall j, j ∈ unpaired r -> dim_at c j = d -> f64_leb (weight_at c j) time = true).
Proof.
  destruct (persistence_split_ok c Hc) as (r' & Hr' & Hsp). rewrite Hr in Hr'. injection Hr' as <-.
  destruct (from_reduction_ok c r pair_order Hsp Hperm) as (data' & Hdata' & Hrec).
  rewrite Hdata in Hdata'. injection Hdata' as <-.
  rewrite (is_stable_records _ _ d time Hrec). unfold all_intervals. split.
  - intros H. split.
    + intros death birth Hd Hb. apply (H (interval_of_pair c (death, birth))); [|done].
      apply elem_of_app. left. apply list_elem_of_fmap_2. by rewrite Hperm, elem_of_map_to_list.
    + intros j Hj Hdj. apply (H (interval_of_column c j)); [|done].
      apply elem_of_app. right. by apply list_elem_of_fmap_2.
  - intros [H1 H2] i [([death birth] & -> & Hd)%list_elem_of_fmap|(j & -> & Hj)%list_elem_of_fmap]%elem_of_app Hi;
      simpl in Hi |- *; [|by apply H2].
    rewrite Hperm in Hd. apply elem_of_map_to_list in Hd. by eapply H1.
Qed.

Lemma is_stable_at_correct_witness :
  exists r data, reduce_boundary_matrix (from_complex hollow_triangle) = Some r /\
    from_reduction (map_to_list (pairs r)) r hollow_triangle = Ok data /\
    is_stable_at data 1 (f64_of_Z 2) = false /\
    (is_stable_at data 1 (f64_of_Z 3) = true <->
     (forall death birth, pairs r !! death = Some birth -> dim_at hollow_triangle birth = 1%nat ->
        f64_leb (weight_at hollow_triangle death) (f64_of_Z 3) = true) /\
     (forall j, j ∈ unpaired r -> dim_at hollow_triangle j = 1%nat ->
        f64_leb (weight_at hollow_triangle j) (f64_of_Z 3) = true)).
Proof.
  do 2 eexists. split; [vm_compute; reflexivity|]. split; [vm_compute; reflexivity|]. split; [by vm_compute|].
  eapply (is_stable_at_correct hollow_triangle); [apply hollow_triangle_filtration|vm_compute; reflexivity|..].
  - reflexivity.
  - vm_compute. reflexivity.
Defined.
