(* ===== verification/AdicComplex.v ===== *)
(** * From messages to a simplicial complex

    [adic-finality/src/ph/adic_complex.rs].  Messages that share a p-adic ball on an axis are
    the vertices of one simplex; the builder keeps a bijection between message ids and vertex
    numbers across calls.  The order in which the [HashMap] of balls is iterated is the
    argument [ball_iter]. *)

From S2P Require Import Prelude F64 Padic Message Simplex Homology.

Record AdicComplexBuilder := mkBuilder {
  message_to_vertex : gmap MessageId VertexId;
  vertex_to_message : gmap VertexId MessageId;
  next_vertex_id : VertexId;
}.

Definition builder_new : AdicComplexBuilder := mkBuilder ∅ ∅ 0.

Definition get_or_create_vertex (b : AdicComplexBuilder) (msg_id : MessageId)
    : AdicComplexBuilder * VertexId :=
  match message_to_vertex b !! msg_id with
  | Some v => (b, v)
  | None =>
      let v := next_vertex_id b in
      (mkBuilder (<[msg_id := v]> (message_to_vertex b)) (<[v := msg_id]> (vertex_to_message b))
         (S (next_vertex_id b)), v)
  end.

Definition get_message_id (b : AdicComplexBuilder) (v : VertexId) : option MessageId :=
  vertex_to_message b !! v.
Definition get_vertex_id (b : AdicComplexBuilder) (i : MessageId) : option VertexId :=
  message_to_vertex b !! i.

(** The first loop of [next_combination]: the rightmost index that can still grow.  The
    subtraction [n - k + i] on [usize] wraps around. *)
Fixpoint find_increment (indices : list nat) (n k i : nat) : option nat :=
  match i with
  | O => None
  | S i =>
      if Z.of_nat (default 0%nat (indices !! i)) <? to_u64 (Z.of_nat n - Z.of_nat k + Z.of_nat i)
      then Some i else find_increment indices n k i
  end.

(** [None] is the return value [false], with the slice unchanged. *)
Definition next_combination (indices : list nat) (n : nat) : option (list nat) :=
  let k := length indices in
  if (k =? 0)%nat || (n =? 0)%nat then None
  else match find_increment indices n k k with
       | None => None
       | Some i =>
           let indices := <[i := S (default 0%nat (indices !! i))]> indices in
           Some (foldl (fun l j => <[j := S (default 0%nat (l !! (j - 1)%nat))]> l) indices
                   (seq (S i) (k - S i)))
       end.

(** The inner [for &idx in &indices]: vertices in order, and the largest timestamp. *)
Definition collect_vertices (messages : list (MessageId * f64)) (b : AdicComplexBuilder)
    (indices : list nat) : option (AdicComplexBuilder * list VertexId * f64) :=
  foldl (fun acc idx =>
      '(b, vertices, max_weight) ← acc;
      '(msg_id, weight) ← messages !! idx;
      let '(b, v) := get_or_create_vertex b msg_id in
      Some (b, vertices ++ [v], f64_max max_weight weight))
    (Some (b, [], f64_zero)) indices.

Definition combination_body (messages : list (MessageId * f64))
    (st : AdicComplexBuilder * SimplicialComplex) (indices : list nat)
    : option (AdicComplexBuilder * SimplicialComplex) :=
  '(b, vertices, max_weight) ← collect_vertices messages st.1 indices;
  Some (b, (add_simplex_with_faces st.2 vertices max_weight).1).

(** The [loop]; [None] when the fuel is exhausted or an index is out of range, neither of
    which happens ([combination_loop_ok]). *)
Fixpoint combination_loop {St} (body : St -> list nat -> option St) (fuel : nat) (st : St)
    (indices : list nat) (n : nat) : option St :=
  match fuel with
  | O => None
  | S fuel =>
      st ← body st indices;
      match next_combination indices n with
      | Some indices => combination_loop body fuel st indices n
      | None => Some st
      end
  end.

Definition create_simplices_from_ball (st : AdicComplexBuilder * SimplicialComplex)
    (messages : list (MessageId * f64)) (d : nat) : option (AdicComplexBuilder * SimplicialComplex) :=
  let n := length messages in
  if (n <? d + 1)%nat then Some st
  else combination_loop (combination_body messages) (n ^ (d + 1)) st (seq 0 (d + 1)) n.

(** Messages grouped by ball id, in order. *)
Definition group_by_ball (messages : list AdicMessage) (ax : Z) (radius : nat)
    : gmap (list Z) (list (MessageId * f64)) :=
  foldl (fun m msg =>
      match AdicFeatures_get_axis (features msg) ax with
      | Some axis_phi =>
          let ball := ball_id (qp_digits axis_phi) radius in
          <[ball := default [] (m !! ball) ++ [(msg_id msg, f64_of_Z (timestamp (meta msg)))]]> m
      | None => m
      end) ∅ messages.

Definition build_from_messages
    (ball_iter : gmap (list Z) (list (MessageId * f64)) -> list (list Z * list (MessageId * f64)))
    (b : AdicComplexBuilder) (messages : list AdicMessage) (ax : Z) (radius d : nat)
    : result PhError (option (AdicComplexBuilder * SimplicialComplex)) :=
  match messages with
  | [] => Ok (Some (b, complex_new))
  | _ =>
      let balls := ball_iter (group_by_ball messages ax radius) in
      let built :=
        foldl (fun acc ball =>
            st ← acc;
            if (length ball.2 <? d + 1)%nat then Some st
            else create_simplices_from_ball st ball.2 d)
          (Some (b, complex_new)) balls in
      match built with
      | None => Ok None
      | Some (b, c) => let? c := sort_by_filtration c in Ok (Some (b, c))
      end
  end.

(** ** [next_combination] enumerates the combinations in lexicographic order *)

Abbreviation at_ l j := (default 0%nat (l !! j%nat)).

Section combinations.
Context (n k : nat).

(** A combination: [k] increasing indices below [n]. *)
Record combination (l : list nat) : Prop := {
  cb_length : length l = k;
  cb_sorted : forall i j, (i < j < k)%nat -> (at_ l i < at_ l j)%nat;
  cb_bound : forall i, (i < k)%nat -> (at_ l i < n)%nat;
}.

Definition lex_lt (a c : list nat) : Prop :=
  exists m, (m < k)%nat /\ (forall j, (j < m)%nat -> at_ a j = at_ c j) /\ (at_ a m < at_ c m)%nat.

Lemma combination_gap l i j : combination l -> (i <= j < k)%nat -> (at_ l i + (j - i) <= at_ l j)%nat.
Proof.
  intros [_ Hs _] [Hij Hj]. induction j as [|j IH]; [replace i with 0%nat by lia; lia|].
  destruct (decide (i = S j)) as [->|]; [lia|].
  specialize (IH ltac:(lia) ltac:(lia)). specialize (Hs j (S j) ltac:(lia)). lia.
Qed.

Lemma combination_max l i : combination l -> (i < k)%nat -> (at_ l i + k <= n + i)%nat.
Proof.
  intros Hc Hi. pose proof (combination_gap l i (k - 1) Hc ltac:(lia)).
  pose proof (cb_bound _ Hc (k - 1) ltac:(lia)). lia.
Qed.

Lemma lex_lt_trans a b c : lex_lt a b -> lex_lt b c -> lex_lt a c.
Proof.
  intros (m & Hm & Heq & Hlt) (m' & Hm' & Heq' & Hlt').
  exists (Nat.min m m'). split; [lia|]. split.
  - intros j Hj. rewrite Heq, Heq' by lia. done.
  - destruct (Nat.lt_trichotomy m m') as [H|[->|H]].
    + rewrite Nat.min_l by lia. by rewrite <-Heq'.
    + rewrite Nat.min_id. lia.
    + rewrite Nat.min_r by lia. by rewrite Heq.
Qed.

Lemma lex_lt_irrefl a : ~ lex_lt a a.
Proof. intros (m & _ & _ & ?). lia. Qed.

Lemma at_ext (b c : list nat) :
  length b = length c -> (forall j, (j < length b)%nat -> at_ b j = at_ c j) -> b = c.
Proof.
  intros Hl H. apply list_eq. intros j. destruct (decide (j < length b)%nat) as [Hj|Hj].
  - specialize (H j Hj). destruct (lookup_lt_is_Some_2 b j) as [x Hx]; [lia|].
    destruct (lookup_lt_is_Some_2 c j) as [y Hy]; [lia|]. rewrite Hx, Hy in *. simpl in H. by subst.
  - by rewrite !lookup_ge_None_2 by lia.
Qed.

Lemma pointwise_le b c m :
  length b = k -> length c = k -> (m <= k)%nat ->
  (forall j, (j < k - m)%nat -> at_ b j = at_ c j) -> (forall j, (j < k)%nat -> (at_ b j <= at_ c j)%nat) ->
  b = c \/ lex_lt b c.
Proof.
  intros Hb Hc. induction m as [|m IH]; intros Hm Heq Hle.
  - left. apply at_ext; [lia|]. intros j Hj. apply Heq. lia.
  - destruct (decide (at_ b (k - S m) = at_ c (k - S m))) as [E|E].
    + apply IH; [lia| |done]. intros j Hj. destruct (decide (j = k - S m)%nat) as [->|]; [done|]. apply Heq. lia.
    + right. exists (k - S m)%nat. split; [lia|]. split; [done|]. specialize (Hle (k - S m)%nat ltac:(lia)). lia.
Qed.

Context (Hk : (0 < k <= n)%nat) (Hn : Z.of_nat n <= u64_max).

Lemma find_increment_spec l i :
  (i <= k)%nat ->
  match find_increment l n k i with
  | Some i' => (i' < i)%nat /\ (at_ l i' + k < n + i')%nat /\
               forall j, (i' < j < i)%nat -> (n + j <= at_ l j + k)%nat
  | None => forall j, (j < i)%nat -> (n + j <= at_ l j + k)%nat
  end.
Proof.
  induction i as [|i IH]; intros Hi; cbn [find_increment]; [lia|].
  specialize (IH ltac:(lia)).
  assert (to_u64 (Z.of_nat n - Z.of_nat k + Z.of_nat i) = Z.of_nat n - Z.of_nat k + Z.of_nat i) as ->
    by (uint_unfold; apply Z.mod_small; lia).
  destruct (_ <? _) eqn:E; zbool; [split; [lia|]; split; lia|].
  destruct (find_increment l n k i) as [i'|].
  - destruct IH as (? & ? & Hall). split; [lia|]. split; [done|]. intros j Hj.
    destruct (decide (j = i)) as [->|]; [lia|]. apply Hall. lia.
  - intros j Hj. destruct (decide (j = i)) as [->|]; [lia|]. apply IH. lia.
Qed.

(** The second loop of [next_combination] fills the tail with consecutive numbers. *)
Lemma propagate l i m :
  (S i + m = length l)%nat ->
  foldl (fun l j => <[j := S (at_ l (j - 1))]> l) l (seq (S i) m) = take (S i) l ++ seq (S (at_ l i)) m.
Proof.
  revert l i; induction m as [|m IH]; intros l i Hl.
  { simpl seq. simpl foldl. rewrite app_nil_r, take_ge by lia. done. }
  cbn [seq foldl]. rewrite (IH _ (S i)) by (rewrite length_insert; lia).
  replace (S i - 1)%nat with i by lia.
  rewrite list_lookup_insert_eq by lia. cbn [default].
  rewrite (take_S_r _ (S i) (S (at_ l i))) by (apply list_lookup_insert_eq; lia).
  rewrite take_insert_ge by lia. by rewrite <-app_assoc.
Qed.

Lemma next_combination_eq l :
  length l = k ->
  next_combination l n =
  (fun i => take i l ++ seq (S (at_ l i)) (k - i)) <$> find_increment l n k k.
Proof.
  intros Hl. unfold next_combination. rewrite Hl.
  replace ((k =? 0)%nat || (n =? 0)%nat) with false by (symmetry; apply orb_false_iff; rewrite !Nat.eqb_neq; lia).
  pose proof (find_increment_spec l k ltac:(lia)) as H.
  destruct (find_increment l n k k) as [i|]; [|done]. simpl. f_equal.
  rewrite propagate by (rewrite length_insert; lia).
  rewrite (take_S_r _ i (S (at_ l i))) by (apply list_lookup_insert_eq; lia).
  rewrite take_insert_ge, list_lookup_insert_eq, <-app_assoc by lia. cbn [default].
  by replace (k - i)%nat with (S (k - S i)) by lia.
Qed.

Lemma at_successor l i j :
  length l = k -> (i < k)%nat -> (j < k)%nat ->
  at_ (take i l ++ seq (S (at_ l i)) (k - i)) j = if (j <? i)%nat then at_ l j else (S (at_ l i) + (j - i))%nat.
Proof.
  intros Hl Hi Hj. destruct (j <? i)%nat eqn:E; zbool.
  - by rewrite lookup_app_l, lookup_take_lt by (rewrite ?length_take; lia).
  - rewrite lookup_app_r by (rewrite length_take; lia). rewrite length_take, Nat.min_l by lia.
    by rewrite lookup_seq_lt by lia.
Qed.

(** The successor in lexicographic order. *)
Lemma next_combination_spec a :
  combination a ->
  match next_combination a n with
  | Some b => combination b /\ lex_lt a b /\
              forall c, combination c -> lex_lt a c -> c = b \/ lex_lt b c
  | None => forall c, combination c -> ~ lex_lt a c
  end.
Proof.
  intros Ha. pose proof (cb_length _ Ha) as Hl. rewrite next_combination_eq by done.
  pose proof (find_increment_spec a k ltac:(lia)) as H.
  destruct (find_increment a n k k) as [i|]; simpl.
  2: { intros c Hc (m & Hm & _ & Hlt). specialize (H m Hm). pose proof (combination_max c m Hc Hm). lia. }
  destruct H as (Hi & Hlt & Hall). set (b := take i a ++ _).
  assert (forall j, (j < k)%nat -> at_ b j = if (j <? i)%nat then at_ a j else (S (at_ a i) + (j - i))%nat) as Hb
    by (intros j Hj; by apply at_successor).
  assert (length b = k) as Hlb by (subst b; rewrite length_app, length_take, length_seq; lia).
  split; [split; [done|..]|split].
  - intros j j' Hj. rewrite !Hb by lia. pose proof (cb_sorted _ Ha).
    ztest (j <? i)%nat; ztest (j' <? i)%nat; try lia; [by apply H|].
    assert (at_ a j < at_ a i)%nat by (apply H; lia). lia.
  - intros j Hj. rewrite Hb by done. ztest (j <? i)%nat; [by apply (cb_bound _ Ha)|lia].
  - exists i. split; [done|]. split.
    + intros j Hj. rewrite Hb by lia. by replace (j <? i)%nat with true by (symmetry; apply Nat.ltb_lt; lia).
    + rewrite Hb by lia. rewrite Nat.ltb_irrefl. lia.
  - intros c Hc (m & Hm & Heq & Hmc). pose proof (combination_max c m Hc Hm) as Hmax.
    assert (m <= i)%nat by (destruct (decide (m <= i)%nat); [done|]; specialize (Hall m ltac:(lia)); lia).
    destruct (decide (m = i)) as [->|Hne].
    + destruct (pointwise_le b c k) as [->|]; [done|apply (cb_length _ Hc)|lia|lia| |by left|by right].
      intros j Hj. rewrite Hb by done. ztest (j <? i)%nat; [by rewrite Heq|].
      pose proof (combination_gap c i j Hc ltac:(lia)). lia.
    + right. exists m. split; [done|].
      split; [intros j Hj|]; rewrite Hb by lia;
        [replace (j <? i)%nat with true by (symmetry; apply Nat.ltb_lt; lia); by apply Heq|
         replace (m <? i)%nat with true by (symmetry; apply Nat.ltb_lt; lia); done].
Qed.

(** The number a combination denotes in base [n] grows with the lexicographic order. *)
Definition rank_from (acc : nat) (l : list nat) : nat := foldl (fun acc x => acc * n + x)%nat acc l.

Lemma rank_from_bounds acc l :
  Forall (fun x => (x < n)%nat) l ->
  (acc * n ^ length l <= rank_from acc l < S acc * n ^ length l)%nat.
Proof.
  intros Hl. revert acc; induction Hl as [|x l Hx _ IH]; intros acc; cbn [rank_from foldl length Nat.pow]; [lia|].
  specialize (IH (acc * n + x)%nat). unfold rank_from in IH.
  assert (0 < n ^ length l)%nat by (apply Nat.neq_0_lt_0, Nat.pow_nonzero; lia). nia.
Qed.

Lemma combination_Forall l : combination l -> Forall (fun x => (x < n)%nat) l.
Proof.
  intros [Hl _ Hb]. apply Forall_lookup. intros i x Hi. specialize (Hb i). rewrite Hi in Hb. apply Hb.
  rewrite <-Hl. by eapply lookup_lt_Some.
Qed.

Lemma split_at (l : list nat) m : (m < length l)%nat -> l = take m l ++ at_ l m :: drop (S m) l.
Proof.
  intros Hm. destruct (lookup_lt_is_Some_2 l m Hm) as [x Hx]. rewrite Hx. symmetry. by apply take_drop_middle.
Qed.

Lemma rank_lex a c : combination a -> combination c -> lex_lt a c -> (rank_from 0 a < rank_from 0 c)%nat.
Proof.
  intros Ha Hc (m & Hm & Heq & Hlt).
  pose proof (cb_length _ Ha) as Hla. pose proof (cb_length _ Hc) as Hlc.
  rewrite (split_at a m), (split_at c m) by lia.
  assert (take m a = take m c) as ->.
  { apply at_ext; rewrite !length_take; [lia|]. intros j Hj. rewrite !lookup_take_lt by lia. apply Heq. lia. }
  unfold rank_from. rewrite !foldl_app. cbn [foldl]. set (r := foldl _ _ (take m c)).
  pose proof (rank_from_bounds (r * n + at_ a m) (drop (S m) a)
                ltac:(apply Forall_drop, combination_Forall, Ha)) as [_ H1].
  pose proof (rank_from_bounds (r * n + at_ c m) (drop (S m) c)
                ltac:(apply Forall_drop, combination_Forall, Hc)) as [H2 _].
  unfold rank_from in *. rewrite !length_drop, Hla, Hlc in *.
  assert (S (r * n + at_ a m) * n ^ (k - S m) <= (r * n + at_ c m) * n ^ (k - S m))%nat
    by (apply Nat.mul_le_mono_r; lia). lia.
Qed.

Lemma rank_bound a : combination a -> (rank_from 0 a < n ^ k)%nat.
Proof.
  intros Ha. pose proof (rank_from_bounds 0 a (combination_Forall a Ha)) as H.
  rewrite (cb_length _ Ha) in H. lia.
Qed.

Lemma first_combination_least c : combination c -> combination (seq 0 k) /\ (c = seq 0 k \/ lex_lt (seq 0 k) c).
Proof.
  intros Hc. assert (forall j, (j < k)%nat -> at_ (seq 0 k) j = j) as Hat
    by (intros j Hj; by rewrite lookup_seq_lt).
  split; [split|].
  - apply length_seq.
  - intros i j Hij. rewrite !Hat by lia. lia.
  - intros i Hi. rewrite Hat by lia. lia.
  - destruct (pointwise_le (seq 0 k) c k) as [->|]; [apply length_seq|apply (cb_length _ Hc)|lia|lia| |by left|by right].
    intros j Hj. rewrite Hat by done. pose proof (combination_gap c 0 j Hc ltac:(lia)). lia.
Qed.
End combinations.

(** The body run over an explicit list of index lists. *)
Fixpoint run_all {St} (body : St -> list nat -> option St) (ls : list (list nat)) (st : St) : option St :=
  match ls with
  | [] => Some st
  | l :: ls => st ← body st l; run_all body ls st
  end.

Lemma combination_loop_ok {St} (body : St -> list nat -> option St) n k fuel a :
  (0 < k <= n)%nat -> Z.of_nat n <= u64_max -> combination n k a -> (n ^ k <= fuel + rank_from n 0 a)%nat ->
  exists ls, NoDup ls /\ (forall c, c ∈ ls <-> combination n k c /\ (c = a \/ lex_lt k a c)) /\
    forall st, combination_loop body fuel st a n = run_all body ls st.
Proof.
  intros Hk Hn. revert a; induction fuel as [|fuel IH]; intros a Ha Hf.
  { pose proof (rank_bound n k Hk a Ha). lia. }
  pose proof (next_combination_spec n k Hk Hn a Ha) as Hnext. cbn [combination_loop].
  destruct (next_combination a n) as [b|] eqn:E.
  - destruct Hnext as (Hb & Hab & Hsucc).
    destruct (IH b) as (ls & Hnd & Hin & Hrun); [done| |].
    { pose proof (rank_lex n k Hk a b Ha Hb Hab). lia. }
    exists (a :: ls). split; [|split].
    + constructor; [|done]. intros [_ [->|Hba]]%Hin; [by eapply lex_lt_irrefl|].
      eapply lex_lt_irrefl, lex_lt_trans; [exact Hab|exact Hba].
    + intros c. rewrite elem_of_cons, Hin. split.
      * intros [->|[Hc [->|Hbc]]]; [by auto|by auto|]. split; [done|]. right. by eapply lex_lt_trans.
      * intros [Hc [->|Hac]]; [by left|]. right. split; [done|]. by apply Hsucc.
    + intros st. simpl. destruct (body st a); simpl; [|done]. apply Hrun.
  - exists [a]. split; [apply NoDup_singleton|]. split.
    + intros c. rewrite list_elem_of_singleton. split; [by intros ->; auto|]. intros [Hc [->|Hac]]; [done|].
      by apply Hnext in Hac.
    + intros st. simpl. by destruct (body st a).
Qed.

(** ** The builder's bijection *)

Record builder_wf (b : AdicComplexBuilder) : Prop := {
  bw_inverse : forall i v, message_to_vertex b !! i = Some v <-> vertex_to_message b !! v = Some i;
  bw_next : forall v i, vertex_to_message b !! v = Some i -> (v < next_vertex_id b)%nat;
}.

Lemma builder_new_wf : builder_wf builder_new.
Proof. split; simpl; [intros i v|intros v i]; rewrite ?lookup_empty; done. Qed.

Lemma get_or_create_vertex_spec b i b' v :
  builder_wf b -> get_or_create_vertex b i = (b', v) ->
  builder_wf b' /\ message_to_vertex b' !! i = Some v /\ message_to_vertex b ⊆ message_to_vertex b'.
Proof.
  intros [Hi Hn]. unfold get_or_create_vertex.
  destruct (message_to_vertex b !! i) as [v'|] eqn:E; intros [= <- <-]; [done|].
  assert (vertex_to_message b !! next_vertex_id b = None) as Hfresh.
  { destruct (_ !! next_vertex_id b) as [j|] eqn:E'; [|done]. apply Hn in E'. lia. }
  split; [split; simpl|split; simpl; [apply lookup_insert_eq|by apply insert_subseteq]].
  - intros j w. rewrite !lookup_insert. specialize (Hi j w).
    repeat case_decide; subst; split; intros Hq; simplify_eq; try done; try (by apply Hi); exfalso.
    + apply Hi in Hq. congruence.
    + apply Hi in Hq. congruence.
  - intros w j. rewrite lookup_insert. case_decide; [intros; lia|]. intros Hw%Hn. lia.
Qed.

Lemma builder_inj b i j v :
  builder_wf b -> message_to_vertex b !! i = Some v -> message_to_vertex b !! j = Some v -> i = j.
Proof. intros [Hi _] H1%Hi H2%Hi. congruence. Qed.

(** The id of the message at an index. *)
Definition id_at (messages : list (MessageId * f64)) (i : nat) : MessageId :=
  match messages !! i with Some m => m.1 | None => [] end.
Definition ids_at (messages : list (MessageId * f64)) (indices : list nat) : list MessageId :=
  id_at messages <$> indices.

(** A weight the construction can produce: a number, not negative. *)
Definition nonneg_weight (w : f64) : Prop := is_nan w = false /\ f64_sign w = false.

(** The vertices given to the messages [ids]. *)
Definition vertices_of (b : AdicComplexBuilder) (ids : list MessageId) : option (list VertexId) :=
  mapM (fun i => message_to_vertex b !! i) ids.

Lemma vertices_of_weaken b b' ids vs :
  message_to_vertex b ⊆ message_to_vertex b' -> vertices_of b ids = Some vs -> vertices_of b' ids = Some vs.
Proof.
  unfold vertices_of. rewrite !mapM_Some. intros Hsub H. eapply Forall2_impl; [exact H|].
  intros; simpl in *. by eapply lookup_weaken.
Qed.

Lemma collect_vertices_ok messages b indices :
  builder_wf b -> Forall (fun m => is_nan m.2 = false) messages ->
  Forall (fun i => (i < length messages)%nat) indices ->
  exists b' vs w, collect_vertices messages b indices = Some (b', vs, w) /\
    builder_wf b' /\ message_to_vertex b ⊆ message_to_vertex b' /\ nonneg_weight w /\
    vertices_of b' (ids_at messages indices) = Some vs.
Proof.
  intros Hb Hw. unfold collect_vertices. induction indices as [|i indices IH] using rev_ind.
  { intros _. exists b, [], f64_zero. done. }
  intros [Hall [Hi _]%Forall_cons]%Forall_app.
  destruct (IH Hall) as (b1 & vs & w & Heq & Hb1 & Hsub & Hnn & Hvs). rewrite foldl_app, Heq. simpl.
  destruct (lookup_lt_is_Some_2 messages i Hi) as [[mi mw] Hm]. rewrite Hm. simpl.
  destruct (get_or_create_vertex b1 mi) as [b2 v] eqn:E.
  destruct (get_or_create_vertex_spec _ _ _ _ Hb1 E) as (Hb2 & Hv & Hsub2).
  do 3 eexists. split; [done|]. split; [done|]. split; [by etrans|]. split.
  - rewrite Forall_lookup in Hw. destruct Hnn. apply f64_max_nonneg; [done..|]. by apply (Hw i (mi, mw)).
  - pose proof (vertices_of_weaken _ _ _ _ Hsub2 Hvs) as Hvs'. unfold vertices_of in *.
    unfold ids_at in *. rewrite fmap_app, mapM_Some. apply mapM_Some in Hvs'. apply Forall2_app; [done|].
    constructor; [|constructor]. unfold id_at. by rewrite Hm.
Qed.

Lemma vertices_of_NoDup b ids vs : builder_wf b -> NoDup ids -> vertices_of b ids = Some vs -> NoDup vs.
Proof.
  intros Hb Hnd. unfold vertices_of. rewrite mapM_Some. intros H.
  induction H as [|i v ids vs Hi H IH]; [constructor|]. apply NoDup_cons in Hnd as [Hni Hnd].
  constructor; [|by apply IH]. intros Hv. apply Hni.
  apply list_elem_of_lookup in Hv as [j Hj]. destruct (Forall2_lookup_r _ _ _ _ _ H Hj) as (i' & Hi' & Hv').
  rewrite (builder_inj b i i' v) by done. apply list_elem_of_lookup. by exists j.
Qed.

(** ** The complex under construction *)

Section nerve.
Context (d : nat).

(** A top simplex has [d + 1] vertices and a nonnegative weight, every other weight is 0. *)
Definition weights_ok (c : SimplicialComplex) : Prop :=
  forall i s, simplices c !! i = Some s ->
    (length (vertices s) <= S d)%nat /\ nonneg_weight (weight s) /\
    ((length (vertices s) <= d)%nat -> weight s = f64_zero).

(** The state after the top simplices on the message lists of [tops] have been added. *)
Record building (tops : list (list MessageId)) (b : AdicComplexBuilder) (c : SimplicialComplex) : Prop := {
  bd_builder : builder_wf b;
  bd_wf : complex_wf c;
  bd_closed : complex_closed c;
  bd_simple : complex_simple c;
  bd_weights : weights_ok c;
  bd_tops : forall vs, length vs = S d ->
    is_Some (vertex_to_simplex c !! vs) <->
    exists ids us, ids ∈ tops /\ vertices_of b ids = Some us /\ vs = nat_sort us;
  bd_known : forall ids, ids ∈ tops -> is_Some (vertices_of b ids);
}.

Lemma building_start b : builder_wf b -> building [] b complex_new.
Proof.
  intros Hb. split; [done|apply complex_new_wf|apply complex_new_closed|by intros ??|by intros ??|..].
  - intros vs _. simpl. rewrite lookup_empty. split; [by intros []|]. by intros (? & ? & ?%elem_of_nil & _).
  - by intros ids ?%elem_of_nil.
Qed.

(** The part of the invariant carried through [add_simplex_with_faces] for the top [us]. *)
Lemma add_top c us w :
  complex_wf c -> complex_closed c -> complex_simple c -> weights_ok c ->
  NoDup us -> length us = S d -> nonneg_weight w ->
  let c' := (add_simplex_with_faces c us w).1 in
  complex_wf c' /\ complex_closed c' /\ complex_simple c' /\ weights_ok c' /\ extends c c' /\
  is_Some (vertex_to_simplex c' !! nat_sort us) /\
  forall vs, length vs = S d -> is_Some (vertex_to_simplex c' !! vs) ->
    is_Some (vertex_to_simplex c !! vs) \/ vs = nat_sort us.
Proof.
  intros Hwf Hcl Hsi Hw Hnd Hlen Hnn. simpl.
  pose proof (add_simplex_with_faces_spec
    (fun c' => complex_simple c' /\ weights_ok c' /\
       forall vs, length vs = S d -> is_Some (vertex_to_simplex c' !! vs) ->
         is_Some (vertex_to_simplex c !! vs) \/ vs = nat_sort us)
    (fun vs w => NoDup vs /\ nonneg_weight w /\
       ((length vs = S d /\ nat_sort vs = nat_sort us) \/ ((length vs <= d)%nat /\ w = f64_zero)))) as H.
  destruct (add_simplex_with_faces c us w) as [c' id] eqn:E; simpl.
  specialize (H) with (n := length us) (c := c) (vs := us) (w := w). rewrite E in H.
  destruct H as [(Hwf' & Hcl' & Hext & Hsi' & Hw' & Hnew) Hid].
  - clear. intros c0 vs w Hwf (Hsi & Hw & Hold) (Hnd & Hnn & Hcase).
    split; [by apply add_simplex_simple|].
    destruct (add_simplex c0 vs w) as [c1 id] eqn:E; simpl.
    destruct (add_simplex_spec _ _ _ _ _ Hwf E) as (Hwf1 & _ & _ & Hnew). split.
    + intros i s [Hs|[Hvs ->]]%Hnew; [by eapply Hw|]. simpl. rewrite !nat_sort_Permutation.
      split; [destruct Hcase as [[-> _]|[? _]]; lia|]. split; [done|]. intros Hle. destruct Hcase as [[? _]|[_ ?]]; [lia|done].
    + intros us' Hlen [i Hi]. apply (wf_index _ Hwf1) in Hi as (s & Hs & <-).
      destruct (Hnew _ _ Hs) as [Hs0|[Hvs _]].
      * apply Hold; [done|]. exists i. apply (wf_index _ Hwf). by exists s.
      * right. rewrite Hvs. destruct Hcase as [[_ ->]|[Hle _]]; [done|].
        rewrite Hvs, nat_sort_Permutation in Hlen. lia.
  - clear. intros vs w f (Hnd & _ & Hcase) Hf. split; [by eapply new_faces_NoDup|]. split; [done|].
    right. apply faces_length in Hf as [_ Hl]. split; [|done]. destruct Hcase as [[? _]|[? _]]; lia.
  - done.
  - done.
  - done.
  - split; [done|]. split; [done|]. intros; by left.
  - split; [done|]. split; [done|]. by left.
  - split_and!; (done || by exists id).
Qed.

Lemma building_body messages tops b c indices ids :
  building tops b c -> NoDup (messages.*1) -> Forall (fun m => is_nan m.2 = false) messages ->
  combination (length messages) (S d) indices ->
  ids = ids_at messages indices ->
  exists b' c', combination_body messages (b, c) indices = Some (b', c') /\
    message_to_vertex b ⊆ message_to_vertex b' /\ building (ids :: tops) b' c'.
Proof.
  intros [Hb Hwf Hcl Hsi Hw Ht Hk] Hnd Hnan Hc Hids. unfold combination_body; simpl.
  destruct (collect_vertices_ok messages b indices) as (b' & us & w & -> & Hb' & Hsub & Hnn & Hus);
    [done|done|by eapply combination_Forall|]. simpl.
  rewrite <-Hids in Hus.
  assert (NoDup ids) as Hndi.
  { subst ids. unfold ids_at. apply NoDup_alt. intros x y i Hx Hy. rewrite list_lookup_fmap in Hx, Hy.
    apply fmap_Some in Hx as (ix & Hix & ->). apply fmap_Some in Hy as (iy & Hiy & Heq).
    pose proof (cb_length _ _ _ Hc) as Hl.
    pose proof (lookup_lt_Some _ _ _ Hix). pose proof (lookup_lt_Some _ _ _ Hiy).
    pose proof (cb_bound _ _ _ Hc x ltac:(lia)) as Hbx. pose proof (cb_bound _ _ _ Hc y ltac:(lia)) as Hby.
    rewrite Hix in Hbx. rewrite Hiy in Hby. simpl in Hbx, Hby.
    destruct (lookup_lt_is_Some_2 messages ix Hbx) as [mx Hmx]. destruct (lookup_lt_is_Some_2 messages iy Hby) as [my Hmy].
    unfold id_at in Heq. rewrite Hmx, Hmy in Heq.
    assert (ix = iy) as ->.
    { eapply (NoDup_lookup (messages.*1)); [done|..]; rewrite list_lookup_fmap; [by rewrite Hmx|by rewrite Hmy, Heq]. }
    destruct (Nat.lt_trichotomy x y) as [Hlt|[->|Hlt]]; 
      [pose proof (cb_sorted _ _ _ Hc x y ltac:(lia)) as Hs|done|pose proof (cb_sorted _ _ _ Hc y x ltac:(lia)) as Hs];
      rewrite Hix, Hiy in Hs; simpl in Hs; lia. }
  pose proof (vertices_of_NoDup _ _ _ Hb' Hndi Hus) as Hndu.
  assert (length us = S d) as Hlen.
  { unfold vertices_of in Hus. apply mapM_Some in Hus. apply Forall2_length in Hus. rewrite <-Hus.
    subst ids. unfold ids_at. rewrite length_fmap. apply (cb_length _ _ _ Hc). }
  destruct (add_top c us w) as (Hwf' & Hcl' & Hsi' & Hw' & [_ Hext] & Hin & Hnew); [done..|].
  eexists b', _. split; [done|]. split; [done|]. split; [done..| |].
  - intros vs Hvs. split.
    + intros [Hold| ->]%Hnew; [|by exists ids, us; split; [left|]|done].
      apply Ht in Hold as (ids0 & us0 & Hin0 & Hus0 & ->); [|done]. exists ids0, us0.
      split; [by right|]. split; [|done]. by eapply vertices_of_weaken.
    + intros (ids0 & us0 & [->|Hin0]%elem_of_cons & Hus0 & ->); [by simplify_eq|].
      destruct (Hk _ Hin0) as [us1 Hus1]. pose proof (vertices_of_weaken _ _ _ _ Hsub Hus1). simplify_eq.
      destruct (proj2 (Ht _ Hvs)) as [i Hi]; [by exists ids0, us0|]. exists i. by eapply lookup_weaken.
  - intros ids0 [->|Hin0]%elem_of_cons; [by exists us|].
    destruct (Hk _ Hin0) as [us1 Hus1]. exists us1. by eapply vertices_of_weaken.
Qed.

Lemma building_ext tops tops' b c :
  (forall ids, ids ∈ tops <-> ids ∈ tops') -> building tops b c -> building tops' b c.
Proof.
  intros Heq [Hb Hwf Hcl Hsi Hw Ht Hk]. split; [done..| |].
  - intros vs Hvs. rewrite Ht by done. by setoid_rewrite Heq.
  - intros ids Hin. by apply Hk, Heq.
Qed.

(** The index lists of one ball, as lists of message ids. *)
Definition ball_tops (messages : list (MessageId * f64)) (ids : list MessageId) : Prop :=
  exists indices, combination (length messages) (S d) indices /\ ids = ids_at messages indices.

Lemma building_run messages ls tops b c :
  NoDup (messages.*1) -> Forall (fun m => is_nan m.2 = false) messages ->
  Forall (combination (length messages) (S d)) ls -> building tops b c ->
  exists b' c', run_all (combination_body messages) ls (b, c) = Some (b', c') /\
    message_to_vertex b ⊆ message_to_vertex b' /\
    building (reverse (ids_at messages <$> ls) ++ tops) b' c'.
Proof.
  intros Hnd Hnan Hls. revert tops b c. induction Hls as [|l ls Hl Hls IH]; intros tops b c Hbd.
  { exists b, c. split; [done|]. split; done. }
  cbn [run_all].
  destruct (building_body messages tops b c l _ Hbd Hnd Hnan Hl eq_refl) as (b1 & c1 & -> & Hsub1 & Hbd1).
  destruct (IH _ _ _ Hbd1) as (b2 & c2 & Hrun & Hsub2 & Hbd2). exists b2, c2. split; [exact Hrun|].
  split; [by etrans|]. by rewrite fmap_cons, reverse_cons, <-app_assoc.
Qed.

(** [create_simplices_from_ball] terminates and adds exactly the [(d+1)]-subsets of the ball. *)
Lemma create_simplices_ok messages tops b c :
  NoDup (messages.*1) -> Forall (fun m => is_nan m.2 = false) messages ->
  Z.of_nat (length messages) <= u64_max -> building tops b c ->
  exists b' c' tops', create_simplices_from_ball (b, c) messages d = Some (b', c') /\
    message_to_vertex b ⊆ message_to_vertex b' /\
    building tops' b' c' /\ forall ids, ids ∈ tops' <-> ball_tops messages ids \/ ids ∈ tops.
Proof.
  intros Hnd Hnan Hmax Hbd. unfold create_simplices_from_ball.
  replace (d + 1)%nat with (S d) by lia. ztest (length messages <? S d)%nat.
  { exists b, c, tops. split; [done|]. split; [done|]. split; [done|]. intros ids. split; [by right|].
    intros [(l & Hl & _)|]; [|done]. exfalso.
    pose proof (combination_max _ _ l 0 Hl ltac:(lia)). lia. }
  set (n := length messages) in *.
  assert (combination n (S d) (seq 0 (S d))) as Hfirst.
  { split; [apply length_seq|..]; intros *; intros; rewrite ?lookup_seq_lt by lia; simpl; lia. }
  destruct (combination_loop_ok (combination_body messages) n (S d) (n ^ S d) (seq 0 (S d)))
    as (ls & _ & Hls & Hrun); [lia|done|done|lia|].
  destruct (building_run messages ls tops b c) as (b' & c' & Hr & Hsub & Hbd'); [done|done| |done|].
  { rewrite Forall_forall. intros l Hl. by apply Hls in Hl as [? _]. }
  exists b', c', (reverse (ids_at messages <$> ls) ++ tops). rewrite Hrun. split; [exact Hr|]. split; [done|]. split; [exact Hbd'|].
  intros ids. rewrite elem_of_app, elem_of_reverse, list_elem_of_fmap.
  assert ((exists y, ids = ids_at messages y /\ y ∈ ls) <-> ball_tops messages ids) as ->; [|done].
  unfold ball_tops. setoid_rewrite Hls. split; [naive_solver|]. intros (l & Hl & ->).
  exists l. split; [done|]. split; [done|]. apply (first_combination_least n (S d)); [lia|done].
Qed.

(** The loop over the balls. *)
Lemma balls_ok (balls : list (list Z * list (MessageId * f64))) tops b c :
  (forall ball, ball ∈ balls -> NoDup (ball.2.*1) /\ Forall (fun m => is_nan m.2 = false) ball.2 /\
     Z.of_nat (length ball.2) <= u64_max) -> building tops b c ->
  exists b' c' tops',
    foldl (fun acc ball =>
        st ← acc;
        if (length ball.2 <? d + 1)%nat then Some st
        else create_simplices_from_ball st ball.2 d) (Some (b, c)) balls = Some (b', c') /\
    message_to_vertex b ⊆ message_to_vertex b' /\ building tops' b' c' /\
    forall ids, ids ∈ tops' <-> (exists ball, ball ∈ balls /\ ball_tops ball.2 ids) \/ ids ∈ tops.
Proof.
  revert tops b c; induction balls as [|ball balls IH]; intros tops b c Hall Hbd; cbn [foldl].
  { exists b, c, tops. split; [done|]. split; [done|]. split; [done|]. intros ids. split; [by right|].
    intros [(? & ?%elem_of_nil & _)|]; done. }
  destruct (Hall ball ltac:(left)) as (Hnd & Hnan & Hmax). cbn [mbind option_bind].
  destruct (create_simplices_ok ball.2 tops b c) as (b1 & c1 & tops1 & Hc1 & Hsub1 & Hbd1 & Ht1); [done..|].
  assert ((if (length ball.2 <? d + 1)%nat then Some (b, c) else create_simplices_from_ball (b, c) ball.2 d) =
    Some (b1, c1)) as ->.
  { destruct (length ball.2 <? d + 1)%nat eqn:E; [|done]. unfold create_simplices_from_ball in Hc1. by rewrite E in Hc1. }
  destruct (IH tops1 b1 c1) as (b2 & c2 & tops2 & Hf & Hsub2 & Hbd2 & Ht2); [intros; apply Hall; by right|done|].
  exists b2, c2, tops2. split; [exact Hf|]. split; [by etrans|]. split; [done|].
  intros ids. rewrite Ht2, Ht1. setoid_rewrite elem_of_cons. naive_solver.
Qed.
End nerve.

Lemma weights_filtered d c : complex_wf c -> weights_ok d c -> no_nan c /\ filtered c.
Proof.
  intros Hwf Hw. split.
  - apply Forall_lookup. intros i s Hs. by destruct (Hw i s Hs) as (_ & [? _] & _).
  - intros s t [i Hi]%list_elem_of_lookup [j Hj]%list_elem_of_lookup Hf.
    destruct (wf_simplex _ Hwf _ _ Hi) as [_ Hws]. destruct (faces_sorted _ _ Hws Hf) as [_ Hlen].
    destruct (Hw i s Hi) as (Hle & [? ?] & _). destruct (Hw j t Hj) as (_ & _ & ->); [|lia].
    by apply f64_zero_le.
Qed.

(** ** Grouping by ball *)

Definition ball_of (ax : Z) (radius : nat) (m : AdicMessage) : option (list Z) :=
  (fun ap => ball_id (qp_digits ap) radius) <$> AdicFeatures_get_axis (features m) ax.

Definition entry_of (m : AdicMessage) : MessageId * f64 := (msg_id m, f64_of_Z (timestamp (meta m))).

Lemma group_by_ball_spec messages ax radius ball :
  default [] (group_by_ball messages ax radius !! ball) =
  entry_of <$> filter (fun m => ball_of ax radius m = Some ball) messages.
Proof.
  unfold group_by_ball. induction messages as [|m messages IH] using rev_ind; [cbn [foldl]; by rewrite lookup_empty|].
  rewrite foldl_app, filter_app, fmap_app, <-IH. cbn [foldl]. rewrite filter_cons, filter_nil.
  destruct (AdicFeatures_get_axis (features m) ax) as [ap|] eqn:Eap.
  - assert (ball_of ax radius m = Some (ball_id (qp_digits ap) radius)) as Hb by (unfold ball_of; by rewrite Eap).
    rewrite lookup_insert. destruct (decide (ball_of ax radius m = Some ball)) as [E|E].
    + rewrite E in Hb. injection Hb as ->. by rewrite decide_True.
    + rewrite decide_False by congruence. by rewrite app_nil_r.
  - rewrite decide_False by (unfold ball_of; by rewrite Eap). by rewrite app_nil_r.
Qed.

Lemma elem_of_index c vs : complex_wf c -> is_Some (vertex_to_simplex c !! vs) <-> vs ∈ vertices <$> simplices c.
Proof.
  intros Hwf. rewrite list_elem_of_fmap. split.
  - intros [i Hi]. apply (wf_index _ Hwf) in Hi as (s & Hs & <-). exists s. split; [done|].
    apply list_elem_of_lookup. by exists i.
  - intros (s & -> & [i Hi]%list_elem_of_lookup). exists i. apply (wf_index _ Hwf). by exists s.
Qed.

Lemma mapM_Permutation {A B} (f : A -> option B) l l' k :
  l ≡ₚ l' -> mapM f l = Some k -> exists k', mapM f l' = Some k' /\ k ≡ₚ k'.
Proof.
  intros Hp. revert k. induction Hp as [|x l l' _ IH|x y l|l1 l2 l3 _ IH1 _ IH2]; intros k.
  - by exists k.
  - simpl. destruct (f x) as [b|]; simpl; [|done]. destruct (mapM f l) as [k0|]; simpl; [|done]. intros [= <-].
    destruct (IH k0 eq_refl) as (k' & -> & Hk). exists (b :: k'). split; [done|]. by constructor.
  - simpl. destruct (f x), (f y); simpl; try done. destruct (mapM f l); simpl; [|done]. intros [= <-].
    eexists. split; [done|]. constructor.
  - intros (k2 & H2 & Hk2)%IH1. destruct (IH2 _ H2) as (k3 & H3 & Hk3). exists k3. split; [done|]. by etrans.
Qed.

(** The vertices of one ball that a sorted vertex list names form one of its index lists. *)
Lemma ball_tops_complete d b messages vs :
  builder_wf b -> length vs = S d -> StronglySorted lt vs ->
  (forall v, v ∈ vs -> exists j, (j < length messages)%nat /\ message_to_vertex b !! id_at messages j = Some v) ->
  exists ids us, ball_tops d messages ids /\ vertices_of b ids = Some us /\ vs = nat_sort us.
Proof.
  intros Hb Hlen Hs Hv. apply Forall2_choose in Hv as [js Hjs].
  assert (NoDup js) as Hnd.
  { apply NoDup_alt. intros x y j Hx Hy.
    destruct (Forall2_lookup_r _ _ _ _ _ Hjs Hx) as (v & Hvx & _ & Hv1).
    destruct (Forall2_lookup_r _ _ _ _ _ Hjs Hy) as (w & Hvy & _ & Hv2). simplify_eq.
    eapply NoDup_lookup; [by apply sorted_lt_NoDup|done..]. }
  pose proof (Forall2_length _ _ _ Hjs) as Hl.
  assert (vertices_of b (ids_at messages js) = Some vs) as Hvs.
  { unfold vertices_of, ids_at. apply mapM_Some, Forall2_fmap_l. apply Forall2_flip.
    eapply Forall2_impl; [exact Hjs|]. by intros v j [_ H]. }
  destruct (mapM_Permutation _ _ (ids_at messages (nat_sort js)) _ ltac:(unfold ids_at; by rewrite nat_sort_Permutation) Hvs)
    as (us & Hus & Hperm).
  exists (ids_at messages (nat_sort js)), us. split; [|split; [done|]].
  - exists (nat_sort js). split; [|done]. pose proof (nat_sort_strict js Hnd) as Hst.
    assert (length (nat_sort js) = S d) as Hlj by (rewrite nat_sort_Permutation; lia). split; [done|..].
    + intros x y Hxy. destruct (lookup_lt_is_Some_2 (nat_sort js) x) as [a Ha]; [lia|].
      destruct (lookup_lt_is_Some_2 (nat_sort js) y) as [c Hc]; [lia|]. rewrite Ha, Hc. simpl.
      eapply (StronglySorted_lookup_lt lt _ x y); [done..|lia].
    + intros x Hx. destruct (lookup_lt_is_Some_2 (nat_sort js) x) as [a Ha]; [lia|]. rewrite Ha. simpl.
      assert (a ∈ js) as [i Hi]%list_elem_of_lookup
        by (rewrite <-(nat_sort_Permutation js); apply list_elem_of_lookup; by exists x).
      by destruct (Forall2_lookup_r _ _ _ _ _ Hjs Hi) as (v & _ & ? & _).
  - symmetry. by apply nat_sort_unique.
Qed.

Lemma ball_tops_sound d b messages ids us :
  ball_tops d messages ids -> vertices_of b ids = Some us ->
  forall v, v ∈ us -> exists j, (j < length messages)%nat /\ message_to_vertex b !! id_at messages j = Some v.
Proof.
  intros (indices & Hc & ->) Hus v [x Hx]%list_elem_of_lookup. unfold vertices_of in Hus. apply mapM_Some in Hus.
  destruct (Forall2_lookup_r _ _ _ _ _ Hus Hx) as (i & Hi & Hv). unfold ids_at in Hi.
  rewrite list_lookup_fmap in Hi. apply fmap_Some in Hi as (j & Hj & ->). exists j. split; [|done].
  pose proof (cb_bound _ _ _ Hc x) as Hb. rewrite Hj in Hb. apply Hb.
  rewrite <-(cb_length _ _ _ Hc). by eapply lookup_lt_Some.
Qed.

(** ** Properties *)

(** The messages of [messages] in one ball, with their vertices. *)
Definition in_ball_vertex (b : AdicComplexBuilder) (messages : list AdicMessage) (ax : Z) (radius : nat)
    (ball : list Z) (v : VertexId) : Prop :=
  exists m, m ∈ messages /\ ball_of ax radius m = Some ball /\ get_vertex_id b (msg_id m) = Some v.

Section build.
Context (ball_iter : gmap (list Z) (list (MessageId * f64)) -> list (list Z * list (MessageId * f64))).
Context (Hiter : forall m, ball_iter m ≡ₚ map_to_list m).
Context (b : AdicComplexBuilder) (messages : list AdicMessage) (ax : Z) (radius d : nat).
Context (Hb : builder_wf b) (Hids : NoDup (msg_id <$> messages)) (Hlen : Z.of_nat (length messages) <= u64_max).

Let groups := group_by_ball messages ax radius.

Lemma group_lookup ball ms :
  (ball, ms) ∈ ball_iter groups <-> groups !! ball = Some ms.
Proof. rewrite Hiter. apply elem_of_map_to_list. Qed.

Lemma group_entries ball ms :
  groups !! ball = Some ms -> ms = entry_of <$> filter (fun m => ball_of ax radius m = Some ball) messages.
Proof. intros H. pose proof (group_by_ball_spec messages ax radius ball) as Hs. fold groups in Hs. by rewrite H in Hs. Qed.

Lemma groups_ok ball : ball ∈ ball_iter groups ->
  NoDup (ball.2.*1) /\ Forall (fun m => is_nan m.2 = false) ball.2 /\ Z.of_nat (length ball.2) <= u64_max.
Proof.
  destruct ball as [ball ms]. intros Hin%group_lookup%group_entries. simpl. subst ms. split_and!.
  - rewrite <-list_fmap_compose. eapply sublist_NoDup; [exact Hids|].
    apply (fmap_sublist msg_id), sublist_filter.
  - apply Forall_fmap, Forall_true. intros m. simpl. apply f64_of_Z_ok.
  - rewrite length_fmap. pose proof (sublist_length _ _ (sublist_filter (fun m => ball_of ax radius m = Some ball) messages)). lia.
Qed.

Lemma group_vertex b' ball ms v :
  groups !! ball = Some ms ->
  (exists j, (j < length ms)%nat /\ message_to_vertex b' !! id_at ms j = Some v) <->
  in_ball_vertex b' messages ax radius ball v.
Proof.
  intros ->%group_entries. unfold in_ball_vertex, get_vertex_id. split.
  - intros (j & Hj & Hv). destruct (lookup_lt_is_Some_2 _ _ Hj) as [e He].
    unfold id_at in Hv. rewrite He in Hv. rewrite list_lookup_fmap in He. apply fmap_Some in He as (m & Hm & ->).
    exists m. assert (m ∈ filter (fun m => ball_of ax radius m = Some ball) messages) as [? ?]%list_elem_of_filter
      by (apply list_elem_of_lookup; by exists j). done.
  - intros (m & Hm & Hball & Hv).
    assert (m ∈ filter (fun m => ball_of ax radius m = Some ball) messages) as [j Hj]%list_elem_of_lookup
      by (by apply list_elem_of_filter).
    exists j. split; [rewrite length_fmap; by eapply lookup_lt_Some|]. unfold id_at. by rewrite list_lookup_fmap, Hj.
Qed.

Lemma match_nonempty {A B} (l : list A) (x y : B) : l <> [] -> match l with [] => x | _ :: _ => y end = y.
Proof. by destruct l. Qed.

Lemma filtration_new : filtration complex_new.
Proof.
  split; [apply complex_new_wf|apply complex_new_closed|by intros ??|].
  intros j i. unfold get_face_ids, get_simplex. simpl. by intros ?%elem_of_nil.
Qed.
Lemma build_ok :
  exists b' c, build_from_messages ball_iter b messages ax radius d = Ok (Some (b', c)) /\
    filtration c /\ builder_wf b' /\ message_to_vertex b ⊆ message_to_vertex b' /\
    forall vs, length vs = S d -> StronglySorted lt vs ->
      is_Some (get_simplex_id c vs) <->
      exists ball, forall v, v ∈ vs -> in_ball_vertex b' messages ax radius ball v.
Proof.
  destruct (decide (messages = [])) as [He|Hne].
  { exists b, complex_new. unfold build_from_messages, in_ball_vertex. rewrite He.
    split; [done|]. split; [apply filtration_new|]. split; [done|]. split; [done|].
    intros vs Hvs _. split.
    - intros [i Hi]. unfold get_simplex_id in Hi. simpl in Hi. by rewrite lookup_empty in Hi.
    - intros [ball Hball]. destruct vs as [|v vs]; [done|]. by destruct (Hball v ltac:(left)) as (m & ?%elem_of_nil & _). }
  destruct (balls_ok d (ball_iter groups) [] b complex_new) as (b' & c & tops & Hf & Hsub & Hbd & Htops);
    [apply groups_ok|by apply building_start|].
  destruct (weights_filtered d c) as [Hnan Hfil]; [apply Hbd..|].
  destruct (sort_by_filtration_ok c) as (c' & Hsort & Hwf' & Hcl' & Hperm & Hord); [apply Hbd|apply Hbd|done|done|].
  exists b', c'. split.
  { unfold build_from_messages.
    rewrite (match_nonempty messages) by done. fold groups. rewrite Hf. by rewrite Hsort. }
  split; [|split; [apply Hbd|split; [done|]]].
  - split; [done|done| |done]. intros i s Hi.
    assert (vertices s ∈ vertices <$> simplices c) as (t & -> & [k Hk]%list_elem_of_lookup)%list_elem_of_fmap.
    { rewrite <-Hperm. apply list_elem_of_fmap_2, list_elem_of_lookup. by exists i. }
    by eapply (bd_simple _ _ _ _ Hbd).
  - intros vs Hvs Hs. unfold get_simplex_id.
    rewrite elem_of_index, Hperm, <-elem_of_index, (bd_tops _ _ _ _ Hbd) by (done || apply Hbd).
    setoid_rewrite Htops. split.
    + intros (ids & us & [(ball & Hin & Hids')|?%elem_of_nil] & Hus & ->); [|done].
      destruct ball as [ball ms]. apply group_lookup in Hin. exists ball. intros v Hv.
      rewrite nat_sort_Permutation in Hv. eapply (group_vertex b' ball ms); [done|]. by eapply ball_tops_sound.
    + intros [ball Hball]. destruct vs as [|v0 vs'] eqn:Evs; [done|]. rewrite <-Evs in *.
      assert (exists ms, groups !! ball = Some ms) as [ms Hms].
      { pose proof (group_by_ball_spec messages ax radius ball) as Hg. fold groups in Hg.
        destruct (Hball v0) as (m & Hm & Hmb & _); [rewrite Evs; left|].
        destruct (groups !! ball) as [ms|]; [by exists ms|]. simpl in Hg. exfalso.
        assert (m ∈ filter (fun m => ball_of ax radius m = Some ball) messages) as Hin by (by apply list_elem_of_filter).
        symmetry in Hg. apply fmap_nil_inv in Hg. rewrite Hg in Hin. by apply elem_of_nil in Hin. }
      destruct (ball_tops_complete d b' ms vs) as (ids & us & Ht & Hus & Heq); [apply Hbd|done|done| |].
      { intros v Hv. by apply (group_vertex b' ball ms), Hball. }
      exists ids, us. split; [|done]. left. exists (ball, ms). split; [by apply group_lookup|done].
Qed.
End build.

(** [build_from_messages] returns the nerve of the balls: for messages with distinct ids it
    terminates without a panic, whatever the order of the hash map, in a valid simplicial
    complex in filtration order whose [d]-simplices are exactly the sets of [d + 1] messages that
    share a p-adic ball on the axis; the builder's numbering is extended consistently. *)
Theorem build_from_messages_nerve
    (ball_iter : gmap (list Z) (list (MessageId * f64)) -> list (list Z * list (MessageId * f64)))
    (b : AdicComplexBuilder) (messages : list AdicMessage) (ax : Z) (radius d : nat)
    (Hiter : forall m, ball_iter m ≡ₚ map_to_list m) (Hb : builder_wf b)
    (Hids : NoDup (msg_id <$> messages)) (Hlen : Z.of_nat (length messages) <= u64_max) :
  exists b' c, build_from_messages ball_iter b messages ax radius d = Ok (Some (b', c)) /\
    filtration c /\ builder_wf b' /\ message_to_vertex b ⊆ message_to_vertex b' /\
    forall vs, length vs = S d -> StronglySorted lt vs ->
      is_Some (get_simplex_id c vs) <->
      exists ball, forall v, v ∈ vs -> in_ball_vertex b' messages ax radius ball v.
Proof. by apply build_ok. Qed.

(** A message with the given id, timestamp and digits on axis 0. *)
Definition example_message (i ts : Z) (ds : list Z) : AdicMessage :=
  mkMessage [i] [] (mkAdicFeatures [mkAxisPhi 0 (mkQpDigits ds 3)]) (AdicMeta_new ts) [] [] None [].

Lemma build_from_messages_nerve_witness :
  let messages := [example_message 1 10 [1; 0]; example_message 2 11 [2; 1]; example_message 3 12 [1; 2]] in
  exists b' c, build_from_messages map_to_list builder_new messages 0 1 1 = Ok (Some (b', c)) /\
    filtration c /\ builder_wf b' /\ message_to_vertex builder_new ⊆ message_to_vertex b' /\
    forall vs, length vs = 2%nat -> StronglySorted lt vs ->
      is_Some (get_simplex_id c vs) <->
      exists ball, forall v, v ∈ vs -> in_ball_vertex b' messages 0 1 ball v.
Proof.
  apply (build_from_messages_nerve map_to_list builder_new
    [example_message 1 10 [1; 0]; example_message 2 11 [2; 1]; example_message 3 12 [1; 2]] 0 1 1);
    [done|apply builder_new_wf| |by vm_compute].
  repeat constructor; set_solver.
Defined.
