(* ===== verification/Streaming.v ===== *)
(** * Streaming persistent homology

    [adic-finality/src/ph/streaming.rs].  The engine keeps a complex, its boundary matrix and a
    reduction between rounds, and reduces only the columns of the new simplices.  The iteration
    orders of the hash maps ([ball_iter], [pair_iter]) and the clock ([now]) are arguments. *)

From S2P Require Import Prelude F64 Padic Message Simplex Matrix Homology Persistence AdicComplex.

Record PersistenceSnapshot := mkSnapshot {
  snap_round : Z;
  snap_persistence : PersistenceData;
  snap_num_simplices : nat;
  snap_timestamp : Z;
}.

Record StreamingPersistence := mkStreaming {
  st_complex : SimplicialComplex;
  st_matrix : BoundaryMatrix;
  st_reduction : ReductionResult;
  st_persistence : PersistenceData;
  last_reduced_index : nat;
  snapshots : list PersistenceSnapshot;
  max_snapshots : nat;
  st_dimension : nat;
  st_radius : nat;
  st_axis : Z;
  total_incremental_reductions : nat;
  total_xor_operations : nat;
}.

Definition DEFAULT_MAX_SNAPSHOTS : nat := 10.

Definition streaming_new (d radius : nat) (ax : Z) : StreamingPersistence :=
  mkStreaming complex_new (from_complex complex_new) (mkReduction (from_complex complex_new) ∅ [])
    data_new 0 [] DEFAULT_MAX_SNAPSHOTS d radius ax 0 0.

Definition streaming_num_simplices (st : StreamingPersistence) : nat := num_simplices (st_complex st).
Definition streaming_get_diagram (st : StreamingPersistence) (d : nat) : option PersistenceDiagram :=
  get_diagram (st_persistence st) d.

(** The columns of the simplices from [start_index] on, read off the grown complex. *)
Definition new_columns_of (c : SimplicialComplex) (start_index : nat) : list Column :=
  (fun s => nat_sort (get_face_ids c (sx_id s))) <$> drop start_index (simplices c).

Definition extend_boundary_matrix (st : StreamingPersistence) (start_index : nat) : StreamingPersistence :=
  mkStreaming (st_complex st) (append_columns (st_matrix st) (new_columns_of (st_complex st) start_index))
    (st_reduction st) (st_persistence st) (last_reduced_index st) (snapshots st) (max_snapshots st)
    (st_dimension st) (st_radius st) (st_axis st) (total_incremental_reductions st) (total_xor_operations st).

(** The [while let] loop of [incremental_reduce] on the matrix, the pairs and the counter. *)
Fixpoint incremental_column (fuel : nat) (m : BoundaryMatrix) (prs : gmap ColIndex RowIndex) (xors : nat)
    (col : ColIndex) : option (BoundaryMatrix * gmap ColIndex RowIndex * nat) :=
  match lowest_face m col with
  | None => Some (m, prs, xors)
  | Some pivot =>
      match find_column_with_pivot m pivot with
      | None => Some (update_pivot m col, <[col := pivot]> prs, xors)
      | Some other_col =>
          match fuel with
          | O => None
          | S fuel => incremental_column fuel (xor_columns m col other_col) prs (S xors) col
          end
      end
  end.

(** The [for] loop: after each column, an empty one that is no death is pushed to [unpaired]. *)
Fixpoint incremental_loop (m : BoundaryMatrix) (prs : gmap ColIndex RowIndex) (unp : list ColIndex)
    (xors : nat) (cols : list ColIndex)
    : option (BoundaryMatrix * gmap ColIndex RowIndex * list ColIndex * nat) :=
  match cols with
  | [] => Some (m, prs, unp, xors)
  | col :: cols =>
      '(m, prs, xors) ← incremental_column (column_fuel m col) m prs xors col;
      let unp := if is_empty_column m col && bool_decide (prs !! col = None) then unp ++ [col] else unp in
      incremental_loop m prs unp xors cols
  end.

Definition incremental_reduce (st : StreamingPersistence) (start_col : nat) : option StreamingPersistence :=
  let n := num_columns (st_matrix st) in
  if (n <=? start_col)%nat then Some st
  else
    '(m, prs, unp, xors) ←
      incremental_loop (st_matrix st) (pairs (st_reduction st)) (unpaired (st_reduction st))
        (total_xor_operations st) (seq start_col (n - start_col));
    Some (mkStreaming (st_complex st) m (mkReduction (matrix (st_reduction st)) prs unp)
      (st_persistence st) n (snapshots st) (max_snapshots st) (st_dimension st) (st_radius st) (st_axis st)
      (total_incremental_reductions st + (n - start_col)) xors).

Section orders.
Context (ball_iter : gmap (list Z) (list (MessageId * f64)) -> list (list Z * list (MessageId * f64))).
Context (pair_iter : gmap ColIndex RowIndex -> list (ColIndex * RowIndex)).

Definition update_persistence (st : StreamingPersistence) : result Empty_set StreamingPersistence :=
  let? data := from_reduction (pair_iter (pairs (st_reduction st))) (st_reduction st) (st_complex st) in
  Ok (mkStreaming (st_complex st) (st_matrix st) (st_reduction st) data (last_reduced_index st)
    (snapshots st) (max_snapshots st) (st_dimension st) (st_radius st) (st_axis st)
    (total_incremental_reductions st) (total_xor_operations st)).

(** [push_back], then [pop_front] while there are more than [max_snapshots]. *)
Definition take_snapshot (st : StreamingPersistence) (now round : Z) : StreamingPersistence :=
  let snap := mkSnapshot round (st_persistence st) (num_simplices (st_complex st)) now in
  let all := snapshots st ++ [snap] in
  mkStreaming (st_complex st) (st_matrix st) (st_reduction st) (st_persistence st) (last_reduced_index st)
    (drop (length all - max_snapshots st) all) (max_snapshots st) (st_dimension st) (st_radius st)
    (st_axis st) (total_incremental_reductions st) (total_xor_operations st).

Definition with_complex (st : StreamingPersistence) (c : SimplicialComplex) : StreamingPersistence :=
  mkStreaming c (st_matrix st) (st_reduction st) (st_persistence st) (last_reduced_index st)
    (snapshots st) (max_snapshots st) (st_dimension st) (st_radius st) (st_axis st)
    (total_incremental_reductions st) (total_xor_operations st).

(** The steps after the new simplices have been built: append, extend, reduce, update,
    snapshot.  [Ok None] is an exhausted fuel, which does not happen ([add_complex_ok]). *)
Definition add_complex (st : StreamingPersistence) (new_complex : SimplicialComplex) (now round : Z)
    : result PhError (option (StreamingPersistence * nat)) :=
  let new_simplices_count := num_simplices new_complex in
  if (new_simplices_count =? 0)%nat then Ok (Some (st, 0%nat))
  else
    let initial_simplices := num_simplices (st_complex st) in
    let? c := append_simplices (st_complex st) new_complex in
    let st := extend_boundary_matrix (with_complex st c) initial_simplices in
    match incremental_reduce st initial_simplices with
    | None => Ok None
    | Some st =>
        match update_persistence st with
        | Ok st => Ok (Some (take_snapshot st now round, new_simplices_count))
        | _ => Panic
        end
    end.

(** [add_messages]: note the fresh builder of every call. *)
Definition add_messages (st : StreamingPersistence) (messages : list AdicMessage) (now round : Z)
    : result PhError (option (StreamingPersistence * nat)) :=
  match messages with
  | [] => Ok (Some (st, 0%nat))
  | _ =>
      let? built := build_from_messages ball_iter builder_new messages (to_u32 (st_axis st))
                      (st_radius st) (st_dimension st) in
      match built with
      | None => Ok None
      | Some (_, new_complex) => add_complex st new_complex now round
      end
  end.
End orders.

Definition get_snapshot_delta_rounds_ago (st : StreamingPersistence) (delta : nat) : option PersistenceSnapshot :=
  if (length (snapshots st) <? delta + 1)%nat then None
  else snapshots st !! (length (snapshots st) - delta - 1)%nat.

(** [metrics] without the memory estimate. *)
Record StreamingMetrics := mkMetrics {
  total_simplices : nat;
  total_snapshots : nat;
  sm_incremental_reductions : nat;
  sm_xor_operations : nat;
}.
Definition metrics (st : StreamingPersistence) : StreamingMetrics :=
  mkMetrics (num_simplices (st_complex st)) (length (snapshots st)) (total_incremental_reductions st)
    (total_xor_operations st).

Definition streaming_reset (st : StreamingPersistence) : StreamingPersistence :=
  mkStreaming complex_new (from_complex complex_new) (mkReduction (from_complex complex_new) ∅ [])
    data_new 0 [] (max_snapshots st) (st_dimension st) (st_radius st) (st_axis st) 0 0.

(** ** The incremental loop is the batch loop *)

Definition add_pair (m : BoundaryMatrix) (col : ColIndex) (prs : gmap ColIndex RowIndex) : gmap ColIndex RowIndex :=
  match lowest_face m col with Some p => <[col := p]> prs | None => prs end.

Lemma incremental_column_reduce fuel m prs xors col m' :
  reduce_column fuel m col = Some m' ->
  exists xors', incremental_column fuel m prs xors col = Some (m', add_pair m' col prs, xors').
Proof.
  revert m xors; induction fuel as [|fuel IH]; intros m xors; cbn [reduce_column incremental_column]; unfold add_pair;
    destruct (lowest_face m col) as [pivot|] eqn:Hlow; try (intros [= <-]; rewrite Hlow; by eexists);
    destruct (find_column_with_pivot m pivot) as [other|] eqn:Hfind; try done;
    try (intros [= <-]; unfold update_pivot; rewrite Hlow; unfold lowest_face in *; simpl; rewrite Hlow; by eexists).
  intros H. by apply IH.
Qed.

(** The pairs, the essential candidates and the matrix after the first [k] columns. *)
Record incremental_ok (D : list Column) (k : nat) (m : BoundaryMatrix) (prs : gmap ColIndex RowIndex)
    (unp : list ColIndex) : Prop := {
  ic_reducing : reducing D m k k;
  ic_pairs : forall j p, prs !! j = Some p <-> (j < k)%nat /\ lowest_face m j = Some p;
  ic_unpaired : unp = filter (fun j => lowest_face m j = None) (seq 0 k);
}.

Lemma incremental_step D k m prs unp xors :
  (k < length D)%nat -> incremental_ok D k m prs unp ->
  exists m' prs' xors', reduce_column (column_fuel m k) m k = Some m' /\
    incremental_column (column_fuel m k) m prs xors k = Some (m', prs', xors') /\
    incremental_ok D (S k) m' prs'
      (if is_empty_column m' k && bool_decide (prs' !! k = None) then unp ++ [k] else unp).
Proof.
  intros Hk [Hrd Hp Hu].
  destruct (reduce_column_ok (column_fuel m k) D m k) as (m' & Hm' & Hrd'); [lia|..].
  { eapply reducing_widen; [|done]. lia. }
  { intros p Hp'. unfold column_fuel. rewrite Hp'. lia. }
  destruct (incremental_column_reduce _ _ prs xors _ _ Hm') as [xors' Hi].
  exists m', (add_pair m' k prs), xors'. split; [done|]. split; [done|].
  assert (forall j, j <> k -> lowest_face m' j = lowest_face m j) as Hother.
  { intros j Hj. unfold lowest_face. by rewrite (reduce_column_other _ _ _ _ j Hm'). }
  assert (prs !! k = None) as Hprk.
  { apply eq_None_not_Some. intros [p [Hlt _]%Hp]. lia. }
  split; [done|..].
  - intros j p. unfold add_pair. destruct (decide (j = k)) as [->|Hne].
    + destruct (lowest_face m' k) as [q|].
      * rewrite lookup_insert_eq. naive_solver lia.
      * rewrite Hprk. naive_solver.
    + rewrite (Hother j) by done. transitivity (prs !! j = Some p).
      * destruct (lowest_face m' k); [by rewrite lookup_insert_ne|done].
      * rewrite Hp. naive_solver lia.
  - rewrite seq_S, filter_app. cbn [plus].
    assert (filter (fun j => lowest_face m' j = None) (seq 0 k) = unp) as ->.
    { rewrite Hu. apply list_filter_ext. intros j Hj%elem_of_seq. rewrite Hother by lia. done. }
    destruct (lookup_lt_is_Some_2 (columns m') k) as [c Hc]; [rewrite (rd_length _ _ _ _ Hrd'); lia|].
    unfold is_empty_column, add_pair, lowest_face. rewrite Hc. simpl.
    rewrite filter_cons, filter_nil. destruct (last c) as [p|] eqn:Hlast.
    + rewrite decide_False by (rewrite Hc; simpl; congruence). destruct c; [done|]. simpl. by rewrite app_nil_r.
    + apply last_None in Hlast. subst c. simpl. rewrite decide_True by (by rewrite Hc). by rewrite bool_decide_true.
Qed.

Lemma incremental_loop_ok D len : forall k m prs unp xors,
  (k + len <= length D)%nat -> incremental_ok D k m prs unp ->
  exists m' prs' unp' xors',
    incremental_loop m prs unp xors (seq k len) = Some (m', prs', unp', xors') /\
    reduce_range m (seq k len) = Some m' /\ incremental_ok D (k + len) m' prs' unp'.
Proof.
  induction len as [|len IH]; intros k m prs unp xors Hle Hok; cbn [seq incremental_loop reduce_range].
  { exists m, prs, unp, xors. by rewrite Nat.add_0_r. }
  destruct (incremental_step D k m prs unp xors) as (m1 & prs1 & x1 & -> & -> & Hok1); [lia|done|].
  cbn [mbind option_bind].
  destruct (IH (S k) m1 prs1 _ x1 ltac:(lia) Hok1) as (m' & prs' & unp' & x' & -> & -> & Hok').
  exists m', prs', unp', x'. split; [done|]. split; [done|]. by rewrite Nat.add_succ_r.
Qed.

(** ** Appending a complex *)

Definition shift (n : nat) (c : Column) : Column := Nat.add n <$> c.

Lemma nat_sort_shift n l : nat_sort (shift n l) = shift n (nat_sort l).
Proof.
  unfold nat_sort, shift. induction l as [|x l IH]; [done|]. rewrite fmap_cons. cbn [isort]. rewrite IH. clear IH.
  induction (isort Nat.leb l) as [|y k IHk]; [done|]. rewrite fmap_cons. cbn [insert_sorted].
  replace (n + x <=? n + y)%nat with (x <=? y)%nat by (destruct (x <=? y)%nat eqn:E; zbool; symmetry; [apply Nat.leb_le|apply Nat.leb_gt]; lia).
  destruct (x <=? y)%nat; [done|]. by rewrite fmap_cons, IHk.
Qed.

Lemma shift_sorted n c : sorted_col c -> sorted_col (shift n c).
Proof.
  unfold sorted_col, shift. induction 1 as [|x c Hs IH Hall]; [constructor|]. rewrite fmap_cons. constructor; [done|].
  apply Forall_fmap. eapply Forall_impl; [exact Hall|]. intros y; simpl; lia.
Qed.

Lemma append_one_foldl (l : list Simplex) c :
  next_id c = num_simplices c -> NoDup (vertices <$> l) ->
  let c' := foldl append_one c l in
  next_id c' = num_simplices c' /\ num_simplices c' = (num_simplices c + length l)%nat /\
  simplices c' = simplices c ++ imap (fun i s => renumber (num_simplices c + i) s) l /\
  forall i s, l !! i = Some s -> vertex_to_simplex c' !! vertices s = Some (num_simplices c + i)%nat.
Proof.
  intros Hn Hnd. simpl. induction l as [|s l IH] using rev_ind; cbn [foldl imap].
  { rewrite app_nil_r. split; [done|]. split; [simpl; lia|]. by split. }
  rewrite fmap_app in Hnd. apply NoDup_app in Hnd as (Hnd & Hdis & _).
  destruct (IH Hnd) as (H1 & H2 & H3 & H4). rewrite foldl_app. cbn [foldl].
  set (c1 := foldl append_one c l) in *. unfold append_one at 1 2 3 4 5. unfold num_simplices in *. simpl.
  rewrite !length_app, H1, H2. simpl. split; [lia|]. split; [lia|]. split.
  - rewrite H3, imap_app, app_assoc. f_equal. simpl. unfold renumber. by rewrite Nat.add_0_r.
  - intros i t Hi. apply lookup_app_Some in Hi as [Hi|[Hge Hi]].
    + rewrite lookup_insert_ne; [by apply H4|]. intros Heq.
      apply (Hdis (vertices t)); [apply list_elem_of_fmap_2, list_elem_of_lookup; by exists i|rewrite <-Heq; left].
    + apply list_lookup_singleton_Some in Hi as [Hi <-]. rewrite lookup_insert_eq. f_equal. lia.
Qed.

(** The appended columns are the boundary matrix of the new complex, moved to its place. *)
Lemma new_columns_shift c nc :
  next_id c = num_simplices c -> filtration nc ->
  new_columns_of (foldl append_one c (simplices nc)) (num_simplices c) =
  shift (num_simplices c) <$> columns (from_complex nc).
Proof.
  intros Hn [Hwf Hcl _ _]. pose proof (wf_vertices_NoDup nc Hwf) as Hnd.
  destruct (append_one_foldl (simplices nc) c Hn Hnd) as (_ & Hlen & Hs & Hidx). simpl in *.
  set (c' := foldl append_one c (simplices nc)) in *. unfold new_columns_of.
  rewrite Hs, drop_app_length' by done.
  apply list_eq. intros i. rewrite !list_lookup_fmap, list_lookup_imap.
  destruct (simplices nc !! i) as [s|] eqn:Hi; simpl; [|done]. f_equal.
  rewrite <-nat_sort_shift. f_equal. destruct (wf_simplex _ Hwf _ _ Hi) as [-> _].
  unfold get_face_ids, get_simplex. rewrite Hi.
  rewrite Hs, lookup_app_r by (unfold num_simplices; lia).
  replace (num_simplices c + i - length (simplices c))%nat with i by (unfold num_simplices; lia).
  rewrite list_lookup_imap, Hi. simpl. rewrite faces_renumber.
  assert (forall f, f ∈ faces s -> get_simplex_id c' f = Nat.add (num_simplices c) <$> get_simplex_id nc f) as Hf.
  { intros f Hf. destruct (Hcl i s f Hi Hf) as [j Hj]. unfold get_simplex_id. rewrite Hj. simpl.
    apply (wf_index _ Hwf) in Hj as (t & Ht & <-). by apply Hidx. }
  unfold shift. induction (faces s) as [|f fs IH]; [done|]. simpl. rewrite Hf by left.
  specialize (IH ltac:(intros; apply Hf; by right)).
  destruct (get_simplex_id nc f); simpl; [by f_equal|done].
Qed.

(** ** The engine refines batch reduction of the block-diagonal matrix *)

(** The boundary matrices of the complexes added so far, one block after the other. *)
Definition add_block (D : list Column) (nc : SimplicialComplex) : list Column :=
  D ++ (shift (length D) <$> columns (from_complex nc)).
Definition blocks (ncs : list SimplicialComplex) : list Column := foldl add_block [] ncs.

Definition zero_columns (m : BoundaryMatrix) (n : nat) : list nat :=
  filter (fun j => lowest_face m j = None) (seq 0 n).

Record streaming_inv (ncs : list SimplicialComplex) (st : StreamingPersistence) : Prop := {
  si_next : next_id (st_complex st) = num_simplices (st_complex st);
  si_length : length (blocks ncs) = num_simplices (st_complex st);
  si_sorted : Forall sorted_col (blocks ncs);
  si_lower : forall j c x, blocks ncs !! j = Some c -> x ∈ c -> (x < j)%nat;
  si_range : reduce_range (mkMatrix (blocks ncs) ∅) (seq 0 (length (blocks ncs))) = Some (st_matrix st);
  si_state : incremental_ok (blocks ncs) (length (blocks ncs)) (st_matrix st)
    (pairs (st_reduction st)) (unpaired (st_reduction st));
  si_snapshots : (length (snapshots st) <= max_snapshots st)%nat;
}.

(** The pairs and the matrix are those of a batch reduction of all columns; [unpaired] lists
    every zero column, births that have died included. *)
Lemma streaming_inv_batch ncs st :
  streaming_inv ncs st ->
  exists r, reduce_boundary_matrix (mkMatrix (blocks ncs) ∅) = Some r /\
    st_matrix st = matrix r /\ pairs (st_reduction st) = pairs r /\
    unpaired (st_reduction st) = zero_columns (matrix r) (length (blocks ncs)).
Proof.
  intros [_ _ Hs _ Hrange [Hrd Hp Hu] _].
  destruct (reduce_boundary_matrix_ok (blocks ncs) ∅ Hs) as (m & Hm & Hrd' & Hr).
  change (clear_pivots (mkMatrix (blocks ncs) ∅)) with (mkMatrix (blocks ncs) ∅) in Hm.
  rewrite Hrange in Hm. injection Hm as <-. rewrite Hr. eexists. split; [done|]. simpl.
  split; [done|]. split; [|exact Hu]. apply map_eq. intros j. apply option_eq. intros p.
  rewrite Hp, (reducing_pairs _ _ _ _ Hrd'). split; [by intros []|]. intros Hlow. split; [|done].
  apply lowest_face_Some in Hlow as (c & Hj & _). rewrite <-(rd_length _ _ _ _ Hrd). by eapply lookup_lt_Some.
Qed.

Lemma streaming_inv_new d radius ax : streaming_inv [] (streaming_new d radius ax).
Proof.
  split; simpl; try done; try lia.
  - split; [by apply (reducing_start [])| |done]. intros j p. rewrite lookup_empty. split; [done|lia].
Qed.

Lemma add_block_ok D nc :
  Forall sorted_col D -> (forall j c x, D !! j = Some c -> x ∈ c -> (x < j)%nat) -> filtration nc ->
  Forall sorted_col (add_block D nc) /\
  (forall j c x, add_block D nc !! j = Some c -> x ∈ c -> (x < j)%nat) /\
  length (add_block D nc) = (length D + num_simplices nc)%nat.
Proof.
  intros Hs Hlow [Hwf Hcl Hsi Hord]. unfold add_block.
  pose proof (from_complex_sorted nc Hwf Hsi) as Hsn. unfold matrix_sorted in Hsn. split_and!.
  - apply Forall_app. split; [done|]. apply Forall_fmap. eapply Forall_impl; [exact Hsn|].
    intros c. apply shift_sorted.
  - intros j c x [Hj|[Hge Hj]]%lookup_app_Some Hx; [by eapply Hlow|].
    rewrite list_lookup_fmap in Hj. apply fmap_Some in Hj as (c0 & Hj & ->).
    apply list_elem_of_fmap in Hx as (x0 & -> & Hx).
    assert (x0 < j - length D)%nat; [|lia]. apply Hord.
    rewrite from_complex_lookup in Hj by done. apply fmap_Some in Hj as (s & Hs' & ->).
    unfold get_face_ids, get_simplex. rewrite Hs'. by rewrite nat_sort_Permutation in Hx.
  - rewrite length_app, length_fmap. unfold from_complex, num_simplices. simpl. by rewrite length_fmap.
Qed.

Lemma blocks_snoc ncs nc : blocks (ncs ++ [nc]) = add_block (blocks ncs) nc.
Proof. unfold blocks. by rewrite foldl_app. Qed.

Section refinement.
Context (ball_iter : gmap (list Z) (list (MessageId * f64)) -> list (list Z * list (MessageId * f64))).
Context (pair_iter : gmap ColIndex RowIndex -> list (ColIndex * RowIndex)).
Context (Hball : forall m, ball_iter m ≡ₚ map_to_list m) (Hpair : forall m, pair_iter m ≡ₚ map_to_list m).

(** The appended complex, before its columns are reduced. *)
Lemma extended_ok ncs st nc :
  streaming_inv ncs st -> filtration nc ->
  let c := foldl append_one (st_complex st) (simplices nc) in
  let st1 := extend_boundary_matrix (with_complex st c) (num_simplices (st_complex st)) in
  let D := blocks (ncs ++ [nc]) in
  next_id c = num_simplices c /\ length D = num_simplices c /\ Forall sorted_col D /\
  (forall j c x, D !! j = Some c -> x ∈ c -> (x < j)%nat) /\
  length D = (num_simplices (st_complex st) + num_simplices nc)%nat /\
  num_columns (st_matrix st1) = length D /\
  incremental_ok D (num_simplices (st_complex st)) (st_matrix st1)
    (pairs (st_reduction st)) (unpaired (st_reduction st)) /\
  reduce_range (mkMatrix D ∅) (seq 0 (length D)) =
    reduce_range (st_matrix st1) (seq (num_simplices (st_complex st)) (num_simplices nc)).
Proof.
  intros [Hn Hl Hs Hlow Hrange [Hrd Hp Hu] _] Hnc. simpl. rewrite blocks_snoc.
  destruct (add_block_ok (blocks ncs) nc Hs Hlow Hnc) as (Hs' & Hlow' & Hl').
  destruct (append_one_foldl (simplices nc) (st_complex st) Hn (wf_vertices_NoDup nc (fl_wf _ Hnc)))
    as (Hn1 & Hlen1 & _ & _). simpl in Hn1, Hlen1.
  rewrite (new_columns_shift (st_complex st) nc Hn Hnc).
  assert (Forall sorted_col (shift (num_simplices (st_complex st)) <$> columns (from_complex nc))) as HX.
  { unfold add_block in Hs'. apply Forall_app in Hs' as [_ Hs']. by rewrite <-Hl. }
  assert (length (columns (from_complex nc)) = num_simplices nc) as HlX by apply length_fmap.
  assert (num_columns (st_matrix st) = num_simplices (st_complex st)) as Hcols
    by (unfold num_columns; rewrite (rd_length _ _ _ _ Hrd); done).
  split; [done|]. split; [rewrite Hl', Hlen1, Hl; done|]. split; [done|]. split; [done|].
  split; [lia|]. split; [unfold num_columns in *; simpl; rewrite length_app, !length_fmap; unfold num_simplices in *; lia|].
  unfold add_block. rewrite Hl in *. split.
  - split.
    + by apply reducing_grow.
    + intros j p. rewrite Hp. split; intros [Hj Hlo]; (split; [done|]);
        [rewrite lowest_face_append by lia|rewrite lowest_face_append in Hlo by lia]; done.
    + rewrite Hu. apply list_filter_ext. intros j Hj%elem_of_seq. rewrite lowest_face_append by lia. done.
  - rewrite length_app, length_fmap, HlX, Hl. by apply reduce_range_grow; [|rewrite length_fmap|..].
Qed.

Lemma add_complex_ok ncs st nc now round :
  streaming_inv ncs st -> filtration nc -> num_simplices nc <> 0%nat ->
  match append_simplices (st_complex st) nc with
  | Ok c => exists st', add_complex pair_iter st nc now round = Ok (Some (st', num_simplices nc)) /\
      streaming_inv (ncs ++ [nc]) st' /\ st_complex st' = c
  | Err e => add_complex pair_iter st nc now round = Err e
  | Panic => False
  end.
Proof.
  intros Hinv Hnc Hne. unfold add_complex. replace (num_simplices nc =? 0)%nat with false by (symmetry; by apply Nat.eqb_neq).
  unfold append_simplices. destruct (f64_ltb _ _); [done|]. cbn [result_bind].
  destruct (extended_ok ncs st nc Hinv Hnc) as (Hn & Hl & Hs & Hlow & Hl2 & Hcols & Hok & Hrange). simpl in *.
  set (c := foldl append_one (st_complex st) (simplices nc)) in *.
  set (st1 := extend_boundary_matrix (with_complex st c) (num_simplices (st_complex st))) in *.
  unfold incremental_reduce.
  change (st_matrix st1) with (append_columns (st_matrix st) (new_columns_of c (num_simplices (st_complex st)))).
  rewrite Hcols, Hl2.
  replace (_ <=? _)%nat with false by (symmetry; apply Nat.leb_gt; lia).
  replace (num_simplices (st_complex st) + num_simplices nc - num_simplices (st_complex st))%nat
    with (num_simplices nc) by lia.
  destruct (incremental_loop_ok (blocks (ncs ++ [nc])) (num_simplices nc) (num_simplices (st_complex st))
    (append_columns (st_matrix st) (new_columns_of c (num_simplices (st_complex st))))
    (pairs (st_reduction st)) (unpaired (st_reduction st)) (total_xor_operations st))
    as (m' & prs' & unp' & x' & Hloop & Hred & Hok'); [lia|done|].
  change (pairs (st_reduction st1)) with (pairs (st_reduction st)).
  change (unpaired (st_reduction st1)) with (unpaired (st_reduction st)).
  change (total_xor_operations st1) with (total_xor_operations st).
  rewrite Hloop. cbn [mbind option_bind].
  destruct Hok' as [Hrd Hp Hu].
  assert (forall j, (j < num_simplices (st_complex st) + num_simplices nc)%nat -> (j < num_simplices c)%nat) as Hb by lia.
  unfold update_persistence. simpl st_reduction. simpl st_complex. simpl pairs.
  destruct (from_reduction_total c (mkReduction (matrix (st_reduction st)) prs' unp') (pair_iter prs'))
    as (data & -> & _).
  - intros d b [Hd Hlowest]%Hp. split; [by apply Hb|].
    apply lowest_face_Some in Hlowest as (cd & Hcd & Hlast).
    destruct (rd_columns _ _ _ _ Hrd _ _ Hcd) as [Hsc Hcomb].
    assert (b < d)%nat; [|specialize (Hb d Hd); lia].
    eapply (combination_bound (blocks (ncs ++ [nc]))); [exact Hlow|exact Hcomb|]. by eapply sorted_last_max.
  - simpl. rewrite Hu. intros j [_ Hj%elem_of_seq]%list_elem_of_filter. apply Hb. lia.
  - apply Hpair.
  - cbn [result_bind]. eexists. split; [done|]. split; [|done]. split; simpl; try done.
    + rewrite Hrange. exact Hred.
    + rewrite Hl2. by split.
    + rewrite length_drop, length_app. simpl. lia.
Qed.
End refinement.

(** ** Properties *)

(** C37: incremental reduction refines batch reduction: adding messages to an engine that holds
    the blocks [ncs] never panics or runs out of steps; it either leaves the state alone (nothing
    to add), reports that the monotonicity check of the filtration failed, or appends the complex
    of the messages as a further diagonal block, after which matrix and pairs are those a batch
    reduction of the whole matrix returns, and at most [max_snapshots] snapshots are kept. *)
Theorem add_messages_refines_batch
    (ball_iter : gmap (list Z) (list (MessageId * f64)) -> list (list Z * list (MessageId * f64)))
    (pair_iter : gmap ColIndex RowIndex -> list (ColIndex * RowIndex))
    (ncs : list SimplicialComplex) (st : StreamingPersistence) (messages : list AdicMessage) (now round : Z)
    (Hball : forall m, ball_iter m ≡ₚ map_to_list m) (Hpair : forall m, pair_iter m ≡ₚ map_to_list m)
    (Hst : streaming_inv ncs st) (Hids : NoDup (msg_id <$> messages))
    (Hlen : Z.of_nat (length messages) <= u64_max) :
  match add_messages ball_iter pair_iter st messages now round with
  | Ok (Some (st', k)) =>
      (st' = st /\ k = 0%nat) \/
      exists b nc r,
        build_from_messages ball_iter builder_new messages (to_u32 (st_axis st)) (st_radius st) (st_dimension st) =
          Ok (Some (b, nc)) /\ k = num_simplices nc /\ streaming_inv (ncs ++ [nc]) st' /\
        reduce_boundary_matrix (mkMatrix (blocks (ncs ++ [nc])) ∅) = Some r /\
        st_matrix st' = matrix r /\ pairs (st_reduction st') = pairs r /\
        unpaired (st_reduction st') = zero_columns (matrix r) (length (blocks (ncs ++ [nc])))
  | Err (MonotonicityViolated new existing) => f64_ltb new existing = true
  | _ => False
  end.
Proof.
  unfold add_messages. destruct messages as [|m0 ms]; [by left|].
  destruct (build_ok ball_iter Hball builder_new (m0 :: ms) (to_u32 (st_axis st)) (st_radius st) (st_dimension st))
    as (b & nc & Hbuild & Hnc & _); [apply builder_new_wf|done|done|].
  rewrite Hbuild. cbn [result_bind].
  destruct (decide (num_simplices nc = 0%nat)) as [E|Hne].
  { unfold add_complex. rewrite E. by left. }
  pose proof (add_complex_ok pair_iter Hpair ncs st nc now round Hst Hnc Hne) as H.
  destruct (append_simplices (st_complex st) nc) as [c|e|] eqn:Happ; [|rewrite H|done].
  - destruct H as (st' & -> & Hinv & _). right. destruct (streaming_inv_batch _ _ Hinv) as (r & ? & ? & ? & ?).
    by exists b, nc, r.
  - unfold append_simplices in Happ. destruct (f64_ltb _ _) eqn:Ef; [|done]. by injection Happ as <-.
Qed.

Lemma add_messages_refines_batch_witness :
  let messages := [example_message 1 10 [1; 0]; example_message 2 11 [1; 1]] in
  match add_messages map_to_list map_to_list (streaming_new 1 1 0) messages 0 0 with
  | Ok (Some (st', k)) =>
      (st' = streaming_new 1 1 0 /\ k = 0%nat) \/
      exists b nc r,
        build_from_messages map_to_list builder_new messages 0 1 1 = Ok (Some (b, nc)) /\
        k = num_simplices nc /\ streaming_inv [nc] st' /\
        reduce_boundary_matrix (mkMatrix (blocks [nc]) ∅) = Some r /\
        st_matrix st' = matrix r /\ pairs (st_reduction st') = pairs r /\
        unpaired (st_reduction st') = zero_columns (matrix r) (length (blocks [nc]))
  | Err (MonotonicityViolated new existing) => f64_ltb new existing = true
  | _ => False
  end.
Proof.
  apply (add_messages_refines_batch map_to_list map_to_list [] (streaming_new 1 1 0)
    [example_message 1 10 [1; 0]; example_message 2 11 [1; 1]] 0 0); [done|done|apply streaming_inv_new| |by vm_compute].
  repeat constructor; set_solver.
Defined.

(** the diagrams differ from batch mode all the same: a vertex that dies with the edge that
    absorbs it stays in [unpaired], so two messages in one ball, which are one component for the
    batch computation, have Betti number 2 in the engine. *)
Theorem streaming_overcounts :
  let messages := [example_message 1 10 [1; 0]; example_message 2 11 [1; 1]] in
  exists b c r data st k,
    build_from_messages map_to_list builder_new messages 0 1 1 = Ok (Some (b, c)) /\
    reduce_boundary_matrix (from_complex c) = Some r /\
    from_reduction (map_to_list (pairs r)) r c = Ok data /\
    add_messages map_to_list map_to_list (streaming_new 1 1 0) messages 0 0 = Ok (Some (st, k)) /\
    betti_numbers data = [1]%nat /\ betti_numbers (st_persistence st) = [2]%nat /\
    pairs (st_reduction st) = pairs r /\ unpaired r = [0]%nat /\ unpaired (st_reduction st) = [0; 1]%nat.
Proof.
  do 6 eexists. split; [vm_compute; reflexivity|]. split; [vm_compute; reflexivity|].
  split; [vm_compute; reflexivity|]. split; [vm_compute; reflexivity|]. by vm_compute.
Qed.

(** [get_snapshot_delta_rounds_ago] counts back from the newest snapshot. *)
Lemma snapshot_delta_newest pair_st now round :
  (0 < max_snapshots pair_st)%nat ->
  get_snapshot_delta_rounds_ago (take_snapshot pair_st now round) 0 =
  Some (mkSnapshot round (st_persistence pair_st) (num_simplices (st_complex pair_st)) now).
Proof.
  intros Hmax. unfold get_snapshot_delta_rounds_ago, take_snapshot. cbn [snapshots].
  rewrite length_drop, length_app. cbn [length].
  replace (_ <? 0 + 1)%nat with false by (symmetry; apply Nat.ltb_ge; lia).
  rewrite lookup_drop, lookup_app_r by lia. rewrite list_lookup_singleton_Some. split; [lia|done].
Qed.
