(* ===== verification/Amount.v ===== *)
(** * Token amounts, accounts and events

    [adic-economics/src/types.rs].  An [AdicAmount] is its number of base units, a [u64]; an
    [AccountAddress] its 32 bytes.  The BLAKE3 hash of [from_public_key] is a parameter. *)

From S2P Require Import Prelude F64 Message.

Abbreviation AdicAmount := Z.

Definition ADIC_BASE_UNIT : Z := 1000000000.
Definition ZERO : AdicAmount := 0.
Definition MAX_SUPPLY : AdicAmount := 1000000000 * ADIC_BASE_UNIT.
Definition GENESIS_SUPPLY : AdicAmount := 300000000 * ADIC_BASE_UNIT.

Definition from_adic (adic : f64) : AdicAmount := f64_to_u64 (f64_mul adic (f64_of_Z ADIC_BASE_UNIT)).
Definition to_adic (a : AdicAmount) : f64 := f64_div (f64_of_Z a) (f64_of_Z ADIC_BASE_UNIT).

Definition amount_checked_add (a b : AdicAmount) : option AdicAmount := u64_checked_add a b.
Definition amount_checked_sub (a b : AdicAmount) : option AdicAmount := u64_checked_sub a b.
(** The only operation of the type that knows the cap. *)
Definition amount_saturating_add (a b : AdicAmount) : AdicAmount := Z.min (u64_saturating_add a b) MAX_SUPPLY.
Definition amount_saturating_sub (a b : AdicAmount) : AdicAmount := u64_saturating_sub a b.

Definition AccountAddress : Type := Bytes.

Definition from_public_key (blake3 : Bytes -> Bytes) (pubkey : PublicKey) : AccountAddress := blake3 pubkey.

Definition treasury : AccountAddress := replicate 32 255.
Definition liquidity_pool : AccountAddress := <[0%nat := 1]> (replicate 32 238).
Definition community_grants : AccountAddress := <[0%nat := 2]> (replicate 32 221).
Definition genesis_pool : AccountAddress := <[0%nat := 3]> (replicate 32 204).

Record AllocationConfig := mkAllocationConfig {
  treasury_percent : f64;
  liquidity_percent : f64;
  genesis_percent : f64;
  treasury_multisig_threshold : Z;
  treasury_multisig_keys : list AccountAddress;
}.

Definition AllocationConfig_default : AllocationConfig :=
  mkAllocationConfig (f64_lit 1 5) (f64_lit 3 10) (f64_lit 1 2) 2 [].

Record EmissionSchedule := mkSchedule {
  initial_rate : f64;
  half_life_years : f64;
  start_timestamp : Z;
  last_emission_timestamp : Z;
}.

Definition EmissionSchedule_default (now : Z) : EmissionSchedule :=
  mkSchedule (f64_lit 1 100) (f64_of_Z 6) now now.

Inductive TransferReason :=
  | Genesis | Emission | Deposit | DepositRefund | DepositSlash | TreasuryTransfer
  | PoUWReward | Standard | Faucet | MessageTransfer | Slashing.

Record TransferEvent := mkTransferEvent {
  te_from : AccountAddress;
  te_to : AccountAddress;
  te_amount : AdicAmount;
  te_timestamp : Z;
  te_reason : TransferReason;
}.

(** The errors of the crate.  The source builds [anyhow] strings; a constructor is the [bail!]
    it comes from, with the values the string shows. *)
Inductive EconError :=
  | GenesisAlreadyMinted | InvalidGenesisAmount (got : AdicAmount)
  | SupplyOverflow | ExceedsMaxSupply | BurnExceedsCirculating
  | BalanceOverflow (a : AccountAddress) | BalanceExceedsMaxSupply
  | InsufficientBalance (a : AccountAddress) (has needs : AdicAmount)
  | SameAddress | RecipientOverflow
  | InsufficientUnlocked (has needs : AdicAmount) | AccountNotFound (a : AccountAddress)
  | InsufficientLocked (has needs : AdicAmount)
  | InvalidAddressLength | ZeroAmount | InvalidNonce (expected got : Z)
  | NoSigners | InvalidThreshold | DuplicateSigners | MultisigAlreadyInitialized
  | MultisigNotInitialized | NotASigner | InsufficientTreasury (has requested : AdicAmount)
  | ProposalNotFound | ProposalAlreadyExecuted | ProposalExpired
  | EmissionTooFrequent (wait : Z) | MaxSupplyReached
  | InvalidAllocationConfig | GenesisAlreadyAllocated | AllocationOverflow | AllocationExceedsSupply
  | GenesisNotAllocated | InsufficientGenesisPool
  | StorageError (what : string).

(** An amount no larger than the cap; every account balance is one. *)
Definition is_amount (a : AdicAmount) : Prop := 0 <= a <= MAX_SUPPLY.

Ltac amount_unfold :=
  unfold is_amount, amount_checked_add, amount_checked_sub, amount_saturating_add, amount_saturating_sub,
    MAX_SUPPLY, GENESIS_SUPPLY, ADIC_BASE_UNIT, ZERO in *; uint_unfold.

Lemma amount_is_u64 a : is_amount a -> is_u64 a.
Proof. amount_unfold. lia. Qed.

Lemma amount_saturating_add_amount a b : is_amount a -> is_amount b -> is_amount (amount_saturating_add a b).
Proof. amount_unfold. lia. Qed.

Lemma from_adic_u64 x : is_u64 (from_adic x).
Proof. unfold from_adic, f64_to_u64. pose proof (f64_to_uint_range u64_max (f64_mul x (f64_of_Z ADIC_BASE_UNIT))). uint_unfold. lia. Qed.
