(* ===== verification/Supply.v ===== *)
(** * The token supply

    [adic-economics/src/supply.rs].  The locks serialise the operations, so each is one
    transition of the metrics and the transfer history.  The event callback is outside the
    model; the events it would receive are those pushed to the history. *)

From S2P Require Import Prelude F64 Message Amount.

Record SupplyMetrics := mkSupplyMetrics {
  total_supply : AdicAmount;
  circulating_supply : AdicAmount;
  treasury_balance : AdicAmount;
  liquidity_balance : AdicAmount;
  genesis_balance : AdicAmount;
  burned_amount : AdicAmount;
  emission_issued : AdicAmount;
}.

Definition SupplyMetrics_default : SupplyMetrics := mkSupplyMetrics 0 0 0 0 0 0 0.

Record TokenSupply := mkSupply {
  ts_metrics : SupplyMetrics;
  transfer_history : list TransferEvent;
}.

Definition supply_new : TokenSupply := mkSupply SupplyMetrics_default [].

Definition set_metrics (f : SupplyMetrics -> SupplyMetrics) (s : TokenSupply) : TokenSupply :=
  mkSupply (f (ts_metrics s)) (transfer_history s).

Definition mint_genesis (amount : AdicAmount) : M TokenSupply EconError unit :=
  metrics ← mread ts_metrics;
  mbail (negb (total_supply metrics =? ZERO)) GenesisAlreadyMinted;;
  mbail (negb (amount =? GENESIS_SUPPLY)) (InvalidGenesisAmount amount);;
  mwrite (set_metrics (fun m => mkSupplyMetrics amount (circulating_supply m) (treasury_balance m)
    (liquidity_balance m) (genesis_balance m) (burned_amount m) (emission_issued m))).

Definition mint_emission (amount : AdicAmount) : M TokenSupply EconError unit :=
  metrics ← mread ts_metrics;
  new_supply ← mopt (amount_checked_add (total_supply metrics) amount) SupplyOverflow;
  mbail (MAX_SUPPLY <? new_supply) ExceedsMaxSupply;;
  mwrite (set_metrics (fun m => mkSupplyMetrics new_supply
    (amount_saturating_add (circulating_supply m) amount) (treasury_balance m)
    (liquidity_balance m) (genesis_balance m) (burned_amount m)
    (amount_saturating_add (emission_issued m) amount))).

Definition burn (amount : AdicAmount) : M TokenSupply EconError unit :=
  metrics ← mread ts_metrics;
  mbail (circulating_supply metrics <? amount) BurnExceedsCirculating;;
  mwrite (set_metrics (fun m => mkSupplyMetrics (total_supply m)
    (amount_saturating_sub (circulating_supply m) amount) (treasury_balance m)
    (liquidity_balance m) (genesis_balance m)
    (amount_saturating_add (burned_amount m) amount) (emission_issued m))).

Definition update_treasury_balance (b : AdicAmount) : M TokenSupply EconError unit :=
  mwrite (set_metrics (fun m => mkSupplyMetrics (total_supply m) (circulating_supply m) b
    (liquidity_balance m) (genesis_balance m) (burned_amount m) (emission_issued m))).
Definition update_liquidity_balance (b : AdicAmount) : M TokenSupply EconError unit :=
  mwrite (set_metrics (fun m => mkSupplyMetrics (total_supply m) (circulating_supply m) (treasury_balance m)
    b (genesis_balance m) (burned_amount m) (emission_issued m))).
Definition update_genesis_balance (b : AdicAmount) : M TokenSupply EconError unit :=
  mwrite (set_metrics (fun m => mkSupplyMetrics (total_supply m) (circulating_supply m) (treasury_balance m)
    (liquidity_balance m) b (burned_amount m) (emission_issued m))).
Definition update_circulating_supply (a : AdicAmount) : M TokenSupply EconError unit :=
  mwrite (set_metrics (fun m => mkSupplyMetrics (total_supply m) a (treasury_balance m)
    (liquidity_balance m) (genesis_balance m) (burned_amount m) (emission_issued m))).

Definition get_total_supply : M TokenSupply EconError AdicAmount := mread (fun s => total_supply (ts_metrics s)).
Definition get_circulating_supply : M TokenSupply EconError AdicAmount :=
  mread (fun s => circulating_supply (ts_metrics s)).
Definition get_metrics : M TokenSupply EconError SupplyMetrics := mread ts_metrics.

Definition HISTORY_LIMIT : nat := N.to_nat 10000.
Definition HISTORY_PRUNE : nat := N.to_nat 1000.

(** Push, then [drain(0..1000)] when there are more than 10000 events. *)
Definition add_transfer_event (e : TransferEvent) : M TokenSupply EconError unit :=
  mwrite (fun s =>
    let history := transfer_history s ++ [e] in
    mkSupply (ts_metrics s)
      (if (HISTORY_LIMIT <? length history)%nat then drop HISTORY_PRUNE history else history)).

Definition get_transfer_history (limit : nat) : M TokenSupply EconError (list TransferEvent) :=
  mread (fun s => drop (length (transfer_history s) - limit) (transfer_history s)).

Definition can_mint (amount : AdicAmount) : M TokenSupply EconError bool :=
  mread (fun s => match amount_checked_add (total_supply (ts_metrics s)) amount with
                  | Some new_supply => new_supply <=? MAX_SUPPLY
                  | None => false
                  end).

Definition remaining_mintable : M TokenSupply EconError AdicAmount :=
  mread (fun s => amount_saturating_sub MAX_SUPPLY (total_supply (ts_metrics s))).

(** ** The supply as a transition system *)

(** The operations on the supply, each with arguments its callers can pass. *)
Inductive supply_step : TokenSupply -> TokenSupply -> Prop :=
  | step_mint_genesis a r s s' : is_u64 a -> mint_genesis a s = (r, s') -> supply_step s s'
  | step_mint_emission a r s s' : is_u64 a -> mint_emission a s = (r, s') -> supply_step s s'
  | step_burn a r s s' : is_u64 a -> burn a s = (r, s') -> supply_step s s'
  | step_treasury b r s s' : update_treasury_balance b s = (r, s') -> supply_step s s'
  | step_liquidity b r s s' : update_liquidity_balance b s = (r, s') -> supply_step s s'
  | step_genesis b r s s' : update_genesis_balance b s = (r, s') -> supply_step s s'
  | step_circulating a r s s' : is_u64 a -> update_circulating_supply a s = (r, s') -> supply_step s s'
  | step_event e r s s' : add_transfer_event e s = (r, s') -> supply_step s s'.

Definition supply_reachable : TokenSupply -> Prop := rtc supply_step supply_new.

(** Every token in existence was minted at genesis or by emission, and the cap holds. *)
Record supply_ok (s : TokenSupply) : Prop := {
  so_total : 0 <= total_supply (ts_metrics s) <= MAX_SUPPLY;
  so_emission : 0 <= emission_issued (ts_metrics s);
  so_minted : total_supply (ts_metrics s) = emission_issued (ts_metrics s) \/
              total_supply (ts_metrics s) = GENESIS_SUPPLY + emission_issued (ts_metrics s);
  so_history : (length (transfer_history s) <= HISTORY_LIMIT)%nat;
}.

Lemma supply_new_ok : supply_ok supply_new.
Proof. split; simpl; amount_unfold; try lia. Qed.

Lemma mint_genesis_spec a s :
  mint_genesis a s =
  if negb (total_supply (ts_metrics s) =? 0) then (Err GenesisAlreadyMinted, s)
  else if negb (a =? GENESIS_SUPPLY) then (Err (InvalidGenesisAmount a), s)
  else (Ok tt, set_metrics (fun m => mkSupplyMetrics a (circulating_supply m) (treasury_balance m)
    (liquidity_balance m) (genesis_balance m) (burned_amount m) (emission_issued m)) s).
Proof. unfold mint_genesis, mbind, M_bind, mread, mbail. by destruct (negb _), (negb _). Qed.

Lemma mint_emission_spec a s :
  is_u64 a -> 0 <= total_supply (ts_metrics s) ->
  mint_emission a s =
  if u64_max <? total_supply (ts_metrics s) + a then (Err SupplyOverflow, s)
  else if MAX_SUPPLY <? total_supply (ts_metrics s) + a then (Err ExceedsMaxSupply, s)
  else (Ok tt, set_metrics (fun m => mkSupplyMetrics (total_supply m + a)
    (amount_saturating_add (circulating_supply m) a) (treasury_balance m)
    (liquidity_balance m) (genesis_balance m) (burned_amount m)
    (amount_saturating_add (emission_issued m) a)) s).
Proof.
  intros Ha Ht. unfold mint_emission, mbind, M_bind, mread, mopt, mbail, amount_checked_add, u64_checked_add.
  rewrite Z.leb_antisym. destruct (u64_max <? _); [done|]. simpl. by destruct (MAX_SUPPLY <? _).
Qed.

Lemma burn_spec a s :
  burn a s =
  if circulating_supply (ts_metrics s) <? a then (Err BurnExceedsCirculating, s)
  else (Ok tt, set_metrics (fun m => mkSupplyMetrics (total_supply m)
    (amount_saturating_sub (circulating_supply m) a) (treasury_balance m)
    (liquidity_balance m) (genesis_balance m)
    (amount_saturating_add (burned_amount m) a) (emission_issued m)) s).
Proof. unfold burn, mbind, M_bind, mread, mbail. by destruct (_ <? _). Qed.

Lemma supply_step_ok s s' : supply_step s s' -> supply_ok s -> supply_ok s'.
Proof.
  destruct 1 as [a r s s' Ha H|a r s s' Ha H|a r s s' Ha H|b r s s' H|b r s s' H|b r s s' H|a r s s' Ha H|e r s s' H];
    intros [Ht He Hm Hh].
  - rewrite mint_genesis_spec in H. repeat case_match; simplify_eq; split; simpl; try done; zbool;
      amount_unfold; lia.
  - rewrite mint_emission_spec in H by (done || apply Ht). repeat case_match; simplify_eq; split; simpl; try done; zbool;
      amount_unfold; lia.
  - rewrite burn_spec in H. case_match; simplify_eq; split; simpl; done.
  - injection H as <- <-. by split.
  - injection H as <- <-. by split.
  - injection H as <- <-. by split.
  - injection H as <- <-. by split.
  - injection H as <- <-. split; simpl; try done. case_match; zbool; [|done].
    rewrite length_drop, length_app in *. simpl in *. unfold HISTORY_LIMIT, HISTORY_PRUNE in *. lia.
Qed.

Lemma supply_reachable_ok s : supply_reachable s -> supply_ok s.
Proof.
  unfold supply_reachable. remember supply_new as s0 eqn:E. intros Hs.
  assert (supply_ok s0) as H0 by (subst; apply supply_new_ok).
  clear E. induction Hs as [s|s s1 s2 Hstep _ IH]; [done|]. apply IH. by eapply supply_step_ok.
Qed.

(** ** Properties *)

(** in every state the supply can reach, by any sequence of its operations whether they
    succeed or fail, the total supply is at most the cap of 10^9 ADIC and consists of the genesis
    supply (minted at most once) and the emissions; the transfer history stays bounded. *)
Theorem supply_invariant (s : TokenSupply) (Hs : supply_reachable s) : supply_ok s.
Proof. by apply supply_reachable_ok. Qed.

Lemma supply_invariant_witness :
  supply_ok (mint_emission 5 (mint_genesis GENESIS_SUPPLY supply_new).2).2.
Proof.
  apply supply_invariant. eapply rtc_l; [eapply (step_mint_genesis GENESIS_SUPPLY); [|apply surjective_pairing]|].
  - amount_unfold. lia.
  - eapply rtc_l; [|apply rtc_refl]. eapply (step_mint_emission 5); [|apply surjective_pairing]. amount_unfold. lia.
Defined.

(** minting by emission succeeds exactly when [can_mint] says so; success adds the amount to
    the total, failure changes nothing; the remaining mintable amount is then what is left. *)
Theorem mint_emission_correct (a : AdicAmount) (s : TokenSupply) (Hs : supply_reachable s) (Ha : is_u64 a) :
  let '(r, s') := mint_emission a s in
  (can_mint a s = (Ok true, s) /\ r = Ok tt /\ transfer_history s' = transfer_history s /\
   total_supply (ts_metrics s') = total_supply (ts_metrics s) + a /\
   emission_issued (ts_metrics s') = emission_issued (ts_metrics s) + a /\
   remaining_mintable s' = (Ok (MAX_SUPPLY - total_supply (ts_metrics s) - a), s')) \/
  (can_mint a s = (Ok false, s) /\ (r = Err SupplyOverflow \/ r = Err ExceedsMaxSupply) /\ s' = s).
Proof.
  destruct (supply_reachable_ok s Hs) as [Ht He Hm _].
  rewrite mint_emission_spec by (done || apply Ht).
  unfold can_mint, remaining_mintable, mread, amount_checked_add, u64_checked_add. rewrite !Z.leb_antisym.
  ztest (u64_max <? total_supply (ts_metrics s) + a); simpl; [right; by auto|]. rewrite Z.leb_antisym.
  ztest (MAX_SUPPLY <? total_supply (ts_metrics s) + a); simpl; [right; by auto|left].
  split_and!; try done; [amount_unfold; lia|]. do 2 f_equal. amount_unfold. lia.
Qed.

Lemma mint_emission_correct_witness :
  let s := (mint_genesis GENESIS_SUPPLY supply_new).2 in
  let '(r, s') := mint_emission 7 s in
  (can_mint 7 s = (Ok true, s) /\ r = Ok tt /\ transfer_history s' = transfer_history s /\
   total_supply (ts_metrics s') = total_supply (ts_metrics s) + 7 /\
   emission_issued (ts_metrics s') = emission_issued (ts_metrics s) + 7 /\
   remaining_mintable s' = (Ok (MAX_SUPPLY - total_supply (ts_metrics s) - 7), s')) \/
  (can_mint 7 s = (Ok false, s) /\ (r = Err SupplyOverflow \/ r = Err ExceedsMaxSupply) /\ s' = s).
Proof.
  apply (mint_emission_correct 7 (mint_genesis GENESIS_SUPPLY supply_new).2); [|amount_unfold; lia].
  eapply rtc_l; [|apply rtc_refl]. eapply (step_mint_genesis GENESIS_SUPPLY); [amount_unfold; lia|apply surjective_pairing].
Defined.
