(* ===== verification/EconStorage.v ===== *)
(** * The storage interface of the economics crate, and its in-memory implementation

    [adic-economics/src/storage.rs].  [EconomicsStorage] is the Rust trait as a type class;
    [EconomicsStorageLaws] states, over an abstract [Accounts] view, what the balance manager
    relies on.  [MemoryStorage] implements both.  The RocksDB implementation is not modelled:
    it satisfies the same laws when the database does not fail. *)

From S2P Require Import Prelude F64 Message Amount.

Record TransactionRecord := mkTx {
  tx_from : AccountAddress;
  tx_to : AccountAddress;
  tx_amount : AdicAmount;
  tx_timestamp : Z;
  tx_hash : string;
  tx_status : string;
}.

Class EconomicsStorage (St : Type) := {
  storage_get_balance : AccountAddress -> M St EconError AdicAmount;
  storage_set_balance : AccountAddress -> AdicAmount -> M St EconError unit;
  storage_get_locked_balance : AccountAddress -> M St EconError AdicAmount;
  storage_set_locked_balance : AccountAddress -> AdicAmount -> M St EconError unit;
  storage_get_nonce : AccountAddress -> M St EconError Z;
  storage_set_nonce : AccountAddress -> Z -> M St EconError unit;
  storage_get_all_accounts : M St EconError (list AccountAddress);
  storage_begin_transaction : M St EconError unit;
  storage_commit_transaction : M St EconError unit;
  storage_rollback_transaction : M St EconError unit;
  storage_record_transaction : TransactionRecord -> M St EconError unit;
  storage_get_transaction_history : AccountAddress -> M St EconError (list TransactionRecord);
  storage_get_all_transactions_paginated : nat -> nat -> M St EconError (list TransactionRecord * nat);
}.

(** ** The abstract view: three finite maps, where a missing entry is zero *)

Record Accounts := mkAccounts {
  ac_balances : gmap AccountAddress AdicAmount;
  ac_locked : gmap AccountAddress AdicAmount;
  ac_nonces : gmap AccountAddress Z;
}.

Definition set_or_remove (a : AccountAddress) (v : Z) (m : gmap AccountAddress Z) : gmap AccountAddress Z :=
  if v =? 0 then delete a m else <[a := v]> m.

Definition balance_of (v : Accounts) (a : AccountAddress) : AdicAmount := default ZERO (ac_balances v !! a).
Definition locked_of (v : Accounts) (a : AccountAddress) : AdicAmount := default ZERO (ac_locked v !! a).
Definition nonce_of (v : Accounts) (a : AccountAddress) : Z := default 0 (ac_nonces v !! a).

Definition put_balance (a : AccountAddress) (b : AdicAmount) (v : Accounts) : Accounts :=
  mkAccounts (set_or_remove a b (ac_balances v)) (ac_locked v) (ac_nonces v).
Definition put_locked (a : AccountAddress) (b : AdicAmount) (v : Accounts) : Accounts :=
  mkAccounts (ac_balances v) (set_or_remove a b (ac_locked v)) (ac_nonces v).
Definition put_nonce (a : AccountAddress) (n : Z) (v : Accounts) : Accounts :=
  mkAccounts (ac_balances v) (ac_locked v) (set_or_remove a n (ac_nonces v)).

Lemma lookup_set_or_remove a v m a' :
  default 0 (set_or_remove a v m !! a') = if decide (a' = a) then v else default 0 (m !! a').
Proof.
  unfold set_or_remove. destruct (v =? 0) eqn:E; zbool; [subst v; rewrite lookup_delete|rewrite lookup_insert];
    repeat case_decide; subst; done.
Qed.

Lemma balance_put_balance a b v a' :
  balance_of (put_balance a b v) a' = if decide (a' = a) then b else balance_of v a'.
Proof. apply lookup_set_or_remove. Qed.
Lemma nonce_put_balance a b v a' : nonce_of (put_balance a b v) a' = nonce_of v a'.
Proof. done. Qed.
Lemma locked_put_balance a b v a' : locked_of (put_balance a b v) a' = locked_of v a'.
Proof. done. Qed.
Lemma locked_put_locked a b v a' :
  locked_of (put_locked a b v) a' = if decide (a' = a) then b else locked_of v a'.
Proof. apply lookup_set_or_remove. Qed.
Lemma nonce_put_nonce a n v a' :
  nonce_of (put_nonce a n v) a' = if decide (a' = a) then n else nonce_of v a'.
Proof. apply lookup_set_or_remove. Qed.
Lemma balance_put_nonce a n v a' : balance_of (put_nonce a n v) a' = balance_of v a'.
Proof. done. Qed.

(** What the manager relies on: reads return the view, writes update it, and a rollback right
    after [begin_transaction] undoes nothing else. *)
Class EconomicsStorageLaws (St : Type) `{EconomicsStorage St} := {
  view : St -> Accounts;
  get_balance_law a s : storage_get_balance a s = (Ok (balance_of (view s) a), s);
  set_balance_law a b s :
    exists s', storage_set_balance a b s = (Ok tt, s') /\ view s' = put_balance a b (view s);
  get_locked_law a s : storage_get_locked_balance a s = (Ok (locked_of (view s) a), s);
  set_locked_law a b s :
    exists s', storage_set_locked_balance a b s = (Ok tt, s') /\ view s' = put_locked a b (view s);
  get_nonce_law a s : storage_get_nonce a s = (Ok (nonce_of (view s) a), s);
  set_nonce_law a n s :
    exists s', storage_set_nonce a n s = (Ok tt, s') /\ view s' = put_nonce a n (view s);
  begin_law s :
    exists s', storage_begin_transaction s = (Ok tt, s') /\ view s' = view s /\
      exists s'', storage_rollback_transaction s' = (Ok tt, s'') /\ view s'' = view s;
  commit_law s : exists s', storage_commit_transaction s = (Ok tt, s') /\ view s' = view s;
  record_law tx s : exists s', storage_record_transaction tx s = (Ok tt, s') /\ view s' = view s;
  all_accounts_law s : exists l, storage_get_all_accounts s = (Ok l, s);
}.

(** ** [MemoryStorage] *)

Record MemoryStorage := mkMemory {
  mem_accounts : Accounts;
  transaction_backup : option (gmap AccountAddress AdicAmount * gmap AccountAddress AdicAmount);
  transaction_history : list TransactionRecord;
}.

Definition memory_new : MemoryStorage := mkMemory (mkAccounts ∅ ∅ ∅) None [].

Definition on_accounts (f : Accounts -> Accounts) (s : MemoryStorage) : MemoryStorage :=
  mkMemory (f (mem_accounts s)) (transaction_backup s) (transaction_history s).

Definition memory_get_balance (a : AccountAddress) : M MemoryStorage EconError AdicAmount :=
  mread (fun s => balance_of (mem_accounts s) a).
Definition memory_set_balance (a : AccountAddress) (b : AdicAmount) : M MemoryStorage EconError unit :=
  mwrite (on_accounts (put_balance a b)).
Definition memory_get_locked_balance (a : AccountAddress) : M MemoryStorage EconError AdicAmount :=
  mread (fun s => locked_of (mem_accounts s) a).
Definition memory_set_locked_balance (a : AccountAddress) (b : AdicAmount) : M MemoryStorage EconError unit :=
  mwrite (on_accounts (put_locked a b)).
Definition memory_get_nonce (a : AccountAddress) : M MemoryStorage EconError Z :=
  mread (fun s => nonce_of (mem_accounts s) a).
Definition memory_set_nonce (a : AccountAddress) (n : Z) : M MemoryStorage EconError unit :=
  mwrite (on_accounts (put_nonce a n)).

(** Accounts with a balance, then those with a locked balance only. *)
Definition memory_get_all_accounts : M MemoryStorage EconError (list AccountAddress) :=
  mread (fun s =>
    let bs := ac_balances (mem_accounts s) in
    (map_to_list bs).*1 ++
    List.filter (fun a => bool_decide (bs !! a = None)) ((map_to_list (ac_locked (mem_accounts s))).*1)).

Definition memory_begin_transaction : M MemoryStorage EconError unit :=
  mwrite (fun s => mkMemory (mem_accounts s)
    (Some (ac_balances (mem_accounts s), ac_locked (mem_accounts s))) (transaction_history s)).
Definition memory_commit_transaction : M MemoryStorage EconError unit :=
  mwrite (fun s => mkMemory (mem_accounts s) None (transaction_history s)).
Definition memory_rollback_transaction : M MemoryStorage EconError unit :=
  mwrite (fun s =>
    match transaction_backup s with
    | Some (balances, locked) =>
        mkMemory (mkAccounts balances locked (ac_nonces (mem_accounts s))) None (transaction_history s)
    | None => s
    end).
Definition memory_record_transaction (tx : TransactionRecord) : M MemoryStorage EconError unit :=
  mwrite (fun s => mkMemory (mem_accounts s) (transaction_backup s) (transaction_history s ++ [tx])).
Definition memory_get_transaction_history (a : AccountAddress) : M MemoryStorage EconError (list TransactionRecord) :=
  mread (fun s => List.filter (fun tx => bool_decide (tx_from tx = a) || bool_decide (tx_to tx = a))
                    (transaction_history s)).

(** Newest first; the sort is stable. *)
Definition newest_first : list TransactionRecord -> list TransactionRecord :=
  isort (fun a b => tx_timestamp b <=? tx_timestamp a).
Definition memory_get_all_transactions_paginated (limit offset : nat)
    : M MemoryStorage EconError (list TransactionRecord * nat) :=
  mread (fun s => (take limit (drop offset (newest_first (transaction_history s))),
                   length (transaction_history s))).

#[export] Instance MemoryStorage_storage : EconomicsStorage MemoryStorage := {
  storage_get_balance := memory_get_balance;
  storage_set_balance := memory_set_balance;
  storage_get_locked_balance := memory_get_locked_balance;
  storage_set_locked_balance := memory_set_locked_balance;
  storage_get_nonce := memory_get_nonce;
  storage_set_nonce := memory_set_nonce;
  storage_get_all_accounts := memory_get_all_accounts;
  storage_begin_transaction := memory_begin_transaction;
  storage_commit_transaction := memory_commit_transaction;
  storage_rollback_transaction := memory_rollback_transaction;
  storage_record_transaction := memory_record_transaction;
  storage_get_transaction_history := memory_get_transaction_history;
  storage_get_all_transactions_paginated := memory_get_all_transactions_paginated;
}.

#[export] Instance MemoryStorage_laws : EconomicsStorageLaws MemoryStorage.
Proof.
  refine {| view := mem_accounts |}; intros; try done; try (by eexists).
  eexists. split; [done|]. split; [done|]. eexists. split; [done|]. simpl. by destruct (mem_accounts s).
Defined.

(** Every page is a window of one list: the history, newest first. *)
Lemma pages_partition limit s :
  take limit (newest_first (transaction_history s)) ++ drop limit (newest_first (transaction_history s)) ≡ₚ
  transaction_history s.
Proof. rewrite take_drop. apply isort_Permutation. Qed.
