(* ===== verification/Balance.v ===== *)
(** * The balance manager

    [adic-economics/src/balance.rs]: balances kept in a storage behind a cache.  The state is
    the storage, the cache and the events handed to the callbacks; an error leaves the writes
    made before it in place.  One clock reading [now] serves a whole operation; the BLAKE3
    digest of a transfer, in hex, is the parameter [digest]. *)

From S2P Require Import Prelude F64 Message Amount EconStorage.

Record AccountInfo := mkInfo {
  ai_address : AccountAddress;
  ai_balance : AdicAmount;
  ai_nonce : Z;
  ai_locked : AdicAmount;
  ai_last_activity : Z;
}.

Inductive BalanceChangeType := Credit | Debit | TransferIn | TransferOut.

Record BalanceChangeEvent := mkChange {
  bc_address : AccountAddress;
  bc_before : AdicAmount;
  bc_after : AdicAmount;
  bc_amount : AdicAmount;
  bc_type : BalanceChangeType;
}.

Record BalanceManager (St : Type) := mkBalances {
  bm_storage : St;
  bm_cache : gmap AccountAddress AccountInfo;
  bm_events : list BalanceChangeEvent;
  bm_transfers : list TransferEvent;
}.
Arguments mkBalances {St}.
Arguments bm_storage {St}.
Arguments bm_cache {St}.
Arguments bm_events {St}.
Arguments bm_transfers {St}.

Definition balances_new {St} (storage : St) : BalanceManager St := mkBalances storage ∅ [] [].

Section manager.
Context {St : Type} `{!EconomicsStorage St}.
Context (now : Z) (digest : Bytes -> string).

Abbreviation BM := (BalanceManager St).

Definition in_storage {A} : M St EconError A -> M BM EconError A :=
  mzoom bm_storage (fun st bm => mkBalances st (bm_cache bm) (bm_events bm) (bm_transfers bm)).

Definition update_cache (f : gmap AccountAddress AccountInfo -> gmap AccountAddress AccountInfo)
    : M BM EconError unit :=
  mwrite (fun bm => mkBalances (bm_storage bm) (f (bm_cache bm)) (bm_events bm) (bm_transfers bm)).

Definition emit_balance_event (e : BalanceChangeEvent) : M BM EconError unit :=
  mwrite (fun bm => mkBalances (bm_storage bm) (bm_cache bm) (bm_events bm ++ [e]) (bm_transfers bm)).
Definition emit_transfer_event (e : TransferEvent) : M BM EconError unit :=
  mwrite (fun bm => mkBalances (bm_storage bm) (bm_cache bm) (bm_events bm) (bm_transfers bm ++ [e])).

(** The entry the code inserts for an account it has not cached: nonce 0, nothing locked. *)
Definition fresh_info (a : AccountAddress) (b : AdicAmount) : AccountInfo := mkInfo a b 0 ZERO now.

(** [get_mut] / [and_modify]: the new balance of a cached account. *)
Definition with_balance (b : AdicAmount) (i : AccountInfo) : AccountInfo :=
  mkInfo (ai_address i) b (ai_nonce i) (ai_locked i) now.

(** [entry(a).and_modify(..).or_insert(..)]. *)
Definition cache_balance (a : AccountAddress) (b : AdicAmount) (c : gmap AccountAddress AccountInfo) :=
  <[a := match c !! a with Some i => with_balance b i | None => fresh_info a b end]> c.

Definition get_balance (a : AccountAddress) : M BM EconError AdicAmount :=
  cache ← mread bm_cache;
  match cache !! a with
  | Some info => mret (ai_balance info)
  | None =>
      balance ← in_storage (storage_get_balance a);
      update_cache (insert a (fresh_info a balance));;
      mret balance
  end.

Definition credit (a : AccountAddress) (amount : AdicAmount) : M BM EconError unit :=
  if amount =? ZERO then mret tt
  else
    current ← get_balance a;
    new_balance ← mopt (amount_checked_add current amount) (BalanceOverflow a);
    mbail (MAX_SUPPLY <? new_balance) BalanceExceedsMaxSupply;;
    in_storage (storage_set_balance a new_balance);;
    update_cache (cache_balance a new_balance);;
    emit_balance_event (mkChange a current new_balance amount Credit).

Definition debit (a : AccountAddress) (amount : AdicAmount) : M BM EconError unit :=
  if amount =? ZERO then mret tt
  else
    current ← get_balance a;
    new_balance ← mopt (amount_checked_sub current amount) (InsufficientBalance a current amount);
    in_storage (storage_set_balance a new_balance);;
    update_cache (alter (with_balance new_balance) a);;
    emit_balance_event (mkChange a current new_balance amount Debit).

(** The bytes fed to the hasher. *)
Definition transfer_preimage (from to : AccountAddress) (amount : AdicAmount) : Bytes :=
  from ++ to ++ to_le_bytes 8 amount ++ to_le_bytes 8 now.

Definition transfer_internal (from to : AccountAddress) (amount : AdicAmount) : M BM EconError string :=
  from_balance ← in_storage (storage_get_balance from);
  mbail (from_balance <? amount) (InsufficientBalance from from_balance amount);;
  to_balance ← in_storage (storage_get_balance to);
  let new_from_balance := amount_saturating_sub from_balance amount in
  new_to_balance ← mopt (amount_checked_add to_balance amount) RecipientOverflow;
  in_storage (storage_set_balance from new_from_balance);;
  in_storage (storage_set_balance to new_to_balance);;
  update_cache (cache_balance from new_from_balance);;
  update_cache (cache_balance to new_to_balance);;
  emit_balance_event (mkChange from from_balance new_from_balance amount TransferOut);;
  emit_balance_event (mkChange to to_balance new_to_balance amount TransferIn);;
  mret (digest (transfer_preimage from to amount)).

(** The common tail of the two transfer operations: record and announce. *)
Definition transfer_done (from to : AccountAddress) (amount : AdicAmount) (hash : string)
    (reason : TransferReason) : M BM EconError string :=
  mor (in_storage (storage_record_transaction (mkTx from to amount now hash "confirmed"))) (fun _ => mret tt);;
  emit_transfer_event (mkTransferEvent from to amount now reason);;
  mret hash.

(** [match self.transfer_internal(..) { Ok => k, Err => rollback }]. *)
Definition or_rollback {A} (m : M BM EconError A) : M BM EconError A :=
  mor m (fun e => in_storage storage_rollback_transaction;; mfail e).

Definition transfer_with_reason (from to : AccountAddress) (amount : AdicAmount) (reason : TransferReason)
    : M BM EconError string :=
  if amount =? ZERO then mret EmptyString
  else
    mbail (bool_decide (from = to)) SameAddress;;
    in_storage storage_begin_transaction;;
    hash ← or_rollback (transfer_internal from to amount);
    in_storage storage_commit_transaction;;
    transfer_done from to amount hash reason.

Definition transfer (from to : AccountAddress) (amount : AdicAmount) : M BM EconError string :=
  transfer_with_reason from to amount Standard.

(** [entry(..).or_insert_with]: an account that is not cached enters the cache with balance 0,
    and stays there when the lock is refused. *)
Definition lock (a : AccountAddress) (amount : AdicAmount) : M BM EconError unit :=
  cache ← mread bm_cache;
  let info := default (fresh_info a ZERO) (cache !! a) in
  update_cache (insert a info);;
  let unlocked := amount_saturating_sub (ai_balance info) (ai_locked info) in
  mbail (unlocked <? amount) (InsufficientUnlocked unlocked amount);;
  let locked := amount_saturating_add (ai_locked info) amount in
  update_cache (insert a (mkInfo (ai_address info) (ai_balance info) (ai_nonce info) locked (ai_last_activity info)));;
  in_storage (storage_set_locked_balance a locked).

Definition unlock (a : AccountAddress) (amount : AdicAmount) : M BM EconError unit :=
  cache ← mread bm_cache;
  info ← mopt (cache !! a) (AccountNotFound a);
  mbail (ai_locked info <? amount) (InsufficientLocked (ai_locked info) amount);;
  let locked := amount_saturating_sub (ai_locked info) amount in
  update_cache (insert a (mkInfo (ai_address info) (ai_balance info) (ai_nonce info) locked (ai_last_activity info)));;
  in_storage (storage_set_locked_balance a locked).

Definition get_locked_balance (a : AccountAddress) : M BM EconError AdicAmount :=
  cache ← mread bm_cache;
  match cache !! a with
  | Some info => mret (ai_locked info)
  | None => in_storage (storage_get_locked_balance a)
  end.

Definition get_unlocked_balance (a : AccountAddress) : M BM EconError AdicAmount :=
  balance ← get_balance a;
  locked ← get_locked_balance a;
  mret (amount_saturating_sub balance locked).

Fixpoint collect_accounts (accounts : list AccountAddress) : M BM EconError (list AccountInfo) :=
  match accounts with
  | [] => mret []
  | a :: accounts =>
      balance ← get_balance a;
      locked ← get_locked_balance a;
      rest ← collect_accounts accounts;
      mret (mkInfo a balance 0 locked now :: rest)
  end.

Definition get_all_accounts : M BM EconError (list AccountInfo) :=
  accounts ← in_storage storage_get_all_accounts;
  collect_accounts accounts.

Definition clear_cache : M BM EconError unit := update_cache (fun _ => ∅).

Definition get_transaction_history (a : AccountAddress) : M BM EconError (list TransactionRecord) :=
  in_storage (storage_get_transaction_history a).
Definition record_transaction (tx : TransactionRecord) : M BM EconError unit :=
  in_storage (storage_record_transaction tx).
Definition get_all_transactions_paginated (limit offset : nat) : M BM EconError (list TransactionRecord * nat) :=
  in_storage (storage_get_all_transactions_paginated limit offset).

Definition with_nonce (n : Z) (i : AccountInfo) : AccountInfo :=
  mkInfo (ai_address i) (ai_balance i) n (ai_locked i) (ai_last_activity i).

(** [self.storage.get_nonce(..).await.unwrap_or(0)]. *)
Definition stored_nonce (a : AccountAddress) : M BM EconError Z :=
  mor (in_storage (storage_get_nonce a)) (fun _ => mret 0).

Definition get_nonce (a : AccountAddress) : M BM EconError Z :=
  cache ← mread bm_cache;
  match cache !! a with
  | Some info => mret (ai_nonce info)
  | None =>
      nonce ← stored_nonce a;
      update_cache (alter (with_nonce nonce) a);;
      mret nonce
  end.

Definition increment_nonce (a : AccountAddress) : M BM EconError unit :=
  cache ← mread bm_cache;
  match cache !! a with
  | Some info =>
      let nonce := to_u64 (ai_nonce info + 1) in
      update_cache (insert a (with_nonce nonce info));;
      in_storage (storage_set_nonce a nonce)
  | None =>
      stored ← stored_nonce a;
      let nonce := to_u64 (stored + 1) in
      in_storage (storage_set_nonce a nonce);;
      balance ← in_storage (storage_get_balance a);
      update_cache (insert a (mkInfo a balance nonce ZERO now))
  end.

Definition validate_transfer (from to : Bytes) (amount nonce : Z) : M BM EconError unit :=
  mbail (negb (length from =? 32)%nat || negb (length to =? 32)%nat) InvalidAddressLength;;
  mbail (bool_decide (from = to)) SameAddress;;
  mbail (amount =? 0) ZeroAmount;;
  balance ← get_balance from;
  mbail (balance <? amount) (InsufficientBalance from balance amount);;
  current_nonce ← get_nonce from;
  mbail (negb (nonce =? to_u64 (current_nonce + 1))) (InvalidNonce (to_u64 (current_nonce + 1)) nonce).

Definition process_message_transfer (from to : Bytes) (amount nonce : Z) : M BM EconError string :=
  mbail (negb (length from =? 32)%nat || negb (length to =? 32)%nat) InvalidAddressLength;;
  validate_transfer from to amount nonce;;
  in_storage storage_begin_transaction;;
  hash ← or_rollback (transfer_internal from to amount);
  or_rollback (increment_nonce from);;
  in_storage storage_commit_transaction;;
  transfer_done from to amount hash MessageTransfer.
End manager.

(** ** Running the operations over a lawful storage *)

Ltac m_unfold :=
  unfold in_storage, update_cache, emit_balance_event, emit_transfer_event, mbind, M_bind, mret, M_ret,
    mread, mwrite, mzoom, mbail, mopt, mor, mfail in *; simpl in *.

(** [m_run] replaces every storage call by what its law says. *)
Ltac m_run := m_unfold; repeat (match goal with
  | |- context [storage_get_balance ?a ?s] => rewrite (get_balance_law a s); simpl
  | |- context [storage_get_nonce ?a ?s] => rewrite (get_nonce_law a s); simpl
  | |- context [storage_get_locked_balance ?a ?s] => rewrite (get_locked_law a s); simpl
  | |- context [storage_set_balance ?a ?b ?s] =>
      let s' := fresh "s" in let V := fresh "V" in
      destruct (set_balance_law a b s) as (s' & -> & V); simpl
  | |- context [storage_set_locked_balance ?a ?b ?s] =>
      let s' := fresh "s" in let V := fresh "V" in
      destruct (set_locked_law a b s) as (s' & -> & V); simpl
  | |- context [storage_set_nonce ?a ?b ?s] =>
      let s' := fresh "s" in let V := fresh "V" in
      destruct (set_nonce_law a b s) as (s' & -> & V); simpl
  | |- context [storage_begin_transaction ?s] =>
      let s' := fresh "s" in let V := fresh "V" in let R := fresh "R" in
      destruct (begin_law s) as (s' & -> & V & R); simpl
  | |- context [storage_commit_transaction ?s] =>
      let s' := fresh "s" in let V := fresh "V" in
      destruct (commit_law s) as (s' & -> & V); simpl
  | |- context [storage_record_transaction ?t ?s] =>
      let s' := fresh "s" in let V := fresh "V" in
      destruct (record_law t s) as (s' & -> & V); simpl
  end).

#[local] Arguments amount_checked_add : simpl never.
#[local] Arguments amount_checked_sub : simpl never.
#[local] Arguments amount_saturating_add : simpl never.
#[local] Arguments amount_saturating_sub : simpl never.

Section laws.
Context {St : Type} `{!EconomicsStorage St} `{!EconomicsStorageLaws St}.
Context (now : Z) (digest : Bytes -> string).
Implicit Types bm : BalanceManager St.

(** The balance an account has, whatever the cache says. *)
Definition bal bm (a : AccountAddress) : AdicAmount := balance_of (view (bm_storage bm)) a.

(** The cached balances are related to the stored ones: the cache [coherent] with the storage has
    the same; one that is [covered] may have less, as [lock] leaves it. *)
Definition cached_as (R : Z -> Z -> Prop) bm : Prop :=
  forall a info, bm_cache bm !! a = Some info -> R (ai_balance info) (bal bm a).
Definition coherent : BalanceManager St -> Prop := cached_as eq.
Definition at_most (c b : Z) : Prop := c <= b /\ (0 <= b -> 0 <= c).
Definition covered : BalanceManager St -> Prop := cached_as at_most.

#[export] Instance at_most_refl : Reflexive at_most.
Proof. intros x. unfold at_most. lia. Qed.

Definition same_accounts bm bm' : Prop := view (bm_storage bm') = view (bm_storage bm).

Lemma get_balance_ok a bm :
  coherent bm ->
  exists bm', get_balance now a bm = (Ok (bal bm a), bm') /\ bm_storage bm' = bm_storage bm /\
    coherent bm' /\ is_Some (bm_cache bm' !! a).
Proof.
  intros Hc. unfold get_balance. m_unfold. destruct (bm_cache bm !! a) as [info|] eqn:E.
  - exists bm. rewrite <-(Hc a info E). by split_and!.
  - m_run. eexists. split; [done|]. split; [done|]. simpl. rewrite lookup_insert_eq. split; [|done].
    intros a' info'. simpl. rewrite lookup_insert. case_decide as Ha; [|apply Hc].
    intros [= <-]. by subst.
Qed.

Lemma cached_insert R st c a i ev tr :
  (forall a' info, c !! a' = Some info -> a' <> a -> R (ai_balance info) (balance_of (view st) a')) ->
  R (ai_balance i) (balance_of (view st) a) ->
  cached_as R (mkBalances st (<[a := i]> c) ev tr).
Proof.
  intros Hc Hi a' info. simpl. rewrite lookup_insert. case_decide as Ha; [|intros H; by apply Hc].
  intros [= <-]. by subst.
Qed.

(** Crediting, on every branch. *)
Lemma credit_ok a amount bm :
  coherent bm ->
  exists bm' r, credit now a amount bm = (r, bm') /\ coherent bm' /\
    if amount =? 0 then r = Ok tt /\ bm' = bm
    else if u64_max <? bal bm a + amount then r = Err (BalanceOverflow a) /\ same_accounts bm bm'
    else if MAX_SUPPLY <? bal bm a + amount then r = Err BalanceExceedsMaxSupply /\ same_accounts bm bm'
    else r = Ok tt /\ view (bm_storage bm') = put_balance a (bal bm a + amount) (view (bm_storage bm)).
Proof.
  intros Hc. unfold credit, ZERO. destruct (amount =? 0); [by exists bm, (Ok tt)|].
  destruct (get_balance_ok a bm Hc) as (bm1 & H1 & Hs & Hc1 & _).
  rewrite (M_bind_Ok _ _ _ _ _ H1). unfold amount_checked_add, u64_checked_add. rewrite Z.leb_antisym.
  destruct (u64_max <? bal bm a + amount); simpl; m_unfold.
  { exists bm1, (Err (BalanceOverflow a)). split; [done|]. split; [done|]. split; [done|].
    unfold same_accounts. by rewrite Hs. }
  destruct (MAX_SUPPLY <? bal bm a + amount); m_run.
  { do 2 eexists. split; [done|]. split; [done|]. split; [done|]. unfold same_accounts. by rewrite Hs. }
  do 2 eexists. split; [done|]. split; [|split; [done|]; simpl; by rewrite V, Hs].
  unfold cache_balance. apply cached_insert.
  - intros a' info Ha' Hne. rewrite V, balance_put_balance, decide_False by done. by apply Hc1.
  - rewrite V, balance_put_balance, decide_True by done. by destruct (bm_cache bm1 !! a).
Qed.

Lemma debit_ok a amount bm :
  coherent bm ->
  exists bm' r, debit now a amount bm = (r, bm') /\ coherent bm' /\
    if amount =? 0 then r = Ok tt /\ bm' = bm
    else if bal bm a <? amount then r = Err (InsufficientBalance a (bal bm a) amount) /\ same_accounts bm bm'
    else r = Ok tt /\ view (bm_storage bm') = put_balance a (bal bm a - amount) (view (bm_storage bm)).
Proof.
  intros Hc. unfold debit, ZERO. destruct (amount =? 0); [by exists bm, (Ok tt)|].
  destruct (get_balance_ok a bm Hc) as (bm1 & H1 & Hs & Hc1 & Hin).
  rewrite (M_bind_Ok _ _ _ _ _ H1). unfold amount_checked_sub, u64_checked_sub. rewrite Z.leb_antisym.
  destruct (bal bm a <? amount); simpl; m_run.
  { do 2 eexists. split; [done|]. split; [done|]. split; [done|]. unfold same_accounts. by rewrite Hs. }
  do 2 eexists. split; [done|]. split; [|split; [done|]; simpl; by rewrite V, Hs].
  intros a' info. unfold bal. simpl. rewrite V, balance_put_balance, lookup_alter. case_decide as Ha.
  - subst a'. rewrite decide_True by done. destruct (bm_cache bm1 !! a); simpl; [|done]. by intros [= <-].
  - rewrite decide_False by done. apply Hc1.
Qed.

(** The account states after a transfer. *)
Definition moved (from to : AccountAddress) (amount : AdicAmount) (v : Accounts) : Accounts :=
  put_balance to (balance_of v to + amount) (put_balance from (balance_of v from - amount) v).

Lemma transfer_internal_ok Rel `{!Reflexive Rel} from to amount bm :
  cached_as Rel bm -> from <> to -> 0 <= amount ->
  exists bm' r, transfer_internal now digest from to amount bm = (r, bm') /\
    if bal bm from <? amount then r = Err (InsufficientBalance from (bal bm from) amount) /\ bm' = bm
    else if u64_max <? bal bm to + amount then r = Err RecipientOverflow /\ bm' = bm
    else r = Ok (digest (transfer_preimage now from to amount)) /\
      cached_as Rel bm' /\ view (bm_storage bm') = moved from to amount (view (bm_storage bm)) /\
      (forall a, ai_nonce <$> bm_cache bm' !! a =
         if decide (a = from \/ a = to) then Some (default 0 (ai_nonce <$> bm_cache bm !! a))
         else ai_nonce <$> bm_cache bm !! a).
Proof.
  intros Hc Hne Hamt. unfold transfer_internal. destruct bm as [st c ev tr]. unfold bal. m_run.
  destruct (balance_of (view st) from <? amount) eqn:E1; simpl; [by do 2 eexists|]. m_run.
  unfold amount_checked_add, u64_checked_add. rewrite Z.leb_antisym.
  destruct (u64_max <? _) eqn:E2; simpl; [by do 2 eexists|]. m_run. zbool.
  do 2 eexists. split; [done|]. split; [done|].
  assert (amount_saturating_sub (balance_of (view st) from) amount = balance_of (view st) from - amount) as Hsub
    by (amount_unfold; lia).
  split; [|split].
  - apply cached_insert.
    + intros a info. unfold cache_balance. rewrite lookup_insert. rewrite V0, V.
      rewrite !balance_put_balance. case_decide as Ha.
      * subst a. intros [= <-] Hf. rewrite decide_False, decide_True by done. by destruct (c !! from).
      * intros Hin Hnt. rewrite !decide_False by done. by apply (Hc a info).
    + rewrite V0, balance_put_balance, decide_True by done. by destruct (cache_balance _ _ _ _ !! to).
  - simpl. rewrite V0, V, Hsub. done.
  - intros a. simpl. unfold cache_balance. rewrite !lookup_insert. repeat case_decide; subst; simpl; try naive_solver.
    + by destruct (c !! a).
    + by destruct (c !! a).
Qed.

(** A transfer, whatever the reason: on success the amount has moved, on any error the
    accounts are as before. *)
Lemma transfer_ok Rel `{!Reflexive Rel} from to amount reason bm :
  cached_as Rel bm -> 0 <= amount ->
  exists bm' r, transfer_with_reason now digest from to amount reason bm = (r, bm') /\ cached_as Rel bm' /\
    if amount =? 0 then r = Ok EmptyString /\ same_accounts bm bm'
    else if bool_decide (from = to) then r = Err SameAddress /\ same_accounts bm bm'
    else if bal bm from <? amount then
      r = Err (InsufficientBalance from (bal bm from) amount) /\ same_accounts bm bm'
    else if u64_max <? bal bm to + amount then r = Err RecipientOverflow /\ same_accounts bm bm'
    else r = Ok (digest (transfer_preimage now from to amount)) /\
      view (bm_storage bm') = moved from to amount (view (bm_storage bm)).
Proof.
  intros Hc Hamt. unfold transfer_with_reason, ZERO. destruct (amount =? 0); [by do 2 eexists|].
  case_bool_decide as Hft; simpl; [by do 2 eexists|].
  destruct bm as [st c ev tr]. m_run. set (bm1 := mkBalances s c ev tr).
  assert (cached_as Rel bm1) as Hc1 by (intros a info Hi; unfold bal; simpl; rewrite V; by apply Hc).
  assert (forall a, bal bm1 a = bal (mkBalances st c ev tr) a) as Hb by (intros a; unfold bal; simpl; by rewrite V).
  destruct (transfer_internal_ok Rel from to amount bm1 Hc1 Hft Hamt) as (bm2 & r2 & Ht & Hcase).
  rewrite !Hb in Hcase. unfold or_rollback. m_unfold. fold bm1. rewrite Ht.
  destruct (bal _ from <? amount); [|destruct (u64_max <? _)].
  - destruct Hcase as [-> ->]. destruct R as (s2 & HR & HV). simpl. rewrite HR.
    do 2 eexists. split; [done|]. split; [|by split].
    intros a info Hi. unfold bal. simpl. rewrite HV. by apply Hc.
  - destruct Hcase as [-> ->]. destruct R as (s2 & HR & HV). simpl. rewrite HR.
    do 2 eexists. split; [done|]. split; [|by split].
    intros a info Hi. unfold bal. simpl. rewrite HV. by apply Hc.
  - destruct Hcase as (-> & Hc2 & Hv2 & _). simpl. m_run. unfold transfer_done. m_run.
    do 2 eexists. split; [done|]. split; [|split; [done|]].
    + intros a info Hi. unfold bal. simpl. rewrite V1, V0. by apply Hc2.
    + simpl. rewrite V1, V0, Hv2. simpl. by rewrite V.
Qed.

Lemma moved_total from to amount v accounts :
  from <> to -> NoDup accounts -> from ∈ accounts -> to ∈ accounts ->
  zsum (balance_of (moved from to amount v)) accounts = zsum (balance_of v) accounts.
Proof.
  intros Hne Hnd Hf Ht.
  rewrite (zsum_ext _ (fun a => balance_of v a +
    ((if decide (a = to) then amount else 0) + (if decide (a = from) then - amount else 0)))).
  - rewrite zsum_add, zsum_add, (zsum_one to (fun _ => amount)), (zsum_one from (fun _ => - amount)) by done. lia.
  - intros a _. unfold moved. rewrite !balance_put_balance. repeat case_decide; subst; try done; lia.
Qed.

(** The cached nonce of an account is the stored one. *)
Definition nonce_synced bm (a : AccountAddress) : Prop :=
  ai_nonce <$> bm_cache bm !! a = Some (nonce_of (view (bm_storage bm)) a).

(** What admits a message transfer. *)
Definition admissible bm (from to : Bytes) (amount nonce : Z) : Prop :=
  length from = 32%nat /\ length to = 32%nat /\ from <> to /\ amount <> 0 /\
  amount <= bal bm from /\ nonce = to_u64 (nonce_of (view (bm_storage bm)) from + 1).

(** Once an account is cached, the check does nothing to the state. *)
Lemma validate_transfer_ok from to amount nonce bm :
  coherent bm -> nonce_synced bm from ->
  exists r, validate_transfer now from to amount nonce bm = (r, bm) /\
    (admissible bm from to amount nonce /\ r = Ok tt \/
     ~ admissible bm from to amount nonce /\ is_err r).
Proof.
  intros Hc Hn. unfold nonce_synced in Hn. destruct (bm_cache bm !! from) as [info|] eqn:E; [|done].
  injection Hn as Hn. pose proof (Hc from info E) as Hb.
  unfold validate_transfer, get_balance, get_nonce, admissible. m_unfold.
  destruct (length from =? 32)%nat eqn:E1; simpl; zbool; [|eexists; split; [done|right; naive_solver]].
  destruct (length to =? 32)%nat eqn:E2; simpl; zbool; [|eexists; split; [done|right; naive_solver]].
  case_bool_decide as Hft; simpl; [eexists; split; [done|right; naive_solver]|].
  destruct (amount =? 0) eqn:E3; simpl; zbool; [eexists; split; [done|right; naive_solver]|].
  rewrite E. simpl. rewrite Hb.
  destruct (bal bm from <? amount) eqn:E4; simpl; zbool; [eexists; split; [done|right; split; [lia|done]]|].
  rewrite E. simpl. rewrite Hn.
  destruct (nonce =? _) eqn:E5; simpl; zbool; (eexists; split; [done|]); [left|right]; naive_solver.
Qed.

(** A message transfer happens exactly when it is admissible and the recipient's balance does
    not overflow; it takes the sender's nonce to [nonce]. *)
Lemma process_message_transfer_ok from to amount nonce bm :
  coherent bm -> nonce_synced bm from -> 0 <= amount ->
  exists bm' r, process_message_transfer now digest from to amount nonce bm = (r, bm') /\
    coherent bm' /\ nonce_synced bm' from /\
    (admissible bm from to amount nonce /\ bal bm to + amount <= u64_max /\
       r = Ok (digest (transfer_preimage now from to amount)) /\
       view (bm_storage bm') = put_nonce from nonce (moved from to amount (view (bm_storage bm)))
     \/ ~ (admissible bm from to amount nonce /\ bal bm to + amount <= u64_max) /\
        is_err r /\ same_accounts bm bm').
Proof.
  intros Hc Hn Hamt. unfold process_message_transfer.
  destruct (validate_transfer_ok from to amount nonce bm Hc Hn) as (rv & Hv & Hcase).
  destruct (negb (length from =? 32)%nat || negb (length to =? 32)%nat) eqn:E1; m_unfold.
  { do 2 eexists. split; [done|]. split; [done|]. split; [done|]. right. split; [|done].
    intros [(Hl1 & Hl2 & _) _]. rewrite Hl1, Hl2 in E1. done. }
  rewrite Hv. destruct Hcase as [[Hadm ->]|[Hadm Hr]];
    [|destruct rv as [|e|]; [done| |done]; do 2 eexists; split; [done|]; split; [done|]; split; [done|];
      right; split; [tauto|done]].
  simpl. destruct Hadm as (Hl1 & Hl2 & Hft & Hz & Hle & Hnonce).
  destruct bm as [st c ev tr]. m_run. set (bm1 := mkBalances s c ev tr).
  assert (coherent bm1) as Hc1 by (intros a info Hi; unfold bal; simpl; rewrite V; by apply Hc).
  assert (forall a, bal bm1 a = bal (mkBalances st c ev tr) a) as Hb by (intros a; unfold bal; simpl; by rewrite V).
  destruct (transfer_internal_ok eq from to amount bm1 Hc1 Hft Hamt) as (bm2 & r2 & Ht & Hres).
  rewrite !Hb in Hres. unfold or_rollback. m_unfold. fold bm1. rewrite Ht.
  rewrite (proj2 (Z.ltb_ge _ _) Hle) in Hres.
  destruct (u64_max <? _) eqn:Eo; zbool.
  - destruct Hres as [-> ->]. destruct R as (s2 & HR & HV). simpl. rewrite HR.
    do 2 eexists. split; [done|]. split; [intros a info Hi; unfold bal; simpl; rewrite HV; by apply Hc|].
    split; [unfold nonce_synced in *; simpl in *; by rewrite HV|]. right. split; [|by split].
    intros [_ Ho]. lia.
  - destruct Hres as (-> & Hc2 & Hv2 & Hn2). simpl. unfold increment_nonce. m_unfold.
    specialize (Hn2 from). rewrite decide_True in Hn2 by tauto. unfold nonce_synced in Hn. simpl in Hn, Hn2.
    destruct (bm_cache bm2 !! from) as [info|] eqn:E; [|done]. simpl in Hn2. injection Hn2 as Hi.
    rewrite Hn in Hi. simpl in Hi. m_run. rewrite Hi, <-Hnonce in *. unfold transfer_done. m_run.
    do 2 eexists. split; [done|]. split; [|split].
    + apply cached_insert.
      * intros a' info' Ha' _. rewrite V2, V1, V0, balance_put_nonce. by apply Hc2.
      * rewrite V2, V1, V0, balance_put_nonce. simpl. by apply Hc2.
    + unfold nonce_synced. simpl. rewrite lookup_insert_eq, V2, V1, V0, nonce_put_nonce, decide_True by done. done.
    + left. split; [by split_and!|]. split; [done|]. split; [done|].
      simpl. rewrite V2, V1, V0, Hv2. simpl. by rewrite V.
Qed.

(** Crediting and debiting do what they say on every branch, whatever the cache holds as
    long as it agrees with the storage: zero is a no-op; a credit fails exactly on [u64]
    overflow or above the supply cap and a debit exactly on an insufficient balance; a failure
    changes no account and a success changes the balance of that account only, by that amount. *)
Theorem credit_debit_correct a amount bm :
  coherent bm -> 0 <= amount ->
  (let (r, bm') := credit now a amount bm in
   coherent bm' /\
   (is_err r = false <-> amount = 0 \/ bal bm a + amount <= MAX_SUPPLY) /\
   forall a', bal bm' a' = bal bm a' + (if bool_decide (a' = a /\ is_err r = false) then amount else 0)) /\
  (let (r, bm') := debit now a amount bm in
   coherent bm' /\
   (is_err r = false <-> amount = 0 \/ amount <= bal bm a) /\
   forall a', bal bm' a' = bal bm a' - (if bool_decide (a' = a /\ is_err r = false) then amount else 0)).
Proof.
  clear digest. intros Hc Ha. split.
  - destruct (credit_ok a amount bm Hc) as (bm' & r & -> & Hc' & Hr). split; [done|].
    unfold same_accounts, bal in *. destruct (amount =? 0) eqn:E0; [|destruct (u64_max <? _) eqn:E1; [|destruct (MAX_SUPPLY <? _) eqn:E2]];
      zbool; destruct Hr as [-> Hv]; try (subst bm'); try rewrite Hv; (split; [|intros a'; rewrite ?balance_put_balance]).
    all: amount_unfold; try case_bool_decide; try case_decide; subst; naive_solver lia.
  - destruct (debit_ok a amount bm Hc) as (bm' & r & -> & Hc' & Hr). split; [done|].
    unfold same_accounts, bal in *. destruct (amount =? 0) eqn:E0; [|destruct (_ <? _) eqn:E1];
      zbool; destruct Hr as [-> Hv]; try (subst bm'); try rewrite Hv; (split; [|intros a'; rewrite ?balance_put_balance]).
    all: try case_bool_decide; try case_decide; subst; naive_solver lia.
Qed.

(** C2: A transfer is atomic and conserves tokens: it succeeds exactly when the amount is zero,
    or the accounts differ, the sender has the amount and the recipient does not overflow; then
    exactly the two balances move by the amount, and otherwise no balance, nonce or locked
    amount of any account changes.  Either way the total over any set of accounts containing
    the two is what it was, and the cache still agrees with the storage. *)
Theorem transfer_atomic from to amount reason bm (accounts : list AccountAddress) :
  coherent bm -> 0 <= amount -> NoDup accounts -> from ∈ accounts -> to ∈ accounts ->
  let (r, bm') := transfer_with_reason now digest from to amount reason bm in
  coherent bm' /\
  zsum (bal bm') accounts = zsum (bal bm) accounts /\
  (is_err r = false <-> amount = 0 \/ from <> to /\ amount <= bal bm from /\ bal bm to + amount <= u64_max) /\
  (forall a, bal bm' a = bal bm a + (if bool_decide (a = to /\ is_err r = false /\ from <> to) then amount else 0)
                                  - (if bool_decide (a = from /\ is_err r = false /\ from <> to) then amount else 0)) /\
  (forall a, nonce_of (view (bm_storage bm')) a = nonce_of (view (bm_storage bm)) a /\
             locked_of (view (bm_storage bm')) a = locked_of (view (bm_storage bm)) a).
Proof.
  intros Hc Ha Hnd Hf Ht. destruct (transfer_ok eq from to amount reason bm Hc Ha) as (bm' & r & -> & Hc' & Hr).
  split; [done|]. pose proof (moved_total from to amount (view (bm_storage bm)) accounts) as Htot.
  unfold same_accounts, bal in *.
  destruct (amount =? 0) eqn:E0; [|case_bool_decide as Hft; [|destruct (_ <? amount) eqn:E1; [|destruct (u64_max <? _) eqn:E2]]];
    zbool; destruct Hr as [-> Hv]; rewrite Hv; simpl.
  1-4: (split; [done|]; split; [naive_solver lia|]; split; [|done]; intros a; repeat case_bool_decide; naive_solver lia).
  split; [by apply Htot|]. split; [naive_solver lia|]. split; [|done]. intros a. unfold moved.
  rewrite !balance_put_balance. repeat case_decide; repeat case_bool_decide; subst; naive_solver lia.
Qed.

End laws.

(** ** Instances over the in-memory storage *)

Definition alice : AccountAddress := replicate 32 1.
Definition bob : AccountAddress := replicate 32 2.
Definition no_digest (b : Bytes) : string := "00".

(** Alice has 100 base units and nonce 4. *)
Definition alice_storage : MemoryStorage := mkMemory (mkAccounts {[alice := 100]} ∅ {[alice := 4]}) None [].
Definition alice_manager : BalanceManager MemoryStorage :=
  mkBalances alice_storage {[alice := mkInfo alice 100 4 0 0]} [] [].

(** Coherence of a concrete manager is a computation. *)
Lemma coherent_decide (bm : BalanceManager MemoryStorage) :
  bool_decide (map_Forall (fun a info => ai_balance info = bal bm a) (bm_cache bm)) = true -> coherent bm.
Proof. intros H a info. by apply (bool_decide_eq_true_1 _ H). Qed.

Lemma alice_coherent : coherent alice_manager.
Proof. apply coherent_decide. by vm_compute. Qed.

Lemma credit_debit_correct_witness :
  let (r, bm') := debit 0 alice 30 alice_manager in
  coherent bm' /\ (is_err r = false <-> 30 = 0 \/ 30 <= bal alice_manager alice) /\
  forall a', bal bm' a' = bal alice_manager a' - (if bool_decide (a' = alice /\ is_err r = false) then 30 else 0).
Proof. apply (credit_debit_correct 0 alice 30 alice_manager alice_coherent). done. Defined.

Lemma transfer_atomic_witness :
  zsum (bal (transfer 0 no_digest alice bob 30 alice_manager).2) [alice; bob] = 100 /\
  bal (transfer 0 no_digest alice bob 30 alice_manager).2 bob = 30.
Proof.
  pose proof (transfer_atomic 0 no_digest alice bob 30 Standard alice_manager [alice; bob] alice_coherent
    ltac:(done) ltac:(by apply (bool_decide_unpack _)) ltac:(set_solver) ltac:(set_solver)) as H.
  split; [|by vm_compute].
  revert H. unfold transfer. destruct (transfer_with_reason _ _ _ _ _ _ _) as [r bm'].
  intros (_ & Hz & _). etransitivity; [exact Hz|by vm_compute].
Defined.

(** ** What the cache gets wrong *)

(** After the cache is cleared (or the node restarted) the stored nonce is 4, yet a message
    with nonce 1 is accepted and the stored nonce goes back to 1: [validate_transfer] reads the
    balance first, which caches the account with nonce 0. *)
Theorem cleared_cache_admits_replay :
  let bm := (clear_cache alice_manager).2 in
  nonce_of (view (bm_storage bm)) alice = 4 /\
  let (r, bm') := process_message_transfer 0 no_digest alice bob 10 1 bm in
  r = Ok "00" /\ nonce_of (view (bm_storage bm')) alice = 1.
Proof. vm_compute. done. Qed.

(** A refused [lock] of an account that is not cached leaves it cached with balance 0, and the
    next credit overwrites the stored balance. *)
Theorem refused_lock_loses_balance :
  let bm := (clear_cache alice_manager).2 in
  let (r, bm1) := lock 0 alice 10 bm in
  is_err r = true /\ bal bm1 alice = 100 /\ ~ coherent bm1 /\
  bal (credit 0 alice 5 bm1).2 alice = 5.
Proof.
  split; [done|]. split; [done|]. split; [|by vm_compute].
  intros H. specialize (H alice (mkInfo alice 0 0 0 0) ltac:(by vm_compute)). by vm_compute in H.
Qed.

(** A locked amount can be spent: [transfer] looks at the balance alone. *)
Theorem locked_amount_spendable :
  let bm := (lock 0 alice 100 alice_manager).2 in
  locked_of (view (bm_storage bm)) alice = 100 /\
  is_err (transfer 0 no_digest alice bob 100 bm).1 = false.
Proof. vm_compute. done. Qed.
