(* ===== verification/Ledger.v ===== *)
(** * Runs of the balance manager

    The public operations of [adic-economics/src/balance.rs] as one type, and what no sequence of them
    breaks: how much the accounts hold together, and the nonces of message transfers. *)

From S2P Require Import Prelude F64 Message Amount EconStorage Balance.

(** ** The operations *)

Inductive BalanceOp :=
  | BCredit (a : AccountAddress) (amount : AdicAmount)
  | BDebit (a : AccountAddress) (amount : AdicAmount)
  | BTransfer (from to : AccountAddress) (amount : AdicAmount) (reason : TransferReason)
  | BLock (a : AccountAddress) (amount : AdicAmount)
  | BUnlock (a : AccountAddress) (amount : AdicAmount)
  | BMessage (from to : Bytes) (amount nonce : Z)
  | BValidate (from to : Bytes) (amount nonce : Z)
  | BBalance (a : AccountAddress)
  | BUnlocked (a : AccountAddress)
  | BNonce (a : AccountAddress)
  | BAccounts
  | BRecord (tx : TransactionRecord)
  | BClearCache.

Section ops.
Context {St : Type} `{!EconomicsStorage St}.
Context (digest : Bytes -> string).
Implicit Types bm : BalanceManager St.

(** What an operation returns is dropped, except whether it fails. *)
Definition balance_op (now : Z) (op : BalanceOp) : M (BalanceManager St) EconError unit :=
  match op with
  | BCredit a x => credit now a x
  | BDebit a x => debit now a x
  | BTransfer f t x why => transfer_with_reason now digest f t x why;; mret tt
  | BLock a x => lock now a x
  | BUnlock a x => unlock a x
  | BMessage f t x n => process_message_transfer now digest f t x n;; mret tt
  | BValidate f t x n => validate_transfer now f t x n
  | BBalance a => get_balance now a;; mret tt
  | BUnlocked a => get_unlocked_balance now a;; mret tt
  | BNonce a => get_nonce a;; mret tt
  | BAccounts => get_all_accounts now;; mret tt
  | BRecord tx => record_transaction tx
  | BClearCache => clear_cache
  end.

(** Amounts have their machine type. *)
Definition balance_op_typed (op : BalanceOp) : Prop :=
  match op with
  | BCredit _ x | BDebit _ x | BTransfer _ _ x _ | BLock _ x | BUnlock _ x | BMessage _ _ x _ | BValidate _ _ x _ => is_u64 x
  | _ => True
  end.

(** Tokens that an operation brings into being, or takes away, on its own. *)
Definition credited (now : Z) (op : BalanceOp) bm : Z :=
  match op with BCredit a x => if is_err (credit now a x bm).1 then 0 else x | _ => 0 end.
End ops.

(** ** Sums over accounts *)

Lemma zsum_le {A} (f g : A -> Z) l : (forall a, a ∈ l -> f a <= g a) -> zsum f l <= zsum g l.
Proof.
  induction l as [|a l IH]; intros H; [done|]. rewrite !zsum_cons. specialize (IH ltac:(intros; apply H; by right)).
  specialize (H a ltac:(left)). lia.
Qed.

Lemma zsum_point (f : AccountAddress -> Z) a x accounts :
  NoDup accounts -> 0 <= x ->
  zsum (fun a' => f a' + (if decide (a' = a) then x else 0)) accounts <= zsum f accounts + x.
Proof.
  intros Hd Hx. rewrite zsum_add. enough (zsum (fun a' => if decide (a' = a) then x else 0) accounts <= x) by lia.
  destruct (decide (a ∈ accounts)) as [Ha|Ha].
  - rewrite (zsum_one a (fun _ => x)) by done. lia.
  - rewrite zsum_zero; [done|]. intros a' Ha'. case_decide; [by subst|done].
Qed.

(** After a payment the accounts still sum to no more than they could before. *)
Lemma zsum_payment (f g : AccountAddress -> Z) from to x T accounts :
  (forall a, g a = f a + (if decide (a = to) then x else 0) - (if decide (a = from) then x else 0)) ->
  (forall a, 0 <= g a) -> NoDup accounts -> (forall l, NoDup l -> zsum f l <= T) -> zsum g accounts <= T.
Proof.
  intros Hg Hn Hd HT.
  assert (exists l, NoDup l /\ from ∈ l /\ to ∈ l /\ zsum g accounts <= zsum g l) as (l & Hl & Hf & Ht & Hle).
  { exists (elements (list_to_set accounts ∪ {[from]} ∪ {[to]} : gset AccountAddress)).
    split; [apply NoDup_elements|]. split; [set_solver|]. split; [set_solver|].
    apply zsum_submseteq; [done|]. apply NoDup_submseteq; [done|]. set_solver. }
  etransitivity; [exact Hle|]. etransitivity; [|by apply (HT l)].
  rewrite (zsum_ext _ (fun a => f a + ((if decide (a = to) then x else 0) + (if decide (a = from) then - x else 0))))
    by (intros; rewrite Hg; repeat case_decide; lia).
  rewrite !zsum_add, (zsum_one to (fun _ => x)), (zsum_one from (fun _ => - x)) by done. lia.
Qed.

(** ** What the accounts hold together *)

#[local] Arguments amount_checked_add : simpl never.
#[local] Arguments amount_checked_sub : simpl never.
#[local] Arguments amount_saturating_add : simpl never.
#[local] Arguments amount_saturating_sub : simpl never.

Section within.
Context {St : Type} `{!EconomicsStorage St} `{!EconomicsStorageLaws St}.
Context (now : Z) (digest : Bytes -> string).
Implicit Types bm : BalanceManager St.

(** No balance is negative and distinct accounts hold at most [T]. *)
Record within (T : Z) bm : Prop := {
  wi_covered : covered bm;
  wi_nonneg a : 0 <= bal bm a;
  wi_total accounts : NoDup accounts -> zsum (bal bm) accounts <= T;
}.

Lemma within_mono T T' bm : T <= T' -> within T bm -> within T' bm.
Proof. intros HT [Hc Hn Ht]. split; [done|done|]. intros l Hl. specialize (Ht l Hl). lia. Qed.

Lemma within_lower T bm bm' : covered bm' -> (forall a, 0 <= bal bm' a <= bal bm a) -> within T bm -> within T bm'.
Proof.
  intros Hc Hb [_ Hn Ht]. split; [done|intros a; apply Hb|]. intros l Hl. specialize (Ht l Hl).
  pose proof (zsum_le (bal bm') (bal bm) l ltac:(intros; apply Hb)). lia.
Qed.

Lemma within_same T bm bm' : covered bm' -> same_accounts bm bm' -> within T bm -> within T bm'.
Proof. intros Hc Hs Hw. apply (within_lower T bm); [done| |done]. intros a. unfold bal. rewrite Hs. split; [apply Hw|done]. Qed.

Lemma same_cache_covered bm bm' : same_accounts bm bm' -> bm_cache bm' = bm_cache bm -> covered bm -> covered bm'.
Proof. intros Hs Hc Hcov a i Hi. unfold bal. rewrite Hs. apply Hcov. by rewrite <-Hc. Qed.

Definition keeps_within {A} (m : M (BalanceManager St) EconError A) : Prop := forall T, hoare (within T) m (fun _ => within T) (within T).

Lemma get_balance_bounded a bm :
  covered bm -> 0 <= bal bm a ->
  exists b bm', get_balance now a bm = (Ok b, bm') /\ 0 <= b <= bal bm a /\ same_accounts bm bm' /\ covered bm' /\
    ai_balance <$> bm_cache bm' !! a = Some b.
Proof.
  intros Hc Hn. unfold get_balance. m_unfold. destruct (bm_cache bm !! a) as [i|] eqn:E.
  - exists (ai_balance i), bm. destruct (Hc a i E) as [H1 H2]. rewrite E. split_and!; try done. by apply H2.
  - m_run. eexists (bal bm a), _. split; [done|]. split; [done|]. split; [done|].
    split; [apply cached_insert; [intros; by apply Hc|done]|]. simpl. by rewrite lookup_insert_eq.
Qed.

Lemma get_balance_covered a T :
  hoare (within T) (get_balance now a) (fun b bm => within T bm /\ 0 <= b) (within T).
Proof.
  intros bm Hw. pose proof Hw as [Hc Hn _]. destruct (get_balance_bounded a bm Hc (Hn a)) as (b & bm' & -> & Hb & Hs & Hc' & _).
  split; [by apply (within_same T bm)|lia].
Qed.

Lemma get_balance_within a : keeps_within (get_balance now a).
Proof. intros T. eapply hoare_conseq; [apply get_balance_covered|done|by intros b bm [H _]|done]. Qed.

(** A credit adds its amount at most to a balance, and a debit adds nothing. *)
Lemma credit_within a x T : 0 <= x -> hoare (within T) (credit now a x) (fun _ => within (T + x)) (within T).
Proof.
  intros Hx bm Hw. unfold credit. destruct (x =? ZERO) eqn:E0; [apply (within_mono T); [lia|done]|].
  pose proof Hw as [Hc Hn Ht]. destruct (get_balance_bounded a bm Hc (Hn a)) as (b & bm1 & Hg & Hb & Hsa & Hc1 & _).
  rewrite (M_bind_Ok _ _ _ _ _ Hg).
  unfold amount_checked_add, u64_checked_add. rewrite Z.leb_antisym.
  destruct (u64_max <? b + x); simpl; m_unfold; [by apply (within_same T bm)|].
  destruct (MAX_SUPPLY <? b + x); m_run; [by apply (within_same T bm)|].
  assert (forall a', bal (mkBalances s (cache_balance now a (b + x) (bm_cache bm1)) (bm_events bm1 ++ [mkChange a b (b + x) x Credit]) (bm_transfers bm1)) a' =
    if decide (a' = a) then b + x else bal bm a') as Hbal.
  { intros a'. unfold bal. simpl. rewrite V, balance_put_balance, Hsa. done. }
  split.
  - unfold cache_balance. apply cached_insert.
    + intros a' i Hi Hne. rewrite V, balance_put_balance, decide_False by done. by apply Hc1.
    + rewrite V, balance_put_balance, decide_True by done. by destruct (bm_cache bm1 !! a).
  - intros a'. rewrite Hbal. case_decide; [lia|apply Hn].
  - intros l Hl. pose proof (zsum_point (bal bm) a x l Hl Hx) as Hp. specialize (Ht l Hl).
    enough (zsum (fun a' => if decide (a' = a) then b + x else bal bm a') l <= zsum (fun a' => bal bm a' + (if decide (a' = a) then x else 0)) l)
      by (rewrite (zsum_ext _ _ l (fun a' _ => Hbal a')); lia).
    apply zsum_le. intros a' _. case_decide; subst; lia.
Qed.

Lemma debit_within a x : 0 <= x -> keeps_within (debit now a x).
Proof.
  intros Hx T bm Hw. unfold debit. destruct (x =? ZERO); [done|].
  pose proof Hw as [Hc Hn Ht]. destruct (get_balance_bounded a bm Hc (Hn a)) as (b & bm1 & Hg & Hb & Hsa & Hc1 & Hi).
  rewrite (M_bind_Ok _ _ _ _ _ Hg). unfold amount_checked_sub, u64_checked_sub. rewrite Z.leb_antisym.
  destruct (b <? x) eqn:E; simpl; m_run; [by apply (within_same T bm)|]. zbool.
  apply (within_lower T bm); [|intros a'; unfold bal; simpl; rewrite V, balance_put_balance, Hsa; case_decide; subst;
    [unfold bal in *; lia|split; [apply Hn|done]]|done].
  intros a' i. unfold bal. simpl. rewrite V, balance_put_balance, lookup_alter. case_decide as Ha.
  - subst a'. rewrite decide_True by done. destruct (bm_cache bm1 !! a); simpl; [|done]. intros [= <-]. simpl. done.
  - rewrite decide_False by done. apply Hc1.
Qed.

(** A payment the payer can make. *)
Lemma moved_within from to x T bm bm' :
  covered bm' -> view (bm_storage bm') = moved from to x (view (bm_storage bm)) -> from <> to -> 0 <= x <= bal bm from ->
  within T bm -> within T bm'.
Proof.
  intros Hc' Hv Hft Hx [Hc Hn Ht].
  assert (forall a, bal bm' a = bal bm a + (if decide (a = to) then x else 0) - (if decide (a = from) then x else 0)) as Hb.
  { intros a. unfold bal. rewrite Hv. unfold moved. rewrite !balance_put_balance. repeat case_decide; subst; try done; unfold bal in *; lia. }
  assert (forall a, 0 <= bal bm' a) as Hn'.
  { intros a. rewrite Hb. pose proof (Hn a). repeat case_decide; subst; lia. }
  split; [done|done|]. intros l Hl. by apply (zsum_payment _ _ from to x T l Hb Hn' Hl).
Qed.

Lemma transfer_within from to x reason : 0 <= x -> keeps_within (transfer_with_reason now digest from to x reason).
Proof.
  intros Hx T bm Hw. destruct (transfer_ok now digest at_most from to x reason bm (wi_covered T bm Hw) Hx) as (bm' & r & -> & Hc' & Hr).
  destruct (x =? 0) eqn:E0; [|case_bool_decide as Hft; [|destruct (_ <? x) eqn:E1; [|destruct (u64_max <? _) eqn:E2]]];
    zbool; destruct Hr as [-> Hv]; try by apply (within_same T bm).
  by apply (moved_within from to x T bm).
Qed.

(** Writing an entry with a balance the account has at least. *)
Lemma cache_entry_within a i T bm ev tr :
  at_most (ai_balance i) (bal bm a) -> within T bm -> within T (mkBalances (bm_storage bm) (<[a := i]> (bm_cache bm)) ev tr).
Proof. intros Hi Hw. apply (within_same T bm); [|done|done]. apply cached_insert; [intros; by apply Hw|done]. Qed.

Lemma set_locked_within a x : keeps_within (in_storage (storage_set_locked_balance a x)).
Proof.
  intros T bm Hw. m_run. assert (forall b, balance_of (view s) b = bal bm b) as Hb by (intros b; by rewrite V).
  apply (within_lower T bm); [|intros b; unfold bal at 1 2; simpl; rewrite Hb; split; [apply Hw|done]|done].
  intros b i Hi. unfold bal. simpl. rewrite Hb. by apply Hw.
Qed.

Lemma relock_within a i x T :
  hoare (fun bm => at_most (ai_balance i) (bal bm a) /\ within T bm)
    (update_cache (insert a (mkInfo (ai_address i) (ai_balance i) (ai_nonce i) x (ai_last_activity i)));;
     in_storage (storage_set_locked_balance a x)) (fun _ => within T) (within T).
Proof.
  eapply hoare_bind; [|intros ?; apply set_locked_within]. apply hoare_write. intros bm [Hi Hw].
  by apply (cache_entry_within a (mkInfo (ai_address i) (ai_balance i) (ai_nonce i) x (ai_last_activity i))).
Qed.

Lemma lock_within a x : keeps_within (lock now a x).
Proof.
  intros T bm Hw. unfold lock, mread. rewrite (M_bind_Ok _ _ bm (bm_cache bm) bm) by done. set (i := default _ _).
  assert (at_most (ai_balance i) (bal bm a)) as Hi.
  { unfold i. destruct (bm_cache bm !! a) as [j|] eqn:E; simpl; [by apply Hw|]. split; [apply Hw|done]. }
  rewrite (M_bind_Ok _ _ _ tt (mkBalances (bm_storage bm) (<[a := i]> (bm_cache bm)) (bm_events bm) (bm_transfers bm))) by done.
  pose proof (cache_entry_within a i T bm (bm_events bm) (bm_transfers bm) Hi Hw) as Hw'. unfold mbail. destruct (_ <? x); [unfold mfail, mbind, M_bind; exact Hw'|].
  rewrite (M_bind_Ok _ _ _ tt _) by done. exact (relock_within a i _ T (mkBalances (bm_storage bm) (<[a := i]> (bm_cache bm)) (bm_events bm) (bm_transfers bm)) (conj Hi Hw')).
Qed.

Lemma unlock_within a x : keeps_within (unlock a x).
Proof.
  intros T bm Hw. unfold unlock, mread. rewrite (M_bind_Ok _ _ bm (bm_cache bm) bm) by done.
  destruct (bm_cache bm !! a) as [i|] eqn:E; [|done]. cbn [mopt]. rewrite (M_bind_Ok _ _ bm i bm) by done. unfold mbail. destruct (_ <? x); [unfold mfail, mbind, M_bind; exact Hw|].
  rewrite (M_bind_Ok _ _ _ tt _) by done. exact (relock_within a i _ T bm (conj (wi_covered T bm Hw a i E) Hw)).
Qed.

(** The nonce of a cached entry. *)
Lemma alter_nonce_within a n : keeps_within (update_cache (St := St) (alter (with_nonce n) a)).
Proof.
  intros T. apply hoare_write. intros bm Hw. apply (within_same T bm); [|done|done].
  intros b i. simpl. rewrite lookup_alter. case_decide; [|by apply Hw]. subst. destruct (bm_cache bm !! b) as [j|] eqn:E; [|done].
  intros [= <-]. by apply (wi_covered T bm Hw b j).
Qed.

Lemma get_nonce_within a : keeps_within (get_nonce (St := St) a).
Proof.
  intros T. apply hoare_bind_read_any. intros c. destruct (c !! a) as [i|]; [by apply hoare_ret|].
  eapply (hoare_bind _ _ _ (fun _ => within T)).
  - intros bm Hw. unfold stored_nonce. m_run. by destruct bm.
  - intros n. eapply hoare_bind; [apply alter_nonce_within|]. intros ?. by apply hoare_ret.
Qed.

Lemma validate_within from to x n T :
  hoare (within T) (validate_transfer now from to x n) (fun _ bm => within T bm /\ from <> to) (within T).
Proof.
  unfold validate_transfer. apply hoare_bind_bail; [done|]. intros _. apply hoare_bind_bail; [done|]. intros Hft%bool_decide_eq_false_1.
  apply hoare_bind_bail; [done|]. intros _. eapply hoare_bind; [apply get_balance_within|]. intros b.
  apply hoare_bind_bail; [done|]. intros _. eapply hoare_bind; [apply get_nonce_within|]. intros k.
  intros bm Hw. by destruct (negb _).
Qed.

(** A state that differs from a covered one in nonces and records. *)
Lemma storage_within st' T bm c ev tr :
  (forall a, balance_of (view st') a = bal bm a) -> (forall a i, c !! a = Some i -> at_most (ai_balance i) (bal bm a)) -> within T bm ->
  within T (mkBalances st' c ev tr).
Proof.
  intros Hb Hc Hw. apply (within_lower T bm); [| |done].
  - intros a i Hi. unfold bal. simpl. rewrite Hb. by apply Hc.
  - intros a. unfold bal at 1 2. simpl. rewrite Hb. split; [apply Hw|done].
Qed.

Lemma message_tail_within from to x T :
  0 <= x -> hoare (fun bm => within T bm /\ from <> to)
    (in_storage storage_begin_transaction;; hash ← or_rollback (transfer_internal now digest from to x);
     or_rollback (increment_nonce now from);; in_storage storage_commit_transaction;;
     transfer_done now from to x hash MessageTransfer) (fun _ => within T) (within T).
Proof.
  intros Hx bm [Hw Hft]. pose proof Hw as [Hc _ _]. destruct bm as [st c ev tr]. set (bm := mkBalances st c ev tr) in *. m_run.
  set (bm1 := mkBalances s c ev tr). assert (forall a, bal bm1 a = bal bm a) as Hb by (intros a; unfold bal; simpl; by rewrite V).
  assert (covered bm1) as Hc1 by (intros a i Hi; rewrite Hb; by apply Hc).
  destruct (transfer_internal_ok now digest at_most from to x bm1 Hc1 Hft Hx) as (bm2 & r2 & Ht & Hres).
  unfold or_rollback. m_unfold. rewrite Ht. rewrite !Hb in Hres.
  destruct R as (s2 & HR & HV).
  destruct (bal bm from <? x) eqn:E1; [|destruct (u64_max <? _) eqn:E2]; zbool.
  1-2: destruct Hres as [-> ->]; simpl; rewrite HR; apply (storage_within s2 T bm); [intros a; by rewrite HV|apply Hc|done].
  destruct Hres as (-> & Hc2 & Hv2 & Hn2). simpl.
  assert (within T bm2) as Hw2.
  { apply (moved_within from to x T bm); [done| |done..]. by rewrite Hv2; unfold bm; simpl; rewrite V. }
  unfold increment_nonce. m_unfold. pose proof (Hn2 from) as Hnf. rewrite decide_True in Hnf by tauto.
  destruct (bm_cache bm2 !! from) as [i|] eqn:E; [|done]. m_run. unfold transfer_done. m_run.
  apply (storage_within _ T bm2); [intros a; by rewrite V2, V1, V0|intros a j|done].
  rewrite lookup_insert. case_decide; [subst; intros [= <-]; by apply (Hc2 a i)|by apply Hc2].
Qed.

Lemma message_within from to x n : 0 <= x -> keeps_within (process_message_transfer now digest from to x n).
Proof.
  intros Hx T. unfold process_message_transfer. apply hoare_bind_bail; [done|]. intros _.
  eapply hoare_bind; [apply validate_within|]. intros ?. by apply message_tail_within.
Qed.

Lemma keeps_within_storage {A} (m : M St EconError A) :
  (forall s, view (m s).2 = view s) -> keeps_within (in_storage m).
Proof.
  intros Hm T. apply hoare_zoom. intros bm Hw. specialize (Hm (bm_storage bm)). destruct (m _) as [r s']. simpl in Hm.
  assert (within T (mkBalances s' (bm_cache bm) (bm_events bm) (bm_transfers bm))); [|by destruct r].
  apply (storage_within s' T bm); [intros a; by rewrite Hm|apply Hw|done].
Qed.

Lemma get_locked_within a : keeps_within (get_locked_balance (St := St) a).
Proof.
  intros T. apply hoare_bind_read_any. intros c. destruct (c !! a); [by apply hoare_ret|].
  apply keeps_within_storage. intros s. by rewrite get_locked_law.
Qed.

Lemma get_unlocked_within a : keeps_within (get_unlocked_balance now a).
Proof.
  intros T. eapply hoare_bind; [apply get_balance_within|]. intros b.
  eapply hoare_bind; [apply get_locked_within|]. intros l. by apply hoare_ret.
Qed.

Lemma collect_within l : keeps_within (collect_accounts now l).
Proof.
  intros T. induction l as [|a l IH]; [by apply hoare_ret|].
  eapply hoare_bind; [apply get_balance_within|]. intros b. eapply hoare_bind; [apply get_locked_within|]. intros k.
  eapply hoare_bind; [exact IH|]. intros r. by apply hoare_ret.
Qed.

Lemma accounts_within : keeps_within (get_all_accounts now (St := St)).
Proof.
  intros T. eapply hoare_bind; [apply keeps_within_storage; intros s; by destruct (all_accounts_law s) as [l ->]|].
  intros l. apply collect_within.
Qed.

Lemma record_within tx : keeps_within (record_transaction (St := St) tx).
Proof. apply keeps_within_storage. intros s. destruct (record_law tx s) as (s' & -> & V). done. Qed.

Lemma clear_within : keeps_within (clear_cache (St := St)).
Proof. intros T. apply hoare_write. intros bm Hw. by apply (within_same T bm). Qed.

Lemma hoare_done {A} T (m : M (BalanceManager St) EconError A) : keeps_within m -> hoare (within T) (m;; mret tt) (fun _ => within T) (within T).
Proof. intros Hm. eapply hoare_bind; [apply Hm|]. intros ?. by apply hoare_ret. Qed.

Lemma hoare_after {A} T (m : M (BalanceManager St) EconError A) bm : keeps_within m -> within T bm -> within T (m bm).2.
Proof. intros Hm Hw. specialize (Hm T bm Hw). by destruct (m bm) as [[]]. Qed.

(** No operation takes the sum past the tokens there were and those it credits. *)
Lemma balance_op_within op T bm :
  balance_op_typed op -> within T bm -> within (T + credited now op bm) (balance_op digest now op bm).2.
Proof.
  intros Hop Hw. destruct op as [a x|a x|f t x why|a x|a x|f t x n|f t x n|a|a|a| |tx|]; cbn [credited balance_op balance_op_typed] in *;
    try rewrite Z.add_0_r; try (apply hoare_after; [|done]; try (intros T'; apply hoare_done)).
  - pose proof (credit_within a x T ltac:(uint_unfold; lia) bm Hw) as H. destruct (credit now a x bm) as [[]]; simpl in *;
      [done|by rewrite Z.add_0_r|apply (within_mono T); [uint_unfold; lia|done]].
  - apply debit_within. uint_unfold. lia.
  - apply transfer_within. uint_unfold. lia.
  - apply lock_within.
  - apply unlock_within.
  - apply message_within. uint_unfold. lia.
  - intros T'. eapply hoare_conseq; [apply validate_within|done|by intros ? ? [H _]|done].
  - apply get_balance_within.
  - apply get_unlocked_within.
  - apply get_nonce_within.
  - apply accounts_within.
  - apply record_within.
  - apply clear_within.
Qed.
End within.

(** ** The nonces of message transfers *)

Section nonces.
Context {St : Type} `{!EconomicsStorage St} `{!EconomicsStorageLaws St}.
Context (digest : Bytes -> string).
Implicit Types bm : BalanceManager St.

(** The nonce the next message of a sender is checked against: the cached one, and 0 for a sender that is
    not cached, which the check of its balance caches with that nonce. *)
Definition message_nonce bm (a : AccountAddress) : Z := default 0 (ai_nonce <$> bm_cache bm !! a).

Definition same_nonce (a : AccountAddress) bm bm' : Prop := message_nonce bm' a = message_nonce bm a.
#[export] Instance same_nonce_preorder a : PreOrder (same_nonce a).
Proof. split; [by intros bm|]. intros b1 b2 b3. unfold same_nonce. congruence. Qed.

Lemma same_nonce_storage a {A} (m : M St EconError A) : keeps (same_nonce a) (in_storage m).
Proof. by apply keeps_zoom. Qed.
Lemma same_nonce_events a e : keeps (same_nonce a) (emit_balance_event (St := St) e).
Proof. by apply keeps_write. Qed.
Lemma same_nonce_transfers a e : keeps (same_nonce a) (emit_transfer_event (St := St) e).
Proof. by apply keeps_write. Qed.

(** A write to the cache that keeps the nonce of every entry, where none counts as 0. *)
Lemma same_nonce_cache (a : AccountAddress) (f : gmap AccountAddress AccountInfo -> gmap AccountAddress AccountInfo) :
  (forall c, default 0 (ai_nonce <$> f c !! a) = default 0 (ai_nonce <$> c !! a)) -> keeps (same_nonce a) (update_cache (St := St) f).
Proof. intros Hf. apply keeps_write. intros bm. apply Hf. Qed.

Lemma same_nonce_cache_balance a now b x : keeps (same_nonce a) (update_cache (St := St) (cache_balance now b x)).
Proof.
  apply same_nonce_cache. intros c. unfold cache_balance. rewrite lookup_insert. case_decide as H; [subst|done]. by destruct (c !! a).
Qed.
Lemma same_nonce_with_balance a now b x : keeps (same_nonce a) (update_cache (St := St) (alter (with_balance now x) b)).
Proof. apply same_nonce_cache. intros c. rewrite lookup_alter. case_decide as H; [subst|done]. by destruct (c !! a). Qed.

Lemma same_nonce_get_balance a now b : keeps (same_nonce a) (get_balance (St := St) now b).
Proof.
  intros bm. unfold get_balance. m_unfold. destruct (bm_cache bm !! b) as [i|] eqn:E; [done|]. rewrite get_balance_law.
  unfold same_nonce, message_nonce. simpl. rewrite lookup_insert. case_decide as H; [subst; by rewrite E|done].
Qed.
End nonces.

#[export] Hint Resolve same_nonce_storage same_nonce_events same_nonce_transfers same_nonce_cache_balance
  same_nonce_with_balance same_nonce_get_balance same_nonce_preorder : keeps.

Section message_nonces.
Context {St : Type} `{!EconomicsStorage St} `{!EconomicsStorageLaws St}.
Context (digest : Bytes -> string).
Implicit Types bm : BalanceManager St.

Lemma same_nonce_get_nonce a b : keeps (same_nonce a) (get_nonce (St := St) b).
Proof.
  intros bm. unfold get_nonce. m_unfold. destruct (bm_cache bm !! b) as [i|] eqn:E; [done|].
  unfold stored_nonce. m_unfold. rewrite get_nonce_law. unfold same_nonce, message_nonce. simpl. rewrite lookup_alter.
  case_decide as H; [subst; by rewrite E|done].
Qed.

Lemma same_nonce_lock a now b x : keeps (same_nonce a) (lock (St := St) now b x).
Proof.
  unfold lock. intros bm. unfold mread. rewrite (M_bind_Ok _ _ bm (bm_cache bm) bm) by done. set (i := default _ _).
  revert bm i. intros bm i. assert (ai_nonce i = message_nonce bm b) as Hi by (unfold i, message_nonce; by destruct (bm_cache bm !! b)).
  unfold same_nonce, message_nonce. m_unfold. destruct (_ <? x); simpl; [|destruct (storage_set_locked_balance _ _ _)]; simpl;
    rewrite ?insert_insert_eq, lookup_insert; case_decide as H; subst; done.
Qed.

Lemma same_nonce_unlock a b x : keeps (same_nonce a) (unlock (St := St) b x).
Proof.
  intros bm. unfold unlock, same_nonce, message_nonce. m_unfold. destruct (bm_cache bm !! b) as [i|] eqn:E; simpl; [|done].
  destruct (_ <? x); simpl; [done|]. destruct (storage_set_locked_balance _ _ _). simpl. rewrite lookup_insert.
  case_decide as H; [subst; by rewrite E|done].
Qed.

Lemma same_nonce_transfer_internal a now from to x : keeps (same_nonce a) (transfer_internal (St := St) now digest from to x).
Proof. unfold transfer_internal. keeps_auto. Qed.
Lemma same_nonce_transfer_done a now from to x h why : keeps (same_nonce a) (transfer_done (St := St) now from to x h why).
Proof. unfold transfer_done. keeps_auto. Qed.
Lemma same_nonce_collect a now l : keeps (same_nonce a) (collect_accounts (St := St) now l).
Proof. induction l as [|b l IH]; [apply keeps_ret; typeclasses eauto|]. cbn [collect_accounts]. unfold get_locked_balance. keeps_auto. Qed.
Lemma same_nonce_validate a now from to x n : keeps (same_nonce a) (validate_transfer (St := St) now from to x n).
Proof. pose proof same_nonce_get_nonce. unfold validate_transfer. keeps_auto. Qed.

Lemma same_nonce_increment a now b : a <> b -> keeps (same_nonce a) (increment_nonce (St := St) now b).
Proof.
  intros Hne. unfold increment_nonce, stored_nonce. assert (forall i, keeps (same_nonce a) (update_cache (St := St) (insert b i))).
  { intros i. apply same_nonce_cache. intros c. by rewrite lookup_insert_ne. }
  keeps_auto.
Qed.

Lemma same_nonce_message a now b to x n : a <> b -> keeps (same_nonce a) (process_message_transfer (St := St) now digest b to x n).
Proof.
  intros Hne. pose proof (same_nonce_validate a now). pose proof (same_nonce_transfer_internal a now). pose proof (same_nonce_transfer_done a now).
  pose proof (same_nonce_increment a now b Hne). unfold process_message_transfer, or_rollback. keeps_auto.
Qed.

Lemma same_nonce_op a now op :
  (forall t x n, op <> BMessage a t x n) -> op <> BClearCache -> keeps (same_nonce a) (balance_op (St := St) digest now op).
Proof.
  intros Hm Hc. destruct op as [b x|b x|f t x why|b x|b x|f t x n|f t x n|b|b|b| |tx|]; cbn [balance_op]; try done.
  - unfold credit. keeps_auto.
  - unfold debit. keeps_auto.
  - pose proof (same_nonce_transfer_internal a now). pose proof (same_nonce_transfer_done a now).
    unfold transfer_with_reason, or_rollback. keeps_auto.
  - apply same_nonce_lock.
  - apply same_nonce_unlock.
  - apply keeps_bind; [typeclasses eauto|apply same_nonce_message; intros ->; by eapply Hm|]. intros ?. keeps_auto.
  - apply same_nonce_validate.
  - keeps_auto.
  - unfold get_unlocked_balance, get_locked_balance. keeps_auto.
  - pose proof same_nonce_get_nonce. keeps_auto.
  - pose proof (same_nonce_collect a now). unfold get_all_accounts. keeps_auto.
  - unfold record_transaction. keeps_auto.
Qed.

(** What the check leaves in the cache. *)
Lemma validate_nonce now from to x n k :
  hoare (fun bm => message_nonce bm from = k) (validate_transfer (St := St) now from to x n)
    (fun _ bm => message_nonce bm from = k /\ is_Some (bm_cache bm !! from) /\ n = to_u64 (k + 1)) (fun bm => message_nonce bm from = k).
Proof.
  unfold validate_transfer. do 3 (apply hoare_bind_bail; [done|]; intros _).
  eapply (hoare_bind _ _ _ (fun _ bm => message_nonce bm from = k /\ is_Some (bm_cache bm !! from))).
  - intros bm Hk. pose proof (same_nonce_get_balance from now from bm) as Hs. unfold same_nonce in Hs. rewrite Hk in Hs. revert Hs.
    unfold get_balance. m_unfold. destruct (bm_cache bm !! from) as [i|] eqn:E; [by rewrite E|]. rewrite get_balance_law. simpl. by rewrite lookup_insert_eq.
  - intros b. apply hoare_bind_bail; [by intros ? []|]. intros _ bm [Hk [i Hi]]. unfold get_nonce. m_unfold. rewrite Hi. simpl.
    unfold message_nonce in *. rewrite Hi in Hk. simpl in Hk. subst k. destruct (negb _) eqn:E; simpl; rewrite ?Hi; [done|]. zbool.
    split; [done|]. split; [by eexists|done].
Qed.

Lemma increment_ok now from bm :
  is_Some (bm_cache bm !! from) -> exists bm', increment_nonce (St := St) now from bm = (Ok tt, bm') /\
    message_nonce bm' from = to_u64 (message_nonce bm from + 1) /\ nonce_of (view (bm_storage bm')) from = message_nonce bm' from.
Proof.
  intros [i Hi]. unfold increment_nonce, message_nonce. m_unfold. rewrite Hi. m_run. eexists. split; [done|]. simpl.
  rewrite lookup_insert_eq. split; [done|]. by rewrite V, nonce_put_nonce, decide_True.
Qed.

Definition still_cached bm bm' : Prop := forall a, is_Some (bm_cache bm !! a) -> is_Some (bm_cache bm' !! a).
#[local] Instance still_cached_preorder : PreOrder still_cached.
Proof. split; [by intros bm a|]. intros b1 b2 b3 H1 H2 a Ha. by apply H2, H1. Qed.

Lemma still_cached_transfer now from to x : keeps still_cached (transfer_internal (St := St) now digest from to x).
Proof.
  assert (forall a b, keeps still_cached (update_cache (St := St) (cache_balance now a b))).
  { intros a b. apply keeps_write. intros bm c Hc. simpl. unfold cache_balance. rewrite lookup_insert. by case_decide. }
  assert (forall A (m : M St EconError A), keeps still_cached (in_storage m)) by (intros A m; apply keeps_zoom; intros bm a Ha; exact Ha).
  assert (forall e, keeps still_cached (emit_balance_event (St := St) e)) by (intros e; apply keeps_write; intros bm a Ha; exact Ha).
  unfold transfer_internal. keeps_auto.
Qed.

(** A message transfer is accepted with the next nonce only, which it takes. *)
Lemma message_takes_nonce now from to x n k :
  hoare (fun bm => message_nonce bm from = k) (process_message_transfer (St := St) now digest from to x n)
    (fun _ bm => n = to_u64 (k + 1) /\ message_nonce bm from = n /\ nonce_of (view (bm_storage bm)) from = n)
    (fun bm => message_nonce bm from = k).
Proof.
  unfold process_message_transfer. apply hoare_bind_bail; [done|]. intros _. eapply hoare_bind; [apply validate_nonce|]. intros ?.
  intros bm (Hk & Hi & Hn). destruct bm as [st c ev tr]. m_run. set (bm1 := mkBalances s c ev tr).
  pose proof (same_nonce_transfer_internal from now from to x bm1) as Hs. unfold same_nonce in Hs.
  unfold or_rollback. m_unfold.
  assert (forall a, is_Some (bm_cache bm1 !! a) -> is_Some (bm_cache (transfer_internal now digest from to x bm1).2 !! a)) as Hin
    by (apply still_cached_transfer).
  destruct (transfer_internal now digest from to x bm1) as [[h|e|] bm2] eqn:Et; simpl in Hs, Hin |- *.
  - destruct (increment_ok now from bm2 (Hin from Hi)) as (bm3 & -> & Hn3 & Hst). unfold transfer_done. m_run.
    rewrite Hs in Hn3. unfold message_nonce in *. simpl in *. rewrite V1, V0. rewrite Hst, Hn3, Hk. by split_and!.
  - destruct (storage_rollback_transaction (bm_storage bm2)) as [[] ?]; unfold message_nonce in *; simpl in *; by rewrite Hs.
  - unfold message_nonce in *; simpl in *; by rewrite Hs.
Qed.

(** *** Runs *)

(** A sender's message that is accepted, by its nonce. *)
Definition accepted_nonce (from : Bytes) (op : BalanceOp) (r : result EconError unit) : list Z :=
  match op, r with BMessage f _ _ n, Ok _ => if bool_decide (f = from) then [n] else [] | _, _ => [] end.

(** The nonces of the messages of a sender accepted along a run, each operation at its time, and the
    state it ends in. *)
Fixpoint accepted (from : Bytes) (ops : list (Z * BalanceOp)) bm : list Z * BalanceManager St :=
  match ops with
  | [] => ([], bm)
  | (now, op) :: ops =>
      let (r, bm') := balance_op digest now op bm in
      let (ns, bm'') := accepted from ops bm' in
      (accepted_nonce from op r ++ ns, bm'')
  end.

Lemma balance_op_nonces from now op bm :
  op <> BClearCache -> 0 <= message_nonce bm from < u64_max ->
  let (r, bm') := balance_op digest now op bm in
  accepted_nonce from op r = [] /\ message_nonce bm' from = message_nonce bm from \/
  accepted_nonce from op r = [message_nonce bm from + 1] /\ message_nonce bm' from = message_nonce bm from + 1.
Proof.
  intros Hc Hb. destruct (balance_op digest now op bm) as [r bm'] eqn:E.
  assert ((exists t x n, op = BMessage from t x n) \/ forall t x n, op <> BMessage from t x n) as [(t & x & n & ->)|Hm].
  { destruct op as [| | | | |f| | | | | | |]; try (by right). destruct (decide (f = from)) as [->|]; [left; by do 3 eexists|right; congruence]. }
  - cbn [balance_op] in E. pose proof (message_takes_nonce now from t x n (message_nonce bm from) bm eq_refl) as H.
    revert E. unfold mbind, M_bind.
    destruct (process_message_transfer now digest from t x n bm) as [[h|e|] bm1]; intros [= <- <-]; simpl; [right|by left..].
    rewrite bool_decide_eq_true_2 by done. destruct H as (-> & Hk & _). unfold to_u64 in *. rewrite Z.mod_small in * by (uint_unfold; lia). done.
  - left. split; [destruct op as [| | | | |f t x n| | | | | | |], r; try done; simpl; case_bool_decide; [subst; by edestruct Hm|done]|].
    pose proof (same_nonce_op from now op Hm Hc bm) as H. by rewrite E in H.
Qed.

(** C10: Message transfers are not replayed as long as the cache is not cleared.  Whatever is done with the
    balance manager - messages of this and other senders in any order, transfers, credits, debits, locks
    and readings - the nonces of the sender's accepted messages are exactly the consecutive numbers after
    the one its cache entry has, and after 0 when it has none, however many are refused: none is accepted
    twice and none is skipped. *)
Theorem message_nonces_consecutive from ops bm :
  Forall (fun p => p.2 <> BClearCache) ops ->
  0 <= message_nonce bm from -> message_nonce bm from + Z.of_nat (length ops) <= u64_max ->
  let (ns, bm') := accepted from ops bm in
  ns = seqZ (message_nonce bm from + 1) (Z.of_nat (length ns)) /\ NoDup ns /\
  message_nonce bm' from = message_nonce bm from + Z.of_nat (length ns).
Proof.
  intros Hops H0 H1. assert (forall ops bm, Forall (fun p => p.2 <> BClearCache) ops ->
    0 <= message_nonce bm from -> message_nonce bm from + Z.of_nat (length ops) <= u64_max ->
    let (ns, bm') := accepted from ops bm in ns = seqZ (message_nonce bm from + 1) (Z.of_nat (length ns)) /\
    message_nonce bm' from = message_nonce bm from + Z.of_nat (length ns)) as H.
  { clear ops bm Hops H0 H1. induction ops as [|[now op] ops IH]; intros bm Hops H0 H1; [simpl; split; [done|lia]|]. cbn [accepted length] in *.
    inversion_clear Hops as [|? ? Hc Hops']. pose proof (balance_op_nonces from now op bm Hc ltac:(lia)) as Hop.
    destruct (balance_op digest now op bm) as [r bm1]. specialize (IH bm1 Hops').
    destruct Hop as [[-> Hn]|[-> Hn]]; rewrite Hn in IH; (destruct (accepted from ops bm1) as [ns bm2] eqn:E);
      destruct IH as [Hns Hm]; [lia|lia| |lia|lia|]; rewrite Hm; cbn [app length].
    - done.
    - split; [|lia]. rewrite Nat2Z.inj_succ, (seqZ_cons (message_nonce bm from + 1)) by lia. f_equal.
      rewrite Hns at 1. f_equal; lia. }
  specialize (H ops bm Hops H0 H1). destruct (accepted from ops bm) as [ns bm']. destruct H as [Hns Hn].
  split; [done|]. split; [rewrite Hns; apply NoDup_seqZ|done].
Qed.
End message_nonces.

(** Alice's messages between a transfer to her and a lock of hers. *)
Definition alice_day : list (Z * BalanceOp) :=
  [(0, BMessage alice bob 10 5); (1, BMessage alice bob 10 5); (2, BTransfer bob alice 3 Standard);
   (3, BMessage alice bob 500 6); (4, BLock alice 2); (5, BMessage alice bob 7 6)].

Lemma message_nonces_consecutive_witness :
  (accepted no_digest alice alice_day alice_manager).1 = [5; 6] /\ NoDup (accepted no_digest alice alice_day alice_manager).1.
Proof.
  split; [by vm_compute|].
  pose proof (message_nonces_consecutive no_digest alice alice_day alice_manager) as H. destruct (accepted _ _ _ _) as [ns bm'].
  apply H; [repeat constructor; done|by vm_compute|by vm_compute].
Defined.
