(* ===== verification/Lock.v ===== *)
(** * Locked balances

    What [lock] and [unlock] of [adic-economics/src/balance.rs] promise to the escrow of deposits
    and of applications: how much is held for an account, and which operations change it. *)

From S2P Require Import Prelude F64 Message Amount EconStorage Balance.

Section laws.
Context {St : Type} `{!EconomicsStorage St} `{!EconomicsStorageLaws St}.
Context (now : Z) (digest : Bytes -> string).
Implicit Types bm : BalanceManager St.

(** The locked amount the manager goes by. *)
Definition held bm (a : AccountAddress) : AdicAmount := default 0 (ai_locked <$> bm_cache bm !! a).

(** The locks of all accounts are as before, and no account has left the cache. *)
Definition same_locks bm bm' : Prop :=
  forall a, held bm' a = held bm a /\ (is_Some (bm_cache bm !! a) -> is_Some (bm_cache bm' !! a)).

#[export] Instance same_locks_preorder : PreOrder same_locks.
Proof.
  split; [by intros bm a|]. intros b1 b2 b3 H1 H2 a. destruct (H1 a), (H2 a). split; [congruence|auto].
Qed.

Lemma same_locks_cache bm bm' : bm_cache bm' = bm_cache bm -> same_locks bm bm'.
Proof. intros E a. unfold held. by rewrite E. Qed.

Lemma keeps_storage {A} (m : M St EconError A) : keeps same_locks (in_storage m).
Proof. apply keeps_zoom. intros bm. by apply same_locks_cache. Qed.
Lemma keeps_balance_event e : keeps same_locks (emit_balance_event (St := St) e).
Proof. apply keeps_write. intros bm. by apply same_locks_cache. Qed.
Lemma keeps_transfer_event e : keeps same_locks (emit_transfer_event (St := St) e).
Proof. apply keeps_write. intros bm. by apply same_locks_cache. Qed.

Lemma keeps_cache_balance a b : keeps same_locks (update_cache (St := St) (cache_balance now a b)).
Proof.
  apply keeps_write. intros bm a'. unfold held, cache_balance. simpl. rewrite lookup_insert.
  case_decide as Ha; [subst a'|done]. by destruct (bm_cache bm !! a).
Qed.

Lemma keeps_with_balance a b : keeps same_locks (update_cache (St := St) (alter (with_balance now b) a)).
Proof.
  apply keeps_write. intros bm a'. unfold held. simpl. rewrite lookup_alter.
  case_decide as Ha; [subst a'|done]. by destruct (bm_cache bm !! a).
Qed.

Lemma keeps_get_balance a : keeps same_locks (get_balance now a).
Proof.
  intros bm. unfold get_balance. m_unfold. destruct (bm_cache bm !! a) as [i|] eqn:E; [done|].
  rewrite get_balance_law. intros a'. unfold held. simpl. rewrite lookup_insert.
  case_decide as Ha; [subst a'; by rewrite E|done].
Qed.
End laws.

#[export] Hint Resolve keeps_storage keeps_balance_event keeps_transfer_event keeps_cache_balance
  keeps_with_balance keeps_get_balance same_locks_preorder : keeps.

Section more_laws.
Context {St : Type} `{!EconomicsStorage St} `{!EconomicsStorageLaws St}.
Context (now : Z) (digest : Bytes -> string).
Implicit Types bm : BalanceManager St.

(** Transfers, credits and debits leave every lock alone, funded or not. *)
Lemma transfer_keeps_locks from to amount reason :
  keeps same_locks (transfer_with_reason (St := St) now digest from to amount reason).
Proof.
  unfold transfer_with_reason, or_rollback, transfer_internal, transfer_done. keeps_auto.
Qed.
Lemma credit_keeps_locks a amount : keeps same_locks (credit (St := St) now a amount).
Proof. clear digest. unfold credit. keeps_auto. Qed.
Lemma debit_keeps_locks a amount : keeps same_locks (debit (St := St) now a amount).
Proof. clear digest. unfold debit. keeps_auto. Qed.

#[local] Arguments amount_saturating_add : simpl never.
#[local] Arguments amount_saturating_sub : simpl never.

(** Nothing but locked amounts has changed. *)
Definition same_balances bm bm' : Prop := forall a, bal bm' a = bal bm a.

Lemma relock_ok {Rel} a i amount bm :
  cached_as Rel bm -> bm_cache bm !! a = Some i ->
  exists bm', (update_cache (insert a (mkInfo (ai_address i) (ai_balance i) (ai_nonce i) amount (ai_last_activity i)));;
      in_storage (storage_set_locked_balance a amount)) bm = (Ok tt, bm') /\
    cached_as Rel bm' /\ same_balances bm bm' /\
    (forall b, held bm' b = if decide (b = a) then amount else held bm b) /\
    (forall b, is_Some (bm_cache bm' !! b) <-> is_Some (bm_cache bm !! b)).
Proof.
  clear now digest. intros Hc E. m_run. eexists. split; [done|].
  assert (forall b, balance_of (view s) b = balance_of (view (bm_storage bm)) b) as Hb by (intros b; by rewrite V).
  split_and!.
  - apply cached_insert.
    + intros a' info Hi _. rewrite Hb. by apply Hc.
    + rewrite Hb. simpl. by apply Hc.
  - intros b. unfold bal. simpl. apply Hb.
  - intros b. unfold held. simpl. rewrite lookup_insert. repeat case_decide; subst; done.
  - intros b. simpl. rewrite lookup_insert. case_decide as Ha; [subst b; by rewrite E|done].
Qed.

(** [lock] of a cached account succeeds exactly when the unlocked balance covers the amount. *)
Lemma lock_ok a amount bm :
  coherent bm -> is_Some (bm_cache bm !! a) ->
  exists bm' r, lock now a amount bm = (r, bm') /\ coherent bm' /\ same_balances bm bm' /\
    (forall b, is_Some (bm_cache bm' !! b) <-> is_Some (bm_cache bm !! b)) /\
    if amount_saturating_sub (bal bm a) (held bm a) <? amount then is_err r = true /\ forall b, held bm' b = held bm b
    else r = Ok tt /\ forall b, held bm' b = if decide (b = a) then amount_saturating_add (held bm a) amount else held bm b.
Proof.
  clear digest. intros Hc [i E].
  assert (held bm a = ai_locked i) as Hh by (unfold held; by rewrite E).
  assert (bal bm a = ai_balance i) as Hb by (symmetry; by apply Hc).
  unfold lock, mread. rewrite (M_bind_Ok _ _ bm (bm_cache bm) bm) by done. rewrite E. simpl default.
  assert (update_cache (insert a i) bm = (Ok tt, bm)) as Hsame.
  { unfold update_cache, mwrite. destruct bm as [st c ev tr]. simpl in *. by rewrite insert_id. }
  rewrite (M_bind_Ok _ _ _ _ _ Hsame). rewrite Hb, Hh. destruct (_ <? amount).
  { exists bm, (Err (InsufficientUnlocked (amount_saturating_sub (ai_balance i) (ai_locked i)) amount)). by split_and!. }
  destruct (relock_ok a i (amount_saturating_add (ai_locked i) amount) bm Hc E) as (bm' & Hr & ? & ? & Hl & ?).
  exists bm', (Ok tt). rewrite (M_bind_Ok _ _ bm tt bm) by done. by split_and!.
Qed.

(** [unlock] of a cached account succeeds exactly when that much is held. *)
Lemma unlock_ok {Rel} a amount bm :
  cached_as Rel bm -> 0 <= amount -> is_Some (bm_cache bm !! a) ->
  exists bm' r, unlock a amount bm = (r, bm') /\ cached_as Rel bm' /\ same_balances bm bm' /\
    (forall b, is_Some (bm_cache bm' !! b) <-> is_Some (bm_cache bm !! b)) /\
    if held bm a <? amount then is_err r = true /\ bm' = bm
    else r = Ok tt /\ forall b, held bm' b = if decide (b = a) then held bm a - amount else held bm b.
Proof.
  clear now digest. intros Hc Ham [i E].
  assert (held bm a = ai_locked i) as Hh by (unfold held; by rewrite E).
  unfold unlock, mread. rewrite (M_bind_Ok _ _ bm (bm_cache bm) bm) by done.
  rewrite E, Hh. rewrite (M_bind_Ok _ _ bm i bm) by done. destruct (ai_locked i <? amount) eqn:El.
  { exists bm, (Err (InsufficientLocked (ai_locked i) amount)). by split_and!. }
  zbool. destruct (relock_ok a i (amount_saturating_sub (ai_locked i) amount) bm Hc E) as (bm' & Hr & ? & ? & Hl & ?).
  exists bm', (Ok tt). rewrite (M_bind_Ok _ _ bm tt bm) by done. split_and!; try done.
  intros b. rewrite Hl. case_decide; [|done]. amount_unfold. lia.
Qed.

Lemma unlock_absent a amount bm : bm_cache bm !! a = None -> unlock a amount bm = (Err (AccountNotFound a), bm).
Proof. clear now digest. intros E. unfold unlock. m_unfold. by rewrite E. Qed.

Lemma get_unlocked_ok a bm :
  coherent bm ->
  exists bm', get_unlocked_balance now a bm = (Ok (amount_saturating_sub (bal bm a) (held bm a)), bm') /\
    coherent bm' /\ same_balances bm bm' /\ same_locks bm bm' /\ is_Some (bm_cache bm' !! a).
Proof.
  clear digest. intros Hc. destruct (get_balance_ok now a bm Hc) as (bm' & Hg & Hs & Hc' & [i Hi]).
  exists bm'. pose proof (keeps_get_balance now a bm) as Hk. rewrite Hg in Hk. simpl in Hk.
  unfold get_unlocked_balance. rewrite (M_bind_Ok _ _ _ _ _ Hg).
  assert (get_locked_balance a bm' = (Ok (held bm a), bm')) as Hl.
  { destruct (Hk a) as [<- _]. unfold get_locked_balance, held. m_unfold. by rewrite Hi. }
  rewrite (M_bind_Ok _ _ _ _ _ Hl). split_and!; try done. intros b. unfold bal. by rewrite Hs.
Qed.

(** What a transfer needs. *)
Definition can_transfer bm (from to : AccountAddress) (amount : AdicAmount) : Prop :=
  amount = 0 \/ from <> to /\ amount <= bal bm from /\ bal bm to + amount <= u64_max.

(** The balances after a transfer that may have failed. *)
Definition transferred (ok : bool) (from to : AccountAddress) (amount : AdicAmount) bm bm' : Prop :=
  forall a, bal bm' a = bal bm a + (if decide (a = to /\ ok = true /\ from <> to) then amount else 0)
                                 - (if decide (a = from /\ ok = true /\ from <> to) then amount else 0).

Definition released (a : AccountAddress) (amount : AdicAmount) bm bm' : Prop :=
  forall b, held bm' b = held bm b - if decide (a = b) then amount else 0.

Lemma transfer_spec {Rel} `{!Reflexive Rel} from to amount reason bm :
  cached_as Rel bm -> 0 <= amount ->
  exists bm' r, transfer_with_reason now digest from to amount reason bm = (r, bm') /\ r <> Panic /\ cached_as Rel bm' /\
    same_locks bm bm' /\ (is_err r = false <-> can_transfer bm from to amount) /\
    transferred (negb (is_err r)) from to amount bm bm'.
Proof.
  intros Hc Ham. destruct (transfer_ok now digest Rel from to amount reason bm Hc Ham) as (bm' & r & Ht & Hc' & Hr).
  pose proof (transfer_keeps_locks from to amount reason bm) as Hk. rewrite Ht in Hk. simpl in Hk.
  exists bm', r. split; [done|]. unfold can_transfer, transferred.
  destruct (amount =? 0) eqn:E0; [|case_bool_decide as Hft; [|destruct (_ <? amount) eqn:E1; [|destruct (u64_max <? _) eqn:E2]]];
    zbool; destruct Hr as [-> Hv]; split_and!; try done; simpl.
  all: try (split; naive_solver lia).
  1-4: intros a; unfold bal; rewrite Hv; repeat case_decide; naive_solver lia.
  intros a. unfold bal. rewrite Hv. unfold moved.
  rewrite !balance_put_balance. repeat case_decide; subst; naive_solver lia.
Qed.

(** Spending a lock: the lock is released first, and the transfer may then fail. *)
Lemma unlock_transfer_ok {Rel} `{!Reflexive Rel} a to amount reason bm :
  cached_as Rel bm -> 0 <= amount -> amount <= held bm a -> is_Some (bm_cache bm !! a) ->
  exists bm1 bm2 r, unlock a amount bm = (Ok tt, bm1) /\
    transfer_with_reason now digest a to amount reason bm1 = (r, bm2) /\ r <> Panic /\ cached_as Rel bm1 /\ cached_as Rel bm2 /\
    same_balances bm bm1 /\ (forall b, is_Some (bm_cache bm !! b) -> is_Some (bm_cache bm2 !! b)) /\
    released a amount bm bm1 /\ released a amount bm bm2 /\
    (is_err r = false <-> can_transfer bm a to amount) /\ transferred (negb (is_err r)) a to amount bm bm2.
Proof.
  intros Hc Ham Hle Hin. destruct (unlock_ok a amount bm Hc Ham Hin) as (bm1 & r1 & Hu & Hc1 & Hb1 & Hin1 & Hr1).
  destruct (held bm a <? amount) eqn:E; zbool; [lia|]. destruct Hr1 as [-> Hh1].
  destruct (transfer_spec a to amount reason bm1 Hc1 Ham) as (bm2 & r & Ht & Hp & Hc2 & Hl & Hiff & Hmv).
  assert (released a amount bm bm1) as Hrel by (intros b; rewrite Hh1; repeat case_decide; subst; lia || done).
  exists bm1, bm2, r. split_and!; try done.
  - intros b Hi. apply Hl. by apply Hin1.
  - intros b. rewrite (proj1 (Hl b)). apply Hrel.
  - rewrite Hiff. unfold can_transfer. by rewrite !Hb1.
  - intros b. rewrite Hmv. by rewrite Hb1.
Qed.
End more_laws.
