(* ===== verification/Deposit.v ===== *)
(** * Anti-spam deposits

    [adic-consensus/src/deposit.rs]: a deposit per message, locked in the balance manager until
    the message is finalized (refund) or found at fault (slash).  One clock reading [now] serves
    an operation, [blake3] is the address hash and [values] the iteration order of the map.
    Metrics and log lines are left out. *)

From S2P Require Import Prelude F64 Message Amount EconStorage Balance Lock.

Definition DEFAULT_DEPOSIT_AMOUNT : f64 := f64_lit 1 10.

Inductive DepositStatus := Escrowed | Refunded | Slashed.
#[export] Instance DepositStatus_eq_dec : EqDecision DepositStatus.
Proof. solve_decision. Defined.

Record Deposit := mkDeposit {
  dp_message_id : MessageId;
  dp_proposer_pk : PublicKey;
  dp_amount : AdicAmount;
  dp_status : DepositStatus;
  dp_timestamp : Z;
}.

Record DepositStats := mkDepositStats {
  escrowed_count : nat;
  total_escrowed : AdicAmount;
  slashed_count : nat;
  total_slashed : AdicAmount;
  refunded_count : nat;
  total_refunded : AdicAmount;
}.

Inductive DepositError :=
  | DepositBalanceFailed (e : EconError)
  | InsufficientForDeposit (has needs : AdicAmount)
  | DepositLockFailed (e : EconError)
  | NotEscrowed (id : MessageId)
  | DepositUnlockFailed (e : EconError)
  | DepositTransferFailed (e : EconError)
  | NoDeposit (id : MessageId).

Record DepositManager (St : Type) := mkDeposits {
  dm_amount : AdicAmount;
  dm_deposits : gmap MessageId Deposit;
  dm_balances : option (BalanceManager St);
}.
Arguments mkDeposits {St}.
Arguments dm_amount {St}.
Arguments dm_deposits {St}.
Arguments dm_balances {St}.

Definition deposits_new {St} (amount : f64) : DepositManager St := mkDeposits (from_adic amount) ∅ None.
Definition with_balance_manager {St} (amount : AdicAmount) (balances : BalanceManager St) : DepositManager St :=
  mkDeposits amount ∅ (Some balances).

Definition with_status (s : DepositStatus) (d : Deposit) : Deposit :=
  mkDeposit (dp_message_id d) (dp_proposer_pk d) (dp_amount d) s (dp_timestamp d).

Section manager.
Context {St : Type} `{!EconomicsStorage St}.
Context (now : Z) (digest : Bytes -> string) (blake3 : Bytes -> Bytes).
Context (values : gmap MessageId Deposit -> list (MessageId * Deposit)).

Abbreviation DM := (DepositManager St).

(** [if let Some(ref balance_mgr) = self.balance_manager { .. }]. *)
Definition if_balances (m : M (BalanceManager St) DepositError unit) : M DM DepositError unit := fun dm =>
  match dm_balances dm with
  | None => (Ok tt, dm)
  | Some b => let '(r, b) := m b in (r, mkDeposits (dm_amount dm) (dm_deposits dm) (Some b))
  end.

Definition update_deposits (f : gmap MessageId Deposit -> gmap MessageId Deposit) : M DM DepositError unit :=
  mwrite (fun dm => mkDeposits (dm_amount dm) (f (dm_deposits dm)) (dm_balances dm)).

Definition proposer_addr (pk : PublicKey) : AccountAddress := from_public_key blake3 pk.

Definition escrow (message_id : MessageId) (proposer : PublicKey) : M DM DepositError unit :=
  amount ← mread dm_amount;
  if_balances (
    balance ← mmap_err DepositBalanceFailed (get_unlocked_balance now (proposer_addr proposer));
    mbail (balance <? amount) (InsufficientForDeposit balance amount);;
    mmap_err DepositLockFailed (lock now (proposer_addr proposer) amount));;
  update_deposits (insert message_id (mkDeposit message_id proposer amount Escrowed now)).

(** The deposit that [refund] and [slash] settle. *)
Definition escrowed_deposit (message_id : MessageId) : M DM DepositError Deposit :=
  deposits ← mread dm_deposits;
  deposit ← mopt (deposits !! message_id) (NoDeposit message_id);
  mbail (negb (bool_decide (dp_status deposit = Escrowed))) (NotEscrowed message_id);;
  mret deposit.

Definition refund (message_id : MessageId) : M DM DepositError unit :=
  deposit ← escrowed_deposit message_id;
  if_balances (mmap_err DepositUnlockFailed (unlock (proposer_addr (dp_proposer_pk deposit)) (dp_amount deposit)));;
  update_deposits (insert message_id (with_status Refunded deposit)).

Definition slash (message_id : MessageId) : M DM DepositError unit :=
  deposit ← escrowed_deposit message_id;
  if_balances (
    mmap_err DepositUnlockFailed (unlock (proposer_addr (dp_proposer_pk deposit)) (dp_amount deposit));;
    mmap_err DepositTransferFailed (transfer now digest (proposer_addr (dp_proposer_pk deposit)) treasury (dp_amount deposit));;
    mret tt);;
  update_deposits (insert message_id (with_status Slashed deposit)).

Definition get_state (id : MessageId) : M DM DepositError (option DepositStatus) :=
  mread (fun dm => dp_status <$> dm_deposits dm !! id).
Definition get_proposer (id : MessageId) : M DM DepositError (option PublicKey) :=
  mread (fun dm => dp_proposer_pk <$> dm_deposits dm !! id).
Definition get_deposit (id : MessageId) : M DM DepositError (option Deposit) := mread (fun dm => dm_deposits dm !! id).

Definition of_status (s : DepositStatus) (dm : DM) : list Deposit :=
  List.filter (fun d => bool_decide (dp_status d = s)) (values (dm_deposits dm)).*2.
Definition saturating_total (ds : list Deposit) : AdicAmount :=
  foldl (fun acc d => amount_saturating_add acc (dp_amount d)) ZERO ds.

Definition get_escrowed_count : M DM DepositError nat := mread (fun dm => length (of_status Escrowed dm)).
Definition get_total_escrowed : M DM DepositError AdicAmount := mread (fun dm => saturating_total (of_status Escrowed dm)).

Definition get_recent_deposits (limit : nat) : M DM DepositError (list Deposit) :=
  mread (fun dm => take limit (isort (fun a b => - dp_timestamp a <=? - dp_timestamp b) (values (dm_deposits dm)).*2)).

Definition deposits_stats : M DM DepositError DepositStats :=
  mread (fun dm => mkDepositStats
    (length (of_status Escrowed dm)) (saturating_total (of_status Escrowed dm))
    (length (of_status Slashed dm)) (saturating_total (of_status Slashed dm))
    (length (of_status Refunded dm)) (saturating_total (of_status Refunded dm))).

Definition set_deposit_amount (amount : AdicAmount) : M DM DepositError unit :=
  mwrite (fun dm => mkDeposits amount (dm_deposits dm) (dm_balances dm)).
Definition update_deposit_amount (amount : f64) : M DM DepositError unit := set_deposit_amount (from_adic amount).
Definition get_deposit_amount : M DM DepositError AdicAmount := mread dm_amount.

Definition is_old (cutoff : Z) (d : Deposit) : bool :=
  negb (bool_decide (dp_status d = Escrowed)) && (dp_timestamp d <? cutoff).
Definition cleanup_old_deposits (older_than_days : Z) : M DM DepositError unit :=
  let cutoff := to_i64 (now - to_i64 (older_than_days * 24 * 3600)) in
  update_deposits (filter (fun e => is_old cutoff e.2 = false)).
End manager.

(** ** The locks cover the deposits *)

Section laws.
Context {St : Type} `{!EconomicsStorage St} `{!EconomicsStorageLaws St}.
Context (digest : Bytes -> string) (blake3 : Bytes -> Bytes).
Abbreviation DM := (DepositManager St).
Implicit Types dm : DM.

Abbreviation addr d := (proposer_addr blake3 (dp_proposer_pk d)).

(** What the escrowed deposits of an address come to. *)
Definition owes (a : AccountAddress) (d : Deposit) : Z :=
  if decide (dp_status d = Escrowed /\ addr d = a) then dp_amount d else 0.
Definition owed (deps : gmap MessageId Deposit) (a : AccountAddress) : Z := mapsum (fun e => owes a e.2) deps.

Record deposits_ok dm : Prop := {
  do_amount : 0 <= dm_amount dm;
  do_amounts id d : dm_deposits dm !! id = Some d -> 0 <= dp_amount d;
  do_coherent bm : dm_balances dm = Some bm -> coherent bm;
  do_cached bm id d : dm_balances dm = Some bm -> dm_deposits dm !! id = Some d -> dp_status d = Escrowed ->
    is_Some (bm_cache bm !! addr d);
  do_covered bm a : dm_balances dm = Some bm -> owed (dm_deposits dm) a <= held bm a;
  do_capped bm a : dm_balances dm = Some bm -> held bm a <= MAX_SUPPLY;
}.

Lemma owes_nonneg a d : 0 <= dp_amount d -> 0 <= owes a d.
Proof. unfold owes. by case_decide. Qed.

Lemma owed_insert deps id d a :
  owed (<[id := d]> deps) a = owes a d + owed deps a - match deps !! id with Some d => owes a d | None => 0 end.
Proof. apply mapsum_insert. Qed.

(** A settled deposit is no longer owed. *)
Lemma owed_settled deps id d s a :
  deps !! id = Some d -> dp_status d = Escrowed -> s <> Escrowed ->
  owed (<[id := with_status s d]> deps) a = owed deps a - (if decide (addr d = a) then dp_amount d else 0).
Proof.
  intros Hd Hs Hne. rewrite owed_insert, Hd. unfold owes. simpl.
  rewrite decide_False by tauto. repeat case_decide; try tauto; lia.
Qed.

Lemma escrowed_deposit_ok id dm :
  escrowed_deposit id dm =
  match dm_deposits dm !! id with
  | None => (Err (NoDeposit id), dm)
  | Some d => if decide (dp_status d = Escrowed) then (Ok d, dm) else (Err (NotEscrowed id), dm)
  end.
Proof.
  unfold escrowed_deposit. m_unfold. destruct (dm_deposits dm !! id) as [d|]; [|done].
  simpl. case_bool_decide; by case_decide.
Qed.

Lemma covered_amount dm bm id d :
  deposits_ok dm -> dm_balances dm = Some bm -> dm_deposits dm !! id = Some d -> dp_status d = Escrowed ->
  dp_amount d <= held bm (addr d).
Proof.
  intros [_ Ha _ _ Hcov _] Hb Hd Hs. etransitivity; [|by apply Hcov].
  assert (owes (addr d) d = dp_amount d) as <- by (unfold owes; by rewrite decide_True).
  apply (mapsum_lookup_le (fun e => owes (addr d) e.2) (dm_deposits dm) id d); [|done].
  intros i x Hi. apply owes_nonneg. by eapply Ha.
Qed.

(** An escrowed deposit can be unlocked. *)
Lemma unlock_deposit dm bm id d :
  deposits_ok dm -> dm_balances dm = Some bm -> dm_deposits dm !! id = Some d -> dp_status d = Escrowed ->
  exists bm', unlock (addr d) (dp_amount d) bm = (Ok tt, bm') /\ coherent bm' /\ same_balances bm bm' /\
    (forall b, is_Some (bm_cache bm' !! b) <-> is_Some (bm_cache bm !! b)) /\ released (addr d) (dp_amount d) bm bm'.
Proof.
  intros Hok Hb Hd Hs. pose proof (covered_amount dm bm id d Hok Hb Hd Hs) as Hle.
  destruct (unlock_ok (Rel := eq) (addr d) (dp_amount d) bm) as (bm' & r & Hu & Hc & Hbal & Hin & Hr).
  - by eapply do_coherent.
  - by eapply do_amounts.
  - by eapply do_cached.
  - destruct (held bm (addr d) <? dp_amount d) eqn:E; zbool; [lia|]. destruct Hr as [-> Hh].
    exists bm'. split_and!; try done. intros b. rewrite Hh. repeat case_decide; subst; try done; lia.
Qed.

(** Settling a deposit once its lock is gone. *)
Lemma settled_ok dm bm bm' id d s :
  deposits_ok dm -> dm_balances dm = Some bm -> dm_deposits dm !! id = Some d -> dp_status d = Escrowed -> s <> Escrowed ->
  coherent bm' -> (forall b, is_Some (bm_cache bm !! b) -> is_Some (bm_cache bm' !! b)) ->
  released (addr d) (dp_amount d) bm bm' ->
  deposits_ok (mkDeposits (dm_amount dm) (<[id := with_status s d]> (dm_deposits dm)) (Some bm')).
Proof.
  intros Hok Hb Hd Hst Hs Hc Hin Hh. pose proof (do_amounts _ Hok id d Hd). destruct Hok as [H1 H2 H3 H4 H5 H6].
  split; simpl; [done| | | | |].
  - intros i x Hx. apply lookup_insert_Some in Hx as [[_ <-]|[_ Hx]]; [simpl; by eapply H2|by eapply H2].
  - by intros ? [= <-].
  - intros bm'' i x [= <-] Hx Hx'. apply lookup_insert_Some in Hx as [[_ <-]|[_ Hx]]; [by destruct Hs|].
    apply Hin. by eapply H4.
  - intros bm'' a [= <-]. rewrite (owed_settled _ _ d) by done. rewrite Hh. specialize (H5 bm a Hb). lia.
  - intros bm'' a [= <-]. rewrite Hh. specialize (H6 bm a Hb). case_decide; lia.
Qed.

Lemma if_balances_Some m dm bm :
  dm_balances dm = Some bm ->
  if_balances m dm = let '(r, b) := m bm in (r, mkDeposits (dm_amount dm) (dm_deposits dm) (Some b)).
Proof. intros Hb. unfold if_balances. by rewrite Hb. Qed.

(** *** Refund *)

(** The deposit is settled and its lock released; balances are untouched. *)
Lemma refund_ok dm bm id d :
  deposits_ok dm -> dm_balances dm = Some bm -> dm_deposits dm !! id = Some d -> dp_status d = Escrowed ->
  exists bm', refund blake3 id dm =
      (Ok tt, mkDeposits (dm_amount dm) (<[id := with_status Refunded d]> (dm_deposits dm)) (Some bm')) /\
    same_balances bm bm' /\ coherent bm' /\
    (forall b, is_Some (bm_cache bm !! b) -> is_Some (bm_cache bm' !! b)) /\
    released (addr d) (dp_amount d) bm bm'.
Proof.
  clear digest. intros Hok Hb Hd Hs. destruct (unlock_deposit dm bm id d Hok Hb Hd Hs) as (bm' & Hu & Hc & Hbal & Hin & Hh).
  exists bm'. split; [|split_and!; [done..|intros b; apply Hin|done]].
  unfold refund. rewrite (M_bind_Ok _ _ dm d dm) by (rewrite escrowed_deposit_ok, Hd; by rewrite decide_True).
  unfold mbind at 1, M_bind. rewrite (if_balances_Some _ _ _ Hb). unfold mmap_err. by rewrite Hu.
Qed.

(** *** Slash: the lock is released first, and the transfer may then fail. *)
Lemma slash_ok now dm bm id d :
  deposits_ok dm -> dm_balances dm = Some bm -> dm_deposits dm !! id = Some d -> dp_status d = Escrowed ->
  exists bm' r, slash now digest blake3 id dm =
      (r, mkDeposits (dm_amount dm) (if is_err r then dm_deposits dm else <[id := with_status Slashed d]> (dm_deposits dm)) (Some bm')) /\
    r <> Panic /\ coherent bm' /\ (forall b, is_Some (bm_cache bm !! b) -> is_Some (bm_cache bm' !! b)) /\
    released (addr d) (dp_amount d) bm bm' /\ (is_err r = false <-> can_transfer bm (addr d) treasury (dp_amount d)) /\
    transferred (negb (is_err r)) (addr d) treasury (dp_amount d) bm bm'.
Proof.
  intros Hok Hb Hd Hs.
  destruct (unlock_transfer_ok (Rel := eq) now digest (addr d) treasury (dp_amount d) Standard bm)
    as (bm1 & bm2 & r & Hu & Ht & Hp & _ & Hc & _ & Hin & _ & Hrel & Hiff & Hmv).
  - by eapply do_coherent.
  - by eapply do_amounts.
  - by eapply covered_amount.
  - by eapply do_cached.
  - exists bm2. unfold slash. rewrite (M_bind_Ok _ _ dm d dm) by (rewrite escrowed_deposit_ok, Hd; by rewrite decide_True).
    unfold mbind at 1, M_bind. rewrite (if_balances_Some _ _ _ Hb).
    unfold mmap_err, mbind, M_bind, transfer. rewrite Hu, Ht.
    destruct r as [h|e|]; [exists (Ok tt)|exists (Err (DepositTransferFailed e))|done]; by split_and!.
Qed.

(** Nothing but an escrowed deposit can be settled. *)
Lemma settle_refused now dm id :
  (forall d, dm_deposits dm !! id = Some d -> dp_status d <> Escrowed) ->
  is_err (refund blake3 id dm).1 = true /\ (refund blake3 id dm).2 = dm /\
  is_err (slash now digest blake3 id dm).1 = true /\ (slash now digest blake3 id dm).2 = dm.
Proof.
  intros H. unfold refund, slash, mbind, M_bind. rewrite escrowed_deposit_ok.
  destruct (dm_deposits dm !! id) as [d|]; [|done]. by rewrite decide_False by (by apply H).
Qed.

(** *** Escrow *)
Lemma held_nonneg dm bm a : deposits_ok dm -> dm_balances dm = Some bm -> 0 <= held bm a.
Proof.
  intros Hok Hb. etransitivity; [|by apply (do_covered _ Hok bm a)].
  apply mapsum_nonneg. intros i d Hd. apply owes_nonneg. by eapply do_amounts.
Qed.

Definition escrowed_as now id pk dm : Deposit := mkDeposit id pk (dm_amount dm) Escrowed now.

Lemma escrow_ok now dm bm id pk :
  deposits_ok dm -> dm_balances dm = Some bm -> bal bm (proposer_addr blake3 pk) <= MAX_SUPPLY ->
  exists bm' r, escrow now blake3 id pk dm =
      (r, mkDeposits (dm_amount dm) (if is_err r then dm_deposits dm else <[id := escrowed_as now id pk dm]> (dm_deposits dm)) (Some bm')) /\
    coherent bm' /\ same_balances bm bm' /\
    (forall b, is_Some (bm_cache bm !! b) \/ b = proposer_addr blake3 pk -> is_Some (bm_cache bm' !! b)) /\
    (is_err r = false <-> dm_amount dm <= amount_saturating_sub (bal bm (proposer_addr blake3 pk)) (held bm (proposer_addr blake3 pk))) /\
    (forall b, held bm' b = held bm b + if decide (b = proposer_addr blake3 pk /\ is_err r = false) then dm_amount dm else 0) /\
    (forall b, held bm' b <= MAX_SUPPLY).
Proof.
  clear digest. intros Hok Hb Hcap. set (a := proposer_addr blake3 pk) in *.
  destruct (get_unlocked_ok now a bm) as (bm1 & Hg & Hc1 & Hbal1 & Hl1 & Hin1); [by eapply do_coherent|].
  destruct (lock_ok now a (dm_amount dm) bm1 Hc1 Hin1) as (bm2 & r & Hl & Hc2 & Hbal2 & Hin2 & Hr).
  rewrite Hbal1, (proj1 (Hl1 a)) in Hr. unfold escrow, mread. rewrite (M_bind_Ok _ _ dm (dm_amount dm) dm) by done.
  unfold mbind at 1, M_bind. rewrite (if_balances_Some _ _ _ Hb). unfold mmap_err, mbind, M_bind. fold a. rewrite Hg.
  destruct (_ <? dm_amount dm) eqn:E; simpl.
  { exists bm1. eexists (Err _). split; [reflexivity|]. zbool. split_and!; try done.
    - intros b [Hi| ->]; [by apply Hl1|done].
    - simpl. split; [done|lia].
    - intros b. rewrite (proj1 (Hl1 b)). rewrite decide_False by naive_solver. lia.
    - intros b. rewrite (proj1 (Hl1 b)). by apply (do_capped _ Hok). }
  destruct Hr as [-> Hh]. rewrite Hl. exists bm2, (Ok tt). split; [reflexivity|]. zbool. split_and!; try done.
  - intros b. by rewrite Hbal2, Hbal1.
  - intros b Hi. apply Hin2. destruct Hi as [Hi| ->]; [by apply Hl1|done].
  - intros b. rewrite Hh, (proj1 (Hl1 b)). pose proof (held_nonneg dm bm a Hok Hb). pose proof (do_capped _ Hok bm a Hb).
    pose proof (do_amount _ Hok). repeat case_decide; subst; simpl in *; try naive_solver lia. amount_unfold. lia.
  - intros b. rewrite Hh. case_decide; [amount_unfold; lia|]. rewrite (proj1 (Hl1 b)). by apply (do_capped _ Hok).
Qed.

(** *** Runs *)

(** A run of the manager, with whatever else the balance manager is used for in between.  A
    slash that fails after its unlock is a step of its own kind and left out. *)
Inductive deposit_step : DM -> DM -> Prop :=
  | step_escrow now id pk dm bm :
      dm_balances dm = Some bm -> bal bm (proposer_addr blake3 pk) <= MAX_SUPPLY ->
      deposit_step dm (escrow now blake3 id pk dm).2
  | step_refund id dm : deposit_step dm (refund blake3 id dm).2
  | step_slash now id dm : is_err (slash now digest blake3 id dm).1 = false -> deposit_step dm (slash now digest blake3 id dm).2
  | step_cleanup now days dm : deposit_step dm (cleanup_old_deposits now days dm).2
  | step_amount amount dm : 0 <= amount -> deposit_step dm (set_deposit_amount amount dm).2
  | step_balances dm bm bm' :
      dm_balances dm = Some bm -> same_locks bm bm' -> coherent bm' ->
      deposit_step dm (mkDeposits (dm_amount dm) (dm_deposits dm) (Some bm')).

Definition deposits_start (dm : DM) : Prop :=
  exists amount bm, 0 <= amount /\ coherent bm /\ (forall a, 0 <= held bm a <= MAX_SUPPLY) /\ dm = with_balance_manager amount bm.

Definition deposits_reachable (dm : DM) : Prop := exists dm0, deposits_start dm0 /\ rtc deposit_step dm0 dm.

Lemma start_ok dm : deposits_start dm -> deposits_ok dm /\ is_Some (dm_balances dm).
Proof.
  intros (amount & bm & Ha & Hc & Hh & ->). split; [|done].
  split; simpl; try done; [by intros ? [= <-]| |]; intros bm' a [= <-]; [|apply Hh].
  unfold owed. rewrite mapsum_empty. apply Hh.
Qed.

Lemma step_ok dm dm' :
  deposit_step dm dm' -> deposits_ok dm -> is_Some (dm_balances dm) -> deposits_ok dm' /\ is_Some (dm_balances dm').
Proof.
  intros Hstep Hok Hsome. destruct Hstep as [now id pk dm bm Hb Hcap|id dm|now id dm Hr|now days dm|amount dm Ha|dm bm bm' Hb Hl Hc].
  - destruct (escrow_ok now dm bm id pk Hok Hb Hcap) as (bm' & r & -> & Hc & Hbal & Hin & _ & Hh & Hcap').
    simpl. split; [|done]. pose proof (do_amount _ Hok) as H0. destruct Hok as [H1 H2 H3 H4 H5 H6]. split; simpl; [done| | | | |].
    + intros i d. destruct (is_err r); [apply H2|]. intros [[_ <-]|[_ Hd]]%lookup_insert_Some; [done|by eapply H2].
    + by intros ? [= <-].
    + intros bm'' i d [= <-]. destruct (is_err r); [intros Hd Hs; apply Hin; left; by eapply H4|].
      intros [[_ <-]|[_ Hd]]%lookup_insert_Some Hs; apply Hin; [by right|left; by eapply H4].
    + intros bm'' a [= <-]. rewrite Hh. specialize (H5 bm a Hb). destruct (is_err r).
      * rewrite decide_False by naive_solver. lia.
      * rewrite owed_insert. unfold owes at 1. simpl.
        assert (0 <= match dm_deposits dm !! id with Some d => owes a d | None => 0 end)
          by (destruct (dm_deposits dm !! id) eqn:E; [apply owes_nonneg; by eapply H2|done]).
        repeat case_decide; naive_solver lia.
    + intros bm'' a [= <-]. apply Hcap'.
  - destruct Hsome as [bm Hb]. destruct (dm_deposits dm !! id) as [d|] eqn:Hd.
    + destruct (decide (dp_status d = Escrowed)) as [Hs|Hs].
      * destruct (refund_ok dm bm id d Hok Hb Hd Hs) as (bm' & -> & _ & Hc & Hin & Hh). split; [|done].
        by apply (settled_ok dm bm bm' id d Refunded).
      * destruct (settle_refused 0 dm id) as (_ & -> & _); [intros ? [= <-]%(eq_trans (eq_sym Hd)); done|by split].
    + destruct (settle_refused 0 dm id) as (_ & -> & _); [intros ? ?; congruence|by split].
  - destruct Hsome as [bm Hb]. destruct (dm_deposits dm !! id) as [d|] eqn:Hd.
    + destruct (decide (dp_status d = Escrowed)) as [Hs|Hs].
      * destruct (slash_ok now dm bm id d Hok Hb Hd Hs) as (bm' & r & Hsl & _ & Hc & Hin & Hh & _).
        rewrite Hsl in *. simpl in *. rewrite Hr. split; [|done]. by apply (settled_ok dm bm bm' id d Slashed).
      * destruct (settle_refused now dm id) as (_ & _ & _ & ->); [intros ? [= <-]%(eq_trans (eq_sym Hd)); done|by split].
    + destruct (settle_refused now dm id) as (_ & _ & _ & ->); [intros ? ?; congruence|by split].
  - split; [|done]. destruct Hok as [H1 H2 H3 H4 H5 H6]. split; simpl; [done| |done| | |done].
    + intros i d [Hd _]%map_lookup_filter_Some. by eapply H2.
    + intros bm i d Hb [Hd _]%map_lookup_filter_Some. by eapply H4.
    + intros bm a Hb. etransitivity; [|by apply H5]. unfold owed. rewrite mapsum_filter; [done|].
      intros i d Hd Hold. unfold owes. simpl in *. apply not_false_iff_true, andb_prop in Hold as [Hne _].
      rewrite decide_False; [done|]. intros [Hs _]. by rewrite bool_decide_true in Hne.
  - split; [|done]. by destruct Hok.
  - split; [|done]. destruct Hok as [H1 H2 H3 H4 H5 H6]. split; simpl; [done|done| | | |].
    + by intros ? [= <-].
    + intros ? i d [= <-] Hd Hs. apply Hl. by eapply H4.
    + intros ? a [= <-]. rewrite (proj1 (Hl a)). by apply H5.
    + intros ? a [= <-]. rewrite (proj1 (Hl a)). by apply H6.
Qed.

Lemma deposits_reachable_ok dm : deposits_reachable dm -> deposits_ok dm /\ is_Some (dm_balances dm).
Proof.
  intros (dm0 & Hs & Hr). apply start_ok in Hs as [Hok Hsome].
  induction Hr as [|dm1 dm2 dm3 Hstep _ IH]; [done|]. destruct (step_ok dm1 dm2 Hstep Hok Hsome). by apply IH.
Qed.

(** ** Properties *)

(** In every state the manager reaches, whatever other transfers and credits happen in
    between, the amount locked for an address covers all of its deposits that are still
    escrowed, so no refund or slash of a deposit releases a lock that belongs to another. *)
Theorem deposits_covered dm bm a :
  deposits_reachable dm -> dm_balances dm = Some bm ->
  owed (dm_deposits dm) a <= held bm a <= MAX_SUPPLY /\
  forall id d, dm_deposits dm !! id = Some d -> dp_status d = Escrowed -> addr d = a -> 0 <= dp_amount d <= held bm a.
Proof.
  intros Hr Hb. destruct (deposits_reachable_ok dm Hr) as [Hok _].
  split; [split; [by apply (do_covered _ Hok)|by apply (do_capped _ Hok)]|].
  intros id d Hd Hs <-. split; [by eapply do_amounts|by eapply covered_amount].
Qed.

(** *** Settling a deposit whose lock may be gone *)

(** What an account has locked covers an amount, as [unlock] sees it. *)
Definition lock_covers (bm : BalanceManager St) (a : AccountAddress) (amount : AdicAmount) : Prop :=
  exists i, bm_cache bm !! a = Some i /\ amount <= ai_locked i.

Definition any_cache (_ _ : Z) : Prop := True.
#[local] Instance any_cache_refl : Reflexive any_cache.
Proof. done. Qed.
Lemma any_cached (bm : BalanceManager St) : cached_as any_cache bm.
Proof. done. Qed.

Lemma unlock_cases a amount (bm : BalanceManager St) :
  0 <= amount ->
  exists bm' r, unlock a amount bm = (r, bm') /\ r <> Panic /\ (is_err r = false <-> lock_covers bm a amount) /\
    same_balances bm bm' /\ if is_err r then bm' = bm else released a amount bm bm'.
Proof.
  clear digest blake3. intros Ham. destruct (bm_cache bm !! a) as [i|] eqn:E.
  - destruct (unlock_ok a amount bm (any_cached bm) Ham ltac:(by eexists)) as (bm' & r & -> & _ & Hb & _ & Hr).
    assert (held bm a = ai_locked i) as Hh by (unfold held; by rewrite E). rewrite Hh in Hr.
    exists bm', r. split; [done|]. destruct (ai_locked i <? amount) eqn:El; zbool; destruct Hr as [Hr Hr'].
    + rewrite Hr. split; [by intros ->|]. split; [|done]. split; [done|]. intros (j & Hj & Hle). rewrite E in Hj. injection Hj as <-. lia.
    + subst r. split; [done|]. split; [split; [by exists i|done]|]. split; [done|]. intros b. rewrite Hr'. repeat case_decide; subst; try done; lia.
  - rewrite unlock_absent by done. exists bm, (Err (AccountNotFound a)). split; [done|]. split; [done|]. split; [|done].
    split; [done|]. intros (j & Hj & _). congruence.
Qed.

Lemma refund_cases dm bm id d :
  dm_balances dm = Some bm -> dm_deposits dm !! id = Some d -> dp_status d = Escrowed -> 0 <= dp_amount d ->
  exists bm' r, refund blake3 id dm =
      (r, mkDeposits (dm_amount dm) (if is_err r then dm_deposits dm else <[id := with_status Refunded d]> (dm_deposits dm)) (Some bm')) /\
    r <> Panic /\ (is_err r = false <-> lock_covers bm (addr d) (dp_amount d)) /\ same_balances bm bm' /\
    if is_err r then bm' = bm else released (addr d) (dp_amount d) bm bm'.
Proof.
  clear digest. intros Hb Hd Hs Ham. destruct (unlock_cases (addr d) (dp_amount d) bm Ham) as (bm' & r & Hu & Hp & Hiff & Hbal & Hr).
  exists bm'. unfold refund. rewrite (M_bind_Ok _ _ dm d dm) by (rewrite escrowed_deposit_ok, Hd; by rewrite decide_True).
  unfold mbind at 1, M_bind. rewrite (if_balances_Some _ _ _ Hb). unfold mmap_err. rewrite Hu.
  destruct r as [[]|e|]; [exists (Ok tt)|exists (Err (DepositUnlockFailed e))|done]; by split_and!.
Qed.

Lemma slash_cases now dm bm id d :
  dm_balances dm = Some bm -> dm_deposits dm !! id = Some d -> dp_status d = Escrowed -> 0 <= dp_amount d ->
  exists bm' r, slash now digest blake3 id dm =
      (r, mkDeposits (dm_amount dm) (if is_err r then dm_deposits dm else <[id := with_status Slashed d]> (dm_deposits dm)) (Some bm')) /\
    r <> Panic /\ (is_err r = false <-> lock_covers bm (addr d) (dp_amount d) /\ can_transfer bm (addr d) treasury (dp_amount d)) /\
    transferred (negb (is_err r)) (addr d) treasury (dp_amount d) bm bm' /\
    (lock_covers bm (addr d) (dp_amount d) -> released (addr d) (dp_amount d) bm bm') /\
    (~ lock_covers bm (addr d) (dp_amount d) -> bm' = bm).
Proof.
  intros Hb Hd Hs Ham. unfold slash. rewrite (M_bind_Ok _ _ dm d dm) by (rewrite escrowed_deposit_ok, Hd; by rewrite decide_True).
  unfold mbind at 1, M_bind. rewrite (if_balances_Some _ _ _ Hb). unfold mmap_err, mbind, M_bind, transfer.
  destruct (unlock_cases (addr d) (dp_amount d) bm Ham) as (bm1 & r & Hu & Hp & Hiff & Hbal & Hr). rewrite Hu.
  destruct r as [[]|e|]; [| |done].
  - assert (lock_covers bm (addr d) (dp_amount d)) as Hcov by (by apply Hiff).
    destruct (transfer_spec now digest (addr d) treasury (dp_amount d) Standard bm1 (any_cached bm1) Ham) as (bm2 & r2 & Ht & Hp2 & _ & Hl & Hiff2 & Hmv).
    rewrite Ht. assert (is_err r2 = false <-> lock_covers bm (addr d) (dp_amount d) /\ can_transfer bm (addr d) treasury (dp_amount d)) as Hiff'.
    { rewrite Hiff2. unfold can_transfer. rewrite !Hbal. tauto. }
    assert (transferred (negb (is_err r2)) (addr d) treasury (dp_amount d) bm bm2) as Hmv' by (intros b; rewrite Hmv; by rewrite !Hbal).
    assert (released (addr d) (dp_amount d) bm bm2) as Hrel by (intros b; rewrite (proj1 (Hl b)); apply Hr).
    exists bm2. destruct r2 as [h|e|]; [exists (Ok tt)|exists (Err (DepositTransferFailed e))|done]; by split_and!.
  - simpl in Hr. subst bm1. assert (~ lock_covers bm (addr d) (dp_amount d)) as Hcov by (intros H; by apply Hiff in H).
    exists bm, (Err (DepositUnlockFailed e)). split; [done|]. split; [done|]. split; [split; [done|tauto]|]. split; [|done].
    intros b. simpl. repeat rewrite decide_False by naive_solver. lia.
Qed.

(** Every attempt to settle is refused and changes nothing. *)
Definition settled_for_good (id : MessageId) dm : Prop :=
  forall now, is_err (refund blake3 id dm).1 = true /\ (refund blake3 id dm).2 = dm /\
    is_err (slash now digest blake3 id dm).1 = true /\ (slash now digest blake3 id dm).2 = dm.

Lemma marked_for_good id d s amount deps b :
  s <> Escrowed -> settled_for_good id (mkDeposits amount (<[id := with_status s d]> deps) b).
Proof. intros Hs now. apply settle_refused. intros d'. simpl. rewrite lookup_insert_eq. by intros [= <-]. Qed.

End laws.

(** ** Instances *)

(** Alice, with 100 base units, has two deposits of 40; an address is its public key here. *)
Definition key_is_address (b : Bytes) : Bytes := b.
Definition two_deposits : DepositManager MemoryStorage :=
  (escrow 1 key_is_address [2] alice (escrow 0 key_is_address [1] alice (with_balance_manager 40 alice_manager)).2).2.

Lemma two_deposits_reachable : deposits_reachable no_digest key_is_address two_deposits.
Proof.
  exists (with_balance_manager 40 alice_manager). split.
  - exists 40, alice_manager. split; [done|]. split; [apply alice_coherent|]. split; [|done].
    intros a. unfold held, alice_manager. cbn [bm_cache].
    destruct (decide (alice = a)) as [<-|Hne]; [by vm_compute|by rewrite lookup_singleton_ne].
  - unfold two_deposits. eapply rtc_l; [eapply (step_escrow _ _ 0 [1] alice); [reflexivity|by vm_compute]|].
    eapply rtc_l; [|apply rtc_refl]. eapply (step_escrow _ _ 1 [2] alice); [vm_compute; reflexivity|by vm_compute].
Qed.

Definition balances_of_deposits (dm : DepositManager MemoryStorage) : BalanceManager MemoryStorage :=
  default alice_manager (dm_balances dm).

Lemma deposits_covered_witness :
  owed key_is_address (dm_deposits two_deposits) alice = 80 /\ held (balances_of_deposits two_deposits) alice = 80 /\
  owed key_is_address (dm_deposits two_deposits) alice <= held (balances_of_deposits two_deposits) alice <= MAX_SUPPLY.
Proof.
  split; [vm_compute; reflexivity|]. split; [vm_compute; reflexivity|].
  apply (deposits_covered no_digest key_is_address two_deposits (balances_of_deposits two_deposits) alice);
    [apply two_deposits_reachable|vm_compute; reflexivity].
Defined.


(** A slash that fails has already released the lock: Alice locks two deposits of 40 out of
    100, spends 70 all the same, and the slash of the first deposit fails.  The deposit is still
    escrowed and its lock is gone, so refunding it releases the lock of the second one, which
    can then be settled no more. *)
Theorem failed_slash_releases_lock :
  let spent := (transfer 2 no_digest alice bob 70 (balances_of_deposits two_deposits)).2 in
  let dm := mkDeposits 40 (dm_deposits two_deposits) (Some spent) in
  let (r, dm1) := slash 3 no_digest key_is_address [1] dm in
  is_err r = true /\ dp_status <$> dm_deposits dm1 !! [1] = Some Escrowed /\
  held (balances_of_deposits dm1) alice = 40 /\ owed key_is_address (dm_deposits dm1) alice = 80 /\
  let (r2, dm2) := refund key_is_address [1] dm1 in
  r2 = Ok tt /\ dp_status <$> dm_deposits dm2 !! [2] = Some Escrowed /\
  held (balances_of_deposits dm2) alice = 0 /\ is_err (refund key_is_address [2] dm2).1 = true.
Proof. vm_compute. repeat split. Qed.
