(* ===== verification/Reputation.v ===== *)
(** * Reputation

    [adic-consensus/src/reputation.rs]: a soul-bound score per public key, moved by the rules of
    the white paper, and the histories of approvals from which overlapping voters are found.
    One clock reading [now] serves an operation; [ln] and [powf] are the platform's functions.
    Log lines and the event callback, which runs on a task of its own, are left out. *)

From S2P Require Import Prelude F64 Message.

Record ReputationScore := mkScore {
  value : f64;
  messages_finalized : Z;
  messages_pending : Z;
  last_update : Z;
  is_transferable : bool;
  issue_timestamp : Z;
  issuer : option PublicKey;
  bound_to_keypair : PublicKey;
}.

Definition new_sbt (now : Z) (bound_to : PublicKey) (issuer : option PublicKey) : ReputationScore :=
  mkScore (f64_of_Z 1) 0 0 now false now issuer bound_to.

Definition score_new (now : Z) : ReputationScore :=
  mkScore (f64_of_Z 1) 0 0 now false now None (replicate 32 0).

Definition trust_score (ln : f64 -> f64) (s : ReputationScore) : f64 := ln (f64_add (f64_of_Z 1) (value s)).

(** The error carries the key the score is bound to. *)
Definition score_can_transfer (s : ReputationScore) : result PublicKey unit := Err (bound_to_keypair s).

Record ReputationTracker := mkTracker {
  scores : gmap PublicKey ReputationScore;
  decay_factor : f64;
  gamma : f64;
  approval_history : gmap PublicKey (list MessageId);
}.

Definition tracker_new (g : f64) : ReputationTracker := mkTracker ∅ (f64_lit 99 100) g ∅.
Definition tracker_default : ReputationTracker := tracker_new (f64_lit 9 10).

Definition update_gamma (g : f64) (t : ReputationTracker) : ReputationTracker :=
  mkTracker (scores t) (decay_factor t) g (approval_history t).

Definition get_reputation (t : ReputationTracker) (pk : PublicKey) : f64 :=
  default (f64_of_Z 1) (value <$> scores t !! pk).

Definition get_trust_score (ln : f64 -> f64) (t : ReputationTracker) (pk : PublicKey) : f64 :=
  default f64_zero (trust_score ln <$> scores t !! pk).

Definition get_all_scores (t : ReputationTracker) : gmap PublicKey ReputationScore := scores t.

(** [scores.entry(pk).or_insert_with(ReputationScore::new)], then an update of the entry. *)
Definition with_entry (now : Z) (pk : PublicKey) (f : ReputationScore -> ReputationScore) (t : ReputationTracker)
    : ReputationTracker :=
  mkTracker (<[pk := f (default (score_new now) (scores t !! pk))]> (scores t))
    (decay_factor t) (gamma t) (approval_history t).

(** A new value and number of finalized messages, at time [now]. *)
Definition with_value (now : Z) (v : f64) (finalized : Z) (s : ReputationScore) : ReputationScore :=
  mkScore v finalized (messages_pending s) now (is_transferable s) (issue_timestamp s) (issuer s) (bound_to_keypair s).

(** [gamma * old + (1.0 - gamma) * input]. *)
Definition blend (g old input : f64) : f64 :=
  f64_add (f64_mul g old) (f64_mul (f64_sub (f64_of_Z 1) g) input).

(** [1.0 + diversity / (1.0 + depth as f64)]. *)
Definition good_score (diversity : f64) (depth : Z) : f64 :=
  f64_add (f64_of_Z 1) (f64_div diversity (f64_add (f64_of_Z 1) (f64_of_Z depth))).

Definition rep_floor : f64 := f64_lit 1 10.
Definition rep_cap : f64 := f64_of_Z 10.

Definition good_update (now : Z) (pk : PublicKey) (diversity : f64) (depth : Z) (t : ReputationTracker) : ReputationTracker :=
  with_entry now pk (fun s =>
    with_value now (f64_min (blend (gamma t) (value s) (good_score diversity depth)) rep_cap)
      (to_u64 (messages_finalized s + 1)) s) t.

Definition bad_update (now : Z) (pk : PublicKey) (penalty : f64) (t : ReputationTracker) : ReputationTracker :=
  with_entry now pk (fun s =>
    with_value now (f64_max (blend (gamma t) (value s) (f64_neg penalty)) rep_floor) (messages_finalized s) s) t.

(** ** Overlap of approvals *)

(** The overlap of two histories, and the larger of it and the maximum so far. *)
Definition overlap_of (mine theirs : list MessageId) : option f64 :=
  let intersection := length (filter (fun m => m ∈ theirs) mine) in
  let union := (length mine + length theirs - intersection)%nat in
  if (0 <? union)%nat then Some (f64_div (f64_of_Z (Z.of_nat intersection)) (f64_of_Z (Z.of_nat union))) else None.

Definition raise_overlap (t : ReputationTracker) (pk : PublicKey) (mine : list MessageId) (acc : f64) (other : PublicKey) : f64 :=
  if bool_decide (other = pk) then acc
  else
    match approval_history t !! other with
    | None => acc
    | Some theirs =>
        match overlap_of mine theirs with
        | Some o => f64_max acc o
        | None => acc
        end
    end.

Definition calculate_overlap_score (t : ReputationTracker) (pk : PublicKey) (other_keys : list PublicKey) : f64 :=
  match approval_history t !! pk with
  | None => f64_zero
  | Some [] => f64_zero
  | Some mine => foldl (raise_overlap t pk mine) f64_zero other_keys
  end.

Definition record_approval (pk : PublicKey) (message_id : MessageId) (t : ReputationTracker) : ReputationTracker :=
  let approvals := default [] (approval_history t !! pk) in
  let kept := if (100 <=? length approvals)%nat then drop 1 approvals else approvals in
  mkTracker (scores t) (decay_factor t) (gamma t) (<[pk := kept ++ [message_id]]> (approval_history t)).

Definition update_reputation (now : Z) (pk : PublicKey) (finalized_count : nat) (diversity : f64) (depth : Z)
    (active_peers : list PublicKey) (t : ReputationTracker) : ReputationTracker :=
  let good :=
    if (0 <? finalized_count)%nat
    then f64_mul (f64_of_Z (Z.of_nat finalized_count)) (good_score diversity depth) else f64_zero in
  let bad := f64_mul (f64_lit 1 2) (calculate_overlap_score t pk active_peers) in
  with_entry now pk (fun s =>
    with_value now (f64_clamp rep_floor rep_cap (blend (gamma t) (value s) (f64_sub good bad)))
      (to_u64 (messages_finalized s + Z.of_nat finalized_count)) s) t.

(** ** Decay *)

Definition decay_score (powf : f64 -> f64 -> f64) (now : Z) (factor : f64) (s : ReputationScore) : ReputationScore :=
  let time_diff := f64_div (f64_of_Z (to_i64 (now - last_update s))) (f64_of_Z 86400) in
  if f64_gtb time_diff f64_zero
  then with_value now (f64_max (f64_mul (value s) (powf factor time_diff)) rep_floor) (messages_finalized s) s
  else s.

Definition apply_decay (powf : f64 -> f64 -> f64) (now : Z) (t : ReputationTracker) : ReputationTracker :=
  mkTracker (decay_score powf now (decay_factor t) <$> scores t) (decay_factor t) (gamma t) (approval_history t).

Definition set_reputation (now : Z) (pk : PublicKey) (v : f64) (t : ReputationTracker) : ReputationTracker :=
  with_entry now pk (fun s => with_value now v (messages_finalized s) s) t.

(** ** Runs *)

Inductive tracker_reachable : ReputationTracker -> Prop :=
  | tr_new g : tracker_reachable (tracker_new g)
  | tr_gamma g t : tracker_reachable t -> tracker_reachable (update_gamma g t)
  | tr_good now pk v d t : tracker_reachable t -> tracker_reachable (good_update now pk v d t)
  | tr_bad now pk p t : tracker_reachable t -> tracker_reachable (bad_update now pk p t)
  | tr_update now pk n v d ps t : tracker_reachable t -> tracker_reachable (update_reputation now pk n v d ps t)
  | tr_approve pk id t : tracker_reachable t -> tracker_reachable (record_approval pk id t)
  | tr_decay powf now t : tracker_reachable t -> tracker_reachable (apply_decay powf now t)
  | tr_set now pk v t : tracker_reachable t -> tracker_reachable (set_reputation now pk v t).

Definition soul_bound (t : ReputationTracker) : Prop :=
  forall pk s, scores t !! pk = Some s -> is_transferable s = false.
Definition histories_bounded (t : ReputationTracker) : Prop :=
  forall pk h, approval_history t !! pk = Some h -> (length h <= 100)%nat.

Lemma with_entry_soul_bound now pk v n t :
  soul_bound t -> soul_bound (with_entry now pk (fun s => with_value now (v s) (n s) s) t).
Proof.
  intros Ht pk' s. unfold with_entry; simpl. intros [[-> <-]|[_ Hs]]%lookup_insert_Some; [|by eapply Ht].
  simpl. destruct (scores t !! pk') eqn:E; simpl; [by eapply Ht|done].
Qed.

Lemma reachable_soul_bound t : tracker_reachable t -> soul_bound t.
Proof.
  induction 1 as [| | | | | |powf now t _ IH|]; try done; try by apply with_entry_soul_bound.
  intros pk s. simpl. rewrite lookup_fmap_Some. intros (s' & <- & Hs).
  unfold decay_score. destruct (f64_gtb _ _); simpl; by eapply IH.
Qed.

Lemma reachable_histories t : tracker_reachable t -> histories_bounded t.
Proof.
  induction 1 as [| | | | |pk id t _ IH| |]; try done.
  intros pk' h. unfold record_approval; cbn [approval_history]. intros [[-> <-]|[_ Hh]]%lookup_insert_Some; [|by eapply IH].
  assert (length (default [] (approval_history t !! pk')) <= 100)%nat
    by (destruct (approval_history t !! pk') eqn:E; [by eapply IH|simpl; lia]).
  set (l := default [] _) in *. clearbody l.
  rewrite length_app. case_match; zbool; [rewrite length_drop|]; cbn [length]; lia.
Qed.

Lemma entry_value now pk v n t :
  get_reputation (with_entry now pk (fun s => with_value now (v s) (n s) s) t) pk = v (default (score_new now) (scores t !! pk)).
Proof. unfold get_reputation, with_entry. cbn [scores]. by rewrite lookup_insert_eq. Qed.

Lemma entry_other now pk k f t : k <> pk -> scores (with_entry now pk f t) !! k = scores t !! k.
Proof. intros Hk. unfold with_entry. cbn [scores]. by rewrite lookup_insert_ne. Qed.

(** ** The overlap score *)

Definition f64_one : f64 := f64_of_Z 1.
Definition ratio (i u : nat) : f64 := f64_div (f64_of_Z (Z.of_nat i)) (f64_of_Z (Z.of_nat u)).

Definition ratio_checked (i u : nat) : bool :=
  let r := ratio i u in
  f64_leb f64_zero r && f64_leb r f64_one &&
  (if (i =? 0)%nat then bool_decide (r = f64_zero) else negb (f64_leb r f64_zero)) &&
  (if (i =? u)%nat then bool_decide (r = f64_one) else negb (f64_leb f64_one r)).

(** The quotients of the numbers that occur, computed once and for all. *)
Lemma ratios_checked :
  forallb (fun u => forallb (fun i => ratio_checked i u) (seq 0 (S (Nat.min u 100)))) (seq 1 200) = true.
Proof. vm_compute. reflexivity. Qed.

Lemma ratio_ok i u :
  (i <= 100 -> i <= u -> 0 < u <= 200 ->
   f64_leb f64_zero (ratio i u) = true /\ f64_leb (ratio i u) f64_one = true /\
   (f64_leb (ratio i u) f64_zero = true <-> i = 0) /\ (f64_leb f64_one (ratio i u) = true <-> i = u))%nat.
Proof.
  intros Hi Hiu Hu. pose proof ratios_checked as H. rewrite forallb_forall in H.
  specialize (H u). rewrite in_seq, forallb_forall in H. specialize (H ltac:(lia) i). rewrite in_seq in H.
  specialize (H ltac:(lia)). unfold ratio_checked in H. cbv zeta in H. apply andb_prop in H as [H H4].
  apply andb_prop in H as [H H3]. apply andb_prop in H as [H1 H2].
  split_and!; [done|done|destruct (i =? 0)%nat eqn:E|destruct (i =? u)%nat eqn:E]; zbool.
  - apply bool_decide_eq_true in H3. rewrite H3. split; [done|]. intros _. reflexivity.
  - rewrite H3. split; [done|lia].
  - apply bool_decide_eq_true in H4. rewrite H4. split; [done|]. intros _. reflexivity.
  - rewrite H4. split; [done|lia].
Qed.

Definition shared (a b : list MessageId) : nat := length (filter (fun m => m ∈ b) a).

Lemma shared_le a b : NoDup a -> (shared a b <= length b)%nat.
Proof.
  intros Ha. apply submseteq_length, NoDup_submseteq; [by apply NoDup_filter|].
  intros x [Hx _]%list_elem_of_filter. done.
Qed.

Lemma shared_le_l a b : (shared a b <= length a)%nat.
Proof. apply length_filter. Qed.

Lemma shared_zero a b : shared a b = 0%nat <-> forall m, m ∈ a -> m ∉ b.
Proof.
  unfold shared. rewrite length_zero_iff_nil. split.
  - intros H m Ha Hb. assert (m ∈ filter (fun m => m ∈ b) a) as Hm by by apply list_elem_of_filter.
    rewrite H in Hm. by apply elem_of_nil in Hm.
  - intros H. apply elem_of_nil_inv. intros m [Hb Ha]%list_elem_of_filter. by eapply H.
Qed.

Lemma shared_all a b : NoDup a -> NoDup b ->
  shared a b = (length a + length b - shared a b)%nat <-> a ≡ₚ b.
Proof.
  intros Ha Hb. pose proof (shared_le a b Ha). pose proof (shared_le_l a b). split.
  - intros Hs. assert (filter (fun m => m ∈ b) a = a) as Hf.
    { apply filter_all. unfold shared in *. lia. }
    apply submseteq_length_Permutation; [|unfold shared in *; rewrite Hf in *; lia].
    apply NoDup_submseteq; [done|]. rewrite <-Hf. by intros x [Hx _]%list_elem_of_filter.
  - intros Hp. assert (shared a b = length a) as ->; [|rewrite <-Hp; lia].
    unfold shared. f_equal. rewrite (list_filter_ext _ (fun _ => True)); [|intros x Hx; by rewrite <-Hp].
    clear. induction a as [|x a IH]; [done|]. by rewrite filter_cons, decide_True, IH.
Qed.

Section overlap.
Context (t : ReputationTracker) (pk : PublicKey) (mine : list MessageId).
Context (Hbound : histories_bounded t).
Context (Hdistinct : forall k h, approval_history t !! k = Some h -> NoDup h).
Context (Hmine : approval_history t !! pk = Some mine) (Hne : mine <> []).

(** The overlap of another key's history is the quotient of two small numbers. *)
Lemma overlap_of_ok k theirs :
  approval_history t !! k = Some theirs ->
  exists o, overlap_of mine theirs = Some o /\ f64_leb f64_zero o = true /\ f64_leb o f64_one = true /\
    (f64_leb o f64_zero = true <-> forall m, m ∈ mine -> m ∉ theirs) /\
    (f64_leb f64_one o = true <-> mine ≡ₚ theirs).
Proof.
  intros Hk. unfold overlap_of. fold (shared mine theirs). pose proof (Hdistinct _ _ Hk). pose proof (Hdistinct _ _ Hmine).
  pose proof (shared_le mine theirs ltac:(done)). pose proof (shared_le_l mine theirs).
  pose proof (Hbound _ _ Hk). pose proof (Hbound _ _ Hmine).
  assert (0 < length mine)%nat by (destruct mine; [done|simpl; lia]).
  case_match eqn:E; zbool; [|lia]. eexists; split; [done|].
  destruct (ratio_ok (shared mine theirs) (length mine + length theirs - shared mine theirs)) as (? & ? & Hz & Ho); [lia..|].
  split_and!; [done|done|by rewrite <-shared_zero|by rewrite <-shared_all].
Qed.

Definition other_history (ks : list PublicKey) (h : list MessageId) : Prop :=
  exists k, k ∈ ks /\ k <> pk /\ approval_history t !! k = Some h.

(** One more key leaves the maximum between the old one and one, above its own overlap. *)
Lemma raise_one acc k :
  f64_leb f64_zero acc = true -> f64_leb acc f64_one = true ->
  let r := raise_overlap t pk mine acc k in
  f64_leb acc r = true /\ f64_leb r f64_one = true /\
  (forall h o, k <> pk -> approval_history t !! k = Some h -> overlap_of mine h = Some o -> f64_leb o r = true) /\
  (r = acc \/ exists h, k <> pk /\ approval_history t !! k = Some h /\ overlap_of mine h = Some r).
Proof.
  intros H0 H1. destruct (f64_leb_not_nan _ _ H1) as [Hn _]. pose proof (f64_leb_refl acc Hn).
  unfold raise_overlap. case_bool_decide as Hk; [split_and!; naive_solver|].
  destruct (approval_history t !! k) as [h|] eqn:Eh; [|split_and!; naive_solver].
  destruct (overlap_of_ok k h Eh) as (o & Ho & Ho0 & Ho1 & _). rewrite Ho. destruct (f64_leb_not_nan _ _ Ho1) as [Hno _].
  split_and!.
  - by apply f64_max_ge_l.
  - destruct (f64_max_case acc o) as [-> | ->]; done.
  - intros h' o' _ ? ?. simplify_eq. by apply f64_max_ge_r.
  - destruct (f64_max_case acc o) as [-> | ->]; [by left|right; by exists h].
Qed.

Lemma raise_all acc ks :
  f64_leb f64_zero acc = true -> f64_leb acc f64_one = true ->
  let r := foldl (raise_overlap t pk mine) acc ks in
  f64_leb acc r = true /\ f64_leb r f64_one = true /\
  (forall h o, other_history ks h -> overlap_of mine h = Some o -> f64_leb o r = true) /\
  (r = acc \/ exists h, other_history ks h /\ overlap_of mine h = Some r).
Proof.
  revert acc; induction ks as [|k ks IH]; intros acc H0 H1; simpl.
  { destruct (f64_leb_not_nan _ _ H1) as [Hn _]. split_and!; [by apply f64_leb_refl|done| |by left].
    intros h o (k & Hk & _). by apply elem_of_nil in Hk. }
  destruct (raise_one acc k H0 H1) as (Ha & Hb & Hc & Hd). set (acc' := raise_overlap t pk mine acc k) in *.
  destruct (f64_leb_not_nan _ _ Ha) as [_ Hn'].
  destruct (IH acc') as (IHa & IHb & IHc & IHd); [by apply (f64_leb_trans _ acc); [apply (f64_leb_not_nan _ _ Ha)|..]|done|].
  split_and!; [by eapply f64_leb_trans|done| |].
  - intros h o (k' & [->|Hk']%elem_of_cons & Hne' & Hh) Ho; [|apply (IHc h); [by exists k'|done]].
    eapply f64_leb_trans; [|by eapply Hc|done]. done.
  - destruct IHd as [->|(h & (k' & ? & ?) & ?)]; [|right; exists h; split; [exists k'; set_solver|done]].
    destruct Hd as [->|(h & ? & ? & ?)]; [by left|right]. exists h. split; [exists k; set_solver|done].
Qed.
End overlap.

(** ** Properties *)

(** In every reachable tracker whose approval histories record no message twice, the overlap
    score of a key lies between 0 and 1; it is 0 exactly when no other given key has approved
    one of its messages, and 1 exactly when another key has approved the very same messages. *)
Theorem overlap_score_correct t pk mine keys :
  tracker_reachable t -> (forall k h, approval_history t !! k = Some h -> NoDup h) ->
  approval_history t !! pk = Some mine -> mine <> [] ->
  let o := calculate_overlap_score t pk keys in
  f64_leb f64_zero o = true /\ f64_leb o f64_one = true /\
  (f64_leb o f64_zero = true <-> forall h m, other_history t pk keys h -> m ∈ mine -> m ∉ h) /\
  (f64_leb f64_one o = true <-> exists h, other_history t pk keys h /\ mine ≡ₚ h).
Proof.
  intros Hr Hd Hm Hne. unfold calculate_overlap_score. rewrite Hm.
  destruct mine as [|m0 mine0]; [done|]. set (mine := m0 :: mine0) in *. cbv zeta.
  pose proof (overlap_of_ok t pk mine (reachable_histories t Hr) Hd Hm Hne) as Hover.
  destruct (raise_all t pk mine (reachable_histories t Hr) Hd Hm Hne f64_zero keys) as (H0 & H1 & Hall & Hex); [done..|].
  set (o := foldl _ _ _) in *. clearbody o. split_and!; [done|done|split|split].
  - intros Ho h m Hh. pose proof Hh as (k & _ & _ & Hk). destruct (Hover k h Hk) as (q & Hq & _ & _ & Hz & _).
    apply Hz. eapply f64_leb_trans; [|by eapply Hall|done]. by apply (f64_leb_not_nan _ _ H0).
  - intros Hdis. destruct Hex as [->|(h & Hh & Ho)]; [done|]. pose proof Hh as (k & _ & _ & Hk).
    destruct (Hover k h Hk) as (q & Hq & _ & _ & Hz & _). simplify_eq. apply Hz. intros m. by apply Hdis.
  - intros Ho. destruct Hex as [->|(h & Hh & Hq')]; [done|]. exists h. split; [done|].
    pose proof Hh as (k & _ & _ & Hk). destruct (Hover k h Hk) as (q & Hq & _ & _ & _ & Hone). simplify_eq. by apply Hone.
  - intros (h & Hh & Hp). pose proof Hh as (k & _ & _ & Hk). destruct (Hover k h Hk) as (q & Hq & _ & _ & _ & Hone).
    eapply f64_leb_trans; [|by apply Hone|by eapply Hall]. apply Hone in Hp. by apply (f64_leb_not_nan _ _ Hp).
Qed.

Definition id1 : MessageId := [1].
Definition id2 : MessageId := [2].
Definition key_a : PublicKey := [10].
Definition key_b : PublicKey := [11].

Definition two_voters : ReputationTracker :=
  record_approval key_b id1 (record_approval key_a id2 (record_approval key_a id1 tracker_default)).

Lemma two_voters_reachable : tracker_reachable two_voters.
Proof. do 3 constructor. apply tr_new. Qed.

Lemma two_voters_distinct k h : approval_history two_voters !! k = Some h -> NoDup h.
Proof.
  assert (map_Forall (fun _ h => NoDup h) (approval_history two_voters)) as H.
  { apply (bool_decide_eq_true_1 _). vm_compute. reflexivity. }
  apply H.
Qed.

Lemma overlap_score_correct_witness :
  calculate_overlap_score two_voters key_a [key_a; key_b] = f64_lit 1 2 /\
  f64_leb (calculate_overlap_score two_voters key_a [key_a; key_b]) f64_one = true.
Proof.
  split; [vm_compute; reflexivity|].
  refine (proj1 (proj2 (overlap_score_correct two_voters key_a [id1; id2] [key_a; key_b] two_voters_reachable
    two_voters_distinct _ _))); [vm_compute; reflexivity|done].
Defined.

(** The history is a list, so a message approved three times counts three times in the
    intersection and once in the other history: the score exceeds 1. *)
Theorem repeated_approvals_exceed_one :
  let t := record_approval key_b id1
    (record_approval key_a id1 (record_approval key_a id1 (record_approval key_a id1 tracker_default))) in
  tracker_reachable t /\ calculate_overlap_score t key_a [key_b] = f64_of_Z 3.
Proof. split; [do 4 constructor; apply tr_new|vm_compute; reflexivity]. Qed.

(** No operation makes a reputation transferable, and each leaves the reputation it sets within
    its bounds: a good update at most at the cap, a bad one and a decay at least at the floor, a
    comprehensive one between both unless its arithmetic gave a NaN.  No update touches another
    key, and a decay leaves alone the scores updated at its own time or later. *)
Theorem reputation_bounds t now pk :
  tracker_reachable t ->
  soul_bound t /\
  (forall v d, f64_leb (get_reputation (good_update now pk v d t) pk) rep_cap = true) /\
  (forall p, f64_leb rep_floor (get_reputation (bad_update now pk p t) pk) = true) /\
  (forall n v d ps, let r := get_reputation (update_reputation now pk n v d ps t) pk in
    is_nan r = true \/ (f64_leb rep_floor r = true /\ f64_leb r rep_cap = true)) /\
  (forall powf s, scores t !! pk = Some s ->
    let r := get_reputation (apply_decay powf now t) pk in r = value s \/ f64_leb rep_floor r = true) /\
  (forall k, k <> pk ->
    (forall v d, scores (good_update now pk v d t) !! k = scores t !! k) /\
    (forall p, scores (bad_update now pk p t) !! k = scores t !! k) /\
    (forall n v d ps, scores (update_reputation now pk n v d ps t) !! k = scores t !! k)).
Proof.
  intros Hr. split; [by apply reachable_soul_bound|].
  split_and!.
  - intros v d. unfold good_update. rewrite entry_value. by apply f64_min_le_r.
  - intros p. unfold bad_update. rewrite entry_value. by apply f64_max_ge_r.
  - intros n v d ps. unfold update_reputation. rewrite entry_value. cbv zeta.
    match goal with |- context [f64_clamp _ _ ?x] => destruct (f64_clamp_range rep_floor rep_cap x) as [[? _]|] end;
      [vm_compute; reflexivity|by left|by right].
  - intros powf s Hs. unfold get_reputation, apply_decay. cbn [scores]. rewrite lookup_fmap, Hs. cbn.
    unfold decay_score. case_match; [right; by apply f64_max_ge_r|by left].
  - intros k Hk. split_and!; intros; by apply entry_other.
Qed.

Lemma reputation_bounds_witness :
  f64_leb (get_reputation (good_update 5 key_a (f64_of_Z 1000) 0 two_voters) key_a) rep_cap = true.
Proof. exact (proj1 (proj2 (reputation_bounds two_voters 5 key_a two_voters_reachable)) (f64_of_Z 1000) 0). Defined.
