(* ===== verification/Admissibility.v ===== *)
(** * Admissibility of a message

    [adic-consensus/src/admissibility.rs] on the ultrametric validator of
    [adic-crypto/src/ultrametric_security.rs], with [AdicParams] of [adic-types/src/lib.rs]: the
    number of parents, the proximity score S(x;A), the diversity of the parents (C2) and their
    reputation (C3).  [powi] is [f64::powi] and [blake3] the hash.  Counters and the text of
    error messages and details are left out; an error keeps its kind. *)

From S2P Require Import Prelude F64 Padic Message.

Record AdicParams := mkParams {
  pr_p : Z;
  pr_d : Z;
  pr_rho : list Z;
  pr_q : Z;
  pr_k : Z;
  depth_star : Z;
  delta : Z;
  pr_deposit : f64;
  r_min : f64;
  r_sum_min : f64;
  pr_lambda : f64;
  pr_alpha : f64;
  pr_beta : f64;
  pr_mu : f64;
  pr_gamma : f64;
}.

Definition DEFAULT_P : Z := 3.

Definition params_default : AdicParams :=
  mkParams DEFAULT_P 3 [2; 2; 1] 3 20 12 5 (f64_lit 1 10) (f64_of_Z 1) (f64_of_Z 4) (f64_of_Z 1) (f64_of_Z 1) (f64_of_Z 1)
    (f64_of_Z 1) (f64_lit 9 10).
Definition params_test : AdicParams :=
  mkParams DEFAULT_P 3 [2; 2; 1] 3 3 2 5 (f64_lit 1 10) (f64_of_Z 1) (f64_of_Z 4) (f64_of_Z 1) (f64_of_Z 1) (f64_of_Z 1)
    (f64_of_Z 1) (f64_lit 9 10).

Inductive AdmissionError :=
  | InvalidParameter
  | AdmissibilityFailed (expected got : Z).

Definition to_i32 (z : Z) : Z := (z + 2 ^ 31) mod 2 ^ 32 - 2 ^ 31.

(** [vp_diff] cannot fail but panics on different primes. *)
Definition vp_diff_or {E} (x y : QpDigits) : result E Z :=
  match vp_diff x y with Ok v => Ok v | _ => Panic end.

Section validator.
Context (powi : f64 -> Z -> f64) (blake3 : Bytes -> Bytes) (params : AdicParams).

(** ** [ultrametric_security.rs] *)

Fixpoint c1_loop (axis_idx : nat) (rho : list Z) (message : AdicMessage) (parent_features : list (list QpDigits))
    : result AdmissionError bool :=
  match rho with
  | [] => Ok true
  | radius :: rho =>
      let? msg_phi := result_of_option (AdicFeatures_get_axis (features message) (Z.of_nat axis_idx)) InvalidParameter in
      let? parent := result_of_option (parent_features !! axis_idx) InvalidParameter in
      let? parent_phi := result_of_option (parent !! axis_idx) InvalidParameter in
      let? valuation := vp_diff_or (qp_digits msg_phi) parent_phi in
      if valuation <? radius then Ok false else c1_loop (S axis_idx) rho message parent_features
  end.
Definition verify_c1_ultrametric (message : AdicMessage) (parent_features : list (list QpDigits)) : result AdmissionError bool :=
  c1_loop 0 (pr_rho params) message parent_features.

(** The features of the parents that have the axis. *)
Definition axis_features (axis_idx : nat) (parent_features : list (list QpDigits)) : list QpDigits :=
  omap (fun pf => pf !! axis_idx) parent_features.

Fixpoint c2_loop (axis_idx : nat) (rho : list Z) (parent_features : list (list QpDigits)) (counts : list nat)
    : result AdmissionError (bool * list nat) :=
  match rho with
  | [] => Ok (true, counts)
  | radius :: rho =>
      let fs := axis_features axis_idx parent_features in
      if negb (length fs =? length parent_features)%nat then Err InvalidParameter
      else
        let distinct_count := count_distinct_balls fs (Z.to_nat radius) in
        let counts := counts ++ [distinct_count] in
        if Z.of_nat distinct_count <? pr_q params then Ok (false, counts)
        else c2_loop (S axis_idx) rho parent_features counts
  end.
Definition verify_c2_diversity (parent_features : list (list QpDigits)) : result AdmissionError (bool * list nat) :=
  c2_loop 0 (pr_rho params) parent_features [].

Definition compute_ball_id (fs : AdicFeatures) (ax : AxisId) (radius : nat) : Bytes :=
  default [] ((fun ph => ball_id (qp_digits ph) radius) <$> AdicFeatures_get_axis fs ax).

Definition are_in_distinct_balls (f1 f2 : AdicFeatures) (ax : AxisId) (radius : nat) : bool :=
  negb (bool_decide (compute_ball_id f1 ax radius = compute_ball_id f2 ax radius)).

Record BallMembershipProof := mkBallProof {
  bp_axis : AxisId;
  bp_radius : nat;
  bp_ball_id : Bytes;
  bp_proof : Bytes;
}.

Definition generate_ball_proof (fs : AdicFeatures) (ax : AxisId) (radius : nat) : BallMembershipProof :=
  let ball := compute_ball_id fs ax radius in
  let feature_data := default [] ((fun ph => QpDigits_to_bytes (qp_digits ph)) <$> AdicFeatures_get_axis fs ax) in
  mkBallProof ax radius ball
    (blake3 (feature_data ++ to_le_bytes 4 ax ++ to_le_bytes 4 (to_u32 (Z.of_nat radius)) ++ ball)).

Definition verify_ball_proof (fs : AdicFeatures) (proof : BallMembershipProof) : bool :=
  let computed := generate_ball_proof fs (bp_axis proof) (bp_radius proof) in
  bool_decide (bp_proof computed = bp_proof proof) && bool_decide (bp_ball_id computed = bp_ball_id proof).

Fixpoint coverage_loop (axis_idx : nat) (rho : list Z) (feature_sets : list AdicFeatures) (least : nat) : bool :=
  match rho with
  | [] => true
  | radius :: rho =>
      let unique_balls : gset Bytes :=
        list_to_set ((fun fs => compute_ball_id fs (Z.of_nat axis_idx) (Z.to_nat radius)) <$> feature_sets) in
      if (size unique_balls <? least)%nat then false else coverage_loop (S axis_idx) rho feature_sets least
  end.
Definition verify_neighborhood_coverage (feature_sets : list AdicFeatures) (min_distinct_per_axis : nat) : bool :=
  coverage_loop 0 (pr_rho params) feature_sets min_distinct_per_axis.

(** [p^(-max(0, radius - valuation))]. *)
Definition axis_term (radius valuation : Z) : f64 :=
  let max_diff := Z.max (to_i32 (to_i32 radius - to_i32 valuation)) 0 in
  powi (f64_of_Z (pr_p params)) (- max_diff).

(** The smallest term of an axis over the parents that have it, from [min_term] on. *)
Fixpoint min_term_loop (axis_idx : nat) (radius : Z) (msg_phi : QpDigits) (parent_features : list (list QpDigits))
    (min_term : f64) : result AdmissionError f64 :=
  match parent_features with
  | [] => Ok min_term
  | pf :: rest =>
      match pf !! axis_idx with
      | None => min_term_loop axis_idx radius msg_phi rest min_term
      | Some parent_phi =>
          let? valuation := vp_diff_or msg_phi parent_phi in
          let term := axis_term radius valuation in
          min_term_loop axis_idx radius msg_phi rest (if f64_ltb term min_term then term else min_term)
      end
  end.

(** [if min_term != f64::INFINITY { total_score += min_term }]. *)
Definition add_finite_term (total min_term : f64) : f64 :=
  if negb (f64_eqb min_term f64_infinity) then f64_add total min_term else total.

(** [if min_parent_term == f64::INFINITY { min_parent_term = 0.0 }; total_score += min_parent_term]. *)
Definition add_term_or_zero (total min_term : f64) : f64 :=
  f64_add total (if f64_eqb min_term f64_infinity then f64_zero else min_term).

(** The loop over the axes, common to both scores. *)
Fixpoint score_loop (add_term : f64 -> f64 -> f64) (axis_idx : nat) (rho : list Z) (message : AdicMessage)
    (parent_features : list (list QpDigits)) (total : f64) : result AdmissionError f64 :=
  match rho with
  | [] => Ok total
  | radius :: rho =>
      match AdicFeatures_get_axis (features message) (Z.of_nat axis_idx) with
      | None => score_loop add_term (S axis_idx) rho message parent_features total
      | Some msg_phi =>
          let? min_term := min_term_loop axis_idx radius (qp_digits msg_phi) parent_features f64_infinity in
          score_loop add_term (S axis_idx) rho message parent_features (add_term total min_term)
      end
  end.

Definition compute_security_score (message : AdicMessage) (parent_features : list (list QpDigits)) : result AdmissionError f64 :=
  score_loop add_finite_term 0 (pr_rho params) message parent_features f64_zero.

(** ** [admissibility.rs] *)

Definition compute_admissibility_score (message : AdicMessage) (parent_features : list (list QpDigits)) : result AdmissionError f64 :=
  score_loop add_term_or_zero 0 (pr_rho params) message parent_features f64_zero.

Fixpoint c2_check_loop (axis_idx : nat) (rho : list Z) (parent_features : list (list QpDigits)) : bool :=
  match rho with
  | [] => true
  | radius :: rho =>
      let fs := axis_features axis_idx parent_features in
      if negb (length fs =? length parent_features)%nat then false
      else if Z.of_nat (count_distinct_balls fs (Z.to_nat radius)) <? pr_q params then false
      else c2_check_loop (S axis_idx) rho parent_features
  end.
Definition check_c2_diversity (parent_features : list (list QpDigits)) : bool :=
  c2_check_loop 0 (pr_rho params) parent_features.

(** [min_by(|a, b| a.partial_cmp(b).unwrap())]: the first of the smallest; a NaN panics. *)
Fixpoint min_loop (best : f64) (rs : list f64) : result AdmissionError f64 :=
  match rs with
  | [] => Ok best
  | r :: rs =>
      match f64_partial_cmp best r with
      | None => Panic
      | Some Gt => min_loop r rs
      | Some _ => min_loop best rs
      end
  end.
Definition min_reputation_of (rs : list f64) : result AdmissionError f64 :=
  match rs with [] => Ok f64_zero | r :: rs => min_loop r rs end.

Definition check_c3_reputation (parent_reputations : list f64) : result AdmissionError bool :=
  let? min_rep := min_reputation_of parent_reputations in
  if f64_ltb min_rep (r_min params) then Ok false
  else
    let sum_rep := foldl f64_add f64_zero parent_reputations in
    Ok (negb (f64_ltb sum_rep (r_sum_min params))).

Record AdmissibilityResult := mkAdmissibility {
  score : f64;
  score_passed : bool;
  c2_passed : bool;
  c3_passed : bool;
  is_admissible : bool;
}.
Definition admissibility_new (s : f64) (passed c2 c3 : bool) : AdmissibilityResult :=
  mkAdmissibility s passed c2 c3 (passed && c2 && c3).

(** [use_ultrametric] says whether the checker was built with an ultrametric validator. *)
Definition check_message (use_ultrametric : bool) (message : AdicMessage) (parent_features : list (list QpDigits))
    (parent_reputations : list f64) : result AdmissionError AdmissibilityResult :=
  let expected := to_u32 (pr_d params + 1) in
  if negb (Z.of_nat (length (parents message)) =? expected)
  then Err (AdmissibilityFailed expected (Z.of_nat (length (parents message))))
  else
    let? score :=
      (if use_ultrametric then compute_security_score message parent_features
       else compute_admissibility_score message parent_features) in
    let score_passed := f64_geb score (f64_of_Z (pr_d params)) in
    let c2 :=
      (if use_ultrametric then match verify_c2_diversity parent_features with Ok (b, _) => b | _ => false end
       else check_c2_diversity parent_features) in
    let? c3 := check_c3_reputation parent_reputations in
    Ok (admissibility_new score score_passed c2 c3).
End validator.

(** ** What the loops compute *)

Lemma to_i32_small z : - 2 ^ 31 <= z < 2 ^ 31 -> to_i32 z = z.
Proof. intros Hz. unfold to_i32. rewrite Z.mod_small; lia. Qed.

(** The digit vectors that can be compared with each other. *)
Definition vectors_ok (p : Z) (vs : list QpDigits) : Prop := Forall (fun v => qp_p v = p /\ short v) vs.
Definition features_ok (p : Z) (message : AdicMessage) (parent_features : list (list QpDigits)) : Prop :=
  vectors_ok p (qp_digits <$> phi (features message)) /\ Forall (vectors_ok p) parent_features.

Lemma get_axis_ok p fs a ph : vectors_ok p (qp_digits <$> phi fs) -> AdicFeatures_get_axis fs a = Some ph ->
  qp_p (qp_digits ph) = p /\ short (qp_digits ph).
Proof.
  intros Hv Hf. unfold AdicFeatures_get_axis in Hf. apply find_some in Hf as [Hin _].
  unfold vectors_ok in Hv. rewrite Forall_fmap, Forall_forall in Hv. apply Hv. by apply list_elem_of_In.
Qed.

Lemma vp_diff_or_Ok {E} p x y : qp_p x = p -> short x -> qp_p y = p -> short y ->
  vp_diff_or (E := E) x y = Ok (Z.of_nat (first_diff x y 0 (max_digits x y))).
Proof. intros <- Hx Hp Hy. unfold vp_diff_or. by rewrite vp_diff_Ok. Qed.

Section min_term.
Context (powi : f64 -> Z -> f64) (params : AdicParams) (p : Z) (axis_idx : nat) (radius : Z) (msg_phi : QpDigits).
Context (Hmsg : qp_p msg_phi = p /\ short msg_phi).

Definition parent_term (parent_phi : QpDigits) : f64 :=
  axis_term powi params radius (Z.of_nat (first_diff msg_phi parent_phi 0 (max_digits msg_phi parent_phi))).

Lemma min_term_loop_eq pfs acc :
  Forall (vectors_ok p) pfs ->
  min_term_loop powi params axis_idx radius msg_phi pfs acc =
    Ok (foldl (fun m t => if f64_ltb t m then t else m) acc (parent_term <$> axis_features axis_idx pfs)).
Proof.
  revert acc; induction pfs as [|pf pfs IH]; intros acc Hok; [done|]. apply Forall_cons in Hok as [Hpf Hok]. simpl.
  unfold axis_features. cbn [omap list_omap]. destruct (pf !! axis_idx) as [ph|] eqn:E; [|by apply IH].
  unfold vectors_ok in Hpf. rewrite Forall_lookup in Hpf. destruct (Hpf _ _ E).
  rewrite (vp_diff_or_Ok p) by naive_solver. simpl. by rewrite IH.
Qed.
End min_term.

Lemma min_fold_case (acc : f64) ts :
  let m := foldl (fun m t => if f64_ltb t m then t else m) acc ts in m = acc \/ m ∈ ts.
Proof.
  revert acc; induction ts as [|t ts IH]; intros acc; simpl; [by left|].
  destruct (IH (if f64_ltb t acc then t else acc)) as [H|H]; [|right; by right].
  rewrite H. case_match; [right; left|by left].
Qed.

Lemma axis_features_all axis_idx (pfs : list (list QpDigits)) :
  length (axis_features axis_idx pfs) = length pfs <-> Forall (fun pf => is_Some (pf !! axis_idx)) pfs.
Proof.
  unfold axis_features. induction pfs as [|pf pfs IH]; cbn [omap list_omap]; [by split|].
  assert (length (omap (fun pf => pf !! axis_idx) pfs) <= length pfs)%nat.
  { clear. induction pfs as [|pf pfs IH]; cbn [omap list_omap]; [done|]. case_match; simpl; lia. }
  rewrite Forall_cons, <-IH. destruct (pf !! axis_idx); simpl; split; intros.
  - split; [done|lia].
  - f_equal. naive_solver.
  - lia.
  - destruct H0 as [[? ?] _]. done.
Qed.

Lemma axis_features_Forall (P : QpDigits -> Prop) idx pfs : Forall (Forall P) pfs -> Forall P (axis_features idx pfs).
Proof.
  unfold axis_features. induction 1 as [|pf pfs Hpf _ IH]; cbn [omap list_omap]; [constructor|].
  destruct (pf !! idx) as [v|] eqn:E; [|done]. constructor; [|done]. rewrite Forall_lookup in Hpf. by eapply Hpf.
Qed.

Lemma c2_loops_agree params idx rho pfs counts :
  match c2_loop params idx rho pfs counts with Ok (b, _) => b | _ => false end = c2_check_loop params idx rho pfs.
Proof.
  revert idx counts; induction rho as [|r rho IH]; intros idx counts; simpl; [done|].
  destruct (negb _); [done|]. destruct (_ <? _); [done|]. apply IH.
Qed.

Lemma c2_check_loop_spec params idx rho pfs :
  c2_check_loop params idx rho pfs = true <->
  forall j radius, rho !! j = Some radius ->
    Forall (fun pf => is_Some (pf !! (idx + j)%nat)) pfs /\
    pr_q params <= Z.of_nat (count_distinct_balls (axis_features (idx + j) pfs) (Z.to_nat radius)).
Proof.
  revert idx; induction rho as [|r rho IH]; intros idx; simpl; [split; [by intros|done]|].
  assert ((forall j radius, (r :: rho) !! j = Some radius ->
      Forall (fun pf => is_Some (pf !! (idx + j)%nat)) pfs /\
      pr_q params <= Z.of_nat (count_distinct_balls (axis_features (idx + j) pfs) (Z.to_nat radius))) <->
    (length (axis_features idx pfs) = length pfs /\
     pr_q params <= Z.of_nat (count_distinct_balls (axis_features idx pfs) (Z.to_nat r))) /\
    (forall j radius, rho !! j = Some radius ->
      Forall (fun pf => is_Some (pf !! (S idx + j)%nat)) pfs /\
      pr_q params <= Z.of_nat (count_distinct_balls (axis_features (S idx + j) pfs) (Z.to_nat radius)))) as ->.
  { rewrite axis_features_all. split.
    - intros H. split; [specialize (H 0%nat r eq_refl); by rewrite Nat.add_0_r in H|].
      intros j radius Hj. specialize (H (S j) radius Hj). by rewrite Nat.add_succ_r in H.
    - intros [H0 H] [|j] radius Hj; [simpl in Hj; simplify_eq; by rewrite Nat.add_0_r|].
      rewrite Nat.add_succ_r. by apply H. }
  rewrite <-IH. case_match eqn:E1; zbool; [naive_solver lia|]. case_match eqn:E2; zbool; naive_solver lia.
Qed.

(** The smallest reputation of a list without NaN. *)
Lemma min_loop_ok best rs :
  is_nan best = false -> Forall (fun r => is_nan r = false) rs ->
  exists m, min_loop best rs = Ok m /\ m ∈ best :: rs /\ forall r, r ∈ best :: rs -> f64_leb m r = true.
Proof.
  revert best; induction rs as [|r rs IH]; intros best Hb Hrs; simpl.
  { exists best. split; [done|]. split; [left|]. intros r [->|?%elem_of_nil]%elem_of_cons; [by apply f64_leb_refl|done]. }
  apply Forall_cons in Hrs as [Hr Hrs].
  assert (forall x y, is_nan x = false -> is_nan y = false -> f64_leb x y = match f64_partial_cmp x y with Some Gt | None => false | _ => true end) as Hleb.
  { intros x y _ _. unfold f64_leb, SFleb, f64_partial_cmp. by destruct (SFcompare x y) as [[]|]. }
  destruct (f64_partial_cmp best r) as [c|] eqn:E.
  2: { apply f64_partial_cmp_None in E. destruct E; congruence. }
  assert (f64_leb best r = match c with Gt => false | _ => true end) as Hbr by (by rewrite Hleb, E by done).
  destruct c.
  1,2: destruct (IH best Hb Hrs) as (m & Hm & Hin & Hle); exists m; split; [done|]; split;
    [set_solver|]; intros x Hx;
    rewrite !elem_of_cons in Hx; destruct Hx as [->|[->|Hx]];
    [apply Hle; left|apply (f64_leb_trans _ best); [done|apply Hle; left|done]|apply Hle; by right].
  destruct (IH r Hr Hrs) as (m & Hm & Hin & Hle); exists m; split; [done|]; split; [set_solver|]; intros x Hx.
  rewrite !elem_of_cons in Hx. destruct Hx as [->|[->|Hx]]; [|apply Hle; left|apply Hle; by right].
  apply (f64_leb_trans _ r); [done|apply Hle; left|]. by apply f64_leb_total.
Qed.

(** ** Properties *)

(** A parent's reputation is below the minimum, or the sum is; no parents count as one of
    reputation zero. *)
Definition c3_holds (params : AdicParams) (reps : list f64) : Prop :=
  (forall r, r ∈ match reps with [] => [f64_zero] | _ => reps end -> f64_ltb r (r_min params) = false) /\
  f64_ltb (foldl f64_add f64_zero reps) (r_sum_min params) = false.

(** On each axis every parent has a vector, and the vectors lie in [q] balls at least. *)
Definition c2_holds (params : AdicParams) (pfs : list (list QpDigits)) : Prop :=
  forall j radius, pr_rho params !! j = Some radius ->
    exists vs, Forall2 (fun pf v => pf !! j = Some v) pfs vs /\
      pr_q params <= Z.of_nat (size (list_to_set ((fun v => ball_id v (Z.to_nat radius)) <$> vs) : gset Bytes)).

Lemma c2_check_holds params pfs : check_c2_diversity params pfs = true <-> c2_holds params pfs.
Proof.
  unfold check_c2_diversity, c2_holds. rewrite c2_check_loop_spec. simpl.
  assert (forall j vs, Forall2 (fun pf v => pf !! j = Some v) pfs vs -> axis_features j pfs = vs) as Hvs.
  { intros j vs. induction 1 as [|pf v pfs' vs Hv _ IH]; [done|]. unfold axis_features in *. cbn [omap list_omap].
    by rewrite Hv, IH. }
  split; intros H j radius Hj; specialize (H j radius Hj).
  - destruct H as [Hall Hq]. destruct (Forall2_choose (fun pf v => pf !! j = Some v) pfs) as [vs Hf].
    { intros pf Hpf. rewrite Forall_forall in Hall. by apply Hall. }
    exists vs. split; [done|]. rewrite (Hvs j vs Hf) in Hq.
    by rewrite (proj2 (balls_are_distinct_count vs (Z.to_nat radius) 0)) in Hq.
  - destruct H as (vs & Hf & Hq). split.
    + clear -Hf. induction Hf; constructor; [by eexists|done].
    + rewrite (Hvs j vs Hf). by rewrite (proj2 (balls_are_distinct_count vs (Z.to_nat radius) 0)).
Qed.

Lemma c3_check_holds params reps :
  Forall (fun r => is_nan r = false) reps ->
  exists b, check_c3_reputation params reps = Ok b /\ (b = true <-> c3_holds params reps).
Proof.
  intros Hn. unfold check_c3_reputation, c3_holds.
  assert (exists m, min_reputation_of reps = Ok m /\
    (f64_ltb m (r_min params) = false <-> forall r, r ∈ match reps with [] => [f64_zero] | _ => reps end -> f64_ltb r (r_min params) = false))
    as (m & -> & Hm).
  { destruct reps as [|r rs]; [exists f64_zero; split; [done|]; split; [by intros ? r ->%list_elem_of_singleton|intros H; apply H; left]|].
    apply Forall_cons in Hn as [Hr Hn]. destruct (min_loop_ok r rs Hr Hn) as (m & Hm & Hin & Hle).
    exists m. split; [done|]. split; [|intros H; by apply H]. intros Hm' x Hx.
    destruct (f64_ltb x (r_min params)) eqn:E; [|done]. rewrite <-Hm'. symmetry.
    apply (f64_leb_ltb_trans _ x); [by apply Hle|done]. }
  simpl. destruct (f64_ltb m (r_min params)) eqn:E.
  - exists false. split; [done|]. split; [done|]. intros [H _]. apply Hm in H. done.
  - eexists. split; [done|]. rewrite negb_true_iff. split; [intros; split; [by apply Hm|done]|by intros [_ ?]].
Qed.

Section decided.
Context (powi : f64 -> Z -> f64) (params : AdicParams).

Lemma score_loop_total add_term p idx rho message pfs total :
  features_ok p message pfs -> exists s, score_loop powi params add_term idx rho message pfs total = Ok s.
Proof.
  intros [Hm Hp]. revert idx total; induction rho as [|r rho IH]; intros idx total; simpl; [by eexists|].
  destruct (AdicFeatures_get_axis (features message) (Z.of_nat idx)) as [ph|] eqn:E; [|apply IH].
  rewrite (min_term_loop_eq _ _ p) by (done || by eapply get_axis_ok). simpl. apply IH.
Qed.

(** The terms are not negative, so adding a zero term or none makes no difference. *)
Lemma scores_agree p idx rho message pfs total :
  powers_nonneg powi -> 0 < pr_p params ->
  features_ok p message pfs -> is_nan total = false -> f64_sign total = false ->
  score_loop powi params add_finite_term idx rho message pfs total = score_loop powi params add_term_or_zero idx rho message pfs total.
Proof.
  intros Hpow Hp0 [Hm Hp]. revert idx total; induction rho as [|r rho IH]; intros idx total Hn Hs; simpl; [done|].
  destruct (AdicFeatures_get_axis (features message) (Z.of_nat idx)) as [ph|] eqn:E; [|by apply IH].
  rewrite (min_term_loop_eq _ _ p) by (done || by eapply get_axis_ok). simpl.
  set (m := foldl _ _ _). assert (is_nan m = false /\ f64_sign m = false) as [Hmn Hms].
  { subst m. destruct (min_fold_case f64_infinity (parent_term powi params r (qp_digits ph) <$> axis_features idx pfs)) as [->|Hin];
      [done|]. apply list_elem_of_fmap in Hin as (ph' & -> & _). by apply Hpow. }
  assert (add_finite_term total m = add_term_or_zero total m) as ->.
  { unfold add_finite_term, add_term_or_zero. destruct (f64_eqb m f64_infinity); simpl; [|done].
    rewrite f64_add_zero; [done|]. by intros ->. }
  unfold add_term_or_zero. set (t := if f64_eqb _ _ then _ else _).
  assert (is_nan t = false /\ f64_sign t = false) as [Htn Hts] by (subst t; by case_match).
  destruct (f64_add_nonneg total t) as [? ?]; [done..|]. by apply IH.
Qed.
End decided.

(** C6: A message with vectors of one prime and parents whose reputations are numbers is always decided,
    without a panic, with any [powi] that makes no power of a positive integer negative or [NaN]: it is an error exactly when the number of parents is not d + 1, and
    otherwise admissible exactly when its score reaches d, every axis has parents in q balls at
    least, no parent's reputation is below the minimum and their sum is not either.  The checker
    with the ultrametric validator and the one without decide alike, with the same score. *)
Theorem admission_decided powi params p message pfs reps :
  powers_nonneg powi -> 0 < pr_p params -> features_ok p message pfs -> Forall (fun r => is_nan r = false) reps ->
  check_message powi params true message pfs reps = check_message powi params false message pfs reps /\
  match check_message powi params true message pfs reps with
  | Ok r => Z.of_nat (length (parents message)) = to_u32 (pr_d params + 1) /\
      (is_admissible r = true <->
       f64_geb (score r) (f64_of_Z (pr_d params)) = true /\ c2_holds params pfs /\ c3_holds params reps)
  | Err _ => Z.of_nat (length (parents message)) <> to_u32 (pr_d params + 1)
  | Panic => False
  end.
Proof.
  intros Hpow Hp0 Hf Hn. unfold check_message. destruct (negb _) eqn:E; [zbool; done|]. zbool.
  unfold compute_security_score, compute_admissibility_score.
  rewrite (scores_agree powi params p 0 _ _ _ _ Hpow Hp0 Hf) by done.
  destruct (score_loop_total powi params add_term_or_zero p 0 (pr_rho params) message pfs f64_zero Hf) as [s ->]. simpl.
  unfold verify_c2_diversity. rewrite (c2_loops_agree params 0 (pr_rho params) pfs []).
  fold (check_c2_diversity params pfs). destruct (c3_check_holds params reps Hn) as (b & -> & Hb). simpl.
  split; [done|]. split; [done|]. rewrite !andb_true_iff, Hb, c2_check_holds. tauto.
Qed.

(** ** The default parameters admit nothing *)

Definition f64_third : f64 := f64_lit 1 3.
Definition f64_ninth : f64 := f64_lit 1 9.

(** What an axis can add to the score: nothing, for want of the message's or of the parents'
    vectors, or one of three powers of 3. *)
Definition contributions : list (option f64) :=
  [None; Some f64_infinity; Some (f64_of_Z 1); Some f64_third; Some f64_ninth].

Definition add_contribution (add_term : f64 -> f64 -> f64) (total : f64) (c : option f64) : f64 :=
  match c with None => total | Some m => add_term total m end.

Definition reaches_three (add_term : f64 -> f64 -> f64) (a b c : option f64) : bool :=
  f64_geb (add_contribution add_term (add_contribution add_term (add_contribution add_term f64_zero a) b) c) (f64_of_Z 3).

(** Three axes reach the score 3 only if each contributes 1. *)
Lemma only_ones_reach_three :
  forallb (fun a => forallb (fun b => forallb (fun c =>
    implb (reaches_three add_finite_term a b c || reaches_three add_term_or_zero a b c)
      (bool_decide (a = Some (f64_of_Z 1)))) contributions) contributions) contributions = true.
Proof. vm_compute. reflexivity. Qed.

Section default_params.
Context (powi : f64 -> Z -> f64).
Context (Hpow0 : powi (f64_of_Z 3) 0 = f64_of_Z 1).
Context (Hpow1 : powi (f64_of_Z 3) (-1) = f64_third).
Context (Hpow2 : powi (f64_of_Z 3) (-2) = f64_ninth).

(** Vectors of prime 3 with the digits that the default radii look at. *)
Definition vector_fits (v : QpDigits) : Prop :=
  qp_p v = 3 /\ (2 <= length (digits v))%nat /\ Z.of_nat (length (digits v)) < 2 ^ 31.

Lemma fits_short v : vector_fits v -> short v.
Proof. intros (_ & _ & H). unfold short. uint_unfold. lia. Qed.

Lemma parent_term_value radius x y :
  vector_fits x -> vector_fits y -> 1 <= radius <= 2 ->
  let t := parent_term powi params_default radius x y in
  t ∈ [f64_of_Z 1; f64_third; f64_ninth] /\
  (t = f64_of_Z 1 -> forall m, (m < Z.to_nat radius)%nat -> digit_at x m = digit_at y m).
Proof.
  intros (_ & Hx1 & Hx2) (_ & Hy1 & Hy2) Hr. unfold parent_term, axis_term. change (pr_p params_default) with 3.
  set (fd := first_diff x y 0 (max_digits x y)).
  assert (Z.of_nat fd < 2 ^ 31) as Hfd.
  { destruct (first_diff_spec x y 0 (max_digits x y) fd eq_refl) as [? _]. unfold max_digits in *. lia. }
  assert (Z.max (to_i32 (to_i32 radius - to_i32 (Z.of_nat fd))) 0 = Z.max (radius - Z.of_nat fd) 0) as ->
    by (rewrite (to_i32_small radius), (to_i32_small (Z.of_nat fd)) by lia; by rewrite to_i32_small by lia).
  assert (Z.max (radius - Z.of_nat fd) 0 = 0 /\ radius <= Z.of_nat fd \/
    Z.max (radius - Z.of_nat fd) 0 = 1 \/ Z.max (radius - Z.of_nat fd) 0 = 2) as [[-> Hle]|[-> | ->]] by lia.
  - change (- 0) with 0. rewrite Hpow0. split; [left|]. intros _.
    apply (first_diff_ge x y (max_digits x y)); [unfold max_digits; lia|]. fold fd. lia.
  - change (Z.opp 1) with (-1). rewrite Hpow1. split; [right; left|]. intros H. vm_compute in H. discriminate H.
  - change (Z.opp 2) with (-2). rewrite Hpow2. split; [do 2 right; left|]. intros H. vm_compute in H. discriminate H.
Qed.

Definition contribution (idx : nat) (radius : Z) (message : AdicMessage) (pfs : list (list QpDigits)) : option f64 :=
  (fun ph => foldl (fun m t => if f64_ltb t m then t else m) f64_infinity
    (parent_term powi params_default radius (qp_digits ph) <$> axis_features idx pfs)) <$>
  AdicFeatures_get_axis (features message) (Z.of_nat idx).

Lemma score_loop_contributions add_term idx rho message pfs total :
  features_ok 3 message pfs ->
  score_loop powi params_default add_term idx rho message pfs total =
    Ok (foldl (add_contribution add_term) total (imap (fun j r => contribution (idx + j) r message pfs) rho)).
Proof.
  intros Hf. pose proof Hf as [Hm Hp]. revert idx total; induction rho as [|r rho IH]; intros idx total; [done|].
  cbn [score_loop imap foldl]. rewrite Nat.add_0_r.
  assert (imap ((fun j r0 => contribution (idx + j) r0 message pfs) ∘ S) rho = imap (fun j r0 => contribution (S idx + j) r0 message pfs) rho) as ->
    by (apply imap_ext; intros j x _; simpl; by rewrite Nat.add_succ_r).
  destruct (AdicFeatures_get_axis (features message) (Z.of_nat idx)) as [ph|] eqn:E.
  - rewrite (min_term_loop_eq _ _ 3); [|by eapply get_axis_ok|exact Hp]. cbn [result_bind]. rewrite IH.
    unfold contribution at 2. by rewrite E.
  - rewrite IH. unfold contribution at 2. by rewrite E.
Qed.

Lemma min_fold_le acc ts :
  is_nan acc = false -> Forall (fun t => is_nan t = false) ts ->
  let m := foldl (fun m t => if f64_ltb t m then t else m) acc ts in
  f64_leb m acc = true /\ Forall (fun t => f64_leb m t = true) ts.
Proof.
  revert acc; induction ts as [|t ts IH]; intros acc Ha Hts; simpl; [split; [by apply f64_leb_refl|done]|].
  apply Forall_cons in Hts as [Ht Hts].
  destruct (IH (if f64_ltb t acc then t else acc)) as [H1 H2]; [by case_match|done|].
  rewrite f64_ltb_leb in * by done. destruct (f64_leb acc t) eqn:E; simpl in *.
  - split; [done|]. constructor; [|done]. by apply (f64_leb_trans _ acc).
  - split; [|by constructor]. apply (f64_leb_trans _ t); [done..|]. by apply f64_leb_total.
Qed.

Lemma contribution_ok idx radius message pfs :
  Forall vector_fits (qp_digits <$> phi (features message)) -> Forall (Forall vector_fits) pfs -> 1 <= radius <= 2 ->
  contribution idx radius message pfs ∈ contributions /\
  (contribution idx radius message pfs = Some (f64_of_Z 1) ->
   exists x, Forall (fun v => forall m, (m < Z.to_nat radius)%nat -> digit_at x m = digit_at v m) (axis_features idx pfs)).
Proof.
  intros Hm Hp Hr. unfold contribution.
  destruct (AdicFeatures_get_axis (features message) (Z.of_nat idx)) as [ph|] eqn:E; [|split; [left|done]].
  unfold AdicFeatures_get_axis in E. apply find_some in E as [Hin _].
  rewrite Forall_fmap, Forall_forall in Hm. specialize (Hm ph ltac:(by apply list_elem_of_In)). simpl in Hm.
  pose proof (axis_features_Forall _ idx _ Hp) as Hfit.
  set (ts := parent_term powi params_default radius (qp_digits ph) <$> axis_features idx pfs).
  assert (Forall (fun t => t ∈ [f64_of_Z 1; f64_third; f64_ninth]) ts) as Hts.
  { subst ts. rewrite Forall_fmap. eapply Forall_impl; [exact Hfit|]. intros v Hv. by apply parent_term_value. }
  split.
  - change (Some (foldl (fun m t => if f64_ltb t m then t else m) f64_infinity ts) ∈ contributions).
    destruct (min_fold_case f64_infinity ts) as [->|Hx]; [right; left|].
    rewrite Forall_forall in Hts. specialize (Hts _ Hx). set (x := foldl _ _ _) in *. clearbody x.
    rewrite !elem_of_cons, elem_of_nil in Hts. unfold contributions. destruct Hts as [->|[->|[->|[]]]]; [do 2 right; left|do 3 right; left|do 4 right; left].
  - intros H1. exists (qp_digits ph). assert (Forall (fun t => is_nan t = false) ts) as Hnn.
    { eapply Forall_impl; [exact Hts|]. intros t. rewrite !elem_of_cons, elem_of_nil. intros [->|[->|[->|[]]]]; vm_compute; reflexivity. }
    destruct (min_fold_le f64_infinity ts eq_refl Hnn) as [_ Hle]. set (m := foldl _ _ ts) in Hle. change (Some m = Some (f64_of_Z 1)) in H1. apply (inj Some) in H1. rewrite H1 in Hle.
    subst ts. rewrite Forall_fmap in *. rewrite Forall_forall in *. intros v Hv. apply parent_term_value; [done|by apply Hfit|done|].
    specialize (Hle v Hv). specialize (Hts v Hv). simpl in *. set (t := parent_term _ _ _ _ _) in *. clearbody t.
    rewrite !elem_of_cons, elem_of_nil in Hts. clear -Hle Hts.
    destruct Hts as [->|[->|[->|[]]]]; [reflexivity|vm_compute in Hle; discriminate Hle..].
Qed.

(** With the axes' features in one ball of radius [radius], they count as one. *)
Lemma one_ball radius x (vs : list QpDigits) :
  Forall (fun v => forall m, (m < radius)%nat -> digit_at x m = digit_at v m) vs ->
  Forall (fun v => (radius <= length (digits v))%nat) vs ->
  (size (list_to_set ((fun v => ball_id v radius) <$> vs) : gset Bytes) <= 1)%nat.
Proof.
  intros Hd Hl. assert (forall v, v ∈ vs -> ball_id v radius = digit_at x <$> seq 0 radius) as Hb.
  { intros v Hv. rewrite Forall_forall in Hd, Hl. specialize (Hd v Hv). specialize (Hl v Hv).
    unfold ball_id, QpDigits_ball_id. apply list_eq. intros m. rewrite list_lookup_fmap.
    destruct (decide (m < radius)%nat) as [Hm|Hm].
    - rewrite lookup_take_lt, lookup_seq_lt by done. simpl. rewrite (Hd m Hm). unfold digit_at.
      by destruct (lookup_lt_is_Some_2 (digits v) m ltac:(lia)) as [d ->].
    - by rewrite lookup_take_ge, lookup_seq_ge by lia. }
  rewrite <-(size_singleton (digit_at x <$> seq 0 radius) (C := gset Bytes)). apply subseteq_size.
  intros b Hin. apply elem_of_list_to_set, list_elem_of_fmap in Hin as (v & -> & Hv). rewrite (Hb v Hv). by apply elem_of_singleton.
Qed.

(** With the default parameters, those of production as well as those of the tests, no message
    is admissible: a score of d = 3 over three axes needs every parent inside the message's ball
    on each axis, while C2 needs the parents in q = 3 different balls of the same radius. *)
Theorem default_params_admit_nothing use_ultrametric params message pfs reps r :
  params = params_default \/ params = params_test ->
  Forall vector_fits (qp_digits <$> phi (features message)) -> Forall (Forall vector_fits) pfs ->
  check_message powi params use_ultrametric message pfs reps = Ok r -> is_admissible r = false.
Proof.
  intros Hpar Hm Hp Hr.
  assert (check_message powi params_default use_ultrametric message pfs reps = Ok r) as H by (by destruct Hpar as [-> | ->]).
  clear Hr Hpar params. destruct (is_admissible r) eqn:Hadm; [exfalso|done].
  assert (features_ok 3 message pfs) as Hf.
  { assert (forall v, vector_fits v -> qp_p v = 3 /\ short v) as Hv by (intros v Hv; split; [apply Hv|by apply fits_short]).
    split; [by eapply Forall_impl|]. eapply Forall_impl; [exact Hp|]. intros pf Hpf. by eapply Forall_impl. }
  unfold check_message in H. destruct (negb _); [done|].
  destruct (check_c3_reputation params_default reps) as [b|e|] eqn:E3;
    [|destruct use_ultrametric; unfold compute_security_score, compute_admissibility_score in H;
      rewrite score_loop_contributions in H by done; done..].
  unfold compute_security_score, compute_admissibility_score, verify_c2_diversity in H.
  rewrite !score_loop_contributions in H by done.
  change (pr_rho params_default) with [2; 2; 1] in H. cbn [imap foldl] in H.
  rewrite (c2_loops_agree params_default 0 [2; 2; 1] pfs []) in H. change (pr_d params_default) with 3 in H.
  set (c0 := contribution (0 + 0) 2 message pfs) in H.
  set (c1 := ((fun j r => contribution (0 + j) r message pfs) ∘ S) 0%nat 2) in H.
  set (c2 := (((fun j r => contribution (0 + j) r message pfs) ∘ S) ∘ S) 0%nat 1) in H.
  destruct (contribution_ok (0 + 0) 2 message pfs Hm Hp ltac:(lia)) as [Hc0 Hone]. fold c0 in Hc0, Hone.
  pose proof (proj1 (contribution_ok 1 2 message pfs Hm Hp ltac:(lia))) as Hc1. change (contribution 1 2 message pfs) with c1 in Hc1.
  pose proof (proj1 (contribution_ok 2 1 message pfs Hm Hp ltac:(lia))) as Hc2. change (contribution 2 1 message pfs) with c2 in Hc2.
  pose proof only_ones_reach_three as Hones. rewrite forallb_forall in Hones.
  specialize (Hones c0 ltac:(by apply list_elem_of_In)). rewrite forallb_forall in Hones.
  specialize (Hones c1 ltac:(by apply list_elem_of_In)). rewrite forallb_forall in Hones.
  specialize (Hones c2 ltac:(by apply list_elem_of_In)). unfold reaches_three in Hones.
  assert (c2_check_loop params_default 0 [2; 2; 1] pfs = true /\ c0 = Some (f64_of_Z 1)) as [Hdiv Hc].
  { destruct use_ultrametric; cbn [result_bind] in H; apply (inj Ok) in H; subst r; unfold admissibility_new in Hadm; cbn [is_admissible] in Hadm;
      apply andb_prop in Hadm as [[Hs Hd]%andb_prop _]; (split; [exact Hd|]);
      rewrite Hs, ?orb_true_r, ?orb_true_l in Hones; apply bool_decide_eq_true in Hones; exact Hones. }
  destruct (Hone Hc) as [x Hx]. rewrite c2_check_loop_spec in Hdiv. destruct (Hdiv 0%nat 2 eq_refl) as [_ Hq].
  rewrite (proj2 (balls_are_distinct_count _ _ 0)) in Hq. change (pr_q params_default) with 3 in Hq.
  pose proof (one_ball 2 x (axis_features (0 + 0) pfs) Hx) as Hsize.
  assert (Forall (fun v => (2 <= length (digits v))%nat) (axis_features (0 + 0) pfs)) as Hlen.
  { eapply Forall_impl; [exact (axis_features_Forall _ _ _ Hp)|]. by intros v (_ & ? & _). }
  specialize (Hsize Hlen). change (Z.to_nat 2) with 2%nat in Hq. lia.
Qed.
End default_params.

(** ** Instances *)

Definition vec (ds : list Z) : QpDigits := mkQpDigits ds 3.
Definition four_parents (fs : list (list Z)) : AdicMessage :=
  mkMessage [9] [[1]; [2]; [3]; [4]] (mkAdicFeatures (imap (fun i ds => mkAxisPhi (Z.of_nat i) (vec ds)) fs))
    (AdicMeta_new 0) [7] [] None [].

Definition near_message : AdicMessage := four_parents [[1; 1; 0]; [2; 0; 0]; [1; 0; 0]].
(** Four parents in three different balls on each axis. *)
Definition diverse_parents : list (list QpDigits) :=
  [[vec [1; 1; 0]; vec [2; 0; 0]; vec [1; 0; 0]];
   [vec [0; 1; 0]; vec [1; 0; 0]; vec [0; 0; 0]];
   [vec [2; 1; 0]; vec [0; 0; 0]; vec [2; 0; 0]];
   [vec [1; 1; 0]; vec [2; 0; 0]; vec [1; 0; 0]]].
Definition good_reputations : list f64 := replicate 4 (f64_of_Z 2).

(** One axis is enough for a score of 1, and one ball for [q] = 1. *)
Definition lenient : AdicParams :=
  mkParams 3 1 [1] 1 3 2 5 (f64_lit 1 10) (f64_of_Z 1) (f64_of_Z 4) (f64_of_Z 1) (f64_of_Z 1) (f64_of_Z 1) (f64_of_Z 1)
    (f64_lit 9 10).
Definition two_parents : AdicMessage :=
  mkMessage [9] [[1]; [2]] (mkAdicFeatures [mkAxisPhi 0 (vec [1; 1; 0])]) (AdicMeta_new 0) [7] [] None [].

Lemma admission_decided_witness :
  let r := check_message powi_rounded lenient true two_parents [[vec [1; 1; 0]]; [vec [1; 2; 0]]] [f64_of_Z 2; f64_of_Z 3] in
  is_admissible <$> (match r with Ok r => Some r | _ => None end) = Some true /\
  r = check_message powi_rounded lenient false two_parents [[vec [1; 1; 0]]; [vec [1; 2; 0]]] [f64_of_Z 2; f64_of_Z 3].
Proof.
  split; [vm_compute; reflexivity|].
  refine (proj1 (admission_decided powi_rounded lenient 3 two_parents [[vec [1; 1; 0]]; [vec [1; 2; 0]]] [f64_of_Z 2; f64_of_Z 3]
    powi_rounded_nonneg _ _ _)).
  - done.
  - split; repeat constructor; vm_compute; congruence.
  - repeat constructor; vm_compute; reflexivity.
Defined.

Lemma default_params_admit_nothing_witness :
  exists r, check_message powi_rounded params_default true near_message diverse_parents good_reputations = Ok r /\
    c2_passed r = true /\ c3_passed r = true /\ is_admissible r = false.
Proof.
  eexists. split; [vm_compute; reflexivity|]. split; [reflexivity|]. split; [reflexivity|].
  refine (default_params_admit_nothing powi_rounded _ _ _ true params_default near_message diverse_parents good_reputations _ _ _ _ _).
  1-3: vm_compute; reflexivity.
  - by left.
  - repeat constructor; simpl; lia.
  - repeat constructor; simpl; lia.
  - vm_compute; reflexivity.
Defined.
