(* ===== verification/Validation.v ===== *)
(** * Message validation

    [adic-consensus/src/validation.rs]: the structural checks of a message, and the cache of
    their results with its eviction queue.  [canonical_hash] is the hash of a message's content,
    [verify_signature] the signature check of the crypto engine ([None] when it fails) and [now]
    the clock.  Errors and warnings are constructors instead of texts; counters are left out. *)

From S2P Require Import Prelude F64 Padic Message.

Inductive ValidationError :=
  | IdMismatch
  | SignatureEmpty
  | SignatureInvalid
  | SignatureCheckFailed
  | TimestampDrift (drift max : Z)
  | NoParents
  | DuplicateParents
  | SelfParent
  | PayloadTooLarge
  | NoFeatures
  | DuplicateAxis (axis : AxisId)
  | EmptyDigits (axis : AxisId)
  | InvalidTransfer
  | ZeroAmount
  | SameSenderRecipient
  | BadSender (len : nat)
  | BadRecipient (len : nat).

Inductive ValidationWarning := EmptyPayload | ZeroNonce.

Record ValidationResult := mkValidation {
  is_valid : bool;
  errors : list ValidationError;
  warnings : list ValidationWarning;
}.

Definition valid : ValidationResult := mkValidation true [] [].
Definition invalid (e : ValidationError) : ValidationResult := mkValidation false [e] [].
Definition add_error (e : ValidationError) (r : ValidationResult) : ValidationResult :=
  mkValidation false (errors r ++ [e]) (warnings r).
Definition add_warning (w : ValidationWarning) (r : ValidationResult) : ValidationResult :=
  mkValidation (is_valid r) (errors r) (warnings r ++ [w]).
Definition add_error_if (b : bool) (e : ValidationError) (r : ValidationResult) : ValidationResult :=
  if b then add_error e r else r.

Record MessageValidator := mkValidator {
  max_timestamp_drift : Z;
  max_payload_size : Z;
  validation_cache : gmap MessageId ValidationResult;
  cache_queue : list MessageId;
  max_cache_size : nat;
}.

Definition validator_new : MessageValidator := mkValidator 300 (1024 * 1024) ∅ [] 10000.

Definition with_cache (v : MessageValidator) (c : gmap MessageId ValidationResult) (q : list MessageId) : MessageValidator :=
  mkValidator (max_timestamp_drift v) (max_payload_size v) c q (max_cache_size v).
Definition clear_cache (v : MessageValidator) : MessageValidator := with_cache v ∅ [].
Definition validator_cache_stats (v : MessageValidator) : nat * nat := (size (validation_cache v), max_cache_size v).

Section validate.
Context (canonical_hash : CanonicalMessage -> Bytes).
Context (check_signature : AdicMessage -> PublicKey -> Signature -> option bool) (now : Z).

Definition verify_signature (m : AdicMessage) (r : ValidationResult) : ValidationResult :=
  if bool_decide (signature m = []) then add_error SignatureEmpty r
  else
    match check_signature m (proposer_pk m) (signature m) with
    | Some true => r
    | Some false => add_error SignatureInvalid r
    | None => add_error SignatureCheckFailed r
    end.

Definition validate_structure (m : AdicMessage) (r : ValidationResult) : ValidationResult :=
  if negb (verify_id canonical_hash m) then add_error IdMismatch r else verify_signature m r.

Definition validate_timestamp (v : MessageValidator) (m : AdicMessage) (r : ValidationResult) : ValidationResult :=
  let drift := Z.abs (now - timestamp (meta m)) in
  add_error_if (max_timestamp_drift v <? drift) (TimestampDrift drift (max_timestamp_drift v)) r.

Definition validate_parents (m : AdicMessage) (r : ValidationResult) : ValidationResult :=
  let r := add_error_if (bool_decide (parents m = []) && negb (is_genesis m)) NoParents r in
  let r := add_error_if (negb (size (list_to_set (parents m) : gset MessageId) =? length (parents m))%nat) DuplicateParents r in
  add_error_if (existsb (fun p => bool_decide (p = msg_id m)) (parents m)) SelfParent r.

Definition validate_payload (v : MessageValidator) (m : AdicMessage) (r : ValidationResult) : ValidationResult :=
  let r := add_error_if (max_payload_size v <? Z.of_nat (length (data m))) PayloadTooLarge r in
  if bool_decide (data m = []) then add_warning EmptyPayload r else r.

Fixpoint features_loop (phis : list AxisPhi) (seen_axes : gset AxisId) (r : ValidationResult) : ValidationResult :=
  match phis with
  | [] => r
  | ph :: phis =>
      let r := add_error_if (bool_decide (axis ph ∈ seen_axes)) (DuplicateAxis (axis ph)) r in
      let r := add_error_if (bool_decide (digits (qp_digits ph) = [])) (EmptyDigits (axis ph)) r in
      features_loop phis ({[axis ph]} ∪ seen_axes) r
  end.
Definition validate_features (m : AdicMessage) (r : ValidationResult) : ValidationResult :=
  features_loop (phi (features m)) ∅ (add_error_if (AdicFeatures_dimension (features m) =? 0)%nat NoFeatures r).

Definition validate_transfer_payload (m : AdicMessage) (r : ValidationResult) : ValidationResult :=
  match transfer m with
  | None => r
  | Some t =>
      let r :=
        (if negb (transfer_is_valid t) then
           let r := add_error InvalidTransfer r in
           let r := add_error_if (vt_amount t =? 0) ZeroAmount r in
           let r := add_error_if (bool_decide (vt_from t = vt_to t)) SameSenderRecipient r in
           let r := add_error_if (negb (length (vt_from t) =? 32)%nat) (BadSender (length (vt_from t))) r in
           add_error_if (negb (length (vt_to t) =? 32)%nat) (BadRecipient (length (vt_to t))) r
         else r) in
      if vt_nonce t =? 0 then add_warning ZeroNonce r else r
  end.

Definition validate_message (v : MessageValidator) (m : AdicMessage) : ValidationResult :=
  let r := validate_structure m valid in
  let r := validate_timestamp v m r in
  let r := validate_parents m r in
  let r := validate_payload v m r in
  let r := validate_features m r in
  validate_transfer_payload m r.

(** [if cache.len() >= max { if let Some(old) = queue.pop_front() { cache.remove(&old) } }]. *)
Definition evict (v : MessageValidator) : MessageValidator :=
  if (max_cache_size v <=? size (validation_cache v))%nat then
    match cache_queue v with
    | [] => v
    | old :: queue => with_cache v (delete old (validation_cache v)) queue
    end
  else v.

Definition validate_message_cached (m : AdicMessage) (v : MessageValidator) : ValidationResult * MessageValidator :=
  match validation_cache v !! msg_id m with
  | Some cached => (cached, v)
  | None =>
      let r := validate_message v m in
      let v := evict v in
      (r, with_cache v (<[msg_id m := r]> (validation_cache v)) (cache_queue v ++ [msg_id m]))
  end.

Definition validate_acyclicity (m : AdicMessage) (ancestor_ids : gset MessageId) : bool :=
  negb (bool_decide (msg_id m ∈ ancestor_ids)).
End validate.

(** ** What valid means *)

(** Every check that can record an error. *)
Record message_ok canonical_hash check_signature (now : Z) (v : MessageValidator) (m : AdicMessage) : Prop := {
  mo_id : msg_id m = compute_id canonical_hash m;
  mo_signed : signature m <> [] /\ check_signature m (proposer_pk m) (signature m) = Some true;
  mo_time : Z.abs (now - timestamp (meta m)) <= max_timestamp_drift v;
  mo_parents : NoDup (parents m) /\ msg_id m ∉ parents m;
  mo_payload : Z.of_nat (length (data m)) <= max_payload_size v;
  mo_axes : phi (features m) <> [] /\ NoDup (axis <$> phi (features m)) /\
    Forall (fun ph => digits (qp_digits ph) <> []) (phi (features m));
  mo_transfer : forall t, transfer m = Some t -> transfer_is_valid t = true;
}.

(** A result is well formed when it is valid exactly if it has no error. *)
Definition result_ok (r : ValidationResult) : Prop := is_valid r = bool_decide (errors r = []).

Lemma is_valid_add_error_if b e r : is_valid (add_error_if b e r) = negb b && is_valid r.
Proof. by destruct b. Qed.
Lemma is_valid_add_warning w r : is_valid (add_warning w r) = is_valid r.
Proof. done. Qed.

Lemma features_loop_valid phis seen r :
  is_valid (features_loop phis seen r) = true <->
  is_valid r = true /\ NoDup (axis <$> phis) /\ Forall (fun ph => digits (qp_digits ph) <> []) phis /\
  forall ph, ph ∈ phis -> axis ph ∉ seen.
Proof.
  revert seen r; induction phis as [|ph phis IH]; intros seen r; simpl.
  { split; [|tauto]. intros H. split_and!; [done|constructor|constructor|]. by intros ? ?%elem_of_nil. }
  rewrite IH, !is_valid_add_error_if, !andb_true_iff, !negb_true_iff, !bool_decide_eq_false, NoDup_cons, Forall_cons.
  split.
  - intros ((Hd & Ha & Hv) & Hnd & Hall & Hs). split_and!; try done.
    + intros Hin. apply list_elem_of_fmap in Hin as (ph' & Heq & Hin). specialize (Hs ph' Hin). set_solver.
    + intros ph' [->|Hin]%elem_of_cons; [done|]. specialize (Hs ph' Hin). set_solver.
  - intros (Hv & (Hni & Hnd) & (Hd & Hall) & Hs). split_and!; try done; [apply Hs; left|].
    intros ph' Hin. pose proof (Hs ph' ltac:(by right)). rewrite elem_of_union, elem_of_singleton. intros [Heq|?]; [|done].
    apply Hni. rewrite <-Heq. by apply list_elem_of_fmap_2.
Qed.

Lemma size_eq_length_NoDup (l : list MessageId) :
  size (list_to_set l : gset MessageId) = length l <-> NoDup l.
Proof.
  split; [apply size_list_to_set_NoDup|]. intros Hl. by rewrite size_list_to_set.
Qed.

Lemma validate_message_valid ch cs now v m :
  is_valid (validate_message ch cs now v m) = true <-> message_ok ch cs now v m.
Proof.
  unfold validate_message.
  assert (forall r, is_valid (validate_transfer_payload m r) = true <->
    is_valid r = true /\ forall t, transfer m = Some t -> transfer_is_valid t = true) as ->.
  { intros r. unfold validate_transfer_payload. destruct (transfer m) as [t|]; [|naive_solver].
    assert (forall r, is_valid (if vt_nonce t =? 0 then add_warning ZeroNonce r else r) = is_valid r) as -> by (intros; by case_match).
    destruct (transfer_is_valid t) eqn:E; simpl; [naive_solver|]. rewrite !is_valid_add_error_if. simpl.
    rewrite !andb_false_r. split; [done|]. intros [_ H]. specialize (H t eq_refl). congruence. }
  unfold validate_features. rewrite features_loop_valid, is_valid_add_error_if.
  assert (forall r, is_valid (validate_payload v m r) = negb (max_payload_size v <? Z.of_nat (length (data m))) && is_valid r) as ->.
  { intros r. unfold validate_payload. case_bool_decide; by rewrite ?is_valid_add_warning, is_valid_add_error_if. }
  unfold validate_parents, validate_timestamp. rewrite !is_valid_add_error_if.
  assert (is_valid (validate_structure ch cs m valid) = true <->
    msg_id m = compute_id ch m /\ signature m <> [] /\ cs m (proposer_pk m) (signature m) = Some true) as Hstr.
  { unfold validate_structure, verify_id, verify_signature. repeat case_bool_decide; simpl; try naive_solver.
    destruct (cs _ _ _) as [[]|]; naive_solver. }
  rewrite !andb_true_iff, Hstr, !negb_true_iff, negb_false_iff, !Z.ltb_ge, Nat.eqb_eq, size_eq_length_NoDup, Nat.eqb_neq, andb_false_iff.
  assert (existsb (fun p => bool_decide (p = msg_id m)) (parents m) = false <-> msg_id m ∉ parents m) as ->.
  { rewrite <-not_true_iff_false, existsb_exists. split; intros H Hin; apply H.
    - exists (msg_id m). split; [by apply list_elem_of_In|by apply bool_decide_eq_true].
    - destruct Hin as (p & Hp & ->%bool_decide_eq_true). by apply list_elem_of_In. }
  unfold AdicFeatures_dimension, is_genesis. rewrite length_zero_iff_nil. split.
  - intros (((Hf & Hd & Hself & Hnd & _ & Ht & Hi & Hs & Hc) & Ha & He & _) & Htr). by split.
  - intros [Hi [Hs Hc] Ht [Hnd Hself] Hd (Hf & Ha & He) Htr]. split_and!; try done.
    destruct (decide (parents m = [])); [right|left]; [by rewrite bool_decide_true|by rewrite bool_decide_false].
Qed.

(** ** The cache *)

(** The queue lists the cached ids without repetition, and there are no more than allowed. *)
Definition cache_ok (v : MessageValidator) : Prop :=
  NoDup (cache_queue v) /\ (forall i, is_Some (validation_cache v !! i) <-> i ∈ cache_queue v) /\
  (length (cache_queue v) <= Nat.max 1 (max_cache_size v))%nat.

Lemma cache_size v : cache_ok v -> size (validation_cache v) = length (cache_queue v).
Proof.
  intros (Hnd & Hdom & _). rewrite <-size_dom.
  assert (dom (validation_cache v) = list_to_set (cache_queue v)) as ->.
  { apply set_eq. intros i. by rewrite elem_of_dom, elem_of_list_to_set. }
  by rewrite size_list_to_set.
Qed.

Lemma evict_ok v : cache_ok v -> cache_ok (evict v) /\ (length (cache_queue (evict v)) < Nat.max 1 (max_cache_size v))%nat /\
  (forall i r, validation_cache (evict v) !! i = Some r -> validation_cache v !! i = Some r).
Proof.
  intros Hok. pose proof (cache_size v Hok) as Hs. destruct Hok as (Hnd & Hdom & Hlen). unfold evict.
  destruct (_ <=? _)%nat eqn:E; zbool; [|split_and!; try done; lia].
  destruct (cache_queue v) as [|old queue] eqn:Eq; simpl in *.
  - split_and!; try done; [split; [by rewrite Eq|split; [by rewrite Eq|rewrite Eq; simpl; lia]]|rewrite Eq; simpl; lia].
  - apply NoDup_cons in Hnd as [Hold Hnd]. split_and!; [|lia|].
    + split; [done|]. split; [|simpl; lia]. intros i. simpl.
      destruct (decide (i = old)) as [->|Hne].
      * rewrite lookup_delete_eq. split; [by intros []|done].
      * rewrite lookup_delete_ne, Hdom by done. rewrite elem_of_cons. naive_solver.
    + intros i r. simpl. by intros [_ ?]%lookup_delete_Some.
Qed.

Lemma validate_cached_ok ch cs now m v : cache_ok v -> cache_ok (validate_message_cached ch cs now m v).2.
Proof.
  intros Hok. unfold validate_message_cached. destruct (validation_cache v !! msg_id m) eqn:Em; [done|]. simpl.
  destruct (evict_ok v Hok) as ((Hnd & Hdom & _) & Hlen & Hsub).
  assert (msg_id m ∉ cache_queue (evict v)) as Hni.
  { intros Hin. apply Hdom in Hin as [r Hr]. apply Hsub in Hr. congruence. }
  assert (max_cache_size (evict v) = max_cache_size v) as Hmax by (unfold evict; by repeat case_match).
  split; simpl; [apply NoDup_app; split_and!; [done| |apply NoDup_singleton]; set_solver|].
  split; [|rewrite length_app, Hmax; simpl; lia].
  intros i. rewrite elem_of_app, list_elem_of_singleton, <-Hdom. destruct (decide (i = msg_id m)) as [->|Hne].
  - rewrite lookup_insert_eq. naive_solver.
  - rewrite lookup_insert_ne by done. naive_solver.
Qed.

(** ** Properties *)

Lemma add_error_ok e r : result_ok (add_error e r).
Proof. unfold result_ok. simpl. rewrite bool_decide_false; [done|]. by destruct (errors r). Qed.
Lemma add_error_if_ok b e r : result_ok r -> result_ok (add_error_if b e r).
Proof. destruct b; [intros _; apply add_error_ok|done]. Qed.
Lemma add_warning_ok w r : result_ok r -> result_ok (add_warning w r).
Proof. done. Qed.

Lemma features_loop_ok phis seen r : result_ok r -> result_ok (features_loop phis seen r).
Proof. revert seen r; induction phis as [|ph phis IH]; intros seen r Hr; simpl; [done|]. by apply IH, add_error_if_ok, add_error_if_ok. Qed.

Lemma validate_message_result_ok ch cs now v m : result_ok (validate_message ch cs now v m).
Proof.
  unfold validate_message, validate_transfer_payload, validate_features, validate_payload, validate_parents, validate_timestamp,
    validate_structure, verify_signature.
  repeat match goal with
  | |- result_ok (add_error _ _) => apply add_error_ok
  | |- result_ok (add_error_if _ _ _) => apply add_error_if_ok
  | |- result_ok (add_warning _ _) => apply add_warning_ok
  | |- result_ok (features_loop _ _ _) => apply features_loop_ok
  | |- result_ok (match ?x with _ => _ end) => destruct x
  | |- result_ok valid => done
  end.
Qed.

Inductive validator_reachable ch cs : MessageValidator -> Prop :=
  | vr_new : validator_reachable ch cs validator_new
  | vr_validate now m v : validator_reachable ch cs v -> validator_reachable ch cs (validate_message_cached ch cs now m v).2
  | vr_clear v : validator_reachable ch cs v -> validator_reachable ch cs (clear_cache v).

Lemma validator_reachable_ok ch cs v : validator_reachable ch cs v -> cache_ok v /\ max_cache_size v = 10000%nat.
Proof.
  induction 1 as [|now m v _ [IH Hmax]|v _ [IH Hmax]].
  - split; [|done]. split; [constructor|]. split; [|apply Nat.le_0_l]. intros i. simpl. rewrite lookup_empty, elem_of_nil. split; [by intros []|done].
  - split; [by apply validate_cached_ok|]. rewrite <-Hmax. unfold validate_message_cached, evict. by repeat case_match.
  - split; [|done]. split; [constructor|]. split; [|apply Nat.le_0_l]. intros i. simpl. rewrite lookup_empty, elem_of_nil. split; [by intros []|done].
Qed.

(** C29: A message is valid exactly when it meets every requirement: its id is the hash of its
    content, its signature verifies, its time, in whole seconds, is within the allowed drift, its parents are
    distinct and not itself, its payload is small enough, it has features on distinct axes with
    digits, and its transfer, if any, is valid.  A result is valid exactly when it records no
    error.  The cache never holds more than its 10000 results, and an uncached message gets the
    result of a fresh validation. *)
Theorem validation_correct ch cs now v m :
  validator_reachable ch cs v ->
  let r := validate_message ch cs now v m in
  (is_valid r = true <-> message_ok ch cs now v m) /\
  is_valid r = bool_decide (errors r = []) /\
  (size (validation_cache (validate_message_cached ch cs now m v).2) <= 10000)%nat /\
  (validation_cache v !! msg_id m = None -> (validate_message_cached ch cs now m v).1 = r).
Proof.
  intros Hr. destruct (validator_reachable_ok ch cs v Hr) as [Hok Hmax]. cbv zeta.
  split; [apply validate_message_valid|]. split; [apply validate_message_result_ok|]. split.
  - pose proof (validate_cached_ok ch cs now m v Hok) as Hok'. rewrite (cache_size _ Hok').
    destruct (validator_reachable_ok _ _ _ (vr_validate ch cs now m v Hr)) as [(_ & _ & Hlen) Hm]. rewrite Hm in Hlen. clear -Hlen. change (Nat.max 1 10000) with 10000%nat in Hlen. exact Hlen.
  - intros Hnone. unfold validate_message_cached. by rewrite Hnone.
Qed.

Definition body_hash (c : CanonicalMessage) : Bytes := cm_data c.
Definition any_signature (_ : AdicMessage) (_ : PublicKey) (s : Signature) : option bool := Some (bool_decide (s = [1])).
Definition sound_message : AdicMessage :=
  mkMessage [5] [] (mkAdicFeatures [mkAxisPhi 0 (mkQpDigits [1] 3)]) (AdicMeta_new 100) [7] [1] None [5].
Definition forged_copy : AdicMessage :=
  mkMessage [5] [] (mkAdicFeatures [mkAxisPhi 0 (mkQpDigits [1] 3)]) (AdicMeta_new 100) [7] [] None [6].

Lemma validation_correct_witness :
  message_ok body_hash any_signature 100 validator_new sound_message.
Proof.
  apply (validation_correct body_hash any_signature 100 validator_new sound_message (vr_new _ _)). vm_compute. reflexivity.
Defined.

(** The cache is keyed by the id a message claims: once a sound message is cached, a forged
    copy with the same id and another body counts as valid, and a forged copy cached first makes
    the sound message invalid. *)
Theorem cached_result_by_claimed_id :
  let run a b := let v := (validate_message_cached body_hash any_signature 100 a validator_new).2 in
    is_valid (validate_message_cached body_hash any_signature 100 b v).1 in
  is_valid (validate_message body_hash any_signature 100 validator_new forged_copy) = false /\
  run sound_message forged_copy = true /\ run forged_copy sound_message = false.
Proof. cbv zeta. split_and!; vm_compute; reflexivity. Qed.
