(* ===== verification/Escrow.v ===== *)
(** * Application escrow

    [adic-app-common/src/escrow.rs] and [LockId] of its [types.rs]: named locks on top of the
    balance manager.  The balances read for the log lines are read, since a read fills the cache
    and can fail; the log lines and their timing are left out.  [hex] is [hex::encode]. *)

From Stdlib Require Import Ascii.
From stdpp Require Import pretty.
From S2P Require Import Prelude F64 Message Amount EconStorage Balance Lock.

Abbreviation LockId := string.

Inductive EscrowType :=
  | StorageCollateral (deal_id : Z) (provider : AccountAddress)
  | StoragePayment (deal_id : Z) (client : AccountAddress)
  | PoUWDeposit (hook_id : MessageId) (worker : AccountAddress)
  | TreasuryGrant (proposal_id : MessageId) (recipient : AccountAddress)
  | CustomEscrow (lock_id : string) (owner : AccountAddress).

Definition show_u64 (n : Z) : string := pretty (Z.to_N n).

Section lock_id.
Context (hex : Bytes -> string).

(** [&address.as_bytes()[..8]]: an address has 32 bytes. *)
Definition short_hex (a : AccountAddress) : string := hex (take 8 a).

Definition to_lock_id (t : EscrowType) : LockId :=
  match t with
  | StorageCollateral deal provider => "storage_collateral_" +:+ show_u64 deal +:+ "_" +:+ short_hex provider
  | StoragePayment deal client => "storage_payment_" +:+ show_u64 deal +:+ "_" +:+ short_hex client
  | PoUWDeposit hook worker => "pouw_deposit_" +:+ hex hook +:+ "_" +:+ short_hex worker
  | TreasuryGrant proposal recipient => "treasury_grant_" +:+ hex proposal +:+ "_" +:+ short_hex recipient
  | CustomEscrow lock_id _ => lock_id
  end.
End lock_id.

Definition escrow_owner (t : EscrowType) : AccountAddress :=
  match t with
  | StorageCollateral _ a | StoragePayment _ a | PoUWDeposit _ a | TreasuryGrant _ a | CustomEscrow _ a => a
  end.

Record LockMetadata := mkLock {
  lk_type : EscrowType;
  lk_amount : AdicAmount;
  lk_epoch : Z;
  lk_owner : AccountAddress;
}.

Inductive EscrowError := EscrowFailed (e : EconError) | LockNotFound (id : LockId).

Record EscrowManager (St : Type) := mkEscrow {
  em_balances : BalanceManager St;
  em_locks : gmap LockId LockMetadata;
}.
Arguments mkEscrow {St}.
Arguments em_balances {St}.
Arguments em_locks {St}.

Definition escrow_new {St} (balances : BalanceManager St) : EscrowManager St := mkEscrow balances ∅.

Section manager.
Context {St : Type} `{!EconomicsStorage St}.
Context (now : Z) (digest : Bytes -> string) (hex : Bytes -> string).
Abbreviation EM := (EscrowManager St).

(** A call of the balance manager, its error turned into [AppError::EscrowError]. *)
Definition on_balances {A} (m : M (BalanceManager St) EconError A) : M EM EscrowError A :=
  mmap_err EscrowFailed (mzoom em_balances (fun b em => mkEscrow b (em_locks em)) m).
Definition update_locks (f : gmap LockId LockMetadata -> gmap LockId LockMetadata) : M EM EscrowError unit :=
  mwrite (fun em => mkEscrow (em_balances em) (f (em_locks em))).

Definition find_lock (id : LockId) : M EM EscrowError LockMetadata :=
  locks ← mread em_locks;
  mopt (locks !! id) (LockNotFound id).

Definition escrow_lock (t : EscrowType) (amount : AdicAmount) (epoch : Z) : M EM EscrowError LockId :=
  on_balances (get_balance now (escrow_owner t));;
  on_balances (lock now (escrow_owner t) amount);;
  on_balances (get_locked_balance (escrow_owner t));;
  update_locks (insert (to_lock_id hex t) (mkLock t amount epoch (escrow_owner t)));;
  mret (to_lock_id hex t).

(** The lock stays tracked: taking it out is left to the caller of [remove_lock]. *)
Definition escrow_release (id : LockId) (to : AccountAddress) : M EM EscrowError unit :=
  metadata ← find_lock id;
  on_balances (get_balance now (lk_owner metadata));;
  on_balances (get_balance now to);;
  on_balances (unlock (lk_owner metadata) (lk_amount metadata));;
  on_balances (transfer now digest (lk_owner metadata) to (lk_amount metadata));;
  on_balances (get_balance now to);;
  mret tt.

Definition escrow_slash (id : LockId) (treasury_account : AccountAddress) : M EM EscrowError unit :=
  metadata ← find_lock id;
  on_balances (get_balance now treasury_account);;
  on_balances (unlock (lk_owner metadata) (lk_amount metadata));;
  on_balances (transfer now digest (lk_owner metadata) treasury_account (lk_amount metadata));;
  on_balances (get_balance now treasury_account);;
  mret tt.

Definition escrow_refund (id : LockId) : M EM EscrowError unit :=
  metadata ← find_lock id;
  on_balances (get_locked_balance (lk_owner metadata));;
  on_balances (unlock (lk_owner metadata) (lk_amount metadata));;
  on_balances (get_locked_balance (lk_owner metadata));;
  mret tt.

Definition get_lock (id : LockId) : M EM EscrowError LockMetadata := find_lock id.
Definition lock_exists (id : LockId) : M EM EscrowError bool := mread (fun em => bool_decide (is_Some (em_locks em !! id))).

Definition remove_lock (id : LockId) : M EM EscrowError unit :=
  find_lock id;;
  update_locks (delete id).
End manager.

(** ** What the operations do *)

Section laws.
Context {St : Type} `{!EconomicsStorage St} `{!EconomicsStorageLaws St}.
Context (now : Z) (digest : Bytes -> string) (hex : Bytes -> string).
Abbreviation EM := (EscrowManager St).
Implicit Types em : EM.

Lemma on_balances_bind {A B} (m : M (BalanceManager St) EconError A) (k : A -> M EM EscrowError B) em bm' a :
  m (em_balances em) = (Ok a, bm') -> (on_balances m ≫= k) em = k a (mkEscrow bm' (em_locks em)).
Proof. intros H. unfold on_balances, mmap_err, mzoom, mbind, M_bind. by rewrite H. Qed.

Lemma on_balances_err {A B} (m : M (BalanceManager St) EconError A) (k : A -> M EM EscrowError B) em bm' e :
  m (em_balances em) = (Err e, bm') -> (on_balances m ≫= k) em = (Err (EscrowFailed e), mkEscrow bm' (em_locks em)).
Proof. intros H. unfold on_balances, mmap_err, mzoom, mbind, M_bind. by rewrite H. Qed.

Lemma find_lock_bind {B} id md (k : LockMetadata -> M EM EscrowError B) em :
  em_locks em !! id = Some md -> (find_lock id ≫= k) em = k md em.
Proof. intros H. unfold find_lock, mread, mopt, mbind, M_bind. simpl. by rewrite H. Qed.

(** A read of a balance: the cache grows, the accounts and locks do not change. *)
Definition read_only (bm bm' : BalanceManager St) : Prop :=
  coherent bm' /\ same_balances bm bm' /\ same_locks bm bm'.

Lemma read_balance a (bm : BalanceManager St) :
  coherent bm -> exists bm', get_balance now a bm = (Ok (bal bm a), bm') /\ read_only bm bm' /\ is_Some (bm_cache bm' !! a).
Proof.
  intros Hc. destruct (get_balance_ok now a bm Hc) as (bm' & Hg & Hs & Hc' & Hi). exists bm'. split; [done|]. split; [|done].
  pose proof (keeps_get_balance now a bm) as Hk. rewrite Hg in Hk. split; [done|]. split; [|done]. intros b. unfold bal. by rewrite Hs.
Qed.

Lemma read_locked a (bm : BalanceManager St) : exists v, get_locked_balance a bm = (Ok v, bm).
Proof.
  unfold get_locked_balance. m_unfold. destruct (bm_cache bm !! a); [by eexists|].
  rewrite get_locked_law. destruct bm. by eexists.
Qed.

(** The payment in the middle of [release] and [slash], and the reads around it. *)
Definition pay_lock (md : LockMetadata) (to : AccountAddress) : M EM EscrowError unit :=
  on_balances (unlock (lk_owner md) (lk_amount md));;
  on_balances (transfer now digest (lk_owner md) to (lk_amount md));;
  on_balances (get_balance now to);;
  mret tt.

Definition lock_funded em (md : LockMetadata) : Prop :=
  0 <= lk_amount md <= held (em_balances em) (lk_owner md) /\ is_Some (bm_cache (em_balances em) !! lk_owner md).

(** The outcome of a payment: the lock is released, and the amount moved if it could be. *)
Definition paid (md : LockMetadata) (to : AccountAddress) em (r : result EscrowError unit) em' : Prop :=
  em_locks em' = em_locks em /\ coherent (em_balances em') /\
  released (lk_owner md) (lk_amount md) (em_balances em) (em_balances em') /\
  (is_err r = false <-> can_transfer (em_balances em) (lk_owner md) to (lk_amount md)) /\
  transferred (negb (is_err r)) (lk_owner md) to (lk_amount md) (em_balances em) (em_balances em').

Lemma pay_lock_ok md to em :
  coherent (em_balances em) -> lock_funded em md -> exists r em', pay_lock md to em = (r, em') /\ paid md to em r em'.
Proof.
  intros Hc [[Ham Hle] Hin].
  destruct (unlock_transfer_ok now digest (lk_owner md) to (lk_amount md) Standard (em_balances em) Hc Ham Hle Hin)
    as (bm1 & bm2 & r & Hu & Ht & Hp & _ & Hc2 & _ & _ & _ & Hrel & Hiff & Hmv).
  unfold pay_lock. rewrite (on_balances_bind _ _ _ _ _ Hu). destruct r as [h|e|]; [| |done].
  - rewrite (on_balances_bind _ _ (mkEscrow bm1 (em_locks em)) bm2 h) by done.
    destruct (read_balance to bm2 Hc2) as (bm3 & Hg & (Hc3 & Hb3 & Hl3) & _).
    rewrite (on_balances_bind _ _ (mkEscrow bm2 (em_locks em)) bm3 (bal bm2 to)) by done.
    exists (Ok tt). eexists. split; [done|]. split; [done|]. split; [done|]. split; [|split; [done|]]; simpl.
    + intros b. rewrite (proj1 (Hl3 b)). apply Hrel.
    + intros b. rewrite Hb3. apply Hmv.
  - rewrite (on_balances_err _ _ (mkEscrow bm1 (em_locks em)) bm2 e) by done.
    eexists (Err _), _. split; [done|]. by split_and!.
Qed.

(** A payment after a read is a payment. *)
Lemma paid_after_read md to em bm r em' :
  read_only (em_balances em) bm -> paid md to (mkEscrow bm (em_locks em)) r em' -> paid md to em r em'.
Proof.
  intros (_ & Hb & Hl) (H1 & H2 & H3 & H4 & H5). split; [done|]. split; [done|]. split; [|split].
  - intros b. rewrite (H3 b). simpl. by rewrite (proj1 (Hl b)).
  - rewrite H4. unfold can_transfer. simpl. by rewrite !Hb.
  - intros b. rewrite (H5 b). simpl. by rewrite Hb.
Qed.

Lemma funded_after_read em bm md : read_only (em_balances em) bm -> lock_funded em md -> lock_funded (mkEscrow bm (em_locks em)) md.
Proof. intros (_ & _ & Hl) [Ha Hi]. split; simpl; [by rewrite (proj1 (Hl _))|by apply Hl]. Qed.

(** Reads one account, then goes on. *)
Lemma read_then a em :
  coherent (em_balances em) ->
  exists bm, read_only (em_balances em) bm /\
    forall B (k : M EM EscrowError B), (on_balances (get_balance now a);; k) em = k (mkEscrow bm (em_locks em)).
Proof.
  clear digest hex. intros Hc. destruct (read_balance a (em_balances em) Hc) as (bm & Hg & Hr & _).
  exists bm. split; [done|]. intros B k. by rewrite (on_balances_bind _ _ _ _ _ Hg).
Qed.

Lemma release_ok id md to em :
  coherent (em_balances em) -> em_locks em !! id = Some md -> lock_funded em md ->
  exists r em', escrow_release now digest id to em = (r, em') /\ paid md to em r em'.
Proof.
  intros Hc Hid Hf. unfold escrow_release. rewrite (find_lock_bind id md) by done.
  destruct (read_then (lk_owner md) em Hc) as (bm1 & Hr1 & ->).
  destruct (read_then to (mkEscrow bm1 (em_locks em)) (proj1 Hr1)) as (bm2 & Hr2 & ->). simpl em_locks.
  pose proof (funded_after_read _ _ md Hr1 Hf) as Hf1. pose proof (funded_after_read _ _ md Hr2 Hf1) as Hf2.
  destruct (pay_lock_ok md to (mkEscrow bm2 (em_locks em)) (proj1 Hr2) Hf2) as (r & em' & Hp & Hpaid).
  exists r, em'. split; [done|]. eapply paid_after_read; [exact Hr1|]. eapply paid_after_read; [exact Hr2|done].
Qed.

Lemma slash_escrow_ok id md to em :
  coherent (em_balances em) -> em_locks em !! id = Some md -> lock_funded em md ->
  exists r em', escrow_slash now digest id to em = (r, em') /\ paid md to em r em'.
Proof.
  intros Hc Hid Hf. unfold escrow_slash. rewrite (find_lock_bind id md) by done.
  destruct (read_then to em Hc) as (bm1 & Hr1 & ->).
  pose proof (funded_after_read _ _ md Hr1 Hf) as Hf1.
  destruct (pay_lock_ok md to (mkEscrow bm1 (em_locks em)) (proj1 Hr1) Hf1) as (r & em' & Hp & Hpaid).
  exists r, em'. split; [done|]. by eapply paid_after_read.
Qed.

Lemma refund_escrow_ok id md em :
  coherent (em_balances em) -> em_locks em !! id = Some md -> lock_funded em md ->
  exists em', escrow_refund id em = (Ok tt, em') /\ em_locks em' = em_locks em /\ coherent (em_balances em') /\
    same_balances (em_balances em) (em_balances em') /\
    released (lk_owner md) (lk_amount md) (em_balances em) (em_balances em').
Proof.
  clear now digest hex. intros Hc Hid [[Ham Hle] Hin]. unfold escrow_refund. rewrite (find_lock_bind id md) by done.
  destruct (read_locked (lk_owner md) (em_balances em)) as [v Hv]. rewrite (on_balances_bind _ _ _ _ _ Hv).
  destruct (unlock_ok (lk_owner md) (lk_amount md) (em_balances em) Hc Ham Hin) as (bm1 & r & Hu & Hc1 & Hb1 & _ & Hr).
  destruct (_ <? lk_amount md) eqn:E; zbool; [lia|]. destruct Hr as [-> Hh].
  rewrite (on_balances_bind _ _ (mkEscrow (em_balances em) (em_locks em)) bm1 tt) by done.
  destruct (read_locked (lk_owner md) bm1) as [v' Hv']. rewrite (on_balances_bind _ _ (mkEscrow bm1 (em_locks em)) bm1 v') by done.
  eexists. split; [done|]. split_and!; try done. intros b. simpl. rewrite Hh. repeat case_decide; subst; lia || done.
Qed.

(** What admits a lock: the unlocked balance covers it, within the cap of the supply. *)
Definition can_lock em (a : AccountAddress) (amount : AdicAmount) : Prop :=
  0 <= amount /\ 0 <= held (em_balances em) a /\ held (em_balances em) a + amount <= bal (em_balances em) a <= MAX_SUPPLY.

Lemma escrow_lock_ok t amount epoch em :
  coherent (em_balances em) -> can_lock em (escrow_owner t) amount ->
  exists em', escrow_lock now hex t amount epoch em = (Ok (to_lock_id hex t), em') /\
    em_locks em' = <[to_lock_id hex t := mkLock t amount epoch (escrow_owner t)]> (em_locks em) /\
    coherent (em_balances em') /\ same_balances (em_balances em) (em_balances em') /\
    is_Some (bm_cache (em_balances em') !! escrow_owner t) /\
    forall b, held (em_balances em') b = held (em_balances em) b + if decide (b = escrow_owner t) then amount else 0.
Proof.
  clear digest. intros Hc (Ham & Hh0 & Hle & Hcap). unfold escrow_lock. set (a := escrow_owner t) in *.
  destruct (read_balance a (em_balances em) Hc) as (bm1 & Hg & (Hc1 & Hb1 & Hl1) & Hin1).
  rewrite (on_balances_bind _ _ _ _ _ Hg).
  destruct (lock_ok now a amount bm1 Hc1 Hin1) as (bm2 & r & Hl & Hc2 & Hb2 & Hin2 & Hr).
  rewrite Hb1, (proj1 (Hl1 a)) in Hr.
  destruct (_ <? amount) eqn:E; zbool; [amount_unfold; lia|]. destruct Hr as [-> Hh].
  rewrite (on_balances_bind _ _ (mkEscrow bm1 (em_locks em)) bm2 (tt : unit)) by done.
  destruct (read_locked a bm2) as [v Hv]. rewrite (on_balances_bind _ _ (mkEscrow bm2 (em_locks em)) bm2 v) by done.
  eexists. split; [done|]. simpl. split; [done|]. split; [done|]. split; [|split; [by apply Hin2|]].
  - intros b. by rewrite Hb2.
  - intros b. rewrite Hh, (proj1 (Hl1 b)). case_decide; [subst b; amount_unfold|]; lia.
Qed.

(** A lock that can no longer be covered is refused, and then no lock or balance changes. *)
Lemma escrow_lock_refused t amount epoch em :
  coherent (em_balances em) -> amount_saturating_sub (bal (em_balances em) (escrow_owner t)) (held (em_balances em) (escrow_owner t)) < amount ->
  is_err (escrow_lock now hex t amount epoch em).1 = true /\ em_locks (escrow_lock now hex t amount epoch em).2 = em_locks em.
Proof.
  clear digest. intros Hc Hlt. unfold escrow_lock. set (a := escrow_owner t) in *.
  destruct (read_balance a (em_balances em) Hc) as (bm1 & Hg & (Hc1 & Hb1 & Hl1) & Hin1).
  rewrite (on_balances_bind _ _ _ _ _ Hg).
  destruct (lock_ok now a amount bm1 Hc1 Hin1) as (bm2 & r & Hl & _ & _ & _ & Hr).
  rewrite Hb1, (proj1 (Hl1 a)) in Hr. destruct (_ <? amount) eqn:E; zbool; [|lia].
  destruct Hr as [Hr _]. destruct r as [u|e|]; try done. by rewrite (on_balances_err _ _ (mkEscrow bm1 (em_locks em)) bm2 e).
Qed.

(** The three ways a lock that was just taken ends. *)
Definition settles_as_transfer (run : M EM EscrowError unit) (from to : AccountAddress) (amount : AdicAmount) em em1 : Prop :=
  exists r em2, run em1 = (r, em2) /\
    (is_err r = false <-> can_transfer (em_balances em) from to amount) /\
    transferred (negb (is_err r)) from to amount (em_balances em) (em_balances em2) /\
    forall b, held (em_balances em2) b = held (em_balances em) b.

(** An escrow that can be covered is taken, tracked under its id and moves no balance; what
    is held for its owner grows by the amount.  Refunding it restores every account, balance and
    lock alike; releasing or slashing it moves exactly the amount to the recipient, when a plain
    transfer would have been possible, and otherwise moves nothing, but the lock is gone either
    way.  One that cannot be covered is refused and not tracked. *)
Theorem escrow_settles t amount epoch to em :
  coherent (em_balances em) ->
  (can_lock em (escrow_owner t) amount ->
   let (r, em1) := escrow_lock now hex t amount epoch em in
   r = Ok (to_lock_id hex t) /\ em_locks em1 !! to_lock_id hex t = Some (mkLock t amount epoch (escrow_owner t)) /\
   same_balances (em_balances em) (em_balances em1) /\
   (forall b, held (em_balances em1) b = held (em_balances em) b + if decide (b = escrow_owner t) then amount else 0) /\
   (exists em2, escrow_refund (to_lock_id hex t) em1 = (Ok tt, em2) /\ same_balances (em_balances em) (em_balances em2) /\
      forall b, held (em_balances em2) b = held (em_balances em) b) /\
   settles_as_transfer (escrow_release now digest (to_lock_id hex t) to) (escrow_owner t) to amount em em1 /\
   settles_as_transfer (escrow_slash now digest (to_lock_id hex t) to) (escrow_owner t) to amount em em1) /\
  (amount_saturating_sub (bal (em_balances em) (escrow_owner t)) (held (em_balances em) (escrow_owner t)) < amount ->
   is_err (escrow_lock now hex t amount epoch em).1 = true /\ em_locks (escrow_lock now hex t amount epoch em).2 = em_locks em).
Proof.
  intros Hc. split; [|by apply escrow_lock_refused]. intros Hcan. set (a := escrow_owner t) in *.
  destruct (escrow_lock_ok t amount epoch em Hc Hcan) as (em1 & -> & Hlocks & Hc1 & Hb1 & Hin1 & Hh1). fold a in Hin1, Hh1, Hlocks.
  set (md := mkLock t amount epoch a) in *.
  assert (em_locks em1 !! to_lock_id hex t = Some md) as Hid by (by rewrite Hlocks, lookup_insert_eq).
  assert (lock_funded em1 md) as Hf.
  { destruct Hcan as (? & ? & _). split; [|done]. simpl. rewrite Hh1, decide_True by done. lia. }
  assert (forall em2, released (lk_owner md) (lk_amount md) (em_balances em1) (em_balances em2) ->
    forall b, held (em_balances em2) b = held (em_balances em) b) as Hback.
  { intros em2 Hr b. rewrite (Hr b), Hh1. simpl. repeat case_decide; subst; lia || done. }
  assert (forall r em2, paid md to em1 r em2 ->
    (is_err r = false <-> can_transfer (em_balances em) a to amount) /\
    transferred (negb (is_err r)) a to amount (em_balances em) (em_balances em2) /\
    forall b, held (em_balances em2) b = held (em_balances em) b) as Hpay.
  { intros r em2 (_ & _ & Hr & Hiff & Hmv). split; [|split; [|by apply Hback]].
    - rewrite Hiff. unfold can_transfer. simpl. by rewrite !Hb1.
    - intros b. rewrite (Hmv b). simpl. by rewrite Hb1. }
  split; [done|]. split; [done|]. split; [done|]. split; [done|]. split; [|split].
  - destruct (refund_escrow_ok (to_lock_id hex t) md em1 Hc1 Hid Hf) as (em2 & Hr & _ & _ & Hb2 & Hrel).
    exists em2. split; [done|]. split; [|by apply Hback]. intros b. by rewrite Hb2.
  - destruct (release_ok (to_lock_id hex t) md to em1 Hc1 Hid Hf) as (r & em2 & Hr & Hp). exists r, em2. split; [done|]. by apply Hpay.
  - destruct (slash_escrow_ok (to_lock_id hex t) md to em1 Hc1 Hid Hf) as (r & em2 & Hr & Hp). exists r, em2. split; [done|]. by apply Hpay.
Qed.
End laws.

(** ** Instances *)

(** A concrete encoder. *)
Definition hex_digit (d : Z) : ascii :=
  ascii_of_N (Z.to_N (if d <? 10 then 48 + d else 87 + d)).
Fixpoint hex_encode (bs : Bytes) : string :=
  match bs with
  | [] => EmptyString
  | b :: bs => String (hex_digit (b / 16)) (String (hex_digit (b mod 16)) (hex_encode bs))
  end.


Definition payment : EscrowType := StoragePayment 7 alice.
Definition carol : AccountAddress := replicate 32 3.

Lemma escrow_settles_witness :
  to_lock_id hex_encode payment = "storage_payment_7_0101010101010101" /\
  let em1 := (escrow_lock 0 hex_encode payment 40 1 (escrow_new alice_manager)).2 in
  held (em_balances em1) alice = 40 /\
  settles_as_transfer (escrow_release 0 no_digest (to_lock_id hex_encode payment) bob) alice bob 40 (escrow_new alice_manager) em1.
Proof.
  split; [vm_compute; reflexivity|].
  destruct (escrow_settles 0 no_digest hex_encode payment 40 1 bob (escrow_new alice_manager)) as [H _]; [apply alice_coherent|].
  cbv zeta. assert (can_lock (escrow_new alice_manager) alice 40) as Hcan by (vm_compute; repeat split; discriminate).
  specialize (H Hcan). revert H. destruct (escrow_lock 0 hex_encode payment 40 1 (escrow_new alice_manager)) as [r em1] eqn:E.
  intros (_ & _ & _ & Hh & _ & Hs & _). split; [|exact Hs]. simpl. rewrite (Hh alice). vm_compute. reflexivity.
Defined.

(** A released lock stays tracked, so it can be released again as long as its owner has
    anything else locked: of two payments of 40 that Alice has in escrow, releasing the first
    one twice pays Bob 80, and the second one can then neither be released nor refunded. *)
Theorem released_twice :
  let locked := (escrow_lock 1 hex_encode (StoragePayment 8 alice) 40 1 (escrow_lock 0 hex_encode payment 40 1 (escrow_new alice_manager)).2).2 in
  let (r1, em1) := escrow_release 2 no_digest (to_lock_id hex_encode payment) bob locked in
  let (r2, em2) := escrow_release 3 no_digest (to_lock_id hex_encode payment) bob em1 in
  r1 = Ok tt /\ r2 = Ok tt /\ bal (em_balances em2) bob = 80 /\
  is_err (escrow_release 4 no_digest (to_lock_id hex_encode (StoragePayment 8 alice)) carol em2).1 = true /\
  is_err (escrow_refund (to_lock_id hex_encode (StoragePayment 8 alice)) em2).1 = true.
Proof. vm_compute. repeat split. Qed.
