(* ===== verification/Vrf.v ===== *)
(** * Commit-reveal randomness

    [adic-vrf/src/messages.rs], [canonical.rs] and [service.rs].  [blake3] is the hash,
    [reputation] what the reputation tracker answers, at each submission anew; metrics, log lines
    and the test helper [set_test_randomness] are left out. *)

From Stdlib Require Import Ascii.
From S2P Require Import Prelude F64 Padic Message.

Record VRFCommit := mkCommit {
  cm_message : AdicMessage;
  cm_target_epoch : Z;
  cm_commitment : Bytes;
  cm_committer : PublicKey;
  cm_committer_reputation : f64;
}.

Record VRFOpen := mkOpen {
  op_message : AdicMessage;
  op_target_epoch : Z;
  op_ref_commit : MessageId;
  op_vrf_proof : Bytes;
  op_public_key : PublicKey;
}.

Definition commit_id (c : VRFCommit) : MessageId := msg_id (cm_message c).
Definition open_id (o : VRFOpen) : MessageId := msg_id (op_message o).

Record VRFState := mkVRFState {
  vs_epoch : Z;
  vs_commits : list VRFCommit;
  vs_reveals : list VRFOpen;
  vs_is_finalized : bool;
  vs_randomness : option Bytes;
}.

Definition vrf_state_new (epoch : Z) : VRFState := mkVRFState epoch [] [] false None.
Definition add_commit (c : VRFCommit) (s : VRFState) : VRFState :=
  mkVRFState (vs_epoch s) (vs_commits s ++ [c]) (vs_reveals s) (vs_is_finalized s) (vs_randomness s).
Definition add_reveal (o : VRFOpen) (s : VRFState) : VRFState :=
  mkVRFState (vs_epoch s) (vs_commits s) (vs_reveals s ++ [o]) (vs_is_finalized s) (vs_randomness s).
Definition vrf_finalize (r : Bytes) (s : VRFState) : VRFState :=
  mkVRFState (vs_epoch s) (vs_commits s) (vs_reveals s) true (Some r).

Record VRFConfig := mkVRFConfig {
  min_committer_reputation : f64;
  reveal_depth : Z;
  genesis_root : Bytes;
}.
Definition VRFConfig_default : VRFConfig := mkVRFConfig (f64_of_Z 50) 10 (replicate 32 0).

Inductive VRFError :=
  | InsufficientReputation (required actual : f64)
  | CommitNotFound (epoch : Z)
  | RevealVerificationFailed
  | RandomnessNotFinalized (epoch : Z)
  | CommitmentMismatch (expected actual : Bytes)
  | RevealDeadlinePassed (epoch : Z)
  | DuplicateCommit (committer : PublicKey) (epoch : Z)
  | NoReveals (epoch : Z).

Record VRFService := mkVRF {
  vrf_config : VRFConfig;
  vrf_states : gmap Z VRFState;
  vrf_roots : gmap Z Bytes;
}.

Definition vrf_new (config : VRFConfig) : VRFService := mkVRF config ∅ {[0 := genesis_root config]}.

(** [combined_proof[i] ^= byte], while there is a byte to combine it with. *)
Fixpoint xor_bytes (acc bs : Bytes) : Bytes :=
  match acc, bs with
  | a :: acc, b :: bs => Z.lxor a b :: xor_bytes acc bs
  | acc, _ => acc
  end.

Record CanonicalRandomness := mkCanonical {
  cr_epoch : Z;
  cr_randomness : Bytes;
  num_contributors : nat;
}.

Section service.
Context (blake3 : Bytes -> Bytes) (reputation : PublicKey -> f64).

Definition verify_commitment (c : VRFCommit) (vrf_proof : Bytes) : bool :=
  bool_decide (blake3 vrf_proof = cm_commitment c).
Definition compute_commitment (o : VRFOpen) : Bytes := blake3 (op_vrf_proof o).

(** The loop over the reveals: the combined proof and the contributors. *)
Definition combine (epoch : Z) (acc : Bytes * nat) (o : VRFOpen) : Bytes * nat :=
  if op_target_epoch o =? epoch then (xor_bytes acc.1 (blake3 (op_vrf_proof o)), S acc.2) else acc.

Definition compute_canonical_randomness (epoch : Z) (root_prev : Bytes) (reveals : list VRFOpen) : CanonicalRandomness :=
  let '(combined, contributors) := foldl (combine epoch) (replicate 32 0, 0%nat) reveals in
  mkCanonical epoch (blake3 (root_prev ++ combined)) contributors.

Definition compute_challenge (randomness : Bytes) (domain : string) (params : list Bytes) : Bytes :=
  blake3 (str_bytes domain ++ [0] ++ randomness ++ concat params).

Definition compute_vrf_score (randomness : Bytes) (domain : string) (axis_id : nat) (node_id axis_ball : Bytes) : Bytes :=
  blake3 (randomness ++ str_bytes domain ++ [0] ++ to_le_bytes 8 (Z.of_nat axis_id) ++ node_id ++ axis_ball).

Definition update_states (f : gmap Z VRFState -> gmap Z VRFState) : M VRFService VRFError unit :=
  mwrite (fun s => mkVRF (vrf_config s) (f (vrf_states s)) (vrf_roots s)).

Definition submit_commit (c : VRFCommit) : M VRFService VRFError unit :=
  config ← mread vrf_config;
  mbail (f64_ltb (reputation (cm_committer c)) (min_committer_reputation config))
    (InsufficientReputation (min_committer_reputation config) (reputation (cm_committer c)));;
  states ← mread vrf_states;
  let state := default (vrf_state_new (cm_target_epoch c)) (states !! cm_target_epoch c) in
  update_states (insert (cm_target_epoch c) state);;
  mbail (existsb (fun c' => bool_decide (cm_committer c' = cm_committer c)) (vs_commits state))
    (DuplicateCommit (cm_committer c) (cm_target_epoch c));;
  update_states (insert (cm_target_epoch c) (add_commit c state)).

(** Whether the reveal was made before is not asked. *)
Definition submit_reveal (o : VRFOpen) (current_epoch : Z) : M VRFService VRFError unit :=
  config ← mread vrf_config;
  mbail (to_u64 (op_target_epoch o + reveal_depth config) <? current_epoch) (RevealDeadlinePassed (op_target_epoch o));;
  states ← mread vrf_states;
  state ← mopt (states !! op_target_epoch o) (CommitNotFound (op_target_epoch o));
  commit ← mopt (List.find (fun c => bool_decide (commit_id c = op_ref_commit o)) (vs_commits state)) RevealVerificationFailed;
  mbail (negb (verify_commitment commit (op_vrf_proof o))) (CommitmentMismatch (cm_commitment commit) (compute_commitment o));;
  update_states (insert (op_target_epoch o) (add_reveal o state)).

(** [epoch.saturating_sub(1)]; [unwrap] of the randomness of a finalized state. *)
Definition finalize_epoch (epoch : Z) : M VRFService VRFError Bytes :=
  config ← mread vrf_config;
  states ← mread vrf_states;
  state ← mopt (states !! epoch) (CommitNotFound epoch);
  if (vs_is_finalized state : bool) then
    match vs_randomness state with Some r => mret r | None => mpanic end
  else
    mbail (bool_decide (vs_reveals state = [])) (NoReveals epoch);;
    roots ← mread vrf_roots;
    let prev_root := default (genesis_root config) (roots !! u64_saturating_sub epoch 1) in
    let canonical := compute_canonical_randomness epoch prev_root (vs_reveals state) in
    update_states (insert epoch (vrf_finalize (cr_randomness canonical) state));;
    mwrite (fun s => mkVRF (vrf_config s) (vrf_states s) (<[epoch := cr_randomness canonical]> (vrf_roots s)));;
    mret (cr_randomness canonical).

(** The read operations, as functions of the service. *)
Definition finalized_randomness (s : VRFService) (epoch : Z) : option Bytes :=
  state ← vrf_states s !! epoch;
  if (vs_is_finalized state : bool) then vs_randomness state else None.

(** A finalized epoch without randomness makes the code's [unwrap] panic; that none exists is
    part of [vrf_ok]. *)
Definition get_canonical_randomness (s : VRFService) (epoch : Z) : result VRFError Bytes :=
  let finalized := fun e => bool_decide (vs_is_finalized <$> vrf_states s !! e = Some true) in
  let unwrap := fun e => match vrf_states s !! e ≫= vs_randomness with Some r => Ok r | None => Panic end in
  if finalized epoch then unwrap epoch
  else if (0 <? epoch) && finalized (epoch - 1) then unwrap (epoch - 1)
  else Err (RandomnessNotFinalized epoch).

Definition compute_challenge_for_epoch (s : VRFService) (epoch : Z) (domain : string) (params : list Bytes)
    : result VRFError Bytes :=
  let? randomness := get_canonical_randomness s epoch in Ok (compute_challenge randomness domain params).

Definition compute_vrf_score_for_epoch (s : VRFService) (epoch : Z) (domain : string) (axis_id : nat)
    (node_id axis_ball : Bytes) : result VRFError Bytes :=
  let? randomness := get_canonical_randomness s epoch in Ok (compute_vrf_score randomness domain axis_id node_id axis_ball).

Definition vrf_get_state (s : VRFService) (epoch : Z) : option VRFState := vrf_states s !! epoch.
Definition get_commit_count (s : VRFService) (epoch : Z) : nat := default 0%nat (length ∘ vs_commits <$> vrf_states s !! epoch).
Definition get_reveal_count (s : VRFService) (epoch : Z) : nat := default 0%nat (length ∘ vs_reveals <$> vrf_states s !! epoch).
End service.

(** ** The combined proof *)

Lemma xor_bytes_twice acc bs : xor_bytes (xor_bytes acc bs) bs = acc.
Proof.
  revert bs. induction acc as [|a acc IH]; intros [|b bs]; simpl; [done..|].
  by rewrite IH, Z.lxor_assoc, Z.lxor_nilpotent, Z.lxor_0_r.
Qed.

Lemma xor_bytes_comm acc bs cs : xor_bytes (xor_bytes acc bs) cs = xor_bytes (xor_bytes acc cs) bs.
Proof.
  revert bs cs. induction acc as [|a acc IH]; intros [|b bs] [|c cs]; simpl; [done..|].
  rewrite IH. f_equal. by rewrite !Z.lxor_assoc, (Z.lxor_comm b).
Qed.

Section laws.
Context (blake3 : Bytes -> Bytes).
Implicit Types (s : VRFService) (reputation : PublicKey -> f64).

Lemma combine_comm epoch acc o1 o2 :
  combine blake3 epoch (combine blake3 epoch acc o1) o2 = combine blake3 epoch (combine blake3 epoch acc o2) o1.
Proof.
  unfold combine. destruct (op_target_epoch o1 =? epoch), (op_target_epoch o2 =? epoch); simpl; [|done..].
  by rewrite xor_bytes_comm.
Qed.

Lemma combine_Permutation epoch acc os1 os2 :
  os1 ≡ₚ os2 -> foldl (combine blake3 epoch) acc os1 = foldl (combine blake3 epoch) acc os2.
Proof.
  intros H. revert acc.
  induction H as [|o os1 os2 _ IH|o1 o2 os|os1 os2 os3 _ IH1 _ IH2]; intros acc; simpl; [done|apply IH|by rewrite combine_comm|].
  by rewrite IH1, IH2.
Qed.

(** *** Runs of the service *)

(** A commit is judged by the reputations the tracker holds when it is submitted. *)
Inductive VrfOp := VCommit (c : VRFCommit) (reputation : PublicKey -> f64) | VReveal (o : VRFOpen) (current_epoch : Z) | VFinalize (epoch : Z).

Definition vrf_step (op : VrfOp) (s : VRFService) : VRFService :=
  match op with
  | VCommit c reputation => (submit_commit reputation c s).2
  | VReveal o now => (submit_reveal blake3 o now s).2
  | VFinalize e => (finalize_epoch blake3 e s).2
  end.

Definition vrf_run (ops : list VrfOp) (s : VRFService) : VRFService := foldl (fun s op => vrf_step op s) s ops.

(** A commit whose submission found the committer with the required reputation. *)
Definition trusted_commit (config : VRFConfig) (ops : list VrfOp) (c : VRFCommit) : Prop :=
  exists reputation, VCommit c reputation ∈ ops /\
    f64_ltb (reputation (cm_committer c)) (min_committer_reputation config) = false.

(** What is recorded for an epoch after the operations [ops]. *)
Record epoch_ok (config : VRFConfig) (ops : list VrfOp) (e : Z) (st : VRFState) : Prop := {
  eo_finalized : vs_is_finalized st = true -> is_Some (vs_randomness st);
  eo_committers : NoDup (cm_committer <$> vs_commits st);
  eo_commits c : c ∈ vs_commits st -> cm_target_epoch c = e /\ trusted_commit config ops c;
  eo_reveals o : o ∈ vs_reveals st -> op_target_epoch o = e /\
    exists c, c ∈ vs_commits st /\ commit_id c = op_ref_commit o /\ cm_commitment c = blake3 (op_vrf_proof o);
}.

Definition vrf_ok (ops : list VrfOp) s : Prop :=
  forall e st, vrf_states s !! e = Some st -> epoch_ok (vrf_config s) ops e st.

Lemma vrf_new_ok config : vrf_ok [] (vrf_new config).
Proof. intros e st. simpl. by rewrite lookup_empty. Qed.

Lemma epoch_new_ok config ops e : epoch_ok config ops e (vrf_state_new e).
Proof. split; simpl; [done|constructor|by intros c ?%elem_of_nil|by intros o ?%elem_of_nil]. Qed.

Lemma epoch_ok_more config ops ops' e st : ops ⊆ ops' -> epoch_ok config ops e st -> epoch_ok config ops' e st.
Proof.
  intros Hops [H1 H2 H3 H4]. split; [done..| |done]. intros c Hc. destruct (H3 c Hc) as [He (rep & Hin & Hrep)].
  split; [done|]. exists rep. by split; [apply Hops|].
Qed.

Lemma vrf_ok_insert ops s e st :
  vrf_ok ops s -> epoch_ok (vrf_config s) ops e st ->
  vrf_ok ops (mkVRF (vrf_config s) (<[e := st]> (vrf_states s)) (vrf_roots s)).
Proof. intros Hs Hst e' st'. simpl. intros [[<- <-]|[_ H]]%lookup_insert_Some; [done|by apply Hs]. Qed.

(** The three operations, as equations. *)
Lemma submit_commit_eq reputation c s :
  let st := default (vrf_state_new (cm_target_epoch c)) (vrf_states s !! cm_target_epoch c) in
  submit_commit reputation c s =
  if f64_ltb (reputation (cm_committer c)) (min_committer_reputation (vrf_config s))
  then (Err (InsufficientReputation (min_committer_reputation (vrf_config s)) (reputation (cm_committer c))), s)
  else if decide (cm_committer c ∈ cm_committer <$> vs_commits st)
  then (Err (DuplicateCommit (cm_committer c) (cm_target_epoch c)), s)
  else (Ok tt, mkVRF (vrf_config s) (<[cm_target_epoch c := add_commit c st]> (vrf_states s)) (vrf_roots s)).
Proof.
  intros st. unfold submit_commit, update_states, mbind, M_bind, mread, mbail, mwrite, mret, M_ret, mfail.
  destruct (f64_ltb _ _); [done|]. fold st.
  destruct (existsb _ (vs_commits st)) eqn:E.
  - apply existsb_exists in E as (c' & Hin%list_elem_of_In & Hc%bool_decide_eq_true_1).
    rewrite decide_True by (rewrite <-Hc; by apply list_elem_of_fmap_2).
    destruct (vrf_states s !! cm_target_epoch c) as [st'|] eqn:Es; [|by apply elem_of_nil in Hin].
    do 2 f_equal. destruct s as [cf sts rs]. simpl in *. by rewrite insert_id.
  - rewrite decide_False; [simpl; by rewrite insert_insert_eq|].
    intros (c' & Hc & Hin)%list_elem_of_fmap. apply not_true_iff_false in E. apply E, existsb_exists.
    exists c'. split; [by apply list_elem_of_In|by apply bool_decide_eq_true_2].
Qed.

Definition accepts_reveal (o : VRFOpen) (now : Z) s (st : VRFState) (c : VRFCommit) : Prop :=
  now <= to_u64 (op_target_epoch o + reveal_depth (vrf_config s)) /\ vrf_states s !! op_target_epoch o = Some st /\
  List.find (fun c => bool_decide (commit_id c = op_ref_commit o)) (vs_commits st) = Some c /\
  cm_commitment c = blake3 (op_vrf_proof o).

Lemma submit_reveal_inv o now s r s' :
  submit_reveal blake3 o now s = (r, s') ->
  (is_err r = true /\ s' = s) \/
  exists st c, accepts_reveal o now s st c /\ r = Ok tt /\
    s' = mkVRF (vrf_config s) (<[op_target_epoch o := add_reveal o st]> (vrf_states s)) (vrf_roots s).
Proof.
  unfold submit_reveal, update_states, mbind, M_bind, mread, mbail, mopt, mwrite, mret, M_ret, mfail.
  destruct (_ <? now) eqn:E; [intros [= <- <-]; by left|]. zbool.
  destruct (vrf_states s !! op_target_epoch o) as [st|] eqn:Es; [|intros [= <- <-]; by left].
  destruct (List.find _ _) as [c|] eqn:Ec; [|intros [= <- <-]; by left].
  unfold verify_commitment. case_bool_decide as Hb; simpl; intros [= <- <-]; [right|by left].
  exists st, c. by split_and!.
Qed.

Lemma submit_reveal_accepts o now s st c :
  accepts_reveal o now s st c ->
  submit_reveal blake3 o now s =
    (Ok tt, mkVRF (vrf_config s) (<[op_target_epoch o := add_reveal o st]> (vrf_states s)) (vrf_roots s)).
Proof.
  intros (H1 & H2 & H3 & H4). unfold submit_reveal, update_states, mbind, M_bind, mread, mbail, mopt, mwrite, mret, M_ret, mfail.
  replace (_ <? now) with false by (symmetry; apply Z.ltb_ge; lia). rewrite H2, H3. unfold verify_commitment.
  by rewrite bool_decide_true.
Qed.

Definition epoch_root s (e : Z) : Bytes := default (genesis_root (vrf_config s)) (vrf_roots s !! u64_saturating_sub e 1).

Lemma finalize_epoch_eq e s :
  finalize_epoch blake3 e s =
  match vrf_states s !! e with
  | None => (Err (CommitNotFound e), s)
  | Some st =>
      if vs_is_finalized st then match vs_randomness st with Some r => (Ok r, s) | None => (Panic, s) end
      else if decide (vs_reveals st = []) then (Err (NoReveals e), s)
      else let r := cr_randomness (compute_canonical_randomness blake3 e (epoch_root s e) (vs_reveals st)) in
           (Ok r, mkVRF (vrf_config s) (<[e := vrf_finalize r st]> (vrf_states s)) (<[e := r]> (vrf_roots s)))
  end.
Proof.
  unfold finalize_epoch, update_states, mbind, M_bind, mread, mbail, mopt, mwrite, mret, M_ret, mfail, mpanic.
  destruct (vrf_states s !! e) as [st|]; [|done]. destruct (vs_is_finalized st); [by destruct (vs_randomness st)|].
  case_bool_decide; by case_decide.
Qed.

(** *** The invariant *)

Lemma vrf_step_ok ops op s :
  vrf_ok ops s -> vrf_ok (ops ++ [op]) (vrf_step op s) /\ vrf_config (vrf_step op s) = vrf_config s.
Proof.
  intros Hs0. assert (vrf_ok (ops ++ [op]) s) as Hs by (intros e st H; eapply epoch_ok_more; [|by apply Hs0]; set_solver).
  clear Hs0. destruct op as [c rep|o now|e]; simpl.
  - rewrite submit_commit_eq. destruct (f64_ltb _ _) eqn:Er; [done|]. case_decide as Hd; [done|]. split; [|done].
    simpl. apply vrf_ok_insert; [done|].
    assert (epoch_ok (vrf_config s) (ops ++ [VCommit c rep]) (cm_target_epoch c)
      (default (vrf_state_new (cm_target_epoch c)) (vrf_states s !! cm_target_epoch c))) as Hst
      by (destruct (vrf_states s !! cm_target_epoch c) as [st|] eqn:E; [by apply Hs|apply epoch_new_ok]).
    destruct Hst as [H1 H2 H3 H4]. split; simpl; [done| | |].
    + rewrite fmap_app. apply NoDup_app. split; [done|]. split; [|apply NoDup_singleton].
      intros x Hx. simpl. rewrite list_elem_of_singleton. by intros ->.
    + intros c' [Hc|Hc%list_elem_of_singleton]%elem_of_app; [by apply H3|]. subst c'. split; [done|].
      exists rep. split; [|done]. apply elem_of_app. right. left.
    + intros o Ho. destruct (H4 o Ho) as (He & c' & Hc & ?). split; [done|]. exists c'. split; [set_solver|done].
  - destruct (submit_reveal blake3 o now s) as [r s'] eqn:E. simpl.
    destruct (submit_reveal_inv o now s r s' E) as [[_ ->]|(st & c & (_ & Hst & Hf & Hc) & _ & ->)]; [done|].
    split; [|done]. apply vrf_ok_insert; [done|]. destruct (Hs _ st Hst) as [H1 H2 H3 H4]. split; simpl; [done..|].
    intros o' [Ho|Ho%list_elem_of_singleton]%elem_of_app; [by apply H4|]. subst o'. split; [done|]. exists c.
    apply find_some in Hf as [Hin%list_elem_of_In Hid%bool_decide_eq_true_1]. done.
  - rewrite finalize_epoch_eq. destruct (vrf_states s !! e) as [st|] eqn:E; [|done].
    destruct (vs_is_finalized st) eqn:Ef; [by destruct (vs_randomness st)|]. case_decide; [done|]. split; [|done].
    simpl. intros e' st'. simpl. intros [[<- <-]|[_ H']]%lookup_insert_Some; [|by apply Hs].
    destruct (Hs e st E) as [H1 H2 H3 H4]. split; simpl; done.
Qed.

Lemma vrf_run_ok ops s pre :
  vrf_ok pre s -> vrf_ok (pre ++ ops) (vrf_run ops s) /\ vrf_config (vrf_run ops s) = vrf_config s.
Proof.
  revert s pre. induction ops as [|op ops IH]; intros s pre Hs; [by rewrite app_nil_r|].
  destruct (vrf_step_ok pre op s Hs) as [H1 H2]. destruct (IH _ _ H1) as [H3 H4].
  rewrite <-H2, <-H4. by rewrite <-app_assoc in H3.
Qed.

(** *** Finalized randomness *)

Lemma vrf_step_final op s e r :
  finalized_randomness s e = Some r -> finalized_randomness (vrf_step op s) e = Some r.
Proof.
  unfold finalized_randomness. intros H. destruct (vrf_states s !! e) as [st0|] eqn:E; [|done]. simpl in H.
  destruct (vs_is_finalized st0) eqn:Ef; [|done].
  assert (forall e' st', (e' = e -> vs_is_finalized st' = true /\ vs_randomness st' = Some r) ->
    (st ← <[e' := st']> (vrf_states s) !! e; if vs_is_finalized st then vs_randomness st else None) = Some r) as Hins.
  { intros e' st' Hst. rewrite lookup_insert. case_decide as He; [|rewrite E; simpl; by rewrite Ef].
    destruct (Hst He) as [Hf Hr]. simpl. by rewrite Hf. }
  destruct op as [c rep|o now|e']; simpl.
  - rewrite submit_commit_eq. destruct (f64_ltb _ _); [simpl; rewrite E; simpl; by rewrite Ef|].
    case_decide; [simpl; rewrite E; simpl; by rewrite Ef|]. simpl. apply Hins. intros ->. rewrite E. simpl. done.
  - destruct (submit_reveal blake3 o now s) as [r' s'] eqn:Er. simpl.
    destruct (submit_reveal_inv o now s r' s' Er) as [[_ ->]|(st & c & (_ & Hst & _) & _ & ->)];
      [rewrite E; simpl; by rewrite Ef|]. simpl. apply Hins. intros He. subst e. rewrite E in Hst. injection Hst as <-. done.
  - rewrite finalize_epoch_eq. destruct (vrf_states s !! e') as [st|] eqn:E'; [|simpl; rewrite E; simpl; by rewrite Ef].
    destruct (vs_is_finalized st) eqn:Ef'; [destruct (vs_randomness st); simpl; rewrite E; simpl; by rewrite Ef|].
    case_decide; [simpl; rewrite E; simpl; by rewrite Ef|]. simpl. apply Hins. intros ->. congruence.
Qed.

Lemma finalized_get s e r :
  finalized_randomness s e = Some r ->
  get_canonical_randomness s e = Ok r /\ finalize_epoch blake3 e s = (Ok r, s).
Proof.
  unfold finalized_randomness, get_canonical_randomness. rewrite finalize_epoch_eq.
  destruct (vrf_states s !! e) as [st|] eqn:E; [|done]. simpl. destruct (vs_is_finalized st) eqn:Ef; [|done]. intros ->.
  by rewrite bool_decide_true.
Qed.

(** Once an epoch is finalized its randomness is settled: no commit, reveal or further
    finalization, in any order and for any epoch, changes it, and both [get_canonical_randomness]
    and [finalize_epoch] keep returning it. *)
Theorem vrf_randomness_final s e r ops :
  finalized_randomness s e = Some r ->
  finalized_randomness (vrf_run ops s) e = Some r /\ get_canonical_randomness (vrf_run ops s) e = Ok r /\
  finalize_epoch blake3 e (vrf_run ops s) = (Ok r, vrf_run ops s).
Proof.
  intros H. assert (finalized_randomness (vrf_run ops s) e = Some r) as H'.
  { revert s H. induction ops as [|op ops IH]; intros s H; [done|]. apply IH. by apply vrf_step_final. }
  split; [done|]. by apply finalized_get.
Qed.

(** C35: In every state the service reaches, whatever the reputations at each submission, the
    committers of an epoch are distinct, each of its commits was submitted when its committer had
    the required reputation, every recorded reveal opens a commitment of that epoch, and
    finalizing an epoch that has reveals succeeds with a hash of the previous root and of the
    exclusive or of the hashed proofs of the recorded reveals, whatever the order they arrived
    in; a reveal recorded twice counts twice. *)
Theorem vrf_randomness_committed config ops e st :
  let s := vrf_run ops (vrf_new config) in
  vrf_states s !! e = Some st ->
  NoDup (cm_committer <$> vs_commits st) /\
  (forall c, c ∈ vs_commits st -> exists reputation, VCommit c reputation ∈ ops /\
     f64_ltb (reputation (cm_committer c)) (min_committer_reputation config) = false) /\
  (forall o, o ∈ vs_reveals st ->
     exists c, c ∈ vs_commits st /\ commit_id c = op_ref_commit o /\ cm_commitment c = blake3 (op_vrf_proof o)) /\
  (vs_reveals st <> [] -> vs_is_finalized st = false ->
     forall reveals, reveals ≡ₚ vs_reveals st ->
     (finalize_epoch blake3 e s).1 =
       Ok (blake3 (epoch_root s e ++ foldl (fun acc o => xor_bytes acc (blake3 (op_vrf_proof o))) (replicate 32 0) reveals))).
Proof.
  intros s Hst. destruct (vrf_run_ok ops (vrf_new config) [] (vrf_new_ok config)) as [Hok Hcf]. fold s in Hok, Hcf.
  destruct (Hok e st Hst) as [H1 H2 H3 H4]. rewrite Hcf in H3. split; [done|]. split; [intros c Hc; by apply H3|].
  split; [intros o Ho; by apply H4|]. intros Hne Hnf reveals Hp. rewrite finalize_epoch_eq, Hst, Hnf.
  rewrite decide_False by done. simpl. do 2 f_equal. unfold compute_canonical_randomness.
  rewrite <-(combine_Permutation e _ _ _ Hp).
  assert (forall acc n, (foldl (combine blake3 e) (acc, n) reveals).1 =
    foldl (fun acc o => xor_bytes acc (blake3 (op_vrf_proof o))) acc reveals) as Hfold.
  { assert (forall o, o ∈ reveals -> op_target_epoch o = e) as Ht by (intros o Ho; apply H4; by rewrite <-Hp).
    clear -Ht. induction reveals as [|o os IH]; intros acc n; [done|]. simpl.
    unfold combine at 2. rewrite (proj2 (Z.eqb_eq _ _)) by (apply Ht; left). simpl. apply IH.
    intros o' Ho'. apply Ht. by right. }
  rewrite <-(Hfold _ 0%nat). by destruct (foldl _ _ reveals).
Qed.

(** A reveal can be cancelled by making it again: the service accepts whatever it accepted
    just before, and after the second time the epoch is finalized with the randomness it would
    have had without either. *)
Theorem repeated_reveal_cancels o now s s1 st :
  vrf_states s !! op_target_epoch o = Some st -> vs_reveals st <> [] -> vs_is_finalized st = false ->
  submit_reveal blake3 o now s = (Ok tt, s1) ->
  exists s2, submit_reveal blake3 o now s1 = (Ok tt, s2) /\
    (finalize_epoch blake3 (op_target_epoch o) s2).1 = (finalize_epoch blake3 (op_target_epoch o) s).1.
Proof.
  intros Hst Hne Hnf H1.
  destruct (submit_reveal_inv o now s _ _ H1) as [[? _]|(st' & c & Hacc & _ & ->)]; [done|].
  pose proof Hacc as (Ht & Hst' & Hf & Hc). rewrite Hst in Hst'. injection Hst' as <-.
  eexists. split.
  { apply (submit_reveal_accepts _ _ _ (add_reveal o st) c). split; [done|]. split; [|done]. simpl. by rewrite lookup_insert_eq. }
  rewrite !finalize_epoch_eq. simpl. rewrite insert_insert_eq, lookup_insert_eq, Hst. simpl. rewrite Hnf.
  rewrite !decide_False by (done || (intros H; by destruct (vs_reveals st))). simpl. f_equal.
  unfold compute_canonical_randomness, epoch_root. simpl.
  rewrite !foldl_app. simpl. destruct (foldl _ _ (vs_reveals st)) as [acc n]. unfold combine. rewrite Z.eqb_refl. simpl.
  by rewrite xor_bytes_twice.
Qed.
End laws.

(** ** Instances *)

(** Two committers and their reveals; a hash that keeps its input, a tracker that trusts all. *)
Definition no_hash (b : Bytes) : Bytes := b.
Definition trusted (pk : PublicKey) : f64 := f64_of_Z 60.
Definition note (i : Z) : AdicMessage :=
  mkMessage [i] [] (mkAdicFeatures []) (AdicMeta_new 0) [] [] None [].
Definition commit_of (i proof : Z) : VRFCommit := mkCommit (note i) 5 [proof] [i] (f64_of_Z 60).
Definition open_of (i proof : Z) : VRFOpen := mkOpen (note (10 + i)) 5 [i] [proof] [i].
(** The tracker after the reputations were lost. *)
Definition distrusted (pk : PublicKey) : f64 := f64_of_Z 0.
Definition both_revealed : list VrfOp :=
  [VCommit (commit_of 1 7) trusted; VCommit (commit_of 2 12) trusted; VCommit (commit_of 3 9) distrusted;
   VReveal (open_of 1 7) 5; VReveal (open_of 2 12) 5].
Definition revealed_service : VRFService := vrf_run no_hash both_revealed (vrf_new VRFConfig_default).

Lemma vrf_randomness_final_witness :
  let s := vrf_run no_hash [VFinalize 5] revealed_service in
  exists r, finalized_randomness s 5 = Some r /\
    get_canonical_randomness (vrf_run no_hash [VReveal (open_of 1 7) 5; VFinalize 5] s) 5 = Ok r.
Proof.
  cbv zeta. eexists. split; [vm_compute; reflexivity|].
  refine (proj1 (proj2 (vrf_randomness_final no_hash _ 5 _ [VReveal (open_of 1 7) 5; VFinalize 5] _))).
  vm_compute. reflexivity.
Defined.

Lemma vrf_randomness_committed_witness :
  exists st, vrf_states revealed_service !! 5 = Some st /\ length (vs_commits st) = 2%nat /\ length (vs_reveals st) = 2%nat /\
    NoDup (cm_committer <$> vs_commits st) /\
    (finalize_epoch no_hash 5 revealed_service).1 =
      Ok (no_hash (epoch_root revealed_service 5 ++
            foldl (fun acc o => xor_bytes acc (no_hash (op_vrf_proof o))) (replicate 32 0) (reverse (vs_reveals st)))).
Proof.
  destruct (vrf_states revealed_service !! 5) as [st|] eqn:E; [|vm_compute in E; discriminate E].
  exists st. split; [reflexivity|].
  destruct (vrf_randomness_committed no_hash VRFConfig_default both_revealed 5 st E) as (H1 & _ & _ & H2).
  assert (length (vs_reveals st) = 2%nat) as Hlen by (vm_compute in E; injection E as <-; reflexivity).
  assert (vs_is_finalized st = false) as Hnf by (vm_compute in E; injection E as <-; reflexivity).
  split; [vm_compute in E; injection E as <-; reflexivity|]. split; [exact Hlen|]. split; [exact H1|]. apply H2; [|exact Hnf|apply reverse_Permutation].
  intros Hn. rewrite Hn in Hlen. discriminate Hlen.
Defined.

Lemma repeated_reveal_cancels_witness :
  let before := vrf_run no_hash [VCommit (commit_of 1 7) trusted; VCommit (commit_of 2 12) trusted; VReveal (open_of 1 7) 5]
    (vrf_new VRFConfig_default) in
  exists s1 s2, submit_reveal no_hash (open_of 2 12) 5 before = (Ok tt, s1) /\
    submit_reveal no_hash (open_of 2 12) 5 s1 = (Ok tt, s2) /\
    (finalize_epoch no_hash 5 s2).1 = (finalize_epoch no_hash 5 before).1 /\
    (finalize_epoch no_hash 5 s1).1 <> (finalize_epoch no_hash 5 before).1.
Proof.
  cbv zeta. destruct (submit_reveal no_hash (open_of 2 12) 5 _) as [r1 s1] eqn:E1.
  pose proof E1 as E1'. vm_compute in E1'. injection E1' as Hr Hs. subst r1.
  edestruct (repeated_reveal_cancels no_hash (open_of 2 12) 5) as (s2 & H2 & H3); [| | |exact E1|].
  - vm_compute. reflexivity.
  - discriminate.
  - reflexivity.
  - exists s1, s2. split; [reflexivity|]. split; [exact H2|]. split; [exact H3|]. subst s1. vm_compute. discriminate.
Defined.
