(* ===== verification/Quorum.v ===== *)
(** * Quorums

    [adic-quorum/src/types.rs], [selection.rs], [diversity.rs] and [verification.rs]: a committee
    drawn by VRF scores under diversity caps, and the tally of its votes.  The scores come from
    the modelled service of [adic-vrf]; metrics and log lines are left out. *)

From S2P Require Import Prelude F64 Padic Message Vrf.

Record QuorumConfig := mkQuorumConfig {
  qc_min_reputation : f64;
  members_per_axis : nat;
  qc_total_size : nat;
  qc_max_per_asn : nat;
  qc_max_per_region : nat;
  domain_separator : string;
  num_axes : nat;
}.
Definition QuorumConfig_default : QuorumConfig := mkQuorumConfig (f64_of_Z 50) 5 15 2 3 "quorum_selection" 3.

Record QuorumMember := mkMember {
  qm_public_key : PublicKey;
  qm_reputation : f64;
  qm_vrf_score : Bytes;
  qm_axis_id : nat;
  qm_asn : option Z;
  qm_region : option string;
}.

Record QuorumResult := mkQuorum {
  qr_members : list QuorumMember;
  qr_total_size : nat;
  qr_axes_coverage : list nat;
}.

Record NodeInfo := mkNode {
  ni_public_key : PublicKey;
  ni_reputation : f64;
  ni_asn : option Z;
  ni_region : option string;
  ni_axis_balls : list Bytes;
}.

Inductive QuorumError :=
  | InsufficientNodes (needed available : nat)
  | QuorumVRFError (e : VRFError)
  | ThresholdNotMet (votes_for total : nat) (threshold : f64)
  | AsnCapExceeded (asn : Z) (limit actual : nat)
  | RegionCapExceeded (region : string) (limit actual : nat).

(** [#[from] VRFError]. *)
Definition from_vrf {A} (r : result VRFError A) : result QuorumError A :=
  match r with Ok a => Ok a | Err e => Err (QuorumVRFError e) | Panic => Panic end.

(** The order of byte arrays. *)
Fixpoint bytes_leb (a b : Bytes) : bool :=
  match a, b with
  | [], _ => true
  | _ :: _, [] => false
  | x :: a, y :: b => (x <? y) || ((x =? y) && bytes_leb a b)
  end.
Definition score_leb (a b : QuorumMember) : bool := bytes_leb (qm_vrf_score a) (qm_vrf_score b).

(** ** Diversity caps *)

Record DiversityCaps := mkCaps { max_per_asn : nat; max_per_region : nat }.

Definition count_of `{Countable K} (counts : gmap K nat) (k : K) : nat := default 0%nat (counts !! k).
Definition below_cap `{Countable K} (counts : gmap K nat) (cap : nat) (k : option K) : bool :=
  match k with Some k => negb (cap <=? count_of counts k)%nat | None => true end.
Definition bump `{Countable K} (counts : gmap K nat) (k : option K) : gmap K nat :=
  match k with Some k => <[k := S (count_of counts k)]> counts | None => counts end.

Fixpoint cap_loop (caps : DiversityCaps) (asn_counts : gmap Z nat) (region_counts : gmap string nat)
    (members : list QuorumMember) : list QuorumMember :=
  match members with
  | [] => []
  | m :: members =>
      if below_cap asn_counts (max_per_asn caps) (qm_asn m) && below_cap region_counts (max_per_region caps) (qm_region m)
      then m :: cap_loop caps (bump asn_counts (qm_asn m)) (bump region_counts (qm_region m)) members
      else cap_loop caps asn_counts region_counts members
  end.

Definition enforce_diversity_caps (members : list QuorumMember) (caps : DiversityCaps) : list QuorumMember :=
  cap_loop caps ∅ ∅ (isort score_leb members).

(** How many members share a network or a region. *)
Definition asn_count (members : list QuorumMember) (asn : Z) : nat :=
  length (List.filter (fun m => bool_decide (qm_asn m = Some asn)) members).
Definition region_count (members : list QuorumMember) (region : string) : nat :=
  length (List.filter (fun m => bool_decide (qm_region m = Some region)) members).

Definition check_diversity_caps (m : QuorumMember) (current : list QuorumMember) (caps : DiversityCaps)
    : result QuorumError unit :=
  let? _ := match qm_asn m with
            | Some asn => if (max_per_asn caps <=? asn_count current asn)%nat
                          then Err (AsnCapExceeded asn (max_per_asn caps) (asn_count current asn + 1)) else Ok tt
            | None => Ok tt
            end in
  match qm_region m with
  | Some region => if (max_per_region caps <=? region_count current region)%nat
                   then Err (RegionCapExceeded region (max_per_region caps) (region_count current region + 1)) else Ok tt
  | None => Ok tt
  end.

(** ** Selection *)

Section selection.
Context (blake3 : Bytes -> Bytes).

Definition member_of (s : VRFService) (epoch : Z) (config : QuorumConfig) (axis : nat) (node : NodeInfo)
    : result QuorumError QuorumMember :=
  let axis_ball := default [] (ni_axis_balls node !! axis) in
  let? score := from_vrf (compute_vrf_score_for_epoch blake3 s epoch (domain_separator config) axis (ni_public_key node) axis_ball) in
  Ok (mkMember (ni_public_key node) (ni_reputation node) score axis (ni_asn node) (ni_region node)).

(** The two nested loops with [?]. *)
Fixpoint try_map {E A B} (f : A -> result E B) (l : list A) : result E (list B) :=
  match l with
  | [] => Ok []
  | a :: l => let? b := f a in let? bs := try_map f l in Ok (b :: bs)
  end.

Definition select_axis (s : VRFService) (epoch : Z) (config : QuorumConfig) (eligible : list NodeInfo) (axis : nat)
    : result QuorumError (list QuorumMember) :=
  let? members := try_map (member_of s epoch config axis) eligible in
  Ok (take (members_per_axis config) (isort score_leb members)).

(** [seen.insert(member.public_key)]. *)
Fixpoint unique_members (seen : gset PublicKey) (members : list QuorumMember) : list QuorumMember :=
  match members with
  | [] => []
  | m :: members =>
      if bool_decide (qm_public_key m ∈ seen) then unique_members seen members
      else m :: unique_members ({[qm_public_key m]} ∪ seen) members
  end.

Definition eligible_nodes (config : QuorumConfig) (nodes : list NodeInfo) : list NodeInfo :=
  List.filter (fun n => f64_geb (ni_reputation n) (qc_min_reputation config)) nodes.

Definition select_committee (s : VRFService) (epoch : Z) (config : QuorumConfig) (nodes : list NodeInfo)
    : result QuorumError QuorumResult :=
  match eligible_nodes config nodes with
  | [] => Err (InsufficientNodes (qc_total_size config) 0)
  | eligible =>
      let? _ := from_vrf (get_canonical_randomness s epoch) in
      let? per_axis := try_map (select_axis s epoch config eligible) (seq 0 (num_axes config)) in
      let capped := enforce_diversity_caps (unique_members ∅ (concat per_axis))
                      (mkCaps (qc_max_per_asn config) (qc_max_per_region config)) in
      let final_members := take (qc_total_size config) capped in
      Ok (mkQuorum final_members (length final_members) (length <$> per_axis))
  end.

Definition is_in_quorum (node : PublicKey) (q : QuorumResult) : bool :=
  existsb (fun m => bool_decide (qm_public_key m = node)) (qr_members q).
Definition get_member (node : PublicKey) (q : QuorumResult) : option QuorumMember :=
  List.find (fun m => bool_decide (qm_public_key m = node)) (qr_members q).
End selection.

(** ** Voting *)

Class QuorumVote (V : Type) := {
  voter : V -> PublicKey;
  is_for : V -> bool;
  is_against : V -> bool;
  is_abstain : V -> bool;
}.

Inductive VoteType := VoteFor | VoteAgainst | VoteAbstain.
Record SimpleQuorumVote := mkVote { sv_voter : PublicKey; sv_type : VoteType }.
#[export] Instance simple_quorum_vote : QuorumVote SimpleQuorumVote := {
  voter := sv_voter;
  is_for v := match sv_type v with VoteFor => true | _ => false end;
  is_against v := match sv_type v with VoteAgainst => true | _ => false end;
  is_abstain v := match sv_type v with VoteAbstain => true | _ => false end;
}.

Record VotingResult := mkVoting {
  votes_for : nat;
  votes_against : nat;
  votes_abstain : nat;
  total_votes : nat;
  quorum_size : nat;
  vr_threshold : f64;
  vr_passed : bool;
}.

Section verification.
Context {V : Type} `{!QuorumVote V}.

(** The tally: votes for, against, abstentions and who has voted. *)
Record Tally := mkTally { tl_for : nat; tl_against : nat; tl_abstain : nat; tl_voted : gset PublicKey }.

Definition tally_vote (members : gset PublicKey) (t : Tally) (v : V) : Tally :=
  if bool_decide (voter v ∉ members) then t
  else if bool_decide (voter v ∈ tl_voted t) then t
  else
    let voted := {[voter v]} ∪ tl_voted t in
    if is_for v then mkTally (S (tl_for t)) (tl_against t) (tl_abstain t) voted
    else if is_against v then mkTally (tl_for t) (S (tl_against t)) (tl_abstain t) voted
    else if is_abstain v then mkTally (tl_for t) (tl_against t) (S (tl_abstain t)) voted
    else mkTally (tl_for t) (tl_against t) (tl_abstain t) voted.

Definition f64_ratio (a b : nat) : f64 := f64_div (f64_of_Z (Z.of_nat a)) (f64_of_Z (Z.of_nat b)).

Definition verify_quorum_vote (q : QuorumResult) (votes : list V) (threshold : f64) : VotingResult :=
  let members := list_to_set (qm_public_key <$> qr_members q) in
  let t := foldl (tally_vote members) (mkTally 0 0 0 ∅) votes in
  let total := (tl_for t + tl_against t)%nat in
  let passed := if (0 <? total)%nat then f64_geb (f64_ratio (tl_for t) total) threshold else false in
  mkVoting (tl_for t) (tl_against t) (tl_abstain t) total (length (qr_members q)) threshold passed.

Definition check_participation (r : VotingResult) (min_participation_ratio : f64) : result QuorumError unit :=
  if f64_ltb (f64_ratio (total_votes r) (quorum_size r)) min_participation_ratio
  then Err (ThresholdNotMet (votes_for r) (quorum_size r) min_participation_ratio) else Ok tt.

Definition get_voters_for (votes : list V) : list PublicKey := voter <$> List.filter is_for votes.
Definition get_voters_against (votes : list V) : list PublicKey := voter <$> List.filter is_against votes.

Definition vote_distribution (r : VotingResult) : f64 * f64 * f64 :=
  (f64_ratio (votes_for r) (quorum_size r), f64_ratio (votes_against r) (quorum_size r), f64_ratio (votes_abstain r) (quorum_size r)).
End verification.

(** ** What the caps leave *)

Lemma bytes_leb_total a b : bytes_leb a b = false -> bytes_leb b a = true.
Proof.
  revert b. induction a as [|x a IH]; intros [|y b]; simpl; [done..|].
  rewrite orb_false_iff, andb_false_iff. intros [H1 H2]. zbool. destruct (decide (x = y)) as [->|Hne].
  - destruct H2 as [H2|H2]; [zbool; done|]. rewrite Z.eqb_refl, (IH _ H2). by rewrite orb_true_r.
  - replace (y <? x) with true by (symmetry; apply Z.ltb_lt; lia). done.
Qed.

Lemma bytes_leb_trans a b c : bytes_leb a b = true -> bytes_leb b c = true -> bytes_leb a c = true.
Proof.
  revert b c. induction a as [|x a IH]; intros [|y b] [|z c]; simpl; try done.
  rewrite !orb_true_iff, !andb_true_iff. intros H1 H2. zbool.
  destruct H1 as [H1|[H1 H1']], H2 as [H2|[H2 H2']]; zbool; subst; try (left; apply Z.ltb_lt; lia).
  right. split; [apply Z.eqb_refl|by eapply IH].
Qed.

Lemma isort_scores ms : StronglySorted (fun a b => score_leb a b = true) (isort score_leb ms).
Proof.
  apply (isort_sorted score_leb (fun _ => True)); [intros x y _ _; apply bytes_leb_total| |by apply Forall_true].
  intros x y z _ _ _. apply bytes_leb_trans.
Qed.

Lemma cap_loop_sublist caps ac rc ms : cap_loop caps ac rc ms `sublist_of` ms.
Proof.
  revert ac rc. induction ms as [|m ms IH]; intros ac rc; simpl; [done|].
  destruct (_ && _); [apply sublist_skip, IH|apply sublist_cons, IH].
Qed.

(** The number of members with one value of an optional attribute. *)
Definition attr_count {K} `{EqDecision K} (attr : QuorumMember -> option K) (ms : list QuorumMember) (k : K) : nat :=
  length (List.filter (fun m => bool_decide (attr m = Some k)) ms).

Lemma count_bump `{Countable K} (counts : gmap K nat) (o : option K) k :
  count_of (bump counts o) k = (count_of counts k + if decide (o = Some k) then 1 else 0)%nat.
Proof.
  unfold bump, count_of. destruct o as [k'|]; [|by rewrite decide_False].
  rewrite lookup_insert. repeat case_decide; simplify_eq; simpl; lia.
Qed.

Lemma attr_count_cons {K} `{EqDecision K} (attr : QuorumMember -> option K) m ms k :
  attr_count attr (m :: ms) k = ((if decide (attr m = Some k) then 1 else 0) + attr_count attr ms k)%nat.
Proof. unfold attr_count. simpl. by case_bool_decide; case_decide. Qed.

(** No value goes past its cap, counting what was there before. *)
Lemma cap_loop_asn caps ac rc ms asn :
  (count_of ac asn <= max_per_asn caps)%nat ->
  (count_of ac asn + attr_count qm_asn (cap_loop caps ac rc ms) asn <= max_per_asn caps)%nat.
Proof.
  revert ac rc. induction ms as [|m ms IH]; intros ac rc Hle; simpl; [unfold attr_count; simpl; lia|].
  destruct (_ && _) eqn:E; [|by apply IH]. apply andb_prop in E as [E _].
  rewrite attr_count_cons. specialize (IH (bump ac (qm_asn m)) (bump rc (qm_region m))). rewrite count_bump in IH.
  destruct (decide (qm_asn m = Some asn)) as [Hm|Hm]; repeat case_decide; try done; [|specialize (IH ltac:(lia)); lia].
  rewrite Hm in E. simpl in E. apply negb_true_iff, Nat.leb_gt in E. specialize (IH ltac:(lia)). lia.
Qed.

Lemma cap_loop_region caps ac rc ms region :
  (count_of rc region <= max_per_region caps)%nat ->
  (count_of rc region + attr_count qm_region (cap_loop caps ac rc ms) region <= max_per_region caps)%nat.
Proof.
  revert ac rc. induction ms as [|m ms IH]; intros ac rc Hle; simpl; [unfold attr_count; simpl; lia|].
  destruct (_ && _) eqn:E; [|by apply IH]. apply andb_prop in E as [_ E].
  rewrite attr_count_cons. specialize (IH (bump ac (qm_asn m)) (bump rc (qm_region m))). rewrite count_bump in IH.
  destruct (decide (qm_region m = Some region)) as [Hm|Hm]; repeat case_decide; try done; [|specialize (IH ltac:(lia)); lia].
  rewrite Hm in E. simpl in E. apply negb_true_iff, Nat.leb_gt in E. specialize (IH ltac:(lia)). lia.
Qed.

(** A member is left out only when its network or its region is full. *)
Definition full_with (caps : DiversityCaps) (ac : gmap Z nat) (rc : gmap string nat) (ms : list QuorumMember) (m : QuorumMember) : Prop :=
  (exists asn, qm_asn m = Some asn /\ max_per_asn caps <= count_of ac asn + attr_count qm_asn ms asn)%nat \/
  (exists region, qm_region m = Some region /\ max_per_region caps <= count_of rc region + attr_count qm_region ms region)%nat.

Lemma full_with_cons caps ac rc m0 ms m :
  full_with caps (bump ac (qm_asn m0)) (bump rc (qm_region m0)) ms m -> full_with caps ac rc (m0 :: ms) m.
Proof.
  intros [(k & Hk & Hc)|(k & Hk & Hc)]; [left|right]; exists k; (split; [done|]);
    rewrite count_bump in Hc; rewrite attr_count_cons; lia.
Qed.

Lemma cap_loop_rejected caps ac rc ms m :
  m ∈ ms -> m ∈ cap_loop caps ac rc ms \/ full_with caps ac rc (cap_loop caps ac rc ms) m.
Proof.
  revert ac rc. induction ms as [|m0 ms IH]; intros ac rc; [by intros ?%elem_of_nil|]. simpl.
  destruct (_ && _) eqn:E.
  - intros [->|Hm]%elem_of_cons; [left; left|]. destruct (IH (bump ac (qm_asn m0)) (bump rc (qm_region m0)) Hm) as [H|H];
      [left; by right|right; by apply full_with_cons].
  - intros [->|Hm]%elem_of_cons; [|by apply IH]. right. unfold full_with.
    apply andb_false_iff in E as [E|E]; unfold below_cap in E.
    + destruct (qm_asn m0) as [k|]; [|done]. left. exists k. split; [done|]. apply negb_false_iff, Nat.leb_le in E. lia.
    + destruct (qm_region m0) as [k|]; [|done]. right. exists k. split; [done|]. apply negb_false_iff, Nat.leb_le in E. lia.
Qed.

Lemma unique_members_sublist seen ms : unique_members seen ms `sublist_of` ms.
Proof.
  revert seen. induction ms as [|m ms IH]; intros seen; simpl; [done|].
  case_bool_decide; [apply sublist_cons, IH|apply sublist_skip, IH].
Qed.

Lemma unique_members_NoDup seen ms :
  NoDup (qm_public_key <$> unique_members seen ms) /\
  forall m, m ∈ unique_members seen ms -> qm_public_key m ∉ seen.
Proof.
  revert seen. induction ms as [|m ms IH]; intros seen; simpl; [split; [constructor|by intros m ?%elem_of_nil]|].
  case_bool_decide as Hs; [apply IH|]. destruct (IH ({[qm_public_key m]} ∪ seen)) as [H1 H2]. simpl. split.
  - constructor; [|done]. intros (m' & Hm & Hin)%list_elem_of_fmap. apply H2 in Hin. set_solver.
  - intros m' [->|Hin]%elem_of_cons; [done|]. apply H2 in Hin. set_solver.
Qed.

Lemma try_map_ok {E A B} (f : A -> result E B) l bs : try_map f l = Ok bs <-> Forall2 (fun a b => f a = Ok b) l bs.
Proof.
  revert bs. induction l as [|a l IH]; intros bs; simpl.
  - split; [intros [= <-]; constructor|intros H; by inversion H].
  - split.
    + intros (b & Hb & (bs' & Hbs & [= <-])%result_bind_Ok)%result_bind_Ok. constructor; [done|by apply IH].
    + intros H. inversion H as [|x y l' bs' Hxy Hr]; subst. rewrite Hxy. simpl. apply IH in Hr. by rewrite Hr.
Qed.

Lemma try_map_total {E A B} (f : A -> result E B) l : (forall a, a ∈ l -> exists b, f a = Ok b) -> exists bs, try_map f l = Ok bs.
Proof.
  intros H. destruct (Forall2_choose (fun a b => f a = Ok b) l H) as [bs Hbs]. exists bs. by apply try_map_ok.
Qed.

(** ** The committee *)

Section committee.
Context (blake3 : Bytes -> Bytes).

Lemma member_of_fields s epoch config axis node m :
  member_of blake3 s epoch config axis node = Ok m ->
  qm_public_key m = ni_public_key node /\ qm_reputation m = ni_reputation node /\ qm_axis_id m = axis /\
  qm_asn m = ni_asn node /\ qm_region m = ni_region node.
Proof. unfold member_of. intros (score & _ & [= <-])%result_bind_Ok. done. Qed.

Lemma member_of_total s epoch config axis node r :
  get_canonical_randomness s epoch = Ok r -> exists m, member_of blake3 s epoch config axis node = Ok m.
Proof. intros H. unfold member_of, compute_vrf_score_for_epoch. rewrite H. simpl. by eexists. Qed.

Lemma select_axis_total s epoch config eligible axis r :
  get_canonical_randomness s epoch = Ok r ->
  exists all, Forall2 (fun n m => member_of blake3 s epoch config axis n = Ok m) eligible all /\
    select_axis blake3 s epoch config eligible axis = Ok (take (members_per_axis config) (isort score_leb all)).
Proof.
  intros H. destruct (try_map_total (member_of blake3 s epoch config axis) eligible) as [all Hall].
  { intros n _. by apply (member_of_total _ _ _ _ _ r). }
  exists all. split; [by apply try_map_ok|]. unfold select_axis. by rewrite Hall.
Qed.

(** [m] is one of the lowest scores of its axis among the eligible nodes. *)
Definition drawn (s : VRFService) (epoch : Z) (config : QuorumConfig) (eligible : list NodeInfo) (m : QuorumMember) : Prop :=
  exists all, Forall2 (fun n m' => member_of blake3 s epoch config (qm_axis_id m) n = Ok m') eligible all /\
    (qm_axis_id m < num_axes config)%nat /\ m ∈ take (members_per_axis config) (isort score_leb all).

Record committee_ok (s : VRFService) (epoch : Z) (config : QuorumConfig) (nodes : list NodeInfo) (q : QuorumResult) : Prop := {
  co_distinct : NoDup (qm_public_key <$> qr_members q);
  co_eligible m : m ∈ qr_members q -> exists n, n ∈ nodes /\ f64_geb (ni_reputation n) (qc_min_reputation config) = true /\
    qm_public_key m = ni_public_key n /\ qm_asn m = ni_asn n /\ qm_region m = ni_region n /\
    member_of blake3 s epoch config (qm_axis_id m) n = Ok m;
  co_drawn m : m ∈ qr_members q -> drawn s epoch config (eligible_nodes config nodes) m;
  co_asn asn : (attr_count qm_asn (qr_members q) asn <= qc_max_per_asn config)%nat;
  co_region region : (attr_count qm_region (qr_members q) region <= qc_max_per_region config)%nat;
  co_size : (length (qr_members q) <= qc_total_size config)%nat /\ qr_total_size q = length (qr_members q);
  co_coverage : length (qr_axes_coverage q) = num_axes config /\
    Forall (fun k => (k <= members_per_axis config)%nat) (qr_axes_coverage q);
  co_sorted : StronglySorted (fun a b => score_leb a b = true) (qr_members q);
}.

Lemma sublist_StronglySorted {A} (R : A -> A -> Prop) l k : l `sublist_of` k -> StronglySorted R k -> StronglySorted R l.
Proof.
  induction 1 as [|x l k Hs IH|x l k Hs IH]; intros H; [done| |]; apply StronglySorted_inv in H as [H Hall].
  - constructor; [by apply IH|]. rewrite Forall_forall in *. intros y Hy. apply Hall. by eapply sublist_subseteq.
  - by apply IH.
Qed.

Lemma fmap_sublist {A B} (f : A -> B) l k : l `sublist_of` k -> f <$> l `sublist_of` f <$> k.
Proof. induction 1; simpl; by constructor. Qed.

Lemma attr_count_take {K} `{EqDecision K} (attr : QuorumMember -> option K) n ms k :
  (attr_count attr (take n ms) k <= attr_count attr ms k)%nat.
Proof.
  rewrite <-(take_drop n ms) at 2. unfold attr_count. rewrite List.filter_app, length_app. lia.
Qed.

(** The members that come out of the axes. *)
Lemma axes_members s epoch config el r per :
  get_canonical_randomness s epoch = Ok r ->
  Forall2 (fun axis ms => select_axis blake3 s epoch config el axis = Ok ms) (seq 0 (num_axes config)) per ->
  (forall m, m ∈ concat per -> drawn s epoch config el m /\
     exists n, n ∈ el /\ member_of blake3 s epoch config (qm_axis_id m) n = Ok m) /\
  Forall (fun k => (k <= members_per_axis config)%nat) (length <$> per).
Proof.
  intros Hr Hper. split.
  - intros m (ms & Hms & Hm)%list_elem_of_In%in_concat. apply list_elem_of_In in Hms, Hm.
    apply list_elem_of_lookup_1 in Hms as [i Hi].
    destruct (Forall2_lookup_r _ _ _ i ms Hper Hi) as (axis & Hax & Hsel). apply lookup_seq in Hax as [-> Hlt].
    destruct (select_axis_total s epoch config el (0 + i) r Hr) as (all & Hall & Heq). rewrite Hsel in Heq. injection Heq as ->.
    pose proof Hm as Hm'. eapply sublist_subseteq in Hm'; [|apply sublist_take]. apply elem_of_isort in Hm'.
    apply list_elem_of_lookup_1 in Hm' as [j Hj]. destruct (Forall2_lookup_r _ _ _ j m Hall Hj) as (n & Hn & Hmem).
    pose proof (member_of_fields _ _ _ _ _ _ Hmem) as (_ & _ & Ha & _). unfold drawn. rewrite Ha.
    split; [exists all; split; [done|]; split; [lia|done]|]. exists n.
    split; [by eapply list_elem_of_lookup_2|done].
  - apply Forall_forall. intros k (ms & -> & Hms)%list_elem_of_fmap. apply list_elem_of_lookup_1 in Hms as [i Hi].
    destruct (Forall2_lookup_r _ _ _ i ms Hper Hi) as (axis & _ & Hsel).
    destruct (select_axis_total s epoch config el axis r Hr) as (all & _ & Heq). rewrite Hsel in Heq. injection Heq as ->.
    rewrite length_take. lia.
Qed.

(** The committee made of them. *)
Lemma committee_members s epoch config nodes r :
  get_canonical_randomness s epoch = Ok r -> eligible_nodes config nodes <> [] ->
  exists q, select_committee blake3 s epoch config nodes = Ok q /\ committee_ok s epoch config nodes q.
Proof.
  intros Hr Hne. unfold select_committee.
  destruct (eligible_nodes config nodes) as [|n0 ns] eqn:Ee; [done|]. rewrite <-Ee. rewrite Hr. simpl from_vrf. cbn [result_bind].
  set (el := eligible_nodes config nodes) in *.
  destruct (try_map_total (select_axis blake3 s epoch config el) (seq 0 (num_axes config))) as [per Hper].
  { intros a _. destruct (select_axis_total s epoch config el a r Hr) as (all & _ & ->). by eexists. }
  rewrite Hper. cbn [result_bind]. apply try_map_ok in Hper. eexists. split; [done|].
  set (uniq := unique_members ∅ (concat per)).
  set (caps := mkCaps (qc_max_per_asn config) (qc_max_per_region config)).
  assert (enforce_diversity_caps uniq caps `sublist_of` isort score_leb uniq) as Hsub by apply cap_loop_sublist.
  assert (forall m, m ∈ take (qc_total_size config) (enforce_diversity_caps uniq caps) -> m ∈ concat per) as Hin.
  { intros m Hm. eapply sublist_subseteq in Hm; [|apply sublist_take]. eapply sublist_subseteq in Hm; [|exact Hsub].
    apply elem_of_isort in Hm. by eapply sublist_subseteq in Hm; [|apply unique_members_sublist]. }
  pose proof (axes_members s epoch config el r per Hr Hper) as [Hfrom Hcov].
  split; cbn [qr_members qr_total_size qr_axes_coverage].
  - eapply sublist_NoDup; [|apply fmap_sublist, sublist_take]. eapply sublist_NoDup; [|apply fmap_sublist, Hsub].
    rewrite isort_Permutation. by apply unique_members_NoDup.
  - intros m Hm. destruct (Hfrom m (Hin m Hm)) as (_ & n & Hn & Hmem). exists n.
    pose proof (member_of_fields _ _ _ _ _ _ Hmem) as (? & _ & _ & ? & ?).
    unfold el, eligible_nodes in Hn. apply list_elem_of_In, filter_In in Hn as [Hn Hrep]. apply list_elem_of_In in Hn. done.
  - intros m Hm. by apply Hfrom, Hin.
  - intros asn. etransitivity; [apply attr_count_take|]. unfold enforce_diversity_caps.
    pose proof (cap_loop_asn caps ∅ ∅ (isort score_leb uniq) asn) as H. unfold count_of in H. rewrite lookup_empty in H. apply H. simpl. lia.
  - intros region. etransitivity; [apply attr_count_take|]. unfold enforce_diversity_caps.
    pose proof (cap_loop_region caps ∅ ∅ (isort score_leb uniq) region) as H. unfold count_of in H. rewrite lookup_empty in H. apply H. simpl. lia.
  - split; [|done]. rewrite length_take. lia.
  - split; [rewrite length_fmap, <-(Forall2_length _ _ _ Hper); apply length_seq|].
    done.
  - eapply sublist_StronglySorted; [apply sublist_take|]. eapply sublist_StronglySorted; [exact Hsub|]. apply isort_scores.
Qed.

(** And so is whatever committee is returned. *)
Lemma select_committee_ok s epoch config nodes q :
  select_committee blake3 s epoch config nodes = Ok q -> committee_ok s epoch config nodes q.
Proof.
  intros E. pose proof E as E'. unfold select_committee in E'. destruct (eligible_nodes config nodes) as [|n0 ns] eqn:He; [done|].
  destruct (get_canonical_randomness s epoch) as [r|e|] eqn:Hr; [|done..]. clear E'.
  destruct (committee_members s epoch config nodes r Hr) as (q' & Hq & Hok); [by rewrite He|]. rewrite E in Hq. by injection Hq as ->.
Qed.
End committee.

(** C36: A committee is selected whenever a node is eligible and the epoch's randomness is known,
    and then: its members are distinct nodes of sufficient reputation, each among the lowest
    scores of some axis; no network and no region has more members than its cap; there are at
    most [total_size] of them, in the order of their scores; every axis contributed at most
    [members_per_axis].  Otherwise the error says which of the two is missing. *)
Theorem select_committee_correct (blake3 : Bytes -> Bytes) (s : VRFService) (epoch : Z) (config : QuorumConfig) (nodes : list NodeInfo) :
  match select_committee blake3 s epoch config nodes with
  | Ok q => eligible_nodes config nodes <> [] /\ committee_ok blake3 s epoch config nodes q
  | Err (InsufficientNodes needed available) => needed = qc_total_size config /\ available = 0%nat /\ eligible_nodes config nodes = []
  | Err (QuorumVRFError e) => eligible_nodes config nodes <> [] /\ get_canonical_randomness s epoch = Err e
  | Err _ => False
  | Panic => get_canonical_randomness s epoch = Panic
  end.
Proof.
  destruct (decide (eligible_nodes config nodes = [])) as [E|Hne].
  { unfold select_committee. by rewrite E. }
  destruct (get_canonical_randomness s epoch) as [r|e|] eqn:Hr.
  - destruct (committee_members blake3 s epoch config nodes r Hr Hne) as (q & -> & Hq). done.
  - unfold select_committee. destruct (eligible_nodes config nodes); [done|]. rewrite Hr. done.
  - unfold select_committee. destruct (eligible_nodes config nodes); [done|]. rewrite Hr. done.
Qed.

(** ** The tally *)

Section tally.
Context {V : Type} `{!QuorumVote V}.
Implicit Types votes : list V.

(** The votes that count: the first one of each member. *)
Fixpoint ballots (members voted : gset PublicKey) votes : list V :=
  match votes with
  | [] => []
  | v :: votes =>
      if decide (voter v ∈ members /\ voter v ∉ voted) then v :: ballots members ({[voter v]} ∪ voted) votes
      else ballots members voted votes
  end.

Definition votes_of (choice : V -> bool) votes : nat := length (List.filter choice votes).
Definition pure_against (v : V) : bool := negb (is_for v) && is_against v.
Definition pure_abstain (v : V) : bool := negb (is_for v) && negb (is_against v) && is_abstain v.

Lemma tally_ballots members (t : Tally) votes :
  let t' := foldl (tally_vote members) t votes in
  let bs := ballots members (tl_voted t) votes in
  tl_for t' = (tl_for t + votes_of is_for bs)%nat /\ tl_against t' = (tl_against t + votes_of pure_against bs)%nat /\
  tl_abstain t' = (tl_abstain t + votes_of pure_abstain bs)%nat.
Proof.
  revert t. induction votes as [|v votes IH]; intros t; simpl; [unfold votes_of; simpl; lia|].
  destruct (IH (tally_vote members t v)) as (I1 & I2 & I3). rewrite I1, I2, I3. clear IH I1 I2 I3.
  unfold tally_vote. case_bool_decide as Hm; [rewrite decide_False by tauto; done|].
  case_bool_decide as Hv; [rewrite decide_False by tauto; done|]. rewrite decide_True by done.
  unfold votes_of, pure_against, pure_abstain. simpl.
  destruct (is_for v), (is_against v), (is_abstain v); simpl; lia.
Qed.

Lemma ballots_spec members voted votes :
  ballots members voted votes `sublist_of` votes /\ NoDup (voter <$> ballots members voted votes) /\
  (forall v, v ∈ ballots members voted votes -> voter v ∈ members /\ voter v ∉ voted) /\
  (forall v, v ∈ votes -> voter v ∈ members -> voter v ∈ voted \/ voter v ∈ voter <$> ballots members voted votes).
Proof.
  revert voted. induction votes as [|v votes IH]; intros voted; simpl.
  { split_and!; [done|constructor|by intros v ?%elem_of_nil|by intros v ?%elem_of_nil]. }
  case_decide as Hv.
  - destruct (IH ({[voter v]} ∪ voted)) as (H1 & H2 & H3 & H4). split_and!.
    + by apply sublist_skip.
    + simpl. constructor; [|done]. intros (v' & Hvv & Hin)%list_elem_of_fmap. apply H3 in Hin. set_solver.
    + intros v' [->|Hin]%elem_of_cons; [tauto|]. apply H3 in Hin. set_solver.
    + intros v' Hin Hmem. simpl. rewrite elem_of_cons. apply elem_of_cons in Hin as [->|Hin]; [tauto|].
      destruct (H4 v' Hin Hmem) as [H|H]; [|tauto]. rewrite elem_of_union, elem_of_singleton in H. tauto.
  - destruct (IH voted) as (H1 & H2 & H3 & H4). split_and!; [by apply sublist_cons|done|done|].
    intros v' [->|Hin]%elem_of_cons Hmem; [|by apply H4]. left. destruct (decide (voter v ∈ voted)); tauto.
Qed.

Lemma ballots_bound (ms : list PublicKey) voted votes : (length (ballots (list_to_set ms) voted votes) <= length ms)%nat.
Proof.
  destruct (ballots_spec (list_to_set ms) voted votes) as (_ & Hnd & Hin & _).
  rewrite <-(length_fmap voter). apply submseteq_length, NoDup_submseteq; [done|].
  intros pk (v & -> & Hv)%list_elem_of_fmap. apply Hin in Hv as [Hv _]. set_solver.
Qed.

Lemma votes_partition (bs : list V) : (votes_of is_for bs + votes_of pure_against bs + votes_of pure_abstain bs <= length bs)%nat.
Proof.
  unfold votes_of, pure_against, pure_abstain. induction bs as [|v bs IH]; simpl; [lia|].
  destruct (is_for v), (is_against v), (is_abstain v); simpl; lia.
Qed.

(** Every member of the quorum is counted at most once, by its first vote, and nobody else is
    counted: the three counts are those of a sublist of the votes with distinct voters, all of
    them members, in which every member who voted appears; they add up to no more than the
    quorum.  The vote passes exactly when somebody voted for or against and the rounded share
    of those for reaches the threshold. *)
Theorem quorum_vote_counted_once (q : QuorumResult) votes (threshold : f64) :
  let r := verify_quorum_vote q votes threshold in
  exists bs : list V, bs `sublist_of` votes /\ NoDup (voter <$> bs) /\
    (forall v, v ∈ bs -> voter v ∈ qm_public_key <$> qr_members q) /\
    (forall v, v ∈ votes -> voter v ∈ qm_public_key <$> qr_members q -> voter v ∈ voter <$> bs) /\
    votes_for r = votes_of is_for bs /\ votes_against r = votes_of pure_against bs /\ votes_abstain r = votes_of pure_abstain bs /\
    (votes_for r + votes_against r + votes_abstain r <= quorum_size r)%nat /\ quorum_size r = length (qr_members q) /\
    (vr_passed r = true <-> (0 < votes_for r + votes_against r)%nat /\
       f64_geb (f64_ratio (votes_for r) (votes_for r + votes_against r)) threshold = true).
Proof.
  intros r. set (pks := qm_public_key <$> qr_members q).
  pose proof (tally_ballots (list_to_set pks) (mkTally 0 0 0 ∅) votes) as (H1 & H2 & H3). simpl in H1, H2, H3.
  destruct (ballots_spec (list_to_set pks) ∅ votes) as (B1 & B2 & B3 & B4).
  pose proof (ballots_bound pks ∅ votes) as Hb. unfold pks in Hb. rewrite length_fmap in Hb. fold pks in Hb.
  pose proof (votes_partition (ballots (list_to_set pks) ∅ votes)) as Hp.
  exists (ballots (list_to_set pks) ∅ votes). unfold r, verify_quorum_vote. cbn [votes_for votes_against votes_abstain quorum_size vr_passed].
  fold pks. rewrite H1, H2, H3. split_and!; try done.
  - intros v Hv. destruct (B3 v Hv) as [Hm _]. by apply elem_of_list_to_set in Hm.
  - intros v Hv Hm. destruct (B4 v Hv) as [H|H]; [by apply elem_of_list_to_set|set_solver|done].
  - lia.
  - destruct (0 <? _)%nat eqn:E; [apply Nat.ltb_lt in E|apply Nat.ltb_ge in E]; [tauto|]. split; [done|lia].
Qed.
End tally.
