(* ===== verification/Challenge.v ===== *)
(** * Challenges

    [adic-challenges/src/types.rs], [window.rs], [fraud_proof.rs] and [adjudication.rs]: challenge
    windows as a state machine per subject, fraud proofs, and their adjudication by the votes of
    a quorum.  [blake3] is the hash, with [MessageId::new] the hash of its bytes; [windows_iter]
    the iteration order of the map; metrics and log lines are left out. *)

From S2P Require Import Prelude F64 Padic Message Vrf Quorum.

Record ChallengeConfig := mkChallengeConfig {
  window_depth : Z;
  fraud_proof_deposit_factor : Z;
  dispute_deposit_factor : Z;
  arbitrator_minority_penalty : f64;
}.
Definition ChallengeConfig_default : ChallengeConfig := mkChallengeConfig 100 10 5 (f64_of_Z (-2)).

Inductive ChallengeStatus := Active | Challenged | Finalized | SlashedSubject.
#[export] Instance ChallengeStatus_eq_dec : EqDecision ChallengeStatus.
Proof. solve_decision. Defined.

Record ChallengeMetadata := mkChallengeMetadata {
  ch_subject_id : MessageId;
  ch_challenger : PublicKey;
  ch_submitted_at_epoch : Z;
  window_expiry_epoch : Z;
  ch_status : ChallengeStatus;
}.

Record ChallengeWindow := mkWindow { cw_metadata : ChallengeMetadata; cw_config : ChallengeConfig }.

Inductive ChallengeError :=
  | WindowExpired (id : MessageId)
  | WindowNotFound (id : MessageId)
  | NotActive (id : MessageId)
  | NotExpiredYet
  | HasActiveChallenge
  | InvalidProof
  | ChallengeQuorumError (e : QuorumError).

(** ** Windows *)

Definition window_new (subject_id : MessageId) (submitted_at_epoch : Z) (config : ChallengeConfig) : ChallengeWindow :=
  mkWindow (mkChallengeMetadata subject_id (replicate 32 0) submitted_at_epoch
    (to_u64 (submitted_at_epoch + window_depth config)) Active) config.

Definition status (w : ChallengeWindow) : ChallengeStatus := ch_status (cw_metadata w).
Definition expiry (w : ChallengeWindow) : Z := window_expiry_epoch (cw_metadata w).

Definition is_active (w : ChallengeWindow) (current_epoch : Z) : bool :=
  bool_decide (status w = Active) && (current_epoch <=? expiry w).
Definition window_is_expired (w : ChallengeWindow) (current_epoch : Z) : bool := expiry w <? current_epoch.

Definition with_window_status (challenger : PublicKey) (s : ChallengeStatus) (w : ChallengeWindow) : ChallengeWindow :=
  let m := cw_metadata w in
  mkWindow (mkChallengeMetadata (ch_subject_id m) challenger (ch_submitted_at_epoch m) (window_expiry_epoch m) s) (cw_config w).
Definition mark_challenged (challenger : PublicKey) : ChallengeWindow -> ChallengeWindow := with_window_status challenger Challenged.
Definition mark_window_finalized (w : ChallengeWindow) : ChallengeWindow := with_window_status (ch_challenger (cw_metadata w)) Finalized w.
Definition mark_window_slashed (w : ChallengeWindow) : ChallengeWindow := with_window_status (ch_challenger (cw_metadata w)) SlashedSubject w.

Record ChallengeWindowManager := mkWindows { wm_windows : gmap MessageId ChallengeWindow; wm_config : ChallengeConfig }.
Definition windows_new (config : ChallengeConfig) : ChallengeWindowManager := mkWindows ∅ config.

Abbreviation WM := (M ChallengeWindowManager ChallengeError).

Definition update_windows (f : gmap MessageId ChallengeWindow -> gmap MessageId ChallengeWindow) : WM unit :=
  mwrite (fun m => mkWindows (f (wm_windows m)) (wm_config m)).
Definition find_window (id : MessageId) : WM ChallengeWindow :=
  windows ← mread wm_windows;
  mopt (windows !! id) (WindowNotFound id).

Definition open_window (id : MessageId) (submitted_at_epoch : Z) : WM unit :=
  config ← mread wm_config;
  update_windows (insert id (window_new id submitted_at_epoch config)).

Definition submit_challenge (id : MessageId) (challenger : PublicKey) (current_epoch : Z) : WM unit :=
  window ← find_window id;
  mbail (negb (is_active window current_epoch)) (WindowExpired (ch_subject_id (cw_metadata window)));;
  mbail (negb (bool_decide (status window = Active))) (NotActive (ch_subject_id (cw_metadata window)));;
  update_windows (insert id (mark_challenged challenger window)).

Definition finalize_window (id : MessageId) (current_epoch : Z) : WM unit :=
  window ← find_window id;
  mbail (negb (window_is_expired window current_epoch)) NotExpiredYet;;
  mbail (bool_decide (status window = Challenged)) HasActiveChallenge;;
  update_windows (insert id (mark_window_finalized window)).

Definition mark_slashed (id : MessageId) : WM unit :=
  window ← find_window id;
  update_windows (insert id (mark_window_slashed window)).

Section queries.
Context (windows_iter : gmap MessageId ChallengeWindow -> list (MessageId * ChallengeWindow)).
Definition get_window (id : MessageId) : WM (option ChallengeWindow) := mread (fun m => wm_windows m !! id).
Definition get_active_windows (current_epoch : Z) : WM (list ChallengeWindow) :=
  mread (fun m => List.filter (fun w => is_active w current_epoch) (windows_iter (wm_windows m)).*2).
Definition get_expired_windows (current_epoch : Z) : WM (list ChallengeWindow) :=
  mread (fun m => List.filter (fun w => window_is_expired w current_epoch && bool_decide (status w = Active))
    (windows_iter (wm_windows m)).*2).
End queries.

Definition is_settled (w : ChallengeWindow) : bool :=
  match status w with Finalized | SlashedSubject => true | _ => false end.
Definition cleanup_finalized : WM nat :=
  windows ← mread wm_windows;
  let kept := filter (fun e => is_settled e.2 = false) windows in
  update_windows (fun _ => kept);;
  mret (size windows - size kept)%nat.

(** ** Fraud proofs *)

Inductive FraudType := DataCorruption | IncorrectProof | TaskAbandonment | InvalidResult | CustomFraud (name : string).

Record FraudEvidence := mkEvidence {
  fraud_type : FraudType;
  evidence_cid : string;
  evidence_data : option Bytes;
  evidence_metadata : gmap string string;
}.

Record FraudProof := mkFraudProof {
  fp_id : MessageId;
  fp_subject_id : MessageId;
  fp_challenger : PublicKey;
  fp_evidence : FraudEvidence;
  fp_submitted_at_epoch : Z;
}.

Section proofs.
Context (blake3 : Bytes -> Bytes) (hex : Bytes -> string).

Definition fraud_proof_new (subject_id : MessageId) (challenger : PublicKey) (evidence : FraudEvidence) (epoch : Z) : FraudProof :=
  mkFraudProof (blake3 (subject_id ++ challenger ++ to_le_bytes 8 epoch ++ str_bytes (evidence_cid evidence)))
    subject_id challenger evidence epoch.

Definition verify_structure (p : FraudProof) : result ChallengeError unit :=
  if bool_decide (evidence_cid (fp_evidence p) = EmptyString) then Err InvalidProof else Ok tt.

Definition verify_evidence (p : FraudProof) (subject_data expected_data : Bytes) : result ChallengeError bool :=
  Ok (negb (bool_decide (subject_data = expected_data))).

Definition verify_evidence_hash (e : FraudEvidence) (actual_data : Bytes) : bool :=
  bool_decide (evidence_cid e = hex (blake3 actual_data)).
End proofs.

(** ** Adjudication *)

Inductive DisputeRuling := ChallengerWins | SubjectWins | Partial | Inconclusive.
Inductive VoteDecision := ValidProof | InvalidVote.

Record ArbitratorVote := mkArbitratorVote { av_voter : PublicKey; av_vote : VoteDecision; av_submitted_at_epoch : Z }.
#[export] Instance arbitrator_quorum_vote : QuorumVote ArbitratorVote := {
  voter := av_voter;
  is_for v := match av_vote v with ValidProof => true | InvalidVote => false end;
  is_against v := match av_vote v with InvalidVote => true | ValidProof => false end;
  is_abstain _ := false;
}.

Record AdjudicationConfig := mkAdjudicationConfig {
  quorum_config : QuorumConfig;
  ruling_threshold : f64;
  voting_window : Z;
}.
Definition AdjudicationConfig_default : AdjudicationConfig := mkAdjudicationConfig QuorumConfig_default (f64_lit 66 100) 50.

Record AdjudicationResult := mkAdjudication {
  ar_fraud_proof_id : MessageId;
  ar_ruling : DisputeRuling;
  ar_quorum : QuorumResult;
  ar_votes_for : list ArbitratorVote;
  ar_votes_against : list ArbitratorVote;
  ar_total_votes : nat;
  ar_threshold_met : bool;
  ar_adjudicated_at_epoch : Z;
}.

Section adjudication.
Context (blake3 : Bytes -> Bytes).

Definition select_arbitrators (s : VRFService) (config : AdjudicationConfig) (p : FraudProof) (nodes : list NodeInfo)
    : result ChallengeError QuorumResult :=
  match select_committee blake3 s (fp_submitted_at_epoch p) (quorum_config config) nodes with
  | Ok q => Ok q
  | Err e => Err (ChallengeQuorumError e)
  | Panic => Panic
  end.

Definition adjudicate (config : AdjudicationConfig) (p : FraudProof) (q : QuorumResult) (votes : list ArbitratorVote)
    (current_epoch : Z) : result ChallengeError AdjudicationResult :=
  if to_u64 (fp_submitted_at_epoch p + voting_window config) <? current_epoch then Err (WindowExpired (fp_id p))
  else
    let vote_result := verify_quorum_vote q votes (ruling_threshold config) in
    let ruling :=
      if vr_passed vote_result then ChallengerWins
      else if (length (qr_members q) / 2 <=? length votes)%nat then SubjectWins
      else Inconclusive in
    Ok (mkAdjudication (fp_id p) ruling q (List.filter is_for votes) (List.filter is_against votes)
      (length votes) (vr_passed vote_result) current_epoch).

Definition adjudicate_with_selection (s : VRFService) (config : AdjudicationConfig) (p : FraudProof) (nodes : list NodeInfo)
    (votes : list ArbitratorVote) (current_epoch : Z) : result ChallengeError AdjudicationResult :=
  let? q := select_arbitrators s config p nodes in adjudicate config p q votes current_epoch.
End adjudication.

(** ** The life of a window *)

Inductive WindowOp :=
  | WOpen (id : MessageId) (epoch : Z)
  | WChallenge (id : MessageId) (challenger : PublicKey) (epoch : Z)
  | WFinalize (id : MessageId) (epoch : Z)
  | WSlash (id : MessageId)
  | WCleanup.

Definition window_op (op : WindowOp) (m : ChallengeWindowManager) : ChallengeWindowManager :=
  match op with
  | WOpen id e => (open_window id e m).2
  | WChallenge id pk e => (submit_challenge id pk e m).2
  | WFinalize id e => (finalize_window id e m).2
  | WSlash id => (mark_slashed id m).2
  | WCleanup => (cleanup_finalized m).2
  end.
Definition window_run (ops : list WindowOp) (m : ChallengeWindowManager) : ChallengeWindowManager :=
  foldl (fun m op => window_op op m) m ops.

Ltac w_unfold :=
  unfold open_window, submit_challenge, finalize_window, mark_slashed, cleanup_finalized, find_window, update_windows,
    mbind, M_bind, mread, mopt, mbail, mwrite, mret, M_ret, mfail; simpl.

Lemma submit_challenge_eq id pk e m :
  submit_challenge id pk e m =
  match wm_windows m !! id with
  | None => (Err (WindowNotFound id), m)
  | Some w => if is_active w e then (Ok tt, mkWindows (<[id := mark_challenged pk w]> (wm_windows m)) (wm_config m))
              else (Err (WindowExpired (ch_subject_id (cw_metadata w))), m)
  end.
Proof.
  w_unfold. destruct (wm_windows m !! id) as [w|]; [|done]. destruct (is_active w e) eqn:E; [|done].
  apply andb_prop in E as [E _]. simpl. by rewrite E.
Qed.

Lemma finalize_window_eq id e m :
  finalize_window id e m =
  match wm_windows m !! id with
  | None => (Err (WindowNotFound id), m)
  | Some w => if window_is_expired w e
              then if decide (status w = Challenged) then (Err HasActiveChallenge, m)
                   else (Ok tt, mkWindows (<[id := mark_window_finalized w]> (wm_windows m)) (wm_config m))
              else (Err NotExpiredYet, m)
  end.
Proof.
  w_unfold. destruct (wm_windows m !! id) as [w|]; [|done]. destruct (window_is_expired w e); [|done]. simpl.
  case_bool_decide; by case_decide.
Qed.

Lemma mark_slashed_eq id m :
  mark_slashed id m =
  match wm_windows m !! id with
  | None => (Err (WindowNotFound id), m)
  | Some w => (Ok tt, mkWindows (<[id := mark_window_slashed w]> (wm_windows m)) (wm_config m))
  end.
Proof. w_unfold. by destruct (wm_windows m !! id). Qed.

(** The subject an operation is about. *)
Definition op_subject (op : WindowOp) : option MessageId :=
  match op with WOpen id _ | WChallenge id _ _ | WFinalize id _ | WSlash id => Some id | WCleanup => None end.

Lemma window_op_other op id m w :
  op_subject op <> Some id -> wm_windows m !! id = Some w -> is_settled w = false ->
  wm_windows (window_op op m) !! id = Some w.
Proof.
  intros Hne Hw Hs. destruct op as [i e|i pk e|i e|i|]; simpl in *.
  - w_unfold. rewrite lookup_insert_ne; congruence.
  - rewrite submit_challenge_eq. destruct (wm_windows m !! i) as [w'|]; [|done]. destruct (is_active w' e); [|done].
    simpl. rewrite lookup_insert_ne; congruence.
  - rewrite finalize_window_eq. destruct (wm_windows m !! i) as [w'|]; [|done]. destruct (window_is_expired w' e); [|done].
    case_decide; [done|]. simpl. rewrite lookup_insert_ne; congruence.
  - rewrite mark_slashed_eq. destruct (wm_windows m !! i) as [w'|]; [|done]. simpl. rewrite lookup_insert_ne; congruence.
  - w_unfold. apply map_lookup_filter_Some. done.
Qed.

(** A challenge made in time blocks finalization for good: once a window is challenged, no
    run of operations on any subjects, at any epochs, changes that window, as long as the
    subject is neither slashed nor its window opened anew.  In particular it is never
    finalized and never challenged by somebody else. *)
Theorem challenged_not_finalized id w m ops :
  wm_windows m !! id = Some w -> status w = Challenged ->
  Forall (fun op => op <> WSlash id /\ forall e, op <> WOpen id e) ops ->
  wm_windows (window_run ops m) !! id = Some w.
Proof.
  intros Hw Hs Hops. revert m Hw. induction Hops as [|op ops [Hns Hno] _ IH]; intros m Hw; [done|].
  simpl. apply IH. destruct (decide (op_subject op = Some id)) as [Hid|Hne].
  - destruct op as [i e|i pk e|i e|i|]; simpl in *; simplify_eq; try done; [by destruct (Hno e)| |].
    + rewrite submit_challenge_eq, Hw. unfold is_active. rewrite Hs. done.
    + rewrite finalize_window_eq, Hw. destruct (window_is_expired w e); [|done]. by rewrite decide_True.
  - apply window_op_other; [done..|]. unfold is_settled. by rewrite Hs.
Qed.

(** At every epoch an active window can be either challenged or finalized, never both: it can
    be challenged exactly up to its expiry, the submission epoch plus the depth, and finalized
    exactly after it.  A challenge records its challenger, and either operation ends the active
    state, so that the first one wins. *)
Theorem challenge_or_finalize id pk e submitted m :
  let '(r0, m0) := open_window id submitted m in
  r0 = Ok tt /\
  let '(r1, m1) := submit_challenge id pk e m0 in
  let '(r2, m2) := finalize_window id e m0 in
  (is_err r1 = false <-> e <= to_u64 (submitted + window_depth (wm_config m))) /\ is_err r2 = negb (is_err r1) /\
  (is_err r1 = false -> (fun w => (status w, ch_challenger (cw_metadata w))) <$> wm_windows m1 !! id = Some (Challenged, pk)) /\
  (is_err r2 = false -> status <$> wm_windows m2 !! id = Some Finalized) /\
  (is_err r1 = false -> forall e', is_err (finalize_window id e' m1).1 = true /\ is_err (submit_challenge id pk e' m1).1 = true) /\
  (is_err r2 = false -> forall e', is_err (submit_challenge id pk e' m2).1 = true).
Proof.
  destruct (open_window id submitted m) as [r0 m0] eqn:E0. injection E0 as <- <-. split; [done|].
  rewrite submit_challenge_eq, finalize_window_eq. simpl wm_windows. rewrite lookup_insert_eq.
  unfold is_active, window_is_expired. simpl status. unfold expiry. simpl window_expiry_epoch.
  set (x := to_u64 (submitted + window_depth (wm_config m))).
  change (bool_decide (Active = Active)) with true. cbn [andb].
  destruct (e <=? x) eqn:E; zbool.
  - replace (x <? e) with false by (symmetry; apply Z.ltb_ge; lia). simpl. rewrite lookup_insert_eq.
    split_and!; try done. intros _ e'. rewrite submit_challenge_eq, finalize_window_eq. simpl. rewrite lookup_insert_eq.
    simpl. by destruct (window_is_expired _ _).
  - replace (x <? e) with true by (symmetry; apply Z.ltb_lt; lia). simpl. rewrite lookup_insert_eq.
    split_and!; try done; [split; [done|lia]|by rewrite lookup_insert_eq|]. intros _ e'. rewrite submit_challenge_eq. simpl. by rewrite lookup_insert_eq.
Qed.

Definition one_challenged : ChallengeWindowManager :=
  window_run [WOpen [1] 10; WOpen [2] 10; WChallenge [1] [7] 50] (windows_new ChallengeConfig_default).

Lemma challenged_not_finalized_witness :
  let ops := [WFinalize [1] 500; WFinalize [2] 500; WChallenge [1] [8] 60; WCleanup] in
  status <$> wm_windows (window_run ops one_challenged) !! [1] = Some Challenged /\
  wm_windows (window_run ops one_challenged) !! [2] = None.
Proof.
  cbv zeta. split; [|vm_compute; reflexivity].
  destruct (wm_windows one_challenged !! [1]) as [w|] eqn:E; [|vm_compute in E; discriminate E].
  assert (status w = Challenged) as Hs by (vm_compute in E; injection E as <-; reflexivity).
  assert (wm_windows (window_run [WFinalize [1] 500; WFinalize [2] 500; WChallenge [1] [8] 60; WCleanup] one_challenged) !! [1]
    = Some w) as H.
  { apply (challenged_not_finalized [1] w one_challenged); [exact E|exact Hs|]. repeat constructor; discriminate. }
  etransitivity; [exact (f_equal (fmap status) H)|]. simpl. f_equal. exact Hs.
Defined.

(** ** What goes wrong *)

(** A subject found guilty can still be finalized once its window has run out. *)
Theorem slashed_window_finalized :
  let m := window_run [WSlash [1]] one_challenged in
  status <$> wm_windows m !! [1] = Some SlashedSubject /\
  (finalize_window [1] 500 m).1 = Ok tt /\ status <$> wm_windows (finalize_window [1] 500 m).2 !! [1] = Some Finalized.
Proof. vm_compute. repeat split. Qed.

(** Opening the window of a subject again forgets the challenge. *)
Theorem reopened_window_forgets :
  status <$> wm_windows (window_run [WOpen [1] 20] one_challenged) !! [1] = Some Active.
Proof. vm_compute. reflexivity. Qed.

Definition juror (i : Z) : QuorumMember := mkMember [i] (f64_of_Z 60) [i] 0 None None.
Definition jury : QuorumResult := mkQuorum [juror 1; juror 2; juror 3; juror 4] 4 [4]%nat.
Definition some_proof : FraudProof := mkFraudProof [1] [2] [3] (mkEvidence DataCorruption "cid" None ∅) 10.
Definition outsider_vote (i : Z) : ArbitratorVote := mkArbitratorVote [i] ValidProof 12.

(** Votes of outsiders acquit the subject: they are not counted for the threshold but they
    are for the participation, so with no vote of a juror at all, two votes of strangers that
    the proof is valid turn an inconclusive ruling into one that the subject wins, and so does a
    juror who votes against the proof twice; while one juror of four who votes for it, and nobody
    else, makes the challenger win. *)
Theorem outsider_votes_acquit :
  let ruling votes := match adjudicate AdjudicationConfig_default some_proof jury votes 20 with
                      | Ok r => Some (ar_ruling r, ar_threshold_met r) | _ => None end in
  ruling [] = Some (Inconclusive, false) /\
  ruling [outsider_vote 8; outsider_vote 9] = Some (SubjectWins, false) /\
  ruling [mkArbitratorVote [1] InvalidVote 12] = Some (Inconclusive, false) /\
  ruling [mkArbitratorVote [1] InvalidVote 12; mkArbitratorVote [1] InvalidVote 12] = Some (SubjectWins, false) /\
  ruling [outsider_vote 1] = Some (ChallengerWins, true).
Proof. vm_compute. repeat split. Qed.
