(* ===== verification/Treasury.v ===== *)
(** * The treasury

    [adic-economics/src/treasury.rs]: a multisig over the treasury account.  The state holds
    the balance manager the Rust structure shares, the configuration and the proposals.  One
    clock reading [now] serves a whole operation; [digest] is the hex BLAKE3 digest of a
    transfer and [blake3] the hash that names a proposal. *)

From S2P Require Import Prelude F64 Message Amount EconStorage Balance.

Record MultisigConfig := mkMultisig {
  signers : list AccountAddress;
  threshold : Z;
}.

Record TreasuryProposal := mkProposal {
  tp_id : Bytes;
  tp_recipient : AccountAddress;
  tp_amount : AdicAmount;
  tp_reason : Bytes;
  tp_proposer : AccountAddress;
  approvals : gset AccountAddress;
  rejections : gset AccountAddress;
  executed : bool;
  created_at : Z;
  expires_at : Z;
}.

Definition proposal_new (blake3 : Bytes -> Bytes) (now : Z) (recipient : AccountAddress)
    (amount : AdicAmount) (reason : Bytes) (proposer : AccountAddress) : TreasuryProposal :=
  mkProposal (blake3 (recipient ++ to_le_bytes 8 amount ++ reason ++ to_le_bytes 8 now))
    recipient amount reason proposer {[proposer]} ∅ false now (now + 7 * 24 * 3600).

Definition is_expired (now : Z) (p : TreasuryProposal) : bool := expires_at p <? now.

Record TreasuryManager (St : Type) := mkTreasury {
  tm_balances : BalanceManager St;
  multisig : option MultisigConfig;
  proposals : gmap Bytes TreasuryProposal;
  executed_proposals : list Bytes;
}.
Arguments mkTreasury {St}.
Arguments tm_balances {St}.
Arguments multisig {St}.
Arguments proposals {St}.
Arguments executed_proposals {St}.

Definition treasury_new {St} (balances : BalanceManager St) : TreasuryManager St :=
  mkTreasury balances None ∅ [].

(** The bound on the list of executed proposals, and how many are dropped past it. *)
Definition EXECUTED_LIMIT : nat := 1000.
Definition EXECUTED_PRUNE : nat := 100.

Section manager.
Context {St : Type} `{!EconomicsStorage St}.
Context (now : Z) (digest : Bytes -> string) (blake3 : Bytes -> Bytes).

Abbreviation TM := (TreasuryManager St).

Definition in_balances {A} : M (BalanceManager St) EconError A -> M TM EconError A :=
  mzoom tm_balances (fun b t => mkTreasury b (multisig t) (proposals t) (executed_proposals t)).
Definition set_multisig (c : MultisigConfig) : M TM EconError unit :=
  mwrite (fun t => mkTreasury (tm_balances t) (Some c) (proposals t) (executed_proposals t)).
Definition update_proposals (f : gmap Bytes TreasuryProposal -> gmap Bytes TreasuryProposal)
    : M TM EconError unit :=
  mwrite (fun t => mkTreasury (tm_balances t) (multisig t) (f (proposals t)) (executed_proposals t)).
Definition update_executed (f : list Bytes -> list Bytes) : M TM EconError unit :=
  mwrite (fun t => mkTreasury (tm_balances t) (multisig t) (proposals t) (f (executed_proposals t))).

(** The guards every signer's operation starts with. *)
Definition signer_config (a : AccountAddress) : M TM EconError MultisigConfig :=
  config ← mread multisig;
  config ← mopt config MultisigNotInitialized;
  mbail (negb (bool_decide (a ∈ signers config))) NotASigner;;
  mret config.

Definition initialize_multisig (new_signers : list AccountAddress) (new_threshold : Z) : M TM EconError unit :=
  mbail (bool_decide (new_signers = [])) NoSigners;;
  mbail ((new_threshold =? 0) || (to_u32 (Z.of_nat (length new_signers)) <? new_threshold)) InvalidThreshold;;
  mbail (negb (size (list_to_set new_signers : gset AccountAddress) =? length new_signers)%nat) DuplicateSigners;;
  config ← mread multisig;
  mbail (bool_decide (is_Some config)) MultisigAlreadyInitialized;;
  set_multisig (mkMultisig new_signers new_threshold).

Definition update_multisig (new_signers : list AccountAddress) (new_threshold : Z) (approver : AccountAddress)
    : M TM EconError unit :=
  signer_config approver;;
  mbail ((new_threshold =? 0) || (to_u32 (Z.of_nat (length new_signers)) <? new_threshold)) InvalidThreshold;;
  set_multisig (mkMultisig new_signers new_threshold).

Definition propose_transfer (recipient : AccountAddress) (amount : AdicAmount) (reason : Bytes)
    (proposer : AccountAddress) : M TM EconError Bytes :=
  signer_config proposer;;
  balance ← in_balances (get_balance now treasury);
  mbail (balance <? amount) (InsufficientTreasury balance amount);;
  let proposal := proposal_new blake3 now recipient amount reason proposer in
  update_proposals (insert (tp_id proposal) proposal);;
  mret (tp_id proposal).

Definition with_votes (p : TreasuryProposal) (ap re : gset AccountAddress) : TreasuryProposal :=
  mkProposal (tp_id p) (tp_recipient p) (tp_amount p) (tp_reason p) (tp_proposer p) ap re (executed p)
    (created_at p) (expires_at p).
Definition approved_by (a : AccountAddress) (p : TreasuryProposal) : TreasuryProposal :=
  with_votes p ({[a]} ∪ approvals p) (rejections p ∖ {[a]}).
Definition rejected_by (a : AccountAddress) (p : TreasuryProposal) : TreasuryProposal :=
  with_votes p (approvals p ∖ {[a]}) ({[a]} ∪ rejections p).
Definition set_executed (p : TreasuryProposal) : TreasuryProposal :=
  mkProposal (tp_id p) (tp_recipient p) (tp_amount p) (tp_reason p) (tp_proposer p) (approvals p) (rejections p) true
    (created_at p) (expires_at p).

(** The balance is read before and after for the log. *)
Definition pay_out (recipient : AccountAddress) (amount : AdicAmount) : M (BalanceManager St) EconError unit :=
  get_balance now treasury;;
  transfer now digest treasury recipient amount;;
  get_balance now treasury;;
  mret tt.

Definition prune_executed (ids : list Bytes) : list Bytes :=
  if (EXECUTED_LIMIT <? length ids)%nat then drop EXECUTED_PRUNE ids else ids.

(** [proposal] is the [&mut] entry of the map under [id]. *)
Definition execute_proposal_internal (id : Bytes) (proposal : TreasuryProposal) : M TM EconError unit :=
  in_balances (pay_out (tp_recipient proposal) (tp_amount proposal));;
  update_proposals (insert id (set_executed proposal));;
  update_executed (fun ids => prune_executed (ids ++ [tp_id proposal])).

Definition find_proposal (id : Bytes) : M TM EconError TreasuryProposal :=
  ps ← mread proposals;
  mopt (ps !! id) ProposalNotFound.

Definition approve_proposal (id : Bytes) (approver : AccountAddress) : M TM EconError bool :=
  config ← signer_config approver;
  proposal ← find_proposal id;
  mbail (executed proposal) ProposalAlreadyExecuted;;
  mbail (is_expired now proposal) ProposalExpired;;
  let proposal := approved_by approver proposal in
  update_proposals (insert id proposal);;
  if (threshold config <=? to_u32 (Z.of_nat (size (approvals proposal)))) && negb (executed proposal) then
    execute_proposal_internal id proposal;;
    mret true
  else mret false.

Definition reject_proposal (id : Bytes) (rejector : AccountAddress) : M TM EconError unit :=
  signer_config rejector;;
  proposal ← find_proposal id;
  mbail (executed proposal) ProposalAlreadyExecuted;;
  update_proposals (insert id (rejected_by rejector proposal)).

Definition get_proposal (id : Bytes) : M TM EconError (option TreasuryProposal) :=
  mread (fun t => proposals t !! id).
Definition is_active (p : TreasuryProposal) : bool := negb (executed p) && (now <? expires_at p).
Definition get_active_proposals : M TM EconError (list TreasuryProposal) :=
  mread (fun t => List.filter is_active ((map_to_list (proposals t)).*2)).
Definition get_treasury_balance : M TM EconError AdicAmount := in_balances (get_balance now treasury).

Definition is_stale (p : TreasuryProposal) : bool := negb (executed p) && (expires_at p <=? now).
Definition cleanup_expired_proposals : M TM EconError unit :=
  update_proposals (filter (fun '(_, p) => is_stale p = false)).

(** It only writes a log line. *)
Definition emergency_pause (pauser : AccountAddress) : M TM EconError unit :=
  signer_config pauser;;
  mret tt.
End manager.

(** ** What the operations do *)

Ltac t_unfold :=
  unfold signer_config, find_proposal, in_balances, set_multisig, update_proposals, update_executed in *; m_unfold.

Section facts.
Context {St : Type} `{!EconomicsStorage St}.
Context (now : Z) (digest : Bytes -> string) (blake3 : Bytes -> Bytes).
Implicit Types (t : TreasuryManager St) (p : TreasuryProposal).

(** The votes an approval leaves reach the threshold. *)
Definition reaches (c : MultisigConfig) (p : TreasuryProposal) : bool :=
  threshold c <=? to_u32 (Z.of_nat (size (approvals p))).

(** The three outcomes of an approval: refused without a trace, recorded, or recorded and paid
    out; when the payment fails the approval stays recorded. *)
Lemma approve_cases id a t :
  let '(r, t') := approve_proposal now digest id a t in
  is_err r = true /\ t' = t \/
  exists c p, multisig t = Some c /\ a ∈ signers c /\ proposals t !! id = Some p /\
    executed p = false /\ is_expired now p = false /\ multisig t' = Some c /\
    (reaches c (approved_by a p) = false /\ r = Ok false /\ tm_balances t' = tm_balances t /\
       proposals t' = <[id := approved_by a p]> (proposals t) \/
     reaches c (approved_by a p) = true /\
       let '(rp, b) := pay_out now digest (tp_recipient p) (tp_amount p) (tm_balances t) in
       tm_balances t' = b /\
       r = (match rp with Ok _ => Ok true | Err e => Err e | Panic => Panic end) /\
       proposals t' = <[id := (match rp with Ok _ => set_executed | _ => fun p => p end) (approved_by a p)]> (proposals t)).
Proof.
  clear blake3. unfold approve_proposal. t_unfold.
  destruct (multisig t) as [c|] eqn:Ec; simpl; [|by left].
  case_bool_decide as Ha; simpl; [|by left]. destruct (proposals t !! id) as [p|] eqn:Ep; simpl; [|by left].
  destruct (executed p) eqn:Ex; simpl; [by left|]. destruct (is_expired now p) eqn:Ee; simpl; [by left|].
  rewrite andb_true_r. unfold reaches. simpl.
  destruct (threshold c <=? _) eqn:Et; simpl.
  - unfold execute_proposal_internal. t_unfold.
    destruct (pay_out _ _ _ _ _) as [rp b] eqn:Epay; simpl in *.
    destruct rp as [x|e|]; simpl; right; exists c, p; rewrite ?insert_insert_eq, Epay, Ec; naive_solver.
  - right. exists c, p. rewrite Ec. naive_solver.
Qed.

Lemma initialize_frame s k t :
  tm_balances (initialize_multisig s k t).2 = tm_balances t /\ proposals (initialize_multisig s k t).2 = proposals t.
Proof.
  unfold initialize_multisig. t_unfold. case_bool_decide; simpl; [done|]. destruct (_ || _); simpl; [done|].
  destruct (negb _); simpl; [done|]. by case_bool_decide.
Qed.

Context `{!EconomicsStorageLaws St}.

(** What the treasury must have for a payment. *)
Definition payable (recipient : AccountAddress) (amount : AdicAmount) (bm : BalanceManager St) : Prop :=
  amount = 0 \/ treasury <> recipient /\ amount <= bal bm treasury /\ bal bm recipient + amount <= u64_max.

(** The balances after a payment. *)
Definition paid (recipient : AccountAddress) (amount : AdicAmount) (bm bm' : BalanceManager St) : Prop :=
  forall a, bal bm' a = bal bm a + (if decide (a = recipient) then amount else 0)
                                 - (if decide (a = treasury) then amount else 0).

Lemma pay_out_ok recipient amount bm :
  coherent bm -> 0 <= amount ->
  exists bm' r, pay_out now digest recipient amount bm = (r, bm') /\ coherent bm' /\
    (payable recipient amount bm /\ r = Ok tt /\ paid recipient amount bm bm' \/
     ~ payable recipient amount bm /\ is_err r = true /\ same_accounts bm bm').
Proof.
  clear blake3. intros Hc Ha. unfold pay_out.
  destruct (get_balance_ok now treasury bm Hc) as (bm1 & H1 & Hs1 & Hc1 & _).
  rewrite (M_bind_Ok _ _ _ _ _ H1).
  destruct (transfer_ok now digest eq treasury recipient amount Standard bm1 Hc1 Ha) as (bm2 & r & H2 & Hc2 & Hr).
  unfold transfer. destruct (get_balance_ok now treasury bm2 Hc2) as (bm3 & H3 & Hs3 & Hc3 & _).
  unfold payable, paid, same_accounts, bal in *. rewrite Hs1 in Hr.
  destruct (amount =? 0) eqn:E0; [|case_bool_decide as Hft; [|destruct (_ <? amount) eqn:E1; [|destruct (u64_max <? _) eqn:E2]]];
    zbool; destruct Hr as [-> Hv].
  2-4: (rewrite (M_bind_Err _ _ _ _ _ H2); do 2 eexists; split; [done|]; split; [done|];
    right; split; [naive_solver lia|done]).
  1-2: (rewrite (M_bind_Ok _ _ _ _ _ H2), (M_bind_Ok _ _ _ _ _ H3); do 2 eexists; split; [done|]; split; [done|];
    left; split; [naive_solver lia|]; split; [done|]; intros a; rewrite Hs3, Hv).
  - repeat case_decide; lia.
  - unfold moved. rewrite !balance_put_balance. repeat case_decide; subst; naive_solver lia.
Qed.
End facts.

(** ** Runs of the treasury *)

Inductive TreasuryOp :=
  | OpInitialize (new_signers : list AccountAddress) (new_threshold : Z)
  | OpPropose (recipient : AccountAddress) (amount : AdicAmount) (reason : Bytes) (proposer : AccountAddress)
  | OpApprove (id : Bytes) (approver : AccountAddress)
  | OpReject (id : Bytes) (rejector : AccountAddress)
  | OpCleanup.

Section runs.
Context {St : Type} `{!EconomicsStorage St}.
Context (digest : Bytes -> string) (blake3 : Bytes -> Bytes).
Implicit Types (t : TreasuryManager St) (p : TreasuryProposal).

(** The state an operation leaves, whatever it returns. *)
Definition run_op (now : Z) (op : TreasuryOp) t : TreasuryManager St :=
  match op with
  | OpInitialize s k => (initialize_multisig s k t).2
  | OpPropose r x why a => (propose_transfer now blake3 r x why a t).2
  | OpApprove id a => (approve_proposal now digest id a t).2
  | OpReject id a => (reject_proposal id a t).2
  | OpCleanup => (cleanup_expired_proposals now t).2
  end.

(** The arguments have their machine types. *)
Definition op_typed (op : TreasuryOp) : Prop :=
  match op with
  | OpInitialize _ k => is_u32 k
  | OpPropose _ x _ _ => is_u64 x
  | _ => True
  end.

(** Between two operations the balances are anything: other components share them. *)
Inductive treasury_step t : TreasuryManager St -> Prop :=
  | step_op now op : op_typed op -> treasury_step t (run_op now op t)
  | step_balances b : treasury_step t (mkTreasury b (multisig t) (proposals t) (executed_proposals t)).

Inductive treasury_reachable : TreasuryManager St -> Prop :=
  | reachable_new b : treasury_reachable (treasury_new b)
  | reachable_step t t' : treasury_reachable t -> treasury_step t t' -> treasury_reachable t'.

Lemma reachable_op now op t : treasury_reachable t -> op_typed op -> treasury_reachable (run_op now op t).
Proof. intros Ht Hop. eapply reachable_step; [done|]. by constructor. Qed.

Definition config_ok (c : MultisigConfig) : Prop :=
  NoDup (signers c) /\ 1 <= threshold c <= Z.of_nat (length (signers c)).

Definition proposal_ok (c : MultisigConfig) (id : Bytes) p : Prop :=
  tp_id p = id /\ approvals p ⊆ list_to_set (signers c) /\ rejections p ⊆ list_to_set (signers c) /\
  approvals p ## rejections p /\
  (executed p = true -> threshold c <= Z.of_nat (size (approvals p))).

Definition treasury_ok t : Prop :=
  match multisig t with
  | None => proposals t = ∅
  | Some c => config_ok c /\ map_Forall (proposal_ok c) (proposals t)
  end.

(** A signer's operation only rewrites one proposal. *)
Lemma treasury_ok_insert c t t' id p :
  treasury_ok t -> multisig t = Some c -> multisig t' = Some c -> proposals t' = <[id := p]> (proposals t) ->
  proposal_ok c id p -> treasury_ok t'.
Proof.
  unfold treasury_ok. intros Hok Hc -> ->. rewrite Hc in Hok. destruct Hok as [Hcfg Hall].
  split; [done|]. by apply map_Forall_insert_2.
Qed.

Lemma proposal_ok_approved c id a p :
  proposal_ok c id p -> a ∈ signers c -> executed p = false -> proposal_ok c id (approved_by a p).
Proof. intros (? & ? & ? & ? & ?) Ha Hx. unfold proposal_ok. simpl. rewrite Hx. split_and!; [done|set_solver..|done]. Qed.

Lemma proposal_ok_rejected c id a p :
  proposal_ok c id p -> a ∈ signers c -> executed p = false -> proposal_ok c id (rejected_by a p).
Proof. intros (? & ? & ? & ? & ?) Ha Hx. unfold proposal_ok. simpl. rewrite Hx. split_and!; [done|set_solver..|done]. Qed.

Lemma proposal_ok_executed c id a p :
  proposal_ok c id (approved_by a p) -> reaches c (approved_by a p) = true ->
  proposal_ok c id (set_executed (approved_by a p)).
Proof.
  unfold proposal_ok, reaches. simpl. intros (? & ? & ? & ? & _) Hr. split_and!; try done. intros _.
  zbool. unfold to_u32 in Hr. pose proof (Z.mod_le (Z.of_nat (size ({[a]} ∪ approvals p))) (2 ^ 32)). lia.
Qed.

Lemma initialize_ok s k t : is_u32 k -> treasury_ok t -> treasury_ok (initialize_multisig s k t).2.
Proof.
  intros Hk Hok. unfold initialize_multisig. t_unfold.
  case_bool_decide as H0; simpl; [done|]. destruct ((k =? 0) || _) eqn:E1; simpl; [done|].
  destruct (size _ =? _)%nat eqn:E2; simpl; [|done]. case_bool_decide as Hm; simpl; [done|].
  unfold treasury_ok in *. simpl. destruct (multisig t) eqn:Ec; [destruct Hm; by eexists|]. rewrite Hok.
  split; [|apply map_Forall_empty]. apply orb_false_iff in E1 as [Ek1 Ek2]. zbool.
  split; simpl; [by apply size_list_to_set_NoDup|].
  unfold to_u32 in Ek2. pose proof (Z.mod_le (Z.of_nat (length s)) (2 ^ 32)). uint_unfold. lia.
Qed.

Lemma propose_ok now r x why a t : treasury_ok t -> treasury_ok (propose_transfer now blake3 r x why a t).2.
Proof.
  intros Hok. unfold propose_transfer. t_unfold.
  destruct (multisig t) as [c|] eqn:Ec; simpl; [|done].
  case_bool_decide as Ha; simpl; [|done].
  destruct (get_balance _ _ _) as [[b|e|] bm]; simpl; unfold treasury_ok; simpl;
    [destruct (b <? x); simpl|..]; rewrite ?Ec; unfold treasury_ok in Hok; rewrite Ec in Hok; try done.
  destruct Hok as [Hcfg Hall]. split; [done|]. apply map_Forall_insert_2; [|done].
  split_and!; simpl; [done|set_solver..|done].
Qed.

Lemma approve_keeps_ok now id a t : treasury_ok t -> treasury_ok (approve_proposal now digest id a t).2.
Proof.
  intros Hok. pose proof (approve_cases now digest id a t) as H.
  destruct (approve_proposal _ _ _ _ _) as [r t']. simpl.
  destruct H as [[_ ->]|(c & p & Hc & Ha & Hp & Hx & _ & Hc' & H)]; [done|].
  assert (proposal_ok c id (approved_by a p)) as Hpok.
  { unfold treasury_ok in Hok. rewrite Hc in Hok. apply proposal_ok_approved; [by apply Hok|done..]. }
  destruct H as [(_ & _ & _ & Hps)|[Hre H]]; [by eapply treasury_ok_insert|].
  destruct (pay_out _ _ _ _ _) as [rp b]. destruct H as (_ & _ & Hps).
  eapply treasury_ok_insert; [done..|]. destruct rp; try done. by apply proposal_ok_executed.
Qed.

Lemma reject_keeps_ok id a t : treasury_ok t -> treasury_ok (reject_proposal id a t).2.
Proof.
  intros Hok. unfold reject_proposal. t_unfold.
  destruct (multisig t) as [c|] eqn:Ec; simpl; [|done]. case_bool_decide as Ha; simpl; [|done].
  destruct (proposals t !! id) as [p|] eqn:Ep; simpl; [|done]. destruct (executed p) eqn:Ex; simpl; [done|].
  eapply treasury_ok_insert; [done|done|done|done|].
  unfold treasury_ok in Hok. rewrite Ec in Hok. apply proposal_ok_rejected; [by apply Hok|done..].
Qed.

Lemma cleanup_keeps_ok now t : treasury_ok t -> treasury_ok (cleanup_expired_proposals now t).2.
Proof.
  unfold treasury_ok, cleanup_expired_proposals. t_unfold. simpl.
  destruct (multisig t); [|intros ->; apply map_filter_empty].
  intros [Hcfg Hall]. split; [done|]. intros id p Hp. apply map_lookup_filter_Some in Hp as [Hp _]. by apply Hall.
Qed.

Lemma reachable_ok t : treasury_reachable t -> treasury_ok t.
Proof.
  induction 1 as [b|t t' _ IH [now op Hop|b]]; [done| |done].
  destruct op; simpl; [by apply initialize_ok|by apply propose_ok|by apply approve_keeps_ok|
    by apply reject_keeps_ok|by apply cleanup_keeps_ok].
Qed.

(** In every run of the treasury from an empty one, as long as its signers stay the same - proposals, approvals, rejections and
    cleanups by anyone in any order, payments that fail, balances changed by other components
    in between - a proposal that has been executed was approved by at least [threshold] distinct
    signers, none of whom had rejected it when it was paid; and the configuration still has
    distinct signers and a threshold they can reach. *)
Theorem executed_by_threshold t id p :
  treasury_reachable t -> proposals t !! id = Some p -> executed p = true ->
  exists c, multisig t = Some c /\ NoDup (signers c) /\ 1 <= threshold c <= Z.of_nat (length (signers c)) /\
    exists approvers, NoDup approvers /\ threshold c <= Z.of_nat (length approvers) /\
      (forall a, a ∈ approvers -> a ∈ signers c /\ a ∈ approvals p /\ a ∉ rejections p).
Proof.
  intros Hr Hp Hx. apply reachable_ok in Hr. unfold treasury_ok in Hr.
  destruct (multisig t) as [c|]; [|by rewrite Hr in Hp].
  destruct Hr as [[Hnd Hth] Hall]. destruct (Hall id p Hp) as (_ & Hsub & _ & Hdis & Hsz).
  exists c. split_and!; [done|done|lia|lia|]. exists (elements (approvals p)).
  split; [apply NoDup_elements|]. split; [by apply Hsz|]. set_solver.
Qed.

Context `{!EconomicsStorageLaws St}.

(** C4: An approval pays out exactly once.  When it returns [true], the approver is a signer, the
    proposal was open and unexpired and the threshold is reached, exactly the proposed amount
    has moved from the treasury to the recipient, and from then on every vote on that proposal
    is refused and changes nothing; whatever else it returns, no balance changes. *)
Theorem approve_pays_once now id a t :
  coherent (tm_balances t) -> map_Forall (fun _ p => 0 <= tp_amount p) (proposals t) ->
  let (r, t') := approve_proposal now digest id a t in
  coherent (tm_balances t') /\
  (r = Ok true ->
     exists c p, multisig t = Some c /\ a ∈ signers c /\ proposals t !! id = Some p /\
       executed p = false /\ now <= expires_at p /\ reaches c (approved_by a p) = true /\
       paid (tp_recipient p) (tp_amount p) (tm_balances t) (tm_balances t') /\
       forall now' a', is_err (approve_proposal now' digest id a' t').1 = true /\
                       (approve_proposal now' digest id a' t').2 = t' /\
                       is_err (reject_proposal id a' t').1 = true /\ (reject_proposal id a' t').2 = t') /\
  (r <> Ok true -> same_accounts (tm_balances t) (tm_balances t')).
Proof.
  intros Hc Hall. pose proof (approve_cases now digest id a t) as H.
  destruct (approve_proposal _ _ _ _ _) as [r t'].
  destruct H as [[He ->]|(c & p & Hm & Ha & Hp & Hx & Hex & Hm' & H)]; [split; [done|]; by destruct r|].
  destruct H as [(_ & -> & -> & _)|[Hre H]]; [by split|].
  destruct (pay_out_ok now digest (tp_recipient p) (tp_amount p) (tm_balances t) Hc (Hall id p Hp))
    as (bm & rp & Hpay & Hcb & Hcase).
  rewrite Hpay in H. destruct H as (-> & -> & Hps). split; [done|].
  destruct Hcase as [(_ & -> & Hpaid)|(_ & He & Hsame)]; [|split; [by destruct rp|done]].
  split; [|done]. intros _. exists c, p. unfold is_expired in Hex. zbool.
  split_and!; try done. intros now' a'. unfold approve_proposal, reject_proposal. t_unfold.
  rewrite Hm'. simpl. case_bool_decide; simpl; [|done]. rewrite Hps, lookup_insert_eq. done.
Qed.
End runs.

(** ** Instances *)

Definition carol : AccountAddress := replicate 32 3.

Definition short_hash (b : Bytes) : Bytes := take 4 b.
Definition the_id : Bytes := replicate 4 3.

(** A 2-of-3 treasury with 1000 base units; Alice proposes to pay Carol 300, Bob approves. *)
Definition board : TreasuryManager MemoryStorage :=
  run_op no_digest short_hash 9 (OpInitialize [alice; bob; carol] 2)
    (treasury_new (balances_new (mkMemory (mkAccounts {[treasury := 1000]} ∅ ∅) None []))).
Definition proposed : TreasuryManager MemoryStorage :=
  run_op no_digest short_hash 10 (OpPropose carol 300 [] alice) board.
Definition approved : TreasuryManager MemoryStorage :=
  run_op no_digest short_hash 11 (OpApprove the_id bob) proposed.

Lemma approved_reachable : treasury_reachable no_digest short_hash approved.
Proof.
  unfold approved, proposed, board. do 3 (apply reachable_op; [|done]). apply reachable_new.
Qed.

Lemma executed_by_threshold_witness :
  exists p, proposals approved !! the_id = Some p /\ executed p = true /\
    exists c, multisig approved = Some c /\ NoDup (signers c) /\ 1 <= threshold c <= Z.of_nat (length (signers c)) /\
      exists approvers, NoDup approvers /\ threshold c <= Z.of_nat (length approvers) /\
        (forall a, a ∈ approvers -> a ∈ signers c /\ a ∈ approvals p /\ a ∉ rejections p).
Proof.
  destruct (proposals approved !! the_id) as [p|] eqn:E; [|by vm_compute in E].
  assert (executed p = true) as Hx by (vm_compute in E; by injection E as <-).
  exists p. split; [done|]. split; [done|].
  by apply (executed_by_threshold no_digest short_hash approved the_id p approved_reachable).
Defined.

Lemma approve_pays_once_witness :
  (approve_proposal 11 no_digest the_id bob proposed).1 = Ok true /\
  (exists p, paid (tp_recipient p) (tp_amount p) (tm_balances proposed) (tm_balances approved)) /\
  bal (tm_balances approved) carol = 300 /\ bal (tm_balances approved) treasury = 700.
Proof.
  pose proof (approve_pays_once no_digest 11 the_id bob proposed
    ltac:(apply coherent_decide; by vm_compute) ltac:(apply (bool_decide_unpack _); by vm_compute)) as H.
  assert ((approve_proposal 11 no_digest the_id bob proposed).1 = Ok true) as Hr by (by vm_compute).
  split; [exact Hr|]. split; [|split; vm_compute; reflexivity].
  change (tm_balances approved) with (tm_balances (approve_proposal 11 no_digest the_id bob proposed).2).
  destruct (approve_proposal 11 no_digest the_id bob proposed) as [r t'].
  destruct H as (_ & H & _). destruct (H Hr) as (c & p & _ & _ & _ & _ & _ & _ & Hpaid & _). by exists p.
Defined.

(** One signer alone replaces a 2-of-3 board by himself, although the comment in the code says
    that all current signers are to approve. *)
Theorem one_signer_takes_over :
  let (r, t) := update_multisig [bob] 1 bob proposed in
  r = Ok tt /\ multisig t = Some (mkMultisig [bob] 1).
Proof. by vm_compute. Qed.
