(* ===== verification/Engine.v ===== *)
(** * The economics engine

    The [EconomicsEngine] of [adic-economics/src/lib.rs] shares its parts behind [Arc]s; here
    they are the fields of one state, on which the emission controller ([Emission.v]) and the
    genesis allocator ([Genesis.v]) operate.  The invariant they keep is [slack]: the balances of
    any accounts sum to no more than the total supply, less what is still unassigned of it. *)

From S2P Require Import Prelude F64 Message Amount Supply EconStorage Balance Ledger Treasury.

Record EmissionMetrics := mkEmissionMetrics {
  total_emitted : AdicAmount;
  last_emission : Z;
  current_rate : f64;
  years_elapsed : f64;
}.

Record GenesisAllocation := mkAllocation {
  treasury_amount : AdicAmount;
  liquidity_amount : AdicAmount;
  genesis_amount : AdicAmount;
  allocation_timestamp : Z;
  allocation_executed : bool;
}.

Record EconomicsEngine (St : Type) := mkEngine {
  eng_supply : TokenSupply;
  eng_treasury : TreasuryManager St;
  eng_schedule : EmissionSchedule;
  eng_emission : EmissionMetrics;
  eng_allocation : option GenesisAllocation;
  eng_config : AllocationConfig;
}.
Arguments mkEngine {St}.
Arguments eng_supply {St}.
Arguments eng_treasury {St}.
Arguments eng_schedule {St}.
Arguments eng_emission {St}.
Arguments eng_allocation {St}.
Arguments eng_config {St}.

Definition eng_balances {St} (e : EconomicsEngine St) : BalanceManager St := tm_balances (eng_treasury e).

(** The configuration [EconomicsEngine::new] sets up. *)
Definition engine_config : AllocationConfig :=
  mkAllocationConfig (f64_lit 20 100) (f64_lit 30 100) (f64_lit 50 100) 2
    [replicate 32 170; replicate 32 187; replicate 32 204].

Definition engine_new {St} (now : Z) (storage : St) : EconomicsEngine St :=
  mkEngine supply_new (treasury_new (balances_new storage)) (EmissionSchedule_default now)
    (mkEmissionMetrics ZERO now (f64_lit 1 100) f64_zero) None engine_config.

Section engine.
Context {St : Type} `{!EconomicsStorage St}.

Abbreviation EM := (M (EconomicsEngine St) EconError).

Definition in_supply {A} : M TokenSupply EconError A -> EM A :=
  mzoom eng_supply (fun s e =>
    mkEngine s (eng_treasury e) (eng_schedule e) (eng_emission e) (eng_allocation e) (eng_config e)).
Definition in_treasury {A} : M (TreasuryManager St) EconError A -> EM A :=
  mzoom eng_treasury (fun t e =>
    mkEngine (eng_supply e) t (eng_schedule e) (eng_emission e) (eng_allocation e) (eng_config e)).
Definition in_bals {A} (m : M (BalanceManager St) EconError A) : EM A := in_treasury (in_balances m).

Definition set_emission (schedule : EmissionSchedule) (metrics : EmissionMetrics) : EM unit :=
  mwrite (fun e =>
    mkEngine (eng_supply e) (eng_treasury e) schedule metrics (eng_allocation e) (eng_config e)).
Definition set_allocation (a : GenesisAllocation) : EM unit :=
  mwrite (fun e =>
    mkEngine (eng_supply e) (eng_treasury e) (eng_schedule e) (eng_emission e) (Some a) (eng_config e)).

Definition engine_get_total_supply : EM AdicAmount := in_supply get_total_supply.
Definition engine_get_circulating_supply : EM AdicAmount := in_supply get_circulating_supply.
Definition engine_get_transaction_history (a : AccountAddress) : EM (list TransactionRecord) :=
  in_bals (get_transaction_history a).

(** ** The invariant *)

Context `{!EconomicsStorageLaws St}.
Implicit Types e : EconomicsEngine St.

(** Balances are non-negative and, over any set of accounts, leave [k] of the supply unassigned. *)
Record slack (k : Z) e : Prop := {
  sl_within : within (total_supply (ts_metrics (eng_supply e)) - k) (eng_balances e);
  sl_supply : 0 <= total_supply (ts_metrics (eng_supply e)) <= MAX_SUPPLY;
  sl_proposals : map_Forall (fun _ p => 0 <= tp_amount p) (proposals (eng_treasury e));
}.

Lemma slack_le k k' e : k' <= k -> slack k e -> slack k' e.
Proof. intros Hk [Hw Hs Hp]. split; [eapply within_mono; [|done]; lia|done|done]. Qed.

(** The invariant depends on the balances and the total supply only. *)
Lemma slack_ext k e e' :
  eng_balances e' = eng_balances e -> proposals (eng_treasury e') = proposals (eng_treasury e) ->
  total_supply (ts_metrics (eng_supply e')) = total_supply (ts_metrics (eng_supply e)) ->
  slack k e -> slack k e'.
Proof. intros Hb Hp Ht [Hw Hs Hpr]. split; by rewrite ?Hb, ?Hp, ?Ht. Qed.

(** ** What keeps it *)

(** An operation on the supply that leaves the total alone. *)
Definition keeps_total {A} (m : M TokenSupply EconError A) : Prop :=
  forall s, total_supply (ts_metrics (m s).2) = total_supply (ts_metrics s).

Lemma slack_supply {A} k (m : M TokenSupply EconError A) :
  keeps_total m -> hoare (slack k) (in_supply m) (fun _ => slack k) (slack k).
Proof.
  intros Hm. apply hoare_zoom. intros e He. specialize (Hm (eng_supply e)).
  destruct (m (eng_supply e)) as [r s'] eqn:E. simpl in Hm. destruct r; by eapply (slack_ext k e).
Qed.

Lemma slack_minted k a e :
  0 <= a -> total_supply (ts_metrics (eng_supply e)) + a <= MAX_SUPPLY -> slack k e ->
  forall s, total_supply (ts_metrics s) = total_supply (ts_metrics (eng_supply e)) + a ->
  slack (k + a) (mkEngine s (eng_treasury e) (eng_schedule e) (eng_emission e) (eng_allocation e) (eng_config e)).
Proof.
  intros Ha Hm [Hw Hs Hp] s Ht. split; simpl; [|lia|done]. rewrite Ht. unfold eng_balances in *. simpl.
  by replace (_ + a - (k + a)) with (total_supply (ts_metrics (eng_supply e)) - k) by lia.
Qed.

Lemma slack_mint_emission k a :
  is_u64 a -> hoare (slack k) (in_supply (mint_emission a)) (fun _ => slack (k + a)) (slack k).
Proof.
  intros Ha. apply hoare_zoom. intros e He. rewrite mint_emission_spec by (done || apply He).
  destruct (u64_max <? _); [by apply (slack_ext k e)|].
  destruct (MAX_SUPPLY <? _) eqn:E; [by apply (slack_ext k e)|]. zbool. apply slack_minted; [uint_unfold; lia|done..].
Qed.

Lemma slack_mint_genesis k a :
  hoare (slack k) (in_supply (mint_genesis a)) (fun _ => slack (k + GENESIS_SUPPLY)) (slack k).
Proof.
  apply hoare_zoom. intros e He. rewrite mint_genesis_spec.
  destruct (_ =? 0) eqn:E; simpl; [|by apply (slack_ext k e)]. destruct (a =? GENESIS_SUPPLY) eqn:E'; simpl; [|by apply (slack_ext k e)].
  zbool. subst a. apply slack_minted; [amount_unfold; lia|amount_unfold; lia|done|]. simpl. lia.
Qed.

(** An operation on the balances, by what it does to their sum. *)
Lemma slack_bals {A} k k' (m : M (BalanceManager St) EconError A) :
  (forall T, hoare (within T) m (fun _ => within (T + (k - k'))) (within T)) ->
  hoare (slack k) (in_bals m) (fun _ => slack k') (slack k).
Proof.
  intros Hm. apply hoare_zoom. intros e [Hw Hs Hp]. specialize (Hm _ _ Hw). unfold in_balances, mzoom, eng_balances in *.
  destruct (m _) as [r bm]. simpl. destruct r; split; try done. unfold eng_balances. simpl. eapply within_mono; [|done]. lia.
Qed.

Lemma slack_keeps {A} k (m : M (BalanceManager St) EconError A) :
  keeps_within m -> hoare (slack k) (in_bals m) (fun _ => slack k) (slack k).
Proof.
  intros Hm. apply slack_bals. intros T. eapply hoare_conseq; [apply (Hm T)|done| |done].
  intros ? bm. apply within_mono. lia.
Qed.

Lemma slack_get_balance k now a :
  hoare (slack k) (in_bals (get_balance now a)) (fun b e => slack k e /\ 0 <= b) (slack k).
Proof.
  apply hoare_zoom. intros e [Hw Hs Hp]. pose proof (get_balance_covered now a _ _ Hw) as H. unfold in_balances, mzoom, eng_balances in *.
  destruct (get_balance now a _) as [r bm]. simpl. destruct r; [destruct H as [H ?]; split; [|done]|..]; by split.
Qed.

Lemma slack_read_balance k now a :
  hoare (slack k) (in_bals (get_balance now a)) (fun _ => slack k) (slack k).
Proof. apply slack_keeps, get_balance_within. Qed.

Lemma slack_credit k now a x :
  0 <= x -> hoare (slack k) (in_bals (credit now a x)) (fun _ => slack (k - x)) (slack k).
Proof. intros Hx. apply slack_bals. intros T. replace (k - (k - x)) with x by lia. by apply credit_within. Qed.

Lemma slack_transfer k now digest from to x reason :
  0 <= x ->
  hoare (slack k) (in_bals (transfer_with_reason now digest from to x reason)) (fun _ => slack k) (slack k).
Proof. intros Hx. by apply slack_keeps, transfer_within. Qed.

Lemma slack_set_emission k sch me :
  hoare (slack k) (set_emission sch me) (fun _ => slack k) (slack k).
Proof. apply hoare_write. intros e He. by apply (slack_ext k e). Qed.
Lemma slack_set_allocation k a : hoare (slack k) (set_allocation a) (fun _ => slack k) (slack k).
Proof. apply hoare_write. intros e He. by apply (slack_ext k e). Qed.

(** Recording a transaction, whether or not the storage takes it. *)
Lemma slack_record k tx :
  hoare (slack k) (mor (in_bals (record_transaction tx)) (fun _ => mret tt)) (fun _ => slack k) (slack k).
Proof. eapply hoare_or; [apply slack_keeps, record_within|]. intros er. by apply hoare_ret. Qed.

Definition put_treasury (t : TreasuryManager St) e : EconomicsEngine St :=
  mkEngine (eng_supply e) t (eng_schedule e) (eng_emission e) (eng_allocation e) (eng_config e).

(** The treasury with its balances and its proposals changed. *)
Lemma slack_put_treasury k t e :
  within (total_supply (ts_metrics (eng_supply e)) - k) (tm_balances t) ->
  map_Forall (fun _ p => 0 <= tp_amount p) (proposals t) -> slack k e -> slack k (put_treasury t e).
Proof. intros Hw Hp [_ Hs _]. by split. Qed.

(** A payment of the treasury, with the reads around it. *)
Lemma pay_out_within now digest recipient x : 0 <= x -> keeps_within (pay_out (St := St) now digest recipient x).
Proof.
  intros Hx T. unfold pay_out, transfer. eapply hoare_bind; [apply get_balance_within|]. intros ?.
  eapply hoare_bind; [by apply transfer_within|]. intros ?. apply hoare_done, get_balance_within.
Qed.

(** The amounts of the proposals stay non-negative. *)
Lemma amounts_kept now digest blake3 op (t : TreasuryManager St) :
  op_typed op -> map_Forall (fun _ p => 0 <= tp_amount p) (proposals t) ->
  map_Forall (fun _ p => 0 <= tp_amount p) (proposals (run_op digest blake3 now op t)).
Proof.
  intros Hop Hp. destruct op as [s n|r x why a|id a|id a|]; simpl.
  - by rewrite (proj2 (initialize_frame s n t)).
  - unfold propose_transfer. t_unfold. destruct (multisig _); simpl; [|done]. case_bool_decide; simpl; [|done].
    destruct (get_balance now treasury _) as [[b|er|] bm]; simpl; try done. destruct (b <? x); simpl; [done|].
    apply map_Forall_insert_2; [simpl in *; uint_unfold; lia|done].
  - pose proof (approve_cases now digest id a t) as H. destruct (approve_proposal _ _ _ _ _) as [r t']. simpl.
    destruct H as [[_ ->]|(c & p & _ & _ & Hlk & _ & _ & _ & H)]; [done|].
    destruct H as [(_ & _ & _ & ->)|[_ H]]; [apply map_Forall_insert_2; [exact (Hp id p Hlk)|done]|].
    destruct (pay_out _ _ _ _ _) as [rp bm]. destruct H as (_ & _ & ->). apply map_Forall_insert_2; [|done].
    destruct rp; exact (Hp id p Hlk).
  - unfold reject_proposal. t_unfold. destruct (multisig _); simpl; [|done]. case_bool_decide; simpl; [|done].
    destruct (proposals _ !! id) as [p|] eqn:Ep; simpl; [|done]. destruct (executed p); simpl; [done|].
    apply map_Forall_insert_2; [exact (Hp id p Ep)|done].
  - intros id p Hi. apply map_lookup_filter_Some in Hi as [Hi _]. by apply (Hp id).
Qed.

Lemma update_multisig_frame s n a (t : TreasuryManager St) :
  tm_balances (update_multisig s n a t).2 = tm_balances t /\ proposals (update_multisig s n a t).2 = proposals t.
Proof.
  unfold update_multisig. t_unfold. destruct (multisig _); simpl; [|done]. case_bool_decide; simpl; [|done]. by destruct (_ || _).
Qed.

(** Every operation of the treasury keeps the slack. *)
Lemma slack_treasury_op k now digest blake3 op e :
  op_typed op -> slack k e -> slack k (put_treasury (run_op digest blake3 now op (eng_treasury e)) e).
Proof.
  intros Hop He. pose proof He as [Hw Hs Hp]. unfold eng_balances in Hw. apply slack_put_treasury; [| |done].
  - destruct op as [s t|r x why a|id a|id a|]; simpl.
    + by rewrite (proj1 (initialize_frame s t (eng_treasury e))).
    + unfold propose_transfer. t_unfold. destruct (multisig _); simpl; [|done]. case_bool_decide as Hsig; simpl; [|done].
      pose proof (get_balance_within now treasury _ _ Hw) as Hg. destruct (get_balance now treasury _) as [[b|er|] bm]; simpl; try done.
      by destruct (b <? x).
    + pose proof (approve_cases now digest id a (eng_treasury e)) as H. destruct (approve_proposal _ _ _ _ _) as [r t']. simpl.
      destruct H as [[_ ->]|(c & p & _ & _ & Hlk & _ & _ & _ & H)]; [done|]. destruct H as [(_ & _ & -> & _)|[_ H]]; [done|].
      pose proof (pay_out_within now digest (tp_recipient p) (tp_amount p) (Hp id p Hlk) _ _ Hw) as Hpay.
      destruct (pay_out _ _ _ _ _) as [rp bm]. destruct H as (-> & _ & _). by destruct rp.
    + unfold reject_proposal. t_unfold. destruct (multisig _); simpl; [|done]. case_bool_decide; simpl; [|done].
      destruct (proposals _ !! id); simpl; [|done]. by destruct (executed _).
    + done.
  - by apply amounts_kept.
Qed.

(** Nothing unaccounted for, and a cache that shows the balances as they are stored. *)
Definition backed e : Prop := coherent (eng_balances e) /\ slack 0 e.

(** An operation that leaves as much of the supply unassigned as it found, whatever it returns. *)
Definition keeps_slack {A} (m : EM A) : Prop := forall k, hoare (slack k) m (fun _ => slack k) (slack k).

Lemma slack_seq {A B} k0 k k' (m : EM A) (c : A -> EM B) :
  k0 <= k -> hoare (slack k) m (fun _ => slack k') (slack k) ->
  (forall a, hoare (slack k') (c a) (fun _ => slack k0) (slack k0)) ->
  hoare (slack k) (m ≫= c) (fun _ => slack k0) (slack k0).
Proof.
  intros Hk Hm Hc. apply (hoare_bind _ _ _ (fun _ => slack k')); [|done].
  eapply hoare_conseq; [exact Hm|done|done|]. intros e. by apply slack_le.
Qed.

Lemma slack_last {A} k0 k k' (m : EM A) :
  k0 <= k -> k0 <= k' -> hoare (slack k) m (fun _ => slack k') (slack k) ->
  hoare (slack k) m (fun _ => slack k0) (slack k0).
Proof.
  intros Hk Hk' Hm. eapply hoare_conseq; [exact Hm|done|intros ? e; by apply slack_le|intros e; by apply slack_le].
Qed.

Lemma slack_ret {A} k0 k (a : A) : k0 <= k -> hoare (slack k) (mret (M := EM) a) (fun _ => slack k0) (slack k0).
Proof. intros Hk. apply hoare_ret. intros e. by apply slack_le. Qed.

Lemma slack_initialize k s t : hoare (slack k) (in_treasury (initialize_multisig s t)) (fun _ => slack k) (slack k).
Proof.
  apply hoare_zoom. intros e He. destruct (initialize_frame s t (eng_treasury e)) as [Hb Hpr].
  destruct (initialize_multisig s t _) as [r tm]. simpl in *. destruct r; by apply (slack_ext k e).
Qed.
End engine.
