(* ===== verification/Emission.v ===== *)
(** * Token emission

    [adic-economics/src/emission.rs], on the engine's state.  [powf] is the platform's
    [f64::powf], a parameter: nothing below depends on its value. *)

From S2P Require Import Prelude F64 Message Amount Supply EconStorage Balance Ledger Treasury Engine.

Definition MIN_EMISSION_INTERVAL : Z := 60.

(** [365.25 * 24.0 * 3600.0]. *)
Definition SECONDS_PER_YEAR : f64 := f64_mul (f64_mul (f64_lit 36525 100) (f64_of_Z 24)) (f64_of_Z 3600).

Section emission.
Context {St : Type} `{!EconomicsStorage St}.
Context (now : Z) (digest : Bytes -> string) (powf : f64 -> f64 -> f64).

Abbreviation EM := (M (EconomicsEngine St) EconError).

Definition with_schedule (schedule : EmissionSchedule) (e : EconomicsEngine St) : EconomicsEngine St :=
  mkEngine (eng_supply e) (eng_treasury e) schedule (eng_emission e) (eng_allocation e) (eng_config e).

Definition calculate_emission_rate (years : f64) (schedule : EmissionSchedule) : f64 :=
  f64_mul (initial_rate schedule) (powf (f64_lit 1 2) (f64_div years (half_life_years schedule))).

Definition calculate_emission_amount (current_supply : AdicAmount) (rate time_delta_seconds : f64) : AdicAmount :=
  let emission_per_second := f64_div (f64_mul (to_adic current_supply) rate) SECONDS_PER_YEAR in
  from_adic (f64_mul emission_per_second time_delta_seconds).

Definition years_since (schedule : EmissionSchedule) : f64 :=
  f64_div (f64_of_Z (to_i64 (now - start_timestamp schedule))) SECONDS_PER_YEAR.

(** [schedule] and [metrics] are the [&mut] borrows of the caller. *)
Definition mint_and_distribute (amount : AdicAmount) (recipient : AccountAddress) (timestamp : Z)
    (schedule : EmissionSchedule) (metrics : EmissionMetrics) : EM AdicAmount :=
  in_supply (mint_emission amount);;
  in_bals (credit now recipient amount);;
  in_supply (add_transfer_event (mkTransferEvent (replicate 32 0) recipient amount timestamp Emission));;
  let schedule := mkSchedule (initial_rate schedule) (half_life_years schedule) (start_timestamp schedule) timestamp in
  let metrics := mkEmissionMetrics (amount_saturating_add (total_emitted metrics) amount) timestamp
    (calculate_emission_rate (years_elapsed metrics) schedule) (years_elapsed metrics) in
  set_emission schedule metrics;;
  mret amount.

Definition process_emission (recipient : AccountAddress) : EM AdicAmount :=
  schedule ← mread eng_schedule;
  metrics ← mread eng_emission;
  let time_since_last := to_i64 (now - last_emission_timestamp schedule) in
  mbail (time_since_last <? MIN_EMISSION_INTERVAL)
    (EmissionTooFrequent (to_i64 (MIN_EMISSION_INTERVAL - time_since_last)));;
  let rate := calculate_emission_rate (years_since schedule) schedule in
  current_supply ← in_supply get_total_supply;
  let emission_amount := calculate_emission_amount current_supply rate (f64_of_Z time_since_last) in
  mintable ← in_supply (can_mint emission_amount);
  if (mintable : bool) then mint_and_distribute emission_amount recipient now schedule metrics
  else
    remaining ← in_supply remaining_mintable;
    mbail (remaining =? ZERO) MaxSupplyReached;;
    mint_and_distribute remaining recipient now schedule metrics.

(** The treasury-matched part of a reward. *)
Definition matched_reward (validator : AccountAddress) (base_reward : AdicAmount) : EM AdicAmount :=
  treasury_balance ← in_bals (get_balance now treasury);
  let matched_amount := if base_reward <=? treasury_balance then base_reward else treasury_balance in
  mwhen (ZERO <? matched_amount)
    (in_bals (transfer now digest treasury validator matched_amount);;
     in_supply (add_transfer_event (mkTransferEvent treasury validator matched_amount now PoUWReward)));;
  mret matched_amount.

Definition process_pouw_reward (validator : AccountAddress) (base_reward : AdicAmount) (sponsor_funded : bool)
    : EM AdicAmount :=
  reward ← (if sponsor_funded then mret base_reward else matched_reward validator base_reward);
  mintable ← in_supply (can_mint reward);
  if sponsor_funded && mintable then process_emission validator else mret reward.

Definition get_current_emission_rate : EM f64 :=
  mread (fun e => calculate_emission_rate (years_since (eng_schedule e)) (eng_schedule e)).
Definition get_emission_metrics : EM EmissionMetrics := mread eng_emission.

(** [for month in 0..months] with its [break]; [n] months are left. *)
Fixpoint projection (schedule : EmissionSchedule) (current_supply : AdicAmount) (month : Z) (n : nat)
    (total : AdicAmount) : AdicAmount :=
  match n with
  | O => total
  | S n =>
      let rate := calculate_emission_rate (f64_div (f64_of_Z month) (f64_of_Z 12)) schedule in
      let seconds_per_month := f64_mul (f64_mul (f64_lit 3044 100) (f64_of_Z 24)) (f64_of_Z 3600) in
      let month_emission :=
        calculate_emission_amount (amount_saturating_add current_supply total) rate seconds_per_month in
      let total := amount_saturating_add total month_emission in
      if MAX_SUPPLY <=? amount_saturating_add current_supply total then total
      else projection schedule current_supply (month + 1) n total
  end.

Definition get_projected_emission (years : f64) : EM AdicAmount :=
  schedule ← mread eng_schedule;
  current_supply ← in_supply get_total_supply;
  let months := f64_to_u32 (f64_mul years (f64_of_Z 12)) in
  mret (projection schedule current_supply 0 (Z.to_nat months) ZERO).
End emission.

(** ** Properties *)

Section facts.
Context {St : Type} `{!EconomicsStorage St} `{!EconomicsStorageLaws St}.
Context (now : Z) (digest : Bytes -> string) (powf : f64 -> f64 -> f64).
Implicit Types e : EconomicsEngine St.

(** What an emission asks for, before the cap. *)
Definition due e : AdicAmount :=
  calculate_emission_amount (total_supply (ts_metrics (eng_supply e)))
    (calculate_emission_rate powf (years_since now (eng_schedule e)) (eng_schedule e))
    (f64_of_Z (to_i64 (now - last_emission_timestamp (eng_schedule e)))).

(** With the cap. *)
Definition emitted e : AdicAmount :=
  Z.min (due e) (MAX_SUPPLY - total_supply (ts_metrics (eng_supply e))).

Lemma due_u64 e : is_u64 (due e).
Proof. apply from_adic_u64. Qed.

(** Minting what the cap allows, for an account of a backed engine. *)
Lemma mint_and_distribute_ok amount recipient ts sch me e :
  backed e -> 0 <= amount -> total_supply (ts_metrics (eng_supply e)) + amount <= MAX_SUPPLY ->
  exists e', mint_and_distribute now powf amount recipient ts sch me e = (Ok amount, e') /\ backed e' /\
    total_supply (ts_metrics (eng_supply e')) = total_supply (ts_metrics (eng_supply e)) + amount /\
    (forall a, bal (eng_balances e') a = bal (eng_balances e) a + if decide (a = recipient) then amount else 0) /\
    last_emission_timestamp (eng_schedule e') = ts.
Proof.
  intros [Hc He] H0 Hcap. pose proof (proj1 (sl_supply 0 e He)) as Ht. unfold mint_and_distribute.
  assert (is_u64 amount) as Hu by (amount_unfold; lia).
  unfold in_supply, in_bals, in_treasury, in_balances, set_emission. m_unfold.
  rewrite mint_emission_spec by done. rewrite (proj2 (Z.ltb_ge u64_max _)), (proj2 (Z.ltb_ge MAX_SUPPLY _)) by (amount_unfold; lia).
  pose proof He as [[_ Hn Htot] Hm Hp].
  destruct (credit_ok now recipient amount (eng_balances e) Hc) as (bm & r & Hcr & Hc' & Hr).
  unfold set_metrics. simpl. unfold eng_balances in Hcr at 1. rewrite Hcr.
  assert (r = Ok tt /\
    forall a, bal bm a = bal (eng_balances e) a + (if decide (a = recipient) then amount else 0)) as [-> Hbal].
  { destruct (amount =? 0) eqn:E0; zbool.
    { destruct Hr as [-> ->]. split; [done|]. intros a. case_decide; lia. }
    specialize (Htot [recipient] ltac:(by apply NoDup_singleton)). simpl in Htot.
    rewrite !(proj2 (Z.ltb_ge _ _)) in Hr by (amount_unfold; lia).
    destruct Hr as [-> Hv]. split; [done|]. intros a. unfold bal.
    rewrite Hv, balance_put_balance. case_decide; subst; unfold bal; lia. }
  simpl. eexists. split; [done|]. split; [|split; [done|split; [exact Hbal|done]]].
  split; [done|]. split; [|simpl; lia|done]. unfold eng_balances. simpl. split; [intros a i Hi; rewrite (Hc' a i Hi); done| |].
  - intros a. rewrite Hbal. pose proof (Hn a). unfold eng_balances in *. case_decide; lia.
  - intros accounts Hd. rewrite (zsum_ext _ _ accounts (fun a _ => Hbal a)).
    pose proof (zsum_point (bal (eng_balances e)) recipient amount accounts Hd H0). specialize (Htot accounts Hd). unfold eng_balances in *. lia.
Qed.

(** Every branch of [process_emission] on a backed engine: called less than 60 seconds after
    the last emission, or with the cap reached and something due, it is refused and changes
    nothing; otherwise it mints and credits what is due since then, cut to what the cap leaves,
    restarts the clock, and the cap still holds.  So a second call within 60 seconds is refused,
    and the engine stays backed. *)
Theorem process_emission_correct recipient e :
  backed e ->
  let (r, e') := process_emission now powf recipient e in
  let total := total_supply (ts_metrics (eng_supply e)) in
  let waited := to_i64 (now - last_emission_timestamp (eng_schedule e)) in
  if waited <? 60 then r = Err (EmissionTooFrequent (to_i64 (60 - waited))) /\ e' = e
  else if (total =? MAX_SUPPLY) && (0 <? due e) then r = Err MaxSupplyReached /\ e' = e
  else r = Ok (emitted e) /\ backed e' /\
    total_supply (ts_metrics (eng_supply e')) = total + emitted e /\ total + emitted e <= MAX_SUPPLY /\
    (forall a, bal (eng_balances e') a = bal (eng_balances e) a + if decide (a = recipient) then emitted e else 0) /\
    last_emission_timestamp (eng_schedule e') = now /\
    (forall now' recipient', to_i64 (now' - now) < 60 ->
       is_err (process_emission now' powf recipient' e').1 = true).
Proof.
  intros He. destruct (sl_supply 0 e (proj2 He)) as [Ht Hcap]. pose proof (due_u64 e) as Hdue.
  unfold process_emission at 1. unfold in_supply, can_mint, remaining_mintable, get_total_supply, MIN_EMISSION_INTERVAL.
  destruct e as [su tr sch em al cf]. m_unfold. set (e := mkEngine su tr sch em al cf) in *.
  destruct (_ <? 60) eqn:E1; simpl; [done|]. change (calculate_emission_amount _ _ _) with (due e).
  unfold amount_checked_add, u64_checked_add. zbool.
  assert (emitted e = if total_supply (ts_metrics su) + due e <=? MAX_SUPPLY then due e
    else MAX_SUPPLY - total_supply (ts_metrics su)) as Hem.
  { unfold emitted. simpl. destruct (_ <=? MAX_SUPPLY) eqn:E; zbool; lia. }
  assert (match (if total_supply (ts_metrics su) + due e <=? u64_max
                 then Some (total_supply (ts_metrics su) + due e) else None) with
          | Some n => n <=? MAX_SUPPLY | None => false end = (total_supply (ts_metrics su) + due e <=? MAX_SUPPLY)) as ->.
  { destruct (_ <=? u64_max) eqn:E; [done|]. symmetry. zbool. apply Z.leb_gt. amount_unfold. lia. }
  assert (total_supply (ts_metrics su) + emitted e <= MAX_SUPPLY /\ 0 <= emitted e) as [Hle H0].
  { rewrite Hem. simpl in Hcap. destruct (_ <=? MAX_SUPPLY) eqn:E; zbool; uint_unfold; lia. }
  destruct (mint_and_distribute_ok (emitted e) recipient now sch em e He H0 Hle)
    as (e' & Hmint & Hb & Htot & Hbal & Hlast).
  assert (forall now' recipient', to_i64 (now' - now) < 60 ->
    is_err (process_emission now' powf recipient' e').1 = true) as Hagain.
  { intros now' recipient' Hlt. unfold process_emission. m_unfold. rewrite Hlast.
    unfold MIN_EMISSION_INTERVAL. by rewrite (proj2 (Z.ltb_lt _ _) Hlt). }
  assert (amount_saturating_sub MAX_SUPPLY (total_supply (ts_metrics su)) = MAX_SUPPLY - total_supply (ts_metrics su))
    as Hrem by (simpl in Hcap; amount_unfold; lia).
  simpl in Hcap. destruct (_ <=? MAX_SUPPLY) eqn:E; simpl; zbool.
  - replace ((_ =? MAX_SUPPLY) && _) with false by (symmetry; apply andb_false_iff; rewrite Z.eqb_neq, Z.ltb_ge; lia).
    change (mkEngine su tr sch em al cf) with e. rewrite <-Hem, Hmint. by split_and!.
  - rewrite Hrem. unfold ZERO. destruct (_ - _ =? 0) eqn:Er; simpl; zbool.
    + rewrite (proj2 (Z.eqb_eq _ _)), (proj2 (Z.ltb_lt _ _)) by lia. done.
    + rewrite (proj2 (Z.eqb_neq _ _)) by lia. simpl. change (mkEngine su tr sch em al cf) with e.
      rewrite <-Hem, Hmint. by split_and!.
Qed.
End facts.

(** ** Instances *)

(** No account has anything yet. *)
Lemma empty_backed (e : EconomicsEngine MemoryStorage) :
  bm_storage (eng_balances e) = memory_new -> bm_cache (eng_balances e) = ∅ ->
  proposals (eng_treasury e) = ∅ ->
  0 <= total_supply (ts_metrics (eng_supply e)) <= MAX_SUPPLY -> backed e.
Proof.
  intros Hs Hc Hp Ht. assert (forall a, bal (eng_balances e) a = 0) as Hb by (intros a; unfold bal; by rewrite Hs).
  split; [intros a info; by rewrite Hc|]. split; [|lia|by rewrite Hp]. split; [intros a info; by rewrite Hc|intros a; by rewrite Hb|].
  - intros accounts _. rewrite zsum_zero; [lia|]. intros; apply Hb.
Qed.

Definition minted_engine : EconomicsEngine MemoryStorage :=
  (in_supply (mint_genesis GENESIS_SUPPLY) (engine_new 0 memory_new)).2.
Definition flat_powf (x y : f64) : f64 := f64_of_Z 1.

Lemma minted_engine_backed : backed minted_engine.
Proof. by apply empty_backed. Qed.

Lemma process_emission_correct_witness :
  emitted 100 flat_powf minted_engine = 9506426344 /\
  let (r, e') := process_emission 100 flat_powf alice minted_engine in
  r = Ok (emitted 100 flat_powf minted_engine) /\ backed e' /\
  (forall now' recipient', to_i64 (now' - 100) < 60 ->
     is_err (process_emission now' flat_powf recipient' e').1 = true).
Proof.
  split; [vm_compute; reflexivity|].
  pose proof (process_emission_correct 100 flat_powf alice minted_engine minted_engine_backed) as H.
  destruct (process_emission 100 flat_powf alice minted_engine) as [r e'].
  destruct H as (Hr & Hb & _ & _ & _ & _ & Hn). split; [exact Hr|]. split; [exact Hb|exact Hn].
Defined.

(** A sponsor-funded reward is not paid: the validator gets the periodic emission instead, or,
    within 60 seconds of the last one, nothing. *)
Theorem sponsor_reward_not_paid :
  is_err (process_pouw_reward 10 no_digest flat_powf alice 500 true minted_engine).1 = true /\
  (process_pouw_reward 100 no_digest flat_powf alice 500 true minted_engine).1 = Ok 9506426344.
Proof. vm_compute. split; reflexivity. Qed.
