(* ===== verification/Genesis.v ===== *)
(** * Genesis, and the engine as a whole

    [adic-economics/src/genesis.rs] and the operations of [EconomicsEngine] in [lib.rs], on the
    engine's state.  The last section is the safety theorem of the crate: whatever the engine and
    its parts are asked to do, balances never exceed the supply and what was credited past it. *)

From S2P Require Import Prelude F64 Message Amount Supply EconStorage Balance Ledger Treasury Engine Emission.

(** b077b3c71b7c3ba568c56a5fdd317847611bab2d1bf67e8079cb515c1e9eb905 *)
Definition faucet_addr : AccountAddress :=
  [176; 119; 179; 199; 27; 124; 59; 165; 104; 197; 106; 95; 221; 49; 120; 71;
   97; 27; 171; 45; 27; 246; 126; 128; 121; 203; 81; 92; 30; 158; 185; 5].

Definition faucet_amount : AdicAmount := from_adic (f64_of_Z 10000000).

Definition f64_outside_unit (x : f64) : bool := f64_ltb x f64_zero || f64_gtb x (f64_of_Z 1).

Definition validate_config (config : AllocationConfig) : result EconError unit :=
  let total := f64_add (f64_add (treasury_percent config) (liquidity_percent config)) (genesis_percent config) in
  if f64_gtb (f64_abs (f64_sub total (f64_of_Z 1))) (f64_lit 1 1000) then Err InvalidAllocationConfig
  else if f64_outside_unit (treasury_percent config) then Err InvalidAllocationConfig
  else if f64_outside_unit (liquidity_percent config) then Err InvalidAllocationConfig
  else if f64_outside_unit (genesis_percent config) then Err InvalidAllocationConfig
  else if Z.of_nat (length (treasury_multisig_keys config)) <? treasury_multisig_threshold config
  then Err InvalidAllocationConfig
  else Ok tt.

Section genesis.
Context {St : Type} `{!EconomicsStorage St}.
Context (now : Z) (digest : Bytes -> string).

Abbreviation EM := (M (EconomicsEngine St) EconError).

(** [expect]s a valid configuration. *)
Definition with_config (config : AllocationConfig) (e : EconomicsEngine St) : result EconError (EconomicsEngine St) :=
  match validate_config config with
  | Ok _ => Ok (mkEngine (eng_supply e) (eng_treasury e) (eng_schedule e) (eng_emission e) (eng_allocation e) config)
  | _ => Panic
  end.

(** A share of the genesis supply, in base units. *)
Definition share (percent : f64) : AdicAmount := from_adic (f64_mul (to_adic GENESIS_SUPPLY) percent).

(** The record and the event of one genesis allocation; a record that fails is ignored. *)
Definition announce (to : AccountAddress) (amount : AdicAmount) (hash : string) : EM unit :=
  mor (in_bals (record_transaction (mkTx (replicate 32 0) to amount now hash "confirmed"))) (fun _ => mret tt);;
  in_supply (add_transfer_event (mkTransferEvent (replicate 32 0) to amount now Genesis)).

Definition allocate_genesis : EM unit :=
  allocation ← mread eng_allocation;
  mbail (bool_decide (is_Some allocation)) GenesisAlreadyAllocated;;
  in_supply (mint_genesis GENESIS_SUPPLY);;
  config ← mread eng_config;
  let treasury_amount := share (treasury_percent config) in
  let liquidity_amount := share (liquidity_percent config) in
  let genesis_amount := share (genesis_percent config) in
  allocated ← mopt (sum ← amount_checked_add treasury_amount liquidity_amount;
                    amount_checked_add sum genesis_amount) AllocationOverflow;
  mbail (GENESIS_SUPPLY <? allocated) AllocationExceedsSupply;;
  in_bals (credit now treasury treasury_amount);;
  in_supply (update_treasury_balance treasury_amount);;
  in_treasury (initialize_multisig (treasury_multisig_keys config) (treasury_multisig_threshold config));;
  announce treasury treasury_amount "genesis_treasury";;
  in_bals (credit now liquidity_pool liquidity_amount);;
  in_supply (update_liquidity_balance liquidity_amount);;
  announce liquidity_pool liquidity_amount "genesis_liquidity";;
  in_bals (credit now genesis_pool genesis_amount);;
  in_supply (update_genesis_balance genesis_amount);;
  announce genesis_pool genesis_amount "genesis_pool";;
  in_supply (mint_emission faucet_amount);;
  in_bals (credit now faucet_addr faucet_amount);;
  announce faucet_addr faucet_amount "genesis_faucet";;
  in_supply (update_circulating_supply allocated);;
  set_allocation (mkAllocation treasury_amount liquidity_amount genesis_amount now true).

Definition get_allocation : EM (option GenesisAllocation) :=
  mread (fun e => (fun a => mkAllocation (treasury_amount a) (liquidity_amount a) (genesis_amount a)
    (allocation_timestamp a) true) <$> eng_allocation e).
Definition is_allocated : EM bool := mread (fun e => bool_decide (is_Some (eng_allocation e))).

Definition release_genesis_tokens (recipient : AccountAddress) (amount : AdicAmount) : EM unit :=
  allocation ← mread eng_allocation;
  mbail (bool_decide (allocation = None)) GenesisNotAllocated;;
  genesis_balance ← in_bals (get_balance now genesis_pool);
  mbail (genesis_balance <? amount) InsufficientGenesisPool;;
  in_bals (transfer now digest genesis_pool recipient amount);;
  in_supply (update_genesis_balance (amount_saturating_sub genesis_balance amount));;
  circulating ← in_supply get_circulating_supply;
  in_supply (update_circulating_supply (amount_saturating_add circulating amount)).

Definition initialize_genesis : EM unit :=
  done ← is_allocated;
  if (done : bool) then mret tt else allocate_genesis.
End genesis.

(** ** The engine stays backed *)

Section backed.
Context {St : Type} `{!EconomicsStorage St} `{!EconomicsStorageLaws St}.
Context (now : Z) (digest : Bytes -> string) (powf : f64 -> f64 -> f64) (blake3 : Bytes -> Bytes).

Abbreviation EM := (M (EconomicsEngine St) EconError).

Lemma share_nonneg percent : 0 <= share percent.
Proof. unfold share. apply (from_adic_u64 (f64_mul _ percent)). Qed.

Lemma slack_announce {B} k0 k to amount hash (c : unit -> EM B) :
  k0 <= k -> (forall a, hoare (slack k) (c a) (fun _ => slack k0) (slack k0)) ->
  hoare (slack k) (announce now to amount hash ≫= c) (fun _ => slack k0) (slack k0).
Proof.
  intros Hk Hc. eapply slack_seq; [done| |exact Hc]. unfold announce.
  eapply hoare_bind; [apply slack_record|]. intros ?. apply slack_supply. intros s. done.
Qed.

(** One step of an operation that is a sequence of calls. *)
Ltac slack_call :=
  lazymatch goal with
  | |- hoare _ (in_bals (credit _ _ _)) _ _ => apply slack_credit; lia
  | |- hoare _ (in_bals (transfer_with_reason _ _ _ _ _ _)) _ _ => apply slack_transfer; lia
  | |- hoare _ (in_supply (mint_emission _)) _ _ => apply slack_mint_emission; assumption
  | |- hoare _ (in_supply _) _ _ => apply slack_supply; intros ?; reflexivity
  | |- hoare _ (in_treasury _) _ _ => apply slack_initialize
  end.
Ltac slack_step :=
  lazymatch goal with
  | |- hoare _ (announce _ _ _ _ ≫= _) _ _ => apply slack_announce; [lia|intros ?]
  | |- hoare _ (_ ≫= _) _ _ => eapply slack_seq; [lia|slack_call|intros ?]
  end.

Lemma allocate_genesis_slack : keeps_slack (allocate_genesis now (St := St)).
Proof.
  intros k. unfold allocate_genesis. apply hoare_bind_read_any. intros al.
  apply hoare_bind_bail; [done|]. intros _.
  eapply slack_seq; [done|apply slack_mint_genesis|]. intros _. apply hoare_bind_read_any. intros config.
  pose proof (share_nonneg (treasury_percent config)). pose proof (share_nonneg (liquidity_percent config)).
  pose proof (share_nonneg (genesis_percent config)).
  set (ta := share (treasury_percent config)) in *. set (la := share (liquidity_percent config)) in *.
  set (ga := share (genesis_percent config)) in *.
  assert (0 <= GENESIS_SUPPLY) by (amount_unfold; lia).
  apply hoare_bind_opt; [intros s; apply slack_le; lia|]. intros allocated Hal.
  assert (allocated = ta + la + ga) as Hsum.
  { apply bind_Some in Hal as (s & [-> _]%u64_checked_add_Some & [-> _]%u64_checked_add_Some). done. }
  apply hoare_bind_bail; [intros s; apply slack_le; lia|]. intros Hle. zbool.
  pose proof (from_adic_u64 (f64_of_Z 10000000)) as Hfaucet. fold faucet_amount in Hfaucet.
  generalize dependent faucet_amount. intros fa Hfa. assert (0 <= fa) by (uint_unfold; lia). repeat slack_step. eapply slack_last; [| |apply slack_set_allocation]; lia.
Qed.

Lemma initialize_genesis_slack : keeps_slack (initialize_genesis now (St := St)).
Proof.
  intros k. unfold initialize_genesis, is_allocated. apply hoare_bind_read_any. intros d.
  destruct d; [by apply slack_ret|apply allocate_genesis_slack].
Qed.

Lemma release_genesis_slack recipient amount :
  0 <= amount -> keeps_slack (release_genesis_tokens now digest recipient amount (St := St)).
Proof.
  intros Ha k. unfold release_genesis_tokens, transfer. apply hoare_bind_read_any. intros al.
  apply hoare_bind_bail; [done|]. intros _.
  eapply slack_seq; [done|apply slack_read_balance|]. intros b.
  apply hoare_bind_bail; [done|]. intros _. repeat slack_step.
  eapply slack_last; [| |apply slack_supply; by intros ?]; done.
Qed.

Lemma mint_and_distribute_slack amount recipient ts sch me :
  is_u64 amount -> keeps_slack (mint_and_distribute now powf amount recipient ts sch me (St := St)).
Proof.
  intros Ha k. assert (0 <= amount) by (uint_unfold; lia). unfold mint_and_distribute. repeat slack_step.
  eapply slack_seq; [lia|apply slack_set_emission|]. intros ?. apply slack_ret. lia.
Qed.

Lemma remaining_u64 k :
  hoare (slack k) (in_supply (remaining_mintable) : EM AdicAmount) (fun a e => slack k e /\ is_u64 a) (slack k).
Proof.
  apply hoare_zoom. intros e He. simpl. split; [by apply (slack_ext k e)|]. pose proof (sl_supply k e He). amount_unfold. lia.
Qed.

Lemma process_emission_slack recipient : keeps_slack (process_emission now powf recipient (St := St)).
Proof.
  intros k. unfold process_emission. do 2 (apply hoare_bind_read_any; intros ?).
  apply hoare_bind_bail; [done|]. intros _. repeat slack_step.
  case_match; [apply mint_and_distribute_slack, from_adic_u64|].
  eapply hoare_bind; [apply remaining_u64|]. intros rem. cbv beta. apply hoare_pure. intros Hrem.
  apply hoare_bind_bail; [done|]. intros _. by apply mint_and_distribute_slack.
Qed.

(** The treasury balance is non-negative, so what is matched of a reward is. *)
Lemma matched_reward_slack validator base_reward k :
  0 <= base_reward ->
  hoare (slack k) (matched_reward now digest validator base_reward : EM AdicAmount) (fun _ => slack k) (slack k).
Proof.
  intros Hb. unfold matched_reward. eapply hoare_bind; [apply slack_get_balance|].
  intros b. cbv beta. apply hoare_pure. intros H0. set (m := if _ <=? _ then _ else _).
  assert (0 <= m) by (unfold m; by case_match). unfold mwhen, transfer.
  apply (hoare_bind _ _ _ (fun _ => slack k)); [|intros ?; by apply slack_ret].
  destruct (ZERO <? m); [|by apply slack_ret]. repeat slack_step.
  eapply slack_last; [| |apply slack_supply; by intros ?]; done.
Qed.

Lemma process_pouw_slack validator base_reward sponsor :
  0 <= base_reward -> keeps_slack (process_pouw_reward now digest powf validator base_reward sponsor (St := St)).
Proof.
  intros Hb k. unfold process_pouw_reward. eapply (hoare_bind _ _ _ (fun _ => slack k)).
  - destruct sponsor; [by apply slack_ret|by apply matched_reward_slack].
  - intros reward. repeat slack_step. case_match; [apply process_emission_slack|by apply slack_ret].
Qed.
End backed.

(** ** Runs of the engine *)

(** The operations of [TokenSupply]. *)
Inductive SupplyOp :=
  | SMintGenesis (amount : AdicAmount)
  | SMintEmission (amount : AdicAmount)
  | SBurn (amount : AdicAmount)
  | STreasuryBalance (amount : AdicAmount)
  | SLiquidityBalance (amount : AdicAmount)
  | SGenesisBalance (amount : AdicAmount)
  | SCirculating (amount : AdicAmount)
  | SEvent (event : TransferEvent).

(** The public operations of the engine and of the parts it hands out: the genesis allocator, the
    emission controller, the balance manager, the token supply and the treasury. *)
Inductive EngineOp :=
  | EInitializeGenesis
  | EAllocateGenesis
  | EReleaseGenesis (recipient : AccountAddress) (amount : AdicAmount)
  | EEmission (recipient : AccountAddress)
  | EReward (validator : AccountAddress) (base_reward : AdicAmount) (sponsor_funded : bool)
  | EBalances (op : BalanceOp)
  | ESupply (op : SupplyOp)
  | ETreasury (op : TreasuryOp)
  | EUpdateMultisig (new_signers : list AccountAddress) (new_threshold : Z) (approver : AccountAddress).

Section engine_runs.
Context {St : Type} `{!EconomicsStorage St}.
Context (digest : Bytes -> string) (powf : f64 -> f64 -> f64) (blake3 : Bytes -> Bytes).
Implicit Types e : EconomicsEngine St.

Definition supply_op (op : SupplyOp) : M TokenSupply EconError unit :=
  match op with
  | SMintGenesis x => mint_genesis x
  | SMintEmission x => mint_emission x
  | SBurn x => burn x
  | STreasuryBalance x => update_treasury_balance x
  | SLiquidityBalance x => update_liquidity_balance x
  | SGenesisBalance x => update_genesis_balance x
  | SCirculating x => update_circulating_supply x
  | SEvent ev => add_transfer_event ev
  end.

Definition engine_op (now : Z) (op : EngineOp) e : EconomicsEngine St :=
  match op with
  | EInitializeGenesis => (initialize_genesis now e).2
  | EAllocateGenesis => (allocate_genesis now e).2
  | EReleaseGenesis r x => (release_genesis_tokens now digest r x e).2
  | EEmission r => (process_emission now powf r e).2
  | EReward v x s => (process_pouw_reward now digest powf v x s e).2
  | EBalances op => (in_bals (balance_op digest now op) e).2
  | ESupply op => (in_supply (supply_op op) e).2
  | ETreasury op => put_treasury (run_op digest blake3 now op (eng_treasury e)) e
  | EUpdateMultisig s k a => (in_treasury (update_multisig s k a) e).2
  end.

(** Amounts have their machine type. *)
Definition engine_op_typed (op : EngineOp) : Prop :=
  match op with
  | EReleaseGenesis _ x | EReward _ x _ | ESupply (SMintEmission x) => is_u64 x
  | EBalances op => balance_op_typed op
  | ETreasury op => op_typed op
  | _ => True
  end.

(** The engine after a schedule of operations, each at its time. *)
Definition engine_run (ops : list (Z * EngineOp)) e : EconomicsEngine St :=
  foldl (fun e p => engine_op p.1 p.2 e) e ops.

(** What the balance manager was asked to credit, and did, past the supply: by the caller of
    [credit] itself, not by the operations above that mint what they credit. *)
Definition unminted (now : Z) (op : EngineOp) e : Z :=
  match op with EBalances op => credited now op (eng_balances e) | _ => 0 end.
Fixpoint unminted_run (ops : list (Z * EngineOp)) e : Z :=
  match ops with
  | [] => 0
  | (now, op) :: ops => unminted now op e + unminted_run ops (engine_op now op e)
  end.

Context `{!EconomicsStorageLaws St}.

Lemma keeps_slack_op {A} k (m : M (EconomicsEngine St) EconError A) e : keeps_slack m -> slack k e -> slack k (m e).2.
Proof. intros Hm He. specialize (Hm k e He). by destruct (m e) as [[a|er|] e']. Qed.

Lemma supply_op_slack k op e :
  engine_op_typed (ESupply op) -> slack k e -> slack k (in_supply (supply_op op) e).2.
Proof.
  intros Hop He. assert (0 <= GENESIS_SUPPLY) by (amount_unfold; lia). destruct op as [x|x|x|x|x|x|x|ev]; simpl in Hop.
  - apply (keeps_slack_op k (in_supply (mint_genesis x))); [|done]. intros k'. eapply slack_last; [done| |apply slack_mint_genesis]. lia.
  - apply (keeps_slack_op k (in_supply (mint_emission x))); [|done]. intros k'. eapply slack_last; [done| |by apply slack_mint_emission]. uint_unfold. lia.
  - apply (keeps_slack_op k (in_supply (burn x))); [|done]. intros k'. apply slack_supply. intros s. rewrite burn_spec. by destruct (_ <? _).
  - by apply (slack_ext k e).
  - by apply (slack_ext k e).
  - by apply (slack_ext k e).
  - by apply (slack_ext k e).
  - by apply (slack_ext k e).
Qed.

Lemma engine_op_slack k now op e :
  engine_op_typed op -> slack k e -> slack (k - unminted now op e) (engine_op now op e).
Proof.
  intros Hop He. destruct op as [| |r x|r|v x s|op|op|op|s n a]; cbn [unminted]; rewrite ?Z.sub_0_r; cbn [engine_op] in *.
  - apply keeps_slack_op; [apply initialize_genesis_slack|done].
  - apply keeps_slack_op; [apply allocate_genesis_slack|done].
  - apply keeps_slack_op; [apply release_genesis_slack; simpl in Hop; uint_unfold; lia|done].
  - apply keeps_slack_op; [apply process_emission_slack|done].
  - apply keeps_slack_op; [apply process_pouw_slack; simpl in Hop; uint_unfold; lia|done].
  - destruct He as [Hw Hs Hp]. pose proof (balance_op_within now digest op _ _ Hop Hw) as H.
    unfold in_bals, in_treasury, in_balances, mzoom, eng_balances in *. destruct (balance_op _ _ _ _) as [r bm].
    split; [|done|done]. unfold eng_balances. simpl in *. eapply within_mono; [|exact H]. lia.
  - by apply supply_op_slack.
  - by apply slack_treasury_op.
  - destruct (update_multisig_frame s n a (eng_treasury e)) as [Hb Hpr]. unfold in_treasury, mzoom.
    destruct (update_multisig s n a (eng_treasury e)) as [r t]. by apply (slack_ext k e).
Qed.

(** C1: Balances never exceed the supply and what was credited past it.  Start the engine on an empty
    storage and let it run any schedule of the public operations of the engine and its parts - genesis,
    releases, emissions, rewards, mints and burns, transfers, message transfers, credits, debits, locks,
    cache clearing, treasury proposals and votes, new signers - with any arguments and at any times, whether
    they succeed or fail half-way: the total supply stays within the cap of 10^9 ADIC, no balance is
    negative, and the balances of any distinct accounts sum to at most the total supply and the amounts of
    the direct credits that went through.  Without direct credits, they are at most the supply. *)
Theorem engine_backed e (ops : list (Z * EngineOp)) :
  (forall a, bal (eng_balances e) a = 0) -> bm_cache (eng_balances e) = ∅ -> proposals (eng_treasury e) = ∅ ->
  eng_supply e = supply_new -> Forall (fun p => engine_op_typed p.2) ops ->
  let e' := engine_run ops e in
  0 <= total_supply (ts_metrics (eng_supply e')) <= MAX_SUPPLY /\
  (forall a, 0 <= bal (eng_balances e') a) /\
  (forall accounts, NoDup accounts ->
     zsum (bal (eng_balances e')) accounts <= total_supply (ts_metrics (eng_supply e')) + unminted_run ops e) /\
  (Forall (fun p => forall a x, p.2 <> EBalances (BCredit a x)) ops -> unminted_run ops e = 0).
Proof.
  intros Hb Hc Hp Hs Hops.
  assert (slack 0 e) as He.
  { split; [|rewrite Hs; simpl; amount_unfold; lia|by rewrite Hp]. split; [intros a i; by rewrite Hc|intros a; by rewrite Hb|].
    intros accounts _. rewrite zsum_zero by (intros; apply Hb). by rewrite Hs. }
  assert (forall k e, slack k e -> slack (k - unminted_run ops e) (engine_run ops e)) as Hrun.
  { clear -Hops EconomicsStorageLaws0. induction Hops as [|[now op] ops Hop _ IH]; intros k e He; [by rewrite Z.sub_0_r|].
    cbn [unminted_run engine_run foldl]. rewrite Z.sub_add_distr. apply IH. by apply engine_op_slack. }
  destruct (Hrun 0 e He) as [[_ Hn Ht] Hm _]. split; [done|]. split; [done|]. split.
  - intros accounts Hd. specialize (Ht accounts Hd). lia.
  - clear. intros H. revert e. induction H as [|[now op] ops Hop _ IH]; intros e; [done|]. cbn [unminted_run]. rewrite IH.
    destruct op as [| | | | |[]| | |]; try done. by edestruct Hop.
Qed.
End engine_runs.

Definition fresh_engine : EconomicsEngine MemoryStorage := engine_new 0 memory_new.
Definition first_day : list (Z * EngineOp) :=
  [(1, EInitializeGenesis); (100, EEmission alice); (100, EBalances (BTransfer faucet_addr bob 5 Faucet));
   (100, EBalances (BCredit alice 3)); (100, EBalances (BLock bob 2));
   (101, EReleaseGenesis bob 7)].

Lemma engine_backed_witness :
  bal (eng_balances (engine_run no_digest flat_powf short_hash first_day fresh_engine)) bob = 12 /\
  unminted_run no_digest flat_powf short_hash first_day fresh_engine = 3 /\
  zsum (bal (eng_balances (engine_run no_digest flat_powf short_hash first_day fresh_engine)))
    [treasury; liquidity_pool; genesis_pool; faucet_addr; alice; bob] <=
  total_supply (ts_metrics (eng_supply (engine_run no_digest flat_powf short_hash first_day fresh_engine))) +
  unminted_run no_digest flat_powf short_hash first_day fresh_engine.
Proof.
  split; [vm_compute; reflexivity|]. split; [vm_compute; reflexivity|].
  apply (engine_backed no_digest flat_powf short_hash fresh_engine first_day).
  - intros a. reflexivity.
  - reflexivity.
  - reflexivity.
  - reflexivity.
  - repeat constructor; simpl; uint_unfold; lia.
  - apply (bool_decide_unpack _). vm_compute. exact I.
Defined.

(** A node that sets up its genesis credits the allocations of its configuration after the engine has
    minted and distributed the genesis supply, without minting them: with the 60M of the first allocation
    the balances are 60M above the supply. *)
Theorem node_genesis_unbacked :
  let e := engine_run no_digest flat_powf short_hash
    [(1, EInitializeGenesis); (1, EBalances (BCredit carol (from_adic (f64_of_Z 60000000))))] fresh_engine in
  total_supply (ts_metrics (eng_supply e)) = 310000000 * ADIC_BASE_UNIT /\
  zsum (bal (eng_balances e)) [treasury; liquidity_pool; genesis_pool; faucet_addr; carol] = 370000000 * ADIC_BASE_UNIT.
Proof. vm_compute. split; reflexivity. Qed.

(** Genesis, from a fresh engine with the configuration the code builds: it succeeds, mints
    310M ADIC in all - 20%, 30% and 50% of the 300M to the treasury, the liquidity pool and the
    genesis pool with nothing lost to rounding, and 10M to the faucet - sets up the 2-of-3
    multisig, and a second run changes nothing. *)
Theorem genesis_allocation_exact :
  let e := (initialize_genesis 1 fresh_engine).2 in
  (initialize_genesis 1 fresh_engine).1 = Ok tt /\
  total_supply (ts_metrics (eng_supply e)) = 310000000 * ADIC_BASE_UNIT /\
  bal (eng_balances e) treasury = 60000000 * ADIC_BASE_UNIT /\
  bal (eng_balances e) liquidity_pool = 90000000 * ADIC_BASE_UNIT /\
  bal (eng_balances e) genesis_pool = 150000000 * ADIC_BASE_UNIT /\
  bal (eng_balances e) faucet_addr = 10000000 * ADIC_BASE_UNIT /\
  (threshold <$> multisig (eng_treasury e)) = Some 2 /\
  initialize_genesis 2 e = (Ok tt, e).
Proof. cbv zeta. split_and!; vm_compute; reflexivity. Qed.

(** The whole genesis supply is put in circulation, so every later release counts its tokens a
    second time; the faucet's 10M are not counted.  Releasing half of the pool takes the
    circulating supply above the total. *)
Theorem circulating_exceeds_total :
  let e := engine_run no_digest flat_powf short_hash
    [(1, EInitializeGenesis); (2, EReleaseGenesis bob (75000000 * ADIC_BASE_UNIT))] fresh_engine in
  total_supply (ts_metrics (eng_supply e)) = 310000000 * ADIC_BASE_UNIT /\
  circulating_supply (ts_metrics (eng_supply e)) = 375000000 * ADIC_BASE_UNIT.
Proof. vm_compute. split; reflexivity. Qed.
