(* ===== verification/Dag.v ===== *)
(** * The message DAG

    [adic-storage/src/memory.rs], the in-memory backend, and the operations of [StorageEngine] in
    [store.rs] over it.  A hash map or set handed out as a vector comes in no particular order;
    here it is the order of the finite map, and nothing proved depends on it.  A [DateTime] is
    kept in seconds, so its milliseconds, the key of the time index, are a parameter. *)

From S2P Require Import Prelude F64 Padic Message.
From stdpp Require Import pretty.
Open Scope Z_scope.

Inductive StorageFault := AlreadyExists (id : MessageId) | NotFound (id : MessageId).

Record MemoryBackend := mkBackend {
  mb_messages : gmap MessageId AdicMessage;
  mb_parents : gmap MessageId (list MessageId);
  mb_children : gmap MessageId (list MessageId);
  mb_tips : gset MessageId;
  mb_metadata : gmap (MessageId * string) Bytes;
  mb_reputation : gmap PublicKey f64;
  mb_finalized : gmap MessageId Bytes;
  mb_conflicts : gmap string (gset MessageId);
  mb_ball_index : gmap (Z * Bytes) (gset MessageId);
  mb_time_index : gmap Z (list MessageId);
}.

Definition backend_new : MemoryBackend := mkBackend ∅ ∅ ∅ ∅ ∅ ∅ ∅ ∅ ∅ ∅.

Abbreviation DM := (M MemoryBackend StorageFault).

(** [entry(k).or_default().push(x)]. *)
Definition push_at `{Countable K} {A} (k : K) (x : A) (m : gmap K (list A)) : gmap K (list A) :=
  <[k := default [] (m !! k) ++ [x]]> m.
(** [entry(k).or_default().insert(x)]. *)
Definition insert_at `{Countable K} `{Countable A} (k : K) (x : A) (m : gmap K (gset A)) : gmap K (gset A) :=
  <[k := {[x]} ∪ default ∅ (m !! k)]> m.

(** ** The backend *)

Section backend.
Context (timestamp_millis : AdicMessage -> Z).

Definition put_message (m : AdicMessage) : DM unit :=
  messages ← mread mb_messages;
  mbail (bool_decide (is_Some (messages !! msg_id m))) (AlreadyExists (msg_id m));;
  mwrite (fun s => mkBackend (<[msg_id m := m]> (mb_messages s)) (mb_parents s) (mb_children s) (mb_tips s)
    (mb_metadata s) (mb_reputation s) (mb_finalized s) (mb_conflicts s) (mb_ball_index s)
    (push_at (timestamp_millis m) (msg_id m) (mb_time_index s))).

Definition get_message (id : MessageId) : DM (option AdicMessage) := mread (fun s => mb_messages s !! id).
Definition has_message (id : MessageId) : DM bool := mread (fun s => bool_decide (is_Some (mb_messages s !! id))).
Definition list_messages : DM (list MessageId) := mread (fun s => (map_to_list (mb_messages s)).*1).

(** The message leaves its parents' lists of children; its own children keep it as a parent. *)
Definition delete_message (id : MessageId) : DM unit :=
  mwrite (fun s =>
    let children :=
      foldl (fun c p => alter (List.filter (fun x => negb (bool_decide (x = id)))) p c) (mb_children s)
        (default [] (mb_parents s !! id)) in
    mkBackend (delete id (mb_messages s)) (delete id (mb_parents s)) (delete id children) (mb_tips s)
      (mb_metadata s) (mb_reputation s) (mb_finalized s) (mb_conflicts s) (mb_ball_index s) (mb_time_index s)).

Definition add_parent_child (parent child : MessageId) : DM unit :=
  mwrite (fun s => mkBackend (mb_messages s) (push_at child parent (mb_parents s))
    (push_at parent child (mb_children s)) (mb_tips s) (mb_metadata s) (mb_reputation s) (mb_finalized s)
    (mb_conflicts s) (mb_ball_index s) (mb_time_index s)).

Definition children_of (s : MemoryBackend) (id : MessageId) : list MessageId := default [] (mb_children s !! id).
Definition parents_of (s : MemoryBackend) (id : MessageId) : list MessageId := default [] (mb_parents s !! id).
Definition get_children (id : MessageId) : DM (list MessageId) := mread (fun s => children_of s id).
Definition get_parents (id : MessageId) : DM (list MessageId) := mread (fun s => parents_of s id).

Definition update_tips (f : gset MessageId -> gset MessageId) : DM unit :=
  mwrite (fun s => mkBackend (mb_messages s) (mb_parents s) (mb_children s) (f (mb_tips s)) (mb_metadata s)
    (mb_reputation s) (mb_finalized s) (mb_conflicts s) (mb_ball_index s) (mb_time_index s)).
Definition add_tip (id : MessageId) : DM unit := update_tips (fun t => {[id]} ∪ t).
Definition remove_tip (id : MessageId) : DM unit := update_tips (fun t => t ∖ {[id]}).
Definition get_tips : DM (list MessageId) := mread (fun s => elements (mb_tips s)).

Definition put_metadata (id : MessageId) (key : string) (value : Bytes) : DM unit :=
  mwrite (fun s => mkBackend (mb_messages s) (mb_parents s) (mb_children s) (mb_tips s)
    (<[(id, key) := value]> (mb_metadata s)) (mb_reputation s) (mb_finalized s) (mb_conflicts s)
    (mb_ball_index s) (mb_time_index s)).
Definition get_metadata (id : MessageId) (key : string) : DM (option Bytes) :=
  mread (fun s => mb_metadata s !! (id, key)).

Definition put_reputation (pk : PublicKey) (score : f64) : DM unit :=
  mwrite (fun s => mkBackend (mb_messages s) (mb_parents s) (mb_children s) (mb_tips s) (mb_metadata s)
    (<[pk := score]> (mb_reputation s)) (mb_finalized s) (mb_conflicts s) (mb_ball_index s) (mb_time_index s)).
Definition backend_get_reputation (pk : PublicKey) : DM (option f64) := mread (fun s => mb_reputation s !! pk).

Definition mark_finalized (id : MessageId) (artifact : Bytes) : DM unit :=
  mwrite (fun s => mkBackend (mb_messages s) (mb_parents s) (mb_children s) (mb_tips s) (mb_metadata s)
    (mb_reputation s) (<[id := artifact]> (mb_finalized s)) (mb_conflicts s) (mb_ball_index s) (mb_time_index s)).
Definition is_finalized (id : MessageId) : DM bool :=
  mread (fun s => bool_decide (is_Some (mb_finalized s !! id))).
Definition get_finality_artifact (id : MessageId) : DM (option Bytes) := mread (fun s => mb_finalized s !! id).
(** The same write as [mark_finalized]. *)
Definition store_finality_artifact (id : MessageId) (artifact : Bytes) : DM unit := mark_finalized id artifact.
Definition get_recently_finalized (limit : nat) : DM (list MessageId) :=
  mread (fun s => take limit ((map_to_list (mb_finalized s)).*1)).

Definition add_to_conflict (conflict_id : string) (id : MessageId) : DM unit :=
  mwrite (fun s => mkBackend (mb_messages s) (mb_parents s) (mb_children s) (mb_tips s) (mb_metadata s)
    (mb_reputation s) (mb_finalized s) (insert_at conflict_id id (mb_conflicts s)) (mb_ball_index s)
    (mb_time_index s)).
Definition get_conflict_set (conflict_id : string) : DM (list MessageId) :=
  mread (fun s => elements (default ∅ (mb_conflicts s !! conflict_id))).

Definition add_to_ball_index (ax : Z) (ball : Bytes) (id : MessageId) : DM unit :=
  mwrite (fun s => mkBackend (mb_messages s) (mb_parents s) (mb_children s) (mb_tips s) (mb_metadata s)
    (mb_reputation s) (mb_finalized s) (mb_conflicts s) (insert_at (ax, ball) id (mb_ball_index s))
    (mb_time_index s)).
Definition get_ball_members (ax : Z) (ball : Bytes) : DM (list MessageId) :=
  mread (fun s => elements (default ∅ (mb_ball_index s !! (ax, ball)))).

(** [BTreeMap::range(start..end)] in key order, up to [limit] ids. *)
Definition get_messages_in_time_range (start : Z) (stop : option Z) (limit : nat) : DM (list MessageId) :=
  mread (fun s =>
    let stop := default (2 ^ 63 - 1) stop in
    let in_range := List.filter (fun e => (start <=? e.1) && (e.1 <? stop)) (map_to_list (mb_time_index s)) in
    take limit (concat (snd <$> isort (fun a b => a.1 <=? b.1) in_range))).
Definition get_messages_after_timestamp (ts : Z) (limit : nat) : DM (list MessageId) :=
  get_messages_in_time_range ts None limit.

(** ** The engine.  Transactions of this backend are no-ops. *)

Fixpoint from_le_bytes (bs : Bytes) : Z :=
  match bs with
  | [] => 0
  | b :: bs => b + 256 * from_le_bytes bs
  end.

Definition get_message_height (id : MessageId) : DM (option Z) :=
  bytes ← get_metadata id "height";
  mret (match bytes with
        | Some bytes => if (length bytes =? 8)%nat then Some (from_le_bytes bytes) else None
        | None => None
        end).

(** The loop over the parents; a parent without a height counts as none. *)
Fixpoint max_parent_height (ps : list MessageId) (acc : Z) : DM Z :=
  match ps with
  | [] => mret acc
  | p :: ps =>
      h ← get_message_height p;
      max_parent_height ps (Z.max acc (default 0 h))
  end.

Definition calculate_message_height (m : AdicMessage) : DM Z :=
  if bool_decide (parents m = []) then mret 0
  else
    h ← max_parent_height (parents m) 0;
    mret (to_u64 (h + 1)).

Fixpoint for_each {A} (f : A -> DM unit) (l : list A) : DM unit :=
  match l with
  | [] => mret tt
  | x :: l => f x;; for_each f l
  end.

Definition store_message (m : AdicMessage) : DM unit :=
  height ← calculate_message_height m;
  put_message m;;
  put_metadata (msg_id m) "height" (to_le_bytes 8 height);;
  for_each (fun p => add_parent_child p (msg_id m)) (parents m);;
  for_each remove_tip (parents m);;
  add_tip (msg_id m).

Definition update_reputation (pk : PublicKey) (score : f64) : DM unit := put_reputation pk score.

Definition finalize_message (id : MessageId) (artifact : Bytes) : DM unit :=
  mark_finalized id artifact;;
  remove_tip id.

Definition engine_delete_message (id : MessageId) : DM unit :=
  delete_message id;;
  remove_tip id.

Definition index_by_ball (ax : Z) (ball : Bytes) (id : MessageId) : DM unit := add_to_ball_index ax ball id.

Fixpoint get_messages_bulk (ids : list MessageId) : DM (list AdicMessage) :=
  match ids with
  | [] => mret []
  | id :: ids =>
      m ← get_message id;
      rest ← get_messages_bulk ids;
      mret (option_list m ++ rest)
  end.

Definition checkpoint_key (height : Z) : string := "checkpoint:" +:+ pretty (Z.to_N height).
Definition store_checkpoint (height : Z) (root : MessageId) : DM unit :=
  put_metadata (replicate 32 0) (checkpoint_key height) root.
Definition get_checkpoint (height : Z) : DM (option MessageId) :=
  bytes ← get_metadata (replicate 32 0) (checkpoint_key height);
  mret (match bytes with
        | Some bytes => if (length bytes =? 32)%nat then Some bytes else None
        | None => None
        end).
End backend.

(** ** The structure of the DAG *)

Definition stored (s : MemoryBackend) (id : MessageId) : Prop := is_Some (mb_messages s !! id).

Definition height_of (s : MemoryBackend) (id : MessageId) : option Z :=
  match mb_metadata s !! (id, "height"%string) with
  | Some bytes => if (length bytes =? 8)%nat then Some (from_le_bytes bytes) else None
  | None => None
  end.

(** A height is one more than the largest among the parents, and 0 without parents. *)
Definition height_ok (s : MemoryBackend) (m : AdicMessage) (h : Z) : Prop :=
  (parents m = [] -> h = 0) /\
  (forall p, p ∈ parents m -> exists hp, height_of s p = Some hp /\ 0 <= hp < h) /\
  (parents m <> [] -> exists p, p ∈ parents m /\ height_of s p = Some (h - 1)).

(** The invariant of a run: [seen] are the messages that were ever stored and [dead] the ids that were
    deleted, some of which may be stored again. *)
Record dag_inv (seen : gmap MessageId AdicMessage) (dead : gset MessageId) (s : MemoryBackend) : Prop := {
  di_message id m : mb_messages s !! id = Some m -> seen !! id = Some m /\ parents_of s id = parents m;
  di_absent id : mb_messages s !! id = None -> parents_of s id = [] /\ children_of s id = [];
  di_seen id m : seen !! id = Some m ->
    msg_id m = id /\ (stored s id \/ id ∈ dead) /\ (forall p, p ∈ parents m -> is_Some (seen !! p)) /\
    exists h, height_of s id = Some h /\ 0 <= h < Z.of_nat (size seen) /\ height_ok s m h;
  di_listed p c : (occ c (children_of s p) <= occ p (parents_of s c))%nat;
  di_sym p c : p ∉ dead -> occ p (parents_of s c) = occ c (children_of s p);
  di_tip id : id ∈ mb_tips s -> stored s id /\ children_of s id = [];
  di_childless id : stored s id -> children_of s id = [] -> mb_finalized s !! id = None ->
    (forall c m, c ∈ dead -> seen !! c = Some m -> id ∉ parents m) -> id ∈ mb_tips s;
}.
(** Nothing was deleted. *)
Definition dag_ok (s : MemoryBackend) : Prop := dag_inv (mb_messages s) ∅ s.

Section without_deletions.
Context (s : MemoryBackend) (Hs : dag_ok s).
Lemma do_message id m : mb_messages s !! id = Some m -> msg_id m = id /\ parents_of s id = parents m /\ Forall (stored s) (parents m).
Proof using Hs.
  intros Hm. destruct (di_message _ _ _ Hs id m Hm) as [_ H2]. destruct (di_seen _ _ _ Hs id m Hm) as (H1 & _ & H3 & _).
  split; [done|]. split; [done|]. by apply Forall_forall.
Qed.
Lemma do_absent id : mb_messages s !! id = None -> parents_of s id = [].
Proof using Hs. apply (di_absent _ _ _ Hs). Qed.
Lemma do_sym p c : occ p (parents_of s c) = occ c (children_of s p).
Proof using Hs. apply (di_sym _ _ _ Hs), not_elem_of_empty. Qed.
Lemma do_height id m : mb_messages s !! id = Some m ->
  exists h, height_of s id = Some h /\ 0 <= h < Z.of_nat (size (mb_messages s)) /\ height_ok s m h.
Proof using Hs. intros Hm. by destruct (di_seen _ _ _ Hs id m Hm) as (_ & _ & _ & H). Qed.
End without_deletions.

Lemma backend_new_inv : dag_inv ∅ ∅ backend_new.
Proof. split; try done. intros id [m Hm]. done. Qed.

(** An operation on the rest of the state. *)
Lemma dag_inv_ext seen dead s s' :
  mb_messages s' = mb_messages s -> mb_parents s' = mb_parents s -> mb_children s' = mb_children s ->
  mb_tips s' = mb_tips s -> (forall id, height_of s' id = height_of s id) ->
  (forall id, mb_finalized s' !! id = None -> mb_finalized s !! id = None) ->
  dag_inv seen dead s -> dag_inv seen dead s'.
Proof.
  intros Em Ep Ec Et Eh Ef [H1 H2 H3 H4 H5 H6 H7].
  assert (forall m h, height_ok s' m h <-> height_ok s m h) as Hh
    by (intros m h; unfold height_ok; by setoid_rewrite Eh).
  split; unfold stored, parents_of, children_of in *; rewrite ?Em, ?Ep, ?Ec, ?Et; try done.
  - intros id m Hm. rewrite Eh. setoid_rewrite Hh. by apply H3.
  - intros id Hs Hc Hf. by apply H7, Ef.
Qed.
Lemma dag_ok_ext s s' :
  mb_messages s' = mb_messages s -> mb_parents s' = mb_parents s -> mb_children s' = mb_children s ->
  mb_tips s' = mb_tips s -> (forall id, height_of s' id = height_of s id) ->
  (forall id, mb_finalized s' !! id = None -> mb_finalized s !! id = None) ->
  dag_ok s -> dag_ok s'.
Proof. intros Em. unfold dag_ok. rewrite Em. by apply dag_inv_ext. Qed.

Lemma child_stored s p c : dag_ok s -> c ∈ children_of s p -> stored s c /\ stored s p.
Proof.
  intros Hs Hc. apply occ_pos in Hc. rewrite <-(do_sym s Hs) in Hc. apply occ_pos in Hc.
  destruct (mb_messages s !! c) as [m|] eqn:Em; [|rewrite (do_absent s Hs c Em) in Hc; by apply not_elem_of_nil in Hc].
  destruct (do_message s Hs c m Em) as (_ & Hp & Hall). rewrite Hp in Hc. split; [by exists m|].
  by apply (proj1 (Forall_forall _ _) Hall).
Qed.

(** [add_parent_child] for every parent. *)
Definition linked (child : MessageId) (ps : list MessageId) (s : MemoryBackend) : MemoryBackend :=
  mkBackend (mb_messages s) (foldl (fun m p => push_at child p m) (mb_parents s) ps)
    (foldl (fun m p => push_at p child m) (mb_children s) ps) (mb_tips s) (mb_metadata s) (mb_reputation s)
    (mb_finalized s) (mb_conflicts s) (mb_ball_index s) (mb_time_index s).

Lemma for_each_link child ps s : for_each (fun p => add_parent_child p child) ps s = (Ok tt, linked child ps s).
Proof.
  revert s. induction ps as [|p ps IH]; intros s; [by destruct s|].
  simpl. unfold mbind, M_bind, add_parent_child at 1, mwrite. by rewrite IH.
Qed.

Lemma parents_of_linked child ps s id :
  parents_of (linked child ps s) id = parents_of s id ++ if decide (id = child) then ps else [].
Proof.
  unfold parents_of, linked. simpl. generalize (mb_parents s). induction ps as [|p ps IH]; intros m; simpl.
  { case_decide; by rewrite app_nil_r. }
  rewrite IH. unfold push_at. rewrite lookup_insert. case_decide as H1; subst.
  - rewrite !decide_True by done. simpl. by rewrite <-app_assoc.
  - by rewrite !decide_False by done.
Qed.

Lemma occ_children_linked child ps s p c :
  occ c (children_of (linked child ps s) p) =
  (occ c (children_of s p) + if decide (c = child) then occ p ps else 0)%nat.
Proof.
  unfold children_of, linked. simpl. generalize (mb_children s). induction ps as [|q ps IH]; intros m; simpl.
  { case_decide; rewrite ?occ_nil; lia. }
  rewrite IH. unfold push_at. rewrite lookup_insert, occ_cons.
  destruct (decide (p = q)) as [->|Hpq].
  - rewrite decide_True by done. simpl. rewrite occ_app, occ_cons, occ_nil. repeat case_decide; subst; try done; lia.
  - rewrite !decide_False by done. repeat case_decide; subst; try done; lia.
Qed.

Lemma for_each_untip ps s :
  for_each remove_tip ps s = (Ok tt, (update_tips (fun t => t ∖ list_to_set ps) s).2).
Proof.
  revert s. induction ps as [|p ps IH]; intros s; simpl.
  { unfold update_tips, mwrite. simpl. rewrite difference_empty_L. by destruct s. }
  unfold mbind, M_bind, remove_tip, update_tips, mwrite. unfold remove_tip, update_tips, mwrite in IH. rewrite IH.
  simpl. by rewrite difference_difference_l_L.
Qed.

Lemma from_to_le_bytes n z : 0 <= z < 256 ^ Z.of_nat n -> from_le_bytes (to_le_bytes n z) = z.
Proof.
  revert z. induction n as [|n IH]; intros z Hz; simpl; [simpl in Hz; lia|].
  rewrite Nat2Z.inj_succ, Z.pow_succ_r in Hz by lia.
  rewrite IH by (split; [apply Z.div_pos; lia|apply Z.div_lt_upper_bound; lia]).
  pose proof (Z.div_mod z 256). lia.
Qed.

(** The height the engine computes, as a function of the state. *)
Definition message_height (m : AdicMessage) (s : MemoryBackend) : Z :=
  if bool_decide (parents m = []) then 0
  else to_u64 (foldl (fun acc p => Z.max acc (default 0 (height_of s p))) 0 (parents m) + 1).

Lemma calculate_height_spec m s : calculate_message_height m s = (Ok (message_height m s), s).
Proof.
  unfold calculate_message_height, message_height. case_bool_decide; [done|].
  assert (forall ps acc, max_parent_height ps acc s =
    (Ok (foldl (fun acc p => Z.max acc (default 0 (height_of s p))) acc ps), s)) as Hmax.
  { induction ps as [|p ps IH]; intros acc; [done|]. simpl. rewrite <-IH. done. }
  unfold mbind, M_bind. by rewrite Hmax.
Qed.

(** What storing a new message makes of the state. *)
Definition with_message (millis : Z) (m : AdicMessage) (s : MemoryBackend) : MemoryBackend :=
  let h := to_le_bytes 8 (message_height m s) in
  let l := linked (msg_id m) (parents m) s in
  mkBackend (<[msg_id m := m]> (mb_messages s)) (mb_parents l) (mb_children l)
    ({[msg_id m]} ∪ mb_tips s ∖ list_to_set (parents m)) (<[(msg_id m, "height"%string) := h]> (mb_metadata s))
    (mb_reputation s) (mb_finalized s) (mb_conflicts s) (mb_ball_index s)
    (push_at millis (msg_id m) (mb_time_index s)).

Lemma store_message_spec tm m s :
  store_message tm m s =
  if bool_decide (stored s (msg_id m)) then (Err (AlreadyExists (msg_id m)), s)
  else (Ok tt, with_message (tm m) m s).
Proof.
  unfold store_message. rewrite (M_bind_Ok _ _ _ _ _ (calculate_height_spec m s)).
  unfold put_message, stored. unfold mbind at 1, M_bind at 1. unfold mbind at 1, M_bind at 1.
  unfold mread, mbail. simpl. case_bool_decide; [done|]. unfold mbind, M_bind, mwrite, mret, M_ret, put_metadata.
  unfold mwrite. rewrite for_each_link. rewrite for_each_untip. done.
Qed.

Lemma height_of_with millis m s id :
  ~ stored s (msg_id m) -> is_u64 (message_height m s) ->
  height_of (with_message millis m s) id = if decide (id = msg_id m) then Some (message_height m s) else height_of s id.
Proof.
  intros Hs Hu. unfold height_of, with_message. cbn [mb_metadata]. case_decide as Hid.
  - subst. rewrite lookup_insert_eq, length_to_le_bytes. rewrite Nat.eqb_refl. rewrite from_to_le_bytes; [done|]. uint_unfold. lia.
  - rewrite lookup_insert_ne by congruence. done.
Qed.

(** The height of a message whose parents are stored. *)
Lemma message_height_ok m s n :
  (forall p, p ∈ parents m -> exists hp, height_of s p = Some hp /\ 0 <= hp < n) -> 0 <= n < u64_max ->
  height_ok s m (message_height m s) /\ 0 <= message_height m s <= n.
Proof.
  intros Hh Hsz. unfold message_height, height_ok. case_bool_decide as Hnil.
  { rewrite Hnil. split; [|lia]. split; [done|]. split; [by intros p ?%elem_of_nil|done]. }
  set (f := fun acc p => Z.max acc (default 0 (height_of s p))).
  assert (forall ps acc, (forall p, p ∈ ps -> p ∈ parents m) -> 0 <= acc ->
    acc <= foldl f acc ps /\ (foldl f acc ps = acc \/ exists p, p ∈ ps /\ height_of s p = Some (foldl f acc ps)) /\
    forall p hp, p ∈ ps -> height_of s p = Some hp -> hp <= foldl f acc ps) as Hf.
  { induction ps as [|p ps IH]; intros acc Hsub Hacc; simpl.
    { split; [lia|]. split; [by left|]. by intros p hp ?%elem_of_nil. }
    destruct (Hh p (Hsub p ltac:(left))) as (hp & Hp & Hhp).
    assert (f acc p = Z.max acc hp) as -> by (unfold f; by rewrite Hp).
    destruct (IH (Z.max acc hp)) as (H1 & H2 & H3); [intros; apply Hsub; by right|lia|].
    split; [lia|]. split.
    - destruct H2 as [->|(q & Hq & Hqh)]; [|right; exists q; split; [by right|done]].
      destruct (Z.max_spec acc hp) as [[_ ->]|[_ ->]]; [right; exists p; split; [left|done]|by left].
    - intros q hq [->|Hq]%elem_of_cons Hqh; [rewrite Hp in Hqh; injection Hqh; lia|by apply (H3 q)]. }
  destruct (Hf (parents m) 0) as (H1 & H2 & H3); [done|done|].
  assert (exists p, p ∈ parents m /\ height_of s p = Some (foldl f 0 (parents m))) as (p & Hp & Hmax).
  { destruct H2 as [H2|H2]; [|done]. destruct (parents m) as [|p ps]; [done|]. exists p. split; [left|].
    destruct (Hh p ltac:(left)) as (hp & Hhp & ?). rewrite Hhp. f_equal.
    specialize (H3 p hp ltac:(left) Hhp). lia. }
  destruct (Hh p Hp) as (hp & Hhp & Hb). rewrite Hmax in Hhp. injection Hhp as Hhp.
  unfold to_u64. rewrite Z.mod_small by (uint_unfold; lia). split; [|lia]. split; [done|]. split.
  - intros q Hq. destruct (Hh q Hq) as (hq & Hhq & ?). exists hq. split; [done|]. specialize (H3 q hq Hq Hhq). lia.
  - intros _. exists p. split; [done|]. rewrite Hmax. f_equal. lia.
Qed.

Lemma height_ok_unique s m h h' : height_ok s m h -> height_ok s m h' -> h = h'.
Proof.
  intros (A1 & A2 & A3) (B1 & B2 & B3). destruct (decide (parents m = [])) as [E|E]; [rewrite A1, B1; done|].
  destruct (A3 E) as (p & Hp & Hph), (B3 E) as (q & Hq & Hqh). destruct (A2 q Hq) as (x & Hx & ?), (B2 p Hp) as (y & Hy & ?). simplify_eq. lia.
Qed.

(** Storing a message whose parents are stored keeps the structure. *)
Lemma with_message_inv seen dead millis m s :
  dag_inv seen dead s -> ~ stored s (msg_id m) -> Forall (stored s) (parents m) ->
  Z.of_nat (size seen) < u64_max -> (forall m', seen !! msg_id m = Some m' -> m' = m) ->
  dag_inv (<[msg_id m := m]> seen) dead (with_message millis m s).
Proof.
  intros Hs Hnew Hps Hsz Hsame. rewrite Forall_forall in Hps.
  assert (forall p, p ∈ parents m -> is_Some (seen !! p)) as Hpseen.
  { intros p Hp. destruct (Hps p Hp) as [mp Hmp]. destruct (di_message _ _ _ Hs p mp Hmp) as [H _]. by exists mp. }
  destruct (message_height_ok m s (Z.of_nat (size seen))) as [Hh Hhr]; [|lia|].
  { intros p Hp. destruct (Hpseen p Hp) as [mp Hmp]. destruct (di_seen _ _ _ Hs p mp Hmp) as (_ & _ & _ & h & ? & ? & _). by exists h. }
  assert (is_u64 (message_height m s)) as Hu by (uint_unfold; lia).
  pose proof (fun id => height_of_with millis m s id Hnew Hu) as Hheight.
  set (s' := with_message millis m s) in *.
  assert (mb_messages s !! msg_id m = None) as Habs by (by apply eq_None_not_Some).
  destruct (di_absent _ _ _ Hs _ Habs) as [Hnopar Hnochild].
  assert (forall id, stored s' id <-> id = msg_id m \/ stored s id) as Hst.
  { intros id. unfold stored. simpl. rewrite lookup_insert_is_Some'. naive_solver. }
  assert (forall p, p ∈ parents m -> p <> msg_id m) as Hself by (intros p Hp ->; by apply Hnew, Hps).
  assert (forall id, parents_of s' id = if decide (id = msg_id m) then parents m else parents_of s id) as Hpar.
  { intros id. change (parents_of s' id) with (parents_of (linked (msg_id m) (parents m) s) id).
    rewrite parents_of_linked. case_decide as Hid; [subst; by rewrite Hnopar|by rewrite app_nil_r]. }
  assert (forall p c, occ c (children_of s' p) =
    (occ c (children_of s p) + if decide (c = msg_id m) then occ p (parents m) else 0)%nat) as Hch
    by (intros p c; apply occ_children_linked).
  assert (forall p, children_of s' p = [] <-> children_of s p = [] /\ p ∉ parents m) as Hempty.
  { intros p. split.
    - intros He. split.
      + destruct (children_of s p) as [|c cs] eqn:E; [done|]. specialize (Hch p c). rewrite He, E, occ_nil, occ_cons in Hch.
        rewrite decide_True in Hch by done. lia.
      + intros Hp%occ_pos. specialize (Hch p (msg_id m)). rewrite He, occ_nil, decide_True in Hch by done. lia.
    - intros [He Hp]. destruct (children_of s' p) as [|c cs] eqn:E; [done|]. specialize (Hch p c).
      rewrite E, He, occ_nil, occ_cons, decide_True in Hch by done. rewrite <-occ_pos in Hp. case_decide; lia. }
  assert (forall x mx, seen !! x = Some mx -> height_of s' x = height_of s x) as Hkeep.
  { intros x mx Hx. rewrite Hheight. case_decide as E; [|done]. subst x. pose proof (Hsame mx Hx). subst mx.
    destruct (di_seen _ _ _ Hs _ _ Hx) as (_ & _ & _ & h & -> & _ & Hok). f_equal. by eapply height_ok_unique. }
  assert (forall m' h, (forall p, p ∈ parents m' -> is_Some (seen !! p)) -> height_ok s m' h -> height_ok s' m' h) as Hmono.
  { intros m' h Hall (G1 & G2 & G3). assert (forall p, p ∈ parents m' -> height_of s' p = height_of s p) as Hk by (intros p [mp Hp]%Hall; by eapply Hkeep).
    split; [done|]. split.
    - intros p Hp. rewrite Hk by done. by apply G2.
    - intros Hne. destruct (G3 Hne) as (p & Hp & Hph). exists p. by rewrite Hk. }
  assert (forall p, is_Some (seen !! p) -> is_Some (<[msg_id m := m]> seen !! p)) as Hgrow by (intros p Hp; apply lookup_insert_is_Some'; by right).
  split.
  - intros id m' Hm'. rewrite Hpar. change (mb_messages s') with (<[msg_id m := m]> (mb_messages s)) in Hm'. destruct (decide (id = msg_id m)) as [->|Hid].
    + rewrite lookup_insert_eq in Hm' |- *. by injection Hm' as <-.
    + rewrite lookup_insert_ne in Hm' |- * by done. by apply (di_message _ _ _ Hs).
  - intros id Hid. simpl in Hid. apply lookup_insert_None in Hid as [Hid Hne]. destruct (di_absent _ _ _ Hs id Hid) as [H1 H2].
    rewrite Hpar, decide_False by congruence. split; [done|]. apply Hempty. split; [done|]. intros Hp. destruct (Hps id Hp). congruence.
  - intros id m' Hm'. rewrite Hheight, Hst. destruct (decide (id = msg_id m)) as [->|Hid].
    + rewrite lookup_insert_eq in Hm'. injection Hm' as <-. split; [done|]. split; [by left; left|]. split; [intros; by apply Hgrow, Hpseen|].
      eexists. split; [done|]. split; [|by apply Hmono]. destruct (seen !! msg_id m) as [m'|] eqn:Es.
      * pose proof (Hsame m' eq_refl). subst m'. destruct (di_seen _ _ _ Hs _ _ Es) as (_ & _ & _ & h & _ & Hb & Hok).
        rewrite (height_ok_unique _ _ _ _ Hh Hok), (insert_id seen) by done. done.
      * rewrite map_size_insert_None by done. lia.
    + rewrite lookup_insert_ne in Hm' by done. destruct (di_seen _ _ _ Hs id m' Hm') as (H1 & H2 & H3 & h & H4 & H5 & H6).
      split; [done|]. split; [tauto|]. split; [intros; by apply Hgrow, H3|]. exists h. split; [done|]. split; [|by apply Hmono].
      rewrite map_size_insert. destruct (seen !! msg_id m); simpl; lia.
  - intros p c. rewrite Hch, Hpar. case_decide as Hc; [|pose proof (di_listed _ _ _ Hs p c); lia]. subst c.
    pose proof (di_listed _ _ _ Hs p (msg_id m)) as H. rewrite Hnopar, occ_nil in H. lia.
  - intros p c Hp. rewrite Hch, Hpar. case_decide as Hc; [|rewrite (di_sym _ _ _ Hs) by done; lia]. subst c.
    pose proof (di_sym _ _ _ Hs p (msg_id m) Hp) as H. rewrite Hnopar, occ_nil in H. lia.
  - intros id Hid. rewrite Hst, Hempty. simpl in Hid. apply elem_of_union in Hid as [Hid|Hid].
    + apply elem_of_singleton in Hid. subst id. split; [by left|]. split; [done|]. intros Hp. by apply (Hself _ Hp).
    + apply elem_of_difference in Hid as [Ht Hp]. rewrite elem_of_list_to_set in Hp.
      destruct (di_tip _ _ _ Hs id Ht) as [? ?]. split; [by right|done].
  - intros id Hid Hc Hf Hdead. apply Hst in Hid. apply Hempty in Hc as [Hc Hp]. simpl in Hf |- *.
    apply elem_of_union. destruct Hid as [->|Hid]; [left; by apply elem_of_singleton|right].
    apply elem_of_difference. rewrite elem_of_list_to_set. split; [|done]. apply (di_childless _ _ _ Hs); [done..|].
    intros c m' Hcd Hcm. apply (Hdead c m' Hcd). rewrite lookup_insert. case_decide as E; [|done]. subst c. f_equal. symmetry. by apply Hsame.
Qed.

Lemma finalize_inv seen dead id a s : dag_inv seen dead s -> dag_inv seen dead (finalize_message id a s).2.
Proof.
  intros [H1 H2 H3 H4 H5 H6 H7]. split; try done.
  - intros id' [Hid _]%elem_of_difference. by apply H6.
  - intros id' Hs Hc Hf Hd. simpl in Hf. apply lookup_insert_None in Hf as [Hf Hne]. simpl.
    apply elem_of_difference. split; [by apply H7|]. rewrite elem_of_singleton. congruence.
Qed.
Lemma finalize_ok id a s : dag_ok s -> dag_ok (finalize_message id a s).2.
Proof. apply finalize_inv. Qed.

(** The lists of children after a deletion. *)
Lemma children_unlinked (ps : list MessageId) (c0 : MessageId) (m : gmap MessageId (list MessageId)) (p : MessageId) :
  default [] (foldl (fun c p => alter (List.filter (fun x => negb (bool_decide (x = c0)))) p c) m ps !! p) =
  if decide (p ∈ ps) then List.filter (fun x => negb (bool_decide (x = c0))) (default [] (m !! p)) else default [] (m !! p).
Proof.
  set (f := List.filter (fun x => negb (bool_decide (x = c0)))).
  assert (forall l, f (f l) = f l) as Hff.
  { intros l. unfold f. induction l as [|x l IH]; [done|]. simpl. destruct (negb _) eqn:E; simpl; [by rewrite E, IH|done]. }
  revert m. induction ps as [|q ps IH]; intros m; [done|]. cbn [foldl]. rewrite IH. destruct (decide (p = q)) as [->|Hne].
  - rewrite lookup_alter_eq. rewrite (decide_True (P := q ∈ q :: ps)) by left. destruct (m !! q); simpl; [|by destruct (decide _)]. by destruct (decide _).
  - rewrite lookup_alter_ne by done. destruct (decide (p ∈ ps)); [by rewrite decide_True by (by right)|]. by rewrite decide_False by (by intros [?|?]%elem_of_cons).
Qed.
Lemma occ_removed (l : list MessageId) x c : occ x (List.filter (fun y => negb (bool_decide (y = c))) l) = if decide (x = c) then 0%nat else occ x l.
Proof.
  induction l as [|y l IH]; [by rewrite !occ_nil; case_decide|]. simpl. case_bool_decide as E; simpl; rewrite ?occ_cons, IH; repeat case_decide; subst; done.
Qed.

Lemma delete_inv seen dead id s : dag_inv seen dead s -> dag_inv seen ({[id]} ∪ dead) (engine_delete_message id s).2.
Proof.
  intros Hs. set (s' := (engine_delete_message id s).2).
  assert (forall x, mb_messages s' !! x = if decide (x = id) then None else mb_messages s !! x) as Em.
  { intros x. unfold s'. simpl. case_decide; [subst; by rewrite lookup_delete_eq|by rewrite lookup_delete_ne]. }
  assert (forall x, parents_of s' x = if decide (x = id) then [] else parents_of s x) as Ep.
  { intros x. unfold parents_of, s'. simpl. case_decide; [subst; by rewrite lookup_delete_eq|by rewrite lookup_delete_ne]. }
  assert (forall p, children_of s' p = if decide (p = id) then [] else
    if decide (p ∈ parents_of s id) then List.filter (fun y => negb (bool_decide (y = id))) (children_of s p) else children_of s p) as Ec.
  { intros x. unfold children_of, s'. simpl. case_decide; [subst; by rewrite lookup_delete_eq|]. rewrite lookup_delete_ne by done. apply children_unlinked. }
  assert (forall x, height_of s' x = height_of s x) as Eh by done.
  assert (forall x, stored s' x <-> x <> id /\ stored s x) as Est.
  { intros x. unfold stored. rewrite Em. case_decide; [split; [by intros []|by intros []]|tauto]. }
  assert (forall p c, occ c (children_of s' p) = if decide (p = id) then 0%nat else if decide (c = id) then 0%nat else occ c (children_of s p)) as Eo.
  { intros p c. rewrite Ec. case_decide as E1; [by rewrite occ_nil|]. destruct (decide (p ∈ parents_of s id)) as [Hin|Hin]; [by rewrite occ_removed|].
    case_decide as E2; [|done]. subst c. pose proof (di_listed _ _ _ Hs p id) as H. rewrite <-occ_pos in Hin. lia. }
  split.
  - intros x m Hm. rewrite Em in Hm. rewrite Ep. case_decide; [done|]. by apply (di_message _ _ _ Hs).
  - intros x Hx. rewrite Em in Hx. rewrite Ep, Ec. destruct (decide (x = id)); [done|]. destruct (di_absent _ _ _ Hs x Hx) as [-> ->]. by case_decide.
  - intros x m Hx. rewrite Est, Eh. destruct (di_seen _ _ _ Hs x m Hx) as (H1 & H2 & H3 & h & H4 & H5 & H6).
    split; [done|]. split; [|split; [done|by exists h]]. destruct (decide (x = id)) as [->|]; [right; apply elem_of_union; left; by apply elem_of_singleton|].
    destruct H2; [by left|right; apply elem_of_union; by right].
  - intros p c. rewrite Eo, Ep. pose proof (di_listed _ _ _ Hs p c). repeat case_decide; rewrite ?occ_nil; lia.
  - intros p c [Hne Hp]%not_elem_of_union. rewrite elem_of_singleton in Hne. rewrite Eo, Ep. rewrite (decide_False (P := p = id)) by done. case_decide; [by rewrite occ_nil|]. by apply (di_sym _ _ _ Hs).
  - intros x Hx. assert (x ∈ mb_tips s ∖ {[id]}) as [Ht Hne]%elem_of_difference by exact Hx. rewrite elem_of_singleton in Hne.
    destruct (di_tip _ _ _ Hs x Ht) as [H1 H2]. rewrite Est, Ec, decide_False, H2 by done. split; [by split|]. by destruct (decide _).
  - intros x [Hne Hx]%Est Hc Hf Hdead. change (x ∈ mb_tips s ∖ {[id]}). apply elem_of_difference. split; [|by rewrite elem_of_singleton].
    apply (di_childless _ _ _ Hs); [done| |done|intros c m Hcd; apply Hdead, elem_of_union; by right].
    rewrite Ec, decide_False in Hc by done. case_decide as Hin; [|done]. exfalso.
    destruct (mb_messages s !! id) as [m|] eqn:E; [|by rewrite (proj1 (di_absent _ _ _ Hs id E)) in Hin; apply elem_of_nil in Hin].
    destruct (di_message _ _ _ Hs id m E) as [Hseen Hpar]. rewrite Hpar in Hin. apply (Hdead id m); [apply elem_of_union; left; by apply elem_of_singleton|done|done].
Qed.

(** ** Runs of the engine *)

Inductive DagOp :=
  | DStore (m : AdicMessage)
  | DFinalize (id : MessageId) (artifact : Bytes)
  | DArtifact (id : MessageId) (artifact : Bytes)
  | DConflict (conflict_id : string) (id : MessageId)
  | DBall (ax : Z) (ball : Bytes) (id : MessageId)
  | DReputation (pk : PublicKey) (score : f64)
  | DCheckpoint (height : Z) (root : MessageId)
  | DDelete (id : MessageId).

Definition dag_op (tm : AdicMessage -> Z) (op : DagOp) (s : MemoryBackend) : MemoryBackend :=
  match op with
  | DStore m => (store_message tm m s).2
  | DFinalize id a => (finalize_message id a s).2
  | DArtifact id a => (store_finality_artifact id a s).2
  | DConflict c id => (add_to_conflict c id s).2
  | DBall ax b id => (index_by_ball ax b id s).2
  | DReputation pk x => (update_reputation pk x s).2
  | DCheckpoint h r => (store_checkpoint h r s).2
  | DDelete id => (engine_delete_message id s).2
  end.

(** The messages that were ever stored, and the ids that were deleted. *)
Definition seen_after (op : DagOp) (s : MemoryBackend) (seen : gmap MessageId AdicMessage) : gmap MessageId AdicMessage :=
  match op with
  | DStore m => if bool_decide (stored s (msg_id m)) then seen else <[msg_id m := m]> seen
  | _ => seen
  end.
Definition dead_after (op : DagOp) (dead : gset MessageId) : gset MessageId := match op with DDelete id => {[id]} ∪ dead | _ => dead end.

(** A message is stored after its parents, fewer than 2^64 - 1 messages are stored, and an id, as the hash
    of a message, belongs to one message only. *)
Definition run_op_ok (op : DagOp) (seen : gmap MessageId AdicMessage) (s : MemoryBackend) : Prop :=
  match op with
  | DStore m => Forall (stored s) (parents m) /\ Z.of_nat (size seen) < u64_max /\
      (~ stored s (msg_id m) -> forall m', seen !! msg_id m = Some m' -> m' = m)
  | _ => True
  end.

Inductive dag_run (tm : AdicMessage -> Z) : gmap MessageId AdicMessage -> gset MessageId -> MemoryBackend -> Prop :=
  | run_empty : dag_run tm ∅ ∅ backend_new
  | run_step op seen dead s : dag_run tm seen dead s -> run_op_ok op seen s ->
      dag_run tm (seen_after op s seen) (dead_after op dead) (dag_op tm op s).

(** Runs without deletions. *)
Definition dag_op_ok (op : DagOp) (s : MemoryBackend) : Prop :=
  match op with
  | DStore m => Forall (stored s) (parents m) /\ Z.of_nat (size (mb_messages s)) < u64_max
  | DDelete _ => False
  | _ => True
  end.

Inductive dag_reachable (tm : AdicMessage -> Z) : MemoryBackend -> Prop :=
  | dag_empty : dag_reachable tm backend_new
  | dag_step op s : dag_reachable tm s -> dag_op_ok op s -> dag_reachable tm (dag_op tm op s).

Lemma checkpoint_key_height h : checkpoint_key h <> "height"%string.
Proof. unfold checkpoint_key. simpl. discriminate. Qed.

Lemma dag_run_inv tm seen dead s : dag_run tm seen dead s -> dag_inv seen dead s.
Proof.
  induction 1 as [|op seen dead s _ IH Hop]; [apply backend_new_inv|].
  destruct op as [m|id a|id a|c id|ax b id|pk x|h r|id]; simpl in Hop |- *;
    try (by apply (dag_inv_ext _ _ s)); [| |apply (dag_inv_ext _ _ s)|apply (dag_inv_ext _ _ s)|]; try done.
  - destruct Hop as (Hps & Hsz & Hsame). rewrite store_message_spec. case_bool_decide; [done|]. apply with_message_inv; auto.
  - by apply finalize_inv.
  - intros id' Hf. simpl in Hf. by apply lookup_insert_None in Hf as [Hf _].
  - intros id'. unfold height_of. simpl. rewrite lookup_insert_ne; [done|].
    intros H%(f_equal snd). by apply (checkpoint_key_height h).
  - by apply delete_inv.
Qed.

Lemma dag_reachable_run tm s : dag_reachable tm s -> dag_run tm (mb_messages s) ∅ s.
Proof.
  induction 1 as [|op s _ IH Hop]; [apply run_empty|].
  assert (run_op_ok op (mb_messages s) s) as Hok.
  { destruct op; try done. destruct Hop. split; [done|]. split; [done|]. intros Hn m' Hm'. destruct Hn. by exists m'. }
  pose proof (run_step tm op _ _ s IH Hok) as H.
  assert (mb_messages (dag_op tm op s) = seen_after op s (mb_messages s) /\ dead_after op ∅ = ∅) as [-> E]; [|by rewrite E in H].
  destruct op; try done. split; [|done]. simpl. rewrite store_message_spec. by case_bool_decide.
Qed.

Lemma dag_reachable_ok tm s : dag_reachable tm s -> dag_ok s.
Proof. intros Hr. by apply dag_run_inv with tm, dag_reachable_run. Qed.

(** One message names the other as a parent. *)
Definition edge (s : MemoryBackend) (p c : MessageId) : Prop := p ∈ parents_of s c.

Lemma edge_height s p c :
  dag_ok s -> edge s p c -> exists hp hc, height_of s p = Some hp /\ height_of s c = Some hc /\ hp < hc.
Proof.
  intros Hs He. unfold edge in He.
  destruct (mb_messages s !! c) as [m|] eqn:Em; [|rewrite (do_absent s Hs c Em) in He; by apply not_elem_of_nil in He].
  destruct (do_height s Hs c m Em) as (h & Hh & _ & _ & Hp & _). rewrite (proj1 (proj2 (do_message s Hs c m Em))) in He.
  destruct (Hp p He) as (hp & ? & ?). exists hp, h. split_and!; [done|done|lia].
Qed.


(** A diamond: 2 and 3 on 1, and 4 on both. *)
Definition plain_message (i : Z) (ps : list Z) : AdicMessage :=
  mkMessage (replicate 32 i) (replicate 32 <$> ps) (mkAdicFeatures []) (AdicMeta_new 0) (replicate 32 0) [] None [].
Definition zero_millis (m : AdicMessage) : Z := 0.
Definition diamond : MemoryBackend :=
  foldl (fun s m => dag_op zero_millis (DStore m) s) backend_new
    [plain_message 1 []; plain_message 2 [1]; plain_message 3 [1]; plain_message 4 [2; 3]].

Lemma diamond_reachable : dag_reachable zero_millis diamond.
Proof.
  unfold diamond. cbn [foldl].
  do 4 (apply dag_step; [|split; [apply (bool_decide_unpack _); vm_compute; exact I|vm_compute; reflexivity]]).
  apply dag_empty.
Qed.


(** The deletion of the last child makes no tip of the parent, and a deleted parent stays named. *)
Theorem deletion_leaves_no_tip :
  let s := dag_op zero_millis (DDelete (replicate 32 4)) diamond in
  mb_tips s = ∅ /\ children_of s (replicate 32 2) = [] /\ stored s (replicate 32 2) /\
  parents_of (dag_op zero_millis (DDelete (replicate 32 2)) diamond) (replicate 32 4) = [replicate 32 2; replicate 32 3].
Proof. split_and!; [vm_compute; reflexivity..|by vm_compute; eexists|vm_compute; reflexivity]. Qed.
