(* ===== verification/Kcore.v ===== *)
(** * The k-core of the forward cone

    [adic-finality/src/kcore.rs], over the storage engine of [Dag.v].  The analyzer's caches are
    its state.  The order in which a hash map or set is visited is a parameter, [map_iter] or
    [set_iter]; the reputation tracker is the parameter [reputation].  The loops carry fuel:
    one step per message in the store, plus one for the root. *)

From S2P Require Import Prelude F64 Padic Message Dag.

Record KCoreResult := mkKCore {
  kc_is_final : bool;
  core_size : nat;
  kc_depth : Z;
  total_reputation : f64;
  distinct_balls : gmap Z nat;
  kcore_root : option MessageId;
}.

Definition not_final : KCoreResult := mkKCore false 0 0 f64_zero ∅ None.

Record KCoreAnalyzer := mkAnalyzer {
  ka_k : nat;
  min_depth : Z;
  min_diversity : nat;
  min_reputation : f64;
  rho : list Z;
  depth_cache : gmap MessageId Z;
  children_cache : gmap MessageId (list MessageId);
}.

Definition analyzer_new (k : nat) (depth : Z) (diversity : nat) (rep : f64) (radii : list Z) : KCoreAnalyzer :=
  mkAnalyzer k depth diversity rep radii ∅ ∅.

Definition with_caches (a : KCoreAnalyzer) (d : gmap MessageId Z) (c : gmap MessageId (list MessageId)) :=
  mkAnalyzer (ka_k a) (min_depth a) (min_diversity a) (min_reputation a) (rho a) d c.
Definition clear_caches (a : KCoreAnalyzer) : KCoreAnalyzer := with_caches a ∅ ∅.
Definition cache_stats (a : KCoreAnalyzer) : nat * nat := (size (depth_cache a), size (children_cache a)).

Definition cone_fuel (s : MemoryBackend) : nat := S (size (mb_messages s)).

(** ** The forward cone *)

(** [if cone.insert(child) { queue.push_back(child) }]. *)
Definition push_child (st : gset MessageId * list MessageId) (child : MessageId) : gset MessageId * list MessageId :=
  let '(cone, queue) := st in
  if bool_decide (child ∈ cone) then (cone, queue) else ({[child]} ∪ cone, queue ++ [child]).

Fixpoint cone_loop (fuel : nat) (s : MemoryBackend) (cone : gset MessageId) (queue : list MessageId)
    : option (gset MessageId) :=
  match queue with
  | [] => Some cone
  | current :: queue =>
      match fuel with
      | O => None
      | S fuel =>
          let '(cone, queue) := foldl push_child (cone, queue) (children_of s current) in
          cone_loop fuel s cone queue
      end
  end.

Definition build_forward_cone (s : MemoryBackend) (root : MessageId) : option (gset MessageId) :=
  cone_loop (cone_fuel s) s {[root]} [root].

(** ** The k-core *)

(** Parents and children of a node among the given ones, with multiplicity. *)
Definition degree_in (s : MemoryBackend) (nodes : gset MessageId) (n : MessageId) : nat :=
  length (filter (fun p => p ∈ nodes) (parents_of s n)) + length (filter (fun c => c ∈ nodes) (children_of s n)).

Definition initial_degrees (s : MemoryBackend) (nodes : gset MessageId) : gmap MessageId nat :=
  set_to_map (fun n => (n, degree_in s nodes n)) nodes.

(** [saturating_sub(1)] for every listed neighbour that has a degree. *)
Definition decrement (degrees : gmap MessageId nat) (ns : list MessageId) : gmap MessageId nat :=
  foldl (fun d n => alter Nat.pred n d) degrees ns.

Definition remove_node (s : MemoryBackend) (st : gset MessageId * gmap MessageId nat) (n : MessageId)
    : gset MessageId * gmap MessageId nat :=
  let '(core, degrees) := st in
  (core ∖ {[n]}, decrement (decrement degrees (parents_of s n)) (children_of s n)).

Section kcore.
Context (map_iter : gmap MessageId nat -> list (MessageId * nat)).

Definition to_remove (k : nat) (core : gset MessageId) (degrees : gmap MessageId nat) : list MessageId :=
  (List.filter (fun e => bool_decide (e.1 ∈ core) && (e.2 <? k)%nat) (map_iter degrees)).*1.

Fixpoint kcore_loop (fuel : nat) (s : MemoryBackend) (k : nat) (core : gset MessageId)
    (degrees : gmap MessageId nat) : option (gset MessageId) :=
  match to_remove k core degrees with
  | [] => Some core
  | ns =>
      match fuel with
      | O => None
      | S fuel =>
          let '(core, degrees) := foldl (remove_node s) (core, degrees) ns in
          kcore_loop fuel s k core degrees
      end
  end.

Definition compute_kcore (s : MemoryBackend) (k : nat) (nodes : gset MessageId) : option (gset MessageId) :=
  kcore_loop (size nodes) s k nodes (initial_degrees s nodes).
End kcore.

(** ** Depth, with the caches *)

Definition cached_children (s : MemoryBackend) (cache : gmap MessageId (list MessageId)) (n : MessageId)
    : list MessageId * gmap MessageId (list MessageId) :=
  match cache !! n with
  | Some cs => (cs, cache)
  | None => (children_of s n, <[n := children_of s n]> cache)
  end.

Definition push_deeper (kcore : gset MessageId) (depth : Z) (st : gset MessageId * list (MessageId * Z))
    (child : MessageId) : gset MessageId * list (MessageId * Z) :=
  let '(visited, queue) := st in
  if bool_decide (child ∈ kcore) && bool_decide (child ∉ visited)
  then ({[child]} ∪ visited, queue ++ [(child, to_u32 (depth + 1))]) else (visited, queue).

Fixpoint depth_loop (fuel : nat) (s : MemoryBackend) (kcore : gset MessageId)
    (cache : gmap MessageId (list MessageId)) (visited : gset MessageId) (queue : list (MessageId * Z))
    (max_depth : Z) : option (Z * gmap MessageId (list MessageId)) :=
  match queue with
  | [] => Some (max_depth, cache)
  | (current, depth) :: queue =>
      match fuel with
      | O => None
      | S fuel =>
          let '(children, cache) := cached_children s cache current in
          let '(visited, queue) := foldl (push_deeper kcore depth) (visited, queue) children in
          depth_loop fuel s kcore cache visited queue (Z.max max_depth depth)
      end
  end.

Definition compute_depth (a : KCoreAnalyzer) (s : MemoryBackend) (kcore : gset MessageId) (root : MessageId)
    : option (Z * KCoreAnalyzer) :=
  match depth_cache a !! root with
  | Some depth => Some (depth, a)
  | None =>
      '(depth, children) ← depth_loop (cone_fuel s) s kcore (children_cache a) {[root]} [(root, 0)] 0;
      Some (depth, with_caches a (<[root := depth]> (depth_cache a)) children)
  end.

(** ** Metrics and the verdict *)

Section analyze.
Context (map_iter : gmap MessageId nat -> list (MessageId * nat)).
Context (set_iter : gset MessageId -> list MessageId) (reputation : PublicKey -> f64).

Definition add_ball (a : KCoreAnalyzer) (balls : gmap Z (gset Bytes)) (ap : AxisPhi) : gmap Z (gset Bytes) :=
  let radius := default 2 (rho a !! Z.to_nat (axis ap)) in
  insert_at (axis ap) (QpDigits_ball_id (qp_digits ap) (Z.to_nat radius)) balls.

Definition add_metrics (a : KCoreAnalyzer) (s : MemoryBackend) (st : f64 * gmap Z (gset Bytes)) (n : MessageId)
    : f64 * gmap Z (gset Bytes) :=
  let '(total, balls) := st in
  match mb_messages s !! n with
  | Some m => (f64_add total (reputation (proposer_pk m)), foldl (add_ball a) balls (phi (features m)))
  | None => (total, balls)
  end.

Definition compute_metrics (a : KCoreAnalyzer) (s : MemoryBackend) (kcore : gset MessageId) : f64 * gmap Z nat :=
  let '(total, balls) := foldl (add_metrics a s) (f64_zero, ∅) (set_iter kcore) in
  (total, size <$> balls).

Definition kcore_is_final (a : KCoreAnalyzer) (kcore : gset MessageId) (depth : Z) (total : f64)
    (balls : gmap Z nat) : bool :=
  (ka_k a <=? size kcore)%nat && (min_depth a <=? depth) &&
  forallb (fun e => (min_diversity a <=? e.2)%nat) (map_to_list balls) && f64_geb total (min_reputation a).

Definition analyze (a : KCoreAnalyzer) (s : MemoryBackend) (root : MessageId) : option (KCoreResult * KCoreAnalyzer) :=
  cone ← build_forward_cone s root;
  if bool_decide (cone = ∅) then Some (not_final, a)
  else
    kcore ← compute_kcore map_iter s (ka_k a) cone;
    if bool_decide (kcore = ∅) then Some (not_final, a)
    else
      '(depth, a') ← compute_depth a s kcore root;
      let '(total, balls) := compute_metrics a s kcore in
      Some (mkKCore (kcore_is_final a kcore depth total balls) (size kcore) depth total balls (Some root), a').
End analyze.

(** ** The cone is the set of descendants *)

Definition child_edge (s : MemoryBackend) (p c : MessageId) : Prop := c ∈ children_of s p.

Lemma push_children_ok cone queue cs :
  exists new, foldl push_child (cone, queue) cs = (cone ∪ list_to_set new, queue ++ new) /\ NoDup new /\
    (forall c, c ∈ new -> c ∈ cs /\ c ∉ cone) /\ (forall c, c ∈ cs -> c ∈ cone ∪ list_to_set new).
Proof.
  revert cone queue. induction cs as [|c cs IH]; intros cone queue; simpl.
  { exists []. rewrite app_nil_r. split; [f_equal; set_solver|]. split; [constructor|]. set_solver. }
  case_bool_decide as Hc.
  - destruct (IH cone queue) as (new & -> & Hd & H1 & H2). exists new. split; [done|]. split; [done|]. set_solver.
  - destruct (IH ({[c]} ∪ cone) (queue ++ [c])) as (new & -> & Hd & H1 & H2). exists (c :: new).
    split; [rewrite <-app_assoc; f_equal; set_solver|]. split; [|set_solver].
    constructor; [|done]. intros Hn. specialize (H1 c Hn). set_solver.
Qed.

Record cone_inv (s : MemoryBackend) (root : MessageId) (cone : gset MessageId) (queue : list MessageId) : Prop := {
  ci_root : root ∈ cone;
  ci_queue : forall x, x ∈ queue -> x ∈ cone;
  ci_done : forall x c, x ∈ cone -> x ∉ queue -> child_edge s x c -> c ∈ cone;
  ci_reach : forall x, x ∈ cone -> rtc (child_edge s) root x;
}.

Lemma cone_loop_ok s root U fuel cone queue :
  (forall p c, child_edge s p c -> c ∈ U) -> cone_inv s root cone queue -> cone ⊆ U ->
  (size (U ∖ cone) + length queue <= fuel)%nat ->
  exists cone', cone_loop fuel s cone queue = Some cone' /\ cone_inv s root cone' [].
Proof.
  intros HU. revert cone queue. induction fuel as [|fuel IH]; intros cone queue [Hr Hq Hd Hc] Hsub Hf.
  - destruct queue as [|x queue]; [|simpl in Hf; lia]. by exists cone.
  - destruct queue as [|x queue]; [by exists cone|]. simpl.
    destruct (push_children_ok cone queue (children_of s x)) as (new & -> & Hnd & Hn1 & Hn2).
    assert (list_to_set new ⊆ U) as HnU by (intros c Hc'%elem_of_list_to_set; apply (HU x), Hn1, Hc').
    apply IH; [|set_solver|].
    + split; [set_solver|set_solver| |].
      * intros y c Hy Hny Hyc. rewrite not_elem_of_app in Hny. destruct (decide (y = x)) as [->|Hyx]; [by apply Hn2|].
        apply elem_of_union in Hy as [Hy|Hy%elem_of_list_to_set]; [|naive_solver].
        apply elem_of_union. left. apply (Hd y c); [done| |done]. set_solver.
      * intros y [Hy|Hy%elem_of_list_to_set]%elem_of_union; [by apply Hc|].
        apply rtc_r with x; [apply Hc, Hq; left|apply Hn1, Hy].
    + rewrite length_app. simpl in Hf.
      assert (size (U ∖ cone) = size (U ∖ (cone ∪ list_to_set new)) + length new)%nat; [|lia].
      rewrite <-(size_list_to_set (C := gset MessageId) new) by done. rewrite <-size_union by set_solver.
      f_equal. apply leibniz_equiv. intros y. destruct (decide (y ∈ (list_to_set new : gset MessageId))); set_solver.
Qed.

Lemma cone_total s root :
  dag_ok s -> exists cone, build_forward_cone s root = Some cone /\
    forall x, x ∈ cone <-> rtc (child_edge s) root x.
Proof.
  intros Hs. unfold build_forward_cone, cone_fuel.
  destruct (cone_loop_ok s root ({[root]} ∪ dom (mb_messages s)) (S (size (mb_messages s))) {[root]} [root])
    as (cone & Hcone & [Hr _ Hd Hc]).
  - intros p c Hc. destruct (child_stored s p c Hs Hc) as [[m Hm] _]. apply elem_of_union. right. by eapply elem_of_dom_2.
  - split; [set_solver|set_solver| |].
    + intros x c Hx Hn. set_solver.
    + intros x ->%elem_of_singleton. apply rtc_refl.
  - set_solver.
  - simpl. rewrite Nat.add_1_r. apply le_n_S. rewrite <-size_dom. apply subseteq_size. set_solver.
  - exists cone. split; [done|]. intros x. split; [apply Hc|]. intros Hx.
    cut (forall y, y ∈ cone -> rtc (child_edge s) y x -> x ∈ cone); [by eauto|].
    intros y Hy Hyx. induction Hyx as [y|y z x Hyz _ IH]; [done|]. apply IH; [done|]. apply (Hd y z); [done| |done].
    apply not_elem_of_nil.
Qed.

(** ** The core is the greatest set of minimum degree [k] *)

Lemma degree_in_mono s X Y n : X ⊆ Y -> (degree_in s X n <= degree_in s Y n)%nat.
Proof.
  intros Hsub. unfold degree_in.
  assert (forall l, length (filter (fun p => p ∈ X) l) <= length (filter (fun p => p ∈ Y) l))%nat as H.
  { induction l as [|x l IH]; [done|]. rewrite !filter_cons. repeat case_decide; simpl; try lia. set_solver. }
  pose proof (H (parents_of s n)). pose proof (H (children_of s n)). lia.
Qed.

Lemma filter_without (X : gset MessageId) (m : MessageId) (l : list MessageId) :
  m ∈ X -> length (filter (fun p => p ∈ X) l) = (length (filter (fun p => p ∈ X ∖ {[m]}) l) + occ m l)%nat.
Proof.
  intros Hm. induction l as [|x l IH]; [done|]. rewrite !filter_cons, occ_cons.
  destruct (decide (x = m)) as [->|Hx].
  - rewrite decide_True, decide_False by set_solver. simpl. lia.
  - destruct (decide (x ∈ X)); [rewrite decide_True by set_solver|rewrite decide_False by set_solver]; simpl; lia.
Qed.

(** Removing a neighbour takes away the edges to it. *)
Lemma degree_without s X m n :
  dag_ok s -> m ∈ X ->
  degree_in s X n = (degree_in s (X ∖ {[m]}) n + occ n (parents_of s m) + occ n (children_of s m))%nat.
Proof.
  intros Hs Hm. unfold degree_in. rewrite !(filter_without X m) by done.
  rewrite (do_sym s Hs m n), <-(do_sym s Hs n m). lia.
Qed.

Lemma lookup_decrement d ns n : decrement d ns !! n = (fun v => (v - occ n ns)%nat) <$> d !! n.
Proof.
  revert d. induction ns as [|x ns IH]; intros d; simpl.
  { destruct (d !! n) as [v|]; simpl; [|done]. f_equal. rewrite occ_nil. lia. }
  unfold decrement in *. rewrite IH, occ_cons, lookup_alter. case_decide as Hx.
  - subst x. destruct (d !! n); simpl; [|done]. f_equal. lia.
  - destruct (d !! n); simpl; done.
Qed.

(** The degrees of the nodes still in the core are exact. *)
Definition degrees_ok (s : MemoryBackend) (core : gset MessageId) (d : gmap MessageId nat) : Prop :=
  forall n, n ∈ core -> d !! n = Some (degree_in s core n).

Lemma remove_node_ok s core d m :
  dag_ok s -> m ∈ core -> degrees_ok s core d ->
  degrees_ok s (core ∖ {[m]}) (remove_node s (core, d) m).2.
Proof.
  intros Hs Hm Hd n Hn. simpl. rewrite !lookup_decrement, (Hd n) by set_solver. simpl.
  rewrite (degree_without s core m n Hs Hm). f_equal. lia.
Qed.

Lemma remove_nodes_ok s core d ns :
  dag_ok s -> NoDup ns -> (forall n, n ∈ ns -> n ∈ core) -> degrees_ok s core d ->
  exists d', foldl (remove_node s) (core, d) ns = (core ∖ list_to_set ns, d') /\ degrees_ok s (core ∖ list_to_set ns) d'.
Proof.
  intros Hs Hnd. revert core d. induction Hnd as [|n ns Hn Hnd IH]; intros core d Hsub Hd; simpl.
  { exists d. rewrite difference_empty_L. by split. }
  pose proof (remove_node_ok s core d n Hs (Hsub n ltac:(left)) Hd) as H1. simpl in H1.
  destruct (IH (core ∖ {[n]}) (decrement (decrement d (parents_of s n)) (children_of s n))) as (d' & Hf & Hok); [set_solver|done|].
  rewrite Hf. exists d'. replace (core ∖ ({[n]} ∪ list_to_set ns)) with (core ∖ {[n]} ∖ list_to_set ns); [done|].
  by rewrite difference_difference_l_L.
Qed.

Section correct.
Context (map_iter : gmap MessageId nat -> list (MessageId * nat)).
Context (Hiter : forall m, map_iter m ≡ₚ map_to_list m).

Lemma to_remove_ok s k core d :
  degrees_ok s core d ->
  NoDup (to_remove map_iter k core d) /\
  forall n, n ∈ to_remove map_iter k core d <-> n ∈ core /\ (degree_in s core n < k)%nat.
Proof.
  intros Hd. unfold to_remove. split.
  - assert (NoDup (map_iter d).*1) as Hnd by (rewrite Hiter; apply NoDup_fst_map_to_list).
    revert Hnd. generalize (map_iter d). intros l. induction l as [|e l IH]; [done|]. rewrite fmap_cons. intros [Hn Hl]%NoDup_cons.
    simpl. destruct (_ && _); [|by apply IH]. rewrite fmap_cons. constructor; [|by apply IH].
    intros (e' & He & Hin)%list_elem_of_fmap. apply Hn. apply list_elem_of_fmap. exists e'. split; [done|].
    apply list_elem_of_In. apply list_elem_of_In, filter_In in Hin. tauto.
  - intros n. rewrite list_elem_of_fmap. split.
    + intros ([n' v] & -> & Hin). apply list_elem_of_In, filter_In in Hin as [Hin Hb]. simpl in *.
      apply andb_prop in Hb as [Hc%bool_decide_eq_true Hk%Nat.ltb_lt]. split; [done|].
      apply list_elem_of_In in Hin. rewrite Hiter in Hin. apply elem_of_map_to_list in Hin. rewrite (Hd n' Hc) in Hin.
      injection Hin as Hin. lia.
    + intros [Hc Hk]. exists (n, degree_in s core n). split; [done|]. apply list_elem_of_In, filter_In.
      split; [apply list_elem_of_In; rewrite Hiter; by apply elem_of_map_to_list, Hd|].
      simpl. rewrite bool_decide_true by done. by apply Nat.ltb_lt.
Qed.

Lemma kcore_loop_ok s k fuel core d :
  dag_ok s -> degrees_ok s core d -> (size core <= fuel)%nat ->
  exists core', kcore_loop map_iter fuel s k core d = Some core' /\ core' ⊆ core /\
    (forall n, n ∈ core' -> (k <= degree_in s core' n)%nat) /\
    (forall X, X ⊆ core -> (forall n, n ∈ X -> (k <= degree_in s X n)%nat) -> X ⊆ core').
Proof.
  intros Hs. revert core d. induction fuel as [|fuel IH]; intros core d Hd Hf;
    destruct (to_remove_ok s k core d Hd) as [Hnd Hrm]; simpl;
    destruct (to_remove map_iter k core d) as [|n ns] eqn:E.
  1,3: (exists core; split; [done|]; split; [done|]; split; [|done]; intros n Hn;
    destruct (decide (degree_in s core n < k)%nat) as [Hlt|]; [|lia];
    exfalso; eapply not_elem_of_nil; apply (Hrm n); done).
  { exfalso. destruct (proj1 (Hrm n) ltac:(left)) as [Hn _].
    assert (size core = 0)%nat as H0 by lia. apply size_empty_inv in H0. set_solver. }
  assert (forall x, x ∈ n :: ns -> x ∈ core) as Hsub by (intros x Hx; by apply Hrm).
  destruct (remove_nodes_ok s core d (n :: ns) Hs Hnd Hsub Hd) as (d' & Hfold & Hd').
  cbn [foldl remove_node] in Hfold. rewrite Hfold.
  destruct (IH (core ∖ list_to_set (n :: ns)) d' Hd') as (core' & Hc & H1 & H2 & H3).
  - assert (core ∖ list_to_set (n :: ns) ⊂ core) as Hss by (specialize (Hsub n ltac:(left)); set_solver).
    apply subset_size in Hss. lia.
  - exists core'. split; [done|]. split; [set_solver|]. split; [done|]. intros X HX Hk. apply H3; [|done].
    intros x Hx. apply elem_of_difference. split; [by apply HX|]. rewrite elem_of_list_to_set. intros Hin.
    apply Hrm in Hin as [_ Hlt]. specialize (Hk x Hx). pose proof (degree_in_mono s X core x HX). lia.
Qed.

Lemma initial_degrees_ok s nodes : degrees_ok s nodes (initial_degrees s nodes).
Proof. intros n Hn. unfold initial_degrees. apply lookup_set_to_map; [done|]. by exists n. Qed.

(** C22: The forward cone and its k-core are what they should be, on every DAG the storage can
    hold and whatever the order in which the hash maps are visited: the cone consists of the
    message and its descendants, the core is the greatest part of it in which every message
    has at least [k] parents and children, and both searches end within the fuel. *)
Theorem kcore_of_cone tm s root k :
  dag_reachable tm s ->
  exists cone core, build_forward_cone s root = Some cone /\ compute_kcore map_iter s k cone = Some core /\
    (forall x, x ∈ cone <-> rtc (child_edge s) root x) /\ core ⊆ cone /\
    (forall n, n ∈ core -> (k <= degree_in s core n)%nat) /\
    (forall X, X ⊆ cone -> (forall n, n ∈ X -> (k <= degree_in s X n)%nat) -> X ⊆ core).
Proof.
  intros Hs%dag_reachable_ok. destruct (cone_total s root Hs) as (cone & Hcone & Hx).
  destruct (kcore_loop_ok s k (size cone) cone (initial_degrees s cone) Hs (initial_degrees_ok s cone)) as (core & H);
    [done|]. exists cone, core. tauto.
Qed.
End correct.

Lemma kcore_of_cone_witness :
  exists cone core, build_forward_cone diamond (replicate 32 1) = Some cone /\
    compute_kcore map_to_list diamond 2 cone = Some core /\ core ⊆ cone /\ size core = 4%nat /\
    (forall X, X ⊆ cone -> (forall n, n ∈ X -> (2 <= degree_in diamond X n)%nat) -> X ⊆ core).
Proof.
  destruct (kcore_of_cone map_to_list (fun m => Permutation_refl _) zero_millis diamond (replicate 32 1) 2 diamond_reachable)
    as (cone & core & H1 & H2 & _ & H4 & _ & H6).
  exists cone, core. split; [exact H1|]. split; [exact H2|]. split; [exact H4|]. split; [|exact H6].
  assert (build_forward_cone diamond (replicate 32 1) = Some cone -> compute_kcore map_to_list diamond 2 cone = Some core ->
    size <$> (build_forward_cone diamond (replicate 32 1) ≫= compute_kcore map_to_list diamond 2) = Some (size core)) as H
    by (intros -> E; simpl; by rewrite E).
  specialize (H H1 H2). enough (Some 4%nat = Some (size core)) as E by (injection E; done).
  rewrite <-H. vm_compute. reflexivity.
Defined.

(** ** The analysis as a whole *)

Lemma push_deeper_ok kcore depth visited queue cs :
  exists new, foldl (push_deeper kcore depth) (visited, queue) cs =
      (visited ∪ list_to_set new, queue ++ ((fun c => (c, to_u32 (depth + 1))) <$> new)) /\ NoDup new /\
    (forall c, c ∈ new -> c ∈ kcore /\ c ∉ visited).
Proof.
  revert visited queue. induction cs as [|c cs IH]; intros visited queue; simpl.
  { exists []. rewrite app_nil_r. split; [f_equal; set_solver|]. split; [constructor|]. set_solver. }
  destruct (bool_decide (c ∈ kcore) && bool_decide (c ∉ visited)) eqn:E.
  - apply andb_prop in E as [Hk%bool_decide_eq_true Hv%bool_decide_eq_true].
    destruct (IH ({[c]} ∪ visited) (queue ++ [(c, to_u32 (depth + 1))])) as (new & -> & Hd & H1). exists (c :: new).
    split; [rewrite <-app_assoc; simpl; f_equal; set_solver|]. split; [|set_solver].
    constructor; [|done]. intros Hn. specialize (H1 c Hn). set_solver.
  - destruct (IH visited queue) as (new & -> & Hd & H1). by exists new.
Qed.

(** The search for the depth ends: each step takes a message off the queue, and each message of
    the core enters it once, whatever the cached children are. *)
Lemma depth_loop_total s kcore fuel cache visited queue m :
  (size (kcore ∖ visited) + length queue <= fuel)%nat ->
  exists d cache', depth_loop fuel s kcore cache visited queue m = Some (d, cache').
Proof.
  revert cache visited queue m. induction fuel as [|fuel IH]; intros cache visited queue m Hf.
  - destruct queue as [|x queue]; [by eexists _, _|simpl in Hf; lia].
  - destruct queue as [|[x depth] queue]; [by eexists _, _|]. simpl. destruct (cached_children s cache x) as [cs cache1].
    destruct (push_deeper_ok kcore depth visited queue cs) as (new & -> & Hnd & Hn). apply IH.
    rewrite length_app, length_fmap. simpl in Hf.
    assert (size (kcore ∖ visited) = size (kcore ∖ (visited ∪ list_to_set new)) + length new)%nat; [|lia].
    rewrite <-(size_list_to_set (C := gset MessageId) new) by done. rewrite <-size_union by set_solver.
    f_equal. apply leibniz_equiv. intros y. destruct (decide (y ∈ (list_to_set new : gset MessageId))); set_solver.
Qed.

(** Two analyzers with the same parameters and, for [root], the same cached depth. *)
Definition same_parameters (a b : KCoreAnalyzer) : Prop :=
  ka_k a = ka_k b /\ min_depth a = min_depth b /\ min_diversity a = min_diversity b /\
  min_reputation a = min_reputation b /\ rho a = rho b.

(** What an analysis returns, when the core is not empty. *)
Definition verdict_of (set_iter : gset MessageId -> list MessageId) (reputation : PublicKey -> f64) (a : KCoreAnalyzer)
    (s : MemoryBackend) (root : MessageId) (core : gset MessageId) (depth : Z) : KCoreResult :=
  let m := compute_metrics set_iter reputation a s core in
  mkKCore (kcore_is_final a core depth m.1 m.2) (size core) depth m.1 m.2 (Some root).

Section analysis.
Context (map_iter : gmap MessageId nat -> list (MessageId * nat)) (set_iter : gset MessageId -> list MessageId).
Context (reputation : PublicKey -> f64).
Context (Hiter : forall m, map_iter m ≡ₚ map_to_list m).

(** An analysis always ends, keeps the parameters, and repeated on the same DAG says the same. *)
Lemma analyze_total a s root :
  dag_ok s -> exists r a', analyze map_iter set_iter reputation a s root = Some (r, a') /\ same_parameters a a' /\
    analyze map_iter set_iter reputation a' s root = Some (r, a') /\
    (kc_is_final r = true -> exists core depth, r = verdict_of set_iter reputation a s root core depth).
Proof.
  intros Hs. unfold analyze. destruct (cone_total s root Hs) as (cone & Hcone & Hreach). rewrite Hcone. simpl.
  case_bool_decide as Hc0; [by exists not_final, a; split_and!|].
  destruct (kcore_loop_ok map_iter Hiter s (ka_k a) (size cone) cone (initial_degrees s cone) Hs (initial_degrees_ok s cone))
    as (core & Hcore & Hsub & _); [done|]. fold (compute_kcore map_iter s (ka_k a) cone) in Hcore.
  rewrite Hcore. simpl. case_bool_decide as Hk0; [exists not_final, a; split_and!; try done; rewrite Hcore; simpl; by rewrite bool_decide_true|].
  assert (exists depth a', compute_depth a s core root = Some (depth, a') /\ same_parameters a a' /\
    compute_depth a' s core root = Some (depth, a')) as (depth & a' & Hd & Hsame & Hd').
  { unfold compute_depth. destruct (depth_cache a !! root) as [depth|] eqn:Ed.
    { exists depth, a. rewrite Ed. by split_and!. }
    destruct (depth_loop_total s core (cone_fuel s) (children_cache a) {[root]} [(root, 0)] 0) as (depth & cc & ->).
    { assert (core ∖ {[root]} ⊆ dom (mb_messages s)) as Hd.
      { intros x [Hx Hne]%elem_of_difference. rewrite elem_of_singleton in Hne. apply Hsub, Hreach in Hx.
        apply rtc_inv_r in Hx as [->|(y & _ & Hyx)]; [done|]. destruct (child_stored s y x Hs Hyx) as [[m Hm] _].
        by eapply elem_of_dom_2. }
      apply subseteq_size in Hd. rewrite size_dom in Hd. unfold cone_fuel. simpl. lia. }
    simpl. eexists depth, _. split; [done|]. split; [done|]. simpl. by rewrite lookup_insert_eq. }
  rewrite Hd. simpl. destruct Hsame as (E1 & E2 & E3 & E4 & E5).
  destruct (compute_metrics set_iter reputation a s core) as [total balls] eqn:Em.
  exists (verdict_of set_iter reputation a s root core depth), a'. unfold verdict_of. rewrite Em.
  assert (compute_metrics set_iter reputation a' s core = (total, balls)) as Em'.
  { rewrite <-Em. unfold compute_metrics, add_metrics, add_ball. by rewrite E5. }
  split; [done|]. split; [done|]. split; [|intros _; exists core, depth; by rewrite Em].
  rewrite <-E1, Hcore. simpl. rewrite bool_decide_false by done. rewrite Hd'. simpl. rewrite Em'.
  unfold kcore_is_final. by rewrite E1, E2, E3, E4.
Qed.
End analysis.

(** ** The caches are never cleared *)

(** A chain 1 - 2, and later 3 on 2. *)
Definition chain2 : MemoryBackend :=
  foldl (fun s m => dag_op zero_millis (DStore m) s) backend_new [plain_message 1 []; plain_message 2 [1]].
Definition chain3 : MemoryBackend := dag_op zero_millis (DStore (plain_message 3 [2])) chain2.

(** A message analyzed too early is never found final.  The first analysis caches the depth
    of its core and the children lists; when the DAG has grown to the depth finality asks for,
    the same analyzer still answers from the caches, while a fresh analyzer finds the message
    final. *)
Theorem depth_cache_is_stale :
  let a := analyzer_new 1 2 0 f64_zero [] in
  let run := analyze map_to_list elements (fun _ => f64_of_Z 1) in
  let verdict := fmap (fun p : KCoreResult * KCoreAnalyzer => (kc_is_final p.1, kc_depth p.1)) in
  verdict (run a chain2 (replicate 32 1)) = Some (false, 1) /\
  verdict ('(_, a1) ← run a chain2 (replicate 32 1); run a1 chain3 (replicate 32 1)) = Some (false, 1) /\
  verdict (run a chain3 (replicate 32 1)) = Some (true, 2).
Proof. cbv zeta. split_and!; vm_compute; reflexivity. Qed.
