(* ===== verification/Bottleneck.v ===== *)
(** * The bottleneck distance of two persistence diagrams

    [adic-finality/src/ph/bottleneck.rs].  A matching vector holds [None] for the code's [-1].
    The search for augmenting paths carries fuel, one step per point of the second diagram and
    one more; an index out of range panics.  The theorems show that the fuel never runs out and
    that no index is out of range. *)

From S2P Require Import Prelude F64 Simplex Persistence.

Abbreviation Point := (Weight * Weight)%type.

(** ** Runs that may panic or run out of fuel *)

Definition Run (A : Type) : Type := option (result Empty_set A).
Definition done_with {A} (a : A) : Run A := Some (Ok a).
Definition run_bind {A B} (r : Run A) (k : A -> Run B) : Run B :=
  match r with
  | Some (Ok a) => k a
  | Some (Err e) => match e with end
  | Some Panic => Some Panic
  | None => None
  end.
Notation "'let!' x := m 'in' k" := (run_bind m (fun x => k)) (at level 200, x pattern, m at level 100, k at level 200).

(** [l[i]] and [l[i] = x]. *)
Definition index {A} (l : list A) (i : nat) : Run A := match l !! i with Some a => Some (Ok a) | None => Some Panic end.
Definition store {A} (i : nat) (x : A) (l : list A) : Run (list A) := if (i <? length l)%nat then Some (Ok (<[i := x]> l)) else Some Panic.

Lemma index_Some {A} (l : list A) i a : l !! i = Some a -> index l i = done_with a.
Proof. unfold index. by intros ->. Qed.
Lemma store_ok {A} (l : list A) i x : (i < length l)%nat -> store i x l = done_with (<[i := x]> l).
Proof. intros H. unfold store. by rewrite (proj2 (Nat.ltb_lt _ _) H). Qed.

(** ** Distances *)

Definition linf_distance (p1 p2 : Point) : Weight :=
  f64_max (f64_abs (f64_sub p1.1 p2.1)) (f64_abs (f64_sub p1.2 p2.2)).

Definition distance_to_diagonal (p : Point) : Weight :=
  f64_div (f64_abs (f64_sub p.2 p.1)) (f64_of_Z 2).

(** The two matching vectors and the visited marks. *)
Record Matching := mkMatching {
  match1 : list (option nat);
  match2 : list (option nat);
  visited : list bool;
}.

Section matching.
Context (points1 points2 : list Point) (epsilon : Weight).

Definition close (i j : nat) : Run bool :=
  let! p := index points1 i in
  let! q := index points2 j in
  done_with (f64_leb (linf_distance p q) epsilon).

Definition visit (j : nat) (st : Matching) : Run Matching :=
  let! v := store j true (visited st) in
  done_with (mkMatching (match1 st) (match2 st) v).
Definition pair_up (i j : nat) (st : Matching) : Run Matching :=
  let! v1 := store i (Some j) (match1 st) in
  let! v2 := store j (Some i) (match2 st) in
  done_with (mkMatching v1 v2 (visited st)).

(** [a && b], [b] being evaluated when [a] holds. *)
Definition and_then (a : bool) (b : Run bool) : Run bool := if a then b else done_with false.
Definition unvisited (j : nat) (st : Matching) : Run bool := let! seen := index (visited st) j in done_with (negb seen).

(** The loop over the second diagram, with the recursive call as an argument. *)
Fixpoint try_each (path : nat -> Matching -> Run (bool * Matching)) (i : nat) (js : list nat) (st : Matching) : Run (bool * Matching) :=
  match js with
  | [] => done_with (false, st)
  | j :: js =>
      let! near := close i j in
      let! go := and_then near (unvisited j st) in
      if go then
        let! st := visit j st in
        let! partner := index (match2 st) j in
        match partner with
        | None => let! st := pair_up i j st in done_with (true, st)
        | Some j_match =>
            let! (found, st) := path j_match st in
            if found then let! st := pair_up i j st in done_with (true, st)
            else try_each path i js st
        end
      else try_each path i js st
  end.

Fixpoint find_augmenting_path (fuel : nat) (i : nat) (st : Matching) : Run (bool * Matching) :=
  match fuel with
  | O => None
  | S fuel =>
      if (length points1 <=? i)%nat then done_with (false, st)
      else try_each (find_augmenting_path fuel) i (seq 0 (length points2)) st
  end.

Definition path_fuel : nat := S (length points2).

Definition is_unmatched (m : list (option nat)) (i : nat) : Run bool :=
  let! partner := index m i in done_with (match partner with None => true | Some _ => false end).

(** One pass over the points of the first diagram; the flag is [found_augmenting]. *)
Fixpoint augment_pass (idx : list nat) (found : bool) (st : Matching) : Run (bool * Matching) :=
  match idx with
  | [] => done_with (found, st)
  | i :: idx =>
      let! free := is_unmatched (match1 st) i in
      let! go := and_then free (unvisited i st) in
      if go then
        let! (ok, st) := find_augmenting_path path_fuel i st in
        augment_pass idx (found || ok) st
      else augment_pass idx found st
  end.

Definition point_count : nat := Nat.max (length points1) (length points2).
Definition unvisit (st : Matching) : Matching :=
  mkMatching (match1 st) (match2 st) (replicate point_count false).

Fixpoint augment_rounds (rounds : nat) (st : Matching) : Run Matching :=
  match rounds with
  | O => done_with st
  | S rounds =>
      let! (found, st) := augment_pass (seq 0 point_count) false (unvisit st) in
      if found then augment_rounds rounds st else done_with st
  end.

Definition no_match : Matching :=
  mkMatching (replicate point_count None) (replicate point_count None) (replicate point_count false).

(** Every unmatched point is within [epsilon] of the diagonal; the first that is not ends the loop. *)
Fixpoint rest_on_diagonal (points : list Point) (m : list (option nat)) (idx : list nat) : Run bool :=
  match idx with
  | [] => done_with true
  | i :: idx =>
      let! free := is_unmatched m i in
      let! far := and_then free (let! p := index points i in done_with (f64_gtb (distance_to_diagonal p) epsilon)) in
      if far then done_with false else rest_on_diagonal points m idx
  end.

Definition has_perfect_matching : Run bool :=
  let! st := augment_rounds point_count no_match in
  let! rest1 := rest_on_diagonal points1 (match1 st) (seq 0 (length points1)) in
  if rest1 then rest_on_diagonal points2 (match2 st) (seq 0 (length points2)) else done_with false.
End matching.

(** [dedup]: of equal neighbours the first stays. *)
Fixpoint dedup_after (x : Weight) (l : list Weight) : list Weight :=
  match l with
  | [] => []
  | y :: l => if f64_eqb y x then dedup_after x l else y :: dedup_after y l
  end.
Definition dedup (l : list Weight) : list Weight :=
  match l with [] => [] | x :: l => x :: dedup_after x l end.

Definition all_distances (points1 points2 : list Point) : list Weight :=
  concat ((fun p => linf_distance p <$> points2) <$> points1) ++
  (distance_to_diagonal <$> points1) ++ (distance_to_diagonal <$> points2).

(** The binary search on the sorted distances. *)
Fixpoint search (fuel : nat) (test : Weight -> Run bool) (ds : list Weight) (left right : nat) : Run nat :=
  if (left <? right)%nat then
    match fuel with
    | O => None
    | S fuel =>
        let mid := (left + (right - left) / 2)%nat in
        let! epsilon := index ds mid in
        let! passes := test epsilon in
        if passes then search fuel test ds left mid else search fuel test ds (mid + 1) right
    end
  else done_with left.

(** [assert_eq!] of the dimensions and the [unwrap] of [partial_cmp] panic.  Any sort of two or
    more elements compares each of them. *)
Definition bottleneck_distance (diag1 diag2 : PersistenceDiagram) : Run Weight :=
  if negb (pd_dimension diag1 =? pd_dimension diag2)%nat then Some Panic
  else
    let points1 := finite_points diag1 in
    let points2 := finite_points diag2 in
    if bool_decide (points1 = []) && bool_decide (points2 = []) then done_with f64_zero
    else
      let ds := all_distances points1 points2 in
      if bool_decide (ds = []) then done_with f64_zero
      else if existsb is_nan ds && (2 <=? length ds)%nat then Some Panic
      else
        let ds := dedup (isort f64_leb ds) in
        let! least := search (length ds) (has_perfect_matching points1 points2) ds 0 (length ds - 1) in
        index ds least.

(** ** The search keeps a matching *)

Section facts.
Context (points1 points2 : list Point) (epsilon : Weight).
Implicit Types st : Matching.
(** The points [i] and [j] are that close. *)
Definition near (i j : nat) : bool :=
  match points1 !! i, points2 !! j with
  | Some p, Some q => f64_leb (linf_distance p q) epsilon
  | _, _ => false
  end.
Notation N := (point_count points1 points2).

Definition m1 st (i : nat) : option nat := default None (match1 st !! i).
Definition m2 st (j : nat) : option nat := default None (match2 st !! j).
Definition vis st (j : nat) : bool := default false (visited st !! j).
Definition marked (j : nat) st : Matching := mkMatching (match1 st) (match2 st) (<[j := true]> (visited st)).
Definition paired (i j : nat) st : Matching := mkMatching (<[i := Some j]> (match1 st)) (<[j := Some i]> (match2 st)) (visited st).

(** The two vectors describe one matching of close points, but for the old partner [o] of a
    point that has just been matched anew. *)
Record matching_ok (o : option nat) st : Prop := {
  mo_len1 : length (match1 st) = N;
  mo_len2 : length (match2 st) = N;
  mo_len3 : length (visited st) = N;
  mo_fwd i j : m1 st i = Some j -> m2 st j = Some i /\ near i j = true;
  mo_bwd i j : Some j <> o -> m2 st j = Some i -> m1 st i = Some j;
}.

Lemma near_bounds i j : near i j = true -> (i < N)%nat /\ (j < N)%nat /\ (j < length points2)%nat.
Proof.
  unfold near, point_count. destruct (points1 !! i) eqn:E1; [|done]. destruct (points2 !! j) eqn:E2; [|done].
  apply lookup_lt_Some in E1, E2. lia.
Qed.

Lemma vis_visit st j k : (j < length (visited st))%nat -> vis (marked j st) k = if decide (k = j) then true else vis st k.
Proof.
  intros Hj. unfold vis, marked. simpl. case_decide as H.
  - subst. by rewrite list_lookup_insert_eq.
  - by rewrite list_lookup_insert_ne.
Qed.
Lemma m1_pair st i j k : (i < length (match1 st))%nat -> m1 (paired i j st) k = if decide (k = i) then Some j else m1 st k.
Proof.
  intros Hi. unfold m1, paired. simpl. case_decide as H.
  - subst. by rewrite list_lookup_insert_eq.
  - by rewrite list_lookup_insert_ne.
Qed.
Lemma m2_pair st i j k : (j < length (match2 st))%nat -> m2 (paired i j st) k = if decide (k = j) then Some i else m2 st k.
Proof.
  intros Hi. unfold m2, paired. simpl. case_decide as H.
  - subst. by rewrite list_lookup_insert_eq.
  - by rewrite list_lookup_insert_ne.
Qed.

(** How many points of the second diagram are not visited yet. *)
Definition fresh_count st : nat := length (filter (fun j => vis st j = false) (seq 0 (length points2))).

Lemma filter_length_le {A} (P Q : A -> Prop) `{forall x, Decision (P x)} `{forall x, Decision (Q x)} (l : list A) :
  (forall x, P x -> Q x) -> (length (filter P l) <= length (filter Q l))%nat.
Proof.
  intros HPQ. induction l as [|x l IH]; [done|]. rewrite !filter_cons. repeat case_decide; simpl; try lia. naive_solver.
Qed.

Lemma fresh_count_mono st st' :
  (forall j, vis st j = true -> vis st' j = true) -> (fresh_count st' <= fresh_count st)%nat.
Proof. intros H. apply filter_length_le. intros j Hj. destruct (vis st j) eqn:E; [|done]. by rewrite H in Hj. Qed.

Lemma fresh_count_visit st j :
  (j < length points2)%nat -> (j < length (visited st))%nat -> vis st j = false ->
  (fresh_count (marked j st) < fresh_count st)%nat.
Proof.
  intros Hj Hl Hv. unfold fresh_count. assert (j ∈ seq 0 (length points2)) as Hin by (apply elem_of_seq; lia).
  apply list_elem_of_split in Hin as (l1 & l2 & ->). rewrite !filter_app, !filter_cons, !length_app.
  rewrite (decide_True (P := vis st j = false)) by done.
  rewrite (decide_False (P := vis (marked j st) j = false)) by (rewrite vis_visit by done; by rewrite decide_True).
  assert (forall l, length (filter (fun k => vis (marked j st) k = false) l) <= length (filter (fun k => vis st k = false) l))%nat as H.
  { intros l. apply filter_length_le. intros k. rewrite vis_visit by done. by case_decide. }
  pose proof (H l1). pose proof (H l2). simpl. lia.
Qed.

(** What a search for a path from [i] does to the state. *)
Record path_result (i : nat) st (b : bool) st' : Prop := {
  pr_vis j : vis st j = true -> vis st' j = true;
  pr_keep2 j : vis st j = true -> m2 st' j = m2 st j;
  pr_keep1 k : k <> i -> (forall j, m1 st k = Some j -> vis st j = true) -> m1 st' k = m1 st k;
  pr_fail : b = false -> matching_ok None st' /\ match1 st' = match1 st /\ match2 st' = match2 st;
  pr_found : b = true -> matching_ok (m1 st i) st' /\
    exists j, m1 st' i = Some j /\ vis st j = false /\ m2 st' j = Some i;
}.

(** A path may start at a point that is free or whose partner is marked. *)
Definition startable (i : nat) st : Prop := forall j, m1 st i = Some j -> vis st j = true.

Lemma marked_ok st j : (j < N)%nat -> matching_ok None st -> matching_ok None (marked j st).
Proof. intros Hj [H1 H2 H3 H4 H5]. split; try done. simpl. by rewrite length_insert. Qed.

Lemma fail_result i st : matching_ok None st -> path_result i st false st.
Proof. intros H. by split. Qed.

(** A failed search from elsewhere, and then a search from [i]. *)
Lemma path_result_after i st st1 b st' :
  (forall j, vis st j = true -> vis st1 j = true) -> match1 st1 = match1 st -> match2 st1 = match2 st ->
  path_result i st1 b st' -> path_result i st b st'.
Proof.
  intros Hv E1 E2 [H1 H2 H3 H4 H5].
  assert (forall k, m1 st1 k = m1 st k) as M1 by (intros k; unfold m1; by rewrite E1).
  assert (forall k, m2 st1 k = m2 st k) as M2 by (intros k; unfold m2; by rewrite E2).
  split.
  - intros j Hj. by apply H1, Hv.
  - intros j Hj. rewrite <-M2. by apply H2, Hv.
  - intros k Hk Hs. rewrite <-M1. apply H3; [done|]. intros j. rewrite M1. intros Hj. by apply Hv, Hs.
  - intros Hb. rewrite <-E1, <-E2. by apply H4.
  - intros Hb. destruct (H5 Hb) as (Hok & j & Hj1 & Hj2 & Hj3). rewrite <-(M1 i). split; [done|].
    exists j. split_and!; [done| |done]. destruct (vis st j) eqn:E; [|done]. by rewrite (Hv j E) in Hj2.
Qed.

(** The point [j] is free. *)
Lemma pair_free i j st :
  matching_ok None st -> startable i st -> near i j = true -> vis st j = false -> m2 st j = None ->
  path_result i st true (paired i j (marked j st)).
Proof.
  intros Hok Hs Hn Hv Hfree. destruct (near_bounds i j Hn) as (Hi & Hj & _).
  destruct (marked_ok st j Hj Hok) as [L1 L2 L3 F B].
  set (st1 := marked j st) in *. assert (forall k, m1 st1 k = m1 st k) as M1 by done.
  assert (forall k, m2 st1 k = m2 st k) as M2 by done.
  split.
  - intros k Hk. change (vis (paired i j st1) k) with (vis st1 k). unfold st1.
    rewrite vis_visit by (by rewrite (mo_len3 _ _ Hok)). by case_decide.
  - intros k Hk. rewrite m2_pair by (by rewrite L2). case_decide; [subst; congruence|done].
  - intros k Hk _. rewrite m1_pair by (by rewrite L1). by rewrite decide_False.
  - done.
  - intros _. split.
    + split; [simpl; by rewrite length_insert..|done| |].
      * intros i' j'. rewrite m1_pair, m2_pair by (by rewrite ?L1, ?L2). case_decide as H1.
        -- intros [= <-]. subst. by rewrite decide_True.
        -- intros Hm. destruct (F i' j' Hm) as [Hm2 Hc]. rewrite decide_False; [done|]. intros ->. rewrite M2 in Hm2. congruence.
      * intros i' j' Hne. rewrite m1_pair, m2_pair by (by rewrite ?L1, ?L2). case_decide as H1.
        -- intros [= <-]. subst. by rewrite decide_True.
        -- intros Hm. specialize (B i' j' ltac:(done) Hm). rewrite decide_False; [done|]. intros ->. rewrite M1 in B. congruence.
    + exists j. rewrite m1_pair, m2_pair, !decide_True by (by rewrite ?L1, ?L2). done.
Qed.

(** The point [j] was taken, and its old partner found another. *)
Lemma pair_rerouted i j k st st2 :
  matching_ok None st -> startable i st -> near i j = true -> vis st j = false -> m2 st j = Some k ->
  path_result k (marked j st) true st2 -> path_result i st true (paired i j st2).
Proof.
  intros Hok Hs Hn Hv Htaken [P1 P2 P3 _ P5]. destruct (near_bounds i j Hn) as (Hi & Hj & _).
  destruct (P5 eq_refl) as ([L1 L2 L3 F B] & jj & Hjj & Hnew & _). clear P5.
  assert (m1 st k = Some j) as Hk by (by apply (mo_bwd _ _ Hok)).
  assert (i <> k) as Hik by (intros ->; rewrite (Hs j Hk) in Hv; done).
  assert (forall x, vis (marked j st) x = if decide (x = j) then true else vis st x) as Hvis
    by (intros x; apply vis_visit; by rewrite (mo_len3 _ _ Hok)).
  assert (forall x, vis st x = true -> vis (marked j st) x = true) as Hmono by (intros x Hx; rewrite Hvis; by case_decide).
  change (m1 (marked j st) k) with (m1 st k) in B. rewrite Hk in B.
  assert (m1 st2 i = m1 st i) as Hmi.
  { rewrite P3; [done|done|]. intros x Hx. by apply Hmono, Hs. }
  assert (m2 st2 j = Some k) as H2j by (rewrite P2 by (rewrite Hvis; by rewrite decide_True); done).
  assert (jj <> j) as Hjj' by (intros ->; rewrite Hvis, decide_True in Hnew; done).
  split.
  - intros x Hx. change (vis (paired i j st2) x) with (vis st2 x). by apply P1, Hmono.
  - intros x Hx. rewrite m2_pair by (by rewrite L2). case_decide; [subst; congruence|].
    rewrite P2 by (by apply Hmono). done.
  - intros x Hx Hxs. rewrite m1_pair by (by rewrite L1). rewrite decide_False by done.
    rewrite P3; [done| |]; [intros ->; rewrite (Hxs j Hk) in Hv; done|]. intros y Hy. by apply Hmono, Hxs.
  - done.
  - intros _. split.
    + split; [simpl; by rewrite length_insert..|done| |].
      * intros i' j'. rewrite m1_pair, m2_pair by (by rewrite ?L1, ?L2). case_decide as H1.
        -- intros [= <-]. subst. by rewrite decide_True.
        -- intros Hm. destruct (F i' j' Hm) as [Hm2 Hc]. rewrite decide_False; [done|]. intros ->.
           rewrite H2j in Hm2. injection Hm2 as <-. congruence.
      * intros i' j' Hne. rewrite m1_pair, m2_pair by (by rewrite ?L1, ?L2). case_decide as H1.
        -- intros [= <-]. subst. by rewrite decide_True.
        -- intros Hm. specialize (B i' j' ltac:(congruence) Hm). rewrite decide_False; [done|]. intros ->. congruence.
    + exists j. rewrite m1_pair, m2_pair, !decide_True by (by rewrite ?L1, ?L2). done.
Qed.

(** In range the checked operations are the plain ones. *)
Lemma index_m1 o st i : matching_ok o st -> (i < N)%nat -> index (match1 st) i = done_with (m1 st i).
Proof.
  intros Hok Hi. destruct (lookup_lt_is_Some_2 (match1 st) i) as [a Ha]; [by rewrite (mo_len1 _ _ Hok)|]. unfold m1. rewrite Ha. by apply index_Some.
Qed.
Lemma index_m2 o st j : matching_ok o st -> (j < N)%nat -> index (match2 st) j = done_with (m2 st j).
Proof.
  intros Hok Hj. destruct (lookup_lt_is_Some_2 (match2 st) j) as [a Ha]; [by rewrite (mo_len2 _ _ Hok)|]. unfold m2. rewrite Ha. by apply index_Some.
Qed.
Lemma unvisited_ok o st j : matching_ok o st -> (j < N)%nat -> unvisited j st = done_with (negb (vis st j)).
Proof.
  intros Hok Hj. destruct (lookup_lt_is_Some_2 (visited st) j) as [a Ha]; [by rewrite (mo_len3 _ _ Hok)|]. unfold unvisited, vis. rewrite Ha.
  by rewrite (index_Some _ _ _ Ha).
Qed.
Lemma visit_marked o st j : matching_ok o st -> (j < N)%nat -> visit j st = done_with (marked j st).
Proof. intros Hok Hj. unfold visit. by rewrite store_ok by (by rewrite (mo_len3 _ _ Hok)). Qed.
Lemma pair_up_paired o st i j : matching_ok o st -> (i < N)%nat -> (j < N)%nat -> pair_up i j st = done_with (paired i j st).
Proof. intros Hok Hi Hj. unfold pair_up. by rewrite !store_ok by (by rewrite ?(mo_len1 _ _ Hok), ?(mo_len2 _ _ Hok)). Qed.
Lemma close_near i j : (i < length points1)%nat -> (j < length points2)%nat -> close points1 points2 epsilon i j = done_with (near i j).
Proof.
  intros Hi Hj. destruct (lookup_lt_is_Some_2 _ _ Hi) as [p Hp]. destruct (lookup_lt_is_Some_2 _ _ Hj) as [q Hq]. unfold close, near.
  by rewrite (index_Some _ _ _ Hp), (index_Some _ _ _ Hq), Hp, Hq.
Qed.

(** What is asked of the recursive call, and what the search then returns. *)
Definition path_spec (path : nat -> Matching -> Run (bool * Matching)) (fuel : nat) : Prop :=
  forall i st, matching_ok None st -> startable i st -> (fresh_count st < fuel)%nat ->
  exists b st', path i st = done_with (b, st') /\ path_result i st b st'.

Lemma try_each_ok path fuel i js st :
  path_spec path fuel -> (i < length points1)%nat -> Forall (fun j => (j < length points2)%nat) js ->
  matching_ok None st -> startable i st -> (fresh_count st <= fuel)%nat ->
  exists b st', try_each points1 points2 epsilon path i js st = done_with (b, st') /\ path_result i st b st'.
Proof.
  intros Hpath Hi1 Hjs. revert st. induction Hjs as [|j js Hj2 _ IH]; intros st Hok Hs Hf; cbn [try_each].
  { exists false, st. split; [done|by apply fail_result]. }
  rewrite close_near by done. cbn [run_bind done_with]. destruct (near i j) eqn:En; cbn [and_then]; [|by apply IH].
  destruct (near_bounds i j En) as (Hi & Hj & _). rewrite (unvisited_ok None) by done. cbn [run_bind done_with].
  destruct (vis st j) eqn:Ev; cbn [negb]; [by apply IH|].
  assert (j < length (visited st))%nat as Hlen by (by rewrite (mo_len3 _ _ Hok)).
  rewrite (visit_marked None) by done. cbn [run_bind done_with]. pose proof (marked_ok st j Hj Hok) as Hok1.
  rewrite (index_m2 None) by done. cbn [run_bind done_with]. change (m2 (marked j st) j) with (m2 st j). destruct (m2 st j) as [k|] eqn:Em.
  - destruct (Hpath k (marked j st)) as (b & st2 & -> & Hr).
    + done.
    + intros x Hx. change (m1 (marked j st) k) with (m1 st k) in Hx. rewrite (mo_bwd _ _ Hok k j) in Hx by done.
      injection Hx as <-. rewrite vis_visit by done. by rewrite decide_True.
    + pose proof (fresh_count_visit st j Hj2 Hlen Ev). lia.
    + cbn [run_bind done_with]. destruct b.
      { destruct (pr_found _ _ _ _ Hr eq_refl) as [Hok2 _]. rewrite (pair_up_paired _ _ _ _ Hok2) by done.
        exists true. eexists. split; [done|by eapply pair_rerouted]. }
      destruct (pr_fail _ _ _ _ Hr eq_refl) as (Hok2 & E1 & E2).
      assert (forall x, vis st x = true -> vis st2 x = true) as Hv.
      { intros x Hx. apply (pr_vis _ _ _ _ Hr). rewrite vis_visit by done. by case_decide. }
      destruct (IH st2) as (b & st3 & -> & Hr3).
      * done.
      * intros x Hx. apply Hv, Hs. revert Hx. unfold m1. by rewrite E1.
      * pose proof (fresh_count_mono st st2 Hv). lia.
      * exists b, st3. split; [done|]. by apply (path_result_after i st st2).
  - rewrite (pair_up_paired None) by done. exists true. eexists. split; [done|]. by apply pair_free.
Qed.

Lemma find_path_ok fuel : path_spec (find_augmenting_path points1 points2 epsilon fuel) fuel.
Proof.
  induction fuel as [|fuel IH]; intros i st Hok Hs Hf; [lia|]. cbn [find_augmenting_path].
  destruct (length points1 <=? i)%nat eqn:E; zbool; [exists false, st; split; [done|by apply fail_result]|].
  apply (try_each_ok _ fuel); [done..| |done|done|lia]. apply Forall_forall. intros j Hj%elem_of_seq. lia.
Qed.

Lemma filter_length {A} (P : A -> Prop) `{forall x, Decision (P x)} (l : list A) : (length (filter P l) <= length l)%nat.
Proof. induction l as [|x l IH]; [done|]. rewrite filter_cons. case_decide; simpl; lia. Qed.

Lemma fresh_count_bound st : (fresh_count st < path_fuel points2)%nat.
Proof.
  unfold fresh_count, path_fuel. apply Nat.lt_succ_r. etransitivity; [apply filter_length|]. by rewrite length_seq.
Qed.

Lemma is_unmatched_ok m i : (i < length m)%nat -> is_unmatched m i = done_with (match default None (m !! i) with None => true | Some _ => false end).
Proof. intros Hi. destruct (lookup_lt_is_Some_2 _ _ Hi) as [a Ha]. unfold is_unmatched. by rewrite (index_Some _ _ _ Ha), Ha. Qed.

Lemma augment_pass_ok idx found st :
  Forall (fun i => (i < N)%nat) idx -> matching_ok None st ->
  exists b st', augment_pass points1 points2 epsilon idx found st = done_with (b, st') /\ matching_ok None st'.
Proof.
  intros Hidx. revert found st. induction Hidx as [|i idx Hi _ IH]; intros found st Hok; cbn [augment_pass]; [by exists found, st|].
  rewrite is_unmatched_ok by (by rewrite (mo_len1 _ _ Hok)). cbn [run_bind done_with]. fold (m1 st i). destruct (m1 st i) as [j|] eqn:Hfree; cbn [and_then]; [by apply IH|].
  rewrite (unvisited_ok None) by done. cbn [run_bind done_with]. destruct (negb (vis st i)); [|by apply IH].
  destruct (find_path_ok (path_fuel points2) i st Hok) as (b & st' & -> & Hr).
  - intros j Hj. congruence.
  - apply fresh_count_bound.
  - cbn [run_bind done_with]. apply IH. destruct b; [|by apply (pr_fail _ _ _ _ Hr)].
    destruct (pr_found _ _ _ _ Hr eq_refl) as [Hok' _]. by rewrite Hfree in Hok'.
Qed.

Lemma unvisit_ok st : matching_ok None st -> matching_ok None (unvisit points1 points2 st).
Proof. intros [H1 H2 H3 H4 H5]. split; try done. simpl. apply length_replicate. Qed.

Lemma augment_rounds_ok n st :
  matching_ok None st -> exists st', augment_rounds points1 points2 epsilon n st = done_with st' /\ matching_ok None st'.
Proof.
  revert st. induction n as [|n IH]; intros st Hok; cbn [augment_rounds]; [by exists st|].
  destruct (augment_pass_ok (seq 0 N) false (unvisit points1 points2 st)) as (b & st' & -> & Hok');
    [apply Forall_forall; intros j Hj%elem_of_seq; lia|by apply unvisit_ok|].
  cbn [run_bind done_with]. destruct b; [by apply IH|by exists st'].
Qed.

Lemma no_match_ok : matching_ok None (no_match points1 points2).
Proof.
  split; [apply length_replicate..| |].
  - intros i j. unfold m1. simpl. destruct (replicate _ _ !! i) eqn:E; [|done].
    apply lookup_replicate in E as [-> _]. done.
  - intros i j _. unfold m2. simpl. destruct (replicate _ _ !! j) eqn:E; [|done].
    apply lookup_replicate in E as [-> _]. done.
Qed.

(** A partial matching of the two sets of points that costs at most [epsilon]: matched points
    are that close, and the others are that close to the diagonal. *)
Record matching_within (m : nat -> option nat) : Prop := {
  mw_close i j : m i = Some j -> near i j = true;
  mw_inj i i' j : m i = Some j -> m i' = Some j -> i = i';
  mw_rest1 i p : points1 !! i = Some p -> m i = None -> f64_gtb (distance_to_diagonal p) epsilon = false;
  mw_rest2 j q : points2 !! j = Some q -> (forall i, m i <> Some j) -> f64_gtb (distance_to_diagonal q) epsilon = false;
}.

Lemma rest_on_diagonal_spec points m idx :
  Forall (fun i => (i < length m)%nat /\ (i < length points)%nat) idx ->
  exists b, rest_on_diagonal epsilon points m idx = done_with b /\
    (b = true <-> forall i p, i ∈ idx -> points !! i = Some p -> default None (m !! i) = None -> f64_gtb (distance_to_diagonal p) epsilon = false).
Proof.
  induction 1 as [|i idx [Hm Hp] _ (b & IH1 & IH2)]; cbn [rest_on_diagonal]; [exists true; split; [done|]; split; [intros _ ? ? []%elem_of_nil|done]|].
  rewrite is_unmatched_ok by done. cbn [run_bind done_with]. destruct (lookup_lt_is_Some_2 _ _ Hp) as [p E]. rewrite (index_Some _ _ _ E).
  assert (forall far : bool, (far = false <-> (default None (m !! i) = None -> f64_gtb (distance_to_diagonal p) epsilon = false)) ->
    exists b, (if far then done_with false else rest_on_diagonal epsilon points m idx) = done_with b /\
    (b = true <-> forall i' p, i' ∈ i :: idx -> points !! i' = Some p -> default None (m !! i') = None -> f64_gtb (distance_to_diagonal p) epsilon = false)) as H.
  { intros [] Hfar; [exists false; split; [done|]; split; [done|]; intros Hall; discriminate (proj2 Hfar (Hall i p ltac:(left) E))|].
    exists b. split; [done|]. rewrite IH2. split; [|intros Hall i' p' Hi'; apply Hall; by right].
    intros Hall i' p' [->|Hi']%elem_of_cons; [|by apply Hall]. rewrite E. intros [= <-]. by apply Hfar. }
  destruct (default None (m !! i)) eqn:Em; cbn [and_then run_bind done_with]; [by apply (H false)|]. apply H. split; [done|]. intros Hx. by apply Hx.
Qed.

Lemma has_perfect_matching_ok :
  exists b, has_perfect_matching points1 points2 epsilon = done_with b /\
    (b = true -> exists m, matching_within m) /\
    ((forall p, p ∈ points1 ++ points2 -> f64_gtb (distance_to_diagonal p) epsilon = false) -> b = true).
Proof.
  unfold has_perfect_matching. destruct (augment_rounds_ok N _ no_match_ok) as (st & -> & Hok). cbn [run_bind done_with].
  destruct (rest_on_diagonal_spec points1 (match1 st) (seq 0 (length points1))) as (b1 & -> & H1).
  { apply Forall_forall. intros i Hi%elem_of_seq. rewrite (mo_len1 _ _ Hok). unfold point_count. lia. }
  destruct (rest_on_diagonal_spec points2 (match2 st) (seq 0 (length points2))) as (b2 & -> & H2).
  { apply Forall_forall. intros i Hi%elem_of_seq. rewrite (mo_len2 _ _ Hok). unfold point_count. lia. }
  cbn [run_bind done_with]. exists (b1 && b2). split; [by destruct b1|]. split.
  - intros [E1 E2]%andb_prop. rewrite H1 in E1. rewrite H2 in E2. exists (m1 st). split.
    + intros i j Hm. by apply (mo_fwd _ _ Hok).
    + intros i i' j Hi Hi'. apply (mo_fwd _ _ Hok) in Hi as [Hi _], Hi' as [Hi' _]. congruence.
    + intros i p Hp Hm. apply (E1 i p); [|done|exact Hm]. apply elem_of_seq. apply lookup_lt_Some in Hp. lia.
    + intros j q Hq Hm. apply (E2 j q); [|done|].
      { apply elem_of_seq. apply lookup_lt_Some in Hq. lia. }
      change (m2 st j = None). destruct (m2 st j) as [i|] eqn:E; [|done]. by apply (mo_bwd _ _ Hok) in E; [apply Hm in E|].
  - intros Hall. apply andb_true_intro. rewrite H1, H2. split; intros i p _ E _; apply Hall, elem_of_app; apply list_elem_of_lookup_2 in E; tauto.
Qed.
End facts.

(** ** The sorted distances *)

Section distances.
Implicit Types l : list Weight.

Definition numbers l : Prop := Forall (fun x => is_nan x = false) l.

Lemma f64_eqb_leb x y : f64_eqb x y = true -> f64_leb x y = true.
Proof. unfold f64_eqb, f64_leb, SFeqb, SFleb. by destruct (SFcompare x y) as [[]|]. Qed.

Lemma dedup_after_last x l :
  numbers (x :: l) -> StronglySorted (fun a b => f64_leb a b = true) (x :: l) ->
  forall y, y ∈ x :: l -> f64_leb y (List.last (dedup_after x l) x) = true.
Proof.
  revert x. induction l as [|z l IH]; intros x Hn Hs y Hy; simpl.
  { apply list_elem_of_singleton in Hy as ->. apply f64_leb_refl. by apply Forall_inv in Hn. }
  apply Forall_cons in Hn as [Hx Hn]. apply Forall_cons in Hn as [Hz Hn].
  apply StronglySorted_inv in Hs as [Hs Hall]. apply Forall_cons in Hall as [Hxz Hall].
  apply StronglySorted_inv in Hs as [Hs Hall2].
  destruct (f64_eqb z x) eqn:E.
  - assert (forall w, w ∈ x :: l -> f64_leb w (List.last (dedup_after x l) x) = true) as H
      by (apply IH; [by constructor|by constructor]).
    apply elem_of_cons in Hy as [->|[->|Hy]%elem_of_cons].
    + apply H. left.
    + eapply f64_leb_trans; [exact Hx|by apply f64_eqb_leb|]. apply H. left.
    + apply H. by right.
  - assert (forall w, w ∈ z :: l -> f64_leb w (List.last (dedup_after z l) z) = true) as H
      by (apply IH; [by constructor|by constructor]).
    change (f64_leb y (List.last (z :: dedup_after z l) x) = true).
    assert (List.last (z :: dedup_after z l) x = List.last (dedup_after z l) z) as ->.
    { generalize (dedup_after z l). intros l'. revert z x Hx Hz Hn Hxz Hall Hs Hall2 Hy E H.
      clear. intros z x _ _ _ _ _ _ _ _ _ _. revert z x. induction l' as [|a l' IH]; intros z x; [done|].
      change (List.last (a :: l') x = List.last (a :: l') z). by rewrite (IH a x), (IH a z). }
    apply elem_of_cons in Hy as [->|Hy]; [|by apply H].
    eapply f64_leb_trans; [exact Hz|exact Hxz|]. apply H. left.
Qed.

Lemma dedup_after_subset x l y : y ∈ dedup_after x l -> y ∈ l.
Proof.
  revert x. induction l as [|z l IH]; intros x; simpl; [done|]. destruct (f64_eqb z x).
  - intros H. right. by eapply IH.
  - intros [->|H]%elem_of_cons; [left|]. right. by eapply IH.
Qed.
Lemma dedup_subset l y : y ∈ dedup l -> y ∈ l.
Proof. destruct l as [|x l]; [done|]. intros [->|H]%elem_of_cons; [left|]. right. by eapply dedup_after_subset. Qed.

(** The last of the sorted distances bounds them all. *)
Lemma dedup_last l :
  l <> [] -> numbers l -> StronglySorted (fun a b => f64_leb a b = true) l ->
  exists d, dedup l !! (length (dedup l) - 1)%nat = Some d /\ forall y, y ∈ l -> f64_leb y d = true.
Proof.
  intros Hne Hn Hs. destruct l as [|x l]; [done|]. exists (List.last (dedup_after x l) x). split.
  - simpl. rewrite Nat.sub_0_r. generalize (dedup_after x l). intros l'. clear. revert x.
    induction l' as [|a l' IH]; intros x; [done|]. simpl length. change ((x :: a :: l') !! S (length l')) with ((a :: l') !! length l').
    rewrite IH. f_equal. clear. revert a x. induction l' as [|b l' IH]; intros a x; [done|].
    change (List.last (b :: l') a = List.last (b :: l') x). by rewrite <-(IH b a), <-(IH b x).
  - by apply dedup_after_last.
Qed.
End distances.

Lemma search_spec test ds fuel left right :
  (forall d, exists b, test d = done_with b) -> (right - left <= fuel)%nat -> (left <= right < length ds)%nat ->
  exists k d, search fuel test ds left right = done_with k /\ (left <= k <= right)%nat /\ ds !! k = Some d /\
    ((exists d', ds !! right = Some d' /\ test d' = done_with true) -> test d = done_with true) /\
    (k = left \/ exists d', ds !! (k - 1)%nat = Some d' /\ test d' = done_with false).
Proof.
  intros Htest. revert left right. induction fuel as [|fuel IH]; intros left right Hf Hle; cbn [search].
  { destruct (left <? right)%nat eqn:E; zbool; [lia|]. assert (left = right) as -> by lia.
    destruct (lookup_lt_is_Some_2 ds right ltac:(lia)) as [d Hd]. exists right, d. split_and!; [done|lia..|done| |by left].
    intros (d' & Hd' & Ht). congruence. }
  destruct (left <? right)%nat eqn:E; zbool.
  2: { assert (left = right) as -> by lia. destruct (lookup_lt_is_Some_2 ds right ltac:(lia)) as [d Hd]. exists right, d.
       split_and!; [done|lia..|done| |by left]. intros (d' & Hd' & Ht). congruence. }
  assert ((right - left) / 2 < right - left)%nat as Hhalf by (apply Nat.div_lt; lia).
  set (mid := (left + (right - left) / 2)%nat) in *. destruct (lookup_lt_is_Some_2 ds mid ltac:(lia)) as [dm Hdm].
  rewrite (index_Some _ _ _ Hdm). cbn [run_bind done_with]. destruct (Htest dm) as [[] Ht]; rewrite Ht; cbn [run_bind done_with].
  - destruct (IH left mid) as (k & d & H1 & H2 & H3 & H4 & H5); [lia|lia|]. exists k, d. split_and!; try done; [lia..|].
    intros _. apply H4. by exists dm.
  - destruct (IH (mid + 1)%nat right) as (k & d & H1 & H2 & H3 & H4 & H5); [lia|lia|]. exists k, d. split_and!; try done; [lia..|].
    right. destruct H5 as [->|H5]; [|done]. exists dm. by replace (mid + 1 - 1)%nat with mid by lia.
Qed.

Lemma dedup_nonempty l : l <> [] -> (0 < length (dedup l))%nat.
Proof. destruct l; [done|]. simpl. lia. Qed.

(** [NaN] or not, the computation ends. *)
Lemma bottleneck_distance_total diag1 diag2 : exists r, bottleneck_distance diag1 diag2 = Some r.
Proof.
  unfold bottleneck_distance. repeat (case_match; [by eexists|]).
  set (ds := dedup _). assert (0 < length ds)%nat as Hds.
  { apply dedup_nonempty. intros E. assert (length (isort f64_leb (all_distances (finite_points diag1) (finite_points diag2))) = 0%nat) as E' by (by rewrite E).
    rewrite isort_length in E'. apply nil_length_inv in E'. by match goal with H : bool_decide _ = false |- _ => apply bool_decide_eq_false in H end. }
  destruct (search_spec (has_perfect_matching (finite_points diag1) (finite_points diag2)) ds (length ds) 0 (length ds - 1)) as (k & d & -> & _ & Hd & _); [|lia|lia|].
  - intros d. destruct (has_perfect_matching_ok (finite_points diag1) (finite_points diag2) d) as (b & Hb & _). by exists b.
  - cbn [run_bind done_with]. rewrite (index_Some _ _ _ Hd). by eexists.
Qed.

(** What [bottleneck_distance] returns for two diagrams that are not both without finite points:
    one of their distances, at which the test passes, and the test fails at the next smaller. *)
Definition least_passing (points1 points2 : list Point) (d : Weight) : Prop :=
  exists ds k, ds = dedup (isort f64_leb (all_distances points1 points2)) /\ ds !! k = Some d /\
    has_perfect_matching points1 points2 d = Some (Ok true) /\
    (k = 0%nat \/ exists d', ds !! (k - 1)%nat = Some d' /\ has_perfect_matching points1 points2 d' = Some (Ok false)).

Lemma all_distances_diagonal points1 points2 p :
  p ∈ points1 ++ points2 -> distance_to_diagonal p ∈ all_distances points1 points2.
Proof.
  unfold all_distances. intros [H|H]%elem_of_app; rewrite !elem_of_app; right; [left|right];
    by apply list_elem_of_fmap_2.
Qed.

(** C31: The bottleneck distance of two diagrams of one dimension, none of whose distances is
    [NaN], is computed: neither the binary search nor the search for augmenting paths loops, no
    vector is indexed out of range and nothing panics.  It is 0 when neither diagram has a finite
    point.  Otherwise it is one of the distances, the points can be matched one to one within it
    so that every point left over is that close to the diagonal, and the matching test fails at
    the next smaller distance. *)
Theorem bottleneck_matching diag1 diag2 :
  pd_dimension diag1 = pd_dimension diag2 ->
  numbers (all_distances (finite_points diag1) (finite_points diag2)) ->
  exists d, bottleneck_distance diag1 diag2 = Some (Ok d) /\
    if decide (finite_points diag1 = [] /\ finite_points diag2 = []) then d = f64_zero
    else d ∈ all_distances (finite_points diag1) (finite_points diag2) /\
      least_passing (finite_points diag1) (finite_points diag2) d /\
      exists m, matching_within (finite_points diag1) (finite_points diag2) d m.
Proof.
  intros Hdim Hn. unfold bottleneck_distance. rewrite (proj2 (Nat.eqb_eq _ _) Hdim). cbn [negb].
  set (p1 := finite_points diag1) in *. set (p2 := finite_points diag2) in *.
  destruct (decide (p1 = [] /\ p2 = [])) as [[E1 E2]|Hne].
  { rewrite !bool_decide_true by done. by exists f64_zero. }
  assert (bool_decide (p1 = []) && bool_decide (p2 = []) = false) as ->
    by (destruct p1, p2; rewrite ?bool_decide_true by done; done || (exfalso; by apply Hne)).
  assert (existsb is_nan (all_distances p1 p2) = false) as ->.
  { apply not_true_iff_false. intros (x & Hin & Hx)%existsb_exists. unfold numbers in Hn. rewrite Forall_forall in Hn.
    apply list_elem_of_In, Hn in Hin. congruence. }
  assert (all_distances p1 p2 <> []) as Hne'.
  { intros E. apply Hne. pose proof (all_distances_diagonal p1 p2) as H. rewrite E in H.
    split; [destruct p1 as [|p p1']|destruct p2 as [|p p2']]; try done; exfalso; specialize (H p); eapply not_elem_of_nil, H;
      rewrite elem_of_app, elem_of_cons; tauto. }
  rewrite bool_decide_false by done. cbn [andb]. set (ds := dedup (isort f64_leb (all_distances p1 p2))).
  destruct (dedup_last (isort f64_leb (all_distances p1 p2))) as (dl & Hdl & Hmax).
  { intros E. apply Hne', nil_length_inv. by rewrite <-(isort_length f64_leb), E. }
  { unfold numbers. by rewrite isort_Permutation. }
  { apply (isort_sorted f64_leb (fun x => is_nan x = false)); [|intros x y z _ Hy _; by apply f64_leb_trans|done].
    intros; by apply f64_leb_total. }
  fold ds in Hdl. assert (length ds - 1 < length ds)%nat as Hlen by (by apply lookup_lt_Some in Hdl).
  destruct (search_spec (has_perfect_matching p1 p2) ds (length ds) 0 (length ds - 1)) as (k & d & -> & Hk & Hd & Ht & Hp).
  - intros d. destruct (has_perfect_matching_ok p1 p2 d) as (b & Hb & _). by exists b.
  - lia.
  - lia.
  - cbn [run_bind done_with]. rewrite (index_Some _ _ _ Hd). exists d. split; [done|].
    assert (has_perfect_matching p1 p2 d = done_with true) as Htrue.
    { apply Ht. exists dl. split; [done|]. destruct (has_perfect_matching_ok p1 p2 dl) as (b & -> & _ & Hall). f_equal. f_equal.
      apply Hall. intros p Hin. unfold f64_gtb, SFltb. specialize (Hmax (distance_to_diagonal p)). rewrite elem_of_isort in Hmax.
      specialize (Hmax (all_distances_diagonal _ _ _ Hin)). unfold f64_leb, SFleb in Hmax.
      change (SFcompare dl (distance_to_diagonal p)) with (f64_partial_cmp dl (distance_to_diagonal p)).
      rewrite f64_partial_cmp_antisym. unfold f64_partial_cmp. by destruct (SFcompare _ dl) as [[]|]. }
    split_and!.
    + rewrite <-(elem_of_isort f64_leb). apply dedup_subset. by eapply list_elem_of_lookup_2.
    + exists ds, k. by split_and!.
    + destruct (has_perfect_matching_ok p1 p2 d) as (b & Hb & Hm & _). apply Hm. rewrite Htrue in Hb. by injection Hb.
Qed.

(** Two points near one another and near a third, the first of them near the diagonal. *)
Definition feature (b d : Z) : PersistenceInterval := interval_finite (f64_of_Z b) (f64_of_Z d) 1.
Definition diagram_of (l : list PersistenceInterval) : PersistenceDiagram := mkDiagram 1 l.

Lemma bottleneck_matching_witness :
  bottleneck_distance (diagram_of [feature 0 5; feature 0 1]) (diagram_of [feature 0 3]) = Some (Ok (f64_of_Z 2)) /\
  exists m, matching_within [(f64_of_Z 0, f64_of_Z 5); (f64_of_Z 0, f64_of_Z 1)] [(f64_of_Z 0, f64_of_Z 3)] (f64_of_Z 2) m.
Proof.
  split; [vm_compute; reflexivity|].
  destruct (bottleneck_matching (diagram_of [feature 0 5; feature 0 1]) (diagram_of [feature 0 3])) as (d & Hd & Hm).
  - reflexivity.
  - unfold numbers. apply Forall_forall. intros x Hx. revert x Hx. apply Forall_forall. vm_compute. repeat constructor.
  - assert (d = f64_of_Z 2) as -> by (vm_compute in Hd; injection Hd as <-; vm_compute; reflexivity).
    rewrite decide_False in Hm by (intros [H _]; discriminate H). exact (proj2 (proj2 Hm)).
Defined.

(** The result depends on the order of the points, which no distance does: the search for a
    matching pairs as many points as it can, so a point that could rest on the diagonal keeps
    the partner that a later point needs.  The same two diagrams are at distance 2 with the
    longer interval first, and at 2.5 with the shorter one first. *)
Theorem bottleneck_depends_on_order :
  exists i1 i2 (diag : PersistenceDiagram),
    bottleneck_distance (diagram_of [i1; i2]) diag = Some (Ok (f64_of_Z 2)) /\
    bottleneck_distance (diagram_of [i2; i1]) diag = Some (Ok (f64_div (f64_of_Z 5) (f64_of_Z 2))).
Proof.
  exists (feature 0 5), (feature 0 1), (diagram_of [feature 0 3]). split; vm_compute; reflexivity.
Qed.
