(* ===== verification/F2.v ===== *)
(** * F2 finality: persistent homology over a window of messages

    [adic-finality/src/ph/f2_finality.rs].  The checker composes the complex of the messages
    ([AdicComplex]), the reduction ([Homology]), the diagrams ([Persistence]) or the streaming
    engine ([Streaming]), and the [Bottleneck] distance to the previous window.  The clock is an
    argument: [elapsed k] is the number of milliseconds that the [k]-th reading of
    [start.elapsed()] in the text of the function returns.  The reason of a pending result is
    a constructor instead of its formatted text. *)

From S2P Require Import Prelude F64 Message Simplex Matrix Homology Persistence AdicComplex Streaming Bottleneck.

Record F2Config := mkF2Config {
  f2_dimension : nat;
  f2_radius : nat;
  f2_axis : Z;
  f2_epsilon : f64;
  f2_timeout_ms : Z;
  use_streaming : bool;
  max_betti_d : nat;
  min_persistence : f64;
}.

Definition f2_default : F2Config :=
  mkF2Config 3 5 0 (f64_div (f64_of_Z 1) (f64_of_Z 10)) 2000 false 2 (f64_div (f64_of_Z 1) (f64_of_Z 100)).

Inductive PendingReason :=
  | NoMessages
  | NoSimplices
  | DistanceNotBelow (dist epsilon : f64)
  | FirstWindow
  | NotYetStable.

Inductive F2Result :=
  | F2Final (h_d_stable : bool) (h_d_minus_1_bottleneck confidence : f64) (finalized_messages : list MessageId) (elapsed_ms : Z)
  | F2Timeout (elapsed_ms : Z) (partial_bottleneck : option f64)
  | F2Pending (reason : PendingReason) (h_d_stable : bool) (h_d_minus_1_distance : option f64)
  | F2Error (message : PhError).

Record F2FinalityChecker := mkF2 {
  f2_config : F2Config;
  previous_h_d_minus_1 : option PersistenceDiagram;
  f2_streaming : option StreamingPersistence;
  f2_round : Z;
}.

Definition streaming_of (config : F2Config) : option StreamingPersistence :=
  if use_streaming config
  then Some (streaming_new (f2_dimension config) (f2_radius config) (f2_axis config))
  else None.

Definition f2_new (config : F2Config) : F2FinalityChecker := mkF2 config None (streaming_of config) 0.

Definition f2_clone (ck : F2FinalityChecker) : F2FinalityChecker :=
  mkF2 (f2_config ck) (previous_h_d_minus_1 ck) (streaming_of (f2_config ck)) 0.

Definition f2_reset (ck : F2FinalityChecker) : F2FinalityChecker :=
  mkF2 (f2_config ck) None (f2_streaming ck) (f2_round ck).

Definition check_h_d_stability_impl (data : PersistenceData) (d max_betti : nat) (min_pers : f64) : bool :=
  match get_diagram data d with
  | None => false
  | Some h_d =>
      if (max_betti <? betti_number h_d)%nat then false
      else negb ((0 <? num_intervals h_d)%nat &&
                 (length (filter_by_persistence h_d min_pers) <? num_intervals h_d / 2)%nat)
  end.

Definition check_h_d_stability (ck : F2FinalityChecker) (data : PersistenceData) : bool :=
  check_h_d_stability_impl data (f2_dimension (f2_config ck)) (max_betti_d (f2_config ck)) (min_persistence (f2_config ck)).

(** [get_diagram(dimension - 1)]: for dimension 0 the subtraction wraps to [usize::MAX], a
    dimension no simplex has. *)
Definition diagram_below (data : PersistenceData) (d : nat) : option PersistenceDiagram :=
  match d with O => None | S d => get_diagram data d end.

Definition evaluate_finality_conditions (ck : F2FinalityChecker) (h_d_stable : bool) (bottleneck_dist : option f64)
    (messages : list AdicMessage) (elapsed_ms : Z) : F2Result :=
  let epsilon := f2_epsilon (f2_config ck) in
  if h_d_stable then
    match bottleneck_dist with
    | Some dist =>
        if f64_ltb dist epsilon then
          F2Final true dist (f64_clamp f64_zero (f64_of_Z 1) (f64_div (f64_sub epsilon dist) epsilon))
            (msg_id <$> messages) elapsed_ms
        else F2Pending (DistanceNotBelow dist epsilon) true (Some dist)
    | None => F2Pending FirstWindow true None
    end
  else F2Pending NotYetStable false bottleneck_dist.

(** [if let (Some(prev), Some(curr))]: the distance to the previous window; [Ok None] is an
    exhausted fuel. *)
Definition distance_to_previous (prev curr : option PersistenceDiagram)
    : result Empty_set (option (option f64)) :=
  match prev, curr with
  | Some prev, Some curr =>
      match bottleneck_distance prev curr with
      | None => Ok None
      | Some r => let? d := r in Ok (Some (Some d))
      end
  | _, _ => Ok (Some None)
  end.

(** [if let Some(curr) = current { self.previous_h_d_minus_1 = Some(curr) }]. *)
Definition keep_diagram (ck : F2FinalityChecker) (curr : option PersistenceDiagram) : F2FinalityChecker :=
  match curr with
  | Some dg => mkF2 (f2_config ck) (Some dg) (f2_streaming ck) (f2_round ck)
  | None => ck
  end.

Section checking.
Context (ball_iter : gmap (list Z) (list (MessageId * f64)) -> list (list Z * list (MessageId * f64))).
Context (pair_iter : gmap ColIndex RowIndex -> list (ColIndex * RowIndex)).
Context (elapsed : nat -> Z).

Definition late (ck : F2FinalityChecker) (k : nat) : bool := f2_timeout_ms (f2_config ck) <? elapsed k.

(** The tail of the batch check, once the diagrams are known. *)
Definition conclude_batch (ck : F2FinalityChecker) (messages : list AdicMessage) (data : PersistenceData)
    : result Empty_set (option (F2FinalityChecker * F2Result)) :=
  let h_d_stable := check_h_d_stability ck data in
  let curr := diagram_below data (f2_dimension (f2_config ck)) in
  if bool_decide (is_Some (previous_h_d_minus_1 ck) /\ is_Some curr) && late ck 4
  then Ok (Some (ck, F2Timeout (to_u64 (elapsed 5)) None))
  else
    let? dist := distance_to_previous (previous_h_d_minus_1 ck) curr in
    match dist with
    | None => Ok None
    | Some dist =>
        let ck := keep_diagram ck curr in
        Ok (Some (ck, evaluate_finality_conditions ck h_d_stable dist messages (to_u64 (elapsed 6))))
    end.

Definition check_finality_batch (ck : F2FinalityChecker) (messages : list AdicMessage)
    : result Empty_set (option (F2FinalityChecker * F2Result)) :=
  match messages with
  | [] => Ok (Some (ck, F2Pending NoMessages false None))
  | _ =>
      match build_from_messages ball_iter builder_new messages (f2_axis (f2_config ck)) (f2_radius (f2_config ck))
              (f2_dimension (f2_config ck)) with
      | Ok (Some (_, c)) =>
          if (num_simplices c =? 0)%nat then Ok (Some (ck, F2Pending NoSimplices false None))
          else if late ck 0 then Ok (Some (ck, F2Timeout (to_u64 (elapsed 1)) None))
          else
            match reduce_boundary_matrix (from_complex c) with
            | None => Ok None
            | Some r =>
                if late ck 2 then Ok (Some (ck, F2Timeout (to_u64 (elapsed 3)) None))
                else
                  let? data := from_reduction (pair_iter (pairs r)) r c in
                  conclude_batch ck messages data
            end
      | Ok None => Ok None
      | _ => Panic
      end
  end.

(** The streaming engine is changed even when the check is still pending; an error leaves it as
    it was, and [expect] panics without one. *)
Definition check_finality_streaming (now : Z) (ck : F2FinalityChecker) (messages : list AdicMessage)
    : result Empty_set (option (F2FinalityChecker * F2Result)) :=
  match messages with
  | [] => Ok (Some (ck, F2Pending NoMessages false None))
  | _ =>
      match f2_streaming ck with
      | None => Panic
      | Some st =>
          match add_messages ball_iter pair_iter st messages now (f2_round ck) with
          | Panic => Panic
          | Ok None => Ok None
          | Err e => Ok (Some (ck, F2Error e))
          | Ok (Some (st, _)) =>
              let h_d_stable := check_h_d_stability ck (st_persistence st) in
              let curr := diagram_below (st_persistence st) (f2_dimension (f2_config ck)) in
              let ck := mkF2 (f2_config ck) (previous_h_d_minus_1 ck) (Some st) (to_u64 (f2_round ck + 1)) in
              let? dist := distance_to_previous (previous_h_d_minus_1 ck) curr in
              match dist with
              | None => Ok None
              | Some dist =>
                  let ck := keep_diagram ck curr in
                  Ok (Some (ck, evaluate_finality_conditions ck h_d_stable dist messages (to_u64 (elapsed 0))))
              end
          end
      end
  end.

Definition check_finality (now : Z) (ck : F2FinalityChecker) (messages : list AdicMessage)
    : result Empty_set (option (F2FinalityChecker * F2Result)) :=
  if use_streaming (f2_config ck) then check_finality_streaming now ck messages
  else check_finality_batch ck messages.
End checking.

(** ** What a check decides *)

(** The previous diagram is of the dimension the next one will have. *)
Definition checker_ok (ck : F2FinalityChecker) : Prop :=
  forall prev, previous_h_d_minus_1 ck = Some prev -> S (pd_dimension prev) = f2_dimension (f2_config ck).

Section facts.
Context (ball_iter : gmap (list Z) (list (MessageId * f64)) -> list (list Z * list (MessageId * f64))).
Context (pair_iter : gmap ColIndex RowIndex -> list (ColIndex * RowIndex)).
Context (elapsed : nat -> Z).

(** The persistence data of the messages of a window, when they form a complex at all. *)
Definition window_data (cfg : F2Config) (messages : list AdicMessage) (data : PersistenceData) : Prop :=
  exists b c r, build_from_messages ball_iter builder_new messages (f2_axis cfg) (f2_radius cfg) (f2_dimension cfg) =
      Ok (Some (b, c)) /\ num_simplices c <> 0%nat /\
    reduce_boundary_matrix (from_complex c) = Some r /\ from_reduction (pair_iter (pairs r)) r c = Ok data.

Definition stable_window (cfg : F2Config) (data : PersistenceData) : bool :=
  check_h_d_stability_impl data (f2_dimension cfg) (max_betti_d cfg) (min_persistence cfg).

(** The two conditions of finality. *)
Definition final_conditions (ck : F2FinalityChecker) (data : PersistenceData) (dist : f64) : Prop :=
  stable_window (f2_config ck) data = true /\
  f64_ltb dist (f2_epsilon (f2_config ck)) = true /\
  exists prev dg, previous_h_d_minus_1 ck = Some prev /\ diagram_below data (f2_dimension (f2_config ck)) = Some dg /\
    bottleneck_distance prev dg = Some (Ok dist).

(** The checker after a window has been compared. *)
Definition after_window (ck : F2FinalityChecker) (data : PersistenceData) : F2FinalityChecker :=
  keep_diagram ck (diagram_below data (f2_dimension (f2_config ck))).

Definition final_result (messages : list AdicMessage) (dist : f64) (res : F2Result) : Prop :=
  exists confidence ms, res = F2Final true dist confidence (msg_id <$> messages) ms.

Lemma evaluate_spec ck ck0 stable dist messages ms :
  f2_config ck = f2_config ck0 ->
  match evaluate_finality_conditions ck stable dist messages ms with
  | F2Final h d conf fin ms' => h = true /\ stable = true /\ dist = Some d /\
      f64_ltb d (f2_epsilon (f2_config ck0)) = true /\ fin = msg_id <$> messages
  | F2Pending _ h d => ~ (stable = true /\ exists d, dist = Some d /\ f64_ltb d (f2_epsilon (f2_config ck0)) = true)
  | _ => False
  end.
Proof.
  intros Hc. unfold evaluate_finality_conditions. rewrite Hc. destruct stable; [|by intros [? _]].
  destruct dist as [d|]; [|by intros (_ & d & ? & _)].
  destruct (f64_ltb d _) eqn:E; [done|]. intros (_ & d' & [= <-] & ?). congruence.
Qed.

Lemma diagram_below_dimension order r c data d dg :
  from_reduction order r c = Ok data ->
  (forall d b, pairs r !! d = Some b -> (d < num_simplices c /\ b < num_simplices c)%nat) ->
  (forall j, j ∈ unpaired r -> (j < num_simplices c)%nat) -> order ≡ₚ map_to_list (pairs r) ->
  diagram_below data d = Some dg -> S (pd_dimension dg) = d.
Proof.
  intros Hdata Hp Hu Hperm Hdg. destruct (from_reduction_total c r order Hp Hu Hperm) as (data' & E & Hrec).
  rewrite Hdata in E. injection E as <-. destruct d as [|d]; [done|]. simpl in Hdg. unfold get_diagram in Hdg.
  rewrite (rec_diagram _ _ Hrec) in Hdg. destruct (of_dim d _); [done|]. by injection Hdg as <-.
Qed.

Lemma keep_config ck curr : f2_config (keep_diagram ck curr) = f2_config ck.
Proof. by destruct curr. Qed.

(** What comparing the diagram with the previous one comes to. *)
Lemma distance_to_previous_ok d prev curr :
  (forall p, prev = Some p -> S (pd_dimension p) = d) -> (forall c, curr = Some c -> S (pd_dimension c) = d) ->
  match distance_to_previous prev curr with
  | Ok (Some (Some dist)) => exists p c, prev = Some p /\ curr = Some c /\ bottleneck_distance p c = Some (Ok dist)
  | Ok (Some None) => prev = None \/ curr = None
  | Panic => exists p c, prev = Some p /\ curr = Some c /\ ~ numbers (all_distances (finite_points p) (finite_points c))
  | _ => False
  end.
Proof.
  intros Hp Hc. destruct prev as [p|], curr as [c|]; simpl; [|tauto..].
  specialize (Hp p eq_refl). specialize (Hc c eq_refl).
  destruct (decide (numbers (all_distances (finite_points p) (finite_points c)))) as [Hn|Hn].
  - destruct (bottleneck_matching p c) as (dist & Hd & _); [congruence|done|]. rewrite Hd. simpl. by exists p, c.
  - destruct (bottleneck_distance_total p c) as [[dist|[]|] E]; rewrite E; simpl; by exists p, c.
Qed.

Context (Hball : forall m, ball_iter m ≡ₚ map_to_list m) (Hpair : forall m, pair_iter m ≡ₚ map_to_list m).

Lemma conclude_batch_ok ck messages data :
  checker_ok ck -> (forall dg, diagram_below data (f2_dimension (f2_config ck)) = Some dg -> S (pd_dimension dg) = f2_dimension (f2_config ck)) ->
  match conclude_batch elapsed ck messages data with
  | Ok (Some (ck', res)) => checker_ok ck' /\
      match res with
      | F2Final _ dist _ _ _ => ck' = after_window ck data /\ final_conditions ck data dist /\ final_result messages dist res
      | F2Pending _ _ _ => ck' = after_window ck data /\ forall dist, ~ final_conditions ck data dist
      | F2Timeout _ _ => ck' = ck /\ exists k, f2_timeout_ms (f2_config ck) < elapsed k
      | F2Error _ => False
      end
  | Panic => exists prev dg, previous_h_d_minus_1 ck = Some prev /\
      diagram_below data (f2_dimension (f2_config ck)) = Some dg /\
      ~ numbers (all_distances (finite_points prev) (finite_points dg))
  | _ => False
  end.
Proof.
  intros Hck Hdg. unfold conclude_batch.
  destruct (bool_decide _ && late elapsed ck 4) eqn:El.
  { split; [done|]. split; [done|]. exists 4%nat. apply andb_prop in El as [_ El]. by apply Z.ltb_lt in El. }
  pose proof (distance_to_previous_ok _ _ _ Hck Hdg) as Hd.
  destruct (distance_to_previous _ _) as [[dist|]|[]|]; cbn [result_bind]; [|done..].
  assert (checker_ok (after_window ck data)) as Hok.
  { unfold after_window, checker_ok. rewrite keep_config. destruct (diagram_below _ _) as [dg|] eqn:E; [|done].
    simpl. intros prev [= <-]. by apply Hdg. }
  pose proof (evaluate_spec (keep_diagram ck (diagram_below data (f2_dimension (f2_config ck)))) ck (check_h_d_stability ck data)
    dist messages (to_u64 (elapsed 6)) (keep_config _ _)) as He.
  destruct (evaluate_finality_conditions _ _ _ _ _) as [h d conf fin ms| |reason h d|]; try done; (split; [done|split; [done|]]).
  - destruct He as (-> & Hst & -> & Hlt & ->). split; [|by exists conf, ms].
    destruct Hd as (p & c & ? & ? & ?). split; [done|]. split; [done|]. by exists p, c.
  - intros d0 (Hst & Hlt & p & c & Hp & Hc & Hbd). apply He. split; [done|].
    destruct dist as [d1|]; [|destruct Hd; congruence]. destruct Hd as (p' & c' & Hp' & Hc' & Hbd'). exists d1. split; [done|].
    congruence.
Qed.

(** The persistence data of a window are computed, whatever the maps' iteration orders. *)
Lemma window_ok cfg messages :
  NoDup (msg_id <$> messages) -> Z.of_nat (length messages) <= u64_max ->
  exists b c, build_from_messages ball_iter builder_new messages (f2_axis cfg) (f2_radius cfg) (f2_dimension cfg) =
      Ok (Some (b, c)) /\
    exists r data, reduce_boundary_matrix (from_complex c) = Some r /\ from_reduction (pair_iter (pairs r)) r c = Ok data /\
      forall d dg, diagram_below data d = Some dg -> S (pd_dimension dg) = d.
Proof.
  intros Hids Hlen. destruct (build_ok ball_iter Hball builder_new messages (f2_axis cfg) (f2_radius cfg) (f2_dimension cfg))
    as (b & c & Hb & Hc & _); [apply builder_new_wf|done|done|].
  exists b, c. split; [done|]. destruct (persistence_split_ok c Hc) as (r & Hr & Hsp).
  destruct (from_reduction_ok c r (pair_iter (pairs r)) Hsp (Hpair _)) as (data & Hdata & _).
  exists r, data. split; [done|]. split; [done|]. intros d dg. destruct Hsp as [_ Hp [_ Hu]].
  eapply diagram_below_dimension; [exact Hdata| |done|apply Hpair].
  intros x y Hx. destruct (Hp x y Hx) as [? _]. lia.
Qed.
End facts.

(** C24: What the batch check decides, for messages with distinct ids.  It neither loops nor
    panics, but for a [NaN] distance between the diagrams.  A [Final] result lists exactly the
    ids of the messages and is given only when [H_d] of their complex is stable and the diagram
    of [H_{d-1}] is closer than epsilon to that of the previous window, which must exist; a
    [Pending] one only when that is not so.  The compared diagram replaces the previous one, and
    a timeout or an empty complex leaves the checker as it was. *)
Theorem f2_batch_correct
    (ball_iter : gmap (list Z) (list (MessageId * f64)) -> list (list Z * list (MessageId * f64)))
    (pair_iter : gmap ColIndex RowIndex -> list (ColIndex * RowIndex)) (elapsed : nat -> Z) (now : Z)
    (ck : F2FinalityChecker) (messages : list AdicMessage)
    (Hball : forall m, ball_iter m ≡ₚ map_to_list m) (Hpair : forall m, pair_iter m ≡ₚ map_to_list m)
    (Hck : checker_ok ck) (Hmode : use_streaming (f2_config ck) = false)
    (Hids : NoDup (msg_id <$> messages)) (Hlen : Z.of_nat (length messages) <= u64_max) :
  let windows := window_data ball_iter pair_iter (f2_config ck) messages in
  match check_finality ball_iter pair_iter elapsed now ck messages with
  | Ok (Some (ck', res)) => checker_ok ck' /\
      match res with
      | F2Final _ dist _ _ _ => exists data, windows data /\ ck' = after_window ck data /\
          final_conditions ck data dist /\ final_result messages dist res
      | F2Pending _ _ _ => (ck' = ck /\ forall data, ~ windows data) \/
          exists data, windows data /\ ck' = after_window ck data /\ forall dist, ~ final_conditions ck data dist
      | F2Timeout _ _ => ck' = ck /\ exists k, f2_timeout_ms (f2_config ck) < elapsed k
      | F2Error _ => False
      end
  | Panic => exists data prev dg, windows data /\ previous_h_d_minus_1 ck = Some prev /\
      diagram_below data (f2_dimension (f2_config ck)) = Some dg /\
      ~ numbers (all_distances (finite_points prev) (finite_points dg))
  | _ => False
  end.
Proof.
  unfold check_finality, check_finality_batch. rewrite Hmode.
  destruct (window_ok ball_iter pair_iter Hball Hpair (f2_config ck) messages Hids Hlen)
    as (b & c & Hb & r & data & Hr & Hdata & Hdim).
  destruct messages as [|m0 ms].
  { split; [done|]. left. split; [done|]. intros d (b' & c' & r' & Hb' & Hn & _). simpl in Hb'. by injection Hb' as <- <-. }
  rewrite Hb. destruct (num_simplices c =? 0)%nat eqn:En.
  { apply Nat.eqb_eq in En. split; [done|]. left. split; [done|]. intros d (b' & c' & r' & Hb' & Hn & _). congruence. }
  destruct (late elapsed ck 0) eqn:E0; [split; [done|]; split; [done|]; exists 0%nat; by apply Z.ltb_lt|].
  rewrite Hr. destruct (late elapsed ck 2) eqn:E2; [split; [done|]; split; [done|]; exists 2%nat; by apply Z.ltb_lt|].
  rewrite Hdata. cbn [result_bind].
  assert (window_data ball_iter pair_iter (f2_config ck) (m0 :: ms) data) as Hw.
  { exists b, c, r. split_and!; [done| |done|done]. by apply Nat.eqb_neq. }
  pose proof (conclude_batch_ok elapsed ck (m0 :: ms) data Hck (fun dg => Hdim _ dg)) as H.
  destruct (conclude_batch _ _ _ _) as [[[ck' res]|]|e|]; [|done|done|].
  - destruct H as [Hok H]. split; [done|]. destruct res; [|done| |done].
    + by exists data.
    + right. by exists data.
  - destruct H as (prev & dg & H). by exists data, prev, dg.
Qed.

(** Three messages in one ball, checked twice: the second time their window is final. *)
Definition ring : list AdicMessage :=
  [example_message 1 10 [1; 0]; example_message 2 11 [1; 1]; example_message 3 12 [1; 2]].
Definition ring_config : F2Config := mkF2Config 1 1 0 (f64_of_Z 1) 2000 false 2 f64_zero.
Definition no_time (_ : nat) : Z := 0.
Definition run_check (ck : F2FinalityChecker) : result Empty_set (option (F2FinalityChecker * F2Result)) :=
  check_finality map_to_list map_to_list no_time 0 ck ring.
Definition checked_once : F2FinalityChecker :=
  match run_check (f2_new ring_config) with Ok (Some (ck, _)) => ck | _ => f2_new ring_config end.

Lemma f2_batch_correct_witness :
  exists ck' dist res data, run_check checked_once = Ok (Some (ck', res)) /\
    window_data map_to_list map_to_list ring_config ring data /\ ck' = after_window checked_once data /\
    final_conditions checked_once data dist /\ final_result ring dist res.
Proof.
  assert (match run_check checked_once with Ok (Some (_, F2Final _ _ _ _ _)) => true | _ => false end = true) as B
    by (vm_compute; reflexivity).
  assert (f2_config checked_once = ring_config) as Hc by (vm_compute; reflexivity).
  assert (match previous_h_d_minus_1 checked_once with Some p => pd_dimension p | None => 0%nat end = 0%nat) as Hp
    by (vm_compute; reflexivity).
  assert (checker_ok checked_once) as Hck.
  { intros prev E. rewrite E in Hp. rewrite Hc, Hp. reflexivity. }
  assert (use_streaming (f2_config checked_once) = false) as Hm by (rewrite Hc; reflexivity).
  assert (NoDup (msg_id <$> ring)) as Hids by (apply (bool_decide_eq_true_1 _); vm_compute; reflexivity).
  assert (Z.of_nat (length ring) <= u64_max) as Hlen by (vm_compute; discriminate).
  pose proof (f2_batch_correct map_to_list map_to_list no_time 0 checked_once ring (fun _ => reflexivity _)
    (fun _ => reflexivity _) Hck Hm Hids Hlen) as H.
  change (check_finality map_to_list map_to_list no_time 0 checked_once ring) with (run_check checked_once) in H.
  rewrite Hc in H. cbv zeta in H.
  destruct (run_check checked_once) as [[[ck' [h d conf fin ms| | |]]|]|e|]; try discriminate B.
  destruct H as (_ & data & Hw & Ha & Hf & Hr). exists ck', d, (F2Final h d conf fin ms), data.
  split; [reflexivity|]. split; [exact Hw|]. split; [exact Ha|]. split; [exact Hf|exact Hr].
Defined.
