(* ===== verification/Energy.v ===== *)
(** * Energy descent on conflicts

    [adic-consensus/src/energy_descent.rs]: the support of each message of a conflict, gathered
    from its descendants, the energy of the conflict, and whether it counts as resolved.  The
    order in which a hash map or set is visited is a parameter ([set_iter], [support_iter],
    [conflict_iter]), [reputation] is what the reputation tracker answers and [now] the clock.
    The loops carry fuel, which the theorems show to be enough; log lines are left out. *)

From S2P Require Import Prelude F64 Padic Message Dag Kcore.

Record ConflictEnergy := mkEnergy {
  ce_conflict_id : ConflictId;
  ce_support : gmap MessageId f64;
  total_energy : f64;
  is_descending : bool;
  energy_history : list f64;
  ce_last_update : Z;
}.

Record EnergyDescentTracker := mkEnergyTracker {
  et_conflicts : gmap ConflictId ConflictEnergy;
  et_depth_cache : gmap MessageId Z;
  et_lambda : f64;
  et_mu : f64;
  et_delta : f64;
  et_c : f64;
}.

Record EnergyMetrics := mkEnergyMetrics {
  total_conflicts : nat;
  resolved_conflicts : nat;
  descending_conflicts : nat;
  em_total_energy : f64;
  average_energy : f64;
}.

Definition conflict_new (now : Z) (id : ConflictId) : ConflictEnergy := mkEnergy id ∅ f64_zero false [] now.

Definition energy_new (lambda mu : f64) : EnergyDescentTracker :=
  mkEnergyTracker ∅ ∅ lambda mu (f64_lit 1 10) (f64_lit 1 100).

(** ** Depth and descendants *)

(** The chain of first parents.  One step per id with parents, and one for the last. *)
Fixpoint depth_walk (fuel : nat) (s : MemoryBackend) (visited : gset MessageId) (current : MessageId) (depth : Z) : option Z :=
  match fuel with
  | O => None
  | S fuel =>
      if bool_decide (current ∈ visited) then Some depth
      else
        match parents_of s current with
        | [] => Some depth
        | parent :: _ =>
            let depth := to_u32 (depth + 1) in
            if 10000 <? depth then Some depth
            else depth_walk fuel s ({[current]} ∪ visited) parent depth
        end
  end.
Definition calculate_depth_from_storage (s : MemoryBackend) (id : MessageId) : option Z :=
  depth_walk (S (S (size (mb_parents s)))) s ∅ id 0.

(** [if descendants.insert(child) { queue.push(child) }]; the queue is a stack, its top first. *)
Definition push_descendant (st : gset MessageId * list MessageId) (child : MessageId) : gset MessageId * list MessageId :=
  let '(descendants, queue) := st in
  if bool_decide (child ∈ descendants) then (descendants, queue) else ({[child]} ∪ descendants, child :: queue).

Fixpoint descendants_loop (fuel : nat) (s : MemoryBackend) (visited descendants : gset MessageId) (queue : list MessageId)
    : option (gset MessageId) :=
  match queue with
  | [] => Some descendants
  | current :: queue =>
      match fuel with
      | O => None
      | S fuel =>
          if bool_decide (current ∈ visited) then descendants_loop fuel s visited descendants queue
          else
            let '(descendants, queue) := foldl push_descendant (descendants, queue) (children_of s current) in
            descendants_loop fuel s ({[current]} ∪ visited) descendants queue
      end
  end.
Definition get_descendants (s : MemoryBackend) (id : MessageId) : option (gset MessageId) :=
  descendants_loop (cone_fuel s) s ∅ ∅ [id].

Section energy.
Context (set_iter : gset MessageId -> list MessageId).
Context (support_iter : gmap MessageId f64 -> list (MessageId * f64)).
Context (conflict_iter : gmap ConflictId ConflictEnergy -> list (ConflictId * ConflictEnergy)).
Context (reputation : PublicKey -> f64) (now : Z).

(** ** The support of a message *)

Definition cached_depth (s : MemoryBackend) (cache : gmap MessageId Z) (id : MessageId) : option (Z * gmap MessageId Z) :=
  match cache !! id with
  | Some d => Some (d, cache)
  | None => d ← calculate_depth_from_storage s id; Some (d, <[id := d]> cache)
  end.

Fixpoint support_loop (s : MemoryBackend) (ids : list MessageId) (cache : gmap MessageId Z) (total : f64)
    : option (f64 * gmap MessageId Z) :=
  match ids with
  | [] => Some (total, cache)
  | id :: ids =>
      match mb_messages s !! id with
      | None => support_loop s ids cache total
      | Some m =>
          '(depth, cache) ← cached_depth s cache id;
          support_loop s ids cache (f64_add total (f64_div (reputation (proposer_pk m)) (f64_add (f64_of_Z 1) (f64_of_Z depth))))
      end
  end.

Definition calculate_support_cached (s : MemoryBackend) (cache : gmap MessageId Z) (id : MessageId)
    : option (f64 * gmap MessageId Z) :=
  descendants ← get_descendants s id;
  support_loop s (set_iter descendants) cache f64_zero.

(** ** Energy *)

(** The message with the largest positive support, the first of several. *)
Definition leader_step (st : f64 * option MessageId) (e : MessageId * f64) : f64 * option MessageId :=
  if f64_gtb e.2 st.1 then (e.2, Some e.1) else st.
Definition leader (support : gmap MessageId f64) : option MessageId :=
  (foldl leader_step (f64_zero, None) (support_iter support)).2.

Definition signed_support (support : gmap MessageId f64) : f64 :=
  foldl (fun acc (e : MessageId * f64) =>
      let sign := if bool_decide (Some e.1 = leader support) then f64_of_Z 1 else f64_of_Z (-1) in
      f64_add acc (f64_mul sign e.2)) f64_zero (support_iter support).

Definition check_drift (history : list f64) (descending : bool) : bool :=
  match rev history with
  | last :: previous :: _ => f64_ltb last previous
  | _ => descending
  end.

Definition update_energy (ce : ConflictEnergy) : ConflictEnergy :=
  let kept := if (100 <=? length (energy_history ce))%nat then drop 1 (energy_history ce) else energy_history ce in
  let history := kept ++ [total_energy ce] in
  mkEnergy (ce_conflict_id ce) (ce_support ce) (f64_abs (signed_support (ce_support ce)))
    (check_drift history (is_descending ce)) history now.

(** [max_by(|a, b| a.1.partial_cmp(b.1).unwrap())]: the last of the largest; a NaN panics. *)
Fixpoint winner_loop (best : MessageId * f64) (es : list (MessageId * f64)) : result Empty_set (MessageId * f64) :=
  match es with
  | [] => Ok best
  | e :: es =>
      match f64_partial_cmp best.2 e.2 with
      | None => Panic
      | Some Gt => winner_loop best es
      | Some _ => winner_loop e es
      end
  end.
Definition conflict_winner (ce : ConflictEnergy) : result Empty_set (option MessageId) :=
  match support_iter (ce_support ce) with
  | [] => Ok None
  | e :: es => let? w := winner_loop e es in Ok (Some w.1)
  end.

Definition conflict_resolved (threshold : f64) (ce : ConflictEnergy) : bool :=
  f64_ltb (total_energy ce) threshold && is_descending ce.

(** ** The tracker *)

Definition with_conflicts (t : EnergyDescentTracker) (cs : gmap ConflictId ConflictEnergy) (cache : gmap MessageId Z)
    : EnergyDescentTracker :=
  mkEnergyTracker cs cache (et_lambda t) (et_mu t) (et_delta t) (et_c t).

Definition energy_update_params (lambda mu : f64) (t : EnergyDescentTracker) : EnergyDescentTracker :=
  mkEnergyTracker (et_conflicts t) (et_depth_cache t) lambda mu (et_delta t) (et_c t).

Definition cache_depth (id : MessageId) (depth : Z) (t : EnergyDescentTracker) : EnergyDescentTracker :=
  with_conflicts t (et_conflicts t) (<[id := depth]> (et_depth_cache t)).

Definition cleanup_depth_cache (keep_recent : nat) (t : EnergyDescentTracker) : EnergyDescentTracker :=
  if (keep_recent * 2 <? size (et_depth_cache t))%nat then with_conflicts t (et_conflicts t) ∅ else t.

Definition register_conflict (id : ConflictId) (t : EnergyDescentTracker) : EnergyDescentTracker :=
  with_conflicts t (<[id := default (conflict_new now id) (et_conflicts t !! id)]> (et_conflicts t)) (et_depth_cache t).

(** [None] is an exhausted fuel. *)
Definition update_support (s : MemoryBackend) (cid : ConflictId) (id : MessageId) (t : EnergyDescentTracker)
    : option EnergyDescentTracker :=
  let conflict := default (conflict_new now cid) (et_conflicts t !! cid) in
  '(support, cache) ← calculate_support_cached s (et_depth_cache t) id;
  let conflict := mkEnergy (ce_conflict_id conflict) (<[id := support]> (ce_support conflict)) (total_energy conflict)
    (is_descending conflict) (energy_history conflict) (ce_last_update conflict) in
  Some (with_conflicts t (<[cid := update_energy conflict]> (et_conflicts t)) cache).

Definition calculate_expected_drift (t : EnergyDescentTracker) (cid : ConflictId) : f64 :=
  match et_conflicts t !! cid with
  | Some ce =>
      if f64_gtb (total_energy ce) (et_delta t) then
        let values := (support_iter (ce_support ce)).*2 in
        let max_support := foldl f64_max f64_zero values in
        let min_support := foldl f64_min f64_infinity values in
        f64_neg (f64_mul (f64_sub max_support min_support) (et_c t))
      else f64_zero
  | None => f64_zero
  end.

Definition get_conflict_penalty (t : EnergyDescentTracker) (id : MessageId) (cid : ConflictId) : result Empty_set f64 :=
  match et_conflicts t !! cid with
  | Some ce =>
      let? winner := conflict_winner ce in
      match winner with
      | Some w => Ok (if negb (bool_decide (w = id)) then f64_mul (et_mu t) (total_energy ce) else f64_zero)
      | None => Ok f64_zero
      end
  | None => Ok f64_zero
  end.

Definition energy_is_resolved (t : EnergyDescentTracker) (cid : ConflictId) : bool :=
  default false (conflict_resolved (et_delta t) <$> et_conflicts t !! cid).

Definition energy_get_winner (t : EnergyDescentTracker) (cid : ConflictId) : result Empty_set (option MessageId) :=
  match et_conflicts t !! cid with
  | Some ce => if conflict_resolved (et_delta t) ce then conflict_winner ce else Ok None
  | None => Ok None
  end.

Definition get_total_energy (t : EnergyDescentTracker) : f64 :=
  foldl (fun acc (e : ConflictId * ConflictEnergy) => f64_add acc (total_energy e.2)) f64_zero (conflict_iter (et_conflicts t)).

Definition cleanup_resolved (max_age_seconds : Z) (t : EnergyDescentTracker) : EnergyDescentTracker :=
  with_conflicts t
    (filter (fun e => (to_i64 (now - ce_last_update e.2) <? max_age_seconds) || negb (conflict_resolved (et_delta t) e.2) = true)
      (et_conflicts t)) (et_depth_cache t).

Definition energy_metrics (t : EnergyDescentTracker) : EnergyMetrics :=
  let cs := (conflict_iter (et_conflicts t)).*2 in
  let total := get_total_energy t in
  let n := size (et_conflicts t) in
  mkEnergyMetrics n (length (List.filter (conflict_resolved (et_delta t)) cs)) (length (List.filter is_descending cs)) total
    (if (0 <? n)%nat then f64_div total (f64_of_Z (Z.of_nat n)) else f64_zero).

Definition get_energy (t : EnergyDescentTracker) (cid : ConflictId) : f64 :=
  default f64_zero (total_energy <$> et_conflicts t !! cid).

Definition get_resolved_conflicts (t : EnergyDescentTracker) : list ConflictId :=
  (List.filter (fun e => conflict_resolved (et_delta t) e.2) (conflict_iter (et_conflicts t))).*1.
End energy.

(** ** The descendants *)

Lemma push_descendants_ok ds queue cs :
  exists new, foldl push_descendant (ds, queue) cs = (ds ∪ list_to_set new, rev new ++ queue) /\ NoDup new /\
    (forall c, c ∈ new -> c ∈ cs /\ c ∉ ds) /\ (forall c, c ∈ cs -> c ∈ ds ∪ list_to_set new).
Proof.
  revert ds queue. induction cs as [|c cs IH]; intros ds queue; simpl.
  { exists []. split; [f_equal; set_solver|]. split; [constructor|]. set_solver. }
  case_bool_decide as Hc.
  - destruct (IH ds queue) as (new & -> & Hd & H1 & H2). exists new. split; [done|]. split; [done|]. set_solver.
  - destruct (IH ({[c]} ∪ ds) (c :: queue)) as (new & -> & Hd & H1 & H2). exists (c :: new).
    split; [simpl; rewrite <-app_assoc; simpl; f_equal; set_solver|]. split; [|set_solver].
    constructor; [|done]. intros Hn. specialize (H1 c Hn). set_solver.
Qed.

Record walk_inv (s : MemoryBackend) (root : MessageId) (visited ds : gset MessageId) (queue : list MessageId) : Prop := {
  wi_cover : forall x, x = root \/ x ∈ ds -> x ∈ visited \/ x ∈ queue;
  wi_queue : forall x, x ∈ queue -> x = root \/ x ∈ ds;
  wi_done : forall x c, x ∈ visited -> child_edge s x c -> c ∈ ds;
  wi_reach : forall x, x ∈ ds -> tc (child_edge s) root x;
}.

Lemma descendants_loop_ok s root U fuel visited ds queue :
  (forall p c, child_edge s p c -> c ∈ U) -> walk_inv s root visited ds queue -> ds ⊆ U ->
  (size (U ∖ ds) + length queue <= fuel)%nat ->
  exists visited' ds', descendants_loop fuel s visited ds queue = Some ds' /\ walk_inv s root visited' ds' [].
Proof.
  intros HU. revert visited ds queue. induction fuel as [|fuel IH]; intros visited ds queue [Hc Hq Hd Hr] Hsub Hf.
  - destruct queue as [|x queue]; [|simpl in Hf; lia]. by exists visited, ds.
  - destruct queue as [|x queue]; [by exists visited, ds|]. simpl. simpl in Hf. case_bool_decide as Hx.
    + apply IH; [split; [|set_solver|done|done]|done|lia].
      intros y Hy. destruct (Hc y Hy) as [|[->|]%elem_of_cons]; [by left|by left|by right].
    + destruct (push_descendants_ok ds queue (children_of s x)) as (new & -> & Hnd & Hn1 & Hn2).
      assert (list_to_set new ⊆ U) as HnU by (intros c Hc'%elem_of_list_to_set; apply (HU x), Hn1, Hc').
      assert (forall y, y ∈ rev new ++ queue <-> y ∈ new \/ y ∈ queue) as Hin.
      { intros y. rewrite elem_of_app, !list_elem_of_In. by rewrite <-in_rev. }
      apply IH; [|set_solver|].
      * split.
        -- intros y Hy. rewrite Hin. destruct (decide (y ∈ new)) as [|Hny]; [right; by left|].
           assert (y = root \/ y ∈ ds) as Hy' by set_solver.
           destruct (Hc y Hy') as [|[->|]%elem_of_cons]; [left; set_solver|left; set_solver|right; by right].
        -- intros y. rewrite Hin. intros [Hy|Hy]; [right; set_solver|]. destruct (Hq y ltac:(by right)); [by left|right; set_solver].
        -- intros y c [->%elem_of_singleton|Hy]%elem_of_union Hyc; [by apply Hn2|]. apply elem_of_union. left. by apply (Hd y).
        -- intros y [Hy|Hy%elem_of_list_to_set]%elem_of_union; [by apply Hr|].
           destruct (Hn1 y Hy) as [Hxy _]. destruct (Hq x ltac:(left)) as [->|Hxd]; [by apply tc_once|].
           eapply tc_r; [by apply Hr|done].
      * assert (length (rev new ++ queue) = length new + length queue)%nat as -> by (by rewrite length_app, length_rev).
        assert (size (U ∖ ds) = size (U ∖ (ds ∪ list_to_set new)) + length new)%nat; [|lia].
        rewrite <-(size_list_to_set (C := gset MessageId) new) by done. rewrite <-size_union by set_solver.
        f_equal. apply leibniz_equiv. intros y. destruct (decide (y ∈ (list_to_set new : gset MessageId))); set_solver.
Qed.

Lemma descendants_total s root :
  dag_ok s -> exists ds, get_descendants s root = Some ds /\ forall x, x ∈ ds <-> tc (child_edge s) root x.
Proof.
  intros Hs. unfold get_descendants, cone_fuel.
  destruct (descendants_loop_ok s root (dom (mb_messages s)) (S (size (mb_messages s))) ∅ ∅ [root])
    as (visited & ds & -> & [Hc _ Hd Hr]).
  - intros p c Hc. destruct (child_stored s p c Hs Hc) as [[m Hm] _]. by eapply elem_of_dom_2.
  - split; set_solver.
  - set_solver.
  - simpl. rewrite Nat.add_1_r, difference_empty_L. by rewrite size_dom.
  - exists ds. split; [done|]. intros x. split; [apply Hr|].
    assert (forall y, y = root \/ y ∈ ds -> y ∈ visited) as Hv.
    { intros y Hy. destruct (Hc y Hy) as [|Hn]; [done|]. by apply elem_of_nil in Hn. }
    assert (forall y, tc (child_edge s) y x -> y = root \/ y ∈ ds -> x ∈ ds) as H; [|intros Hx; by apply (H root); [|left]].
    intros y Hyx. induction Hyx as [y x Hyx|y z x Hyz _ IH]; intros Hy; [by apply (Hd y); [apply Hv|]|].
    apply IH. right. by apply (Hd y); [apply Hv|].
Qed.

(** ** The depth *)

(** [first_chain s id n]: following first parents from [id] ends after [n] steps. *)
Inductive first_chain (s : MemoryBackend) : MessageId -> nat -> Prop :=
  | fc_end id : parents_of s id = [] -> first_chain s id 0
  | fc_step id p ps n : parents_of s id = p :: ps -> first_chain s p n -> first_chain s id (S n).

Definition first_depth (s : MemoryBackend) (id : MessageId) (d : Z) : Prop :=
  exists n, first_chain s id n /\ d = Z.min (Z.of_nat n) 10001.

Lemma first_chain_exists s id : dag_ok s -> exists n, first_chain s id n.
Proof.
  intros Hs. destruct (mb_messages s !! id) as [m|] eqn:Em; [|exists 0%nat; apply fc_end; by apply (do_absent s Hs)].
  destruct (do_height s Hs id m Em) as (h & Hh & [H0 _] & _).
  remember (Z.to_nat h) as k eqn:Hk. assert (Z.to_nat h <= k)%nat as Hle by lia. clear Hk m Em.
  revert id h Hh H0 Hle. induction k as [|k IH]; intros id h Hh H0 Hle.
  all: destruct (parents_of s id) as [|p ps] eqn:Ep; [exists 0%nat; by apply fc_end|].
  all: destruct (edge_height s p id Hs ltac:(unfold edge; rewrite Ep; left)) as (hp & h' & Hp & Hh' & Hlt); simplify_eq.
  all: assert (0 <= hp) by
    (destruct (mb_messages s !! id) as [m|] eqn:Em; [|rewrite (do_absent s Hs id Em) in Ep; done];
     destruct (do_message s Hs id m Em) as (_ & Heq & Hst); rewrite Forall_forall in Hst;
     destruct (Hst p ltac:(rewrite <-Heq, Ep; left)) as [mp Hmp];
     destruct (do_height s Hs p mp Hmp) as (hp' & Hp' & ? & _); simplify_eq; lia).
  - lia.
  - destruct (IH p hp Hp ltac:(done) ltac:(lia)) as [n Hn]. exists (S n). by eapply fc_step.
Qed.

(** Along the chain the heights fall, so no id is met twice. *)
Definition below (s : MemoryBackend) (id : MessageId) (visited : gset MessageId) : Prop :=
  forall x, x ∈ visited -> exists h, height_of s x = Some h /\ forall h', height_of s id = Some h' -> h' < h.

Lemma depth_walk_ok s id n fuel visited d :
  dag_ok s -> first_chain s id n -> below s id visited -> visited ⊆ dom (mb_parents s) ->
  (size (dom (mb_parents s) ∖ visited) < fuel)%nat -> 0 <= d <= 10000 ->
  depth_walk fuel s visited id d = Some (Z.min (d + Z.of_nat n) 10001).
Proof.
  intros Hs Hn. revert fuel visited d. induction Hn as [id Hp|id p ps n Hp _ IH]; intros fuel visited d Hb Hsub Hf Hd;
    (destruct fuel as [|fuel]; [lia|]); cbn [depth_walk].
  - rewrite Hp. case_bool_decide; f_equal; lia.
  - destruct (edge_height s p id Hs ltac:(unfold edge; rewrite Hp; left)) as (hp & h & Hhp & Hh & Hlt).
    rewrite bool_decide_false.
    2: { intros Hin. destruct (Hb id Hin) as (h' & Hh' & Hlt'). specialize (Hlt' h Hh). simplify_eq. lia. }
    rewrite Hp. assert (to_u32 (d + 1) = d + 1) as -> by (unfold to_u32; apply Z.mod_small; lia).
    assert (id ∈ dom (mb_parents s)) as Hin.
    { apply elem_of_dom. unfold parents_of in Hp. destruct (mb_parents s !! id); [done|]. done. }
    assert (id ∉ visited) as Hni.
    { intros Hv. destruct (Hb id Hv) as (h' & Hh' & Hlt'). specialize (Hlt' h Hh). simplify_eq. lia. }
    destruct (10000 <? d + 1) eqn:E; zbool; [f_equal; lia|].
    rewrite IH; [f_equal; lia| |set_solver| |lia].
    + intros x [->%elem_of_singleton|Hx]%elem_of_union; [exists h; split; [done|]; intros; simplify_eq; lia|].
      destruct (Hb x Hx) as (hx & Hhx & Hltx). exists hx. split; [done|]. intros h' Hh'. specialize (Hltx h Hh). simplify_eq. lia.
    + assert (size (dom (mb_parents s) ∖ visited) = S (size (dom (mb_parents s) ∖ ({[id]} ∪ visited)))); [|lia].
      rewrite <-Nat.add_1_l, <-(size_singleton id (C := gset MessageId)), <-size_union by set_solver.
      f_equal. apply leibniz_equiv. intros y. destruct (decide (y = id)); set_solver.
Qed.

Lemma depth_total s id : dag_ok s -> exists d, calculate_depth_from_storage s id = Some d /\ first_depth s id d.
Proof.
  intros Hs. destruct (first_chain_exists s id Hs) as [n Hn]. exists (Z.min (Z.of_nat n) 10001).
  split; [|by exists n]. unfold calculate_depth_from_storage.
  rewrite (depth_walk_ok s id n _ ∅ 0 Hs Hn); [f_equal; lia|by intros x ?%elem_of_empty|set_solver| |lia].
  rewrite difference_empty_L, size_dom. lia.
Qed.

Lemma first_chain_unique s id n m : first_chain s id n -> first_chain s id m -> n = m.
Proof.
  intros H; revert m; induction H as [id Hp|id p ps n Hp _ IH]; intros m Hm; inversion Hm as [? Hp'|? p' ps' m' Hp' Hm']; subst;
    rewrite Hp in Hp'; simplify_eq; [done|]. f_equal. by apply IH.
Qed.

Lemma first_depth_unique s id d e : first_depth s id d -> first_depth s id e -> d = e.
Proof. intros (n & Hn & ->) (m & Hm & ->). by rewrite (first_chain_unique s id n m Hn Hm). Qed.

(** ** The support *)

(** The depth that counts for [x]: the cached one, right or not, or else the one in the DAG. *)
Definition depth_used (s : MemoryBackend) (cache : gmap MessageId Z) (x : MessageId) (d : Z) : Prop :=
  match cache !! x with Some c => d = c | None => first_depth s x d end.

Definition proposer_of (s : MemoryBackend) (x : MessageId) : PublicKey := default [] (proposer_pk <$> mb_messages s !! x).

Definition support_term (reputation : PublicKey -> f64) (s : MemoryBackend) (dep : MessageId -> Z) (acc : f64) (x : MessageId) : f64 :=
  f64_add acc (f64_div (reputation (proposer_of s x)) (f64_add (f64_of_Z 1) (f64_of_Z (dep x)))).

(** The depths of [ids] are in the cache after they were looked up. *)
Definition fill (dep : MessageId -> Z) (cache : gmap MessageId Z) (ids : list MessageId) : gmap MessageId Z :=
  foldl (fun c x => <[x := dep x]> c) cache ids.

Lemma lookup_fill dep cache ids x : fill dep cache ids !! x = if decide (x ∈ ids) then Some (dep x) else cache !! x.
Proof.
  unfold fill. revert cache. induction ids as [|y ids IH]; intros cache; [done|]. cbn [foldl]. rewrite IH.
  destruct (decide (x ∈ ids)) as [H|H]; [by rewrite decide_True by (by right)|]. destruct (decide (x = y)) as [->|Hne].
  - rewrite lookup_insert_eq. by rewrite decide_True by left.
  - rewrite lookup_insert_ne by done. by rewrite decide_False by (by intros [?|?]%elem_of_cons).
Qed.

Definition storage_depth (s : MemoryBackend) (cache : gmap MessageId Z) (x : MessageId) : Z :=
  match cache !! x with Some d => d | None => default 0 (calculate_depth_from_storage s x) end.

Lemma storage_depth_used s cache x : dag_ok s -> depth_used s cache x (storage_depth s cache x).
Proof.
  intros Hs. unfold depth_used, storage_depth. destruct (cache !! x); [done|]. destruct (depth_total s x Hs) as (d & -> & Hd). done.
Qed.
Lemma depth_used_unique s cache x d e : depth_used s cache x d -> depth_used s cache x e -> d = e.
Proof. unfold depth_used. destruct (cache !! x); [congruence|apply first_depth_unique]. Qed.

Lemma support_loop_ok reputation s cache0 ids done_ids total :
  dag_ok s -> (forall x, x ∈ ids -> stored s x) -> let dep := storage_depth s cache0 in
  support_loop reputation s ids (fill dep cache0 done_ids) total =
  Some (foldl (support_term reputation s dep) total ids, fill dep cache0 (done_ids ++ ids)).
Proof.
  intros Hs Hids dep. revert done_ids total Hids. induction ids as [|x ids IH]; intros done_ids total Hids; simpl; [by rewrite app_nil_r|].
  destruct (Hids x ltac:(left)) as [m Hm]. rewrite Hm.
  assert (cached_depth s (fill dep cache0 done_ids) x = Some (dep x, fill dep cache0 (done_ids ++ [x]))) as ->.
  { unfold cached_depth. rewrite lookup_fill. replace (fill dep cache0 (done_ids ++ [x])) with (<[x := dep x]> (fill dep cache0 done_ids)) by (unfold fill; by rewrite foldl_app).
    destruct (decide (x ∈ done_ids)) as [Hx|Hx]; [do 2 f_equal; rewrite insert_id; [done|]; rewrite lookup_fill; by rewrite decide_True|].
    destruct (cache0 !! x) as [d|] eqn:E.
    - assert (dep x = d) as <- by (unfold dep, storage_depth; by rewrite E). rewrite insert_id; [done|]. rewrite lookup_fill. by rewrite decide_False.
    - destruct (depth_total s x Hs) as (d & Hd & _). assert (dep x = d) as <- by (unfold dep, storage_depth; by rewrite E, Hd). by rewrite Hd. }
  simpl. rewrite IH by (intros; apply Hids; by right). rewrite <-app_assoc. simpl. unfold support_term at 3, proposer_of. by rewrite Hm.
Qed.

Lemma support_fold_ext reputation s dep dep' l acc :
  (forall x, x ∈ l -> dep x = dep' x) ->
  foldl (support_term reputation s dep) acc l = foldl (support_term reputation s dep') acc l.
Proof.
  revert acc; induction l as [|x l IH]; intros acc H; [done|]. simpl.
  assert (support_term reputation s dep acc x = support_term reputation s dep' acc x) as ->
    by (unfold support_term; by rewrite (H x) by left).
  apply IH. intros; apply H; by right.
Qed.

(** C30: On every DAG reached without deletions and with any cache the support of a message is computed
    without running out of steps: it is the sum, over its descendants and nothing else, of the reputation of their
    proposers divided by one more than their depth.  The depth is the cached one when there is one,
    whatever was cached, and else the number of first parents up to a message without parents, capped
    at 10001; afterwards these depths are cached for the descendants, and nothing else changed. *)
Theorem support_of_descendants tm set_iter reputation s cache id :
  dag_reachable tm s -> (forall X, set_iter X ≡ₚ elements X) ->
  exists total cache' ds,
    calculate_support_cached set_iter reputation s cache id = Some (total, cache') /\
    NoDup ds /\ (forall x, x ∈ ds <-> tc (child_edge s) id x) /\
    forall dep, (forall x, x ∈ ds -> depth_used s cache x (dep x)) ->
      total = foldl (support_term reputation s dep) f64_zero ds /\
      forall x, cache' !! x = if decide (x ∈ ds) then Some (dep x) else cache !! x.
Proof.
  intros Hr Hiter. apply dag_reachable_ok in Hr as Hs.
  destruct (descendants_total s id Hs) as (D & HD & Hin). unfold calculate_support_cached. rewrite HD. simpl.
  assert (forall x, x ∈ set_iter D <-> tc (child_edge s) id x) as Hin' by (intros x; by rewrite Hiter, elem_of_elements).
  assert (forall y x, tc (child_edge s) y x -> stored s x) as Hst.
  { intros y x. induction 1 as [y x Hyx|]; [|done]. by apply (child_stored s y x). }
  pose proof (support_loop_ok reputation s cache (set_iter D) [] f64_zero Hs) as Hl. simpl in Hl.
  rewrite Hl by (intros x Hx; by eapply Hst, Hin').
  eexists _, _, (set_iter D). split; [reflexivity|]. split; [rewrite Hiter; apply NoDup_elements|].
  split; [done|]. intros dep Hdep.
  assert (forall x, x ∈ set_iter D -> storage_depth s cache x = dep x) as E by (intros x Hx; eapply depth_used_unique; [by apply storage_depth_used|by apply Hdep]).
  split; [by apply support_fold_ext|]. intros x. rewrite lookup_fill. case_decide as Hx; [by rewrite E|done].
Qed.

(** Message 1 of the diamond has the three others as descendants; the depth of one of them was cached
    wrongly and counts. *)
Lemma support_of_descendants_witness :
  let cache := {[replicate 32 2 := 7]} in
  exists total cache' ds,
    calculate_support_cached elements (fun _ => f64_of_Z 1) diamond cache (replicate 32 1) = Some (total, cache') /\
    NoDup ds /\ (forall x, x ∈ ds <-> tc (child_edge diamond) (replicate 32 1) x) /\
    forall dep, (forall x, x ∈ ds -> depth_used diamond cache x (dep x)) ->
      total = foldl (support_term (fun _ => f64_of_Z 1) diamond dep) f64_zero ds /\
      forall x, cache' !! x = if decide (x ∈ ds) then Some (dep x) else cache !! x.
Proof. intros cache. by apply (support_of_descendants zero_millis elements (fun _ => f64_of_Z 1) diamond cache (replicate 32 1) diamond_reachable). Defined.

(** ** What counts as resolved

    The energy is the difference between the leader's support and the others', so it is large
    when the conflict is decided and zero at a tie; and the drift compares the two energies
    before the present one. *)

Definition with_support (support : list (MessageId * Z)) (ce : ConflictEnergy) : ConflictEnergy :=
  mkEnergy (ce_conflict_id ce) (list_to_map ((fun e => (e.1, f64_of_Z e.2)) <$> support)) (total_energy ce) (is_descending ce)
    (energy_history ce) (ce_last_update ce).
Definition run_conflict (supports : list (list (MessageId * Z))) : ConflictEnergy :=
  foldl (fun ce support => update_energy map_to_list 0 (with_support support ce)) (conflict_new 0 "c") supports.

(** A conflict in which one message keeps all the support is never resolved.  One in which a
    rival catches up is resolved at the tie, and then the order in which the hash map is
    visited decides who has won. *)
Theorem tie_resolves_conflict :
  let tie := run_conflict [[([1], 5); ([2], 1)]; [([1], 5); ([2], 2)]; [([1], 5); ([2], 3)]; [([1], 5); ([2], 5)]] in
  let decided := run_conflict [[([1], 5)]; [([1], 5)]; [([1], 5)]; [([1], 5)]] in
  conflict_resolved (f64_lit 1 10) decided = false /\ conflict_resolved (f64_lit 1 10) tie = true /\
  exists w1 w2, conflict_winner map_to_list tie = Ok (Some w1) /\
    conflict_winner (fun m => reverse (map_to_list m)) tie = Ok (Some w2) /\ w1 <> w2.
Proof.
  cbv zeta. split; [vm_compute; reflexivity|]. split; [vm_compute; reflexivity|].
  eexists _, _. split; [vm_compute; reflexivity|]. split; [vm_compute; reflexivity|]. done.
Qed.
