(* ===== verification/Consensus.v ===== *)
(** * The consensus engine

    The [ConsensusEngine] of [adic-consensus/src/lib.rs]: parameters, admissibility, deposits,
    reputation, validation and conflict energy behind one state.  [now] is the clock, the other
    parameters are those of the parts; the storage the engine shares is an argument of the
    operations that read it. *)

From S2P Require Import Prelude F64 Padic Message Amount EconStorage Balance Lock Deposit Reputation Admissibility Validation Dag Kcore Energy.

Record ConsensusEngine (St : Type) := mkConsensus {
  ce_params : AdicParams;
  ce_deposits : DepositManager St;
  ce_reputation : ReputationTracker;
  ce_validator : MessageValidator;
  ce_energy : EnergyDescentTracker;
}.
Arguments mkConsensus {St}.
Arguments ce_params {St}.
Arguments ce_deposits {St}.
Arguments ce_reputation {St}.
Arguments ce_validator {St}.
Arguments ce_energy {St}.

Definition consensus_new {St} (params : AdicParams) : ConsensusEngine St :=
  mkConsensus params (deposits_new (pr_deposit params)) (tracker_new (pr_gamma params)) validator_new
    (energy_new (pr_lambda params) (pr_mu params)).

Definition with_deposits {St} (d : DepositManager St) (c : ConsensusEngine St) : ConsensusEngine St :=
  mkConsensus (ce_params c) d (ce_reputation c) (ce_validator c) (ce_energy c).
Definition with_reputation {St} (r : ReputationTracker) (c : ConsensusEngine St) : ConsensusEngine St :=
  mkConsensus (ce_params c) (ce_deposits c) r (ce_validator c) (ce_energy c).
Definition with_energy {St} (e : EnergyDescentTracker) (c : ConsensusEngine St) : ConsensusEngine St :=
  mkConsensus (ce_params c) (ce_deposits c) (ce_reputation c) (ce_validator c) e.

Section consensus.
Context {St : Type} `{!EconomicsStorage St}.
Context (now : Z) (digest : Bytes -> string) (blake3 : Bytes -> Bytes).
Context (canonical_hash : CanonicalMessage -> Bytes).
Context (check_signature : AdicMessage -> PublicKey -> Signature -> option bool).

Abbreviation CM := (M (ConsensusEngine St) DepositError).

Definition deposits_do {A} (m : M (DepositManager St) DepositError A) : CM A := mzoom ce_deposits with_deposits m.
Definition reputation_do (f : ReputationTracker -> ReputationTracker) : CM unit :=
  mwrite (fun c => with_reputation (f (ce_reputation c)) c).

Definition validate_and_slash (message : AdicMessage) : CM ValidationResult :=
  validator ← mread ce_validator;
  let result := validate_message canonical_hash check_signature now validator message in
  mwhen (negb (is_valid result))
    (deposits_do (slash now digest blake3 (msg_id message));;
     proposer ← deposits_do (get_proposer (msg_id message));
     match proposer with
     | Some pk => reputation_do (bad_update now pk (f64_of_Z 1))
     | None => mret tt
     end);;
  mret result.

Definition update_operational_params (new_params : AdicParams) : CM unit :=
  reputation_do (update_gamma (pr_gamma new_params));;
  mwrite (fun c => with_energy (energy_update_params (pr_lambda new_params) (pr_mu new_params) (ce_energy c)) c);;
  deposits_do (update_deposit_amount (pr_deposit new_params));;
  mwrite (fun c => mkConsensus new_params (ce_deposits c) (ce_reputation c) (ce_validator c) (ce_energy c)).

(** [None] is an exhausted fuel. *)
Definition track_conflict (set_iter : gset MessageId -> list MessageId)
    (support_iter : gmap MessageId f64 -> list (MessageId * f64)) (s : MemoryBackend)
    (cid : ConflictId) (id : MessageId) (c : ConsensusEngine St) : option (ConsensusEngine St) :=
  let energy := register_conflict now cid (ce_energy c) in
  energy ← update_support set_iter support_iter (get_reputation (ce_reputation c)) now s cid id energy;
  Some (with_energy energy c).
End consensus.

Section facts.
Context {St : Type} `{!EconomicsStorage St} `{!EconomicsStorageLaws St}.
Context (now : Z) (digest : Bytes -> string) (blake3 : Bytes -> Bytes).
Context (canonical_hash : CanonicalMessage -> Bytes).
Context (check_signature : AdicMessage -> PublicKey -> Signature -> option bool).
Implicit Types c : ConsensusEngine St.

Abbreviation result_of c m := (validate_message canonical_hash check_signature now (ce_validator c) m).
Abbreviation run m c := (validate_and_slash now digest blake3 canonical_hash check_signature m c).

Lemma validate_valid c m : is_valid (result_of c m) = true -> run m c = (Ok (result_of c m), c).
Proof.
  intros Hv. unfold validate_and_slash, mread. rewrite (M_bind_Ok _ _ c (ce_validator c) c) by done.
  cbv zeta. by rewrite Hv.
Qed.

Lemma validate_unbacked c m :
  is_valid (result_of c m) = false ->
  (forall d, dm_deposits (ce_deposits c) !! msg_id m = Some d -> dp_status d <> Escrowed) ->
  is_err (run m c).1 = true /\ (run m c).2 = c.
Proof.
  intros Hv Hd. unfold validate_and_slash, mread. rewrite (M_bind_Ok _ _ c (ce_validator c) c) by done.
  cbv zeta. rewrite Hv. unfold mwhen; simpl negb; cbv iota. unfold deposits_do, mzoom, mbind, M_bind.
  destruct (settle_refused digest blake3 now (ce_deposits c) (msg_id m) Hd) as (_ & _ & He & Hsame).
  destruct (slash now digest blake3 (msg_id m) (ce_deposits c)) as [[]  dm']; simpl in *; try done.
  subst dm'. by destruct c.
Qed.

Lemma validate_backed c bm m d :
  is_valid (result_of c m) = false -> dm_balances (ce_deposits c) = Some bm ->
  dm_deposits (ce_deposits c) !! msg_id m = Some d -> dp_status d = Escrowed -> 0 <= dp_amount d ->
  exists bm' r, (run m c).1 = r /\ dm_balances (ce_deposits (run m c).2) = Some bm' /\ r <> Panic /\
    (is_err r = false <-> lock_covers bm (proposer_addr blake3 (dp_proposer_pk d)) (dp_amount d) /\
       can_transfer bm (proposer_addr blake3 (dp_proposer_pk d)) treasury (dp_amount d)) /\
    transferred (negb (is_err r)) (proposer_addr blake3 (dp_proposer_pk d)) treasury (dp_amount d) bm bm' /\
    dm_deposits (ce_deposits (run m c).2) =
      (if is_err r then dm_deposits (ce_deposits c) else <[msg_id m := with_status Slashed d]> (dm_deposits (ce_deposits c))) /\
    ce_reputation (run m c).2 =
      (if is_err r then ce_reputation c else bad_update now (dp_proposer_pk d) (f64_of_Z 1) (ce_reputation c)) /\
    (is_err r = false -> r = Ok (result_of c m)).
Proof.
  intros Hv Hb Ed Hs Ham. unfold validate_and_slash, mread. rewrite (M_bind_Ok _ _ c (ce_validator c) c) by done.
  cbv zeta. rewrite Hv. unfold mwhen; simpl negb; cbv iota. unfold deposits_do, mzoom, mbind, M_bind.
  destruct (slash_cases digest blake3 now (ce_deposits c) bm (msg_id m) d Hb Ed Hs Ham) as (bm' & r & Hsl & Hnp & Hiff & Hmv & _).
  rewrite Hsl. destruct r as [[]|e|]; [| |done].
  - unfold get_proposer, mread. simpl. rewrite lookup_insert_eq. simpl. exists bm'. eexists. by split_and!.
  - simpl. exists bm'. eexists. by split_and!.
Qed.

End facts.

(** Alice's deposit of 40 is escrowed for the sound message [5]. *)
Definition sound_deposit : DepositManager MemoryStorage :=
  (escrow 0 key_is_address [5] alice (with_balance_manager 40 alice_manager)).2.
Definition sound_engine : ConsensusEngine MemoryStorage := with_deposits sound_deposit (consensus_new params_default).

Lemma sound_deposit_reachable : deposits_reachable no_digest key_is_address sound_deposit.
Proof.
  exists (with_balance_manager 40 alice_manager). split.
  - exists 40, alice_manager. split; [done|]. split; [apply alice_coherent|]. split; [|done].
    intros a. unfold held, alice_manager. cbn [bm_cache].
    destruct (decide (alice = a)) as [<-|Hne]; [by vm_compute|by rewrite lookup_singleton_ne].
  - eapply rtc_l; [eapply (step_escrow _ _ 0 [5] alice); [reflexivity|by vm_compute]|]. apply rtc_refl.
Qed.

(** Anyone can have Alice slashed: a forged copy of her sound message, with the same id and another
    body, fails validation, and the deposit under that id is hers. *)
Theorem forged_copy_slashes :
  let (r, c) := validate_and_slash 100 no_digest key_is_address body_hash any_signature forged_copy sound_engine in
  is_err r = false /\ dp_status <$> dm_deposits (ce_deposits c) !! [5] = Some Slashed /\
  bal (balances_of_deposits sound_deposit) alice = 100 /\ bal (balances_of_deposits (ce_deposits c)) alice = 60 /\
  f64_ltb (get_reputation (ce_reputation c) alice) (get_reputation (ce_reputation sound_engine) alice) = true.
Proof. vm_compute. repeat split. Qed.

