(* ===== verification/Checkpoint.v ===== *)
(** * Finality artifacts and checkpoints

    [adic-finality/src/artifact.rs] and [checkpoint.rs]: the certificate of a finalized message,
    the checkpoints that record finalized state, their hashes and Merkle roots.  [sha256] is the
    hash and [verify_ed25519] the signature check, [None] for a malformed key; the JSON form of
    an artifact is a parameter where it is used. *)

From S2P Require Import Prelude F64 Message.

(** ** [artifact.rs] *)

Inductive FinalityGate := F1KCore | F2PersistentHomology | F1AndF2Composite.
#[export] Instance FinalityGate_eq_dec : EqDecision FinalityGate.
Proof. solve_decision. Defined.

Record FinalityWitness := mkWitness {
  fw_kcore_root : option MessageId;
  fw_depth : Z;
  diversity_ok : bool;
  reputation_sum : f64;
  fw_distinct_balls : gmap Z nat;
  fw_core_size : nat;
  h3_stable : option bool;
  h2_bottleneck_distance : option f64;
  f2_confidence : option f64;
  num_finalized_messages : option nat;
}.

Record ValidatorAttestation := mkAttestation {
  va_public_key : PublicKey;
  va_signature : Signature;
  va_timestamp : Z;
}.

Record FinalityParams := mkFinalityParams {
  fp_k : nat;
  fp_q : nat;
  fp_depth_star : Z;
  fp_r_sum_min : f64;
}.

Record FinalityArtifact := mkArtifact {
  intent_id : MessageId;
  gate : FinalityGate;
  fa_params : FinalityParams;
  witness : FinalityWitness;
  validators : list ValidatorAttestation;
  fa_timestamp : Z;
}.

Definition artifact_new (now : Z) (id : MessageId) (g : FinalityGate) (ps : FinalityParams) (w : FinalityWitness) : FinalityArtifact :=
  mkArtifact id g ps w [] now.

Definition add_attestation (v : ValidatorAttestation) (a : FinalityArtifact) : FinalityArtifact :=
  mkArtifact (intent_id a) (gate a) (fa_params a) (witness a) (validators a ++ [v]) (fa_timestamp a).

Definition artifact_is_valid (a : FinalityArtifact) : bool :=
  diversity_ok (witness a) && (fp_depth_star (fa_params a) <=? fw_depth (witness a)) &&
  f64_geb (reputation_sum (witness a)) (fp_r_sum_min (fa_params a)).

Definition has_f1_finality (a : FinalityArtifact) : bool :=
  match gate a with F1KCore | F1AndF2Composite => true | _ => false end && bool_decide (is_Some (fw_kcore_root (witness a))).

Definition has_f2_finality (a : FinalityArtifact) : bool :=
  match gate a with F2PersistentHomology | F1AndF2Composite => true | _ => false end && bool_decide (is_Some (h3_stable (witness a))).

Definition artifact_composite (a : FinalityArtifact) : bool :=
  bool_decide (gate a = F1AndF2Composite) || (has_f1_finality a && has_f2_finality a).

(** ** [checkpoint.rs] *)

Record F1Metadata := mkF1Metadata { max_k_core : Z; finalized_count : nat; finalized_messages : list MessageId }.
Record F2Metadata := mkF2Metadata { stabilized_count : nat; stabilized_messages : list MessageId; homology_rank : option nat }.

Definition f1_metadata_new (k : Z) (ids : list MessageId) : F1Metadata := mkF1Metadata k (length ids) ids.
Definition f1_metadata_empty : F1Metadata := mkF1Metadata 0 0 [].
Definition f2_metadata_new (ids : list MessageId) (rank : option nat) : F2Metadata := mkF2Metadata (length ids) ids rank.
Definition f2_metadata_empty : F2Metadata := mkF2Metadata 0 [] None.

Record Checkpoint := mkCheckpoint {
  ck_height : Z;
  ck_timestamp : Z;
  messages_merkle_root : Bytes;
  witnesses_merkle_root : Bytes;
  f1_metadata : F1Metadata;
  f2_metadata : F2Metadata;
  prev_checkpoint_hash : option Bytes;
  ck_signature : option Bytes;
  ck_signer : option PublicKey;
}.

Definition checkpoint_new (height timestamp : Z) (messages_root witnesses_root : Bytes) (f1 : F1Metadata) (f2 : F2Metadata)
    (prev : option Bytes) : Checkpoint :=
  mkCheckpoint height timestamp messages_root witnesses_root f1 f2 prev None None.

Definition checkpoint_sign (signer : PublicKey) (sig : Bytes) (c : Checkpoint) : Checkpoint :=
  mkCheckpoint (ck_height c) (ck_timestamp c) (messages_merkle_root c) (witnesses_merkle_root c) (f1_metadata c) (f2_metadata c)
    (prev_checkpoint_hash c) (Some sig) (Some signer).

Definition diverges_from (c other : Checkpoint) : bool :=
  if negb (ck_height c =? ck_height other) then false
  else negb (bool_decide (messages_merkle_root c = messages_merkle_root other)) ||
       negb (bool_decide (witnesses_merkle_root c = witnesses_merkle_root other)).

(** The bytes that [compute_hash] feeds to the hasher, in order. *)
Definition checkpoint_bytes (c : Checkpoint) : Bytes :=
  to_le_bytes 8 (ck_height c) ++ to_le_bytes 8 (to_u64 (ck_timestamp c)) ++
  messages_merkle_root c ++ witnesses_merkle_root c ++
  to_le_bytes 8 (max_k_core (f1_metadata c)) ++ to_le_bytes 8 (Z.of_nat (finalized_count (f1_metadata c))) ++
  concat (finalized_messages (f1_metadata c)) ++
  to_le_bytes 8 (Z.of_nat (stabilized_count (f2_metadata c))) ++ concat (stabilized_messages (f2_metadata c)) ++
  default [] (prev_checkpoint_hash c).

(** One level of the tree: pairs are hashed together, a last single node with itself. *)
Section merkle.
Context (sha256 : Bytes -> Bytes).

Definition checkpoint_hash (c : Checkpoint) : Bytes := sha256 (checkpoint_bytes c).

Definition checkpoint_verify (verify_ed25519 : PublicKey -> Bytes -> Bytes -> option bool) (c : Checkpoint) : result unit bool :=
  match ck_signature c, ck_signer c with
  | Some sig, Some signer =>
      if negb (length sig =? 64)%nat then Ok false
      else result_of_option (verify_ed25519 signer (checkpoint_hash c) sig) tt
  | _, _ => Ok false
  end.

Definition merkle_leaf (data : Bytes) : Bytes := sha256 data.

Fixpoint merkle_level (nodes : list Bytes) : list Bytes :=
  match nodes with
  | [] => []
  | [x] => [sha256 (x ++ x)]
  | x :: y :: rest => sha256 (x ++ y) :: merkle_level rest
  end.

(** A level has at most half the nodes, rounded up, so one step per leaf is enough. *)
Fixpoint root_loop (fuel : nat) (level : list Bytes) : option Bytes :=
  match level with
  | [] => Some (replicate 32 0)
  | [root] => Some root
  | _ => match fuel with O => None | S fuel => root_loop fuel (merkle_level level) end
  end.
Definition compute_root (leaves : list Bytes) : option Bytes := root_loop (length leaves) leaves.
End merkle.

(** ** Merkle roots *)

Lemma merkle_level_length sha256 nodes : (2 <= length nodes -> 1 <= length (merkle_level sha256 nodes) < length nodes)%nat.
Proof.
  assert (forall n nodes, (length nodes <= n -> length (merkle_level sha256 nodes) <= length nodes /\
    (1 <= length nodes -> 1 <= length (merkle_level sha256 nodes)))%nat) as H.
  { induction n as [|n IH]; intros [|x [|y rest]] Hn; simpl in *; try lia.
    destruct (IH rest ltac:(lia)). lia. }
  destruct nodes as [|x [|y rest]]; simpl; try lia. intros _. destruct (H (length rest) rest ltac:(lia)). lia.
Qed.

Lemma compute_root_total sha256 leaves : exists r, compute_root sha256 leaves = Some r.
Proof.
  unfold compute_root. remember (length leaves) as n eqn:Hn. assert (length leaves <= n)%nat as Hle by lia. clear Hn.
  revert leaves Hle; induction n as [|n IH]; intros leaves Hle.
  - destruct leaves as [|x leaves]; [by eexists|simpl in Hle; lia].
  - destruct leaves as [|x [|y rest]]; [by eexists|by eexists|].
    pose proof (merkle_level_length sha256 (x :: y :: rest) ltac:(simpl; lia)) as Hl. cbn [root_loop]. apply IH. lia.
Qed.

(** An odd level is completed by repeating its last node, so a list of three leaves and the list
    with the last one repeated have the same root. *)
Theorem merkle_root_ambiguous sha256 a b c :
  compute_root sha256 [a; b; c] = compute_root sha256 [a; b; c; c].
Proof. reflexivity. Qed.

(** ** What the hash of a checkpoint binds *)

Definition is_hash (b : Bytes) : Prop := length b = 32%nat.

(** The field sizes Rust's types give. *)
Record checkpoint_ok (c : Checkpoint) : Prop := {
  co_height : is_u64 (ck_height c);
  co_timestamp : - 2 ^ 63 <= ck_timestamp c < 2 ^ 63;
  co_messages : is_hash (messages_merkle_root c);
  co_witnesses : is_hash (witnesses_merkle_root c);
  co_k : is_u64 (max_k_core (f1_metadata c));
  co_f1 : finalized_count (f1_metadata c) = length (finalized_messages (f1_metadata c)) /\
    Z.of_nat (finalized_count (f1_metadata c)) <= u64_max /\ Forall is_hash (finalized_messages (f1_metadata c));
  co_f2 : stabilized_count (f2_metadata c) = length (stabilized_messages (f2_metadata c)) /\
    Z.of_nat (stabilized_count (f2_metadata c)) <= u64_max /\ Forall is_hash (stabilized_messages (f2_metadata c));
  co_prev : forall h, prev_checkpoint_hash c = Some h -> is_hash h;
}.

Lemma concat_hashes_inj (l k : list Bytes) (r s : Bytes) :
  Forall is_hash l -> Forall is_hash k -> length l = length k -> concat l ++ r = concat k ++ s -> l = k /\ r = s.
Proof.
  intros Hl; revert k; induction Hl as [|x l Hx _ IH]; intros k Hk Hlen; destruct Hk as [|y k Hy Hk]; try done; simpl.
  rewrite <-!app_assoc. intros H. apply app_inj_1 in H as [-> H]; [|by rewrite Hx, Hy].
  simpl in Hlen. destruct (IH k Hk ltac:(lia) H) as [-> ->]. done.
Qed.

Lemma le8_inj a b r s : is_u64 a -> is_u64 b -> to_le_bytes 8 a ++ r = to_le_bytes 8 b ++ s -> a = b /\ r = s.
Proof.
  intros Ha Hb H. apply app_inj_1 in H as [H ->]; [|by rewrite !length_to_le_bytes].
  apply to_le_bytes_inj in H; [done|uint_unfold; simpl; lia..].
Qed.

(** The bytes a checkpoint's hash is taken of determine the checkpoint, up to its signature,
    signer and homology rank: height, time, both roots, the finalized and the stabilized
    messages in order, and the previous hash.  So two checkpoints with one hash agree on these,
    or the hash function has a collision. *)
Theorem checkpoint_hash_binds c d :
  checkpoint_ok c -> checkpoint_ok d -> checkpoint_bytes c = checkpoint_bytes d ->
  ck_height c = ck_height d /\ ck_timestamp c = ck_timestamp d /\
  messages_merkle_root c = messages_merkle_root d /\ witnesses_merkle_root c = witnesses_merkle_root d /\
  f1_metadata c = f1_metadata d /\ stabilized_messages (f2_metadata c) = stabilized_messages (f2_metadata d) /\
  prev_checkpoint_hash c = prev_checkpoint_hash d /\ diverges_from c d = false.
Proof.
  intros [Hh1 Ht1 Hm1 Hw1 Hk1 (Hf1 & Hfu1 & Hff1) (Hs1 & Hsu1 & Hsf1) Hp1]
    [Hh2 Ht2 Hm2 Hw2 Hk2 (Hf2 & Hfu2 & Hff2) (Hs2 & Hsu2 & Hsf2) Hp2] H.
  unfold checkpoint_bytes in H.
  apply le8_inj in H as [Hh H]; [|done..].
  apply le8_inj in H as [Ht H]; [|unfold is_u64, to_u64, u64_max; pose proof (Z.mod_pos_bound (ck_timestamp c) (2 ^ 64)); pose proof (Z.mod_pos_bound (ck_timestamp d) (2 ^ 64)); lia..].
  apply app_inj_1 in H as [Hm H]; [|by rewrite Hm1, Hm2].
  apply app_inj_1 in H as [Hw H]; [|by rewrite Hw1, Hw2].
  apply le8_inj in H as [Hk H]; [|done..].
  apply le8_inj in H as [Hc H]; [|split; lia..].
  apply concat_hashes_inj in H as [Hids H]; [|done|done|exact (eq_trans (eq_sym Hf1) (eq_trans (Nat2Z.inj _ _ Hc) Hf2))].
  apply le8_inj in H as [Hsc H]; [|split; lia..].
  apply concat_hashes_inj in H as [Hst Hprev]; [|done|done|exact (eq_trans (eq_sym Hs1) (eq_trans (Nat2Z.inj _ _ Hsc) Hs2))].
  assert (ck_timestamp c = ck_timestamp d) as Htime.
  { clear -Ht Ht1 Ht2. unfold to_u64 in Ht. Z.to_euclidean_division_equations. lia. }
  split_and!; try done.
  - destruct (f1_metadata c) as [k1 n1 l1], (f1_metadata d) as [k2 n2 l2]; simpl in *. subst. done.
  - destruct (prev_checkpoint_hash c) as [h1|], (prev_checkpoint_hash d) as [h2|]; simpl in Hprev; subst; try done.
    + specialize (Hp1 [] eq_refl). done.
    + specialize (Hp2 [] eq_refl). done.
  - unfold diverges_from. rewrite Hh, Hm, Hw, Z.eqb_refl. by rewrite !bool_decide_true.
Qed.

Definition a_checkpoint : Checkpoint :=
  checkpoint_new 3 (-5) (replicate 32 1) (replicate 32 2) (f1_metadata_new 20 [replicate 32 7]) (f2_metadata_new [] None) None.

Lemma checkpoint_hash_binds_witness :
  checkpoint_ok a_checkpoint /\ diverges_from a_checkpoint (checkpoint_sign [1] [2] a_checkpoint) = false.
Proof.
  assert (checkpoint_ok a_checkpoint) as Hok.
  { split; simpl; unfold is_hash; repeat split; uint_unfold; try done; try lia. repeat constructor. }
  assert (checkpoint_ok (checkpoint_sign [1] [2] a_checkpoint)) as Hok'.
  { split; simpl; unfold is_hash; repeat split; uint_unfold; try done; try lia. repeat constructor. }
  split; [done|]. apply (checkpoint_hash_binds a_checkpoint (checkpoint_sign [1] [2] a_checkpoint) Hok Hok' eq_refl).
Defined.

(** The second disjunct of [has_composite_finality] adds nothing: no gate but the composite one
    allows both kinds of finality. *)
Lemma artifact_composite_gate a : artifact_composite a = true <-> gate a = F1AndF2Composite.
Proof.
  unfold artifact_composite, has_f1_finality, has_f2_finality.
  destruct (gate a); simpl; rewrite ?andb_false_r; naive_solver.
Qed.
