(* ===== verification/Finality.v ===== *)
(** * The finality engine

    [adic-finality/src/engine.rs]: the queue of pending messages, the choice between homology (F2)
    and k-core (F1) finality, what finalizing a message sets off (deposit refunded, reputation
    raised, artifact stored), the depth from which epochs are counted, and the checkpoints.  It
    composes the k-core analyzer, the F2 checker, the DAG storage and the consensus engine.

    The iteration orders ([map_iter], [set_iter], [ball_iter], [pair_iter], [values_iter]), the
    clocks ([now], [elapsed] inside an F2 check, [f1_elapsed] around a k-core analysis), the
    JSON encodings and the hashes are parameters.  Prometheus metrics and log lines are left
    out, as is the task that calls [check_finality] at an interval.

    A lock matters in one place: [track_f1_finalized] holds the write guard of
    [f1_finalized_messages] while it calls [create_checkpoint], which asks for a read guard of
    the same lock.  The guard is the field [fe_f1_locked], and a task that waits for a guard it
    holds itself is [FBlocked]: it never goes on, nor does any later one that needs the lock. *)

From S2P Require Import Prelude F64 Padic Message Amount EconStorage Balance Lock Deposit Reputation Admissibility Validation.
From S2P Require Import Dag Kcore Simplex Matrix Homology Persistence AdicComplex Streaming Bottleneck F2 Energy Consensus Checkpoint.

Record FinalityConfig := mkFinalityConfig {
  fc_k : nat;
  fc_min_depth : Z;
  fc_min_diversity : nat;
  fc_min_reputation : f64;
  check_interval_ms : Z;
  window_size : nat;
  f2_enabled : bool;
  fc_f2_timeout_ms : Z;
  f1_enabled : bool;
  fc_epsilon : f64;
  checkpoint_interval : Z;
}.

Definition config_from (params : AdicParams) : FinalityConfig :=
  mkFinalityConfig (Z.to_nat (pr_k params)) (depth_star params) (Z.to_nat (pr_q params)) (r_sum_min params) 1000 1000
    false 2000 true (f64_lit 1 10) 100.
Definition config_default : FinalityConfig :=
  mkFinalityConfig 3 3 3 (f64_of_Z 1) 1000 1000 false 2000 true (f64_lit 1 10) 100.

Definition metrics_window_size : nat := 100.

Record FinalityEngine (St : Type) := mkFinality {
  fe_config : FinalityConfig;
  fe_analyzer : KCoreAnalyzer;
  fe_checker : F2FinalityChecker;
  fe_storage : MemoryBackend;
  fe_finalized : gmap MessageId FinalityArtifact;
  fe_pending : list MessageId;
  fe_consensus : ConsensusEngine St;
  fe_checkpoints : list Checkpoint;
  fe_f1_finalized : list MessageId;
  fe_f2_stabilized : list MessageId;
  fe_checkpoint_height : Z;
  fe_f1_times : list Z;
  fe_f2_times : list Z;
  fe_max_depth : Z;
  fe_depth_star : Z;
  fe_f1_locked : bool;
}.
Arguments mkFinality {St}.
Arguments fe_config {St}.
Arguments fe_analyzer {St}.
Arguments fe_checker {St}.
Arguments fe_storage {St}.
Arguments fe_finalized {St}.
Arguments fe_pending {St}.
Arguments fe_consensus {St}.
Arguments fe_checkpoints {St}.
Arguments fe_f1_finalized {St}.
Arguments fe_f2_stabilized {St}.
Arguments fe_checkpoint_height {St}.
Arguments fe_f1_times {St}.
Arguments fe_f2_times {St}.
Arguments fe_max_depth {St}.
Arguments fe_depth_star {St}.
Arguments fe_f1_locked {St}.

Inductive FinalityFault :=
  | FDeposit (e : DepositError)
  | FHomology (e : PhError)
  | FBlocked
  | FFuel.

Record FinalityStats := mkFinalityStats { fs_finalized_count : nat; fs_pending_count : nat; fs_total_messages : nat }.
Record KCoreFinalityResult := mkKCoreFinality { kr_k_value : nat; kr_depth : Z; kr_diversity_score : nat; kr_is_final : bool }.

Section setters.
Context {St : Type}.
Implicit Types s : FinalityEngine St.

Definition set_analyzer (a : KCoreAnalyzer) s := mkFinality (fe_config s) a (fe_checker s) (fe_storage s) (fe_finalized s) (fe_pending s) (fe_consensus s) (fe_checkpoints s) (fe_f1_finalized s) (fe_f2_stabilized s) (fe_checkpoint_height s) (fe_f1_times s) (fe_f2_times s) (fe_max_depth s) (fe_depth_star s) (fe_f1_locked s).
Definition set_checker (c : F2FinalityChecker) s := mkFinality (fe_config s) (fe_analyzer s) c (fe_storage s) (fe_finalized s) (fe_pending s) (fe_consensus s) (fe_checkpoints s) (fe_f1_finalized s) (fe_f2_stabilized s) (fe_checkpoint_height s) (fe_f1_times s) (fe_f2_times s) (fe_max_depth s) (fe_depth_star s) (fe_f1_locked s).
Definition set_storage (m : MemoryBackend) s := mkFinality (fe_config s) (fe_analyzer s) (fe_checker s) m (fe_finalized s) (fe_pending s) (fe_consensus s) (fe_checkpoints s) (fe_f1_finalized s) (fe_f2_stabilized s) (fe_checkpoint_height s) (fe_f1_times s) (fe_f2_times s) (fe_max_depth s) (fe_depth_star s) (fe_f1_locked s).
Definition set_finalized (f : gmap MessageId FinalityArtifact) s := mkFinality (fe_config s) (fe_analyzer s) (fe_checker s) (fe_storage s) f (fe_pending s) (fe_consensus s) (fe_checkpoints s) (fe_f1_finalized s) (fe_f2_stabilized s) (fe_checkpoint_height s) (fe_f1_times s) (fe_f2_times s) (fe_max_depth s) (fe_depth_star s) (fe_f1_locked s).
Definition set_pending (p : list MessageId) s := mkFinality (fe_config s) (fe_analyzer s) (fe_checker s) (fe_storage s) (fe_finalized s) p (fe_consensus s) (fe_checkpoints s) (fe_f1_finalized s) (fe_f2_stabilized s) (fe_checkpoint_height s) (fe_f1_times s) (fe_f2_times s) (fe_max_depth s) (fe_depth_star s) (fe_f1_locked s).
Definition set_consensus (c : ConsensusEngine St) s := mkFinality (fe_config s) (fe_analyzer s) (fe_checker s) (fe_storage s) (fe_finalized s) (fe_pending s) c (fe_checkpoints s) (fe_f1_finalized s) (fe_f2_stabilized s) (fe_checkpoint_height s) (fe_f1_times s) (fe_f2_times s) (fe_max_depth s) (fe_depth_star s) (fe_f1_locked s).
(** The checkpoint state: checkpoints, tracked messages, height, and the lock. *)
Definition set_tracking (cs : list Checkpoint) (f1 f2 : list MessageId) (h : Z) (locked : bool) s := mkFinality (fe_config s) (fe_analyzer s) (fe_checker s) (fe_storage s) (fe_finalized s) (fe_pending s) (fe_consensus s) cs f1 f2 h (fe_f1_times s) (fe_f2_times s) (fe_max_depth s) (fe_depth_star s) locked.
Definition set_times (t1 t2 : list Z) s := mkFinality (fe_config s) (fe_analyzer s) (fe_checker s) (fe_storage s) (fe_finalized s) (fe_pending s) (fe_consensus s) (fe_checkpoints s) (fe_f1_finalized s) (fe_f2_stabilized s) (fe_checkpoint_height s) t1 t2 (fe_max_depth s) (fe_depth_star s) (fe_f1_locked s).
Definition set_max_depth (d : Z) s := mkFinality (fe_config s) (fe_analyzer s) (fe_checker s) (fe_storage s) (fe_finalized s) (fe_pending s) (fe_consensus s) (fe_checkpoints s) (fe_f1_finalized s) (fe_f2_stabilized s) (fe_checkpoint_height s) (fe_f1_times s) (fe_f2_times s) d (fe_depth_star s) (fe_f1_locked s).
Definition set_config (c : FinalityConfig) s := mkFinality c (fe_analyzer s) (fe_checker s) (fe_storage s) (fe_finalized s) (fe_pending s) (fe_consensus s) (fe_checkpoints s) (fe_f1_finalized s) (fe_f2_stabilized s) (fe_checkpoint_height s) (fe_f1_times s) (fe_f2_times s) (fe_max_depth s) (fe_depth_star s) (fe_f1_locked s).
End setters.

(** [push_back], then [pop_front] while longer than the window. *)
Definition push_window {A} (window : nat) (x : A) (l : list A) : list A :=
  drop (length (l ++ [x]) - window) (l ++ [x]).

Section engine.
Context {St : Type} `{!EconomicsStorage St}.
Context (map_iter : gmap MessageId nat -> list (MessageId * nat)) (set_iter : gset MessageId -> list MessageId).
Context (ball_iter : gmap (list Z) (list (MessageId * f64)) -> list (list Z * list (MessageId * f64))).
Context (pair_iter : gmap ColIndex RowIndex -> list (ColIndex * RowIndex)).
Context (values_iter : gmap MessageId FinalityArtifact -> list (MessageId * FinalityArtifact)).
Context (now : Z) (elapsed : nat -> Z) (f1_elapsed : MessageId -> Z).
Context (blake3 sha256 : Bytes -> Bytes).
Context (artifact_json : FinalityArtifact -> option Bytes) (witness_json : FinalityWitness -> option Bytes).

Abbreviation FE := (FinalityEngine St).
Abbreviation FM := (M FE FinalityFault).

Definition f2_config_of (config : FinalityConfig) (max_betti : nat) (min_pers : f64) : F2Config :=
  mkF2Config 3 5 0 (fc_epsilon config) (fc_f2_timeout_ms config) false max_betti min_pers.

Definition finality_new (config : FinalityConfig) (consensus : ConsensusEngine St) (storage : MemoryBackend) : FE :=
  let params := ce_params consensus in
  mkFinality config
    (analyzer_new (fc_k config) (fc_min_depth config) (fc_min_diversity config) (fc_min_reputation config) (pr_rho params))
    (f2_new (f2_config_of config 2 (f64_lit 1 100))) storage ∅ [] consensus [] [] [] 0 [] [] 0 (depth_star params) false.

Definition finality_update_params (p : AdicParams) (f2_max_betti : nat) (f2_min_persistence : f64) : FM unit :=
  mwrite (fun s => let c := fe_config s in
    set_config (mkFinalityConfig (Z.to_nat (pr_k p)) (depth_star p) (fc_min_diversity c) (fc_min_reputation c) (check_interval_ms c)
      (window_size c) (f2_enabled c) (fc_f2_timeout_ms c) (f1_enabled c) (fc_epsilon c) (checkpoint_interval c)) s);;
  mwrite (fun s => let c := fe_config s in
    set_analyzer (analyzer_new (Z.to_nat (pr_k p)) (depth_star p) (fc_min_diversity c) (fc_min_reputation c) (pr_rho p)) s);;
  mwrite (fun s => set_checker (f2_new (f2_config_of (fe_config s) f2_max_betti f2_min_persistence)) s).

(** The parents, reputation and balls handed in are not used. *)
Definition finality_add_message (id : MessageId) : FM unit :=
  mwrite (fun s => set_pending (push_window (window_size (fe_config s)) id (fe_pending s)) s).

Definition finality_is_finalized (id : MessageId) : FM bool := mread (fun s => bool_decide (is_Some (fe_finalized s !! id))).
Definition get_artifact (id : MessageId) : FM (option FinalityArtifact) := mread (fun s => fe_finalized s !! id).
Definition store_artifact (a : FinalityArtifact) : FM unit :=
  mwrite (fun s => set_finalized (<[intent_id a := a]> (fe_finalized s)) s).

(** ** Checkpoints *)

(** A guard of [f1_finalized_messages]: blocked while the writer has it. *)
Definition acquire_f1 : FM unit := locked ← mread fe_f1_locked; mbail locked FBlocked.

Definition create_checkpoint : FM Checkpoint :=
  height ← mread fe_checkpoint_height;
  mwrite (fun s => set_tracking (fe_checkpoints s) (fe_f1_finalized s) (fe_f2_stabilized s) (to_u64 (height + 1)) (fe_f1_locked s) s);;
  acquire_f1;;
  f1_messages ← mread fe_f1_finalized;
  f2_messages ← mread fe_f2_stabilized;
  artifacts ← mread (fun s => (values_iter (fe_finalized s)).*2);
  messages_root ← mopt (compute_root sha256 (merkle_leaf sha256 <$> f1_messages)) FFuel;
  witnesses_root ← mopt (compute_root sha256 (merkle_leaf sha256 <$> omap (fun a => witness_json (witness a)) artifacts)) FFuel;
  let max_k := foldl Z.max 0 ((fun a => Z.of_nat (fp_k (fa_params a))) <$> artifacts) in
  checkpoints ← mread fe_checkpoints;
  let c := checkpoint_new height now messages_root witnesses_root (f1_metadata_new max_k f1_messages)
    (f2_metadata_new f2_messages None) (checkpoint_hash sha256 <$> last checkpoints) in
  mwrite (fun s => set_tracking (fe_checkpoints s ++ [c]) [] [] (fe_checkpoint_height s) (fe_f1_locked s) s);;
  mret c.

(** [if let Err(e) = m { warn!(..) }]: an error is dropped; a blocked task does not come back. *)
Definition ignore_err {A} (m : FM A) : FM unit := fun s =>
  match m s with
  | (Ok _, s) => (Ok tt, s)
  | (Err FBlocked, s) => (Err FBlocked, s)
  | (Err FFuel, s) => (Err FFuel, s)
  | (Err _, s) => (Ok tt, s)
  | (Panic, s) => (Panic, s)
  end.

(** The write guard is taken first and dropped at the end of the function. *)
Definition track_f1_finalized (id : MessageId) : FM unit :=
  acquire_f1;;
  mwrite (fun s => set_tracking (fe_checkpoints s) (fe_f1_finalized s ++ [id]) (fe_f2_stabilized s) (fe_checkpoint_height s) true s);;
  full ← mread (fun s => checkpoint_interval (fe_config s) <=? Z.of_nat (length (fe_f1_finalized s)));
  mwhen full (ignore_err create_checkpoint);;
  mwrite (fun s => set_tracking (fe_checkpoints s) (fe_f1_finalized s) (fe_f2_stabilized s) (fe_checkpoint_height s) false s).

Definition track_f2_stabilized (id : MessageId) : FM unit :=
  mwrite (fun s => set_tracking (fe_checkpoints s) (fe_f1_finalized s) (fe_f2_stabilized s ++ [id]) (fe_checkpoint_height s) (fe_f1_locked s) s).

Definition get_latest_checkpoint : FM (option Checkpoint) := mread (fun s => last (fe_checkpoints s)).
Definition get_checkpoint (height : Z) : FM (option Checkpoint) :=
  mread (fun s => List.find (fun c => ck_height c =? height) (fe_checkpoints s)).
Definition get_all_checkpoints : FM (list Checkpoint) := mread fe_checkpoints.

(** ** Finalizing *)

Definition update_finalized_depth (depth : Z) : FM unit :=
  mwrite (fun s => if fe_max_depth s <? depth then set_max_depth depth s else s).

Definition config_params (c : FinalityConfig) : FinalityParams :=
  mkFinalityParams (fc_k c) (fc_min_diversity c) (fc_min_depth c) (fc_min_reputation c).

Definition create_artifact (config : FinalityConfig) (id : MessageId) (result : KCoreResult) : FinalityArtifact :=
  artifact_new now id F1KCore (config_params config)
    (mkWitness (kcore_root result) (kc_depth result)
      (forallb (fun e => (fc_min_diversity config <=? e.2)%nat) (map_to_list (distinct_balls result)))
      (total_reputation result) (distinct_balls result) (core_size result) None None None None).

(** Refund the deposit and reward the proposer, for a message that has a deposit. *)
Definition settle_finalized (id : MessageId) (diversity : f64) (depth : Z) : FM unit :=
  let consensus {A} (m : M (ConsensusEngine St) DepositError A) : FM A := mmap_err FDeposit (mzoom fe_consensus set_consensus m) in
  proposer ← consensus (deposits_do (get_proposer id));
  match proposer with
  | Some pk =>
      consensus (deposits_do (refund blake3 id));;
      consensus (reputation_do (good_update now pk diversity depth))
  | None => mret tt
  end.

(** [store_finality_artifact] of the storage engine, which does not fail in memory. *)
Definition persist_artifact (id : MessageId) (a : FinalityArtifact) : FM unit :=
  match artifact_json a with
  | Some bytes => mwrite (fun s => set_storage (store_finality_artifact id bytes (fe_storage s)).2 s)
  | None => mret tt
  end.

Definition insert_finalized (id : MessageId) (a : FinalityArtifact) : FM unit :=
  mwrite (fun s => set_finalized (<[id := a]> (fe_finalized s)) s).

Definition finalize_message_f1 (id : MessageId) (result : KCoreResult) : FM unit :=
  mwrite (fun s => set_times (push_window metrics_window_size (f1_elapsed id) (fe_f1_times s)) (fe_f2_times s) s);;
  config ← mread fe_config;
  let artifact := create_artifact config id result in
  update_finalized_depth (kc_depth result);;
  let diversity := f64_of_Z (Z.of_nat (foldl Nat.add 0%nat (map_to_list (fw_distinct_balls (witness artifact))).*2)) in
  settle_finalized id diversity (fw_depth (witness artifact));;
  persist_artifact id artifact;;
  insert_finalized id artifact;;
  track_f1_finalized id.

Definition finalize_message_f2 (id : MessageId) (stable : bool) (distance confidence : f64) (num_finalized : nat) : FM unit :=
  config ← mread fe_config;
  let artifact := artifact_new now id F2PersistentHomology (config_params config)
    (mkWitness None 3 true f64_zero ∅ 0 (Some stable) (Some distance) (Some confidence) (Some num_finalized)) in
  update_finalized_depth (fc_min_depth config);;
  settle_finalized id (f64_of_Z 1) 3;;
  persist_artifact id artifact;;
  insert_finalized id artifact;;
  track_f2_stabilized id.

(** ** The check *)

(** One message of the F1 loop; returns whether it was finalized. *)
Definition f1_check (id : MessageId) : FM bool :=
  finalized ← finality_is_finalized id;
  if finalized : bool then mret false
  else
    s ← mread (fun s => s);
    match analyze map_iter set_iter (get_reputation (ce_reputation (fe_consensus s))) (fe_analyzer s) (fe_storage s) id with
    | None => mfail FFuel
    | Some (result, analyzer) =>
        mwrite (set_analyzer analyzer);;
        if kc_is_final result then finalize_message_f1 id result;; mret true else mret false
    end.

(** The loop over the pending messages, with the list of those finalized so far. *)
Fixpoint f1_loop (ids : list MessageId) (newly : list MessageId) : FM (list MessageId) :=
  match ids with
  | [] => mret newly
  | id :: ids =>
      done ← f1_check id;
      f1_loop ids (if done : bool then newly ++ [id] else newly)
  end.

(** [pending.retain(|id| !newly_finalized.contains(id))], when there are any. *)
Definition retain_pending (newly : list MessageId) : FM unit :=
  mwhen (negb (bool_decide (newly = [])))
    (mwrite (fun s => set_pending (List.filter (fun id => negb (bool_decide (id ∈ newly))) (fe_pending s)) s)).

Definition try_f2_finality (pending : list MessageId) : FM (option (list MessageId * bool * f64 * f64)) :=
  match pending with
  | [] => mret None
  | _ =>
      storage ← mread fe_storage;
      let messages := omap (fun id => mb_messages storage !! id) pending in
      match messages with
      | [] => mret None
      | _ =>
          checker ← mread fe_checker;
          match check_finality ball_iter pair_iter elapsed now checker messages with
          | Ok (Some (checker, result)) =>
              mwrite (set_checker checker);;
              match result with
              | F2Final stable distance confidence finalized elapsed_ms =>
                  mwrite (fun s => set_times (fe_f1_times s) (push_window metrics_window_size elapsed_ms (fe_f2_times s)) s);;
                  mret (Some (finalized, stable, distance, confidence))
              | F2Timeout _ _ => mret None
              | F2Pending _ _ _ => mret None
              | F2Error e => mfail (FHomology e)
              end
          | Ok None => mfail FFuel
          | _ => mpanic
          end
      end
  end.

Fixpoint f2_loop (ids : list MessageId) (stable : bool) (distance confidence : f64) (n : nat) : FM unit :=
  match ids with
  | [] => mret tt
  | id :: ids => finalize_message_f2 id stable distance confidence n;; f2_loop ids stable distance confidence n
  end.

(** The F1 fallback and the clean-up after it. *)
Definition check_f1 (pending : list MessageId) : FM (list MessageId) :=
  f1 ← mread (fun s => f1_enabled (fe_config s));
  newly ← (if f1 : bool then f1_loop pending [] else mret []);
  retain_pending newly;;
  mret newly.

(** An F2 error is logged and counts as no F2 result. *)
Definition engine_check_finality : FM (list MessageId) :=
  pending ← mread fe_pending;
  f2 ← mread (fun s => f2_enabled (fe_config s));
  if f2 : bool then
    f2_result ← mor (try_f2_finality pending) (fun e => match e with FHomology _ => mret None | e => mfail e end);
    match f2_result with
    | Some (finalized, stable, distance, confidence) =>
        f2_loop finalized stable distance confidence (length finalized);;
        retain_pending finalized;;
        mret finalized
    | None => check_f1 pending
    end
  else check_f1 pending.

(** ** Reading the engine *)

Definition get_stats : FM FinalityStats :=
  mread (fun s => let f := size (fe_finalized s) in let p := length (fe_pending s) in mkFinalityStats f p (f + p)).

Definition current_epoch (s : FE) : Z := if fe_depth_star s =? 0 then 0 else fe_max_depth s / fe_depth_star s.
Definition max_finalized_depth : FM Z := mread fe_max_depth.

Definition has_composite_finality (s : FE) (id : MessageId) : bool :=
  match fe_finalized s !! id with Some a => artifact_composite a | None => false end.
Definition is_governance_finalized (s : FE) (id : MessageId) : bool := has_composite_finality s id.

Definition check_kcore_finality (id : MessageId) : FM (option KCoreFinalityResult) :=
  s ← mread (fun s => s);
  match analyze map_iter set_iter (get_reputation (ce_reputation (fe_consensus s))) (fe_analyzer s) (fe_storage s) id with
  | None => mfail FFuel
  | Some (result, analyzer) =>
      mwrite (set_analyzer analyzer);;
      let score := match (map_to_list (distinct_balls result)).*2 with [] => 0%nat | c :: cs => foldl Nat.min c cs end in
      mret (Some (mkKCoreFinality (fc_k (fe_config s)) (kc_depth result) score (kc_is_final result)))
  end.

(** The timings, in the unit of the clock; a [Duration] divides rounding down. *)
Definition average_time (times : list Z) : option Z :=
  match times with [] => None | _ => Some (foldl Z.add 0 times / Z.of_nat (length times)) end.
Definition p95_time (times : list Z) : option Z :=
  match times with
  | [] => None
  | _ =>
      let sorted := isort Z.leb times in
      let index := Nat.min (length sorted * 95 / 100) (length sorted - 1) in
      sorted !! index
  end.
End engine.

(** ** Governance-grade finality *)

Section facts.
Context {St : Type} `{!EconomicsStorage St} `{!EconomicsStorageLaws St}.
Context (map_iter : gmap MessageId nat -> list (MessageId * nat)) (set_iter : gset MessageId -> list MessageId).
Context (ball_iter : gmap (list Z) (list (MessageId * f64)) -> list (list Z * list (MessageId * f64))).
Context (pair_iter : gmap ColIndex RowIndex -> list (ColIndex * RowIndex)).
Context (values_iter : gmap MessageId FinalityArtifact -> list (MessageId * FinalityArtifact)).
Context (now : Z) (elapsed : nat -> Z) (f1_elapsed : MessageId -> Z).
Context (digest : Bytes -> string) (blake3 sha256 : Bytes -> Bytes).
Context (artifact_json : FinalityArtifact -> option Bytes) (witness_json : FinalityWitness -> option Bytes).
Implicit Types s : FinalityEngine St.

Abbreviation check := (engine_check_finality map_iter set_iter ball_iter pair_iter values_iter now elapsed f1_elapsed blake3 sha256
  artifact_json witness_json).
Abbreviation finalize_f1 := (finalize_message_f1 values_iter now f1_elapsed blake3 sha256 artifact_json witness_json).
Abbreviation track_f1 := (track_f1_finalized values_iter now sha256 witness_json).
Abbreviation checkpoint := (create_checkpoint values_iter now sha256 witness_json).

(** ** The artifacts the engine creates

    A property of the artifacts of the two gates holds of every artifact the engine stores. *)

Section artifacts.
Context (P : FinalityArtifact -> Prop).
Context (P_f1 : forall config id r, P (create_artifact now config id r)).
Context (P_f2 : forall config id stable distance confidence n,
  P (artifact_new now id F2PersistentHomology (config_params config)
      (mkWitness None 3 true f64_zero ∅ 0 (Some stable) (Some distance) (Some confidence) (Some n)))).

Definition all_artifacts s : Prop := forall id a, fe_finalized s !! id = Some a -> P a.
Definition stays_free s s' : Prop := all_artifacts s -> all_artifacts s'.

#[local] Instance stays_free_preorder : PreOrder stays_free.
Proof. split; [intros s H; exact H|]. intros s1 s2 s3 H1 H2 H. by apply H2, H1. Qed.

(** Writes that leave the finalized artifacts alone. *)
Lemma free_write (f : FinalityEngine St -> FinalityEngine St) :
  (forall s, fe_finalized (f s) = fe_finalized s) -> keeps (E := FinalityFault) stays_free (mwrite f).
Proof. intros Hf. apply keeps_write. intros s H id a. rewrite Hf. apply H. Qed.

Lemma free_insert id (a : FinalityArtifact) : P a -> keeps stays_free (insert_finalized (St := St) id a).
Proof. intros Hg. apply keeps_write. intros s H id' a'. simpl. intros [[_ <-]|[_ Ha]]%lookup_insert_Some; [done|by eapply H]. Qed.

Lemma free_consensus {A} (m : M (ConsensusEngine St) DepositError A) :
  keeps stays_free (mmap_err FDeposit (mzoom fe_consensus set_consensus m)).
Proof. apply keeps_map_err, keeps_zoom. intros s H. exact H. Qed.

#[local] Hint Resolve free_consensus : keeps.

Lemma free_ignore {A} (m : M (FinalityEngine St) FinalityFault A) : keeps stays_free m -> keeps stays_free (ignore_err m).
Proof. intros H s. specialize (H s). unfold ignore_err. by destruct (m s) as [[a|[]|] s']. Qed.

Ltac free_writes := apply free_write; intros; simpl; try case_match; done.

Lemma free_checkpoint : keeps stays_free checkpoint.
Proof. unfold create_checkpoint, acquire_f1. keeps_auto; free_writes. Qed.

Lemma free_track id : keeps stays_free (track_f1 id).
Proof.
  unfold track_f1_finalized, acquire_f1, mwhen. keeps_auto; try free_writes. apply free_ignore, free_checkpoint.
Qed.

Lemma free_settle id v d : keeps stays_free (settle_finalized (St := St) now blake3 id v d).
Proof. unfold settle_finalized. keeps_auto. Qed.

Lemma free_persist id a : keeps stays_free (persist_artifact (St := St) artifact_json id a).
Proof. unfold persist_artifact. keeps_auto. free_writes. Qed.

#[local] Hint Resolve free_settle free_persist free_track free_checkpoint : keeps.
#[local] Hint Extern 1 (keeps _ (insert_finalized _ _)) => (apply free_insert; first [apply P_f1|apply P_f2]) : keeps.

Lemma free_finalize_f1 id r : keeps stays_free (finalize_f1 id r).
Proof.
  unfold finalize_message_f1, update_finalized_depth. keeps_auto; free_writes.
Qed.

Lemma free_finalize_f2 id b v c n : keeps stays_free (finalize_message_f2 (St := St) now blake3 artifact_json id b v c n).
Proof.
  unfold finalize_message_f2, update_finalized_depth, track_f2_stabilized. keeps_auto; free_writes.
Qed.

#[local] Hint Resolve free_finalize_f1 free_finalize_f2 : keeps.

Lemma free_f1_loop ids newly :
  keeps stays_free (f1_loop (St := St) map_iter set_iter values_iter now f1_elapsed blake3 sha256 artifact_json witness_json ids newly).
Proof.
  revert newly. induction ids as [|id ids IH]; intros newly; cbn [f1_loop]; unfold f1_check, finality_is_finalized; keeps_auto;
    first [free_writes|apply IH].
Qed.

Lemma free_f2_loop ids b v c n : keeps stays_free (f2_loop (St := St) now blake3 artifact_json ids b v c n).
Proof. induction ids as [|id ids IH]; cbn [f2_loop]; keeps_auto. Qed.

#[local] Hint Resolve free_f1_loop free_f2_loop : keeps.

Lemma free_check : keeps stays_free check.
Proof.
  unfold engine_check_finality, try_f2_finality, check_f1, retain_pending, mwhen. keeps_auto; try free_writes.
  all: apply keeps_pure; [apply _|]; intros; by case_match.
Qed.

(** Whatever the engine is asked to do, and whatever happens to the DAG and to the consensus
    state in between; only artifacts stored from outside are restricted. *)
Inductive engine_step : FinalityEngine St -> FinalityEngine St -> Prop :=
  | es_add id s : engine_step s (finality_add_message id s).2
  | es_check s : engine_step s (check s).2
  | es_params p b m s : engine_step s (finality_update_params p b m s).2
  | es_checkpoint s : engine_step s (checkpoint s).2
  | es_store a s : P a -> engine_step s (store_artifact a s).2
  | es_world m c s : engine_step s (set_consensus c (set_storage m s)).

Lemma engine_artifacts config consensus storage s :
  rtc engine_step (finality_new config consensus storage) s -> all_artifacts s.
Proof.
  intros Hr. assert (all_artifacts (finality_new (St := St) config consensus storage)) as H0 by (intros i a H; simpl in H; by rewrite lookup_empty in H).
  induction Hr as [|s1 s2 s3 Hstep _ IH]; [done|]. apply IH. destruct Hstep as [i s|s|p b m s|s|a s Ha|m c s].
  - exact H0.
  - by apply free_check.
  - exact H0.
  - by apply free_checkpoint.
  - intros i a'. simpl. intros [[_ <-]|[_ H]]%lookup_insert_Some; [done|by eapply H0].
  - exact H0.
Qed.
End artifacts.

(** Governance-grade finality is never reached by the engine's own work: in every state it gets
    to, with F1 and F2 enabled or not and whatever messages arrive, no message has composite
    finality, since a message finalized by one gate is not tried at the other and no artifact
    with the composite gate is ever created. *)
Theorem governance_finality_unreachable config consensus storage s id :
  rtc (engine_step (fun a => gate a <> F1AndF2Composite)) (finality_new config consensus storage) s ->
  is_governance_finalized s id = false.
Proof.
  intros Hr%engine_artifacts; [|done..].
  unfold is_governance_finalized, has_composite_finality. destruct (fe_finalized s !! id) as [a|] eqn:E; [|done].
  apply not_true_iff_false. rewrite artifact_composite_gate. by apply (Hr id).
Qed.

(** ** The checkpoint deadlock *)

Definition tracked s (id : MessageId) (locked : bool) : FinalityEngine St :=
  set_tracking (fe_checkpoints s) (fe_f1_finalized s ++ [id]) (fe_f2_stabilized s) (fe_checkpoint_height s) locked s.

Lemma track_f1_spec id s :
  track_f1 id s =
  if fe_f1_locked s then (Err FBlocked, s)
  else if checkpoint_interval (fe_config s) <=? Z.of_nat (S (length (fe_f1_finalized s)))
  then (Err FBlocked, set_tracking (fe_checkpoints s) (fe_f1_finalized s ++ [id]) (fe_f2_stabilized s)
                        (to_u64 (fe_checkpoint_height s + 1)) true s)
  else (Ok tt, tracked s id false).
Proof.
  unfold track_f1_finalized, acquire_f1, mbind, M_bind, mread, mbail, mwrite. destruct (fe_f1_locked s); [done|]. simpl.
  rewrite length_app. cbn [length]. rewrite Nat.add_1_r. by destruct (_ <=? _).
Qed.

(** The F1 finalization that makes the number of tracked messages reach the checkpoint interval
    never completes: it waits for a guard of the list whose write guard it holds.  No checkpoint
    is created, and from then on every further F1 finalization and every checkpoint waits too. *)
Theorem checkpoint_deadlock id s :
  fe_f1_locked s = false -> checkpoint_interval (fe_config s) <= Z.of_nat (S (length (fe_f1_finalized s))) ->
  let (r, s') := track_f1_finalized values_iter now sha256 witness_json id s in
  r = Err FBlocked /\ fe_checkpoints s' = fe_checkpoints s /\
  (forall id', (track_f1_finalized values_iter now sha256 witness_json id' s').1 = Err FBlocked) /\
  (create_checkpoint values_iter now sha256 witness_json s').1 = Err FBlocked /\
  fe_checkpoints (create_checkpoint values_iter now sha256 witness_json s').2 = fe_checkpoints s.
Proof.
  intros Hl Hi. rewrite track_f1_spec, Hl. destruct (_ <=? _) eqn:E; [|zbool; lia].
  split; [done|]. split; [done|]. split; [|done]. intros id'. by rewrite track_f1_spec.
Qed.

(** ** What one F1 check does *)

Abbreviation deps s := (ce_deposits (fe_consensus s)).

Definition analyzer_matches (c : FinalityConfig) (a : KCoreAnalyzer) : Prop :=
  ka_k a = fc_k c /\ min_depth a = fc_min_depth c /\ min_diversity a = fc_min_diversity c /\ min_reputation a = fc_min_reputation c.

Record engine_ok s : Prop := {
  eo_dag : dag_ok (fe_storage s);
  eo_analyzer : analyzer_matches (fe_config s) (fe_analyzer s);
  eo_deposits : deposits_ok blake3 (deps s);
  eo_balances : is_Some (dm_balances (deps s));
}.

Context (Hiter : forall m, map_iter m ≡ₚ map_to_list m).

(** The deposit of a message, if it has one, is still escrowed. *)
Definition refundable s (id : MessageId) : Prop :=
  forall d, dm_deposits (deps s) !! id = Some d -> dp_status d = Escrowed.

Definition after_refund s (id : MessageId) : gmap MessageId Deposit :=
  match dm_deposits (deps s) !! id with
  | Some d => <[id := with_status Refunded d]> (dm_deposits (deps s))
  | None => dm_deposits (deps s)
  end.

(** The parts of the engine that settling a deposit leaves alone. *)
Record same_queue s s' : Prop := {
  sq_config : fe_config s' = fe_config s;
  sq_analyzer : fe_analyzer s' = fe_analyzer s;
  sq_pending : fe_pending s' = fe_pending s;
  sq_finalized : fe_finalized s' = fe_finalized s;
  sq_f1 : fe_f1_finalized s' = fe_f1_finalized s;
  sq_checkpoints : fe_checkpoints s' = fe_checkpoints s;
  sq_locked : fe_f1_locked s' = fe_f1_locked s;
  sq_storage : fe_storage s' = fe_storage s;
}.

Definition put_deps (d : DepositManager St) s : FinalityEngine St := set_consensus (with_deposits d (fe_consensus s)) s.

Lemma put_deps_same s : put_deps (deps s) s = s.
Proof. by destruct s as [? ? ? ? ? ? []]. Qed.

Lemma zoom_deposits {A} (m : M (DepositManager St) DepositError A) s :
  mmap_err FDeposit (mzoom fe_consensus set_consensus (deposits_do m)) s =
  match m (deps s) with
  | (Ok a, d) => (Ok a, put_deps d s)
  | (Err e, d) => (Err (FDeposit e), put_deps d s)
  | (Panic, d) => (Panic, put_deps d s)
  end.
Proof. unfold mmap_err, deposits_do, mzoom. by destruct (m (deps s)) as [[] ?]. Qed.

Lemma settle_finalized_eq id v d s :
  settle_finalized now blake3 id v d s =
  match dm_deposits (deps s) !! id with
  | None => (Ok tt, s)
  | Some dp =>
      match refund blake3 id (deps s) with
      | (Ok _, dm) =>
          let s := put_deps dm s in
          (Ok tt, set_consensus (with_reputation (good_update now (dp_proposer_pk dp) v d (ce_reputation (fe_consensus s))) (fe_consensus s)) s)
      | (Err e, dm) => (Err (FDeposit e), put_deps dm s)
      | (Panic, dm) => (Panic, put_deps dm s)
      end
  end.
Proof.
  unfold settle_finalized. unfold mbind at 1, M_bind at 1. rewrite zoom_deposits. unfold get_proposer, mread. rewrite put_deps_same.
  destruct (dm_deposits (deps s) !! id) as [dp|]; [|done]. simpl. unfold mbind at 1, M_bind at 1. rewrite zoom_deposits.
  by destruct (refund blake3 id (deps s)) as [[] dm].
Qed.

Lemma settle_ok id v d s :
  engine_ok s -> refundable s id ->
  exists s', settle_finalized now blake3 id v d s = (Ok tt, s') /\ same_queue s s' /\ engine_ok s' /\
    dm_deposits (deps s') = after_refund s id /\ fe_max_depth s' = fe_max_depth s.
Proof.
  intros [Hdag Han Hdep [bm Hbm]] Href. rewrite settle_finalized_eq. unfold after_refund.
  destruct (dm_deposits (deps s) !! id) as [dp|] eqn:Ed; [|by exists s].
  destruct (refund_ok blake3 (deps s) bm id dp Hdep Hbm Ed (Href dp Ed)) as (bm' & Hr & Hrest).
  assert (deposits_ok blake3 (refund blake3 id (deps s)).2 /\ is_Some (dm_balances (refund blake3 id (deps s)).2)) as [H1 H2].
  { apply (step_ok digest blake3 (deps s)); [apply step_refund|done|by eexists]. }
  rewrite Hr in *. eexists. split; [reflexivity|]. split; [done|]. split; [|done]. by split.
Qed.

Lemma settle_refused_engine id v d s dp :
  dm_deposits (deps s) !! id = Some dp -> dp_status dp <> Escrowed ->
  exists e, settle_finalized now blake3 id v d s = (Err (FDeposit e), s).
Proof.
  intros Ed Hs. rewrite settle_finalized_eq, Ed.
  destruct (settle_refused digest blake3 now (deps s) id) as (He & Hsame & _); [by intros ? [= <-]%(eq_trans (eq_sym Ed))|].
  destruct (refund blake3 id (deps s)) as [[] dm] eqn:Er; simpl in He, Hsame; try done.
  subst dm. rewrite put_deps_same. by eexists.
Qed.

Record finalized_one id (r : KCoreResult) s s' : Prop := {
  fo_finalized : fe_finalized s' = <[id := create_artifact now (fe_config s) id r]> (fe_finalized s);
  fo_pending : fe_pending s' = fe_pending s;
  fo_config : fe_config s' = fe_config s;
  fo_f1 : fe_f1_finalized s' = fe_f1_finalized s ++ [id];
  fo_checkpoints : fe_checkpoints s' = fe_checkpoints s;
  fo_depth : fe_max_depth s' = Z.max (fe_max_depth s) (kc_depth r);
  fo_deposits : dm_deposits (deps s') = after_refund s id;
  fo_ok : engine_ok s';
}.

Definition has_room s : Prop := Z.of_nat (S (length (fe_f1_finalized s))) < checkpoint_interval (fe_config s).

Lemma persist_ok id a s :
  exists s', persist_artifact artifact_json id a s = (Ok tt, s') /\
    (engine_ok s -> engine_ok s') /\ fe_finalized s' = fe_finalized s /\ fe_pending s' = fe_pending s /\
    fe_config s' = fe_config s /\ fe_f1_finalized s' = fe_f1_finalized s /\ fe_checkpoints s' = fe_checkpoints s /\
    fe_f1_locked s' = fe_f1_locked s /\ fe_max_depth s' = fe_max_depth s /\ deps s' = deps s.
Proof.
  unfold persist_artifact. destruct (artifact_json a) as [bytes|]; [|exists s; by split_and!].
  eexists. split; [reflexivity|]. split; [|done]. intros [Hdag Han Hdep Hb]. split; [|done|done|done].
  simpl. eapply dag_ok_ext; [..|exact Hdag]; try done.
  intros i. simpl. by intros [? _]%lookup_insert_None.
Qed.

(** The time and the depth of a final message, noted first. *)
Definition noted id (r : KCoreResult) s : FinalityEngine St :=
  let s := set_times (push_window metrics_window_size (f1_elapsed id) (fe_f1_times s)) (fe_f2_times s) s in
  if fe_max_depth s <? kc_depth r then set_max_depth (kc_depth r) s else s.

Definition diversity_of (r : KCoreResult) : f64 :=
  f64_of_Z (Z.of_nat (foldl Nat.add 0%nat (map_to_list (distinct_balls r)).*2)).

Lemma finalize_f1_eq id r s :
  finalize_f1 id r s =
  let art := create_artifact now (fe_config s) id r in
  match settle_finalized now blake3 id (diversity_of r) (kc_depth r) (noted id r s) with
  | (Ok _, s2) =>
      let s3 := (persist_artifact artifact_json id art s2).2 in track_f1 id (set_finalized (<[id := art]> (fe_finalized s3)) s3)
  | (Err e, s2) => (Err e, s2)
  | (Panic, s2) => (Panic, s2)
  end.
Proof.
  unfold finalize_message_f1, update_finalized_depth, insert_finalized. cbv zeta.
  unfold mbind at 1, M_bind at 1, mwrite at 1. unfold mbind at 1, M_bind at 1, mread at 1.
  unfold mbind at 1, M_bind at 1, mwrite at 1. unfold mbind at 1, M_bind at 1.
  change (settle_finalized now blake3 id _ _ _) with (settle_finalized now blake3 id (diversity_of r) (kc_depth r) (noted id r s)).
  destruct (settle_finalized now blake3 id (diversity_of r) (kc_depth r) (noted id r s)) as [[[]|e|] s2]; [|done..].
  unfold mbind at 1, M_bind at 1.
  destruct (persist_ok id (create_artifact now (fe_config s) id r) s2) as (s3 & Hs3 & _).
  change (fe_config (set_times _ _ s)) with (fe_config s). rewrite Hs3. reflexivity.
Qed.

Lemma noted_ok id r s :
  same_queue s (noted id r s) /\ (engine_ok s -> engine_ok (noted id r s)) /\
  fe_max_depth (noted id r s) = Z.max (fe_max_depth s) (kc_depth r) /\ fe_consensus (noted id r s) = fe_consensus s.
Proof.
  unfold noted. simpl. destruct (fe_max_depth s <? kc_depth r) eqn:E; zbool; (split; [done|]); (split; [by intros []|]); simpl; (split; [lia|done]).
Qed.

(** A final message with an escrowed deposit, or none: finalized, or stuck at the checkpoint. *)
Lemma finalize_f1_ok id r s :
  engine_ok s -> refundable s id -> fe_f1_locked s = false ->
  exists s', finalized_one id r s s' /\
    (has_room s -> finalize_f1 id r s = (Ok tt, s') /\ fe_f1_locked s' = false) /\
    (~ has_room s -> exists s'', finalize_f1 id r s = (Err FBlocked, s'') /\ fe_finalized s'' = fe_finalized s' /\
      fe_pending s'' = fe_pending s /\ fe_f1_locked s'' = true).
Proof.
  intros Hok Href Hl. rewrite finalize_f1_eq. cbv zeta. set (art := create_artifact now (fe_config s) id r).
  destruct (noted_ok id r s) as (Hq1 & Hok1 & Hd1 & Hc1). specialize (Hok1 Hok).
  destruct (settle_ok id (diversity_of r) (kc_depth r) (noted id r s) Hok1) as (s2 & Hs2 & Hq2 & Hok2 & Hdep2 & Hd2);
    [unfold refundable; by rewrite Hc1|].
  rewrite Hs2. destruct (persist_ok id art s2) as (s3 & Hs3 & Hok3 & Hf3 & Hp3 & Hcf3 & Hf13 & Hck3 & Hl3 & Hd3 & Hdep3).
  rewrite Hs3. simpl. set (s4 := set_finalized (<[id := art]> (fe_finalized s3)) s3).
  assert (fe_f1_finalized s4 = fe_f1_finalized s /\ fe_config s4 = fe_config s /\ fe_f1_locked s4 = false /\
    fe_pending s4 = fe_pending s /\ fe_checkpoints s4 = fe_checkpoints s) as (E1 & E2 & E3 & E4 & E5).
  { destruct Hq1, Hq2. subst s4. simpl. split_and!; congruence. }
  assert (engine_ok s4) as Hok4 by (destruct (Hok3 Hok2); by split).
  exists (tracked s4 id false). split.
  - split; [|exact E4|exact E2|exact (f_equal (fun l => l ++ [id]) E1)|exact E5| | |].
    + subst s4 art. simpl. by rewrite Hf3, (sq_finalized _ _ Hq2), (sq_finalized _ _ Hq1).
    + simpl. by rewrite Hd3, Hd2, Hd1.
    + simpl. rewrite Hdep3, Hdep2. unfold after_refund. by rewrite Hc1.
    + by destruct Hok4.
  - rewrite track_f1_spec, E3, E2, E1. unfold has_room.
    destruct (checkpoint_interval _ <=? _) eqn:E; zbool; split; intros; try lia; [|done].
    eexists. split; [done|]. by rewrite <-E4.
Qed.

Lemma finalize_f1_settled id r s dp :
  dm_deposits (deps s) !! id = Some dp -> dp_status dp <> Escrowed ->
  exists e, finalize_f1 id r s = (Err (FDeposit e), noted id r s).
Proof.
  intros Ed Hs. rewrite finalize_f1_eq. cbv zeta. destruct (noted_ok id r s) as (_ & _ & _ & Hc).
  destruct (settle_refused_engine id (diversity_of r) (kc_depth r) (noted id r s) dp) as [e ->]; [by rewrite Hc|done|]. by exists e.
Qed.

(** ** One message of the loop *)

Definition judged s (id : MessageId) : option (KCoreResult * KCoreAnalyzer) :=
  analyze map_iter set_iter (get_reputation (ce_reputation (fe_consensus s))) (fe_analyzer s) (fe_storage s) id.

Abbreviation check_one := (f1_check map_iter set_iter values_iter now f1_elapsed blake3 sha256 artifact_json witness_json).
Abbreviation loop := (f1_loop map_iter set_iter values_iter now f1_elapsed blake3 sha256 artifact_json witness_json).

Lemma judged_ok s id :
  engine_ok s -> exists r a', judged s id = Some (r, a') /\ engine_ok (set_analyzer a' s) /\
    judged (set_analyzer a' s) id = Some (r, a') /\
    (kc_is_final r = true ->
      let a := create_artifact now (fe_config s) id r in has_f1_finality a = true /\ artifact_is_valid a = true).
Proof.
  intros [Hdag (E1 & E2 & E3 & E4) Hdep Hb].
  destruct (analyze_total map_iter set_iter (get_reputation (ce_reputation (fe_consensus s))) Hiter (fe_analyzer s) (fe_storage s) id Hdag)
    as (r & a' & Ha & (S1 & S2 & S3 & S4 & _) & Ha' & Hf).
  exists r, a'. split; [done|]. split; [split; try done; simpl; unfold analyzer_matches; split_and!; congruence|]. split; [done|].
  intros Hfin. destruct (Hf Hfin) as (core & depth & ->). unfold verdict_of in Hfin. cbn [kc_is_final] in Hfin.
  unfold kcore_is_final in Hfin. apply andb_prop in Hfin as [[[_ Hd]%andb_prop Hv]%andb_prop Hrep].
  rewrite E2 in Hd. rewrite E3 in Hv. rewrite E4 in Hrep. split; [done|].
  unfold artifact_is_valid, create_artifact, verdict_of. simpl. by rewrite Hd, Hv, Hrep.
Qed.

Lemma f1_check_eq id s :
  engine_ok s ->
  (is_Some (fe_finalized s !! id) /\ check_one id s = (Ok false, s)) \/
  (fe_finalized s !! id = None /\ exists r a', judged s id = Some (r, a') /\ engine_ok (set_analyzer a' s) /\
    judged (set_analyzer a' s) id = Some (r, a') /\
    (kc_is_final r = true ->
      let a := create_artifact now (fe_config s) id r in has_f1_finality a = true /\ artifact_is_valid a = true) /\
    check_one id s =
      if kc_is_final r then
        match finalize_f1 id r (set_analyzer a' s) with
        | (Ok _, s2) => (Ok true, s2)
        | (Err e, s2) => (Err e, s2)
        | (Panic, s2) => (Panic, s2)
        end
      else (Ok false, set_analyzer a' s)).
Proof.
  intros Hok. unfold f1_check, finality_is_finalized, mbind, M_bind, mread.
  destruct (fe_finalized s !! id) as [art|] eqn:Ef; [left; split; [by eexists|]|right; split; [done|]].
  { by rewrite bool_decide_true by (by eexists). }
  destruct (judged_ok s id Hok) as (r & a' & Hj & Hok' & Hj' & Hart). exists r, a'. do 4 (split; [done|]).
  rewrite bool_decide_false by (by intros []). fold (judged s id). rewrite Hj.
  unfold mwrite. by destruct (kc_is_final r).
Qed.

Lemma refundable_dec s id :
  refundable s id \/ exists dp, dm_deposits (deps s) !! id = Some dp /\ dp_status dp <> Escrowed.
Proof.
  unfold refundable. destruct (dm_deposits (deps s) !! id) as [dp|]; [|by left].
  destruct (decide (dp_status dp = Escrowed)); [left; by intros ? [= <-]|right; by exists dp].
Qed.

(** ** The loop *)

Record f1_result (ids k : list MessageId) s s' : Prop := {
  fr_sub : sublist k ids;
  fr_nodup : NoDup k;
  fr_new id : id ∈ k -> fe_finalized s !! id = None /\ exists a, fe_finalized s' !! id = Some a /\
    intent_id a = id /\ fa_params a = config_params (fe_config s) /\ has_f1_finality a = true /\ artifact_is_valid a = true;
  fr_old id : id ∉ k -> fe_finalized s' !! id = fe_finalized s !! id;
  fr_refund id d : id ∈ k -> dm_deposits (deps s) !! id = Some d ->
    dp_status d = Escrowed /\ dm_deposits (deps s') !! id = Some (with_status Refunded d);
  fr_kept id : id ∉ k -> dm_deposits (deps s') !! id = dm_deposits (deps s) !! id;
  fr_pending : fe_pending s' = fe_pending s;
  fr_config : fe_config s' = fe_config s;
  fr_tracked : fe_f1_finalized s' = fe_f1_finalized s ++ k;
  fr_checkpoints : fe_checkpoints s' = fe_checkpoints s;
  fr_room : k <> [] -> Z.of_nat (length (fe_f1_finalized s')) < checkpoint_interval (fe_config s);
  fr_depth : fe_max_depth s <= fe_max_depth s';
  fr_ok : engine_ok s';
  fr_unlocked : fe_f1_locked s' = false;
}.

Lemma f1_result_nil s : engine_ok s -> fe_f1_locked s = false -> f1_result [] [] s s.
Proof. intros Hok Hl. split; try done; [constructor|by intros ? ?%elem_of_nil|by intros ? ? ?%elem_of_nil|by rewrite app_nil_r]. Qed.

(** A message that is not finalized leaves only the analyzer changed. *)
Lemma f1_result_skip id ids k s a' s' :
  f1_result ids k (set_analyzer a' s) s' -> f1_result (id :: ids) k s s'.
Proof. intros [H1 H2 H3 H4 H5 H6 H7 H8 H9 H10 H11 H12 H13 H14]. split; try done. by apply sublist_cons. Qed.

Lemma f1_result_one id ids k r a' s s1 s' :
  fe_finalized s !! id = None ->
  (let a := create_artifact now (fe_config s) id r in has_f1_finality a = true /\ artifact_is_valid a = true) ->
  refundable s id -> has_room s -> finalized_one id r (set_analyzer a' s) s1 ->
  f1_result ids k s1 s' -> f1_result (id :: ids) (id :: k) s s'.
Proof.
  intros Hnew [Hf1 Hvalid] Href Hroom [G1 G2 G3 G4 G5 G6 G7 _] [H1 H2 H3 H4 H5 H6 H7 H8 H9 H10 H11 H12 H13 H14]. simpl in *.
  assert (id ∉ k) as Hid by (intros Hin; destruct (H3 id Hin) as [Hn _]; rewrite G1, lookup_insert_eq in Hn; done).
  assert (forall i, i <> id -> dm_deposits (deps s1) !! i = dm_deposits (deps s) !! i) as Hdep.
  { intros i Hi. rewrite G7. unfold after_refund. simpl. destruct (dm_deposits (deps s) !! id); [by rewrite lookup_insert_ne|done]. }
  split; try done.
  - by apply sublist_skip.
  - by constructor.
  - intros i [->|Hi]%elem_of_cons.
    + split; [done|]. exists (create_artifact now (fe_config s) id r). split_and!; try done. rewrite H4 by done.
      by rewrite G1, lookup_insert_eq.
    + destruct (H3 i Hi) as (Hn & a & Ha). rewrite G1, lookup_insert_ne in Hn by (by intros ->). split; [done|]. exists a. by rewrite <-G3.
  - intros i [Hne Hi]%not_elem_of_cons. rewrite H4 by done. by rewrite G1, lookup_insert_ne.
  - intros i d [->|Hi]%elem_of_cons Hd.
    + split; [by apply (Href d)|]. rewrite H6 by done. rewrite G7. unfold after_refund. simpl. by rewrite Hd, lookup_insert_eq.
    + apply H5; [done|]. rewrite Hdep; [done|]. by intros ->.
  - intros i [Hne Hi]%not_elem_of_cons. rewrite H6 by done. by apply Hdep.
  - by rewrite H7.
  - by rewrite H8.
  - rewrite H9, G4. by rewrite <-app_assoc.
  - by rewrite H10.
  - intros _. destruct k as [|i k]; [|rewrite <-G3; by apply H11]. rewrite H9, app_nil_r, G4, length_app. unfold has_room in Hroom. simpl. lia.
  - lia.
Qed.

Lemma f1_loop_ok ids newly s all s' :
  engine_ok s -> fe_f1_locked s = false -> loop ids newly s = (Ok all, s') ->
  exists k, all = newly ++ k /\ f1_result ids k s s'.
Proof.
  revert newly s. induction ids as [|id ids IH]; intros newly s Hok Hl; cbn [f1_loop].
  { intros [= <- <-]. exists []. rewrite app_nil_r. split; [done|]. by apply f1_result_nil. }
  unfold mbind, M_bind. destruct (f1_check_eq id s Hok) as [[Hsome ->]|(Hnone & r & a' & Hj & Hok' & _ & Hart & ->)].
  { intros Hrun. destruct (IH newly s Hok Hl Hrun) as (k & -> & Hk). exists k. split; [done|].
    apply f1_result_skip with (a' := fe_analyzer s). by destruct s. }
  destruct (kc_is_final r) eqn:Ef.
  2: { intros Hrun. destruct (IH newly (set_analyzer a' s) Hok' Hl Hrun) as (k & -> & Hk). exists k. split; [done|].
       by eapply f1_result_skip. }
  destruct (refundable_dec (set_analyzer a' s) id) as [Href|(dp & Ed & Hs)].
  2: { destruct (finalize_f1_settled id r (set_analyzer a' s) dp Ed Hs) as [e ->]. done. }
  destruct (finalize_f1_ok id r (set_analyzer a' s) Hok' Href Hl) as (s1 & Hone & Hyes & Hno).
  destruct (decide (has_room (set_analyzer a' s))) as [Hroom|Hroom].
  - destruct (Hyes Hroom) as [-> Hl1]. intros Hrun.
    destruct (IH (newly ++ [id]) s1 (fo_ok _ _ _ _ Hone) Hl1 Hrun) as (k & -> & Hk). exists (id :: k). split; [by rewrite <-app_assoc|].
    eapply f1_result_one; [done|by apply Hart|exact Href|exact Hroom|exact Hone|exact Hk].
  - destruct (Hno Hroom) as (s'' & -> & _). done.
Qed.

(** The accumulator only collects. *)
Lemma f1_loop_acc ids newly s :
  loop ids newly s = match loop ids [] s with
                     | (Ok k, s') => (Ok (newly ++ k), s') | (Err e, s') => (Err e, s') | (Panic, s') => (Panic, s')
                     end.
Proof.
  revert newly s. induction ids as [|id ids IH]; intros newly s; cbn [f1_loop].
  { unfold mret, M_ret. by rewrite app_nil_r. }
  unfold mbind, M_bind. destruct (check_one id s) as [[[]|e|] s1]; [|by rewrite IH|done..].
  rewrite IH, (IH [id]). destruct (loop ids [] s1) as [[]]; [by rewrite <-app_assoc|done..].
Qed.

(** Not finalized yet, and final for the analyzer as it is. *)
Definition final_now s (id : MessageId) : Prop :=
  fe_finalized s !! id = None /\ exists r a', judged s id = Some (r, a') /\ kc_is_final r = true.

(** Message [id] is final when the loop over [ids] comes to one of its occurrences. *)
Definition final_in_turn (ids : list MessageId) s (id : MessageId) : Prop :=
  exists pre post k s1, ids = pre ++ id :: post /\ loop pre [] s = (Ok k, s1) /\ final_now s1 id.

Lemma final_in_turn_cons i ids s b s1 id :
  check_one i s = (Ok b, s1) ->
  final_in_turn (i :: ids) s id <-> (i = id /\ final_now s id) \/ final_in_turn ids s1 id.
Proof.
  intros Hc. assert (forall pre, exists f, loop (i :: pre) [] s =
    match loop pre [] s1 with (Ok k, s') => (Ok (f k), s') | (Err e, s') => (Err e, s') | (Panic, s') => (Panic, s') end) as Hl.
  { intros pre. cbn [f1_loop]. unfold mbind, M_bind. rewrite Hc. destruct b; [exists (app [i]); by rewrite f1_loop_acc|].
    exists (fun k => k). by destruct (loop pre [] s1) as [[]]. }
  split.
  - intros (pre & post & k & s2 & E & Hrun & Hf). destruct pre as [|j pre]; simpl in E; injection E as -> ->.
    + left. split; [done|]. by injection Hrun as _ <-.
    + right. destruct (Hl pre) as [f Hp]. rewrite Hp in Hrun. destruct (loop pre [] s1) as [[k1|e|] s3] eqn:El; try done.
      injection Hrun as _ ->. by exists pre, post, k1, s2.
  - intros [[<- Hf]|(pre & post & k & s2 & -> & Hrun & Hf)]; [by exists [], ids, [], s|].
    destruct (Hl pre) as [f Hp]. rewrite Hrun in Hp. by exists (i :: pre), post, (f k), s2.
Qed.

Lemma f1_loop_exact ids k s s' id :
  engine_ok s -> fe_f1_locked s = false -> loop ids [] s = (Ok k, s') -> id ∈ k <-> final_in_turn ids s id.
Proof.
  revert k s. induction ids as [|i ids IH]; intros k s Hok Hl Hrun.
  { injection Hrun as <- _. split; [by intros ?%elem_of_nil|]. intros (pre & post & ? & ? & E & _). by destruct pre. }
  cbn [f1_loop] in Hrun. unfold mbind, M_bind in Hrun.
  destruct (f1_check_eq i s Hok) as [[[a Hsome] Hc]|(Hnone & r & a' & Hj & Hok' & _ & _ & Hc)].
  { rewrite Hc in Hrun. rewrite (IH k s Hok Hl Hrun), (final_in_turn_cons _ _ _ _ _ _ Hc). unfold final_now. naive_solver congruence. }
  assert (final_now s i <-> kc_is_final r = true) as Hnow by (unfold final_now; rewrite Hj; naive_solver).
  destruct (kc_is_final r) eqn:Ef.
  2: { rewrite Hc in Hrun. rewrite (IH k _ Hok' Hl Hrun), (final_in_turn_cons _ _ _ _ _ _ Hc). naive_solver. }
  destruct (refundable_dec (set_analyzer a' s) i) as [Href|(dp & Ed & Hs)].
  2: { destruct (finalize_f1_settled i r (set_analyzer a' s) dp Ed Hs) as [e He]. rewrite He in Hc. by rewrite Hc in Hrun. }
  destruct (finalize_f1_ok i r (set_analyzer a' s) Hok' Href Hl) as (s1 & Hone & Hyes & Hno).
  destruct (decide (has_room (set_analyzer a' s))) as [Hroom|Hroom].
  2: { destruct (Hno Hroom) as (s'' & He & _). rewrite He in Hc. by rewrite Hc in Hrun. }
  destruct (Hyes Hroom) as [He Hl1]. rewrite He in Hc. rewrite Hc, f1_loop_acc in Hrun.
  destruct (loop ids [] s1) as [[k1|e|] s2] eqn:El; try done. injection Hrun as <- ->.
  rewrite (final_in_turn_cons _ _ _ _ _ _ Hc), <-(IH k1 s1 (fo_ok _ _ _ _ Hone) Hl1 El). simpl. rewrite elem_of_cons. naive_solver.
Qed.

(** With room for a checkpoint and no settled deposit in the queue, the loop goes through. *)
Lemma f1_loop_total ids s :
  engine_ok s -> fe_f1_locked s = false -> (forall id, id ∈ ids -> fe_finalized s !! id = None -> refundable s id) ->
  Z.of_nat (length (fe_f1_finalized s) + length ids) < checkpoint_interval (fe_config s) ->
  exists k s', loop ids [] s = (Ok k, s').
Proof.
  revert s. induction ids as [|i ids IH]; intros s Hok Hl Href Hroom; [by eexists _, _|].
  cbn [f1_loop length] in *. unfold mbind, M_bind.
  destruct (f1_check_eq i s Hok) as [[_ ->]|(Hnone & r & a' & Hj & Hok' & _ & _ & ->)].
  { apply IH; [done|done|set_solver|lia]. }
  destruct (kc_is_final r) eqn:Ef; [|apply IH; [done|done|simpl; set_solver|simpl; lia]].
  destruct (finalize_f1_ok i r (set_analyzer a' s) Hok') as (s1 & Hone & Hyes & _); [apply (Href i); [set_solver|done]|done|].
  destruct Hyes as [-> Hl1]; [unfold has_room; simpl; lia|]. rewrite f1_loop_acc.
  destruct Hone as [G1 _ G3 G4 _ _ G7 Hok1]. simpl in *.
  destruct (IH s1 Hok1 Hl1) as (k & s' & ->); [..|by eexists _, _].
  - intros j Hj' Hn. rewrite G1 in Hn. apply lookup_insert_None in Hn as [Hn Hne]. intros d Hd. rewrite G7 in Hd.
    unfold after_refund in Hd. simpl in Hd. apply (Href j); [by right|done|].
    destruct (dm_deposits (deps s) !! i); [by rewrite lookup_insert_ne in Hd|done].
  - rewrite G4, G3, length_app. simpl. lia.
Qed.

(** ** The F1 check as a whole *)

Definition f1_only (c : FinalityConfig) : Prop := f1_enabled c = true /\ f2_enabled c = false.
Definition left_pending (newly pending : list MessageId) : list MessageId :=
  List.filter (fun id => negb (bool_decide (id ∈ newly))) pending.

Lemma check_f1_only s :
  f1_only (fe_config s) ->
  check s = match loop (fe_pending s) [] s with
            | (Ok k, s') => (Ok k, if bool_decide (k = []) then s' else set_pending (left_pending k (fe_pending s')) s')
            | (Err e, s') => (Err e, s') | (Panic, s') => (Panic, s')
            end.
Proof.
  intros [H1 H2]. unfold engine_check_finality, check_f1, retain_pending, mwhen, mbind, M_bind, mread. rewrite H2, H1.
  destruct (loop (fe_pending s) [] s) as [[k|e|] s1]; [|done..]. by destruct (bool_decide (k = [])).
Qed.

Lemma left_pending_nil l : left_pending [] l = l.
Proof. unfold left_pending. induction l as [|x l IH]; [done|]. cbn [List.filter]. rewrite bool_decide_false by (intros ?%elem_of_nil; done). exact (f_equal (cons x) IH). Qed.

(** Where the loop stops: at a final message whose deposit is settled already, or that fills the checkpoint. *)
Definition stops_at s (id : MessageId) (e : FinalityFault) s' : Prop :=
  final_now s id /\ fe_pending s' = fe_pending s /\
  ((exists d x, dm_deposits (deps s) !! id = Some d /\ dp_status d <> Escrowed /\ e = FDeposit x /\
      fe_finalized s' = fe_finalized s /\ deps s' = deps s) \/
   (refundable s id /\ ~ has_room s /\ e = FBlocked /\ is_Some (fe_finalized s' !! id) /\ fe_f1_locked s' = true)).

Lemma f1_loop_stops ids s :
  engine_ok s -> fe_f1_locked s = false ->
  exists seen rest k s1, ids = seen ++ rest /\ loop seen [] s = (Ok k, s1) /\ f1_result seen k s s1 /\
    match rest with
    | [] => True
    | id :: _ => exists e s', loop ids [] s = (Err e, s') /\ stops_at s1 id e s'
    end.
Proof.
  revert s. induction ids as [|i ids IH]; intros s Hok Hl; [exists [], [], [], s; split_and!; [done|done|by apply f1_result_nil|done]|].
  assert (forall b s2 (f : list MessageId -> list MessageId), check_one i s = (Ok b, s2) -> f = (if b then cons i else fun k => k) ->
    engine_ok s2 -> fe_f1_locked s2 = false -> (forall seen k s', f1_result seen k s2 s' -> f1_result (i :: seen) (f k) s s') ->
    exists seen rest k s1, i :: ids = seen ++ rest /\ loop seen [] s = (Ok k, s1) /\ f1_result seen k s s1 /\
      match rest with
      | [] => True
      | id :: _ => exists e s', loop (i :: ids) [] s = (Err e, s') /\ stops_at s1 id e s'
      end) as Hgo.
  { intros b s2 f Hc -> Hok2 Hl2 Hres. destruct (IH s2 Hok2 Hl2) as (seen & rest & k & s1 & -> & Hrun & Hk & Hrest).
    exists (i :: seen), rest, ((if b then cons i else fun k => k) k), s1. split; [done|]. cbn [f1_loop]. unfold mbind, M_bind. rewrite Hc.
    split; [destruct b; rewrite f1_loop_acc, Hrun; done|]. split; [by apply Hres|]. destruct rest as [|id rest]; [done|].
    destruct Hrest as (e & s' & He & Hs). exists e, s'. split; [|done]. rewrite f1_loop_acc, He. by destruct b. }
  assert (forall e s', check_one i s = (Err e, s') -> stops_at s i e s' ->
    exists seen rest k s1, i :: ids = seen ++ rest /\ loop seen [] s = (Ok k, s1) /\ f1_result seen k s s1 /\
      match rest with
      | [] => True
      | id :: _ => exists e s', loop (i :: ids) [] s = (Err e, s') /\ stops_at s1 id e s'
      end) as Hstop.
  { intros e s' Hc Hs. exists [], (i :: ids), [], s. split; [done|]. split; [done|]. split; [by apply f1_result_nil|].
    exists e, s'. split; [|done]. cbn [f1_loop]. unfold mbind, M_bind. by rewrite Hc. }
  destruct (f1_check_eq i s Hok) as [[_ Hc]|(Hnone & r & a' & Hj & Hok' & Hagain & Hart & Hc)].
  { apply (Hgo false s (fun k => k) Hc eq_refl Hok Hl). intros seen k s' H. apply (f1_result_skip i seen k s (fe_analyzer s)). by destruct s. }
  destruct (kc_is_final r) eqn:Ef.
  2: { apply (Hgo false (set_analyzer a' s) (fun k => k) Hc eq_refl Hok' Hl). intros seen k s'. apply f1_result_skip. }
  assert (final_now s i) as Hfin by (split; [done|]; by exists r, a').
  destruct (refundable_dec (set_analyzer a' s) i) as [Href|(dp & Ed & Hs)].
  - destruct (finalize_f1_ok i r (set_analyzer a' s) Hok' Href Hl) as (s1 & Hone & Hyes & Hno).
    destruct (decide (has_room (set_analyzer a' s))) as [Hroom|Hroom].
    + destruct (Hyes Hroom) as [Hf1 Hl1]. rewrite Hf1 in Hc. apply (Hgo true s1 (cons i) Hc eq_refl (fo_ok _ _ _ _ Hone) Hl1).
      intros seen k s' H. eapply f1_result_one; [done|by apply Hart|exact Href|exact Hroom|exact Hone|exact H].
    + destruct (Hno Hroom) as (s'' & Hf1 & Hfz & Hp & Hlk). rewrite Hf1 in Hc. apply (Hstop FBlocked s'' Hc).
      split; [done|]. split; [done|]. right. split; [done|]. split; [done|]. split; [done|]. split; [|done].
      rewrite Hfz, (fo_finalized _ _ _ _ Hone), lookup_insert_eq. by eexists.
  - destruct (finalize_f1_settled i r (set_analyzer a' s) dp Ed Hs) as [e He]. rewrite He in Hc. apply (Hstop (FDeposit e) _ Hc).
    destruct (noted_ok i r (set_analyzer a' s)) as (Hq & _ & _ & Hcons). split; [done|]. split; [by rewrite (sq_pending _ _ Hq)|].
    left. exists dp, e. split_and!; [done|done|done|by rewrite (sq_finalized _ _ Hq)|by rewrite Hcons].
Qed.

(** C5: With F1 alone and its lock free, a check goes through the queue in order.  Of the messages it has
    [seen], exactly those that are final when their turn comes are finalized, each once: they get an
    artifact of the F1 gate, valid for the configured parameters, their deposit goes from escrowed to
    refunded, and no other message is finalized and no other deposit touched.  When it has seen all it
    returns them and takes them out of the queue.  It stops before that exactly at a final message whose
    deposit was settled already, which makes it an error, or that fills the checkpoint, which blocks it; then
    the queue stays as it is.  Without such messages it comes to the end. *)
Theorem finality_check_correct s :
  engine_ok s -> fe_f1_locked s = false -> f1_only (fe_config s) ->
  exists seen rest newly s1, fe_pending s = seen ++ rest /\
    (forall id, id ∈ newly <-> final_in_turn seen s id) /\ f1_result seen newly s s1 /\
    match rest with
    | [] => check s = (Ok newly, set_pending (left_pending newly (fe_pending s)) s1)
    | id :: _ => exists e s', check s = (Err e, s') /\ stops_at s1 id e s'
    end /\
    ((forall id, id ∈ fe_pending s -> fe_finalized s !! id = None -> refundable s id) ->
     Z.of_nat (length (fe_f1_finalized s) + length (fe_pending s)) < checkpoint_interval (fe_config s) -> rest = []).
Proof.
  intros Hok Hl Hf. destruct (f1_loop_stops (fe_pending s) s Hok Hl) as (seen & rest & k & s1 & Hp & Hrun & Hres & Hrest).
  exists seen, rest, k, s1. split; [done|]. split; [intros id; by apply (f1_loop_exact _ _ _ s1)|]. split; [done|].
  assert (forall id rest', rest = id :: rest' -> exists e s', loop (fe_pending s) [] s = (Err e, s') /\ stops_at s1 id e s') as Hs
    by (intros id rest' ->; exact Hrest).
  split.
  - rewrite (check_f1_only s Hf). destruct rest as [|id rest].
    + rewrite app_nil_r in Hp. rewrite Hp, Hrun, (fr_pending _ _ _ _ Hres). case_bool_decide as E; [|by rewrite Hp]. subst k.
      rewrite left_pending_nil, <-Hp, <-(fr_pending _ _ _ _ Hres). by destruct s1.
    + destruct (Hs id rest eq_refl) as (e & s' & He & Hst). exists e, s'. by rewrite He.
  - intros Href Hroom. destruct (f1_loop_total (fe_pending s) s Hok Hl Href Hroom) as (k' & s' & Hall).
    destruct rest as [|id rest]; [done|]. destruct (Hs id rest eq_refl) as (e & s'' & He & _). congruence.
Qed.

(** A final message at the head of the queue whose deposit was slashed or refunded already. *)
Definition stuck_head s (id : MessageId) : Prop :=
  f1_only (fe_config s) /\ engine_ok s /\ (exists rest, fe_pending s = id :: rest) /\ final_now s id /\
  exists dp, dm_deposits (deps s) !! id = Some dp /\ dp_status dp <> Escrowed.

Lemma check_stuck s id :
  stuck_head s id ->
  exists e s', check s = (Err (FDeposit e), s') /\ stuck_head s' id /\ fe_pending s' = fe_pending s /\
    fe_finalized s' = fe_finalized s.
Proof.
  intros (Hf & Hok & [rest Ep] & [Hn (r & a & Hj & Hr)] & dp & Ed & Hs). rewrite (check_f1_only s Hf), Ep. cbn [f1_loop].
  unfold mbind, M_bind. destruct (f1_check_eq id s Hok) as [[[? Hsome] _]|(_ & r' & a' & Hj' & Hok' & Hagain & _ & ->)]; [congruence|].
  rewrite Hj in Hj'. injection Hj' as <- <-. rewrite Hr.
  destruct (finalize_f1_settled id r (set_analyzer a s) dp Ed Hs) as [e ->].
  destruct (noted_ok id r (set_analyzer a s)) as (Hq & Hnok & _ & Hc). pose proof Hq as [Q1 Q2 Q3 Q4 _ _ _ Q8].
  exists e, (noted id r (set_analyzer a s)). split; [done|]. split; [|by rewrite Q3, Q4]. split; [by rewrite Q1|]. split; [by apply Hnok|].
  split; [exists rest; by rewrite Q3|]. split; [|exists dp; by rewrite Hc].
  split; [by rewrite Q4|]. exists r, a. split; [|done]. unfold judged. rewrite Q2, Q8, Hc. exact Hagain.
Qed.

(** A final message whose deposit is no longer escrowed blocks the queue: when it is the first
    pending message, every check from then on returns the deposit error, and the queue and the
    finalized messages stay as they are, whatever follows it in the queue. *)
Theorem settled_deposit_stalls_queue s id n :
  stuck_head s id ->
  let s' := Nat.iter n (fun s => (check s).2) s in
  (exists e, (check s').1 = Err (FDeposit e)) /\ fe_pending s' = fe_pending s /\ fe_finalized s' = fe_finalized s.
Proof.
  intros Hs. cbv zeta. set (s' := Nat.iter n _ s).
  assert (stuck_head s' id /\ fe_pending s' = fe_pending s /\ fe_finalized s' = fe_finalized s) as (Hs' & E1 & E2).
  { subst s'. induction n as [|n (IH1 & IH2 & IH3)]; [done|]. rewrite Nat.iter_succ.
    destruct (check_stuck _ id IH1) as (e & s'' & -> & Hs'' & E1 & E2). simpl. split_and!; [done|congruence..]. }
  split; [|done]. destruct (check_stuck s' id Hs') as (e & s'' & -> & _). by exists e.
Qed.

(** The depth the epochs are counted from only grows, and so does the epoch. *)
Lemma current_epoch_mono s s' :
  fe_depth_star s' = fe_depth_star s -> 0 <= fe_depth_star s -> fe_max_depth s <= fe_max_depth s' ->
  current_epoch s <= current_epoch s'.
Proof.
  intros E H Hle. unfold current_epoch. rewrite E. destruct (fe_depth_star s =? 0) eqn:Ez; zbool; [done|]. apply Z.div_le_mono; lia.
Qed.

Lemma pending_window id s :
  (length (fe_pending (finality_add_message id s).2) <= Nat.max (window_size (fe_config s)) 0)%nat /\
  exists dropped, fe_pending s ++ [id] = dropped ++ fe_pending (finality_add_message id s).2.
Proof.
  unfold finality_add_message, mwrite, push_window. simpl. split.
  - rewrite length_drop, length_app. simpl. lia.
  - exists (take (length (fe_pending s ++ [id]) - window_size (fe_config s)) (fe_pending s ++ [id])). by rewrite take_drop.
Qed.
End facts.

(** ** A small engine *)

(** Messages 1, 2 and 3 in a chain; the deposit of message 1, from Alice, is escrowed. *)
Definition one : MessageId := replicate 32 1.
Definition small_config : FinalityConfig := mkFinalityConfig 1 2 0 f64_zero 1000 1000 false 2000 true (f64_lit 1 10) 100.
Definition one_deposit : DepositManager MemoryStorage :=
  (escrow 0 key_is_address one alice (with_balance_manager 40 alice_manager)).2.
Definition one_consensus : ConsensusEngine MemoryStorage := with_deposits one_deposit (consensus_new params_default).
Definition queued (c : ConsensusEngine MemoryStorage) (ids : list MessageId) : FinalityEngine MemoryStorage :=
  foldl (fun s id => (finality_add_message id s).2) (finality_new small_config c chain3) ids.
Definition no_json {A} (_ : A) : option Bytes := None.
Definition no_time {A} (_ : A) : Z := 0.

Abbreviation small_check := (engine_check_finality map_to_list elements map_to_list map_to_list map_to_list 100 no_time no_time
  key_is_address key_is_address no_json no_json).

Lemma chain3_reachable : dag_reachable zero_millis chain3.
Proof.
  unfold chain3, chain2. cbn [foldl].
  do 3 (apply dag_step; [|split; [apply (bool_decide_unpack _); vm_compute; exact I|vm_compute; reflexivity]]).
  apply dag_empty.
Qed.

Lemma one_deposit_reachable : deposits_reachable no_digest key_is_address one_deposit.
Proof.
  exists (with_balance_manager 40 alice_manager). split.
  - exists 40, alice_manager. split; [done|]. split; [apply alice_coherent|]. split; [|done].
    intros a. unfold held, alice_manager. cbn [bm_cache].
    destruct (decide (alice = a)) as [<-|Hne]; [by vm_compute|by rewrite lookup_singleton_ne].
  - eapply rtc_l; [eapply (step_escrow _ _ 0 one alice); [reflexivity|by vm_compute]|]. apply rtc_refl.
Qed.

Lemma queued_ok c ids :
  deposits_reachable no_digest key_is_address (ce_deposits c) -> engine_ok key_is_address (queued c ids) /\
  fe_f1_locked (queued c ids) = false /\ f1_only (fe_config (queued c ids)).
Proof.
  intros Hr. destruct (deposits_reachable_ok _ _ _ Hr) as [Hok Hb]. unfold queued.
  assert (engine_ok key_is_address (finality_new small_config c chain3)) as H0.
  { split; [apply (dag_reachable_ok _ _ chain3_reachable)|by split_and!|done|done]. }
  generalize (finality_new small_config c chain3) as s, H0, (eq_refl : fe_f1_locked (finality_new small_config c chain3) = false),
    (conj eq_refl eq_refl : f1_only (fe_config (finality_new small_config c chain3))).
  induction ids as [|id ids IH]; intros s Hs Hl Hf; [done|]. apply IH; [by destruct Hs|done..].
Qed.

Definition two : MessageId := replicate 32 2.

(** Of messages 1 and 2 only the first is deep enough: it is finalized, its deposit refunded. *)
Lemma finality_check_correct_witness :
  let s := queued one_consensus [one; two] in
  (small_check s).1 = Ok [one] /\ fe_pending (small_check s).2 = [two] /\
  dp_status <$> dm_deposits (ce_deposits (fe_consensus (small_check s).2)) !! one = Some Refunded /\
  exists newly s1, small_check s = (Ok newly, set_pending (left_pending newly [one; two]) s1).
Proof.
  cbv zeta. split_and!; [vm_compute; reflexivity..|].
  destruct (queued_ok one_consensus [one; two] one_deposit_reachable) as (Hok & Hl & Hf).
  destruct (finality_check_correct map_to_list elements map_to_list map_to_list map_to_list 100 no_time no_time no_digest
    key_is_address key_is_address no_json no_json (fun m => Permutation_refl _) (queued one_consensus [one; two]) Hok Hl Hf)
    as (seen & rest & newly & s1 & _ & _ & _ & H & Hall).
  rewrite Hall in H; [by exists newly, s1| |vm_compute; reflexivity].
  intros id _ _ d Hd. revert Hd. change (dm_deposits _) with (dm_deposits one_deposit).
  destruct (dm_deposits one_deposit !! id) as [d'|] eqn:E; [|done]. intros [= <-].
  assert (map_Forall (fun _ d => dp_status d = Escrowed) (dm_deposits one_deposit)) as Hesc
    by (apply (bool_decide_unpack _); vm_compute; exact I).
  by apply (Hesc id).
Defined.

(** Message 1 has been slashed before it became final. *)
Definition slashed_consensus : ConsensusEngine MemoryStorage :=
  with_deposits (slash 100 no_digest key_is_address one one_deposit).2 (consensus_new params_default).

Lemma slashed_reachable : deposits_reachable no_digest key_is_address (ce_deposits slashed_consensus).
Proof.
  destruct one_deposit_reachable as (dm0 & H0 & Hr). exists dm0. split; [done|].
  eapply rtc_r; [exact Hr|]. apply step_slash. vm_compute. reflexivity.
Qed.

Lemma settled_deposit_stalls_queue_witness :
  let s := queued slashed_consensus [one; two] in
  let s' := Nat.iter 5 (fun s => (small_check s).2) s in
  (exists e, (small_check s').1 = Err (FDeposit e)) /\ fe_pending s' = fe_pending s /\ fe_finalized s' = fe_finalized s.
Proof.
  cbv zeta. apply (settled_deposit_stalls_queue map_to_list elements map_to_list map_to_list map_to_list 100 no_time no_time no_digest
    key_is_address key_is_address no_json no_json (fun m => Permutation_refl _) (queued slashed_consensus [one; two]) one 5).
  destruct (queued_ok slashed_consensus [one; two] slashed_reachable) as (Hok & _ & Hf).
  split; [exact Hf|]. split; [exact Hok|]. split; [exists [two]; vm_compute; reflexivity|]. split.
  - split; [vm_compute; reflexivity|].
    destruct (judged map_to_list elements (queued slashed_consensus [one; two]) one) as [[r a]|] eqn:E.
    + exists r, a. split; [reflexivity|].
      assert (kc_is_final ∘ fst <$> judged map_to_list elements (queued slashed_consensus [one; two]) one = Some true) as H
        by (vm_compute; reflexivity).
      rewrite E in H. injection H as H. exact H.
    + assert (is_Some (judged map_to_list elements (queued slashed_consensus [one; two]) one)) as [x H]
        by (apply (bool_decide_unpack _); vm_compute; exact I).
      rewrite E in H. discriminate H.
  - destruct (dm_deposits (ce_deposits (fe_consensus (queued slashed_consensus [one; two]))) !! one) as [dp|] eqn:E.
    + exists dp. split; [reflexivity|]. intros Hs.
      assert (dp_status <$> dm_deposits (ce_deposits (fe_consensus (queued slashed_consensus [one; two]))) !! one = Some Slashed) as H
        by (vm_compute; reflexivity).
      rewrite E in H. injection H as H. rewrite Hs in H. discriminate H.
    + assert (is_Some (dm_deposits (ce_deposits (fe_consensus (queued slashed_consensus [one; two]))) !! one)) as [x H]
        by (apply (bool_decide_unpack _); vm_compute; exact I).
      rewrite E in H. discriminate H.
Defined.

Lemma governance_finality_unreachable_witness :
  let s := (small_check (queued one_consensus [one; two])).2 in
  is_Some (fe_finalized s !! one) /\ is_governance_finalized s one = false.
Proof.
  cbv zeta. split; [apply (bool_decide_unpack _); vm_compute; exact I|].
  apply (governance_finality_unreachable map_to_list elements map_to_list map_to_list map_to_list 100 no_time no_time
    key_is_address key_is_address no_json no_json small_config one_consensus chain3).
  eapply rtc_l; [apply es_add with (id := one)|].
  eapply rtc_l; [apply es_add with (id := two)|].
  eapply rtc_l; [apply es_check|]. apply rtc_refl.
Defined.

Lemma checkpoint_deadlock_witness :
  let s := set_tracking [] (replicate 99 two) [] 0 false (queued one_consensus []) in
  let (r, s') := track_f1_finalized map_to_list 100 key_is_address no_json one s in
  r = Err FBlocked /\ fe_checkpoints s' = fe_checkpoints s /\
  (forall id', (track_f1_finalized map_to_list 100 key_is_address no_json id' s').1 = Err FBlocked) /\
  (create_checkpoint map_to_list 100 key_is_address no_json s').1 = Err FBlocked /\
  fe_checkpoints (create_checkpoint map_to_list 100 key_is_address no_json s').2 = fe_checkpoints s.
Proof.
  exact (checkpoint_deadlock map_to_list 100 key_is_address no_json one
    (set_tracking [] (replicate 99 two) [] 0 false (queued one_consensus [])) eq_refl ltac:(vm_compute; discriminate)).
Defined.
