(* ===== verification/ParamStore.v ===== *)
(** * The governed parameters

    [adic-app-common/src/parameter_store.rs]: the store of the network's parameters, their
    validation rules, the change a governance proposal makes, and the [AdicParams] that the
    engines are reloaded with.

    A value is a [serde_json::Value], a type of another crate: the class [Json] has the accessors
    and constructors the store uses, [JsonLaws] what their documentation says of them.  A change
    sent to the broadcast channel is an entry of [sent].  Reading and writing the file is left
    out; what [load_from_file] does with the values it has parsed is [load_values]. *)

From S2P Require Import Prelude F64 Padic Message Admissibility.

Class Json (V : Type) := {
  as_u64 : V -> option Z;
  as_f64 : V -> option f64;
  as_array : V -> option (list V);
  as_object : V -> option (gmap string V);
  value_eqb : V -> V -> bool;
  json_u64 : Z -> V;
  json_f64 : f64 -> V;
  json_array : list V -> V;
}.

(** An integer reads as [u64] and as [f64], a finite float as [f64] only, an array as an array.
    Whatever reads as [u64] reads as the same number as [f64]. *)
Class JsonLaws (V : Type) `{!Json V} := {
  u64_u64 n : is_u64 n -> as_u64 (json_u64 n) = Some n;
  u64_f64 n : is_u64 n -> as_f64 (json_u64 n) = Some (f64_of_Z n);
  f64_u64 x : as_u64 (json_f64 x) = None;
  f64_f64 x : is_finite x = true -> as_f64 (json_f64 x) = Some x;
  array_array l : as_array (json_array l) = Some l;
  u64_as_f64 v n : as_u64 v = Some n -> as_f64 v = Some (f64_of_Z n) /\ is_u64 n;
  value_eqb_eq a b : value_eqb a b = true <-> a = b;
}.

Inductive ParamType := TU8 | TU32 | TF64 | TVecU8.
Inductive GovernanceClass := ClassConstitutional | ClassOperational.
#[export] Instance GovernanceClass_eq_dec : EqDecision GovernanceClass.
Proof. solve_decision. Defined.

Inductive ValidationRule (V : Type) :=
  | InSet (allowed : list V)
  | Range (lo hi : V)
  | GreaterThanOrEqual (lo : V)
  | Custom (func : string)
  | NoRule.
Arguments InSet {V}.
Arguments Range {V}.
Arguments GreaterThanOrEqual {V}.
Arguments Custom {V}.
Arguments NoRule {V}.

Record ParameterMetadata (V : Type) := mkParamMeta {
  pm_key : string;
  pm_type : ParamType;
  pm_class : GovernanceClass;
  pm_default : V;
  pm_rule : ValidationRule V;
  pm_description : string;
}.
Arguments mkParamMeta {V}.
Arguments pm_key {V}.
Arguments pm_type {V}.
Arguments pm_class {V}.
Arguments pm_default {V}.
Arguments pm_rule {V}.
Arguments pm_description {V}.

Record ParameterChange (V : Type) := mkParamChange {
  pc_key : string;
  pc_old : V;
  pc_new : V;
  pc_epoch : Z;
  pc_proposal : option Bytes;
}.
Arguments mkParamChange {V}.
Arguments pc_key {V}.
Arguments pc_old {V}.
Arguments pc_new {V}.
Arguments pc_epoch {V}.
Arguments pc_proposal {V}.

Record ParameterStore (V : Type) := mkParamStore {
  ps_values : gmap string V;
  ps_metadata : gmap string (ParameterMetadata V);
  ps_sent : list (ParameterChange V);
  ps_epoch : Z;
}.
Arguments mkParamStore {V}.
Arguments ps_values {V}.
Arguments ps_metadata {V}.
Arguments ps_sent {V}.
Arguments ps_epoch {V}.

Inductive InvalidReason :=
  | NotInSet
  | OutOfRange
  | TooSmall
  | NotAnArray
  | WrongLength (d : Z)
  | EntryTooSmall (i : nat)
  | NotANumber
  | ThresholdOutside (lo hi : Z)
  | AboveReplication (r : Z).

Inductive ParamError :=
  | ParameterNotFound (key : string)
  | ParameterValidationFailed (key : string) (reason : InvalidReason).

Section store.
Context {V : Type} `{!Json V}.
Abbreviation PS := (ParameterStore V).
Abbreviation PM := (M PS ParamError).

(** ** The table of parameters *)

Definition register_param (st : gmap string V * gmap string (ParameterMetadata V)) (m : ParameterMetadata V)
    : gmap string V * gmap string (ParameterMetadata V) :=
  (<[pm_key m := pm_default m]> st.1, <[pm_key m := m]> st.2).

Definition json_float (n : Z) : V := json_f64 (f64_of_Z n).

Definition default_parameters : list (ParameterMetadata V) :=
  [ mkParamMeta "p" TU8 ClassConstitutional (json_u64 3) (InSet [json_u64 3; json_u64 5; json_u64 7])
      "Prime base for p-adic valuation";
    mkParamMeta "d" TU8 ClassConstitutional (json_u64 3) (InSet [json_u64 3; json_u64 4])
      "Dimension of p-adic feature space";
    mkParamMeta "rho" TVecU8 ClassConstitutional (json_array [json_u64 2; json_u64 2; json_u64 1]) (Custom "validate_rho")
      "Axis radii (must be length d, all >=1)";
    mkParamMeta "q" TU8 ClassConstitutional (json_u64 3) (Range (json_u64 2) (json_u64 5))
      "Diversity requirement (distinct balls per axis)";
    mkParamMeta "k" TU32 ClassOperational (json_u64 20) (GreaterThanOrEqual (json_u64 1)) "k-core threshold for F1 finality";
    mkParamMeta "D" TU32 ClassOperational (json_u64 12) (GreaterThanOrEqual (json_u64 1)) "Depth threshold for F1 finality";
    mkParamMeta "Delta" TU32 ClassOperational (json_u64 5) (GreaterThanOrEqual (json_u64 1))
      "Window size for finality stabilization";
    mkParamMeta "lambda" TF64 ClassOperational (json_float 1) (GreaterThanOrEqual (json_float 0)) "MRW proximity weight";
    mkParamMeta "mu" TF64 ClassOperational (json_float 1) (GreaterThanOrEqual (json_float 0)) "MRW trust weight";
    mkParamMeta "alpha" TF64 ClassOperational (json_float 1) (GreaterThanOrEqual (json_float 0)) "MRW proximity exponent";
    mkParamMeta "beta" TF64 ClassOperational (json_float 1) (GreaterThanOrEqual (json_float 0)) "MRW trust exponent";
    mkParamMeta "Rmin" TF64 ClassOperational (json_float 50) (GreaterThanOrEqual (json_float 0))
      "Minimum reputation for message submission";
    mkParamMeta "rmin" TF64 ClassOperational (json_float 10) (GreaterThanOrEqual (json_float 0))
      "Minimum reputation weight for parents";
    mkParamMeta "m" TU32 ClassOperational (json_u64 64) (GreaterThanOrEqual (json_u64 1)) "Quorum committee size";
    mkParamMeta "t_bls" TU32 ClassOperational (json_u64 43) (Custom "validate_t_bls")
      "BLS threshold (must be >= m/2 rounded up, <= m)";
    mkParamMeta "replication_r" TU32 ClassOperational (json_u64 5) (GreaterThanOrEqual (json_u64 1)) "Storage replication factor";
    mkParamMeta "replication_t" TU32 ClassOperational (json_u64 4) (Custom "validate_replication_t")
      "Storage retrieval threshold (must be <= r)";
    mkParamMeta "challenge_depth" TU32 ClassOperational (json_u64 5) (GreaterThanOrEqual (json_u64 1))
      "Challenge window depth in epochs";
    mkParamMeta "T_enact" TF64 ClassOperational (json_float 1000) (GreaterThanOrEqual (json_float 0))
      "Timelock duration for governance enactment (seconds)";
    mkParamMeta "Rmax" TF64 ClassOperational (json_float 100000) (GreaterThanOrEqual (json_float 1))
      "Maximum reputation cap for voting credits" ].

Definition register_default_parameters : gmap string V * gmap string (ParameterMetadata V) :=
  foldl register_param (∅, ∅) default_parameters.

Definition store_new : PS :=
  let (values, metadata) := register_default_parameters in mkParamStore values metadata [] 0.

(** ** Reading *)

Definition get (s : PS) (key : string) : option V := ps_values s !! key.
Definition get_epoch (s : PS) : Z := ps_epoch s.
Definition get_all (s : PS) : gmap string V := ps_values s.
Definition get_param_metadata (s : PS) (key : string) : option (ParameterMetadata V) := ps_metadata s !! key.
Definition get_by_class (s : PS) (c : GovernanceClass) : list (ParameterMetadata V) :=
  filter (fun m => pm_class m = c) (map_to_list (ps_metadata s)).*2.

(** The value under a key, through an accessor. *)
Definition get_as {A} (acc : V -> option A) (s : PS) (key : string) : result ParamError A :=
  result_of_option (get s key ≫= acc) (ParameterNotFound key).
Definition get_u8 : PS -> string -> result ParamError Z := get_as (fun v => to_u8 <$> as_u64 v).
Definition get_u32 : PS -> string -> result ParamError Z := get_as (fun v => to_u32 <$> as_u64 v).
Definition get_u64 : PS -> string -> result ParamError Z := get_as as_u64.
Definition get_f64 : PS -> string -> result ParamError f64 := get_as as_f64.
Definition get_vec_u8 : PS -> string -> result ParamError (list Z) :=
  get_as (fun v => (fun l : list V => omap (fun item => to_u8 <$> as_u64 item) l) <$> as_array v).
Definition get_vec_u32 : PS -> string -> result ParamError (list Z) :=
  get_as (fun v => (fun l : list V => omap (fun item => to_u32 <$> as_u64 item) l) <$> as_array v).

(** [get_u64(key).await.unwrap_or(default)]. *)
Definition u64_or (s : PS) (key : string) (dflt : Z) : Z := match get_u64 s key with Ok n => n | _ => dflt end.

(** ** Validation *)

Definition value_in_range (v lo hi : V) : bool :=
  match as_f64 v, as_f64 lo, as_f64 hi with
  | Some x, Some l, Some h => f64_geb x l && f64_leb x h
  | _, _, _ =>
      match as_u64 v, as_u64 lo, as_u64 hi with
      | Some x, Some l, Some h => (l <=? x) && (x <=? h)
      | _, _, _ => false
      end
  end.

Definition value_gte (v lo : V) : bool :=
  match as_f64 v, as_f64 lo with
  | Some x, Some l => f64_geb x l
  | _, _ =>
      match as_u64 v, as_u64 lo with
      | Some x, Some l => l <=? x
      | _, _ => false
      end
  end.

(** The first entry of [rho] that is not a positive integer. *)
Fixpoint bad_entry (i : nat) (l : list V) : option nat :=
  match l with
  | [] => None
  | v :: l => if (match as_u64 v with Some n => n <? 1 | None => true end) then Some i else bad_entry (S i) l
  end.

Definition validate_custom (s : PS) (key : string) (v : V) (func : string) : result ParamError unit :=
  let failed r := ParameterValidationFailed key r in
  if bool_decide (func = "validate_rho"%string) then
    let? arr := result_of_option (as_array v) (failed NotAnArray) in
    let d := u64_or s "d" 3 in
    if negb (Z.of_nat (length arr) =? d) then Err (failed (WrongLength d))
    else match bad_entry 0 arr with Some i => Err (failed (EntryTooSmall i)) | None => Ok tt end
  else if bool_decide (func = "validate_t_bls"%string) then
    let? t := result_of_option (as_u64 v) (failed NotANumber) in
    let m := u64_or s "m" 64 in
    let min_threshold := to_u64 (m + 1) / 2 in
    if (t <? min_threshold) || (m <? t) then Err (failed (ThresholdOutside min_threshold m)) else Ok tt
  else if bool_decide (func = "validate_replication_t"%string) then
    let? t := result_of_option (as_u64 v) (failed NotANumber) in
    let r := u64_or s "replication_r" 5 in
    if r <? t then Err (failed (AboveReplication r)) else Ok tt
  else Ok tt.

Definition validate_value (s : PS) (key : string) (v : V) (rule : ValidationRule V) : result ParamError unit :=
  match rule with
  | InSet allowed => if existsb (value_eqb v) allowed then Ok tt else Err (ParameterValidationFailed key NotInSet)
  | Range lo hi => if value_in_range v lo hi then Ok tt else Err (ParameterValidationFailed key OutOfRange)
  | GreaterThanOrEqual lo => if value_gte v lo then Ok tt else Err (ParameterValidationFailed key TooSmall)
  | Custom func => validate_custom s key v func
  | NoRule => Ok tt
  end.

(** ** Changing *)

Definition set_epoch (epoch : Z) : PM unit :=
  mwrite (fun s => mkParamStore (ps_values s) (ps_metadata s) (ps_sent s) epoch).

Definition apply_governance_change (key : string) (new_value : V) (proposal_id : option Bytes) : PM unit :=
  s ← mread (fun s => s);
  m ← mopt (get_param_metadata s key) (ParameterNotFound key);
  mresult (validate_value s key new_value (pm_rule m));;
  old_value ← mopt (get s key) (ParameterNotFound key);
  mwrite (fun s => mkParamStore (<[key := new_value]> (ps_values s)) (ps_metadata s) (ps_sent s) (ps_epoch s));;
  epoch ← mread get_epoch;
  mwrite (fun s => mkParamStore (ps_values s) (ps_metadata s)
    (ps_sent s ++ [mkParamChange key old_value new_value epoch proposal_id]) (ps_epoch s)).

Definition reset_to_default (key : string) : PM unit :=
  m ← mread (fun s => get_param_metadata s key);
  m ← mopt m (ParameterNotFound key);
  apply_governance_change key (pm_default m) None.

(** [load_from_file] after parsing: every known value is validated against the store as it is,
    in the order of the map, then the known ones replace the current ones. *)
Fixpoint validate_loaded (s : PS) (kvs : list (string * V)) : result ParamError unit :=
  match kvs with
  | [] => Ok tt
  | (key, v) :: kvs =>
      match get_param_metadata s key with
      | Some m => let? _ := validate_value s key v (pm_rule m) in validate_loaded s kvs
      | None => validate_loaded s kvs
      end
  end.
Definition put_loaded (current : gmap string V) (kv : string * V) : gmap string V :=
  match current !! kv.1 with Some _ => <[kv.1 := kv.2]> current | None => current end.
Definition load_values (kvs : list (string * V)) : PM unit :=
  s ← mread (fun s => s);
  mresult (validate_loaded s kvs);;
  mwrite (fun s => mkParamStore (foldl put_loaded (ps_values s) kvs) (ps_metadata s) (ps_sent s) (ps_epoch s)).

(** The parameters the engines are reloaded with. *)
Definition build_adic_params (s : PS) : result ParamError AdicParams :=
  let? p := get_u8 s "p" in
  let? d := get_u8 s "d" in
  let? rho := get_vec_u8 s "rho" in
  let? q := get_u8 s "q" in
  let? k := get_u32 s "k" in
  let? depth := get_u32 s "D" in
  let? delta := get_u32 s "Delta" in
  let? deposit := get_f64 s "Rmin" in
  let? r_min := get_f64 s "Rmin" in
  let? r_sum_min := get_f64 s "rmin" in
  let? lambda := get_f64 s "lambda" in
  let? alpha := get_f64 s "alpha" in
  let? beta := get_f64 s "beta" in
  let? mu := get_f64 s "mu" in
  Ok (mkParams p d rho q k depth delta deposit r_min r_sum_min lambda alpha beta mu (f64_lit 9 10)).
End store.

(** ** Laws of the store *)

Section facts.
Context {V : Type} `{!Json V} `{!JsonLaws V}.
Implicit Types s : ParameterStore V.

Lemma store_new_eq :
  store_new = mkParamStore (register_default_parameters (V := V)).1 register_default_parameters.2 [] 0.
Proof. reflexivity. Qed.

(** What a rule says of a value alone, whatever the other parameters are. *)
Definition value_ok (v : V) (rule : ValidationRule V) : Prop :=
  match rule with
  | InSet allowed => v ∈ allowed
  | Range lo hi => value_in_range v lo hi = true
  | GreaterThanOrEqual lo => value_gte v lo = true
  | Custom func =>
      if bool_decide (func = "validate_rho"%string)
      then exists l, as_array v = Some l /\ Forall (fun x => exists n, as_u64 x = Some n /\ 1 <= n) l
      else if bool_decide (func = "validate_t_bls"%string \/ func = "validate_replication_t"%string)
      then is_Some (as_u64 v) else True
  | NoRule => True
  end.

(** What it says of the value and the other parameters. *)
Definition relation_ok s (v : V) (rule : ValidationRule V) : Prop :=
  match rule with
  | Custom func =>
      (func = "validate_rho"%string -> forall l, as_array v = Some l -> Z.of_nat (length l) = u64_or s "d" 3) /\
      (func = "validate_t_bls"%string -> forall t, as_u64 v = Some t ->
         to_u64 (u64_or s "m" 64 + 1) / 2 <= t <= u64_or s "m" 64) /\
      (func = "validate_replication_t"%string -> forall t, as_u64 v = Some t -> t <= u64_or s "replication_r" 5)
  | _ => True
  end.

Lemma bad_entry_None i l : bad_entry i l = None <-> Forall (fun x => exists n, as_u64 (V := V) x = Some n /\ 1 <= n) l.
Proof.
  revert i. induction l as [|v l IH]; intros i; simpl; [done|]. rewrite Forall_cons, <-(IH (S i)).
  destruct (as_u64 v) as [n|]; [|naive_solver]. destruct (n <? 1) eqn:En; zbool; naive_solver lia.
Qed.

(** A value passes exactly when both hold; otherwise it is refused, never with a panic. *)
Lemma validate_value_iff s key v rule :
  (validate_value s key v rule = Ok tt <-> value_ok v rule /\ relation_ok s v rule) /\
  (validate_value s key v rule = Ok tt \/ exists r, validate_value s key v rule = Err (ParameterValidationFailed key r)).
Proof.
  destruct rule as [allowed|lo hi|lo|func|]; simpl.
  - assert (existsb (value_eqb v) allowed = true <-> v ∈ allowed) as H.
    { rewrite existsb_exists. setoid_rewrite value_eqb_eq. setoid_rewrite <-list_elem_of_In. naive_solver. }
    rewrite <-H. destruct (existsb _ _); naive_solver.
  - destruct (value_in_range v lo hi); naive_solver.
  - destruct (value_gte v lo); naive_solver.
  - unfold validate_custom. case_bool_decide as E1.
    { subst func. destruct (as_array v) as [arr|]; simpl; [|naive_solver].
      destruct (Z.of_nat (length arr) =? u64_or s "d" 3) eqn:El; simpl; zbool.
      - destruct (bad_entry 0 arr) as [i|] eqn:Eb.
        + split; [|by eauto]. split; [done|]. intros [(l & [= <-] & Hl) _]. apply (bad_entry_None 0) in Hl. congruence.
        + apply bad_entry_None in Eb. naive_solver.
      - split; [|by eauto]. split; [done|]. intros (_ & H & _). by specialize (H eq_refl arr eq_refl). }
    case_bool_decide as E2.
    { subst func. rewrite bool_decide_true by (by left). destruct (as_u64 v) as [t|]; simpl; [|naive_solver].
      destruct ((t <? _) || _) eqn:Et.
      - split; [|by eauto]. split; [done|]. intros (_ & _ & H & _). specialize (H eq_refl t eq_refl).
        apply orb_prop in Et as [Et|Et]; zbool; lia.
      - apply orb_false_iff in Et as [Et1 Et2]. zbool. split; [|by left]. split; [|done]. intros _. split; [by eexists|].
        split_and!; [by intros|intros _ t' [= <-]; lia|by intros]. }
    case_bool_decide as E3.
    { subst func. rewrite bool_decide_true by (by right). destruct (as_u64 v) as [t|]; simpl; [|naive_solver].
      destruct (u64_or s "replication_r" 5 <? t) eqn:Et; zbool.
      2: { split; [|by left]. split; [|done]. intros _. split; [by eexists|]. split_and!; [by intros|by intros|intros _ t' [= <-]; lia]. }
      split; [|by eauto]. split; [done|]. intros (_ & _ & _ & H). specialize (H eq_refl t eq_refl). lia. }
    rewrite bool_decide_false by (by intros []). naive_solver.
  - naive_solver.
Qed.

(** ** One change *)

Definition changed s (key : string) (v old : V) (pid : option Bytes) : ParameterStore V :=
  mkParamStore (<[key := v]> (ps_values s)) (ps_metadata s)
    (ps_sent s ++ [mkParamChange key old v (ps_epoch s) pid]) (ps_epoch s).

Lemma apply_change_eq s key v pid :
  apply_governance_change key v pid s =
  match ps_metadata s !! key with
  | None => (Err (ParameterNotFound key), s)
  | Some m =>
      match validate_value s key v (pm_rule m) with
      | Ok _ => match ps_values s !! key with
                | Some old => (Ok tt, changed s key v old pid)
                | None => (Err (ParameterNotFound key), s)
                end
      | Err e => (Err e, s)
      | Panic => (Panic, s)
      end
  end.
Proof.
  unfold apply_governance_change, mbind, M_bind, mread, mopt, get_param_metadata. destruct (ps_metadata s !! key) as [m|]; [|done].
  unfold mresult. simpl. destruct (validate_value s key v (pm_rule m)); [|done..]. unfold get. by destruct (ps_values s !! key).
Qed.

Inductive param_op :=
  | PChange (key : string) (v : V) (pid : option Bytes)
  | PReset (key : string)
  | PLoad (kvs : list (string * V))
  | PEpoch (epoch : Z).
Definition param_step s (op : param_op) : ParameterStore V :=
  match op with
  | PChange key v pid => (apply_governance_change key v pid s).2
  | PReset key => (reset_to_default key s).2
  | PLoad kvs => (load_values kvs s).2
  | PEpoch epoch => (set_epoch epoch s).2
  end.
Definition param_run (ops : list param_op) : ParameterStore V := foldl param_step store_new ops.

Record store_ok s : Prop := {
  so_metadata : ps_metadata s = register_default_parameters.2;
  so_dom : dom (ps_values s) = dom (ps_metadata s);
  so_values key m v : ps_metadata s !! key = Some m -> ps_values s !! key = Some v -> value_ok v (pm_rule m);
}.

(** ** The parameters as registered *)

Lemma register_ok l (st : gmap string V * gmap string (ParameterMetadata V)) :
  dom st.1 = dom st.2 -> dom (foldl register_param st l).1 = dom (foldl register_param st l).2 /\
  forall key m v, (foldl register_param st l).2 !! key = Some m -> (foldl register_param st l).1 !! key = Some v ->
    (m ∈ l /\ v = pm_default m) \/ (st.2 !! key = Some m /\ st.1 !! key = Some v).
Proof.
  revert st. induction l as [|m0 l IH]; intros st Hd; simpl; [split; [done|by right]|].
  destruct (IH (register_param st m0)) as [H1 H2]; [unfold register_param; simpl; set_solver|]. split; [done|].
  intros key m v Hm Hv. destruct (H2 key m v Hm Hv) as [[H ->]|[Hm' Hv']]; [left; split; [by right|done]|].
  unfold register_param in Hm', Hv'. cbn [fst snd] in Hm', Hv'.
  destruct (decide (key = pm_key m0)) as [->|Hne].
  - rewrite lookup_insert_eq in Hm'. rewrite lookup_insert_eq in Hv'. injection Hm' as <-. injection Hv' as <-. left. split; [by left|done].
  - rewrite lookup_insert_ne in Hm' by done. rewrite lookup_insert_ne in Hv' by done. by right.
Qed.

Ltac small := unfold is_u64, u64_max; lia.

Lemma defaults_valid : Forall (fun m : ParameterMetadata V => value_ok (pm_default m) (pm_rule m)) default_parameters.
Proof.
  assert (forall n lo, is_u64 n -> is_u64 lo -> f64_leb (f64_of_Z lo) (f64_of_Z n) = true -> value_gte (json_u64 (V := V) n) (json_u64 lo) = true) as Hu.
  { intros n lo Hn Hlo H. unfold value_gte. by rewrite !u64_f64. }
  assert (forall n lo, is_finite (f64_of_Z n) = true -> is_finite (f64_of_Z lo) = true -> f64_leb (f64_of_Z lo) (f64_of_Z n) = true ->
    value_gte (json_float (V := V) n) (json_float lo) = true) as Hf.
  { intros n lo Hn Hlo H. unfold value_gte, json_float. by rewrite !f64_f64. }
  assert (forall n : Z, is_u64 n -> is_Some (as_u64 (json_u64 (V := V) n))) as Hs by (intros n Hn; rewrite u64_u64 by done; by eexists).
  assert (forall n : Z, is_u64 n -> 1 <= n -> exists k, as_u64 (json_u64 (V := V) n) = Some k /\ 1 <= k) as Hp.
  { intros n Hn H1. exists n. split; [by apply u64_u64|done]. }
  unfold default_parameters.
  repeat (apply Forall_cons; split; [cbn [pm_default pm_rule]|]); [..|apply Forall_nil_2];
    try (apply Hu; [small|small|by vm_compute]); try (apply Hf; by vm_compute).
  - by left.
  - by left.
  - exists [json_u64 2; json_u64 2; json_u64 1]. split; [apply array_array|].
    repeat (apply Forall_cons; split; [apply Hp; [small|lia]|]). apply Forall_nil_2.
  - unfold value_ok, value_in_range. rewrite !u64_f64 by small. by vm_compute.
  - apply Hs. small.
  - apply Hs. small.
Qed.

Lemma store_new_ok : store_ok store_new.
Proof.
  destruct (register_ok default_parameters (∅, ∅)) as [H1 H2]; [cbn [fst snd]; by rewrite !dom_empty_L|]. split; [done|exact H1|].
  intros key m v Hm Hv. destruct (H2 key m v Hm Hv) as [[H ->]|[H _]]; [|done].
  pose proof defaults_valid as Hall. rewrite Forall_forall in Hall. by apply Hall.
Qed.

Lemma apply_change_ok s key v pid : store_ok s -> store_ok (apply_governance_change key v pid s).2.
Proof.
  intros Hs. pose proof Hs as [H1 H2 H3]. rewrite apply_change_eq. destruct (ps_metadata s !! key) as [m|] eqn:Em; [|done].
  destruct (validate_value_iff s key v (pm_rule m)) as [Hiff Hdec].
  destruct (validate_value s key v (pm_rule m)) as [[]|e|] eqn:Ev; [|done..]. destruct (ps_values s !! key) as [old|] eqn:Eo; [|done].
  destruct Hiff as [Hv _]. destruct (Hv eq_refl) as [Hok _]. split; [done| |].
  - simpl. rewrite <-H2. apply dom_insert_lookup_L. by eexists.
  - simpl. intros key' m' v' Hm'. intros [[<- <-]|[_ Hv']]%lookup_insert_Some; [by assert (m' = m) as -> by congruence|by eapply H3].
Qed.

Lemma validate_loaded_Ok s kvs key v m :
  validate_loaded s kvs = Ok tt -> (key, v) ∈ kvs -> ps_metadata s !! key = Some m ->
  value_ok v (pm_rule m) /\ relation_ok s v (pm_rule m).
Proof.
  induction kvs as [|[k w] kvs IH]; simpl; [by intros _ ?%elem_of_nil|]. unfold get_param_metadata.
  intros Hrun [[= <- <-]|Hin]%elem_of_cons Hm.
  - rewrite Hm in Hrun. apply result_bind_Ok in Hrun as ([] & Hv & _). by apply (validate_value_iff s key v (pm_rule m)) in Hv.
  - apply IH; [|done|done]. destruct (ps_metadata s !! k); [|done]. by apply result_bind_Ok in Hrun as (_ & _ & ?).
Qed.

Lemma validate_loaded_all s kvs :
  (forall key v m, (key, v) ∈ kvs -> ps_metadata s !! key = Some m -> value_ok v (pm_rule m) /\ relation_ok s v (pm_rule m)) ->
  validate_loaded s kvs = Ok tt.
Proof.
  induction kvs as [|[k v] kvs IH]; intros Hall; [done|]. cbn [validate_loaded]. unfold get_param_metadata.
  assert (validate_loaded s kvs = Ok tt) as IH' by (apply IH; intros key w m Hin; apply Hall; by right).
  destruct (ps_metadata s !! k) as [m|] eqn:Em; [|done].
  assert (validate_value s k v (pm_rule m) = Ok tt) as ->; [|done].
  apply validate_value_iff. apply (Hall k); [by left|done].
Qed.

Lemma put_loaded_ok kvs (cur : gmap string V) :
  dom (foldl put_loaded cur kvs) = dom cur /\
  forall key v, foldl put_loaded cur kvs !! key = Some v -> cur !! key = Some v \/ (key, v) ∈ kvs.
Proof.
  revert cur. induction kvs as [|[k w] kvs IH]; intros cur; simpl; [split; [done|by left]|].
  destruct (IH (put_loaded cur (k, w))) as [H1 H2]. rewrite H1. unfold put_loaded in *. simpl in *.
  destruct (cur !! k) as [old|] eqn:E.
  - split; [apply dom_insert_lookup_L; by eexists|]. intros key v Hv.
    destruct (H2 key v Hv) as [[[<- <-]|[_ H]]%lookup_insert_Some|H]; [right; by left|by left|right; by right].
  - split; [done|]. intros key v Hv. destruct (H2 key v Hv); [by left|right; by right].
Qed.

Lemma param_step_ok op s : store_ok s -> store_ok (param_step s op).
Proof.
  intros Hs. destruct op as [key v pid|key|kvs|epoch]; simpl.
  - by apply apply_change_ok.
  - unfold reset_to_default, mbind, M_bind, mread, mopt. destruct (get_param_metadata s key); [|done]. by apply apply_change_ok.
  - unfold load_values, mbind, M_bind, mread, mresult, mwrite. destruct (validate_loaded s kvs) as [[]|e|] eqn:E; [|done..].
    destruct Hs as [H1 H2 H3]. destruct (put_loaded_ok kvs (ps_values s)) as [Hd Hv]. split; cbn [fst snd ps_values ps_metadata]; [exact H1|by rewrite Hd|].
    intros key m v Hm [H|H]%Hv; [by eapply H3|by eapply (validate_loaded_Ok s kvs)].
  - by destruct Hs.
Qed.

Lemma param_run_ok ops : store_ok (param_run ops).
Proof.
  unfold param_run. generalize store_new_ok. generalize (store_new (V := V)). induction ops as [|op ops IH]; intros s Hs; [done|].
  simpl. apply IH. by apply param_step_ok.
Qed.

(** A registered parameter has a value that meets its rule. *)
Lemma stored_value s key m :
  store_ok s -> ps_metadata (store_new (V := V)) !! key = Some m ->
  exists v, ps_values s !! key = Some v /\ ps_metadata s !! key = Some m /\ value_ok v (pm_rule m).
Proof.
  intros [H1 H2 H3] Hm. assert (ps_metadata s !! key = Some m) as Hm' by (by rewrite H1).
  assert (is_Some (ps_values s !! key)) as [v Hv] by (apply elem_of_dom; rewrite H2; by eapply elem_of_dom_2). by exists v; eauto.
Qed.

(** ** What can be read *)

(** The parameters read as [f64], each with its lower bound. *)
Definition float_parameters : list (string * Z) :=
  [("lambda"%string, 0); ("mu"%string, 0); ("alpha"%string, 0); ("beta"%string, 0); ("Rmin"%string, 0); ("rmin"%string, 0);
   ("T_enact"%string, 0); ("Rmax"%string, 1)].

Lemma gte_float v n : is_finite (f64_of_Z n) = true -> value_gte v (json_float n) = true ->
  exists x, as_f64 (V := V) v = Some x /\ f64_leb (f64_of_Z n) x = true.
Proof.
  intros Hn. unfold value_gte, json_float. rewrite f64_f64 by done. destruct (as_f64 v) as [x|]; [by exists x|].
  rewrite f64_u64. by destruct (as_u64 v).
Qed.

Lemma get_as_Ok {A} (acc : V -> option A) s key v x : ps_values s !! key = Some v -> acc v = Some x -> get_as acc s key = Ok x.
Proof. intros Hv Hx. unfold get_as, get. rewrite Hv. simpl. by rewrite Hx. Qed.

(** However parameters are changed, reset or loaded, every parameter keeps a value that meets
    its rule and reads back as what it is: [p] is 3, 5 or 7, [d] is 3 or 4, and each parameter
    that is a float reads as one at or above its minimum. *)
Theorem param_store_typed ops :
  let s := param_run ops in
  (exists p, get_u8 s "p" = Ok p /\ p ∈ [3; 5; 7]) /\ (exists d, get_u8 s "d" = Ok d /\ d ∈ [3; 4]) /\
  (exists rho, get_vec_u8 s "rho" = Ok rho) /\
  Forall (fun kl => exists x, get_f64 s kl.1 = Ok x /\ f64_leb (f64_of_Z kl.2) x = true) float_parameters.
Proof.
  intros s. pose proof (param_run_ok ops : store_ok s) as Hs.
  assert (forall key n v, ps_values s !! key = Some v -> v = json_u64 n -> is_u64 n -> get_u8 s key = Ok (to_u8 n)) as Hu8.
  { intros key n v Hv -> Hn. unfold get_u8. apply (get_as_Ok _ _ _ _ _ Hv). by rewrite u64_u64. }
  split_and!.
  - destruct (stored_value s "p" _ Hs eq_refl) as (v & Hv & _ & Hok). cbn [value_ok pm_rule] in Hok.
    rewrite !elem_of_cons, elem_of_nil in Hok. destruct Hok as [E|[E|[E|[]]]]; rewrite (Hu8 "p"%string _ v Hv E) by small;
      (eexists; split; [reflexivity|by vm_compute; repeat constructor]).
  - destruct (stored_value s "d" _ Hs eq_refl) as (v & Hv & _ & Hok). cbn [value_ok pm_rule] in Hok.
    rewrite !elem_of_cons, elem_of_nil in Hok. destruct Hok as [E|[E|[]]]; rewrite (Hu8 "d"%string _ v Hv E) by small;
      (eexists; split; [reflexivity|by vm_compute; repeat constructor]).
  - destruct (stored_value s "rho" _ Hs eq_refl) as (v & Hv & _ & Hok). destruct Hok as (l & Hl & _).
    eexists. unfold get_vec_u8. apply (get_as_Ok _ _ _ _ _ Hv). by rewrite Hl.
  - assert (forall key n m, ps_metadata (store_new (V := V)) !! key = Some m -> pm_rule m = GreaterThanOrEqual (json_float n) ->
      is_finite (f64_of_Z n) = true -> exists x, get_f64 s key = Ok x /\ f64_leb (f64_of_Z n) x = true) as H.
    { intros key n m Hm Hr Hn. destruct (stored_value s key m Hs Hm) as (v & Hv & _ & Hok). rewrite Hr in Hok.
      destruct (gte_float v n Hn Hok) as (x & Hx & Hle). exists x. split; [|done]. by apply (get_as_Ok _ _ _ _ _ Hv). }
    unfold float_parameters. repeat (apply Forall_cons; split; [eapply H; reflexivity|]). apply Forall_nil_2.
Qed.

(** C34: A governance change succeeds exactly for a known parameter and a value that meets its rule
    and its relation to the other parameters; then the parameter has the new value, no other
    changes, and one notification with both values and the epoch is sent.  Otherwise the call
    is an error, never a panic, and the store stays as it is. *)
Theorem param_change_correct ops key v pid :
  let s := param_run ops in
  let (r, s') := apply_governance_change key v pid s in
  ((exists m, ps_metadata s !! key = Some m /\ value_ok v (pm_rule m) /\ relation_ok s v (pm_rule m)) ->
    exists old, get s key = Some old /\ r = Ok tt /\ get s' key = Some v /\ (forall k, k <> key -> get s' k = get s k) /\
      ps_sent s' = ps_sent s ++ [mkParamChange key old v (ps_epoch s) pid]) /\
  (~ (exists m, ps_metadata s !! key = Some m /\ value_ok v (pm_rule m) /\ relation_ok s v (pm_rule m)) ->
    is_err r = true /\ s' = s).
Proof.
  intros s. pose proof (param_run_ok ops : store_ok s) as [H1 H2 _]. rewrite apply_change_eq.
  destruct (ps_metadata s !! key) as [m|] eqn:Em; [|split; [by intros (m & [=] & _)|done]].
  destruct (validate_value_iff s key v (pm_rule m)) as [Hiff Hdec].
  assert (is_Some (ps_values s !! key)) as [old Ho] by (apply elem_of_dom; rewrite H2; by eapply elem_of_dom_2).
  destruct (validate_value s key v (pm_rule m)) as [[]|e|] eqn:Ev; [| |by destruct Hdec as [|[? ?]]].
  - rewrite Ho. split; [|intros Hn; destruct Hn; exists m; split; [done|by apply Hiff]]. intros _. exists old.
    unfold get, changed. cbn [ps_values ps_sent]. rewrite lookup_insert_eq. split_and!; try done.
    intros k Hk. by rewrite lookup_insert_ne.
  - split; [|done]. intros (m' & [= <-] & Hv). apply Hiff in Hv. done.
Qed.

(** ** Saving and loading *)

Lemma u64_or_stored s key n dflt : ps_values s !! key = Some (json_u64 n) -> is_u64 n -> u64_or s key dflt = n.
Proof. intros Hv Hn. unfold u64_or, get_u64, get_as, get. rewrite Hv. simpl. by rewrite u64_u64. Qed.

Lemma registered_u64 :
  u64_or (store_new (V := V)) "d" 3 = 3 /\ u64_or (store_new (V := V)) "m" 64 = 64 /\
  u64_or (store_new (V := V)) "replication_r" 5 = 5.
Proof. split_and!; (apply u64_or_stored; [reflexivity|small]). Qed.

Lemma put_loaded_all kvs (cur : gmap string V) :
  NoDup kvs.*1 -> (forall key v, (key, v) ∈ kvs -> is_Some (cur !! key)) ->
  forall key v, (key, v) ∈ kvs -> foldl put_loaded cur kvs !! key = Some v.
Proof.
  revert cur. induction kvs as [|[k w] kvs IH]; intros cur Hnd Hin key v; [by intros ?%elem_of_nil|]. simpl in *.
  apply NoDup_cons in Hnd as [Hk Hnd]. destruct (Hin k w) as [old Ho]; [by left|].
  assert (forall key v, (key, v) ∈ kvs -> is_Some (put_loaded cur (k, w) !! key)) as Hin'.
  { intros key' v' H'. unfold put_loaded. simpl. rewrite Ho. apply lookup_insert_is_Some'. right. by apply (Hin key' v'); right. }
  intros [[= <- <-]|H]%elem_of_cons; [|by apply IH].
  destruct (foldl put_loaded (put_loaded cur (key, v)) kvs !! key) as [v'|] eqn:E.
  - destruct (put_loaded_ok kvs (put_loaded cur (key, v))) as [_ H]. apply H in E as [E|E].
    + unfold put_loaded in E. simpl in E. rewrite Ho, lookup_insert_eq in E. done.
    + destruct Hk. apply list_elem_of_fmap. by exists (key, v').
  - exfalso. destruct (put_loaded_ok kvs (put_loaded cur (key, v))) as [H _]. apply not_elem_of_dom in E. rewrite H in E.
    apply not_elem_of_dom in E. unfold put_loaded in E. simpl in E. by rewrite Ho, lookup_insert_eq in E.
Qed.

(** Saved parameters load back: a store whose values pass validation together, and whose [d],
    [m] and [replication_r] are the registered ones, is restored into a new store with every value, in
    whatever order the file lists them. *)
Theorem save_load_roundtrip ops kvs :
  let s := param_run ops in
  kvs ≡ₚ map_to_list (get_all s) -> validate_loaded s kvs = Ok tt ->
  u64_or s "d" 3 = 3 -> u64_or s "m" 64 = 64 -> u64_or s "replication_r" 5 = 5 ->
  exists s', load_values kvs store_new = (Ok tt, s') /\ get_all s' = get_all s.
Proof.
  intros s Hk Hrel Hd Hm Hr. pose proof (param_run_ok ops : store_ok s) as [H1 H2 H3].
  pose proof store_new_ok as [N1 N2 _].
  assert (NoDup kvs.*1) as Hnd by (rewrite Hk; apply NoDup_fst_map_to_list).
  assert (forall key v, (key, v) ∈ kvs <-> ps_values s !! key = Some v) as Hin.
  { intros key v. rewrite Hk. apply elem_of_map_to_list. }
  assert (validate_loaded store_new kvs = Ok tt) as Hval.
  { apply (validate_loaded_all store_new). intros key v m Hkv Hm'. rewrite N1, <-H1 in Hm'.
    destruct (validate_loaded_Ok s kvs key v m Hrel Hkv Hm') as [Hok Hr0]. split; [done|].
    destruct (pm_rule m); try done. unfold relation_ok in *. destruct registered_u64 as (-> & -> & ->).
    by rewrite Hd, Hm, Hr in Hr0. }
  eexists. split.
  - unfold load_values, mbind, M_bind, mread, mresult, mwrite. rewrite Hval. reflexivity.
  - unfold get_all. cbn [ps_values]. apply map_eq. intros key.
    destruct (put_loaded_ok kvs (ps_values (store_new (V := V)))) as [Hdom _].
    destruct (ps_values s !! key) as [v|] eqn:E.
    + apply put_loaded_all; [done| |by apply Hin]. intros key' v' H'. apply elem_of_dom. rewrite N2, N1, <-H1, <-H2.
      apply elem_of_dom. exists v'. by apply Hin.
    + apply not_elem_of_dom. rewrite Hdom, N2, N1, <-H1, <-H2. by apply not_elem_of_dom.
Qed.

(** ** What the rules let through *)

Lemma change_ok s key v pid m old :
  ps_metadata s !! key = Some m -> ps_values s !! key = Some old -> value_ok v (pm_rule m) -> relation_ok s v (pm_rule m) ->
  apply_governance_change key v pid s = (Ok tt, changed s key v old pid).
Proof.
  intros Hm Ho Hv Hr. rewrite apply_change_eq, Hm.
  destruct (validate_value_iff s key v (pm_rule m)) as [[_ H] _]. by rewrite (H (conj Hv Hr)), Ho.
Qed.

(** A fraction is accepted for the integer [k]; the engines' parameters can then not be built. *)
Theorem fractional_k_breaks_reload x :
  is_finite x = true -> f64_leb (f64_of_Z 1) x = true ->
  let (r, s) := apply_governance_change "k" (json_f64 (V := V) x) None store_new in
  r = Ok tt /\ build_adic_params s = Err (ParameterNotFound "k").
Proof.
  intros Hx Hle. rewrite (change_ok store_new "k" _ None _ _ eq_refl eq_refl); [|unfold value_ok, value_gte; cbn [pm_rule]|done].
  2: { rewrite f64_f64, u64_f64 by (done || small). exact Hle. }
  split; [done|]. unfold build_adic_params, get_u8, get_vec_u8, get_u32, get_as, get, changed. cbn [ps_values].
  rewrite lookup_insert_eq, !lookup_insert_ne by done.
  change (ps_values store_new !! "p"%string) with (Some (json_u64 (V := V) 3)).
  change (ps_values store_new !! "d"%string) with (Some (json_u64 (V := V) 3)).
  change (ps_values store_new !! "rho"%string) with (Some (json_array [json_u64 (V := V) 2; json_u64 2; json_u64 1])).
  change (ps_values store_new !! "q"%string) with (Some (json_u64 (V := V) 3)).
  cbn [mbind option_bind]. rewrite array_array, !u64_u64 by small. cbn. by rewrite f64_u64.
Qed.

(** [k] is accepted up to any size and truncated to 32 bits where it is read. *)
Theorem huge_k_reads_as_zero :
  let (r, s) := apply_governance_change "k" (json_u64 (V := V) (2 ^ 32)) None store_new in
  r = Ok tt /\ get_u32 s "k" = Ok 0.
Proof.
  rewrite (change_ok store_new "k" _ None _ _ eq_refl eq_refl); [|unfold value_ok, value_gte; cbn [pm_rule]|done].
  2: { rewrite !u64_f64 by small. by vm_compute. }
  split; [done|]. unfold get_u32. erewrite get_as_Ok; [reflexivity|apply lookup_insert_eq|]. rewrite u64_u64 by small. reflexivity.
Qed.

(** The relation is checked when the threshold changes and not when the replication does. *)
Theorem lowered_replication_breaks_threshold :
  let (r, s) := apply_governance_change "replication_r" (json_u64 (V := V) 1) None store_new in
  r = Ok tt /\ get_u64 s "replication_r" = Ok 1 /\ get_u64 s "replication_t" = Ok 4.
Proof.
  rewrite (change_ok store_new "replication_r" _ None _ _ eq_refl eq_refl); [|unfold value_ok, value_gte; cbn [pm_rule]|done].
  2: { rewrite !u64_f64 by small. by vm_compute. }
  split; [done|]. unfold get_u64. split.
  - eapply get_as_Ok; [apply lookup_insert_eq|apply u64_u64; small].
  - eapply get_as_Ok; [etransitivity; [by apply lookup_insert_ne|reflexivity]|apply u64_u64; small].
Qed.

Definition four_axes : list param_op :=
  [PChange "d" (json_u64 4) None; PChange "rho" (json_array [json_u64 2; json_u64 2; json_u64 1; json_u64 1]) None].

Lemma validate_loaded_err s kvs : validate_loaded s kvs <> Ok tt -> is_err (validate_loaded s kvs) = true.
Proof.
  induction kvs as [|[k v] kvs IH]; [done|]. cbn [validate_loaded]. destruct (get_param_metadata s k) as [m|]; [|done].
  destruct (validate_value_iff s k v (pm_rule m)) as [_ [->|[r ->]]]; [exact IH|done].
Qed.

(** A network that has moved to four axes cannot load its saved parameters: the saved radii are
    checked against the three axes of the new store. *)
Theorem saved_axes_do_not_load kvs :
  let s := param_run four_axes in
  get_u64 s "d" = Ok 4 /\ (kvs ≡ₚ map_to_list (get_all s) -> is_err (load_values kvs store_new).1 = true).
Proof.
  cbv zeta. set (rho := json_array [json_u64 2; json_u64 2; json_u64 1; json_u64 1] : V).
  set (s1 := changed store_new "d" (json_u64 4) (json_u64 3) None).
  assert (param_run four_axes = changed s1 "rho" rho (json_array [json_u64 2; json_u64 2; json_u64 1]) None) as ->.
  { unfold param_run, four_axes. cbn [foldl param_step].
    rewrite (change_ok store_new "d" _ None _ (json_u64 3) eq_refl eq_refl); [|right; left|done]. cbn [snd]. fold s1. fold rho.
    assert (ps_values s1 !! "rho"%string = Some (json_array [json_u64 2; json_u64 2; json_u64 1])) as Hold
      by (unfold s1, changed; cbn [ps_values]; by rewrite lookup_insert_ne).
    rewrite (change_ok s1 "rho" rho None _ _ eq_refl Hold); [done| |].
    - unfold value_ok. cbn [pm_rule]. exists [json_u64 2; json_u64 2; json_u64 1; json_u64 1]. split; [apply array_array|].
      repeat (apply Forall_cons; split; [eexists; split; [apply u64_u64; small|lia]|]). apply Forall_nil_2.
    - split; [|by split]. intros _ l. unfold rho. rewrite array_array. intros [= <-].
      rewrite (u64_or_stored s1 "d" 4 3); [done|apply lookup_insert_eq|small]. }
  split.
  { unfold get_u64. eapply get_as_Ok; [|apply u64_u64; small]. unfold changed. cbn [ps_values].
    rewrite lookup_insert_ne by done. apply lookup_insert_eq. }
  intros Hk. unfold load_values, mbind, M_bind, mread, mresult.
  pose proof (validate_loaded_err store_new kvs) as Herr.
  destruct (validate_loaded store_new kvs) as [[]|e|] eqn:E; [|done|by apply Herr].
  assert (("rho"%string, rho) ∈ kvs) as Hin.
  { rewrite Hk. apply elem_of_map_to_list. unfold get_all, changed. cbn [ps_values]. apply lookup_insert_eq. }
  destruct (validate_loaded_Ok store_new kvs "rho" rho _ E Hin eq_refl) as [_ [H _]].
  specialize (H eq_refl). unfold rho in H. specialize (H _ (array_array _)). destruct registered_u64 as (Hd & _). rewrite Hd in H. done.
Qed.
End facts.

(** ** A concrete value type

    An instance of the class, on which the theorems with hypotheses are applied. *)

Inductive JsonValue :=
  | JNull
  | JNum (n : Z)
  | JFloat (x : f64)
  | JArray (l : list JsonValue)
  | JObject (l : list (string * JsonValue)).

Section json_value_induction.
Context (P : JsonValue -> Prop) (Hnull : P JNull) (Hnum : forall n, P (JNum n)) (Hfloat : forall x, P (JFloat x))
  (Harray : forall l, Forall P l -> P (JArray l)) (Hobject : forall l, Forall (fun kv => P kv.2) l -> P (JObject l)).
Fixpoint json_value_ind' (v : JsonValue) : P v :=
  match v with
  | JNull => Hnull
  | JNum n => Hnum n
  | JFloat x => Hfloat x
  | JArray l => Harray l ((fix go l : Forall P l :=
      match l with [] => Forall_nil_2 P | v :: l => Forall_cons_2 P v l (json_value_ind' v) (go l) end) l)
  | JObject l => Hobject l ((fix go l : Forall (fun kv => P kv.2) l :=
      match l with
      | [] => Forall_nil_2 _
      | kv :: l => Forall_cons_2 _ kv l (let (k, v) as kv return P kv.2 := kv in json_value_ind' v) (go l)
      end) l)
  end.
End json_value_induction.


Fixpoint json_value_eqb (a b : JsonValue) : bool :=
  match a, b with
  | JNull, JNull => true
  | JNum n, JNum m => n =? m
  | JFloat x, JFloat y => bool_decide (x = y)
  | JArray l, JArray l' =>
      (fix go l l' := match l, l' with
                      | [], [] => true
                      | x :: l, y :: l' => json_value_eqb x y && go l l'
                      | _, _ => false
                      end) l l'
  | JObject l, JObject l' =>
      (fix go l l' := match l, l' with
                      | [], [] => true
                      | (k, x) :: l, (k', y) :: l' => bool_decide (k = k') && json_value_eqb x y && go l l'
                      | _, _ => false
                      end) l l'
  | _, _ => false
  end.

Lemma json_value_eqb_eq a b : json_value_eqb a b = true <-> a = b.
Proof.
  revert b. induction a as [|n|x|l IH|l IH] using json_value_ind'; intros [|m|y|l'|l']; simpl; try by (split; [done|congruence]).
  - rewrite Z.eqb_eq. split; congruence.
  - rewrite bool_decide_eq_true. split; congruence.
  - revert l'. induction IH as [|v l Hv _ IHl]; intros [|v' l']; try by (split; [done|congruence]).
    rewrite andb_true_iff, Hv, IHl. split; [by intros [-> [= ->]]|by intros [= -> ->]].
  - revert l'. induction IH as [|[k v] l Hv _ IHl]; intros [|[k' v'] l']; try by (split; [done|congruence]).
    simpl in Hv. rewrite !andb_true_iff, bool_decide_eq_true, Hv, IHl.
    split; [by intros [[-> ->] [= ->]]|by intros [= -> -> ->]].
Qed.

#[export] Instance JsonValue_json : Json JsonValue := {
  as_u64 v := match v with JNum n => if (0 <=? n) && (n <=? u64_max) then Some n else None | _ => None end;
  as_f64 v := match v with JNum n => Some (f64_of_Z n) | JFloat x => Some x | _ => None end;
  as_array v := match v with JArray l => Some l | _ => None end;
  as_object v := match v with JObject l => Some (list_to_map (reverse l)) | _ => None end;
  value_eqb := json_value_eqb;
  json_u64 := JNum;
  json_f64 x := if is_finite x then JFloat x else JNull;
  json_array := JArray;
}.

#[export] Instance JsonValue_laws : JsonLaws JsonValue.
Proof.
  split; simpl.
  - intros n [H1 H2]. apply Z.leb_le in H1, H2. by rewrite H1, H2.
  - done.
  - intros x. by destruct (is_finite x).
  - intros x Hx. by rewrite Hx.
  - done.
  - intros [|n| | |] k; try done. destruct (_ && _) eqn:E; [|done]. intros [= <-]. apply andb_prop in E as [E1 E2]. zbool. done.
  - apply json_value_eqb_eq.
Qed.

Definition saved_store : list (@param_op JsonValue) := [PChange "k" (json_u64 7) None].

Lemma save_load_roundtrip_witness :
  exists s', load_values (map_to_list (get_all (param_run saved_store))) store_new = (Ok tt, s') /\
    get_all s' = get_all (param_run saved_store).
Proof.
  apply (save_load_roundtrip saved_store (map_to_list (get_all (param_run saved_store)))); [done|vm_compute; reflexivity..].
Defined.

Lemma param_store_typed_witness : exists p, get_u8 (param_run saved_store) "p" = Ok p /\ p ∈ [3; 5; 7].
Proof. destruct (param_store_typed saved_store) as [H _]. exact H. Defined.

Lemma param_change_correct_witness :
  exists s', apply_governance_change "k" (json_u64 9) None (param_run saved_store) = (Ok tt, s') /\
    get s' "k" = Some (JNum 9) /\ get s' "D" = get (param_run saved_store) "D".
Proof.
  pose proof (param_change_correct saved_store "k" (json_u64 9) None) as H. cbv zeta in H.
  pose proof (so_metadata _ (param_run_ok saved_store)) as Hm.
  destruct (apply_governance_change "k" (json_u64 9) None (param_run saved_store)) as [r s'] eqn:E. apply proj1 in H.
  assert (exists m, ps_metadata (param_run saved_store) !! "k"%string = Some m /\
    value_ok (json_u64 9) (pm_rule m) /\ relation_ok (param_run saved_store) (json_u64 9) (pm_rule m)) as Hp.
  { exists (mkParamMeta "k" TU32 ClassOperational (json_u64 20) (GreaterThanOrEqual (json_u64 1)) "k-core threshold for F1 finality").
    rewrite Hm. split; [reflexivity|]. split; [vm_compute; reflexivity|exact I]. }
  destruct (H Hp) as (old & _ & -> & Hk & Hother & _).
  exists s'. split; [reflexivity|]. split; [exact Hk|]. apply Hother. discriminate.
Defined.
