(* ===== verification/Voting.v ===== *)
(** * Votes and overlap penalties

    [adic-governance]: the votes, ballots and tallies of [types.rs], the voting engine of
    [voting.rs] and the overlap tracker of [overlap_penalties.rs].

    [powi] is the standard library's [f64::powi], whose precision its documentation leaves
    open.  Voters of a pattern are a hash set in the code: what is computed from them does not
    depend on the order, except the list of rings, whose order of voters is the argument
    [voters] of [detect_rings].  The clock measuring the computation and the metrics are left
    out. *)

From Stdlib Require Import Ascii.
From S2P Require Import Prelude F64 Message.

Definition Hash : Type := Bytes.

(** A byte-string literal. *)
Definition ascii_bytes (s : string) : Bytes := (fun a => Z.of_N (N_of_ascii a)) <$> String.list_ascii_of_string s.

Inductive ProposalClass := Constitutional | Operational.
Inductive ProposalStatus := Voting | Tallying | Succeeded | Enacting | Rejected | Enacted | Failed.
Inductive Ballot := Yes | No | Abstain.
Inductive VoteResult := Pass | Fail.
#[export] Instance ProposalClass_eq_dec : EqDecision ProposalClass.
Proof. solve_decision. Defined.
#[export] Instance ProposalStatus_eq_dec : EqDecision ProposalStatus.
Proof. solve_decision. Defined.
#[export] Instance Ballot_eq_dec : EqDecision Ballot.
Proof. solve_decision. Defined.
#[export] Instance VoteResult_eq_dec : EqDecision VoteResult.
Proof. solve_decision. Defined.

Definition is_terminal (s : ProposalStatus) : bool :=
  match s with Enacted | Failed | Rejected => true | _ => false end.

Definition can_transition_to (s next : ProposalStatus) : bool :=
  match s, next with
  | Voting, Tallying => true
  | Tallying, Succeeded => true
  | Tallying, Rejected => true
  | Succeeded, Enacting => true
  | Succeeded, Rejected => true
  | Enacting, Enacted => true
  | Enacting, Failed => true
  | _, _ => false
  end.

Record GovernanceVote := mkVote {
  gv_proposal_id : Hash;
  gv_voter_pk : PublicKey;
  gv_credits : f64;
  gv_ballot : Ballot;
  gv_timestamp : Z;
}.

Record QuorumStats := mkStats {
  qs_yes : f64;
  qs_no : f64;
  qs_abstain : f64;
  qs_total_participation : f64;
}.

Definition qs_total (s : QuorumStats) : f64 := f64_add (f64_add (qs_yes s) (qs_no s)) (qs_abstain s).
Definition participation_rate (s : QuorumStats) (total_eligible_credits : f64) : f64 :=
  if f64_gtb total_eligible_credits f64_zero then f64_div (qs_total s) total_eligible_credits else f64_zero.

(** ** The overlap tracker *)

Module Overlap.

Record ProposalVotingPattern := mkPattern {
  pt_proposal_id : Hash;
  pt_voters : gset PublicKey;
  pt_timestamp : Z;
}.

Record OverlapStats := mkOverlap {
  os_participation_count : Z;
  os_co_voting_frequency : gmap PublicKey f64;
  os_attenuation_factor : f64;
}.

Record OverlapPenaltyTracker := mkTracker {
  ot_lambda : f64;
  ot_decay_factor : f64;
  ot_window_size : nat;
  ot_history : list ProposalVotingPattern;
  ot_stats : gmap PublicKey OverlapStats;
  ot_current_epoch : Z;
}.

Definition DEFAULT_LAMBDA : f64 := f64_of_Z 2.
Definition DEFAULT_DECAY : f64 := f64_lit 8 10.
Definition DEFAULT_WINDOW_SIZE : nat := 20.
Definition MIN_PROPOSALS_FOR_PENALTY : nat := 5.

Definition overlap_new (lambda decay_factor : f64) (window_size : nat) : OverlapPenaltyTracker :=
  mkTracker lambda decay_factor window_size [] ∅ 0.
Definition overlap_default : OverlapPenaltyTracker := overlap_new DEFAULT_LAMBDA DEFAULT_DECAY DEFAULT_WINDOW_SIZE.

Definition with_history (h : list ProposalVotingPattern) (t : OverlapPenaltyTracker) : OverlapPenaltyTracker :=
  mkTracker (ot_lambda t) (ot_decay_factor t) (ot_window_size t) h (ot_stats t) (ot_current_epoch t).
Definition with_stats (s : gmap PublicKey OverlapStats) (t : OverlapPenaltyTracker) : OverlapPenaltyTracker :=
  mkTracker (ot_lambda t) (ot_decay_factor t) (ot_window_size t) (ot_history t) s (ot_current_epoch t).

Section tracker.
Context {E : Type} (powi : f64 -> Z -> f64).

(** [overlap_freq.entry(co_voter).or_insert(0.0) += weight] for the co-voters of a pattern. *)
Definition add_weight (weight : f64) (freq : gmap PublicKey f64) (co_voter : PublicKey) : gmap PublicKey f64 :=
  <[co_voter := f64_add (default f64_zero (freq !! co_voter)) weight]> freq.
Definition add_pattern (decay : f64) (voter : PublicKey) (acc : gmap PublicKey f64 * Z) (ip : nat * ProposalVotingPattern)
    : gmap PublicKey f64 * Z :=
  let (idx, pattern) := ip in
  if bool_decide (voter ∈ pt_voters pattern)
  then (foldl (add_weight (powi decay (Z.of_nat idx))) acc.1 (elements (pt_voters pattern ∖ {[voter]})), acc.2 + 1)
  else acc.
Definition overlap_freq (t : OverlapPenaltyTracker) (voter : PublicKey) : gmap PublicKey f64 * Z :=
  foldl (add_pattern (ot_decay_factor t) voter) (∅, 0)
    (zip (seq 0 (length (ot_history t))) (reverse (ot_history t))).
Definition normalize (fp : gmap PublicKey f64 * Z) : gmap PublicKey f64 :=
  if 0 <? fp.2 then (fun freq => f64_div freq (f64_of_Z fp.2)) <$> fp.1 else fp.1.

(** The sort unwraps [partial_cmp], which is [None] on a [NaN]. *)
Definition sort_desc (l : list f64) : result E (list f64) :=
  if (2 <=? length l)%nat && existsb is_nan l then Panic else Ok (isort (fun a b => f64_geb a b) l).
Definition overlap_score (freq : gmap PublicKey f64) : result E f64 :=
  if bool_decide (freq = ∅) then Ok f64_zero
  else let? frequencies := sort_desc (map_to_list freq).*2 in
       let top_k := take 5 frequencies in
       Ok (f64_div (foldl f64_add f64_zero top_k) (f64_of_Z (Z.of_nat (length top_k)))).
Definition attenuation (t : OverlapPenaltyTracker) (score : f64) : f64 :=
  f64_div (f64_of_Z 1) (f64_add (f64_of_Z 1) (f64_mul (ot_lambda t) score)).

Definition voter_overlap (t : OverlapPenaltyTracker) (voter : PublicKey) : result E OverlapStats :=
  let fp := overlap_freq t voter in
  let freq := normalize fp in
  let? score := overlap_score freq in
  Ok (mkOverlap fp.2 freq (attenuation t score)).

Definition update_voter (voter : PublicKey) : M OverlapPenaltyTracker E unit := fun t =>
  match voter_overlap t voter with
  | Ok s => (Ok tt, with_stats (<[voter := s]> (ot_stats t)) t)
  | Err e => (Err e, t)
  | Panic => (Panic, t)
  end.
Fixpoint update_voters (voters : list PublicKey) : M OverlapPenaltyTracker E unit :=
  match voters with
  | [] => mret tt
  | voter :: voters => update_voter voter;; update_voters voters
  end.
Definition update_voter_stats (current_voters : gset PublicKey) : M OverlapPenaltyTracker E unit :=
  n ← mread (fun t => length (ot_history t));
  if (n <? MIN_PROPOSALS_FOR_PENALTY)%nat then mret tt else update_voters (elements current_voters).

Definition push_pattern (pattern : ProposalVotingPattern) (t : OverlapPenaltyTracker) : OverlapPenaltyTracker :=
  let history := if (ot_window_size t <=? length (ot_history t))%nat then tail (ot_history t) else ot_history t in
  with_history (history ++ [pattern]) t.
Definition record_votes (proposal_id : Hash) (voters : list PublicKey) : M OverlapPenaltyTracker E unit :=
  let voters_set := list_to_set voters in
  epoch ← mread ot_current_epoch;
  mwrite (push_pattern (mkPattern proposal_id voters_set epoch));;
  update_voter_stats voters_set.
End tracker.

Definition get_attenuation_factor (t : OverlapPenaltyTracker) (voter : PublicKey) : f64 :=
  default (f64_of_Z 1) (os_attenuation_factor <$> ot_stats t !! voter).
Definition get_voter_stats (t : OverlapPenaltyTracker) (voter : PublicKey) : option (Z * f64) :=
  (fun s => (os_participation_count s, os_attenuation_factor s)) <$> ot_stats t !! voter.
Definition get_window_size (t : OverlapPenaltyTracker) : nat := length (ot_history t).
Definition advance_epoch (t : OverlapPenaltyTracker) : OverlapPenaltyTracker :=
  mkTracker (ot_lambda t) (ot_decay_factor t) (ot_window_size t) (ot_history t) (ot_stats t) (to_u64 (ot_current_epoch t + 1)).
Definition overlap_reset (t : OverlapPenaltyTracker) : OverlapPenaltyTracker := with_stats ∅ (with_history [] t).

Definition apply_penalty (t : OverlapPenaltyTracker) (voter : PublicKey) (original_credits : f64) : f64 :=
  match ot_stats t !! voter with
  | Some s => f64_mul (os_attenuation_factor s) original_credits
  | None => original_credits
  end.

Definition frequency (t : OverlapPenaltyTracker) (a b : PublicKey) : option f64 :=
  s ← ot_stats t !! a; os_co_voting_frequency s !! b.
Definition co_vote (t : OverlapPenaltyTracker) (min_overlap : f64) (a b : PublicKey) : bool :=
  match frequency t a b, frequency t b a with
  | Some ab, Some ba => f64_geb ab min_overlap && f64_geb ba min_overlap
  | _, _ => false
  end.
(** [voters] is the order in which the keys of the statistics are listed. *)
Fixpoint detect_rings (t : OverlapPenaltyTracker) (min_ring_size : nat) (min_overlap : f64) (voters : list PublicKey)
    : list (list PublicKey) :=
  match voters with
  | [] => []
  | a :: voters =>
      let ring := a :: List.filter (co_vote t min_overlap a) voters in
      (if (min_ring_size <=? length ring)%nat then [ring] else []) ++ detect_rings t min_ring_size min_overlap voters
  end.
End Overlap.
Import Overlap.

(** ** The voting engine *)

Record VotingEngine := mkVoting {
  ve_rmax : f64;
  ve_min_quorum : f64;
  ve_overlap_tracker : option OverlapPenaltyTracker;
}.

Inductive VotingError :=
  | DuplicateVote (voter : PublicKey)
  | QuorumNotMet (required actual : f64)
  | CreditsMismatch (expected got : f64).

Definition voting_new (rmax min_quorum : f64) : VotingEngine := mkVoting rmax min_quorum None.
Definition with_overlap_tracker (tracker : OverlapPenaltyTracker) (e : VotingEngine) : VotingEngine :=
  mkVoting (ve_rmax e) (ve_min_quorum e) (Some tracker).

Definition compute_voting_credits (e : VotingEngine) (reputation : f64) : f64 :=
  f64_sqrt (f64_min reputation (ve_rmax e)).

Definition final_credits (e : VotingEngine) (v : GovernanceVote) : f64 :=
  match ve_overlap_tracker e with
  | Some tracker => apply_penalty tracker (gv_voter_pk v) (gv_credits v)
  | None => gv_credits v
  end.

(** The running totals of a tally and the voters seen. *)
Record Totals := mkTotals { to_yes : f64; to_no : f64; to_abstain : f64; to_voters : gset PublicKey }.
Definition add_ballot (b : Ballot) (credits : f64) (voter : PublicKey) (t : Totals) : Totals :=
  let seen := {[voter]} ∪ to_voters t in
  match b with
  | Yes => mkTotals (f64_add (to_yes t) credits) (to_no t) (to_abstain t) seen
  | No => mkTotals (to_yes t) (f64_add (to_no t) credits) (to_abstain t) seen
  | Abstain => mkTotals (to_yes t) (to_no t) (f64_add (to_abstain t) credits) seen
  end.
Fixpoint tally_loop (e : VotingEngine) (proposal_id : Hash) (votes : list GovernanceVote) (t : Totals) : result VotingError Totals :=
  match votes with
  | [] => Ok t
  | v :: votes =>
      if negb (bool_decide (gv_proposal_id v = proposal_id)) then tally_loop e proposal_id votes t
      else if bool_decide (gv_voter_pk v ∈ to_voters t) then Err (DuplicateVote (gv_voter_pk v))
      else tally_loop e proposal_id votes (add_ballot (gv_ballot v) (final_credits e v) (gv_voter_pk v) t)
  end.
Definition tally_votes (e : VotingEngine) (votes : list GovernanceVote) (proposal_id : Hash) : result VotingError QuorumStats :=
  let? t := tally_loop e proposal_id votes (mkTotals f64_zero f64_zero f64_zero ∅) in
  Ok (mkStats (to_yes t) (to_no t) (to_abstain t) (f64_add (f64_add (to_yes t) (to_no t)) (to_abstain t))).

Definition check_quorum (e : VotingEngine) (stats : QuorumStats) (total_eligible_credits : f64) : result VotingError unit :=
  let rate := f64_div (qs_total_participation stats) total_eligible_credits in
  if f64_ltb rate (ve_min_quorum e) then Err (QuorumNotMet (ve_min_quorum e) rate) else Ok tt.

Definition determine_result (stats : QuorumStats) (threshold : f64) : VoteResult :=
  let total_directional := f64_add (qs_yes stats) (qs_no stats) in
  if f64_eqb total_directional f64_zero then Fail
  else
    let yes_percentage := f64_div (qs_yes stats) total_directional in
    let passed := if f64_geb threshold (f64_lit 667 1000) then f64_geb yes_percentage threshold
                  else f64_gtb yes_percentage threshold in
    if passed then Pass else Fail.

Definition validate_credits (e : VotingEngine) (credits reputation : f64) : result VotingError unit :=
  let expected := compute_voting_credits e reputation in
  if f64_gtb (f64_abs (f64_sub credits expected)) (f64_lit 1 10000) then Err (CreditsMismatch expected credits) else Ok tt.

(** ** Tallies *)

Section tally.
Context (e : VotingEngine) (pid : Hash).

Definition votes_for (votes : list GovernanceVote) : list GovernanceVote := filter (fun v => gv_proposal_id v = pid) votes.
Definition ballots (b : Ballot) (l : list GovernanceVote) : list f64 := final_credits e <$> filter (fun v => gv_ballot v = b) l.
Definition ballot_sum (acc : f64) (b : Ballot) (l : list GovernanceVote) : f64 := foldl f64_add acc (ballots b l).
Definition add_all (l : list GovernanceVote) (t : Totals) : Totals :=
  mkTotals (ballot_sum (to_yes t) Yes l) (ballot_sum (to_no t) No l) (ballot_sum (to_abstain t) Abstain l)
    (list_to_set (gv_voter_pk <$> l) ∪ to_voters t).

Lemma add_all_cons v l t : add_all (v :: l) t = add_all l (add_ballot (gv_ballot v) (final_credits e v) (gv_voter_pk v) t).
Proof.
  unfold add_all, ballot_sum, ballots. rewrite !filter_cons.
  assert (forall A B C : gset PublicKey, A ∪ B ∪ C = B ∪ (A ∪ C)) as Hs by set_solver.
  destruct (gv_ballot v) eqn:Eb; simpl; by rewrite Hs.
Qed.

Lemma tally_loop_spec votes t :
  tally_loop e pid votes t = Ok (add_all (votes_for votes) t) /\ NoDup (gv_voter_pk <$> votes_for votes) /\
    (forall k, k ∈ gv_voter_pk <$> votes_for votes -> k ∉ to_voters t) \/
  exists l1 v l2, votes_for votes = l1 ++ v :: l2 /\ NoDup (gv_voter_pk <$> l1) /\
    (forall k, k ∈ gv_voter_pk <$> l1 -> k ∉ to_voters t) /\
    (gv_voter_pk v ∈ gv_voter_pk <$> l1 \/ gv_voter_pk v ∈ to_voters t) /\
    tally_loop e pid votes t = Err (DuplicateVote (gv_voter_pk v)).
Proof.
  revert t. induction votes as [|v votes IH]; intros t; simpl.
  { left. split; [|split; [constructor|by intros k ?%elem_of_nil]].
    unfold add_all, ballot_sum. destruct t. simpl. by rewrite (left_id_L ∅ (∪)). }
  unfold votes_for in *. rewrite filter_cons. case_decide as Hp; [rewrite bool_decide_true by done|rewrite bool_decide_false by done; apply IH].
  simpl. case_bool_decide as Hv.
  { right. exists [], v, (filter (fun v => gv_proposal_id v = pid) votes). repeat split; [constructor|by intros k ?%elem_of_nil|by right]. }
  assert (to_voters (add_ballot (gv_ballot v) (final_credits e v) (gv_voter_pk v) t) = {[gv_voter_pk v]} ∪ to_voters t) as Ht
    by (by destruct (gv_ballot v)).
  destruct (IH (add_ballot (gv_ballot v) (final_credits e v) (gv_voter_pk v) t)) as [(-> & Hnd & Hk)|(l1 & w & l2 & -> & Hnd & Hk & Hw & ->)];
    rewrite Ht in *.
  - left. rewrite add_all_cons. split; [done|]. split; [apply NoDup_cons; split; [|done]|set_solver].
    intros Hin. specialize (Hk _ Hin). set_solver.
  - right. exists (v :: l1), w, l2. split; [done|]. split_and!; [|set_solver..|done].
    apply NoDup_cons. split; [|done]. intros Hin. specialize (Hk _ Hin). set_solver.
Qed.

Lemma tally_votes_Ok votes stats :
  tally_votes e votes pid = Ok stats ->
  qs_yes stats = ballot_sum f64_zero Yes (votes_for votes) /\ qs_no stats = ballot_sum f64_zero No (votes_for votes) /\
  qs_abstain stats = ballot_sum f64_zero Abstain (votes_for votes) /\ qs_total_participation stats = qs_total stats.
Proof.
  unfold tally_votes.
  destruct (tally_loop_spec votes (mkTotals f64_zero f64_zero f64_zero ∅)) as [(-> & _)|(l1 & v & l2 & _ & _ & _ & _ & ->)]; [|done].
  by intros [= <-].
Qed.

(** A tally counts each vote for the proposal once: when no voter votes twice, the totals are the
    sums, in order, of the penalized credits of each ballot, and participation is their sum;
    otherwise it stops with the first voter who votes again.  Votes for other proposals are
    ignored. *)
Theorem tally_votes_correct votes :
  let mine := votes_for votes in
  (NoDup (gv_voter_pk <$> mine) ->
   exists stats, tally_votes e votes pid = Ok stats /\
     qs_yes stats = ballot_sum f64_zero Yes mine /\ qs_no stats = ballot_sum f64_zero No mine /\
     qs_abstain stats = ballot_sum f64_zero Abstain mine /\ qs_total_participation stats = qs_total stats) /\
  (~ NoDup (gv_voter_pk <$> mine) ->
   exists l1 v l2, mine = l1 ++ v :: l2 /\ NoDup (gv_voter_pk <$> l1) /\ gv_voter_pk v ∈ gv_voter_pk <$> l1 /\
     tally_votes e votes pid = Err (DuplicateVote (gv_voter_pk v))).
Proof.
  intros mine. unfold tally_votes.
  destruct (tally_loop_spec votes (mkTotals f64_zero f64_zero f64_zero ∅)) as [(-> & Hnd & _)|(l1 & v & l2 & Hm & Hnd & _ & Hv & ->)].
  - split; [|done]. intros _. by eexists.
  - assert (gv_voter_pk v ∈ gv_voter_pk <$> l1) as Hv' by (destruct Hv as [?|?]; [done|set_solver]). split.
    + intros Hnd'. unfold mine in Hnd'. rewrite Hm, fmap_app, fmap_cons in Hnd'. apply NoDup_app in Hnd' as (_ & Hd & _).
      exfalso. apply (Hd _ Hv'). by left.
    + intros _. by exists l1, v, l2.
Qed.
End tally.

(** ** Credits that are not a number *)

Lemma final_credits_nan e v : gv_credits v = S754_nan -> final_credits e v = S754_nan.
Proof.
  intros Hv. unfold final_credits, apply_penalty. rewrite Hv. destruct (ve_overlap_tracker e) as [t|]; [|done].
  destruct (ot_stats t !! gv_voter_pk v); [apply f64_mul_nan_r|done].
Qed.

Lemma ballot_sum_nan e b l v : v ∈ l -> gv_ballot v = b -> gv_credits v = S754_nan -> ballot_sum e f64_zero b l = S754_nan.
Proof.
  intros Hv Hb Hn. apply foldl_add_elem_nan. rewrite <-(final_credits_nan e v Hn). apply list_elem_of_fmap.
  exists v. split; [done|]. by apply list_elem_of_filter.
Qed.

Lemma qs_total_nan s : qs_yes s = S754_nan \/ qs_no s = S754_nan \/ qs_abstain s = S754_nan -> qs_total s = S754_nan.
Proof.
  unfold qs_total. intros [->|[->| ->]]; [done| |apply f64_add_nan_r].
  by rewrite f64_add_nan_r.
Qed.

(** Credits that are not a number pass validation for any reputation; one such vote in a tally
    meets every quorum, and as a yes or a no it makes the proposal fail whatever the other votes
    are. *)
Theorem nan_vote_decides e pid votes v stats rep total threshold :
  tally_votes e votes pid = Ok stats -> v ∈ votes_for pid votes -> gv_credits v = S754_nan ->
  validate_credits e (gv_credits v) rep = Ok tt /\ check_quorum e stats total = Ok tt /\
  (gv_ballot v <> Abstain -> determine_result stats threshold = Fail).
Proof.
  intros Ht Hv Hn. apply tally_votes_Ok in Ht as (Hy & Hno & Ha & Hp).
  assert (forall b, gv_ballot v = b -> ballot_sum e f64_zero b (votes_for pid votes) = S754_nan) as Hsum
    by (intros b Hb; by apply (ballot_sum_nan e b _ v)).
  assert (qs_total_participation stats = S754_nan) as Hpart.
  { rewrite Hp. apply qs_total_nan. destruct (gv_ballot v); rewrite Hy, Hno, Ha; eauto. }
  split_and!.
  - unfold validate_credits. rewrite Hn, f64_sub_nan_l. unfold f64_abs, f64_gtb. simpl SFabs.
    change (SFltb (f64_lit 1 10000) S754_nan) with (f64_ltb (f64_lit 1 10000) S754_nan). by rewrite f64_ltb_nan by (by right).
  - unfold check_quorum. rewrite Hpart, f64_div_nan_l, f64_ltb_nan; [done|by left].
  - intros Hb. unfold determine_result.
    assert (f64_add (qs_yes stats) (qs_no stats) = S754_nan) as ->.
    { rewrite Hy, Hno. destruct (gv_ballot v) eqn:Eb; [rewrite (Hsum Yes) by done; done|rewrite (Hsum No) by done; apply f64_add_nan_r|done]. }
    simpl. rewrite f64_div_nan_r. unfold f64_geb, f64_gtb.
    change (SFleb threshold S754_nan) with (f64_leb threshold S754_nan). change (SFltb threshold S754_nan) with (f64_ltb threshold S754_nan).
    rewrite (f64_leb_nan threshold), (f64_ltb_nan threshold) by (by right). by destruct (SFleb _ _).
Qed.

Definition nan_voter : PublicKey := [9].
Definition nan_votes : list GovernanceVote :=
  [mkVote [1] [7] (f64_of_Z 3) Yes 0; mkVote [1] [8] (f64_of_Z 3) Yes 0; mkVote [1] nan_voter S754_nan No 0].

Lemma nan_vote_decides_witness :
  exists stats, tally_votes (voting_new (f64_of_Z 100) (f64_lit 1 10)) nan_votes [1] = Ok stats /\
    check_quorum (voting_new (f64_of_Z 100) (f64_lit 1 10)) stats (f64_of_Z 1000000) = Ok tt /\
    determine_result stats (f64_lit 1 2) = Fail.
Proof.
  eexists. split; [reflexivity|].
  destruct (nan_vote_decides (voting_new (f64_of_Z 100) (f64_lit 1 10)) [1] nan_votes (mkVote [1] nan_voter S754_nan No 0)
    _ (f64_of_Z 1) (f64_of_Z 1000000) (f64_lit 1 2) eq_refl) as (_ & H1 & H2); [by right; right; left|done|].
  split; [exact H1|by apply H2].
Defined.

(** ** The overlap tracker *)

Section overlap.
Context {E : Type} (powi : f64 -> Z -> f64).
Implicit Types t : OverlapPenaltyTracker.

Lemma add_weight_foldl (wt : f64) (f : gmap PublicKey f64) (l : list PublicKey) (w : PublicKey) :
  NoDup l -> foldl (add_weight wt) f l !! w = if decide (w ∈ l) then Some (f64_add (default f64_zero (f !! w)) wt) else f !! w.
Proof.
  intros Hnd. revert f. induction Hnd as [|x l Hx _ IH]; intros f; cbn [foldl].
  { rewrite decide_False; [done|by intros ?%elem_of_nil]. }
  rewrite IH. unfold add_weight. destruct (decide (w = x)) as [->|Hne].
  - rewrite decide_False by done. rewrite decide_True by left. by rewrite lookup_insert_eq.
  - rewrite !lookup_insert_ne by done. destruct (decide (w ∈ l)).
    + by rewrite decide_True by (by right).
    + rewrite decide_False; [done|]. by intros [?|?]%elem_of_cons.
Qed.

(** The weights of the patterns that hold both voters, [ip] numbering them from the newest. *)
Definition both (voter w : PublicKey) (ip : nat * ProposalVotingPattern) : Prop := voter ∈ pt_voters ip.2 /\ w ∈ pt_voters ip.2.
Definition co_weights (decay : f64) (voter w : PublicKey) (l : list (nat * ProposalVotingPattern)) : list f64 :=
  (fun ip => powi decay (Z.of_nat ip.1)) <$> filter (both voter w) l.
Definition weight_sum (ws : list f64) : option f64 :=
  match ws with [] => None | _ => Some (foldl f64_add f64_zero ws) end.

Lemma add_pattern_foldl (decay : f64) (voter w : PublicKey) (l : list (nat * ProposalVotingPattern)) (f : gmap PublicKey f64) (n : Z) :
  w <> voter ->
  let r := foldl (add_pattern powi decay voter) (f, n) l in
  r.1 !! w = match co_weights decay voter w l with
             | [] => f !! w
             | ws => Some (foldl f64_add (default f64_zero (f !! w)) ws)
             end.
Proof.
  intros Hw. cbv zeta. revert f n. induction l as [|[idx p] l IH]; intros f n; [done|]. cbn [foldl]. unfold add_pattern at 2. cbn [fst snd].
  unfold co_weights. rewrite filter_cons.
  case_bool_decide as Hv; [|rewrite decide_False by (by intros []); apply IH].
  rewrite IH, add_weight_foldl by apply NoDup_elements. unfold co_weights.
  destruct (decide (w ∈ pt_voters p)) as [Hp|Hp].
  - rewrite (decide_True (P := w ∈ elements _)) by set_solver. rewrite (decide_True (P := both _ _ _)) by done. rewrite fmap_cons.
    cbn [fst snd]. destruct (_ <$> filter _ l); [done|by simpl].
  - rewrite (decide_False (P := w ∈ elements _)) by set_solver. by rewrite (decide_False (P := both _ _ _)) by (by intros []).
Qed.

Lemma add_pattern_self (decay : f64) (voter : PublicKey) (l : list (nat * ProposalVotingPattern)) (f : gmap PublicKey f64) (n : Z) :
  f !! voter = None ->
  let r := foldl (add_pattern powi decay voter) (f, n) l in
  r.1 !! voter = None /\ r.2 = n + Z.of_nat (length (filter (fun ip => voter ∈ pt_voters ip.2) l)).
Proof.
  cbv zeta. revert f n. induction l as [|[idx p] l IH]; intros f n Hf; [simpl; split; [done|lia]|]. cbn [foldl]. unfold add_pattern at 2 4. cbn [fst snd].
  rewrite filter_cons. cbn [fst snd]. case_bool_decide as Hv.
  - rewrite decide_True by done. cbn [length]. destruct (IH (foldl (add_weight (powi decay (Z.of_nat idx))) f (elements (pt_voters p ∖ {[voter]}))) (n + 1)) as [H1 H2].
    + rewrite add_weight_foldl by apply NoDup_elements. rewrite decide_False by set_solver. done.
    + split; [done|]. lia.
  - rewrite decide_False by done. by apply IH.
Qed.

Definition numbered (h : list ProposalVotingPattern) : list (nat * ProposalVotingPattern) := zip (seq 0 (length h)) (reverse h).

(** What a voter's statistics say of the history. *)
Record overlap_stats_of t (voter : PublicKey) (s : OverlapStats) : Prop := {
  ov_participation : os_participation_count s = Z.of_nat (length (filter (fun ip => voter ∈ pt_voters ip.2) (numbered (ot_history t))));
  ov_self : os_co_voting_frequency s !! voter = None;
  ov_frequency w : w <> voter -> os_co_voting_frequency s !! w =
    (fun x => f64_div x (f64_of_Z (os_participation_count s))) <$> weight_sum (co_weights (ot_decay_factor t) voter w (numbered (ot_history t)));
  ov_factor : exists score, overlap_score (E := E) (os_co_voting_frequency s) = Ok score /\ os_attenuation_factor s = attenuation t score;
}.

Lemma voter_overlap_spec t voter s :
  voter_overlap (E := E) powi t voter = Ok s -> overlap_stats_of t voter s.
Proof.
  unfold voter_overlap. intros (score & Hs & [= <-])%result_bind_Ok.
  destruct (add_pattern_self (ot_decay_factor t) voter (numbered (ot_history t)) ∅ 0 (lookup_empty _)) as [H1 H2].
  fold (overlap_freq powi t voter) in H1, H2. unfold numbered in H1, H2. change (foldl _ _ _) with (overlap_freq powi t voter) in H1, H2.
  assert (forall w, w <> voter -> (overlap_freq powi t voter).1 !! w = weight_sum (co_weights (ot_decay_factor t) voter w (numbered (ot_history t)))) as Hf.
  { intros w Hw. pose proof (add_pattern_foldl (ot_decay_factor t) voter w (numbered (ot_history t)) ∅ 0 Hw) as H. cbv zeta in H.
    unfold overlap_freq. unfold numbered in *. rewrite H, lookup_empty. by destruct (co_weights _ _ _ _). }
  split; cbn [os_participation_count os_co_voting_frequency os_attenuation_factor].
  - rewrite H2. done.
  - unfold normalize. destruct (0 <? _); [|done]. by rewrite lookup_fmap, H1.
  - intros w Hw. unfold normalize. destruct (0 <? (overlap_freq powi t voter).2) eqn:E0; [by rewrite lookup_fmap, Hf|].
    rewrite Hf by done. zbool. assert (co_weights (ot_decay_factor t) voter w (numbered (ot_history t)) = []) as ->; [|done].
    unfold co_weights. rewrite H2 in E0.
    assert (filter (fun ip => voter ∈ pt_voters ip.2) (numbered (ot_history t)) = []) as Hnil.
    { apply nil_length_inv. unfold numbered. lia. }
    assert (filter (both voter w) (numbered (ot_history t)) = []) as ->; [|done].
    apply elem_of_nil_inv. intros ip [[Hv _] Hin]%list_elem_of_filter.
    eapply not_elem_of_nil. rewrite <-Hnil. by apply list_elem_of_filter.
  - by exists score.
Qed.

Lemma update_voters_spec voters t t' :
  NoDup voters -> update_voters (E := E) powi voters t = (Ok tt, t') ->
  ot_history t' = ot_history t /\
  (forall v, v ∈ voters -> exists s, ot_stats t' !! v = Some s /\ overlap_stats_of t v s) /\
  (forall v, v ∉ voters -> ot_stats t' !! v = ot_stats t !! v) /\
  ot_lambda t' = ot_lambda t /\ ot_decay_factor t' = ot_decay_factor t.
Proof.
  intros Hnd. revert t. induction Hnd as [|v voters Hv _ IH]; intros t; cbn [update_voters].
  { intros [= <-]. split_and!; try done. by intros v ?%elem_of_nil. }
  intros ([] & t1 & H1 & H2)%M_bind_inv. unfold update_voter in H1.
  destruct (voter_overlap powi t v) as [s|?|] eqn:Es; [|done..]. injection H1 as <-. apply voter_overlap_spec in Es.
  destruct (IH _ H2) as (Hh & Hin & Hout & Hl & Hd). cbn [ot_history ot_stats ot_lambda ot_decay_factor with_stats] in *. split_and!; try done.
  - intros w [->|Hw]%elem_of_cons.
    + exists s. split; [|done]. rewrite Hout by done. apply lookup_insert_eq.
    + destruct (Hin w Hw) as (s' & Hs' & Ho). exists s'. split; [done|]. by destruct Ho; split.
  - intros w Hw. apply not_elem_of_cons in Hw as [Hne Hw]. rewrite Hout by done. by rewrite lookup_insert_ne.
Qed.

(** Recording the votes of a proposal appends its pattern, dropping the oldest of a full window.
    With fewer than five patterns nothing else changes; otherwise exactly the voters of this
    proposal get new statistics: their participation in the window, for each other voter the sum
    of the decayed weights of the proposals they share over that participation, and the factor
    one over one plus lambda times the mean of the five highest. *)
Theorem record_votes_correct pid voters t t' :
  record_votes (E := E) powi pid voters t = (Ok tt, t') ->
  ot_history t' = (if (ot_window_size t <=? length (ot_history t))%nat then tail (ot_history t) else ot_history t)
    ++ [mkPattern pid (list_to_set voters) (ot_current_epoch t)] /\
  if (length (ot_history t') <? MIN_PROPOSALS_FOR_PENALTY)%nat then ot_stats t' = ot_stats t
  else (forall v, v ∈ voters -> exists s, ot_stats t' !! v = Some s /\ overlap_stats_of t' v s) /\
       (forall v, v ∉ voters -> ot_stats t' !! v = ot_stats t !! v).
Proof.
  unfold record_votes. intros (epoch & t0 & [= <- <-] & H)%M_bind_inv. apply M_bind_inv in H as ([] & t1 & [= <-] & H).
  unfold update_voter_stats in H. apply M_bind_inv in H as (n & t2 & [= <- <-] & H).
  destruct (length _ <? _)%nat eqn:En; [injection H as <-; split; [done|]; unfold push_pattern, with_history in *;
    cbn [ot_history ot_stats] in *; by rewrite En|].
  destruct (update_voters_spec _ _ _ (NoDup_elements _) H) as (Hh & Hin & Hout & Hl & Hd). split; [exact Hh|].
  unfold push_pattern, with_history in Hh. cbn [ot_history] in Hh. rewrite Hh, En. rewrite <-Hh in En. split.
  - intros v Hv. destruct (Hin v) as (s & Hs & Ho); [by apply elem_of_elements, elem_of_list_to_set|]. exists s. split; [done|].
    destruct Ho as [O1 O2 O3 O4]. split; [rewrite Hh; exact O1|done|intros w Hw; rewrite Hh, Hd; by apply O3|].
    destruct O4 as (score & O4 & O5). exists score. split; [done|]. rewrite O5. unfold attenuation. by rewrite Hl.
  - intros v Hv. apply Hout. by rewrite elem_of_elements, elem_of_list_to_set.
Qed.
End overlap.

Definition linear_powi (x : f64) (n : Z) : f64 := if n =? 0 then f64_of_Z 1 else x.
Definition pair_votes (n : nat) : OverlapPenaltyTracker :=
  Nat.iter n (fun t => (record_votes (E := VotingError) linear_powi [1] [[7]; [8]] t).2) overlap_default.

Lemma record_votes_correct_witness :
  exists s, ot_stats (pair_votes 5) !! [7] = Some s /\ overlap_stats_of (E := VotingError) linear_powi (pair_votes 5) [7] s.
Proof.
  assert (record_votes (E := VotingError) linear_powi [1] [[7]; [8]] (pair_votes 4) = (Ok tt, pair_votes 5)) as Hrun
    by (vm_compute; reflexivity).
  destruct (record_votes_correct linear_powi [1] [[7]; [8]] _ _ Hrun) as [_ H].
  assert ((length (ot_history (pair_votes 5)) <? MIN_PROPOSALS_FOR_PENALTY)%nat = false) as Hn by (vm_compute; reflexivity).
  rewrite Hn in H. apply H. left.
Defined.
