(* ===== verification/Grants.v ===== *)
(** * Treasury grants

    [adic-governance/src/treasury.rs] with the grants, milestones and attestations of its
    [types.rs]: grants approved by governance, paid at once, per epoch or per milestone from the
    treasury's account.

    Balances are the modelled balance manager.  The public key set of an epoch comes from the
    DKG manager of [adic-pouw], over the threshold cryptography library: [pks_of] gives the set
    of an epoch, [to_tc] parses a signature and [bls_verify] checks it; [None] for [pks_of]
    is an executor without DKG manager.  [process_epoch] visits the grants in the order of a hash
    map, the argument [order].  Log lines are left out. *)

From S2P Require Import Prelude F64 Message Amount EconStorage Balance Lock Voting.

Record TreasuryGrant (Sched : Type) := mkGrant {
  tg_recipient : PublicKey;
  tg_total_amount : AdicAmount;
  tg_schedule : Sched;
  tg_proposal_id : Hash;
}.
Arguments mkGrant {Sched}.
Arguments tg_recipient {Sched}.
Arguments tg_total_amount {Sched}.
Arguments tg_schedule {Sched}.
Arguments tg_proposal_id {Sched}.

Inductive VerificationScheme :=
  | QuorumAttestation (threshold : f64)
  | AutomatedCheck (criteria : string)
  | OracleVerification (oracle_id : string)
  | PoUWTaskVerification (task_id : Hash) (min_quality : f64).

Record Milestone := mkMilestone {
  ms_id : Z;
  ms_amount : AdicAmount;
  ms_deliverable_cid : string;
  ms_deadline_epoch : Z;
  ms_verification_scheme : VerificationScheme;
}.

Inductive GrantSchedule :=
  | Atomic
  | Streamed (rate_per_epoch : AdicAmount) (duration_epochs : Z)
  | MilestoneGated (milestones : list Milestone).
Definition Grant : Type := TreasuryGrant GrantSchedule.

Inductive AttestationProof :=
  | QuorumSignature (signature : Bytes) (signers : list PublicKey) (quorum_size : Z) (signed_message : Bytes)
  | AutomatedCheckResult (passed : bool) (evidence_cid : string) (service_signature : option Bytes)
  | OracleAttestation (oracle_id : string) (result : bool) (oracle_signature : Bytes) (oracle_data : option string)
  | PoUWTaskCompletion (task_id : Hash) (completed : bool) (quality_score : f64) (receipt_id : Hash) (receipt_signature : option Bytes).

Record MilestoneAttestation := mkAttestation {
  ma_milestone_id : Z;
  ma_grant_id : Hash;
  ma_deliverable_cid : string;
  ma_proof : AttestationProof;
  ma_timestamp : Z;
}.

Inductive GrantStatus := GrantPending | GrantActive | GrantPaused | GrantCompleted | GrantFailed | GrantClawedBack.
#[export] Instance GrantStatus_eq_dec : EqDecision GrantStatus.
Proof. solve_decision. Defined.

Record GrantState := mkGrantState {
  gs_grant : Grant;
  gs_disbursed_amount : AdicAmount;
  gs_next_milestone_id : option Z;
  gs_status : GrantStatus;
  gs_start_epoch : Z;
  gs_last_disbursement_epoch : option Z;
}.

Record TreasuryExecutor (St : Type) := mkExecutor {
  te_balances : BalanceManager St;
  te_treasury_address : AccountAddress;
  te_active_grants : gmap Hash GrantState;
}.
Arguments mkExecutor {St}.
Arguments te_balances {St}.
Arguments te_treasury_address {St}.
Arguments te_active_grants {St}.

Inductive MilestoneReason :=
  | MilestoneIdMismatch | GrantIdMismatch | NotNextMilestone | MilestoneNotInGrant | DeadlinePassed
  | DeliverableMismatch | QuorumThresholdNotMet | NoPublicKeySet | BadSignatureFormat | SignatureRejected
  | CheckFailed | NoEvidence | OracleMismatch | OracleRejected | TaskMismatch | TaskNotCompleted
  | QualityTooLow | ProofSchemeMismatch.

Inductive GrantError :=
  | TransferFailed (e : EconError)
  | DisbursedExceedsTotal
  | DisbursedOverflow
  | GrantNotFound
  | NotMilestoneBased
  | MilestoneVerificationFailed (milestone_id : Z) (reason : MilestoneReason).

Definition with_grant_status (st : GrantStatus) (s : GrantState) : GrantState :=
  mkGrantState (gs_grant s) (gs_disbursed_amount s) (gs_next_milestone_id s) st (gs_start_epoch s) (gs_last_disbursement_epoch s).
Definition with_next_milestone (next : option Z) (s : GrantState) : GrantState :=
  mkGrantState (gs_grant s) (gs_disbursed_amount s) next (gs_status s) (gs_start_epoch s) (gs_last_disbursement_epoch s).
Definition with_disbursed (amount epoch : Z) (s : GrantState) : GrantState :=
  mkGrantState (gs_grant s) amount (gs_next_milestone_id s) (gs_status s) (gs_start_epoch s) (Some epoch).

Definition executor_new {St} (balances : BalanceManager St) (treasury_address : AccountAddress) : TreasuryExecutor St :=
  mkExecutor balances treasury_address ∅.

Section executor.
Context {St : Type} `{!EconomicsStorage St}.
Context (now : Z) (digest : Bytes -> string) (blake3 : Bytes -> Bytes).
Context {PKS TC : Type} (pks_of : option (Z -> option PKS)) (to_tc : Bytes -> option TC) (bls_verify : PKS -> TC -> Bytes -> bool).
Abbreviation TE := (TreasuryExecutor St).
Abbreviation TM := (M TE GrantError).

Definition on_treasury {A} (m : M (BalanceManager St) EconError A) : TM A :=
  mmap_err TransferFailed (mzoom te_balances (fun b te => mkExecutor b (te_treasury_address te) (te_active_grants te)) m).
Definition update_grants (f : gmap Hash GrantState -> gmap Hash GrantState) : TM unit :=
  mwrite (fun te => mkExecutor (te_balances te) (te_treasury_address te) (f (te_active_grants te))).
Definition put_grant (id : Hash) (s : GrantState) : TM unit := update_grants (insert id s).
Definition find_grant (id : Hash) : TM GrantState :=
  grants ← mread te_active_grants;
  mopt (grants !! id) GrantNotFound.

(** ** Verification of an attestation *)

Definition fail_milestone (m : Milestone) (r : MilestoneReason) : result GrantError unit :=
  Err (MilestoneVerificationFailed (ms_id m) r).
Definition dst_milestone_attestation : Bytes := ascii_bytes "ADIC-GOV-MILESTONE-v1".

Definition verify_quorum_signature (m : Milestone) (signature : Bytes) (signers : list PublicKey) (quorum_size : Z)
    (signed_message : Bytes) (threshold : f64) (current_epoch : Z) : result GrantError unit :=
  let actual_threshold := f64_div (f64_of_Z (Z.of_nat (length signers))) (f64_of_Z quorum_size) in
  if f64_ltb actual_threshold threshold then fail_milestone m QuorumThresholdNotMet
  else match pks_of with
  | Some pks_of =>
      match pks_of current_epoch with
      | None => fail_milestone m NoPublicKeySet
      | Some pks =>
          match to_tc signature with
          | None => fail_milestone m BadSignatureFormat
          | Some sig => if bls_verify pks sig (dst_milestone_attestation ++ signed_message) then Ok tt
                        else fail_milestone m SignatureRejected
          end
      end
  | None => Ok tt
  end.

Definition verify_automated_check_proof (m : Milestone) (passed : bool) (evidence_cid : string) : result GrantError unit :=
  if negb passed then fail_milestone m CheckFailed
  else if bool_decide (evidence_cid = EmptyString) then fail_milestone m NoEvidence else Ok tt.

Definition verify_oracle_proof (m : Milestone) (expected_oracle_id proof_oracle_id : string) (result : bool) : Prelude.result GrantError unit :=
  if negb (bool_decide (proof_oracle_id = expected_oracle_id)) then fail_milestone m OracleMismatch
  else if negb result then fail_milestone m OracleRejected else Ok tt.

Definition verify_pouw_completion (m : Milestone) (expected_task_id proof_task_id : Hash) (completed : bool)
    (quality_score min_quality : f64) : result GrantError unit :=
  if negb (bool_decide (proof_task_id = expected_task_id)) then fail_milestone m TaskMismatch
  else if negb completed then fail_milestone m TaskNotCompleted
  else if f64_ltb quality_score min_quality then fail_milestone m QualityTooLow else Ok tt.

Definition verify_milestone_attestation (m : Milestone) (a : MilestoneAttestation) (current_epoch : Z) : result GrantError unit :=
  if negb (bool_decide (ma_deliverable_cid a = ms_deliverable_cid m)) then fail_milestone m DeliverableMismatch
  else match ms_verification_scheme m, ma_proof a with
  | QuorumAttestation threshold, QuorumSignature signature signers quorum_size signed_message =>
      verify_quorum_signature m signature signers quorum_size signed_message threshold current_epoch
  | AutomatedCheck _, AutomatedCheckResult passed evidence_cid _ => verify_automated_check_proof m passed evidence_cid
  | OracleVerification oracle_id, OracleAttestation proof_oracle_id result _ _ => verify_oracle_proof m oracle_id proof_oracle_id result
  | PoUWTaskVerification task_id min_quality, PoUWTaskCompletion proof_task_id completed quality_score _ _ =>
      verify_pouw_completion m task_id proof_task_id completed quality_score min_quality
  | _, _ => fail_milestone m ProofSchemeMismatch
  end.

(** ** Payments *)

(** The state is a mutable reference into the map: it is returned with what was written to it. *)
Definition disburse_tranche (state : GrantState) (amount : AdicAmount) (current_epoch : Z) : TM GrantState :=
  treasury_address ← mread te_treasury_address;
  on_treasury (transfer now digest treasury_address (from_public_key blake3 (tg_recipient (gs_grant state))) amount);;
  disbursed ← mopt (amount_checked_add (gs_disbursed_amount state) amount) DisbursedOverflow;
  mret (with_disbursed disbursed current_epoch state).

Definition execute_atomic_grant (grant : Grant) : TM unit :=
  treasury_address ← mread te_treasury_address;
  on_treasury (transfer now digest treasury_address (from_public_key blake3 (tg_recipient grant)) (tg_total_amount grant));;
  mret tt.
Definition initialize_streamed_grant (grant : Grant) (current_epoch : Z) : TM unit :=
  put_grant (tg_proposal_id grant) (mkGrantState grant ZERO None GrantActive current_epoch None).
Definition initialize_milestone_grant (grant : Grant) (current_epoch : Z) : TM unit :=
  let first_milestone_id := match tg_schedule grant with MilestoneGated ms => ms_id <$> head ms | _ => None end in
  put_grant (tg_proposal_id grant) (mkGrantState grant ZERO first_milestone_id GrantActive current_epoch None).

Definition execute_grant (grant : Grant) (current_epoch : Z) : TM unit :=
  match tg_schedule grant with
  | Atomic => execute_atomic_grant grant
  | Streamed _ _ => initialize_streamed_grant grant current_epoch
  | MilestoneGated _ => initialize_milestone_grant grant current_epoch
  end.

(** The body of the loop of [process_epoch]. *)
Definition process_grant (current_epoch : Z) (id : Hash) (state : GrantState) : TM unit :=
  if negb (bool_decide (gs_status state = GrantActive)) then mret tt
  else match tg_schedule (gs_grant state) with
  | Streamed rate_per_epoch duration_epochs =>
      let epochs_elapsed := u64_saturating_sub current_epoch (gs_start_epoch state) in
      if duration_epochs <? epochs_elapsed then put_grant id (with_grant_status GrantCompleted state)
      else
        remaining ← mopt (amount_checked_sub (tg_total_amount (gs_grant state)) (gs_disbursed_amount state)) DisbursedExceedsTotal;
        if rate_per_epoch <=? remaining then
          state ← disburse_tranche state rate_per_epoch current_epoch;
          put_grant id (if tg_total_amount (gs_grant state) <=? gs_disbursed_amount state
                        then with_grant_status GrantCompleted state else state)
        else if 0 <? remaining then
          state ← disburse_tranche state remaining current_epoch;
          put_grant id (with_grant_status GrantCompleted state)
        else put_grant id (with_grant_status GrantCompleted state)
  | _ => mret tt
  end.
Fixpoint process_loop (current_epoch : Z) (order : list Hash) : TM unit :=
  match order with
  | [] => mret tt
  | id :: order =>
      grants ← mread te_active_grants;
      match grants !! id with Some state => process_grant current_epoch id state | None => mret tt end;;
      process_loop current_epoch order
  end.
Definition process_epoch (order : list Hash) (current_epoch : Z) : TM unit := process_loop current_epoch order.

Definition position_of (id : Z) (ms : list Milestone) : option nat := fst <$> list_find (fun m => ms_id m = id) ms.
Definition after_milestone (ms : list Milestone) (milestone_id : Z) (state : GrantState) : GrantState :=
  match position_of milestone_id ms with
  | Some i =>
      let next := ms_id <$> ms !! S i in
      let state := with_next_milestone next state in
      if bool_decide (next = None) then with_grant_status GrantCompleted state else state
  | None => state
  end.

Definition complete_milestone (grant_id : Hash) (milestone_id : Z) (a : MilestoneAttestation) (current_epoch : Z) : TM unit :=
  mbail (negb (ma_milestone_id a =? milestone_id)) (MilestoneVerificationFailed milestone_id MilestoneIdMismatch);;
  mbail (negb (bool_decide (ma_grant_id a = grant_id))) (MilestoneVerificationFailed milestone_id GrantIdMismatch);;
  state ← find_grant grant_id;
  mbail (negb (bool_decide (gs_next_milestone_id state = Some milestone_id))) (MilestoneVerificationFailed milestone_id NotNextMilestone);;
  match tg_schedule (gs_grant state) with
  | MilestoneGated milestones =>
      im ← mopt (list_find (fun m => ms_id m = milestone_id) milestones) (MilestoneVerificationFailed milestone_id MilestoneNotInGrant);
      let milestone := im.2 in
      if ms_deadline_epoch milestone <? current_epoch then
        put_grant grant_id (with_grant_status GrantPaused state);;
        mfail (MilestoneVerificationFailed milestone_id DeadlinePassed)
      else
        (fun te => (verify_milestone_attestation milestone a current_epoch, te));;
        state ← disburse_tranche state (ms_amount milestone) current_epoch;
        put_grant grant_id (after_milestone milestones milestone_id state)
  | _ => mfail NotMilestoneBased
  end.

Definition pause_grant (grant_id : Hash) : TM unit :=
  state ← find_grant grant_id;
  put_grant grant_id (with_grant_status GrantPaused state).

Definition clawback_grant (grant_id : Hash) : TM AdicAmount :=
  state ← find_grant grant_id;
  remaining ← mopt (amount_checked_sub (tg_total_amount (gs_grant state)) (gs_disbursed_amount state)) DisbursedExceedsTotal;
  mwhen (0 <? remaining) (put_grant grant_id (with_grant_status GrantClawedBack state));;
  mret remaining.

Definition get_grant_state (te : TE) (grant_id : Hash) : option GrantState := te_active_grants te !! grant_id.

Inductive grant_op :=
  | GExecute (grant : Grant) (epoch : Z)
  | GEpoch (order : list Hash) (epoch : Z)
  | GComplete (grant_id : Hash) (milestone_id : Z) (a : MilestoneAttestation) (epoch : Z)
  | GPause (grant_id : Hash)
  | GClawback (grant_id : Hash).
Definition grant_step (op : grant_op) : TM unit :=
  match op with
  | GExecute g epoch => execute_grant g epoch
  | GEpoch order epoch => process_epoch order epoch
  | GComplete id m a epoch => complete_milestone id m a epoch
  | GPause id => pause_grant id
  | GClawback id => clawback_grant id;; mret tt
  end.
Definition grant_run (te : TE) (ops : list grant_op) : TE := foldl (fun te op => (grant_step op te).2) te ops.
End executor.

(** ** Accounting *)

Section accounting.
Context {St : Type} `{!EconomicsStorage St} `{!EconomicsStorageLaws St}.
Context (now : Z) (digest : Bytes -> string) (blake3 : Bytes -> Bytes).
Context {PKS TC : Type} (pks_of : option (Z -> option PKS)) (to_tc : Bytes -> option TC) (bls_verify : PKS -> TC -> Bytes -> bool).
Abbreviation TE := (TreasuryExecutor St).
Implicit Types te : TE.

(** What the treasury's account holds, and what the grants record as paid. *)
Definition treasury_balance te : AdicAmount := bal (te_balances te) (te_treasury_address te).
Definition recorded (gs : gmap Hash GrantState) : Z := mapsum (fun ks => gs_disbursed_amount ks.2) gs.

Definition schedule_ok (total : AdicAmount) (sched : GrantSchedule) : Prop :=
  0 <= total <= u64_max /\
  match sched with
  | Atomic => True
  | Streamed rate _ => 0 <= rate
  | MilestoneGated ms => Forall (fun m => 0 <= ms_amount m) ms
  end.
Definition grant_ok (g : Grant) : Prop := schedule_ok (tg_total_amount g) (tg_schedule g).
Definition is_streamed (g : Grant) : bool := match tg_schedule g with Streamed _ _ => true | _ => false end.

(** Amounts are amounts, and a streamed grant has paid no more than its total. *)
Record grants_ok te : Prop := {
  go_coherent : coherent (te_balances te);
  go_grants id s : te_active_grants te !! id = Some s ->
    grant_ok (gs_grant s) /\ 0 <= gs_disbursed_amount s /\
    (is_streamed (gs_grant s) = true -> gs_disbursed_amount s <= tg_total_amount (gs_grant s));
}.

(** A step that pays: the treasury loses what the grants record, unless a total overflows. *)
Record accounted {A} te (r : result GrantError A) te' : Prop := {
  ac_ok : grants_ok te';
  ac_address : te_treasury_address te' = te_treasury_address te;
  ac_spent : treasury_balance te' <= treasury_balance te;
  ac_le : treasury_balance te' + recorded (te_active_grants te') <= treasury_balance te + recorded (te_active_grants te);
  ac_eq : r <> Err DisbursedOverflow ->
    treasury_balance te' + recorded (te_active_grants te') = treasury_balance te + recorded (te_active_grants te);
}.

Lemma accounted_refl {A} te (r : result GrantError A) : grants_ok te -> accounted te r te.
Proof. by split. Qed.

Lemma accounted_bind {A B} (m : M TE GrantError A) (k : A -> M TE GrantError B) te :
  (let '(r, te') := m te in accounted te r te') ->
  (forall a te', m te = (Ok a, te') -> accounted te (Ok a) te' -> let '(r, te'') := k a te' in accounted te' r te'') ->
  let '(r, te') := (m ≫= k) te in accounted te r te'.
Proof.
  unfold mbind, M_bind. destruct (m te) as [[a|e|] te1]; intros Hm Hk.
  - specialize (Hk a te1 eq_refl Hm). destruct (k a te1) as [r te2]. destruct Hm as [M1 M2 M3 M4 M5], Hk as [K1 K2 K3 K4 K5].
    split; [done|congruence|lia|lia|]. intros Hr. rewrite K5 by done. by apply M5.
  - destruct Hm as [M1 M2 M3 M4 M5]. split; try done. intros Hr. apply M5. congruence.
  - destruct Hm as [M1 M2 M3 M4 M5]. split; try done. intros Hr. by apply M5.
Qed.

(** The steps of a handler before its effects. *)
Lemma accounted_bail {B} b e (k : unit -> M TE GrantError B) te :
  grants_ok te -> (b = false -> let '(r, te') := k tt te in accounted te r te') ->
  let '(r, te') := (mbail b e ≫= k) te in accounted te r te'.
Proof. intros Hok Hk. destruct b; [by apply accounted_refl|by apply Hk]. Qed.
Lemma accounted_opt {A B} (o : option A) e (k : A -> M TE GrantError B) te :
  grants_ok te -> (forall a, o = Some a -> let '(r, te') := k a te in accounted te r te') ->
  let '(r, te') := (mopt o e ≫= k) te in accounted te r te'.
Proof. intros Hok Hk. destruct o; [by apply Hk|by apply accounted_refl]. Qed.
Lemma accounted_find {B} id (k : GrantState -> M TE GrantError B) te :
  grants_ok te -> (forall s, te_active_grants te !! id = Some s -> let '(r, te') := k s te in accounted te r te') ->
  let '(r, te') := (find_grant id ≫= k) te in accounted te r te'.
Proof.
  intros Hok Hk. change ((find_grant id ≫= k) te) with ((mopt (te_active_grants te !! id) GrantNotFound ≫= k) te).
  by apply accounted_opt.
Qed.

(** A grant rewritten without paying. *)
Lemma put_grant_ok id s s' te :
  grants_ok te -> te_active_grants te !! id = Some s -> gs_grant s' = gs_grant s -> gs_disbursed_amount s' = gs_disbursed_amount s ->
  let '(r, te') := put_grant id s' te in accounted te r te'.
Proof.
  intros [H1 H2] Hid Hg Hd. simpl. assert (recorded (<[id:=s']> (te_active_grants te)) = recorded (te_active_grants te)) as Hr.
  { unfold recorded. rewrite mapsum_insert, Hid. simpl. lia. }
  split; simpl; try done; try by rewrite Hr. split; [done|]. simpl.
  intros id' s'' [[<- <-]|[_ H']]%lookup_insert_Some; [rewrite Hg, Hd; by apply (H2 id)|by apply (H2 id')].
Qed.

Lemma disburse_ok s amount epoch te :
  coherent (te_balances te) -> 0 <= amount ->
  exists r te', disburse_tranche now digest blake3 s amount epoch te = (r, te') /\
    te_active_grants te' = te_active_grants te /\ te_treasury_address te' = te_treasury_address te /\ coherent (te_balances te') /\
    match r with
    | Ok s' => s' = with_disbursed (gs_disbursed_amount s + amount) epoch s /\ gs_disbursed_amount s + amount <= u64_max /\
               treasury_balance te' = treasury_balance te - amount
    | Err DisbursedOverflow => u64_max < gs_disbursed_amount s + amount /\ treasury_balance te' = treasury_balance te - amount
    | Err (TransferFailed _) => forall a, bal (te_balances te') a = bal (te_balances te) a
    | _ => False
    end.
Proof.
  intros Hc Ham. set (a := from_public_key blake3 (tg_recipient (gs_grant s))).
  destruct (transfer_spec now digest (te_treasury_address te) a amount Standard (te_balances te) Hc Ham)
    as (bm' & r & Ht & Hp & Hc' & _ & Hiff & Hmv).
  unfold disburse_tranche, on_treasury, mmap_err, mzoom, mbind, M_bind, mread. cbn [fst snd]. fold a. unfold transfer. rewrite Ht.
  destruct r as [h|e|]; [|by do 2 eexists; split_and!; [done..|]; intros b; cbn [te_balances];
    rewrite (Hmv b); simpl; repeat case_decide; naive_solver lia|done].
  assert (bal bm' (te_treasury_address te) = bal (te_balances te) (te_treasury_address te) - amount) as Hb.
  { rewrite (Hmv (te_treasury_address te)). simpl in Hiff |- *. destruct (proj1 Hiff eq_refl) as [->|(Hne & _)].
    - repeat case_decide; lia.
    - rewrite decide_False by (intros (? & _ & _); done). rewrite decide_True by done. lia. }
  unfold mopt. destruct (amount_checked_add (gs_disbursed_amount s) amount) as [d|] eqn:Ed.
  - apply u64_checked_add_Some in Ed as [-> Hd]. by do 2 eexists.
  - unfold amount_checked_add, u64_checked_add in Ed. destruct (_ <=? u64_max) eqn:E; [done|]. zbool.
    do 2 eexists. split; [done|]. by split_and!.
Qed.

(** A payment recorded in its grant. *)
Lemma pay_ok id s amount epoch (f : GrantState -> GrantState) te :
  grants_ok te -> te_active_grants te !! id = Some s -> 0 <= amount ->
  (is_streamed (gs_grant s) = true -> gs_disbursed_amount s + amount <= tg_total_amount (gs_grant s)) ->
  (forall s, gs_grant (f s) = gs_grant s /\ gs_disbursed_amount (f s) = gs_disbursed_amount s) ->
  let '(r, te') := (s' ← disburse_tranche now digest blake3 s amount epoch; put_grant id (f s')) te in accounted te r te'.
Proof.
  intros [H1 H2] Hid Ham Hst Hf. destruct (disburse_ok s amount epoch te H1 Ham) as (r & te' & Hd & Hg & Ha & Hc & Hr).
  unfold mbind, M_bind. rewrite Hd. destruct (H2 id s Hid) as (Hs1 & Hs2 & Hs3).
  assert (grants_ok te') as Hok by (split; [done|by rewrite Hg]).
  destruct r as [s'|[]|]; try done.
  - destruct Hr as (-> & Hmax & Hb). destruct (Hf (with_disbursed (gs_disbursed_amount s + amount) epoch s)) as [Hf1 Hf2].
    assert (recorded (<[id:=f (with_disbursed (gs_disbursed_amount s + amount) epoch s)]> (te_active_grants te')) =
            recorded (te_active_grants te) + amount) as Hr.
    { unfold recorded. rewrite Hg, mapsum_insert, Hid. cbn [snd]. rewrite Hf2. simpl. lia. }
    simpl. split; simpl; try done; unfold treasury_balance in *; simpl; rewrite ?Hr; try lia.
    split; [done|]. simpl. intros id' s''. rewrite Hg. intros [[<- <-]|[_ H']]%lookup_insert_Some; [|by apply (H2 id')].
    rewrite Hf1, Hf2. simpl. split; [done|]. split; [lia|done].
  - unfold treasury_balance in *. split; try done; unfold treasury_balance; rewrite ?Hg, ?Ha, ?Hr; lia || done.
  - destruct Hr as [_ Hr]. unfold treasury_balance in *. split; try done; unfold treasury_balance; rewrite ?Hg, ?Hr; lia || done.
Qed.

Lemma grant_lookup_ok id s te : grants_ok te -> te_active_grants te !! id = Some s ->
  grant_ok (gs_grant s) /\ 0 <= gs_disbursed_amount s /\
  (is_streamed (gs_grant s) = true -> gs_disbursed_amount s <= tg_total_amount (gs_grant s)).
Proof. intros [_ H]. apply H. Qed.

Lemma process_grant_ok epoch id s te :
  grants_ok te -> te_active_grants te !! id = Some s ->
  let '(r, te') := process_grant now digest blake3 epoch id s te in accounted te r te'.
Proof.
  intros Hok Hid. destruct (grant_lookup_ok id s te Hok Hid) as (Hg & Hd & Hst). unfold process_grant, grant_ok, is_streamed in *.
  destruct (negb _); [by apply accounted_refl|].
  destruct (tg_schedule (gs_grant s)) as [|rate duration|ms] eqn:Es; try by apply accounted_refl. specialize (Hst eq_refl).
  destruct (duration <? _); [by apply (put_grant_ok id s)|].
  unfold amount_checked_sub. destruct (u64_checked_sub _ _) as [remaining|] eqn:Er; [|by apply accounted_refl].
  apply u64_checked_sub_Some in Er as [-> _]. rewrite (M_bind_Ok _ _ te (tg_total_amount (gs_grant s) - gs_disbursed_amount s) te) by done.
  destruct (rate <=? _) eqn:E1; zbool; [|destruct (0 <? _) eqn:E2; zbool].
  - apply (pay_ok id s rate epoch (fun s => if tg_total_amount (gs_grant s) <=? gs_disbursed_amount s then with_grant_status GrantCompleted s else s));
      [done..|destruct Hg; simpl in *; lia|lia|]. intros s'. by destruct (_ <=? _).
  - apply (pay_ok id s (tg_total_amount (gs_grant s) - gs_disbursed_amount s) epoch (with_grant_status GrantCompleted)); [done..|lia|lia|done].
  - by apply (put_grant_ok id s).
Qed.

Lemma process_loop_ok epoch order te :
  grants_ok te -> let '(r, te') := process_loop now digest blake3 epoch order te in accounted te r te'.
Proof.
  revert te. induction order as [|id order IH]; intros te Hok; [by apply accounted_refl|]. cbn [process_loop].
  unfold mread. cbn [mbind M_bind].
  apply (accounted_bind (match te_active_grants te !! id with Some state => process_grant now digest blake3 epoch id state | None => mret tt end)).
  - destruct (te_active_grants te !! id) as [s|] eqn:Eid; [by apply process_grant_ok|by apply accounted_refl].
  - intros [] te' _ [Hok' _ _ _ _]. by apply IH.
Qed.

Lemma after_milestone_same ms id s :
  gs_grant (after_milestone ms id s) = gs_grant s /\ gs_disbursed_amount (after_milestone ms id s) = gs_disbursed_amount s.
Proof. unfold after_milestone. destruct (position_of id ms); [|done]. by case_bool_decide. Qed.

Lemma complete_milestone_ok id mid a epoch te :
  grants_ok te ->
  let '(r, te') := complete_milestone now digest blake3 pks_of to_tc bls_verify id mid a epoch te in accounted te r te'.
Proof.
  intros Hok. unfold complete_milestone. apply accounted_bail; [done|intros _]. apply accounted_bail; [done|intros _].
  apply accounted_find; [done|]. intros s Eid. apply accounted_bail; [done|intros _].
  destruct (tg_schedule (gs_grant s)) as [| |ms] eqn:Es; [by apply accounted_refl..|].
  apply accounted_opt; [done|]. intros [i m] Em. cbn [snd]. destruct (_ <? epoch).
  { apply accounted_bind; [by apply (put_grant_ok id s)|]. intros [] te' _ [Hok' _ _ _ _]. by apply accounted_refl. }
  apply accounted_bind; [by apply accounted_refl|]. intros [] te' [= _ <-] _.
  destruct (grant_lookup_ok id s te Hok Eid) as ([_ Hg] & Hd & Hst). rewrite Es in Hg.
  apply list_find_Some in Em as (Hi & _). apply list_elem_of_lookup_2 in Hi. rewrite Forall_forall in Hg.
  apply (pay_ok id s (ms_amount m) epoch (after_milestone ms mid)); [done..|by apply Hg| |apply after_milestone_same].
  unfold is_streamed. by rewrite Es.
Qed.

Lemma pause_grant_ok id te : grants_ok te -> let '(r, te') := pause_grant id te in accounted te r te'.
Proof. intros Hok. apply accounted_find; [done|]. intros s Hs. by apply (put_grant_ok id s). Qed.

Lemma clawback_grant_ok id te : grants_ok te -> let '(r, te') := clawback_grant id te in accounted te r te'.
Proof.
  intros Hok. apply accounted_find; [done|]. intros s Hs. apply accounted_opt; [done|]. intros d _.
  apply accounted_bind; [|intros [] te' _ [Hok' _ _ _ _]; by apply accounted_refl].
  unfold mwhen. destruct (0 <? d); [by apply (put_grant_ok id s)|by apply accounted_refl].
Qed.

Definition op_ok (op : grant_op) : Prop := match op with GExecute g _ => grant_ok g | _ => True end.

Lemma put_new_ok g next epoch te :
  grants_ok te -> grant_ok g ->
  grants_ok (put_grant (tg_proposal_id g) (mkGrantState g ZERO next GrantActive epoch None) te).2.
Proof.
  intros [H1 H2] Hg. split; [done|]. simpl. intros id s [[<- <-]|[_ Hs]]%lookup_insert_Some; [|by apply (H2 id)].
  simpl. unfold ZERO. split; [done|]. split; [lia|]. intros _. destruct Hg as [[? _] _]. lia.
Qed.

(** The treasury pays what the grants record: processing an epoch, completing a milestone, pausing
    or clawing back, whatever the outcome, takes from the treasury's account exactly what is added
    to the disbursed amounts (more only when a disbursed total overflows), and a streamed grant
    never records more than its total.  Executing an atomic grant pays its amount or nothing;
    executing another starts its record at zero and pays nothing. *)
Theorem grants_accounted op te :
  grants_ok te -> op_ok op ->
  let '(r, te') := grant_step now digest blake3 pks_of to_tc bls_verify op te in
  grants_ok te' /\ treasury_balance te' <= treasury_balance te /\
  match op with
  | GExecute g epoch =>
      match tg_schedule g with
      | Atomic => te_active_grants te' = te_active_grants te /\
                  treasury_balance te' = treasury_balance te - (if is_err r then 0 else tg_total_amount g)
      | _ => treasury_balance te' = treasury_balance te /\ r = Ok tt /\
             gs_disbursed_amount <$> (te_active_grants te' !! tg_proposal_id g) = Some 0
      end
  | _ => accounted te r te'
  end.
Proof.
  intros Hok Hop.
  assert (forall r te', accounted (A := unit) te r te' -> grants_ok te' /\ treasury_balance te' <= treasury_balance te /\ accounted te r te') as Hacc
    by (intros r te' [? ? ? ? ?]; by split_and!).
  destruct op as [g epoch|order epoch|id mid a epoch|id|id]; cbn [grant_step].
  - unfold execute_grant. destruct (tg_schedule g) as [|rate dur|ms] eqn:Es.
    + destruct Hok as [H1 H2]. destruct Hop as [[Ht _] _].
      destruct (transfer_spec now digest (te_treasury_address te) (from_public_key blake3 (tg_recipient g)) (tg_total_amount g) Standard
        (te_balances te) H1 Ht) as (bm' & r & Hr & Hp & Hc' & _ & Hiff & Hmv).
      unfold execute_atomic_grant, on_treasury, mmap_err, mzoom, mread, mbind, M_bind, transfer. rewrite Hr.
      specialize (Hmv (te_treasury_address te)). unfold can_transfer in Hiff. unfold treasury_balance.
      destruct r as [h|e|]; [| |done]; cbn [mret M_ret te_balances te_treasury_address te_active_grants is_err]; simpl is_err in *; simpl negb in *.
      * assert (bal bm' (te_treasury_address te) = bal (te_balances te) (te_treasury_address te) - tg_total_amount g) as Hb
          by (rewrite Hmv; destruct (proj1 Hiff eq_refl) as [->|(Hne & _)]; repeat case_decide; naive_solver lia).
        rewrite Hb. split; [by split|]. split; [lia|done].
      * assert (bal bm' (te_treasury_address te) = bal (te_balances te) (te_treasury_address te)) as Hb
          by (rewrite Hmv; repeat case_decide; naive_solver lia).
        rewrite Hb. split; [by split|]. split; [lia|]. split; [done|lia].
    + pose proof (put_new_ok g None epoch te Hok Hop) as H. simpl. split; [exact H|]. split; [done|]. by rewrite lookup_insert_eq.
    + pose proof (put_new_ok g (match tg_schedule g with MilestoneGated ms => ms_id <$> head ms | _ => None end) epoch te Hok Hop) as H.
      rewrite Es in H. unfold initialize_milestone_grant. rewrite Es. simpl. split; [exact H|]. split; [done|]. by rewrite lookup_insert_eq.
  - unfold process_epoch. pose proof (process_loop_ok epoch order te Hok) as H. destruct (process_loop _ _ _ _ _ _) as [r te']. by apply Hacc.
  - pose proof (complete_milestone_ok id mid a epoch te Hok) as H. destruct (complete_milestone _ _ _ _ _ _ _ _ _ _ _) as [r te']. by apply Hacc.
  - pose proof (pause_grant_ok id te Hok) as H. destruct (pause_grant id te) as [r te']. by apply Hacc.
  - pose proof (clawback_grant_ok id te Hok) as H. unfold mbind, M_bind.
    destruct (clawback_grant id te) as [[d|e|] te']; apply Hacc; destruct H as [? ? ? ? H5]; split; try done; intros Hr; apply H5; congruence.
Qed.

(** The conditions under which a milestone is paid.  The status of the grant is not one. *)
Record payable te (id : Hash) (mid : Z) (a : MilestoneAttestation) (epoch : Z) (s : GrantState) (ms : list Milestone) (i : nat) (m : Milestone) : Prop := {
  py_grant : te_active_grants te !! id = Some s;
  py_schedule : tg_schedule (gs_grant s) = MilestoneGated ms;
  py_milestone : list_find (fun m => ms_id m = mid) ms = Some (i, m);
  py_ids : ma_milestone_id a = mid /\ ma_grant_id a = id;
  py_next : gs_next_milestone_id s = Some mid;
  py_deadline : epoch <= ms_deadline_epoch m;
  py_verified : verify_milestone_attestation pks_of to_tc bls_verify m a epoch = Ok tt;
  py_funds : can_transfer (te_balances te) (te_treasury_address te) (from_public_key blake3 (tg_recipient (gs_grant s))) (ms_amount m);
  py_total : gs_disbursed_amount s + ms_amount m <= u64_max;
}.

Lemma disburse_iff s amount epoch te :
  coherent (te_balances te) -> 0 <= amount ->
  ((exists s', (disburse_tranche now digest blake3 s amount epoch te).1 = Ok s') <->
   can_transfer (te_balances te) (te_treasury_address te) (from_public_key blake3 (tg_recipient (gs_grant s))) amount /\
   gs_disbursed_amount s + amount <= u64_max).
Proof.
  intros Hc Ham. set (a := from_public_key blake3 (tg_recipient (gs_grant s))).
  destruct (transfer_spec now digest (te_treasury_address te) a amount Standard (te_balances te) Hc Ham)
    as (bm' & r & Ht & Hp & _ & _ & Hiff & _).
  unfold disburse_tranche, on_treasury, mmap_err, mzoom, mbind, M_bind, mread. cbn [fst snd]. fold a. unfold transfer. rewrite Ht.
  rewrite <-Hiff. destruct r as [h|e|]; [|naive_solver|done].
  unfold mopt, amount_checked_add, u64_checked_add. destruct (_ <=? u64_max) eqn:E; zbool; simpl; naive_solver lia.
Qed.

Lemma complete_milestone_pays id mid a epoch te s ms i m :
  grants_ok te -> payable te id mid a epoch s ms i m ->
  exists te', complete_milestone now digest blake3 pks_of to_tc bls_verify id mid a epoch te = (Ok tt, te') /\
    te_active_grants te' !! id =
      Some (after_milestone ms mid (with_disbursed (gs_disbursed_amount s + ms_amount m) epoch s)).
Proof.
  intros Hok [P1 P2 P3 [P4 P5] P6 P7 P8 P9 P10]. unfold complete_milestone.
  assert (0 <= ms_amount m) as Ham.
  { destruct (grant_lookup_ok id s te Hok P1) as ([_ Hg] & _). rewrite P2 in Hg. apply list_find_Some in P3 as (Hi & _).
    rewrite Forall_forall in Hg. apply Hg. by eapply list_elem_of_lookup_2. }
  rewrite (M_bind_Ok _ _ te tt te) by (by rewrite P4, Z.eqb_refl).
  rewrite (M_bind_Ok _ _ te tt te) by (by rewrite bool_decide_true).
  rewrite (M_bind_Ok _ _ te s te) by (unfold find_grant, mread, mbind, M_bind; by rewrite P1).
  rewrite (M_bind_Ok _ _ te tt te) by (by rewrite bool_decide_true).
  rewrite P2, P3. rewrite (M_bind_Ok _ _ te (i, m) te) by done. cbn [snd].
  apply Z.ltb_ge in P7. rewrite P7. rewrite (M_bind_Ok _ _ te tt te) by (by rewrite P8).
  destruct (disburse_ok s (ms_amount m) epoch te (go_coherent _ Hok) Ham) as (r & te' & Hd & _ & _ & _ & Hr).
  destruct (proj2 (disburse_iff s (ms_amount m) epoch te (go_coherent _ Hok) Ham)) as [s' Hs']; [by split|].
  rewrite Hd in Hs'. simpl in Hs'. subst r. destruct Hr as (-> & _). rewrite (M_bind_Ok _ _ te _ te' Hd).
  eexists. split; [done|]. simpl. apply lookup_insert_eq.
Qed.

(** A milestone is paid exactly when the attestation names it and its grant, it is the next one, the
    deadline has not passed, the attestation verifies and the treasury can pay; then the grant
    records the amount and moves to the milestone after it, or is completed after the last one. *)
Theorem complete_milestone_correct id mid a epoch te :
  grants_ok te ->
  let (r, te') := complete_milestone now digest blake3 pks_of to_tc bls_verify id mid a epoch te in
  (r = Ok tt <-> exists s ms i m, payable te id mid a epoch s ms i m) /\
  forall s ms i m, payable te id mid a epoch s ms i m ->
    exists s', te_active_grants te' !! id = Some s' /\ gs_disbursed_amount s' = gs_disbursed_amount s + ms_amount m /\
      gs_next_milestone_id s' = ms_id <$> ms !! S i /\
      gs_status s' = if bool_decide (ms !! S i = None) then GrantCompleted else gs_status s.
Proof.
  intros Hok. destruct (complete_milestone _ _ _ _ _ _ id mid a epoch te) as [r te'] eqn:Hrun. split; [split|].
  - intros ->. unfold complete_milestone in Hrun.
    apply M_bind_inv in Hrun as ([] & t1 & H1 & Hrun). destruct (ma_milestone_id a =? mid) eqn:E1; [|done]. injection H1 as <-.
    apply M_bind_inv in Hrun as ([] & t1 & H1 & Hrun). case_bool_decide as E2; [|done]. injection H1 as <-.
    apply M_bind_inv in Hrun as (s & t1 & H1 & Hrun). unfold find_grant, mread, mbind, M_bind in H1.
    destruct (te_active_grants te !! id) as [s0|] eqn:Eid; [|done]. injection H1 as <- <-.
    apply M_bind_inv in Hrun as ([] & t1 & H1 & Hrun). case_bool_decide as E3; [|done]. injection H1 as <-.
    destruct (tg_schedule (gs_grant s0)) as [| |ms] eqn:Es; [done..|].
    apply M_bind_inv in Hrun as ([i m] & t1 & H1 & Hrun). destruct (list_find _ ms) as [im|] eqn:Em; [|done].
    injection H1 as -> <-. cbn [snd] in Hrun. destruct (_ <? epoch) eqn:Ed; [by apply M_bind_inv in Hrun as (? & ? & _ & ?)|].
    apply M_bind_inv in Hrun as ([] & t1 & [= Hv <-] & Hrun). apply M_bind_inv in Hrun as (s' & t1 & Hdis & Hrun).
    exists s0, ms, i, m. zbool.
    assert (0 <= ms_amount m) as Ham.
    { destruct (grant_lookup_ok id s0 te Hok Eid) as ([_ Hg] & _). rewrite Es in Hg. apply list_find_Some in Em as (Hi & _).
      rewrite Forall_forall in Hg. apply Hg. by eapply list_elem_of_lookup_2. }
    destruct (proj1 (disburse_iff s0 (ms_amount m) epoch te (go_coherent _ Hok) Ham)) as [Hf Ht]; [exists s'; by rewrite Hdis|].
    by split.
  - intros (s & ms & i & m & Hp). destruct (complete_milestone_pays id mid a epoch te s ms i m Hok Hp) as (t & Ht & _). congruence.
  - intros s ms i m Hp. destruct (complete_milestone_pays id mid a epoch te s ms i m Hok Hp) as (t & Ht & Hg).
    assert (t = te') as -> by congruence. eexists. split; [exact Hg|]. unfold after_milestone, position_of. rewrite (py_milestone _ _ _ _ _ _ _ _ _ Hp).
    simpl. destruct (ms !! S i) as [m'|]; simpl; by rewrite ?bool_decide_true, ?bool_decide_false.
Qed.
End accounting.

(** ** A treasury with 100 units

    Alice's account is the treasury, Bob the recipient. *)

Definition demo_executor : TreasuryExecutor MemoryStorage := executor_new alice_manager alice.
Definition demo_grant (sched : GrantSchedule) (total : AdicAmount) : Grant := mkGrant bob total sched [1].
Definition demo_milestone (id amount : Z) : Milestone := mkMilestone id amount "cid" 9 (AutomatedCheck "build passes").
Definition demo_attestation (id : Z) : MilestoneAttestation :=
  mkAttestation id [1] "cid" (AutomatedCheckResult true "logs" None) 0.
Definition no_keys : option (Z -> option unit) := None.
Definition demo_step := grant_step (St := MemoryStorage) 0 no_digest (fun b => b) no_keys (fun _ : Bytes => Some tt) (fun _ _ _ => true).
Definition demo_run := grant_run (St := MemoryStorage) 0 no_digest (fun b => b) no_keys (fun _ : Bytes => Some tt) (fun _ _ _ => true).

Lemma demo_ok : grants_ok demo_executor.
Proof. split; [apply alice_coherent|]. intros id s. simpl. by rewrite lookup_empty. Qed.

Lemma grants_accounted_witness :
  let te := (demo_step (GExecute (demo_grant (Streamed 10 3) 25) 0) demo_executor).2 in
  exists te', demo_step (GEpoch [[1]] 1) te = (Ok tt, te') /\ treasury_balance te' = 90 /\
    treasury_balance te' + recorded (te_active_grants te') = treasury_balance te + recorded (te_active_grants te).
Proof.
  intros te.
  assert (grants_ok te) as Hok.
  { pose proof (grants_accounted 0 no_digest (fun b => b) no_keys (fun _ : Bytes => Some tt) (fun _ _ _ => true)
      (GExecute (demo_grant (Streamed 10 3) 25) 0) demo_executor demo_ok) as H. cbv zeta in H.
    apply H. split; simpl; [vm_compute; by split|done]. }
  pose proof (grants_accounted 0 no_digest (fun b => b) no_keys (fun _ : Bytes => Some tt) (fun _ _ _ => true) (GEpoch [[1]] 1) te Hok I) as H.
  assert (demo_step (GEpoch [[1]] 1) te = (Ok tt, (demo_step (GEpoch [[1]] 1) te).2)) as E by (vm_compute; reflexivity).
  unfold demo_step in E. rewrite E in H. destruct H as (_ & _ & [_ _ _ _ H]). exists (demo_step (GEpoch [[1]] 1) te).2.
  split; [exact E|]. split; [vm_compute; reflexivity|]. apply H. done.
Defined.

Lemma complete_milestone_correct_witness :
  let te := (demo_step (GExecute (demo_grant (MilestoneGated [demo_milestone 1 40; demo_milestone 2 30]) 70) 0) demo_executor).2 in
  grants_ok te /\ (complete_milestone 0 no_digest (fun b => b) no_keys (fun _ : Bytes => Some tt) (fun _ _ _ => true) [1] 1 (demo_attestation 1) 5 te).1 = Ok tt.
Proof.
  intros te.
  assert (grants_ok te) as Hok.
  { split.
    - apply coherent_decide. vm_compute. reflexivity.
    - intros id s. unfold te. cbn. intros [[<- <-]|[_ Hs]]%lookup_insert_Some; [|by rewrite lookup_empty in Hs]. cbn.
      split; [|done]. split; cbn; [unfold u64_max; lia|]. repeat constructor; cbn; lia. }
  split; [exact Hok|].
  pose proof (complete_milestone_correct 0 no_digest (fun b => b) no_keys (fun _ : Bytes => Some tt) (fun _ _ _ => true) [1] 1 (demo_attestation 1) 5 te Hok) as H.
  destruct (complete_milestone _ _ _ _ _ _ _ _ _ _ te) as [r te'] eqn:E. apply proj1 in H. apply H.
  exists (mkGrantState (demo_grant (MilestoneGated [demo_milestone 1 40; demo_milestone 2 30]) 70) 0 (Some 1) GrantActive 0 None),
    [demo_milestone 1 40; demo_milestone 2 30], 0%nat, (demo_milestone 1 40).
  split; try (vm_compute; reflexivity); try (vm_compute; discriminate); try (by split).
  right. split; [by apply (bool_decide_eq_false_1 _); vm_compute|]. split; vm_compute; discriminate.
Defined.

(** Clawing a grant back does not stop its milestones from being paid. *)
Theorem clawed_back_grant_pays :
  let te := demo_run demo_executor
    [GExecute (demo_grant (MilestoneGated [demo_milestone 1 40]) 40) 0; GClawback [1]; GComplete [1] 1 (demo_attestation 1) 5] in
  treasury_balance te = 60 /\ bal (te_balances te) bob = 40.
Proof. split; vm_compute; reflexivity. Qed.

(** Two milestones with the same id are the first one, payable without end and past the total. *)
Theorem repeated_milestone_exceeds_total :
  let te := demo_run demo_executor
    (GExecute (demo_grant (MilestoneGated [demo_milestone 1 20; demo_milestone 1 20]) 40) 0 ::
     replicate 4 (GComplete [1] 1 (demo_attestation 1) 5)) in
  bal (te_balances te) bob = 80 /\ gs_next_milestone_id <$> te_active_grants te !! [1] = Some (Some 1).
Proof. split; vm_compute; reflexivity. Qed.

(** A streamed grant is paid per call, not per epoch. *)
Theorem same_epoch_pays_twice :
  let te := demo_run demo_executor [GExecute (demo_grant (Streamed 10 3) 40) 0; GEpoch [[1]] 1; GEpoch [[1]] 1] in
  treasury_balance te = 80.
Proof. vm_compute. reflexivity. Qed.

(** Executing a grant again starts its record over. *)
Theorem reexecuted_grant_pays_again :
  let te := demo_run demo_executor
    [GExecute (demo_grant (Streamed 40 3) 40) 0; GEpoch [[1]] 1; GExecute (demo_grant (Streamed 40 3) 40) 2; GEpoch [[1]] 3] in
  bal (te_balances te) bob = 80.
Proof. vm_compute. reflexivity. Qed.

(** Without a DKG manager an attestation without signers of an empty quorum meets any threshold. *)
Theorem empty_quorum_verifies m threshold epoch :
  verify_quorum_signature no_keys (fun _ : Bytes => Some tt) (fun _ _ _ => true) m [] [] 0 [] threshold epoch = Ok tt.
Proof.
  unfold verify_quorum_signature. assert (f64_div (f64_of_Z (Z.of_nat (length (@nil PublicKey)))) (f64_of_Z 0) = S754_nan) as -> by reflexivity.
  by rewrite f64_ltb_nan by (by left).
Qed.
