(* ===== verification/Application.v ===== *)
(** * Finality and lifecycle of application messages

    [adic-app-common]: the finality adapter of [finality_adapter.rs], over the modelled finality
    engine, and the lifecycle manager of [lifecycle.rs] with the traits of [message_trait.rs],
    over the modelled engine and escrow manager.

    A [Duration] is its number of nanoseconds and an [Instant] a number of nanoseconds; each
    operation that reads the clock takes the times it reads.  The polling of
    [wait_for_finality] is a list of polls, each the state of the engine and the times read.
    [key_iter] is the order in which the cache lists its entries.  Log lines are left out. *)

From S2P Require Import Prelude F64 Message Amount EconStorage Balance Deposit Escrow Checkpoint Finality Voting.

(** ** Durations *)

Definition NANOS : Z := 1000000000.
Definition duration_max : Z := 2 ^ 64 * NANOS - 1.
Definition from_secs (s : Z) : Z := s * NANOS.
Definition from_millis (ms : Z) : Z := ms * 1000000.

(** [Duration::as_secs_f64]. *)
Definition as_secs_f64 (d : Z) : f64 := f64_add (f64_of_Z (d / NANOS)) (f64_div (f64_of_Z (d mod NANOS)) (f64_of_Z NANOS)).

Definition round_half_even (n d : Z) : Z :=
  let q := n / d in
  let r := n mod d in
  if 2 * r <? d then q else if d <? 2 * r then q + 1 else if Z.even q then q else q + 1.

(** [Duration::from_secs_f64]: the nearest nanosecond; a panic for a negative, infinite or too
    large number. *)
Definition from_secs_f64 (x : f64) : option Z :=
  match x with
  | S754_zero _ => Some 0
  | S754_finite false m e =>
      let n := if 0 <=? e then Z.pos m * 2 ^ e * NANOS else round_half_even (Z.pos m * NANOS) (2 ^ (- e)) in
      if n <=? duration_max then Some n else None
  | _ => None
  end.

(** [Instant::elapsed]. *)
Definition elapsed_since (now t : Z) : Z := Z.max 0 (now - t).

(** ** The finality adapter *)

Inductive FinalityPolicy := Strict | F1Only | F2Only.
#[export] Instance FinalityPolicy_eq_dec : EqDecision FinalityPolicy.
Proof. solve_decision. Defined.
Definition policy_default : FinalityPolicy := Strict.

Record FinalityStatus := mkStatus {
  st_message_id : MessageId;
  st_f1_final : bool;
  st_f2_final : bool;
  st_f1_time : option Z;
  st_f2_time : option Z;
  st_f2_confidence : option f64;
  st_checked_at : Z;
}.

Definition is_final (s : FinalityStatus) (policy : FinalityPolicy) : bool :=
  match policy with
  | Strict => st_f1_final s && st_f2_final s
  | F1Only => st_f1_final s
  | F2Only => st_f2_final s
  end.

Definition time_to_finality_ms (now : Z) (s : FinalityStatus) (policy : FinalityPolicy) : option Z :=
  let millis t := elapsed_since now t / 1000000 in
  match policy with
  | Strict => match st_f1_time s, st_f2_time s with
              | Some t1, Some t2 => Some (millis (Z.max t1 t2))
              | _, _ => None
              end
  | F1Only => millis <$> st_f1_time s
  | F2Only => millis <$> st_f2_time s
  end.

Record TimelockConfig := mkTimelock { tl_gamma_f1 : f64; tl_gamma_f2 : f64; tl_t_min : Z }.
Definition timelock_default : TimelockConfig := mkTimelock (f64_of_Z 2) (f64_lit 3 2) (from_secs 30).

Record FinalityTimes := mkTimes { ft_f1_times : list Z; ft_f2_times : list Z; ft_window_size : nat }.
Definition times_new (window_size : nat) : FinalityTimes := mkTimes [] [] window_size.
Definition add_time (window_size : nat) (t : Z) (times : list Z) : list Z :=
  let times := times ++ [t] in
  if (window_size <? length times)%nat then tail times else times.
Definition add_f1_time (t : Z) (s : FinalityTimes) : FinalityTimes :=
  mkTimes (add_time (ft_window_size s) t (ft_f1_times s)) (ft_f2_times s) (ft_window_size s).
Definition add_f2_time (t : Z) (s : FinalityTimes) : FinalityTimes :=
  mkTimes (ft_f1_times s) (add_time (ft_window_size s) t (ft_f2_times s)) (ft_window_size s).
Definition p95 (times : list Z) : Z :=
  match times with
  | [] => 0
  | _ =>
      let sorted := isort Z.leb times in
      let idx := f64_to_u64 (f64_mul (f64_of_Z (Z.of_nat (length times))) (f64_lit 95 100)) in
      default (List.last sorted 0) (sorted !! Z.to_nat idx)
  end.

Record FinalityAdapter := mkAdapter {
  ad_cache : gmap MessageId FinalityStatus;
  ad_cache_ttl : Z;
  ad_timelock_config : TimelockConfig;
  ad_stats : FinalityTimes;
}.
Inductive AdapterError := ArtifactNotFound | FinalityTimeout.

Definition adapter_new (cache_ttl : Z) (timelock_config : TimelockConfig) : FinalityAdapter :=
  mkAdapter ∅ cache_ttl timelock_config (times_new 1000).
Definition adapter_with_defaults : FinalityAdapter := adapter_new (from_secs 60) timelock_default.

Section adapter.
Context {St : Type} `{!EconomicsStorage St}.
Context (key_iter : gmap MessageId FinalityStatus -> list (MessageId * FinalityStatus)).
Abbreviation FE := (FinalityEngine St).
Abbreviation AM := (M FinalityAdapter AdapterError).

(** The status the engine's answer stands for. *)
Definition status_of (now : Z) (id : MessageId) (a : FinalityArtifact) : FinalityStatus :=
  let f1_final := bool_decide (is_Some (fw_kcore_root (witness a))) in
  let f2_final := bool_decide (is_Some (h3_stable (witness a))) in
  mkStatus id f1_final f2_final (if f1_final then Some now else None) (if f2_final then Some now else None)
    (f2_confidence (witness a)) now.
Definition status_pending (now : Z) (id : MessageId) : FinalityStatus := mkStatus id false false None None None now.

(** Past 1000 entries the oldest ones leave, so that 900 stay. *)
Definition prune_cache (cache : gmap MessageId FinalityStatus) : gmap MessageId FinalityStatus :=
  if (1000 <? size cache)%nat then
    let keys := isort (fun a b => st_checked_at a.2 <=? st_checked_at b.2) (key_iter cache) in
    foldl (fun c kv => delete kv.1 c) cache (take (size cache - 900) keys)
  else cache.

Definition with_cache (c : gmap MessageId FinalityStatus) (a : FinalityAdapter) : FinalityAdapter :=
  mkAdapter c (ad_cache_ttl a) (ad_timelock_config a) (ad_stats a).
Definition with_times (t : FinalityTimes) (a : FinalityAdapter) : FinalityAdapter :=
  mkAdapter (ad_cache a) (ad_cache_ttl a) (ad_timelock_config a) t.

(** The times recorded for a status that is final by either gate. *)
Definition record_times (later : Z) (status : FinalityStatus) (s : FinalityTimes) : FinalityTimes :=
  let s := match time_to_finality_ms later status F1Only with Some t => add_f1_time t s | None => s end in
  match time_to_finality_ms later status F2Only with Some t => add_f2_time t s | None => s end.

(** [now] is the time of the check and [later] the time at which the statistics are updated. *)
Definition check_finality (e : FE) (now later : Z) (id : MessageId) : AM FinalityStatus :=
  cache ← mread ad_cache;
  ttl ← mread ad_cache_ttl;
  match (s ← cache !! id; if elapsed_since now (st_checked_at s) <? ttl then Some s else None) with
  | Some status => mret status
  | None =>
      status ← (if bool_decide (is_Some (fe_finalized e !! id))
                then artifact ← mopt (fe_finalized e !! id) ArtifactNotFound; mret (status_of now id artifact)
                else mret (status_pending now id));
      mwrite (fun a => with_cache (prune_cache (<[id := status]> (ad_cache a))) a);;
      mwhen (st_f1_final status || st_f2_final status)
        (mwrite (fun a => with_times (record_times later status (ad_stats a)) a));;
      mret status
  end.

Definition adapter_is_final (e : FE) (now later : Z) (id : MessageId) (policy : FinalityPolicy) : AM bool :=
  status ← check_finality e now later id;
  mret (is_final status policy).

(** [T_enact = max{g1 T_F1, g2 T_F2, T_min}]; [None] is a panic of [from_secs_f64]. *)
Definition calculate_timelock (e : FE) (a : FinalityAdapter) : option Z :=
  let f1_p95 := default (from_secs 5) (p95_time (fe_f1_times e)) in
  let f2_p95 := default (from_secs 3) (p95_time (fe_f2_times e)) in
  f1 ← from_secs_f64 (f64_mul (as_secs_f64 f1_p95) (tl_gamma_f1 (ad_timelock_config a)));
  f2 ← from_secs_f64 (f64_mul (as_secs_f64 f2_p95) (tl_gamma_f2 (ad_timelock_config a)));
  Some (Z.max (Z.max f1 f2) (tl_t_min (ad_timelock_config a))).

Definition get_p95_times (a : FinalityAdapter) : Z * Z := (p95 (ft_f1_times (ad_stats a)), p95 (ft_f2_times (ad_stats a))).

Record Poll := mkPoll { po_engine : FE; po_now : Z; po_later : Z; po_end : Z }.
(** [None] while the polls given have not ended the wait. *)
Fixpoint wait_for_finality (start timeout : Z) (id : MessageId) (policy : FinalityPolicy) (polls : list Poll)
    : AM (option FinalityStatus) :=
  match polls with
  | [] => mret None
  | p :: polls =>
      status ← check_finality (po_engine p) (po_now p) (po_later p) id;
      if is_final status policy then mret (Some status)
      else if timeout <=? elapsed_since (po_end p) start then mfail FinalityTimeout
      else wait_for_finality start timeout id policy polls
  end.

Definition adapter_clear_cache : AM unit := mwrite (with_cache ∅).
End adapter.
Arguments mkPoll {St}.
Arguments po_engine {St}.
Arguments po_now {St}.
Arguments po_later {St}.
Arguments po_end {St}.

(** ** The lifecycle manager *)

Class LifecycleState (L : Type) := {
  lc_is_terminal : L -> bool;
  lc_can_transition_to : L -> L -> bool;
}.
#[export] Instance proposal_lifecycle : LifecycleState ProposalStatus := {
  lc_is_terminal := Voting.is_terminal;
  lc_can_transition_to := Voting.can_transition_to;
}.

Class AppMessage (T L : Type) := {
  msg_id : T -> MessageId;
  lifecycle_state : T -> L;
  required_finality : T -> FinalityGate;
}.

Inductive StateEvent := FinalityAchieved | Accepted | EventRejected | Timeout | ConditionMet (c : string) | Cancelled | CustomEvent (c : string).

Inductive EscrowAction :=
  | ActLock (t : EscrowType) (amount : AdicAmount) (epoch : Z)
  | ActRelease (id : LockId) (to : AccountAddress)
  | ActRefund (id : LockId)
  | ActSlash (id : LockId) (treasury : AccountAddress)
  | ActNone.

Record StateTransition (L : Type) := mkTransition {
  tr_from : L;
  tr_to : L;
  tr_event : StateEvent;
  tr_finality_artifact : option FinalityArtifact;
  tr_escrow_action : option EscrowAction;
}.
Arguments mkTransition {L}.
Arguments tr_from {L}.
Arguments tr_to {L}.
Arguments tr_event {L}.
Arguments tr_finality_artifact {L}.
Arguments tr_escrow_action {L}.

Record LifecycleEvent (L : Type) := mkLifecycleEvent {
  le_message_id : MessageId;
  le_from_state : L;
  le_to_state : L;
  le_event : StateEvent;
  le_lock_id : option LockId;
}.
Arguments mkLifecycleEvent {L}.

(** [lm_events]: the channel, when there is one, with what was sent to it. *)
Record LifecycleManager (St L : Type) := mkLifecycle {
  lm_finality_service : FinalityEngine St;
  lm_escrow_service : EscrowManager St;
  lm_events : option (list (LifecycleEvent L));
}.
Arguments mkLifecycle {St L}.
Arguments lm_finality_service {St L}.
Arguments lm_escrow_service {St L}.
Arguments lm_events {St L}.

Inductive LifecycleError := FromTerminal | InvalidTransition | FinalityNotMet | LifecycleEscrow (e : EscrowError).

Section lifecycle.
Context {St : Type} `{!EconomicsStorage St}.
Context (now : Z) (digest : Bytes -> string) (hex : Bytes -> string).
Context {T L : Type} `{!LifecycleState L} `{!AppMessage T L}.
Abbreviation LM := (LifecycleManager St L).
Abbreviation LMM := (M LM LifecycleError).

Definition gate_meets_requirement (achieved required : FinalityGate) : bool :=
  match achieved, required with
  | F1KCore, F1KCore | F2PersistentHomology, F2PersistentHomology | F1AndF2Composite, F1AndF2Composite => true
  | F2PersistentHomology, F1KCore => true
  | _, _ => false
  end.

Definition lifecycle_check_finality (msg : T) : LMM FinalityArtifact :=
  e ← mread lm_finality_service;
  artifact ← mopt (fe_finalized e !! msg_id msg) FinalityNotMet;
  mbail (negb (gate_meets_requirement (gate artifact) (required_finality msg))) FinalityNotMet;;
  mret artifact.

(** The default, which the manager uses for every message type: the current state. *)
Definition compute_next_state (msg : T) (_ : StateEvent) : LMM L := mret (lifecycle_state msg).

Definition on_escrow {A} (m : M (EscrowManager St) EscrowError A) : LMM A :=
  mmap_err LifecycleEscrow (mzoom lm_escrow_service (fun em lm => mkLifecycle (lm_finality_service lm) em (lm_events lm)) m).
Definition execute_escrow_action (action : EscrowAction) : LMM (option LockId) :=
  match action with
  | ActLock t amount epoch => id ← on_escrow (escrow_lock now hex t amount epoch); mret (Some id)
  | ActRelease id to => on_escrow (escrow_release now digest id to);; mret None
  | ActRefund id => on_escrow (escrow_refund id);; mret None
  | ActSlash id treasury => on_escrow (escrow_slash now digest id treasury);; mret None
  | ActNone => mret None
  end.

Definition emit_lifecycle (e : LifecycleEvent L) : LMM unit :=
  mwrite (fun lm => mkLifecycle (lm_finality_service lm) (lm_escrow_service lm) ((fun l => l ++ [e]) <$> lm_events lm)).

Definition is_finality_event (e : StateEvent) : bool := match e with FinalityAchieved => true | _ => false end.

Definition transition_with_escrow (msg : T) (event : StateEvent) (escrow_action : option EscrowAction) : LMM (StateTransition L) :=
  let current_state := lifecycle_state msg in
  mbail (lc_is_terminal current_state) FromTerminal;;
  next_state ← compute_next_state msg event;
  mbail (negb (lc_can_transition_to current_state next_state)) InvalidTransition;;
  finality_artifact ← (if is_finality_event event then a ← lifecycle_check_finality msg; mret (Some a) else mret None);
  lock_id ← (match escrow_action with Some action => execute_escrow_action action | None => mret None end);
  emit_lifecycle (mkLifecycleEvent (msg_id msg) current_state next_state event lock_id);;
  mret (mkTransition current_state next_state event finality_artifact escrow_action).
Definition transition (msg : T) (event : StateEvent) : LMM (StateTransition L) := transition_with_escrow msg event None.

Definition execute_on_finality (_ : T) : LMM unit := mret tt.
End lifecycle.

(** ** The timelock *)

Lemma round_half_even_nonneg n d : 0 <= n -> 0 < d -> 0 <= round_half_even n d.
Proof.
  intros Hn Hd. unfold round_half_even. pose proof (Z.div_pos n d Hn Hd).
  destruct (_ <? d); [done|]. destruct (d <? _); [lia|]. destruct (Z.even _); lia.
Qed.

Lemma from_secs_f64_range x d : from_secs_f64 x = Some d -> 0 <= d <= duration_max.
Proof.
  destruct x as [s|s| |[] m e]; try done; simpl; [intros [= <-]; unfold duration_max, NANOS; lia|].
  destruct (_ <=? duration_max) eqn:E; [|done]. intros [= <-]. zbool. split; [|exact E].
  destruct (0 <=? e) eqn:Ee; zbool.
  - unfold NANOS. pose proof (Z.pow_nonneg 2 e). nia.
  - apply round_half_even_nonneg; [unfold NANOS; lia|]. apply Z.pow_pos_nonneg; lia.
Qed.

(** ** What the adapter reports *)

Section adapter_facts.
Context {St : Type} `{!EconomicsStorage St}.
Context (key_iter : gmap MessageId FinalityStatus -> list (MessageId * FinalityStatus)).
Context (Hiter : forall m, key_iter m ≡ₚ map_to_list m).
Implicit Types (e : FinalityEngine St) (a : FinalityAdapter).
Abbreviation check_at := (check_finality key_iter).

(** The timelock is the largest of the three terms of the formula. *)
Lemma calculate_timelock_spec e a t :
  calculate_timelock e a = Some t ->
  exists f1 f2,
    from_secs_f64 (f64_mul (as_secs_f64 (default (from_secs 5) (p95_time (fe_f1_times e)))) (tl_gamma_f1 (ad_timelock_config a))) = Some f1 /\
    from_secs_f64 (f64_mul (as_secs_f64 (default (from_secs 3) (p95_time (fe_f2_times e)))) (tl_gamma_f2 (ad_timelock_config a))) = Some f2 /\
    f1 <= t /\ f2 <= t /\ tl_t_min (ad_timelock_config a) <= t /\ t ∈ [f1; f2; tl_t_min (ad_timelock_config a)].
Proof.
  unfold calculate_timelock. intros (f1 & H1 & H)%bind_Some. apply bind_Some in H as (f2 & H2 & [= <-]).
  exists f1, f2. split_and!; [done|done|lia..|]. rewrite !elem_of_cons. lia.
Qed.

Definition fresh (a : FinalityAdapter) (now : Z) (id : MessageId) : option FinalityStatus :=
  s ← ad_cache a !! id; if elapsed_since now (st_checked_at s) <? ad_cache_ttl a then Some s else None.
Definition answer e (now : Z) (id : MessageId) : FinalityStatus :=
  match fe_finalized e !! id with Some artifact => status_of now id artifact | None => status_pending now id end.

Lemma check_finality_eq e now later id a :
  check_at e now later id a =
  match fresh a now id with
  | Some s => (Ok s, a)
  | None =>
      let s := answer e now id in
      let a' := with_cache (prune_cache key_iter (<[id := s]> (ad_cache a))) a in
      (Ok s, if st_f1_final s || st_f2_final s then with_times (record_times later s (ad_stats a')) a' else a')
  end.
Proof.
  unfold check_finality. rewrite (M_bind_Ok _ _ a (ad_cache a) a), (M_bind_Ok _ _ a (ad_cache_ttl a) a) by done.
  fold (fresh a now id). destruct (fresh a now id) as [s|]; [reflexivity|]. unfold mbind, M_bind, answer, mopt, mwrite, mwhen.
  destruct (fe_finalized e !! id) as [art|]; simpl; [|reflexivity]. destruct (_ || _); reflexivity.
Qed.

Lemma foldl_delete_size (ks : list (MessageId * FinalityStatus)) (c : gmap MessageId FinalityStatus) :
  NoDup ks.*1 -> (forall k, k ∈ ks.*1 -> is_Some (c !! k)) ->
  size (foldl (fun c kv => delete kv.1 c) c ks) = (size c - length ks)%nat.
Proof.
  revert c. induction ks as [|[k v] ks IH]; intros c Hnd Hin; [simpl; lia|]. cbn [foldl fst]. apply NoDup_cons in Hnd as [Hk Hnd].
  destruct (Hin k) as [w Hw]; [left|].
  rewrite IH; [|done|].
  - rewrite (map_size_delete_Some k c) by (by eexists). simpl. lia.
  - intros k' Hk'. rewrite lookup_delete_ne by (by intros ->). apply Hin. by right.
Qed.

Lemma prune_size (c : gmap MessageId FinalityStatus) : (size (prune_cache key_iter c) <= 1000)%nat.
Proof.
  unfold prune_cache. destruct (1000 <? size c)%nat eqn:E; zbool; [|lia].
  set (keys := isort _ (key_iter c)).
  assert (keys ≡ₚ map_to_list c) as Hp by (unfold keys; by rewrite isort_Permutation, Hiter).
  assert (NoDup keys.*1) as Hnd by (rewrite Hp; apply NoDup_fst_map_to_list).
  assert (length keys = size c) as Hlen by (rewrite Hp; apply length_map_to_list).
  rewrite foldl_delete_size.
  - rewrite length_take. lia.
  - rewrite fmap_take. eapply sublist_NoDup; [exact Hnd|apply sublist_take].
  - intros k Hk. rewrite fmap_take in Hk. apply elem_of_take in Hk as (i & Hi & _). apply list_elem_of_lookup_2 in Hi.
    rewrite Hp in Hi. apply list_elem_of_fmap in Hi as ([k' v] & -> & Hv). apply elem_of_map_to_list in Hv. by eexists.
Qed.

Lemma prune_lookup (c : gmap MessageId FinalityStatus) id s : prune_cache key_iter c !! id = Some s -> c !! id = Some s.
Proof.
  unfold prune_cache. destruct (_ <? _)%nat; [|done]. match goal with |- context [take ?n ?l] => generalize (take n l) end.
  intros ks. revert c. induction ks as [|kv ks IH]; intros c; [done|]. cbn [foldl]. intros H%IH. by apply lookup_delete_Some in H as [_ H].
Qed.

(** The calls made so far, each with the engine and the times it saw. *)
Definition adapter_run (a : FinalityAdapter) (calls : list (Poll (St := St) * MessageId)) : FinalityAdapter :=
  foldl (fun a (c : Poll (St := St) * MessageId) => (check_at (po_engine c.1) (po_now c.1) (po_later c.1) c.2 a).2) a calls.

(** A check returns the engine's answer, or the answer to an earlier check of the message by the same
    adapter that is not older than the time to live; it never fails, the cache holds at most 1000
    entries and the windows of times at most 1000 each. *)
Theorem adapter_check_correct ttl tl calls e now later id :
  let a := adapter_run (adapter_new ttl tl) calls in
  let (r, a') := check_at e now later id a in
  (r = Ok (answer e now id) \/
   exists c, c ∈ calls /\ c.2 = id /\ elapsed_since now (po_now c.1) < ttl /\ r = Ok (answer (po_engine c.1) (po_now c.1) id)) /\
  (size (ad_cache a') <= 1000)%nat /\ (length (ft_f1_times (ad_stats a')) <= 1000)%nat /\ (length (ft_f2_times (ad_stats a')) <= 1000)%nat.
Proof.
  set (good (a : FinalityAdapter) (l : list (Poll (St := St) * MessageId)) := ad_cache_ttl a = ttl /\ ft_window_size (ad_stats a) = 1000%nat /\
    (forall id s, ad_cache a !! id = Some s -> exists c, c ∈ l /\ c.2 = id /\ s = answer (po_engine c.1) (po_now c.1) id) /\
    (size (ad_cache a) <= 1000)%nat /\ (length (ft_f1_times (ad_stats a)) <= 1000)%nat /\ (length (ft_f2_times (ad_stats a)) <= 1000)%nat).
  assert (forall n t l, (length l <= n -> length (add_time n t l) <= n)%nat) as Hadd.
  { intros n t l Hl. unfold add_time. rewrite length_app. simpl. destruct (n <? _)%nat eqn:E; zbool; [|rewrite length_app; simpl; lia].
    destruct l as [|x l]; simpl in *; [lia|]. rewrite length_app. simpl in *. lia. }
  assert (forall e now later id a l po, good a l -> po_engine po = e -> po_now po = now -> good (check_at e now later id a).2 (l ++ [(po, id)])) as Hstep.
  { intros e0 now0 later0 id0 a l po (G1 & G2 & G3 & G4 & G5 & G6) He Hn. rewrite check_finality_eq.
    destruct (fresh a now0 id0).
    { split_and!; try done. intros i s' Hs. destruct (G3 i s' Hs) as (c & Hc & H). exists c. split; [by apply elem_of_app; left|done]. }
    set (s := answer e0 now0 id0).
    assert (good (with_cache (prune_cache key_iter (<[id0 := s]> (ad_cache a))) a) (l ++ [(po, id0)])) as (H1 & H2 & H3 & H4 & H5 & H6).
    { split_and!; try done; [|apply prune_size]. intros i s'. simpl. intros [[<- <-]|[_ Hs]]%prune_lookup%lookup_insert_Some.
      - exists (po, id0). split; [apply elem_of_app; right; by left|]. unfold s; cbn [fst snd]; by rewrite He, Hn.
      - destruct (G3 i s' Hs) as (c & Hc & H). exists c. split; [by apply elem_of_app; left|done]. }
    cbn [snd]. destruct (_ || _); [|by split_and!]. unfold good, with_times, record_times. cbn [ad_cache_ttl ad_cache ad_stats] in *.
    split_and!; try done; repeat case_match; unfold add_f1_time, add_f2_time; cbn [ft_window_size ft_f1_times ft_f2_times] in *;
      try done; rewrite ?H2; by apply Hadd. }
  assert (good (adapter_run (adapter_new ttl tl) calls) calls) as Hgood.
  { unfold adapter_run. assert (good (adapter_new ttl tl) []) as H0.
    { split; [done|]. split; [done|]. split; [|simpl; rewrite map_size_empty; lia]. intros i s. simpl. by rewrite lookup_empty. }
    change calls with ([] ++ calls) at 2. generalize dependent (adapter_new ttl tl). generalize (@nil (Poll (St := St) * MessageId)) as l.
    induction calls as [|[po i] calls IH]; intros l a Ha; [by rewrite app_nil_r|].
    cbn [foldl fst snd]. replace (l ++ (po, i) :: calls) with ((l ++ [(po, i)]) ++ calls) by (by rewrite <-app_assoc).
    apply IH. by apply (Hstep _ _ _ _ a l po). }
  intros a. fold a in Hgood. pose proof (Hstep e now later id a calls (mkPoll e now later 0) Hgood eq_refl eq_refl) as (_ & _ & _ & Hs1 & Hs2 & Hs3).
  destruct (check_at e now later id a) as [r a'] eqn:E. cbn [snd] in *. split; [|done].
  rewrite check_finality_eq in E. destruct (fresh a now id) as [s|] eqn:Ef; [|injection E as <- _; by left].
  injection E as <- _. right. unfold fresh in Ef. apply bind_Some in Ef as (s' & Hs & Hif). destruct Hgood as (G1 & _ & G3 & _).
  destruct (elapsed_since now (st_checked_at s') <? _) eqn:El; [|done]. injection Hif as ->. zbool.
  destruct (G3 id s Hs) as (c & Hc & Hid & ->). exists c. split; [done|]. split; [done|]. split; [|done].
  rewrite G1 in El. unfold answer in El. destruct (fe_finalized (po_engine c.1) !! id); exact El.
Qed.
End adapter_facts.

(** ** Waiting for governance-grade finality *)

Section strict.
Context {St : Type} `{!EconomicsStorage St}.
Context (key_iter : gmap MessageId FinalityStatus -> list (MessageId * FinalityStatus)).
Context (map_iter : gmap MessageId nat -> list (MessageId * nat)) (set_iter : gset MessageId -> list MessageId).
Context (ball_iter : gmap (list Z) (list (MessageId * f64)) -> list (list Z * list (MessageId * f64))).
Context (pair_iter : gmap Matrix.ColIndex Matrix.RowIndex -> list (Matrix.ColIndex * Matrix.RowIndex)).
Context (values_iter : gmap MessageId FinalityArtifact -> list (MessageId * FinalityArtifact)).
Context (now : Z) (elapsed : nat -> Z) (f1_elapsed : MessageId -> Z) (blake3 sha256 : Bytes -> Bytes).
Context (artifact_json : FinalityArtifact -> option Bytes) (witness_json : FinalityWitness -> option Bytes).

(** The witness is that of one gate. *)
Definition one_gate (a : FinalityArtifact) : Prop := fw_kcore_root (witness a) = None \/ h3_stable (witness a) = None.

(** An engine in some state it can get to, artifacts stored from outside being of one gate. *)
Definition engine_reached (e : FinalityEngine St) : Prop :=
  exists config consensus storage,
    rtc (engine_step map_iter set_iter ball_iter pair_iter values_iter now elapsed f1_elapsed blake3 sha256 artifact_json witness_json one_gate)
      (finality_new config consensus storage) e.

Lemma reached_one_gate e id a : engine_reached e -> fe_finalized e !! id = Some a -> one_gate a.
Proof.
  intros (config & consensus & storage & Hr) Ha. eapply engine_artifacts in Hr; [by apply (Hr id)| |].
  - intros c i r. by right.
  - intros. by left.
Qed.

Lemma answer_not_strict e t id : engine_reached e -> is_final (answer e t id) Strict = false.
Proof.
  intros He. unfold answer. destruct (fe_finalized e !! id) as [a|] eqn:Ea; [|done].
  destruct (reached_one_gate e id a He Ea) as [H|H]; unfold status_of; rewrite H; simpl; [done|apply andb_false_r].
Qed.

Definition cache_not_strict (a : FinalityAdapter) : Prop := forall id s, ad_cache a !! id = Some s -> is_final s Strict = false.

Lemma check_not_strict e t later id a :
  engine_reached e -> cache_not_strict a ->
  exists s a', check_finality key_iter e t later id a = (Ok s, a') /\ is_final s Strict = false /\ cache_not_strict a'.
Proof.
  intros He Ha. rewrite check_finality_eq. destruct (fresh a t id) as [s|] eqn:Ef.
  - exists s, a. split; [done|]. split; [|done]. unfold fresh in Ef. apply bind_Some in Ef as (s' & Hs & Hif).
    destruct (_ <? _); [|done]. injection Hif as ->. by apply (Ha id).
  - eexists _, _. split; [done|]. split; [by apply answer_not_strict|].
    assert (cache_not_strict (with_cache (prune_cache key_iter (<[id := answer e t id]> (ad_cache a))) a)) as H.
    { intros i s. simpl. intros [[_ <-]|[_ Hs]]%prune_lookup%lookup_insert_Some; [by apply answer_not_strict|by apply (Ha i)]. }
    by destruct (_ || _).
Qed.

(** Waiting for both gates never succeeds: the engine's artifacts are of one gate, so whatever it
    finalizes meanwhile, the wait goes on until a poll ends past the timeout and then fails. *)
Theorem strict_wait_times_out ttl tl calls start timeout id polls :
  Forall (fun c => engine_reached (po_engine c.1)) calls -> Forall (fun p => engine_reached (po_engine p)) polls ->
  let r := (wait_for_finality key_iter start timeout id Strict polls (adapter_run key_iter (adapter_new ttl tl) calls)).1 in
  r = (if existsb (fun p => timeout <=? elapsed_since (po_end p) start) polls then Err FinalityTimeout else Ok None).
Proof.
  intros Hc Hp. assert (cache_not_strict (adapter_run key_iter (adapter_new ttl tl) calls)) as Ha.
  { assert (cache_not_strict (adapter_new ttl tl)) as H0 by (intros i s; simpl; by rewrite lookup_empty).
    generalize dependent (adapter_new ttl tl). unfold adapter_run. induction Hc as [|c calls Hc _ IH]; intros a Ha; [done|]. cbn [foldl].
    destruct (check_not_strict _ (po_now c.1) (po_later c.1) c.2 a Hc Ha) as (s & a' & E & _ & Ha'). rewrite E. by apply IH. }
  generalize dependent (adapter_run key_iter (adapter_new ttl tl) calls). cbv zeta.
  induction Hp as [|p polls Hp _ IH]; intros a Ha; [done|]. cbn [wait_for_finality existsb].
  destruct (check_not_strict _ (po_now p) (po_later p) id a Hp Ha) as (s & a' & E & Hs & Ha'). rewrite (M_bind_Ok _ _ _ _ _ E), Hs.
  destruct (timeout <=? _); [done|]. by apply IH.
Qed.
End strict.

(** ** Transitions *)

(** The lifecycle manager's transitions go nowhere: the next state is the current one, so a
    transition that succeeds stays where it is, and a governance proposal has none: each attempt
    fails before the escrow is touched or an event sent, and leaves the manager as it was. *)
Theorem transition_goes_nowhere {St} `{!EconomicsStorage St} (now : Z) (digest hex : Bytes -> string)
    {T L} `{!LifecycleState L} `{!AppMessage T L} `{!AppMessage T ProposalStatus} (msg : T) event action :
  (forall (lm lm' : LifecycleManager St L) tr,
    transition_with_escrow now digest hex msg event action lm = (Ok tr, lm') ->
    tr_from tr = lifecycle_state msg /\ tr_to tr = lifecycle_state msg) /\
  (forall lm : LifecycleManager St ProposalStatus,
    exists e, transition_with_escrow now digest hex msg event action lm = (Err e, lm) /\ (e = FromTerminal \/ e = InvalidTransition)).
Proof.
  split.
  - intros lm lm' tr. unfold transition_with_escrow, compute_next_state.
    intros ([] & s1 & _ & H)%M_bind_inv. apply M_bind_inv in H as (next & s2 & [= <- <-] & H). apply M_bind_inv in H as ([] & s3 & _ & H).
    apply M_bind_inv in H as (art & s4 & _ & H). apply M_bind_inv in H as (lock & s5 & _ & H). apply M_bind_inv in H as ([] & s6 & _ & [= <- <-]).
    done.
  - intros lm. unfold transition_with_escrow, compute_next_state, mbind, M_bind, mbail, mret, M_ret, mfail. cbn [lc_is_terminal lc_can_transition_to proposal_lifecycle].
    destruct (lifecycle_state msg); simpl; eauto.
Qed.

(** ** An engine that has finalized a message by F1 *)

Definition small_engine : FinalityEngine MemoryStorage :=
  (engine_check_finality map_to_list elements map_to_list map_to_list map_to_list 100 no_time no_time
     key_is_address key_is_address no_json no_json (queued one_consensus [one; two])).2.

Lemma adapter_check_correct_witness :
  exists s, (check_finality map_to_list small_engine 5 6 one adapter_with_defaults).1 = Ok s /\ st_f1_final s = true /\ st_f2_final s = false.
Proof.
  pose proof (adapter_check_correct map_to_list (fun m => reflexivity _) (from_secs 60) timelock_default [] small_engine 5 6 one) as H.
  cbv zeta in H. change (adapter_run map_to_list (adapter_new (from_secs 60) timelock_default) []) with adapter_with_defaults in H.
  destruct (check_finality map_to_list small_engine 5 6 one adapter_with_defaults) as [r a']. destruct H as [[->|(c & Hc & _)] _].
  - eexists. split; [reflexivity|]. split; vm_compute; reflexivity.
  - by apply elem_of_nil in Hc.
Defined.

Lemma strict_wait_times_out_witness :
  (wait_for_finality map_to_list 0 8 one Strict [mkPoll small_engine 5 6 7; mkPoll small_engine 8 8 9] adapter_with_defaults).1 =
    Err FinalityTimeout /\
  is_final (answer small_engine 5 one) F1Only = true.
Proof.
  split; [|vm_compute; reflexivity].
  assert (engine_reached map_to_list elements map_to_list map_to_list map_to_list 100 no_time no_time
    key_is_address key_is_address no_json no_json small_engine) as He.
  { exists small_config, one_consensus, Kcore.chain3. eapply rtc_l; [apply es_add with (id := one)|].
    eapply rtc_l; [apply es_add with (id := two)|]. eapply rtc_l; [apply es_check|]. apply rtc_refl. }
  apply (strict_wait_times_out map_to_list map_to_list elements map_to_list map_to_list map_to_list 100 no_time no_time
    key_is_address key_is_address no_json no_json (from_secs 60) timelock_default [] 0 8 one
    [mkPoll small_engine 5 6 7; mkPoll small_engine 8 8 9]); [constructor|]. repeat constructor; exact He.
Defined.
