(* ===== verification/NetworkMetadata.v ===== *)
(** * Network metadata

    [adic-app-common/src/network_metadata.rs]: the autonomous system and region of the nodes, which committees are
    spread over, and the guess from an address. *)

From S2P Require Import Prelude Message.

Record NodeNetworkInfo := mkNetInfo { nn_asn : Z; nn_region : string; nn_metadata : gmap string string }.
Definition net_info_default : NodeNetworkInfo := mkNetInfo 0 "unknown" ∅.
Definition NetworkMetadataRegistry : Type := gmap PublicKey NodeNetworkInfo.
Definition metadata_new : NetworkMetadataRegistry := ∅.
Definition metadata_register (pk : PublicKey) (info : NodeNetworkInfo) (s : NetworkMetadataRegistry) : NetworkMetadataRegistry := <[pk := info]> s.
Definition metadata_get (s : NetworkMetadataRegistry) (pk : PublicKey) : option NodeNetworkInfo := s !! pk.
Definition metadata_get_or_default (s : NetworkMetadataRegistry) (pk : PublicKey) : NodeNetworkInfo := default net_info_default (metadata_get s pk).
Definition metadata_register_batch (entries : list (PublicKey * NodeNetworkInfo)) (s : NetworkMetadataRegistry) : NetworkMetadataRegistry :=
  foldl (fun s e => metadata_register e.1 e.2 s) s entries.
Definition metadata_get_all (s : NetworkMetadataRegistry) : gmap PublicKey NodeNetworkInfo := s.
Definition metadata_remove (pk : PublicKey) (s : NetworkMetadataRegistry) : option NodeNetworkInfo * NetworkMetadataRegistry := (s !! pk, delete pk s).
Definition metadata_count (s : NetworkMetadataRegistry) : nat := size s.
Definition infer_from_ip (ip_address : string) : NodeNetworkInfo :=
  let '(asn, region) :=
    if String.prefix "10." ip_address || String.prefix "192.168." ip_address then (64512, "local"%string)
    else if String.prefix "8.8." ip_address then (15169, "us"%string)
    else if String.prefix "1.1." ip_address then (13335, "us"%string)
    else (0, "unknown"%string) in
  mkNetInfo asn region ∅.

(** ** Facts *)

(** The last information registered for a node counts, and the other nodes are not touched. *)
Lemma metadata_lookup pk pk' info s : metadata_get (metadata_register pk info s) pk' = if decide (pk' = pk) then Some info else metadata_get s pk'.
Proof. unfold metadata_get, metadata_register. case_decide as H; [subst; apply lookup_insert_eq|by apply lookup_insert_ne, not_eq_sym]. Qed.

(** A batch is registered as its entries one by one: for a node with several, the last one counts. *)
Theorem metadata_batch entries : forall s pk,
  metadata_get (metadata_register_batch entries s) pk =
  match List.find (fun e => bool_decide (e.1 = pk)) (rev entries) with Some e => Some e.2 | None => metadata_get s pk end.
Proof.
  induction entries as [|e entries IH] using rev_ind; intros s pk; [done|]. unfold metadata_register_batch in *. rewrite foldl_snoc, rev_app_distr. cbn.
  rewrite metadata_lookup, IH. case_decide as H; [subst; by rewrite bool_decide_eq_true_2|by rewrite bool_decide_eq_false_2 by congruence].
Qed.

(** After a removal nothing is known of the node, whose information is returned. *)
Theorem metadata_removed pk pk' s : let (info, s') := metadata_remove pk s in
  info = metadata_get s pk /\ metadata_get s' pk' = if decide (pk' = pk) then None else metadata_get s pk'.
Proof. unfold metadata_remove, metadata_get. split; [done|]. case_decide as H; [subst; apply lookup_delete_eq|by apply lookup_delete_ne, not_eq_sym]. Qed.
