(* ===== verification/Lifecycle.v ===== *)
(** * The lifecycle of a governance proposal

    [adic-governance/src/lifecycle.rs] and [GovernanceProposal] of its [types.rs]: submission,
    votes, tally and receipt, the wait for finality, timelock and enactment, over the modelled
    voting engine, reputations, parameter store, treasury executor, quorum selection and
    finality adapter.

    A vote is stored in a second step after its checks, since the lock on the votes is released
    in between: [cast_vote] is the two steps in a row.  [score_iter] is the order in which the
    reputations are listed, [chrono_add] adds seconds to a time ([None] for the overflow panic of
    [chrono]), [now] the clock of a call.  The signing request goes to the BLS coordinator of
    [adic-pouw], whose answer the code ignores: the requests made are kept in a list.  The
    receipts given to the callback are kept in a list, its answer being ignored too. *)

From S2P Require Import Prelude F64 Message Amount EconStorage Balance Reputation Admissibility Vrf Quorum Escrow Checkpoint Finality.
From S2P Require Import ParamStore Voting Grants Application NetworkMetadata.

Inductive AxisAction := AxisAdd | AxisDeprecate | AxisModify.
Record MigrationPlan := mkPlan { mp_ramp_epochs : Z; mp_weight_schedule : list (Z * f64) }.
Record AxisCatalogChange := mkAxisChange {
  ac_action : AxisAction;
  ac_axis_id : Z;
  ac_encoder_spec_cid : string;
  ac_ultrametric_proof_cid : string;
  ac_security_analysis_cid : string;
  ac_migration_plan : MigrationPlan;
}.

Record GovernanceProposal (V : Type) := mkProposal {
  gp_id : Hash;
  gp_class : ProposalClass;
  gp_proposer : PublicKey;
  gp_param_keys : list string;
  gp_new_values : V;
  gp_axis_changes : option AxisCatalogChange;
  gp_treasury_grant : option Grant;
  gp_enact_epoch : Z;
  gp_rationale_cid : string;
  gp_creation : Z;
  gp_voting_end : Z;
  gp_status : ProposalStatus;
  gp_yes : f64;
  gp_no : f64;
  gp_abstain : f64;
}.
Arguments mkProposal {V}.
Arguments gp_id {V}.
Arguments gp_class {V}.
Arguments gp_proposer {V}.
Arguments gp_param_keys {V}.
Arguments gp_new_values {V}.
Arguments gp_axis_changes {V}.
Arguments gp_treasury_grant {V}.
Arguments gp_enact_epoch {V}.
Arguments gp_rationale_cid {V}.
Arguments gp_creation {V}.
Arguments gp_voting_end {V}.
Arguments gp_status {V}.
Arguments gp_yes {V}.
Arguments gp_no {V}.
Arguments gp_abstain {V}.

Section proposal.
Context {V : Type}.
Implicit Types p : GovernanceProposal V.

Definition set_status (st : ProposalStatus) p : GovernanceProposal V :=
  mkProposal (gp_id p) (gp_class p) (gp_proposer p) (gp_param_keys p) (gp_new_values p) (gp_axis_changes p) (gp_treasury_grant p)
    (gp_enact_epoch p) (gp_rationale_cid p) (gp_creation p) (gp_voting_end p) st (gp_yes p) (gp_no p) (gp_abstain p).
Definition set_tallies (s : QuorumStats) p : GovernanceProposal V :=
  mkProposal (gp_id p) (gp_class p) (gp_proposer p) (gp_param_keys p) (gp_new_values p) (gp_axis_changes p) (gp_treasury_grant p)
    (gp_enact_epoch p) (gp_rationale_cid p) (gp_creation p) (gp_voting_end p) (gp_status p) (qs_yes s) (qs_no s) (qs_abstain s).
Definition set_voting_end (t : Z) p : GovernanceProposal V :=
  mkProposal (gp_id p) (gp_class p) (gp_proposer p) (gp_param_keys p) (gp_new_values p) (gp_axis_changes p) (gp_treasury_grant p)
    (gp_enact_epoch p) (gp_rationale_cid p) (gp_creation p) t (gp_status p) (gp_yes p) (gp_no p) (gp_abstain p).

Definition requires_supermajority p : bool := match gp_class p with Constitutional => true | Operational => false end.
Definition required_threshold p : f64 := match gp_class p with Constitutional => f64_lit 667 1000 | Operational => f64_lit 1 2 end.
Definition voting_ended p (current_time : Z) : bool := gp_voting_end p <=? current_time.
Definition vote_percentage p : option f64 :=
  let total_directional := f64_add (gp_yes p) (gp_no p) in
  if f64_gtb total_directional f64_zero then Some (f64_div (gp_yes p) total_directional) else None.
Definition passed_threshold p : bool :=
  match vote_percentage p with
  | Some pct => match gp_class p with
                | Constitutional => f64_geb pct (f64_lit 667 1000)
                | Operational => f64_gtb pct (f64_lit 1 2)
                end
  | None => false
  end.
End proposal.

Record LifecycleConfig := mkLifecycleConfig {
  lg_min_proposer_reputation : f64;
  lg_voting_duration_secs : Z;
  lg_min_quorum : f64;
  lg_rmax : f64;
  lg_gamma_f1 : f64;
  lg_gamma_f2 : f64;
  lg_min_timelock_secs : f64;
  lg_committee_size : nat;
  lg_bls_threshold : nat;
}.
Definition lifecycle_config_default : LifecycleConfig :=
  mkLifecycleConfig (f64_of_Z 100) (7 * 24 * 3600) (f64_lit 1 10) (f64_of_Z 100000) (f64_of_Z 2) (f64_of_Z 3) (f64_of_Z 1000) 15 10.

Record GovernanceReceipt := mkReceipt {
  gr_proposal_id : Hash;
  gr_quorum_stats : QuorumStats;
  gr_result : VoteResult;
  gr_receipt_seq : Z;
  gr_prev_receipt_hash : Hash;
  gr_timestamp : Z;
  gr_quorum_signature : option Bytes;
  gr_committee_members : list PublicKey;
}.

(** A request for signatures on a receipt: the message and the committee. *)
Record SigningRequest := mkRequest { sr_proposal_id : Hash; sr_message : Bytes; sr_committee : list PublicKey }.

Record ProposalLifecycle (V St : Type) := mkManager {
  pl_config : LifecycleConfig;
  pl_voting_engine : VotingEngine;
  pl_reputation : ReputationTracker;
  pl_finality : option FinalityAdapter;
  pl_parameter_store : option (ParameterStore V);
  pl_selector : option VRFService;
  pl_bls_signer : bool;
  pl_bls_coordinator : option (list SigningRequest);
  pl_network_metadata : option (gmap PublicKey NodeNetworkInfo);
  pl_treasury : option (TreasuryExecutor St);
  pl_receipt_callback : option (list (GovernanceReceipt * Z));
  pl_proposals : gmap Hash (GovernanceProposal V);
  pl_votes : gmap Hash (list GovernanceVote);
  pl_receipts : gmap Hash (list GovernanceReceipt);
  pl_message_ids : gmap Hash MessageId;
}.
Arguments mkManager {V St}.
Arguments pl_config {V St}.
Arguments pl_voting_engine {V St}.
Arguments pl_reputation {V St}.
Arguments pl_finality {V St}.
Arguments pl_parameter_store {V St}.
Arguments pl_selector {V St}.
Arguments pl_bls_signer {V St}.
Arguments pl_bls_coordinator {V St}.
Arguments pl_network_metadata {V St}.
Arguments pl_treasury {V St}.
Arguments pl_receipt_callback {V St}.
Arguments pl_proposals {V St}.
Arguments pl_votes {V St}.
Arguments pl_receipts {V St}.
Arguments pl_message_ids {V St}.

Inductive LifecycleFault :=
  | InsufficientReputation (required actual : f64)
  | ProposalNotFound (id : Hash)
  | InvalidStatus (expected found : ProposalStatus)
  | VotingEnded
  | VotingNotEnded
  | VoteFault (e : VotingError)
  | MessageIdNotFound (id : Hash)
  | WaitFailed (e : AdapterError)
  | ParameterUpdateFailed (key : string) (e : ParamError)
  | TreasuryFailed (e : GrantError)
  | BLSCoordinatorRequired.

(** The bits of a double, as [f64::to_le_bytes] lists them. *)
Definition f64_bits (x : f64) : Z :=
  let sign (s : bool) := if s then 2 ^ 63 else 0 in
  match x with
  | S754_zero s => sign s
  | S754_infinity s => sign s + 2047 * 2 ^ 52
  | S754_nan => 4095 * 2 ^ 51
  | S754_finite s m e =>
      if 2 ^ 52 <=? Z.pos m then sign s + (e + 1075) * 2 ^ 52 + (Z.pos m - 2 ^ 52) else sign s + Z.pos m
  end.
Definition f64_to_le_bytes (x : f64) : Bytes := to_le_bytes 8 (f64_bits x).

Definition result_byte (r : VoteResult) : Z := match r with Pass => 0 | Fail => 1 end.

Section manager.
Context {V : Type} `{!Json V}.
Context {St : Type} `{!EconomicsStorage St}.
Context (now : Z) (digest : Bytes -> string) (blake3 : Bytes -> Bytes).
Context {PKS TC : Type} (pks_of : option (Z -> option PKS)) (to_tc : Bytes -> option TC) (bls_verify : PKS -> TC -> Bytes -> bool).
Context (score_iter : gmap PublicKey ReputationScore -> list (PublicKey * ReputationScore)).
Context (key_iter : gmap MessageId FinalityStatus -> list (MessageId * FinalityStatus)).
Context (chrono_add : Z -> Z -> option Z).
Abbreviation PL := (ProposalLifecycle V St).
Abbreviation LM := (M PL LifecycleFault).

Definition manager_new (config : LifecycleConfig) (reputation : ReputationTracker) : PL :=
  mkManager config (voting_new (lg_rmax config) (lg_min_quorum config)) reputation None None None false None None None None ∅ ∅ ∅ ∅.

(** Writes of one part of the manager. *)
Definition put_proposals (f : gmap Hash (GovernanceProposal V) -> gmap Hash (GovernanceProposal V)) (s : PL) : PL :=
  mkManager (pl_config s) (pl_voting_engine s) (pl_reputation s) (pl_finality s) (pl_parameter_store s) (pl_selector s) (pl_bls_signer s)
    (pl_bls_coordinator s) (pl_network_metadata s) (pl_treasury s) (pl_receipt_callback s) (f (pl_proposals s)) (pl_votes s) (pl_receipts s) (pl_message_ids s).
Definition put_votes (v : gmap Hash (list GovernanceVote)) (s : PL) : PL :=
  mkManager (pl_config s) (pl_voting_engine s) (pl_reputation s) (pl_finality s) (pl_parameter_store s) (pl_selector s) (pl_bls_signer s)
    (pl_bls_coordinator s) (pl_network_metadata s) (pl_treasury s) (pl_receipt_callback s) (pl_proposals s) v (pl_receipts s) (pl_message_ids s).
Definition put_receipt (id : Hash) (r : GovernanceReceipt) (s : PL) : PL :=
  mkManager (pl_config s) (pl_voting_engine s) (pl_reputation s) (pl_finality s) (pl_parameter_store s) (pl_selector s) (pl_bls_signer s)
    (pl_bls_coordinator s) (pl_network_metadata s) (pl_treasury s) ((fun l => l ++ [(r, 0)]) <$> pl_receipt_callback s) (pl_proposals s) (pl_votes s)
    (<[id := default [] (pl_receipts s !! id) ++ [r]]> (pl_receipts s)) (pl_message_ids s).
Definition put_request (r : SigningRequest) (s : PL) : PL :=
  mkManager (pl_config s) (pl_voting_engine s) (pl_reputation s) (pl_finality s) (pl_parameter_store s) (pl_selector s) (pl_bls_signer s)
    ((fun l => l ++ [r]) <$> pl_bls_coordinator s) (pl_network_metadata s) (pl_treasury s) (pl_receipt_callback s) (pl_proposals s) (pl_votes s)
    (pl_receipts s) (pl_message_ids s).
Definition put_store (ps : ParameterStore V) (s : PL) : PL :=
  mkManager (pl_config s) (pl_voting_engine s) (pl_reputation s) (pl_finality s) (Some ps) (pl_selector s) (pl_bls_signer s)
    (pl_bls_coordinator s) (pl_network_metadata s) (pl_treasury s) (pl_receipt_callback s) (pl_proposals s) (pl_votes s) (pl_receipts s) (pl_message_ids s).
Definition put_treasury (te : TreasuryExecutor St) (s : PL) : PL :=
  mkManager (pl_config s) (pl_voting_engine s) (pl_reputation s) (pl_finality s) (pl_parameter_store s) (pl_selector s) (pl_bls_signer s)
    (pl_bls_coordinator s) (pl_network_metadata s) (Some te) (pl_receipt_callback s) (pl_proposals s) (pl_votes s) (pl_receipts s) (pl_message_ids s).
Definition put_finality (fa : FinalityAdapter) (s : PL) : PL :=
  mkManager (pl_config s) (pl_voting_engine s) (pl_reputation s) (Some fa) (pl_parameter_store s) (pl_selector s) (pl_bls_signer s)
    (pl_bls_coordinator s) (pl_network_metadata s) (pl_treasury s) (pl_receipt_callback s) (pl_proposals s) (pl_votes s) (pl_receipts s) (pl_message_ids s).
Definition put_message_id (id : Hash) (m : MessageId) (s : PL) : PL :=
  mkManager (pl_config s) (pl_voting_engine s) (pl_reputation s) (pl_finality s) (pl_parameter_store s) (pl_selector s) (pl_bls_signer s)
    (pl_bls_coordinator s) (pl_network_metadata s) (pl_treasury s) (pl_receipt_callback s) (pl_proposals s) (pl_votes s) (pl_receipts s)
    (<[id := m]> (pl_message_ids s)).

Definition find_proposal (id : Hash) : LM (GovernanceProposal V) :=
  proposals ← mread pl_proposals;
  mopt (proposals !! id) (ProposalNotFound id).
Definition put_proposal (id : Hash) (p : GovernanceProposal V) : LM unit := mwrite (put_proposals (insert id p)).
Definition expect_status (st : ProposalStatus) (p : GovernanceProposal V) : LM unit :=
  mbail (negb (bool_decide (gp_status p = st))) (InvalidStatus st (gp_status p)).
(** [None] is a panic. *)
Definition or_panic {A} (o : option A) : LM A := match o with Some a => mret a | None => mpanic end.

(** ** Submission and votes *)

Definition submit_proposal (p : GovernanceProposal V) : LM Hash :=
  s ← mread (fun s => s);
  let rep := get_reputation (pl_reputation s) (gp_proposer p) in
  mbail (f64_ltb rep (lg_min_proposer_reputation (pl_config s))) (InsufficientReputation (lg_min_proposer_reputation (pl_config s)) rep);;
  voting_end ← or_panic (chrono_add (gp_creation p) (lg_voting_duration_secs (pl_config s)));
  put_proposal (gp_id p) (set_status Voting (set_voting_end voting_end p));;
  mret (gp_id p).

Definition cast_vote_check (v : GovernanceVote) : LM unit :=
  s ← mread (fun s => s);
  p ← find_proposal (gv_proposal_id v);
  expect_status Voting p;;
  mbail (voting_ended p now) VotingEnded;;
  mmap_err VoteFault (mresult (validate_credits (pl_voting_engine s) (gv_credits v) (get_reputation (pl_reputation s) (gv_voter_pk v))));;
  mbail (existsb (fun w => bool_decide (gv_voter_pk w = gv_voter_pk v)) (default [] (pl_votes s !! gv_proposal_id v)))
    (VoteFault (DuplicateVote (gv_voter_pk v))).
Definition cast_vote_store (v : GovernanceVote) : LM unit :=
  mwrite (fun s => put_votes (<[gv_proposal_id v := default [] (pl_votes s !! gv_proposal_id v) ++ [v]]> (pl_votes s)) s).
Definition cast_vote (v : GovernanceVote) : LM unit := cast_vote_check v;; cast_vote_store v.

(** ** Tally and receipt *)

Definition calculate_total_eligible_credits (s : PL) : f64 :=
  let add total (kv : PublicKey * ReputationScore) :=
    if f64_gtb (value kv.2) f64_zero then f64_add total (f64_sqrt (f64_min (value kv.2) (lg_rmax (pl_config s)))) else total in
  f64_max (foldl add f64_zero (score_iter (get_all_scores (pl_reputation s)))) (f64_of_Z 1).

Definition proposal_epoch (id : Hash) : Z := foldl (fun acc b => to_u64 (acc + b)) 0 id.
Definition governance_quorum (c : LifecycleConfig) : QuorumConfig :=
  mkQuorumConfig (f64_of_Z 100) ((lg_committee_size c + 2) / 3) (lg_committee_size c) 2 3 "ADIC-GOV-Q" 3.

(** The network of a node: registered, or derived from the hash of its key. *)
Definition node_network (metadata : option (gmap PublicKey NodeNetworkInfo)) (pk : PublicKey) : Z * string :=
  match metadata with
  | Some registry => let info := default net_info_default (registry !! pk) in (nn_asn info, nn_region info)
  | None =>
      let h := blake3 pk in
      let byte i := default 0 (h !! i) in
      ((byte 0%nat * 2 ^ 24 + byte 1%nat * 2 ^ 16 + byte 2%nat * 2 ^ 8 + byte 3%nat) mod 65536, ("r" +:+ show_u64 (byte 4%nat mod 26))%string)
  end.
Definition committee_candidate (metadata : option (gmap PublicKey NodeNetworkInfo)) (kv : PublicKey * ReputationScore) : NodeInfo :=
  let net := node_network metadata kv.1 in
  mkNode kv.1 (value kv.2) (Some net.1) (Some net.2) [].
Definition committee_candidates (s : PL) : list NodeInfo :=
  committee_candidate (pl_network_metadata s) <$>
    List.filter (fun kv => negb (f64_ltb (value kv.2) (qc_min_reputation (governance_quorum (pl_config s)))))
      (score_iter (get_all_scores (pl_reputation s))).

Definition receipt_message (id : Hash) (stats : QuorumStats) (r : VoteResult) : Bytes :=
  id ++ f64_to_le_bytes (qs_yes stats) ++ f64_to_le_bytes (qs_no stats) ++ f64_to_le_bytes (qs_abstain stats) ++ [result_byte r].

Definition generate_receipt_signature (id : Hash) (stats : QuorumStats) (r : VoteResult) : LM (option Bytes * list PublicKey) :=
  s ← mread (fun s => s);
  match pl_selector s with
  | Some selector =>
      if pl_bls_signer s then
        match select_committee blake3 selector (proposal_epoch id) (governance_quorum (pl_config s)) (committee_candidates s) with
        | Ok committee =>
            let members := qm_public_key <$> qr_members committee in
            mbail (bool_decide (pl_bls_coordinator s = None)) BLSCoordinatorRequired;;
            mwrite (put_request (mkRequest id (receipt_message id stats r) members));;
            mret (None, members)
        | Err _ => mret (None, [])
        | Panic => mpanic
        end
      else mret (None, [])
  | None => mret (None, [])
  end.

Definition finalize_voting (id : Hash) : LM VoteResult :=
  p ← find_proposal id;
  expect_status Voting p;;
  mbail (negb (voting_ended p now)) VotingNotEnded;;
  s ← mread (fun s => s);
  stats ← mmap_err VoteFault (mresult (tally_votes (pl_voting_engine s) (default [] (pl_votes s !! id)) id));
  let p := set_status Tallying (set_tallies stats p) in
  put_proposal id p;;
  let r := match check_quorum (pl_voting_engine s) stats (calculate_total_eligible_credits s) with
           | Ok _ => determine_result stats (required_threshold p)
           | _ => Fail
           end in
  put_proposal id (set_status (match r with Pass => Succeeded | Fail => Rejected end) p);;
  sig ← generate_receipt_signature id stats r;
  mwrite (put_receipt id (mkReceipt id stats r 0 (replicate 32 0) now sig.1 sig.2));;
  mret r.

(** ** Finality and timelock *)

Definition register_proposal_message (id : Hash) (m : MessageId) : LM unit := mwrite (put_message_id id m).

(** [None] while the wait has not ended; [read] is the time at which the elapsed times are taken. *)
Definition lifecycle_wait (id : Hash) (start timeout read : Z) (polls : list (Poll (St := St))) : LM (option (Z * Z)) :=
  s ← mread (fun s => s);
  match pl_finality s with
  | None => mret (Some (from_secs 1, from_secs 1))
  | Some adapter =>
      m ← mopt (pl_message_ids s !! id) (MessageIdNotFound id);
      let (r, adapter') := wait_for_finality key_iter start timeout m Strict polls adapter in
      mwrite (put_finality adapter');;
      status ← mmap_err WaitFailed (mresult r);
      mret ((fun st => (default 0 (elapsed_since read <$> st_f1_time st), default 0 (elapsed_since read <$> st_f2_time st))) <$> status)
  end.

Definition lifecycle_timelock (c : LifecycleConfig) (f1_time f2_time : Z) : option Z :=
  t_f1 ← from_secs_f64 (f64_mul (as_secs_f64 f1_time) (lg_gamma_f1 c));
  t_f2 ← from_secs_f64 (f64_mul (as_secs_f64 f2_time) (lg_gamma_f2 c));
  t_min ← from_secs_f64 (lg_min_timelock_secs c);
  Some (Z.max (Z.max t_f1 t_f2) t_min).

Definition begin_enactment (id : Hash) (timelock_duration_secs : f64) : LM unit :=
  p ← find_proposal id;
  expect_status Succeeded p;;
  put_proposal id (set_status Enacting p);;
  or_panic (chrono_add now (f64_to_i64 timelock_duration_secs));;
  mret tt.

Definition finalize_and_prepare_enactment (id : Hash) (start timeout read : Z) (polls : list (Poll (St := St))) : LM (option Z) :=
  times ← lifecycle_wait id start timeout read polls;
  match times with
  | None => mret None
  | Some (f1_time, f2_time) =>
      c ← mread pl_config;
      timelock ← or_panic (lifecycle_timelock c f1_time f2_time);
      begin_enactment id (as_secs_f64 timelock);;
      mret (Some timelock)
  end.

(** ** Enactment *)

(** The store after the changes, and the first that was refused. *)
Fixpoint apply_changes (id : Hash) (obj : gmap string V) (keys : list string) : M (ParameterStore V) LifecycleFault unit :=
  match keys with
  | [] => mret tt
  | key :: keys =>
      match obj !! key with
      | Some v => mmap_err (ParameterUpdateFailed key) (apply_governance_change key v (Some id))
      | None => mret tt
      end;;
      apply_changes id obj keys
  end.

Definition update_parameters (id : Hash) (p : GovernanceProposal V) : LM unit :=
  s ← mread (fun s => s);
  match pl_parameter_store s with
  | None => mret tt
  | Some store =>
      match as_object (gp_new_values p) with
      | None => mret tt
      | Some obj => let (r, store') := apply_changes id obj (gp_param_keys p) store in mwrite (put_store store');; mresult r
      end
  end.
Definition run_grant (p : GovernanceProposal V) : LM unit :=
  s ← mread (fun s => s);
  match gp_treasury_grant p, pl_treasury s with
  | Some grant, Some te =>
      let (r, te') := execute_grant now digest blake3 grant (gp_enact_epoch p) te in
      mwrite (put_treasury te');; mmap_err TreasuryFailed (mresult r)
  | _, _ => mret tt
  end.

(** [proposal.status = Failed; return Err(..)]. *)
Definition or_failed (id : Hash) (p : GovernanceProposal V) (m : LM unit) : LM unit :=
  mor m (fun e => put_proposal id (set_status Failed p);; mfail e).

Definition enact_proposal (id : Hash) : LM unit :=
  p ← find_proposal id;
  expect_status Enacting p;;
  or_failed id p (update_parameters id p);;
  or_failed id p (run_grant p);;
  put_proposal id (set_status Enacted p).

(** ** Reading *)

Definition get_proposal (s : PL) (id : Hash) : option (GovernanceProposal V) := pl_proposals s !! id.
Definition get_votes (s : PL) (id : Hash) : list GovernanceVote := default [] (pl_votes s !! id).
Definition get_receipts (s : PL) (id : Hash) : list GovernanceReceipt := default [] (pl_receipts s !! id).
Definition get_all_proposals (s : PL) : list (GovernanceProposal V) := (map_to_list (pl_proposals s)).*2.
Definition get_proposals_by_status (s : PL) (st : ProposalStatus) : list (GovernanceProposal V) :=
  List.filter (fun p => bool_decide (gp_status p = st)) (get_all_proposals s).
End manager.

(** ** Statuses *)

Definition allowed (a b : ProposalStatus) : Prop := can_transition_to a b = true.

Section facts.
Context {V : Type} `{!Json V}.
Context {St : Type} `{!EconomicsStorage St}.
Context (digest : Bytes -> string) (blake3 : Bytes -> Bytes).
Context (score_iter : gmap PublicKey ReputationScore -> list (PublicKey * ReputationScore)).
Context (key_iter : gmap MessageId FinalityStatus -> list (MessageId * FinalityStatus)).
Context (chrono_add : Z -> Z -> option Z).
Abbreviation PL := (ProposalLifecycle V St).
Implicit Types s : PL.

(** Every proposal stays, and its status has moved along allowed transitions. *)
Definition moves s s' : Prop :=
  forall id p, pl_proposals s !! id = Some p ->
    exists p', pl_proposals s' !! id = Some p' /\ rtc allowed (gp_status p) (gp_status p').

#[local] Instance moves_preorder : PreOrder moves.
Proof.
  split.
  - intros s id p Hp. by exists p.
  - intros s1 s2 s3 H12 H23 id p Hp. destruct (H12 id p Hp) as (p2 & H2 & R2). destruct (H23 id p2 H2) as (p3 & H3 & R3).
    exists p3. split; [done|]. by transitivity (gp_status p2).
Qed.

Lemma moves_same s s' : pl_proposals s' = pl_proposals s -> moves s s'.
Proof. intros H id p Hp. exists p. by rewrite H. Qed.

Lemma moves_put id p p' s :
  pl_proposals s !! id = Some p -> rtc allowed (gp_status p) (gp_status p') -> moves s (put_proposals (insert id p') s).
Proof.
  intros Hp Hr id' q Hq. simpl. destruct (decide (id = id')) as [<-|Hne].
  - rewrite lookup_insert_eq. simplify_eq. by exists p'.
  - rewrite lookup_insert_ne by done. by exists q.
Qed.

Lemma find_bind {A} id (k : GovernanceProposal V -> M PL LifecycleFault A) s :
  (find_proposal id ≫= k) s = match pl_proposals s !! id with Some p => k p s | None => (Err (ProposalNotFound id), s) end.
Proof. unfold find_proposal, mbind, M_bind, mread, mopt. cbn [fst snd]. by destruct (pl_proposals s !! id). Qed.
Lemma expect_bind {A} st p (k : unit -> M PL LifecycleFault A) s :
  (expect_status st p ≫= k) s = if bool_decide (gp_status p = st) then k tt s else (Err (InvalidStatus st (gp_status p)), s).
Proof. unfold expect_status, mbail, mbind, M_bind. by case_bool_decide. Qed.

(** The parts of the operations that touch neither a proposal nor a vote. *)
Definition same s s' : Prop := pl_proposals s' = pl_proposals s /\ pl_votes s' = pl_votes s.

Lemma receipt_same id stats r s : same s (generate_receipt_signature blake3 score_iter id stats r s).2.
Proof.
  unfold generate_receipt_signature, mbind, M_bind, mread. cbn [fst snd].
  destruct (pl_selector s); [|done]. destruct (pl_bls_signer s); [|done]. destruct (select_committee _ _ _ _ _); [|done..].
  unfold mbail. by case_bool_decide.
Qed.

Lemma update_parameters_same id p s : same s (update_parameters (St := St) id p s).2.
Proof.
  unfold update_parameters, mbind, M_bind, mread. cbn [fst snd]. destruct (pl_parameter_store s) as [store|]; [|done].
  destruct (as_object _) as [obj|]; [|done]. by destruct (apply_changes _ _ _ _) as [r store'].
Qed.

Lemma run_grant_same now p s : same s (run_grant now digest blake3 p s).2.
Proof.
  unfold run_grant, mbind, M_bind, mread. cbn [fst snd]. destruct (gp_treasury_grant p) as [g|], (pl_treasury s) as [te|]; try done.
  destruct (execute_grant _ _ _ _ _ _) as [r te']. unfold mwrite, mmap_err, mresult. by destruct r.
Qed.

Lemma wait_same id start timeout read polls s : same s (lifecycle_wait (St := St) (V := V) key_iter id start timeout read polls s).2.
Proof.
  unfold lifecycle_wait, mbind, M_bind, mread. cbn [fst snd]. destruct (pl_finality s) as [a|]; [|done].
  destruct (pl_message_ids s !! id) as [m|]; [|done]. simpl. destruct (wait_for_finality _ _ _ _ _ _ _) as [[r|e|] a']; done.
Qed.

(** What [finalize_voting] decides. *)
Definition tally_result s (p : GovernanceProposal V) (stats : QuorumStats) : VoteResult :=
  match check_quorum (pl_voting_engine s) stats (calculate_total_eligible_credits score_iter s) with
  | Ok _ => determine_result stats (required_threshold p)
  | _ => Fail
  end.
Definition decided_status (r : VoteResult) : ProposalStatus := match r with Pass => Succeeded | Fail => Rejected end.

Lemma finalize_eq now id s :
  finalize_voting now blake3 score_iter id s =
  match pl_proposals s !! id with
  | None => (Err (ProposalNotFound id), s)
  | Some p =>
      if negb (bool_decide (gp_status p = Voting)) then (Err (InvalidStatus Voting (gp_status p)), s)
      else if negb (voting_ended p now) then (Err VotingNotEnded, s)
      else match tally_votes (pl_voting_engine s) (get_votes s id) id with
           | Err e => (Err (VoteFault e), s)
           | Panic => (Panic, s)
           | Ok stats =>
               let r := tally_result s p stats in
               let s1 := put_proposals (insert id (set_status (decided_status r) (set_tallies stats p))) s in
               match generate_receipt_signature blake3 score_iter id stats r s1 with
               | (Ok sig, s2) => (Ok r, put_receipt id (mkReceipt id stats r 0 (replicate 32 0) now sig.1 sig.2) s2)
               | (Err e, s2) => (Err e, s2)
               | (Panic, s2) => (Panic, s2)
               end
           end
  end.
Proof.
  unfold finalize_voting. rewrite find_bind. destruct (pl_proposals s !! id) as [p|]; [|done]. rewrite expect_bind.
  case_bool_decide; [|done]. simpl negb. unfold mbail. destruct (negb (voting_ended p now)); [done|].
  rewrite (M_bind_Ok _ _ s tt s) by done. rewrite (M_bind_Ok _ _ s s s) by done. unfold mmap_err, mresult at 1.
  unfold mbind at 1, M_bind at 1. unfold get_votes. destruct (tally_votes _ _ id) as [stats|e|]; [|done..].
  assert (forall q (k : unit -> M PL LifecycleFault VoteResult) s0,
    (put_proposal id q ≫= k) s0 = k tt (put_proposals (insert id q) s0)) as Hput by done.
  rewrite !Hput. fold (tally_result s p stats).
  assert (put_proposals (insert id (set_status (decided_status (tally_result s p stats)) (set_tallies stats p)))
    (put_proposals (insert id (set_status Tallying (set_tallies stats p))) s) =
    put_proposals (insert id (set_status (decided_status (tally_result s p stats)) (set_tallies stats p))) s) as Heq.
  { unfold put_proposals. cbn [pl_proposals]. by rewrite insert_insert_eq. }
  change (match check_quorum (pl_voting_engine s) stats (calculate_total_eligible_credits score_iter s) with
          | Ok _ => determine_result stats (required_threshold (set_status Tallying (set_tallies stats p))) | _ => Fail end)
    with (tally_result s p stats).
  change (set_status match tally_result s p stats with Pass => Succeeded | Fail => Rejected end (set_status Tallying (set_tallies stats p)))
    with (set_status (decided_status (tally_result s p stats)) (set_tallies stats p)).
  rewrite Heq. unfold mbind, M_bind. by destruct (generate_receipt_signature _ _ _ _ _ _) as [[sig|e|] s2].
Qed.

(** ** The operations as steps *)

Inductive gov_op :=
  | GSubmit (p : GovernanceProposal V)
  | GVote (v : GovernanceVote)
  | GVoteStore (v : GovernanceVote)
  | GFinalize (id : Hash)
  | GRegister (id : Hash) (m : MessageId)
  | GBegin (id : Hash) (timelock : f64)
  | GPrepare (id : Hash) (start timeout read : Z) (polls : list (Poll (St := St)))
  | GEnact (id : Hash).

(** [now] is the time of the call; [GVoteStore] is the second half of a [cast_vote] whose checks ran
    earlier. *)
Definition gov_step (now : Z) (op : gov_op) s : PL :=
  match op with
  | GSubmit p => (submit_proposal chrono_add p s).2
  | GVote v => (cast_vote now v s).2
  | GVoteStore v => (cast_vote_store v s).2
  | GFinalize id => (finalize_voting now blake3 score_iter id s).2
  | GRegister id m => (register_proposal_message id m s).2
  | GBegin id t => (begin_enactment now chrono_add id t s).2
  | GPrepare id start timeout read polls => (finalize_and_prepare_enactment now key_iter chrono_add id start timeout read polls s).2
  | GEnact id => (enact_proposal now digest blake3 id s).2
  end.
Definition gov_run s (ops : list (Z * gov_op)) : PL := foldl (fun s o => gov_step o.1 o.2 s) s ops.

Lemma allowed_put id p st q s :
  pl_proposals s !! id = Some p -> allowed (gp_status p) st -> gp_status q = st -> moves s (put_proposals (insert id q) s).
Proof. intros Hp Ha Hq. eapply moves_put; [exact Hp|]. rewrite Hq. by apply rtc_once. Qed.

Lemma finalize_moves now id s : moves s (finalize_voting now blake3 score_iter id s).2.
Proof.
  rewrite finalize_eq. destruct (pl_proposals s !! id) as [p|] eqn:Ep; [|done]. case_bool_decide as Hs; simpl negb; [|done].
  destruct (negb _); [done|]. destruct (tally_votes _ _ id) as [stats|e|]; [|done..]. cbv zeta.
  set (r := tally_result s p stats). set (s1 := put_proposals (insert id (set_status (decided_status r) (set_tallies stats p))) s). pose proof (receipt_same id stats r s1) as Hsame.
  assert (moves s s1) as H1.
  { eapply moves_put; [exact Ep|]. rewrite Hs. cbn [set_status gp_status].
    eapply rtc_l; [|apply rtc_once]; [instantiate (1 := Tallying); done|]. by destruct r. }
  destruct (generate_receipt_signature _ _ _ _ _ s1) as [[sig|e|] s2]; cbn [snd] in *; (etransitivity; [exact H1|]); apply moves_same; exact (proj1 Hsame).
Qed.

Lemma begin_moves now id t s :
  let s' := (begin_enactment now chrono_add id t s).2 in moves s s' /\ pl_votes s' = pl_votes s.
Proof.
  unfold begin_enactment. rewrite find_bind. destruct (pl_proposals s !! id) as [p|] eqn:Ep; [|done].
  rewrite expect_bind. case_bool_decide as Hs; [|done].
  assert (moves s (put_proposals (insert id (set_status Enacting p)) s)) as H
    by (apply (allowed_put _ p Enacting); [exact Ep|by rewrite Hs|done]).
  unfold mbind, M_bind, put_proposal, mwrite, or_panic. by destruct (chrono_add _ _).
Qed.

Lemma prepare_moves id start timeout read polls now s :
  let s' := (finalize_and_prepare_enactment now key_iter chrono_add id start timeout read polls s).2 in
  moves s s' /\ pl_votes s' = pl_votes s.
Proof.
  unfold finalize_and_prepare_enactment. destruct (wait_same id start timeout read polls s) as [Hw Hv].
  destruct (lifecycle_wait _ _ _ _ _ _ s) as [[times|e|] s1] eqn:Ew; cbn [snd] in Hw, Hv;
    [rewrite (M_bind_Ok _ _ _ _ _ Ew)|by (unfold mbind, M_bind; rewrite Ew; split; [apply moves_same|])..].
  apply moves_same in Hw. destruct times as [[t1 t2]|]; [|done]. rewrite (M_bind_Ok _ _ s1 (pl_config s1) s1) by done.
  destruct (lifecycle_timelock _ t1 t2) as [d|]; [|done]. rewrite (M_bind_Ok _ _ s1 d s1) by done.
  destruct (begin_moves now id (as_secs_f64 d) s1) as [Hb Hbv]. unfold mbind, M_bind.
  split; [etransitivity; [exact Hw|]|rewrite <-Hv]; by destruct (begin_enactment _ _ _ _ _) as [[[]|e|] s2].
Qed.

(** An attempt, marked as failed when it is an error. *)
Lemma or_failed_spec id p (m : M PL LifecycleFault unit) s :
  or_failed id p m s = match m s with
                       | (Err e, s') => (Err e, put_proposals (insert id (set_status Failed p)) s')
                       | r => r
                       end.
Proof. unfold or_failed, mor, mbind, M_bind. by destruct (m s) as [[[]|e|] s']. Qed.

Lemma enact_moves now id s :
  let s' := (enact_proposal now digest blake3 id s).2 in moves s s' /\ pl_votes s' = pl_votes s.
Proof.
  unfold enact_proposal. rewrite find_bind. destruct (pl_proposals s !! id) as [p|] eqn:Ep; [|done].
  rewrite expect_bind. case_bool_decide as Hs; [|done].
  assert (forall s1 st, same s s1 -> allowed Enacting st ->
    let s' := put_proposals (insert id (set_status st p)) s1 in moves s s' /\ pl_votes s' = pl_votes s) as Hput.
  { intros s1 st [H1 H2] Ha. split; [|done]. etransitivity; [by apply (moves_same s s1)|].
    apply (allowed_put _ p st); [by rewrite H1|by rewrite Hs|done]. }
  pose proof (update_parameters_same id p s) as [H1 H1']. unfold mbind, M_bind. rewrite or_failed_spec.
  destruct (update_parameters id p s) as [[[]|e|] s1]; cbn [snd] in *; [|by apply Hput|split; [by apply moves_same|done]].
  pose proof (run_grant_same now p s1) as [H2 H2']. rewrite or_failed_spec.
  assert (same s (run_grant now digest blake3 p s1).2) as H12 by (split; congruence).
  destruct (run_grant _ _ _ p s1) as [[[]|e|] s2]; [by apply Hput..|]. split; [apply moves_same|]; apply H12.
Qed.

Lemma submit_eq p s :
  submit_proposal chrono_add p s =
  let rep := get_reputation (pl_reputation s) (gp_proposer p) in
  if f64_ltb rep (lg_min_proposer_reputation (pl_config s))
  then (Err (InsufficientReputation (lg_min_proposer_reputation (pl_config s)) rep), s)
  else match chrono_add (gp_creation p) (lg_voting_duration_secs (pl_config s)) with
       | None => (Panic, s)
       | Some t => (Ok (gp_id p), put_proposals (insert (gp_id p) (set_status Voting (set_voting_end t p))) s)
       end.
Proof.
  unfold submit_proposal, mbind, M_bind, mread, mbail. cbn [fst snd]. destruct (f64_ltb _ _); [done|]. cbn.
  by destruct (chrono_add _ _).
Qed.

Lemma vote_check_eq now v s :
  cast_vote_check now v s =
  match pl_proposals s !! gv_proposal_id v with
  | None => (Err (ProposalNotFound (gv_proposal_id v)), s)
  | Some p =>
      if negb (bool_decide (gp_status p = Voting)) then (Err (InvalidStatus Voting (gp_status p)), s)
      else if voting_ended p now then (Err VotingEnded, s)
      else match validate_credits (pl_voting_engine s) (gv_credits v) (get_reputation (pl_reputation s) (gv_voter_pk v)) with
           | Ok _ => if bool_decide (gv_voter_pk v ∈ gv_voter_pk <$> get_votes s (gv_proposal_id v))
                     then (Err (VoteFault (DuplicateVote (gv_voter_pk v))), s) else (Ok tt, s)
           | Err e => (Err (VoteFault e), s)
           | Panic => (Panic, s)
           end
  end.
Proof.
  unfold cast_vote_check. rewrite (M_bind_Ok _ _ s s s) by done. rewrite find_bind.
  destruct (pl_proposals s !! gv_proposal_id v) as [p|]; [|done]. rewrite expect_bind. case_bool_decide; [|done]. simpl negb.
  unfold mbail at 1, mbind at 1, M_bind at 1. destruct (voting_ended _ _); [done|]. cbn. unfold mmap_err, mresult, mbind, M_bind.
  destruct (validate_credits _ _ _) as [[]|e|]; [|done..]. unfold mbail. fold (get_votes s (gv_proposal_id v)).
  assert (existsb (fun w => bool_decide (gv_voter_pk w = gv_voter_pk v)) (get_votes s (gv_proposal_id v))
    = bool_decide (gv_voter_pk v ∈ gv_voter_pk <$> get_votes s (gv_proposal_id v))) as ->.
  { apply eq_true_iff_eq. rewrite existsb_exists, bool_decide_eq_true, list_elem_of_fmap.
    split; intros (w & H1 & H2); exists w; rewrite ?bool_decide_eq_true, ?list_elem_of_In in *; naive_solver. }
  by case_bool_decide.
Qed.

Lemma cast_vote_same now v s : pl_proposals (cast_vote now v s).2 = pl_proposals s.
Proof.
  unfold cast_vote, mbind, M_bind. rewrite vote_check_eq. destruct (pl_proposals s !! _); [|done]. destruct (negb _); [done|].
  destruct (voting_ended _ _); [done|]. destruct (validate_credits _ _ _); [|done..]. by destruct (bool_decide _).
Qed.

(** An operation moves every proposal along allowed transitions; a submission replaces the one of its
    own id. *)
Lemma gov_step_moves now op s id p :
  pl_proposals s !! id = Some p -> (forall q, op = GSubmit q -> gp_id q <> id) ->
  exists p', pl_proposals (gov_step now op s) !! id = Some p' /\ rtc allowed (gp_status p) (gp_status p').
Proof.
  intros Hp Hq. destruct op as [q|v|v|i|i m|i t|i start timeout read polls|i]; cbn [gov_step].
  - exists p. split; [|done]. rewrite submit_eq. cbv zeta. destruct (f64_ltb _ _); [done|]. destruct (chrono_add _ _) as [t|]; [|done].
    cbn [snd put_proposals pl_proposals]. by rewrite lookup_insert_ne by (by apply Hq).
  - exists p. by rewrite cast_vote_same.
  - by exists p.
  - by apply finalize_moves.
  - by exists p.
  - by apply (proj1 (begin_moves now i t s)).
  - by apply (proj1 (prepare_moves i start timeout read polls now s)).
  - by apply (proj1 (enact_moves now i s)).
Qed.

Lemma terminal_stays a b : rtc allowed a b -> is_terminal a = true -> b = a.
Proof. intros H Ha. inversion H as [|? c ? Hac]; [done|]. by destruct a, c. Qed.

(** A submission under the number of a proposal puts that number to the vote, whatever its status was. *)
Lemma resubmit_moves now q s id p :
  pl_proposals s !! id = Some p -> gp_id q = id ->
  exists p', pl_proposals (gov_step now (GSubmit q) s) !! id = Some p' /\ (gp_status p' = gp_status p \/ gp_status p' = Voting).
Proof.
  intros Hp <-. cbn [gov_step]. rewrite submit_eq. cbv zeta.
  destruct (f64_ltb _ _); [exists p; by auto|]. destruct (chrono_add _ _) as [t|]; [|exists p; by auto].
  eexists. cbn [snd put_proposals pl_proposals]. rewrite lookup_insert_eq. split; [done|by right].
Qed.

(** The moves of a run: the allowed transitions, and the vote that a submission under the number opens. *)
Definition submits (ops : list (Z * gov_op)) (id : Hash) : Prop := exists now q, (now, GSubmit q) ∈ ops /\ gp_id q = id.
Definition may_move (ops : list (Z * gov_op)) (id : Hash) (a b : ProposalStatus) : Prop := allowed a b \/ (submits ops id /\ b = Voting).

(** C8: Whatever runs after it, a proposal stays in the manager, and its status only moves along the allowed
    transitions or, when a proposal is submitted under its number, back to the vote.  If none is, only along
    the allowed transitions, and an enacted, failed or rejected one keeps its status for good. *)
Theorem proposal_statuses_follow ops s id p :
  pl_proposals s !! id = Some p ->
  exists p', pl_proposals (gov_run s ops) !! id = Some p' /\ rtc (may_move ops id) (gp_status p) (gp_status p') /\
    (~ submits ops id -> rtc allowed (gp_status p) (gp_status p') /\ (is_terminal (gp_status p) = true -> gp_status p' = gp_status p)).
Proof.
  intros Hp. assert (forall l s p, l ⊆ ops -> pl_proposals s !! id = Some p ->
    exists p', pl_proposals (gov_run s l) !! id = Some p' /\ rtc (may_move ops id) (gp_status p) (gp_status p')) as H.
  { clear s p Hp. induction l as [|[now op] l IH]; intros s p Hl Hp; [by exists p|].
    assert (exists p1, pl_proposals (gov_step now op s) !! id = Some p1 /\ rtc (may_move ops id) (gp_status p) (gp_status p1)) as (p1 & Hp1 & R1).
    { assert ((exists q, op = GSubmit q /\ gp_id q = id) \/ forall q, op = GSubmit q -> gp_id q <> id) as [(q & -> & Hq)|Hq].
      { destruct op as [q| | | | | | |]; try (by right). destruct (decide (gp_id q = id)); [left; by exists q|right; by intros ? [= <-]]. }
      - destruct (resubmit_moves now q s id p Hp Hq) as (p1 & Hp1 & [Hs|Hs]); exists p1; (split; [done|]); rewrite Hs; [done|].
        apply rtc_once. right. split; [|done]. exists now, q. split; [apply Hl; by left|done].
      - destruct (gov_step_moves now op s id p Hp Hq) as (p1 & Hp1 & R1). exists p1. split; [done|].
        eapply rtc_subrel; [|exact R1]. intros a b Hab. by left. }
    destruct (IH (gov_step now op s) p1) as (p2 & Hp2 & R2); [set_solver|done|].
    exists p2. split; [done|]. by transitivity (gp_status p1). }
  destruct (H ops s p) as (p' & Hp' & Hr); [done|done|]. exists p'. split; [done|]. split; [done|]. intros Hno.
  assert (rtc allowed (gp_status p) (gp_status p')) as Ha by (eapply rtc_subrel; [|exact Hr]; intros a b [Hab|[Hs _]]; [done|by destruct Hno]).
  split; [done|]. by apply terminal_stays.
Qed.

(** ** The outcome of a vote *)

Lemma check_quorum_iff e stats total : check_quorum e stats total = Ok tt <-> f64_ltb (f64_div (qs_total_participation stats) total) (ve_min_quorum e) = false.
Proof. unfold check_quorum. by destruct (f64_ltb _ _). Qed.

(** The result is the one the proposal computes from its tallies, unless they sum to a negative number. *)
Lemma determine_passed (p : GovernanceProposal V) stats :
  f64_ltb (f64_add (qs_yes stats) (qs_no stats)) f64_zero = false ->
  determine_result stats (required_threshold p) = Pass <-> passed_threshold (set_tallies stats p) = true.
Proof.
  unfold determine_result, passed_threshold, vote_percentage, required_threshold. cbn [set_tallies gp_class gp_yes gp_no].
  intros Hneg. set (d := f64_add (qs_yes stats) (qs_no stats)) in *.
  assert (d = S754_nan \/ f64_gtb d f64_zero = negb (f64_eqb d f64_zero)) as [->| ->].
  { destruct d as [[]|[]| |[] ? ?]; vm_compute in Hneg |- *; by auto. }
  - rewrite f64_div_nan_r. destruct (gp_class p); vm_compute; done.
  - destruct (f64_eqb d f64_zero); [by destruct (gp_class p)|]. simpl negb.
    destruct (gp_class p); cbv iota.
    + replace (f64_geb (f64_lit 667 1000) (f64_lit 667 1000)) with true by (vm_compute; reflexivity).
      by destruct (f64_geb (f64_div _ _) _).
    + replace (f64_geb (f64_lit 1 2) (f64_lit 667 1000)) with false by (vm_compute; reflexivity).
      by destruct (f64_gtb (f64_div _ _) _).
Qed.

Lemma tally_result_Pass s (p : GovernanceProposal V) stats :
  f64_ltb (f64_add (qs_yes stats) (qs_no stats)) f64_zero = false ->
  tally_result s p stats = Pass <->
  f64_ltb (f64_div (qs_total_participation stats) (calculate_total_eligible_credits score_iter s)) (ve_min_quorum (pl_voting_engine s)) = false /\
  passed_threshold (set_tallies stats p) = true.
Proof.
  intros Hn. rewrite <-determine_passed, <-check_quorum_iff by done. unfold tally_result.
  destruct (check_quorum _ _ _) as [[]| |]; naive_solver.
Qed.

Lemma get_receipts_put id r s : get_receipts (put_receipt id r s) id = get_receipts s id ++ [r].
Proof. unfold get_receipts, put_receipt. cbn [pl_receipts]. by rewrite lookup_insert_eq. Qed.

(** The draw of the committee that signs the receipt of [id]; [None]: there is nobody to draw or sign it. *)
Definition drawn_committee s (id : Hash) :=
  match pl_selector s with
  | Some selector =>
      if pl_bls_signer s
      then Some (select_committee blake3 selector (proposal_epoch id) (governance_quorum (pl_config s)) (committee_candidates blake3 score_iter s))
      else None
  | None => None
  end.


(** ** One vote per voter *)

(** Only a cast vote changes the votes. *)
Lemma step_votes now op s :
  (forall v, op <> GVote v /\ op <> GVoteStore v) -> pl_votes (gov_step now op s) = pl_votes s.
Proof.
  destruct op as [q|v|v|i|i m|i t|i start timeout read polls|i]; cbn [gov_step]; intros Hne.
  - rewrite submit_eq. cbv zeta. destruct (f64_ltb _ _); [done|]. by destruct (chrono_add _ _).
  - by destruct (Hne v).
  - by destruct (Hne v).
  - rewrite finalize_eq. destruct (pl_proposals s !! i) as [p|]; [|done]. destruct (negb _); [done|]. destruct (negb _); [done|].
    destruct (tally_votes _ _ i) as [stats| |]; [|done..]. cbv zeta.
    match goal with |- context [generate_receipt_signature _ _ ?i ?st ?r ?s1] => destruct (receipt_same i st r s1) as [_ Hr];
      destruct (generate_receipt_signature _ _ i st r s1) as [[sig|e|] s2] end; exact Hr.
  - done.
  - apply begin_moves.
  - apply prepare_moves.
  - apply enact_moves.
Qed.
Lemma tally_ok_iff e id votes : (exists stats, tally_votes e votes id = Ok stats) <-> NoDup (gv_voter_pk <$> votes_for id votes).
Proof.
  unfold tally_votes. destruct (tally_loop_spec e id votes (mkTotals f64_zero f64_zero f64_zero ∅)) as [(-> & Hnd & _)|(l1 & v & l2 & Hm & _ & _ & Hv & ->)].
  - split; [done|]. intros _. by eexists.
  - split; [by intros [? ?]|]. rewrite Hm, fmap_app, fmap_cons. intros (_ & Hd & _)%NoDup_app.
    destruct Hv as [Hv|Hv]; [|by apply not_elem_of_empty in Hv]. exfalso. apply (Hd _ Hv). by left.
Qed.

Definition votes_ok s : Prop :=
  forall id, Forall (fun v => gv_proposal_id v = id) (get_votes s id) /\ NoDup (gv_voter_pk <$> get_votes s id).

Lemma votes_same s s' id : pl_votes s' = pl_votes s -> get_votes s' id = get_votes s id.
Proof. unfold get_votes. by intros ->. Qed.
Lemma votes_stored v s id :
  get_votes (cast_vote_store (V := V) (St := St) v s).2 id = if decide (gv_proposal_id v = id) then get_votes s id ++ [v] else get_votes s id.
Proof.
  unfold get_votes, cast_vote_store, mwrite. cbn [snd put_votes pl_votes]. case_decide as Hd; [subst; by rewrite lookup_insert_eq|by rewrite lookup_insert_ne].
Qed.

Lemma cast_vote_eq now v s :
  cast_vote now v s = match cast_vote_check now v s with (Ok _, _) => cast_vote_store v s | r => r end.
Proof.
  unfold cast_vote, mbind, M_bind. rewrite vote_check_eq. destruct (pl_proposals s !! _); [|done]. destruct (negb _); [done|].
  destruct (voting_ended _ _); [done|]. destruct (validate_credits _ _ _); [|done..]. by destruct (bool_decide _).
Qed.
Lemma vote_check_state now v s r s' : cast_vote_check now v s = (r, s') ->
  s' = s /\ (r = Ok tt -> gv_voter_pk v ∉ gv_voter_pk <$> get_votes s (gv_proposal_id v)).
Proof.
  rewrite vote_check_eq. destruct (pl_proposals s !! _); [|naive_solver]. destruct (negb _); [naive_solver|].
  destruct (voting_ended _ _); [naive_solver|]. destruct (validate_credits _ _ _); [|naive_solver..]. case_bool_decide; naive_solver.
Qed.

Lemma op_vote_cases (op : gov_op) :
  (exists v, op = GVote v) \/ (exists v, op = GVoteStore v) \/ forall v, op <> GVote v /\ op <> GVoteStore v.
Proof. destruct op; eauto; by right; right. Qed.

Lemma gov_step_votes_ok now op s : (forall v, op <> GVoteStore v) -> votes_ok s -> votes_ok (gov_step now op s).
Proof.
  intros Hop Hok. assert (forall s', pl_votes s' = pl_votes s -> votes_ok s') as Hsame
    by (intros s' Hs id; rewrite (votes_same s s') by done; apply Hok).
  destruct (op_vote_cases op) as [[v ->]|[[v ->]|Hne]]; [|by destruct (Hop v)|by apply Hsame, step_votes].
  cbn [gov_step]. rewrite cast_vote_eq. destruct (cast_vote_check now v s) as [r s'] eqn:Ec.
  apply vote_check_state in Ec as [-> Hv]. destruct r as [[]|e|]; [|done..].
  intros id. rewrite votes_stored. case_decide as Hd; [|apply Hok]. subst id. destruct (Hok (gv_proposal_id v)) as [H1 H2]. split.
  - by apply Forall_app; split; [|constructor].
  - rewrite fmap_app. apply NoDup_app. split_and!; [done| |by apply NoDup_singleton].
    intros k Hk ->%list_elem_of_singleton. by apply Hv.
Qed.

(** As long as the checks and the storing of a vote are not interleaved with other calls, every
    vote is kept under its own proposal and every voter has at most one vote on each, so that a tally
    always succeeds, in any run of the operations. *)
Theorem voters_vote_once ops s :
  votes_ok s -> (forall now v, (now, GVoteStore v) ∉ ops) ->
  votes_ok (gov_run s ops) /\
  forall id, exists stats, tally_votes (pl_voting_engine (gov_run s ops)) (get_votes (gov_run s ops) id) id = Ok stats.
Proof.
  intros Hs Hops. assert (votes_ok (gov_run s ops)) as Hok.
  { revert s Hs. induction ops as [|[now op] ops IH]; intros s Hs; [done|].
    apply (IH (fun n v Hin => Hops n v (list_elem_of_further _ _ _ Hin)) (gov_step now op s)).
    apply gov_step_votes_ok; [|done]. intros v ->. apply (Hops now v). by left. }
  split; [done|]. intros id. apply tally_ok_iff. destruct (Hok id) as [H1 H2]. unfold votes_for.
  assert (forall l, Forall (fun v => gv_proposal_id v = id) l -> filter (fun v => gv_proposal_id v = id) l = l) as ->; [|done..].
  induction 1; [done|]. by rewrite filter_cons, decide_True by done; f_equal.
Qed.

Lemma votes_grow ops s id : get_votes s id `prefix_of` get_votes (gov_run s ops) id.
Proof.
  revert s. induction ops as [|[now op] ops IH]; intros s; [done|]. etransitivity; [|apply IH].
  assert (forall v, get_votes s id `prefix_of` get_votes (cast_vote_store v s).2 id) as Hst
    by (intros v; rewrite votes_stored; case_decide; [by exists [v]|done]).
  destruct (op_vote_cases op) as [[v ->]|[[v ->]|Hne]].
  - cbn [gov_step fst snd]. rewrite cast_vote_eq. destruct (cast_vote_check now v s) as [r s'] eqn:Ec.
    apply vote_check_state in Ec as [-> _]. by destruct r as [[]|e|].
  - apply Hst.
  - cbn [fst snd]. rewrite (votes_same s (gov_step now op s)) by (by apply step_votes). done.
Qed.

(** Once two votes of one voter on a proposal are stored, as when the checks of both ran before
    either was stored, the proposal can never be finalized, whatever is called: each attempt fails
    and changes nothing. *)
Theorem racing_votes_block now1 now2 v w s ops :
  gv_proposal_id w = gv_proposal_id v -> gv_voter_pk w = gv_voter_pk v ->
  let s' := gov_run s ((now1, GVoteStore v) :: (now2, GVoteStore w) :: ops) in
  forall t, exists e, finalize_voting t blake3 score_iter (gv_proposal_id v) s' = (Err e, s').
Proof.
  intros Hid Hpk s' t. set (id := gv_proposal_id v) in *. rewrite finalize_eq.
  destruct (pl_proposals s' !! id) as [p|]; [|by eexists]. destruct (negb _); [by eexists|]. destruct (negb _); [by eexists|].
  assert (~ NoDup (gv_voter_pk <$> votes_for id (get_votes s' id))) as Hdup.
  { set (s2 := gov_run s [(now1, GVoteStore v); (now2, GVoteStore w)]).
    destruct (votes_grow ops s2 id) as [l Hl]. change (gov_run s2 ops) with s' in Hl. rewrite Hl.
    assert (get_votes s2 id = get_votes s id ++ [v; w]) as ->.
    { unfold s2, gov_run. cbn [foldl gov_step fst snd]. rewrite !votes_stored. rewrite decide_True, decide_True by done. by rewrite <-app_assoc. }
    unfold votes_for. rewrite !filter_app, !fmap_app. rewrite !filter_cons, decide_True, decide_True by done.
    intros (H & _ & _)%NoDup_app. apply NoDup_app in H as (_ & _ & H). simpl in H. apply NoDup_cons in H as [H _].
    apply H. rewrite Hpk. by left. }
  destruct (tally_votes _ _ id) as [stats|e|] eqn:Et; [|by eexists|].
  - destruct Hdup. apply (tally_ok_iff (pl_voting_engine s')). by eexists.
  - exfalso. unfold tally_votes in Et.
    destruct (tally_loop_spec (pl_voting_engine s') id (get_votes s' id) (mkTotals f64_zero f64_zero f64_zero ∅))
      as [(E & _)|(? & ? & ? & _ & _ & _ & _ & E)]; by rewrite E in Et.
Qed.
(** ** Enactment *)

(** The changes a proposal asks for: the new values of its keys, in the order of the keys. *)
Definition changes_in (obj : gmap string V) (keys : list string) : list (string * V) :=
  omap (fun key => (key,.) <$> obj !! key) keys.
Definition proposal_changes (p : GovernanceProposal V) : list (string * V) :=
  match as_object (gp_new_values p) with Some obj => changes_in obj (gp_param_keys p) | None => [] end.
Definition change_one (id : Hash) (kv : string * V) (st : ParameterStore V) : result ParamError unit * ParameterStore V :=
  apply_governance_change kv.1 kv.2 (Some id) st.

(** Changes made one after another, and that each is accepted. *)
Definition apply_all (id : Hash) (l : list (string * V)) (st : ParameterStore V) : ParameterStore V :=
  foldl (fun st kv => (change_one id kv st).2) st l.
Fixpoint accepted (id : Hash) (l : list (string * V)) (st : ParameterStore V) : Prop :=
  match l with
  | [] => True
  | kv :: l => (change_one id kv st).1 = Ok tt /\ accepted id l (change_one id kv st).2
  end.

(** How far the changes get, given the outcome. *)
Definition changed_until (id : Hash) (changes applied : list (string * V)) (st : ParameterStore V) (r : result LifecycleFault unit) : Prop :=
  exists rest, changes = applied ++ rest /\ accepted id applied st /\
    match r with
    | Ok _ => rest = []
    | Err e => exists kv e', head rest = Some kv /\ (change_one id kv (apply_all id applied st)).1 = Err e' /\ e = ParameterUpdateFailed kv.1 e'
    | Panic => False
    end.

Lemma validate_value_no_panic st key v rule : validate_value st key v rule <> Panic.
Proof.
  destruct rule as [allowed|lo hi|lo|func|]; simpl; [by case_match..| |done]. unfold validate_custom.
  unfold result_of_option. repeat (case_match; simplify_eq/=; try done).
Qed.

Lemma change_one_cases id kv st :
  (exists st', change_one id kv st = (Ok tt, st')) \/ exists e, change_one id kv st = (Err e, st).
Proof.
  unfold change_one. rewrite apply_change_eq. destruct (ps_metadata st !! kv.1) as [m|]; [|by right; eexists].
  destruct (validate_value st kv.1 kv.2 (pm_rule m)) as [|e|] eqn:E; [destruct (ps_values st !! kv.1)|..]; [by left; eexists|by right; eexists..|].
  by apply validate_value_no_panic in E.
Qed.

Lemma apply_changes_spec id obj keys st :
  let '(r, st') := apply_changes id obj keys st in
  exists applied, changed_until id (changes_in obj keys) applied st r /\ st' = apply_all id applied st.
Proof.
  revert st. induction keys as [|key keys IH]; intros st; [exists []; split; [by exists []|done]|].
  cbn [apply_changes]. unfold changes_in. cbn [omap list_omap]. fold (changes_in obj keys).
  destruct (obj !! key) as [v|]; cbn [fmap option_fmap option_map]; [|rewrite (M_bind_Ok _ _ st tt st) by done; apply IH].
  destruct (change_one_cases id (key, v) st) as [[st1 E1]|[e He]].
  - rewrite (M_bind_Ok _ _ st tt st1) by (unfold mmap_err; unfold change_one in E1; cbn in E1; by rewrite E1).
    specialize (IH st1). destruct (apply_changes id obj keys st1) as [r st'].
    destruct IH as (applied & (rest & -> & Hacc & Hr) & ->). exists ((key, v) :: applied). split; [|unfold apply_all; simpl; by rewrite E1].
    exists rest. split; [done|]. unfold apply_all. cbn [accepted foldl]. rewrite E1. done.
  - unfold mbind, M_bind, mmap_err.
    pose proof He as He'. unfold change_one in He'. cbn [fst snd] in He'. rewrite He'.
    exists []. split; [|done]. eexists. split_and!; [done..|]. exists (key, v), e. split_and!; [done| |done]. simpl. by rewrite He.
Qed.

Definition grant_outcome (now : Z) (p : GovernanceProposal V) (te : option (TreasuryExecutor St)) : result GrantError unit * option (TreasuryExecutor St) :=
  match gp_treasury_grant p, te with
  | Some grant, Some te => let (r, te') := execute_grant now digest blake3 grant (gp_enact_epoch p) te in (r, Some te')
  | _, _ => (Ok tt, te)
  end.

(** Enacting a proposal makes its changes in the order of its keys, stops at the first that is
    refused, then executes its grant.  It is enacted exactly when every change is accepted and the
    grant executes; otherwise it has failed, with the changes made before the refused one kept, and
    all of them when it is the grant that fails. *)
Theorem enact_proposal_correct now id s p store :
  pl_proposals s !! id = Some p -> gp_status p = Enacting -> pl_parameter_store s = Some store ->
  let '(r, s') := enact_proposal now digest blake3 id s in
  exists applied, pl_parameter_store s' = Some (apply_all id applied store) /\
  match r with
  | Ok _ => changed_until id (proposal_changes p) applied store (Ok tt) /\
      grant_outcome now p (pl_treasury s) = (Ok tt, pl_treasury s') /\
      pl_proposals s' = <[id := set_status Enacted p]> (pl_proposals s)
  | Err (TreasuryFailed e) => changed_until id (proposal_changes p) applied store (Ok tt) /\
      grant_outcome now p (pl_treasury s) = (Err e, pl_treasury s') /\
      pl_proposals s' = <[id := set_status Failed p]> (pl_proposals s)
  | Err e => changed_until id (proposal_changes p) applied store (Err e) /\ pl_treasury s' = pl_treasury s /\
      pl_proposals s' = <[id := set_status Failed p]> (pl_proposals s)
  | Panic => changed_until id (proposal_changes p) applied store (Ok tt) /\
      grant_outcome now p (pl_treasury s) = (Panic, pl_treasury s') /\ pl_proposals s' = pl_proposals s
  end.
Proof.
  intros Hp Hs Hst. unfold enact_proposal. rewrite find_bind, Hp, expect_bind, bool_decide_true by done.
  assert (exists r applied, update_parameters id p s = (r, put_store (apply_all id applied store) s) /\ changed_until id (proposal_changes p) applied store r)
    as (r & applied & Hu & Hc).
  { unfold update_parameters, proposal_changes. rewrite (M_bind_Ok _ _ s s s), Hst by done.
    destruct (as_object (gp_new_values p)) as [obj|].
    - pose proof (apply_changes_spec id obj (gp_param_keys p) store) as H. destruct (apply_changes _ _ _ store) as [r st'].
      destruct H as (applied & H & ->). by exists r, applied.
    - exists (Ok tt), []. split; [|by exists []]. destruct s. simpl in *. by rewrite Hst. }
  unfold mbind, M_bind. rewrite or_failed_spec, Hu. destruct r as [[]|e|]; [| |by destruct Hc as (? & _ & _ & [])].
  - set (s1 := put_store _ s). rewrite or_failed_spec. unfold run_grant, grant_outcome. rewrite (M_bind_Ok _ _ s1 s1 s1) by done.
    change (pl_treasury s1) with (pl_treasury s).
    destruct (gp_treasury_grant p) as [g|]; [|by exists applied]. destruct (pl_treasury s) as [te|] eqn:Et; [|exists applied; split_and!; try done; cbn; by rewrite Et].
    destruct (execute_grant _ _ _ _ _ te) as [[[]|e|] te']; by exists applied.
  - exists applied. split; [done|]. pose proof Hc as (rest & _ & _ & kv & e' & _ & _ & ->). by split_and!.
Qed.
End facts.

(** ** A small run

    Two voters of reputation 4, with 2 credits each, and a minimum that lets them propose. *)

Abbreviation DL := (ProposalLifecycle JsonValue MemoryStorage).
Definition demo_config : LifecycleConfig :=
  mkLifecycleConfig (f64_of_Z 1) 100 (f64_lit 1 10) (f64_of_Z 100000) (f64_of_Z 2) (f64_of_Z 3) (f64_of_Z 1000) 15 10.
Definition demo_reputation : ReputationTracker :=
  set_reputation 0 key_b (f64_of_Z 4) (set_reputation 0 key_a (f64_of_Z 4) tracker_default).
Definition demo_manager : DL := put_store store_new (manager_new demo_config demo_reputation).
Definition demo_proposal (status : ProposalStatus) (values : JsonValue) : GovernanceProposal JsonValue :=
  mkProposal [1] Operational key_a ["k"; "D"]%string values None None 0 "cid" 0 100 status f64_zero f64_zero f64_zero.
Definition with_proposal (p : GovernanceProposal JsonValue) : DL := put_proposals (insert [1] p) demo_manager.
Definition yes_vote (voter : PublicKey) : GovernanceVote := mkVote [1] voter (f64_of_Z 2) Yes 5.

Definition plus_secs (t d : Z) : option Z := Some (t + d).
Definition run_demo : DL -> list (Z * gov_op) -> DL :=
  gov_run no_digest (fun b => b) map_to_list map_to_list plus_secs.

Definition no_values : JsonValue := JObject [].
Definition voted : list (Z * @gov_op JsonValue MemoryStorage) :=
  [(0, GSubmit (demo_proposal Voting no_values)); (5, GVote (yes_vote key_a)); (6, GVote (yes_vote key_b)); (7, GVote (yes_vote key_a))].

Lemma proposal_statuses_follow_witness :
  let s := with_proposal (demo_proposal Rejected no_values) in
  exists p, pl_proposals (run_demo s [(200, GFinalize [1]); (200, GBegin [1] (f64_of_Z 1)); (200, GEnact [1])]) !! [1] = Some p /\
    gp_status p = Rejected.
Proof.
  intros s. destruct (proposal_statuses_follow no_digest (fun b => b) map_to_list map_to_list plus_secs
    [(200, GFinalize [1]); (200, GBegin [1] (f64_of_Z 1)); (200, GEnact [1])] s [1] (demo_proposal Rejected no_values)) as (p & H1 & _ & H2).
  - reflexivity.
  - exists p. split; [exact H1|]. apply H2; [|reflexivity]. intros (now & q & H & _). apply list_elem_of_In in H. simpl in H. intuition discriminate.
Defined.

Lemma voters_vote_once_witness :
  exists stats, tally_votes (pl_voting_engine (run_demo demo_manager voted)) (get_votes (run_demo demo_manager voted) [1]) [1] = Ok stats.
Proof.
  apply (voters_vote_once no_digest (fun b => b) map_to_list map_to_list plus_secs voted demo_manager).
  - intros id. split; [constructor|constructor].
  - intros now v H. apply list_elem_of_In in H. simpl in H. intuition discriminate.
Defined.

Lemma racing_votes_block_witness :
  let s := run_demo demo_manager [(0, GSubmit (demo_proposal Voting no_values))] in
  cast_vote_check 5 (yes_vote key_a) s = (Ok tt, s) /\
  exists e, finalize_voting 1000 (fun b => b) map_to_list [1] (run_demo s [(5, GVoteStore (yes_vote key_a)); (5, GVoteStore (yes_vote key_a))]) =
    (Err e, run_demo s [(5, GVoteStore (yes_vote key_a)); (5, GVoteStore (yes_vote key_a))]).
Proof.
  intros s. split; [vm_compute; reflexivity|].
  exact (racing_votes_block no_digest (fun b => b) map_to_list map_to_list plus_secs 5 5 (yes_vote key_a) (yes_vote key_a) s [] eq_refl eq_refl 1000).
Defined.

Definition demo_stats : QuorumStats := mkStats (f64_of_Z 4) f64_zero f64_zero (f64_of_Z 4).
Definition voted_proposal : GovernanceProposal JsonValue := set_voting_end 100 (demo_proposal Voting no_values).


(** Two changes, of which the second is refused: the first stays. *)
Definition bad_changes : JsonValue := JObject [("D", JNull); ("k", JNum 33)]%string.

Lemma enact_proposal_correct_witness :
  let s := with_proposal (demo_proposal Enacting bad_changes) in
  let '(r, s') := enact_proposal 0 no_digest (fun b => b) [1] s in
  (exists e, r = Err (ParameterUpdateFailed "D" e)) /\
  pl_proposals s' = <[[1] := set_status Failed (demo_proposal Enacting bad_changes)]> (pl_proposals s) /\
  exists applied, pl_parameter_store s' = Some (apply_all [1] applied store_new) /\ applied = [("k"%string, JNum 33)].
Proof.
  set (s := with_proposal (demo_proposal Enacting bad_changes)). cbv zeta. pose proof (enact_proposal_correct no_digest (fun b => b) 0 [1] s
    (demo_proposal Enacting bad_changes) store_new eq_refl eq_refl eq_refl) as H.
  assert (exists e, (enact_proposal 0 no_digest (fun b => b) [1] s).1 =
    Err (ParameterUpdateFailed "D" e)) as [e He] by (eexists; vm_compute; reflexivity).
  clearbody s. destruct (enact_proposal 0 no_digest (fun b => b) [1] s) as [r s']. simpl in He. subst r. destruct H as (applied & Hst & (rest & Hc & Hacc & kv & e' & Hh & Hf & Hkv) & _ & Hp).
  split; [by exists e|]. split; [exact Hp|]. exists applied. split; [exact Hst|].
  assert (proposal_changes (demo_proposal Enacting bad_changes) = [("k"%string, JNum 33); ("D"%string, JNull)]) as Hl by (vm_compute; reflexivity).
  rewrite Hl in Hc. destruct rest as [|kv' rest]; [done|]. simpl in Hh. injection Hh as ->. injection Hkv as Hkv _.
  clear - Hc Hkv. destruct applied as [|a [|b l]]; [by injection Hc as <- _|by injection Hc as <- _|].
  by destruct l.
Defined.

(** ** Flaws the model shows *)

(** The timelock is announced and not kept: a proposal is enacted at the time its timelock starts. *)
Theorem timelock_not_enforced :
  let s := run_demo (with_proposal (demo_proposal Succeeded no_values)) [(0, GBegin [1] (f64_of_Z 1000)); (0, GEnact [1])] in
  gp_status <$> pl_proposals s !! [1] = Some Enacted.
Proof. vm_compute. reflexivity. Qed.

(** Submitting an enacted proposal again puts it to the vote once more, with the votes of the first time. *)
Theorem resubmission_reopens :
  let s := run_demo demo_manager (voted ++ [(100, GFinalize [1]); (100, GBegin [1] f64_zero); (100, GEnact [1])]) in
  let s' := run_demo s [(200, GSubmit (demo_proposal Voting no_values)); (300, GFinalize [1])] in
  gp_status <$> pl_proposals s !! [1] = Some Enacted /\ gp_status <$> pl_proposals s' !! [1] = Some Succeeded.
Proof. split; vm_compute; reflexivity. Qed.

(** New values that are not an object are no changes: the proposal is enacted and nothing is changed. *)
Theorem other_values_change_nothing :
  let s := run_demo (with_proposal (demo_proposal Enacting (JNum 33))) [(0, GEnact [1])] in
  gp_status <$> pl_proposals s !! [1] = Some Enacted /\ pl_parameter_store s = Some store_new.
Proof. split; vm_compute; reflexivity. Qed.

Section defaults.
Context {V : Type} `{!Json V}.
Context {St : Type} `{!EconomicsStorage St}.
Context (blake3 : Bytes -> Bytes) (score_iter : gmap PublicKey ReputationScore -> list (PublicKey * ReputationScore)).
Context (chrono_add : Z -> Z -> option Z).
Implicit Types s : ProposalLifecycle V St.

Lemma below_hundred x : f64_leb x rep_cap = true -> f64_ltb x (f64_of_Z 100) = true.
Proof. intros H. by apply (f64_leb_ltb_trans _ rep_cap). Qed.

(** With the default configuration nobody whose reputation is within the cap of earned reputation
    can propose. *)
Theorem default_minimum_refuses p s :
  pl_config s = lifecycle_config_default -> f64_leb (get_reputation (pl_reputation s) (gp_proposer p)) rep_cap = true ->
  exists e, submit_proposal chrono_add p s = (Err e, s).
Proof.
  intros Hc Hr. rewrite submit_eq. cbv zeta. rewrite Hc. change (lg_min_proposer_reputation lifecycle_config_default) with (f64_of_Z 100).
  rewrite below_hundred by done. by eexists.
Qed.

(** Nor has the receipt committee any candidate, whatever the configuration. *)
Theorem no_committee_candidates s :
  Forall (fun kv => f64_leb (value kv.2) rep_cap = true) (score_iter (get_all_scores (pl_reputation s))) ->
  committee_candidates blake3 score_iter s = [].
Proof.
  intros H. unfold committee_candidates. induction H as [|kv l Hkv _ IH]; [done|]. simpl.
  change (qc_min_reputation (governance_quorum (pl_config s))) with (f64_of_Z 100) in *. by rewrite below_hundred.
Qed.
End defaults.
