(* ===== verification/MarketTypes.v ===== *)
(** * Deals of the storage market

    [adic-storage-market/src/types.rs] and [deal_management.rs]: intents, acceptances, deals and
    their statuses, Merkle proofs of chunks, renewals, terminations and migrations.

    The fields every message of the market has (approvals, features, signature, deposit, time) are
    one record; [now] is the clock in seconds and [blake3] the hash. *)

From S2P Require Import Prelude F64 Message Amount Voting Application.

(** ** Data *)

Inductive FinalityStatus :=
  | Pending
  | F1Complete (k depth : Z) (rep_weight : f64)
  | F2Complete (homology_stable : bool).
Definition is_finalized (f : FinalityStatus) : bool := match f with Pending => false | _ => true end.

Inductive SettlementRail := AdicNative | Filecoin | Arweave | Fiat (psp : string).

Inductive StorageDealStatus := Published | PendingActivation | Active | Completed | Failed | Terminated.
#[export] Instance StorageDealStatus_eq_dec : EqDecision StorageDealStatus.
Proof. solve_decision. Defined.

Definition deal_is_terminal (s : StorageDealStatus) : bool :=
  match s with Completed | Failed | Terminated => true | _ => false end.
Definition deal_can_transition_to (s next : StorageDealStatus) : bool :=
  match s, next with
  | Published, PendingActivation => true
  | Published, Failed => true
  | PendingActivation, Active => true
  | PendingActivation, Failed => true
  | PendingActivation, Terminated => true
  | Active, Completed => true
  | Active, Failed => true
  | Active, Terminated => true
  | _, _ => false
  end.
#[export] Instance deal_lifecycle : LifecycleState StorageDealStatus := {
  lc_is_terminal := deal_is_terminal;
  lc_can_transition_to := deal_can_transition_to;
}.

Record Protocol := mkProtocol {
  po_approvals : list Hash;
  po_features : list Z;
  po_signature : Signature;
  po_deposit : AdicAmount;
  po_timestamp : Z;
}.
Definition protocol_new (now : Z) : Protocol := mkProtocol (replicate 4 (replicate 32 0)) [0; 0; 0] [] ZERO now.

Record StorageDealIntent := mkIntent {
  in_protocol : Protocol;
  in_intent_id : Hash;
  in_client : AccountAddress;
  in_data_cid : Bytes;
  in_data_size : Z;
  in_duration_epochs : Z;
  in_max_price_per_epoch : AdicAmount;
  in_required_redundancy : Z;
  in_expires_at : Z;
  in_target_rails : list SettlementRail;
  in_settlement_hints : string;
  in_finality_status : FinalityStatus;
  in_finalized_at_epoch : option Z;
}.
Definition in_deposit (i : StorageDealIntent) : AdicAmount := po_deposit (in_protocol i).

Record ProviderAcceptance := mkAcceptance {
  ac_protocol : Protocol;
  ac_acceptance_id : Hash;
  ac_ref_intent : Hash;
  ac_provider : AccountAddress;
  ac_offered_price_per_epoch : AdicAmount;
  ac_collateral_commitment : AdicAmount;
  ac_provider_reputation : f64;
  ac_finality_status : FinalityStatus;
  ac_finalized_at_epoch : option Z;
}.
Definition ac_deposit (a : ProviderAcceptance) : AdicAmount := po_deposit (ac_protocol a).

Record StorageDeal := mkDeal {
  dl_protocol : Protocol;
  dl_id : Z;
  dl_ref_intent : Hash;
  dl_ref_acceptance : Hash;
  dl_client : AccountAddress;
  dl_provider : AccountAddress;
  dl_data_cid : Bytes;
  dl_data_size : Z;
  dl_duration_epochs : Z;
  dl_price_per_epoch : AdicAmount;
  dl_provider_collateral : AdicAmount;
  dl_client_payment_escrow : AdicAmount;
  dl_proof_merkle_root : option Bytes;
  dl_start_epoch : option Z;
  dl_activation_deadline : Z;
  dl_status : StorageDealStatus;
  dl_finality_status : FinalityStatus;
  dl_finalized_at_epoch : option Z;
}.

Record DealActivation := mkActivation {
  da_protocol : Protocol;
  da_ref_deal : Z;
  da_provider : AccountAddress;
  da_data_merkle_root : Bytes;
  da_chunk_count : Z;
  da_activated_at_epoch : Z;
  da_finality_status : FinalityStatus;
  da_finalized_at_epoch : option Z;
}.

Record MerkleProof := mkMerkle { mp_chunk_index : Z; mp_chunk_data : Bytes; mp_sibling_hashes : list Bytes }.

Record StorageProof := mkStorageProof {
  sp_protocol : Protocol;
  sp_deal_id : Z;
  sp_provider : AccountAddress;
  sp_proof_epoch : Z;
  sp_challenge_indices : list Z;
  sp_merkle_proofs : list MerkleProof;
  sp_finality_status : FinalityStatus;
  sp_finalized_at_epoch : option Z;
}.

Section types.
Context (now : Z) (blake3 : Bytes -> Bytes).

Definition intent_new (client : AccountAddress) (data_cid : Bytes) (data_size duration_epochs : Z) (max_price_per_epoch : AdicAmount)
    (required_redundancy : Z) (target_rails : list SettlementRail) : StorageDealIntent :=
  mkIntent (protocol_new now) (blake3 (data_cid ++ to_le_bytes 8 data_size ++ to_le_bytes 8 duration_epochs ++ to_le_bytes 8 (to_u64 now)))
    client data_cid data_size duration_epochs max_price_per_epoch required_redundancy (to_i64 (now + 86400)) target_rails EmptyString Pending None.
Definition intent_is_expired (i : StorageDealIntent) : bool := in_expires_at i <? now.
Definition intent_is_finalized (i : StorageDealIntent) : bool := is_finalized (in_finality_status i).
Definition with_intent_finality (f : FinalityStatus) (epoch : Z) (i : StorageDealIntent) : StorageDealIntent :=
  mkIntent (in_protocol i) (in_intent_id i) (in_client i) (in_data_cid i) (in_data_size i) (in_duration_epochs i) (in_max_price_per_epoch i)
    (in_required_redundancy i) (in_expires_at i) (in_target_rails i) (in_settlement_hints i) f (Some epoch).

Definition acceptance_new (ref_intent : Hash) (provider : AccountAddress) (offered_price_per_epoch collateral_commitment : AdicAmount)
    (provider_reputation : f64) : ProviderAcceptance :=
  mkAcceptance (protocol_new now) (blake3 (ref_intent ++ to_le_bytes 8 (to_u64 now))) ref_intent provider offered_price_per_epoch
    collateral_commitment provider_reputation Pending None.
Definition acceptance_is_finalized (a : ProviderAcceptance) : bool := is_finalized (ac_finality_status a).
Definition with_acceptance_finality (f : FinalityStatus) (epoch : Z) (a : ProviderAcceptance) : ProviderAcceptance :=
  mkAcceptance (ac_protocol a) (ac_acceptance_id a) (ac_ref_intent a) (ac_provider a) (ac_offered_price_per_epoch a) (ac_collateral_commitment a)
    (ac_provider_reputation a) f (Some epoch).
Definition with_provider_reputation (r : f64) (a : ProviderAcceptance) : ProviderAcceptance :=
  mkAcceptance (ac_protocol a) (ac_acceptance_id a) (ac_ref_intent a) (ac_provider a) (ac_offered_price_per_epoch a) (ac_collateral_commitment a)
    r (ac_finality_status a) (ac_finalized_at_epoch a).

Definition from_intent_and_acceptance (i : StorageDealIntent) (a : ProviderAcceptance) (deal_id current_epoch activation_grace_epochs : Z)
    : StorageDeal :=
  let total_payment := to_u64 (ac_offered_price_per_epoch a * in_duration_epochs i) in
  mkDeal (protocol_new now) deal_id (in_intent_id i) (ac_acceptance_id a) (in_client i) (ac_provider a) (in_data_cid i) (in_data_size i)
    (in_duration_epochs i) (ac_offered_price_per_epoch a) (ac_collateral_commitment a) total_payment None None
    (to_u64 (current_epoch + activation_grace_epochs)) Published Pending None.

Definition is_activation_deadline_exceeded (d : StorageDeal) (current_epoch : Z) : bool :=
  (dl_activation_deadline d <? current_epoch) && bool_decide (dl_start_epoch d = None).
Definition deal_is_active (d : StorageDeal) : bool := bool_decide (dl_status d = Active).
Definition deal_is_finalized (d : StorageDeal) : bool := is_finalized (dl_finality_status d).

Definition with_deal_status (s : StorageDealStatus) (d : StorageDeal) : StorageDeal :=
  mkDeal (dl_protocol d) (dl_id d) (dl_ref_intent d) (dl_ref_acceptance d) (dl_client d) (dl_provider d) (dl_data_cid d) (dl_data_size d)
    (dl_duration_epochs d) (dl_price_per_epoch d) (dl_provider_collateral d) (dl_client_payment_escrow d) (dl_proof_merkle_root d)
    (dl_start_epoch d) (dl_activation_deadline d) s (dl_finality_status d) (dl_finalized_at_epoch d).
Definition with_start_epoch (e : Z) (d : StorageDeal) : StorageDeal :=
  mkDeal (dl_protocol d) (dl_id d) (dl_ref_intent d) (dl_ref_acceptance d) (dl_client d) (dl_provider d) (dl_data_cid d) (dl_data_size d)
    (dl_duration_epochs d) (dl_price_per_epoch d) (dl_provider_collateral d) (dl_client_payment_escrow d) (dl_proof_merkle_root d)
    (Some e) (dl_activation_deadline d) (dl_status d) (dl_finality_status d) (dl_finalized_at_epoch d).
Definition with_merkle_root (r : Bytes) (d : StorageDeal) : StorageDeal :=
  mkDeal (dl_protocol d) (dl_id d) (dl_ref_intent d) (dl_ref_acceptance d) (dl_client d) (dl_provider d) (dl_data_cid d) (dl_data_size d)
    (dl_duration_epochs d) (dl_price_per_epoch d) (dl_provider_collateral d) (dl_client_payment_escrow d) (Some r)
    (dl_start_epoch d) (dl_activation_deadline d) (dl_status d) (dl_finality_status d) (dl_finalized_at_epoch d).

(** [None] when the transition is not allowed. *)
Definition transition_to (s : StorageDealStatus) (d : StorageDeal) : option StorageDeal :=
  if deal_can_transition_to (dl_status d) s then Some (with_deal_status s d) else None.

(** ** Merkle proofs *)

Definition merkle_step (acc : Bytes * Z) (sibling : Bytes) : Bytes * Z :=
  let (current_hash, index) := acc in
  (if index mod 2 =? 0 then blake3 (current_hash ++ sibling) else blake3 (sibling ++ current_hash), index / 2).
Definition merkle_verify (p : MerkleProof) (root : Bytes) : bool :=
  bool_decide ((foldl merkle_step (blake3 (mp_chunk_data p), mp_chunk_index p) (mp_sibling_hashes p)).1 = root).
End types.

(** ** Renewal, termination, migration *)

Record DealRenewal := mkRenewal {
  rn_protocol : Protocol;
  rn_deal_id : Z;
  rn_client : AccountAddress;
  rn_provider : AccountAddress;
  rn_additional_epochs : Z;
  rn_additional_payment : AdicAmount;
  rn_additional_collateral : AdicAmount;
  rn_new_price_per_epoch : option AdicAmount;
  rn_finality_status : FinalityStatus;
  rn_finalized_at_epoch : option Z;
  rn_renewal_id : Hash;
}.

Inductive TerminationReason := ClientRequest | ProviderRequest | MutualAgreement | ProviderBreach | ClientBreach | DataCorruption.
#[export] Instance TerminationReason_eq_dec : EqDecision TerminationReason.
Proof. solve_decision. Defined.

Record DealTermination := mkTermination {
  tm_protocol : Protocol;
  tm_deal_id : Z;
  tm_initiator : AccountAddress;
  tm_reason : TerminationReason;
  tm_termination_epoch : Z;
  tm_client_refund : AdicAmount;
  tm_provider_payment : AdicAmount;
  tm_collateral_return : AdicAmount;
  tm_penalty : AdicAmount;
  tm_finality_status : FinalityStatus;
  tm_finalized_at_epoch : option Z;
  tm_termination_id : Hash;
}.

Record MigrationProof := mkMigrationProof {
  mg_old_merkle_root : Bytes;
  mg_new_merkle_root : Bytes;
  mg_completed_epoch : Z;
  mg_signature : Signature;
}.
Record DealMigration := mkMigration {
  mi_protocol : Protocol;
  mi_deal_id : Z;
  mi_client : AccountAddress;
  mi_old_provider : AccountAddress;
  mi_new_provider : AccountAddress;
  mi_migration_deadline : Z;
  mi_new_collateral : AdicAmount;
  mi_migration_proof : option MigrationProof;
  mi_finality_status : FinalityStatus;
  mi_finalized_at_epoch : option Z;
  mi_migration_id : Hash;
}.

Section constructors.
Context (now : Z) (blake3 : Bytes -> Bytes).
Definition renewal_new (deal_id : Z) (client provider : AccountAddress) (additional_epochs : Z) (additional_payment additional_collateral : AdicAmount)
    (new_price_per_epoch : option AdicAmount) : DealRenewal :=
  mkRenewal (protocol_new now) deal_id client provider additional_epochs additional_payment additional_collateral new_price_per_epoch Pending None
    (blake3 (to_le_bytes 8 deal_id ++ client ++ to_le_bytes 8 additional_epochs ++ to_le_bytes 8 (to_u64 now))).
Definition termination_new (deal_id : Z) (initiator : AccountAddress) (reason : TerminationReason) (termination_epoch : Z)
    (client_refund provider_payment collateral_return penalty : AdicAmount) : DealTermination :=
  mkTermination (protocol_new now) deal_id initiator reason termination_epoch client_refund provider_payment collateral_return penalty Pending None
    (blake3 (to_le_bytes 8 deal_id ++ initiator ++ to_le_bytes 8 termination_epoch ++ to_le_bytes 8 (to_u64 now))).
Definition migration_new (deal_id : Z) (client old_provider new_provider : AccountAddress) (migration_deadline : Z) (new_collateral : AdicAmount)
    : DealMigration :=
  mkMigration (protocol_new now) deal_id client old_provider new_provider migration_deadline new_collateral None Pending None
    (blake3 (to_le_bytes 8 deal_id ++ client ++ old_provider ++ new_provider ++ to_le_bytes 8 (to_u64 now))).
End constructors.
Definition renewal_is_finalized (r : DealRenewal) : bool := is_finalized (rn_finality_status r).
Definition termination_is_finalized (t : DealTermination) : bool := is_finalized (tm_finality_status t).
Definition migration_is_finalized (m : DealMigration) : bool := is_finalized (mi_finality_status m).

Record DealManagementConfig := mkManagementConfig {
  dm_min_renewal_epochs : Z;
  dm_early_termination_penalty : f64;
  dm_migration_grace_period : Z;
}.
Definition management_config_default : DealManagementConfig := mkManagementConfig 100 (f64_lit 1 10) 1000.

Record DealManagementCoordinator := mkManagement {
  dc_config : DealManagementConfig;
  dc_renewals : gmap Hash DealRenewal;
  dc_terminations : gmap Hash DealTermination;
  dc_migrations : gmap Hash DealMigration;
}.
Definition management_new (config : DealManagementConfig) : DealManagementCoordinator := mkManagement config ∅ ∅ ∅.

Inductive ManagementError :=
  | DealNotActive (found : StorageDealStatus)
  | RenewalTooShort (epochs minimum : Z)
  | PartiesDoNotMatch
  | InitiatorNotParty
  | SameProvider.

Section management.
Abbreviation DMC := (M DealManagementCoordinator ManagementError).

Definition expect_active (d : StorageDeal) : DMC unit := mbail (negb (deal_is_active d)) (DealNotActive (dl_status d)).

Definition submit_renewal (r : DealRenewal) (d : StorageDeal) : DMC Hash :=
  expect_active d;;
  config ← mread dc_config;
  mbail (rn_additional_epochs r <? dm_min_renewal_epochs config) (RenewalTooShort (rn_additional_epochs r) (dm_min_renewal_epochs config));;
  mbail (negb (bool_decide (rn_client r = dl_client d)) || negb (bool_decide (rn_provider r = dl_provider d))) PartiesDoNotMatch;;
  mwrite (fun s => mkManagement (dc_config s) (<[rn_renewal_id r := r]> (dc_renewals s)) (dc_terminations s) (dc_migrations s));;
  mret (rn_renewal_id r).

Definition submit_termination (t : DealTermination) (d : StorageDeal) : DMC Hash :=
  expect_active d;;
  mbail (negb (bool_decide (tm_initiator t = dl_client d)) && negb (bool_decide (tm_initiator t = dl_provider d))) InitiatorNotParty;;
  mwrite (fun s => mkManagement (dc_config s) (dc_renewals s) (<[tm_termination_id t := t]> (dc_terminations s)) (dc_migrations s));;
  mret (tm_termination_id t).

Definition submit_migration (m : DealMigration) (d : StorageDeal) : DMC Hash :=
  expect_active d;;
  mbail (negb (bool_decide (mi_client m = dl_client d)) || negb (bool_decide (mi_old_provider m = dl_provider d))) PartiesDoNotMatch;;
  mbail (bool_decide (mi_new_provider m = mi_old_provider m)) SameProvider;;
  mwrite (fun s => mkManagement (dc_config s) (dc_renewals s) (dc_terminations s) (<[mi_migration_id m := m]> (dc_migrations s)));;
  mret (mi_migration_id m).

Record Settlement := mkSettlement {
  se_client_refund : AdicAmount;
  se_provider_payment : AdicAmount;
  se_collateral_return : AdicAmount;
  se_penalty : AdicAmount;
}.

(** [(amount as f64 * rate) as u64]. *)
Definition share_of (amount : AdicAmount) (rate : f64) : Z := f64_to_u64 (f64_mul (f64_of_Z amount) rate).

Definition unused_payment (d : StorageDeal) (current_epoch : Z) : AdicAmount :=
  let start_epoch := default 0 (dl_start_epoch d) in
  let elapsed_epochs := u64_saturating_sub current_epoch start_epoch in
  let remaining_epochs := u64_saturating_sub (dl_duration_epochs d) elapsed_epochs in
  to_u64 (dl_price_per_epoch d * remaining_epochs).

Definition calculate_termination_amounts (c : DealManagementConfig) (d : StorageDeal) (current_epoch : Z) (reason : TerminationReason) : Settlement :=
  let total := dl_client_payment_escrow d in
  let unused := unused_payment d current_epoch in
  let collateral := dl_provider_collateral d in
  match reason with
  | ClientRequest =>
      let penalty := share_of unused (dm_early_termination_penalty c) in
      let client_refund := to_u64 (unused - penalty) in
      mkSettlement client_refund (to_u64 (total - client_refund)) collateral penalty
  | ProviderRequest | ProviderBreach =>
      let penalty := share_of collateral (f64_lit 2 10) in
      mkSettlement (to_u64 (unused + penalty)) (to_u64 (total - unused)) (to_u64 (collateral - penalty)) penalty
  | MutualAgreement => mkSettlement unused (to_u64 (total - unused)) collateral ZERO
  | ClientBreach => mkSettlement ZERO total collateral (share_of unused (f64_lit 1 10))
  | DataCorruption => mkSettlement total ZERO ZERO collateral
  end.

Definition get_renewal (s : DealManagementCoordinator) (id : Hash) : option DealRenewal := dc_renewals s !! id.
Definition get_termination (s : DealManagementCoordinator) (id : Hash) : option DealTermination := dc_terminations s !! id.
Definition get_migration (s : DealManagementCoordinator) (id : Hash) : option DealMigration := dc_migrations s !! id.
(** How many terminations there are for a reason; the code keeps those that are not zero. *)
Definition count_terminations_by_reason (s : DealManagementCoordinator) (r : TerminationReason) : nat :=
  size (filter (fun kt => tm_reason kt.2 = r) (dc_terminations s)).
End management.

(** ** Statuses only advance *)

Definition deal_rank (s : StorageDealStatus) : nat :=
  match s with Published => 0 | PendingActivation => 1 | Active => 2 | Completed | Failed | Terminated => 3 end.

Lemma deal_transition_rank a b : deal_can_transition_to a b = true -> (deal_rank a < deal_rank b)%nat.
Proof. destruct a, b; simpl; (discriminate || lia). Qed.
Lemma deal_terminal_iff a : deal_is_terminal a = true <-> forall b, deal_can_transition_to a b = false.
Proof.
  destruct a; simpl; split; try done; try (by destruct b); intros H; [discriminate (H Failed)|discriminate (H Active)|discriminate (H Failed)].
Qed.

(** ** Merkle proofs against a tree *)

(** Two different inputs, one of each list, with the same hash. *)
Definition collides (hash : Bytes -> Bytes) (xs ys : list Bytes) : Prop := exists x y, x ∈ xs /\ y ∈ ys /\ x <> y /\ hash x = hash y.
Lemma collides_mono hash xs ys xs' ys' : xs ⊆ xs' -> ys ⊆ ys' -> collides hash xs ys -> collides hash xs' ys'.
Proof. intros Hx Hy (x & y & H1 & H2 & H). exists x, y. split; [by apply Hx|]. split; [by apply Hy|done]. Qed.

Inductive MTree := MLeaf (chunk : Bytes) | MNode (l r : MTree).

Section merkle.
Context (blake3 : Bytes -> Bytes) (digest_length : nat).

Fixpoint mroot (t : MTree) : Bytes :=
  match t with MLeaf c => blake3 c | MNode l r => blake3 (mroot l ++ mroot r) end.
Fixpoint perfect (n : nat) (t : MTree) : Prop :=
  match n, t with
  | O, MLeaf _ => True
  | S n, MNode l r => perfect n l /\ perfect n r
  | _, _ => False
  end.
(** The leaf whose number has the low [n] bits of [k], and its siblings from the leaf up. *)
Fixpoint leaf_at (n : nat) (k : Z) (t : MTree) : Bytes :=
  match t, n with
  | MLeaf c, _ => c
  | MNode l r, S n => leaf_at n k (if Z.testbit k (Z.of_nat n) then r else l)
  | MNode _ _, O => []
  end.
Fixpoint path_of (n : nat) (k : Z) (t : MTree) : list Bytes :=
  match t, n with
  | MNode l r, S n => if Z.testbit k (Z.of_nat n) then path_of n k r ++ [mroot l] else path_of n k l ++ [mroot r]
  | _, _ => []
  end.

Lemma merkle_index l h k : 0 <= k -> (foldl (merkle_step blake3) (h, k) l).2 = k / 2 ^ Z.of_nat (length l).
Proof.
  revert h k. induction l as [|x l IH]; intros h k Hk; simpl length; [by rewrite Z.div_1_r|].
  cbn [foldl]. unfold merkle_step at 2. rewrite IH by (apply Z.div_pos; lia).
  rewrite Nat2Z.inj_succ, Z.pow_succ_r, Z.div_div by lia. done.
Qed.

Lemma index_bit k n : 0 <= k -> (k / 2 ^ Z.of_nat n) mod 2 =? 0 = negb (Z.testbit k (Z.of_nat n)).
Proof. intros Hk. rewrite <-Z.testbit_spec' by lia. by destruct (Z.testbit _ _). Qed.

(** The last step of a path of [n + 1] siblings. *)
Lemma merkle_snoc h k l x : 0 <= k ->
  (foldl (merkle_step blake3) (h, k) (l ++ [x])).1 =
  let h' := (foldl (merkle_step blake3) (h, k) l).1 in
  if Z.testbit k (Z.of_nat (length l)) then blake3 (x ++ h') else blake3 (h' ++ x).
Proof.
  intros Hk. rewrite foldl_app. cbn [foldl]. pose proof (merkle_index l h k Hk) as Hi.
  destruct (foldl (merkle_step blake3) (h, k) l) as [h' k']. cbn in *. rewrite Hi, index_bit by done. by destruct (Z.testbit _ _).
Qed.

Lemma path_of_length n k t : perfect n t -> length (path_of n k t) = n.
Proof.
  revert t. induction n as [|n IH]; intros [c|l r] Hp; try done. destruct Hp as [Hl Hr]. simpl.
  destruct (Z.testbit _ _); rewrite length_app, IH by done; simpl; lia.
Qed.

(** What is hashed on the way up from [h], and by the whole check of a proof; what is hashed for the root. *)
Fixpoint path_inputs (h : Bytes) (k : Z) (sibs : list Bytes) : list Bytes :=
  match sibs with
  | [] => []
  | x :: sibs => let input := if k mod 2 =? 0 then h ++ x else x ++ h in input :: path_inputs (blake3 input) (k / 2) sibs
  end.
Definition proof_inputs (p : MerkleProof) : list Bytes :=
  mp_chunk_data p :: path_inputs (blake3 (mp_chunk_data p)) (mp_chunk_index p) (mp_sibling_hashes p).
Fixpoint tree_inputs (t : MTree) : list Bytes :=
  match t with MLeaf c => [c] | MNode l r => (mroot l ++ mroot r) :: tree_inputs l ++ tree_inputs r end.

Lemma path_inputs_snoc h k l x : 0 <= k ->
  let h' := (foldl (merkle_step blake3) (h, k) l).1 in
  path_inputs h k (l ++ [x]) = path_inputs h k l ++ [if Z.testbit k (Z.of_nat (length l)) then x ++ h' else h' ++ x].
Proof.
  intros Hk. revert h k Hk. induction l as [|y l IH]; intros h k Hk.
  { cbn [path_inputs app foldl fst length]. pose proof (index_bit k 0 Hk) as E. change (2 ^ Z.of_nat 0) with 1 in E. rewrite Z.div_1_r in E. rewrite E. by destruct (Z.testbit _ _). }
  cbn [path_inputs app foldl length]. 
  assert (merkle_step blake3 (h, k) y = (blake3 (if k mod 2 =? 0 then h ++ y else y ++ h), k / 2)) as -> by (unfold merkle_step; by destruct (k mod 2 =? 0)).
  cbv zeta. rewrite IH by (apply Z.div_pos; lia).
  by replace (Z.testbit k (Z.of_nat (S (length l)))) with (Z.testbit (k / 2) (Z.of_nat (length l))) by (rewrite Nat2Z.inj_succ, <-Z.div2_div, Z.div2_spec, Z.shiftr_spec by lia; f_equal; lia).
Qed.

Lemma hash_cases x y xs ys : x ∈ xs -> y ∈ ys -> blake3 x = blake3 y -> x = y \/ collides blake3 xs ys.
Proof. intros Hx Hy H. destruct (decide (x = y)) as [|Hne]; [by left|]. right. by exists x, y. Qed.

Lemma fold_length c k l : 0 <= k -> (forall x, length (blake3 x) = digest_length) ->
  length (foldl (merkle_step blake3) (blake3 c, k) l).1 = digest_length.
Proof.
  intros Hk Hlen. destruct l as [|y l _] using rev_ind; [apply Hlen|]. rewrite merkle_snoc by done. cbv zeta.
  destruct (Z.testbit _ _); apply Hlen.
Qed.

(** C28: Against the root of a full binary tree, a Merkle proof is complete and sound: the siblings of the
    leaf with the index of the proof verify, and a proof with one sibling for each level that verifies
    shows that leaf, unless two different inputs, one hashed for the proof and one for the tree, have
    the same hash. *)
Theorem merkle_proof_correct n t k c sibs :
  perfect n t -> 0 <= k -> length sibs = n -> (forall x, length (blake3 x) = digest_length) ->
  merkle_verify blake3 (mkMerkle k (leaf_at n k t) (path_of n k t)) (mroot t) = true /\
  (merkle_verify blake3 (mkMerkle k c sibs) (mroot t) = true ->
   c = leaf_at n k t \/ collides blake3 (proof_inputs (mkMerkle k c sibs)) (tree_inputs t)).
Proof.
  intros Hp Hk Hs Hlen. unfold merkle_verify. rewrite !bool_decide_eq_true. cbn [mp_chunk_data mp_chunk_index mp_sibling_hashes]. split.
  - clear Hs. revert t Hp. induction n as [|n IH]; intros [c'|l r] Hp; try done. destruct Hp as [Hl Hr]. cbn [leaf_at path_of mroot].
    destruct (Z.testbit k (Z.of_nat n)) eqn:Eb; rewrite merkle_snoc, path_of_length, Eb by done; cbv zeta; by rewrite IH.
  - unfold proof_inputs. cbn [mp_chunk_data mp_chunk_index mp_sibling_hashes].
    revert t sibs Hp Hs. induction n as [|n IH]; intros [c'|l r] sibs Hp Hs Hv; try done.
    + destruct sibs; [|done]. by apply (hash_cases c c'); [left..|].
    + destruct sibs as [|x sibs _] using rev_ind; [done|]. destruct Hp as [Hl Hr]. rewrite length_app in Hs. simpl in Hs.
      assert (length sibs = n) as Hn by lia.
      rewrite merkle_snoc, Hn in Hv by done. cbv zeta in Hv. rewrite path_inputs_snoc, Hn by done. cbn [mroot leaf_at tree_inputs] in *.
      pose proof (fold_length c k sibs Hk Hlen) as Hh. set (h := (foldl _ _ _).1) in *.
      assert (forall t', length (mroot t') = digest_length) as Hm by (intros []; apply Hlen).
      rewrite app_comm_cons. destruct (Z.testbit k (Z.of_nat n)).
      * apply (hash_cases _ _ ((c :: path_inputs (blake3 c) k sibs) ++ [x ++ h]) ((mroot l ++ mroot r) :: tree_inputs l ++ tree_inputs r)) in Hv as [Hv|]; [|by right|by apply elem_of_app; right; left|by left].
        apply app_inj_2 in Hv as [_ Hv]; [|by rewrite Hh, Hm]. destruct (IH r sibs Hr Hn Hv) as [|Hc]; [by left|right].
        eapply collides_mono; [..|exact Hc]; set_solver.
      * apply (hash_cases _ _ ((c :: path_inputs (blake3 c) k sibs) ++ [h ++ x]) ((mroot l ++ mroot r) :: tree_inputs l ++ tree_inputs r)) in Hv as [Hv|]; [|by right|by apply elem_of_app; right; left|by left].
        apply app_inj_1 in Hv as [Hv _]; [|by rewrite Hh, Hm]. destruct (IH l sibs Hl Hn Hv) as [|Hc]; [by left|right].
        eapply collides_mono; [..|exact Hc]; set_solver.
Qed.

(** The number of siblings is not compared with the size of the data: the two children of the root,
    shown as a chunk, verify for every index. *)
Theorem two_hashes_verify l r k : merkle_verify blake3 (mkMerkle k (mroot l ++ mroot r) []) (mroot (MNode l r)) = true.
Proof. unfold merkle_verify. by apply bool_decide_eq_true. Qed.
End merkle.

(** ** Terminations *)

(** The price of the whole deal is in escrow, as the compiler of deals leaves it. *)
Definition deal_priced (d : StorageDeal) : Prop :=
  0 <= dl_price_per_epoch d /\ 0 <= dl_duration_epochs d /\ 0 <= dl_provider_collateral d /\
  dl_client_payment_escrow d = dl_price_per_epoch d * dl_duration_epochs d /\
  dl_client_payment_escrow d + dl_provider_collateral d <= u64_max.

Lemma to_u64_id z : is_u64 z -> to_u64 z = z.
Proof. unfold is_u64, to_u64, u64_max. intros H. apply Z.mod_small. lia. Qed.

Lemma unused_range d e : deal_priced d -> 0 <= unused_payment d e <= dl_client_payment_escrow d.
Proof.
  intros (H1 & H2 & H3 & H4 & H5). unfold unused_payment. set (el := u64_saturating_sub e _).
  assert (0 <= el) by (unfold el, u64_saturating_sub; lia).
  assert (0 <= u64_saturating_sub (dl_duration_epochs d) el <= dl_duration_epochs d) as Hr by (unfold u64_saturating_sub; lia).
  rewrite to_u64_id; [nia|]. unfold is_u64. nia.
Qed.

(** Ending a deal early divides exactly what it holds, the client's escrow and the provider's
    collateral, whatever the reason, with a share that does not exceed the amount it is taken from:
    refund, payment and returned collateral (and the forfeited collateral when the data is corrupt)
    are nonnegative and sum to both, the client gets no more than the unused payment unless the
    provider is at fault, and loses nothing of it to a fault of the provider. *)
Theorem termination_conserves c d epoch reason :
  deal_priced d ->
  share_of (unused_payment d epoch) (dm_early_termination_penalty c) <= unused_payment d epoch ->
  share_of (dl_provider_collateral d) (f64_lit 2 10) <= dl_provider_collateral d ->
  let s := calculate_termination_amounts c d epoch reason in
  0 <= se_client_refund s /\ 0 <= se_provider_payment s /\ 0 <= se_collateral_return s /\ 0 <= se_penalty s /\
  se_client_refund s + se_provider_payment s + se_collateral_return s + (match reason with DataCorruption => se_penalty s | _ => 0 end)
    = dl_client_payment_escrow d + dl_provider_collateral d /\
  match reason with
  | ClientRequest | ClientBreach | MutualAgreement => se_client_refund s <= unused_payment d epoch
  | ProviderRequest | ProviderBreach | DataCorruption => unused_payment d epoch <= se_client_refund s
  end.
Proof.
  intros Hd Hs1 Hs2. pose proof (unused_range d epoch Hd) as Hu. destruct Hd as (H1 & H2 & H3 & H4 & H5).
  assert (forall a r, 0 <= share_of a r) as Hshare by (intros a r; apply (f64_to_uint_range u64_max); done).
  pose proof (Hshare (unused_payment d epoch) (dm_early_termination_penalty c)).
  pose proof (Hshare (dl_provider_collateral d) (f64_lit 2 10)). pose proof (Hshare (unused_payment d epoch) (f64_lit 1 10)).
  unfold calculate_termination_amounts, ZERO. clear H4.
  set (u := unused_payment d epoch) in *. set (p1 := share_of u (dm_early_termination_penalty c)) in *. set (p2 := share_of _ (f64_lit 2 10)) in *.
  destruct reason; cbn [se_client_refund se_provider_payment se_collateral_return se_penalty];
    rewrite ?to_u64_id by (unfold is_u64; rewrite ?to_u64_id by (unfold is_u64; lia); lia); lia.
Qed.

(** ** Examples *)

Definition sum_hash (b : Bytes) : Bytes := [foldl (fun acc x => 31 * acc + x + 1) 7 b].
Definition four_chunks : MTree := MNode (MNode (MLeaf [1]) (MLeaf [2])) (MNode (MLeaf [3]) (MLeaf [4])).

(** A weak hash: another chunk verifies, and the theorem then has the collision. *)
Definition two_chunks : MTree := MNode (MLeaf [1; 0]) (MLeaf [2]).
Lemma merkle_proof_correct_witness :
  leaf_at 2 2 four_chunks = [3] /\
  merkle_verify sum_hash (mkMerkle 2 (leaf_at 2 2 four_chunks) (path_of sum_hash 2 2 four_chunks)) (mroot sum_hash four_chunks) = true /\
  collides sum_hash (proof_inputs sum_hash (mkMerkle 0 [0; 31] [sum_hash [2]])) (tree_inputs sum_hash two_chunks).
Proof.
  split; [reflexivity|]. split.
  - apply (merkle_proof_correct sum_hash 1 2 four_chunks 2 [3] [[]; []]); [by split|lia|done..].
  - destruct (merkle_proof_correct sum_hash 1 1 two_chunks 0 [0; 31] [sum_hash [2]]) as [_ H]; [by split|lia|done..|].
    destruct H as [H|H]; [vm_compute; reflexivity|discriminate H|exact H].
Defined.

(** A deal of 100 epochs at 10 units, with 500 units of collateral. *)
Definition demo_deal (status : StorageDealStatus) : StorageDeal :=
  mkDeal (protocol_new 0) 1 [1] [2] (replicate 32 1) (replicate 32 2) [9] 10000 100 10 500 1000 (Some [7]) (Some 0) 50 status Pending None.

Lemma termination_conserves_witness :
  let s := calculate_termination_amounts management_config_default (demo_deal Active) 40 ProviderBreach in
  se_client_refund s = 700 /\ se_client_refund s + se_provider_payment s + se_collateral_return s + 0 = 1500.
Proof.
  intros s. split; [vm_compute; reflexivity|].
  destruct (termination_conserves management_config_default (demo_deal Active) 40 ProviderBreach) as (_ & _ & _ & _ & H & _).
  - unfold deal_priced, u64_max. simpl. lia.
  - vm_compute. discriminate.
  - vm_compute. discriminate.
  - exact H.
Defined.
