(* ===== verification/Market.v ===== *)
(** * Intents and the compilation of deals

    [adic-storage-market/src/intent.rs] and [jitca.rs]: clients publish intents, providers accept
    them, and an accepted intent is compiled into a deal that locks the client's payment and the
    provider's collateral.

    The intent manager, the compiler, the proof cycle and the coordinator hold the same balance
    manager, so the state of all of them is one record, [Market]; [MarketProof] and [Marketplace]
    have the operations of the latter two.  [now] is the clock in seconds.  [intents_iter] and
    [deals_iter] are the orders in which a [HashMap] lists its entries. *)

From S2P Require Import Prelude F64 Message Amount EconStorage Balance Reputation Admissibility Vrf Quorum Challenge Finality.
From S2P Require Import ParamStore Voting Application MarketTypes.

(** ** State *)

Record IntentConfig := mkIntentConfig {
  ic_min_deposit : AdicAmount;
  ic_min_client_reputation : f64;
  ic_max_intent_duration : Z;
  ic_max_intents_per_client : nat;
}.
Definition intent_config_default : IntentConfig := mkIntentConfig (from_adic (f64_lit 1 10)) (f64_of_Z 10) 86400 10.

Record IntentManager := mkIntents {
  im_config : IntentConfig;
  im_intents : gmap Hash StorageDealIntent;
  im_acceptances : gmap Hash ProviderAcceptance;
  im_intent_acceptances : gmap Hash (list Hash);
  im_client_intents : gmap AccountAddress (list Hash);
}.
Definition intents_new (config : IntentConfig) : IntentManager := mkIntents config ∅ ∅ ∅ ∅.

Record JitcaConfig := mkJitcaConfig {
  jt_min_collateral_ratio : f64;
  jt_max_compilation_window : Z;
  jt_activation_deadline : Z;
  jt_require_f1_finality : bool;
}.
Definition jitca_config_default : JitcaConfig := mkJitcaConfig (f64_of_Z 1) 100 50 true.

Record JitcaCompiler := mkJitca { jc_config : JitcaConfig; jc_deals : gmap Hash StorageDeal; jc_next_deal_id : Z }.
Definition jitca_new (config : JitcaConfig) : JitcaCompiler := mkJitca config ∅ 1.

Record ProofCycleConfig := mkProofConfig {
  pf_proof_grace_period : Z;
  pf_slash_percentage : f64;
  pf_chunks_per_challenge : nat;
  pf_payment_per_proof : f64;
  pf_vrf_grace_period_epochs : Z;
}.
Definition proof_config_default : ProofCycleConfig := mkProofConfig 5 (f64_lit 1 10) 3 (f64_lit 1 10) 3.

Record ProofCycleManager := mkProofs {
  pm_config : ProofCycleConfig;
  pm_finality : option FinalityAdapter;
  pm_challenges : ChallengeWindowManager;
  pm_vrf : VRFService;
  pm_proofs : gmap Z (list StorageProof);
  pm_pending : gmap Z (list Z);
  pm_released : gmap Z AdicAmount;
  pm_message_ids : gmap Z MessageId;
  pm_fraud_proofs : gmap MessageId FraudProof;
}.
Definition proofs_new (config : ProofCycleConfig) (challenges : ChallengeWindowManager) (vrf : VRFService) : ProofCycleManager :=
  mkProofs config None challenges vrf ∅ ∅ ∅ ∅ ∅.

Record Market (St : Type) := mkMarket {
  mk_balances : BalanceManager St;
  mk_reputation : ReputationTracker;
  mk_intents : IntentManager;
  mk_jitca : JitcaCompiler;
  mk_proofs : ProofCycleManager;
  mk_deals : gmap Z StorageDeal;
  mk_epoch : Z;
}.
Arguments mkMarket {St}.
Arguments mk_balances {St}.
Arguments mk_reputation {St}.
Arguments mk_intents {St}.
Arguments mk_jitca {St}.
Arguments mk_proofs {St}.
Arguments mk_deals {St}.
Arguments mk_epoch {St}.

Inductive ProofFault := NoPendingChallenges | TooLate | CountMismatch | IndexMismatch | NoMerkleRoot | BadMerkleProof | NotTheChallenges.
Inductive MarketError :=
  | PoorReputation (required actual : f64)
  | InsufficientFunds (required available : AdicAmount)
  | TooManyIntents (count : nat)
  | IntentTooLong (duration : Z)
  | Economics (e : EconError)
  | IntentNotFound
  | AcceptanceNotFound
  | NotFinalized
  | IntentExpired (at_ : Z)
  | NotTheIntent
  | PriceTooHigh
  | WindowExceeded (elapsed : Z)
  | PaymentOverflow
  | InsufficientCollateral (required provided : AdicAmount)
  | DealNotFound (id : Z)
  | InvalidStateTransition (from : StorageDealStatus)
  | ActivationDeadlineExceeded (deadline current : Z)
  | VrfRequired (epoch : Z)
  | ProofRefused (f : ProofFault)
  | ChallengeFault (e : ChallengeError)
  | FraudWindow
  | FraudProofNotFound
  | OverRelease
  | DurationNotElapsed
  | MarketMessageNotFound
  | MarketTimeout (e : AdapterError).

Section market.
Context {St : Type} `{!EconomicsStorage St}.
Context (now : Z).
Context (intents_iter : gmap Hash StorageDealIntent -> list (Hash * StorageDealIntent)).
Context (deals_iter : gmap Hash StorageDeal -> list (Hash * StorageDeal)).
Abbreviation MM := (M (Market St) MarketError).
Implicit Types m : Market St.

(** ** Parts of the state *)

Definition put_balances (b : BalanceManager St) m : Market St :=
  mkMarket b (mk_reputation m) (mk_intents m) (mk_jitca m) (mk_proofs m) (mk_deals m) (mk_epoch m).
Definition put_intents (f : IntentManager -> IntentManager) m : Market St :=
  mkMarket (mk_balances m) (mk_reputation m) (f (mk_intents m)) (mk_jitca m) (mk_proofs m) (mk_deals m) (mk_epoch m).
Definition put_jitca (f : JitcaCompiler -> JitcaCompiler) m : Market St :=
  mkMarket (mk_balances m) (mk_reputation m) (mk_intents m) (f (mk_jitca m)) (mk_proofs m) (mk_deals m) (mk_epoch m).
Definition put_proofs (f : ProofCycleManager -> ProofCycleManager) m : Market St :=
  mkMarket (mk_balances m) (mk_reputation m) (mk_intents m) (mk_jitca m) (f (mk_proofs m)) (mk_deals m) (mk_epoch m).
Definition put_deals (f : gmap Z StorageDeal -> gmap Z StorageDeal) m : Market St :=
  mkMarket (mk_balances m) (mk_reputation m) (mk_intents m) (mk_jitca m) (mk_proofs m) (f (mk_deals m)) (mk_epoch m).
Definition put_epoch (e : Z) m : Market St :=
  mkMarket (mk_balances m) (mk_reputation m) (mk_intents m) (mk_jitca m) (mk_proofs m) (mk_deals m) e.

Definition on_balances {A} (c : M (BalanceManager St) EconError A) : MM A := mmap_err Economics (mzoom mk_balances put_balances c).

Definition store_intent (i : StorageDealIntent) (im : IntentManager) : IntentManager :=
  mkIntents (im_config im) (<[in_intent_id i := i]> (im_intents im)) (im_acceptances im) (im_intent_acceptances im)
    (<[in_client i := default [] (im_client_intents im !! in_client i) ++ [in_intent_id i]]> (im_client_intents im)).
Definition replace_intent (id : Hash) (i : StorageDealIntent) (im : IntentManager) : IntentManager :=
  mkIntents (im_config im) (<[id := i]> (im_intents im)) (im_acceptances im) (im_intent_acceptances im) (im_client_intents im).
Definition store_acceptance (a : ProviderAcceptance) (im : IntentManager) : IntentManager :=
  mkIntents (im_config im) (im_intents im) (<[ac_acceptance_id a := a]> (im_acceptances im))
    (<[ac_ref_intent a := default [] (im_intent_acceptances im !! ac_ref_intent a) ++ [ac_acceptance_id a]]> (im_intent_acceptances im))
    (im_client_intents im).
Definition replace_acceptance (id : Hash) (a : ProviderAcceptance) (im : IntentManager) : IntentManager :=
  mkIntents (im_config im) (im_intents im) (<[id := a]> (im_acceptances im)) (im_intent_acceptances im) (im_client_intents im).

(** ** Intents *)

Definition publish_intent (i : StorageDealIntent) : MM Hash :=
  m ← mread (fun m => m);
  let config := im_config (mk_intents m) in
  let client_rep := get_reputation (mk_reputation m) (in_client i) in
  mbail (f64_ltb client_rep (ic_min_client_reputation config)) (PoorReputation (ic_min_client_reputation config) client_rep);;
  mbail (in_deposit i <? ic_min_deposit config) (InsufficientFunds (ic_min_deposit config) (in_deposit i));;
  let count := length (default [] (im_client_intents (mk_intents m) !! in_client i)) in
  mbail (bool_decide (is_Some (im_client_intents (mk_intents m) !! in_client i)) && (ic_max_intents_per_client config <=? count)%nat) (TooManyIntents count);;
  let duration := to_i64 (in_expires_at i - po_timestamp (in_protocol i)) in
  mbail (ic_max_intent_duration config <? duration) (IntentTooLong duration);;
  on_balances (debit now (in_client i) (in_deposit i));;
  mwrite (put_intents (store_intent i));;
  mret (in_intent_id i).

Definition update_intent_finality (id : Hash) (f : FinalityStatus) (epoch : Z) : MM unit :=
  intents ← mread (fun m => im_intents (mk_intents m));
  i ← mopt (intents !! id) IntentNotFound;
  mwrite (put_intents (replace_intent id (with_intent_finality f epoch i)));;
  mwhen (is_finalized f) (on_balances (credit now (in_client i) (in_deposit i))).

Definition submit_acceptance (a : ProviderAcceptance) : MM Hash :=
  m ← mread (fun m => m);
  let config := im_config (mk_intents m) in
  i ← mopt (im_intents (mk_intents m) !! ac_ref_intent a) IntentNotFound;
  mbail (negb (intent_is_finalized i)) NotFinalized;;
  mbail (intent_is_expired now i) (IntentExpired (in_expires_at i));;
  let provider_rep := get_reputation (mk_reputation m) (ac_provider a) in
  mbail (f64_ltb provider_rep (ic_min_client_reputation config)) (PoorReputation (ic_min_client_reputation config) provider_rep);;
  let a := with_provider_reputation provider_rep a in
  mbail (ac_deposit a <? ic_min_deposit config) (InsufficientFunds (ic_min_deposit config) (ac_deposit a));;
  on_balances (debit now (ac_provider a) (ac_deposit a));;
  mwrite (put_intents (store_acceptance a));;
  mret (ac_acceptance_id a).

Definition update_acceptance_finality (id : Hash) (f : FinalityStatus) (epoch : Z) : MM unit :=
  acceptances ← mread (fun m => im_acceptances (mk_intents m));
  a ← mopt (acceptances !! id) AcceptanceNotFound;
  mwrite (put_intents (replace_acceptance id (with_acceptance_finality f epoch a)));;
  mwhen (is_finalized f) (on_balances (credit now (ac_provider a) (ac_deposit a))).

Definition get_acceptances_for_intent m (id : Hash) : option (list ProviderAcceptance) :=
  ids ← im_intent_acceptances (mk_intents m) !! id;
  Some (List.filter acceptance_is_finalized (omap (fun aid => im_acceptances (mk_intents m) !! aid) ids)).
Definition get_intent m (id : Hash) : option StorageDealIntent := im_intents (mk_intents m) !! id.
Definition get_acceptance m (id : Hash) : option ProviderAcceptance := im_acceptances (mk_intents m) !! id.
Definition get_finalized_intents m : list StorageDealIntent :=
  List.filter (fun i => intent_is_finalized i && negb (intent_is_expired now i)) (intents_iter (im_intents (mk_intents m))).*2.

Definition remove_intent (im : IntentManager) (id : Hash) : IntentManager :=
  match im_intents im !! id with
  | Some i =>
      mkIntents (im_config im) (delete id (im_intents im)) (im_acceptances im) (delete id (im_intent_acceptances im))
        (alter (List.filter (fun x => negb (bool_decide (x = id)))) (in_client i) (im_client_intents im))
  | None => im
  end.
Definition cleanup_expired_intents : MM nat :=
  intents ← mread (fun m => im_intents (mk_intents m));
  let expired := (List.filter (fun ki => intent_is_expired now ki.2) (intents_iter intents)).*1 in
  mwrite (put_intents (fun im => foldl remove_intent im expired));;
  mret (length expired).

Record IntentStats := mkIntentStats {
  is_total_intents : nat;
  is_finalized_intents : nat;
  is_pending_intents : nat;
  is_expired_intents : nat;
  is_total_acceptances : nat;
  is_finalized_acceptances : nat;
}.
Definition count_intents (p : StorageDealIntent -> bool) m : nat := size (filter (fun ki => p ki.2 = true) (im_intents (mk_intents m))).
Definition get_intent_stats m : IntentStats :=
  mkIntentStats (size (im_intents (mk_intents m))) (count_intents (fun i => negb (intent_is_expired now i) && intent_is_finalized i) m)
    (count_intents (fun i => negb (intent_is_expired now i) && negb (intent_is_finalized i)) m) (count_intents (intent_is_expired now) m)
    (size (im_acceptances (mk_intents m))) (size (filter (fun ka => acceptance_is_finalized ka.2 = true) (im_acceptances (mk_intents m)))).
Definition get_provider_acceptance_count m (provider : AccountAddress) : nat :=
  size (filter (fun ka => ac_provider ka.2 = provider) (im_acceptances (mk_intents m))).
Definition get_client_intent_count m (client : AccountAddress) : nat := length (default [] (im_client_intents (mk_intents m) !! client)).

(** ** Compilation *)

Definition validate_compatibility (i : StorageDealIntent) (a : ProviderAcceptance) : result MarketError unit :=
  if negb (bool_decide (ac_ref_intent a = in_intent_id i)) then Err NotTheIntent
  else if in_max_price_per_epoch i <? ac_offered_price_per_epoch a then Err PriceTooHigh
  else Ok tt.
Definition validate_finality (c : JitcaConfig) (i : StorageDealIntent) (a : ProviderAcceptance) : result MarketError unit :=
  if negb (jt_require_f1_finality c) then Ok tt
  else if negb (intent_is_finalized i) then Err NotFinalized
  else if negb (acceptance_is_finalized a) then Err NotFinalized
  else Ok tt.
Definition validate_compilation_window (c : JitcaConfig) (a : ProviderAcceptance) (current_epoch : Z) : result MarketError unit :=
  match ac_finalized_at_epoch a with
  | Some finalized_epoch =>
      let elapsed := u64_saturating_sub current_epoch finalized_epoch in
      if jt_max_compilation_window c <? elapsed then Err (WindowExceeded elapsed) else Ok tt
  | None => Ok tt
  end.
Definition calculate_total_payment (i : StorageDealIntent) (a : ProviderAcceptance) : result MarketError AdicAmount :=
  let total := ac_offered_price_per_epoch a * in_duration_epochs i in
  if total <=? u64_max then Ok total else Err PaymentOverflow.
Definition calculate_required_collateral (c : JitcaConfig) (total_payment : AdicAmount) : AdicAmount :=
  share_of total_payment (jt_min_collateral_ratio c).

Definition next_deal_id : MM Z :=
  id ← mread (fun m => jc_next_deal_id (mk_jitca m));
  mwrite (put_jitca (fun j => mkJitca (jc_config j) (jc_deals j) (to_u64 (id + 1))));;
  mret id.
Definition transition (s : StorageDealStatus) (d : StorageDeal) : MM StorageDeal := mopt (transition_to s d) (InvalidStateTransition (dl_status d)).

Definition compile (i : StorageDealIntent) (a : ProviderAcceptance) (current_epoch : Z) : MM StorageDeal :=
  c ← mread (fun m => jc_config (mk_jitca m));
  mresult (validate_compatibility i a);;
  mresult (validate_finality c i a);;
  mresult (validate_compilation_window c a current_epoch);;
  total_payment ← mresult (calculate_total_payment i a);
  let required_collateral := calculate_required_collateral c total_payment in
  mbail (ac_collateral_commitment a <? required_collateral) (InsufficientCollateral required_collateral (ac_collateral_commitment a));;
  on_balances (debit now (in_client i) total_payment);;
  on_balances (debit now (ac_provider a) (ac_collateral_commitment a));;
  deal_id ← next_deal_id;
  deal ← transition PendingActivation (from_intent_and_acceptance now i a deal_id current_epoch (jt_activation_deadline c));
  mwrite (put_jitca (fun j => mkJitca (jc_config j) (<[in_intent_id i := deal]> (jc_deals j)) (jc_next_deal_id j)));;
  mret deal.

Definition jitca_get_deal m (intent_id : Hash) : option StorageDeal := jc_deals (mk_jitca m) !! intent_id.

Definition jitca_activate_deal (deal_id current_epoch : Z) : MM unit :=
  deals ← mread (fun m => jc_deals (mk_jitca m));
  kd ← mopt (List.find (fun kd => dl_id kd.2 =? deal_id) (deals_iter deals)) (DealNotFound deal_id);
  mbail (negb (bool_decide (dl_status kd.2 = PendingActivation))) (InvalidStateTransition (dl_status kd.2));;
  mbail (dl_activation_deadline kd.2 <? current_epoch) (ActivationDeadlineExceeded (dl_activation_deadline kd.2) current_epoch);;
  d ← transition Active kd.2;
  mwrite (put_jitca (fun j => mkJitca (jc_config j) (<[kd.1 := with_start_epoch current_epoch d]> (jc_deals j)) (jc_next_deal_id j))).

Definition jitca_deals_where (p : StorageDeal -> bool) m : list StorageDeal := List.filter p (deals_iter (jc_deals (mk_jitca m))).*2.
Definition jitca_get_client_deals m (client : AccountAddress) : list StorageDeal := jitca_deals_where (fun d => bool_decide (dl_client d = client)) m.
Definition jitca_get_provider_deals m (provider : AccountAddress) : list StorageDeal :=
  jitca_deals_where (fun d => bool_decide (dl_provider d = provider)) m.
Definition jitca_count (s : StorageDealStatus) m : nat := size (filter (fun kd => dl_status kd.2 = s) (jc_deals (mk_jitca m))).
End market.

(** ** Facts *)

Section facts.
Context {St : Type} `{!EconomicsStorage St} `{!EconomicsStorageLaws St}.
Context (now : Z).
Implicit Types m : Market St.
Implicit Types b : BalanceManager St.

Definition mbal m (a : AccountAddress) : AdicAmount := bal (mk_balances m) a.
Definition can_pay b (a : AccountAddress) (amount : AdicAmount) : Prop := amount = 0 \/ amount <= bal b a.

(** What one account gains; the others keep theirs. *)
Definition gains (f g : AccountAddress -> AdicAmount) (a : AccountAddress) (amount : AdicAmount) : Prop :=
  forall x, g x = f x + (if bool_decide (x = a) then amount else 0).

Lemma gains_0 f g a : (forall x, g x = f x) -> gains f g a 0.
Proof. intros H x. rewrite H. case_bool_decide; lia. Qed.

Lemma debit_cases a amount b :
  coherent b ->
  exists b' r, debit now a amount b = (r, b') /\ coherent b' /\
    (can_pay b a amount /\ r = Ok tt /\ gains (bal b) (bal b') a (- amount) \/
     ~ can_pay b a amount /\ r = Err (InsufficientBalance a (bal b a) amount) /\ forall x, bal b' x = bal b x).
Proof.
  intros Hc. destruct (debit_ok now a amount b Hc) as (b' & r & Hd & Hc' & H). exists b', r. split; [done|]. split; [done|].
  destruct (amount =? 0) eqn:E0; zbool.
  - destruct H as [-> ->]. left. subst. split; [by left|]. split; [done|]. by apply gains_0.
  - unfold can_pay. destruct (bal b a <? amount) eqn:E1; zbool; destruct H as [-> Hv].
    + right. split; [lia|]. split; [done|]. intros x. unfold bal. by rewrite Hv.
    + left. split; [lia|]. split; [done|]. intros x. unfold bal at 1. rewrite Hv, balance_put_balance.
      destruct (decide (x = a)) as [->|Hne]; [rewrite bool_decide_true by done; fold (bal b a); lia|].
      rewrite bool_decide_false by done. fold (bal b x). lia.
Qed.

Definition fits b (a : AccountAddress) (amount : AdicAmount) : Prop := amount = 0 \/ bal b a + amount <= MAX_SUPPLY.
Lemma credit_cases a amount b :
  coherent b ->
  exists b' r, credit now a amount b = (r, b') /\ coherent b' /\
    (fits b a amount /\ r = Ok tt /\ gains (bal b) (bal b') a amount \/
     ~ fits b a amount /\ (exists e, r = Err e) /\ forall x, bal b' x = bal b x).
Proof.
  intros Hc. destruct (credit_ok now a amount b Hc) as (b' & r & Hd & Hc' & H). exists b', r. split; [done|]. split; [done|].
  assert (MAX_SUPPLY <= u64_max) as Hmax by (vm_compute; discriminate).
  destruct (amount =? 0) eqn:E0; zbool.
  - destruct H as [-> ->]. left. subst. split; [by left|]. split; [done|]. by apply gains_0.
  - unfold fits. destruct (u64_max <? _) eqn:E1; [|destruct (MAX_SUPPLY <? _) eqn:E2]; zbool; destruct H as [-> Hv].
    + right. split; [lia|]. split; [by eexists|]. intros x. unfold bal. by rewrite Hv.
    + right. split; [lia|]. split; [by eexists|]. intros x. unfold bal. by rewrite Hv.
    + left. split; [lia|]. split; [done|]. intros x. unfold bal at 1. rewrite Hv, balance_put_balance.
      destruct (decide (x = a)) as [->|Hne]; [rewrite bool_decide_true by done; fold (bal b a); lia|].
      rewrite bool_decide_false by done. fold (bal b x). lia.
Qed.

Lemma market_balances_bind {A B} (c : M (BalanceManager St) EconError A) (k : A -> M (Market St) MarketError B) m :
  (on_balances c ≫= k) m =
  match c (mk_balances m) with
  | (Ok x, b) => k x (put_balances b m)
  | (Err e, b) => (Err (Economics e), put_balances b m)
  | (Panic, b) => (Panic, put_balances b m)
  end.
Proof. unfold on_balances, mmap_err, mzoom, mbind, M_bind. by destruct (c (mk_balances m)) as [[x|e|] b]. Qed.

Lemma bail_bind {A} c e (k : unit -> M (Market St) MarketError A) m :
  (mbail c e ≫= k) m = if c then (Err e, m) else k tt m.
Proof. by destruct c. Qed.

(** ** Intents *)

(** What admits an intent, short of its client's balance. *)
Definition publishable m (i : StorageDealIntent) : Prop :=
  let config := im_config (mk_intents m) in
  f64_ltb (get_reputation (mk_reputation m) (in_client i)) (ic_min_client_reputation config) = false /\
  ic_min_deposit config <= in_deposit i /\
  (forall l, im_client_intents (mk_intents m) !! in_client i = Some l -> (length l < ic_max_intents_per_client config)%nat) /\
  to_i64 (in_expires_at i - po_timestamp (in_protocol i)) <= ic_max_intent_duration config.

(** An intent is published exactly when its client has the reputation, intents left and the balance
    for a deposit of at least the minimum, and it does not last too long.  It is then stored and
    counted for its client, whose balance loses exactly the deposit; otherwise nothing changes. *)
Theorem publish_intent_correct i m :
  coherent (mk_balances m) ->
  let '(r, m') := publish_intent now i m in
  coherent (mk_balances m') /\
  (publishable m i /\ can_pay (mk_balances m) (in_client i) (in_deposit i) /\ r = Ok (in_intent_id i) /\
     mk_intents m' = store_intent i (mk_intents m) /\ gains (mbal m) (mbal m') (in_client i) (- in_deposit i) \/
   ~ (publishable m i /\ can_pay (mk_balances m) (in_client i) (in_deposit i)) /\ is_err r = true /\
     mk_intents m' = mk_intents m /\ forall x, mbal m' x = mbal m x).
Proof.
  intros Hc. unfold publish_intent. rewrite (M_bind_Ok _ _ m m m) by done. cbv zeta.
  rewrite bail_bind. destruct (f64_ltb _ _) eqn:E1; [split; [done|]; right; split_and!; [intros [(H & _) _]; congruence|done..]|].
  rewrite bail_bind. destruct (in_deposit i <? _) eqn:E2; zbool; [split; [done|]; right; unfold publishable; split_and!; [|done..]; lia|].
  rewrite bail_bind. destruct (bool_decide _ && _) eqn:E3.
  { apply andb_prop in E3 as [Hs%bool_decide_eq_true E3%Nat.leb_le]. split; [done|]. right. split_and!; [|done..].
    intros [(_ & _ & H & _) _]. destruct Hs as [l Hl]. rewrite Hl in E3. specialize (H l Hl). simpl in E3. lia. }
  rewrite bail_bind. destruct (_ <? to_i64 _) eqn:E4; zbool; [split; [done|]; right; unfold publishable; split_and!; [|done..]; lia|].
  rewrite market_balances_bind. destruct (debit_cases (in_client i) (in_deposit i) (mk_balances m) Hc) as (b' & r & Hd & Hc' & Hcase).
  rewrite Hd. destruct Hcase as [(Hp & -> & Hg)|(Hn & -> & Hg)].
  - cbn. split; [done|]. left. split_and!; try done. unfold publishable. split_and!; try done.
    intros l Hl. rewrite Hl in E3. rewrite bool_decide_true in E3 by done. simpl in E3. apply Nat.leb_gt in E3. done.
  - cbn. split; [done|]. right. split_and!; try done. by intros [_ ?].
Qed.

(** A change of finality of an intent: a final status credits the deposit, whatever the status was. *)
Lemma update_intent_finality_ok id f epoch i m :
  coherent (mk_balances m) -> im_intents (mk_intents m) !! id = Some i -> fits (mk_balances m) (in_client i) (in_deposit i) ->
  exists m', update_intent_finality now id f epoch m = (Ok tt, m') /\ coherent (mk_balances m') /\
    mk_intents m' = replace_intent id (with_intent_finality f epoch i) (mk_intents m) /\
    gains (mbal m) (mbal m') (in_client i) (if is_finalized f then in_deposit i else 0).
Proof.
  intros Hc Hi Hf. unfold update_intent_finality. rewrite (M_bind_Ok _ _ m (im_intents (mk_intents m)) m) by done.
  rewrite Hi, (M_bind_Ok _ _ m i m) by done. set (m1 := put_intents (replace_intent id (with_intent_finality f epoch i)) m). rewrite (M_bind_Ok _ _ m tt m1) by done.
  destruct (is_finalized f); simpl.
  - destruct (credit_cases (in_client i) (in_deposit i) (mk_balances m1) Hc) as (b' & r & Hd & Hc' & [(_ & -> & Hg)|(Hn & _)]); [|done].
    unfold on_balances, mmap_err, mzoom. rewrite Hd. by eexists.
  - eexists. split; [done|]. split_and!; try done. by apply gains_0.
Qed.

(** ** Compilation *)

(** What the compiler checks before it takes the money. *)
Definition compilable (c : JitcaConfig) (i : StorageDealIntent) (a : ProviderAcceptance) (epoch : Z) : Prop :=
  ac_ref_intent a = in_intent_id i /\ ac_offered_price_per_epoch a <= in_max_price_per_epoch i /\
  (jt_require_f1_finality c = true -> is_finalized (in_finality_status i) = true /\ is_finalized (ac_finality_status a) = true) /\
  (forall e, ac_finalized_at_epoch a = Some e -> u64_saturating_sub epoch e <= jt_max_compilation_window c) /\
  ac_offered_price_per_epoch a * in_duration_epochs i <= u64_max /\
  calculate_required_collateral c (ac_offered_price_per_epoch a * in_duration_epochs i) <= ac_collateral_commitment a.

Definition compile_checks (c : JitcaConfig) (i : StorageDealIntent) (a : ProviderAcceptance) (epoch : Z) : result MarketError AdicAmount :=
  let? _ := validate_compatibility i a in
  let? _ := validate_finality c i a in
  let? _ := validate_compilation_window c a epoch in
  let? total := calculate_total_payment i a in
  if ac_collateral_commitment a <? calculate_required_collateral c total then
    Err (InsufficientCollateral (calculate_required_collateral c total) (ac_collateral_commitment a))
  else Ok total.

(** A check is passed exactly when its condition holds, and is an error otherwise. *)
Definition checks {A} (r : result MarketError A) (x : A) (P : Prop) : Prop := P /\ r = Ok x \/ ~ P /\ exists e, r = Err e.

Lemma checks_bool (f : bool) e (P : Prop) : (f = false <-> P) -> checks (if f then Err e else Ok tt) tt P.
Proof. intros Hf. unfold checks. destruct f; [right; split; [intros HP; discriminate (proj2 Hf HP)|by eexists]|left; split; [by apply Hf|done]]. Qed.
Lemma checks_bind {A B} (r : result MarketError A) (k : A -> result MarketError B) x y P Q :
  checks r x P -> checks (k x) y Q -> checks (let? z := r in k z) y (P /\ Q).
Proof. unfold checks. intros [(HP & ->)|(HP & e & ->)]; simpl; [intros [(HQ & ->)|(HQ & e & ->)]; [by left|right; split; [tauto|by eexists]]|]. intros _. right. split; [tauto|by eexists]. Qed.
Lemma checks_iff {A} (r : result MarketError A) x P Q : (P <-> Q) -> checks r x P -> checks r x Q.
Proof. unfold checks. tauto. Qed.

Lemma compatibility_checks i a :
  checks (validate_compatibility i a) tt (ac_ref_intent a = in_intent_id i /\ ac_offered_price_per_epoch a <= in_max_price_per_epoch i).
Proof.
  unfold validate_compatibility. case_bool_decide as H1; simpl negb; cbv iota; [|by right; split; [tauto|by eexists]].
  apply checks_bool. rewrite Z.ltb_ge. tauto.
Qed.
Lemma finality_checks c i a :
  checks (validate_finality c i a) tt
    (jt_require_f1_finality c = true -> is_finalized (in_finality_status i) = true /\ is_finalized (ac_finality_status a) = true).
Proof.
  unfold validate_finality, intent_is_finalized, acceptance_is_finalized. destruct (jt_require_f1_finality c); [|by left].
  destruct (is_finalized (in_finality_status i)), (is_finalized (ac_finality_status a)); simpl;
    [by left|right; split; [|by eexists]..]; intros H; destruct (H eq_refl); discriminate.
Qed.
Lemma window_checks c a epoch :
  checks (validate_compilation_window c a epoch) tt
    (forall e, ac_finalized_at_epoch a = Some e -> u64_saturating_sub epoch e <= jt_max_compilation_window c).
Proof.
  unfold validate_compilation_window. destruct (ac_finalized_at_epoch a) as [e|]; [|by left].
  apply checks_bool. rewrite Z.ltb_ge. split; [intros H e' [= <-]; done|intros H; by apply H].
Qed.

Lemma compile_checks_spec c i a epoch :
  checks (compile_checks c i a epoch) (ac_offered_price_per_epoch a * in_duration_epochs i) (compilable c i a epoch).
Proof.
  unfold compile_checks. set (total := ac_offered_price_per_epoch a * in_duration_epochs i).
  eapply checks_iff; [|eapply checks_bind; [apply compatibility_checks|eapply checks_bind; [apply finality_checks|
    eapply checks_bind; [apply window_checks|eapply (checks_bind _ _ total _ (total <= u64_max))]]]].
  - unfold compilable. fold total. instantiate (1 := calculate_required_collateral c total <= ac_collateral_commitment a). tauto.
  - unfold calculate_total_payment. fold total. unfold checks. destruct (total <=? u64_max) eqn:E; zbool; [by left|right; split; [lia|by eexists]].
  - unfold checks. destruct (_ <? _) eqn:E; zbool; [right; split; [lia|by eexists]|by left].
Qed.

Lemma compile_eq i a epoch m :
  compile now i a epoch m =
  match compile_checks (jc_config (mk_jitca m)) i a epoch with
  | Err e => (Err e, m)
  | Panic => (Panic, m)
  | Ok total =>
      (on_balances (debit now (in_client i) total);;
       on_balances (debit now (ac_provider a) (ac_collateral_commitment a));;
       deal_id ← next_deal_id;
       deal ← transition PendingActivation (from_intent_and_acceptance now i a deal_id epoch (jt_activation_deadline (jc_config (mk_jitca m))));
       mwrite (put_jitca (fun j => mkJitca (jc_config j) (<[in_intent_id i := deal]> (jc_deals j)) (jc_next_deal_id j)));;
       mret deal) m
  end.
Proof.
  unfold compile, compile_checks. rewrite (M_bind_Ok _ _ m (jc_config (mk_jitca m)) m) by done. unfold mresult.
  destruct (validate_compatibility i a) as [[]|e|]; [|done..]. rewrite (M_bind_Ok _ _ m tt m) by done. simpl result_bind.
  destruct (validate_finality _ i a) as [[]|e|]; [|done..]. rewrite (M_bind_Ok _ _ m tt m) by done. simpl result_bind.
  destruct (validate_compilation_window _ a epoch) as [[]|e|]; [|done..]. rewrite (M_bind_Ok _ _ m tt m) by done. simpl result_bind.
  destruct (calculate_total_payment i a) as [total|e|]; [|done..]. rewrite (M_bind_Ok _ _ m total m) by done. simpl result_bind. cbv zeta.
  rewrite bail_bind. by destruct (_ <? _).
Qed.

(** C16: A deal is compiled exactly when the acceptance refers to the intent, at no more than its price,
    both are final (when that is asked for) and recent, the payment does not overflow, the
    collateral reaches its share of it, and both parties have the money.  The client's balance then
    loses the price of the whole duration and the provider's the collateral, and a new deal with
    these amounts waits for activation under the intent; otherwise no deal is made and no money
    taken, save that the client's payment is not given back when it is the provider who cannot pay. *)
Theorem compile_correct i a epoch m :
  coherent (mk_balances m) -> 0 <= ac_offered_price_per_epoch a * in_duration_epochs i ->
  let total := ac_offered_price_per_epoch a * in_duration_epochs i in
  let client_pays := fun x => mbal m x + (if bool_decide (x = in_client i) then - total else 0) in
  let provider_can := ac_collateral_commitment a = 0 \/ ac_collateral_commitment a <= client_pays (ac_provider a) in
  let '(r, m') := compile now i a epoch m in
  coherent (mk_balances m') /\
  (compilable (jc_config (mk_jitca m)) i a epoch /\ can_pay (mk_balances m) (in_client i) total /\ provider_can /\
     gains client_pays (mbal m') (ac_provider a) (- ac_collateral_commitment a) /\
     (exists d, r = Ok d /\ jc_deals (mk_jitca m') = <[in_intent_id i := d]> (jc_deals (mk_jitca m)) /\
       dl_id d = jc_next_deal_id (mk_jitca m) /\ jc_next_deal_id (mk_jitca m') = to_u64 (dl_id d + 1) /\
       dl_status d = PendingActivation /\ dl_client_payment_escrow d = total /\
       dl_provider_collateral d = ac_collateral_commitment a /\ dl_client d = in_client i /\ dl_provider d = ac_provider a /\
       dl_activation_deadline d = to_u64 (epoch + jt_activation_deadline (jc_config (mk_jitca m))))
   \/ is_err r = true /\ mk_jitca m' = mk_jitca m /\
      (~ (compilable (jc_config (mk_jitca m)) i a epoch /\ can_pay (mk_balances m) (in_client i) total) /\ (forall x, mbal m' x = mbal m x)
       \/ compilable (jc_config (mk_jitca m)) i a epoch /\ can_pay (mk_balances m) (in_client i) total /\ ~ provider_can /\
          gains (mbal m) (mbal m') (in_client i) (- total))).
Proof.
  intros Hc Htot total client_pays provider_can. rewrite compile_eq. set (c := jc_config (mk_jitca m)).
  destruct (compile_checks_spec c i a epoch) as [(Hok & ->)|(Hno & e & ->)]; cycle 1.
  { split; [done|]. right. split_and!; try done. left. split; [by intros [? _]|done]. }
  fold total. rewrite market_balances_bind.
  destruct (debit_cases (in_client i) total (mk_balances m) Hc) as (b1 & r1 & -> & Hc1 & [(Hp1 & -> & Hg1)|(Hn1 & -> & Hg1)]); cycle 1.
  { cbn. split; [done|]. right. split_and!; try done. left. split; [by intros [_ ?]|done]. }
  rewrite market_balances_bind. cbn [put_balances mk_balances].
  assert (forall x, bal b1 x = client_pays x) as Hcp by (intros x; apply (Hg1 x)).
  destruct (debit_cases (ac_provider a) (ac_collateral_commitment a) b1 Hc1) as (b2 & r2 & -> & Hc2 & [(Hp2 & -> & Hg2)|(Hn2 & -> & Hg2)]).
  - set (d := with_deal_status PendingActivation
      (from_intent_and_acceptance now i a (jc_next_deal_id (mk_jitca m)) epoch (jt_activation_deadline c))).
    match goal with |- let '(_, _) := ?x in _ => assert (x = (Ok d, put_jitca (fun j => mkJitca (jc_config j) (<[in_intent_id i := d]> (jc_deals j))
      (to_u64 (jc_next_deal_id j + 1))) (put_balances b2 (put_balances b1 m)))) as -> by reflexivity end.
    split; [done|]. left. unfold can_pay in Hp2. rewrite Hcp in Hp2. split_and!; try done.
    + intros x. rewrite <-Hcp. apply Hg2.
    + exists d. split; [done|]. split_and!; try done. destruct Hok as (_ & _ & _ & _ & Hmax & _). cbn.
      fold total in Hmax |- *. unfold calculate_total_payment in *. apply to_u64_id. split; [|done].
      done.
  - split; [done|]. right. split; [done|]. split; [done|]. right. unfold can_pay in Hn2. rewrite Hcp in Hn2. split_and!; try done.
    intros x. cbn. unfold mbal at 1. cbn. rewrite Hg2. apply Hg1.
Qed.
(** ** Deal numbers *)

(** Every deal has a number of its own, below the next. *)
Definition jitca_ok (j : JitcaCompiler) : Prop :=
  (forall k d, jc_deals j !! k = Some d -> dl_id d < jc_next_deal_id j) /\
  forall k k' d d', jc_deals j !! k = Some d -> jc_deals j !! k' = Some d' -> dl_id d = dl_id d' -> k = k'.

Lemma jitca_new_ok config : jitca_ok (jitca_new config).
Proof. split; intros k; intros; simpl in *; by rewrite lookup_empty in *. Qed.

Lemma jitca_insert_ok j k d n :
  jitca_ok j -> jc_next_deal_id j <= n ->
  (dl_id d < n /\ forall k' d', k' <> k -> jc_deals j !! k' = Some d' -> dl_id d' <> dl_id d) ->
  jitca_ok (mkJitca (jc_config j) (<[k := d]> (jc_deals j)) n).
Proof.
  intros [H1 H2] Hn [Hd Hu]. split; simpl.
  - intros k' d' [[<- <-]|[_ H]]%lookup_insert_Some; [done|]. specialize (H1 k' d' H). lia.
  - intros k1 k2 d1 d2 [[<- <-]|[N1 L1]]%lookup_insert_Some [[<- <-]|[N2 L2]]%lookup_insert_Some E; [done| | |by apply (H2 k1 k2 d1 d2)].
    + by destruct (Hu k2 d2 (not_eq_sym N2) L2).
    + by destruct (Hu k1 d1 (not_eq_sym N1) L1).
Qed.

Section iter.
Context (deals_iter : gmap Hash StorageDeal -> list (Hash * StorageDeal)).
Context (iter_perm : forall g, deals_iter g ≡ₚ map_to_list g).

Lemma find_deal j id :
  match List.find (fun kd => dl_id kd.2 =? id) (deals_iter (jc_deals j)) with
  | Some (k, d) => jc_deals j !! k = Some d /\ dl_id d = id
  | None => forall k d, jc_deals j !! k = Some d -> dl_id d <> id
  end.
Proof.
  destruct (List.find _ _) as [[k d]|] eqn:Ef.
  - apply find_some in Ef as [Hin Hid]. simpl in Hid. apply Z.eqb_eq in Hid. split; [|done].
    apply elem_of_map_to_list. rewrite <-iter_perm. by apply list_elem_of_In.
  - intros k d Hk Hid. assert (In (k, d) (deals_iter (jc_deals j))) as Hin
      by (apply list_elem_of_In; rewrite iter_perm; by apply elem_of_map_to_list).
    apply (find_none _ _ Ef) in Hin. cbn in Hin. by rewrite Hid, Z.eqb_refl in Hin.
Qed.

(** Activation of a deal by its number, on every branch. *)
Lemma jitca_activate_ok id epoch m :
  jitca_ok (mk_jitca m) ->
  let '(r, m') := jitca_activate_deal deals_iter id epoch m in
  (exists k d, jc_deals (mk_jitca m) !! k = Some d /\ dl_id d = id /\ dl_status d = PendingActivation /\
     epoch <= dl_activation_deadline d /\ r = Ok tt /\
     m' = put_jitca (fun j => mkJitca (jc_config j) (<[k := with_start_epoch epoch (with_deal_status Active d)]> (jc_deals j)) (jc_next_deal_id j)) m) \/
  (forall k d, jc_deals (mk_jitca m) !! k = Some d -> dl_id d = id ->
     dl_status d <> PendingActivation \/ dl_activation_deadline d < epoch) /\ is_err r = true /\ m' = m.
Proof.
  intros [_ Hu]. unfold jitca_activate_deal. rewrite (M_bind_Ok _ _ m (jc_deals (mk_jitca m)) m) by done.
  pose proof (find_deal (mk_jitca m) id) as Hf. destruct (List.find _ _) as [[k d]|]; cycle 1.
  { right. split_and!; [|done..]. intros k d Hk Hid. by destruct (Hf k d Hk). }
  destruct Hf as [Hk Hid]. rewrite (M_bind_Ok _ _ m (k, d) m) by done. cbn [fst snd]. rewrite !bail_bind.
  assert (forall k' d', jc_deals (mk_jitca m) !! k' = Some d' -> dl_id d' = id -> d' = d) as Hone.
  { intros k' d' Hk' Hid'. rewrite (Hu k' k d' d Hk' Hk) in Hk' by congruence. congruence. }
  case_bool_decide as Hs; simpl negb; cbv iota; [|right; split_and!; [|done..]; intros k' d' H1 H2; left; by rewrite (Hone k' d')].
  destruct (dl_activation_deadline d <? epoch) eqn:E; zbool; [right; split_and!; [|done..]; intros k' d' H1 H2; right; by rewrite (Hone k' d')|].
  unfold transition, transition_to. rewrite Hs. left. exists k, d. split_and!; [done..|lia|done|done].
Qed.
End iter.
End facts.

(** ** Examples *)

Definition demo_intent_config : IntentConfig := mkIntentConfig 0 f64_zero 86400 10.
Definition demo_market : Market MemoryStorage :=
  mkMarket alice_manager tracker_default (intents_new demo_intent_config) (jitca_new jitca_config_default)
    (proofs_new proof_config_default (windows_new ChallengeConfig_default) (vrf_new VRFConfig_default)) ∅ 0.
Definition final_f1 : FinalityStatus := F1Complete 3 5 (f64_of_Z 10).
Definition demo_intent : StorageDealIntent :=
  mkIntent (mkProtocol [] [] [] 30 0) [1] alice [9] 4096 5 10 3 1000 [AdicNative] "" final_f1 (Some 0).
Definition demo_acceptance (id : Z) : ProviderAcceptance := mkAcceptance (mkProtocol [] [] [] 0 0) [id] [1] bob 8 0 f64_zero final_f1 (Some 0).
Definition free_collateral : Market MemoryStorage := put_jitca (fun _ => jitca_new (mkJitcaConfig f64_zero 100 50 true)) demo_market.

Lemma publish_intent_correct_witness :
  let '(r, m') := publish_intent 5 demo_intent demo_market in r = Ok [1] /\ mbal m' alice = 70.
Proof.
  assert (publishable demo_market demo_intent) as Hp by (split_and!; [reflexivity|vm_compute; discriminate| |vm_compute; discriminate]; intros l H; vm_compute in H; discriminate).
  assert (can_pay (mk_balances demo_market) alice 30) as Hc by (right; vm_compute; discriminate).
  pose proof (publish_intent_correct 5 demo_intent demo_market alice_coherent) as H. destruct (publish_intent 5 demo_intent demo_market) as [r m'].
  destruct H as [_ [(_ & _ & -> & _ & H)|([] & _)]]; [|by split]. split; [reflexivity|]. exact (H alice).
Defined.

Lemma compile_correct_witness :
  let '(r, m') := compile 5 demo_intent (demo_acceptance 2) 3 free_collateral in
  exists d, r = Ok d /\ dl_client_payment_escrow d = 40 /\ mbal m' alice = 60.
Proof.
  pose proof (compile_correct 5 demo_intent (demo_acceptance 2) 3 free_collateral alice_coherent ltac:(vm_compute; discriminate)) as H. cbv zeta in H.
  assert (compilable (jc_config (mk_jitca free_collateral)) demo_intent (demo_acceptance 2) 3) as Hc.
  { split_and!; try reflexivity; try (vm_compute; discriminate); [by intros _|]. intros e [= <-]. vm_compute. discriminate. }
  assert (can_pay (mk_balances free_collateral) alice 40) as Hp by (right; vm_compute; discriminate).
  destruct (compile 5 demo_intent (demo_acceptance 2) 3 free_collateral) as [r m'].
  destruct H as [_ [(_ & _ & _ & Hg & d & Hr & _ & _ & _ & _ & He & _)|(_ & _ & [([] & _)|(_ & _ & [] & _)])]]; [|by split|by left].
  exists d. split; [exact Hr|]. split; [exact He|]. exact (Hg alice).
Defined.

(** ** Flaws the model shows *)

Definition run_market {A} (c : M (Market MemoryStorage) MarketError A) (m : Market MemoryStorage) : Market MemoryStorage := (c m).2.

(** Each final status credits the deposit again. *)
Theorem deposit_refunded_twice :
  let m := run_market (update_intent_finality 5 [1] final_f1 0) (run_market (publish_intent 5 demo_intent) demo_market) in
  mbal m alice = 100 /\ mbal (run_market (update_intent_finality 5 [1] (F2Complete true) 1) m) alice = 130.
Proof. split; vm_compute; reflexivity. Qed.

(** The deposit of an intent that expires before it is final is lost. *)
Theorem expired_deposit_lost :
  let m := run_market (cleanup_expired_intents 2000 map_to_list) (run_market (publish_intent 5 demo_intent) demo_market) in
  mbal m alice = 70 /\ update_intent_finality 2001 [1] final_f1 0 m = (Err IntentNotFound, m).
Proof. split; vm_compute; reflexivity. Qed.

(** A second acceptance of an intent replaces its deal, which can never be activated: the payment is locked twice. *)
Theorem recompiled_intent_loses_deal :
  let m := run_market (compile 5 demo_intent (demo_acceptance 3) 3) (run_market (compile 5 demo_intent (demo_acceptance 2) 3) free_collateral) in
  mbal m alice = 20 /\ jitca_activate_deal map_to_list 1 3 m = (Err (DealNotFound 1), m).
Proof. split; vm_compute; reflexivity. Qed.
