(* ===== verification/MarketProof.v ===== *)
(** * The proof cycle of the storage market

    [adic-storage-market/src/proof.rs]: challenges to an active deal, Merkle proofs answering them,
    payments for proofs, slashing for missed ones, and the end of a deal.

    A deal is an argument, as the coordinator keeps the deals; the operations that change it return
    it.  [deterministic] says whether the build allows the fallback from VRF randomness to a plain
    hash for recent epochs (test and debug builds, or the feature
    [allow-deterministic-challenges]); [windows_iter] is the order in which the windows of
    challenge are listed. *)

From S2P Require Import Prelude F64 Message Amount EconStorage Balance Reputation Admissibility Vrf Quorum Dag Challenge Finality.
From S2P Require Import ParamStore Voting Application MarketTypes Market.

Section proofs.
Context {St : Type} `{!EconomicsStorage St}.
Context (now : Z) (digest : Bytes -> string) (blake3 : Bytes -> Bytes).
Context (deterministic : bool).
Context (windows_iter : gmap MessageId ChallengeWindow -> list (MessageId * ChallengeWindow)).
Context (key_iter : gmap MessageId Application.FinalityStatus -> list (MessageId * Application.FinalityStatus)).
Abbreviation MM := (M (Market St) MarketError).
Implicit Types m : Market St.

(** ** Parts of the state *)

Definition put_finality (a : FinalityAdapter) (p : ProofCycleManager) : ProofCycleManager :=
  mkProofs (pm_config p) (Some a) (pm_challenges p) (pm_vrf p) (pm_proofs p) (pm_pending p) (pm_released p) (pm_message_ids p) (pm_fraud_proofs p).
Definition put_challenges (c : ChallengeWindowManager) (p : ProofCycleManager) : ProofCycleManager :=
  mkProofs (pm_config p) (pm_finality p) c (pm_vrf p) (pm_proofs p) (pm_pending p) (pm_released p) (pm_message_ids p) (pm_fraud_proofs p).
Definition put_pending (f : gmap Z (list Z) -> gmap Z (list Z)) (p : ProofCycleManager) : ProofCycleManager :=
  mkProofs (pm_config p) (pm_finality p) (pm_challenges p) (pm_vrf p) (pm_proofs p) (f (pm_pending p)) (pm_released p) (pm_message_ids p) (pm_fraud_proofs p).
Definition put_released (f : gmap Z AdicAmount -> gmap Z AdicAmount) (p : ProofCycleManager) : ProofCycleManager :=
  mkProofs (pm_config p) (pm_finality p) (pm_challenges p) (pm_vrf p) (pm_proofs p) (pm_pending p) (f (pm_released p)) (pm_message_ids p) (pm_fraud_proofs p).
Definition put_proof (id : Z) (sp : StorageProof) (p : ProofCycleManager) : ProofCycleManager :=
  mkProofs (pm_config p) (pm_finality p) (pm_challenges p) (pm_vrf p) (<[id := default [] (pm_proofs p !! id) ++ [sp]]> (pm_proofs p))
    (pm_pending p) (pm_released p) (pm_message_ids p) (pm_fraud_proofs p).
Definition put_message_id (id : Z) (mid : MessageId) (p : ProofCycleManager) : ProofCycleManager :=
  mkProofs (pm_config p) (pm_finality p) (pm_challenges p) (pm_vrf p) (pm_proofs p) (pm_pending p) (pm_released p)
    (<[id := mid]> (pm_message_ids p)) (pm_fraud_proofs p).
Definition put_fraud_proof (f : FraudProof) (p : ProofCycleManager) : ProofCycleManager :=
  mkProofs (pm_config p) (pm_finality p) (pm_challenges p) (pm_vrf p) (pm_proofs p) (pm_pending p) (pm_released p) (pm_message_ids p)
    (<[fp_id f := f]> (pm_fraud_proofs p)).

Definition on_windows {A} (c : M ChallengeWindowManager ChallengeError A) : MM A :=
  mmap_err ChallengeFault (mzoom (fun m => pm_challenges (mk_proofs m)) (fun w => put_proofs (put_challenges w)) c).

(** ** Finality of a proof *)

Definition register_proof_message (deal_id : Z) (mid : MessageId) : MM unit := mwrite (put_proofs (put_message_id deal_id mid)).

(** [None] while the wait has not ended; [read] is the time at which the elapsed time is taken. *)
Definition proof_wait (deal_id start timeout read : Z) (polls : list (Poll (St := St))) : MM (option Z) :=
  p ← mread mk_proofs;
  match pm_finality p with
  | None => mret (Some (from_secs 1))
  | Some adapter =>
      mid ← mopt (pm_message_ids p !! deal_id) MarketMessageNotFound;
      let (r, adapter') := wait_for_finality key_iter start timeout mid F1Only polls adapter in
      mwrite (put_proofs (put_finality adapter'));;
      status ← mmap_err MarketTimeout (mresult r);
      mret ((fun st => default 0 (elapsed_since read <$> st_f1_time st)) <$> status)
  end.

(** ** Challenges *)

Definition CHUNK_SIZE : Z := 4096.
Definition num_chunks (d : StorageDeal) : Z := to_u64 (dl_data_size d + CHUNK_SIZE - 1) / CHUNK_SIZE.

(** The indices read from the seed, eight bytes each; [None] is the panic of a remainder by 0. *)
Definition challenge_index (seed : Bytes) (chunks : Z) (i : nat) : option (option Z) :=
  let offset := Z.to_nat (to_u32 (Z.of_nat i * 8)) in
  if (offset + 8 <=? length seed)%nat then
    if chunks =? 0 then None else Some (Some (from_le_bytes (take 8 (drop offset seed)) mod chunks))
  else Some None.
Fixpoint challenge_indices (seed : Bytes) (chunks : Z) (numbers : list nat) : option (list Z) :=
  match numbers with
  | [] => Some []
  | i :: numbers =>
      index ← challenge_index seed chunks i;
      rest ← challenge_indices seed chunks numbers;
      Some (match index with Some x => x :: rest | None => rest end)
  end.

Definition deterministic_seed (d : StorageDeal) (epoch : Z) : Bytes := blake3 (to_le_bytes 8 (dl_id d) ++ to_le_bytes 8 epoch ++ dl_data_cid d).
Definition challenge_seed (p : ProofCycleManager) (d : StorageDeal) (epoch current_epoch : Z) : result MarketError Bytes :=
  match get_canonical_randomness (pm_vrf p) epoch with
  | Ok _ =>
      match compute_challenge_for_epoch blake3 (pm_vrf p) epoch "storage-challenge" [to_le_bytes 8 (dl_id d); dl_data_cid d] with
      | Ok seed => Ok seed
      | Err _ => Err (VrfRequired epoch)
      | Panic => Panic
      end
  | Err _ =>
      if (u64_saturating_sub current_epoch epoch <? pf_vrf_grace_period_epochs (pm_config p)) && negb deterministic then Err (VrfRequired epoch)
      else Ok (deterministic_seed d epoch)
  | Panic => Panic
  end.

Definition generate_challenge (d : StorageDeal) (epoch current_epoch : Z) : MM (list Z) :=
  mbail (negb (deal_is_active d)) (InvalidStateTransition (dl_status d));;
  p ← mread mk_proofs;
  seed ← mresult (challenge_seed p d epoch current_epoch);
  indices ← mresult (match challenge_indices seed (num_chunks d) (seq 0 (pf_chunks_per_challenge (pm_config p))) with
                     | Some l => Ok l
                     | None => Panic
                     end);
  mwrite (put_proofs (put_pending (insert (dl_id d) indices)));;
  mret indices.

(** ** Proofs *)

Definition validate_proof_timing (c : ProofCycleConfig) (sp : StorageProof) (current_epoch : Z) : result MarketError unit :=
  if pf_proof_grace_period c <? u64_saturating_sub current_epoch (sp_proof_epoch sp) then Err (ProofRefused TooLate) else Ok tt.

(** The loop over the challenges and the proofs of their chunks. *)
Fixpoint verify_chunks (root : Bytes) (challenges : list Z) (proofs : list MerkleProof) : result MarketError unit :=
  match challenges, proofs with
  | c :: challenges, mp :: proofs =>
      if negb (mp_chunk_index mp =? c) then Err (ProofRefused IndexMismatch)
      else if negb (merkle_verify blake3 mp root) then Err (ProofRefused BadMerkleProof)
      else verify_chunks root challenges proofs
  | _, _ => Ok tt
  end.
Definition verify_merkle_proofs (sp : StorageProof) (challenges : list Z) (d : StorageDeal) : result MarketError unit :=
  if negb (length (sp_merkle_proofs sp) =? length challenges)%nat then Err (ProofRefused CountMismatch)
  else match dl_proof_merkle_root d with
       | None => Err (ProofRefused NoMerkleRoot)
       | Some root => verify_chunks root challenges (sp_merkle_proofs sp)
       end.
Definition verify_challenge_authenticity (sp : StorageProof) (expected : list Z) : result MarketError unit :=
  if negb (length (sp_challenge_indices sp) =? length expected)%nat then Err (ProofRefused CountMismatch)
  else if negb (bool_decide (sp_challenge_indices sp = expected)) then Err (ProofRefused IndexMismatch)
  else Ok tt.

Definition compute_proof_id (sp : StorageProof) (deal_id : Z) : MessageId :=
  blake3 (to_le_bytes 8 deal_id ++ to_le_bytes 8 (sp_proof_epoch sp) ++ sp_provider sp ++ to_le_bytes 8 (to_u64 (po_timestamp (sp_protocol sp))) ++
    concat (to_le_bytes 8 <$> sp_challenge_indices sp)).

Definition release_payment (d : StorageDeal) : MM unit :=
  p ← mread mk_proofs;
  let payment := dl_client_payment_escrow d in
  let release := share_of payment (pf_payment_per_proof (pm_config p)) in
  let total_released := default ZERO (pm_released p !! dl_id d) in
  mwrite (put_proofs (put_released (insert (dl_id d) total_released)));;
  let new_total := to_u64 (total_released + release) in
  mbail (payment <? new_total) OverRelease;;
  on_balances (credit now (dl_provider d) release);;
  mwrite (put_proofs (put_released (insert (dl_id d) new_total))).

Definition submit_proof (sp : StorageProof) (d : StorageDeal) (current_epoch : Z) : MM unit :=
  p ← mread mk_proofs;
  mresult (validate_proof_timing (pm_config p) sp current_epoch);;
  challenges ← mopt (pm_pending p !! dl_id d) (ProofRefused NoPendingChallenges);
  mresult (verify_challenge_authenticity sp challenges);;
  mresult (verify_merkle_proofs sp challenges d);;
  on_windows (open_window (compute_proof_id sp (dl_id d)) current_epoch);;
  release_payment d;;
  mwrite (put_proofs (put_proof (dl_id d) sp));;
  mwrite (put_proofs (put_pending (delete (dl_id d)))).

(** ** Missed proofs *)

Definition slash_provider (d : StorageDeal) : MM unit :=
  p ← mread mk_proofs;
  on_balances (transfer_with_reason now digest (dl_provider d) treasury (share_of (dl_provider_collateral d) (pf_slash_percentage (pm_config p))) Slashing);;
  mret tt.

(** The deal as it leaves the check. *)
Definition check_missed_proofs (d : StorageDeal) (current_epoch : Z) : MM StorageDeal :=
  p ← mread mk_proofs;
  match dl_start_epoch d with
  | None => mret d
  | Some start_epoch =>
      if dl_duration_epochs d =? 0 then mpanic
      else
        let expected_proofs := u64_saturating_sub current_epoch start_epoch / dl_duration_epochs d in
        let proofs := default [] (pm_proofs p !! dl_id d) in
        if Z.of_nat (length proofs) <? expected_proofs then
          let last_proof_epoch := default start_epoch (sp_proof_epoch <$> last proofs) in
          let epochs_overdue := u64_saturating_sub current_epoch (to_u64 (last_proof_epoch + dl_duration_epochs d)) in
          if pf_proof_grace_period (pm_config p) <? epochs_overdue then slash_provider d;; transition Failed d else mret d
        else mret d
  end.

(** ** Fraud proofs *)

(** Errors of a window are logged and skipped. *)
Fixpoint finalize_windows (ws : list ChallengeWindow) (current_epoch : Z) : MM unit :=
  match ws with
  | [] => mret tt
  | w :: ws => mor (on_windows (finalize_window (ch_subject_id (cw_metadata w)) current_epoch)) (fun _ => mret tt);; finalize_windows ws current_epoch
  end.
Definition process_expired_windows (current_epoch : Z) : MM nat :=
  expired ← on_windows (get_expired_windows windows_iter current_epoch);
  finalize_windows expired current_epoch;;
  mret (length expired).

Definition get_proof_challenge_window m (sp : StorageProof) (deal_id : Z) : option ChallengeWindow :=
  wm_windows (pm_challenges (mk_proofs m)) !! compute_proof_id sp deal_id.

Definition submit_fraud_proof (proof_id : MessageId) (f : FraudProof) : MM unit :=
  p ← mread mk_proofs;
  window ← mopt (wm_windows (pm_challenges p) !! proof_id) FraudWindow;
  mbail (negb (is_active window (fp_submitted_at_epoch f))) FraudWindow;;
  on_windows (submit_challenge proof_id (fp_challenger f) (fp_submitted_at_epoch f));;
  mwrite (put_proofs (put_fraud_proof f)).
Definition get_fraud_proof m (id : MessageId) : option FraudProof := pm_fraud_proofs (mk_proofs m) !! id.

Definition adjudicate_fraud_proof (config : AdjudicationConfig) (id : MessageId) (q : QuorumResult) (votes : list ArbitratorVote) (epoch : Z)
    : MM AdjudicationResult :=
  m ← mread (fun m => m);
  f ← mopt (get_fraud_proof m id) FraudProofNotFound;
  mmap_err ChallengeFault (mresult (adjudicate config f q votes epoch)).

(** ** The end of a deal *)

Definition proof_complete_deal (d : StorageDeal) (current_epoch : Z) : MM StorageDeal :=
  p ← mread mk_proofs;
  mbail (match dl_start_epoch d with Some s => u64_saturating_sub current_epoch s <? dl_duration_epochs d | None => false end) DurationNotElapsed;;
  let remaining := u64_saturating_sub (dl_client_payment_escrow d) (default ZERO (pm_released p !! dl_id d)) in
  mwhen (0 <? remaining) (on_balances (credit now (dl_provider d) remaining));;
  on_balances (credit now (dl_provider d) (dl_provider_collateral d));;
  transition Completed d.

Record ProofStats := mkProofStats { ps_total_proofs : nat; ps_total_payment_released : AdicAmount }.
Definition get_proof_stats m (deal_id : Z) : ProofStats :=
  mkProofStats (length (default [] (pm_proofs (mk_proofs m) !! deal_id))) (default ZERO (pm_released (mk_proofs m) !! deal_id)).
End proofs.

(** ** Facts *)

Section facts.
Context {St : Type} `{!EconomicsStorage St} `{!EconomicsStorageLaws St}.
Context (now : Z) (blake3 : Bytes -> Bytes).
Implicit Types m : Market St.

(** *** Challenges *)

Lemma challenge_indices_ok seed chunks numbers l :
  0 <= chunks -> challenge_indices seed chunks numbers = Some l -> Forall (fun x => 0 <= x < chunks) l /\ (length l <= length numbers)%nat.
Proof.
  intros Hc. revert l. induction numbers as [|i numbers IH]; intros l; [by intros [= <-]|]. cbn [challenge_indices].
  intros (index & Hi & (rest & Hr & [= <-])%bind_Some)%bind_Some. destruct (IH rest Hr) as [Hf Hlen].
  unfold challenge_index in Hi. destruct (_ <=? _)%nat; [|injection Hi as <-; simpl; split; [done|lia]].
  destruct (chunks =? 0) eqn:E; [done|]. injection Hi as <-. zbool. simpl. split; [constructor; [apply Z.mod_pos_bound; lia|done]|lia].
Qed.

Lemma challenge_index_panics seed chunks i : challenge_index seed chunks i = None -> chunks = 0.
Proof. unfold challenge_index. destruct (_ <=? _)%nat; [|done]. by destruct (chunks =? 0) eqn:E; zbool. Qed.
Lemma challenge_indices_panics seed chunks numbers : challenge_indices seed chunks numbers = None -> chunks = 0.
Proof.
  induction numbers as [|i numbers IH]; [done|]. cbn [challenge_indices].
  destruct (challenge_index seed chunks i) as [index|] eqn:Ei; [|intros _; by eapply challenge_index_panics].
  simpl. destruct (challenge_indices seed chunks numbers); [done|]. by intros _; apply IH.
Qed.

Lemma num_chunks_range d : 0 <= num_chunks d /\ (0 < dl_data_size d <= u64_max - 4095 ->
  0 < num_chunks d /\ CHUNK_SIZE * (num_chunks d - 1) < dl_data_size d <= CHUNK_SIZE * num_chunks d).
Proof.
  unfold num_chunks, CHUNK_SIZE, to_u64, u64_max. split; [apply Z.div_pos; [apply Z.mod_pos_bound|]; lia|].
  intros H. rewrite Z.mod_small by lia. pose proof (Z.div_mod (dl_data_size d + 4096 - 1) 4096 ltac:(lia)).
  pose proof (Z.mod_pos_bound (dl_data_size d + 4096 - 1) 4096 ltac:(lia)). lia.
Qed.

Lemma generate_challenge_eq deterministic d epoch current m :
  generate_challenge (St := St) blake3 deterministic d epoch current m =
  if negb (deal_is_active d) then (Err (InvalidStateTransition (dl_status d)), m)
  else match challenge_seed blake3 deterministic (mk_proofs m) d epoch current with
       | Err e => (Err e, m)
       | Panic => (Panic, m)
       | Ok seed =>
           match challenge_indices seed (num_chunks d) (seq 0 (pf_chunks_per_challenge (pm_config (mk_proofs m)))) with
           | Some l => (Ok l, put_proofs (put_pending (insert (dl_id d) l)) m)
           | None => (Panic, m)
           end
       end.
Proof.
  unfold generate_challenge. rewrite bail_bind. destruct (negb _); [done|]. rewrite (M_bind_Ok _ _ m (mk_proofs m) m) by done.
  unfold mbind, M_bind, mresult. destruct (challenge_seed _ _ _ _ _ _); [|done..]. by destruct (challenge_indices _ _ _).
Qed.

(** The challenges to an active deal are numbers of chunks its data has, no more than are asked
    for, and are remembered as pending; without VRF randomness none are given for a recent epoch,
    unless the build allows it, and the only panic is that of data without chunks. *)
Theorem generate_challenge_correct deterministic d epoch current m :
  let '(r, m') := generate_challenge (St := St) blake3 deterministic d epoch current m in
  match r with
  | Ok l => dl_status d = Active /\ Forall (fun x => 0 <= x < num_chunks d) l /\
      (length l <= pf_chunks_per_challenge (pm_config (mk_proofs m)))%nat /\
      m' = put_proofs (put_pending (insert (dl_id d) l)) m /\
      (deterministic = false -> is_err (get_canonical_randomness (pm_vrf (mk_proofs m)) epoch) = true ->
         pf_vrf_grace_period_epochs (pm_config (mk_proofs m)) <= u64_saturating_sub current epoch)
  | Err _ => m' = m
  | Panic => m' = m /\ (get_canonical_randomness (pm_vrf (mk_proofs m)) epoch = Panic \/ num_chunks d = 0)
  end.
Proof.
  rewrite generate_challenge_eq. unfold deal_is_active. case_bool_decide as Ha; [|done]. simpl negb. cbv iota.
  set (p := mk_proofs m). destruct (challenge_seed blake3 deterministic p d epoch current) as [seed|e|] eqn:Es; [|done|].
  - destruct (challenge_indices seed (num_chunks d) _) as [l|] eqn:El.
    + destruct (challenge_indices_ok _ _ _ _ (proj1 (num_chunks_range d)) El) as [Hf Hl]. rewrite length_seq in Hl.
      split_and!; try done. intros -> Hr. unfold challenge_seed in Es. destruct (get_canonical_randomness (pm_vrf p) epoch) as [|e|]; [done| |done].
      rewrite andb_true_r in Es. destruct (_ <? pf_vrf_grace_period_epochs _) eqn:E; [done|]. by zbool.
    + split; [done|]. right. by eapply challenge_indices_panics.
  - split; [done|]. left. unfold challenge_seed, compute_challenge_for_epoch in Es.
    destruct (get_canonical_randomness (pm_vrf p) epoch); [done| |done]. by destruct (_ && _).
Qed.

(** *** Accepted proofs *)

Definition proof_accepted (p : ProofCycleManager) (sp : StorageProof) (d : StorageDeal) (epoch : Z) : Prop :=
  u64_saturating_sub epoch (sp_proof_epoch sp) <= pf_proof_grace_period (pm_config p) /\
  pm_pending p !! dl_id d = Some (sp_challenge_indices sp) /\
  exists root, dl_proof_merkle_root d = Some root /\
    Forall2 (fun c mp => mp_chunk_index mp = c /\ merkle_verify blake3 mp root = true) (sp_challenge_indices sp) (sp_merkle_proofs sp).

Lemma verify_chunks_checks root cs mps : length mps = length cs ->
  checks (verify_chunks blake3 root cs mps) tt (Forall2 (fun c mp => mp_chunk_index mp = c /\ merkle_verify blake3 mp root = true) cs mps).
Proof.
  revert mps. induction cs as [|c cs IH]; intros [|mp mps] Hl; try done; [by left|]. simpl.
  destruct (mp_chunk_index mp =? c) eqn:E1; zbool; simpl; [|right; split; [rewrite Forall2_cons; intros [[? _] _]; congruence|by eexists]].
  destruct (merkle_verify blake3 mp root) eqn:E2; simpl; [|right; split; [rewrite Forall2_cons; intros [[_ ?] _]; congruence|by eexists]].
  eapply checks_iff; [|apply IH; simpl in Hl; lia]. rewrite Forall2_cons. tauto.
Qed.

Definition proof_checks (p : ProofCycleManager) (sp : StorageProof) (d : StorageDeal) (epoch : Z) : result MarketError unit :=
  let? _ := validate_proof_timing (pm_config p) sp epoch in
  let? challenges := result_of_option (pm_pending p !! dl_id d) (ProofRefused NoPendingChallenges) in
  let? _ := verify_challenge_authenticity sp challenges in
  verify_merkle_proofs blake3 sp challenges d.

Lemma proof_checks_spec p sp d epoch : checks (proof_checks p sp d epoch) tt (proof_accepted p sp d epoch).
Proof.
  unfold proof_checks, proof_accepted. eapply (checks_bind _ _ tt).
  { unfold validate_proof_timing. apply checks_bool. apply Z.ltb_ge. }
  destruct (pm_pending p !! dl_id d) as [cs|]; [|right; split; [naive_solver|by eexists]]. simpl result_bind.
  eapply checks_iff; [|eapply (checks_bind _ _ tt tt (sp_challenge_indices sp = cs))].
  2: { unfold verify_challenge_authenticity. destruct (_ =? _)%nat eqn:El; simpl negb; cbv iota.
       - unfold checks. case_bool_decide; simpl; [by left|right; split; [done|by eexists]].
       - right. split; [intros H; by rewrite H, Nat.eqb_refl in El|by eexists]. }
  2: { unfold verify_merkle_proofs. instantiate (1 := exists root, dl_proof_merkle_root d = Some root /\
         Forall2 (fun c mp => mp_chunk_index mp = c /\ merkle_verify blake3 mp root = true) cs (sp_merkle_proofs sp)).
       destruct (_ =? _)%nat eqn:El; simpl negb; cbv iota; zbool.
       - destruct (dl_proof_merkle_root d) as [root|]; [|right; split; [naive_solver|by eexists]].
         eapply checks_iff; [|by apply verify_chunks_checks]. naive_solver.
       - right. split; [|by eexists]. intros (root & _ & H%Forall2_length). by rewrite H in El. }
  naive_solver.
Qed.

(** *** Payments *)

Definition released m (id : Z) : AdicAmount := default ZERO (pm_released (mk_proofs m) !! id).
Definition release_of m (d : StorageDeal) : AdicAmount := share_of (dl_client_payment_escrow d) (pf_payment_per_proof (pm_config (mk_proofs m))).

Lemma submit_proof_eq sp d epoch m :
  submit_proof now blake3 sp d epoch m =
  match proof_checks (mk_proofs m) sp d epoch with
  | Ok _ =>
      (release_payment now d;;
       mwrite (put_proofs (put_proof (dl_id d) sp));;
       mwrite (put_proofs (put_pending (delete (dl_id d)))))
      (put_proofs (put_challenges (open_window (compute_proof_id blake3 sp (dl_id d)) epoch (pm_challenges (mk_proofs m))).2) m)
  | Err e => (Err e, m)
  | Panic => (Panic, m)
  end.
Proof.
  unfold submit_proof, proof_checks. rewrite (M_bind_Ok _ _ m (mk_proofs m) m) by done. unfold mresult.
  destruct (validate_proof_timing _ sp epoch) as [[]|e|]; [|done..]. rewrite (M_bind_Ok _ _ m tt m) by done. simpl result_bind.
  destruct (pm_pending (mk_proofs m) !! dl_id d) as [cs|]; [|done]. rewrite (M_bind_Ok _ _ m cs m) by done. simpl result_bind.
  destruct (verify_challenge_authenticity sp cs) as [[]|e|]; [|done..]. rewrite (M_bind_Ok _ _ m tt m) by done. simpl result_bind.
  destruct (verify_merkle_proofs blake3 sp cs d) as [[]|e|]; [|done..]. by rewrite (M_bind_Ok _ _ m tt m) by done.
Qed.

Lemma release_payment_ok d m :
  coherent (mk_balances m) ->
  let new_total := to_u64 (released m (dl_id d) + release_of m d) in
  exists r m', release_payment now d m = (r, m') /\ coherent (mk_balances m') /\ pm_config (mk_proofs m') = pm_config (mk_proofs m) /\
    pm_pending (mk_proofs m') = pm_pending (mk_proofs m) /\ pm_proofs (mk_proofs m') = pm_proofs (mk_proofs m) /\
    pm_challenges (mk_proofs m') = pm_challenges (mk_proofs m) /\
    (new_total <= dl_client_payment_escrow d /\ fits (mk_balances m) (dl_provider d) (release_of m d) /\ r = Ok tt /\
       gains (mbal m) (mbal m') (dl_provider d) (release_of m d) /\ (forall id, released m' id = if decide (id = dl_id d) then new_total else released m id)
     \/ ~ (new_total <= dl_client_payment_escrow d /\ fits (mk_balances m) (dl_provider d) (release_of m d)) /\ is_err r = true /\
       (forall x, mbal m' x = mbal m x) /\ (forall id, released m' id = released m id)).
Proof.
  intros Hc new_total. unfold release_payment. rewrite (M_bind_Ok _ _ m (mk_proofs m) m) by done. cbv zeta.
  fold (released m (dl_id d)). fold (release_of m d). fold new_total.
  set (m1 := put_proofs (put_released (insert (dl_id d) (released m (dl_id d)))) m). rewrite (M_bind_Ok _ _ m tt m1) by done. rewrite bail_bind.
  assert (forall id, released m1 id = released m id) as Hr1.
  { intros id. unfold released, m1, put_proofs, put_released. cbn [mk_proofs pm_released]. destruct (decide (id = dl_id d)) as [->|Hne].
    - by rewrite lookup_insert_eq.
    - by rewrite lookup_insert_ne. }
  destruct (dl_client_payment_escrow d <? new_total) eqn:E; zbool.
  { do 2 eexists. split_and!; [done..|]. right. split_and!; [lia|done..]. }
  rewrite market_balances_bind. destruct (credit_cases now (dl_provider d) (release_of m d) (mk_balances m1) Hc)
    as (b' & r & -> & Hc' & [(Hf & -> & Hg)|(Hn & [e ->] & Hg)]).
  - do 2 eexists. split; [reflexivity|]. split_and!; [exact Hc'|done..|]. left. split_and!; [lia|exact Hf|done|exact Hg|].
    intros id. unfold released, put_proofs, put_released. cbn [mwrite snd mk_proofs pm_released put_balances].
    case_decide as Hd; [subst; by rewrite lookup_insert_eq|]. rewrite lookup_insert_ne by done. apply Hr1.
  - do 2 eexists. split; [reflexivity|]. split_and!; [exact Hc'|done..|]. right. split_and!; [by intros [_ ?]|done|exact Hg|exact Hr1].
Qed.

(** A proof is taken exactly when it is recent, answers the pending challenges with chunks that
    verify against the root of the deal, and the share it is paid stays within the escrow: the
    provider is then paid exactly this share, the payment and the proof are recorded, a window for
    challenges opens and the pending challenges are gone.  A proof that is refused pays nothing
    and leaves them pending. *)
Theorem submit_proof_correct sp d epoch m :
  coherent (mk_balances m) ->
  let new_total := to_u64 (released m (dl_id d) + release_of m d) in
  let '(r, m') := submit_proof now blake3 sp d epoch m in
  coherent (mk_balances m') /\
  (proof_accepted (mk_proofs m) sp d epoch /\ new_total <= dl_client_payment_escrow d /\
     fits (mk_balances m) (dl_provider d) (release_of m d) /\ r = Ok tt /\
     gains (mbal m) (mbal m') (dl_provider d) (release_of m d) /\
     (forall id, released m' id = if decide (id = dl_id d) then new_total else released m id) /\
     pm_pending (mk_proofs m') = delete (dl_id d) (pm_pending (mk_proofs m)) /\
     pm_proofs (mk_proofs m') = <[dl_id d := default [] (pm_proofs (mk_proofs m) !! dl_id d) ++ [sp]]> (pm_proofs (mk_proofs m)) /\
     is_Some (get_proof_challenge_window blake3 m' sp (dl_id d))
   \/ ~ (proof_accepted (mk_proofs m) sp d epoch /\ new_total <= dl_client_payment_escrow d /\
         fits (mk_balances m) (dl_provider d) (release_of m d)) /\ is_err r = true /\
     (forall x, mbal m' x = mbal m x) /\ (forall id, released m' id = released m id) /\
     pm_pending (mk_proofs m') = pm_pending (mk_proofs m) /\ pm_proofs (mk_proofs m') = pm_proofs (mk_proofs m)).
Proof.
  intros Hc new_total. rewrite submit_proof_eq.
  destruct (proof_checks_spec (mk_proofs m) sp d epoch) as [(Hok & ->)|(Hno & e & ->)]; cycle 1.
  { split; [done|]. right. split_and!; try done. by intros [? _]. }
  set (m1 := put_proofs _ m). destruct (release_payment_ok d m1 Hc) as (r & m2 & Hr & Hc2 & _ & Hpe & Hpr & Hch & Hcase).
  change (released m1 (dl_id d)) with (released m (dl_id d)) in Hcase. change (release_of m1 d) with (release_of m d) in Hcase.
  fold new_total in Hcase. unfold mbind, M_bind. rewrite Hr. destruct Hcase as [(Hn & Hf & -> & Hg & Hrel)|(Hn & Herr & Hg & Hrel)].
  - cbn [mwrite snd]. split; [done|]. left. split_and!; try done.
    + cbn. by rewrite Hpe.
    + cbn. by rewrite Hpr.
    + unfold get_proof_challenge_window. change (is_Some (wm_windows (pm_challenges (mk_proofs m2)) !! compute_proof_id blake3 sp (dl_id d))).
      rewrite Hch. eexists. apply lookup_insert_eq.
  - destruct r as [|e|]; [done| |done]. split; [done|]. right. split_and!; try done. by intros (_ & ?).
Qed.

Lemma gains_add f g h a x y : gains f g a x -> gains g h a y -> gains f h a (x + y).
Proof. intros H1 H2 b. rewrite H2, H1. case_bool_decide; lia. Qed.

Lemma submit_pays sp d epoch m :
  coherent (mk_balances m) ->
  let new_total := to_u64 (released m (dl_id d) + release_of m d) in
  let m' := (submit_proof now blake3 sp d epoch m).2 in
  coherent (mk_balances m') /\ pm_config (mk_proofs m') = pm_config (mk_proofs m) /\
  ((forall x, mbal m' x = mbal m x) /\ released m' (dl_id d) = released m (dl_id d) \/
   new_total <= dl_client_payment_escrow d /\ gains (mbal m) (mbal m') (dl_provider d) (release_of m d) /\ released m' (dl_id d) = new_total).
Proof.
  intros Hc new_total. rewrite submit_proof_eq. destruct (proof_checks _ sp d epoch) as [[]|e|]; [|by split_and!; [..|left]..].
  set (m1 := put_proofs _ m). destruct (release_payment_ok d m1 Hc) as (r & m2 & Hr & Hc2 & Hcf & _ & _ & _ & Hcase).
  change (released m1 (dl_id d)) with (released m (dl_id d)) in Hcase. change (release_of m1 d) with (release_of m d) in Hcase.
  fold new_total in Hcase. unfold mbind, M_bind. rewrite Hr. destruct Hcase as [(Hn & Hf & -> & Hg & Hrel)|(Hn & Herr & Hg & Hrel)].
  - cbn [mwrite snd]. split; [done|]. split; [done|]. right. split; [done|]. split; [done|].
    specialize (Hrel (dl_id d)). by rewrite decide_True in Hrel.
  - destruct r as [|e|]; [done| |done]; (split; [done|]; split; [done|]; left; split; [done|apply (Hrel (dl_id d))]).
Qed.

(** The run of the proofs submitted for a deal, with the epochs of their submission. *)
Definition prove (d : StorageDeal) (proofs : list (StorageProof * Z)) m : Market St :=
  foldl (fun m pe => (submit_proof now blake3 pe.1 d pe.2 m).2) m proofs.

Lemma prove_pays d proofs m :
  coherent (mk_balances m) -> 0 <= dl_client_payment_escrow d <= MAX_SUPPLY -> release_of m d <= dl_client_payment_escrow d ->
  0 <= released m (dl_id d) <= dl_client_payment_escrow d ->
  let m' := prove d proofs m in
  coherent (mk_balances m') /\ released m (dl_id d) <= released m' (dl_id d) <= dl_client_payment_escrow d /\
  gains (mbal m) (mbal m') (dl_provider d) (released m' (dl_id d) - released m (dl_id d)).
Proof.
  intros Hc He. revert m Hc. induction proofs as [|[sp epoch] proofs IH]; intros m Hc Hs Hr.
  { change (prove d [] m) with m. cbv zeta. split; [done|]. split; [lia|]. rewrite Z.sub_diag. by apply gains_0. }
  destruct (submit_pays sp d epoch m Hc) as (Hc1 & Hcf & Hcase). set (m1 := (submit_proof now blake3 sp d epoch m).2) in *.
  assert (release_of m1 d = release_of m d) as Hsame by (unfold release_of; by rewrite Hcf).
  assert (0 <= release_of m d) as Hpos by (apply (f64_to_uint_range u64_max); done).
  assert (released m (dl_id d) <= released m1 (dl_id d) <= dl_client_payment_escrow d /\
    gains (mbal m) (mbal m1) (dl_provider d) (released m1 (dl_id d) - released m (dl_id d))) as [Hr1 Hg1].
  { destruct Hcase as [[Hg Hrel]|(Hn & Hg & Hrel)].
    - rewrite Hrel. split; [lia|]. rewrite Z.sub_diag. by apply gains_0.
    - assert (MAX_SUPPLY + MAX_SUPPLY <= u64_max) by (vm_compute; discriminate).
      rewrite to_u64_id in Hn, Hrel by (unfold is_u64; lia). rewrite Hrel. split; [lia|].
      replace (_ + _ - _) with (release_of m d) by lia. done. }
  destruct (IH m1 Hc1 ltac:(by rewrite Hsame) ltac:(lia)) as (H1 & H2 & H3). change (prove d ((sp, epoch) :: proofs) m) with (prove d proofs m1).
  cbv zeta. split; [done|]. split; [lia|]. replace (released (prove d proofs m1) (dl_id d) - released m (dl_id d)) with
    ((released m1 (dl_id d) - released m (dl_id d)) + (released (prove d proofs m1) (dl_id d) - released m1 (dl_id d))) by lia.
  by eapply gains_add.
Qed.

(** What is still owed to the provider when the deal ends. *)
Definition owed m (d : StorageDeal) : AdicAmount := dl_client_payment_escrow d - released m (dl_id d) + dl_provider_collateral d.

(** Completing a deal pays what is owed, and only then looks at the status of the deal. *)
Lemma complete_pays d epoch m :
  coherent (mk_balances m) -> 0 <= released m (dl_id d) <= dl_client_payment_escrow d -> 0 <= dl_provider_collateral d ->
  mbal m (dl_provider d) + owed m d <= MAX_SUPPLY ->
  (forall s, dl_start_epoch d = Some s -> dl_duration_epochs d <= u64_saturating_sub epoch s) ->
  exists b', proof_complete_deal now d epoch m = transition Completed d (put_balances b' m) /\ coherent b' /\
    gains (mbal m) (bal b') (dl_provider d) (owed m d).
Proof.
  intros Hc Hr Hcol Hmax Hdur. unfold proof_complete_deal. rewrite (M_bind_Ok _ _ m (mk_proofs m) m) by done. rewrite bail_bind.
  replace (match dl_start_epoch d with Some s => _ | None => false end) with false
    by (destruct (dl_start_epoch d) as [s|]; [specialize (Hdur s eq_refl); symmetry; by apply Z.ltb_ge|done]).
  cbv zeta. fold (released m (dl_id d)). set (remaining := u64_saturating_sub _ _).
  assert (remaining = dl_client_payment_escrow d - released m (dl_id d)) as Hrem by (unfold remaining, u64_saturating_sub; lia).
  unfold owed in Hmax |- *.
  assert (exists b1, mwhen (0 <? remaining) (on_balances (credit now (dl_provider d) remaining)) m = (Ok tt, put_balances b1 m) /\ coherent b1 /\
    gains (mbal m) (bal b1) (dl_provider d) remaining) as (b1 & H1 & Hc1 & Hg1).
  { destruct (0 <? remaining) eqn:E; zbool; simpl.
    - destruct (credit_cases now (dl_provider d) remaining (mk_balances m) Hc) as (b1 & r & Hd & Hc1 & [(_ & -> & Hg)|(Hn & _)]).
      + exists b1. unfold on_balances, mmap_err, mzoom. by rewrite Hd.
      + destruct Hn. right. unfold mbal in Hmax. lia.
    - exists (mk_balances m). split; [by destruct m|]. split; [done|]. replace remaining with 0 by lia. by apply gains_0. }
  rewrite (M_bind_Ok _ _ _ _ _ H1), market_balances_bind.
  destruct (credit_cases now (dl_provider d) (dl_provider_collateral d) b1 Hc1) as (b2 & r & Hd & Hc2 & [(_ & -> & Hg)|(Hn & _)]).
  - cbn [put_balances mk_balances]. rewrite Hd. exists b2. split; [done|]. split; [done|]. rewrite <-Hrem. by eapply gains_add.
  - destruct Hn. right. specialize (Hg1 (dl_provider d)). rewrite bool_decide_true in Hg1 by done. rewrite Hg1. lia.
Qed.

(** C17: Whatever proofs are submitted for a deal, its provider is paid for them exactly what is recorded
    as released, which never exceeds the escrow; and when the deal is then completed the provider has
    received in all exactly the rest of the escrow and its collateral. *)
Theorem deal_pays_its_escrow d proofs epoch d' m m'' :
  coherent (mk_balances m) -> 0 <= dl_client_payment_escrow d <= MAX_SUPPLY -> release_of m d <= dl_client_payment_escrow d ->
  0 <= released m (dl_id d) <= dl_client_payment_escrow d -> 0 <= dl_provider_collateral d ->
  mbal m (dl_provider d) + owed m d <= MAX_SUPPLY ->
  let m' := prove d proofs m in
  released m (dl_id d) <= released m' (dl_id d) <= dl_client_payment_escrow d /\
  gains (mbal m) (mbal m') (dl_provider d) (released m' (dl_id d) - released m (dl_id d)) /\
  (proof_complete_deal now d epoch m' = (Ok d', m'') ->
   dl_status d = Active /\ d' = with_deal_status Completed d /\ gains (mbal m) (mbal m'') (dl_provider d) (owed m d)).
Proof.
  intros Hc He Hs Hr Hcol Hmax m'. destruct (prove_pays d proofs m Hc He Hs Hr) as (Hc' & Hr' & Hg'). fold m' in Hc', Hr', Hg'.
  split; [done|]. split; [done|]. intros Hd.
  assert (forall s, dl_start_epoch d = Some s -> dl_duration_epochs d <= u64_saturating_sub epoch s) as Hdur.
  { intros s Hst. unfold proof_complete_deal in Hd. rewrite (M_bind_Ok _ _ m' (mk_proofs m') m') in Hd by done.
    rewrite bail_bind, Hst in Hd. destruct (_ <? _) eqn:E in Hd; [discriminate|]. by zbool. }
  destruct (complete_pays d epoch m' Hc' ltac:(lia) Hcol) as (b' & Hb & Hcb & Hgb); [|done|].
  { specialize (Hg' (dl_provider d)). rewrite bool_decide_true in Hg' by done. unfold owed in *. lia. }
  rewrite Hd in Hb. unfold transition, mopt, transition_to in Hb. destruct (dl_status d) eqn:Es; simpl in Hb; try discriminate.
  injection Hb as -> ->. split; [done|]. split; [done|]. replace (owed m d) with ((released m' (dl_id d) - released m (dl_id d)) + owed m' d)
    by (unfold owed; lia). eapply gains_add; [exact Hg'|exact Hgb].
Qed.

(** *** Missed proofs *)

Context (digest : Bytes -> string).

Definition overdue (p : ProofCycleManager) (d : StorageDeal) (epoch : Z) : bool :=
  match dl_start_epoch d with
  | Some start =>
      let proofs := default [] (pm_proofs p !! dl_id d) in
      (Z.of_nat (length proofs) <? u64_saturating_sub epoch start / dl_duration_epochs d) &&
      (pf_proof_grace_period (pm_config p) <?
         u64_saturating_sub epoch (to_u64 (default start (sp_proof_epoch <$> last proofs) + dl_duration_epochs d)))
  | None => false
  end.

Lemma overdue_late p d epoch : 0 < dl_duration_epochs d -> overdue p d epoch = true ->
  exists start, dl_start_epoch d = Some start /\ dl_duration_epochs d <= epoch - start.
Proof.
  intros Hd. unfold overdue. destruct (dl_start_epoch d) as [start|]; [|done]. intros [H1 _]%andb_prop. exists start. split; [done|]. zbool.
  assert (1 <= u64_saturating_sub epoch start / dl_duration_epochs d) as H by lia.
  apply Z.div_le_lower_bound in H || apply (Z.mul_le_mono_nonneg_l _ _ (dl_duration_epochs d)) in H; [|lia..].
  pose proof (Z.mul_div_le (u64_saturating_sub epoch start) (dl_duration_epochs d) Hd). unfold u64_saturating_sub in *. nia.
Qed.

(** A slash of [amount]: it moves to the treasury and the deal fails, or the balance is too small. *)
Definition slashed d (amount : AdicAmount) m (r : result MarketError StorageDeal) m' : Prop :=
  coherent (mk_balances m') /\ mk_proofs m' = mk_proofs m /\
  match r with
  | Ok d' => d' = with_deal_status Failed d /\
      forall x, mbal m' x = mbal m x + (if bool_decide (x = treasury) then amount else 0) - (if bool_decide (x = dl_provider d) then amount else 0)
  | Err (Economics _) => (forall x, mbal m' x = mbal m x) /\ amount <> 0
  | Err e => e = InvalidStateTransition (dl_status d)
  | Panic => False
  end.

Lemma slash_outcome d amount m :
  coherent (mk_balances m) -> amount = share_of (dl_provider_collateral d) (pf_slash_percentage (pm_config (mk_proofs m))) ->
  let '(r, m') := (slash_provider now digest d;; transition Failed d) m in slashed d amount m r m'.
Proof.
  intros Hc ->. set (amount := share_of _ _). assert (0 <= amount) as Ham by (apply (f64_to_uint_range u64_max); done).
  destruct (transfer_ok now digest eq (dl_provider d) treasury amount Slashing (mk_balances m) Hc Ham) as (b' & r & Ht & Hc' & Hcase).
  assert ((slash_provider now digest d ≫= fun _ => transition Failed d) m =
    match r with
    | Ok _ => transition Failed d (put_balances b' m)
    | Err e => (Err (Economics e), put_balances b' m)
    | Panic => (Panic, put_balances b' m)
    end) as ->.
  { unfold slash_provider. unfold mbind at 1, M_bind at 1. rewrite (M_bind_Ok _ _ m (mk_proofs m) m), market_balances_bind by done. fold amount.
    rewrite Ht. by destruct r. }
  assert (forall e, same_accounts (mk_balances m) b' -> amount <> 0 -> slashed d amount m (Err (Economics e)) (put_balances b' m)) as Hsame.
  { intros e Hs Hne. split; [done|]. split; [done|]. split; [|done]. intros x. unfold mbal, bal. cbn. by rewrite Hs. }
  assert ((forall x, bal b' x = mbal m x + (if bool_decide (x = treasury) then amount else 0) - (if bool_decide (x = dl_provider d) then amount else 0)) ->
    let '(r, m') := transition (St := St) Failed d (put_balances b' m) in slashed d amount m r m') as Hok.
  { intros Hb. unfold transition, mopt, transition_to. by destruct (deal_can_transition_to _ _). }
  destruct (amount =? 0) eqn:E0; zbool.
  { destruct Hcase as [-> Hs]. apply Hok. intros x. rewrite E0. unfold bal. rewrite Hs. unfold mbal, bal. repeat case_bool_decide; lia. }
  destruct (bool_decide (dl_provider d = treasury)) eqn:Hne; [destruct Hcase as [-> Hs]; by apply Hsame|].
  destruct (bal (mk_balances m) (dl_provider d) <? amount); [destruct Hcase as [-> Hs]; by apply Hsame|].
  destruct (u64_max <? _); [destruct Hcase as [-> Hs]; by apply Hsame|].
  apply bool_decide_eq_false in Hne. destruct Hcase as [-> Hv]. apply Hok. intros x. unfold bal at 1. rewrite Hv. unfold moved.
  rewrite !balance_put_balance. unfold mbal, bal.
  repeat case_decide; repeat case_bool_decide; subst; try congruence; lia.
Qed.

(** A check of missed proofs does nothing to a deal that is not overdue, and a deal is overdue only
    after its whole duration.  Otherwise the provider pays the share of its collateral from its
    balance to the treasury and the deal fails; when the balance is too small nothing is paid and the
    deal goes on. *)
Theorem missed_proofs_correct d epoch m :
  coherent (mk_balances m) -> 0 < dl_duration_epochs d ->
  let amount := share_of (dl_provider_collateral d) (pf_slash_percentage (pm_config (mk_proofs m))) in
  let '(r, m') := check_missed_proofs now digest d epoch m in
  if overdue (mk_proofs m) d epoch
  then (exists start, dl_start_epoch d = Some start /\ dl_duration_epochs d <= epoch - start) /\ slashed d amount m r m'
  else r = Ok d /\ m' = m.
Proof.
  intros Hc Hd amount.
  assert (check_missed_proofs now digest d epoch m =
    if overdue (mk_proofs m) d epoch then (slash_provider now digest d;; transition Failed d) m else (Ok d, m)) as ->.
  { unfold check_missed_proofs, overdue. rewrite (M_bind_Ok _ _ m (mk_proofs m) m) by done. destruct (dl_start_epoch d) as [start|]; [|done].
    replace (dl_duration_epochs d =? 0) with false by (symmetry; apply Z.eqb_neq; lia). cbv zeta.
    destruct (_ <? _); [|done]. simpl andb. by destruct (_ <? _). }
  destruct (overdue (mk_proofs m) d epoch) eqn:Eo; [|done].
  pose proof (slash_outcome d amount m Hc eq_refl) as Hs. pose proof (overdue_late _ _ _ Hd Eo).
  by destruct ((slash_provider now digest d ≫= fun _ => transition Failed d) m).
Qed.

(** *** Flaws *)

(** Who keeps only the two children of the root answers every challenge. *)
Theorem root_children_answer_all d sp challenges l r :
  dl_proof_merkle_root d = Some (blake3 (l ++ r)) -> sp_merkle_proofs sp = (fun c => mkMerkle c (l ++ r) []) <$> challenges ->
  verify_merkle_proofs blake3 sp challenges d = Ok tt.
Proof.
  intros Hroot Hsp. unfold verify_merkle_proofs. rewrite Hsp, length_fmap, Nat.eqb_refl, Hroot. simpl. clear.
  induction challenges as [|c cs IH]; [done|]. simpl. rewrite Z.eqb_refl. simpl. unfold merkle_verify. simpl.
  by rewrite bool_decide_true.
Qed.
End facts.

(** ** Examples

    The deal of 100 epochs at 10 units, with the root of four chunks; alice has 100 units. *)

Definition demo_root : Bytes := mroot sum_hash four_chunks.
Definition proved_deal : StorageDeal := with_merkle_root demo_root (demo_deal Active).
Definition demo_proof : StorageProof :=
  mkStorageProof (protocol_new 0) 1 bob 3 [2] [mkMerkle 2 [3] (path_of sum_hash 2 2 four_chunks)] Pending None.
Definition challenged_market : Market MemoryStorage := put_proofs (put_pending (insert 1 [2])) demo_market.

Lemma submit_proof_correct_witness :
  let '(r, m') := submit_proof 0 sum_hash demo_proof proved_deal 3 challenged_market in
  r = Ok tt /\ mbal m' bob = 100 /\ released m' 1 = 100.
Proof.
  pose proof (submit_proof_correct 0 sum_hash demo_proof proved_deal 3 challenged_market alice_coherent) as H. cbv zeta in H.
  destruct (submit_proof 0 sum_hash demo_proof proved_deal 3 challenged_market) as [r m'].
  destruct H as [_ [(_ & _ & _ & -> & Hg & Hr & _)|(Hn & _)]].
  - split; [reflexivity|]. split; [exact (Hg bob)|exact (Hr 1)].
  - exfalso. apply Hn. split; [|split; [vm_compute; discriminate|right; vm_compute; discriminate]].
    split; [vm_compute; discriminate|]. split; [reflexivity|]. eexists. split; [reflexivity|]. repeat constructor.
Defined.

Lemma deal_pays_its_escrow_witness :
  exists d' m'', proof_complete_deal 0 proved_deal 100 (prove 0 sum_hash proved_deal [(demo_proof, 3)] challenged_market) = (Ok d', m'') /\
    dl_status d' = Completed /\ mbal m'' bob = 1500.
Proof.
  set (out := proof_complete_deal 0 proved_deal 100 (prove 0 sum_hash proved_deal [(demo_proof, 3)] challenged_market)).
  assert (out = (Ok (with_deal_status Completed proved_deal), out.2)) as Ho by (vm_compute; reflexivity).
  exists (with_deal_status Completed proved_deal), out.2. split; [exact Ho|]. split; [reflexivity|].
  destruct (deal_pays_its_escrow 0 sum_hash proved_deal [(demo_proof, 3)] 100 (with_deal_status Completed proved_deal) challenged_market out.2 alice_coherent)
    as (_ & _ & H).
  - split; vm_compute; discriminate.
  - vm_compute. discriminate.
  - split; vm_compute; discriminate.
  - vm_compute. discriminate.
  - vm_compute. discriminate.
  - destruct (H Ho) as (_ & _ & Hg). exact (Hg bob).
Defined.

Definition alice_deal : StorageDeal :=
  mkDeal (protocol_new 0) 1 [1] [2] bob alice [9] 10000 100 10 500 1000 (Some demo_root) (Some 0) 50 Active Pending None.

Lemma missed_proofs_correct_witness :
  let '(r, m') := check_missed_proofs 0 no_digest alice_deal 106 demo_market in
  r = Ok (with_deal_status Failed alice_deal) /\ mbal m' alice = 50 /\ mbal m' treasury = 50.
Proof.
  pose proof (missed_proofs_correct 0 no_digest alice_deal 106 demo_market alice_coherent ltac:(done)) as H. cbv zeta in H.
  assert (overdue (mk_proofs demo_market) alice_deal 106 = true) as Ho by (vm_compute; reflexivity). rewrite Ho in H.
  assert ((check_missed_proofs 0 no_digest alice_deal 106 demo_market).1 = Ok (with_deal_status Failed alice_deal)) as Hr by (vm_compute; reflexivity).
  destruct (check_missed_proofs 0 no_digest alice_deal 106 demo_market) as [r m']. simpl in Hr. subst r.
  destruct H as (_ & _ & _ & _ & H). split; [reflexivity|]. split; [exact (H alice)|exact (H treasury)].
Defined.

(** A provider without the money for the slash is neither slashed nor failed, whatever its collateral. *)
Theorem spent_balance_not_slashed :
  mbal demo_market bob = 0 /\
  (check_missed_proofs 0 no_digest proved_deal 1000 demo_market).1 = Err (Economics (InsufficientBalance bob 0 50)).
Proof. split; vm_compute; reflexivity. Qed.

(** One proof can be submitted over and over in one epoch, each time for pay. *)
Theorem repeated_proof_pays_again :
  let again m := put_proofs (put_pending (insert 1 [2])) (submit_proof 0 sum_hash demo_proof proved_deal 3 m).2 in
  mbal (again (again challenged_market)) bob = 200.
Proof. vm_compute. reflexivity. Qed.
