(* ===== verification/Marketplace.v ===== *)
(** * The coordinator of the storage market

    [adic-storage-market/src/coordinator.rs]: the workflow from intent to completed deal, over the
    intent manager, the compiler and the proof cycle, with the deals it keeps under their numbers
    (the compiler keeps copies of its own under their intents) and the current epoch.

    [market_iter] is the order in which the deals are listed. *)

From S2P Require Import Prelude F64 Message Amount EconStorage Balance Reputation Admissibility Vrf Quorum Challenge Finality.
From S2P Require Import ParamStore Voting Application MarketTypes Market MarketProof.

Section coordinator.
Context {St : Type} `{!EconomicsStorage St}.
Context (now : Z) (digest : Bytes -> string) (blake3 : Bytes -> Bytes).
Context (deterministic : bool).
Context (deals_iter : gmap Hash StorageDeal -> list (Hash * StorageDeal)).
Context (market_iter : gmap Z StorageDeal -> list (Z * StorageDeal)).
Abbreviation MM := (M (Market St) MarketError).
Implicit Types m : Market St.

Definition find_deal_id (id : Z) : MM StorageDeal :=
  deals ← mread mk_deals;
  mopt (deals !! id) (DealNotFound id).
Definition put_deal (id : Z) (d : StorageDeal) : MM unit := mwrite (put_deals (insert id d)).

Definition advance_epoch : MM Z :=
  epoch ← mread mk_epoch;
  mwrite (put_epoch (to_u64 (epoch + 1)));;
  mret (to_u64 (epoch + 1)).

Definition market_publish_intent (i : StorageDealIntent) : MM Hash :=
  balance ← on_balances (get_balance now (in_client i));
  mbail (balance <? in_deposit i) (InsufficientFunds (in_deposit i) balance);;
  publish_intent now i.

Definition market_submit_acceptance (a : ProviderAcceptance) : MM Hash :=
  balance ← on_balances (get_balance now (ac_provider a));
  mbail (balance <? ac_collateral_commitment a) (InsufficientFunds (ac_collateral_commitment a) balance);;
  submit_acceptance now a.

Definition compile_deal (intent_id acceptance_id : Hash) : MM Z :=
  m ← mread (fun m => m);
  i ← mopt (get_intent m intent_id) IntentNotFound;
  a ← mopt (get_acceptance m acceptance_id) AcceptanceNotFound;
  d ← compile now i a (mk_epoch m);
  put_deal (dl_id d) d;;
  mret (dl_id d).

Definition activate_deal (deal_id : Z) (activation : DealActivation) : MM unit :=
  epoch ← mread mk_epoch;
  d ← find_deal_id deal_id;
  mbail (negb (bool_decide (dl_status d = PendingActivation))) (InvalidStateTransition (dl_status d));;
  put_deal deal_id (with_merkle_root (da_data_merkle_root activation) d);;
  jitca_activate_deal deals_iter deal_id epoch;;
  deals ← mread mk_deals;
  match deals !! deal_id with
  | Some d => d ← transition Active d; put_deal deal_id (with_start_epoch epoch d)
  | None => mret tt
  end.

Definition market_submit_proof (sp : StorageProof) : MM unit :=
  epoch ← mread mk_epoch;
  d ← find_deal_id (sp_deal_id sp);
  mbail (negb (deal_is_active d)) (InvalidStateTransition (dl_status d));;
  challenges ← generate_challenge blake3 deterministic d (sp_proof_epoch sp) epoch;
  mbail (negb (bool_decide (sp_challenge_indices sp = challenges))) (ProofRefused NotTheChallenges);;
  submit_proof now blake3 sp d epoch.

(** Errors of a deal are logged and skipped; the numbers of the deals that failed are returned. *)
Fixpoint check_deals (epoch : Z) (deals : list (Z * StorageDeal)) : MM (list Z) :=
  match deals with
  | [] => mret []
  | (id, d) :: deals =>
      if deal_is_active d then
        d' ← mor (check_missed_proofs now digest d epoch) (fun _ => mret d);
        put_deal id d';;
        rest ← check_deals epoch deals;
        mret (if bool_decide (dl_status d' = Failed) then id :: rest else rest)
      else check_deals epoch deals
  end.
Definition check_proof_deadlines : MM (list Z) :=
  m ← mread (fun m => m);
  check_deals (mk_epoch m) (market_iter (mk_deals m)).

Definition complete_deal (deal_id : Z) : MM unit :=
  epoch ← mread mk_epoch;
  d ← find_deal_id deal_id;
  d' ← proof_complete_deal now d epoch;
  put_deal deal_id d'.

Definition get_deal m (deal_id : Z) : option StorageDeal := mk_deals m !! deal_id.
Definition deals_where (p : StorageDeal -> bool) m : list StorageDeal := List.filter p (market_iter (mk_deals m)).*2.
Definition get_client_deals m (client : AccountAddress) : list StorageDeal := deals_where (fun d => bool_decide (dl_client d = client)) m.
Definition get_provider_deals m (provider : AccountAddress) : list StorageDeal := deals_where (fun d => bool_decide (dl_provider d = provider)) m.

Record MarketStats := mkMarketStats {
  ms_total_intents : nat;
  ms_finalized_intents : nat;
  ms_total_acceptances : nat;
  ms_compiled_deals : nat;
  ms_active_deals : nat;
  ms_pending_activation : nat;
  ms_completed_deals : nat;
  ms_failed_deals : nat;
  ms_current_epoch : Z;
}.
Definition count_deals (s : StorageDealStatus) m : nat := size (filter (fun kd => dl_status kd.2 = s) (mk_deals m)).
Definition get_market_stats m : MarketStats :=
  let stats := get_intent_stats now m in
  mkMarketStats (is_total_intents stats) (is_finalized_intents stats) (is_total_acceptances stats) (size (jc_deals (mk_jitca m)))
    (count_deals Active m) (count_deals PendingActivation m) (count_deals Completed m) (count_deals Failed m) (mk_epoch m).
End coordinator.

(** ** Deals advance *)

Section facts.
Context {St : Type} `{!EconomicsStorage St}.
Context (digest : Bytes -> string) (blake3 : Bytes -> Bytes) (deterministic : bool).
Context (intents_iter : gmap Hash StorageDealIntent -> list (Hash * StorageDealIntent)).
Context (deals_iter : gmap Hash StorageDeal -> list (Hash * StorageDeal)).
Context (market_iter : gmap Z StorageDeal -> list (Z * StorageDeal)).

Implicit Types m : Market St.

Definition deal_step (a b : StorageDealStatus) : Prop := deal_can_transition_to a b = true.

(** Every deal is kept, with its terms, and its status has moved along allowed transitions. *)
Definition same_terms (d d' : StorageDeal) : Prop :=
  dl_id d' = dl_id d /\ dl_client d' = dl_client d /\ dl_provider d' = dl_provider d /\
  dl_client_payment_escrow d' = dl_client_payment_escrow d /\ dl_provider_collateral d' = dl_provider_collateral d /\
  dl_duration_epochs d' = dl_duration_epochs d /\ dl_price_per_epoch d' = dl_price_per_epoch d.
Definition advances m m' : Prop :=
  forall id d, mk_deals m !! id = Some d ->
    exists d', mk_deals m' !! id = Some d' /\ same_terms d d' /\ rtc deal_step (dl_status d) (dl_status d').

#[local] Instance advances_preorder : PreOrder advances.
Proof.
  split.
  - intros m id d H. by exists d.
  - intros m1 m2 m3 H12 H23 id d H. destruct (H12 id d H) as (d2 & H2 & T2 & R2). destruct (H23 id d2 H2) as (d3 & H3 & T3 & R3).
    exists d3. split; [done|]. split; [unfold same_terms in *; intuition congruence|]. by transitivity (dl_status d2).
Qed.

Lemma advances_same m m' : mk_deals m' = mk_deals m -> advances m m'.
Proof. intros H id d Hd. exists d. by rewrite H. Qed.
Lemma advances_put m id d d' : mk_deals m !! id = Some d -> same_terms d d' -> rtc deal_step (dl_status d) (dl_status d') ->
  advances m (put_deals (insert id d') m).
Proof.
  intros Hd Ht Hr id0 d0 H0. simpl. destruct (decide (id = id0)) as [<-|Hne].
  - rewrite lookup_insert_eq. simplify_eq. by exists d'.
  - rewrite lookup_insert_ne by done. by exists d0.
Qed.
Lemma transition_Some m s d d' m' : transition (St := St) s d m = (Ok d', m') -> m' = m /\ d' = with_deal_status s d /\ deal_step (dl_status d) s.
Proof. unfold transition, transition_to, deal_step. destruct (deal_can_transition_to _ _); [by intros [= <- <-]|done]. Qed.

(** The operations below the coordinator do not touch its deals, and only the compiler touches its own. *)
Definition deal_parts m := (mk_jitca m, mk_deals m).
Lemma frames_balances {A} (c : M (BalanceManager St) EconError A) : frames deal_parts (on_balances c).
Proof. unfold on_balances. auto with frame. Qed.
Lemma frames_windows {A} (c : M ChallengeWindowManager ChallengeError A) : frames deal_parts (on_windows (St := St) c).
Proof. unfold on_windows. apply frames_err. intros m. unfold mzoom. by destruct (c _). Qed.
#[local] Hint Resolve frames_balances frames_windows : frame.

Lemma frames_publish now i : frames deal_parts (market_publish_intent now i).
Proof. unfold market_publish_intent, publish_intent. solve_frames. Qed.
Lemma frames_accept now a : frames deal_parts (market_submit_acceptance now a).
Proof. unfold market_submit_acceptance, submit_acceptance. solve_frames. Qed.
Lemma frames_intent_finality now id f e : frames deal_parts (update_intent_finality now id f e).
Proof. unfold update_intent_finality. solve_frames. Qed.
Lemma frames_acceptance_finality now id f e : frames deal_parts (update_acceptance_finality now id f e).
Proof. unfold update_acceptance_finality. solve_frames. Qed.
Lemma frames_submit_proof now sp : frames deal_parts (market_submit_proof now blake3 deterministic sp).
Proof. unfold market_submit_proof, find_deal_id, generate_challenge, submit_proof, release_payment. solve_frames. Qed.
Lemma frames_missed now d e : frames deal_parts (check_missed_proofs now digest d e).
Proof. unfold check_missed_proofs, slash_provider, transition. solve_frames. Qed.
Lemma frames_complete now d e : frames deal_parts (proof_complete_deal now d e).
Proof. unfold proof_complete_deal, transition. solve_frames. Qed.

Lemma parts_deals {A} (c : M (Market St) MarketError A) m : frames deal_parts c -> mk_deals (c m).2 = mk_deals m /\ mk_jitca (c m).2 = mk_jitca m.
Proof. intros H. specialize (H m). unfold deal_parts in H. by injection H as -> ->. Qed.

Lemma missed_result now d e m d' m' : check_missed_proofs now digest d e m = (Ok d', m') ->
  d' = d \/ d' = with_deal_status Failed d /\ deal_step (dl_status d) Failed.
Proof.
  unfold check_missed_proofs. rewrite (M_bind_Ok _ _ m (mk_proofs m) m) by done. destruct (dl_start_epoch d); [|intros [= <- _]; by left].
  destruct (_ =? 0); [done|]. cbv zeta. destruct (_ <? _); [|intros [= <- _]; by left]. destruct (_ <? _); [|intros [= <- _]; by left].
  intros (u & m1 & _ & H)%M_bind_inv. right. by apply transition_Some in H as (_ & -> & ?).
Qed.
Lemma complete_result now d e m d' m' : proof_complete_deal now d e m = (Ok d', m') ->
  d' = with_deal_status Completed d /\ deal_step (dl_status d) Completed.
Proof.
  unfold proof_complete_deal. intros (p & m1 & _ & H)%M_bind_inv. cbv zeta in H. apply M_bind_inv in H as (u1 & m2 & _ & H).
  apply M_bind_inv in H as (u2 & m3 & _ & H). apply M_bind_inv in H as (u3 & m4 & _ & H). by apply transition_Some in H as (_ & -> & ?).
Qed.
Lemma compile_result now i a e m :
  let '(r, m') := compile now i a e m in
  mk_deals m' = mk_deals m /\
  ((exists d, r = Ok d /\ dl_id d = jc_next_deal_id (mk_jitca m) /\
      mk_jitca m' = mkJitca (jc_config (mk_jitca m)) (<[in_intent_id i := d]> (jc_deals (mk_jitca m))) (to_u64 (jc_next_deal_id (mk_jitca m) + 1))) \/
   (forall d, r <> Ok d) /\ mk_jitca m' = mk_jitca m).
Proof.
  rewrite compile_eq. destruct (compile_checks _ i a e) as [total|e'|]; [|by split; [|right]..].
  rewrite market_balances_bind. destruct (debit _ _ _ _) as [[[]|e1|] b1]; [|by split; [|right]..].
  rewrite market_balances_bind. destruct (debit _ _ _ _) as [[[]|e2|] b2]; [|by split; [|right]..].
  split; [done|]. left. by eexists.
Qed.

(** ** Runs *)

Context (deals_iter_perm : forall g, deals_iter g ≡ₚ map_to_list g).

(** The deals are kept under their numbers, and the numbers in use are below the next one. *)
Definition market_ok m : Prop :=
  jitca_ok (mk_jitca m) /\ 0 <= jc_next_deal_id (mk_jitca m) /\
  forall id d, mk_deals m !! id = Some d -> dl_id d = id /\ id < jc_next_deal_id (mk_jitca m).
(** What each step guarantees. *)
Definition good_step m m' : Prop :=
  market_ok m -> jc_next_deal_id (mk_jitca m) < u64_max ->
  market_ok m' /\ advances m m' /\ jc_next_deal_id (mk_jitca m) <= jc_next_deal_id (mk_jitca m') <= jc_next_deal_id (mk_jitca m) + 1.

Lemma good_parts m m' : deal_parts m' = deal_parts m -> good_step m m'.
Proof.
  intros [= Hj Hd] Hok _. unfold market_ok. rewrite Hj, Hd. split; [done|]. split; [by apply advances_same|lia].
Qed.
Lemma good_frames {A} (c : M (Market St) MarketError A) m : frames deal_parts c -> good_step m (c m).2.
Proof. intros H. apply good_parts, H. Qed.

(** Replacing a deal by one it may become. *)
Lemma good_put m m1 id d d' :
  mk_deals m !! id = Some d -> deal_parts m1 = deal_parts m -> same_terms d d' -> rtc deal_step (dl_status d) (dl_status d') ->
  good_step m (put_deals (insert id d') m1).
Proof.
  intros Hd [= Hj Hm] Ht Hr (Hok & Hn & Hids) _. unfold market_ok, put_deals. cbn. rewrite Hj, Hm. split_and!; [done|done| | |lia|lia].
  - intros id0 d0 [[<- <-]|[_ H0]]%lookup_insert_Some; [|by apply Hids]. destruct (Hids id d Hd) as [<- ?]. split; [apply Ht|done].
  - intros id0 d0 H0. cbn. rewrite ?Hm. destruct (advances_put m id d d' Hd Ht Hr id0 d0 H0) as (d1 & ? & ?). by exists d1.
Qed.
Lemma same_terms_refl d : same_terms d d.
Proof. done. Qed.
Lemma same_terms_status s d : same_terms d (with_deal_status s d).
Proof. done. Qed.

Lemma good_compile now iid aid m : good_step m (compile_deal now iid aid m).2.
Proof.
  unfold compile_deal. rewrite (M_bind_Ok _ _ m m m) by done. unfold mopt.
  destruct (get_intent m iid) as [i|]; [|by apply good_parts]. rewrite (M_bind_Ok _ _ m i m) by done.
  destruct (get_acceptance m aid) as [a|]; [|by apply good_parts]. rewrite (M_bind_Ok _ _ m a m) by done.
  pose proof (compile_result now i a (mk_epoch m) m) as H. unfold mbind, M_bind.
  destruct (compile now i a (mk_epoch m) m) as [r m1]. destruct H as [Hd [(d & -> & Hid & Hj)|(Hn & Hj)]].
  - intros (Hok & Hnn & Hids) Hlt. cbn. unfold market_ok. cbn. rewrite !Hj, !Hd. cbn.
    assert (to_u64 (jc_next_deal_id (mk_jitca m) + 1) = jc_next_deal_id (mk_jitca m) + 1) as -> by (apply to_u64_id; unfold is_u64; lia).
    split; [split; [|split; [lia|]]|split; [|lia]].
    + apply jitca_insert_ok; [done|lia|]. split; [lia|]. intros k' d' _ Hk'. destruct Hok as [Hb _]. specialize (Hb k' d' Hk'). lia.
    + intros id0 d0 [[<- <-]|[_ H0]]%lookup_insert_Some; [lia|]. destruct (Hids id0 d0 H0). lia.
    + intros id0 d0 H0. cbn. rewrite Hd. exists d0. destruct (Hids id0 d0 H0). rewrite lookup_insert_ne by lia. done.
  - destruct r as [d| |]; [by destruct (Hn d)|by apply good_parts; unfold deal_parts; cbn; rewrite Hj, Hd..].
Qed.

Lemma find_deal_id_eq {A} id m (k : StorageDeal -> M (Market St) MarketError A) :
  (find_deal_id id ≫= k) m = match mk_deals m !! id with Some d => k d m | None => (Err (DealNotFound id), m) end.
Proof. unfold find_deal_id, mbind, M_bind, mread, mopt. by destruct (mk_deals m !! id). Qed.

Lemma good_activate id act m : good_step m (activate_deal deals_iter id act m).2.
Proof.
  unfold activate_deal. rewrite (M_bind_Ok _ _ m (mk_epoch m) m), find_deal_id_eq by done.
  destruct (mk_deals m !! id) as [d|] eqn:Ed; [|by apply good_parts]. rewrite bail_bind.
  case_bool_decide as Hs; simpl negb; cbv iota; [|by apply good_parts].
  set (d1 := with_merkle_root _ d). set (m1 := put_deals (insert id d1) m). rewrite (M_bind_Ok _ _ m tt m1) by done.
  intros Hok Hlt. destruct (good_put m m id d d1 Ed eq_refl (same_terms_refl d) ltac:(done) Hok Hlt) as (Hok1 & Hadv1 & _). fold m1 in Hok1, Hadv1.
  pose proof (jitca_activate_ok deals_iter deals_iter_perm id (mk_epoch m) m1 (proj1 Hok1)) as H. unfold mbind, M_bind.
  destruct (jitca_activate_deal deals_iter id (mk_epoch m) m1) as [r m2].
  destruct H as [(k & dj & Hk & Hid & _ & _ & -> & ->)|(_ & Hr & ->)]; [|destruct r; [done|split_and!; [done..| |]; simpl; lia|done]].
  cbn. rewrite lookup_insert_eq. unfold mbind, M_bind, transition, mopt, transition_to. cbn. rewrite Hs. cbn.
  assert (jitca_ok (mkJitca (jc_config (mk_jitca m)) (<[k := with_start_epoch (mk_epoch m) (with_deal_status Active dj)]> (jc_deals (mk_jitca m)))
    (jc_next_deal_id (mk_jitca m)))) as Hj.
  { destruct Hok as ([Hb Hu] & _). apply jitca_insert_ok; [done|lia|]. split; [by apply (Hb k dj)|].
    intros k' d' Hne Hk' E. by destruct (Hne (Hu k' k d' dj Hk' Hk E)). }
  destruct Hok as (Hok & Hn & Hids). split; [split; [exact Hj|split; [exact Hn|]]|split; [|simpl; lia]].
  - intros id0 d0. cbn. rewrite insert_insert_eq. intros [[<- <-]|[_ H0]]%lookup_insert_Some; [by apply (Hids id d)|by apply Hids].
  - intros id0 d0 H0. cbn. rewrite insert_insert_eq. destruct (decide (id0 = id)) as [->|Hne].
    + rewrite lookup_insert_eq. simplify_eq. eexists. split; [done|]. split; [done|]. apply rtc_once. unfold deal_step. cbn. by rewrite Hs.
    + rewrite lookup_insert_ne by done. by exists d0.
Qed.

Lemma good_complete now id m : good_step m (complete_deal now id m).2.
Proof.
  unfold complete_deal. rewrite (M_bind_Ok _ _ m (mk_epoch m) m), find_deal_id_eq by done.
  destruct (mk_deals m !! id) as [d|] eqn:Ed; [|by apply good_parts].
  pose proof (frames_complete now d (mk_epoch m) m) as Hk. unfold mbind, M_bind.
  destruct (proof_complete_deal now d (mk_epoch m) m) as [[d'|e|] m1] eqn:Ec; cbn in Hk |- *; [|by apply good_parts..].
  apply complete_result in Ec as [-> Hs]. eapply good_put; [done|done|done|by apply rtc_once].
Qed.

Lemma bind_eq {A B} (c : M (Market St) MarketError A) (k : A -> M (Market St) MarketError B) m :
  (c ≫= k) m = match c m with (Ok a, m') => k a m' | (Err e, m') => (Err e, m') | (Panic, m') => (Panic, m') end.
Proof. unfold mbind, M_bind. by destruct (c m) as [[| |] ?]. Qed.
Lemma same_parts_ok m m' : market_ok m -> deal_parts m' = deal_parts m -> market_ok m' /\ advances m m' /\ mk_jitca m' = mk_jitca m.
Proof.
  intros Hok [= Hj Hm]. split; [unfold market_ok; by rewrite Hj, Hm|]. split; [by apply advances_same|done].
Qed.
(** The check of all deals, over entries that are listed once each. *)
Lemma good_check now epoch l m :
  NoDup l.*1 -> (forall id d, (id, d) ∈ l -> mk_deals m !! id = Some d) ->
  market_ok m ->
  let m' := (check_deals now digest epoch l m).2 in market_ok m' /\ advances m m' /\ mk_jitca m' = mk_jitca m.
Proof.
  revert m. induction l as [|[id d] l IH]; intros m Hnd Hin Hok; [split; [done|by split]|]. apply NoDup_cons in Hnd as [Hni Hnd].
  assert (forall id d, (id, d) ∈ l -> mk_deals m !! id = Some d) as Hin' by (intros; apply Hin; by right).
  cbn [check_deals]. destruct (deal_is_active d); [|by apply IH].
  assert (mk_deals m !! id = Some d) as Hd by (apply Hin; by left).
  set (c := mor (check_missed_proofs now digest d epoch) (fun _ => mret d)).
  assert (frames deal_parts c) as Hk by (apply frames_or; [apply frames_missed|intros; apply frames_ret]).
  assert (forall d' m1, c m = (Ok d', m1) -> same_terms d d' /\ rtc deal_step (dl_status d) (dl_status d')) as Hc.
  { intros d' m1. unfold c, mor. destruct (check_missed_proofs now digest d epoch m) as [[d2|e|] m2] eqn:E; [|intros [= <- _]; by split|done].
    intros [= <- _]. apply missed_result in E as [->|[-> Hs]]; [by split|]. split; [done|by apply rtc_once]. }
  specialize (Hk m). rewrite bind_eq. destruct (c m) as [[d'|e|] m1] eqn:Ec; cbn in Hk |- *; cycle 1.
  1,2: apply same_parts_ok; [done|exact Hk].
  destruct (Hc d' m1 eq_refl) as [Ht Hr]. set (m2 := put_deals (insert id d') m1).
  assert (market_ok m2 /\ advances m m2 /\ mk_jitca m2 = mk_jitca m) as (Hok2 & Hadv & Hj2).
  { injection Hk as Hj Hm. assert (mk_jitca m2 = mk_jitca m) as E by done. split_and!; [| |done].
    - destruct Hok as (Hok & Hn & Hids). unfold market_ok. rewrite E. split_and!; [done|done|]. cbn. rewrite Hm.
      intros id0 d0 [[<- <-]|[_ H0]]%lookup_insert_Some; [|by apply Hids]. destruct (Hids id d Hd) as [<- ?]. split; [apply Ht|done].
    - intros id0 d0 H0. cbn. rewrite ?Hm. destruct (advances_put m id d d' Hd Ht Hr id0 d0 H0) as (d1 & ? & ?). by exists d1. }
  destruct (IH m2 Hnd) as (Hok' & Hadv' & Hj'); [|done|].
  { intros id0 d0 H0. cbn. injection Hk as _ ->. rewrite lookup_insert_ne; [by apply Hin'|]. intros <-. apply Hni.
    apply list_elem_of_fmap. by exists (id, d0). }
  rewrite (M_bind_Ok _ _ m1 tt m2), bind_eq by done.
  destruct (check_deals now digest epoch l m2) as [[rest|e|] m3]; cbn in *; (split; [done|]; split; [by etransitivity|congruence]).
Qed.

Inductive market_op :=
  | OpEpoch
  | OpPublish (now : Z) (i : StorageDealIntent)
  | OpAccept (now : Z) (a : ProviderAcceptance)
  | OpIntentFinality (now : Z) (id : Hash) (f : FinalityStatus) (epoch : Z)
  | OpAcceptanceFinality (now : Z) (id : Hash) (f : FinalityStatus) (epoch : Z)
  | OpCleanup (now : Z)
  | OpCompile (now : Z) (intent_id acceptance_id : Hash)
  | OpActivate (id : Z) (activation : DealActivation)
  | OpProof (now : Z) (sp : StorageProof)
  | OpDeadlines (now : Z)
  | OpComplete (now : Z) (id : Z).

(** The state an operation leaves, whether it succeeds or not. *)
Definition market_step m (op : market_op) : Market St :=
  match op with
  | OpEpoch => (advance_epoch m).2
  | OpPublish now i => (market_publish_intent now i m).2
  | OpAccept now a => (market_submit_acceptance now a m).2
  | OpIntentFinality now id f epoch => (update_intent_finality now id f epoch m).2
  | OpAcceptanceFinality now id f epoch => (update_acceptance_finality now id f epoch m).2
  | OpCleanup now => (cleanup_expired_intents now intents_iter m).2
  | OpCompile now iid aid => (compile_deal now iid aid m).2
  | OpActivate id activation => (activate_deal deals_iter id activation m).2
  | OpProof now sp => (market_submit_proof now blake3 deterministic sp m).2
  | OpDeadlines now => (check_proof_deadlines now digest market_iter m).2
  | OpComplete now id => (complete_deal now id m).2
  end.
Definition market_run m (ops : list market_op) : Market St := foldl market_step m ops.

Context (market_iter_perm : forall g, market_iter g ≡ₚ map_to_list g).

Lemma good_deadlines now m : good_step m (check_proof_deadlines now digest market_iter m).2.
Proof.
  intros Hok _. unfold check_proof_deadlines. rewrite (M_bind_Ok _ _ m m m) by done.
  destruct (good_check now (mk_epoch m) (market_iter (mk_deals m)) m) as (Hok' & Hadv & Hj); [| |done|].
  - rewrite market_iter_perm. apply NoDup_fst_map_to_list.
  - intros id d. rewrite market_iter_perm. apply elem_of_map_to_list.
  - rewrite Hj. split; [done|]. split; [done|lia].
Qed.

Lemma market_step_good m op : good_step m (market_step m op).
Proof.
  destruct op; cbn [market_step]; [apply good_parts; done| | | | | |by apply good_compile|by apply good_activate| |by apply good_deadlines|by apply good_complete];
    apply good_frames.
  - apply frames_publish.
  - apply frames_accept.
  - apply frames_intent_finality.
  - apply frames_acceptance_finality.
  - unfold cleanup_expired_intents. solve_frames.
  - apply frames_submit_proof.
Qed.

Lemma market_run_good ops m :
  market_ok m -> jc_next_deal_id (mk_jitca m) + Z.of_nat (length ops) <= u64_max ->
  market_ok (market_run m ops) /\ advances m (market_run m ops).
Proof.
  unfold market_run. revert m. induction ops as [|op ops IH]; intros m Hok Hlt; [by split|]. cbn [foldl length] in *.
  destruct (market_step_good m op Hok ltac:(lia)) as (Hok1 & Hadv1 & Hn). destruct (IH (market_step m op) Hok1 ltac:(lia)) as [Hok2 Hadv2].
  split; [done|]. by etransitivity.
Qed.

Lemma terminal_deal_stays a b : deal_is_terminal a = true -> rtc deal_step a b -> b = a.
Proof.
  intros Ht Hr. inversion Hr as [|? c ? Hs _]; [done|]. subst. pose proof (proj1 (deal_terminal_iff a) Ht c) as Hc. unfold deal_step in Hs. congruence.
Qed.

(** C18: However the operations of the market follow one another, every deal is kept under its own number
    with its parties, amounts and duration, its status moves only along the allowed transitions,
    and a completed, failed or terminated deal stays as it is. *)
Theorem deals_advance ops m id d :
  market_ok m -> jc_next_deal_id (mk_jitca m) + Z.of_nat (length ops) <= u64_max -> mk_deals m !! id = Some d ->
  market_ok (market_run m ops) /\
  exists d', mk_deals (market_run m ops) !! id = Some d' /\ dl_id d' = id /\ same_terms d d' /\
    rtc deal_step (dl_status d) (dl_status d') /\ (deal_is_terminal (dl_status d) = true -> dl_status d' = dl_status d).
Proof.
  intros Hok Hlt Hd. destruct (market_run_good ops m Hok Hlt) as [Hok' Hadv]. split; [done|]. destruct (Hadv id d Hd) as (d' & Hd' & Ht & Hr).
  exists d'. split; [done|]. split; [by apply Hok'|]. split; [done|]. split; [done|]. intros Hterm. by apply terminal_deal_stays.
Qed.
End facts.

(** ** Examples *)

(** A market in which bob holds the deal of [MarketTypes] for alice, waiting for activation. *)
Definition pending_deal : StorageDeal :=
  mkDeal (protocol_new 0) 1 [1] [2] alice bob [9] 10000 100 10 500 1000 None None 50 PendingActivation Pending None.
Definition pending_market : Market MemoryStorage :=
  put_deals (insert 1 pending_deal) (put_jitca (fun j => mkJitca (jc_config j) {[ [1] := pending_deal ]} 2) challenged_market).

Definition demo_activation : DealActivation := mkActivation (protocol_new 0) 1 bob demo_root 4 0 final_f1 (Some 0).

Lemma pending_market_ok : market_ok pending_market.
Proof.
  split; [split|split; [done|]].
  - intros k d H. cbn in H. apply lookup_singleton_Some in H as [<- <-]. done.
  - intros k k' d d' H H' _. cbn in H, H'. apply lookup_singleton_Some in H as [<- _]. by apply lookup_singleton_Some in H' as [<- _].
  - intros id d H. cbn in H. apply lookup_insert_Some in H as [[<- <-]|[_ H]]; [done|]. by rewrite lookup_empty in H.
Qed.

Lemma deals_advance_witness :
  exists d', mk_deals (market_run no_digest sum_hash true map_to_list map_to_list map_to_list pending_market
      [OpActivate 1 demo_activation; OpEpoch; OpComplete 5 1]) !! 1 = Some d' /\
    dl_status d' = Active /\ dl_client_payment_escrow d' = 1000.
Proof.
  destruct (deals_advance no_digest sum_hash true map_to_list map_to_list map_to_list (fun _ => Permutation_refl _) (fun _ => Permutation_refl _)
    [OpActivate 1 demo_activation; OpEpoch; OpComplete 5 1] pending_market 1 pending_deal pending_market_ok
    ltac:(vm_compute; discriminate) eq_refl) as (_ & d' & Hd & _ & Ht & _ & _).
  exists d'. split; [exact Hd|]. split; [|exact (proj1 (proj2 (proj2 (proj2 Ht))))]. vm_compute in Hd. by injection Hd as <-.
Defined.

(** ** Flaws the model shows *)

(** A deal that was never activated can be completed: each call pays the whole escrow and the
    collateral and then refuses the transition. *)
Theorem completing_mints_tokens :
  let again m := (complete_deal 5 1 m).2 in
  (complete_deal 5 1 pending_market).1 = Err (InvalidStateTransition PendingActivation) /\
  mbal pending_market bob = 0 /\ mbal (again pending_market) bob = 1500 /\ mbal (again (again (again pending_market))) bob = 4500.
Proof. repeat split; vm_compute; reflexivity. Qed.
