(* ===== verification/Mrw.v ===== *)
(** * Parent selection

    [adic-mrw/src/]: the weights of the tips ([weights.rs]), the selection of [d + 1] parents among
    them ([selector.rs]) with its trace ([trace.rs]), and the engine that builds the candidates from
    the DAG, the reputations and the conflict energies ([lib.rs]); and [proximity_score] of
    [adic-math/src/distance.rs].

    The random numbers are a parameter: [draw attempt axis i] is the number drawn for the [i]-th tip
    on an axis in an attempt.  So are [exp], [powf], the clock ([stamp n] is the time in
    milliseconds at which the [n]-th step of a trace is recorded), and the orders in which hash maps
    are visited.  The positions of candidates are at most the horizon and fit an [i32]. *)

From stdpp Require Import pretty.
From S2P Require Import Prelude F64 Padic Message EconStorage Dag Reputation Admissibility Validation Energy Consensus ParamStore.

(** ** Proximity *)

Definition proximity_score {E} (x y : QpDigits) (radius : Z) : result E f64 :=
  if radius =? 0 then Ok f64_zero
  else match vp_diff x y with
       | Ok valuation => Ok (f64_div (f64_of_Z (Z.min valuation radius)) (f64_of_Z radius))
       | Err e => match e with end
       | Panic => Panic
       end.

(** ** Weights *)

Record MrwWeights := mkWeights { mw_proximity : f64; mw_trust : f64; mw_conflict_penalty : f64; mw_total : f64 }.
Record WeightCalculator := mkCalc { wc_lambda : f64; wc_alpha : f64; wc_beta : f64; wc_mu : f64 }.
Definition one : f64 := f64_of_Z 1.

Definition weights_new (proximity trust conflict_penalty : f64) : MrwWeights :=
  mkWeights proximity trust conflict_penalty (f64_mul (f64_mul proximity trust) (f64_sub one conflict_penalty)).
Definition calc_new (lambda beta mu : f64) : WeightCalculator := mkCalc lambda one beta mu.
Definition calc_new_with_alpha (lambda alpha beta mu : f64) : WeightCalculator := mkCalc lambda alpha beta mu.

Section weights.
Context (exp : f64 -> f64) (powf : f64 -> f64 -> f64).

Definition compute_trust (c : WeightCalculator) (reputation : f64) : f64 := powf reputation (wc_alpha c).
Definition compute_trust_with_age (c : WeightCalculator) (reputation age : f64) : f64 :=
  f64_mul (powf reputation (wc_alpha c)) (powf (f64_add one age) (f64_neg (wc_beta c))).
Definition compute_weight (c : WeightCalculator) (proximity reputation conflict_penalty age : f64) : f64 :=
  let trust := compute_trust_with_age c reputation age in
  exp (f64_sub (f64_mul (f64_mul (wc_lambda c) proximity) trust) (f64_mul (wc_mu c) conflict_penalty)).
Definition compute_detailed_weights (c : WeightCalculator) (proximity reputation conflict_penalty : f64) : MrwWeights :=
  let trust := compute_trust c reputation in
  let combined_weight := exp (f64_mul (f64_mul (wc_lambda c) proximity) trust) in
  let penalty_weight := exp (f64_mul (f64_neg (wc_mu c)) conflict_penalty) in
  mkWeights proximity trust penalty_weight (f64_mul combined_weight penalty_weight).
End weights.
Definition compute_transition_probability (candidate_weight total_weight : f64) : f64 :=
  if f64_gtb total_weight f64_zero then f64_div candidate_weight total_weight else f64_zero.
Definition normalize_weights (weights : list f64) : list f64 :=
  let sum := foldl f64_add f64_zero weights in
  if f64_gtb sum f64_zero then (fun w => f64_div w sum) <$> weights else weights.

(** ** Traces *)

Inductive StepType := AxisCandidates | Widening | Sampling | Validation | Success | Failure.
Record SelectionStep := mkStep { step_type : StepType; step_timestamp : Z; step_details : gmap string string }.
Record MrwTrace := mkTrace {
  tr_steps : list SelectionStep;
  tr_selected_parents : list MessageId;
  tr_success : bool;
  tr_total_candidates_considered : Z;
  tr_widen_count : Z;
  tr_final_horizon : Z;
}.
Definition trace_new : MrwTrace := mkTrace [] [] false 0 0 0.

Section traces.
Context (stamp : nat -> Z).

Definition add_step (ty : StepType) (details : list (string * string)) (t : MrwTrace) : list SelectionStep :=
  tr_steps t ++ [mkStep ty (stamp (length (tr_steps t))) (list_to_map details)].
Definition record_axis_candidates (ax : Z) (count : nat) (t : MrwTrace) : MrwTrace :=
  mkTrace (add_step AxisCandidates [("axis", pretty ax); ("candidates", pretty count)] t) (tr_selected_parents t) (tr_success t)
    (to_u64 (tr_total_candidates_considered t + Z.of_nat count)) (tr_widen_count t) (tr_final_horizon t).
Definition record_widen (new_horizon : Z) (t : MrwTrace) : MrwTrace :=
  let widen_count := to_u32 (tr_widen_count t + 1) in
  mkTrace (add_step Widening [("new_horizon", pretty new_horizon); ("widen_count", pretty widen_count)] t) (tr_selected_parents t) (tr_success t)
    (tr_total_candidates_considered t) widen_count new_horizon.
Definition record_sampling (sampled from_pool : nat) (t : MrwTrace) : MrwTrace :=
  mkTrace (add_step Sampling [("sampled", pretty sampled); ("pool_size", pretty from_pool)] t) (tr_selected_parents t) (tr_success t)
    (tr_total_candidates_considered t) (tr_widen_count t) (tr_final_horizon t).
Definition record_validation (passed : bool) (reason : string) (t : MrwTrace) : MrwTrace :=
  mkTrace (add_step Validation [("passed", if passed then "true" else "false"); ("reason", reason)] t) (tr_selected_parents t) (tr_success t)
    (tr_total_candidates_considered t) (tr_widen_count t) (tr_final_horizon t).
Definition record_success (parents : list MessageId) (t : MrwTrace) : MrwTrace :=
  mkTrace (add_step Success [("parent_count", pretty (length parents))] t) parents true
    (tr_total_candidates_considered t) (tr_widen_count t) (tr_final_horizon t).
Definition record_failure (reason : string) (t : MrwTrace) : MrwTrace :=
  mkTrace (add_step Failure [("reason", reason)] t) (tr_selected_parents t) false
    (tr_total_candidates_considered t) (tr_widen_count t) (tr_final_horizon t).
End traces.
Definition duration_ms (t : MrwTrace) : option Z :=
  match tr_steps t with
  | first :: _ :: _ => (fun s => step_timestamp s - step_timestamp first) <$> last (tr_steps t)
  | _ => None
  end.
Definition step_count (t : MrwTrace) : nat := length (tr_steps t).

(** ** Selection *)

Record ParentCandidate := mkCandidate {
  pc_message_id : MessageId;
  pc_features : list QpDigits;
  pc_reputation : f64;
  pc_conflict_penalty : f64;
  pc_weight : f64;
  pc_axis_weights : gmap Z f64;
  pc_age : f64;
}.
Definition with_weight (w : f64) (c : ParentCandidate) : ParentCandidate :=
  mkCandidate (pc_message_id c) (pc_features c) (pc_reputation c) (pc_conflict_penalty c) w (pc_axis_weights c) (pc_age c).
Definition with_axis_weight (ax : Z) (w : f64) (c : ParentCandidate) : ParentCandidate :=
  mkCandidate (pc_message_id c) (pc_features c) (pc_reputation c) (pc_conflict_penalty c) (pc_weight c) (<[ax := w]> (pc_axis_weights c)) (pc_age c).

Record SelectionParams := mkSelection { sl_d : Z; sl_q : Z; sl_rho : list Z; sl_max_horizon : Z; sl_widen_factor : f64 }.
Definition from_adic_params (params : AdicParams) : SelectionParams := mkSelection (pr_d params) (pr_q params) (pr_rho params) 100 (f64_lit 3 2).
Definition MAX_ATTEMPTS : nat := 10.

Inductive MrwError := NoTips | MissingAxis (ax : Z) | NotEnoughCandidates (got required : nat) | NoValidCandidates (tips : nat).

Section selector.
Context (exp : f64 -> f64) (powf : f64 -> f64 -> f64) (stamp : nat -> Z).
Context (draw : nat -> Z -> nat -> f64).
Context (axis_iter : gmap Z (list ParentCandidate) -> list (Z * list ParentCandidate)).
Context (merged_iter : gmap MessageId ParentCandidate -> list (MessageId * ParentCandidate)).
Context (params : SelectionParams) (calc : WeightCalculator).
Abbreviation SM := (M MrwTrace MrwError).

Definition required_parents : nat := Z.to_nat (to_u32 (sl_d params + 1)).

(** The sort unwraps [partial_cmp], which is [None] on a [NaN]. *)
Definition sort_by_weight (l : list ParentCandidate) : result MrwError (list ParentCandidate) :=
  if (2 <=? length l)%nat && existsb (fun c => is_nan (pc_weight c)) l then Panic
  else Ok (isort (fun a b => f64_geb (pc_weight a) (pc_weight b)) l).
Definition tip_weight (msg_axis tip_phi : QpDigits) (radius : Z) (tip : ParentCandidate) : result MrwError f64 :=
  let? proximity := proximity_score msg_axis tip_phi radius in
  Ok (compute_weight exp powf calc proximity (pc_reputation tip) (pc_conflict_penalty tip) (pc_age tip)).

(** One axis: the tips with their positions. *)
Fixpoint axis_pass (attempt : nat) (axis_idx : Z) (msg_axis : AxisPhi) (tips : list (nat * ParentCandidate)) : result MrwError (list ParentCandidate) :=
  match tips with
  | [] => Ok []
  | (i, tip) :: tips =>
      match pc_features tip !! Z.to_nat axis_idx with
      | None => axis_pass attempt axis_idx msg_axis tips
      | Some tip_phi =>
          match sl_rho params !! Z.to_nat axis_idx with
          | None => Panic
          | Some radius =>
              let? weight := tip_weight (qp_digits msg_axis) tip_phi radius tip in
              let? candidates := axis_pass attempt axis_idx msg_axis tips in
              Ok (if f64_ltb (draw attempt axis_idx i) (f64_div weight (f64_add weight one)) then with_weight weight tip :: candidates else candidates)
          end
      end
  end.
Fixpoint axes_loop (attempt : nat) (message_features : AdicFeatures) (tips : list (nat * ParentCandidate)) (axes : list Z)
    (axis_candidates : gmap Z (list ParentCandidate)) : SM (gmap Z (list ParentCandidate)) :=
  match axes with
  | [] => mret axis_candidates
  | axis_idx :: axes =>
      msg_axis ← mopt (AdicFeatures_get_axis message_features axis_idx) (MissingAxis axis_idx);
      candidates ← mresult (axis_pass attempt axis_idx msg_axis tips);
      mwrite (record_axis_candidates stamp axis_idx (length candidates));;
      axes_loop attempt message_features tips axes (<[axis_idx := candidates]> axis_candidates)
  end.

Definition merge_candidate (axis_id : Z) (merged : gmap MessageId ParentCandidate) (c : ParentCandidate) : gmap MessageId ParentCandidate :=
  match merged !! pc_message_id c with
  | Some m => <[pc_message_id c := with_axis_weight axis_id (pc_weight c) (with_weight (f64_add (pc_weight m) (pc_weight c)) m)]> merged
  | None => <[pc_message_id c := with_axis_weight axis_id (pc_weight c) c]> merged
  end.
Definition merge_axis_candidates (axis_candidates : gmap Z (list ParentCandidate)) : result MrwError (list ParentCandidate) :=
  let merged := foldl (fun merged ac => foldl (merge_candidate ac.1) merged ac.2) ∅ (axis_iter axis_candidates) in
  sort_by_weight (merged_iter merged).*2.

Definition enumerate {A} (l : list A) : list (nat * A) := zip (seq 0 (length l)) l.
Definition run_mrw_per_axis (attempt : nat) (message_features : AdicFeatures) (tips : list ParentCandidate) (horizon : Z) : SM (list ParentCandidate) :=
  axis_candidates ← axes_loop attempt message_features (enumerate (take (Z.to_nat horizon) tips)) (seqZ 0 (sl_d params)) ∅;
  mresult (merge_axis_candidates axis_candidates).

Definition current_balls (axis_idx : nat) (radius : Z) (selected : list ParentCandidate) : gset (list Z) :=
  list_to_set (omap (fun p => (fun f => ball_id f (Z.to_nat radius)) <$> pc_features p !! axis_idx) selected).
Definition axis_bonus (selected : list ParentCandidate) (c : ParentCandidate) (bonus : f64) (axis : nat * Z) : f64 :=
  let balls := current_balls axis.1 axis.2 selected in
  if to_u32 (Z.of_nat (size balls)) <? sl_q params then
    match pc_features c !! axis.1 with
    | Some f => if bool_decide (ball_id f (Z.to_nat axis.2) ∈ balls) then bonus else f64_add bonus one
    | None => bonus
    end
  else bonus.
Definition diversity_bonus (selected : list ParentCandidate) (c : ParentCandidate) : f64 :=
  foldl (axis_bonus selected c) f64_zero (enumerate (sl_rho params)).
Definition candidate_score (selected : list ParentCandidate) (c : ParentCandidate) : f64 := f64_add (pc_weight c) (diversity_bonus selected c).
Definition best_step (selected : list ParentCandidate) (best : option nat * f64) (ic : nat * ParentCandidate) : option nat * f64 :=
  let score := candidate_score selected ic.2 in
  if f64_gtb score best.2 then (Some ic.1, score) else best.
Definition best_candidate (selected available : list ParentCandidate) : option nat :=
  (foldl (best_step selected) (None, f64_of_Z (-1)) (enumerate available)).1.

(** The index found is one of [available] ([best_candidate_spec]). *)
Fixpoint pick_loop (n : nat) (selected available : list ParentCandidate) : list ParentCandidate :=
  match n with
  | O => selected
  | S n =>
      match best_candidate selected available with
      | Some i =>
          match available !! i with
          | Some best => pick_loop n (selected ++ [best]) (delete i available)
          | None => selected
          end
      | None => selected
      end
  end.
Definition sample_diverse_parents (candidates : list ParentCandidate) : result MrwError (list ParentCandidate) :=
  if (length candidates <? required_parents)%nat then Err (NotEnoughCandidates (length candidates) required_parents)
  else
    let selected := pick_loop required_parents [] candidates in
    if (length selected <? required_parents)%nat then Err (NotEnoughCandidates (length selected) required_parents) else Ok selected.

(** [while selected.len() < required], which repeats the tips when they are too few. *)
Definition repeat_tips (tips : list ParentCandidate) (required : nat) : list ParentCandidate :=
  omap (fun idx => tips !! (idx mod length tips)%nat) (seq 0 required).
Definition select_bootstrap_parents (tips : list ParentCandidate) : result MrwError (list ParentCandidate) :=
  if bool_decide (tips = []) then Err NoTips else Ok (repeat_tips tips required_parents).

Fixpoint total_weight (tip : ParentCandidate) (message_axes : list (nat * AxisPhi)) (total : f64) : result MrwError f64 :=
  match message_axes with
  | [] => Ok total
  | (axis_idx, msg_axis) :: message_axes =>
      match pc_features tip !! axis_idx with
      | Some tip_phi =>
          let? weight := tip_weight (qp_digits msg_axis) tip_phi (default 2 (sl_rho params !! axis_idx)) tip in
          total_weight tip message_axes (f64_add total weight)
      | None => total_weight tip message_axes total
      end
  end.
Fixpoint weigh_tips (message_features : AdicFeatures) (tips : list ParentCandidate) : result MrwError (list ParentCandidate) :=
  match tips with
  | [] => Ok []
  | tip :: tips =>
      let? w := total_weight tip (enumerate (phi message_features)) f64_zero in
      let? weighted := weigh_tips message_features tips in
      Ok (with_weight w tip :: weighted)
  end.
Definition select_best_available (tips : list ParentCandidate) (message_features : AdicFeatures) : result MrwError (list ParentCandidate) :=
  if bool_decide (tips = []) then Err NoTips
  else
    let? weighted_tips := weigh_tips message_features tips in
    let? weighted_tips := sort_by_weight weighted_tips in
    Ok (repeat_tips weighted_tips required_parents).

Definition report (selected : list ParentCandidate) : SM (list MessageId) :=
  mwrite (record_success stamp (pc_message_id <$> selected));;
  mret (pc_message_id <$> selected).
Definition widen (horizon : Z) : Z := f64_to_u64 (f64_mul (f64_of_Z horizon) (sl_widen_factor params)).
Fixpoint attempt_loop (fuel attempt : nat) (message_features : AdicFeatures) (tips : list ParentCandidate) (horizon : Z) : SM (list MessageId) :=
  let fall_back := selected ← mresult (select_best_available tips message_features); report selected in
  match fuel with
  | O => fall_back
  | S fuel =>
      candidates ← run_mrw_per_axis attempt message_features tips horizon;
      match sample_diverse_parents candidates with
      | Ok selected => report selected
      | _ =>
          mwrite (record_widen stamp (widen horizon));;
          if sl_max_horizon params <? widen horizon then fall_back
          else attempt_loop fuel (S attempt) message_features tips (widen horizon)
      end
  end.

Definition select_parents (message_features : AdicFeatures) (tips : list ParentCandidate) : SM (list MessageId) :=
  if (length tips <=? required_parents)%nat then
    selected ← mresult (select_bootstrap_parents tips);
    report selected
  else attempt_loop MAX_ATTEMPTS 0 message_features tips (Z.of_nat required_parents * 2).
End selector.

(** ** The engine *)

Record MrwEngine := mkMrw {
  mr_params : AdicParams;
  mr_selector : SelectionParams;
  mr_weight_calc : WeightCalculator;
  mr_traces : gmap string MrwTrace;
}.
Definition calc_of (params : AdicParams) : WeightCalculator :=
  calc_new_with_alpha (pr_lambda params) (pr_alpha params) (pr_beta params) (pr_mu params).
Definition mrw_new (params : AdicParams) : MrwEngine := mkMrw params (from_adic_params params) (calc_of params) ∅.
Definition mrw_update_params (new_params : AdicParams) (e : MrwEngine) : MrwEngine :=
  mkMrw new_params (from_adic_params new_params) (calc_of new_params) (mr_traces e).

Definition min_key (ks : list string) : option string :=
  match ks with
  | [] => None
  | k :: ks => Some (foldl (fun a b => if String.leb a b then a else b) k ks)
  end.
Definition put_trace (trace_id : string) (trace : MrwTrace) (traces : gmap string MrwTrace) : gmap string MrwTrace :=
  let traces := <[trace_id := trace]> traces in
  if (100 <? size traces)%nat then
    match min_key (map_to_list traces).*1 with Some k => delete k traces | None => traces end
  else traces.
Definition store_trace (trace_id : string) (trace : MrwTrace) (e : MrwEngine) : MrwEngine :=
  mkMrw (mr_params e) (mr_selector e) (mr_weight_calc e) (put_trace trace_id trace (mr_traces e)).

Section engine.
Context {St : Type}.
Context (exp : f64 -> f64) (powf : f64 -> f64 -> f64) (stamp : nat -> Z) (now trace_millis : Z).
Context (draw : nat -> Z -> nat -> f64).
Context (axis_iter : gmap Z (list ParentCandidate) -> list (Z * list ParentCandidate)).
Context (merged_iter : gmap MessageId ParentCandidate -> list (MessageId * ParentCandidate)).
Context (support_iter : gmap MessageId f64 -> list (MessageId * f64)).
Context (storage : MemoryBackend) (consensus : ConsensusEngine St).
Abbreviation EM := (M MrwEngine MrwError).

(** The penalty of a message without a conflict is not looked up. *)
Definition conflict_penalty_of (tip_id : MessageId) (cid : ConflictId) : result MrwError f64 :=
  if bool_decide (cid = ConflictId_none) then Ok f64_zero
  else match get_conflict_penalty support_iter (ce_energy consensus) tip_id cid with
       | Ok p => Ok p
       | Err e => match e with end
       | Panic => Panic
       end.
Definition candidate_of (tip_id : MessageId) (tip_msg : AdicMessage) : result MrwError ParentCandidate :=
  let? conflict_penalty := conflict_penalty_of tip_id (conflict (meta tip_msg)) in
  Ok (mkCandidate tip_id (qp_digits <$> phi (features tip_msg)) (get_reputation (ce_reputation consensus) (proposer_pk tip_msg))
        conflict_penalty f64_zero ∅ (f64_of_Z (now - timestamp (meta tip_msg)))).
(** Tips that are not stored are logged and skipped. *)
Fixpoint build_candidates (tips : list MessageId) : result MrwError (list ParentCandidate) :=
  match tips with
  | [] => Ok []
  | tip_id :: tips =>
      match mb_messages storage !! tip_id with
      | Some tip_msg =>
          let? c := candidate_of tip_id tip_msg in
          let? candidates := build_candidates tips in
          Ok (c :: candidates)
      | None => build_candidates tips
      end
  end.

Definition engine_select_parents (message_features : AdicFeatures) (tips : list MessageId) : EM (list MessageId) :=
  candidates ← mresult (build_candidates tips);
  if bool_decide (candidates = []) then
    if bool_decide (tips = []) then mret [] else mfail (NoValidCandidates (length tips))
  else
    e ← mread (fun e => e);
    let (r, trace) := select_parents exp powf stamp draw axis_iter merged_iter (mr_selector e) (mr_weight_calc e) message_features candidates trace_new in
    selected ← mresult r;
    mwrite (store_trace ("mrw_" +:+ pretty trace_millis) trace);;
    mret selected.
End engine.

Definition get_trace (e : MrwEngine) (trace_id : string) : option MrwTrace := mr_traces e !! trace_id.
Definition get_trace_ids (e : MrwEngine) : list string := reverse (isort String.leb (map_to_list (mr_traces e)).*1).
Definition get_recent_traces (e : MrwEngine) (limit : nat) : list (string * MrwTrace) :=
  take limit (reverse (isort (fun a b => String.leb a.1 b.1) (map_to_list (mr_traces e)))).

(** ** The selector of the storage market

    [adic-storage-market/src/mrw.rs]; features are three integers, and messages have four parents. *)

Section storage_selector.
Context {St : Type}.
Context (exp : f64 -> f64) (powf : f64 -> f64 -> f64) (stamp : nat -> Z) (now trace_millis : Z).
Context (draw : nat -> Z -> nat -> f64).
Context (axis_iter : gmap Z (list ParentCandidate) -> list (Z * list ParentCandidate)).
Context (merged_iter : gmap MessageId ParentCandidate -> list (MessageId * ParentCandidate)).
Context (support_iter : gmap MessageId f64 -> list (MessageId * f64)).
Context (storage : MemoryBackend) (consensus : ConsensusEngine St).

Inductive SelectorError := SelectionFailed (e : MrwError) | WrongParents (got : nat) | ZeroParent | FewParents.

Fixpoint feature_axes (a : Z) (features : list Z) : result Empty_set (list AxisPhi) :=
  match features with
  | [] => Ok []
  | f :: features =>
      let? x := QpDigits_from_u64 f 3 10 in
      let? rest := feature_axes (a + 1) features in
      Ok (AxisPhi_new a x :: rest)
  end.
Definition to_adic_features {E} (features : Z * Z * Z) : result E AdicFeatures :=
  let '(f0, f1, f2) := features in
  match feature_axes 0 [f0; f1; f2] with
  | Ok l => Ok (mkAdicFeatures l)
  | Err e => match e with end
  | Panic => Panic
  end.
Definition storage_select_parents (message_features : Z * Z * Z) (tips : list MessageId) : M MrwEngine SelectorError (list MessageId) :=
  features ← mresult (to_adic_features message_features);
  selected ← mmap_err SelectionFailed
    (engine_select_parents exp powf stamp now trace_millis draw axis_iter merged_iter support_iter storage consensus features tips);
  mbail (negb (length selected =? 4)%nat) (WrongParents (length selected));;
  mret selected.
Definition select_parents_biased (message_features : Z * Z * Z) (tips : list MessageId) (bias_toward : MessageId) : M MrwEngine SelectorError (list MessageId) :=
  parents ← storage_select_parents message_features tips;
  mret (if bool_decide (bias_toward ∈ parents) then parents else <[0%nat := bias_toward]> parents).
Definition validate_admissibility (parents : list MessageId) : result SelectorError unit :=
  if existsb (fun p => bool_decide (p = replicate 32 0)) parents then Err ZeroParent
  else if (size (list_to_set parents : gset MessageId) <? 3)%nat then Err FewParents
  else Ok tt.
End storage_selector.

(** [timestamp / BUCKET_SIZE] truncates towards zero. *)
Definition encode_time (timestamp : Z) : Z := to_u64 (Z.quot timestamp 600).
Definition encode_topic (data_cid : Bytes) : Z := from_le_bytes (take 8 data_cid).
Definition encode_intent (timestamp : Z) (data_cid : Bytes) (client_region : Z) : Z * Z * Z :=
  (encode_time timestamp, encode_topic data_cid, client_region).
Definition encode_acceptance (timestamp : Z) (data_cid : Bytes) (provider_region : Z) : Z * Z * Z :=
  (encode_time timestamp, encode_topic data_cid, provider_region).
Definition encode_deal (timestamp : Z) (data_cid : Bytes) (provider_region : Z) : Z * Z * Z :=
  (encode_time timestamp, encode_topic data_cid, provider_region).

(** ** Facts *)

Section facts.
Context (exp : f64 -> f64) (powf : f64 -> f64 -> f64) (stamp : nat -> Z).
Context (draw : nat -> Z -> nat -> f64).
Context (axis_iter : gmap Z (list ParentCandidate) -> list (Z * list ParentCandidate)).
Context (merged_iter : gmap MessageId ParentCandidate -> list (MessageId * ParentCandidate)).
Context (axis_perm : forall g, axis_iter g ≡ₚ map_to_list g) (merged_perm : forall g, merged_iter g ≡ₚ map_to_list g).
Context (params : SelectionParams) (calc : WeightCalculator).
Notation tip_weight := (tip_weight exp powf calc).
Notation required := (required_parents params).
Notation score := (candidate_score params).

(** A number that is neither negative nor a [NaN]. *)
Definition good (x : f64) : Prop := is_nan x = false /\ f64_sign x = false.
Definition weighted (c : ParentCandidate) : Prop := good (pc_weight c).

Lemma good_add x y : good x -> good y -> good (f64_add x y).
Proof. intros [] []. by apply f64_add_nonneg. Qed.
Lemma good_zero : good f64_zero.
Proof. done. Qed.
Lemma good_one : good one.
Proof. by vm_compute. Qed.

Lemma bonus_good selected c : good (diversity_bonus params selected c).
Proof.
  unfold diversity_bonus. generalize (enumerate (sl_rho params)). assert (good f64_zero) as Hz by done. revert Hz. generalize f64_zero.
  intros x Hx l. revert x Hx. induction l as [|a l IH]; intros x Hx; [done|]. apply IH. unfold axis_bonus.
  destruct (_ <? _); [|done]. destruct (_ !! _); [|done]. destruct (bool_decide _); [done|]. by apply good_add; [|apply good_one].
Qed.
Lemma score_good selected c : weighted c -> good (score selected c).
Proof. intros H. by apply good_add, bonus_good. Qed.

(** *** The best candidate *)

Lemma enumerate_lookup {A} (l : list A) i x : (i, x) ∈ enumerate l <-> l !! i = Some x.
Proof.
  unfold enumerate. rewrite list_elem_of_lookup. split.
  - intros [k H]. apply lookup_zip_Some in H as [H1 H2]. apply lookup_seq in H1 as [-> _]. done.
  - intros H. exists i. apply lookup_zip_Some. split; [|done]. apply lookup_seq. split; [done|]. by apply lookup_lt_Some in H.
Qed.

(** The scan keeps the first of the highest scores. *)
Lemma best_scan selected l best :
  is_nan best.2 = false -> (forall i c, (i, c) ∈ l -> is_nan (score selected c) = false) ->
  let best' := foldl (best_step params selected) best l in
  is_nan best'.2 = false /\ f64_leb best.2 best'.2 = true /\
  (forall i c, (i, c) ∈ l -> f64_leb (score selected c) best'.2 = true) /\
  (best' = best \/ exists i c, (i, c) ∈ l /\ best' = (Some i, score selected c) /\ f64_ltb best.2 best'.2 = true).
Proof.
  revert best. induction l as [|[i c] l IH]; intros best Hb Hl; cbv zeta; cbn [foldl].
  { split_and!; [done|by apply f64_leb_refl|by intros ? ? ?%elem_of_nil|by left]. }
  assert (is_nan (score selected c) = false) as Hc by (apply (Hl i); by left).
  assert (forall i c, (i, c) ∈ l -> is_nan (score selected c) = false) as Hl' by (intros j d H; apply (Hl j); by right).
  change (best_step params selected best (i, c)) with (if f64_ltb best.2 (score selected c) then (Some i, score selected c) else best).
  destruct (f64_ltb best.2 (score selected c)) eqn:E.
  - destruct (IH (Some i, score selected c) Hc Hl') as (H1 & H2 & H3 & H4). cbn [snd] in *.
    assert (f64_ltb best.2 (foldl (best_step params selected) (Some i, score selected c) l).2 = true) as Hlt.
    { rewrite f64_ltb_leb in E |- * by done. apply negb_true_iff in E. apply negb_true_iff, not_true_is_false. intros E'.
      by rewrite (f64_leb_trans _ _ _ H1 H2 E') in E. }
    split_and!; [done|by apply f64_ltb_le| |].
    + intros j d [[= -> ->]|H]%elem_of_cons; [done|by apply (H3 j)].
    + right. destruct H4 as [H4|(j & d & Hin & H4 & _)]; [exists i, c; split; [by left|done]|exists j, d; split; [by right|done]].
  - destruct (IH best Hb Hl') as (H1 & H2 & H3 & H4). split_and!; [done..| |].
    + intros j d [[= -> ->]|H]%elem_of_cons; [|by apply (H3 j)]. rewrite f64_ltb_leb in E by done. apply negb_false_iff in E. by apply (f64_leb_trans _ _ _ Hb E H2).
    + destruct H4 as [H4|(j & d & Hin & H4)]; [by left|right]. exists j, d. split; [by right|done].
Qed.

Lemma best_candidate_spec selected available :
  Forall weighted available -> available <> [] ->
  exists i c, best_candidate params selected available = Some i /\ available !! i = Some c /\
    forall c', c' ∈ available -> f64_leb (score selected c') (score selected c) = true.
Proof.
  intros Hw Hne. unfold best_candidate.
  assert (forall i c, (i, c) ∈ enumerate available -> good (score selected c)) as Hg.
  { intros i c Hc%enumerate_lookup. apply score_good. by eapply Forall_lookup_1. }
  destruct (best_scan selected (enumerate available) (None, f64_of_Z (-1)) eq_refl) as (_ & Hle & Hmax & Hcase); [by intros i c H; apply (Hg i c H)|].
  destruct Hcase as [E|(i & c & Hin & E & _)]; rewrite E in *.
  - destruct available as [|c l]; [done|]. exfalso. assert ((0%nat, c) ∈ enumerate (c :: l)) as Hin by by apply enumerate_lookup.
    specialize (Hmax 0%nat c Hin). destruct (Hg 0%nat c Hin) as [Hn Hs].
    pose proof (f64_leb_trans _ _ _ Hn (f64_zero_le _ Hn Hs) Hmax) as H. vm_compute in H. discriminate.
  - exists i, c. split; [done|]. split; [by apply enumerate_lookup|]. intros c' [j Hj]%list_elem_of_lookup. apply (Hmax j). by apply enumerate_lookup.
Qed.

(** Each candidate picked has the highest score among those left. *)
Definition greedy (selected picked rest : list ParentCandidate) : Prop :=
  forall k c c', picked !! k = Some c -> c' ∈ drop k picked ++ rest ->
    f64_leb (score (selected ++ take k picked) c') (score (selected ++ take k picked) c) = true.

Lemma pick_loop_ok n selected available :
  Forall weighted available -> (n <= length available)%nat ->
  exists picked rest, pick_loop params n selected available = selected ++ picked /\ length picked = n /\
    available ≡ₚ picked ++ rest /\ greedy selected picked rest.
Proof.
  revert selected available. induction n as [|n IH]; intros selected available Hw Hn.
  { exists [], available. split; [by rewrite app_nil_r|]. split; [done|]. split; [done|]. intros k c c' Hk. by rewrite lookup_nil in Hk. }
  destruct (best_candidate_spec selected available Hw) as (i & c & Hi & Hc & Hbest); [by destruct available; [simpl in Hn; lia|]|].
  pose proof (delete_Permutation available i c Hc) as Hp. cbn [pick_loop]. rewrite Hi, Hc.
  destruct (IH (selected ++ [c]) (delete i available)) as (picked & rest & He & Hlen & Hperm & Hg).
  { rewrite Hp in Hw. by apply Forall_cons in Hw as [_ ?]. }
  { apply Permutation_length in Hp. simpl in Hp. lia. }
  exists (c :: picked), rest. rewrite He, <-app_assoc. split; [done|]. split; [simpl; lia|]. split; [by rewrite Hp, Hperm|].
  intros [|k] c1 c2; cbn [lookup list_lookup drop take].
  - intros [= <-] H. rewrite app_nil_r. apply Hbest. by rewrite Hp, Hperm.
  - intros Hk H. specialize (Hg k c1 c2 Hk H). by rewrite <-app_assoc in Hg.
Qed.

Lemma sample_ok candidates :
  Forall weighted candidates -> (required <= length candidates)%nat ->
  exists picked rest, sample_diverse_parents params candidates = Ok picked /\ length picked = required /\
    candidates ≡ₚ picked ++ rest /\ greedy [] picked rest.
Proof.
  intros Hw Hn. destruct (pick_loop_ok required [] candidates Hw Hn) as (picked & rest & He & Hlen & Hp & Hg).
  exists picked, rest. unfold sample_diverse_parents. rewrite He. simpl app.
  destruct (length candidates <? required)%nat eqn:E1; zbool; [lia|]. destruct (length picked <? required)%nat eqn:E2; zbool; [lia|]. done.
Qed.

(** *** The candidates of an attempt *)

Definition from_tips (tips : list ParentCandidate) (c : ParentCandidate) : Prop := weighted c /\ pc_message_id c ∈ pc_message_id <$> tips.
Definition weighable (message_features : AdicFeatures) (tips : list ParentCandidate) : Prop :=
  forall tip msg_axis a tip_phi radius, tip ∈ tips -> msg_axis ∈ phi message_features -> pc_features tip !! a = Some tip_phi ->
    exists w, tip_weight (qp_digits msg_axis) tip_phi radius tip = Ok w /\ good w.

Lemma axis_pass_ok attempt a msg_axis features tips all :
  weighable features all -> msg_axis ∈ phi features -> is_Some (sl_rho params !! Z.to_nat a) ->
  (forall i tip, (i, tip) ∈ tips -> tip ∈ all) ->
  exists cs, axis_pass exp powf draw params calc attempt a msg_axis tips = Ok cs /\ Forall (from_tips all) cs.
Proof.
  intros Hw Hm [radius Hr]. induction tips as [|[i tip] tips IH]; intros Hin; [by exists []|]. cbn [axis_pass].
  destruct IH as (cs & Hcs & Hall); [intros j t H; apply (Hin j); by right|].
  assert (tip ∈ all) as Htip by (apply (Hin i); by left).
  destruct (pc_features tip !! Z.to_nat a) as [tip_phi|] eqn:Ef; [|by exists cs]. rewrite Hr.
  destruct (Hw tip msg_axis _ tip_phi radius Htip Hm Ef) as (w & -> & Hgood). simpl result_bind. rewrite Hcs. simpl result_bind.
  destruct (f64_ltb _ _); [|by exists cs]. exists (with_weight w tip :: cs). split; [done|]. constructor; [|done].
  split; [done|]. change (pc_message_id (with_weight w tip)) with (pc_message_id tip). by apply list_elem_of_fmap_2.
Qed.

Lemma axes_loop_ok attempt features tips all axes acc t :
  weighable features all -> (forall i tip, (i, tip) ∈ tips -> tip ∈ all) ->
  (forall a, a ∈ axes -> is_Some (AdicFeatures_get_axis features a) /\ is_Some (sl_rho params !! Z.to_nat a)) ->
  map_Forall (fun _ cs => Forall (from_tips all) cs) acc ->
  exists out t', axes_loop exp powf stamp draw params calc attempt features tips axes acc t = (Ok out, t') /\
    map_Forall (fun _ cs => Forall (from_tips all) cs) out.
Proof.
  intros Hw Hin. revert acc t. induction axes as [|a axes IH]; intros acc t Hax Hacc; [by exists acc, t|].
  destruct (Hax a ltac:(by left)) as [[msg_axis Hm] Hr].
  assert (msg_axis ∈ phi features) as Hmem.
  { unfold AdicFeatures_get_axis in Hm. apply find_some in Hm as [H _]. by apply list_elem_of_In. }
  destruct (axis_pass_ok attempt a msg_axis features tips all Hw Hmem Hr Hin) as (cs & Hcs & Hall).
  cbn [axes_loop]. rewrite Hm. rewrite (M_bind_Ok _ _ t msg_axis t) by done. rewrite Hcs. rewrite (M_bind_Ok _ _ t cs t) by done.
  rewrite (M_bind_Ok _ _ t tt (record_axis_candidates stamp a (length cs) t)) by done. apply IH.
  - intros b Hb. apply Hax. by right.
  - by apply map_Forall_insert_2.
Qed.

(** A map from ids to candidates with these ids. *)
Definition merged_ok (all : list ParentCandidate) (g : gmap MessageId ParentCandidate) : Prop :=
  map_Forall (fun k c => pc_message_id c = k /\ from_tips all c) g.
Lemma merge_candidate_ok all a g c : merged_ok all g -> from_tips all c -> merged_ok all (merge_candidate a g c).
Proof.
  intros Hg [Hw Hid]. unfold merge_candidate. destruct (g !! pc_message_id c) as [m|] eqn:E.
  - apply map_Forall_insert_2; [|done]. destruct (Hg _ _ E) as (Hm & Hwm & Hin). split; [done|]. split; [by apply good_add|done].
  - by apply map_Forall_insert_2.
Qed.
Lemma merge_ok all cs :
  map_Forall (fun _ cs => Forall (from_tips all) cs) cs ->
  merged_ok all (foldl (fun merged ac => foldl (merge_candidate ac.1) merged ac.2) ∅ (axis_iter cs)).
Proof.
  intros Hcs. assert (Forall (fun ac => Forall (from_tips all) ac.2) (axis_iter cs)) as Hl.
  { rewrite axis_perm. apply Forall_forall. intros [a l] H%elem_of_map_to_list. by apply (Hcs a l). }
  assert (merged_ok all ∅) as H0 by apply map_Forall_empty. revert H0. generalize (∅ : gmap MessageId ParentCandidate).
  induction Hl as [|[a l] ls Hl Hls IH]; intros g Hg; [done|]. apply IH. cbn [fst snd] in *. clear -Hl Hg.
  revert g Hg. induction Hl as [|c l Hc Hl IH]; intros g Hg; [done|]. apply IH. by apply merge_candidate_ok.
Qed.

Lemma sort_by_weight_ok l : Forall weighted l -> exists l', sort_by_weight l = Ok l' /\ l' ≡ₚ l.
Proof.
  intros Hw. unfold sort_by_weight.
  replace (existsb (fun c => is_nan (pc_weight c)) l) with false; [rewrite andb_false_r; eexists; split; [done|apply isort_Permutation]|].
  symmetry. apply not_true_iff_false. intros (c & Hc & Hn)%existsb_exists. rewrite Forall_forall in Hw.
  destruct (Hw c ltac:(by apply list_elem_of_In)). congruence.
Qed.

Lemma map_values_ids (g : gmap MessageId ParentCandidate) all : merged_ok all g -> pc_message_id <$> (map_to_list g).*2 = (map_to_list g).*1.
Proof.
  intros Hg. rewrite <-list_fmap_compose. apply list_fmap_ext. intros i [k c] H. simpl.
  apply list_elem_of_lookup_2, elem_of_map_to_list in H. by destruct (Hg _ _ H).
Qed.

Lemma run_ok attempt features tips horizon t :
  weighable features tips ->
  (forall a, a ∈ seqZ 0 (sl_d params) -> is_Some (AdicFeatures_get_axis features a) /\ is_Some (sl_rho params !! Z.to_nat a)) ->
  exists cs t', run_mrw_per_axis exp powf stamp draw axis_iter merged_iter params calc attempt features tips horizon t = (Ok cs, t') /\
    Forall (from_tips tips) cs /\ NoDup (pc_message_id <$> cs).
Proof.
  intros Hw Hax. unfold run_mrw_per_axis.
  destruct (axes_loop_ok attempt features (enumerate (take (Z.to_nat horizon) tips)) tips (seqZ 0 (sl_d params)) ∅ t Hw) as (out & t' & He & Hout).
  { intros i tip H%enumerate_lookup. apply lookup_take_Some in H as [H _]. by eapply list_elem_of_lookup_2. }
  { done. }
  { apply map_Forall_empty. }
  rewrite (M_bind_Ok _ _ _ _ _ He). unfold merge_axis_candidates. pose proof (merge_ok tips out Hout) as Hm. set (g := foldl _ ∅ _) in *.
  assert (Forall (from_tips tips) (merged_iter g).*2) as Hall.
  { rewrite merged_perm. apply Forall_forall. intros c (kc & -> & H)%list_elem_of_fmap. destruct kc as [k c]. apply elem_of_map_to_list in H.
    by destruct (Hm _ _ H). }
  destruct (sort_by_weight_ok (merged_iter g).*2) as (l & -> & Hp); [by eapply Forall_impl; [exact Hall|intros c []]|].
  exists l, t'. split; [done|]. split; [by rewrite Hp|]. rewrite Hp, merged_perm, (map_values_ids g tips Hm). apply NoDup_fst_map_to_list.
Qed.

(** *** Falling back *)

Lemma repeat_tips_spec (l : list ParentCandidate) n :
  l <> [] -> length (repeat_tips l n) = n /\ (forall c, c ∈ repeat_tips l n -> c ∈ l).
Proof.
  intros Hne. unfold repeat_tips. assert (forall k, exists c, l !! (k mod length l)%nat = Some c) as Hk.
  { intros k. apply lookup_lt_is_Some_2, Nat.mod_upper_bound. by destruct l. }
  split.
  - generalize 0%nat. induction n as [|n IH]; intros k; [done|]. cbn [seq omap list_omap].
    destruct (Hk k) as [c ->]. simpl. by rewrite IH.
  - intros c (k & _ & H)%list_elem_of_omap. by eapply list_elem_of_lookup_2.
Qed.
Lemma repeat_tips_take (l : list ParentCandidate) n : (n <= length l)%nat -> repeat_tips l n = take n l.
Proof.
  intros Hn. destruct l as [|c0 l']; [by destruct n; [|simpl in Hn; lia]|]. set (l := c0 :: l') in *.
  assert (l <> []) as Hne by done. apply list_eq_same_length with n; [by rewrite length_take; lia|by apply repeat_tips_spec|].
  assert (forall k j, (k + j <= length l)%nat -> omap (fun idx => l !! (idx mod length l)%nat) (seq k j) = take j (drop k l)) as H.
  { intros k j. revert k. induction j as [|j IH]; intros k Hj; [done|]. cbn [seq omap list_omap].
    rewrite Nat.mod_small by lia. destruct (lookup_lt_is_Some_2 l k ltac:(lia)) as [c Hc]. rewrite Hc.
    rewrite (drop_S _ _ _ Hc). simpl. by rewrite IH by lia. }
  intros k x y _ Hx Hy. unfold repeat_tips in Hx. rewrite (H 0%nat n) in Hx by done. rewrite drop_0 in Hx. congruence.
Qed.

Lemma total_weight_ok features tips tip axes w :
  weighable features tips -> tip ∈ tips -> (forall k a, (k, a) ∈ axes -> a ∈ phi features) -> good w ->
  exists w', total_weight exp powf params calc tip axes w = Ok w' /\ good w'.
Proof.
  intros Hw Htip. revert w. induction axes as [|[k a] axes IH]; intros w Hax Hgood; [by exists w|]. cbn [total_weight].
  assert (forall k a, (k, a) ∈ axes -> a ∈ phi features) as Hax' by (intros k' a' H; apply (Hax k'); by right).
  destruct (pc_features tip !! k) as [tip_phi|] eqn:Ef; [|by apply IH].
  destruct (Hw tip a k tip_phi (default 2 (sl_rho params !! k)) Htip (Hax k a ltac:(by left)) Ef) as (v & -> & Hv).
  apply IH; [done|by apply good_add].
Qed.
Lemma weigh_tips_ok features all tips :
  weighable features all -> (forall tip, tip ∈ tips -> tip ∈ all) ->
  exists l, weigh_tips exp powf params calc features tips = Ok l /\ Forall weighted l /\ pc_message_id <$> l = pc_message_id <$> tips.
Proof.
  intros Hw. induction tips as [|tip tips IH]; intros Hin; [by exists []|]. cbn [weigh_tips].
  destruct (total_weight_ok features all tip (enumerate (phi features)) f64_zero Hw (Hin tip ltac:(by left))) as (w & -> & Hg); [|done|].
  { intros k a H%enumerate_lookup. by eapply list_elem_of_lookup_2. }
  destruct IH as (l & Hl & Hall & Hids); [intros t Ht; apply Hin; by right|]. simpl result_bind. rewrite Hl. simpl result_bind.
  exists (with_weight w tip :: l). split; [done|]. split; [by constructor|]. rewrite !fmap_cons, Hids. done.
Qed.

(** What a selection returns and records: [d + 1] of the tips. *)
Definition selection (tips : list ParentCandidate) (out : result MrwError (list MessageId) * MrwTrace) (ids : list MessageId) : Prop :=
  out.1 = Ok ids /\ tr_selected_parents out.2 = ids /\ tr_success out.2 = true /\ length ids = required /\ ids ⊆ (pc_message_id <$> tips).

Lemma report_ok tips selected t :
  length selected = required -> (pc_message_id <$> selected) ⊆ (pc_message_id <$> tips) ->
  selection tips (report stamp selected t) (pc_message_id <$> selected).
Proof. intros Hlen Hsub. split_and!; try done. by rewrite length_fmap. Qed.

Lemma fall_back_ok features tips t :
  weighable features tips -> tips <> [] -> (required <= length tips)%nat -> NoDup (pc_message_id <$> tips) ->
  exists ids, NoDup ids /\
    selection tips ((selected ← mresult (select_best_available exp powf params calc tips features); report stamp selected) t) ids.
Proof.
  intros Hw Hne Hlen Hnd. unfold select_best_available. rewrite bool_decide_false by done.
  destruct (weigh_tips_ok features tips tips Hw) as (l & -> & Hwl & Hids); [done|]. simpl result_bind.
  destruct (sort_by_weight_ok l Hwl) as (l' & -> & Hp). simpl result_bind.
  assert (pc_message_id <$> l' ≡ₚ pc_message_id <$> tips) as Hperm by by rewrite <-Hids, Hp.
  assert (length l' = length tips) as Hll by (rewrite <-!(length_fmap pc_message_id); by apply Permutation_length).
  rewrite repeat_tips_take by lia. rewrite (M_bind_Ok _ _ t (take required l') t) by done.
  exists (pc_message_id <$> take required l'). assert (NoDup (pc_message_id <$> l')) as Hnd' by by rewrite Hperm. split.
  - rewrite fmap_take. by eapply sublist_NoDup; [|apply sublist_take].
  - apply report_ok; [rewrite length_take; lia|]. intros x Hx. rewrite <-Hperm. rewrite fmap_take in Hx. by eapply sublist_subseteq; [apply sublist_take|].
Qed.

Lemma attempt_loop_ok fuel attempt features tips horizon t :
  weighable features tips -> tips <> [] -> (required <= length tips)%nat -> NoDup (pc_message_id <$> tips) ->
  (forall a, a ∈ seqZ 0 (sl_d params) -> is_Some (AdicFeatures_get_axis features a) /\ is_Some (sl_rho params !! Z.to_nat a)) ->
  exists ids, NoDup ids /\
    selection tips (attempt_loop exp powf stamp draw axis_iter merged_iter params calc fuel attempt features tips horizon t) ids.
Proof.
  intros Hw Hne Hlen Hnd Hax. revert attempt horizon t. induction fuel as [|fuel IH]; intros attempt horizon t; [by apply fall_back_ok|].
  cbn [attempt_loop]. destruct (run_ok attempt features tips horizon t Hw Hax) as (cs & t1 & Hrun & Hall & Hndc).
  rewrite (M_bind_Ok _ _ _ _ _ Hrun). destruct (decide (required <= length cs)%nat) as [Hle|Hgt].
  - destruct (sample_ok cs) as (picked & rest & -> & Hpl & Hp & _); [by eapply Forall_impl; [exact Hall|intros c []]|done|].
    exists (pc_message_id <$> picked). split; [rewrite Hp, fmap_app in Hndc; by apply NoDup_app in Hndc as [? _]|].
    apply report_ok; [done|]. intros x (c & -> & Hc)%list_elem_of_fmap. rewrite Forall_forall in Hall. apply (Hall c). rewrite Hp. set_solver.
  - unfold sample_diverse_parents. destruct (length cs <? required)%nat eqn:E; zbool; [|lia]. cbv zeta.
    rewrite (M_bind_Ok _ _ t1 tt (record_widen stamp (widen params horizon) t1)) by done. destruct (_ <? _); [by apply fall_back_ok|apply IH].
Qed.

(** A selection from distinct tips whose weights are numbers always ends: it fails exactly when
    there is no tip, and otherwise returns [d + 1] of the tips, which the trace records; the parents
    are distinct exactly when there are at least [d + 1] tips.  No diversity is promised. *)
Lemma select_parents_ok features tips :
  0 <= sl_d params < u32_max -> NoDup (pc_message_id <$> tips) -> weighable features tips ->
  (forall a, a ∈ seqZ 0 (sl_d params) -> is_Some (AdicFeatures_get_axis features a) /\ is_Some (sl_rho params !! Z.to_nat a)) ->
  let out := select_parents exp powf stamp draw axis_iter merged_iter params calc features tips trace_new in
  if bool_decide (tips = []) then out.1 = Err NoTips
  else exists ids, selection tips out ids /\ (NoDup ids <-> (required <= length tips)%nat).
Proof.
  intros Hd Hnd Hw Hax out. subst out. unfold select_parents. destruct (length tips <=? required)%nat eqn:E; zbool.
  - unfold select_bootstrap_parents. case_bool_decide as Hne; [done|].
    rewrite (M_bind_Ok _ _ trace_new (repeat_tips tips required) trace_new) by done. destruct (repeat_tips_spec tips required Hne) as [Hlen Hin].
    exists (pc_message_id <$> repeat_tips tips required). split.
    { apply report_ok; [done|]. intros x (c & -> & Hc)%list_elem_of_fmap. apply list_elem_of_fmap_2, Hin, Hc. }
    split; [|intros Hle; rewrite repeat_tips_take, fmap_take by done; by eapply sublist_NoDup; [|apply sublist_take]].
    intros Hn. apply (NoDup_submseteq _ (pc_message_id <$> tips)), submseteq_length in Hn; [by rewrite !length_fmap, Hlen in Hn|].
    intros x (c & -> & Hc)%list_elem_of_fmap. apply list_elem_of_fmap_2, Hin, Hc.
  - rewrite bool_decide_false by (intros ->; simpl in E; lia).
    destruct (attempt_loop_ok MAX_ATTEMPTS 0 features tips (Z.of_nat required * 2) trace_new Hw) as (ids & Hn & Hs); [intros ->; simpl in E; lia|lia|done|done|].
    exists ids. split; [done|]. split; [lia|done].
Qed.

(** While sampling, a list of fewer than [d + 1] candidates is refused; otherwise [d + 1] of them are
    returned, each with the highest weight and diversity bonus, against those returned before it,
    of all the candidates left at its turn. *)
Theorem sample_diverse_correct candidates :
  Forall weighted candidates ->
  match sample_diverse_parents params candidates with
  | Ok picked => (required <= length candidates)%nat /\ length picked = required /\
      exists rest, candidates ≡ₚ picked ++ rest /\ greedy [] picked rest
  | Err _ => (length candidates < required)%nat
  | Panic => False
  end.
Proof.
  intros Hw. destruct (decide (required <= length candidates)%nat) as [Hle|Hgt].
  - destruct (sample_ok candidates Hw Hle) as (picked & rest & -> & Hlen & Hp & Hg). split; [done|]. split; [done|]. by exists rest.
  - unfold sample_diverse_parents. destruct (length candidates <? required)%nat eqn:E; zbool; lia.
Qed.

(** With fewer than [d + 1] tips the same parents are repeated, and the validation of the protocol
    refuses every message with these parents. *)
Theorem few_tips_invalid features tips t canonical_hash check_signature now v message :
  tips <> [] -> (length tips < required)%nat ->
  exists ids t', select_parents exp powf stamp draw axis_iter merged_iter params calc features tips t = (Ok ids, t') /\
    (parents message = ids -> is_valid (validate_message canonical_hash check_signature now v message) = false).
Proof.
  intros Hne Hlt. unfold select_parents. destruct (length tips <=? required)%nat eqn:E; zbool; [|lia].
  unfold select_bootstrap_parents. rewrite bool_decide_false by done. rewrite (M_bind_Ok _ _ t (repeat_tips tips required) t) by done.
  destruct (repeat_tips_spec tips required Hne) as [Hlen Hin]. eexists _, _. split; [reflexivity|]. intros Hp.
  apply not_true_is_false. intros [_ _ _ [Hnd _]]%validate_message_valid. rewrite Hp in Hnd.
  apply (NoDup_submseteq _ (pc_message_id <$> tips)), submseteq_length in Hnd; [rewrite !length_fmap in Hnd; lia|].
  intros x (c & -> & Hc)%list_elem_of_fmap. apply list_elem_of_fmap_2, Hin, Hc.
Qed.
End facts.

Section engine_facts.
Context {St : Type}.
Context (exp : f64 -> f64) (powf : f64 -> f64 -> f64) (stamp : nat -> Z) (now trace_millis : Z).
Context (draw : nat -> Z -> nat -> f64).
Context (axis_iter : gmap Z (list ParentCandidate) -> list (Z * list ParentCandidate)).
Context (merged_iter : gmap MessageId ParentCandidate -> list (MessageId * ParentCandidate)).
Context (axis_perm : forall g, axis_iter g ≡ₚ map_to_list g) (merged_perm : forall g, merged_iter g ≡ₚ map_to_list g).
Context (support_iter : gmap MessageId f64 -> list (MessageId * f64)).
Context (storage : MemoryBackend) (consensus : ConsensusEngine St).

Lemma build_candidates_ids tips cs :
  build_candidates now support_iter storage consensus tips = Ok cs -> pc_message_id <$> cs = filter (stored storage) tips.
Proof.
  revert cs. induction tips as [|id tips IH]; intros cs; cbn [build_candidates]; [by intros [= <-]|].
  destruct (mb_messages storage !! id) as [m|] eqn:E.
  - intros (c & Hc & (rest & Hr & [= <-])%result_bind_Ok)%result_bind_Ok. rewrite filter_cons_True by (by exists m).
    unfold candidate_of in Hc. apply result_bind_Ok in Hc as (p & _ & [= <-]). rewrite fmap_cons. by rewrite (IH rest Hr).
  - intros H. rewrite filter_cons_False by (intros [m Hm]; congruence). by apply IH.
Qed.

Lemma min_key_in ks k : min_key ks = Some k -> k ∈ ks.
Proof.
  destruct ks as [|k0 ks]; [done|]. intros [= <-]. revert k0. induction ks as [|k1 ks IH]; intros k0; [by left|]. cbn [foldl].
  destruct (String.leb k0 k1); [destruct (elem_of_cons ks (foldl (fun a b => if String.leb a b then a else b) k0 ks) k0) as [H _]|].
  - destruct (H (IH k0)) as [->|?]; [by left|by do 2 right].
  - right. apply IH.
Qed.
(** No more than a hundred traces are kept. *)
Lemma put_trace_size id trace traces : (size traces <= 100)%nat -> (size (put_trace id trace traces) <= 100)%nat.
Proof.
  intros Hs. unfold put_trace. set (traces' := <[id := trace]> traces).
  assert (size traces' <= S (size traces))%nat as Hle.
  { unfold traces'. destruct (traces !! id) eqn:E; [rewrite map_size_insert_Some by done; lia|rewrite map_size_insert_None by done; lia]. }
  destruct (100 <? size traces')%nat eqn:E; zbool; [|lia].
  destruct (min_key (map_to_list traces').*1) as [k|] eqn:Ek.
  - apply min_key_in, list_elem_of_fmap in Ek as ([k' t] & -> & H%elem_of_map_to_list). rewrite map_size_delete_Some by done. lia.
  - destruct (map_to_list traces') as [|? ?] eqn:El; [|done]. apply map_to_list_empty_iff in El. rewrite El, map_size_empty. lia.
Qed.

(** C9: The engine asks for the stored ones among the tips: without any it refuses, save that without
    tips at all a genesis message may have no parent.  Otherwise it returns [d + 1] stored tips,
    distinct exactly when there are so many, records the selection as a trace, of which it keeps no
    more than a hundred, and changes nothing else. *)
Theorem engine_select_correct features tips e cs :
  NoDup tips -> build_candidates now support_iter storage consensus tips = Ok cs ->
  0 <= sl_d (mr_selector e) < u32_max -> weighable exp powf (mr_weight_calc e) features cs ->
  (forall a, a ∈ seqZ 0 (sl_d (mr_selector e)) -> is_Some (AdicFeatures_get_axis features a) /\ is_Some (sl_rho (mr_selector e) !! Z.to_nat a)) ->
  (size (mr_traces e) <= 100)%nat ->
  let '(r, e') := engine_select_parents exp powf stamp now trace_millis draw axis_iter merged_iter support_iter storage consensus features tips e in
  let available := filter (stored storage) tips in
  if bool_decide (available = [])
  then e' = e /\ (tips = [] /\ r = Ok [] \/ tips <> [] /\ is_err r = true)
  else
    exists ids trace, r = Ok ids /\ length ids = required_parents (mr_selector e) /\ ids ⊆ available /\
      (NoDup ids <-> (required_parents (mr_selector e) <= length available)%nat) /\
      tr_selected_parents trace = ids /\ tr_success trace = true /\
      e' = store_trace ("mrw_" +:+ pretty trace_millis) trace e /\ (size (mr_traces e') <= 100)%nat.
Proof.
  intros Hnd Hb Hd Hw Hax Hs. pose proof (build_candidates_ids tips cs Hb) as Hids. unfold engine_select_parents. rewrite Hb.
  rewrite (M_bind_Ok _ _ e cs e) by done. cbv zeta. rewrite <-Hids.
  assert (pc_message_id <$> cs = [] <-> cs = []) as Hnil by (destruct cs; split; done).
  destruct (decide (cs = [])) as [->|Hne].
  { rewrite !bool_decide_true by done. case_bool_decide as Ht; (split; [done|]); [left|right]; done. }
  rewrite !(bool_decide_false (_ = [])) by tauto. rewrite (M_bind_Ok _ _ e e e) by done.
  pose proof (select_parents_ok exp powf stamp draw axis_iter merged_iter axis_perm merged_perm (mr_selector e) (mr_weight_calc e) features cs Hd) as H.
  rewrite bool_decide_false in H by done.
  destruct H as (ids & (Hr & Hsel & Hok & Hlen & Hsub) & Hiff); [rewrite Hids; by apply NoDup_filter|done|done|].
  destruct (select_parents _ _ _ _ _ _ _ _ _ _ _) as [r trace]. cbn [fst snd] in *. subst r.
  rewrite (M_bind_Ok _ _ e ids e) by done. exists ids, trace. rewrite length_fmap. split_and!; try done. by apply put_trace_size.
Qed.
End engine_facts.

(** ** Examples

    Six stored tips, all at the origin of every axis, with the parameters of the tests ([d = 3],
    [q = 3]); every weight is 1 and every draw 0. *)

Definition flat_exp (_ : f64) : f64 := one.
Definition first_power (x _ : f64) : f64 := x.
Definition no_draw (_ : nat) (_ : Z) (_ : nat) : f64 := f64_zero.
Definition origin : QpDigits := mkQpDigits [0; 0; 0] 3.
Definition origin_features : AdicFeatures := mkAdicFeatures [mkAxisPhi 0 origin; mkAxisPhi 1 origin; mkAxisPhi 2 origin].
Definition tip_message (i : Z) : AdicMessage := mkMessage [i] [] origin_features (AdicMeta_new 0) [i] [1] None [].
Definition six_tips : list MessageId := [[1]; [2]; [3]; [4]; [5]; [6]].
Definition six_stored : MemoryBackend :=
  mkBackend (list_to_map ((fun i => ([i], tip_message i)) <$> [1; 2; 3; 4; 5; 6])) ∅ ∅ ∅ ∅ ∅ ∅ ∅ ∅ ∅.
Definition demo_candidate (i : Z) : ParentCandidate := mkCandidate [i] [origin; origin; origin] one f64_zero one ∅ f64_zero.
Definition test_engine : MrwEngine := mrw_new params_test.
Definition test_consensus : ConsensusEngine unit := consensus_new params_test.
Definition demo_select (tips : list MessageId) : result MrwError (list MessageId) * MrwEngine :=
  engine_select_parents flat_exp first_power (fun _ => 0) 10 7 no_draw map_to_list map_to_list map_to_list six_stored test_consensus
    origin_features tips test_engine.

Lemma demo_weighable e cs :
  Forall (fun c => Forall (fun f => qp_p f = 3) (pc_features c)) cs -> weighable flat_exp first_power e origin_features cs.
Proof.
  intros Hcs tip msg_axis a tip_phi radius Htip Hm Hf. exists one. split; [|by vm_compute]. unfold tip_weight, proximity_score.
  assert (qp_p (qp_digits msg_axis) = 3) as Hp by (repeat (apply elem_of_cons in Hm as [->|Hm]; [done|]); by apply elem_of_nil in Hm).
  assert (qp_p tip_phi = 3) as Hq by (rewrite Forall_forall in Hcs; specialize (Hcs tip Htip); eapply Forall_lookup_1 in Hcs; done).
  unfold vp_diff. rewrite Hp, Hq. by destruct (radius =? 0).
Qed.

Lemma engine_select_correct_witness :
  exists ids, (demo_select six_tips).1 = Ok ids /\ length ids = 4%nat /\ NoDup ids.
Proof.
  set (cs := match build_candidates 10 map_to_list six_stored test_consensus six_tips with Ok l => l | _ => [] end).
  assert (build_candidates 10 map_to_list six_stored test_consensus six_tips = Ok cs) as Hb by (vm_compute; reflexivity).
  pose proof (engine_select_correct flat_exp first_power (fun _ => 0) 10 7 no_draw map_to_list map_to_list
    (fun _ => Permutation_refl _) (fun _ => Permutation_refl _) map_to_list six_stored test_consensus origin_features six_tips test_engine cs) as H.
  fold (demo_select six_tips) in H. destruct (demo_select six_tips) as [r e']. cbn [fst].
  assert (filter (stored six_stored) six_tips = six_tips) as Hf by (vm_compute; reflexivity). rewrite Hf in H. cbv zeta in H. cbn [bool_decide] in H.
  destruct H as (ids & trace & -> & Hlen & _ & Hnd & _).
  - apply (bool_decide_unpack _). vm_compute. exact I.
  - exact Hb.
  - split; vm_compute; [discriminate|reflexivity].
  - apply demo_weighable. vm_compute. repeat constructor.
  - intros a Ha. apply elem_of_seqZ in Ha. assert (a = 0 \/ a = 1 \/ a = 2) as Hcase by (cbn in Ha; lia). destruct Hcase as [->|[->| ->]]; split; eexists; reflexivity.
  - vm_compute. lia.
  - exists ids. split; [reflexivity|]. split; [exact Hlen|]. apply Hnd. vm_compute. lia.
Defined.

Lemma sample_diverse_correct_witness :
  match sample_diverse_parents (from_adic_params params_test) (demo_candidate <$> [1; 2; 3; 4; 5]) with
  | Ok picked => length picked = 4%nat
  | _ => False
  end.
Proof.
  pose proof (sample_diverse_correct (from_adic_params params_test) (demo_candidate <$> [1; 2; 3; 4; 5])) as H.
  destruct (sample_diverse_parents _ _) as [picked|e|]; [apply H|specialize (H ltac:(repeat constructor)); vm_compute in H; lia|apply H]; repeat constructor.
Defined.

Lemma few_tips_invalid_witness :
  exists t', select_parents flat_exp first_power (fun _ => 0) no_draw map_to_list map_to_list (from_adic_params params_test) (calc_of params_test)
      origin_features [demo_candidate 1; demo_candidate 2] trace_new = (Ok [[1]; [2]; [1]; [2]], t') /\
    is_valid (validate_message (fun _ => [9]) (fun _ _ _ => Some true) 0 (validator_new)
      (mkMessage [9] [[1]; [2]; [1]; [2]] origin_features (AdicMeta_new 0) [7] [1] None [5])) = false.
Proof.
  destruct (few_tips_invalid flat_exp first_power (fun _ => 0) no_draw map_to_list map_to_list (from_adic_params params_test) (calc_of params_test)
    origin_features [demo_candidate 1; demo_candidate 2] trace_new (fun _ => [9]) (fun _ _ _ => Some true) 0 validator_new
    (mkMessage [9] [[1]; [2]; [1]; [2]] origin_features (AdicMeta_new 0) [7] [1] None [5])) as (ids & t' & Hs & Hv); [discriminate|vm_compute; lia|].
  assert (Ok ids = Ok (E := MrwError) [[1]; [2]; [1]; [2]]) as Hids.
  { change (Ok ids) with ((Ok (E := MrwError) ids, t').1). rewrite <-Hs. vm_compute. reflexivity. }
  injection Hids as ->. exists t'. split; [exact Hs|]. by apply Hv.
Defined.

(** ** Flaws the model shows *)

(** The bonus is no condition: with six tips in one ball of every axis the four parents are in one
    ball, where three are asked for. *)
Theorem parents_in_one_ball :
  let parents := match (demo_select six_tips).1 with Ok ids => ids | _ => [] end in
  length parents = 4%nat /\ pr_q params_test = 3 /\
  count_distinct_balls (omap (fun id => m ← mb_messages six_stored !! id; ph ← AdicFeatures_get_axis (features m) 0; Some (qp_digits ph)) parents) 2 = 1%nat.
Proof. split_and!; vm_compute; reflexivity. Qed.
