(* ===== verification/TaskTypes.v ===== *)
(** * Proof of useful work: tasks, results, reports, receipts and disputes

    [adic-pouw/src/types.rs].  Ids and hashes are lists of bytes, instants Unix times in seconds,
    those of the metrics in nanoseconds.
    The status of a task is a [LifecycleState] of the application layer. *)

From S2P Require Import Prelude F64 Message Vrf Quorum Bls Amount Escrow Voting Application.

Definition TaskId : Type := Bytes.

Inductive ComputationType := HashVerification | DataProcessing | ModelInference | CustomComputation (name : string).

Record ResourceRequirements := mkRequirements {
  max_cpu_ms : Z;
  max_memory_mb : Z;
  max_storage_mb : Z;
  max_network_kb : Z;
}.
Definition requirements_default : ResourceRequirements := mkRequirements 10000 512 1024 10240.

Inductive TaskType :=
  | Compute (computation_type : ComputationType) (resource_requirements : ResourceRequirements)
  | ValidationTask (target_task_id : TaskId) (validation_criteria : string)
  | StorageTask (data_cid : string) (duration_epochs : Z) (redundancy : Z)
  | AggregationTask (source_task_ids : list TaskId) (aggregation_function : string).

(** ** The status of a task *)

Inductive TaskStatus :=
  | Submitted | Finalized | Assigned | InProgress | ResultSubmitted | Validating | Challenging
  | Completed | Failed | Disputed | Slashed | Expired.
#[export] Instance TaskStatus_eq_dec : EqDecision TaskStatus.
Proof. solve_decision. Defined.

Definition task_is_terminal (s : TaskStatus) : bool :=
  match s with Completed | Failed | Slashed | Expired => true | _ => false end.

Definition task_can_transition_to (s next : TaskStatus) : bool :=
  match s, next with
  | Submitted, (Finalized | Failed | Expired) => true
  | Finalized, (Assigned | Expired) => true
  | Assigned, (InProgress | Expired) => true
  | InProgress, (ResultSubmitted | Failed | Expired) => true
  | ResultSubmitted, (Validating | Failed) => true
  | Validating, (Challenging | Completed | Failed) => true
  | Challenging, (Completed | Disputed | Failed) => true
  | Disputed, (Completed | Slashed | Failed) => true
  | _, _ => false
  end.

#[export] Instance task_lifecycle : LifecycleState TaskStatus := {
  lc_is_terminal := task_is_terminal;
  lc_can_transition_to := task_can_transition_to;
}.

Inductive TaskFinality := Pending | F1Complete | F2Complete.

Record Task := mkTask {
  tk_task_id : TaskId;
  tk_sponsor : PublicKey;
  tk_task_type : TaskType;
  tk_input_cid : string;
  tk_expected_output_schema : option string;
  tk_reward : AdicAmount;
  tk_collateral_requirement : AdicAmount;
  tk_deadline_epoch : Z;
  tk_min_reputation : f64;
  tk_worker_count : Z;
  tk_created_at : Z;
  tk_status : TaskStatus;
  tk_finality_status : TaskFinality;
}.

(** ** Assignments, results and reports *)

Record WorkAssignment := mkAssignment {
  wa_assignment_id : Hash;
  wa_task_id : TaskId;
  wa_worker : PublicKey;
  wa_assigned_epoch : Z;
  wa_vrf_proof : Bytes;
  wa_worker_index : Z;
  wa_collateral_lock_id : option string;
  wa_assignment_timestamp : Z;
}.

Inductive ProofType := MerkleTree | StateTransition | ZKProof | ReExecution.

Record ExecutionProof := mkExecutionProof {
  ep_proof_type : ProofType;
  ep_merkle_root : Hash;
  ep_intermediate_states : list Hash;
  ep_proof_data : Bytes;
}.

Record ExecutionMetrics := mkMetrics {
  cpu_time_ms : Z;
  memory_used_mb : Z;
  storage_used_mb : Z;
  network_used_kb : Z;
  start_time : Z;
  end_time : Z;
}.

Record WorkResult := mkWorkResult {
  wr_result_id : Hash;
  wr_task_id : TaskId;
  wr_worker : PublicKey;
  wr_output_cid : string;
  wr_execution_proof : ExecutionProof;
  wr_execution_metrics : ExecutionMetrics;
  wr_worker_signature : Bytes;
  wr_submitted_at : Z;
}.

Inductive TaskVerdict := Accepted | Rejected | Inconclusive.
#[export] Instance TaskVerdict_eq_dec : EqDecision TaskVerdict.
Proof. solve_decision. Defined.

Record ValidationEvidence := mkValidationEvidence {
  ve_validator : PublicKey;
  ve_vote : bool;
  ve_re_execution_hash : option Hash;
  ve_discrepancy_details : option string;
  ve_signature : Bytes;
}.

Record ValidationReport := mkReport {
  vr_report_id : Hash;
  vr_task_id : TaskId;
  vr_result_id : Hash;
  vr_validators : list PublicKey;
  vr_votes_for : nat;
  vr_votes_against : nat;
  vr_threshold_bls_sig : Bytes;
  vr_validation_result : TaskVerdict;
  vr_validation_evidence : list ValidationEvidence;
  vr_finalized_at_epoch : Z;
  vr_timestamp : Z;
}.

(** ** Receipts *)

Inductive TaskOutcome := Success | Failure | PartialSuccess | OutcomeSlashed | OutcomeExpired.

Inductive ReputationChangeReason :=
  | WorkAccepted (quality : f64)
  | WorkRejected (severity : f64)
  | DeadlineMissed
  | FraudDetected
  | ValidationPerformed (correctness : bool).

Record ReputationUpdate := mkReputationUpdate {
  ru_account : PublicKey;
  ru_old_reputation : f64;
  ru_new_reputation : f64;
  ru_change_reason : ReputationChangeReason;
  ru_quality_score : f64;
}.

Inductive RewardType := BaseReward | QualityBonus | SpeedBonus | ValidationReward.

Record VestingSchedule := mkVesting {
  vs_total_amount : AdicAmount;
  vs_vested_per_epoch : AdicAmount;
  vs_start_epoch : Z;
  vs_duration_epochs : Z;
}.

Record RewardDistribution := mkDistribution {
  rd_recipient : PublicKey;
  rd_amount : AdicAmount;
  rd_reward_type : RewardType;
  rd_vesting_schedule : option VestingSchedule;
}.

Inductive SlashingReason := IncorrectResult | MissedDeadline | ProvenFraud | ResourceAbuse.

Record SlashingEvent := mkSlashing {
  sl_slashed_account : PublicKey;
  sl_amount : AdicAmount;
  sl_reason : SlashingReason;
  sl_evidence_hash : Hash;
  sl_beneficiary : option PublicKey;
}.

Record TaskReceipt := mkReceipt {
  tr_receipt_id : Hash;
  tr_task_id : TaskId;
  tr_outcome : TaskOutcome;
  tr_workers : list PublicKey;
  tr_reputation_updates : list ReputationUpdate;
  tr_rewards_distributed : list RewardDistribution;
  tr_slashing_events : list SlashingEvent;
  tr_finalized_at_epoch : Z;
  tr_timestamp : Z;
  tr_quorum_signature : Bytes;
  tr_quorum_members : list PublicKey;
}.

(** ** Disputes *)

Inductive DisputeEvidence :=
  | ReExecutionProof (different_output_cid : string) (execution_trace : list Hash)
  | InputOutputMismatch (expected_output actual_output : string)
  | ResourceUsageFraud (claimed_metrics actual_metrics : ExecutionMetrics).

Inductive DisputeStatus := DSubmitted | UnderReview | DAccepted | DRejected | DInconclusive | Appealed.
#[export] Instance DisputeStatus_eq_dec : EqDecision DisputeStatus.
Proof. solve_decision. Defined.

Record Dispute := mkDispute {
  di_dispute_id : Hash;
  di_task_id : TaskId;
  di_result_id : Hash;
  di_worker : PublicKey;
  di_challenger : PublicKey;
  di_challenger_stake : AdicAmount;
  di_evidence : DisputeEvidence;
  di_status : DisputeStatus;
  di_created_at : Z;
  di_resolution_deadline : Z;
}.

(** ** Statistics *)

Record TaskStats := mkTaskStats {
  total_tasks : Z;
  active_tasks : Z;
  completed_tasks : Z;
  failed_tasks : Z;
  total_rewards_distributed : AdicAmount;
  total_slashed : AdicAmount;
  average_execution_time_ms : f64;
  average_validation_time_ms : f64;
}.
Definition stats_default : TaskStats := mkTaskStats 0 0 0 0 (from_adic (f64_of_Z 0)) (from_adic (f64_of_Z 0)) (f64_of_Z 0) (f64_of_Z 0).

(** ** Errors, [error.rs]: those the modelled parts return

    The arguments are the values that the message shows. *)
Inductive PoUWError :=
  | TaskNotFound (id : TaskId)
  | WorkerNotEligible (reason : string)
  | InsufficientReputation (required actual : f64)
  | DeadlineExceeded (deadline current : Z)
  | InvalidTaskState (expected actual : TaskStatus)
  | ResultAlreadySubmitted (id : TaskId)
  | EscrowRefused (e : EscrowError)
  | InvalidTaskInput (what : string)
  | ValidationFailed (reason : string)
  | QuorumNotReached (required actual : nat)
  | InvalidExecutionProof (reason : string)
  | ResourceLimitExceeded (resource : string) (limit : Z)
  | UnsupportedTaskType (what : string)
  | RandomnessNotAvailable (e : VRFError)
  | CommitteeSelectionFailed (e : QuorumError)
  | QuorumServiceError (e : QuorumError)
  | StorageRefused (what : string)
  | TaskNotFoundInStorage (id : TaskId)
  | InputNotFound (id : Hash)
  | StorageNotConfigured (what : string)
  | ReExecutionRequired (what : string)
  | InsufficientCommitteeSize (required actual : nat)
  | SigningRequestNotFound (id : string)
  | SigningSessionCompleted (id : string)
  | SigningDeadlineExpired (id : string)
  | UnauthorizedSigner (signer : PublicKey) (id : string)
  | BLSFault (e : BLSError)
  | Other (what : string).

(** ** Facts *)

(** A terminal status is left by nothing, and every other by something. *)
Lemma terminal_iff_final s : task_is_terminal s = true <-> forall next, task_can_transition_to s next = false.
Proof.
  split; [by destruct s; try done; intros _ []|]. intros H.
  destruct s; try done; match type of H with forall n, task_can_transition_to ?s n = false =>
    first [discriminate (H Failed) | discriminate (H Expired)] end.
Qed.
