(* ===== verification/Executor.v ===== *)
(** * Executing tasks

    [adic-pouw/src/executor.rs]: the four kinds of tasks, the proofs that an execution leaves and the count
    of running tasks.  [now] gives the readings of the clocks in one call, instants in nanoseconds; [sign]
    is the worker's key.  Waiting for a computation with [timeout] polls it first, and a computation never
    yields, so that the limit cannot interrupt it.  The features [ml-inference] is off, as by default. *)

From stdpp Require Import pretty.
From S2P Require Import Prelude F64 Message Vrf Quorum Bls Amount Escrow Voting Application TaskTypes.

Record ExecutorConfig := mkExecutorConfig {
  exc_resource_multiplier : f64;
  exc_strict_enforcement : bool;
  exc_max_concurrent_tasks : nat;
}.
Definition executor_config_default : ExecutorConfig := mkExecutorConfig (f64_lit 9 10) true 4.

Record ExecutionStats := mkExecutionStats {
  xs_total_executions : Z;
  xs_successful_executions : Z;
  xs_failed_executions : Z;
  xs_total_execution_time_ms : Z;
  xs_total_cpu_time_ms : Z;
  xs_total_memory_used_mb : Z;
}.
Definition execution_stats_default : ExecutionStats := mkExecutionStats 0 0 0 0 0 0.

Record TaskExecutor := mkExecutor {
  te_worker_id : PublicKey;
  te_config : ExecutorConfig;
  te_execution_stats : ExecutionStats;
  te_concurrent_tasks : nat;
}.
Definition task_executor_new (worker_id : PublicKey) (config : ExecutorConfig) : TaskExecutor :=
  mkExecutor worker_id config execution_stats_default 0.

(** The start and the end of the execution, its duration in milliseconds, and the two later readings. *)
Record ExecutionClock := mkClock {
  ck_start : Z;
  ck_end : Z;
  ck_elapsed_ms : Z;
  ck_result_seconds : Z;
  ck_submitted : Z;
}.

Section executor.
Context (blake3 : Bytes -> Bytes) (hex : Bytes -> string) (sign : Bytes -> Bytes).

(** ** Computations *)

Definition compute_merkle_root (states : list Hash) : Hash :=
  match states with [] => replicate 32 0 | _ => blake3 (concat states) end.
Definition generate_proof_data (states : list Hash) : Bytes := concat states.

(** [n] more hashes after the first. *)
Fixpoint hash_chain (n : nat) (current : Hash) : list Hash :=
  match n with O => [] | S n => let next := blake3 current in next :: hash_chain n next end.

(** The output and the intermediate states. *)
Definition computation (input_data : Bytes) (computation_type : ComputationType) : result PoUWError (Bytes * list Hash) :=
  match computation_type with
  | HashVerification =>
      let states := blake3 input_data :: hash_chain 3 (blake3 input_data) in
      Ok (List.last states [], states)
  | DataProcessing =>
      let transformed := (fun b => (b + 1) mod 256) <$> input_data in
      Ok (transformed, [blake3 (take (length transformed / 2) transformed); blake3 transformed])
  | ModelInference => Err (UnsupportedTaskType "ML inference requires 'ml-inference' feature flag")
  | CustomComputation name =>
      let output := str_bytes ("custom_" +:+ name +:+ "_" +:+ hex input_data)%string in
      Ok (output, [blake3 output])
  end.

Definition do_computation (input_data : Bytes) (computation_type : ComputationType) : result PoUWError (Bytes * ExecutionProof) :=
  let? (output_data, intermediate_states) := computation input_data computation_type in
  Ok (output_data, mkExecutionProof MerkleTree (compute_merkle_root intermediate_states) intermediate_states
        (generate_proof_data intermediate_states)).

(** [timeout(max_cpu_ms, ..)] of a computation that is ready at its first poll. *)
Definition execute_compute_task (input_data : Bytes) (computation_type : ComputationType) : result PoUWError (Bytes * ExecutionProof) :=
  do_computation input_data computation_type.

Definition execute_validation_task (task : Task) (input_data : Bytes) (validation_criteria : string) : Bytes * ExecutionProof :=
  let validation_result := str_bytes ("validation_" +:+ validation_criteria +:+ "_" +:+ hex (take 8 (tk_task_id task)) +:+ "_" +:+ hex (blake3 input_data))%string in
  let intermediate_states := [blake3 validation_result] in
  (validation_result, mkExecutionProof ReExecution (compute_merkle_root intermediate_states) intermediate_states []).

Definition execute_storage_task (task : Task) (input_data : Bytes) (data_cid : string) : Bytes * ExecutionProof :=
  let computed_hash := blake3 input_data in
  let storage_receipt := str_bytes ("stored_" +:+ data_cid +:+ "_" +:+ hex (take 8 (tk_task_id task)) +:+ "_" +:+ hex computed_hash)%string in
  (storage_receipt, mkExecutionProof StateTransition (compute_merkle_root [computed_hash]) [computed_hash] []).

Definition execute_aggregation_task (task : Task) (input_data : Bytes) (source_task_ids : list TaskId) (aggregation_function : string)
    : Bytes * ExecutionProof :=
  let intermediate_states := (fun source_id => blake3 (source_id ++ input_data)) <$> source_task_ids in
  let aggregation_result := str_bytes ("aggregated_" +:+ aggregation_function +:+ "_" +:+ hex (take 8 (tk_task_id task)) +:+ "_" +:+
                              pretty (length source_task_ids))%string in
  (aggregation_result, mkExecutionProof MerkleTree (compute_merkle_root intermediate_states) intermediate_states []).

Definition run_task (task : Task) (input_data : Bytes) : result PoUWError (Bytes * ExecutionProof) :=
  match tk_task_type task with
  | Compute computation_type _ => execute_compute_task input_data computation_type
  | ValidationTask _ validation_criteria => Ok (execute_validation_task task input_data validation_criteria)
  | StorageTask data_cid _ _ => Ok (execute_storage_task task input_data data_cid)
  | AggregationTask source_task_ids aggregation_function => Ok (execute_aggregation_task task input_data source_task_ids aggregation_function)
  end.

(** ** Limits and metrics *)

Definition effective_limit (limit : Z) (config : ExecutorConfig) : Z := f64_to_u64 (f64_mul (f64_of_Z limit) (exc_resource_multiplier config)).

Definition validate_resource_requirements (config : ExecutorConfig) (task : Task) : result PoUWError unit :=
  match tk_task_type task with
  | Compute _ requirements =>
      let cpu := effective_limit 600000 config in
      let memory := effective_limit 8192 config in
      let? _ := if (cpu <? max_cpu_ms requirements) && exc_strict_enforcement config then Err (ResourceLimitExceeded "CPU time" cpu) else Ok tt in
      if (memory <? max_memory_mb requirements) && exc_strict_enforcement config then Err (ResourceLimitExceeded "Memory" memory) else Ok tt
  | _ => Ok tt
  end.

Definition estimate_memory_usage (output_data : Bytes) : Z :=
  Z.max (f64_to_u64 (f64_div (f64_mul (f64_of_Z (Z.of_nat (length output_data))) (f64_lit 3 2)) (f64_mul (f64_of_Z 1024) (f64_of_Z 1024)))) 1.

Definition metrics_of (now : ExecutionClock) (input_data output_data : Bytes) : ExecutionMetrics :=
  mkMetrics (ck_elapsed_ms now) (estimate_memory_usage output_data) (Z.of_nat (length output_data) / (1024 * 1024))
    (Z.of_nat (length input_data + length output_data) / 1024) (ck_start now) (ck_end now).

Definition output_cid_of (output_data : Bytes) : string := ("Qm" +:+ hex (take 20 (blake3 output_data)))%string.
Definition generate_result_id (worker_id : PublicKey) (now : ExecutionClock) (task : Task) : Hash :=
  blake3 (tk_task_id task ++ worker_id ++ to_le_bytes 8 (to_u64 (ck_result_seconds now))).

Definition work_result_of (worker_id : PublicKey) (now : ExecutionClock) (task : Task) (input_data output_data : Bytes) (proof : ExecutionProof) : WorkResult :=
  let output_cid := output_cid_of output_data in
  mkWorkResult (generate_result_id worker_id now task) (tk_task_id task) worker_id output_cid proof (metrics_of now input_data output_data)
    (sign (tk_task_id task ++ str_bytes output_cid ++ ep_merkle_root proof)) (ck_submitted now).

(** ** Execution *)

Local Notation EM := (M TaskExecutor PoUWError).

Definition with_running (f : nat -> nat) (s : TaskExecutor) : TaskExecutor :=
  mkExecutor (te_worker_id s) (te_config s) (te_execution_stats s) (f (te_concurrent_tasks s)).
Definition count_execution (m : ExecutionMetrics) (elapsed_ms : Z) (s : TaskExecutor) : TaskExecutor :=
  let x := te_execution_stats s in
  mkExecutor (te_worker_id s) (te_config s)
    (mkExecutionStats (to_u64 (xs_total_executions x + 1)) (to_u64 (xs_successful_executions x + 1)) (xs_failed_executions x)
       (to_u64 (xs_total_execution_time_ms x + elapsed_ms)) (to_u64 (xs_total_cpu_time_ms x + cpu_time_ms m))
       (to_u64 (xs_total_memory_used_mb x + memory_used_mb m)))
    (te_concurrent_tasks s).

(** The check and the increment under one lock, and the decrement at each end. *)
Definition acquire : EM unit :=
  running ← mread te_concurrent_tasks;
  config ← mread te_config;
  mbail (exc_max_concurrent_tasks config <=? running)%nat (ResourceLimitExceeded "Concurrent tasks" (Z.of_nat (exc_max_concurrent_tasks config)));;
  mwrite (with_running S).
Definition release : EM unit := mwrite (with_running pred).

Definition execute_task (now : ExecutionClock) (task : Task) (input_data : Bytes) : EM WorkResult :=
  acquire;;
  config ← mread te_config;
  worker_id ← mread te_worker_id;
  mor (mresult (validate_resource_requirements config task)) (fun e => release;; mfail e);;
  output ← mor (mresult (run_task task input_data)) (fun e => release;; mfail e);
  let (output_data, execution_proof) := output : Bytes * ExecutionProof in
  let metrics := metrics_of now input_data output_data in
  mwrite (count_execution metrics (ck_elapsed_ms now));;
  let work_result := work_result_of worker_id now task input_data output_data execution_proof in
  release;;
  mret work_result.

Definition execution_get_stats (s : TaskExecutor) : ExecutionStats := te_execution_stats s.
End executor.

(** ** Facts *)

Section facts.
Context (blake3 : Bytes -> Bytes) (hex : Bytes -> string) (sign : Bytes -> Bytes).
Implicit Types s : TaskExecutor.

Definition has_room s : Prop := (te_concurrent_tasks s < exc_max_concurrent_tasks (te_config s))%nat.

Lemma released s : with_running pred (with_running S s) = s.
Proof. by destruct s. Qed.

Lemma run_task_no_panic task input : run_task blake3 hex task input <> Panic.
Proof. unfold run_task. destruct (tk_task_type task) as [[]| | |]; try done; cbn; by destruct computation_type. Qed.
Lemma validate_no_panic config task : validate_resource_requirements config task <> Panic.
Proof. unfold validate_resource_requirements. destruct (tk_task_type task); try done. by destruct (_ && _), (_ && _). Qed.

Lemma execute_task_spec now task input s :
  execute_task blake3 hex sign now task input s =
  if (exc_max_concurrent_tasks (te_config s) <=? te_concurrent_tasks s)%nat
  then (Err (ResourceLimitExceeded "Concurrent tasks" (Z.of_nat (exc_max_concurrent_tasks (te_config s)))), s)
  else match validate_resource_requirements (te_config s) task, run_task blake3 hex task input with
       | Ok _, Ok (output, proof) =>
           (Ok (work_result_of blake3 hex sign (te_worker_id s) now task input output proof),
            count_execution (metrics_of now input output) (ck_elapsed_ms now) s)
       | Ok _, Err e | Err e, _ => (Err e, s)
       | _, _ => (Panic, with_running S s)
       end.
Proof.
  unfold execute_task, acquire, release, mbind, M_bind, mread, mbail, mwrite, mor, mresult, mfail, mret, M_ret.
  destruct (_ <=? _)%nat; [done|]. cbn [te_config with_running te_worker_id].
  destruct (validate_resource_requirements _ _) as [[]|e|]; [|by rewrite released|done].
  destruct (run_task _ _ _ _) as [[output proof]|e|]; [|by rewrite released|done].
  done.
Qed.

(** A task is executed exactly when there is room for it, its requirements are within the limits of the
    executor and its kind is supported; the result is then the one of the task and its input, signed by the
    worker, and only the statistics change.  In every case the count of running tasks is what it was. *)
Theorem execute_task_correct now task input s :
  let (r, s') := execute_task blake3 hex sign now task input s in
  te_concurrent_tasks s' = te_concurrent_tasks s /\
  ((exists w, r = Ok w) <-> has_room s /\ validate_resource_requirements (te_config s) task = Ok tt /\ exists o, run_task blake3 hex task input = Ok o) /\
  (forall w, r = Ok w -> exists output proof, run_task blake3 hex task input = Ok (output, proof) /\
     w = work_result_of blake3 hex sign (te_worker_id s) now task input output proof /\
     xs_total_executions (te_execution_stats s') = to_u64 (xs_total_executions (te_execution_stats s) + 1)) /\
  ((forall w, r <> Ok w) -> s' = s).
Proof.
  rewrite execute_task_spec. unfold has_room. destruct (Nat.leb_spec (exc_max_concurrent_tasks (te_config s)) (te_concurrent_tasks s)).
  { split_and!; try done. split; [by intros []|intros [? _]; lia]. }
  pose proof (validate_no_panic (te_config s) task) as Hv. pose proof (run_task_no_panic task input) as Hr.
  destruct (validate_resource_requirements _ _) as [[]|e|]; [|split_and!; try done; split; [by intros []|by intros (_ & ? & _)]|done].
  destruct (run_task _ _ _ _) as [[output proof]|e|]; [|split_and!; try done; split; [by intros []|by intros (_ & _ & [])]|done].
  split; [done|]. split; [split; [intros _; split; [lia|split; [done|by eexists]]|intros _; by eexists]|]. split; [|intros H'; by edestruct H'].
  intros w [= <-]. by exists output, proof.
Qed.

(** Executing a task again with the same input, by any worker at any time, gives the same output and the
    same proof. *)
Theorem execution_reproducible now now' task input s s' w w' s1 s1' :
  execute_task blake3 hex sign now task input s = (Ok w, s1) -> execute_task blake3 hex sign now' task input s' = (Ok w', s1') ->
  wr_output_cid w = wr_output_cid w' /\ wr_execution_proof w = wr_execution_proof w' /\ wr_task_id w = wr_task_id w'.
Proof.
  rewrite !execute_task_spec. destruct (_ <=? _)%nat; [done|]. destruct (_ <=? _)%nat; [done|].
  destruct (validate_resource_requirements (te_config s) _) as [[]|e|]; [|done..]. destruct (run_task _ _ _ _) as [[output proof]|e|]; [|done..].
  destruct (validate_resource_requirements (te_config s') _) as [[]|e|]; [|done..]. by intros [= <- _] [= <- _].
Qed.

(** ** Running side by side

    A task that has acquired its place runs until it releases it; any number of others come and go. *)
Inductive running_step : TaskExecutor * nat -> TaskExecutor * nat -> Prop :=
  | run_start s s' n : acquire s = (Ok tt, s') -> running_step (s, n) (s', S n)
  | run_refused s e s' n : acquire s = (Err e, s') -> running_step (s, n) (s', n)
  | run_count m ms s n : running_step (s, n) (count_execution m ms s, n)
  | run_finish s s' n : release s = (Ok tt, s') -> running_step (s, S n) (s', n).

(** However executions interleave, the counter is the number of running tasks and never more than the
    configured maximum. *)
Theorem concurrency_bounded worker config s n :
  rtc running_step (task_executor_new worker config, 0%nat) (s, n) -> te_concurrent_tasks s = n /\ (n <= exc_max_concurrent_tasks config)%nat.
Proof using Type.
  clear blake3 hex sign.
  assert (forall a b, rtc running_step a b -> te_concurrent_tasks a.1 = a.2 /\ te_config a.1 = config /\ (a.2 <= exc_max_concurrent_tasks config)%nat ->
    te_concurrent_tasks b.1 = b.2 /\ (b.2 <= exc_max_concurrent_tasks config)%nat) as H.
  { induction 1 as [|a b c Hab _ IH]; [tauto|]. intros (H1 & H2 & H3). apply IH. clear IH.
    destruct Hab as [s0 s1 m E|s0 e s1 m E|mt ms s0 m|s0 s1 m E]; cbn in *; unfold acquire, release, mbind, M_bind, mread, mbail, mwrite, mret, M_ret, mfail in *.
    - destruct (Nat.leb_spec (exc_max_concurrent_tasks (te_config s0)) (te_concurrent_tasks s0)); [done|]. injection E as <-. cbn. rewrite H2 in *. split_and!; [lia|done|lia].
    - destruct (Nat.leb_spec (exc_max_concurrent_tasks (te_config s0)) (te_concurrent_tasks s0)); [by injection E as _ <-|done].
    - done.
    - injection E as <-. cbn. rewrite H1, H2. split_and!; [done|done|lia]. }
  intros Hr. apply (H _ _ Hr). cbn. split_and!; [done|done|lia].
Qed.
End facts.

(** ** Instances *)

Definition demo_requirements : ResourceRequirements := mkRequirements 1000 64 1 1.
Definition compute_task (c : ComputationType) : Task :=
  mkTask [4] [1] (Compute c demo_requirements) "input" None 5 1 100 (f64_of_Z 0) 1 0 Submitted Pending.
Definition plain_hash (bs : Bytes) : Bytes := 9 :: bs.
Definition demo_hex (bs : Bytes) : string := String.concat "." (pretty <$> bs).
Definition demo_clock : ExecutionClock := mkClock 0 5000000 5 0 0.
Definition demo_executor : TaskExecutor := task_executor_new [2] executor_config_default.
Definition demo_result : WorkResult :=
  match (execute_task plain_hash demo_hex (fun bs => bs) demo_clock (compute_task HashVerification) [1; 2] demo_executor).1 with
  | Ok w => w | _ => mkWorkResult [] [] [] "" (mkExecutionProof MerkleTree [] [] []) (mkMetrics 0 0 0 0 0 0) [] 0 end.

Lemma execution_reproducible_witness :
  wr_output_cid demo_result = wr_output_cid demo_result /\ wr_execution_proof demo_result = wr_execution_proof demo_result /\ wr_task_id demo_result = wr_task_id demo_result.
Proof.
  apply (execution_reproducible plain_hash demo_hex (fun bs => bs) demo_clock demo_clock (compute_task HashVerification) [1; 2] demo_executor demo_executor demo_result demo_result
    (count_execution (wr_execution_metrics demo_result) 5 demo_executor) (count_execution (wr_execution_metrics demo_result) 5 demo_executor)); vm_compute; reflexivity.
Defined.

Lemma concurrency_bounded_witness : 1%nat = 1%nat /\ (1 <= 4)%nat.
Proof.
  apply (concurrency_bounded [2] executor_config_default (with_running S demo_executor) 1). apply rtc_once. by apply run_start.
Defined.
