(* ===== verification/Dkg.v ===== *)
(** * Distributed key generation

    [adic-crypto/src/dkg.rs] and [adic-pouw/src/dkg_manager.rs]: a ceremony in which every participant
    commits to a polynomial and hands out shares that are checked against the commitments, and the
    manager that keeps the ceremonies and their results by epoch.  The random polynomial of a participant
    is an argument; its order of iterating over the commitments is [commitments_iter]. *)

From S2P Require Import Prelude Message Bls Vrf Quorum Amount Escrow Voting Application TaskTypes.

Inductive DKGState := DkgInitialized | CollectingCommitments | ExchangingShares | Verifying | DkgCompleted | DkgFailed (reason : string).
#[export] Instance DKGState_eq_dec : EqDecision DKGState.
Proof. solve_decision. Defined.

Record DKGCommitment := mkCommitment { dc_participant_id : nat; dc_commitments_hex : list string }.
Record DKGShare := mkDKGShare { ds_from : nat; ds_to : nat; ds_pub_key_share_hex : string }.

Section dkg.
Context {TS : ThresholdScheme} (hex : Bytes -> string) (unhex : string -> option Bytes).

Record DKGResult := mkDKGResult {
  dr_secret_key_share : SecretKeyShare;
  dr_public_key_set : PublicKeySet;
  dr_participant_id : nat;
}.

Record DKGCeremony := mkCeremony {
  dk_config : ThresholdConfig;
  dk_participant_id : nat;
  dk_state : DKGState;
  dk_local_polynomial : option SecretKeySet;
  dk_commitments : gmap nat DKGCommitment;
  dk_received_shares : gmap nat DKGShare;
  dk_my_secret_share : option SecretKeyShare;
  dk_public_key_set : option PublicKeySet;
}.
Definition ceremony_new (config : ThresholdConfig) (participant_id : nat) : DKGCeremony :=
  mkCeremony config participant_id DkgInitialized None ∅ ∅ None None.

Definition with_dkg_state (st : DKGState) (c : DKGCeremony) : DKGCeremony :=
  mkCeremony (dk_config c) (dk_participant_id c) st (dk_local_polynomial c) (dk_commitments c) (dk_received_shares c)
    (dk_my_secret_share c) (dk_public_key_set c).
Definition with_polynomial (sk : SecretKeySet) (c : DKGCeremony) : DKGCeremony :=
  mkCeremony (dk_config c) (dk_participant_id c) (dk_state c) (Some sk) (dk_commitments c) (dk_received_shares c)
    (dk_my_secret_share c) (dk_public_key_set c).
Definition with_commitment (k : DKGCommitment) (c : DKGCeremony) : DKGCeremony :=
  mkCeremony (dk_config c) (dk_participant_id c) (dk_state c) (dk_local_polynomial c)
    (<[dc_participant_id k := k]> (dk_commitments c)) (dk_received_shares c) (dk_my_secret_share c) (dk_public_key_set c).
Definition with_received (s : DKGShare) (c : DKGCeremony) : DKGCeremony :=
  mkCeremony (dk_config c) (dk_participant_id c) (dk_state c) (dk_local_polynomial c) (dk_commitments c)
    (<[ds_from s := s]> (dk_received_shares c)) (dk_my_secret_share c) (dk_public_key_set c).
Definition with_keys (share : SecretKeyShare) (pk : PublicKeySet) (c : DKGCeremony) : DKGCeremony :=
  mkCeremony (dk_config c) (dk_participant_id c) DkgCompleted (dk_local_polynomial c) (dk_commitments c) (dk_received_shares c)
    (Some share) (Some pk).

Local Notation DK := (M DKGCeremony BLSError).

Definition dkg_start (c : DKGCeremony) : DKGCeremony := with_dkg_state CollectingCommitments c.
Definition in_state (allowed : list DKGState) (what : string) : DK unit :=
  st ← mread dk_state;
  mbail (negb (bool_decide (st ∈ allowed))) (ThresholdCryptoError what).

(** [sk_set] is the polynomial drawn. *)
Definition commitment_of (participant_id : nat) (sk_set : SecretKeySet) : DKGCommitment :=
  mkCommitment participant_id [hex (ser_public_key_set (public_keys sk_set))].
Definition generate_commitment (sk_set : SecretKeySet) : DK DKGCommitment :=
  in_state [CollectingCommitments] "Not in commitment phase";;
  mwrite (with_polynomial sk_set);;
  mread (fun c => commitment_of (dk_participant_id c) sk_set).

Definition add_commitment (commitment : DKGCommitment) : DK unit :=
  in_state [CollectingCommitments; ExchangingShares] "Not accepting commitments in current state";;
  mwrite (with_commitment commitment);;
  complete ← mread (fun c => (size (dk_commitments c) =? total_participants (dk_config c))%nat);
  mwhen complete (mwrite (with_dkg_state ExchangingShares)).

Definition share_for (from : nat) (sk_set : SecretKeySet) (to : nat) : DKGShare :=
  mkDKGShare from to (hex (ser_public_key_share (public_key_share (public_keys sk_set) to))).
Definition generate_shares : DK (list DKGShare) :=
  in_state [ExchangingShares] "Not in share exchange phase";;
  polynomial ← mread dk_local_polynomial;
  sk_set ← mopt polynomial (ThresholdCryptoError "Polynomial not generated yet");
  mread (fun c => share_for (dk_participant_id c) sk_set <$> List.filter (fun i => negb (i =? dk_participant_id c)%nat) (seq 0 (total_participants (dk_config c)))).

(** [commitments_hex[0]]: an empty list panics. *)
Definition commitment_key_set (k : DKGCommitment) : result BLSError PublicKeySet :=
  match dc_commitments_hex k with
  | [] => Panic
  | h :: _ =>
      let? bytes := result_of_option (unhex h) (BlsSerialization "hex") in
      result_of_option (de_public_key_set bytes) (BlsSerialization "bincode")
  end.

Definition add_share (share : DKGShare) : DK unit :=
  in_state [ExchangingShares; Verifying] "Not accepting shares in current state";;
  me ← mread dk_participant_id;
  mbail (negb (ds_to share =? me)%nat) (ThresholdCryptoError "Share not intended for us");;
  commitments ← mread dk_commitments;
  sender_commitment ← mopt (commitments !! ds_from share) (ThresholdCryptoError "No commitment from participant");
  sender_pk_set ← mresult (commitment_key_set sender_commitment);
  received_bytes ← mopt (unhex (ds_pub_key_share_hex share)) (BlsSerialization "hex");
  received_pk_share ← mopt (de_public_key_share received_bytes) (BlsSerialization "bincode");
  mbail (negb (bool_decide (public_key_share sender_pk_set me = received_pk_share)))
    (ThresholdCryptoError "Share verification failed: does not match Feldman commitment");;
  mwrite (with_received share);;
  complete ← mread (fun c => (size (dk_received_shares c) =? total_participants (dk_config c) - 1)%nat);
  mwhen complete (mwrite (with_dkg_state Verifying)).

Section finalization.
Context (commitments_iter : gmap nat DKGCommitment -> list (nat * DKGCommitment)).

Definition dkg_finalize : DK DKGResult :=
  in_state [Verifying] "Cannot finalize in current state";;
  polynomial ← mread dk_local_polynomial;
  sk_set ← mopt polynomial (ThresholdCryptoError "Local polynomial not generated");
  me ← mread dk_participant_id;
  let our_own_share := secret_key_share sk_set me in
  commitments ← mread dk_commitments;
  all_pk_sets ← mresult (try_map commitment_key_set (commitments_iter commitments).*2);
  pk_set ← mopt (head all_pk_sets) (ThresholdCryptoError "No public key sets available");
  mwrite (with_keys our_own_share pk_set);;
  mret (mkDKGResult our_own_share pk_set me).
End finalization.

Definition dkg_is_complete (c : DKGCeremony) : bool := bool_decide (dk_state c = DkgCompleted).

(** ** The manager *)

Record DKGManager := mkDKGManager {
  dm_public_key_sets : gmap Z PublicKeySet;
  dm_active_ceremonies : gmap Z DKGCeremony;
  dm_secret_shares : gmap Z SecretKeyShare;
}.
Definition dkg_manager_new : DKGManager := mkDKGManager ∅ ∅ ∅.

Local Notation DM := (M DKGManager PoUWError).

Definition with_ceremonies (f : gmap Z DKGCeremony -> gmap Z DKGCeremony) (s : DKGManager) : DKGManager :=
  mkDKGManager (dm_public_key_sets s) (f (dm_active_ceremonies s)) (dm_secret_shares s).

Definition start_ceremony (epoch_id : Z) (participant_id : nat) (config : ThresholdConfig) : DM unit :=
  ceremonies ← mread dm_active_ceremonies;
  mbail (bool_decide (is_Some (ceremonies !! epoch_id))) (Other "DKG ceremony already active for epoch");;
  mwrite (with_ceremonies (insert epoch_id (dkg_start (ceremony_new config participant_id)))).

(** [get_mut] on the ceremony of the epoch, and a call on it. *)
Definition on_ceremony {A} (epoch_id : Z) (op : DK A) : DM A :=
  ceremonies ← mread dm_active_ceremonies;
  ceremony ← mopt (ceremonies !! epoch_id) (Other "No active ceremony for epoch");
  let (r, c) := op ceremony in
  mwrite (with_ceremonies (insert epoch_id c));;
  mmap_err BLSFault (mresult r).

Definition manager_generate_commitment (epoch_id : Z) (sk_set : SecretKeySet) : DM DKGCommitment := on_ceremony epoch_id (generate_commitment sk_set).
Definition manager_add_commitment (epoch_id : Z) (commitment : DKGCommitment) : DM unit := on_ceremony epoch_id (add_commitment commitment).
Definition manager_generate_shares (epoch_id : Z) : DM (list DKGShare) := on_ceremony epoch_id generate_shares.
Definition manager_add_share (epoch_id : Z) (share : DKGShare) : DM unit := on_ceremony epoch_id (add_share share).

Definition store_keys (epoch_id : Z) (r : DKGResult) (s : DKGManager) : DKGManager :=
  mkDKGManager (<[epoch_id := dr_public_key_set r]> (dm_public_key_sets s)) (dm_active_ceremonies s)
    (<[epoch_id := dr_secret_key_share r]> (dm_secret_shares s)).
Definition finalize_ceremony (commitments_iter : gmap nat DKGCommitment -> list (nat * DKGCommitment)) (epoch_id : Z) : DM PublicKeySet :=
  result ← on_ceremony epoch_id (dkg_finalize commitments_iter);
  mwrite (store_keys epoch_id result);;
  mwrite (with_ceremonies (delete epoch_id));;
  mret (dr_public_key_set result).

Definition get_public_key_set (s : DKGManager) (epoch_id : Z) : result PoUWError PublicKeySet :=
  result_of_option (dm_public_key_sets s !! epoch_id) (Other "No PublicKeySet for epoch").
Definition get_secret_share (s : DKGManager) (epoch_id : Z) : result PoUWError SecretKeyShare :=
  result_of_option (dm_secret_shares s !! epoch_id) (Other "No secret share for epoch").
Definition manager_is_complete (s : DKGManager) (epoch_id : Z) : bool := bool_decide (is_Some (dm_public_key_sets s !! epoch_id)).
Definition get_ceremony_state (s : DKGManager) (epoch_id : Z) : result PoUWError DKGState :=
  let? ceremony := result_of_option (dm_active_ceremonies s !! epoch_id) (Other "No active ceremony for epoch") in
  Ok (dk_state ceremony).
End dkg.

(** ** One ceremony *)

Section facts.
Context {TS : ThresholdScheme} (hex : Bytes -> string) (unhex : string -> option Bytes).
Implicit Types c : DKGCeremony.

Lemma in_state_spec allowed what c :
  in_state allowed what c = (if bool_decide (dk_state c ∈ allowed) then Ok tt else Err (ThresholdCryptoError what), c).
Proof. unfold in_state, mbind, M_bind, mread, mbail, mfail, mret, M_ret. by case_bool_decide. Qed.

Lemma commitment_key_set_cases k : (exists pk, commitment_key_set unhex k = Ok pk) \/ is_err (commitment_key_set unhex k) = true \/ commitment_key_set unhex k = Panic.
Proof.
  unfold commitment_key_set. destruct (dc_commitments_hex k) as [|h l]; [by right; right|]. destruct (unhex h); cbn; [|by right; left].
  destruct (de_public_key_set _); cbn; [left; by eexists|by right; left].
Qed.

(** The share is for the participant and is the value of the sender's commitment there. *)
Definition vouched c (share : DKGShare) : Prop :=
  ds_to share = dk_participant_id c /\
  exists k pk_set bytes, dk_commitments c !! ds_from share = Some k /\ commitment_key_set unhex k = Ok pk_set /\
    unhex (ds_pub_key_share_hex share) = Some bytes /\ de_public_key_share bytes = Some (public_key_share pk_set (dk_participant_id c)).

Definition received c (share : DKGShare) : DKGCeremony :=
  let c' := with_received share c in
  if (size (dk_received_shares c') =? total_participants (dk_config c) - 1)%nat then with_dkg_state Verifying c' else c'.

Lemma add_share_vouched share c :
  dk_state c ∈ [ExchangingShares; Verifying] -> vouched c share -> add_share unhex share c = (Ok tt, received c share).
Proof.
  intros Hst (Hto & k & pk & bs & Hk & Hpk & Hbs & Hde). unfold add_share, mbind, M_bind. rewrite in_state_spec, bool_decide_eq_true_2 by done.
  unfold mread, mbail, mopt, mresult, mret, M_ret, mwrite, mwhen. rewrite (proj2 (Nat.eqb_eq _ _) Hto). cbn. rewrite Hk. cbn. rewrite Hpk, Hbs. cbn. rewrite Hde. cbn.
  rewrite bool_decide_eq_true_2 by done. cbn. unfold received. cbn. by destruct (_ =? _)%nat.
Qed.

Lemma add_share_not_vouched share c r c' :
  add_share unhex share c = (r, c') -> (r = Ok tt /\ dk_state c ∈ [ExchangingShares; Verifying] /\ vouched c share) \/ (r <> Ok tt /\ c' = c).
Proof.
  unfold add_share, mbind, M_bind. rewrite in_state_spec. case_bool_decide as Hst; [|intros [= <- <-]; by right].
  unfold mread, mbail, mopt, mresult, mret, M_ret, mwrite, mwhen, mfail. destruct (Nat.eqb_spec (ds_to share) (dk_participant_id c)) as [Hto|]; cbn; [|intros [= <- <-]; by right].
  destruct (dk_commitments c !! ds_from share) as [k|] eqn:Hk; cbn; [|intros [= <- <-]; by right].
  destruct (commitment_key_set unhex k) as [pk|e|] eqn:Hpk; cbn; [|intros [= <- <-]; by right..].
  destruct (unhex _) as [bs|] eqn:Hbs; cbn; [|intros [= <- <-]; by right].
  destruct (de_public_key_share bs) as [ps|] eqn:Hps; cbn; [|intros [= <- <-]; by right].
  case_bool_decide as Heq; cbn; [|intros [= <- <-]; by right]. subst ps. intros H. left. split; [by destruct (_ =? _)%nat; injection H|].
  split; [done|]. split; [done|]. by exists k, pk, bs.
Qed.

(** A share is accepted exactly in the two share phases, when it is meant for the participant and is the
    value of the sender's commitment at its index; then it is recorded, the last one ends the exchange, and
    otherwise nothing changes. *)
Theorem add_share_correct share c :
  let (r, c') := add_share unhex share c in
  (r = Ok tt <-> dk_state c ∈ [ExchangingShares; Verifying] /\ vouched c share) /\
  (r = Ok tt -> c' = received c share) /\ (r <> Ok tt -> c' = c).
Proof.
  destruct (add_share unhex share c) as [r c'] eqn:E. destruct (add_share_not_vouched _ _ _ _ E) as [(-> & Hst & Hv)|[Hr ->]].
  - rewrite (add_share_vouched _ _ Hst Hv) in E. injection E as <-. done.
  - split; [|done]. split; [done|]. intros [Hst Hv]. rewrite (add_share_vouched _ _ Hst Hv) in E. by injection E as <-.
Qed.

(** A commitment without text makes the check of its sender's share panic. *)
Theorem empty_commitment_panics share c k :
  dk_state c = ExchangingShares -> ds_to share = dk_participant_id c -> dk_commitments c !! ds_from share = Some k ->
  dc_commitments_hex k = [] -> (add_share unhex share c).1 = Panic.
Proof.
  intros Hst Hto Hk Hh. unfold add_share, mbind, M_bind. rewrite in_state_spec, bool_decide_eq_true_2 by (rewrite Hst; left).
  unfold mread, mbail, mopt, mresult, mret, M_ret. rewrite (proj2 (Nat.eqb_eq _ _) Hto). cbn. rewrite Hk. cbn.
  unfold commitment_key_set. by rewrite Hh.
Qed.

Definition committed (k : DKGCommitment) c : DKGCeremony :=
  let c' := with_commitment k c in
  if (size (dk_commitments c') =? total_participants (dk_config c))%nat then with_dkg_state ExchangingShares c' else c'.

Lemma add_commitment_spec k c :
  add_commitment k c =
  if bool_decide (dk_state c ∈ [CollectingCommitments; ExchangingShares]) then (Ok tt, committed k c)
  else (Err (ThresholdCryptoError "Not accepting commitments in current state"), c).
Proof.
  unfold add_commitment, mbind, M_bind. rewrite in_state_spec. case_bool_decide; [|done].
  unfold mread, mwrite, mwhen, mret, M_ret, committed. cbn. by destruct (_ =? _)%nat.
Qed.

(** A participant may replace its commitment while shares are exchanged: the shares already accepted from
    it then no longer match it. *)
Theorem commitment_replaced k c :
  dk_state c = ExchangingShares -> let (r, c') := add_commitment k c in
  r = Ok tt /\ dk_commitments c' !! dc_participant_id k = Some k /\ dk_received_shares c' = dk_received_shares c.
Proof.
  intros Hst. rewrite add_commitment_spec, bool_decide_eq_true_2 by (rewrite Hst; right; left). split; [done|].
  unfold committed. destruct (_ =? _)%nat; cbn; by rewrite lookup_insert_eq.
Qed.
End facts.

(** ** An honest ceremony *)

Fixpoint run_each {S E A} (f : A -> M S E unit) (l : list A) : M S E unit :=
  match l with [] => mret tt | a :: l => f a;; run_each f l end.

Section honest.
Context {TS : ThresholdScheme} {TL : ThresholdLaws TS} (hex : Bytes -> string) (unhex : string -> option Bytes).
Context (Hhex : forall bs, unhex (hex bs) = Some bs).
Context (sk : nat -> SecretKeySet) (config : ThresholdConfig) (me : nat).
Implicit Types c : DKGCeremony.
Local Notation n := (total_participants config).

(** The participant [me]: it commits, collects all commitments, checks the shares of the [others] and finalizes. *)
Definition honest_run (commitments_iter : gmap nat DKGCommitment -> list (nat * DKGCommitment)) (order others : list nat) : M DKGCeremony BLSError DKGResult :=
  _ ← generate_commitment hex (sk me);
  run_each (fun i => add_commitment (commitment_of hex i (sk i))) order;;
  run_each (fun j => add_share unhex (share_for hex j (sk j) me)) others;;
  dkg_finalize unhex commitments_iter.

Record in_progress (committers senders : list nat) (st : DKGState) c : Prop := {
  ip_config : dk_config c = config;
  ip_me : dk_participant_id c = me;
  ip_polynomial : dk_local_polynomial c = Some (sk me);
  ip_state : dk_state c = st;
  ip_commitments i : dk_commitments c !! i = if decide (i ∈ committers) then Some (commitment_of hex i (sk i)) else None;
  ip_committed : size (dk_commitments c) = length committers;
  ip_received i : is_Some (dk_received_shares c !! i) <-> i ∈ senders;
  ip_senders : size (dk_received_shares c) = length senders;
}.

Definition collecting_state (pre : list nat) : DKGState := if (length pre =? n)%nat then ExchangingShares else CollectingCommitments.
Definition exchanging_state (pre : list nat) : DKGState := if (length pre =? n - 1)%nat then Verifying else ExchangingShares.

Lemma add_own_commitment pre i c :
  in_progress pre [] (collecting_state pre) c -> i ∉ pre ->
  exists c', add_commitment (commitment_of hex i (sk i)) c = (Ok tt, c') /\ in_progress (i :: pre) [] (collecting_state (i :: pre)) c'
    \/ (n <= length pre)%nat.
Proof.
  intros Hc Hi. destruct (Nat.ltb_spec (length pre) n); [|exists c; by right]. destruct Hc as [H1 H2 H3 H4 H5 H6 H7 H8].
  rewrite add_commitment_spec. assert (dk_state c = CollectingCommitments) as Hst.
  { rewrite H4. unfold collecting_state. destruct (Nat.eqb_spec (length pre) n); [lia|done]. }
  rewrite bool_decide_eq_true_2 by (rewrite Hst; left). eexists. left. split; [reflexivity|].
  assert (size (<[i := commitment_of hex i (sk i)]> (dk_commitments c)) = S (length pre)) as Hsz.
  { rewrite map_size_insert_None; [by rewrite H6|]. by rewrite H5, decide_False. }
  unfold committed, collecting_state. cbn [with_commitment dk_commitments dc_participant_id commitment_of length]. rewrite Hsz, H1.
  assert (forall j, <[i := commitment_of hex i (sk i)]> (dk_commitments c) !! j = if decide (j ∈ i :: pre) then Some (commitment_of hex j (sk j)) else None) as Hl.
  { intros j. destruct (decide (i = j)) as [<-|Hij]; [rewrite lookup_insert_eq, decide_True; [done|left]|].
    rewrite lookup_insert_ne, H5 by done. repeat case_decide; set_solver. }
  destruct (S (length pre) =? n)%nat; split; cbn; done.
Qed.

Lemma collect_all order pre c :
  in_progress pre [] (collecting_state pre) c -> NoDup (order ++ pre) -> (length order + length pre <= n)%nat ->
  exists c', run_each (fun i => add_commitment (commitment_of hex i (sk i))) order c = (Ok tt, c') /\
    in_progress (rev order ++ pre) [] (collecting_state (rev order ++ pre)) c'.
Proof.
  revert pre c. induction order as [|i order IH]; intros pre c Hc Hnd Hl; [by exists c|]. cbn [app length] in *.
  apply NoDup_cons in Hnd as [Hi Hnd]. destruct (add_own_commitment pre i c Hc) as (c1 & [[E Hc1]|?]); [set_solver| |lia].
  destruct (IH (i :: pre) c1 Hc1) as (c' & E' & Hc').
  - apply NoDup_app in Hnd as (H1 & H2 & H3). apply NoDup_app. split; [done|]. split; [|constructor; [set_solver|done]]. set_solver.
  - cbn. lia.
  - exists c'. split; [cbn [run_each]; unfold mbind, M_bind; by rewrite E|]. cbn [rev]. by rewrite <-app_assoc.
Qed.

Lemma add_honest_share all pre j c :
  in_progress all pre (exchanging_state pre) c -> j ∈ all -> j ∉ pre -> (length pre < n - 1)%nat ->
  exists c', add_share unhex (share_for hex j (sk j) me) c = (Ok tt, c') /\ in_progress all (j :: pre) (exchanging_state (j :: pre)) c'.
Proof using Hhex TL.
  intros [H1 H2 H3 H4 H5 H6 H7 H8] Hj Hpre Hl.
  assert (dk_state c = ExchangingShares) as Hst.
  { rewrite H4. unfold exchanging_state. destruct (Nat.eqb_spec (length pre) (n - 1)); [lia|done]. }
  rewrite add_share_vouched; [|rewrite Hst; left|].
  - eexists. split; [reflexivity|]. set (share := share_for hex j (sk j) me).
    assert (size (<[j := share]> (dk_received_shares c)) = S (length pre)) as Hsz.
    { rewrite map_size_insert_None; [by rewrite H8|]. apply eq_None_not_Some. by rewrite H7. }
    unfold received, exchanging_state. cbn [with_received dk_received_shares ds_from share_for length]. fold share. unfold share at 1 2 3. cbn [ds_from share_for].
    fold share. rewrite Hsz, H1.
    assert (forall i, is_Some (<[j := share]> (dk_received_shares c) !! i) <-> i ∈ j :: pre) as Hr.
    { intros i. rewrite lookup_insert_is_Some, H7, elem_of_cons. destruct (decide (j = i)); naive_solver. }
    destruct (S (length pre) =? n - 1)%nat; split; cbn; done.
  - split; [cbn; by rewrite H2|]. exists (commitment_of hex j (sk j)), (public_keys (sk j)), (ser_public_key_share (public_key_share (public_keys (sk j)) me)).
    cbn [ds_from share_for ds_pub_key_share_hex]. rewrite H5, decide_True by done. split; [done|]. split; [|split; [by rewrite Hhex|by rewrite H2, de_ser_public_key_share]].
    unfold commitment_key_set. cbn. rewrite Hhex. cbn. by rewrite de_ser_public_key_set.
Qed.

Lemma exchange_all all others pre c :
  in_progress all pre (exchanging_state pre) c -> NoDup (others ++ pre) -> (length others + length pre <= n - 1)%nat -> others ⊆ all ->
  exists c', run_each (fun j => add_share unhex (share_for hex j (sk j) me)) others c = (Ok tt, c') /\
    in_progress all (rev others ++ pre) (exchanging_state (rev others ++ pre)) c'.
Proof using Hhex TL.
  revert pre c. induction others as [|j others IH]; intros pre c Hc Hnd Hl Hall; [by exists c|]. cbn [app length] in *.
  apply NoDup_cons in Hnd as [Hj Hnd]. destruct (add_honest_share all pre j c Hc) as (c1 & E & Hc1); [set_solver|set_solver|lia|].
  destruct (IH (j :: pre) c1 Hc1) as (c' & E' & Hc').
  - apply NoDup_app in Hnd as (H1 & H2 & H3). apply NoDup_app. split; [done|]. split; [|constructor; [set_solver|done]]. set_solver.
  - cbn. lia.
  - set_solver.
  - exists c'. split; [cbn [run_each]; unfold mbind, M_bind; by rewrite E|]. cbn [rev]. by rewrite <-app_assoc.
Qed.

Lemma honest_start : in_progress [] [] CollectingCommitments (with_polynomial (sk me) (dkg_start (ceremony_new config me))).
Proof. split; cbn; try done. intros i. split; [intros [x Hx]; done|by intros ?%elem_of_nil]. Qed.

Lemma try_map_all {A B E} (f : A -> result E B) (l : list A) (g : A -> B) : Forall (fun a => f a = Ok (g a)) l -> try_map f l = Ok (g <$> l).
Proof. induction 1 as [|a l H _ IH]; [done|]. cbn [try_map]. by rewrite H, IH. Qed.

Lemma key_sets_decode all st c iter :
  (forall m, iter m ≡ₚ map_to_list m) -> in_progress all [] st c \/ (exists senders, in_progress all senders st c) ->
  try_map (commitment_key_set unhex) (iter (dk_commitments c)).*2 = Ok ((fun ik => public_keys (sk ik.1)) <$> iter (dk_commitments c)).
Proof using Hhex TL.
  intros Hiter Hc. assert (forall i k, (i, k) ∈ iter (dk_commitments c) -> i ∈ all /\ k = commitment_of hex i (sk i)) as Hin.
  { intros i k Hik. rewrite (Hiter _), elem_of_map_to_list in Hik. destruct Hc as [[]|[? []]]; rewrite ip_commitments0 in Hik; by case_decide; simplify_eq. }
  clear Hc. induction (iter (dk_commitments c)) as [|[i k] l IH]; [done|]. cbn [fmap list_fmap try_map fst snd].
  destruct (Hin i k) as [_ ->]; [left|]. unfold commitment_key_set at 1. cbn. rewrite Hhex. cbn. rewrite de_ser_public_key_set. cbn.
  rewrite IH; [done|]. intros i' k' H. apply Hin. by right.
Qed.

(** The last step, with all shares there. *)
Lemma finalize_verified iter all senders c :
  (forall m, iter m ≡ₚ map_to_list m) -> in_progress all senders Verifying c -> all <> [] ->
  exists i, i ∈ all /\ fst <$> head (iter (dk_commitments c)) = Some i /\
    dkg_finalize unhex iter c = (Ok (mkDKGResult (secret_key_share (sk me) me) (public_keys (sk i)) me),
                                 with_keys (secret_key_share (sk me) me) (public_keys (sk i)) c).
Proof using Hhex TL.
  intros Hiter Hc Hne. pose proof (key_sets_decode all Verifying c iter Hiter (or_intror (ex_intro _ _ Hc))) as Ek. destruct Hc as [H1 H2 H3 H4 H5 H6 H7 H8].
  assert (exists i k rest, iter (dk_commitments c) = (i, k) :: rest /\ i ∈ all) as (i & k & rest & Hi & Hin).
  { destruct (iter (dk_commitments c)) as [|[i k] rest] eqn:E.
    - exfalso. pose proof (Hiter (dk_commitments c)) as Hp. rewrite E in Hp. apply Permutation_nil_l in Hp. symmetry in Hp. apply map_to_list_empty_iff in Hp.
      rewrite Hp, map_size_empty in H6. by destruct all.
    - exists i, k, rest. split; [done|]. assert ((i, k) ∈ map_to_list (dk_commitments c)) as Hk by (rewrite <-(Hiter _), E; left).
      apply elem_of_map_to_list in Hk. rewrite H5 in Hk. by case_decide. }
  exists i. split; [done|]. split; [by rewrite Hi|]. unfold dkg_finalize, mbind, M_bind. rewrite in_state_spec, bool_decide_eq_true_2 by (rewrite H4; left).
  unfold mread, mopt, mresult, mret, M_ret, mwrite. rewrite H3, Ek, Hi. cbn. by rewrite H2.
Qed.

(** When everybody is honest a participant that collects the commitments and the shares in any order
    finishes.  It keeps the value of its own polynomial only, with the public keys of whichever participant
    comes first in its table. *)
Theorem honest_ceremony_completes iter order others :
  (2 <= n)%nat -> order ≡ₚ seq 0 n -> others ≡ₚ List.filter (fun j => negb (j =? me)%nat) (seq 0 n) -> (me < n)%nat ->
  (forall m, iter m ≡ₚ map_to_list m) ->
  exists r c i, honest_run iter order others (dkg_start (ceremony_new config me)) = (Ok r, c) /\ dkg_is_complete c = true /\
    dr_secret_key_share r = secret_key_share (sk me) me /\ dr_participant_id r = me /\
    (i < n)%nat /\ fst <$> head (iter (dk_commitments c)) = Some i /\ dr_public_key_set r = public_keys (sk i).
Proof using Hhex TL.
  intros Hn Horder Hothers Hme Hiter.
  assert (NoDup order) as Hnd by (rewrite Horder; apply NoDup_seq). assert (length order = n) as Hlen by (by rewrite Horder, length_seq).
  assert (forall j, j ∈ others <-> (j < n)%nat /\ j <> me) as Hoth.
  { intros j. rewrite Hothers, list_elem_of_In, filter_In, <-list_elem_of_In, elem_of_seq, negb_true_iff, Nat.eqb_neq. lia. }
  assert (NoDup others) as Hndo by (rewrite Hothers; apply NoDup_ListNoDup, List.NoDup_filter, NoDup_ListNoDup, NoDup_seq).
  assert (S (length others) = n) as Hleno.
  { assert (me :: others ≡ₚ seq 0 n) as H; [|by rewrite <-(length_seq n 0), <-H]. apply NoDup_Permutation; [constructor; [by rewrite Hoth; tauto|done]|apply NoDup_seq|].
    intros j. rewrite elem_of_cons, Hoth, elem_of_seq. lia. }
  unfold honest_run, mbind, M_bind. unfold generate_commitment at 1, mbind, M_bind. rewrite in_state_spec, bool_decide_eq_true_2 by left. cbn [mwrite mread].
  destruct (collect_all order [] _ ltac:(unfold collecting_state; replace (length [] =? n)%nat with false by (symmetry; apply Nat.eqb_neq; cbn; lia); apply honest_start))
    as (c1 & E1 & Hc1); [by rewrite app_nil_r|cbn; lia|]. rewrite E1. rewrite app_nil_r in Hc1.
  assert (collecting_state (rev order) = exchanging_state []) as Est.
  { unfold collecting_state, exchanging_state. rewrite length_rev, Hlen, Nat.eqb_refl. cbn [length]. destruct (Nat.eqb_spec 0 (n - 1)); [lia|done]. }
  rewrite Est in Hc1. destruct (exchange_all (rev order) others [] c1 Hc1) as (c2 & E2 & Hc2); [by rewrite app_nil_r|cbn; lia| |].
  { intros j Hj. apply list_elem_of_In, in_rev. rewrite rev_involutive, <-list_elem_of_In, Horder, elem_of_seq. apply Hoth in Hj. lia. }
  rewrite E2. rewrite app_nil_r in Hc2. assert (exchanging_state (rev others) = Verifying) as Ev.
  { unfold exchanging_state. rewrite length_rev. destruct (Nat.eqb_spec (length others) (n - 1)); [done|lia]. }
  rewrite Ev in Hc2. destruct (finalize_verified iter _ _ c2 Hiter Hc2) as (i & Hi & Hhead & ->).
  { intros E. apply (f_equal length) in E. rewrite length_rev in E. cbn in E. lia. }
  apply list_elem_of_In, in_rev in Hi. rewrite <-list_elem_of_In, Horder, elem_of_seq in Hi.
  eexists _, _, i. split; [reflexivity|]. split; [unfold dkg_is_complete; by apply bool_decide_eq_true|]. cbn. split_and!; [done|done|lia|done|done].
Qed.
End honest.

(** ** The manager *)

Section manager.
Context {TS : ThresholdScheme} (unhex : string -> option Bytes).
Context (commitments_iter : gmap nat DKGCommitment -> list (nat * DKGCommitment)).
Implicit Types s : DKGManager.

Lemma on_ceremony_spec {A} epoch_id (op : M DKGCeremony BLSError A) s :
  on_ceremony epoch_id op s =
  match dm_active_ceremonies s !! epoch_id with
  | None => (Err (Other "No active ceremony for epoch"), s)
  | Some c =>
      let (r, c') := op c in
      (match r with Ok a => Ok a | Err e => Err (BLSFault e) | Panic => Panic end, with_ceremonies (insert epoch_id c') s)
  end.
Proof.
  unfold on_ceremony, mbind, M_bind, mread, mopt. destruct (dm_active_ceremonies s !! epoch_id) as [c|]; [|done]. cbn.
  destruct (op c) as [[a|e|] c']; done.
Qed.

Lemma dkg_finalize_keeps c r c' : dkg_finalize unhex commitments_iter c = (r, c') -> (forall x, r <> Ok x) -> c' = c.
Proof.
  unfold dkg_finalize, mbind, M_bind. rewrite in_state_spec. case_bool_decide as Hst; [|by intros [= <- <-]].
  unfold mread, mopt, mresult, mret, M_ret, mwrite, mfail. destruct (dk_local_polynomial c) as [p|]; cbn; [|by intros [= <- <-]].
  destruct (try_map _ _) as [[|pk l]|e|]; cbn; intros [= <- <-]; try done. intros H. by destruct (H (mkDKGResult (secret_key_share p (dk_participant_id c)) pk (dk_participant_id c))).
Qed.

(** Finalizing an epoch stores the keys of its ceremony and ends it; when the ceremony is missing or not
    ready nothing changes.  Other epochs are not touched. *)
Theorem finalize_ceremony_correct epoch_id s c :
  dm_active_ceremonies s !! epoch_id = Some c ->
  let (r, s') := finalize_ceremony unhex commitments_iter epoch_id s in
  match (dkg_finalize unhex commitments_iter c).1 with
  | Ok k => r = Ok (dr_public_key_set k) /\ get_public_key_set s' epoch_id = Ok (dr_public_key_set k) /\
            get_secret_share s' epoch_id = Ok (dr_secret_key_share k) /\ dm_active_ceremonies s' = delete epoch_id (dm_active_ceremonies s)
  | Err e => r = Err (BLSFault e) /\ s' = s
  | Panic => r = Panic
  end /\
  forall epoch, epoch <> epoch_id -> get_public_key_set s' epoch = get_public_key_set s epoch /\
    get_secret_share s' epoch = get_secret_share s epoch /\ dm_active_ceremonies s' !! epoch = dm_active_ceremonies s !! epoch.
Proof.
  intros Hc. unfold finalize_ceremony, mbind, M_bind. rewrite on_ceremony_spec, Hc.
  destruct (dkg_finalize unhex commitments_iter c) as [r c'] eqn:E. assert ((forall x, r <> Ok x) -> c' = c) as Hk by by apply dkg_finalize_keeps.
  unfold get_public_key_set, get_secret_share. destruct r as [k|e|]; cbn.
  - split; [split_and!; [done|by rewrite lookup_insert_eq|by rewrite lookup_insert_eq|by rewrite delete_insert_eq]|].
    intros epoch Hne. rewrite !lookup_insert_ne, lookup_delete_ne, lookup_insert_ne by done. done.
  - rewrite Hk by done. unfold with_ceremonies. rewrite insert_id by done. split; [split; [done|by destruct s]|done].
  - split; [done|]. intros epoch Hne. rewrite lookup_insert_ne by done. done.
Qed.

(** A finished epoch can be started again, and finishing it replaces its keys. *)
Theorem finished_epoch_restarts epoch_id me config s :
  dm_active_ceremonies s !! epoch_id = None ->
  let (r, s') := start_ceremony epoch_id me config s in
  r = Ok tt /\ manager_is_complete s' epoch_id = manager_is_complete s epoch_id /\ get_ceremony_state s' epoch_id = Ok CollectingCommitments.
Proof.
  intros Hn. unfold start_ceremony, mbind, M_bind, mread, mbail, mret, M_ret, mwrite. rewrite Hn. rewrite bool_decide_eq_false_2 by (by intros []).
  cbn. split; [done|]. split; [done|]. unfold get_ceremony_state. cbn. by rewrite lookup_insert_eq.
Qed.
End manager.

(** ** Two participants *)

Definition demo_polynomial (i : nat) : SecretKeySet (ThresholdScheme := toy_scheme) := (Z.of_nat (10 + i), 1%nat).
Definition demo_threshold : ThresholdConfig := mkThreshold 2 2.
Definition demo_run (iter : gmap nat DKGCommitment -> list (nat * DKGCommitment)) (me other : nat) : result BLSError DKGResult :=
  (honest_run toy_hex toy_unhex demo_polynomial me iter [0; 1]%nat [other] (dkg_start (ceremony_new demo_threshold me))).1.
Definition backwards (m : gmap nat DKGCommitment) : list (nat * DKGCommitment) := rev (map_to_list m).

(** The two honest participants of a ceremony finish with different public keys when their tables are
    iterated in different orders; and when in the same, their key shares still belong to different
    polynomials: their signature shares combine into a signature that does not verify. *)
Theorem finished_keys_disagree :
  exists r0 r1 r1', demo_run map_to_list 0 1 = Ok r0 /\ demo_run map_to_list 1 0 = Ok r1 /\ demo_run backwards 1 0 = Ok r1' /\
  dr_public_key_set r0 <> dr_public_key_set r1' /\ dr_public_key_set r0 = dr_public_key_set r1 /\
  exists sig, aggregate_shares toy_hex toy_unhex demo_threshold (dr_public_key_set r0)
    [sign_share toy_hex (dr_secret_key_share r0) 0 [7] POUW_COMMITTEE; sign_share toy_hex (dr_secret_key_share r1) 1 [7] POUW_COMMITTEE] = Ok sig /\
    bls_verify toy_unhex (dr_public_key_set r0) [7] POUW_COMMITTEE sig = Ok false.
Proof. eexists _, _, _. split; [vm_compute; reflexivity|]. split; [vm_compute; reflexivity|]. split; [vm_compute; reflexivity|].
  split; [vm_compute; done|]. split; [vm_compute; done|]. eexists. split; vm_compute; reflexivity. Qed.

Lemma honest_ceremony_completes_witness :
  exists r c i, honest_run toy_hex toy_unhex demo_polynomial 0 map_to_list [1; 0]%nat [1]%nat (dkg_start (ceremony_new demo_threshold 0)) = (Ok r, c) /\
    dkg_is_complete c = true /\ dr_secret_key_share r = secret_key_share (demo_polynomial 0) 0 /\ dr_participant_id r = 0%nat /\
    (i < 2)%nat /\ fst <$> head (map_to_list (dk_commitments c)) = Some i /\ dr_public_key_set r = public_keys (demo_polynomial i).
Proof.
  apply (honest_ceremony_completes toy_hex toy_unhex toy_hex_roundtrip demo_polynomial demo_threshold 0 map_to_list [1; 0]%nat [1]%nat).
  - cbn. lia.
  - apply Permutation_swap.
  - done.
  - cbn. lia.
  - done.
Defined.

Definition exchanging (me : nat) (k : DKGCommitment) : DKGCeremony :=
  with_dkg_state ExchangingShares (with_commitment k (ceremony_new demo_threshold me)).
Lemma empty_commitment_panics_witness : (add_share toy_unhex (mkDKGShare 1 0 "") (exchanging 0 (mkCommitment 1 []))).1 = Panic.
Proof. apply (empty_commitment_panics toy_unhex _ _ (mkCommitment 1 [])); vm_compute; reflexivity. Defined.
Lemma commitment_replaced_witness :
  let (r, c') := add_commitment (mkCommitment 1 ["b"%string]) (exchanging 0 (mkCommitment 1 ["a"%string])) in
  r = Ok tt /\ dk_commitments c' !! 1%nat = Some (mkCommitment 1 ["b"%string]) /\ dk_received_shares c' = ∅.
Proof. apply (commitment_replaced (mkCommitment 1 ["b"%string]) (exchanging 0 (mkCommitment 1 ["a"%string]))). reflexivity. Defined.

Definition idle_manager : DKGManager := with_ceremonies (insert 5 (exchanging 0 (mkCommitment 1 []))) dkg_manager_new.
Lemma finalize_ceremony_correct_witness :
  let (r, s') := finalize_ceremony toy_unhex map_to_list 5 idle_manager in
  match (dkg_finalize toy_unhex map_to_list (exchanging 0 (mkCommitment 1 []))).1 with
  | Ok k => r = Ok (dr_public_key_set k) /\ get_public_key_set s' 5 = Ok (dr_public_key_set k) /\
            get_secret_share s' 5 = Ok (dr_secret_key_share k) /\ dm_active_ceremonies s' = delete 5 (dm_active_ceremonies idle_manager)
  | Err e => r = Err (BLSFault e) /\ s' = idle_manager
  | Panic => r = Panic
  end /\
  forall epoch, epoch <> 5 -> get_public_key_set s' epoch = get_public_key_set idle_manager epoch /\
    get_secret_share s' epoch = get_secret_share idle_manager epoch /\ dm_active_ceremonies s' !! epoch = dm_active_ceremonies idle_manager !! epoch.
Proof. apply (finalize_ceremony_correct toy_unhex map_to_list 5 idle_manager (exchanging 0 (mkCommitment 1 []))). reflexivity. Defined.
Lemma finished_epoch_restarts_witness :
  let (r, s') := start_ceremony 5 0 demo_threshold (dkg_manager_new (TS := toy_scheme)) in
  r = Ok tt /\ manager_is_complete s' 5 = false /\ get_ceremony_state s' 5 = Ok CollectingCommitments.
Proof. apply (finished_epoch_restarts 5 0 demo_threshold (dkg_manager_new (TS := toy_scheme))). reflexivity. Defined.
