(* ===== verification/Signing.v ===== *)
(** * Collecting threshold signatures

    [adic-pouw/src/bls_coordinator.rs]: sessions that collect the signature shares of a committee and
    combine them at the threshold.  Instants are numbers; [now] is the clock at a call.  The order in which
    a table of shares is iterated is [shares_iter].  Log lines are left out. *)

From stdpp Require Import pretty.
From S2P Require Import Prelude Message Vrf Quorum Bls Amount Escrow Voting Application TaskTypes Dkg.

Definition DST_COMMITTEE_CERT : Bytes := str_bytes "ADIC-PoUW-COMMITTEE-v1".
Definition DST_TASK_RECEIPT : Bytes := str_bytes "ADIC-PoUW-RECEIPT-v1".

(** The timeout in nanoseconds. *)
Record BLSCoordinatorConfig := mkCoordinatorConfig {
  bc_collection_timeout : Z;
  bc_threshold : nat;
  bc_total_members : nat;
}.
Definition coordinator_config_default : BLSCoordinatorConfig := mkCoordinatorConfig (60 * 1000000000) 10 15.

Definition SigningRequestId : Type := string.

Record ShareSigningRequest := mkSigningRequest {
  sr_request_id : SigningRequestId;
  sr_message : Bytes;
  sr_dst : Bytes;
  sr_committee_members : list PublicKey;
  sr_threshold : nat;
  sr_deadline : Z;
}.

Record CollectionSession := mkCollection {
  co_request : ShareSigningRequest;
  co_shares : gmap PublicKey BLSSignatureShare;
  co_created_at : Z;
  co_completed : bool;
}.

Record SigningStatus := mkSigningStatus {
  ss_request_id : SigningRequestId;
  ss_shares_collected : nat;
  ss_threshold : nat;
  ss_committee_size : nat;
  ss_completed : bool;
  ss_elapsed : Z;
  ss_time_remaining : Z;
}.

Section signing.
Context {TS : ThresholdScheme} (hex : Bytes -> string) (unhex : string -> option Bytes).
Context (shares_iter : gmap PublicKey BLSSignatureShare -> list (PublicKey * BLSSignatureShare)).

(** [&data_hash[..8]]: the caller's hashes have 32 bytes. *)
Definition signing_request_id (prefix : string) (epoch : Z) (data_hash : Bytes) : SigningRequestId :=
  (prefix +:+ "-" +:+ pretty (Z.to_N epoch) +:+ "-" +:+ hex (take 8 data_hash))%string.

Record BLSCoordinator := mkCoordinator {
  bl_config : BLSCoordinatorConfig;
  bl_dkg_manager : option DKGManager;
  bl_public_key_set : option PublicKeySet;
  bl_sessions : gmap SigningRequestId CollectionSession;
}.
Definition coordinator_new (config : BLSCoordinatorConfig) : BLSCoordinator := mkCoordinator config None None ∅.
Definition coordinator_with_dkg (config : BLSCoordinatorConfig) (dkg_manager : DKGManager) : BLSCoordinator :=
  mkCoordinator config (Some dkg_manager) None ∅.

Local Notation BM := (M BLSCoordinator PoUWError).
Implicit Types s : BLSCoordinator.

Definition set_public_key_set (pk_set : PublicKeySet) s : BLSCoordinator :=
  mkCoordinator (bl_config s) (bl_dkg_manager s) (Some pk_set) (bl_sessions s).
Definition has_public_key_set s : bool := bool_decide (is_Some (bl_public_key_set s)).
Definition with_collections (f : gmap SigningRequestId CollectionSession -> gmap SigningRequestId CollectionSession) s : BLSCoordinator :=
  mkCoordinator (bl_config s) (bl_dkg_manager s) (bl_public_key_set s) (f (bl_sessions s)).

Definition sign_with_share s (epoch_id : Z) (participant : nat) (message dst : Bytes) : result PoUWError BLSSignatureShare :=
  let? dkg_manager := result_of_option (bl_dkg_manager s) (Other "DKG manager not configured") in
  let? secret_share := get_secret_share dkg_manager epoch_id in
  Ok (sign_share hex secret_share participant message dst).

Definition initiate_signing (request_id : SigningRequestId) (message dst : Bytes) (committee_members : list PublicKey) (now : Z) : BM ShareSigningRequest :=
  config ← mread bl_config;
  mbail (length committee_members <? bc_threshold config)%nat
    (InsufficientCommitteeSize (bc_threshold config) (length committee_members));;
  let request := mkSigningRequest request_id message dst committee_members (bc_threshold config) (now + bc_collection_timeout config) in
  mwrite (with_collections (insert request_id (mkCollection request ∅ now false)));;
  mret request.

Definition bls_fault {A} (r : result BLSError A) : result PoUWError A :=
  match r with Ok a => Ok a | Err e => Err (BLSFault e) | Panic => Panic end.

Definition tc_entry (share : BLSSignatureShare) : result BLSError (nat * SignatureShare) :=
  let? tc_share := to_tc_signature_share unhex share in Ok (participant_id share, tc_share).
Definition coordinator_aggregate (pk_set_opt : option PublicKeySet) (shares : list BLSSignatureShare) : result PoUWError BLSSignature :=
  let? pk_set := result_of_option pk_set_opt (BLSFault (ThresholdCryptoError "PublicKeySet not configured - run DKG first")) in
  let? tc_shares := bls_fault (try_map tc_entry shares) in
  let? aggregated := result_of_option (combine_signatures pk_set tc_shares) (BLSFault (ThresholdCryptoError "Failed to aggregate signatures")) in
  Ok (from_tc_signature hex aggregated).

Definition find_collection (request_id : SigningRequestId) : BM CollectionSession :=
  sessions ← mread bl_sessions;
  mopt (sessions !! request_id) (SigningRequestNotFound request_id).
Definition put_collection (request_id : SigningRequestId) (c : CollectionSession) : BM unit := mwrite (with_collections (insert request_id c)).

Definition with_share (signer_pk : PublicKey) (share : BLSSignatureShare) (c : CollectionSession) : CollectionSession :=
  mkCollection (co_request c) (<[signer_pk := share]> (co_shares c)) (co_created_at c) (co_completed c).
Definition completed_collection (c : CollectionSession) : CollectionSession :=
  mkCollection (co_request c) (co_shares c) (co_created_at c) true.
Definition collected (c : CollectionSession) : list BLSSignatureShare := (shares_iter (co_shares c)).*2.

Definition submit_share (request_id : SigningRequestId) (signer_pk : PublicKey) (share : BLSSignatureShare) (now : Z) : BM (option BLSSignature) :=
  session ← find_collection request_id;
  mbail (co_completed session) (SigningSessionCompleted request_id);;
  mbail (sr_deadline (co_request session) <? now) (SigningDeadlineExpired request_id);;
  mbail (negb (bool_decide (signer_pk ∈ sr_committee_members (co_request session)))) (UnauthorizedSigner signer_pk request_id);;
  if bool_decide (is_Some (co_shares session !! signer_pk)) then mret None
  else
    let session := with_share signer_pk share session in
    put_collection request_id session;;
    if (sr_threshold (co_request session) <=? size (co_shares session))%nat then
      pk_set_opt ← mread bl_public_key_set;
      aggregated ← mresult (coordinator_aggregate pk_set_opt (collected session));
      put_collection request_id (completed_collection session);;
      mret (Some aggregated)
    else mret None.

Definition get_signing_status s (request_id : SigningRequestId) (now : Z) : result PoUWError SigningStatus :=
  let? session := result_of_option (bl_sessions s !! request_id) (SigningRequestNotFound request_id) in
  Ok (mkSigningStatus request_id (size (co_shares session)) (sr_threshold (co_request session))
        (length (sr_committee_members (co_request session))) (co_completed session) (now - co_created_at session)
        (Z.max 0 (sr_deadline (co_request session) - now))).

Definition get_aggregated_signature s (request_id : SigningRequestId) : result PoUWError (option BLSSignature) :=
  let? session := result_of_option (bl_sessions s !! request_id) (SigningRequestNotFound request_id) in
  if negb (co_completed session) then Ok None
  else let? aggregated := coordinator_aggregate (bl_public_key_set s) (collected session) in Ok (Some aggregated).

Definition keeps_collection (now : Z) (c : CollectionSession) : bool := (now <? sr_deadline (co_request c)) || negb (co_completed c).
Definition cleanup_expired (now : Z) s : BLSCoordinator := with_collections (filter (fun ic => keeps_collection now ic.2 = true)) s.
End signing.

(** ** Facts *)

Section facts.
Context {TS : ThresholdScheme} (hex : Bytes -> string) (unhex : string -> option Bytes).
Context (shares_iter : gmap PublicKey BLSSignatureShare -> list (PublicKey * BLSSignatureShare)).
Context (Hiter : forall m, shares_iter m ≡ₚ map_to_list m).
Implicit Types s : BLSCoordinator.

Definition put (id : SigningRequestId) (c : CollectionSession) s : BLSCoordinator := with_collections (insert id c) s.
Lemma put_put id c c' s : put id c' (put id c s) = put id c' s.
Proof. unfold put, with_collections. cbn. by rewrite insert_insert_eq. Qed.

(** The session is open for the signer. *)
Definition open_for (c : CollectionSession) (signer : PublicKey) (now : Z) : Prop :=
  co_completed c = false /\ now <= sr_deadline (co_request c) /\ signer ∈ sr_committee_members (co_request c).

Lemma submit_share_spec id signer share now s c :
  bl_sessions s !! id = Some c -> open_for c signer now ->
  submit_share hex unhex shares_iter id signer share now s =
  if bool_decide (is_Some (co_shares c !! signer)) then (Ok None, s)
  else
    let c1 := with_share signer share c in
    if (sr_threshold (co_request c) <=? S (size (co_shares c)))%nat then
      match coordinator_aggregate hex unhex (bl_public_key_set s) (collected shares_iter c1) with
      | Ok sig => (Ok (Some sig), put id (completed_collection c1) s)
      | Err e => (Err e, put id c1 s)
      | Panic => (Panic, put id c1 s)
      end
    else (Ok None, put id c1 s).
Proof.
  intros Hc (Hopen & Hnow & Hin). unfold submit_share, find_collection, mbind, M_bind, mread, mopt, mbail, mret, M_ret. rewrite Hc. cbn. rewrite Hopen.
  destruct (Z.ltb_spec (sr_deadline (co_request c)) now); [lia|]. rewrite (bool_decide_eq_true_2 (signer ∈ _)) by done. cbn.
  case_bool_decide as Hdup; [done|]. unfold put_collection, mwrite. cbn [co_request with_share co_shares].
  rewrite map_size_insert_None by (by apply eq_None_not_Some). destruct (_ <=? _)%nat; [|done]. cbn [bl_public_key_set with_collections].
  unfold mresult. destruct (coordinator_aggregate _ _ _ _) as [sig|e|]; [|done..]. unfold put. f_equal.
  unfold with_collections. cbn. by rewrite insert_insert_eq.
Qed.

Lemma submit_share_closed id signer share now s c :
  bl_sessions s !! id = Some c -> ~ open_for c signer now ->
  is_err (submit_share hex unhex shares_iter id signer share now s).1 = true /\ (submit_share hex unhex shares_iter id signer share now s).2 = s.
Proof.
  intros Hc Hno. unfold submit_share, find_collection, mbind, M_bind, mread, mopt, mbail, mret, M_ret, mfail. rewrite Hc. cbn.
  destruct (co_completed c) eqn:E1; [done|]. destruct (Z.ltb_spec (sr_deadline (co_request c)) now); [done|].
  case_bool_decide as Hin; [|done]. by destruct Hno.
Qed.

(** A share is taken exactly for an unfinished session that is not past its deadline, from a member of the
    committee, and otherwise refused without an effect; the first one of a member counts and later ones are
    ignored.  The share that reaches the threshold ends the session with the combined signature, unless the
    shares do not combine. *)
Theorem submit_share_correct id signer share now s c :
  bl_sessions s !! id = Some c ->
  let (r, s') := submit_share hex unhex shares_iter id signer share now s in
  let c1 := with_share signer share c in
  (~ open_for c signer now -> is_err r = true /\ s' = s) /\
  (open_for c signer now -> is_Some (co_shares c !! signer) -> r = Ok None /\ s' = s) /\
  (open_for c signer now -> co_shares c !! signer = None -> (S (size (co_shares c)) < sr_threshold (co_request c))%nat ->
     r = Ok None /\ s' = put id c1 s) /\
  (open_for c signer now -> co_shares c !! signer = None -> (sr_threshold (co_request c) <= S (size (co_shares c)))%nat ->
     match coordinator_aggregate hex unhex (bl_public_key_set s) (collected shares_iter c1) with
     | Ok sig => r = Ok (Some sig) /\ s' = put id (completed_collection c1) s
     | _ => (forall x, r <> Ok x) /\ s' = put id c1 s
     end).
Proof.
  intros Hc. destruct (submit_share _ _ _ _ _ _ _ _) as [r s'] eqn:E. cbn zeta. split.
  { intros Hno. pose proof (submit_share_closed id signer share now s c Hc Hno) as H. by rewrite E in H. }
  split; [|split]; intros Ho; rewrite (submit_share_spec id signer share now s c Hc Ho) in E.
  - intros Hs. rewrite bool_decide_eq_true_2 in E by done. by injection E.
  - intros Hs Hl. rewrite bool_decide_eq_false_2 in E by (by rewrite Hs; intros []). cbn zeta in E.
    destruct (Nat.leb_spec (sr_threshold (co_request c)) (S (size (co_shares c)))); [lia|]. by injection E.
  - intros Hs Hl. rewrite bool_decide_eq_false_2 in E by (by rewrite Hs; intros []). cbn zeta in E.
    rewrite (proj2 (Nat.leb_le _ _) Hl) in E. destruct (coordinator_aggregate _ _ _ _); injection E as <- <-; done.
Qed.

(** ** Sessions over time *)

(** What every stored session satisfies. *)
Definition collection_ok (config : BLSCoordinatorConfig) (id : SigningRequestId) (c : CollectionSession) : Prop :=
  sr_request_id (co_request c) = id /\ sr_threshold (co_request c) = bc_threshold config /\
  (bc_threshold config <= length (sr_committee_members (co_request c)))%nat /\
  (forall m, is_Some (co_shares c !! m) -> m ∈ sr_committee_members (co_request c)) /\
  (co_completed c = true -> (sr_threshold (co_request c) <= size (co_shares c))%nat).
Definition collections_ok s : Prop := map_Forall (collection_ok (bl_config s)) (bl_sessions s).

Inductive signing_step : BLSCoordinator -> BLSCoordinator -> Prop :=
  | st_initiate id message dst members now s : signing_step s (initiate_signing id message dst members now s).2
  | st_submit id signer share now s : signing_step s (submit_share hex unhex shares_iter id signer share now s).2
  | st_cleanup now s : signing_step s (cleanup_expired now s)
  | st_keys pk s : signing_step s (set_public_key_set pk s).

Lemma initiate_signing_spec id message dst members now s :
  initiate_signing id message dst members now s =
  if (length members <? bc_threshold (bl_config s))%nat then (Err (InsufficientCommitteeSize (bc_threshold (bl_config s)) (length members)), s)
  else
    let request := mkSigningRequest id message dst members (bc_threshold (bl_config s)) (now + bc_collection_timeout (bl_config s)) in
    (Ok request, put id (mkCollection request ∅ now false) s).
Proof. unfold initiate_signing, mbind, M_bind, mread, mbail, mret, M_ret, mwrite, mfail. by destruct (_ <? _)%nat. Qed.

Lemma put_ok id c s : collections_ok s -> collection_ok (bl_config s) id c -> collections_ok (put id c s).
Proof. intros Hs Hc. by apply map_Forall_insert_2. Qed.

Lemma submit_missing id signer share now s :
  bl_sessions s !! id = None -> submit_share hex unhex shares_iter id signer share now s = (Err (SigningRequestNotFound id), s).
Proof. intros H. unfold submit_share, find_collection, mbind, M_bind, mread, mopt. by rewrite H. Qed.

Lemma with_share_ok config id c signer share now :
  collection_ok config id c -> open_for c signer now -> collection_ok config id (with_share signer share c).
Proof.
  intros (H1 & H2 & H3 & H4 & H5) (Ho & _ & Hin). split_and!; cbn; try done; [|by rewrite Ho].
  intros m. rewrite lookup_insert_is_Some. intros [->|[_ Hm]]; [done|by apply H4].
Qed.

Lemma submit_keeps_ok id signer share now s : collections_ok s -> collections_ok (submit_share hex unhex shares_iter id signer share now s).2.
Proof.
  intros Hs. destruct (bl_sessions s !! id) as [c|] eqn:Hc; [|by rewrite submit_missing].
  assert (collection_ok (bl_config s) id c) as Hok by by apply Hs.
  destruct (decide (co_completed c = false /\ now <= sr_deadline (co_request c) /\ signer ∈ sr_committee_members (co_request c))) as [Ho|Hno].
  - rewrite (submit_share_spec id signer share now s c Hc Ho). case_bool_decide as Hdup; [done|]. cbn zeta.
    pose proof (with_share_ok _ _ _ signer share now Hok Ho) as H1. destruct (Nat.leb_spec (sr_threshold (co_request c)) (S (size (co_shares c)))) as [Hl|];
      [|by apply put_ok].
    destruct (coordinator_aggregate _ _ _ _); cbn [snd]; apply put_ok; try done.
    destruct H1 as (E1 & E2 & E3 & E4 & _). split_and!; try done. intros _. cbn.
    rewrite map_size_insert_None by (by apply eq_None_not_Some). done.
  - by rewrite (proj2 (submit_share_closed id signer share now s c Hc Hno)).
Qed.

(** C25: In every session, whatever was called, the shares are of committee members, one each, the committee is
    at least as large as the threshold, and a finished session has as many shares as the threshold. *)
Theorem signing_sessions_sound config s :
  rtc signing_step (coordinator_new config) s -> collections_ok s.
Proof.
  intros H. assert (forall s1 s2, rtc signing_step s1 s2 -> collections_ok s1 -> collections_ok s2) as Hinv.
  { induction 1 as [|s1 s2 s3 [id message dst members now s1'|id signer share now s1'|now s1'|pk s1'] _ IH]; intros Hs; [done|apply IH..].
    - rewrite initiate_signing_spec. destruct (Nat.ltb_spec (length members) (bc_threshold (bl_config s1'))); [done|]. apply put_ok; [done|].
      split_and!; cbn; try done. intros m [x Hx]. done.
    - by apply submit_keeps_ok.
    - intros j c [Hc _]%map_lookup_filter_Some. by apply Hs.
    - done. }
  apply (Hinv _ _ H). intros j c Hc. done.
Qed.

(** The clean-up removes exactly the finished sessions past their deadline: an unfinished one stays
    forever. *)
Theorem cleanup_expired_correct now s id :
  bl_sessions (cleanup_expired now s) !! id =
  match bl_sessions s !! id with
  | Some c => if decide (co_completed c = true /\ sr_deadline (co_request c) <= now) then None else Some c
  | None => None
  end.
Proof.
  unfold cleanup_expired, with_collections. cbn. destruct (bl_sessions s !! id) as [c|] eqn:Hc.
  - destruct (keeps_collection now c) eqn:K.
    + rewrite decide_False; [by apply map_lookup_filter_Some|]. intros [H1 H2]. unfold keeps_collection in K. rewrite H1, orb_false_r, Z.ltb_lt in K. lia.
    + unfold keeps_collection in K. apply orb_false_iff in K as [K1 K2]. apply negb_false_iff in K2. apply Z.ltb_ge in K1.
      rewrite decide_True by done. apply map_lookup_filter_None. right. intros c'. rewrite Hc. intros [= <-]. cbn. unfold keeps_collection.
      rewrite K2, orb_false_r, Z.ltb_lt. lia.
  - apply map_lookup_filter_None. by left.
Qed.

(** Starting a session again under the same id discards the shares it had, finished or not. *)
Theorem initiating_discards id message dst members now s :
  (bc_threshold (bl_config s) <= length members)%nat ->
  let (r, s') := initiate_signing id message dst members now s in
  (exists request, r = Ok request) /\ get_aggregated_signature hex unhex shares_iter s' id = Ok None /\
  (exists c, bl_sessions s' !! id = Some c /\ co_shares c = ∅).
Proof.
  intros Hl. rewrite initiate_signing_spec. destruct (Nat.ltb_spec (length members) (bc_threshold (bl_config s))); [lia|]. cbn zeta.
  split; [by eexists|]. unfold get_aggregated_signature, put. cbn. rewrite lookup_insert_eq. cbn. split; [done|]. by eexists.
Qed.
End facts.

(** ** Honest shares and bad ones *)

Section honest.
Context {TS : ThresholdScheme} {TL : ThresholdLaws TS} (hex : Bytes -> string) (unhex : string -> option Bytes).
Context (Hhex : forall bs, unhex (hex bs) = Some bs).
Context (shares_iter : gmap PublicKey BLSSignatureShare -> list (PublicKey * BLSSignatureShare)).
Context (Hiter : forall m, shares_iter m ≡ₚ map_to_list m).
Context (sk : SecretKeySet) (index : PublicKey -> nat).
Implicit Types s : BLSCoordinator.

(** The shares of a session are those of its members, each under its own index. *)
Definition honest_shares (c : CollectionSession) : Prop :=
  forall m share, co_shares c !! m = Some share ->
    share = sign_share hex (secret_key_share sk (index m)) (index m) (sr_message (co_request c)) (sr_dst (co_request c)).

Lemma honest_entries message dst (members : list PublicKey) :
  try_map (tc_entry unhex) ((fun m => sign_share hex (secret_key_share sk (index m)) (index m) message dst) <$> members) =
  Ok ((fun i => (i, sign_with (secret_key_share sk i) (prefixed_message dst message))) <$> (index <$> members)).
Proof using Hhex TL.
  induction members as [|m members IH]; [done|]. cbn [fmap list_fmap try_map]. unfold tc_entry at 1.
  unfold sign_share at 1. rewrite (share_roundtrip hex unhex Hhex). cbn. by rewrite IH.
Qed.

Lemma honest_collected c : honest_shares c ->
  exists members, NoDup members /\ length members = size (co_shares c) /\ (forall m, m ∈ members <-> is_Some (co_shares c !! m)) /\
  collected shares_iter c =
    (fun m => sign_share hex (secret_key_share sk (index m)) (index m) (sr_message (co_request c)) (sr_dst (co_request c))) <$> members.
Proof using Hiter.
  intros Hc. exists (shares_iter (co_shares c)).*1. assert (forall m share, (m, share) ∈ shares_iter (co_shares c) <-> co_shares c !! m = Some share) as Hin.
  { intros m share. by rewrite (Hiter _), elem_of_map_to_list. }
  split; [rewrite (Hiter _); apply NoDup_fst_map_to_list|]. split; [by rewrite length_fmap, (Hiter _), length_map_to_list|]. split.
  - intros m. rewrite list_elem_of_fmap. split; [intros ([m' sh] & -> & H%Hin); by exists sh|intros [sh H%Hin]; by exists (m, sh)].
  - unfold collected. assert (forall m share, (m, share) ∈ shares_iter (co_shares c) ->
      share = sign_share hex (secret_key_share sk (index m)) (index m) (sr_message (co_request c)) (sr_dst (co_request c))) as Hsh by (intros m sh H%Hin; by apply Hc).
    clear Hin Hc. induction (shares_iter (co_shares c)) as [|[m sh] l IH]; [done|]. cbn [fmap list_fmap fst snd]. f_equal; [apply Hsh; left|].
    apply IH. intros m' sh' H. apply Hsh. by right.
Qed.

(** When every member signs the message of the session with its own key share, the share that reaches the
    threshold gives a signature of that message under the committee's key. *)
Theorem honest_session_signs id signer now s c :
  bl_sessions s !! id = Some c -> open_for c signer now -> co_shares c !! signer = None -> honest_shares c ->
  bl_public_key_set s = Some (public_keys sk) ->
  (forall m m', m ∈ sr_committee_members (co_request c) -> m' ∈ sr_committee_members (co_request c) -> index m = index m' -> m = m') ->
  (forall m, is_Some (co_shares c !! m) -> m ∈ sr_committee_members (co_request c)) ->
  (sr_threshold (co_request c) <= S (size (co_shares c)))%nat -> (degree (public_keys sk) <= size (co_shares c))%nat ->
  let share := sign_share hex (secret_key_share sk (index signer)) (index signer) (sr_message (co_request c)) (sr_dst (co_request c)) in
  exists sig, (submit_share hex unhex shares_iter id signer share now s).1 = Ok (Some sig) /\
    bls_verify unhex (public_keys sk) (sr_message (co_request c)) (sr_dst (co_request c)) sig = Ok true.
Proof using Hhex Hiter TL.
  intros Hc Ho Hn Hsh Hpk Hinj Hmem Ht Hd share. pose proof Ho as (_ & _ & Hsigner).
  set (c1 := with_share signer share c). assert (size (co_shares c1) = S (size (co_shares c))) as Hsz by (unfold c1; cbn; by rewrite map_size_insert_None).
  assert (honest_shares c1) as Hsh1.
  { intros m sh. unfold c1. cbn. rewrite lookup_insert_Some. intros [[<- <-]|[_ H]]; [done|by apply Hsh]. }
  assert (forall m, is_Some (co_shares c1 !! m) -> m ∈ sr_committee_members (co_request c)) as Hmem1.
  { intros m. unfold c1. cbn. rewrite lookup_insert_is_Some. intros [<-|[_ H]]; [done|by apply Hmem]. }
  destruct (honest_collected c1 Hsh1) as (members & Hnd & Hlen & Hin & Hcol).
  assert (NoDup (index <$> members)) as Hndi.
  { apply NoDup_fmap_2_strong; [|done]. intros m m' Hm Hm'. apply Hinj; [apply Hmem1, Hin, Hm|apply Hmem1, Hin, Hm']. }
  destruct (enough_shares_combine sk (index <$> members) (prefixed_message (sr_dst (co_request c)) (sr_message (co_request c)))) as (sg & Hsg & Hok);
    [done|rewrite length_fmap, Hlen, Hsz; lia|].
  exists (from_tc_signature hex sg). split.
  - rewrite (submit_share_spec hex unhex shares_iter id signer share now s c Hc Ho). rewrite bool_decide_eq_false_2 by (by rewrite Hn; intros []). cbn zeta.
    rewrite (proj2 (Nat.leb_le _ _) Ht). fold c1. unfold coordinator_aggregate. rewrite Hpk. cbn [result_of_option result_bind].
    rewrite Hcol. change (co_request c1) with (co_request c). rewrite honest_entries. cbn [bls_fault result_bind]. by rewrite Hsg.
  - unfold bls_verify. rewrite (signature_roundtrip hex unhex Hhex). cbn. by rewrite Hok.
Qed.
End honest.

Section blocked.
Context {TS : ThresholdScheme} (hex : Bytes -> string) (unhex : string -> option Bytes).
Context (shares_iter : gmap PublicKey BLSSignatureShare -> list (PublicKey * BLSSignatureShare)).
Context (Hiter : forall m, shares_iter m ≡ₚ map_to_list m).
Implicit Types s : BLSCoordinator.

(** An unfinished session holds a share whose text is not one. *)
Definition blocked s (id : SigningRequestId) : Prop :=
  exists c m share, bl_sessions s !! id = Some c /\ co_completed c = false /\ co_shares c !! m = Some share /\ is_err (tc_entry unhex share) = true.

Lemma try_map_err {A B E} (f : A -> result E B) (l : list A) a : a ∈ l -> is_err (f a) = true -> forall bs, try_map f l <> Ok bs.
Proof.
  induction l as [|x l IH]; intros Ha He bs; [by apply elem_of_nil in Ha|]. cbn [try_map]. apply elem_of_cons in Ha as [->|Ha].
  - by destruct (f x).
  - destruct (f x); [|done|done]. cbn. pose proof (IH Ha He) as H. destruct (try_map f l) as [bs'| |]; [by destruct (H bs')|done|done].
Qed.

Lemma blocked_never_aggregates pk c m share :
  co_shares c !! m = Some share -> is_err (tc_entry unhex share) = true -> forall sig, coordinator_aggregate hex unhex pk (collected shares_iter c) <> Ok sig.
Proof using Hiter.
  intros Hm He sig. unfold coordinator_aggregate. destruct pk as [pk|]; [|done]. cbn [result_of_option result_bind].
  assert (share ∈ collected shares_iter c) as Hin.
  { unfold collected. apply list_elem_of_fmap. exists (m, share). split; [done|]. by rewrite (Hiter _), elem_of_map_to_list. }
  pose proof (try_map_err (tc_entry unhex) _ _ Hin He) as H. destruct (try_map _ _) as [l| |]; [by destruct (H l)|done|done].
Qed.

(** One share that does not decode blocks its session: no later share completes it, and it stays blocked. *)
Theorem bad_share_blocks id signer share now s :
  blocked s id ->
  let (r, s') := submit_share hex unhex shares_iter id signer share now s in
  (forall sig, r <> Ok (Some sig)) /\ blocked s' id.
Proof using Hiter.
  intros (c & m & bad & Hc & Hopen & Hm & Hbad). destruct (submit_share _ _ _ _ _ _ _ _) as [r s'] eqn:E.
  destruct (decide (now <= sr_deadline (co_request c) /\ signer ∈ sr_committee_members (co_request c))) as [[Hn Hin]|Hno].
  - rewrite (submit_share_spec hex unhex shares_iter id signer share now s c Hc (conj Hopen (conj Hn Hin))) in E.
    case_bool_decide as Hdup; [injection E as <- <-; split; [done|by exists c, m, bad]|]. cbn zeta in E.
    assert (co_shares (with_share signer share c) !! m = Some bad) as Hm1 by (cbn; rewrite lookup_insert_ne; [done|by intros ->; destruct Hdup; eexists]).
    assert (blocked (put id (with_share signer share c) s) id) as Hb.
    { exists (with_share signer share c), m, bad. split_and!; try done. unfold put. cbn. by rewrite lookup_insert_eq. }
    pose proof (blocked_never_aggregates (bl_public_key_set s) _ _ _ Hm1 Hbad) as Hagg.
    destruct (_ <=? _)%nat; [|by injection E as <- <-]. destruct (coordinator_aggregate _ _ _ _) as [sig|e|]; [by destruct (Hagg sig)|by injection E as <- <-..].
  - destruct (submit_share_closed hex unhex shares_iter id signer share now s c Hc) as [He Hs]; [intros (_ & H); by apply Hno|].
    rewrite E in He, Hs. cbn in He, Hs. subst s'. split; [by destruct r|by exists c, m, bad].
Qed.
End blocked.

(** ** Instances *)

Definition demo_committee : list PublicKey := [[1]; [2]; [3]].
Definition demo_index (pk : PublicKey) : nat := Z.to_nat (hd 0 pk).
Definition demo_coordinator : BLSCoordinator (TS := toy_scheme) :=
  set_public_key_set (public_keys toy_key) (initiate_signing "job" [7] DST_TASK_RECEIPT demo_committee 0
    (coordinator_new (mkCoordinatorConfig 60 3 3))).2.
Definition demo_signed (pk : PublicKey) : BLSSignatureShare :=
  sign_share toy_hex (secret_key_share toy_key (demo_index pk)) (demo_index pk) [7] DST_TASK_RECEIPT.
Definition two_signed : BLSCoordinator :=
  (submit_share toy_hex toy_unhex map_to_list "job" [2] (demo_signed [2]) 1
    (submit_share toy_hex toy_unhex map_to_list "job" [1] (demo_signed [1]) 1 demo_coordinator).2).2.
Definition two_session : CollectionSession := default (mkCollection (mkSigningRequest "" [] [] [] 0 0) ∅ 0 false) (bl_sessions two_signed !! "job"%string).

Lemma submit_share_correct_witness :
  let (r, s') := submit_share toy_hex toy_unhex map_to_list "job" [3] (demo_signed [3]) 1 two_signed in
  let c1 := with_share [3] (demo_signed [3]) two_session in
  (~ open_for two_session [3] 1 -> is_err r = true /\ s' = two_signed) /\
  (open_for two_session [3] 1 -> is_Some (co_shares two_session !! [3]) -> r = Ok None /\ s' = two_signed) /\
  (open_for two_session [3] 1 -> co_shares two_session !! [3] = None -> (S (size (co_shares two_session)) < sr_threshold (co_request two_session))%nat ->
     r = Ok None /\ s' = put "job" c1 two_signed) /\
  (open_for two_session [3] 1 -> co_shares two_session !! [3] = None -> (sr_threshold (co_request two_session) <= S (size (co_shares two_session)))%nat ->
     match coordinator_aggregate toy_hex toy_unhex (bl_public_key_set two_signed) (collected map_to_list c1) with
     | Ok sig => r = Ok (Some sig) /\ s' = put "job" (completed_collection c1) two_signed
     | _ => (forall x, r <> Ok x) /\ s' = put "job" c1 two_signed
     end).
Proof. apply (submit_share_correct toy_hex toy_unhex map_to_list "job" [3] (demo_signed [3]) 1 two_signed two_session). vm_compute. reflexivity. Defined.

Lemma signing_sessions_sound_witness : collections_ok two_signed.
Proof.
  apply (signing_sessions_sound toy_hex toy_unhex map_to_list (mkCoordinatorConfig 60 3 3)).
  eapply rtc_l; [apply (st_initiate toy_hex toy_unhex map_to_list "job" [7] DST_TASK_RECEIPT demo_committee 0)|].
  eapply rtc_l; [apply (st_keys toy_hex toy_unhex map_to_list (public_keys toy_key))|].
  eapply rtc_l; [apply (st_submit toy_hex toy_unhex map_to_list "job" [1] (demo_signed [1]) 1)|].
  apply rtc_once. apply (st_submit toy_hex toy_unhex map_to_list "job" [2] (demo_signed [2]) 1).
Defined.

Lemma initiating_discards_witness :
  let (r, s') := initiate_signing "job" [7] DST_TASK_RECEIPT demo_committee 5 two_signed in
  (exists request, r = Ok request) /\ get_aggregated_signature toy_hex toy_unhex map_to_list s' "job" = Ok None /\
  (exists c, bl_sessions s' !! "job"%string = Some c /\ co_shares c = ∅).
Proof. apply (initiating_discards toy_hex toy_unhex map_to_list "job" [7] DST_TASK_RECEIPT demo_committee 5 two_signed). vm_compute. lia. Defined.

Lemma honest_session_signs_witness :
  exists sig, (submit_share toy_hex toy_unhex map_to_list "job" [3] (demo_signed [3]) 1 two_signed).1 = Ok (Some sig) /\
    bls_verify toy_unhex (public_keys toy_key) (sr_message (co_request two_session)) (sr_dst (co_request two_session)) sig = Ok true.
Proof.
  apply (honest_session_signs toy_hex toy_unhex toy_hex_roundtrip map_to_list (fun m => reflexivity _) toy_key demo_index "job" [3] 1 two_signed two_session).
  - vm_compute. reflexivity.
  - split; [vm_compute; reflexivity|]. split; [vm_compute; done|]. apply list_elem_of_In. vm_compute. tauto.
  - vm_compute. reflexivity.
  - intros m share Hm. assert (map_Forall (fun m share => share = demo_signed m) (co_shares two_session)) as H; [|by apply H].
    apply map_Forall_to_list. vm_compute. repeat constructor.
  - reflexivity.
  - intros m m' H H'. change (m ∈ demo_committee) in H. change (m' ∈ demo_committee) in H'.
    unfold demo_committee in *. rewrite !elem_of_cons, elem_of_nil in H, H'. destruct H as [->|[->|[->|[]]]], H' as [->|[->|[->|[]]]]; done.
  - intros m [sh Hm]. assert (map_Forall (fun m _ => m ∈ demo_committee) (co_shares two_session)) as H; [|by apply (H m sh)].
    apply map_Forall_to_list. repeat constructor; cbn; unfold demo_committee; set_solver.
  - vm_compute. lia.
  - vm_compute. lia.
Defined.

Definition spoiled : BLSCoordinator := put "job" (with_share [2] (mkShare 2 "") two_session) two_signed.
Lemma bad_share_blocks_witness :
  let (r, s') := submit_share toy_hex toy_unhex map_to_list "job" [3] (demo_signed [3]) 1 spoiled in
  (forall sig, r <> Ok (Some sig)) /\ blocked toy_unhex s' "job".
Proof.
  apply (bad_share_blocks toy_hex toy_unhex map_to_list (fun m => reflexivity _) "job" [3] (demo_signed [3]) 1 spoiled).
  exists (with_share [2] (mkShare 2 "") two_session), [2], (mkShare 2 ""). split_and!; vm_compute; reflexivity.
Defined.
