(* ===== verification/ResultValidator.v ===== *)
(** * Validating results

    [adic-pouw/src/validator.rs], with the stores of tasks and inputs that a re-execution reads
    ([task_storage.rs], [input_storage.rs]) over the in-memory backend.  Built as released, with the
    features off: without a zero-knowledge verifier or an executor the checks that need them fail.  Clocks,
    the drawn keys and the serialisation of tasks are arguments. *)

From stdpp Require Import pretty.
From S2P Require Import Prelude F64 Padic Message Dag Vrf Quorum Bls Amount Escrow Voting Application TaskTypes Dkg Signing Executor.

(** ** Stores *)

Section stores.
Context (blake3 : Bytes -> Bytes) (ser_task : Task -> Bytes) (de_task : Bytes -> option Task).

Definition store_task (task : Task) : M MemoryBackend StorageFault unit := put_metadata (tk_task_id task) "task" (ser_task task).
(** [None] stands for a serialisation error. *)
Definition load_task (backend : MemoryBackend) (task_id : TaskId) : option (option Task) :=
  match mb_metadata backend !! (task_id, "task"%string) with
  | None => Some None
  | Some data => Some <$> de_task data
  end.
Definition has_task (backend : MemoryBackend) (task_id : TaskId) : bool := bool_decide (is_Some (mb_metadata backend !! (task_id, "task"%string))).

Definition verify_hash (data : Bytes) (expected_hash : Hash) : bool := bool_decide (blake3 data = expected_hash).
(** The result says whether the hash was the one of the data. *)
Definition store_input (input_hash : Hash) (data : Bytes) : M MemoryBackend StorageFault bool :=
  if verify_hash data input_hash then put_metadata input_hash "input" data;; mret true else mret false.
(** [None] stands for a failed integrity check. *)
Definition get_input (backend : MemoryBackend) (input_hash : Hash) : option (option Bytes) :=
  match mb_metadata backend !! (input_hash, "input"%string) with
  | None => Some None
  | Some data => if verify_hash data input_hash then Some (Some data) else None
  end.
Definition has_input (backend : MemoryBackend) (input_hash : Hash) : bool := bool_decide (is_Some (mb_metadata backend !! (input_hash, "input"%string))).
End stores.

(** ** The validator *)

Record ValidatorConfig := mkValidatorConfig {
  vc_min_validators : nat;
  vc_acceptance_threshold : f64;
  vc_vote_collection_timeout : Z;
  vc_require_re_execution : bool;
}.
Definition validator_config_default : ValidatorConfig := mkValidatorConfig 5 (f64_lit 67 100) 300 true.

Record ValidationVote := mkValidationVote {
  vv_validator : PublicKey;
  vv_vote : bool;
  vv_re_execution_hash : option Hash;
  vv_discrepancy_details : option string;
  vv_signature : Bytes;
}.

Record ReExecutionResult := mkReExecution { rx_output_hash : Hash; rx_matches : bool }.

Record ValidationStats := mkValidationStats {
  vst_total_validations : Z;
  vst_accepted : Z;
  vst_rejected : Z;
  vst_inconclusive : Z;
}.

Section validator.
Context {TS : ThresholdScheme} (blake3 : Bytes -> Bytes) (hex : Bytes -> string) (unhex : string -> option Bytes) (sign : Bytes -> Bytes).
Context (shares_iter : gmap PublicKey BLSSignatureShare -> list (PublicKey * BLSSignatureShare)).
Context (de_task : Bytes -> option Task).

Record ResultValidator := mkValidator {
  rv_quorum_selector : VRFService;
  rv_config : ValidatorConfig;
  rv_validation_cache : gmap Hash ValidationReport;
  rv_result_message_ids : gmap Hash MessageId;
  rv_executor : option TaskExecutor;
  rv_zk_verifier : option (Bytes -> Bytes -> Bytes -> result PoUWError bool);
  rv_bls_coordinator : option BLSCoordinator;
  rv_task_store : option MemoryBackend;
  rv_input_store : option MemoryBackend;
}.
Definition result_validator_new (quorum_selector : VRFService) (config : ValidatorConfig) : ResultValidator :=
  mkValidator quorum_selector config ∅ ∅ None None None None None.
Implicit Types s : ResultValidator.

Definition with_validation_cache (f : gmap Hash ValidationReport -> gmap Hash ValidationReport) s : ResultValidator :=
  mkValidator (rv_quorum_selector s) (rv_config s) (f (rv_validation_cache s)) (rv_result_message_ids s) (rv_executor s) (rv_zk_verifier s)
    (rv_bls_coordinator s) (rv_task_store s) (rv_input_store s).
Definition with_executor (executor : TaskExecutor) s : ResultValidator :=
  mkValidator (rv_quorum_selector s) (rv_config s) (rv_validation_cache s) (rv_result_message_ids s) (Some executor) (rv_zk_verifier s)
    (rv_bls_coordinator s) (rv_task_store s) (rv_input_store s).
Definition with_zk_verifier (verifier : Bytes -> Bytes -> Bytes -> result PoUWError bool) s : ResultValidator :=
  mkValidator (rv_quorum_selector s) (rv_config s) (rv_validation_cache s) (rv_result_message_ids s) (rv_executor s) (Some verifier)
    (rv_bls_coordinator s) (rv_task_store s) (rv_input_store s).
Definition with_bls_coordinator (coordinator : BLSCoordinator) s : ResultValidator :=
  mkValidator (rv_quorum_selector s) (rv_config s) (rv_validation_cache s) (rv_result_message_ids s) (rv_executor s) (rv_zk_verifier s)
    (Some coordinator) (rv_task_store s) (rv_input_store s).
Definition with_task_store (store : MemoryBackend) s : ResultValidator :=
  mkValidator (rv_quorum_selector s) (rv_config s) (rv_validation_cache s) (rv_result_message_ids s) (rv_executor s) (rv_zk_verifier s)
    (rv_bls_coordinator s) (Some store) (rv_input_store s).
Definition with_input_store (store : MemoryBackend) s : ResultValidator :=
  mkValidator (rv_quorum_selector s) (rv_config s) (rv_validation_cache s) (rv_result_message_ids s) (rv_executor s) (rv_zk_verifier s)
    (rv_bls_coordinator s) (rv_task_store s) (Some store).
Definition register_result_message (result_id : Hash) (message_id : MessageId) s : ResultValidator :=
  mkValidator (rv_quorum_selector s) (rv_config s) (rv_validation_cache s) (<[result_id := message_id]> (rv_result_message_ids s)) (rv_executor s)
    (rv_zk_verifier s) (rv_bls_coordinator s) (rv_task_store s) (rv_input_store s).

Local Notation VM := (M ResultValidator PoUWError).

(** *** The committee *)

Definition validator_quorum_config (min_validators : nat) (task_id : TaskId) : QuorumConfig :=
  mkQuorumConfig (f64_of_Z 50) (min_validators / 3) min_validators 2 3 ("ADIC-PoUW-VALIDATOR-TASK-" +:+ hex task_id)%string 3.
Definition mock_node (task_id : TaskId) (i : nat) : NodeInfo :=
  mkNode (blake3 (task_id ++ to_le_bytes 8 (Z.of_nat i))) (f64_add (f64_of_Z 100) (f64_mul (f64_of_Z (Z.of_nat i)) (f64_of_Z 10)))
    (Some (Z.of_nat (i mod 5))) (Some ("region-" +:+ pretty (i mod 3)%nat)%string)
    [[Z.of_nat (i mod 256)]; [Z.of_nat ((i * 2) mod 256)]; [Z.of_nat ((i * 3) mod 256)]].
Definition select_validators_for_task s (task_id : TaskId) (current_epoch : Z) : result PoUWError (list PublicKey) :=
  let n := vc_min_validators (rv_config s) in
  match select_committee blake3 (rv_quorum_selector s) current_epoch (validator_quorum_config n task_id) (mock_node task_id <$> seq 0 (n * 2)) with
  | Ok q => Ok (qm_public_key <$> qr_members q)
  | Err e => Err (QuorumServiceError e)
  | Panic => Panic
  end.

(** *** The checks of a result *)

Definition all_zero (bs : Bytes) : bool := forallb (fun b => b =? 0) bs.

Definition verify_merkle_proof (proof : ExecutionProof) : bool :=
  if all_zero (ep_merkle_root proof) then false
  else match ep_intermediate_states proof with
       | [] => false
       | states => bool_decide (compute_merkle_root blake3 states = ep_merkle_root proof)
       end.
Definition verify_state_transition_proof (proof : ExecutionProof) : bool :=
  match ep_intermediate_states proof with [] => false | states => forallb (fun state => negb (all_zero state)) states end.
Definition verify_zk_proof s (proof : ExecutionProof) : result PoUWError bool :=
  match rv_zk_verifier s with
  | Some verifier => verifier (ep_proof_data proof) (concat (ep_intermediate_states proof)) (ep_merkle_root proof)
  | None => Err (InvalidExecutionProof "PRODUCTION SECURITY: ZK proof verification requires a cryptographic verifier")
  end.
Definition verify_reexecution_proof (proof : ExecutionProof) : bool :=
  match ep_proof_data proof, ep_intermediate_states proof with
  | [], _ | _, [] => false
  | _, states => bool_decide (compute_merkle_root blake3 states = ep_merkle_root proof)
  end.
Definition verify_execution_proof s (r : WorkResult) : result PoUWError bool :=
  let proof := wr_execution_proof r in
  match ep_proof_type proof with
  | MerkleTree => Ok (verify_merkle_proof proof)
  | StateTransition => Ok (verify_state_transition_proof proof)
  | ZKProof => verify_zk_proof s proof
  | ReExecution => Ok (verify_reexecution_proof proof)
  end.

Definition parse_cid_to_hash (cid : string) : Hash := blake3 (str_bytes cid).
(** The hash that the input is looked up by. *)
Definition input_hash_of (task : Task) (r : WorkResult) : Hash :=
  if (32 <=? length (ep_proof_data (wr_execution_proof r)))%nat then take 32 (ep_proof_data (wr_execution_proof r))
  else parse_cid_to_hash (tk_input_cid task).

Definition validation_failed {A} (m : M TaskExecutor PoUWError A) : M TaskExecutor PoUWError A :=
  mmap_err (fun _ => ValidationFailed "Re-execution failed") m.
Definition re_execute_with_executor (clock : ExecutionClock) (r : WorkResult) (executor : TaskExecutor) : VM ReExecutionResult :=
  task_store ← mread rv_task_store;
  store ← mopt task_store (StorageNotConfigured "TaskStore required for re-execution");
  found ← mopt (load_task de_task store (wr_task_id r)) (StorageRefused "Failed to deserialize task");
  task ← mopt found (TaskNotFoundInStorage (wr_task_id r));
  let input_hash := input_hash_of task r in
  input_store ← mread rv_input_store;
  inputs ← mopt input_store (StorageNotConfigured "InputStore required for re-execution");
  found ← mopt (get_input blake3 inputs input_hash) (StorageRefused "Input data integrity check failed");
  input_data ← mopt found (InputNotFound input_hash);
  re_exec_result ← mzoom (fun _ => executor) with_executor (validation_failed (execute_task blake3 hex sign clock task input_data));
  let re_exec_output_hash := blake3 (str_bytes (wr_output_cid re_exec_result)) in
  let claimed_output_hash := blake3 (str_bytes (wr_output_cid r)) in
  mret (mkReExecution re_exec_output_hash (bool_decide (re_exec_output_hash = claimed_output_hash))).
Definition deterministic_re_execution (clock : ExecutionClock) (r : WorkResult) : VM ReExecutionResult :=
  executor ← mread rv_executor;
  match executor with
  | Some executor => re_execute_with_executor clock r executor
  | None => mfail (ReExecutionRequired "Re-execution required in production")
  end.

Definition nanoseconds : Z := 1000000000.
Definition verify_resource_claims (r : WorkResult) : bool :=
  let metrics := wr_execution_metrics r in
  if end_time metrics <=? start_time metrics then false
  else
    let duration_secs := (end_time metrics - start_time metrics) / nanoseconds in
    if to_u64 (duration_secs * 10) <? cpu_time_ms metrics / 1000 then false
    else negb ((memory_used_mb metrics =? 0) || (1000000 <? memory_used_mb metrics)).

(** Sixty-four bytes: the hash of the vote, twice. *)
Definition sign_vote (vote : bool) (result_id : Hash) : Bytes :=
  let hash := blake3 (result_id ++ [if vote then 1 else 0]) in hash ++ hash.

Definition discrepancies (proof_valid output_matches resources_valid : bool) : list string :=
  (if proof_valid then [] else ["Invalid execution proof"%string]) ++
  (if output_matches then [] else ["Re-execution output mismatch"%string]) ++
  (if resources_valid then [] else ["Resource usage claims invalid"%string]).

Definition verify_work_result (clock : ExecutionClock) (r : WorkResult) (validator : PublicKey) : VM ValidationVote :=
  s ← mread (fun s => s);
  proof_valid ← mresult (verify_execution_proof s r);
  re_exec ← (if vc_require_re_execution (rv_config s)
             then x ← deterministic_re_execution clock r; mret (Some (rx_output_hash x), rx_matches x)
             else mret (None, true));
  let (re_execution_hash, output_matches) := re_exec : option Hash * bool in
  let resources_valid := verify_resource_claims r in
  let vote_accepts := proof_valid && output_matches && resources_valid in
  let details := if vote_accepts then None else Some (String.concat "; " (discrepancies proof_valid output_matches resources_valid)) in
  mret (mkValidationVote validator vote_accepts re_execution_hash details (sign_vote vote_accepts (wr_result_id r))).

(** One clock for each validator. *)
Fixpoint collect_validation_votes (clocks : nat -> ExecutionClock) (i : nat) (r : WorkResult) (validators : list PublicKey) : VM (list ValidationVote) :=
  match validators with
  | [] => mret []
  | v :: validators =>
      vote ← verify_work_result (clocks i) r v;
      votes ← collect_validation_votes clocks (S i) r validators;
      mret (vote :: votes)
  end.

(** *** The verdict *)

Definition aggregate_votes (config : ValidatorConfig) (votes : list ValidationVote) (total_validators : nat) : TaskVerdict * nat * nat :=
  let votes_for := length (List.filter vv_vote votes) in
  let votes_against := length (List.filter (fun v => negb (vv_vote v)) votes) in
  let rate n := f64_div (f64_of_Z (Z.of_nat n)) (f64_of_Z (Z.of_nat total_validators)) in
  let verdict :=
    if f64_geb (rate votes_for) (vc_acceptance_threshold config) then Accepted
    else if f64_gtb (rate votes_against) (f64_sub (f64_of_Z 1) (vc_acceptance_threshold config)) then Rejected
    else Inconclusive in
  (verdict, votes_for, votes_against).

(** *** The signature *)

(** The loop that signs for every validator; [None]: no share reached the threshold. *)
Fixpoint submit_shares (request_id : SigningRequestId) (message : Bytes) (now : Z) (secrets : list (PublicKey * SecretKeyShare)) (i : nat)
    : M BLSCoordinator PoUWError (option BLSSignature) :=
  match secrets with
  | [] => mret None
  | (validator_pk, secret) :: secrets =>
      let share := sign_share hex secret i message DST_TASK_RECEIPT in
      final_sig ← submit_share hex unhex shares_iter request_id validator_pk share now;
      match final_sig with
      | Some sig => mret (Some sig)
      | None => submit_shares request_id message now secrets (S i)
      end
  end.

Definition sign_validation (drawn_keys : nat -> SecretKeySet) (now : Z) (task_id : TaskId) (result_id : Hash) (committee_members : list PublicKey)
    : M BLSCoordinator PoUWError Bytes :=
  let request_id := signing_request_id hex "validation" 0 result_id in
  let message := task_id ++ result_id in
  _ ← initiate_signing request_id message DST_TASK_RECEIPT committee_members now;
  c ← mread (fun c => c);
  existing ← mresult (get_aggregated_signature hex unhex shares_iter c request_id);
  match existing with
  | Some signature => mret (str_bytes signature)
  | None =>
      let n := length committee_members in
      keys ← mresult (bls_fault (generate_threshold_keys drawn_keys n (n * 2 / 3 + 1)));
      let (pub_key_set, secret_shares) := keys : PublicKeySet * list SecretKeyShare in
      has_keys ← mread has_public_key_set;
      mwhen (negb has_keys) (mwrite (set_public_key_set pub_key_set));;
      final_sig ← submit_shares request_id message now (zip committee_members secret_shares) 0;
      match final_sig with
      | Some sig => mret (str_bytes sig)
      | None => mfail (Other "Failed to reach BLS threshold")
      end
  end.

Definition with_coordinator (c : BLSCoordinator) s : ResultValidator := with_bls_coordinator c s.
Definition generate_threshold_signature (drawn_keys : nat -> SecretKeySet) (now : Z) (task_id : TaskId) (result_id : Hash) (votes : list ValidationVote) : VM Bytes :=
  coordinator ← mread rv_bls_coordinator;
  match coordinator with
  | Some c => mzoom (fun _ => c) with_coordinator (sign_validation drawn_keys now task_id result_id (vv_validator <$> votes))
  | None => mret (blake3 (task_id ++ result_id ++ ((fun v => if vv_vote v then 1 else 0) <$> votes)))
  end.

(** *** Validation *)

Definition evidence_of (v : ValidationVote) : ValidationEvidence :=
  mkValidationEvidence (vv_validator v) (vv_vote v) (vv_re_execution_hash v) (vv_discrepancy_details v) (vv_signature v).
Definition generate_report_id (now : Z) (task_id : TaskId) (result_id : Hash) : Hash := blake3 (task_id ++ result_id ++ to_le_bytes 8 (to_u64 now)).

Definition validate_result (clocks : nat -> ExecutionClock) (drawn_keys : nat -> SecretKeySet) (now : Z) (task_id : TaskId) (r : WorkResult)
    (current_epoch : Z) : VM ValidationReport :=
  s ← mread (fun s => s);
  match rv_validation_cache s !! wr_result_id r with
  | Some cached => mret cached
  | None =>
      validators ← mresult (select_validators_for_task s task_id current_epoch);
      let min_validators := vc_min_validators (rv_config s) in
      mbail (length validators <? min_validators)%nat (QuorumNotReached min_validators (length validators));;
      votes ← collect_validation_votes clocks 0 r validators;
      let '(validation_result, votes_for, votes_against) := aggregate_votes (rv_config s) votes (length validators) in
      threshold_bls_sig ← generate_threshold_signature drawn_keys now task_id (wr_result_id r) votes;
      let report := mkReport (generate_report_id now task_id (wr_result_id r)) task_id (wr_result_id r) validators votes_for votes_against
                      threshold_bls_sig validation_result (evidence_of <$> votes) current_epoch now in
      mwrite (with_validation_cache (insert (wr_result_id r) report));;
      mret report
  end.

Definition cached_validation_report s (result_id : Hash) : option ValidationReport := rv_validation_cache s !! result_id.
Definition is_validated s (result_id : Hash) : bool := bool_decide (is_Some (rv_validation_cache s !! result_id)).

Definition count_verdicts (v : TaskVerdict) s : Z := Z.of_nat (size (filter (fun ir => vr_validation_result ir.2 = v) (rv_validation_cache s))).
Definition validation_get_stats s : ValidationStats :=
  mkValidationStats (Z.of_nat (size (rv_validation_cache s))) (count_verdicts Accepted s) (count_verdicts Rejected s) (count_verdicts Inconclusive s).
End validator.

(** ** Stores *)

Section store_facts.
Context (blake3 : Bytes -> Bytes) (ser_task : Task -> Bytes) (de_task : Bytes -> option Task) (Hser : forall t, de_task (ser_task t) = Some t).

(** A task comes back as it was stored, and the others are not touched. *)
Theorem task_store_roundtrip task id backend :
  let (r, backend') := store_task ser_task task backend in
  r = Ok tt /\ load_task de_task backend' id = if decide (id = tk_task_id task) then Some (Some task) else load_task de_task backend id.
Proof using Hser.
  split; [done|]. unfold load_task. cbn. case_decide as H; [subst; by rewrite lookup_insert_eq, Hser|by rewrite lookup_insert_ne by congruence].
Qed.

(** An input is stored exactly under the hash of its content, and what is read under a hash has it. *)
Theorem input_store_content h data backend :
  let (r, backend') := store_input blake3 h data backend in
  (r = Ok true <-> blake3 data = h) /\ (r = Ok true -> get_input blake3 backend' h = Some (Some data)) /\ (r <> Ok true -> backend' = backend) /\
  (forall h' data', get_input blake3 backend' h' = Some (Some data') -> blake3 data' = h').
Proof using Type.
  clear. assert (forall b h' data', get_input blake3 b h' = Some (Some data') -> blake3 data' = h') as Hget.
  { intros b h' data'. unfold get_input. destruct (mb_metadata b !! _); [|done]. destruct (verify_hash _ _ _) eqn:E; [|done].
    intros [= ->]. by apply bool_decide_eq_true in E. }
  unfold store_input. destruct (verify_hash blake3 data h) eqn:E.
  - split; [split; [intros _; by apply bool_decide_eq_true in E|done]|]. split; [|split; [done|apply Hget]].
    intros _. unfold get_input. cbn. rewrite lookup_insert_eq. by rewrite E.
  - cbn. split; [split; [done|intros H; by apply bool_decide_eq_false in E]|]. split; [done|]. split; [done|apply Hget].
Qed.
Lemma get_input_other h h' data backend : h' <> h -> get_input blake3 (store_input blake3 h data backend).2 h' = get_input blake3 backend h'.
Proof using Type. clear. intros H. unfold store_input. destruct (verify_hash _ _ _); [|done]. unfold get_input.
  assert (mb_metadata ((put_metadata h "input" data;; mret true) backend).2 !! (h', "input"%string) = mb_metadata backend !! (h', "input"%string)) as E
    by (apply lookup_insert_ne; congruence).
  by rewrite E.
Qed.
End store_facts.

(** ** How many validators there can be *)

Section limits.
Context {TS : ThresholdScheme} (blake3 : Bytes -> Bytes) (hex : Bytes -> string).
Implicit Types s : ResultValidator.

Lemma concat_length_bound {A} (per : list (list A)) k : Forall (fun l => (length l <= k)%nat) per -> (length (concat per) <= length per * k)%nat.
Proof. induction 1 as [|l per H _ IH]; [done|]. cbn. rewrite length_app. lia. Qed.

Lemma committee_axes_bound vrf epoch config nodes q :
  select_committee blake3 vrf epoch config nodes = Ok q -> (length (qr_members q) <= num_axes config * members_per_axis config)%nat.
Proof.
  unfold select_committee. destruct (eligible_nodes config nodes) as [|n0 ns]; [done|]. intros (r & Hr & H)%result_bind_Ok.
  apply result_bind_Ok in H as (per & Hper & [= <-]). cbn [qr_members]. rewrite length_take.
  assert (length (enforce_diversity_caps (unique_members ∅ (concat per)) (mkCaps (qc_max_per_asn config) (qc_max_per_region config))) <= length (concat per))%nat.
  { unfold enforce_diversity_caps. etransitivity; [apply sublist_length, cap_loop_sublist|]. rewrite isort_length. apply sublist_length, unique_members_sublist. }
  apply try_map_ok in Hper. pose proof (Forall2_length _ _ _ Hper) as Hlen. rewrite length_seq in Hlen.
  assert (Forall (fun l => (length l <= members_per_axis config)%nat) per) as Hb.
  { apply Forall_forall. intros ms [i Hi]%list_elem_of_lookup_1. destruct (Forall2_lookup_r _ _ _ i ms Hper Hi) as (axis & _ & Hsel).
    unfold select_axis in Hsel. apply result_bind_Ok in Hsel as (all & _ & [= <-]). rewrite length_take. lia. }
  pose proof (concat_length_bound per _ Hb). lia.
Qed.

Lemma attr_counts_cover {K} `{EqDecision K} (attr : QuorumMember -> option K) (keys : list K) ms :
  (forall m, m ∈ ms -> exists k, k ∈ keys /\ attr m = Some k) -> (length ms <= foldr (fun k n => attr_count attr ms k + n) 0 keys)%nat.
Proof.
  induction ms as [|m ms IH]; intros H; [cbn; lia|]. cbn [length].
  assert (length ms <= foldr (fun k n => attr_count attr ms k + n) 0 keys)%nat as Hms by (apply IH; intros m' Hm'; apply H; by right).
  destruct (H m ltac:(left)) as (k & Hk & Ha). etransitivity; [apply le_n_S, Hms|]. clear Hms H IH.
  induction keys as [|k' keys IH]; [by apply elem_of_nil in Hk|]. cbn [foldr]. rewrite attr_count_cons.
  apply elem_of_cons in Hk as [->|Hk].
  - rewrite decide_True by done. clear IH. assert (foldr (fun k n => attr_count attr ms k + n) 0 keys <= foldr (fun k n => attr_count attr (m :: ms) k + n) 0 keys)%nat; [|lia].
    clear. induction keys as [|k keys IH]; [done|]. cbn [foldr]. rewrite attr_count_cons. case_decide; lia.
  - specialize (IH Hk). destruct (decide (attr m = Some k')); lia.
Qed.

Definition regions : list string := ["region-0"; "region-1"; "region-2"]%string.
Lemma mock_region task_id i : exists region, region ∈ regions /\ ni_region (mock_node blake3 task_id i) = Some region.
Proof.
  unfold mock_node. cbn [ni_region]. pose proof (Nat.mod_upper_bound i 3 ltac:(done)) as H. set (j := (i mod 3)%nat) in *. clearbody j.
  exists ("region-" +:+ pretty j)%string. split; [|done]. destruct j as [|[|[|j]]]; [left|right; left|right; right; left|lia].
Qed.

Lemma validators_bound s task_id epoch vs :
  select_validators_for_task blake3 hex s task_id epoch = Ok vs ->
  (length vs <= 9)%nat /\ (length vs <= 3 * (vc_min_validators (rv_config s) / 3))%nat.
Proof.
  unfold select_validators_for_task. set (config := validator_quorum_config _ _ _). destruct (select_committee _ _ _ _ _) as [q|e|] eqn:E; intros [= <-].
  rewrite length_fmap. split; [|apply committee_axes_bound in E; rewrite Nat.mul_comm in E; rewrite Nat.mul_comm; exact E].
  apply select_committee_ok in E. pose proof (attr_counts_cover qm_region regions (qr_members q)) as H.
  pose proof (co_region _ _ _ _ _ _ E) as Hr. specialize (H ltac:(
    intros m Hm; destruct (co_eligible _ _ _ _ _ _ E m Hm) as (n & Hn & _ & _ & _ & -> & _);
    apply list_elem_of_fmap in Hn as (i & -> & _); destruct (mock_region task_id i) as (r & ? & ?); by exists r)).
  cbn [regions foldr] in H. pose proof (Hr "region-0"%string). pose proof (Hr "region-1"%string). pose proof (Hr "region-2"%string).
  unfold config, validator_quorum_config in *. cbn [qc_max_per_region] in *. lia.
Qed.

(** A validation has at most nine validators, as there are three regions with a cap of three, and at most
    a third of the wanted number, rounded down, for each of the three axes. *)
Theorem validators_limited s task_id epoch vs :
  select_validators_for_task blake3 hex s task_id epoch = Ok vs ->
  (length vs <= 9)%nat /\ (length vs <= 3 * (vc_min_validators (rv_config s) / 3))%nat.
Proof. apply validators_bound. Qed.
End limits.

(** ** What a vote depends on *)

Section judgement.
Context {TS : ThresholdScheme} (blake3 : Bytes -> Bytes) (hex : Bytes -> string) (unhex : string -> option Bytes) (sign : Bytes -> Bytes).
Context (shares_iter : gmap PublicKey BLSSignatureShare -> list (PublicKey * BLSSignatureShare)).
Context (de_task : Bytes -> option Task).
Implicit Types s : ResultValidator.

(** The validator without the statistics of its executor. *)
Definition erased_executor (x : TaskExecutor) : TaskExecutor := mkExecutor (te_worker_id x) (te_config x) execution_stats_default (te_concurrent_tasks x).
Definition erased s : ResultValidator :=
  mkValidator (rv_quorum_selector s) (rv_config s) (rv_validation_cache s) (rv_result_message_ids s) (erased_executor <$> rv_executor s)
    (rv_zk_verifier s) (rv_bls_coordinator s) (rv_task_store s) (rv_input_store s).

(** Whether the output of the task on the stored input is the one that the result claims. *)
Definition same_output (executor : TaskExecutor) (task : Task) (data : Bytes) (r : WorkResult) : result PoUWError bool :=
  if (exc_max_concurrent_tasks (te_config executor) <=? te_concurrent_tasks executor)%nat then Err (ValidationFailed "Re-execution failed")
  else match validate_resource_requirements (te_config executor) task, run_task blake3 hex task data with
       | Ok _, Ok (output, _) => Ok (bool_decide (blake3 (str_bytes (output_cid_of blake3 hex output)) = blake3 (str_bytes (wr_output_cid r))))
       | _, _ => Err (ValidationFailed "Re-execution failed")
       end.
Definition reexecuted s (r : WorkResult) : result PoUWError bool :=
  match rv_executor s with
  | None => Err (ReExecutionRequired "Re-execution required in production")
  | Some executor =>
      match rv_task_store s with
      | None => Err (StorageNotConfigured "TaskStore required for re-execution")
      | Some store =>
          match load_task de_task store (wr_task_id r) with
          | None => Err (StorageRefused "Failed to deserialize task")
          | Some None => Err (TaskNotFoundInStorage (wr_task_id r))
          | Some (Some task) =>
              match rv_input_store s with
              | None => Err (StorageNotConfigured "InputStore required for re-execution")
              | Some inputs =>
                  match get_input blake3 inputs (input_hash_of blake3 task r) with
                  | None => Err (StorageRefused "Input data integrity check failed")
                  | Some None => Err (InputNotFound (input_hash_of blake3 task r))
                  | Some (Some data) => same_output executor task data r
                  end
              end
          end
      end
  end.
Definition judged s (r : WorkResult) : result PoUWError bool :=
  let? proof_valid := verify_execution_proof blake3 s r in
  let? matches := if vc_require_re_execution (rv_config s) then reexecuted s r else Ok true in
  Ok (proof_valid && matches && verify_resource_claims r).

Lemma judged_erased s s' r : erased s' = erased s -> judged s' r = judged s r.
Proof.
  assert (forall x, judged (erased x) r = judged x r) as H; [|by intros E; rewrite <-(H s), <-(H s'), E].
  intros x. unfold judged, reexecuted, verify_execution_proof, verify_zk_proof. cbn. by destruct (rv_executor x).
Qed.

Definition result_map {E A B} (f : A -> B) (r : result E A) : result E B :=
  match r with Ok a => Ok (f a) | Err e => Err e | Panic => Panic end.

Lemma reexecuted_eq clock r s :
  result_map rx_matches (deterministic_re_execution blake3 hex sign de_task clock r s).1 = reexecuted s r /\
  erased (deterministic_re_execution blake3 hex sign de_task clock r s).2 = erased s.
Proof.
  unfold deterministic_re_execution, re_execute_with_executor, reexecuted, mbind, M_bind, mread, mopt, mfail, mret, M_ret.
  destruct (rv_executor s) as [ex|] eqn:Hx; [|done]. destruct (rv_task_store s) as [store|]; [|done]. destruct (load_task _ _ _) as [[task|]|]; [|done..].
  destruct (rv_input_store s) as [inputs|]; [|done]. cbv zeta. destruct (get_input _ _ _) as [[data|]|]; [|done..].
  unfold mzoom, validation_failed, mmap_err, same_output. rewrite execute_task_spec. destruct (_ <=? _)%nat; [|].
  { split; [done|]. cbn. unfold erased. cbn. by rewrite Hx. }
  pose proof (validate_no_panic (te_config ex) task) as Hv. pose proof (run_task_no_panic blake3 hex task data) as Hr.
  destruct (validate_resource_requirements _ _) as [u|e|]; [| |done]; [destruct (run_task _ _ _ _) as [[output proof]|e|]; [| |done]|];
    (split; [done|cbn; unfold erased; cbn; by rewrite Hx]).
Qed.

Lemma judged_eq clock r v s :
  let (x, s') := verify_work_result blake3 hex sign de_task clock r v s in
  result_map vv_vote x = judged s r /\ erased s' = erased s /\ (forall w, x = Ok w -> vv_validator w = v).
Proof.
  unfold verify_work_result, judged, mbind, M_bind, mread, mresult, mret, M_ret.
  destruct (verify_execution_proof _ _ _) as [pv|e|]; [|done..]. cbn [result_bind].
  destruct (vc_require_re_execution _).
  - destruct (reexecuted_eq clock r s) as [<- Hs]. destruct (deterministic_re_execution _ _ _ _ _ _ _) as [[x|e|] s']; cbn in *; split_and!; try done. by intros w [= <-].
  - cbn. split_and!; [done|done|]. by intros w [= <-].
Qed.

Lemma collect_judged clocks r vs : forall i s,
  let (x, s') := collect_validation_votes blake3 hex sign de_task clocks i r vs s in
  erased s' = erased s /\
  match judged s r with
  | Ok b => exists votes, x = Ok votes /\ vv_validator <$> votes = vs /\ Forall (fun v => vv_vote v = b) votes
  | Err e => vs <> [] -> x = Err e
  | Panic => vs <> [] -> x = Panic
  end.
Proof.
  induction vs as [|v vs IH]; intros i s; cbn [collect_validation_votes]; [split; [done|]; destruct (judged s r); [by exists []|done..]|].
  unfold mbind, M_bind. pose proof (judged_eq (clocks i) r v s) as H.
  destruct (verify_work_result _ _ _ _ _ _ _ _) as [[w|e|] s1]; destruct H as (Hj & Hs & Hv); rewrite <-Hj; cbn [result_map]; [|done..].
  specialize (IH (S i) s1). rewrite (judged_erased s s1 r Hs), <-Hj in IH. cbn [result_map] in IH.
  destruct (collect_validation_votes _ _ _ _ _ _ _ _) as [x s2]. destruct IH as (Hs2 & votes & -> & <- & Hall).
  split; [by rewrite Hs2|]. exists (w :: votes). cbn. rewrite (Hv w eq_refl). split_and!; [done..|by constructor].
Qed.

(** The verdict of votes that all agree. *)
Lemma unanimous config votes (b : bool) :
  Forall (fun v => vv_vote v = b) votes ->
  aggregate_votes config votes (length votes) =
  let n := f64_of_Z (Z.of_nat (length votes)) in
  (if f64_geb (f64_div (if b then n else f64_of_Z 0) n) (vc_acceptance_threshold config) then Accepted
   else if f64_gtb (f64_div (if b then f64_of_Z 0 else n) n) (f64_sub (f64_of_Z 1) (vc_acceptance_threshold config)) then Rejected else Inconclusive,
   if b then length votes else 0%nat, if b then 0%nat else length votes).
Proof.
  intros H. unfold aggregate_votes.
  assert (length (List.filter vv_vote votes) = if b then length votes else 0%nat) as ->.
  { induction H as [|v votes Hv _ IH]; [by destruct b|]. cbn. rewrite Hv. destruct b; cbn; by rewrite IH. }
  assert (length (List.filter (fun v => negb (vv_vote v)) votes) = if b then 0%nat else length votes) as ->.
  { induction H as [|v votes Hv _ IH]; [by destruct b|]. cbn. rewrite Hv. destruct b; cbn; by rewrite IH. }
  by destruct b.
Qed.
Lemma default_verdict config votes (b : bool) :
  vc_acceptance_threshold config = f64_lit 67 100 -> (0 < length votes <= 9)%nat -> Forall (fun v => vv_vote v = b) votes ->
  aggregate_votes config votes (length votes) =
  (if b then Accepted else Rejected, if b then length votes else 0%nat, if b then 0%nat else length votes).
Proof.
  intros Ht Hn H. rewrite (unanimous config votes b H), Ht. cbv zeta. destruct Hn as [Hn1 Hn2]. clear H. revert Hn1 Hn2. generalize (length votes). intros n Hn1 Hn2.
  do 10 (destruct n as [|n]; [first [exfalso; clear -Hn1; lia|by destruct b; vm_compute]|]). exfalso; clear -Hn2; lia.
Qed.

Lemma select_some s task_id epoch vs : select_validators_for_task blake3 hex s task_id epoch = Ok vs -> vc_min_validators (rv_config s) <> 0%nat.
Proof. intros H H0. unfold select_validators_for_task in H. by rewrite H0 in H. Qed.

Lemma signature_cache drawn_keys now task_id result_id votes s :
  let (x, s') := generate_threshold_signature blake3 hex unhex shares_iter drawn_keys now task_id result_id votes s in
  rv_validation_cache s' = rv_validation_cache s /\ (rv_bls_coordinator s = None -> exists sig, x = Ok sig).
Proof.
  unfold generate_threshold_signature, mbind, M_bind, mread, mzoom. destruct (rv_bls_coordinator s) as [c|]; [|by split; [|eexists]].
  by destruct (sign_validation _ _ _ _ _ _ _ _ _).
Qed.

(** C13: A result with a report is given that report again.  Another one is an error, with nothing changed,
    when the draw of validators fails or gives less than the configuration asks for, as it always does with the
    default configuration.  Otherwise, with the default threshold, all validators vote as the checks deserve: the
    result is accepted exactly when its proof verifies, its resource claims are credible and, if the configuration
    asks for it, the task executed again on the stored input gives its output.  When a check cannot be made its
    error is returned.  A report is made whenever the signature is, and always without a coordinator; it names the
    validators and is cached, and nothing is cached otherwise. *)
Theorem validate_result_correct s clocks drawn_keys now task_id r epoch :
  vc_acceptance_threshold (rv_config s) = f64_lit 67 100 ->
  let (x, s') := validate_result blake3 hex unhex sign shares_iter de_task clocks drawn_keys now task_id r epoch s in
  match rv_validation_cache s !! wr_result_id r with
  | Some report => x = Ok report /\ s' = s
  | None =>
      ((forall report, x <> Ok report) -> rv_validation_cache s' = rv_validation_cache s) /\
      match select_validators_for_task blake3 hex s task_id epoch with
      | Err e => x = Err e /\ s' = s
      | Panic => x = Panic /\ s' = s
      | Ok vs =>
          if (length vs <? vc_min_validators (rv_config s))%nat
          then x = Err (QuorumNotReached (vc_min_validators (rv_config s)) (length vs)) /\ s' = s
          else match judged s r with
               | Ok b =>
                   (rv_bls_coordinator s = None -> exists report, x = Ok report) /\
                   forall report, x = Ok report -> rv_validation_cache s' = <[wr_result_id r := report]> (rv_validation_cache s) /\
                     vr_validation_result report = (if b then Accepted else Rejected) /\ vr_validators report = vs /\
                     vr_votes_for report = (if b then length vs else 0%nat) /\ vr_votes_against report = (if b then 0%nat else length vs)
               | Err e => x = Err e
               | Panic => x = Panic
               end
      end
  end.
Proof.
  intros Ht. unfold validate_result, mbind, M_bind, mread, mresult. destruct (rv_validation_cache s !! _) as [cached|]; [done|].
  destruct (select_validators_for_task _ _ _ _ _) as [vs|e|] eqn:Hsel; [|done..]. pose proof (select_some _ _ _ _ Hsel) as Hpos.
  apply validators_bound in Hsel as [H9 _]. unfold mbail. destruct (Nat.ltb_spec (length vs) (vc_min_validators (rv_config s))) as [H|Hlen]; [by cbn|].
  unfold mret at 1, M_ret at 1. pose proof (collect_judged clocks r vs 0 s) as H'. destruct (collect_validation_votes _ _ _ _ _ _ _ _) as [x s1]. destruct H' as [Hs H'].
  assert (vs <> []) as Hne by (intros ->; cbn in *; lia). assert (rv_validation_cache s1 = rv_validation_cache s) as Hcache by exact (f_equal rv_validation_cache Hs).
  assert (rv_bls_coordinator s1 = rv_bls_coordinator s) as Hcoord by exact (f_equal rv_bls_coordinator Hs).
  destruct (judged s r) as [b|e|]; [|by rewrite (H' Hne)..]. destruct H' as (votes & -> & <- & Hall). rewrite !length_fmap in *.
  rewrite (default_verdict _ votes b); [|done|lia|done]. pose proof (signature_cache drawn_keys now task_id (wr_result_id r) votes s1) as Hsig.
  destruct (generate_threshold_signature _ _ _ _ _ _ _ _ _ _) as [[sig|e|] s2]; destruct Hsig as [Hc2 Hsig]; rewrite Hcache, Hcoord in *; cbn.
  - split; [by intros H; destruct (H _ eq_refl)|]. split; [by eexists|]. intros report [= <-]. cbn. by rewrite Hc2.
  - split; [done|]. split; [|done]. intros Hb. by destruct (Hsig Hb).
  - split; [done|]. split; [|done]. intros Hb. by destruct (Hsig Hb).
Qed.

(** With the default configuration no result is ever validated: there are never the five validators that it
    asks for, since at most one is taken for each of the three axes. *)
Theorem default_validation_fails s clocks drawn_keys now task_id r epoch :
  rv_config s = validator_config_default -> rv_validation_cache s !! wr_result_id r = None ->
  let (x, s') := validate_result blake3 hex unhex sign shares_iter de_task clocks drawn_keys now task_id r epoch s in
  (forall report, x <> Ok report) /\ s' = s.
Proof.
  intros Hconf Hc. unfold validate_result, mbind, M_bind, mread, mresult. rewrite Hc.
  destruct (select_validators_for_task _ _ _ _ _) as [vs|e|] eqn:Hsel; [|done..]. apply validators_bound in Hsel as [_ Hsel]. rewrite Hconf in *.
  unfold mbail. destruct (Nat.ltb_spec (length vs) (vc_min_validators validator_config_default)) as [H|H]; [by cbn|]. cbn in *. lia.
Qed.
(** ** What honest workers can expect *)

(** The result of a worker that ran the task on the input. *)
Definition honest_result (worker : PublicKey) (now : ExecutionClock) (task : Task) (input : Bytes) (r : WorkResult) : Prop :=
  exists output proof, run_task blake3 hex task input = Ok (output, proof) /\
    r = work_result_of blake3 hex sign worker now task input output proof /\ verify_resource_claims r = true.

(** A validator that can execute the task again and has its input stored under the hash of the content. *)
Record ready s (task : Task) (input : Bytes) : Prop := {
  rd_executor : exists ex, rv_executor s = Some ex /\ has_room ex /\ validate_resource_requirements (te_config ex) task = Ok tt;
  rd_task : exists store, rv_task_store s = Some store /\ load_task de_task store (tk_task_id task) = Some (Some task);
  rd_input : exists inputs, rv_input_store s = Some inputs /\ get_input blake3 inputs (blake3 input) = Some (Some input);
}.

Lemma reexecuted_ready s task input data r :
  ready s task input -> wr_task_id r = tk_task_id task -> (forall inputs, rv_input_store s = Some inputs -> get_input blake3 inputs (input_hash_of blake3 task r) = Some (Some data)) ->
  reexecuted s r = match run_task blake3 hex task data with
                   | Ok (output, _) => Ok (bool_decide (blake3 (str_bytes (output_cid_of blake3 hex output)) = blake3 (str_bytes (wr_output_cid r))))
                   | _ => Err (ValidationFailed "Re-execution failed")
                   end.
Proof.
  intros [(ex & Hex & Hroom & Hres) (store & Hstore & Htask) (inputs & Hin & Hget)] Hid H. unfold reexecuted.
  rewrite Hex, Hstore, Hid, Htask, Hin, (H _ Hin). unfold same_output, has_room in *. destruct (Nat.leb_spec (exc_max_concurrent_tasks (te_config ex)) (te_concurrent_tasks ex)); [lia|].
  rewrite Hres. by destruct (run_task _ _ _ _) as [[output proof]|e|].
Qed.

(** An honest result of a hash verification is found correct: its proof verifies, its first intermediate
    state is the hash of its input, and executing the task again gives its output. *)
Theorem honest_hash_accepted s worker now task requirements input r :
  (forall bs, length (blake3 bs) = 32%nat) -> (forall bs, all_zero (blake3 bs) = false) ->
  ready s task input -> tk_task_type task = Compute HashVerification requirements -> honest_result worker now task input r -> judged s r = Ok true.
Proof.
  intros Hlen Hz Hready Htype (output & proof & Hrun & Hr & Hm).
  unfold judged. rewrite (reexecuted_ready s task input input r Hready).
  - rewrite Hrun, Hm. unfold run_task in Hrun. rewrite Htype in Hrun. injection Hrun as <- <-. subst r. cbn -[verify_merkle_proof compute_merkle_root].
    unfold verify_execution_proof, verify_merkle_proof. cbn -[compute_merkle_root]. unfold compute_merkle_root. rewrite Hz. rewrite !bool_decide_eq_true_2 by done. cbn. by case_match.
  - by subst r.
  - intros inputs Hin. destruct (rd_input _ _ _ Hready) as (inputs' & Hin' & Hget). rewrite Hin in Hin'. injection Hin' as <-. rewrite <-Hget. f_equal.
    unfold run_task in Hrun. rewrite Htype in Hrun. injection Hrun as <- <-. subst r. unfold input_hash_of. cbn.
    rewrite length_app, Hlen. cbn. by rewrite take_app_length' by done.
Qed.

(** An honest result of a data processing is not validated: its first intermediate state, which the input is
    looked up by, is the hash of the first half of its output, under which nothing is stored unless that
    half is the input itself. *)
Theorem honest_processing_not_validated s worker now task requirements input r :
  (forall bs, length (blake3 bs) = 32%nat) -> (forall bs, all_zero (blake3 bs) = false) -> vc_require_re_execution (rv_config s) = true ->
  ready s task input -> tk_task_type task = Compute DataProcessing requirements -> honest_result worker now task input r ->
  (forall inputs, rv_input_store s = Some inputs -> forall h, h <> blake3 input -> get_input blake3 inputs h = Some None) ->
  let half := take (length input / 2) ((fun b => (b + 1) mod 256) <$> input) in
  blake3 half <> blake3 input -> judged s r = Err (InputNotFound (blake3 half)).
Proof.
  intros Hlen Hz Hreq Hready Htype (output & proof & Hrun & Hr & Hm) Hstore half Hhalf.
  destruct Hready as [(ex & Hex & Hroom & Hres) (store & Hst & Htask) (inputs & Hin & Hget)].
  unfold run_task in Hrun. rewrite Htype in Hrun. injection Hrun as <- <-.
  assert (input_hash_of blake3 task r = blake3 half) as Hh.
  { subst r. unfold input_hash_of. cbn. rewrite length_app, Hlen. cbn. rewrite take_app_length' by done. by rewrite length_fmap. }
  assert (wr_task_id r = tk_task_id task) as Hid by (by subst r).
  assert (verify_execution_proof blake3 s r = Ok true) as Hp.
  { subst r. unfold verify_execution_proof, verify_merkle_proof. cbn -[compute_merkle_root]. unfold compute_merkle_root. rewrite Hz. by rewrite bool_decide_eq_true_2. }
  unfold judged. rewrite Hp, Hreq. unfold reexecuted. by rewrite Hex, Hst, Hid, Htask, Hin, Hh, (Hstore _ Hin _ Hhalf).
Qed.

(** An honest result of a validation task is never accepted: its proof carries no data, and such a proof of
    re-execution does not verify. *)
Theorem honest_validation_refused s worker now task target criteria input r :
  tk_task_type task = ValidationTask target criteria -> honest_result worker now task input r -> judged s r <> Ok true.
Proof.
  intros Htype (output & proof & Hrun & Hr & _). unfold run_task in Hrun. rewrite Htype in Hrun. injection Hrun as <- <-. subst r.
  unfold judged, verify_execution_proof. cbn. by destruct (if vc_require_re_execution (rv_config s) then _ else _) as [[]|e|].
Qed.
End judgement.

(** ** Instances *)

Definition digest (bs : Bytes) : Bytes :=
  let n := foldl (fun a b => (a * 31 + b + 7) mod 1000003) 5 bs in 1 :: ((fun i => (n / (Z.of_nat i + 1) + Z.of_nat i) mod 256) <$> seq 0 31).
Definition finalized_vrf : VRFService := (finalize_epoch digest 5 revealed_service).2.
Definition demo_ser (task : Task) : Bytes := [].
Definition demo_task : Task := compute_task HashVerification.
Definition demo_clock_long : ExecutionClock := mkClock 0 5000000000 5 0 0.
Definition stored_tasks : MemoryBackend := (store_task demo_ser demo_task backend_new).2.
Definition stored_inputs : MemoryBackend := (store_input digest (digest [1; 2]) [1; 2] backend_new).2.
Definition demo_validator (min : nat) : ResultValidator (TS := toy_scheme) :=
  with_input_store stored_inputs (with_task_store stored_tasks (with_executor demo_executor
    (result_validator_new finalized_vrf (mkValidatorConfig min (f64_lit 67 100) 300 true)))).
Definition demo_claim (task : Task) : WorkResult :=
  match (execute_task digest demo_hex (fun bs => bs) demo_clock_long task [1; 2] demo_executor).1 with Ok w => w | _ => demo_result end.
Definition chosen : list PublicKey :=
  match select_validators_for_task digest demo_hex (demo_validator 3) [4] 5 with Ok vs => vs | _ => [] end.

Lemma chosen_three : length chosen = 3%nat.
Proof. vm_compute. reflexivity. Qed.
Definition demo_de (task : Task) (bs : Bytes) : option Task := Some task.

Lemma honest_hash_accepted_witness :
  judged digest demo_hex (demo_de demo_task) (demo_validator 3) (demo_claim demo_task) = Ok true.
Proof.
  apply (honest_hash_accepted digest demo_hex (fun bs => bs) (demo_de demo_task) (demo_validator 3) [2] demo_clock_long demo_task demo_requirements [1; 2]).
  - intros bs. unfold digest. cbn [length]. by rewrite length_fmap, length_seq.
  - intros bs. reflexivity.
  - split.
    + exists demo_executor. split; [reflexivity|]. split; [|vm_compute; reflexivity]. vm_compute. lia.
    + exists stored_tasks. split; [reflexivity|]. vm_compute. reflexivity.
    + exists stored_inputs. split; [reflexivity|]. vm_compute. reflexivity.
  - reflexivity.
  - destruct (run_task digest demo_hex demo_task [1; 2]) as [[output proof]|e|] eqn:E; [|vm_compute in E; discriminate E..].
    exists output, proof. split; [exact E|]. vm_compute in E. injection E as <- <-. split; vm_compute; reflexivity.
Defined.

Lemma validate_result_correct_witness :
  exists report, (validate_result digest demo_hex toy_unhex (fun bs => bs) map_to_list (demo_de demo_task) (fun _ => demo_clock) (fun _ => toy_key) 9 [4] (demo_claim demo_task) 5 (demo_validator 3)).1 = Ok report /\
    vr_validation_result report = Accepted /\ vr_validators report = chosen /\ vr_votes_for report = 3%nat.
Proof.
  pose proof (validate_result_correct digest demo_hex toy_unhex (fun bs => bs) map_to_list (demo_de demo_task) (demo_validator 3) (fun _ => demo_clock) (fun _ => toy_key) 9 [4] (demo_claim demo_task) 5 eq_refl) as H.
  destruct (validate_result _ _ _ _ _ _ _ _ _ _ _ _ _) as [x s'].
  assert (judged digest demo_hex (demo_de demo_task) (demo_validator 3) (demo_claim demo_task) = Ok true) as Hj by (vm_compute; reflexivity).
  assert (select_validators_for_task digest demo_hex (demo_validator 3) [4] 5 = Ok chosen) as Hsel by (vm_compute; reflexivity).
  replace (rv_validation_cache (demo_validator 3) !! wr_result_id (demo_claim demo_task)) with (@None ValidationReport) in H by (vm_compute; reflexivity).
  rewrite Hsel, Hj, chosen_three in H. destruct H as (_ & [report ->] & H); [reflexivity|].
  exists report. destruct (H report eq_refl) as (_ & H1 & H2 & H3 & _). by split_and!.
Defined.

Lemma default_validation_fails_witness :
  let (x, s') := validate_result digest demo_hex toy_unhex (fun bs => bs) map_to_list (demo_de demo_task) (fun _ => demo_clock) (fun _ => toy_key) 9 [4] (demo_claim demo_task) 5 (demo_validator 5) in
  (forall report, x <> Ok report) /\ s' = demo_validator 5.
Proof.
  apply (default_validation_fails digest demo_hex toy_unhex (fun bs => bs) map_to_list (demo_de demo_task) (demo_validator 5)); reflexivity.
Defined.

Definition processing_task : Task := compute_task DataProcessing.
Lemma honest_processing_not_validated_witness :
  judged digest demo_hex (demo_de processing_task) (demo_validator 3) (demo_claim processing_task) = Err (InputNotFound (digest [2])).
Proof.
  apply (honest_processing_not_validated digest demo_hex (fun bs => bs) (demo_de processing_task) (demo_validator 3) [2] demo_clock_long processing_task demo_requirements [1; 2]).
  - intros bs. unfold digest. cbn [length]. by rewrite length_fmap, length_seq.
  - intros bs. reflexivity.
  - reflexivity.
  - split.
    + exists demo_executor. split; [reflexivity|]. split; [|vm_compute; reflexivity]. vm_compute. lia.
    + exists stored_tasks. split; [reflexivity|]. vm_compute. reflexivity.
    + exists stored_inputs. split; [reflexivity|]. vm_compute. reflexivity.
  - reflexivity.
  - destruct (run_task digest demo_hex processing_task [1; 2]) as [[output proof]|e|] eqn:E; [|vm_compute in E; discriminate E..].
    exists output, proof. split; [exact E|]. vm_compute in E. injection E as <- <-. split; vm_compute; reflexivity.
  - intros inputs [= <-] h Hh. unfold stored_inputs. by rewrite get_input_other.
  - vm_compute. discriminate.
Defined.
