(* ===== verification/Receipts.v ===== *)
(** * Receipts of work

    [adic-pouw/src/receipt_validator.rs], with the receipts of [types.rs]: the message and the signature of
    a receipt, the fraud proofs against it and their adjudications, its status, and the re-execution of one
    accepted chunk.  The serialisation of re-execution evidence, the text of a JSON value and the bincode form of
    public keys are arguments, as are the clocks.  A receipt is identified by its canonical hash ([Json]). *)

From S2P Require Import Prelude F64 Message Json Vrf Quorum Challenge Bls Amount Escrow Voting Application TaskTypes Executor.

Definition DST_POUW_RECEIPT : Bytes := str_bytes "ADIC-PoUW-RECEIPT-v1".

Record ChunkAcceptance := mkAcceptance { ca_chunk_id : Z; ca_worker_pk : PublicKey; ca_output_hash : Hash }.
Record ChunkRejection := mkRejection { cr_chunk_id : Z; cr_worker_pk : PublicKey; cr_rejection_reason : string }.
Record PoUWReceipt := mkPoUWReceipt {
  pr_version : Z;
  pr_hook_id : Hash;
  pr_epoch_id : Z;
  pr_receipt_seq : Z;
  pr_prev_receipt_hash : Hash;
  pr_accepted : list ChunkAcceptance;
  pr_rejected : list ChunkRejection;
  pr_agg_pk : Bytes;
  pr_sig_qk : option BLSSignature;
}.

Inductive ReceiptStatus := PendingChallenge | UnderDispute | ReceiptValid | ReceiptInvalid | FinalizedValid.
#[export] Instance ReceiptStatus_eq_dec : EqDecision ReceiptStatus.
Proof. solve_decision. Defined.

Record ReExecutionEvidence := mkReExecutionEvidence {
  re_task_id : Hash;
  re_input_hash : Hash;
  re_expected_output_hash : Hash;
  re_claimed_output_hash : Hash;
  re_execution_merkle_root : Hash;
  re_execution_states : list Hash;
  re_executed_at : Z;
}.

Record WorkResultFraudProof := mkWorkFraud {
  wf_proof : FraudProof;
  wf_chunk_id : string;
  wf_worker : PublicKey;
  wf_correct_result_hash : option Hash;
  wf_discrepancy : string;
}.

Record ValidatedReceipt := mkValidatedReceipt {
  vd_receipt : PoUWReceipt;
  vd_fraud_proofs : list FraudProof;
  vd_adjudications : list AdjudicationResult;
  vd_status : ReceiptStatus;
  vd_finalized_at_epoch : option Z;
}.

Record ReceiptValidationResult := mkReceiptResult {
  rr_receipt_id : Hash;
  rr_is_valid : bool;
  rr_fraud_proofs_count : nat;
  rr_upheld_fraud_proofs : list MessageId;
  rr_rejected_fraud_proofs : list MessageId;
  rr_validation_status : ReceiptStatus;
}.

(** The messages of the errors, with the errors that they show. *)
Inductive ReceiptError :=
  | ChallengeWindowExpired (epoch : Z)
  | InvalidStructureOf (e : ChallengeError)
  | SignerMissing
  | SignatureMissing
  | AggregateKeyMissing
  | InvalidAggregateKey
  | SignatureFailed
  | SignatureError (e : BLSError)
  | WorkerMismatch
  | ReExecutionFailed (e : PoUWError)
  | EmptyMerkleRoot.

#[export] Instance ProofType_eq_dec : EqDecision ProofType.
Proof. solve_decision. Defined.

(** ** The hash of a receipt *)

Definition bytes_value (bs : Bytes) : Value := JArray ((fun b => JNumber (PosInt b)) <$> bs).
Definition acceptance_value (a : ChunkAcceptance) : Value :=
  JObject [("chunk_id", JNumber (PosInt (ca_chunk_id a))); ("worker_pk", bytes_value (ca_worker_pk a)); ("output_hash", bytes_value (ca_output_hash a))]%string.
Definition rejection_value (r : ChunkRejection) : Value :=
  JObject [("chunk_id", JNumber (PosInt (cr_chunk_id r))); ("worker_pk", bytes_value (cr_worker_pk r)); ("rejection_reason", JString (cr_rejection_reason r))]%string.
Definition receipt_value (r : PoUWReceipt) : Value :=
  JObject [("version", JNumber (PosInt (pr_version r))); ("hook_id", bytes_value (pr_hook_id r)); ("epoch_id", JNumber (PosInt (pr_epoch_id r)));
           ("receipt_seq", JNumber (PosInt (pr_receipt_seq r))); ("prev_receipt_hash", bytes_value (pr_prev_receipt_hash r));
           ("accepted", JArray (acceptance_value <$> pr_accepted r)); ("rejected", JArray (rejection_value <$> pr_rejected r));
           ("agg_pk", bytes_value (pr_agg_pk r)); ("sig_qk", match pr_sig_qk r with Some sig => JString sig | None => JNull end)]%string.

Section receipts.
Context {TS : ThresholdScheme} (blake3 : Bytes -> Bytes) (hex : Bytes -> string) (unhex : string -> option Bytes) (sign : Bytes -> Bytes).
Context (to_string : Value -> string) (ser_evidence : ReExecutionEvidence -> option Bytes).

Definition compute_receipt_hash (r : PoUWReceipt) : Hash := canonical_hash blake3 to_string (receipt_value r).

(** ** Fraud proofs *)

Definition work_fraud_metadata (chunk_id discrepancy : string) (correct_result_hash : option Hash) : gmap string string :=
  let metadata := <["discrepancy"%string := discrepancy]> {["chunk_id"%string := chunk_id]} in
  match correct_result_hash with Some h => <["correct_hash"%string := hex h]> metadata | None => metadata end.
Definition work_fraud_with_evidence (receipt_id : MessageId) (chunk_id : string) (worker challenger : PublicKey) (correct_result_hash : option Hash)
    (discrepancy : string) (submitted_at_epoch : Z) (re_execution_proof : option ReExecutionEvidence) : WorkResultFraudProof :=
  let evidence := mkEvidence InvalidResult ("fraud_chunk_" +:+ chunk_id)%string (re_execution_proof ≫= ser_evidence)
                    (work_fraud_metadata chunk_id discrepancy correct_result_hash) in
  mkWorkFraud (fraud_proof_new blake3 receipt_id challenger evidence submitted_at_epoch) chunk_id worker correct_result_hash discrepancy.
Definition work_fraud_new (receipt_id : MessageId) (chunk_id : string) (worker challenger : PublicKey) (correct_result_hash : option Hash)
    (discrepancy : string) (submitted_at_epoch : Z) : WorkResultFraudProof :=
  work_fraud_with_evidence receipt_id chunk_id worker challenger correct_result_hash discrepancy submitted_at_epoch None.

(** ** The validator

    The adjudicator is its randomness and configuration; the provider gives the nodes to choose arbitrators from. *)
Record ReceiptValidator := mkReceiptValidator {
  rc_adjudicator : VRFService * AdjudicationConfig;
  rc_challenge_window : Z;
  rc_pending_proofs : gmap Hash (list WorkResultFraudProof);
  rc_adjudication_results : gmap MessageId AdjudicationResult;
  rc_executor : option TaskExecutor;
  rc_bls_signer : option ThresholdConfig;
  rc_enforce_bls : bool;
  rc_eligible_nodes_provider : option (list NodeInfo);
}.
Implicit Types s : ReceiptValidator.
Definition receipt_validator_new (adjudicator : VRFService * AdjudicationConfig) (challenge_window : Z) : ReceiptValidator :=
  mkReceiptValidator adjudicator challenge_window ∅ ∅ None None false None.
Definition receipts_with_executor (executor : TaskExecutor) s : ReceiptValidator :=
  mkReceiptValidator (rc_adjudicator s) (rc_challenge_window s) (rc_pending_proofs s) (rc_adjudication_results s) (Some executor)
    (rc_bls_signer s) (rc_enforce_bls s) (rc_eligible_nodes_provider s).
Definition with_bls_verification (signer : ThresholdConfig) (enforce : bool) s : ReceiptValidator :=
  mkReceiptValidator (rc_adjudicator s) (rc_challenge_window s) (rc_pending_proofs s) (rc_adjudication_results s) (rc_executor s)
    (Some signer) enforce (rc_eligible_nodes_provider s).
Definition with_eligible_nodes_provider (nodes : list NodeInfo) s : ReceiptValidator :=
  mkReceiptValidator (rc_adjudicator s) (rc_challenge_window s) (rc_pending_proofs s) (rc_adjudication_results s) (rc_executor s)
    (rc_bls_signer s) (rc_enforce_bls s) (Some nodes).
Definition with_pending_proofs (f : gmap Hash (list WorkResultFraudProof) -> gmap Hash (list WorkResultFraudProof)) s : ReceiptValidator :=
  mkReceiptValidator (rc_adjudicator s) (rc_challenge_window s) (f (rc_pending_proofs s)) (rc_adjudication_results s) (rc_executor s)
    (rc_bls_signer s) (rc_enforce_bls s) (rc_eligible_nodes_provider s).
Definition with_adjudications (f : gmap MessageId AdjudicationResult -> gmap MessageId AdjudicationResult) s : ReceiptValidator :=
  mkReceiptValidator (rc_adjudicator s) (rc_challenge_window s) (rc_pending_proofs s) (f (rc_adjudication_results s)) (rc_executor s)
    (rc_bls_signer s) (rc_enforce_bls s) (rc_eligible_nodes_provider s).

Local Notation RM := (M ReceiptValidator ReceiptError).

Definition window_over s (receipt : PoUWReceipt) (current_epoch : Z) : bool :=
  to_u64 (pr_epoch_id receipt + rc_challenge_window s) <? current_epoch.
Definition proofs_of s (receipt : PoUWReceipt) : list WorkResultFraudProof := default [] (rc_pending_proofs s !! compute_receipt_hash receipt).
Definition get_fraud_proofs s (receipt_hash : Hash) : list WorkResultFraudProof := default [] (rc_pending_proofs s !! receipt_hash).

(** Choosing the arbitrators is tried, and a failure only logged. *)
Definition submit_receipt_fraud_proof (receipt : PoUWReceipt) (fraud_proof : WorkResultFraudProof) (current_epoch : Z) : RM unit :=
  over ← mread (fun s => window_over s receipt current_epoch);
  mbail over (ChallengeWindowExpired (pr_epoch_id receipt));;
  mmap_err InvalidStructureOf (mresult (verify_structure (wf_proof fraud_proof)));;
  let receipt_hash := compute_receipt_hash receipt in
  mwrite (with_pending_proofs (fun proofs => <[receipt_hash := default [] (proofs !! receipt_hash) ++ [fraud_proof]]> proofs));;
  provider ← mread rc_eligible_nodes_provider;
  adjudicator ← mread rc_adjudicator;
  match select_arbitrators blake3 adjudicator.1 adjudicator.2 (wf_proof fraud_proof) (default [] provider) with
  | Panic => mpanic
  | _ => mret tt
  end.

Definition record_adjudication (r : AdjudicationResult) : RM unit := mwrite (with_adjudications (insert (ar_fraud_proof_id r) r)).

(** ** The signature *)

Definition build_receipt_message (r : PoUWReceipt) : Bytes :=
  pr_hook_id r ++ to_le_bytes 8 (pr_epoch_id r) ++
  to_le_bytes 4 (Z.of_nat (length (pr_accepted r))) ++ to_le_bytes 4 (Z.of_nat (length (pr_rejected r))) ++
  concat ((fun a => ca_output_hash a ++ ca_worker_pk a) <$> pr_accepted r) ++
  concat ((fun x => to_le_bytes 8 (cr_chunk_id x) ++ cr_worker_pk x) <$> pr_rejected r).

(** [true]: verified; [false]: nothing to verify. *)
Definition verify_bls_signature s (r : PoUWReceipt) : result ReceiptError bool :=
  match rc_bls_signer s with
  | None => if rc_enforce_bls s then Err SignerMissing else Ok false
  | Some _ =>
      match pr_sig_qk r with
      | None => if rc_enforce_bls s then Err SignatureMissing else Ok false
      | Some sig =>
          match pr_agg_pk r with
          | [] => Err AggregateKeyMissing
          | agg_pk =>
              let? pk_set := result_of_option (de_public_key_set agg_pk) InvalidAggregateKey in
              match bls_verify unhex pk_set (build_receipt_message r) DST_POUW_RECEIPT sig with
              | Ok true => Ok true
              | Ok false => Err SignatureFailed
              | Err e => Err (SignatureError e)
              | Panic => Panic
              end
          end
      end
  end.

(** ** The status *)

Definition ruled_proofs s (ruling : AdjudicationResult -> bool) (proofs : list WorkResultFraudProof) : list MessageId :=
  List.filter (fun id => match rc_adjudication_results s !! id with Some a => ruling a | None => false end) ((fun p => fp_id (wf_proof p)) <$> proofs).
Definition challenger_won (a : AdjudicationResult) : bool := match ar_ruling a with ChallengerWins => true | _ => false end.
Definition subject_won (a : AdjudicationResult) : bool := match ar_ruling a with SubjectWins => true | _ => false end.

Definition receipt_status (no_proofs none_upheld over : bool) : ReceiptStatus :=
  if negb none_upheld then ReceiptInvalid
  else if no_proofs && over then FinalizedValid
  else if negb no_proofs && none_upheld then if over then FinalizedValid else UnderDispute
  else if negb over then PendingChallenge
  else ReceiptValid.
Definition is_valid_status (st : ReceiptStatus) : bool := match st with ReceiptValid | FinalizedValid | PendingChallenge => true | _ => false end.

Definition signature_refused s (receipt : PoUWReceipt) : bool := is_err (verify_bls_signature s receipt) && rc_enforce_bls s.
Definition validate_receipt s (receipt : PoUWReceipt) (current_epoch : Z) : ReceiptValidationResult :=
  let receipt_hash := compute_receipt_hash receipt in
  if signature_refused s receipt then mkReceiptResult receipt_hash false 0 [] [] ReceiptInvalid
  else
    let fraud_proofs := proofs_of s receipt in
    let upheld := ruled_proofs s challenger_won fraud_proofs in
    let rejected := ruled_proofs s subject_won fraud_proofs in
    let st := receipt_status (length fraud_proofs =? 0)%nat (length upheld =? 0)%nat (window_over s receipt current_epoch) in
    mkReceiptResult receipt_hash (is_valid_status st) (length fraud_proofs) upheld rejected st.

Definition get_validated_receipt s (receipt : PoUWReceipt) (current_epoch : Z) : ValidatedReceipt :=
  let fraud_proofs := wf_proof <$> proofs_of s receipt in
  let st := rr_validation_status (validate_receipt s receipt current_epoch) in
  mkValidatedReceipt receipt fraud_proofs (omap (fun fp => rc_adjudication_results s !! fp_id fp) fraud_proofs) st
    (if bool_decide (st = FinalizedValid \/ st = ReceiptInvalid) then Some (to_u64 (pr_epoch_id receipt + rc_challenge_window s)) else None).

Definition receipts_cleanup_finalized (receipt : PoUWReceipt) (current_epoch : Z) : RM unit :=
  over ← mread (fun s => window_over s receipt current_epoch);
  mwhen over (mwrite (with_pending_proofs (delete (compute_receipt_hash receipt)))).

(** ** Re-execution of a chunk *)

Definition compute_output_hash (output_cid : string) : Hash := blake3 (str_bytes output_cid).
Definition verify_execution_proof_consistency (claimed re_executed : ExecutionProof) : bool :=
  bool_decide (ep_proof_type claimed = ep_proof_type re_executed) && bool_decide (ep_merkle_root claimed = ep_merkle_root re_executed) &&
  (length (ep_intermediate_states claimed) =? length (ep_intermediate_states re_executed))%nat &&
  forallb (fun ab => bool_decide (ab.1 = ab.2)) (zip (ep_intermediate_states claimed) (ep_intermediate_states re_executed)).

Definition evidence_of_fraud (acceptance : ChunkAcceptance) (task : Task) (input_data : Bytes) (re_executed : WorkResult) (now : Z) : ReExecutionEvidence :=
  mkReExecutionEvidence (tk_task_id task) (blake3 input_data) (compute_output_hash (wr_output_cid re_executed)) (ca_output_hash acceptance)
    (ep_merkle_root (wr_execution_proof re_executed)) (ep_intermediate_states (wr_execution_proof re_executed)) now.

(** [None]: no fraud found. *)
Definition verify_chunk_acceptance (clock : ExecutionClock) (now : Z) (acceptance : ChunkAcceptance) (task : Task) (work_result : WorkResult) (input_data : Bytes)
    : RM (option ReExecutionEvidence) :=
  mbail (negb (bool_decide (wr_worker work_result = ca_worker_pk acceptance))) WorkerMismatch;;
  executor ← mread rc_executor;
  match executor with
  | Some executor =>
      re_executed ← mzoom (fun _ => executor) receipts_with_executor (mmap_err ReExecutionFailed (execute_task blake3 hex sign clock task input_data));
      if negb (bool_decide (compute_output_hash (wr_output_cid re_executed) = ca_output_hash acceptance)) then
        mret (Some (evidence_of_fraud acceptance task input_data re_executed now))
      else if negb (verify_execution_proof_consistency (wr_execution_proof work_result) (wr_execution_proof re_executed)) then
        mret (Some (evidence_of_fraud acceptance task input_data re_executed now))
      else mret None
  | None =>
      mbail (forallb (fun b => b =? 0) (ep_merkle_root (wr_execution_proof work_result))) EmptyMerkleRoot;;
      mret None
  end.
End receipts.

(** ** Facts *)

Section facts.
Context {TS : ThresholdScheme} (blake3 : Bytes -> Bytes) (hex : Bytes -> string) (unhex : string -> option Bytes) (sign : Bytes -> Bytes).
Context (to_string : Value -> string).
Implicit Types s : ReceiptValidator.

(** The status, read as a table. *)
Lemma receipt_status_table no_proofs none_upheld over :
  receipt_status no_proofs none_upheld over =
  if none_upheld then if over then FinalizedValid else if no_proofs then PendingChallenge else UnderDispute else ReceiptInvalid.
Proof. by destruct no_proofs, none_upheld, over. Qed.

(** C26: The status of a receipt.  Enforcing signatures, one whose signature does not verify is invalid.  Otherwise it
    is invalid exactly when some fraud proof against it was upheld; else it is final once the challenge window is
    over, before that in dispute when there is a fraud proof and pending when there is none.  The status
    [ReceiptValid] is never given. *)
Theorem validate_receipt_correct s receipt current_epoch :
  let v := validate_receipt blake3 unhex to_string s receipt current_epoch in
  let upheld := exists p a, p ∈ proofs_of blake3 to_string s receipt /\ rc_adjudication_results s !! fp_id (wf_proof p) = Some a /\ ar_ruling a = ChallengerWins in
  let over := window_over s receipt current_epoch = true in
  let refused := is_err (verify_bls_signature unhex s receipt) = true /\ rc_enforce_bls s = true in
  (rr_validation_status v = ReceiptInvalid <-> refused \/ upheld) /\
  (rr_validation_status v = FinalizedValid <-> ~ refused /\ ~ upheld /\ over) /\
  (rr_validation_status v = UnderDispute <-> ~ refused /\ ~ upheld /\ ~ over /\ proofs_of blake3 to_string s receipt <> []) /\
  (rr_validation_status v = PendingChallenge <-> ~ refused /\ ~ over /\ proofs_of blake3 to_string s receipt = []) /\
  rr_validation_status v <> ReceiptValid /\
  (rr_is_valid v = true <-> rr_validation_status v = FinalizedValid \/ rr_validation_status v = PendingChallenge).
Proof.
  cbv zeta. set (proofs := proofs_of _ _ _ _).
  assert ((length (ruled_proofs s challenger_won proofs) =? 0)%nat = false <->
    exists p a, p ∈ proofs /\ rc_adjudication_results s !! fp_id (wf_proof p) = Some a /\ ar_ruling a = ChallengerWins) as Hup.
  { unfold ruled_proofs. rewrite Nat.eqb_neq, length_zero_iff_nil. split.
    - intros H. destruct (List.filter _ _) as [|id ids] eqn:E; [done|]. assert (In id (id :: ids)) as Hin by by left. rewrite <-E in Hin.
      apply filter_In in Hin as [Hin Hr]. apply list_elem_of_In, list_elem_of_fmap in Hin as (p & -> & Hp). destruct (rc_adjudication_results s !! _) as [a|] eqn:Ea; [|done].
      exists p, a. split; [done|]. split; [done|]. unfold challenger_won in Hr. by destruct (ar_ruling a).
    - intros (p & a & Hp & Ha & Hr) E. assert (In (fp_id (wf_proof p)) []) as []. rewrite <-E. apply filter_In. split; [apply list_elem_of_In, list_elem_of_fmap; by exists p|].
      rewrite Ha. unfold challenger_won. by rewrite Hr. }
  assert (is_err (verify_bls_signature unhex s receipt) = true /\ rc_enforce_bls s = true <-> signature_refused unhex s receipt = true) as Href
    by (unfold signature_refused; rewrite andb_true_iff; done).
  rewrite Href, <-Hup. unfold validate_receipt. destruct (signature_refused unhex s receipt); cbn -[Nat.eqb]; fold proofs; [naive_solver|].
  assert (proofs = [] -> (length (ruled_proofs s challenger_won proofs) =? 0)%nat = true) as Hnil by by intros ->.
  rewrite receipt_status_table.
  destruct (length (ruled_proofs s challenger_won proofs) =? 0)%nat; [|destruct (window_over s receipt current_epoch); cbn; naive_solver].
  destruct proofs as [|p ps]; cbn; destruct (window_over s receipt current_epoch); cbn; naive_solver.
Qed.

(** The parts of a receipt that its signature covers. *)
Definition same_signed_part (r r' : PoUWReceipt) : Prop :=
  pr_hook_id r' = pr_hook_id r /\ pr_epoch_id r' = pr_epoch_id r /\
  (fun a => (ca_output_hash a, ca_worker_pk a)) <$> pr_accepted r' = (fun a => (ca_output_hash a, ca_worker_pk a)) <$> pr_accepted r /\
  (fun x => (cr_chunk_id x, cr_worker_pk x)) <$> pr_rejected r' = (fun x => (cr_chunk_id x, cr_worker_pk x)) <$> pr_rejected r /\
  pr_agg_pk r' = pr_agg_pk r /\ pr_sig_qk r' = pr_sig_qk r.

(** The signature does not bind a receipt to its place in the chain, nor an acceptance to its chunk: with
    another sequence number, previous hash or version, other chunk numbers for the accepted outputs, or other
    reasons for the rejections, it verifies as before. *)
Theorem signature_covers_part s r r' : same_signed_part r r' -> verify_bls_signature unhex s r' = verify_bls_signature unhex s r.
Proof.
  intros (H1 & H2 & H3 & H4 & H5 & H6). assert (build_receipt_message r' = build_receipt_message r) as Hm.
  { unfold build_receipt_message. pose proof (f_equal length H3) as Hl3. pose proof (f_equal length H4) as Hl4. rewrite !length_fmap in Hl3. rewrite !length_fmap in Hl4. rewrite H1, H2, Hl3, Hl4.
    assert (forall l : list ChunkAcceptance, (fun a => ca_output_hash a ++ ca_worker_pk a) <$> l = (fun xy => xy.1 ++ xy.2) <$> ((fun a => (ca_output_hash a, ca_worker_pk a)) <$> l)) as Ha
      by (intros l; by rewrite <-list_fmap_compose).
    assert (forall l : list ChunkRejection, (fun x => to_le_bytes 8 (cr_chunk_id x) ++ cr_worker_pk x) <$> l = (fun xy => to_le_bytes 8 xy.1 ++ xy.2) <$> ((fun x => (cr_chunk_id x, cr_worker_pk x)) <$> l)) as Hr
      by (intros l; by rewrite <-list_fmap_compose).
    by rewrite !Ha, !Hr, H3, H4. }
  unfold verify_bls_signature. by rewrite Hm, H5, H6.
Qed.

(** A fraud proof need not concern the receipt that it is submitted against: one that was upheld in another
    case makes any receipt invalid whose challenge window is open. *)
Theorem foreign_proof_invalidates s receipt fraud_proof current_epoch a :
  window_over s receipt current_epoch = false -> evidence_cid (fp_evidence (wf_proof fraud_proof)) <> EmptyString ->
  rc_adjudication_results s !! fp_id (wf_proof fraud_proof) = Some a -> ar_ruling a = ChallengerWins ->
  let s' := (submit_receipt_fraud_proof blake3 to_string receipt fraud_proof current_epoch s).2 in
  rr_validation_status (validate_receipt blake3 unhex to_string s' receipt current_epoch) = ReceiptInvalid.
Proof.
  intros Hw Hcid Ha Hr. cbv zeta. unfold submit_receipt_fraud_proof, mbind, M_bind, mread, mbail, mmap_err, mresult, mwrite. rewrite Hw. cbn [mret M_ret].
  unfold verify_structure. rewrite bool_decide_eq_false_2 by done. set (s1 := with_pending_proofs _ s).
  assert (forall b, (match b : result ChallengeError QuorumResult with Panic => mpanic | _ => mret tt end s1).2 = s1) as -> by by intros [].
  unfold validate_receipt. destruct (signature_refused _ _ _); [done|]. cbn -[Nat.eqb].
  assert ((length (ruled_proofs s1 challenger_won (proofs_of blake3 to_string s1 receipt)) =? 0)%nat = false) as ->; [|done].
  apply Nat.eqb_neq. rewrite length_zero_iff_nil. intros E. assert (In (fp_id (wf_proof fraud_proof)) []) as []. rewrite <-E. apply filter_In. split.
  - apply list_elem_of_In, list_elem_of_fmap. exists fraud_proof. split; [done|]. unfold proofs_of, s1. cbn. rewrite lookup_insert_eq. cbn. apply elem_of_app. right. left.
  - change (rc_adjudication_results s1) with (rc_adjudication_results s). rewrite Ha. unfold challenger_won. by rewrite Hr.
Qed.

(** Cleaning up after the challenge window makes a receipt valid that was proven fraudulent. *)
Theorem cleanup_forgets_fraud s receipt current_epoch :
  window_over s receipt current_epoch = true -> signature_refused unhex s receipt = false ->
  let s' := (receipts_cleanup_finalized blake3 to_string receipt current_epoch s).2 in
  rr_validation_status (validate_receipt blake3 unhex to_string s' receipt current_epoch) = FinalizedValid.
Proof.
  intros Hw Hs. cbv zeta. unfold receipts_cleanup_finalized, mbind, M_bind, mread, mwhen. rewrite Hw. cbn.
  unfold validate_receipt. change (signature_refused unhex (with_pending_proofs _ s) receipt) with (signature_refused unhex s receipt). rewrite Hs.
  unfold proofs_of. cbn. rewrite lookup_delete_eq. cbn. change (window_over (with_pending_proofs _ s) receipt current_epoch) with (window_over s receipt current_epoch). by rewrite Hw.
Qed.

(** ** Re-execution *)

Lemma consistency_refl p : verify_execution_proof_consistency p p = true.
Proof.
  unfold verify_execution_proof_consistency. rewrite !bool_decide_eq_true_2, Nat.eqb_refl by done. cbn.
  induction (ep_intermediate_states p) as [|x l IH]; [done|]. cbn. by rewrite bool_decide_eq_true_2.
Qed.
Lemma consistency_spec p q : verify_execution_proof_consistency p q = true <->
  ep_proof_type p = ep_proof_type q /\ ep_merkle_root p = ep_merkle_root q /\ ep_intermediate_states p = ep_intermediate_states q.
Proof.
  split; [|by intros (H1 & H2 & H3); pose proof (consistency_refl q) as H; unfold verify_execution_proof_consistency in *; rewrite H1, H2, H3].
  unfold verify_execution_proof_consistency. rewrite !andb_true_iff, !bool_decide_eq_true, Nat.eqb_eq. intros [[[H1 H2] Hl] Hz]. split_and!; [done..|].
  revert Hl Hz. generalize (ep_intermediate_states q). induction (ep_intermediate_states p) as [|x l IH]; intros [|y l']; try done. cbn. intros [= Hl] [H Hz]%andb_prop.
  apply bool_decide_eq_true in H as ->. f_equal. by apply IH.
Qed.

(** A chunk passes the check exactly when executing its task again on the same input gives the accepted
    output hash and the proof that the worker left; a difference is returned as evidence that names both
    hashes, and the work of an honest worker leaves none. *)
Theorem chunk_check_correct clock now acceptance task w input ex s :
  rc_executor s = Some ex -> has_room ex -> validate_resource_requirements (te_config ex) task = Ok tt -> wr_worker w = ca_worker_pk acceptance ->
  match run_task blake3 hex task input with
  | Ok (output, proof) =>
      let expected := compute_output_hash blake3 (output_cid_of blake3 hex output) in
      let claimed := wr_execution_proof w in
      let (x, s') := verify_chunk_acceptance blake3 hex sign clock now acceptance task w input s in
      (x = Ok None <-> expected = ca_output_hash acceptance /\ ep_proof_type claimed = ep_proof_type proof /\
         ep_merkle_root claimed = ep_merkle_root proof /\ ep_intermediate_states claimed = ep_intermediate_states proof) /\
      (x <> Ok None -> exists evidence, x = Ok (Some evidence) /\ re_expected_output_hash evidence = expected /\
         re_claimed_output_hash evidence = ca_output_hash acceptance /\ re_input_hash evidence = blake3 input)
  | _ => exists e, (verify_chunk_acceptance blake3 hex sign clock now acceptance task w input s).1 = Err (ReExecutionFailed e)
  end.
Proof.
  intros Hex Hroom Hres Hw. unfold verify_chunk_acceptance, mbind, M_bind, mread, mbail. rewrite bool_decide_eq_true_2 by done. cbn [negb mret M_ret]. rewrite Hex.
  unfold mzoom, mmap_err. rewrite execute_task_spec. unfold has_room in Hroom. destruct (Nat.leb_spec (exc_max_concurrent_tasks (te_config ex)) (te_concurrent_tasks ex)); [lia|].
  rewrite Hres. pose proof (run_task_no_panic blake3 hex task input). destruct (run_task _ _ _ _) as [[output proof]|e|]; [|by exists e|done]. cbv zeta.
  cbn [wr_output_cid work_result_of wr_execution_proof]. case_bool_decide as Ho; cbn [negb]; [|split; [naive_solver|intros _; eexists; by split_and!]].
  destruct (verify_execution_proof_consistency _ _) eqn:E; cbn [negb].
  - apply consistency_spec in E as (H1 & H2 & H3). split; [done|by intros []].
  - split; [split; [done|intros (_ & H1 & H2 & H3)]|intros _; eexists; by split_and!].
    pose proof (proj2 (consistency_spec (wr_execution_proof w) proof) (conj H1 (conj H2 H3))). congruence.
Qed.
End facts.

(** ** Instances *)

Definition demo_receipts : ReceiptValidator :=
  receipts_with_executor demo_executor (receipt_validator_new (vrf_new VRFConfig_default, AdjudicationConfig_default) 100).
Definition wrong_acceptance : ChunkAcceptance := mkAcceptance 1 [2] [0].

Lemma chunk_check_correct_witness :
  exists evidence, (verify_chunk_acceptance plain_hash demo_hex (fun bs => bs) demo_clock 3 wrong_acceptance (compute_task HashVerification) demo_result [1; 2] demo_receipts).1 = Ok (Some evidence) /\
    re_claimed_output_hash evidence = [0].
Proof.
  pose proof (chunk_check_correct plain_hash demo_hex (fun bs => bs) demo_clock 3 wrong_acceptance (compute_task HashVerification) demo_result [1; 2] demo_executor demo_receipts) as H.
  destruct (run_task plain_hash demo_hex (compute_task HashVerification) [1; 2]) as [[output proof]|e|] eqn:E; [|vm_compute in E; discriminate E..].
  destruct (verify_chunk_acceptance _ _ _ _ _ _ _ _ _ _) as [x s'] eqn:Ex. destruct H as [_ H].
  - reflexivity.
  - vm_compute. lia.
  - vm_compute. reflexivity.
  - reflexivity.
  - destruct H as (evidence & -> & _ & Hc & _); [|exists evidence; split; [reflexivity|exact Hc]].
    intros ->. vm_compute in Ex. discriminate Ex.
Defined.
