(* ===== verification/Committee.v ===== *)
(** * Committee certificates

    [adic-pouw/src/committee.rs], which reads the registry of [NetworkMetadata]: the certificate of the committee of an epoch, its
    verification, and the choice of the aggregator.  The exponential is the argument [exp]; the order of iterating
    over the table of scores is [scores_iter]; instants are in nanoseconds. *)

From S2P Require Import Prelude F64 Message Reputation Vrf Quorum Bls Amount Escrow Voting Application TaskTypes Dkg Signing NetworkMetadata.

(** ** Certificates *)

Record CommitteeCertConfig := mkCertConfig {
  cc_quorum_config : QuorumConfig;
  cc_require_signatures : bool;
  cc_bls_domain : string;
  cc_min_committee_reputation : f64;
}.
Definition cert_config_default : CommitteeCertConfig :=
  mkCertConfig (mkQuorumConfig (f64_of_Z 50) 5 15 2 3 "ADIC-PoUW-COMMITTEE-v1" 3) true "ADIC-PoUW-COMMITTEE-v1" (f64_of_Z 50).

Record AxisStats := mkAxisStats { ax_distribution : list (Z * Z); ax_diversity_score : f64 }.
Record ODCCommitteeCert := mkCert {
  ct_epoch_id : Z;
  ct_randomness : Hash;
  ct_members : list PublicKey;
  ct_axis_stats : AxisStats;
  ct_threshold_signature : option BLSSignature;
}.

Section certificates.
Context {TS : ThresholdScheme} (blake3 : Bytes -> Bytes) (hex : Bytes -> string) (unhex : string -> option Bytes) (exp : f64 -> f64).

Record CommitteeCertGenerator := mkGenerator {
  cg_quorum_selector : VRFService;
  cg_vrf_service : VRFService;
  cg_reputation_tracker : ReputationTracker;
  cg_metadata_registry : NetworkMetadataRegistry;
  cg_bls_coordinator : option BLSCoordinator;
  cg_dkg_manager : option DKGManager;
  cg_config : CommitteeCertConfig;
}.
Implicit Types s : CommitteeCertGenerator.
Definition generator_new (quorum_selector vrf_service : VRFService) (reputation_tracker : ReputationTracker) (metadata_registry : NetworkMetadataRegistry)
    (config : CommitteeCertConfig) : CommitteeCertGenerator :=
  mkGenerator quorum_selector vrf_service reputation_tracker metadata_registry None None config.
Definition generator_with_coordinator (coordinator : BLSCoordinator) s : CommitteeCertGenerator :=
  mkGenerator (cg_quorum_selector s) (cg_vrf_service s) (cg_reputation_tracker s) (cg_metadata_registry s) (Some coordinator) (cg_dkg_manager s) (cg_config s).
Definition generator_with_dkg (manager : DKGManager) s : CommitteeCertGenerator :=
  mkGenerator (cg_quorum_selector s) (cg_vrf_service s) (cg_reputation_tracker s) (cg_metadata_registry s) (cg_bls_coordinator s) (Some manager) (cg_config s).

Local Notation CM := (M CommitteeCertGenerator PoUWError).

Definition node_of s (entry : PublicKey * f64 * list Bytes) : NodeInfo :=
  let '(pk, reputation, axis_balls) := entry in
  let metadata := metadata_get (cg_metadata_registry s) pk in
  mkNode pk reputation (nn_asn <$> metadata) (nn_region <$> metadata) axis_balls.

Definition committee_randomness (r : result VRFError Bytes) : result PoUWError Bytes :=
  match r with Ok b => Ok b | Err e => Err (RandomnessNotAvailable e) | Panic => Panic end.
Definition committee_selection (r : result QuorumError QuorumResult) : result PoUWError QuorumResult :=
  match r with Ok q => Ok q | Err e => Err (CommitteeSelectionFailed e) | Panic => Panic end.

Definition degraded s (member : PublicKey) : bool := f64_ltb (get_reputation (cg_reputation_tracker s) member) (cc_min_committee_reputation (cg_config s)).

(** The ceremony itself is not started here. *)
Definition check_dkg s (epoch_id : Z) (members : list PublicKey) : result PoUWError unit :=
  match cg_dkg_manager s with
  | Some manager =>
      if manager_is_complete manager epoch_id then Ok tt
      else let? _ := bls_fault (threshold_config_new (length members) (length members * 2 / 3 + 1)) in Ok tt
  | None => Ok tt
  end.

Definition count_axis (counts : gmap Z Z) (member : QuorumMember) : gmap Z Z :=
  let axis := Z.of_nat (qm_axis_id member) in <[axis := default 0 (counts !! axis) + 1]> counts.
Definition compute_axis_stats s (members : list QuorumMember) : AxisStats :=
  let axis_distribution := isort (fun a b => a.1 <=? b.1) (map_to_list (foldl count_axis ∅ members)) in
  let num := f64_of_Z (Z.of_nat (num_axes (cc_quorum_config (cg_config s)))) in
  let ideal_per_axis := f64_div (f64_of_Z (Z.of_nat (length members))) num in
  let square (ac : Z * Z) := let diff := f64_sub (f64_of_Z ac.2) ideal_per_axis in f64_mul diff diff in
  let variance := f64_div (foldl f64_add f64_zero (square <$> axis_distribution)) num in
  mkAxisStats axis_distribution (exp (f64_div (f64_neg variance) (f64_mul ideal_per_axis ideal_per_axis))).

Definition cert_message (epoch_id : Z) (randomness : Bytes) (members : list PublicKey) : Bytes :=
  to_le_bytes 8 epoch_id ++ randomness ++ concat members.

Definition with_cert_coordinator (c : BLSCoordinator) s : CommitteeCertGenerator := generator_with_coordinator c s.
(** The session that collects the signatures; a failure to open it is only logged. *)
Definition request_signatures (now : Z) (epoch_id : Z) (randomness : Bytes) (members : list PublicKey) : CM unit :=
  config ← mread cg_config;
  coordinator ← mread cg_bls_coordinator;
  match coordinator with
  | Some c =>
      if cc_require_signatures config then
        let message_data := cert_message epoch_id randomness members in
        let request_id := signing_request_id hex "committee-cert" epoch_id (blake3 message_data) in
        mwrite (with_cert_coordinator (initiate_signing request_id message_data DST_COMMITTEE_CERT members now c).2)
      else mret tt
  | None => mret tt
  end.

Definition generate_certificate (now : Z) (epoch_id : Z) (entries : list (PublicKey * f64 * list Bytes)) : CM ODCCommitteeCert :=
  s ← mread (fun s => s);
  randomness ← mresult (committee_randomness (get_canonical_randomness (cg_vrf_service s) epoch_id));
  quorum ← mresult (committee_selection (select_committee blake3 (cg_quorum_selector s) epoch_id (cc_quorum_config (cg_config s)) (node_of s <$> entries)));
  let members := qm_public_key <$> qr_members quorum in
  mbail (existsb (degraded s) members) (Other "Committee member has insufficient reputation");;
  mresult (check_dkg s epoch_id members);;
  request_signatures now epoch_id randomness members;;
  mret (mkCert epoch_id randomness members (compute_axis_stats s (qr_members quorum)) None).

(** The signature and the members are not looked at. *)
Definition verify_certificate s (cert : ODCCommitteeCert) : result PoUWError bool :=
  let? expected := committee_randomness (get_canonical_randomness (cg_vrf_service s) (ct_epoch_id cert)) in
  Ok (bool_decide (ct_randomness cert = expected)).

Definition reconstruct_cert_message (cert : ODCCommitteeCert) : Bytes :=
  blake3 (cert_message (ct_epoch_id cert) (ct_randomness cert) (isort bytes_leb (ct_members cert))).

Definition verify_with_public_key_set s (cert : ODCCommitteeCert) (public_key_set : PublicKeySet) : result PoUWError bool :=
  let? plausible := match verify_certificate s cert with Err _ => Ok false | r => r end in
  if negb plausible then Ok false
  else match ct_threshold_signature cert with
       | Some signature =>
           let? sig := bls_fault (to_tc_signature unhex signature) in
           Ok (check_signature public_key_set sig (prefixed_message DST_COMMITTEE_CERT (reconstruct_cert_message cert)))
       | None => Ok true
       end.

Definition add_signature (cert : ODCCommitteeCert) (signature : BLSSignature) : ODCCommitteeCert :=
  mkCert (ct_epoch_id cert) (ct_randomness cert) (ct_members cert) (ct_axis_stats cert) (Some signature).
End certificates.

(** ** The aggregator *)

Record AggregatorSelector := mkAggregator { ag_timeout_secs : Z }.
Definition aggregator_default : AggregatorSelector := mkAggregator 60.
Definition aggregator_new (timeout_secs : Z) : AggregatorSelector := mkAggregator timeout_secs.

Section aggregator.
Context (scores_iter : gmap PublicKey Bytes -> list (PublicKey * Bytes)).

Definition keep_min (scores : gmap PublicKey Bytes) (member : QuorumMember) : gmap PublicKey Bytes :=
  match scores !! qm_public_key member with
  | Some min_score => if negb (bytes_leb min_score (qm_vrf_score member)) then <[qm_public_key member := qm_vrf_score member]> scores else scores
  | None => <[qm_public_key member := qm_vrf_score member]> scores
  end.
(** [min_by_key]: the first of the smallest. *)
Fixpoint min_by_score (best : PublicKey * Bytes) (l : list (PublicKey * Bytes)) : PublicKey * Bytes :=
  match l with [] => best | x :: l => min_by_score (if negb (bytes_leb best.2 x.2) then x else best) l end.
Definition select_primary_aggregator (members : list QuorumMember) : option PublicKey :=
  match members with
  | [] => None
  | _ => match scores_iter (foldl keep_min ∅ members) with [] => None | x :: l => Some (min_by_score x l).1 end
  end.

(** [elapsed]: whole seconds since the start. *)
Definition is_timeout_elapsed (s : AggregatorSelector) (elapsed : Z) : bool := ag_timeout_secs s <=? elapsed.
Definition can_aggregate (s : AggregatorSelector) (member_pk : PublicKey) (members : list QuorumMember) (elapsed : Z) : bool :=
  if negb (existsb (fun m => bool_decide (qm_public_key m = member_pk)) members) then false
  else match select_primary_aggregator members with
       | Some primary => if bool_decide (primary = member_pk) then true else is_timeout_elapsed s elapsed
       | None => is_timeout_elapsed s elapsed
       end.
End aggregator.

(** ** Facts about certificates *)

Section cert_facts.
Context {TS : ThresholdScheme} (blake3 : Bytes -> Bytes) (hex : Bytes -> string) (unhex : string -> option Bytes) (exp : f64 -> f64).
Implicit Types s : CommitteeCertGenerator.

Lemma request_signatures_spec now epoch_id randomness members s :
  exists s', request_signatures blake3 hex now epoch_id randomness members s = (Ok tt, s') /\
    cg_vrf_service s' = cg_vrf_service s /\ cg_quorum_selector s' = cg_quorum_selector s /\ cg_config s' = cg_config s /\
    cg_reputation_tracker s' = cg_reputation_tracker s /\ cg_dkg_manager s' = cg_dkg_manager s.
Proof.
  unfold request_signatures, mbind, M_bind, mread, mret, M_ret, mwrite. destruct (cg_bls_coordinator s); [|by eexists].
  destruct (cc_require_signatures _); by eexists.
Qed.

(** A certificate that is issued names the committee that the randomness of its epoch draws from the given nodes:
    distinct members of at least the required reputation, within the caps; none of them has lost it since.  It is
    unsigned, and verifies. *)
Theorem generate_certificate_correct now epoch_id entries s cert :
  let (r, s') := generate_certificate blake3 hex exp now epoch_id entries s in
  r = Ok cert -> exists q,
    committee_ok blake3 (cg_quorum_selector s) epoch_id (cc_quorum_config (cg_config s)) (node_of s <$> entries) q /\
    ct_epoch_id cert = epoch_id /\ ct_members cert = qm_public_key <$> qr_members q /\ ct_threshold_signature cert = None /\
    Forall (fun m => degraded s m = false) (ct_members cert) /\
    (is_Some (cg_dkg_manager s) -> ct_members cert <> [] \/ exists m, cg_dkg_manager s = Some m /\ manager_is_complete m epoch_id = true) /\
    verify_certificate s' cert = Ok true.
Proof.
  unfold generate_certificate, mbind, M_bind, mread, mresult, mbail.
  destruct (committee_randomness _) as [randomness|e|] eqn:Hr; [|done..].
  destruct (committee_selection _) as [q|e|] eqn:Hq; [|done..]. destruct (existsb _ _) eqn:Hdeg; [done|]. cbn [mret M_ret].
  destruct (check_dkg _ _ _) as [u|e|] eqn:Hdkg; [|done..].
  destruct (request_signatures_spec now epoch_id randomness (qm_public_key <$> qr_members q) s) as (s' & -> & Hv & _).
  intros [= <-]. exists q. cbn [ct_epoch_id ct_members ct_threshold_signature].
  assert (select_committee blake3 (cg_quorum_selector s) epoch_id (cc_quorum_config (cg_config s)) (node_of s <$> entries) = Ok q) as Hsel
    by (destruct (select_committee _ _ _ _ _); simpl in Hq; congruence).
  split_and!; [by apply select_committee_ok in Hsel|done..| | |].
  - apply Forall_forall. intros m Hm. destruct (degraded s m) eqn:E; [|done]. rewrite <-Hdeg. symmetry. apply existsb_exists. exists m. by rewrite <-list_elem_of_In.
  - intros [m Hm]. unfold check_dkg in Hdkg. rewrite Hm in Hdkg. destruct (manager_is_complete m epoch_id) eqn:E; [right; by exists m|left].
    intros Hnil. rewrite Hnil in Hdkg. cbn in Hdkg. discriminate.
  - unfold verify_certificate. cbn [ct_epoch_id ct_randomness]. rewrite Hv, Hr. cbn. by rewrite bool_decide_eq_true_2.
Qed.

(** Verification looks at the randomness only: with it, any list of members and any signature pass. *)
Theorem certificate_members_unchecked s epoch_id randomness members stats signature :
  get_canonical_randomness (cg_vrf_service s) epoch_id = Ok randomness ->
  verify_certificate s (mkCert epoch_id randomness members stats signature) = Ok true.
Proof. intros H. unfold verify_certificate. cbn. rewrite H. cbn. by rewrite bool_decide_eq_true_2. Qed.

(** The committee signs the randomness and the members themselves, and the full verification expects their hash, so
    that a certificate signed as requested is refused (with the toy scheme, where a signature names its message). *)
Theorem requested_signature_refused (Hhex : forall bs, unhex (hex bs) = Some bs) (Hlen : forall bs, length (blake3 bs) = 32%nat)
    (s : CommitteeCertGenerator (TS := toy_scheme)) (cert : ODCCommitteeCert) (key : Z) n :
  verify_certificate s cert = Ok true -> (32 < length (cert_message (ct_epoch_id cert) (ct_randomness cert) (ct_members cert)))%nat ->
  let message := prefixed_message DST_COMMITTEE_CERT (cert_message (ct_epoch_id cert) (ct_randomness cert) (ct_members cert)) in
  let signature := from_tc_signature (TS := toy_scheme) hex (key, message) in
  check_signature (ThresholdScheme := toy_scheme) (key, n) (key, message) message = true /\
  verify_with_public_key_set blake3 unhex s (add_signature cert signature) (key, n) = Ok false.
Proof using Type.
  clear exp. intros Hv Hl. cbv zeta. split; [cbn; by apply bool_decide_eq_true|]. unfold verify_with_public_key_set. change (verify_certificate s (add_signature cert _)) with (verify_certificate s cert).
  rewrite Hv. cbn [negb result_bind]. cbn [ct_threshold_signature add_signature]. unfold to_tc_signature, from_tc_signature. rewrite Hhex. cbn -[prefixed_message cert_message reconstruct_cert_message].
  rewrite bool_decide_eq_false_2; [done|]. intros [= E]. rewrite E in Hl. unfold reconstruct_cert_message in Hl. rewrite Hlen in Hl. lia.
Qed.
End cert_facts.

(** ** Facts about the aggregator *)

Section aggregator_facts.
Context (scores_iter : gmap PublicKey Bytes -> list (PublicKey * Bytes)) (Hiter : forall m, scores_iter m ≡ₚ map_to_list m).

Definition min_of (members : list QuorumMember) (pk : PublicKey) (score : Bytes) : Prop :=
  (exists m, m ∈ members /\ qm_public_key m = pk /\ qm_vrf_score m = score) /\
  forall m, m ∈ members -> qm_public_key m = pk -> bytes_leb score (qm_vrf_score m) = true.

Lemma bytes_leb_refl b : bytes_leb b b = true.
Proof. destruct (bytes_leb b b) eqn:E; [done|]. by rewrite (bytes_leb_total _ _ E) in E. Qed.

Lemma keep_min_spec members : forall pk,
  match foldl keep_min ∅ members !! pk with
  | Some score => min_of members pk score
  | None => forall m, m ∈ members -> qm_public_key m <> pk
  end.
Proof using Type.
  clear. induction members as [|x members IH] using rev_ind; intros pk; [cbn; rewrite lookup_empty; intros m Hm; by apply elem_of_nil in Hm|].
  rewrite foldl_snoc. unfold keep_min at 1. set (scores := foldl keep_min ∅ members) in *.
  assert (forall score, min_of members pk score -> qm_public_key x <> pk -> min_of (members ++ [x]) pk score) as Hkeep.
  { intros score [(m & Hm & H1 & H2) Hmin] Hne. split; [exists m; set_solver|]. intros m' [H| ->%list_elem_of_singleton]%elem_of_app Hpk; [by apply Hmin|done]. }
  destruct (decide (qm_public_key x = pk)) as [<-|Hne].
  - specialize (IH (qm_public_key x)). destruct (scores !! qm_public_key x) as [score|] eqn:E.
    + destruct IH as [(m & Hm & H1 & H2) Hmin]. destruct (bytes_leb score (qm_vrf_score x)) eqn:El; cbn [negb].
      * rewrite E. split; [exists m; set_solver|]. intros m' [H| ->%list_elem_of_singleton]%elem_of_app Hpk; [by apply Hmin|done].
      * rewrite lookup_insert_eq. split; [exists x; set_solver|]. intros m' [H| ->%list_elem_of_singleton]%elem_of_app Hpk; [|apply bytes_leb_refl].
        apply (bytes_leb_trans _ score); [by apply bytes_leb_total|by apply Hmin].
    + rewrite lookup_insert_eq. split; [exists x; set_solver|]. intros m' [H| ->%list_elem_of_singleton]%elem_of_app Hpk; [by destruct (IH m' H)|apply bytes_leb_refl].
  - specialize (IH pk). assert ((match scores !! qm_public_key x with
       | Some min_score => if negb (bytes_leb min_score (qm_vrf_score x)) then <[qm_public_key x:=qm_vrf_score x]> scores else scores
       | None => <[qm_public_key x:=qm_vrf_score x]> scores end) !! pk = scores !! pk) as ->
      by (repeat case_match; by rewrite ?lookup_insert_ne).
    destruct (scores !! pk) as [score|]; [by apply Hkeep|]. intros m' [H| ->%list_elem_of_singleton]%elem_of_app; [by apply IH|done].
Qed.

Lemma min_by_score_spec l : forall best, min_by_score best l ∈ best :: l /\ Forall (fun x => bytes_leb (min_by_score best l).2 x.2 = true) (best :: l).
Proof using Type.
  clear. induction l as [|x l IH]; intros best; cbn [min_by_score]; [split; [left|repeat constructor; apply bytes_leb_refl]|].
  destruct (IH (if negb (bytes_leb best.2 x.2) then x else best)) as [H1 H2]. set (m := min_by_score _ l) in *. inversion_clear H2 as [|? ? H3 H4].
  destruct (bytes_leb best.2 x.2) eqn:E; cbn [negb] in *.
  - split; [set_solver|]. repeat constructor; [done|by eapply bytes_leb_trans|done].
  - split; [set_solver|]. repeat constructor; [|done|done]. eapply bytes_leb_trans; [exact H3|by apply bytes_leb_total].
Qed.

Lemma primary_spec members : members <> [] -> exists m, m ∈ members /\ select_primary_aggregator scores_iter members = Some (qm_public_key m) /\
  forall m', m' ∈ members -> bytes_leb (qm_vrf_score m) (qm_vrf_score m') = true.
Proof.
  intros Hne. unfold select_primary_aggregator. destruct members as [|m0 ms] eqn:Em; [done|]. rewrite <-Em. clear Hne.
  assert (forall pk score, (pk, score) ∈ scores_iter (foldl keep_min ∅ members) -> min_of members pk score) as Hin.
  { intros pk score H. rewrite (Hiter _), elem_of_map_to_list in H. pose proof (keep_min_spec members pk) as Hk. by rewrite H in Hk. }
  assert (forall m, m ∈ members -> exists score, (qm_public_key m, score) ∈ scores_iter (foldl keep_min ∅ members)) as Hcov.
  { intros m Hm. pose proof (keep_min_spec members (qm_public_key m)) as Hk. destruct (_ !! qm_public_key m) as [score|] eqn:E; [|by destruct (Hk m Hm)].
    exists score. by rewrite (Hiter _), elem_of_map_to_list. }
  destruct (scores_iter _) as [|x l] eqn:Ei.
  { destruct (Hcov m0) as [score H]; [rewrite Em; left|]. by apply elem_of_nil in H. }
  destruct (min_by_score_spec l x) as [Hmin Hall]. destruct (min_by_score x l) as [pk score]. destruct (Hin pk score Hmin) as [(m & Hm & <- & <-) _].
  exists m. split; [done|]. split; [done|]. intros m' Hm'. destruct (Hcov m' Hm') as [score' H']. rewrite Forall_forall in Hall. specialize (Hall _ H').
  destruct (Hin _ _ H') as [_ Hmin']. cbn in Hall. eapply bytes_leb_trans; [exact Hall|by apply Hmin'].
Qed.

(** The primary aggregator is a member with the smallest score of all, and a member may aggregate exactly when it is
    the primary one or the timeout has passed; nobody else may. *)
Theorem can_aggregate_correct s member_pk members elapsed :
  can_aggregate scores_iter s member_pk members elapsed = true <->
  (exists m, m ∈ members /\ qm_public_key m = member_pk) /\
  (select_primary_aggregator scores_iter members = Some member_pk \/ ag_timeout_secs s <= elapsed) /\
  exists m, m ∈ members /\ select_primary_aggregator scores_iter members = Some (qm_public_key m) /\
    forall m', m' ∈ members -> bytes_leb (qm_vrf_score m) (qm_vrf_score m') = true.
Proof.
  unfold can_aggregate, is_timeout_elapsed. destruct (existsb _ _) eqn:E; cbn [negb].
  - apply existsb_exists in E as (m & Hm%list_elem_of_In & Hpk%bool_decide_eq_true). destruct (primary_spec members) as (p & Hp & Es & Hmin); [by intros ->; apply elem_of_nil in Hm|].
    rewrite Es. cbn -[Z.leb]. rewrite <-Z.leb_le. case_bool_decide as Hb.
    + split; [intros _|done]. split; [by exists m|]. split; [left; congruence|by exists p].
    + split; [intros Ht; split; [by exists m|]; split; [by right|by exists p]|intros (_ & [Hs|Hs] & _); [congruence|done]].
  - split; [done|]. intros ((m & Hm & <-) & _). rewrite <-E. apply existsb_exists. exists m. split; [by apply list_elem_of_In|by apply bool_decide_eq_true].
Qed.
End aggregator_facts.
