(* ===== verification/Orchestrator.v ===== *)
(** * Ceremonies over the network

    [adic-pouw/src/dkg_orchestrator.rs]: the ceremonies that a node takes part in, driven by the messages of the
    other members of the committee, on top of the manager of [Dkg] and the coordinator of [Signing].  A handler
    returns the messages to send with their receivers.  Peers are a type parameter, the random polynomial of
    a ceremony and the order of iterating over commitments are arguments.  A handler is one step: two that
    run at once can deadlock in the code, where [handle_commitment] keeps the table of ceremonies locked for
    writing while it calls [try_finalize_ceremony], which reads it. *)

From S2P Require Import Prelude Message Bls Vrf Quorum Amount Escrow Voting Application TaskTypes Dkg Signing.

Inductive DKGMessage :=
  | MsgCommitment (epoch_id : Z) (commitment : DKGCommitment)
  | MsgShare (epoch_id : Z) (share : DKGShare)
  | MsgComplete (epoch_id : Z) (participant_id : nat).

Record ActiveCeremony := mkActive {
  ac_our_participant_id : nat;
  ac_committee_members : list PublicKey;
  ac_commitments_received : nat;
  ac_shares_sent : bool;
}.

Section orchestrator.
Context {TS : ThresholdScheme} {PeerId : Type} (hex : Bytes -> string) (unhex : string -> option Bytes).
Context (commitments_iter : gmap nat DKGCommitment -> list (nat * DKGCommitment)).

Record DKGOrchestrator := mkOrchestrator {
  oc_our_public_key : PublicKey;
  oc_dkg_manager : DKGManager;
  oc_bls_coordinator : BLSCoordinator;
  oc_peer_mapping : gmap PublicKey PeerId;
  oc_active_ceremonies : gmap Z ActiveCeremony;
}.
Implicit Types s : DKGOrchestrator.
Definition orchestrator_new (our_public_key : PublicKey) (dkg_manager : DKGManager) (bls_coordinator : BLSCoordinator) : DKGOrchestrator :=
  mkOrchestrator our_public_key dkg_manager bls_coordinator ∅ ∅.

Definition with_manager (m : DKGManager) s : DKGOrchestrator :=
  mkOrchestrator (oc_our_public_key s) m (oc_bls_coordinator s) (oc_peer_mapping s) (oc_active_ceremonies s).
Definition with_signing (c : BLSCoordinator) s : DKGOrchestrator :=
  mkOrchestrator (oc_our_public_key s) (oc_dkg_manager s) c (oc_peer_mapping s) (oc_active_ceremonies s).
Definition with_active_ceremonies (f : gmap Z ActiveCeremony -> gmap Z ActiveCeremony) s : DKGOrchestrator :=
  mkOrchestrator (oc_our_public_key s) (oc_dkg_manager s) (oc_bls_coordinator s) (oc_peer_mapping s) (f (oc_active_ceremonies s)).
Definition register_peer (public_key : PublicKey) (peer_id : PeerId) s : DKGOrchestrator :=
  mkOrchestrator (oc_our_public_key s) (oc_dkg_manager s) (oc_bls_coordinator s) (<[public_key := peer_id]> (oc_peer_mapping s)) (oc_active_ceremonies s).

Local Notation OM := (M DKGOrchestrator PoUWError).
Definition on_manager {A} (m : M DKGManager PoUWError A) : OM A := mzoom oc_dkg_manager with_manager m.

(** Everybody of the committee but us, as far as a peer is known. *)
Definition to_others s (committee_members : list PublicKey) (message : DKGMessage) : list (PeerId * DKGMessage) :=
  omap (fun pk => if bool_decide (pk = oc_our_public_key s) then None else (fun p => (p, message)) <$> oc_peer_mapping s !! pk) committee_members.

Fixpoint position (pk : PublicKey) (members : list PublicKey) : option nat :=
  match members with
  | [] => None
  | m :: members => if bool_decide (m = pk) then Some 0%nat else S <$> position pk members
  end.

Definition orchestrate_start (sk_set : SecretKeySet) (epoch_id : Z) (committee_members : list PublicKey) : OM (list (PeerId * DKGMessage)) :=
  our_public_key ← mread oc_our_public_key;
  match position our_public_key committee_members with
  | None => mret []
  | Some our_participant_id =>
      let n := length committee_members in
      threshold_config ← mresult (bls_fault (threshold_config_new n (n * 2 / 3 + 1)));
      on_manager (start_ceremony epoch_id our_participant_id threshold_config);;
      commitment ← on_manager (manager_generate_commitment hex epoch_id sk_set);
      on_manager (manager_add_commitment epoch_id commitment);;
      mwrite (with_active_ceremonies (insert epoch_id (mkActive our_participant_id committee_members 1 false)));;
      mread (fun s => to_others s committee_members (MsgCommitment epoch_id commitment))
  end.

Definition try_finalize_ceremony (epoch_id : Z) : OM (option (list (PeerId * DKGMessage))) :=
  manager ← mread oc_dkg_manager;
  let ceremony_ready := match get_ceremony_state manager epoch_id with Ok st => bool_decide (st = Verifying) | _ => false end in
  if ceremony_ready && negb (manager_is_complete manager epoch_id) then
    public_key_set ← on_manager (finalize_ceremony unhex commitments_iter epoch_id);
    mwrite (fun s => with_signing (set_public_key_set public_key_set (oc_bls_coordinator s)) s);;
    mread (fun s =>
      let ceremony := oc_active_ceremonies s !! epoch_id in
      let participant_id := default 0%nat (ac_our_participant_id <$> ceremony) in
      Some (match ceremony with Some c => to_others s (ac_committee_members c) (MsgComplete epoch_id participant_id) | None => [] end))
  else mret None.

(** The loop over the generated shares: our own would be added here, the others are sent. *)
Fixpoint send_shares (epoch_id : Z) (committee_members : list PublicKey) (shares : list DKGShare) : OM (list (PeerId * DKGMessage)) :=
  match shares with
  | [] => mret []
  | share :: shares =>
      match committee_members !! ds_to share with
      | None => send_shares epoch_id committee_members shares
      | Some recipient_pk =>
          our_public_key ← mread oc_our_public_key;
          if bool_decide (recipient_pk = our_public_key) then
            on_manager (manager_add_share unhex epoch_id share);;
            send_shares epoch_id committee_members shares
          else
            mapping ← mread oc_peer_mapping;
            messages ← send_shares epoch_id committee_members shares;
            mret (match mapping !! recipient_pk with Some peer_id => (peer_id, MsgShare epoch_id share) :: messages | None => messages end)
      end
  end.

Definition received_one (c : ActiveCeremony) : ActiveCeremony :=
  mkActive (ac_our_participant_id c) (ac_committee_members c) (S (ac_commitments_received c)) (ac_shares_sent c).
Definition sent_shares (c : ActiveCeremony) : ActiveCeremony :=
  mkActive (ac_our_participant_id c) (ac_committee_members c) (ac_commitments_received c) true.

Definition handle_commitment (epoch_id : Z) (commitment : DKGCommitment) : OM (list (PeerId * DKGMessage)) :=
  on_manager (manager_add_commitment epoch_id commitment);;
  ceremonies ← mread oc_active_ceremonies;
  match ceremonies !! epoch_id with
  | None => mret []
  | Some c =>
      let c := received_one c in
      mwrite (with_active_ceremonies (insert epoch_id c));;
      if (length (ac_committee_members c) <=? ac_commitments_received c)%nat && negb (ac_shares_sent c) then
        shares ← on_manager (manager_generate_shares hex epoch_id);
        mwrite (with_active_ceremonies (insert epoch_id (sent_shares c)));;
        messages ← send_shares epoch_id (ac_committee_members c) shares;
        completion ← try_finalize_ceremony epoch_id;
        mret (messages ++ default [] completion)
      else mret []
  end.

Definition handle_share (epoch_id : Z) (share : DKGShare) : OM (option (list (PeerId * DKGMessage))) :=
  on_manager (manager_add_share unhex epoch_id share);;
  try_finalize_ceremony epoch_id.

(** Only a log line. *)
Definition handle_complete (epoch_id : Z) (participant_id : nat) : OM unit := mret tt.

Definition is_ceremony_complete s (epoch_id : Z) : bool := manager_is_complete (oc_dkg_manager s) epoch_id.
Definition get_our_participant_id s (epoch_id : Z) : option nat := ac_our_participant_id <$> oc_active_ceremonies s !! epoch_id.
End orchestrator.

(** ** An honest ceremony over the network *)

Section honest.
Context {TS : ThresholdScheme} {TL : ThresholdLaws TS} {PeerId : Type} (hex : Bytes -> string) (unhex : string -> option Bytes).
Context (Hhex : forall bs, unhex (hex bs) = Some bs).
Context (commitments_iter : gmap nat DKGCommitment -> list (nat * DKGCommitment)) (Hiter : forall m, commitments_iter m ≡ₚ map_to_list m).
Context (sk : nat -> SecretKeySet) (epoch : Z) (key : PublicKey) (me : nat) (members : list PublicKey) (config : ThresholdConfig).
Context (Hkey : members !! me = Some key) (Hdistinct : NoDup members) (Htwo : (2 <= length members)%nat).
Context (Hconfig : threshold_config_new (length members) (length members * 2 / 3 + 1) = Ok config).
Local Notation n := (length members).
Implicit Types s : DKGOrchestrator (PeerId := PeerId).

Lemma config_total : total_participants config = n.
Proof. clear -Hconfig. unfold threshold_config_new in Hconfig. repeat case_match; try done. by injection Hconfig as <-. Qed.
Lemma me_below : (me < n)%nat.
Proof. clear -Hkey. by apply lookup_lt_Some in Hkey. Qed.

Record at_work (committers senders : list nat) (st : DKGState) s : Prop := {
  aw_key : oc_our_public_key s = key;
  aw_active : oc_active_ceremonies s !! epoch = Some (mkActive me members (length committers) (length committers =? n)%nat);
  aw_ceremony : exists c, dm_active_ceremonies (oc_dkg_manager s) !! epoch = Some c /\ in_progress hex sk config me committers senders st c;
  aw_incomplete : dm_public_key_sets (oc_dkg_manager s) !! epoch = None;
}.

Lemma position_me : forall l i, l !! i = Some key -> NoDup l -> position key l = Some i.
Proof.
  clear. induction l as [|m l IH]; intros i Hi Hnd; [done|]. apply NoDup_cons in Hnd as [Hm Hnd]. cbn. destruct i as [|i]; cbn in Hi.
  - injection Hi as ->. by rewrite bool_decide_eq_true_2.
  - rewrite bool_decide_eq_false_2; [by rewrite (IH i)|]. intros ->. apply Hm. by eapply list_elem_of_lookup_2.
Qed.

(** A call on the manager that acts on the ceremony of the epoch. *)
Lemma on_manager_ceremony {A} (op : M DKGCeremony BLSError A) s c a c' :
  dm_active_ceremonies (oc_dkg_manager s) !! epoch = Some c -> op c = (Ok a, c') ->
  on_manager (on_ceremony epoch op) s = (Ok a, with_manager (with_ceremonies (insert epoch c') (oc_dkg_manager s)) s).
Proof using Type. intros Hc E. unfold on_manager, mzoom. by rewrite on_ceremony_spec, Hc, E. Qed.

Lemma start_at_work s :
  oc_our_public_key s = key -> dm_active_ceremonies (oc_dkg_manager s) !! epoch = None -> dm_public_key_sets (oc_dkg_manager s) !! epoch = None ->
  exists s', orchestrate_start hex (sk me) epoch members s = (Ok (to_others s members (MsgCommitment epoch (commitment_of hex me (sk me)))), s') /\
    at_work [me] [] CollectingCommitments s'.
Proof.
  intros Hk Ha Hp. unfold orchestrate_start, mbind, M_bind. unfold mread at 1. rewrite Hk, (position_me _ me Hkey Hdistinct). cbv zeta.
  unfold mresult. rewrite Hconfig. cbn [bls_fault].
  unfold on_manager at 1, mzoom, start_ceremony, mbind, M_bind, mread, mbail. rewrite Ha, bool_decide_eq_false_2 by (by intros []). cbn [mret M_ret mwrite].
  set (s1 := with_manager _ s). set (c1 := dkg_start (ceremony_new config me)).
  assert (dm_active_ceremonies (oc_dkg_manager s1) !! epoch = Some c1) as H1 by (cbn; apply lookup_insert_eq).
  unfold manager_generate_commitment. rewrite (on_manager_ceremony _ _ _ (commitment_of hex me (sk me)) (with_polynomial (sk me) c1) H1)
    by (unfold generate_commitment, mbind, M_bind; rewrite in_state_spec, bool_decide_eq_true_2 by left; done).
  set (s2 := with_manager _ s1). set (c2 := with_polynomial (sk me) c1) in *. assert (dm_active_ceremonies (oc_dkg_manager s2) !! epoch = Some c2) as H2 by (cbn; apply lookup_insert_eq).
  pose proof (honest_start hex sk config me) as Hc2. pose proof config_total as Hn.
  assert (collecting_state config [] = CollectingCommitments) as Hst by (unfold collecting_state; rewrite Hn; destruct (Nat.eqb_spec (length (@nil nat)) n); [cbn in *; lia|done]).
  destruct (add_own_commitment hex unhex Hhex sk config me [] me c2) as (c3 & [[E Hc3]|H]); [by rewrite Hst|set_solver| |cbn in H; lia].
  unfold manager_add_commitment. rewrite (on_manager_ceremony _ _ _ _ _ H2 E). eexists. split; [reflexivity|].
  assert (collecting_state config [me] = CollectingCommitments) as Hst1 by (unfold collecting_state; rewrite Hn; destruct (Nat.eqb_spec (length [me]) n); [cbn in *; lia|done]).
  split; cbn [oc_our_public_key oc_active_ceremonies oc_dkg_manager with_active_ceremonies with_manager dm_active_ceremonies dm_public_key_sets with_ceremonies].
  - done.
  - rewrite lookup_insert_eq. f_equal. f_equal. symmetry. apply Nat.eqb_neq. cbn [length]. lia.
  - exists c3. rewrite lookup_insert_eq. split; [done|]. by rewrite <-Hst1.
  - done.
Qed.

(** The shares that a participant generates are for the others, so that sending them changes nothing. *)
Lemma send_shares_pure shares s :
  oc_our_public_key s = key -> (forall share, share ∈ shares -> ds_to share <> me) ->
  exists messages, send_shares unhex epoch members shares s = (Ok messages, s) /\ Forall (fun pm => exists share, pm.2 = MsgShare epoch share) messages.
Proof.
  intros Hk. induction shares as [|share shares IH]; intros Hto; cbn [send_shares]; [by exists []|].
  destruct IH as (messages & IH & Hall); [intros x Hx; apply Hto; by right|]. destruct (members !! ds_to share) as [pk|] eqn:E; [|by exists messages].
  unfold mbind, M_bind, mread. rewrite Hk. rewrite bool_decide_eq_false_2.
  - rewrite IH. unfold mret, M_ret. destruct (oc_peer_mapping s !! pk) as [peer|]; [|by exists messages]. eexists. split; [reflexivity|]. constructor; [by exists share|done].
  - intros ->. apply (Hto share); [left|]. by apply (NoDup_lookup members _ _ key).
Qed.

Lemma not_ready s c : dm_active_ceremonies (oc_dkg_manager s) !! epoch = Some c -> dk_state c <> Verifying ->
  try_finalize_ceremony unhex commitments_iter epoch s = (Ok None, s).
Proof.
  intros Hc Hst. unfold try_finalize_ceremony, mbind, M_bind, mread, get_ceremony_state. rewrite Hc. cbn. by rewrite bool_decide_eq_false_2.
Qed.

Lemma shares_generated all c : in_progress hex sk config me all [] ExchangingShares c ->
  exists shares, generate_shares hex c = (Ok shares, c) /\ forall share, share ∈ shares -> ds_to share <> me.
Proof.
  intros [H1 H2 H3 H4 _ _ _ _]. unfold generate_shares, mbind, M_bind. rewrite in_state_spec, bool_decide_eq_true_2 by (rewrite H4; left).
  unfold mread, mopt. rewrite H3. cbn. eexists. split; [reflexivity|]. intros share (i & -> & Hi)%list_elem_of_fmap. cbn.
  apply list_elem_of_In, filter_In in Hi as [_ Hi]. rewrite H2 in Hi. apply negb_true_iff, Nat.eqb_neq in Hi. done.
Qed.

Lemma commitment_step pre j s :
  at_work pre [] (collecting_state config pre) s -> j ∉ pre -> (length pre < n)%nat ->
  exists messages s', handle_commitment hex unhex commitments_iter epoch (commitment_of hex j (sk j)) s = (Ok messages, s') /\
    at_work (j :: pre) [] (collecting_state config (j :: pre)) s' /\ Forall (fun pm => exists share, pm.2 = MsgShare epoch share) messages.
Proof.
  intros [Hk Ha (c & Hc & Hin) Hp] Hj Hl. pose proof config_total as Hn.
  destruct (add_own_commitment hex unhex Hhex sk config me pre j c Hin Hj) as (c1 & [[E Hc1]|H]); [|lia].
  unfold handle_commitment, mbind, M_bind. unfold manager_add_commitment. rewrite (on_manager_ceremony _ _ _ _ _ Hc E).
  set (s1 := with_manager _ s). unfold mread at 1. change (oc_active_ceremonies s1) with (oc_active_ceremonies s). rewrite Ha. cbv zeta. unfold mwrite at 1.
  unfold received_one. cbn [ac_our_participant_id ac_committee_members ac_commitments_received ac_shares_sent].
  destruct (Nat.eqb_spec (length pre) n) as [|_]; [lia|]. cbn [negb andb]. rewrite andb_true_r.
  set (s2 := with_active_ceremonies _ s1). assert (dm_active_ceremonies (oc_dkg_manager s2) !! epoch = Some c1) as H2 by (cbn; apply lookup_insert_eq).
  destruct (Nat.leb_spec n (S (length pre))) as [Hfull|Hmore].
  - assert (collecting_state config (j :: pre) = ExchangingShares) as Hst by (unfold collecting_state; cbn [length]; rewrite Hn; destruct (Nat.eqb_spec (S (length pre)) n); [done|lia]).
    rewrite Hst in *. destruct (shares_generated _ _ Hc1) as (shares & Es & Hto). unfold manager_generate_shares. rewrite (on_manager_ceremony _ _ _ _ _ H2 Es).
    set (s3 := with_manager _ s2). unfold mwrite at 1, sent_shares. cbn [ac_our_participant_id ac_committee_members ac_commitments_received].
    set (s4 := with_active_ceremonies _ s3). destruct (send_shares_pure shares s4 Hk Hto) as (messages & -> & Hall).
    assert (dm_active_ceremonies (oc_dkg_manager s4) !! epoch = Some c1) as H4 by (cbn; apply lookup_insert_eq).
    rewrite (not_ready s4 c1 H4) by (by rewrite (ip_state _ _ _ _ _ _ _ _ Hc1)). eexists _, _. split; [reflexivity|]. cbn [default]. rewrite app_nil_r. split; [|done].
    split; [done| |by exists c1|done]. cbn -[Nat.eqb]. rewrite lookup_insert_eq. do 2 f_equal. symmetry. apply Nat.eqb_eq. lia.
  - assert (collecting_state config (j :: pre) = CollectingCommitments) as Hst by (unfold collecting_state; cbn [length]; rewrite Hn; destruct (Nat.eqb_spec (S (length pre)) n); [lia|done]).
    rewrite Hst in *. eexists _, _. split; [reflexivity|]. split; [|done].
    split; [done| |by exists c1|done]. cbn -[Nat.eqb]. rewrite lookup_insert_eq. do 2 f_equal. symmetry. apply Nat.eqb_neq. lia.
Qed.

(** The ceremony is over: the keys are stored, and the coordinator has the public ones. *)
Definition finished s : Prop :=
  exists i, (i < n)%nat /\ is_ceremony_complete s epoch = true /\ get_secret_share (oc_dkg_manager s) epoch = Ok (secret_key_share (sk me) me) /\
    get_public_key_set (oc_dkg_manager s) epoch = Ok (public_keys (sk i)) /\ bl_public_key_set (oc_bls_coordinator s) = Some (public_keys (sk i)).

Lemma share_step all pre j s :
  at_work all pre (exchanging_state config pre) s -> (forall i, i ∈ all -> (i < n)%nat) -> j ∈ all -> j ∉ pre -> (length pre < n - 1)%nat ->
  exists x s', handle_share unhex commitments_iter epoch (share_for hex j (sk j) me) s = (Ok x, s') /\
    if (S (length pre) =? n - 1)%nat then finished s' /\ x = Some (to_others s members (MsgComplete epoch me))
    else x = None /\ at_work all (j :: pre) (exchanging_state config (j :: pre)) s'.
Proof.
  intros [Hk Ha (c & Hc & Hin) Hp] Hall Hj Hpre Hl. pose proof config_total as Hn.
  destruct (add_honest_share hex unhex Hhex sk config me all pre j c Hin Hj Hpre) as (c1 & E & Hc1); [lia|].
  unfold handle_share, mbind, M_bind. unfold manager_add_share. rewrite (on_manager_ceremony _ _ _ _ _ Hc E). set (s1 := with_manager _ s).
  assert (dm_active_ceremonies (oc_dkg_manager s1) !! epoch = Some c1) as H1 by (cbn; apply lookup_insert_eq).
  unfold exchanging_state in Hc1 at 1 |- * at 1. cbn [length] in *. rewrite Hn in *. destruct (Nat.eqb_spec (S (length pre)) (n - 1)) as [Hlast|Hmore].
  - destruct (finalize_verified hex unhex Hhex sk config me commitments_iter all (j :: pre) c1 Hiter Hc1) as (i & Hi & _ & Ef); [by intros ->; apply elem_of_nil in Hj|].
    unfold try_finalize_ceremony, mbind, M_bind. unfold mread at 1, get_ceremony_state. rewrite H1. cbn [result_of_option result_bind].
    rewrite (ip_state _ _ _ _ _ _ _ _ Hc1), bool_decide_eq_true_2 by done. unfold manager_is_complete. change (dm_public_key_sets (oc_dkg_manager s1)) with (dm_public_key_sets (oc_dkg_manager s)).
    rewrite Hp, bool_decide_eq_false_2 by (by intros []). cbn [negb andb].
    unfold on_manager, mzoom, finalize_ceremony, mbind, M_bind. rewrite on_ceremony_spec, H1, Ef. cbn [mwrite mret M_ret mread].
    eexists _, _. split; [reflexivity|]. split.
    + exists i. split; [by apply Hall|]. unfold is_ceremony_complete, manager_is_complete, get_secret_share, get_public_key_set. cbn. rewrite !lookup_insert_eq. by split_and!.
    + cbn. rewrite Ha. done.
  - rewrite (not_ready s1 c1 H1) by (by rewrite (ip_state _ _ _ _ _ _ _ _ Hc1)). eexists _, _. split; [reflexivity|]. split; [done|].
    split; [done|done|exists c1; split; [done|]|done]. unfold exchanging_state. cbn [length]. rewrite ?Hn. destruct (Nat.eqb_spec (S (length pre)) (n - 1)); [lia|done].
Qed.

Lemma all_commitments order : forall pre s,
  at_work pre [] (collecting_state config pre) s -> NoDup (order ++ pre) -> (length order + length pre <= n)%nat ->
  exists s', run_each (fun j => _ ← handle_commitment hex unhex commitments_iter epoch (commitment_of hex j (sk j)); mret tt) order s = (Ok tt, s') /\
    at_work (rev order ++ pre) [] (collecting_state config (rev order ++ pre)) s'.
Proof.
  induction order as [|j order IH]; intros pre s Hs Hnd Hl; [by exists s|]. cbn [app length] in *. apply NoDup_cons in Hnd as [Hj Hnd].
  destruct (commitment_step pre j s Hs) as (messages & s1 & E & Hs1 & _); [set_solver|lia|].
  destruct (IH (j :: pre) s1 Hs1) as (s' & E' & Hs').
  - apply NoDup_app in Hnd as (H1 & H2 & H3). apply NoDup_app. split; [done|]. split; [|constructor; [set_solver|done]]. set_solver.
  - cbn. lia.
  - exists s'. split; [cbn [run_each]; unfold mbind, M_bind in *; by rewrite E|]. cbn [rev]. by rewrite <-app_assoc.
Qed.

Lemma all_shares all others : (forall i, i ∈ all -> (i < n)%nat) -> others ⊆ all -> others <> [] -> forall pre s,
  at_work all pre (exchanging_state config pre) s -> NoDup (others ++ pre) -> (length others + length pre = n - 1)%nat ->
  exists s', run_each (fun j => _ ← handle_share unhex commitments_iter epoch (share_for hex j (sk j) me); mret tt) others s = (Ok tt, s') /\ finished s'.
Proof.
  intros Hall Hsub Hne. induction others as [|j others IH]; intros pre s Hs Hnd Hl; [done|]. cbn [app length] in *. apply NoDup_cons in Hnd as [Hj Hnd].
  destruct (share_step all pre j s Hs Hall) as (x & s1 & E & H); [set_solver|set_solver|lia|].
  cbn [run_each]. unfold mbind, M_bind in *. rewrite E. cbn [mret M_ret]. destruct (Nat.eqb_spec (S (length pre)) (n - 1)) as [Hlast|Hmore].
  - assert (others = []) as -> by (apply length_zero_iff_nil; lia). exists s1. by destruct H.
  - destruct H as [_ Hs1]. destruct (IH ltac:(set_solver) ltac:(intros ->; cbn in *; lia) (j :: pre) s1 Hs1) as (s' & E' & Hf); [|cbn; lia|by exists s'].
    apply NoDup_app in Hnd as (H1 & H2 & H3). apply NoDup_app. split; [done|]. split; [|constructor; [set_solver|done]]. set_solver.
Qed.

(** The messages that an honest committee delivers: first the commitments of the others, then their shares. *)
Definition honest_delivery (order others : list nat) : M (DKGOrchestrator (PeerId := PeerId)) PoUWError unit :=
  _ ← orchestrate_start hex (sk me) epoch members;
  run_each (fun j => _ ← handle_commitment hex unhex commitments_iter epoch (commitment_of hex j (sk j)); mret tt) order;;
  run_each (fun j => _ ← handle_share unhex commitments_iter epoch (share_for hex j (sk j) me); mret tt) others.

Lemma honest_delivery_completes s order others :
  oc_our_public_key s = key -> dm_active_ceremonies (oc_dkg_manager s) !! epoch = None -> dm_public_key_sets (oc_dkg_manager s) !! epoch = None ->
  order ≡ₚ List.filter (fun j => negb (j =? me)%nat) (seq 0 n) -> others ≡ₚ List.filter (fun j => negb (j =? me)%nat) (seq 0 n) ->
  exists s', honest_delivery order others s = (Ok tt, s') /\ finished s'.
Proof.
  intros Hk Ha Hp Horder Hothers. pose proof me_below as Hme. pose proof config_total as Hn.
  assert (forall l, l ≡ₚ List.filter (fun j => negb (j =? me)%nat) (seq 0 n) -> (forall j, j ∈ l <-> (j < n)%nat /\ j <> me) /\ NoDup l /\ S (length l) = n) as Hl.
  { intros l Hp'. assert (forall j, j ∈ l <-> (j < n)%nat /\ j <> me) as Hin
      by (intros j; rewrite Hp', list_elem_of_In, filter_In, <-list_elem_of_In, elem_of_seq, negb_true_iff, Nat.eqb_neq; lia).
    assert (NoDup l) as Hnd by (rewrite Hp'; apply NoDup_ListNoDup, List.NoDup_filter, NoDup_ListNoDup, NoDup_seq). split; [done|]. split; [done|].
    assert (me :: l ≡ₚ seq 0 n) as H; [|by rewrite <-(length_seq n 0), <-H]. apply NoDup_Permutation; [constructor; [by rewrite Hin; tauto|done]|apply NoDup_seq|].
    intros j. rewrite elem_of_cons, Hin, elem_of_seq. lia. }
  destruct (Hl _ Horder) as (Hin1 & Hnd1 & Hlen1). destruct (Hl _ Hothers) as (Hin2 & Hnd2 & Hlen2). clear Hl.
  destruct (start_at_work s Hk Ha Hp) as (s1 & E1 & Hs1). unfold honest_delivery, mbind, M_bind in *. rewrite E1.
  assert (collecting_state config [me] = CollectingCommitments) as Hst by (unfold collecting_state; rewrite Hn; destruct (Nat.eqb_spec (length [me]) n); [cbn in *; lia|done]).
  rewrite <-Hst in Hs1. destruct (all_commitments order [me] s1 Hs1) as (s2 & E2 & Hs2).
  { apply NoDup_app. split; [done|]. split; [|by repeat constructor; intros ?%elem_of_nil]. intros j Hj%Hin1 ->%list_elem_of_singleton. tauto. }
  { cbn. lia. }
  unfold mbind, M_bind in E2. rewrite E2. set (all := rev order ++ [me]) in *. assert (length all = n) as Hla by (unfold all; rewrite length_app, length_rev; cbn; lia).
  assert (collecting_state config all = exchanging_state config []) as Est.
  { unfold collecting_state, exchanging_state. rewrite Hla, Hn, Nat.eqb_refl. cbn [length]. destruct (Nat.eqb_spec 0 (n - 1)); [lia|done]. }
  rewrite Est in Hs2. destruct (all_shares all others) with (pre := @nil nat) (s := s2) as (s3 & E3 & Hf); [| | |done|by rewrite app_nil_r|cbn; lia|].
  - intros i [H%list_elem_of_In|H]%elem_of_app; [apply in_rev in H; rewrite <-list_elem_of_In in H; by apply Hin1 in H as [? _]|by apply list_elem_of_singleton in H as ->].
  - intros j Hj. apply elem_of_app. left. apply list_elem_of_In, in_rev. rewrite rev_involutive, <-list_elem_of_In. apply Hin1. by apply Hin2.
  - intros ->. cbn in *. lia.
  - exists s3. split; [|done]. unfold mbind, M_bind in E3. by rewrite E3.
Qed.
End honest.

(** ** What it guarantees *)

(** C14: When a committee of at least two distinct members is honest, and a member gets all commitments before any
    share, in whatever order, its ceremony ends: its own share and the public keys of some member are stored,
    and the coordinator signs with those. *)
Theorem orchestrated_ceremony_completes {TS : ThresholdScheme} {TL : ThresholdLaws TS} {PeerId : Type} hex unhex
    (Hhex : forall bs, unhex (hex bs) = Some bs) iter (Hiter : forall m : gmap nat DKGCommitment, iter m ≡ₚ map_to_list m)
    (sk : nat -> SecretKeySet) epoch (s : DKGOrchestrator (PeerId := PeerId)) members me order others :
  members !! me = Some (oc_our_public_key s) -> NoDup members -> (2 <= length members)%nat ->
  get_ceremony_state (oc_dkg_manager s) epoch = Err (Other "No active ceremony for epoch") -> is_ceremony_complete s epoch = false ->
  let everybody_else := List.filter (fun j => negb (j =? me)%nat) (seq 0 (length members)) in
  order ≡ₚ everybody_else -> others ≡ₚ everybody_else ->
  exists s' i, honest_delivery hex unhex iter sk epoch me members order others s = (Ok tt, s') /\ (i < length members)%nat /\
    is_ceremony_complete s' epoch = true /\ get_secret_share (oc_dkg_manager s') epoch = Ok (secret_key_share (sk me) me) /\
    get_public_key_set (oc_dkg_manager s') epoch = Ok (public_keys (sk i)) /\ bl_public_key_set (oc_bls_coordinator s') = Some (public_keys (sk i)).
Proof.
  intros Hme Hnd Htwo Ha Hp everybody_else Horder Hothers.
  assert (exists config, threshold_config_new (length members) (length members * 2 / 3 + 1) = Ok config) as [config Hconfig].
  { unfold threshold_config_new. pose proof (Nat.div_mod_eq (length members * 2) 3). pose proof (Nat.mod_upper_bound (length members * 2) 3 ltac:(lia)).
    pose proof (Nat.div_mod_eq (length members + 1) 2). pose proof (Nat.mod_upper_bound (length members + 1) 2 ltac:(lia)).
    destruct (Nat.ltb_spec (length members) (length members * 2 / 3 + 1)); [lia|]. destruct (Nat.ltb_spec (length members * 2 / 3 + 1) ((length members + 1) / 2)); [lia|]. by eexists. }
  destruct (honest_delivery_completes hex unhex Hhex iter Hiter sk epoch (oc_our_public_key s) me members config Hme Hnd Htwo Hconfig s order others) as (s' & E & i & Hi & H); [done| | |done|done|].
  - unfold get_ceremony_state in Ha. by destruct (dm_active_ceremonies (oc_dkg_manager s) !! epoch).
  - unfold is_ceremony_complete, manager_is_complete in Hp. apply bool_decide_eq_false in Hp. by apply eq_None_not_Some.
  - exists s', i. done.
Qed.

(** A share that arrives before the last commitment is refused and lost: nothing is kept of it. *)
Theorem early_share_lost {TS : ThresholdScheme} {PeerId : Type} unhex iter epoch share (s : DKGOrchestrator (PeerId := PeerId)) :
  get_ceremony_state (oc_dkg_manager s) epoch = Ok CollectingCommitments ->
  let (r, s') := handle_share unhex iter epoch share s in
  is_err r = true /\ get_ceremony_state (oc_dkg_manager s') epoch = Ok CollectingCommitments /\
  dm_active_ceremonies (oc_dkg_manager s') = dm_active_ceremonies (oc_dkg_manager s).
Proof.
  intros Hst. unfold get_ceremony_state in Hst. destruct (dm_active_ceremonies (oc_dkg_manager s) !! epoch) as [c|] eqn:Hc; [|done]. injection Hst as Hst.
  unfold handle_share, mbind, M_bind, on_manager, mzoom, manager_add_share. rewrite on_ceremony_spec, Hc. unfold add_share, mbind, M_bind.
  rewrite in_state_spec, Hst, bool_decide_eq_false_2 by (rewrite !elem_of_cons, elem_of_nil; naive_solver). cbn. split; [done|].
  unfold get_ceremony_state. cbn. rewrite lookup_insert_eq, insert_id by done. cbn. by rewrite Hst.
Qed.

(** ** Instances *)

Definition demo_members : list PublicKey := [[1]; [2]; [3]].
Definition demo_orchestrator : DKGOrchestrator (TS := toy_scheme) (PeerId := nat) :=
  register_peer [3] 30%nat (register_peer [1] 10%nat (orchestrator_new [2] dkg_manager_new (coordinator_new coordinator_config_default))).
Lemma orchestrated_ceremony_completes_witness :
  exists s' i, honest_delivery toy_hex toy_unhex map_to_list demo_polynomial 7 1 demo_members [2; 0]%nat [0; 2]%nat demo_orchestrator = (Ok tt, s') /\ (i < 3)%nat /\
    is_ceremony_complete s' 7 = true /\ get_secret_share (oc_dkg_manager s') 7 = Ok (secret_key_share (demo_polynomial 1) 1) /\
    get_public_key_set (oc_dkg_manager s') 7 = Ok (public_keys (demo_polynomial i)) /\ bl_public_key_set (oc_bls_coordinator s') = Some (public_keys (demo_polynomial i)).
Proof.
  apply (orchestrated_ceremony_completes toy_hex toy_unhex toy_hex_roundtrip map_to_list (fun m => reflexivity _) demo_polynomial 7 demo_orchestrator demo_members 1 [2; 0]%nat [0; 2]%nat).
  - reflexivity.
  - unfold demo_members. repeat constructor; set_solver.
  - cbn. lia.
  - reflexivity.
  - reflexivity.
  - cbn. apply perm_swap.
  - reflexivity.
Defined.
