(* ===== verification/Tasks.v ===== *)
(** * The task manager

    [adic-pouw/src/task_manager.rs]: tasks are submitted against an escrow of their reward and a
    deposit, finalized, assigned to workers, worked on, validated and opened to challenges.  The
    escrow manager and the reputations are shared with the rest of the node, so other parts may
    change them between two calls ([ts_shared]).  [hex] is [hex::encode]; [logs] says whether the
    subscriber takes the level [info], since only then are the fields of a log line computed and a
    slice of a short CID panics.  [task_iter] and [receipt_iter] are the iterators of the maps. *)

From S2P Require Import Prelude F64 Message Amount EconStorage Balance Lock Reputation Escrow Voting Application TaskTypes.

Record TaskManagerConfig := mkTaskConfig {
  tc_min_deposit : AdicAmount;
  tc_max_task_duration_epochs : Z;
  tc_min_sponsor_reputation : f64;
  tc_challenge_window_epochs : Z;
  tc_max_workers_per_task : Z;
}.
Definition task_config_default : TaskManagerConfig := mkTaskConfig (from_adic (f64_of_Z 1)) 100 (f64_of_Z 100) 5 10.

Record TaskManager (St : Type) := mkTasks {
  tm_escrow : EscrowManager St;
  tm_reputation : ReputationTracker;
  tm_tasks : gmap TaskId Task;
  tm_assignments : gmap TaskId (list WorkAssignment);
  tm_results : gmap TaskId (list WorkResult);
  tm_reports : gmap TaskId ValidationReport;
  tm_receipts : gmap TaskId TaskReceipt;
  tm_config : TaskManagerConfig;
}.
Arguments mkTasks {St}.
Arguments tm_escrow {St}.
Arguments tm_reputation {St}.
Arguments tm_tasks {St}.
Arguments tm_assignments {St}.
Arguments tm_results {St}.
Arguments tm_reports {St}.
Arguments tm_receipts {St}.
Arguments tm_config {St}.

Definition task_manager_new {St} (escrow : EscrowManager St) (reputation : ReputationTracker) (config : TaskManagerConfig) : TaskManager St :=
  mkTasks escrow reputation ∅ ∅ ∅ ∅ ∅ config.

Definition with_task_status (status : TaskStatus) (t : Task) : Task :=
  mkTask (tk_task_id t) (tk_sponsor t) (tk_task_type t) (tk_input_cid t) (tk_expected_output_schema t) (tk_reward t)
    (tk_collateral_requirement t) (tk_deadline_epoch t) (tk_min_reputation t) (tk_worker_count t) (tk_created_at t)
    status (tk_finality_status t).
Definition with_task_finality (f : TaskFinality) (t : Task) : Task :=
  mkTask (tk_task_id t) (tk_sponsor t) (tk_task_type t) (tk_input_cid t) (tk_expected_output_schema t) (tk_reward t)
    (tk_collateral_requirement t) (tk_deadline_epoch t) (tk_min_reputation t) (tk_worker_count t) (tk_created_at t)
    (tk_status t) f.

(** [&cid[..16]]: a slice must end on a character boundary. *)
Definition sliceable (n : nat) (s : string) : bool :=
  match str_bytes s !! n with
  | Some b => negb ((128 <=? b) && (b <=? 191))
  | None => (length (str_bytes s) =? n)%nat
  end.

Section tasks.
Context {St : Type} `{!EconomicsStorage St}.
Context (now : Z) (blake3 : Bytes -> Bytes) (hex : Bytes -> string) (logs : bool).
Context (task_iter : gmap TaskId Task -> list (TaskId * Task)).
Context (receipt_iter : gmap TaskId TaskReceipt -> list (TaskId * TaskReceipt)).
Abbreviation TM := (TaskManager St).
Abbreviation TMM := (M TM PoUWError).
Implicit Types s : TM.

Definition with_tm_escrow (em : EscrowManager St) s : TM :=
  mkTasks em (tm_reputation s) (tm_tasks s) (tm_assignments s) (tm_results s) (tm_reports s) (tm_receipts s) (tm_config s).
Definition with_tasks (f : gmap TaskId Task -> gmap TaskId Task) s : TM :=
  mkTasks (tm_escrow s) (tm_reputation s) (f (tm_tasks s)) (tm_assignments s) (tm_results s) (tm_reports s) (tm_receipts s) (tm_config s).
Definition with_assignments f s : TM :=
  mkTasks (tm_escrow s) (tm_reputation s) (tm_tasks s) (f (tm_assignments s)) (tm_results s) (tm_reports s) (tm_receipts s) (tm_config s).
Definition with_results f s : TM :=
  mkTasks (tm_escrow s) (tm_reputation s) (tm_tasks s) (tm_assignments s) (f (tm_results s)) (tm_reports s) (tm_receipts s) (tm_config s).
Definition with_reports f s : TM :=
  mkTasks (tm_escrow s) (tm_reputation s) (tm_tasks s) (tm_assignments s) (tm_results s) (f (tm_reports s)) (tm_receipts s) (tm_config s).

Definition on_task_escrow {A} (m : M (EscrowManager St) EscrowError A) : TMM A :=
  mmap_err EscrowRefused (mzoom tm_escrow with_tm_escrow m).

(** ** Submission *)

Definition validate_task (config : TaskManagerConfig) (t : Task) (current_epoch : Z) : result PoUWError unit :=
  if tk_deadline_epoch t <=? current_epoch then Err (DeadlineExceeded (tk_deadline_epoch t) current_epoch)
  else if tc_max_task_duration_epochs config <? tk_deadline_epoch t - current_epoch then
    Err (InvalidTaskInput ("Task duration " +:+ show_u64 (tk_deadline_epoch t - current_epoch) +:+ " epochs exceeds maximum " +:+
      show_u64 (tc_max_task_duration_epochs config)))
  else if tk_worker_count t =? 0 then Err (InvalidTaskInput "Worker count must be at least 1")
  else if tc_max_workers_per_task config <? tk_worker_count t then
    Err (InvalidTaskInput ("Worker count " +:+ show_u64 (tk_worker_count t) +:+ " exceeds maximum " +:+ show_u64 (tc_max_workers_per_task config)))
  else if tk_reward t <=? from_adic (f64_of_Z 0) then Err (InvalidTaskInput "Task reward must be positive")
  else if tk_collateral_requirement t <? from_adic (f64_of_Z 0) then Err (InvalidTaskInput "Collateral requirement cannot be negative")
  else if bool_decide (tk_input_cid t = EmptyString) then Err (InvalidTaskInput "Input CID cannot be empty")
  else Ok tt.

Definition task_escrow (t : Task) : EscrowType :=
  CustomEscrow ("pouw_task_" +:+ hex (take 8 (tk_task_id t))) (from_public_key blake3 (tk_sponsor t)).

Definition submit_task (task : Task) (current_epoch : Z) : TMM TaskId :=
  config ← mread tm_config;
  sponsor_rep ← mread (fun s => get_reputation (tm_reputation s) (tk_sponsor task));
  mbail (f64_ltb sponsor_rep (tc_min_sponsor_reputation config)) (InsufficientReputation (tc_min_sponsor_reputation config) sponsor_rep);;
  mresult (validate_task config task current_epoch);;
  total_escrow ← mopt (amount_checked_add (tk_reward task) (tc_min_deposit config)) (Other "Escrow amount overflow");
  on_task_escrow (escrow_lock now hex (task_escrow task) total_escrow current_epoch);;
  mwrite (with_tasks (insert (tk_task_id task) (with_task_finality Pending (with_task_status Submitted task))));;
  mret (tk_task_id task).

(** ** The life of a task *)

Definition find_task (id : TaskId) : TMM Task :=
  tasks ← mread tm_tasks;
  mopt (tasks !! id) (TaskNotFound id).
Definition expect_task_status (expected : TaskStatus) (t : Task) : TMM unit :=
  mbail (negb (bool_decide (tk_status t = expected))) (InvalidTaskState expected (tk_status t)).
(** [task.status = _] through the [get_mut] reference. *)
Definition set_task_status (id : TaskId) (status : TaskStatus) : TMM unit :=
  mwrite (with_tasks (alter (with_task_status status) id)).

Definition mark_task_finalized (id : TaskId) : TMM unit :=
  task ← find_task id;
  expect_task_status Submitted task;;
  set_task_status id Finalized;;
  mwrite (with_tasks (alter (with_task_finality F1Complete) id)).

Definition record_worker_assignments (id : TaskId) (assignments : list WorkAssignment) : TMM unit :=
  task ← find_task id;
  expect_task_status Finalized task;;
  mbail (negb (Z.of_nat (length assignments) =? tk_worker_count task))
    (Other ("Worker count mismatch: expected " +:+ show_u64 (tk_worker_count task) +:+ ", got " +:+ show_u64 (Z.of_nat (length assignments))));;
  set_task_status id Assigned;;
  mwrite (with_assignments (insert id assignments)).

Definition by_worker (w : PublicKey) (r : WorkResult) : bool := bool_decide (wr_worker r = w).
Definition assigned_to (w : PublicKey) (a : WorkAssignment) : bool := bool_decide (wa_worker a = w).

Definition submit_work_result (result : WorkResult) (current_epoch : Z) : TMM Hash :=
  let task_id := wr_task_id result in
  task ← find_task task_id;
  mbail (tk_deadline_epoch task <? current_epoch) (DeadlineExceeded (tk_deadline_epoch task) current_epoch);;
  work_assignments ← mread tm_assignments;
  assignments ← mopt (work_assignments !! task_id) (Other "Task not assigned");
  mbail (negb (existsb (assigned_to (wr_worker result)) assignments)) (WorkerNotEligible "Worker not assigned to this task");;
  work_results ← mread tm_results;
  mbail (existsb (by_worker (wr_worker result)) (default [] (work_results !! task_id))) (ResultAlreadySubmitted task_id);;
  mwhen (bool_decide (tk_status task = Assigned)) (set_task_status task_id InProgress);;
  mwrite (with_results (fun m => <[task_id := default [] (m !! task_id) ++ [result]]> m));;
  work_results ← mread tm_results;
  mwhen (Z.of_nat (length (default [] (work_results !! task_id))) =? tk_worker_count task) (set_task_status task_id ResultSubmitted);;
  mwhen (logs && negb (sliceable 16 (wr_output_cid result))) mpanic;;
  mret (wr_result_id result).

Definition record_validation_report (report : ValidationReport) : TMM unit :=
  task ← find_task (vr_task_id report);
  expect_task_status ResultSubmitted task;;
  set_task_status (vr_task_id report) Validating;;
  mwrite (with_reports (insert (vr_task_id report) report)).

Definition begin_challenge_period (id : TaskId) (current_epoch : Z) : TMM Z :=
  task ← find_task id;
  expect_task_status Validating task;;
  set_task_status id Challenging;;
  config ← mread tm_config;
  mret (to_u64 (current_epoch + tc_challenge_window_epochs config)).

(** ** Queries *)

Definition get_task (id : TaskId) s : option Task := tm_tasks s !! id.
Definition get_work_assignments (id : TaskId) s : option (list WorkAssignment) := tm_assignments s !! id.
Definition get_work_results (id : TaskId) s : option (list WorkResult) := tm_results s !! id.
Definition get_validation_report (id : TaskId) s : option ValidationReport := tm_reports s !! id.
Definition get_task_receipt (id : TaskId) s : option TaskReceipt := tm_receipts s !! id.
Definition get_tasks_by_status (status : TaskStatus) s : list Task :=
  List.filter (fun t => bool_decide (tk_status t = status)) ((task_iter (tm_tasks s)).*2).
Definition get_tasks_pending_assignment : TM -> list Task := get_tasks_by_status Finalized.
Definition get_tasks_ready_for_validation : TM -> list Task := get_tasks_by_status ResultSubmitted.

Definition count_task (stats : TaskStats) (t : Task) : TaskStats :=
  let '(mkTaskStats total active completed failed rewards slashed e v) := stats in
  match tk_status t with
  | Submitted | Finalized | Assigned | InProgress | ResultSubmitted | Validating | Challenging =>
      mkTaskStats total (active + 1) completed failed rewards slashed e v
  | Completed => mkTaskStats total active (completed + 1) failed rewards slashed e v
  | Failed | Slashed | Expired => mkTaskStats total active completed (failed + 1) rewards slashed e v
  | Disputed => stats
  end.
Definition add_or_keep (total amount : AdicAmount) : AdicAmount := default total (amount_checked_add total amount).
Definition count_receipt (stats : TaskStats) (r : TaskReceipt) : TaskStats :=
  let '(mkTaskStats total active completed failed rewards slashed e v) := stats in
  mkTaskStats total active completed failed
    (foldl add_or_keep rewards (rd_amount <$> tr_rewards_distributed r)) (foldl add_or_keep slashed (sl_amount <$> tr_slashing_events r)) e v.
Definition get_task_stats s : TaskStats :=
  let '(mkTaskStats _ a c f r sl e v) := stats_default in
  foldl count_receipt
    (foldl count_task (mkTaskStats (Z.of_nat (size (tm_tasks s))) a c f r sl e v) ((task_iter (tm_tasks s)).*2))
    ((receipt_iter (tm_receipts s)).*2).
End tasks.

(** ** What the manager holds about a task *)

Definition from_workers (l : list WorkAssignment) (rs : list WorkResult) : Prop :=
  NoDup (wr_worker <$> rs) /\ forall w, w ∈ wr_worker <$> rs -> w ∈ wa_worker <$> l.

Definition sound (id : TaskId) (t : Task) : Prop :=
  tk_task_id t = id /\ 1 <= tk_worker_count t /\
  tk_finality_status t = if bool_decide (tk_status t = Submitted) then Pending else F1Complete.

Definition assigned_all (t : Task) (l : list WorkAssignment) : Prop := Z.of_nat (length l) = tk_worker_count t.
Definition all_in (t : Task) (rs : list WorkResult) : Prop := Z.of_nat (length rs) = tk_worker_count t.

(** The status of a task says which records exist about it: as many assignments as it has workers,
    results of distinct assigned workers, all of them before it is validated, and then a report. *)
Definition stage_at (id : TaskId) (t : Task) (status : TaskStatus)
    (l : option (list WorkAssignment)) (rs : option (list WorkResult)) (r : option ValidationReport) : Prop :=
  match status with
  | Submitted | Finalized => l = None /\ rs = None /\ r = None
  | Assigned => rs = None /\ r = None /\ exists l', l = Some l' /\ assigned_all t l'
  | InProgress => r = None /\ exists l' rs', l = Some l' /\ rs = Some rs' /\ assigned_all t l' /\ from_workers l' rs' /\
      1 <= Z.of_nat (length rs') < tk_worker_count t
  | ResultSubmitted => r = None /\ exists l' rs', l = Some l' /\ rs = Some rs' /\ assigned_all t l' /\ from_workers l' rs' /\ all_in t rs'
  | Validating | Challenging => exists l' rs' r', l = Some l' /\ rs = Some rs' /\ r = Some r' /\ assigned_all t l' /\
      from_workers l' rs' /\ all_in t rs' /\ vr_task_id r' = id
  | _ => False
  end.

Definition stage (id : TaskId) (t : option Task)
    (l : option (list WorkAssignment)) (rs : option (list WorkResult)) (r : option ValidationReport) : Prop :=
  match t with
  | None => l = None /\ rs = None /\ r = None
  | Some t => sound id t /\ stage_at id t (tk_status t) l rs r
  end.

Ltac monad_unfold :=
  unfold find_task, expect_task_status, set_task_status, mbail, mopt, mwhen, mread, mwrite, mresult, mret, M_ret, mbind, M_bind, mfail; cbn.
(** The lookups of a map that was changed at [id] only. *)
Ltac lookups := simpl; repeat first [rewrite lookup_alter_eq | rewrite lookup_insert_eq | rewrite lookup_alter_ne by done | rewrite lookup_insert_ne by done].
Ltac one_move := apply rtc_once; done.

Section facts.
Context {St : Type} `{!EconomicsStorage St} `{!EconomicsStorageLaws St}.
Context (now : Z) (blake3 : Bytes -> Bytes) (hex : Bytes -> string) (logs : bool).
Abbreviation TM := (TaskManager St).
Implicit Types s : TM.

Definition stage_of s (id : TaskId) : Prop :=
  stage id (tm_tasks s !! id) (tm_assignments s !! id) (tm_results s !! id) (tm_reports s !! id).

Definition with_shared (em : EscrowManager St) (rep : ReputationTracker) s : TM :=
  mkTasks em rep (tm_tasks s) (tm_assignments s) (tm_results s) (tm_reports s) (tm_receipts s) (tm_config s).

(** The id that a submission stored a task under. *)
Definition stored_ids (r : result PoUWError TaskId) : list TaskId := match r with Ok id => [id] | _ => [] end.

(** A call, or a change of the shared state, with the ids that tasks are stored under. *)
Inductive task_step : list TaskId -> TM -> TM -> Prop :=
  | ts_submit t epoch s : is_u8 (tk_worker_count t) ->
      task_step (stored_ids (submit_task now blake3 hex t epoch s).1) s (submit_task now blake3 hex t epoch s).2
  | ts_finalized id s : task_step [] s (mark_task_finalized id s).2
  | ts_assignments id l s : task_step [] s (record_worker_assignments id l s).2
  | ts_result r epoch s : task_step [] s (submit_work_result logs r epoch s).2
  | ts_report r s : task_step [] s (record_validation_report r s).2
  | ts_challenge id epoch s : task_step [] s (begin_challenge_period id epoch s).2
  | ts_shared em rep s : task_step [] s (with_shared em rep s).

Inductive tasks_run : list TaskId -> TM -> Prop :=
  | tk_new em rep config : tasks_run [] (task_manager_new em rep config)
  | tk_step ids new s s' : tasks_run ids s -> task_step new s s' -> tasks_run (ids ++ new) s'.

(** How often a task was stored under the id. *)
Definition times (id : TaskId) (ids : list TaskId) : nat := length (filter (eq id) ids).

Definition terms (t : Task) : Task := with_task_status Submitted (with_task_finality Pending t).
Definition moves (t t' : Task) : Prop :=
  terms t' = terms t /\ rtc (fun a b => lc_can_transition_to a b = true) (tk_status t) (tk_status t').
Definition follows_at s s' (id : TaskId) : Prop :=
  forall t, tm_tasks s !! id = Some t -> exists t', tm_tasks s' !! id = Some t' /\ moves t t'.

Definition results_in (status : TaskStatus) : bool := match status with ResultSubmitted | Validating | Challenging => true | _ => false end.
Definition up_to_challenge (status : TaskStatus) : bool :=
  match status with Submitted | Finalized | Assigned | InProgress => true | _ => results_in status end.
(** What holds of a task however often its id was stored: no status behind the challenge period, and all
    results are in from [ResultSubmitted] on. *)
Definition orderly (id : TaskId) (t : Task) (rs : option (list WorkResult)) : Prop :=
  tk_task_id t = id /\ up_to_challenge (tk_status t) = true /\
  (results_in (tk_status t) = true -> tk_worker_count t <= Z.of_nat (length (default [] rs))).
Definition orderly_at s (id : TaskId) : Prop := forall t, tm_tasks s !! id = Some t -> orderly id t (tm_results s !! id).

(** What every call but a submission does about a task. *)
Definition keeps s s' (id : TaskId) : Prop :=
  (stage_of s id -> stage_of s' id) /\ (orderly_at s id -> orderly_at s' id /\ follows_at s s' id) /\
  (tm_tasks s !! id = None -> tm_tasks s' !! id = None).

Definition same_records s s' (id : TaskId) : Prop :=
  tm_assignments s' !! id = tm_assignments s !! id /\ tm_results s' !! id = tm_results s !! id /\ tm_reports s' !! id = tm_reports s !! id.

Lemma moves_refl t : moves t t.
Proof. by split. Qed.

Lemma same_keeps s s' id : tm_tasks s' !! id = tm_tasks s !! id -> same_records s s' id -> keeps s s' id.
Proof.
  intros Ht (Ha & Hr & Hp). unfold keeps, stage_of, orderly_at, follows_at. rewrite Ht, Ha, Hr, Hp. split_and!; try done.
  intros Ho. split; [done|]. intros t E. exists t. split; [done|apply moves_refl].
Qed.

Lemma keeps_refl s id : keeps s s id.
Proof. by apply same_keeps. Qed.

(** A call about [id] that leaves every other task alone. *)
Lemma local_keeps id s s' t t' :
  (forall j, j <> id -> tm_tasks s' !! j = tm_tasks s !! j /\ same_records s s' j) ->
  tm_tasks s !! id = Some t -> tm_tasks s' !! id = Some t' ->
  (stage_of s id -> stage_of s' id) -> (orderly id t (tm_results s !! id) -> orderly id t' (tm_results s' !! id) /\ moves t t') ->
  forall j, keeps s s' j.
Proof.
  intros Hj Ht Ht' Hs Ho j. destruct (decide (j = id)) as [->|Hne]; [|destruct (Hj j Hne); by apply same_keeps].
  split; [done|]. split; [|congruence]. intros H. destruct (Ho (H t Ht)) as [H1 H2].
  split; [intros ? E; congruence|intros ? E]. exists t'. split; [done|congruence].
Qed.

Lemma sound_status id status t : tk_status t <> Submitted -> status <> Submitted -> sound id t -> sound id (with_task_status status t).
Proof. intros H H' (Hid & Hn & Hf). split_and!; try done. simpl. by rewrite Hf, !bool_decide_eq_false_2. Qed.

(** One move of a task from the status [a] that stores no result. *)
Ltac one_status := match goal with E : tk_status ?t = _ |- _ => intros (Hid & _ & Hlate); rewrite E in Hlate;
  (split; [split_and!; [exact Hid|done|first [done|intros _; by apply Hlate]]|split; [done|simpl; rewrite E; one_move]]) end.

Lemma finalize_keeps id s j : keeps s (mark_task_finalized id s).2 j.
Proof.
  unfold mark_task_finalized. monad_unfold. destruct (tm_tasks s !! id) as [t|] eqn:Et; [|by apply keeps_refl].
  cbn. case_bool_decide as Hs; cbn; [|by apply keeps_refl].
  apply (local_keeps id _ _ t (with_task_finality F1Complete (with_task_status Finalized t))); [intros i Hi; by lookups|done|lookups; by rewrite Et| |lookups; one_status].
  unfold stage_of. rewrite Et. lookups. rewrite Et. simpl. intros [(Hi & Hn & _) Hst]. by rewrite Hs in Hst.
Qed.

Lemma assign_keeps id l s j : keeps s (record_worker_assignments id l s).2 j.
Proof.
  unfold record_worker_assignments. monad_unfold. destruct (tm_tasks s !! id) as [t|] eqn:Et; [|by apply keeps_refl].
  cbn. case_bool_decide as Hs; cbn; [|by apply keeps_refl]. destruct (_ =? _) eqn:El; zbool; cbn; [|by apply keeps_refl].
  apply (local_keeps id _ _ t (with_task_status Assigned t)); [intros i Hi; unfold same_records; by lookups|done|lookups; by rewrite Et| |lookups; one_status].
  unfold stage_of. rewrite Et. lookups. rewrite Et. simpl. intros [Hsd Hst]. rewrite Hs in Hst.
  split; [apply sound_status; congruence|]. destruct Hst as (_ & -> & ->). naive_solver.
Qed.

Lemma report_keeps r s j : keeps s (record_validation_report r s).2 j.
Proof.
  unfold record_validation_report. monad_unfold. set (id := vr_task_id r).
  destruct (tm_tasks s !! id) as [t|] eqn:Et; [|by apply keeps_refl]. cbn. case_bool_decide as Hs; cbn; [|by apply keeps_refl].
  apply (local_keeps id _ _ t (with_task_status Validating t)); [intros i Hi; unfold same_records; by lookups|done|lookups; by rewrite Et| |lookups; one_status].
  unfold stage_of. rewrite Et. lookups. rewrite Et. simpl. intros [Hsd Hst]. rewrite Hs in Hst.
  split; [apply sound_status; congruence|]. destruct Hst as (_ & l & rs & -> & -> & ? & ? & ?). naive_solver.
Qed.

Lemma challenge_keeps id epoch s j : keeps s (begin_challenge_period id epoch s).2 j.
Proof.
  unfold begin_challenge_period. monad_unfold.
  destruct (tm_tasks s !! id) as [t|] eqn:Et; [|by apply keeps_refl]. cbn. case_bool_decide as Hs; cbn; [|by apply keeps_refl].
  apply (local_keeps id _ _ t (with_task_status Challenging t)); [intros i Hi; by lookups|done|lookups; by rewrite Et| |lookups; one_status].
  unfold stage_of. rewrite Et. lookups. rewrite Et. simpl. intros [Hsd Hst]. rewrite Hs in Hst. split; [apply sound_status; congruence|done].
Qed.

Lemma all_workers_in l rs w : from_workers l rs -> length rs = length l -> w ∈ wa_worker <$> l -> w ∈ wr_worker <$> rs.
Proof.
  intros [Hnd Hin] Hlen Hw. assert (wr_worker <$> rs ≡ₚ wa_worker <$> l) as Hp; [|by rewrite Hp].
  apply submseteq_length_Permutation; [by apply NoDup_submseteq|]. by rewrite !length_fmap, Hlen.
Qed.

Lemma existsb_worker w rs : existsb (by_worker w) rs = bool_decide (w ∈ wr_worker <$> rs).
Proof.
  apply eq_true_iff_eq. rewrite existsb_exists, bool_decide_eq_true, list_elem_of_fmap. unfold by_worker. split.
  - intros (r & Hr & <-%bool_decide_eq_true). exists r. by rewrite list_elem_of_In.
  - intros (r & -> & Hr). exists r. rewrite <-list_elem_of_In. by rewrite bool_decide_eq_true_2.
Qed.

Lemma existsb_assigned w l : existsb (assigned_to w) l = bool_decide (w ∈ wa_worker <$> l).
Proof.
  apply eq_true_iff_eq. rewrite existsb_exists, bool_decide_eq_true, list_elem_of_fmap. unfold assigned_to. split.
  - intros (r & Hr & <-%bool_decide_eq_true). exists r. by rewrite list_elem_of_In.
  - intros (r & -> & Hr). exists r. rewrite <-list_elem_of_In. by rewrite bool_decide_eq_true_2.
Qed.

(** The task after the result [r], and the results about it. *)
Definition after_result (t : Task) (rs : list WorkResult) : Task :=
  let t := if bool_decide (tk_status t = Assigned) then with_task_status InProgress t else t in
  if Z.of_nat (length rs) =? tk_worker_count t then with_task_status ResultSubmitted t else t.

(** A result is taken from an assigned worker in time, once. *)
Lemma submit_work_result_eq r epoch s :
  let id := wr_task_id r in
  match tm_tasks s !! id, tm_assignments s !! id with
  | Some t, Some l =>
      let old := default [] (tm_results s !! id) in
      if decide (epoch <= tk_deadline_epoch t /\ wr_worker r ∈ wa_worker <$> l /\ wr_worker r ∉ wr_worker <$> old) then
        let s' := with_results (insert id (old ++ [r])) (with_tasks (insert id (after_result t (old ++ [r]))) s) in
        (submit_work_result logs r epoch s).1 = (if logs && negb (sliceable 16 (wr_output_cid r)) then Panic else Ok (wr_result_id r)) /\
        tm_tasks (submit_work_result logs r epoch s).2 = tm_tasks s' /\ tm_results (submit_work_result logs r epoch s).2 = tm_results s' /\
        tm_assignments (submit_work_result logs r epoch s).2 = tm_assignments s /\ tm_reports (submit_work_result logs r epoch s).2 = tm_reports s /\
        tm_escrow (submit_work_result logs r epoch s).2 = tm_escrow s
      else exists e, submit_work_result logs r epoch s = (Err e, s)
  | _, _ => exists e, submit_work_result logs r epoch s = (Err e, s)
  end.
Proof.
  set (id := wr_task_id r). unfold submit_work_result. fold id. monad_unfold.
  destruct (tm_tasks s !! id) as [t|] eqn:Et; [|by eexists]. cbn. destruct (_ <? epoch) eqn:Ed; zbool; cbn.
  { destruct (tm_assignments s !! id) as [l|]; [|by eexists]. cbn. rewrite decide_False by lia. by eexists. }
  destruct (tm_assignments s !! id) as [l|]; [|by eexists]. cbn. rewrite existsb_assigned. case_bool_decide as Hw; cbn; [|rewrite decide_False by tauto; by eexists].
  rewrite existsb_worker. case_bool_decide as Hr; cbn; [rewrite decide_False by tauto; by eexists|].
  rewrite decide_True by (split_and!; [lia|done..]). set (old := default [] (tm_results s !! id)) in *.
  unfold after_result. case_bool_decide as Ha; cbn; rewrite lookup_insert_eq; cbn; destruct (_ =? _); cbn; destruct (logs && _); cbn;
    (split; [done|]; split; [|done]); apply map_eq; intros j; (destruct (decide (j = id)) as [->|]; lookups; [by rewrite ?Et|done]).
Qed.

(** The records about a task stay in step with a result. *)
Lemma result_stage r epoch s : stage_of s (wr_task_id r) -> stage_of (submit_work_result logs r epoch s).2 (wr_task_id r).
Proof.
  intros Hid. pose proof (submit_work_result_eq r epoch s) as He. cbv zeta in He. set (id := wr_task_id r) in *. unfold stage_of in *.
  destruct (tm_tasks s !! id) as [t|] eqn:Et; [|destruct He as [e ->]; simpl; by rewrite Et].
  destruct (tm_assignments s !! id) as [l|] eqn:El; [|destruct He as [e ->]; simpl; by rewrite Et, El].
  case_decide as Hd; [|destruct He as [e ->]; simpl; by rewrite Et, El].
  destruct Hd as (_ & Hw & Hr). destruct He as (_ & Ht' & Hr' & Ha' & Hp' & _).
  destruct Hid as [Hsd Hst]. pose proof Hsd as (_ & Hn & _). set (rs := default [] (tm_results s !! id) ++ [r]) in *.
  assert ((tk_status t = Assigned \/ tk_status t = InProgress) /\ tm_reports s !! id = None /\ assigned_all t l /\ from_workers l rs /\
    1 <= Z.of_nat (length rs) <= tk_worker_count t) as (Hst' & Hrep & Hall & Hfrom & Hlen).
  { assert (forall old, from_workers l old -> wr_worker r ∉ wr_worker <$> old -> from_workers l (old ++ [r])) as Hadd.
    { intros old [Hnd Hin] Hnew. unfold from_workers. rewrite fmap_app. split.
      - apply NoDup_app. split; [done|]. split; [|by apply NoDup_singleton]. intros x Hx ->%list_elem_of_singleton. done.
      - intros w [Hx| ->%list_elem_of_singleton]%elem_of_app; [by apply Hin|done]. }
    assert (forall old, from_workers l old -> wr_worker r ∉ wr_worker <$> old -> assigned_all t l -> all_in t old -> False) as Hfull.
    { intros old Hf Hnew Hal Hall. apply Hnew, (all_workers_in l); [done| |done]. unfold assigned_all, all_in in *. lia. }
    subst rs. destruct (tk_status t) eqn:Es; simpl in Hst; try done; try (by destruct Hst as [? _]).
    - destruct Hst as (Hrs & Hrp & l' & [= <-] & Hal). rewrite Hrs in *. simpl in *. split_and!; try done; [by left|].
      apply (Hadd []); [|by apply not_elem_of_nil]. split; [constructor|]. intros w []%elem_of_nil.
    - destruct Hst as (Hrp & l' & rs' & [= <-] & Hrs & Hal & Hf & Hlt). rewrite Hrs in *. simpl in *. rewrite length_app. simpl.
      split_and!; try done; [by right|by apply Hadd|lia..].
    - destruct Hst as (_ & l' & rs' & [= <-] & Hrs & Hal & Hf & Hlt). rewrite Hrs in *. by destruct (Hfull rs').
    - destruct Hst as (l' & rs' & r' & [= <-] & Hrs & _ & Hal & Hf & Hlt & _). rewrite Hrs in *. by destruct (Hfull rs').
    - destruct Hst as (l' & rs' & r' & [= <-] & Hrs & _ & Hal & Hf & Hlt & _). rewrite Hrs in *. by destruct (Hfull rs'). }
  assert (after_result t rs = with_task_status (if Z.of_nat (length rs) =? tk_worker_count t then ResultSubmitted else InProgress) t) as Hafter.
  { unfold after_result. destruct Hst' as [Es|Es]; rewrite Es; simpl; destruct (_ =? _); try done. by destruct t; simpl in *; subst. }
  rewrite Ht', Hr', Ha', Hp'. lookups. rewrite Hafter, El, Hrep. destruct (_ =? _) eqn:E; zbool; simpl.
  - split; [apply sound_status; destruct Hst'; congruence|]. split; [done|]. by exists l, rs.
  - split; [apply sound_status; destruct Hst'; congruence|]. split; [done|]. exists l, rs. split_and!; try done; unfold assigned_all in *; simpl; lia.
Qed.

Lemma completes status :
  up_to_challenge status = true -> results_in status = false -> rtc (fun a b => task_can_transition_to a b = true) status ResultSubmitted.
Proof.
  assert (rtc (fun a b => task_can_transition_to a b = true) InProgress ResultSubmitted) as H1 by one_move.
  assert (rtc (fun a b => task_can_transition_to a b = true) Assigned ResultSubmitted) as H2 by (by eapply rtc_l; [|exact H1]).
  assert (rtc (fun a b => task_can_transition_to a b = true) Finalized ResultSubmitted) as H3 by (by eapply rtc_l; [|exact H2]).
  destruct status; try done. intros _ _. by eapply rtc_l; [|exact H3].
Qed.

(** A task is complete when its last result is in, and further results do not move it back. *)
Lemma after_result_moves id t old r :
  orderly id t (Some old) -> orderly id (after_result t (old ++ [r])) (Some (old ++ [r])) /\ moves t (after_result t (old ++ [r])).
Proof.
  intros (Hid & Hst & Hlate). unfold orderly, moves, after_result. simpl in *. rewrite !length_app. simpl.
  destruct t as [? ? ? ? ? ? ? ? ? n ? status ?]. simpl in *. 
  assert (results_in status = true -> (Z.of_nat (length old + 1) =? n) = false) as Hle by (intros H%Hlate; apply Z.eqb_neq; lia).
  destruct status; try done; case_bool_decide; try done; simpl.
  all: try (rewrite Hle by done; simpl; split; [split_and!; [done..|intros _; specialize (Hlate eq_refl); lia]|split; [done|apply rtc_refl]]).
  all: clear Hlate Hle; destruct (_ =? n) eqn:E; zbool; simpl; (split; [split_and!; [done..|simpl; intros ?; first [lia|done]]|split; [done|]]).
  all: first [apply rtc_refl|one_move|by apply completes].
Qed.

Lemma result_keeps r epoch s j : keeps s (submit_work_result logs r epoch s).2 j.
Proof.
  pose proof (result_stage r epoch s) as Hstage. pose proof (submit_work_result_eq r epoch s) as He. cbv zeta in He. set (id := wr_task_id r) in *.
  destruct (tm_tasks s !! id) as [t|] eqn:Et; [|destruct He as [e ->]; by apply keeps_refl].
  destruct (tm_assignments s !! id) as [l|] eqn:El; [|destruct He as [e ->]; by apply keeps_refl].
  case_decide as Hd; [|destruct He as [e ->]; by apply keeps_refl]. destruct He as (_ & Ht' & Hr' & Ha' & Hp' & _).
  apply (local_keeps id _ _ t (after_result t (default [] (tm_results s !! id) ++ [r]))); [|done|rewrite Ht'; by lookups|done|].
  - intros i Hi. unfold same_records. rewrite Ht', Hr', Ha', Hp'. by lookups.
  - rewrite Hr'. lookups. intros Ho. apply after_result_moves. destruct (tm_results s !! id); done.
Qed.

Lemma validate_task_ok config t epoch : validate_task config t epoch = Ok tt <->
  epoch < tk_deadline_epoch t <= epoch + tc_max_task_duration_epochs config /\ tk_worker_count t <> 0 /\
  tk_worker_count t <= tc_max_workers_per_task config /\ 0 < tk_reward t /\ 0 <= tk_collateral_requirement t /\ tk_input_cid t <> EmptyString.
Proof.
  unfold validate_task. change (from_adic (f64_of_Z 0)) with 0.
  repeat (case_match; zbool; [split; [done|lia]|]). case_bool_decide; [split; [done|tauto]|]. split; [|done]. intros _. split_and!; try done; lia.
Qed.

Lemma validate_task_total config t epoch : validate_task config t epoch = Ok tt \/ exists e, validate_task config t epoch = Err e.
Proof. unfold validate_task. repeat (case_match; [right; by eauto|]). case_bool_decide; [right; by eauto|by left]. Qed.

(** What a submission stores: the task under its id when it is taken, or nothing. *)
Lemma submit_cases t epoch s :
  let (x, s') := submit_task now blake3 hex t epoch s in
  (forall id, same_records s s' id) /\
  ((x = Ok (tk_task_id t) /\ tk_worker_count t <> 0 /\ tm_tasks s' = <[tk_task_id t := with_task_finality Pending (with_task_status Submitted t)]> (tm_tasks s)) \/
   (stored_ids x = [] /\ tm_tasks s' = tm_tasks s)).
Proof.
  unfold submit_task. monad_unfold. destruct (f64_ltb _ _); cbn; [by split; [|right]|].
  destruct (validate_task (tm_config s) t epoch) as [[]|e|] eqn:Ev; [|by split; [|right]..]. apply validate_task_ok in Ev as (_ & Hn & _).
  destruct (amount_checked_add _ _) as [total|]; cbn; [|by split; [|right]]. unfold on_task_escrow, mmap_err, mzoom.
  destruct (escrow_lock now hex (task_escrow blake3 hex t) total epoch (tm_escrow s)) as [[lid|e|] em]; cbn; [|by split; [|right]..].
  split; [done|]. by left.
Qed.

(** A step keeps every task, but the one that it stores anew. *)
Lemma step_keeps new s s' :
  task_step new s s' ->
  (forall id, id ∉ new -> keeps s s' id) /\
  (forall id, id ∈ new -> new = [id] /\ same_records s s' id /\ exists t, tm_tasks s' !! id = Some t /\ tk_task_id t = id /\
     tk_status t = Submitted /\ tk_finality_status t = Pending /\ 1 <= tk_worker_count t).
Proof.
  intros Hs. destruct Hs as [t epoch s Hu| | | | | |em rep s];
    [|split; [intros ? _; first [apply finalize_keeps|apply assign_keeps|apply result_keeps|apply report_keeps|apply challenge_keeps|by apply same_keeps]|by intros ? []%elem_of_nil]..].
  pose proof (submit_cases t epoch s) as H. destruct (submit_task now blake3 hex t epoch s) as [x s']. simpl.
  destruct H as [Hsame [(-> & Hn & Ht)|[-> Ht]]]; simpl; rewrite ?Ht.
  - split; [intros id Hid%not_elem_of_cons; apply same_keeps; [rewrite Ht; lookups; destruct Hid; by lookups|done]|].
    intros id ->%list_elem_of_singleton. split; [done|]. split; [done|]. eexists. rewrite lookup_insert_eq. split_and!; try done. simpl. uint_unfold. lia.
  - split; [intros id _; apply same_keeps; [by rewrite Ht|done]|by intros ? []%elem_of_nil].
Qed.

Lemma times_app id l k : times id (l ++ k) = (times id l + times id k)%nat.
Proof. unfold times. by rewrite filter_app, length_app. Qed.

Lemma times_zero id l : times id l = 0%nat <-> id ∉ l.
Proof.
  unfold times. rewrite length_zero_iff_nil. split.
  - intros H Hin. assert (id ∈ filter (eq id) l) as E by (by apply list_elem_of_filter). rewrite H in E. by apply elem_of_nil in E.
  - intros H. destruct (filter (eq id) l) as [|x k] eqn:E; [done|]. assert (x ∈ filter (eq id) l) as Hx by (rewrite E; left).
    by apply list_elem_of_filter in Hx as [-> Hx].
Qed.

Record run_inv (ids : list TaskId) s : Prop := {
  ri_stored : forall id, tm_tasks s !! id <> None -> id ∈ ids;
  ri_once : forall id, (times id ids <= 1)%nat -> stage_of s id;
  ri_orderly : forall id, orderly_at s id;
}.

Lemma step_inv ids new s s' :
  run_inv ids s -> task_step new s s' -> run_inv (ids ++ new) s' /\ forall id, id ∉ new -> follows_at s s' id.
Proof.
  intros [Hst Honce Hord] Hs. destruct (step_keeps _ _ _ Hs) as [Hk Hnew].
  split; [|intros id Hid; by apply (Hk id Hid)]. split.
  - intros id H. destruct (decide (id ∈ new)) as [Hin|Hin]; [apply elem_of_app; by right|]. apply elem_of_app. left. apply Hst.
    intros E. by apply H, (Hk id Hin).
  - intros id Hle. rewrite times_app in Hle. destruct (decide (id ∈ new)) as [Hin|Hin]; [|apply (Hk id Hin), Honce; lia].
    assert (times id ids = 0%nat) as H0.
    { assert (times id new <> 0%nat) by (intros E; by apply times_zero in E). lia. }
    destruct (Hnew id Hin) as (_ & (Ha & Hr & Hp) & t & Ht & Hid & Hsub & Hpend & Hn).
    assert (tm_tasks s !! id = None) as Hnone. { destruct (tm_tasks s !! id) eqn:E; [|done]. apply times_zero in H0. destruct H0. apply Hst. congruence. }
    pose proof (Honce id ltac:(lia)) as Hs0. unfold stage_of in *. rewrite Hnone in Hs0. rewrite Ht, Ha, Hr, Hp. simpl.
    split; [split_and!; [done..|by rewrite Hpend, Hsub]|]. by rewrite Hsub.
  - intros id. destruct (decide (id ∈ new)) as [Hin|Hin]; [|by apply (Hk id Hin)].
    destruct (Hnew id Hin) as (_ & _ & t & Ht & Hid & Hsub & _). intros t' Ht'. simplify_eq.
    split; [done|]. by rewrite Hsub.
Qed.

Lemma run_keeps ids s : tasks_run ids s -> run_inv ids s.
Proof.
  induction 1 as [|ids new s s' _ IH Hs]; [|by eapply step_inv].
  split; intros id; unfold stage_of, orderly_at; simpl; by rewrite !lookup_empty.
Qed.

(** ** Submission *)

Definition sponsor_of (t : Task) : AccountAddress := from_public_key blake3 (tk_sponsor t).
Definition escrow_of s (t : Task) : AdicAmount := tk_reward t + tc_min_deposit (tm_config s).

Definition submittable s (t : Task) (epoch : Z) : Prop :=
  f64_ltb (get_reputation (tm_reputation s) (tk_sponsor t)) (tc_min_sponsor_reputation (tm_config s)) = false /\
  epoch < tk_deadline_epoch t <= epoch + tc_max_task_duration_epochs (tm_config s) /\
  1 <= tk_worker_count t <= tc_max_workers_per_task (tm_config s) /\ 0 < tk_reward t /\ tk_input_cid t <> EmptyString /\
  held (em_balances (tm_escrow s)) (sponsor_of t) + escrow_of s t <= bal (em_balances (tm_escrow s)) (sponsor_of t).

Definition solvent s (t : Task) : Prop :=
  coherent (em_balances (tm_escrow s)) /\
  0 <= held (em_balances (tm_escrow s)) (sponsor_of t) <= bal (em_balances (tm_escrow s)) (sponsor_of t) /\
  bal (em_balances (tm_escrow s)) (sponsor_of t) <= MAX_SUPPLY.

Definition submitted (t : Task) : Task := with_task_finality Pending (with_task_status Submitted t).

(** C12: A task is taken exactly when its sponsor is reputable enough and can cover the reward and the
    deposit, the deadline and the number of workers are within the limits, the reward is positive and
    there is an input.  Then reward and deposit are locked for the sponsor under the id of the task,
    no balance changes, and the task is stored as submitted.  Otherwise neither a lock nor a task is
    stored. *)
Theorem submit_task_correct t epoch s :
  solvent s t -> is_u8 (tk_worker_count t) -> 0 <= tk_collateral_requirement t -> 0 <= tc_min_deposit (tm_config s) ->
  let lock_id := to_lock_id hex (task_escrow blake3 hex t) in
  let lock := mkLock (task_escrow blake3 hex t) (escrow_of s t) epoch (sponsor_of t) in
  (submittable s t epoch ->
   exists s', submit_task now blake3 hex t epoch s = (Ok (tk_task_id t), s') /\
     tm_tasks s' = <[tk_task_id t := submitted t]> (tm_tasks s) /\
     em_locks (tm_escrow s') = <[lock_id := lock]> (em_locks (tm_escrow s)) /\
     same_balances (em_balances (tm_escrow s)) (em_balances (tm_escrow s')) /\
     forall b, held (em_balances (tm_escrow s')) b =
       held (em_balances (tm_escrow s)) b + if decide (b = sponsor_of t) then escrow_of s t else 0) /\
  (~ submittable s t epoch ->
   is_err (submit_task now blake3 hex t epoch s).1 = true /\ tm_tasks (submit_task now blake3 hex t epoch s).2 = tm_tasks s /\
   em_locks (tm_escrow (submit_task now blake3 hex t epoch s).2) = em_locks (tm_escrow s)).
Proof.
  intros (Hco & Hh & Hcap) Hu Hcol Hmin lock_id lock. unfold submit_task, submittable. monad_unfold.
  destruct (f64_ltb _ _) eqn:Er; cbn; [split; [naive_solver|done]|].
  destruct (validate_task_total (tm_config s) t epoch) as [Ev|[e Ev]].
  2: { rewrite Ev. split; [|done]. intros Hs. assert (validate_task (tm_config s) t epoch = Ok tt); [|congruence]. apply validate_task_ok.
       split_and!; try lia. by apply Hs. }
  rewrite Ev. cbn.
  apply validate_task_ok in Ev as (Hd & Hn & Hmax & Hrew & _ & Hcid). unfold escrow_of in *. set (total := tk_reward t + tc_min_deposit (tm_config s)) in *.
  assert (MAX_SUPPLY < u64_max) as Hms by (vm_compute; done).
  unfold amount_checked_add, u64_checked_add. fold total. destruct (total <=? u64_max) eqn:Et; zbool; cbn; [|split; [lia|done]].
  unfold on_task_escrow, mmap_err, mzoom. split.
  - intros (_ & _ & _ & _ & _ & Hle).
    destruct (escrow_lock_ok now hex (task_escrow blake3 hex t) total epoch (tm_escrow s)) as (em & -> & Hl & _ & Hb & _ & Hheld); [done| |].
    { unfold can_lock. simpl. fold (sponsor_of t). split_and!; lia. }
    cbn. eexists. split; [done|]. simpl. by rewrite Hl.
  - intros Hns. destruct (escrow_lock_refused now hex (task_escrow blake3 hex t) total epoch (tm_escrow s)) as [He Hl]; [done| |].
    { simpl. fold (sponsor_of t). unfold amount_saturating_sub, u64_saturating_sub. apply Z.nle_gt. intros Hge. apply Hns. uint_unfold. split_and!; try done; lia. }
    destruct (escrow_lock _ _ _ _ _ _) as [[lid|e|] em]; done.
Qed.

(** C11: Whatever the calls, their order and what happens to the shared escrows and reputations, in every
    step: a task that no submission stores anew under its id stays, with its terms unchanged, and only moves
    forward along its lifecycle, never beyond the challenge period; a submission that is taken starts its id
    anew as a submitted task and leaves the other records about the id as they were.  An id that was taken
    once has as many assignments as the task has workers once it is assigned, one result at most per worker
    and only from the assigned ones, and a report only when all results are in. *)
Theorem tasks_follow_lifecycle ids new s s' :
  tasks_run ids s -> task_step new s s' ->
  (forall id, id ∉ new -> follows_at s s' id) /\
  (forall id, id ∈ new -> same_records s s' id /\ exists t, tm_tasks s' !! id = Some t /\ tk_status t = Submitted /\ tk_finality_status t = Pending) /\
  (forall id t, tm_tasks s' !! id = Some t -> tk_task_id t = id /\ up_to_challenge (tk_status t) = true) /\
  (forall id, (times id (ids ++ new) <= 1)%nat -> stage_of s' id).
Proof.
  intros Hs Hstep. destruct (step_inv _ _ _ _ (run_keeps _ _ Hs) Hstep) as [[_ Honce Hord] Hf]. split; [done|]. split.
  - intros id Hin. destruct (step_keeps _ _ _ Hstep) as [_ Hn]. destruct (Hn id Hin) as (_ & ? & t & ? & _ & ? & ? & _). split; [done|]. by exists t.
  - split; [|done]. intros id t Ht. by destruct (Hord id t Ht) as (? & ? & _).
Qed.

(** The bar for sponsors is on a scale that the consensus layer does not use: as soon as one message
    of a sponsor is finalized its reputation is at most ten, and with the default configuration every
    task that it submits is refused. *)
Theorem finalized_sponsor_refused t epoch at_time diversity depth s :
  tm_config s = task_config_default ->
  let s' := with_shared (tm_escrow s) (good_update at_time (tk_sponsor t) diversity depth (tm_reputation s)) s in
  exists rep, submit_task now blake3 hex t epoch s' = (Err (InsufficientReputation (f64_of_Z 100) rep), s').
Proof.
  intros Hcfg s'. exists (get_reputation (tm_reputation s') (tk_sponsor t)). unfold submit_task. monad_unfold.
  replace (f64_ltb _ _) with true; [by subst s'; simpl; rewrite Hcfg|]. symmetry. subst s'. simpl. rewrite Hcfg. unfold good_update. rewrite entry_value.
  eapply f64_leb_ltb_trans; [by apply f64_min_le_r|by vm_compute].
Qed.
End facts.

(** ** Instances *)

Definition demo_config : TaskManagerConfig := mkTaskConfig 5 100 (f64_lit 1 2) 5 10.
Definition demo_task (id : TaskId) (sponsor : PublicKey) (reward workers : Z) : Task :=
  mkTask id sponsor (Compute HashVerification requirements_default) "QmInput" None reward 0 20 (f64_of_Z 0) workers 0 Submitted Pending.
Definition demo_id : TaskId := replicate 32 7.
Definition demo_assignment (worker : PublicKey) : WorkAssignment := mkAssignment [1] demo_id worker 2 [] 0 None 0.
Definition demo_result (worker : PublicKey) (cid : string) : WorkResult :=
  mkWorkResult [2] demo_id worker cid (mkExecutionProof ReExecution [] [] []) (mkMetrics 1 1 1 1 0 1) [] 3.
Definition demo_report : ValidationReport := mkReport [3] demo_id [2] [] 2 1 [] Accepted [] 4 4.

Definition no_hash (b : Bytes) : Bytes := b.
Definition start_manager : TaskManager MemoryStorage := task_manager_new (escrow_new alice_manager) (tracker_new (f64_lit 9 10)) demo_config.
Definition submitted_manager : TaskManager MemoryStorage := (submit_task 0 no_hash hex_encode (demo_task demo_id alice 40 2) 1 start_manager).2.
Definition working_manager : TaskManager MemoryStorage :=
  (submit_work_result true (demo_result bob "QmOutputOfTheWork") 3
    (record_worker_assignments demo_id [demo_assignment bob; demo_assignment carol] (mark_task_finalized demo_id submitted_manager).2).2).2.

Lemma working_run : tasks_run 0 no_hash hex_encode true [demo_id] working_manager.
Proof.
  change [demo_id] with (((([] ++ [demo_id]) ++ []) ++ []) ++ [] : list TaskId).
  eapply tk_step; [|apply ts_result]. eapply tk_step; [|apply ts_assignments]. eapply tk_step; [|apply ts_finalized].
  apply (tk_step _ _ _ _ [] [demo_id] start_manager); [apply tk_new|].
  replace [demo_id] with (stored_ids (submit_task 0 no_hash hex_encode (demo_task demo_id alice 40 2) 1 start_manager).1) by (vm_compute; reflexivity).
  apply ts_submit. vm_compute; by split.
Qed.

(** The second result completes the task's results, and the report then opens the challenge period; a
    second submission of the id starts the task anew beside the old records. *)
Lemma tasks_follow_lifecycle_witness :
  let s' := (submit_work_result true (demo_result carol "QmOutputOfTheWork") 4 working_manager).2 in
  let again := submit_task 0 no_hash hex_encode (demo_task demo_id alice 10 2) 2 working_manager in
  (tk_status <$> tm_tasks working_manager !! demo_id) = Some InProgress /\ (tk_status <$> tm_tasks s' !! demo_id) = Some ResultSubmitted /\
  (begin_challenge_period demo_id 6 (record_validation_report demo_report s').2).1 = Ok 11 /\
  stage_of s' demo_id /\ follows_at working_manager s' demo_id /\ same_records working_manager again.2 demo_id.
Proof.
  cbv zeta. split; [vm_compute; reflexivity|]. split; [vm_compute; reflexivity|]. split; [vm_compute; reflexivity|].
  destruct (tasks_follow_lifecycle 0 no_hash hex_encode true _ _ _ _ working_run (ts_result 0 no_hash hex_encode true (demo_result carol "QmOutputOfTheWork") 4 working_manager)) as (Hf & _ & _ & Hs).
  split; [apply Hs; by vm_compute|]. split; [apply Hf, not_elem_of_nil|].
  assert (is_u8 (tk_worker_count (demo_task demo_id alice 10 2))) as Hu by (vm_compute; by split).
  destruct (tasks_follow_lifecycle 0 no_hash hex_encode true _ _ _ _ working_run
    (ts_submit 0 no_hash hex_encode true (demo_task demo_id alice 10 2) 2 working_manager Hu)) as (_ & Hn & _ & _).
  destruct (Hn demo_id) as [Hsame _]; [vm_compute; by left|]. exact Hsame.
Defined.

Lemma submit_task_correct_witness :
  exists s', submit_task 0 no_hash hex_encode (demo_task demo_id alice 40 2) 1 start_manager = (Ok demo_id, s') /\
    held (em_balances (tm_escrow s')) alice = 45 /\ tm_tasks s' !! demo_id = Some (demo_task demo_id alice 40 2).
Proof.
  destruct (submit_task_correct 0 no_hash hex_encode (demo_task demo_id alice 40 2) 1 start_manager) as [H _].
  - split; [apply alice_coherent|]. split; [split; vm_compute; discriminate|vm_compute; discriminate].
  - split; vm_compute; discriminate.
  - done.
  - done.
  - destruct H as (s' & Hrun & Ht & _ & _ & Hheld).
    { unfold submittable. split; [vm_compute; reflexivity|]. split; [simpl; lia|]. split; [simpl; lia|]. split; [simpl; lia|]. split; [done|]. vm_compute. discriminate. }
    exists s'. split; [exact Hrun|]. split; [rewrite (Hheld alice); vm_compute; reflexivity|]. rewrite Ht. vm_compute. reflexivity.
Defined.

Lemma finalized_sponsor_refused_witness :
  let s := task_manager_new (escrow_new alice_manager) (set_reputation 0 alice (f64_of_Z 5000) (tracker_new (f64_lit 9 10))) task_config_default in
  exists rep, (submit_task 0 no_hash hex_encode (demo_task demo_id alice 40 2) 1
    (with_shared (tm_escrow s) (good_update 1 alice (f64_of_Z 1) 3 (tm_reputation s)) s)).1 = Err (InsufficientReputation (f64_of_Z 100) rep).
Proof.
  cbv zeta. destruct (finalized_sponsor_refused 0 no_hash hex_encode (demo_task demo_id alice 40 2) 1 1 (f64_of_Z 1) 3
    (task_manager_new (escrow_new alice_manager) (set_reputation 0 alice (f64_of_Z 5000) (tracker_new (f64_lit 9 10))) task_config_default) eq_refl) as [rep H].
  exists rep. exact (f_equal fst H).
Defined.

(** The manager does not look whether an id is taken.  A second submission with the id of a task in
    progress replaces the task, and its escrow under the same lock id, while the records of the first
    one stay: Bob's old assignment and Alice's 45 tokens remain, the escrow now names another owner,
    and one result of Bob completes a task that was never finalized nor assigned. *)
Theorem resubmission_takes_over :
  let second := demo_task demo_id alice 10 2 in
  let s := (submit_task 5 no_hash hex_encode second 2 working_manager).2 in
  let s' := (submit_work_result true (demo_result carol "QmOutputOfTheWork") 4 s).2 in
  (tk_status <$> tm_tasks s !! demo_id) = Some Submitted /\ held (em_balances (tm_escrow s)) alice = 60 /\
  (lk_amount <$> em_locks (tm_escrow s) !! to_lock_id hex_encode (task_escrow no_hash hex_encode second)) = Some 15 /\
  (tk_status <$> tm_tasks s' !! demo_id) = Some ResultSubmitted /\ is_err (mark_task_finalized demo_id s').1 = true.
Proof. vm_compute. repeat split. Qed.

(** A result whose CID is shorter than sixteen bytes is stored, and then the log line panics. *)
Theorem short_cid_panics :
  let (r, s') := submit_work_result true (demo_result carol "QmShort") 4 working_manager in
  r = Panic /\ (length <$> tm_results s' !! demo_id) = Some 2%nat /\
  (submit_work_result false (demo_result carol "QmShort") 4 working_manager).1 = Ok [2].
Proof. vm_compute. repeat split. Qed.

(** A worker drawn twice answers once, so a task of two workers with two assignments to Bob waits
    for a second result that is refused. *)
Theorem repeated_worker_stalls :
  let s := (record_worker_assignments demo_id [demo_assignment bob; demo_assignment bob] (mark_task_finalized demo_id submitted_manager).2).2 in
  let s' := (submit_work_result true (demo_result bob "QmOutputOfTheWork") 3 s).2 in
  (tk_status <$> tm_tasks s' !! demo_id) = Some InProgress /\
  (submit_work_result true (demo_result bob "QmOutputOfTheWork") 4 s').1 = Err (ResultAlreadySubmitted demo_id).
Proof. vm_compute. repeat split. Qed.
