(* ===== verification/Workers.v ===== *)
(** * Worker selection

    [adic-pouw/src/worker_selection.rs]: the candidates for a task are filtered by reputation, ranked by
    a score of reputation, past performance and a hash, and taken in that order as long as no axis ball
    holds too many of them; each one's collateral is then locked.  The balls come from the encoders.

    [perf_iter] is the iterator of the performance map.  [sort_by] on a comparison that is not a total
    order, as scores that are not numbers give, returns some order or panics: that is the parameter
    [nan_order].  The axes of a worker are in a [HashMap], but neither the check nor the counting
    depends on their order. *)

From S2P Require Import Prelude F64 Padic Message Encoders Amount EconStorage Balance Lock Reputation Escrow Dag Voting Application TaskTypes Tasks.

Record WorkerSelectionConfig := mkSelectionConfig {
  min_worker_reputation : f64;
  collateral_multiplier : f64;
  require_axis_diversity : bool;
  max_workers_per_axis_ball : nat;
  performance_weight : f64;
  vrf_rounds : nat;
}.
Definition selection_config_default : WorkerSelectionConfig :=
  mkSelectionConfig (f64_of_Z 500) (f64_lit 1 2) true 2 (f64_lit 3 10) 3.

Record WorkerPerformance := mkPerformance {
  wp_total_tasks_completed : Z;
  wp_tasks_failed : Z;
  wp_tasks_slashed : Z;
  wp_average_execution_time_ms : f64;
  wp_average_quality_score : f64;
  wp_last_task_epoch : Z;
}.
Definition performance_default : WorkerPerformance := mkPerformance 0 0 0 (f64_of_Z 0) (f64_of_Z 1) 0.

Definition calculate_score (p : WorkerPerformance) : f64 :=
  let total_attempted := to_u64 (wp_total_tasks_completed p + wp_tasks_failed p + wp_tasks_slashed p) in
  if total_attempted =? 0 then f64_of_Z 1
  else
    let success_rate := f64_div (f64_of_Z (wp_total_tasks_completed p)) (f64_of_Z total_attempted) in
    let slash_penalty := if 0 <? wp_tasks_slashed p then f64_lit 1 2 else f64_of_Z 1 in
    f64_min (f64_max (f64_mul (f64_mul success_rate (wp_average_quality_score p)) slash_penalty) (f64_of_Z 0)) (f64_of_Z 1).

Record EligibleWorker := mkEligible {
  ew_worker : PublicKey;
  ew_reputation : f64;
  ew_performance_score : f64;
  ew_vrf_value : Bytes;
  ew_selection_score : f64;
}.

Record WorkerFeatures := mkWorkerFeatures {
  wf_region : string;
  wf_asn : string;
  wf_stake_tier : Z;
}.

Record WorkerSelector (St : Type) := mkSelector {
  ws_reputation : ReputationTracker;
  ws_escrow : EscrowManager St;
  ws_performance : gmap PublicKey WorkerPerformance;
  ws_config : WorkerSelectionConfig;
  ws_region_encoder : RegionCodeEncoder;
  ws_asn_encoder : AsnEncoder;
  ws_stake_encoder : StakeTierEncoder;
  ws_features : gmap PublicKey WorkerFeatures;
}.
Arguments mkSelector {St}.
Arguments ws_reputation {St}.
Arguments ws_escrow {St}.
Arguments ws_performance {St}.
Arguments ws_config {St}.
Arguments ws_region_encoder {St}.
Arguments ws_asn_encoder {St}.
Arguments ws_stake_encoder {St}.
Arguments ws_features {St}.

Definition selector_new {St} (reputation : ReputationTracker) (escrow : EscrowManager St) (config : WorkerSelectionConfig) : WorkerSelector St :=
  mkSelector reputation escrow ∅ config (mkRegionCode 1) (mkAsn 2) (stake_tier_new 3) ∅.

(** An encoder has no error. *)
Definition no_error {E A} (r : result Empty_set A) : result E A :=
  match r with Ok a => Ok a | Err e => match e with end | Panic => Panic end.

(** The axis and the ball of a worker on it. *)
Abbreviation AxisBall := (Z * list Z)%type.

Section selection.
Context {St : Type} `{!EconomicsStorage St}.
Context (now : Z) (blake3 : Bytes -> Bytes) (hex : Bytes -> string).
Context (perf_iter : gmap PublicKey WorkerPerformance -> list (PublicKey * WorkerPerformance)).
Context (nan_order : list EligibleWorker -> result PoUWError (list EligibleWorker)).
Abbreviation WS := (WorkerSelector St).
Abbreviation WSM := (M WS PoUWError).
Implicit Types s : WS.

Definition with_features f s : WS :=
  mkSelector (ws_reputation s) (ws_escrow s) (ws_performance s) (ws_config s) (ws_region_encoder s) (ws_asn_encoder s) (ws_stake_encoder s) (f (ws_features s)).
Definition with_ws_escrow (em : EscrowManager St) s : WS :=
  mkSelector (ws_reputation s) em (ws_performance s) (ws_config s) (ws_region_encoder s) (ws_asn_encoder s) (ws_stake_encoder s) (ws_features s).
Definition with_performance f s : WS :=
  mkSelector (ws_reputation s) (ws_escrow s) (f (ws_performance s)) (ws_config s) (ws_region_encoder s) (ws_asn_encoder s) (ws_stake_encoder s) (ws_features s).

(** ** Eligibility *)

Definition generate_worker_seed (t : Task) (worker : PublicKey) (epoch : Z) : Bytes :=
  tk_task_id t ++ worker ++ to_le_bytes 8 epoch ++ str_bytes "ADIC-POUW-WORKER-SELECTION-v1".

Definition calculate_selection_score (config : WorkerSelectionConfig) (reputation performance_score : f64) (vrf_value : Bytes) : f64 :=
  let vrf_score := f64_div (f64_of_Z (from_le_bytes (take 8 vrf_value))) (f64_of_Z u64_max) in
  let rep_score := f64_min (f64_div reputation (f64_of_Z 10000)) (f64_of_Z 1) in
  let rep_weight := f64_lit 4 10 in
  let perf_weight := performance_weight config in
  let vrf_weight := f64_sub (f64_sub (f64_of_Z 1) rep_weight) perf_weight in
  f64_add (f64_add (f64_mul rep_score rep_weight) (f64_mul performance_score perf_weight)) (f64_mul vrf_score vrf_weight).

Definition is_eligible s (t : Task) (worker : PublicKey) : bool :=
  let reputation := get_reputation (ws_reputation s) worker in
  negb (f64_ltb reputation (min_worker_reputation (ws_config s))) && negb (f64_ltb reputation (tk_min_reputation t)).

Definition rank_worker s (t : Task) (current_epoch : Z) (worker : PublicKey) : EligibleWorker :=
  let reputation := get_reputation (ws_reputation s) worker in
  let performance_score := calculate_score (default performance_default (ws_performance s !! worker)) in
  let vrf_value := blake3 (generate_worker_seed t worker current_epoch) in
  mkEligible worker reputation performance_score vrf_value (calculate_selection_score (ws_config s) reputation performance_score vrf_value).

Definition filter_eligible_workers (t : Task) (candidates : list PublicKey) (current_epoch : Z) s : list EligibleWorker :=
  rank_worker s t current_epoch <$> List.filter (is_eligible s t) candidates.

(** ** Axis balls *)

Definition region_name (b : Z) : string :=
  match b mod 6 with 0 => "US" | 1 => "EU" | 2 => "ASIA" | 3 => "AF" | 4 => "SA" | 5 => "OC" | _ => "UNKNOWN" end.

Definition derive_features (worker : PublicKey) : WorkerFeatures :=
  let hash_bytes := blake3 worker in
  mkWorkerFeatures (region_name (default 0 (hash_bytes !! 0%nat)))
    ("AS" +:+ show_u64 (from_bytes_be (take 4 (drop 1 hash_bytes)) mod 100000))
    (from_bytes_be (take 4 (drop 5 hash_bytes) ++ [0; 0; 0; 0]) mod 1000000).

Definition get_worker_features (worker : PublicKey) : WSM WorkerFeatures :=
  features_map ← mread ws_features;
  match features_map !! worker with
  | Some features => mret features
  | None => mwrite (with_features (insert worker (derive_features worker)));; mret (derive_features worker)
  end.

Definition axis_balls_of (region : RegionCodeEncoder) (asn : AsnEncoder) (stake : StakeTierEncoder) (f : WorkerFeatures) : result PoUWError (list AxisBall) :=
  let? region_encoded := no_error (encode blake3 region (str_bytes (wf_region f)) 3 5) in
  let? asn_encoded := no_error (encode blake3 asn (str_bytes (wf_asn f)) 3 5) in
  let? stake_encoded := no_error (encode blake3 stake (show_int (wf_stake_tier f)) 3 5) in
  Ok [(1, QpDigits_ball_id region_encoded 3); (2, QpDigits_ball_id asn_encoded 3); (3, QpDigits_ball_id stake_encoded 3)].

Definition get_worker_axis_balls (worker : PublicKey) : WSM (list AxisBall) :=
  features ← get_worker_features worker;
  s ← mread id;
  mresult (axis_balls_of (ws_region_encoder s) (ws_asn_encoder s) (ws_stake_encoder s) features).

(** ** Selection *)

Definition sort_by_score (l : list EligibleWorker) : result PoUWError (list EligibleWorker) :=
  if (2 <=? length l)%nat && existsb (fun w => is_nan (ew_selection_score w)) l then nan_order l
  else Ok (isort (fun a b => f64_geb (ew_selection_score a) (ew_selection_score b)) l).

(** [used_axis_balls]: how many selected workers each ball of each axis holds. *)
Abbreviation Usage := (gmap (Z * list Z) nat).
Definition usage (used : Usage) (ball : AxisBall) : nat := default 0%nat (used !! ball).
Definition add_usage (used : Usage) (ball : AxisBall) : Usage := <[ball := S (usage used ball)]> used.

Fixpoint pick_workers (config : WorkerSelectionConfig) (wanted : nat) (eligible selected : list EligibleWorker) (used : Usage) : WSM (list EligibleWorker) :=
  match eligible with
  | [] => mret selected
  | candidate :: rest =>
      if (wanted <=? length selected)%nat then mret selected
      else if require_axis_diversity config then
        worker_balls ← get_worker_axis_balls (ew_worker candidate);
        if existsb (fun ball => (max_workers_per_axis_ball config <=? usage used ball)%nat) worker_balls
        then pick_workers config wanted rest selected used
        else pick_workers config wanted rest (selected ++ [candidate]) (foldl add_usage used worker_balls)
      else pick_workers config wanted rest (selected ++ [candidate]) used
  end.

Definition show_nat (n : nat) : string := show_u64 (Z.of_nat n).

Definition vrf_select_workers (t : Task) (eligible : list EligibleWorker) : WSM (list EligibleWorker) :=
  eligible ← mresult (sort_by_score eligible);
  config ← mread ws_config;
  selected ← pick_workers config (Z.to_nat (tk_worker_count t)) eligible [] ∅;
  mbail (length selected <? Z.to_nat (tk_worker_count t))%nat
    (Other ("Could not select enough diverse workers: need " +:+ show_u64 (tk_worker_count t) +:+ ", selected " +:+ show_nat (length selected)));;
  mret selected.

(** ** Collateral *)

Definition per_worker_collateral (config : WorkerSelectionConfig) (t : Task) : result PoUWError AdicAmount :=
  div_by (f64_to_u64 (f64_mul (f64_of_Z (tk_reward t)) (collateral_multiplier config))) (tk_worker_count t).

Definition generate_assignment_id (t : Task) (worker : PublicKey) (index : nat) : Hash :=
  blake3 (tk_task_id t ++ worker ++ to_le_bytes 8 (Z.of_nat index)).

Definition worker_address (w : EligibleWorker) : AccountAddress := from_public_key blake3 (ew_worker w).
Definition on_ws_escrow {A} (m : M (EscrowManager St) EscrowError A) : WSM A := mmap_err EscrowRefused (mzoom ws_escrow with_ws_escrow m).

Fixpoint lock_collaterals (t : Task) (amount : AdicAmount) (current_epoch : Z) (index : nat) (selected : list EligibleWorker) : WSM (list WorkAssignment) :=
  match selected with
  | [] => mret []
  | w :: rest =>
      lock_id ← on_ws_escrow (escrow_lock now hex (PoUWDeposit (tk_task_id t) (worker_address w)) amount current_epoch);
      assignments ← lock_collaterals t amount current_epoch (S index) rest;
      mret (mkAssignment (generate_assignment_id t (ew_worker w) index) (tk_task_id t) (ew_worker w) current_epoch (ew_vrf_value w)
              (to_u8 (Z.of_nat index)) (Some lock_id) now :: assignments)
  end.

Definition escrow_worker_collateral (t : Task) (selected : list EligibleWorker) (current_epoch : Z) : WSM (list WorkAssignment) :=
  config ← mread ws_config;
  amount ← mresult (per_worker_collateral config t);
  lock_collaterals t amount current_epoch 0 selected.

Definition select_workers (t : Task) (candidate_workers : list PublicKey) (current_epoch : Z) : WSM (list WorkAssignment) :=
  eligible ← mread (filter_eligible_workers t candidate_workers current_epoch);
  mbail (Z.of_nat (length eligible) <? tk_worker_count t)
    (Other ("Insufficient eligible workers: need " +:+ show_u64 (tk_worker_count t) +:+ ", found " +:+ show_nat (length eligible)));;
  selected ← vrf_select_workers t eligible;
  escrow_worker_collateral t selected current_epoch.

(** ** Performance *)

Definition blend_performance (old new : f64) : f64 := f64_add (f64_mul (f64_lit 7 10) old) (f64_mul (f64_lit 3 10) new).

Definition after_outcome (outcome : TaskOutcome) (execution_time_ms : Z) (quality_score : f64) (p : WorkerPerformance) : WorkerPerformance :=
  let '(mkPerformance completed failed slashed time quality epoch) := p in
  match outcome with
  | Success =>
      if completed =? 0 then mkPerformance (to_u64 (completed + 1)) failed slashed (f64_of_Z execution_time_ms) quality_score epoch
      else mkPerformance (to_u64 (completed + 1)) failed slashed (blend_performance time (f64_of_Z execution_time_ms))
             (blend_performance quality quality_score) epoch
  | Failure => mkPerformance completed (to_u64 (failed + 1)) slashed time quality epoch
  | OutcomeSlashed => mkPerformance completed failed (to_u64 (slashed + 1)) time quality epoch
  | _ => p
  end.

Definition with_last_epoch (epoch : Z) (p : WorkerPerformance) : WorkerPerformance :=
  mkPerformance (wp_total_tasks_completed p) (wp_tasks_failed p) (wp_tasks_slashed p) (wp_average_execution_time_ms p) (wp_average_quality_score p) epoch.

Definition get_worker_performance (worker : PublicKey) s : WorkerPerformance := default performance_default (ws_performance s !! worker).
Definition update_worker_performance (worker : PublicKey) (outcome : TaskOutcome) (execution_time_ms : Z) (quality_score : f64) (current_epoch : Z) : WSM unit :=
  perf ← mread (get_worker_performance worker);
  mwrite (with_performance (insert worker (with_last_epoch current_epoch (after_outcome outcome execution_time_ms quality_score perf)))).
Definition get_high_performance_workers (min_score : f64) s : list PublicKey :=
  (List.filter (fun kp => f64_geb (calculate_score kp.2) min_score) (perf_iter (ws_performance s))).*1.
End selection.

Arguments axis_balls_of : simpl never.

(** ** Balls *)

Lemma encoded_total {T} {F : FeatureEncoder T} blake3 (e : T) v :
  (exists d, encode blake3 e v 3 5 = Ok d) -> exists d, no_error (E := PoUWError) (encode blake3 e v 3 5) = Ok d.
Proof. intros [d ->]. by exists d. Qed.

Lemma from_u64_total v : 0 <= v -> exists d, QpDigits_from_u64 v 3 5 = Ok d.
Proof. intros Hv. unfold QpDigits_from_u64. rewrite QpDigits_new_Ok by lia. by eexists. Qed.

(** The three axes of a worker are always encoded. *)
Lemma axis_balls_total blake3 r a st f :
  exists b1 b2 b3, axis_balls_of blake3 r a st f = Ok [(1, b1); (2, b2); (3, b3)].
Proof.
  unfold axis_balls_of.
  destruct (encoded_total blake3 r (str_bytes (wf_region f))) as [d1 ->].
  { apply from_u64_total, region_value_nonneg. }
  destruct (encoded_total blake3 a (str_bytes (wf_asn f))) as [d2 ->].
  { cbn [encode asn_encoder]. unfold encode_asn_bytes, encode_asn_str, encode_asn, rem_by.
    replace (pow_u32 3 5) with 243 by (vm_compute; reflexivity). simpl. apply from_u64_total. apply Z.mod_pos_bound. lia. }
  destruct (encoded_total blake3 st (show_int (wf_stake_tier f))) as [d3 ->].
  { cbn [encode stake_tier_encoder]. apply from_u64_total, tier_of_nonneg. }
  cbn [result_bind]. by eexists _, _, _.
Qed.

Section facts.
Context {St : Type} `{!EconomicsStorage St} `{!EconomicsStorageLaws St}.
Context (now : Z) (blake3 : Bytes -> Bytes) (hex : Bytes -> string).
Context (nan_order : list EligibleWorker -> result PoUWError (list EligibleWorker)).
Abbreviation WS := (WorkerSelector St).
Implicit Types s : WS.

Definition features_of s (w : PublicKey) : WorkerFeatures := default (derive_features blake3 w) (ws_features s !! w).
Definition balls_of s (w : PublicKey) : list AxisBall :=
  match axis_balls_of blake3 (ws_region_encoder s) (ws_asn_encoder s) (ws_stake_encoder s) (features_of s w) with Ok l => l | _ => [] end.

Arguments balls_of : simpl never.

(** Two selectors that differ at most in what the cache of features remembers. *)
Definition same_but_cache s s' : Prop :=
  ws_reputation s' = ws_reputation s /\ ws_escrow s' = ws_escrow s /\ ws_performance s' = ws_performance s /\ ws_config s' = ws_config s /\
  forall w, balls_of s' w = balls_of s w.

Lemma same_but_cache_refl s : same_but_cache s s.
Proof. by repeat split. Qed.
Lemma same_but_cache_trans s1 s2 s3 : same_but_cache s1 s2 -> same_but_cache s2 s3 -> same_but_cache s1 s3.
Proof. intros (? & ? & ? & ? & Hb1) (? & ? & ? & ? & Hb2). split_and!; congruence. Qed.

Lemma balls_of_distinct s w : NoDup (balls_of s w).
Proof.
  unfold balls_of. destruct (axis_balls_total blake3 (ws_region_encoder s) (ws_asn_encoder s) (ws_stake_encoder s) (features_of s w)) as (b1 & b2 & b3 & ->).
  repeat constructor; rewrite ?elem_of_cons, ?elem_of_nil; naive_solver.
Qed.

Lemma get_axis_balls_eq w s : exists s', get_worker_axis_balls blake3 w s = (Ok (balls_of s w), s') /\ same_but_cache s s'.
Proof.
  unfold get_worker_axis_balls, get_worker_features.
  assert (forall s', ws_region_encoder s' = ws_region_encoder s -> ws_asn_encoder s' = ws_asn_encoder s -> ws_stake_encoder s' = ws_stake_encoder s ->
    axis_balls_of blake3 (ws_region_encoder s') (ws_asn_encoder s') (ws_stake_encoder s') (features_of s w) = Ok (balls_of s w)) as Hb.
  { intros s' -> -> ->. unfold balls_of.
    by destruct (axis_balls_total blake3 (ws_region_encoder s) (ws_asn_encoder s) (ws_stake_encoder s) (features_of s w)) as (? & ? & ? & ->). }
  unfold mbind, M_bind, mread, mret, M_ret, mwrite, mresult. unfold features_of in Hb at 1. destruct (ws_features s !! w) as [f|] eqn:Ef; cbn.
  - exists s. simpl in Hb. rewrite Hb by done. split; [done|apply same_but_cache_refl].
  - simpl in Hb. eexists. rewrite Hb by done. split; [done|]. split_and!; try done. intros w'. unfold balls_of, features_of. cbn [ws_region_encoder ws_asn_encoder ws_stake_encoder ws_features with_features].
    destruct (decide (w' = w)) as [->|]; [by rewrite lookup_insert_eq, Ef|by rewrite lookup_insert_ne by done].
Qed.

(** ** The choice *)

Section choice.
Context (balls : PublicKey -> list AxisBall) (Hnd : forall w, NoDup (balls w)) (config : WorkerSelectionConfig) (wanted : nat).

Definition in_ball (b : AxisBall) (w : EligibleWorker) : bool := bool_decide (b ∈ balls (ew_worker w)).
(** How many of the workers are in the ball [b]. *)
Definition ball_count (b : AxisBall) (l : list EligibleWorker) : nat := length (List.filter (in_ball b) l).
Definition full (b : AxisBall) (l : list EligibleWorker) : Prop := (max_workers_per_axis_ball config <= ball_count b l)%nat.
Definition blocked (l : list EligibleWorker) (w : EligibleWorker) : Prop := exists b, b ∈ balls (ew_worker w) /\ full b l.
Definition diverse (l : list EligibleWorker) : Prop := forall b, (ball_count b l <= max_workers_per_axis_ball config)%nat.

Fixpoint pick (eligible selected : list EligibleWorker) (used : gmap AxisBall nat) : list EligibleWorker :=
  match eligible with
  | [] => selected
  | candidate :: rest =>
      if (wanted <=? length selected)%nat then selected
      else if require_axis_diversity config then
        if existsb (fun ball => (max_workers_per_axis_ball config <=? usage used ball)%nat) (balls (ew_worker candidate)) then pick rest selected used
        else pick rest (selected ++ [candidate]) (foldl add_usage used (balls (ew_worker candidate)))
      else pick rest (selected ++ [candidate]) used
  end.

Lemma ball_count_app b l w : ball_count b (l ++ [w]) = (ball_count b l + if in_ball b w then 1 else 0)%nat.
Proof. unfold ball_count. rewrite List.filter_app, length_app. simpl. by destruct (in_ball b w). Qed.

Lemma add_usages bs used b : NoDup bs -> usage (foldl add_usage used bs) b = (usage used b + if bool_decide (b ∈ bs) then 1 else 0)%nat.
Proof.
  intros Hb. revert used. induction Hb as [|c bs Hc Hb IH]; intros used; cbn [foldl].
  { rewrite bool_decide_eq_false_2 by apply not_elem_of_nil. lia. }
  rewrite IH. unfold usage at 1, add_usage. destruct (decide (c = b)) as [->|Hne].
  - rewrite lookup_insert_eq. simpl. rewrite (bool_decide_eq_false_2 (b ∈ bs)) by done. rewrite bool_decide_eq_true_2 by by left. unfold usage. lia.
  - rewrite lookup_insert_ne by done. fold (usage used b). rewrite (bool_decide_ext (b ∈ c :: bs) (b ∈ bs)); [done|]. rewrite elem_of_cons. naive_solver.
Qed.

Definition counted (selected : list EligibleWorker) (used : gmap AxisBall nat) : Prop := forall b, usage used b = ball_count b selected.

(** Whoever is not taken, although a place is left, would be one too many in some ball. *)
Lemma pick_spec eligible selected used :
  counted selected used \/ require_axis_diversity config = false -> (length selected <= wanted)%nat ->
  (require_axis_diversity config = true -> diverse selected) ->
  exists l, pick eligible selected used = selected ++ l /\ sublist l eligible /\ (length (selected ++ l) <= wanted)%nat /\
    (require_axis_diversity config = true -> diverse (selected ++ l)) /\
    ((length (selected ++ l) < wanted)%nat -> forall w, w ∈ eligible -> w ∈ l \/ require_axis_diversity config = true /\ blocked (selected ++ l) w).
Proof.
  revert selected used. induction eligible as [|c rest IH]; intros selected used Hc Hlen Hdiv; simpl.
  { exists []. rewrite app_nil_r. split_and!; try done. intros _ w []%elem_of_nil. }
  destruct (wanted <=? length selected)%nat eqn:Ew; zbool.
  { exists []. rewrite app_nil_r. split_and!; try done; [apply sublist_nil_l|lia]. }
  assert (forall used', counted (selected ++ [c]) used' \/ require_axis_diversity config = false ->
    (require_axis_diversity config = true -> diverse (selected ++ [c])) ->
    exists l, pick rest (selected ++ [c]) used' = selected ++ l /\ sublist l (c :: rest) /\ (length (selected ++ l) <= wanted)%nat /\
      (require_axis_diversity config = true -> diverse (selected ++ l)) /\
      ((length (selected ++ l) < wanted)%nat -> forall w, w ∈ c :: rest -> w ∈ l \/ require_axis_diversity config = true /\ blocked (selected ++ l) w)) as Htake.
  { intros used' Hc' Hdiv'. destruct (IH (selected ++ [c]) used') as (l & Hp & Hsub & Hl & Hd & Hb); [done|rewrite length_app; simpl; lia|done|].
    exists (c :: l). rewrite <-app_assoc in *. simpl in *. split_and!; try done; [by constructor|].
    intros Hlt w [->|Hw]%elem_of_cons; [left; by left|]. destruct (Hb Hlt w Hw); [left; by right|by right]. }
  destruct (require_axis_diversity config) eqn:Ediv; [|apply Htake; [by right|done]].
  destruct Hc as [Hc|]; [|done]. destruct (existsb _ _) eqn:Ex.
  - destruct (IH selected used (or_introl Hc) Hlen Hdiv) as (l & Hp & Hsub & Hl & Hd & Hb). exists l. split_and!; try done; [by constructor|].
    intros Hlt w [->|Hw]%elem_of_cons; [|by apply Hb]. right. split; [done|].
    apply existsb_exists in Ex as (b & Hb1%list_elem_of_In & Hb2%Nat.leb_le). exists b. split; [done|]. unfold full. rewrite Hc in Hb2.
    unfold ball_count in *. rewrite List.filter_app, length_app. lia.
  - assert (forall b, b ∈ balls (ew_worker c) -> (ball_count b selected < max_workers_per_axis_ball config)%nat) as Hroom.
    { intros b Hb. rewrite <-Hc. apply Nat.leb_gt. apply not_true_iff_false. intros Ht. apply not_true_iff_false in Ex. apply Ex, existsb_exists.
      exists b. split; [by apply list_elem_of_In|done]. }
    apply Htake.
    + left. intros b. rewrite add_usages, Hc, ball_count_app by done. done.
    + intros _ b. rewrite ball_count_app. unfold in_ball. case_bool_decide as Hb; [specialize (Hroom b Hb); lia|]. specialize (Hdiv eq_refl b). lia.
Qed.
End choice.

Lemma pick_workers_eq config wanted eligible selected used s :
  exists s', pick_workers blake3 config wanted eligible selected used s = (Ok (pick (balls_of s) config wanted eligible selected used), s') /\
    same_but_cache s s'.
Proof.
  revert selected used s. induction eligible as [|c rest IH]; intros selected used s; cbn [pick pick_workers]; [exists s; split; [done|apply same_but_cache_refl]|].
  destruct (wanted <=? length selected)%nat; [exists s; split; [done|apply same_but_cache_refl]|].
  destruct (require_axis_diversity config); [|apply IH].
  destruct (get_axis_balls_eq (ew_worker c) s) as (s1 & Hg & Hs1). rewrite (M_bind_Ok _ _ s (balls_of s (ew_worker c)) s1) by done.
  assert (forall e sel u, pick (balls_of s1) config wanted e sel u = pick (balls_of s) config wanted e sel u) as Hp.
  { destruct Hs1 as (_ & _ & _ & _ & Hb). induction e as [|x e IHe]; intros sel u; cbn [pick]; [done|]. by rewrite !IHe, Hb. }
  destruct (existsb _ _).
  - destruct (IH selected used s1) as (s2 & Hr & Hs2). exists s2. rewrite Hr, Hp. split; [done|by eapply same_but_cache_trans].
  - destruct (IH (selected ++ [c]) (foldl add_usage used (balls_of s (ew_worker c))) s1) as (s2 & Hr & Hs2).
    exists s2. rewrite Hr, Hp. split; [done|by eapply same_but_cache_trans].
Qed.
Lemma sort_by_score_perm l l' : (forall k k', nan_order k = Ok k' -> k' ≡ₚ k) -> sort_by_score nan_order l = Ok l' -> l' ≡ₚ l.
Proof. intros Hn. unfold sort_by_score. case_match; [apply Hn|]. intros [= <-]. apply isort_Permutation. Qed.

Lemma ranked_workers s t epoch (l : list PublicKey) : ew_worker <$> (rank_worker blake3 s t epoch <$> l) = l.
Proof. induction l as [|w l IH]; [done|]. by rewrite !fmap_cons, IH. Qed.

(** What a selection among the ranked workers [ranked] is. *)
Definition chosen s (t : Task) (ranked sel : list EligibleWorker) : Prop :=
  sublist sel ranked /\ (length sel <= Z.to_nat (tk_worker_count t))%nat /\
  (require_axis_diversity (ws_config s) = true -> diverse (balls_of s) (ws_config s) sel) /\
  ((length sel < Z.to_nat (tk_worker_count t))%nat ->
   forall w, w ∈ ranked -> w ∈ sel \/ require_axis_diversity (ws_config s) = true /\ blocked (balls_of s) (ws_config s) sel w).

Lemma vrf_select_eq t eligible ranked s :
  sort_by_score nan_order eligible = Ok ranked ->
  exists sel s', chosen s t ranked sel /\ same_but_cache s s' /\
    if (length sel <? Z.to_nat (tk_worker_count t))%nat then is_err (vrf_select_workers blake3 nan_order t eligible s).1 = true /\
      (vrf_select_workers blake3 nan_order t eligible s).2 = s'
    else vrf_select_workers blake3 nan_order t eligible s = (Ok sel, s').
Proof.
  intros Hsort. destruct (pick_workers_eq (ws_config s) (Z.to_nat (tk_worker_count t)) ranked [] ∅ s) as (s' & Hp & Hs').
  destruct (pick_spec (balls_of s) (balls_of_distinct s) (ws_config s) (Z.to_nat (tk_worker_count t)) ranked [] ∅) as (sel & He & Hc).
  { left. intros b. unfold usage. by rewrite lookup_empty. }
  { simpl. lia. }
  { intros _ b. unfold ball_count. simpl. lia. }
  rewrite He in Hp. simpl in Hp, Hc. exists sel, s'. split; [exact Hc|]. split; [done|].
  unfold vrf_select_workers, mbind, M_bind, mresult, mread. rewrite Hsort, Hp. unfold mbail. by destruct (_ <? _)%nat.
Qed.

(** ** Collateral *)

Definition ledger (em : EscrowManager St) : Prop :=
  coherent (em_balances em) /\ forall a, 0 <= held (em_balances em) a <= bal (em_balances em) a /\ bal (em_balances em) a <= MAX_SUPPLY.

Lemma lock_taken ty amount epoch em id em' :
  ledger em -> 0 <= amount -> escrow_lock now hex ty amount epoch em = (Ok id, em') ->
  id = to_lock_id hex ty /\ em_locks em' = <[id := mkLock ty amount epoch (escrow_owner ty)]> (em_locks em) /\ ledger em' /\
  same_balances (em_balances em) (em_balances em') /\
  forall a, held (em_balances em') a = held (em_balances em) a + if decide (a = escrow_owner ty) then amount else 0.
Proof.
  intros [Hc Hl] Ha Hrun. pose proof (Hl (escrow_owner ty)) as [Hh Hm].
  destruct (decide (held (em_balances em) (escrow_owner ty) + amount <= bal (em_balances em) (escrow_owner ty))) as [Hle|Hgt].
  - destruct (escrow_lock_ok now hex ty amount epoch em Hc) as (em1 & Hr & Hlocks & Hc1 & Hb & _ & Hheld); [unfold can_lock; split_and!; lia|].
    rewrite Hrun in Hr. simplify_eq. split; [done|]. split; [done|]. split; [|by split].
    split; [done|]. intros a. rewrite Hb, Hheld. specialize (Hl a). case_decide; [subst|]; lia.
  - destruct (escrow_lock_refused now hex ty amount epoch em Hc) as [He _]; [amount_unfold; lia|]. by rewrite Hrun in He.
Qed.

Definition owned_by (a : AccountAddress) (w : EligibleWorker) : Z := if decide (a = worker_address blake3 w) then 1 else 0.

Lemma lock_collaterals_ok t amount epoch sel : forall index s l s',
  ledger (ws_escrow s) -> 0 <= amount -> lock_collaterals now blake3 hex t amount epoch index sel s = (Ok l, s') ->
  wa_worker <$> l = ew_worker <$> sel /\ ledger (ws_escrow s') /\ same_balances (em_balances (ws_escrow s)) (em_balances (ws_escrow s')) /\
  (forall a, held (em_balances (ws_escrow s')) a = held (em_balances (ws_escrow s)) a + amount * zsum (owned_by a) sel) /\
  (forall i x, l !! i = Some x -> wa_task_id x = tk_task_id t /\ wa_worker_index x = to_u8 (Z.of_nat (index + i)) /\ exists id md,
     wa_collateral_lock_id x = Some id /\ em_locks (ws_escrow s') !! id = Some md /\ lk_amount md = amount) /\
  (forall id md, em_locks (ws_escrow s) !! id = Some md -> lk_amount md = amount -> exists md', em_locks (ws_escrow s') !! id = Some md' /\ lk_amount md' = amount).
Proof.
  induction sel as [|w sel IH]; intros index s l s' Hl Ha Hrun; cbn [lock_collaterals] in Hrun.
  { injection Hrun as <- <-. split_and!; try done; [intros a; simpl; lia|]. naive_solver. }
  apply M_bind_inv in Hrun as (id & s1 & H1 & Hrun). apply M_bind_inv in Hrun as (as' & s2 & H2 & Hrun). injection Hrun as <- <-.
  unfold on_ws_escrow, mmap_err, mzoom in H1. destruct (escrow_lock _ _ _ _ _ _) as [[id'|e|] em1] eqn:El; simplify_eq.
  apply lock_taken in El as (-> & Hlocks & Hl1 & Hb1 & Hh1); [|done..].
  apply IH in H2 as (Hw & Hl2 & Hb2 & Hh2 & Hx & Hkeep); [|done..]. cbn [ws_escrow with_ws_escrow escrow_owner] in *.
  split_and!; try done.
  - by rewrite !fmap_cons, Hw.
  - intros a. by rewrite Hb2, Hb1.
  - intros a. rewrite Hh2, Hh1, zsum_cons. unfold owned_by at 2. case_decide; lia.
  - intros [|i] x Hix; simpl in Hix.
    + simplify_eq. split_and!; [done|by rewrite Nat.add_0_r|]. eexists. destruct (Hkeep (to_lock_id hex (PoUWDeposit (tk_task_id t) (worker_address blake3 w))) (mkLock (PoUWDeposit (tk_task_id t) (worker_address blake3 w)) amount epoch (worker_address blake3 w))) as (md & Hmd & Ham); [by rewrite Hlocks, lookup_insert_eq|done|].
      by exists md.
    + apply Hx in Hix. by replace (index + S i)%nat with (S index + i)%nat by lia.
  - intros id md Hid Hmd. destruct (decide (id = to_lock_id hex (PoUWDeposit (tk_task_id t) (worker_address blake3 w)))) as [->|Hne].
    + eapply Hkeep; [by rewrite Hlocks, lookup_insert_eq|done].
    + apply (Hkeep id md); [by rewrite Hlocks, lookup_insert_ne|done].
Qed.

(** C15: A selection is made of as many workers as the task wants, taken among the eligible candidates
    in the order of their scores; when diversity is required no axis ball holds more of them than the
    limit.  Exactly the collateral of each is locked for it and recorded in its assignment, and no
    balance changes.  With too few eligible candidates the selection is refused without any effect. *)
Theorem select_workers_correct t candidates epoch s :
  (forall k k', nan_order k = Ok k' -> k' ≡ₚ k) -> ledger (ws_escrow s) -> 0 <= tk_worker_count t ->
  (forall l s', select_workers now blake3 hex nan_order t candidates epoch s = (Ok l, s') ->
   exists ranked sel amount, ranked ≡ₚ filter_eligible_workers blake3 t candidates epoch s /\ chosen s t ranked sel /\
     wa_worker <$> l = ew_worker <$> sel /\ Z.of_nat (length l) = tk_worker_count t /\ (wa_worker <$> l) ⊆+ candidates /\
     Forall (fun w => is_eligible s t w = true) (wa_worker <$> l) /\
     per_worker_collateral (ws_config s) t = Ok amount /\
     same_balances (em_balances (ws_escrow s)) (em_balances (ws_escrow s')) /\
     (forall a, held (em_balances (ws_escrow s')) a = held (em_balances (ws_escrow s)) a + amount * zsum (owned_by a) sel) /\
     (forall i x, l !! i = Some x -> wa_task_id x = tk_task_id t /\ wa_worker_index x = to_u8 (Z.of_nat i) /\ exists id md,
        wa_collateral_lock_id x = Some id /\ em_locks (ws_escrow s') !! id = Some md /\ lk_amount md = amount)) /\
  (Z.of_nat (length (List.filter (is_eligible s t) candidates)) < tk_worker_count t ->
   exists e, select_workers now blake3 hex nan_order t candidates epoch s = (Err e, s)).
Proof.
  intros Hn Hl Hwc. split.
  - intros l s' Hrun. unfold select_workers in Hrun. apply M_bind_inv in Hrun as (eligible & s0 & [= <- <-] & Hrun).
    apply M_bind_inv in Hrun as ([] & s0 & Hb & Hrun). unfold mbail in Hb. destruct (_ <? _); [done|]. injection Hb as <-.
    apply M_bind_inv in Hrun as (sel & s1 & Hv & Hrun). set (eligible := filter_eligible_workers blake3 t candidates epoch s) in *.
    destruct (sort_by_score nan_order eligible) as [ranked|e|] eqn:Es; [|unfold vrf_select_workers, mbind, M_bind, mresult in Hv; by rewrite Es in Hv..].
    destruct (vrf_select_eq t eligible ranked s Es) as (sel' & s1' & Hc & Hs1 & Hsel). destruct (_ <? _)%nat eqn:E; [destruct Hsel as [He _]; by rewrite Hv in He|].
    rewrite Hv in Hsel. simplify_eq. zbool. destruct Hs1 as (_ & Hes & _ & Hcf & _).
    unfold escrow_worker_collateral in Hrun. apply M_bind_inv in Hrun as (cfg & s2 & [= <- <-] & Hrun).
    apply M_bind_inv in Hrun as (amount & s2 & Ham & Hrun). unfold mresult in Ham. injection Ham as Ham <-. rewrite Hcf in Ham.
    assert (0 <= amount) as Hpos.
    { unfold per_worker_collateral, div_by in Ham. destruct (_ =? _) eqn:E0; zbool; [done|]. injection Ham as <-. apply Z.div_pos; [|lia].
      unfold f64_to_u64. apply f64_to_uint_range. unfold u64_max. lia. }
    apply lock_collaterals_ok in Hrun as (Hw & _ & Hsb & Hheld & Hx & _); [|by rewrite Hes|done]. rewrite Hes in *.
    pose proof (sort_by_score_perm _ _ Hn Es) as Hperm. exists ranked, sel', amount.
    assert ((ew_worker <$> sel') ⊆+ List.filter (is_eligible s t) candidates) as Hsub.
    { destruct Hc as (Hsub & _). apply sublist_submseteq in Hsub. rewrite Hperm in Hsub. apply (fmap_submseteq ew_worker) in Hsub. subst eligible.
      unfold filter_eligible_workers in Hsub. by rewrite ranked_workers in Hsub. }
    assert (forall w, w ∈ wa_worker <$> l -> w ∈ List.filter (is_eligible s t) candidates) as Hin.
    { intros w. rewrite Hw. intros Hw'. by eapply elem_of_submseteq. }
    split_and!; try done.
    + rewrite <-(length_fmap wa_worker l), Hw, length_fmap. destruct Hc as (_ & Hlen & _). lia.
    + rewrite Hw. etrans; [done|]. rewrite list_filter_bool. apply sublist_submseteq, sublist_filter.
    + apply Forall_forall. intros w Hw'%Hin. by apply list_elem_of_In, List.filter_In in Hw' as [_ ?].
  - intros Hlt. unfold select_workers. rewrite (M_bind_Ok _ _ s (filter_eligible_workers blake3 t candidates epoch s) s) by done.
    unfold mbail. replace (_ <? _) with true; [by eexists|]. symmetry. apply Z.ltb_lt. unfold filter_eligible_workers. by rewrite length_fmap.
Qed.
End facts.

(** ** Instances *)

Definition funded : EscrowManager MemoryStorage :=
  escrow_new (balances_new (mkMemory (mkAccounts (<[alice := 100]> (<[bob := 100]> {[carol := 5]})) ∅ ∅) None [])).

Lemma funded_ledger : ledger funded.
Proof.
  split; [apply coherent_decide; by vm_compute|]. intros a. change (held (em_balances funded) a) with 0.
  assert (map_Forall (fun _ b => 0 <= b <= MAX_SUPPLY) (<[alice := 100]> (<[bob := 100]> {[carol := 5]}) : gmap AccountAddress Z)) as H.
  { apply (bool_decide_unpack _). by vm_compute. }
  change (bal (em_balances funded) a) with (default 0 ((<[alice := 100]> (<[bob := 100]> {[carol := 5]}) : gmap AccountAddress Z) !! a)).
  destruct (_ !! a) as [b|] eqn:E; [specialize (H a b E); simpl in *; lia|unfold MAX_SUPPLY, ADIC_BASE_UNIT; simpl; lia].
Qed.

Definition easy_config : WorkerSelectionConfig := mkSelectionConfig (f64_lit 1 2) (f64_lit 1 2) true 2 (f64_lit 3 10) 3.
Definition demo_selector : WorkerSelector MemoryStorage := selector_new tracker_default funded easy_config.
Definition no_nan (l : list EligibleWorker) : result PoUWError (list EligibleWorker) := Panic.
Definition pair_task : Task := demo_task demo_id alice 40 2.

Lemma select_workers_correct_witness :
  exists l s', select_workers 0 no_hash hex_encode no_nan pair_task [alice; bob] 1 demo_selector = (Ok l, s') /\
    (wa_worker <$> l) ⊆+ [alice; bob] /\ length l = 2%nat /\ held (em_balances (ws_escrow s')) bob = 10.
Proof.
  destruct (select_workers_correct 0 no_hash hex_encode no_nan pair_task [alice; bob] 1 demo_selector) as [H _]; [done|apply funded_ledger|done|].
  destruct (select_workers 0 no_hash hex_encode no_nan pair_task [alice; bob] 1 demo_selector) as [[l|e|] s'] eqn:E;
    [|exfalso; apply (f_equal (fun r => match r.1 with Ok _ => true | _ => false end)) in E; vm_compute in E; discriminate..].
  destruct (H l s' eq_refl) as (ranked & sel & amount & _ & _ & _ & Hlen & Hsub & _).
  exists l, s'. split; [done|]. split; [done|]. split; [simpl in Hlen; lia|].
  apply (f_equal (fun r => held (em_balances (ws_escrow r.2)) bob)) in E. simpl in E. rewrite <-E. vm_compute. reflexivity.
Defined.

(** When the last worker cannot cover its collateral the selection fails, and the collaterals taken
    before stay locked: no assignment names them, and the next attempt locks as much again under the
    same id, so that a refund would return only the last one. *)
Theorem failed_selection_keeps_collateral :
  let attempt := select_workers 0 no_hash hex_encode no_nan pair_task [bob; carol] 1 in
  let (r1, s1) := attempt demo_selector in
  let (r2, s2) := attempt s1 in
  let id := to_lock_id hex_encode (PoUWDeposit demo_id bob) in
  is_err r1 = true /\ held (em_balances (ws_escrow s1)) bob = 10 /\ is_err r2 = true /\ held (em_balances (ws_escrow s2)) bob = 20 /\
  held (em_balances (escrow_refund id (ws_escrow s2)).2) bob = 10.
Proof. vm_compute. repeat split. Qed.

(** The bar for workers is above every reputation that the consensus layer gives: once a message of a
    worker is finalized the default configuration never selects it. *)
Theorem finalized_worker_ineligible {St} `{!EconomicsStorage St} at_time w diversity depth t rep (s : WorkerSelector St) :
  ws_config s = selection_config_default ->
  ws_reputation s = good_update at_time w diversity depth rep -> is_eligible s t w = false.
Proof.
  intros Hc Hr. unfold is_eligible. rewrite Hc, Hr. unfold good_update. rewrite entry_value.
  rewrite (f64_leb_ltb_trans _ rep_cap); [done|by apply f64_min_le_r|by vm_compute].
Qed.
