(* ===== verification/Rewards.v ===== *)
(** * Rewards and reputations of workers

    [adic-pouw/src/rewards.rs] and [reputation.rs]: what a completed task gives to its workers and
    validators and what is slashed, both recorded only; and the multiplicative updates of a worker's
    reputation, which share the tracker of the consensus layer.  [reward_iter] and [slash_iter] are the
    iterators of the two histories. *)

From S2P Require Import Prelude F64 Message Encoders Amount EconStorage Balance Lock Reputation Escrow Voting Application TaskTypes.

Record RewardConfig := mkRewardConfig {
  base_reward_percentage : f64;
  max_quality_bonus : f64;
  max_speed_bonus : f64;
  validator_reward_percentage : f64;
  enable_vesting : bool;
  vesting_threshold : AdicAmount;
  vesting_duration_epochs : Z;
}.
Definition reward_config_default : RewardConfig :=
  mkRewardConfig (f64_lit 7 10) (f64_lit 2 10) (f64_lit 1 10) (f64_lit 5 100) true (from_adic (f64_of_Z 1000)) 100.

Record RewardManager (St : Type) := mkRewards {
  rm_escrow : EscrowManager St;
  rm_config : RewardConfig;
  rm_reward_history : gmap TaskId (list RewardDistribution);
  rm_slashing_history : gmap TaskId (list SlashingEvent);
}.
Arguments mkRewards {St}.
Arguments rm_escrow {St}.
Arguments rm_config {St}.
Arguments rm_reward_history {St}.
Arguments rm_slashing_history {St}.

Definition reward_manager_new {St} (escrow : EscrowManager St) (config : RewardConfig) : RewardManager St := mkRewards escrow config ∅ ∅.

Record RewardStats := mkRewardStats {
  total_tasks_rewarded : Z;
  total_tasks_slashed : Z;
  rs_total_rewards_distributed : AdicAmount;
  total_collateral_slashed : AdicAmount;
}.

(** A worker with its quality score and speed ratio. *)
Abbreviation RatedWorker := (PublicKey * f64 * f64)%type.

(** [a / b] of unsigned integers with [b = max(_, 1)]. *)
Definition equal_share (total : Z) (n : nat) : Z := total / Z.max (Z.of_nat n) 1.

Section rewards.
Context {St : Type} `{!EconomicsStorage St}.
Context (now : Z) (digest : Bytes -> string).
Context (reward_iter : gmap TaskId (list RewardDistribution) -> list (TaskId * list RewardDistribution)).
Context (slash_iter : gmap TaskId (list SlashingEvent) -> list (TaskId * list SlashingEvent)).
Abbreviation RM := (RewardManager St).
Abbreviation RMM := (M RM PoUWError).
Implicit Types s : RM.

Definition create_vesting_schedule (config : RewardConfig) (amount : AdicAmount) (start_epoch : Z) : result PoUWError (option VestingSchedule) :=
  if negb (enable_vesting config) then Ok None
  else if amount <? vesting_threshold config then Ok None
  else
    let duration := vesting_duration_epochs config in
    let? vested_per_epoch_base := div_by amount duration in
    Ok (Some (mkVesting amount vested_per_epoch_base start_epoch duration)).

Definition base_amount (config : RewardConfig) (per_worker_base : Z) : Z :=
  f64_to_u64 (f64_mul (f64_of_Z per_worker_base) (base_reward_percentage config)).
Definition quality_bonus (config : RewardConfig) (per_worker_base : Z) (quality_score : f64) : Z :=
  f64_to_u64 (f64_mul (f64_mul (f64_of_Z per_worker_base) (max_quality_bonus config)) (f64_clamp (f64_of_Z 0) (f64_of_Z 1) quality_score)).
Definition speed_bonus (config : RewardConfig) (per_worker_base : Z) (speed_ratio : f64) : Z :=
  f64_to_u64 (f64_mul (f64_mul (f64_of_Z per_worker_base) (max_speed_bonus config))
    (f64_max (f64_sub (f64_min speed_ratio (f64_of_Z 2)) (f64_of_Z 1)) (f64_of_Z 0))).

(** The distributions of one worker. *)
Definition worker_rewards (config : RewardConfig) (per_worker_base current_epoch : Z) (w : RatedWorker) : result PoUWError (list RewardDistribution) :=
  let '(worker, quality_score, speed_ratio) := w in
  let quality := quality_bonus config per_worker_base quality_score in
  let speed := speed_bonus config per_worker_base speed_ratio in
  let? quality_part :=
    (if 0 <? quality then
       let? vesting := create_vesting_schedule config quality current_epoch in Ok [mkDistribution worker quality QualityBonus vesting]
     else Ok []) in
  Ok (mkDistribution worker (base_amount config per_worker_base) BaseReward None ::
      quality_part ++ if 0 <? speed then [mkDistribution worker speed SpeedBonus None] else []).

Fixpoint all_worker_rewards (config : RewardConfig) (per_worker_base current_epoch : Z) (workers : list RatedWorker) : result PoUWError (list RewardDistribution) :=
  match workers with
  | [] => Ok []
  | w :: workers =>
      let? ds := worker_rewards config per_worker_base current_epoch w in
      let? rest := all_worker_rewards config per_worker_base current_epoch workers in
      Ok (ds ++ rest)
  end.

Definition validator_total (config : RewardConfig) (total_reward : AdicAmount) : Z :=
  f64_to_u64 (f64_mul (f64_of_Z total_reward) (validator_reward_percentage config)).
Definition worker_pool (config : RewardConfig) (total_reward : AdicAmount) : Z :=
  f64_to_u64 (f64_mul (f64_of_Z total_reward) (f64_sub (f64_of_Z 1) (validator_reward_percentage config))).
Definition validator_rewards (per_validator : Z) (validators : list PublicKey) : list RewardDistribution :=
  (fun v => mkDistribution v per_validator ValidationReward None) <$> validators.

Definition with_reward_history f s : RM := mkRewards (rm_escrow s) (rm_config s) (f (rm_reward_history s)) (rm_slashing_history s).
Definition with_slashing_history f s : RM := mkRewards (rm_escrow s) (rm_config s) (rm_reward_history s) (f (rm_slashing_history s)).
Definition with_rm_escrow (em : EscrowManager St) s : RM := mkRewards em (rm_config s) (rm_reward_history s) (rm_slashing_history s).

Definition distribute_rewards (task_id : TaskId) (total_reward : AdicAmount) (workers : list RatedWorker) (validators : list PublicKey)
    (current_epoch : Z) : RMM (list RewardDistribution) :=
  config ← mread rm_config;
  worker_part ← mresult (all_worker_rewards config (equal_share (worker_pool config total_reward) (length workers)) current_epoch workers);
  let distributions := worker_part ++ validator_rewards (equal_share (validator_total config total_reward) (length validators)) validators in
  mwrite (with_reward_history (insert task_id distributions));;
  mret distributions.

Definition slash_collateral (task_id : TaskId) (slashed_account : PublicKey) (collateral_amount : AdicAmount) (reason : SlashingReason)
    (evidence_hash : Hash) (beneficiary : option PublicKey) : RMM SlashingEvent :=
  let event := mkSlashing slashed_account collateral_amount reason evidence_hash beneficiary in
  mwrite (with_slashing_history (fun h => <[task_id := default [] (h !! task_id) ++ [event]]> h));;
  mret event.

Definition release_collateral (lock_id : LockId) (to : AccountAddress) : RMM unit :=
  mmap_err EscrowRefused (mzoom rm_escrow with_rm_escrow (escrow_release now digest lock_id to)).

Definition get_task_rewards (task_id : TaskId) s : list RewardDistribution := default [] (rm_reward_history s !! task_id).
Definition get_task_slashing (task_id : TaskId) s : list SlashingEvent := default [] (rm_slashing_history s !! task_id).
(** A plain [+=] on [u64]. *)
Definition wrapping_sum (l : list Z) : Z := foldl (fun acc a => to_u64 (acc + a)) 0 l.
Definition reward_get_stats s : RewardStats :=
  mkRewardStats (Z.of_nat (size (rm_reward_history s))) (Z.of_nat (size (rm_slashing_history s)))
    (wrapping_sum (rd_amount <$> concat (reward_iter (rm_reward_history s)).*2))
    (wrapping_sum (sl_amount <$> concat (slash_iter (rm_slashing_history s)).*2)).
End rewards.

(** ** Reputation *)

Record ReputationConfig := mkReputationConfig {
  acceptance_multiplier : f64;
  rejection_multiplier : f64;
  max_delta_per_epoch : f64;
  min_reputation : f64;
  speed_weight : f64;
  correctness_weight : f64;
  challenge_resistance_weight : f64;
}.
Definition reputation_config_default : ReputationConfig :=
  mkReputationConfig (f64_lit 1 10) (f64_lit 2 10) (f64_of_Z 100) (f64_of_Z 10) (f64_lit 2 10) (f64_lit 5 10) (f64_lit 3 10).

Record EpochReputationTracking := mkTracking { et_total_delta : f64; et_num_updates : Z; et_last_epoch : Z }.
Definition tracking_default : EpochReputationTracking := mkTracking f64_zero 0 0.

Record EpochReputationStats := mkEpochStats { es_total_delta : f64; es_num_updates : Z; es_remaining_budget : f64; es_epoch : Z }.

Record PoUWReputationManager := mkWorkReputation {
  pr_tracker : ReputationTracker;
  pr_config : ReputationConfig;
  pr_epoch_updates : gmap PublicKey EpochReputationTracking;
}.
Definition work_reputation_new (tracker : ReputationTracker) (config : ReputationConfig) : PoUWReputationManager := mkWorkReputation tracker config ∅.

(** [f64::signum]. *)
Definition f64_signum (x : f64) : f64 := if is_nan x then x else if f64_sign x then f64_of_Z (-1) else f64_of_Z 1.

Abbreviation PM := (M PoUWReputationManager PoUWError).

Definition with_tracker (t : ReputationTracker) (s : PoUWReputationManager) : PoUWReputationManager :=
  mkWorkReputation t (pr_config s) (pr_epoch_updates s).
Definition with_epoch_updates f (s : PoUWReputationManager) : PoUWReputationManager :=
  mkWorkReputation (pr_tracker s) (pr_config s) (f (pr_epoch_updates s)).

(** The entry of the account, started anew when the epoch is a later one. *)
Definition tracking_at (account : PublicKey) (current_epoch : Z) (s : PoUWReputationManager) : EpochReputationTracking :=
  let tracking := default tracking_default (pr_epoch_updates s !! account) in
  if et_last_epoch tracking <? current_epoch then mkTracking f64_zero 0 current_epoch else tracking.

Definition cap_delta (remaining delta : f64) : f64 :=
  if f64_gtb (f64_abs delta) remaining then f64_mul remaining (f64_signum delta) else delta.

Definition apply_epoch_cap (account : PublicKey) (delta : f64) (current_epoch : Z) : PM f64 :=
  tracking ← mread (tracking_at account current_epoch);
  config ← mread pr_config;
  let remaining := f64_sub (max_delta_per_epoch config) (f64_abs (et_total_delta tracking)) in
  if f64_leb remaining f64_zero then mwrite (with_epoch_updates (insert account tracking));; mret f64_zero
  else
    let capped_delta := cap_delta remaining delta in
    mwrite (with_epoch_updates (insert account
      (mkTracking (f64_add (et_total_delta tracking) capped_delta) (to_u64 (et_num_updates tracking + 1)) (et_last_epoch tracking))));;
    mret capped_delta.

(** What an outcome means before the cap: the change, and why. *)
Definition raw_change (config : ReputationConfig) (outcome : TaskOutcome) (quality_score severity old : f64) : f64 * ReputationChangeReason :=
  match outcome with
  | Success =>
      let quality := f64_clamp (f64_of_Z 0) (f64_of_Z 1) quality_score in
      (f64_mul (f64_mul old (acceptance_multiplier config)) quality, WorkAccepted quality)
  | Failure | PartialSuccess =>
      let sev := f64_clamp (f64_of_Z 0) (f64_of_Z 1) severity in
      (f64_neg (f64_mul (f64_mul old (rejection_multiplier config)) sev), WorkRejected sev)
  | OutcomeSlashed => (f64_neg (f64_mul (f64_mul old (rejection_multiplier config)) (f64_of_Z 2)), FraudDetected)
  | OutcomeExpired => (f64_neg (f64_mul (f64_mul old (rejection_multiplier config)) (f64_lit 1 2)), DeadlineMissed)
  end.

(** The capped change, the floor, and the write to the shared tracker. *)
Definition change_reputation (now : Z) (account : PublicKey) (old delta : f64) (current_epoch : Z) : PM f64 :=
  capped_delta ← apply_epoch_cap account delta current_epoch;
  config ← mread pr_config;
  let final_reputation := f64_max (f64_add old capped_delta) (min_reputation config) in
  mwrite (fun s => with_tracker (set_reputation now account final_reputation (pr_tracker s)) s);;
  mret final_reputation.

Definition work_update_reputation (now : Z) (account : PublicKey) (outcome : TaskOutcome) (quality_score severity : f64) (current_epoch : Z) : PM ReputationUpdate :=
  old ← mread (fun s => get_reputation (pr_tracker s) account);
  config ← mread pr_config;
  let (delta, change_reason) := raw_change config outcome quality_score severity old in
  final ← change_reputation now account old delta current_epoch;
  mret (mkReputationUpdate account old final change_reason quality_score).

Definition update_validator_reputation (now : Z) (validator : PublicKey) (validation_correct : bool) (current_epoch : Z) : PM ReputationUpdate :=
  old ← mread (fun s => get_reputation (pr_tracker s) validator);
  let delta := if validation_correct then f64_mul old (f64_lit 2 100) else f64_neg (f64_mul old (f64_lit 5 100)) in
  final ← change_reputation now validator old delta current_epoch;
  mret (mkReputationUpdate validator old final (ValidationPerformed validation_correct) (if validation_correct then f64_of_Z 1 else f64_of_Z 0)).

Definition calculate_quality_score (config : ReputationConfig) (execution_time_ms expected_time_ms : Z) (validation_result : TaskVerdict) (disputed : bool) : f64 :=
  let speed_ratio := f64_div (f64_of_Z expected_time_ms) (f64_of_Z (Z.max execution_time_ms 1)) in
  let speed_score := f64_div (f64_min speed_ratio (f64_of_Z 2)) (f64_of_Z 2) in
  let correctness_score := match validation_result with Accepted => f64_of_Z 1 | Rejected => f64_of_Z 0 | Inconclusive => f64_lit 1 2 end in
  let challenge_score := if disputed then f64_of_Z 0 else f64_of_Z 1 in
  f64_clamp (f64_of_Z 0) (f64_of_Z 1)
    (f64_add (f64_add (f64_mul (speed_weight config) speed_score) (f64_mul (correctness_weight config) correctness_score))
       (f64_mul (challenge_resistance_weight config) challenge_score)).

Definition calculate_severity (failure_type : string) (impact_level : Z) : f64 :=
  let base_severity :=
    if bool_decide (failure_type = "incorrect_result") then f64_lit 8 10
    else if bool_decide (failure_type = "missed_deadline") then f64_lit 4 10
    else if bool_decide (failure_type = "resource_abuse") then f64_lit 6 10
    else if bool_decide (failure_type = "proof_invalid") then f64_lit 7 10
    else f64_lit 5 10 in
  let impact_multiplier := f64_div (f64_of_Z (Z.min impact_level 10)) (f64_of_Z 10) in
  f64_clamp (f64_of_Z 0) (f64_of_Z 1) (f64_mul base_severity impact_multiplier).

Definition get_epoch_stats (account : PublicKey) (s : PoUWReputationManager) : option EpochReputationStats :=
  (fun t => mkEpochStats (et_total_delta t) (et_num_updates t)
     (f64_sub (max_delta_per_epoch (pr_config s)) (f64_abs (et_total_delta t))) (et_last_epoch t)) <$> pr_epoch_updates s !! account.
Definition reset_epoch_tracking : PM unit := mwrite (with_epoch_updates (fun _ => ∅)).

(** ** What is distributed *)

Section facts.
Context {St : Type} `{!EconomicsStorage St}.
Implicit Types s : RewardManager St.

(** A schedule covers the amount but for less than one unit per epoch. *)
Definition vests (d : RewardDistribution) : Prop :=
  match rd_vesting_schedule d with
  | None => True
  | Some v => vs_total_amount v = rd_amount d /\ vs_vested_per_epoch v * vs_duration_epochs v <= rd_amount d /\
      rd_amount d < (vs_vested_per_epoch v + 1) * vs_duration_epochs v
  end.

Definition part_of (config : RewardConfig) (per_worker_base : Z) (w : RatedWorker) (ds : list RewardDistribution) : Prop :=
  Forall (fun d => rd_recipient d = w.1.1 /\ vests d) ds /\
  exists quality speed, ds = mkDistribution w.1.1 (base_amount config per_worker_base) BaseReward None :: quality ++ speed /\
    rd_amount <$> quality = (if 0 <? quality_bonus config per_worker_base w.1.2 then [quality_bonus config per_worker_base w.1.2] else []) /\
    rd_amount <$> speed = (if 0 <? speed_bonus config per_worker_base w.2 then [speed_bonus config per_worker_base w.2] else []) /\
    Forall (fun d => is_Some (rd_vesting_schedule d) <-> enable_vesting config = true /\ vesting_threshold config <= rd_amount d) quality.

Lemma worker_rewards_ok config per epoch w :
  (enable_vesting config = true -> 0 < vesting_duration_epochs config) ->
  exists ds, worker_rewards config per epoch w = Ok ds /\ part_of config per w ds.
Proof.
  intros Hd. destruct w as [[worker q] sp]. unfold worker_rewards, part_of. simpl.
  set (speed := if 0 <? speed_bonus config per sp then [mkDistribution worker (speed_bonus config per sp) SpeedBonus None] else []).
  assert (rd_amount <$> speed = if 0 <? speed_bonus config per sp then [speed_bonus config per sp] else []) as Hsp by (subst speed; by case_match).
  assert (Forall (fun d => rd_recipient d = worker /\ vests d) speed) as Hsv by (subst speed; case_match; repeat constructor).
  destruct (0 <? quality_bonus config per q) eqn:Eq; simpl.
  2: { eexists. split; [done|]. split; [by constructor|]. exists [], speed. by split_and!. }
  unfold create_vesting_schedule. destruct (enable_vesting config) eqn:Ev; simpl.
  2: { eexists. split; [done|]. split; [by repeat constructor|]. exists [mkDistribution worker (quality_bonus config per q) QualityBonus None], speed.
       split_and!; try done. apply Forall_singleton. simpl. split; [by intros []|by intros []]. }
  destruct (_ <? vesting_threshold config) eqn:Et; zbool; simpl.
  { eexists. split; [done|]. split; [by repeat constructor|]. exists [mkDistribution worker (quality_bonus config per q) QualityBonus None], speed.
    split_and!; try done. apply Forall_singleton. simpl. split; [by intros []|lia]. }
  specialize (Hd eq_refl). unfold div_by. replace (vesting_duration_epochs config =? 0) with false by lia. simpl.
  pose proof (Z.mul_div_le (quality_bonus config per q) (vesting_duration_epochs config) Hd) as H1.
  pose proof (Z.mul_succ_div_gt (quality_bonus config per q) (vesting_duration_epochs config) Hd) as H2.
  eexists. split; [done|]. split.
  - constructor; [done|]. constructor; [|done]. split; [done|]. unfold vests. simpl. split_and!; lia.
  - eexists [_], speed. split; [done|]. split_and!; try done. apply Forall_singleton. simpl. by split.
Qed.

Lemma all_worker_rewards_ok config per epoch workers :
  (enable_vesting config = true -> 0 < vesting_duration_epochs config) ->
  exists parts, all_worker_rewards config per epoch workers = Ok (concat parts) /\ Forall2 (part_of config per) workers parts.
Proof.
  intros Hd. induction workers as [|w ws (parts & IH & Hp)]; [exists []; by split; [|constructor]|].
  simpl. destruct (worker_rewards_ok config per epoch w Hd) as (ds & -> & Hw). rewrite IH. simpl.
  exists (ds :: parts). by split; [|constructor].
Qed.

(** A distribution gives every worker, in order, its base reward and the bonuses that are not zero,
    and every validator the same share, the shares together within the validators' part; a quality
    bonus from the threshold on vests over the configured time.  It is recorded under the task in
    place of what was there, and nothing is paid: the escrows and balances stay as they are. *)
Theorem distribute_rewards_correct task_id total workers validators epoch s :
  (enable_vesting (rm_config s) = true -> 0 < vesting_duration_epochs (rm_config s)) ->
  exists parts ds, let per_validator := equal_share (validator_total (rm_config s) total) (length validators) in
    distribute_rewards task_id total workers validators epoch s = (Ok ds, with_reward_history (insert task_id ds) s) /\
    ds = concat parts ++ validator_rewards per_validator validators /\
    Forall2 (part_of (rm_config s) (equal_share (worker_pool (rm_config s) total) (length workers))) workers parts /\
    per_validator * Z.of_nat (length validators) <= validator_total (rm_config s) total.
Proof.
  intros Hd. destruct (all_worker_rewards_ok (rm_config s) (equal_share (worker_pool (rm_config s) total) (length workers)) epoch workers Hd) as (parts & Hp & Hparts).
  eexists parts, _. cbv zeta. split; [|split; [done|split; [done|]]].
  - unfold distribute_rewards, mbind, M_bind, mread, mresult. by rewrite Hp.
  - unfold equal_share. assert (0 <= validator_total (rm_config s) total) by (apply f64_to_uint_range; unfold u64_max; lia).
    destruct (length validators) as [|n]; [lia|]. rewrite Z.max_l by lia. rewrite Z.mul_comm. apply Z.mul_div_le. lia.
Qed.
End facts.

(** An update of a worker's reputation, whatever the outcome, touches that worker only and leaves it at
    the floor or above; and when the budget of the epoch is used up the reputation does not change but
    for the floor, however bad the outcome. *)
Theorem work_reputation_correct now account outcome quality severity epoch s :
  is_nan (min_reputation (pr_config s)) = false ->
  exists u s', work_update_reputation now account outcome quality severity epoch s = (Ok u, s') /\
    ru_old_reputation u = get_reputation (pr_tracker s) account /\ ru_new_reputation u = get_reputation (pr_tracker s') account /\
    f64_leb (min_reputation (pr_config s)) (get_reputation (pr_tracker s') account) = true /\
    (forall k, k <> account -> get_reputation (pr_tracker s') k = get_reputation (pr_tracker s) k /\
       pr_epoch_updates s' !! k = pr_epoch_updates s !! k) /\
    (f64_leb (f64_sub (max_delta_per_epoch (pr_config s)) (f64_abs (et_total_delta (tracking_at account epoch s)))) f64_zero = true ->
     get_reputation (pr_tracker s') account =
       f64_max (f64_add (get_reputation (pr_tracker s) account) f64_zero) (min_reputation (pr_config s))).
Proof.
  intros Hn. unfold work_update_reputation, change_reputation, apply_epoch_cap. unfold mbind, M_bind, mread, mwrite, mret, M_ret. cbn.
  destruct (raw_change _ _ _ _ _) as [delta reason].
  destruct (f64_leb _ f64_zero) eqn:E; cbn; (eexists _, _; split; [done|]; cbn; unfold set_reputation; rewrite entry_value;
    split_and!; [done|done|by apply f64_max_ge_r| |intros H; try done; try congruence]).
  all: intros k Hk; rewrite lookup_insert_ne by done; split; [|done]; unfold get_reputation; by rewrite entry_other.
Qed.

(** ** Instances *)

Definition demo_rewards : RewardManager MemoryStorage := reward_manager_new (escrow_new alice_manager) reward_config_default.

Lemma distribute_rewards_correct_witness :
  exists ds, (distribute_rewards [1] 1000000 [(alice, f64_of_Z 1, f64_of_Z 2); (bob, f64_lit 1 2, f64_of_Z 1)] [alice] 3 demo_rewards).1 = Ok ds /\
    rd_amount <$> ds = [332500; 95000; 47500; 332500; 47500; 50000].
Proof.
  destruct (distribute_rewards_correct [1] 1000000 [(alice, f64_of_Z 1, f64_of_Z 2); (bob, f64_lit 1 2, f64_of_Z 1)] [alice] 3 demo_rewards) as (parts & ds & H & _); [by intros _|].
  exists ds. rewrite H. split; [done|]. apply (f_equal fst) in H. vm_compute in H. injection H as <-. vm_compute. reflexivity.
Defined.

Definition demo_reputation (r : Z) : PoUWReputationManager :=
  work_reputation_new (set_reputation 0 bob (f64_of_Z r) tracker_default) reputation_config_default.

Lemma work_reputation_correct_witness :
  exists u s', work_update_reputation 5 bob Success (f64_of_Z 1) f64_zero 1 (demo_reputation 500) = (Ok u, s') /\
    ru_new_reputation u = f64_of_Z 550 /\ get_reputation (pr_tracker s') alice = f64_of_Z 1.
Proof.
  destruct (work_reputation_correct 5 bob Success (f64_of_Z 1) f64_zero 1 (demo_reputation 500)) as (u & s' & H & _ & _ & _ & Ho & _); [done|].
  exists u, s'. split; [exact H|]. split.
  - apply (f_equal fst) in H. vm_compute in H. injection H as <-. vm_compute. reflexivity.
  - destruct (Ho alice) as [-> _]; [done|]. vm_compute. reflexivity.
Defined.

(** The budget of an epoch counts gains and losses alike: a worker that has earned the cap is not
    punished for a fraud in the same epoch. *)
Theorem capped_gain_shields_fraud :
  let s := (work_update_reputation 5 bob Success (f64_of_Z 1) f64_zero 1 (demo_reputation 2000)).2 in
  let s' := (work_update_reputation 6 bob OutcomeSlashed f64_zero (f64_of_Z 1) 1 s).2 in
  get_reputation (pr_tracker s) bob = f64_of_Z 2100 /\ get_reputation (pr_tracker s') bob = f64_of_Z 2100.
Proof. vm_compute. split; reflexivity. Qed.

(** The floor raises: an account with the initial reputation of one that fails its work has ten after. *)
Theorem failure_raises_reputation :
  let r := work_update_reputation 5 carol Failure f64_zero (f64_of_Z 1) 1 (demo_reputation 500) in
  get_reputation (pr_tracker (demo_reputation 500)) carol = f64_of_Z 1 /\ get_reputation (pr_tracker r.2) carol = f64_of_Z 10.
Proof. vm_compute. split; reflexivity. Qed.

(** The recorded total is signed, so that it is the net change that is capped: alternating outcomes
    move a reputation by about 199 within one epoch, 45 up, 49.5 down, 44.55 up and 59.95 down. *)
Theorem alternating_updates_exceed_cap :
  let s1 := (work_update_reputation 5 bob Success (f64_of_Z 1) f64_zero 1 (demo_reputation 450)).2 in
  let s2 := (work_update_reputation 6 bob Failure f64_zero (f64_lit 1 2) 1 s1).2 in
  let s3 := (work_update_reputation 7 bob Success (f64_of_Z 1) f64_zero 1 s2).2 in
  let s4 := (work_update_reputation 8 bob Failure f64_zero (f64_of_Z 1) 1 s3).2 in
  let change s s' := f64_abs (f64_sub (get_reputation (pr_tracker s') bob) (get_reputation (pr_tracker s) bob)) in
  f64_ltb (f64_of_Z 198) (f64_add (f64_add (change (demo_reputation 450) s1) (change s1 s2)) (f64_add (change s2 s3) (change s3 s4))) = true.
Proof. vm_compute. reflexivity. Qed.

(** With vesting over zero epochs a distribution divides by zero. *)
Theorem zero_vesting_panics :
  let config := mkRewardConfig (f64_lit 7 10) (f64_lit 2 10) (f64_lit 1 10) (f64_lit 5 100) true 0 0 in
  (distribute_rewards [1] 1000000 [(alice, f64_of_Z 1, f64_of_Z 2)] [] 3 (reward_manager_new (escrow_new alice_manager) config)).1 = Panic.
Proof. vm_compute. reflexivity. Qed.
