(* ===== verification/Disputes.v ===== *)
(** * Disputes about work

    [adic-pouw/src/disputes.rs]: challenge windows of results, disputes, arbitration committees, their
    decisions with the reputation that they cost, and appeals.  [blake3] and [hex] are parameters;
    [now] is [Utc::now()], which enters the id of a dispute; [dispute_iter] is the iterator of the map. *)

From S2P Require Import Prelude F64 Message Amount EconStorage Balance Reputation Escrow Vrf Quorum Challenge Voting Application TaskTypes Tasks Rewards.

Record DisputeConfig := mkDisputeConfig {
  min_challenger_stake : AdicAmount;
  challenge_period_epochs : Z;
  min_arbitrator_reputation : f64;
  arbitration_committee_size : nat;
  arbitration_threshold : f64;
  challenger_reward_fraction : f64;
  appeal_period_epochs : Z;
}.
Definition dispute_config_default : DisputeConfig :=
  mkDisputeConfig (from_adic (f64_of_Z 10)) 24 (f64_of_Z 500) 7 (f64_lit 67 100) (f64_lit 3 10) 48.

Inductive DisputeOutcome := ChallengeAccepted | ChallengeRejected | NoOutcome.

Record ArbitrationDecision := mkDecision {
  ad_dispute_id : Hash;
  ad_arbitrators : list PublicKey;
  ad_votes_for_challenger : nat;
  ad_votes_for_worker : nat;
  ad_outcome : DisputeOutcome;
  ad_reasoning : string;
  ad_decided_at_epoch : Z;
}.

Record DisputeStats := mkDisputeStats {
  ds_total_disputes : Z;
  ds_submitted : Z;
  ds_under_review : Z;
  ds_accepted : Z;
  ds_rejected : Z;
  ds_appealed : Z;
}.

Record DisputeManager := mkDisputes {
  dm_tracker : ReputationTracker;
  dm_config : DisputeConfig;
  dm_disputes : gmap Hash Dispute;
  dm_committees : gmap Hash (list PublicKey);
  dm_windows : gmap string ChallengeWindow;
}.
Definition disputes_new (tracker : ReputationTracker) (config : DisputeConfig) : DisputeManager := mkDisputes tracker config ∅ ∅ ∅.

Abbreviation DMM := (M DisputeManager PoUWError).
Implicit Types s : DisputeManager.

Definition with_dm_tracker f s := mkDisputes (f (dm_tracker s)) (dm_config s) (dm_disputes s) (dm_committees s) (dm_windows s).
Definition with_disputes f s := mkDisputes (dm_tracker s) (dm_config s) (f (dm_disputes s)) (dm_committees s) (dm_windows s).
Definition with_committees f s := mkDisputes (dm_tracker s) (dm_config s) (dm_disputes s) (f (dm_committees s)) (dm_windows s).
Definition with_windows f s := mkDisputes (dm_tracker s) (dm_config s) (dm_disputes s) (dm_committees s) (f (dm_windows s)).

Definition with_dispute_status (status : DisputeStatus) (d : Dispute) : Dispute :=
  mkDispute (di_dispute_id d) (di_task_id d) (di_result_id d) (di_worker d) (di_challenger d) (di_challenger_stake d) (di_evidence d)
    status (di_created_at d) (di_resolution_deadline d).

Section disputes.
Context (blake3 : Bytes -> Bytes) (hex : Bytes -> string) (now : Z).
Context (dispute_iter : gmap Hash Dispute -> list (Hash * Dispute)).

Definition generate_window_id (task_id : TaskId) (result_id : Hash) : string :=
  "pouw_challenge_" +:+ hex (take 8 task_id) +:+ "_" +:+ hex (take 8 result_id).
(** [Utc::now().timestamp().to_le_bytes()], of an [i64]. *)
Definition generate_dispute_id (task_id : TaskId) (result_id : Hash) (challenger : PublicKey) : Hash :=
  blake3 (task_id ++ result_id ++ challenger ++ to_le_bytes 8 (to_u64 now)).

Definition open_challenge_window (task_id : TaskId) (result_id : Hash) (submitted_at_epoch : Z) : DMM string :=
  config ← mread dm_config;
  let window_id := generate_window_id task_id result_id in
  let challenge_config := mkChallengeConfig (challenge_period_epochs config) (fraud_proof_deposit_factor ChallengeConfig_default)
    (dispute_deposit_factor ChallengeConfig_default) (arbitrator_minority_penalty ChallengeConfig_default) in
  mwrite (with_windows (insert window_id (window_new (blake3 (task_id ++ result_id)) submitted_at_epoch challenge_config)));;
  mret window_id.

Definition is_challenge_period_active (window_id : string) (current_epoch : Z) s : bool :=
  match dm_windows s !! window_id with Some window => is_active window current_epoch | None => false end.

Definition dispute_submit_challenge (task_id : TaskId) (result_id : Hash) (worker challenger : PublicKey) (challenger_stake : AdicAmount)
    (evidence : DisputeEvidence) (current_epoch : Z) : DMM Hash :=
  config ← mread dm_config;
  mbail (challenger_stake <? min_challenger_stake config)
    (Other ("Insufficient challenger stake: required " +:+ show_u64 (min_challenger_stake config) +:+ ", provided " +:+ show_u64 challenger_stake));;
  active ← mread (is_challenge_period_active (generate_window_id task_id result_id) current_epoch);
  mbail (negb active) (Other "Challenge period has expired");;
  let dispute_id := generate_dispute_id task_id result_id challenger in
  disputes ← mread dm_disputes;
  mbail (bool_decide (is_Some (disputes !! dispute_id))) (Other "Dispute already exists");;
  mwrite (with_disputes (insert dispute_id (mkDispute dispute_id task_id result_id worker challenger challenger_stake evidence DSubmitted now
    (to_u64 (current_epoch + challenge_period_epochs config)))));;
  mret dispute_id.

Definition find_dispute (id : Hash) : DMM Dispute :=
  disputes ← mread dm_disputes;
  mopt (disputes !! id) (Other "Dispute not found").
Definition set_dispute_status (id : Hash) (status : DisputeStatus) : DMM unit := mwrite (with_disputes (alter (with_dispute_status status) id)).

(** A committee member is the hash of the dispute, its number and the epoch. *)
Definition arbitrator_key (dispute_id : Hash) (current_epoch : Z) (i : nat) : PublicKey :=
  blake3 (dispute_id ++ [to_u8 (Z.of_nat i)] ++ to_le_bytes 8 current_epoch).

Definition select_arbitration_committee (dispute_id : Hash) (current_epoch : Z) : DMM (list PublicKey) :=
  find_dispute dispute_id;;
  set_dispute_status dispute_id UnderReview;;
  config ← mread dm_config;
  let arbitrators := arbitrator_key dispute_id current_epoch <$> seq 0 (arbitration_committee_size config) in
  mwrite (with_committees (insert dispute_id arbitrators));;
  mret arbitrators.

Definition status_of_outcome (o : DisputeOutcome) : DisputeStatus :=
  match o with ChallengeAccepted => DAccepted | ChallengeRejected => DRejected | NoOutcome => DInconclusive end.

Definition set_rep (account : PublicKey) (v : f64) : DMM unit := mwrite (with_dm_tracker (set_reputation now account v)).
Definition rep_of (account : PublicKey) : DMM f64 := mread (fun s => get_reputation (dm_tracker s) account).
(** A fraction of the reputation, but no less than the given number of points. *)
Definition slashed_reputation (fraction points rep : f64) : f64 :=
  f64_max (f64_sub rep (f64_max (f64_mul rep fraction) points)) (f64_lit 1 10).

Definition on_committee (committee : list PublicKey) (a : PublicKey) : bool := bool_decide (a ∈ committee).

Definition process_arbitration (dispute_id : Hash) (decision : ArbitrationDecision) : DMM DisputeOutcome :=
  dispute ← find_dispute dispute_id;
  committees ← mread dm_committees;
  expected_committee ← mopt (committees !! dispute_id) (Other "No committee found");
  mbail (negb (forallb (on_committee expected_committee) (ad_arbitrators decision))) (Other "Invalid arbitrator in decision");;
  set_dispute_status dispute_id (status_of_outcome (ad_outcome decision));;
  match ad_outcome decision with
  | ChallengeAccepted =>
      current_rep ← rep_of (di_worker dispute);
      set_rep (di_worker dispute) (slashed_reputation (f64_lit 1 10) (f64_of_Z 10) current_rep);;
      challenger_rep ← rep_of (di_challenger dispute);
      set_rep (di_challenger dispute) (f64_min (f64_add challenger_rep (f64_of_Z 5)) (f64_of_Z 10))
  | ChallengeRejected =>
      current_rep ← rep_of (di_challenger dispute);
      set_rep (di_challenger dispute) (slashed_reputation (f64_lit 5 100) (f64_of_Z 5) current_rep)
  | NoOutcome => mret tt
  end;;
  mret (ad_outcome decision).

(** [(a as i64 - b as i64).abs()] and [a as i64 / 2]. *)
Definition i64_distance (a b : Z) : Z := to_i64 (Z.abs (to_i64 (to_i64 a - to_i64 b))).
Definition i64_half (a : Z) : Z := Z.quot (to_i64 a) 2.

Definition dispute_verify_evidence (evidence : DisputeEvidence) (original_result : WorkResult) : bool :=
  match evidence with
  | ReExecutionProof different_output_cid execution_trace =>
      if bool_decide (different_output_cid = wr_output_cid original_result) then false
      else negb (bool_decide (execution_trace = []))
  | InputOutputMismatch expected_output actual_output => negb (bool_decide (expected_output = actual_output))
  | ResourceUsageFraud claimed actual =>
      (i64_half (cpu_time_ms claimed) <? i64_distance (cpu_time_ms claimed) (cpu_time_ms actual)) ||
      (i64_half (memory_used_mb claimed) <? i64_distance (memory_used_mb claimed) (memory_used_mb actual))
  end.

Definition submit_appeal (dispute_id : Hash) (appellant : PublicKey) (current_epoch : Z) : DMM unit :=
  dispute ← find_dispute dispute_id;
  config ← mread dm_config;
  mbail (to_u64 (di_resolution_deadline dispute + appeal_period_epochs config) <? current_epoch) (Other "Appeal period has expired");;
  set_dispute_status dispute_id Appealed.

Definition calculate_challenger_reward (config : DisputeConfig) (slashed_amount : AdicAmount) : AdicAmount :=
  f64_to_u64 (f64_mul (f64_of_Z slashed_amount) (challenger_reward_fraction config)).

Definition get_dispute (id : Hash) s : option Dispute := dm_disputes s !! id.
Definition get_task_disputes (task_id : TaskId) s : list Dispute :=
  List.filter (fun d => bool_decide (di_task_id d = task_id)) (dispute_iter (dm_disputes s)).*2.
Definition count_disputes (status : DisputeStatus) s : Z :=
  Z.of_nat (length (List.filter (fun d => bool_decide (di_status d = status)) (dispute_iter (dm_disputes s)).*2)).
Definition dispute_get_stats s : DisputeStats :=
  mkDisputeStats (Z.of_nat (size (dm_disputes s))) (count_disputes DSubmitted s) (count_disputes UnderReview s)
    (count_disputes DAccepted s) (count_disputes DRejected s) (count_disputes Appealed s).
End disputes.

Arguments on_committee : simpl never.

(** ** What the operations do *)

Section facts.
Context (blake3 : Bytes -> Bytes) (hex : Bytes -> string) (now : Z).

(** A dispute is taken exactly when its stake reaches the minimum, the window of the result is open and
    no dispute has its id; the only effect is its record, with the deadline one period ahead.  The
    stake is neither locked nor checked against a balance. *)
Theorem submit_dispute_correct task_id result_id worker challenger stake evidence epoch s :
  let id := generate_dispute_id blake3 now task_id result_id challenger in
  let ok := min_challenger_stake (dm_config s) <= stake /\
    is_challenge_period_active (generate_window_id hex task_id result_id) epoch s = true /\ dm_disputes s !! id = None in
  let run := dispute_submit_challenge blake3 hex now task_id result_id worker challenger stake evidence epoch s in
  (ok -> run = (Ok id, with_disputes (insert id (mkDispute id task_id result_id worker challenger stake evidence DSubmitted now
    (to_u64 (epoch + challenge_period_epochs (dm_config s))))) s)) /\
  (~ ok -> exists e, run = (Err e, s)).
Proof.
  cbv zeta. unfold dispute_submit_challenge. monad_unfold.
  destruct (_ <? _) eqn:E; zbool; cbn; [split; [lia|by eexists]|].
  destruct (is_challenge_period_active _ _ _); cbn; [|split; [naive_solver|by eexists]].
  case_bool_decide as Hd; cbn; [destruct Hd as [d Hd]; rewrite Hd; split; [naive_solver|by eexists]|].
  apply eq_None_not_Some in Hd. split; [done|naive_solver].
Qed.

(** Whose reputation an outcome changes. *)
Definition affected (o : DisputeOutcome) (d : Dispute) (k : PublicKey) : Prop :=
  match o with
  | ChallengeAccepted => k = di_worker d \/ k = di_challenger d
  | ChallengeRejected => k = di_challenger d
  | NoOutcome => False
  end.

Lemma set_rep_other at_time k v t k' : k' <> k -> get_reputation (set_reputation at_time k v t) k' = get_reputation t k'.
Proof. intros Hk. unfold get_reputation, set_reputation. by rewrite entry_other. Qed.
Lemma set_rep_same at_time k v t : get_reputation (set_reputation at_time k v t) k = v.
Proof. unfold set_reputation. by rewrite entry_value. Qed.

(** C40: A decision is processed exactly when the dispute exists, a committee was selected for it and
    every arbitrator that it names belongs to the committee.  Then the dispute is accepted, rejected
    or inconclusive as the outcome says; a worker that loses is left with its reputation less a
    tenth of it and no less than ten points, a challenger that loses with a twentieth and no less
    than five points less, neither with less than one tenth; a challenger that wins has five points
    more and at most ten.  Nobody else's reputation and no other dispute, committee or window
    changes; in any other case nothing does. *)
Theorem process_arbitration_correct id decision s :
  let ok := exists d c, dm_disputes s !! id = Some d /\ dm_committees s !! id = Some c /\ forall a, a ∈ ad_arbitrators decision -> a ∈ c in
  (forall d c, dm_disputes s !! id = Some d -> dm_committees s !! id = Some c -> (forall a, a ∈ ad_arbitrators decision -> a ∈ c) ->
   exists s', process_arbitration now id decision s = (Ok (ad_outcome decision), s') /\
     dm_config s' = dm_config s /\ dm_committees s' = dm_committees s /\ dm_windows s' = dm_windows s /\
     (forall k, ~ affected (ad_outcome decision) d k -> get_reputation (dm_tracker s') k = get_reputation (dm_tracker s) k) /\
     let settled status := dm_disputes s' = <[id := with_dispute_status status d]> (dm_disputes s) in
     let before := get_reputation (dm_tracker s) in
     let after := get_reputation (dm_tracker s') in
     let lose fraction points r := f64_max (f64_sub r (f64_max (f64_mul r fraction) points)) (f64_lit 1 10) in
     let win r := f64_min (f64_add r (f64_of_Z 5)) (f64_of_Z 10) in
     match ad_outcome decision with
     | ChallengeAccepted =>
         let worker_after := lose (f64_lit 1 10) (f64_of_Z 10) (before (di_worker d)) in
         settled DAccepted /\
         (di_worker d <> di_challenger d ->
            after (di_worker d) = worker_after /\ after (di_challenger d) = win (before (di_challenger d))) /\
         (di_worker d = di_challenger d -> after (di_worker d) = win worker_after) /\
         f64_leb (f64_lit 1 10) worker_after = true /\ f64_leb (after (di_challenger d)) (f64_of_Z 10) = true
     | ChallengeRejected =>
         settled DRejected /\
         after (di_challenger d) = lose (f64_lit 5 100) (f64_of_Z 5) (before (di_challenger d)) /\
         f64_leb (f64_lit 1 10) (after (di_challenger d)) = true
     | NoOutcome => settled DInconclusive /\ dm_tracker s' = dm_tracker s
     end) /\
  (~ ok -> exists e, process_arbitration now id decision s = (Err e, s)).
Proof.
  cbv zeta. split.
  - intros d c Hd Hc Hin. unfold process_arbitration, find_dispute, set_dispute_status, rep_of, set_rep, slashed_reputation. monad_unfold. rewrite Hd. cbn. rewrite Hc. cbn.
    replace (forallb _ _) with true; [|symmetry; apply forallb_forall; intros a Ha%list_elem_of_In; by apply bool_decide_eq_true_2, Hin]. cbn.
    destruct (ad_outcome decision); cbn in *; (eexists; split; [done|]); cbn; rewrite (alter_is_insert _ _ id d) by done; (split; [done|]; split; [done|]; split; [done|]); unfold affected.
    + split; [intros k Hk; rewrite !set_rep_other by tauto; done|]. rewrite set_rep_same. split; [done|].
      split; [intros Hne; by rewrite (set_rep_other _ (di_challenger d)), set_rep_same, (set_rep_other _ (di_worker d)) by done|].
      split; [intros ->; by rewrite !set_rep_same|]. split; [by apply f64_max_ge_r|by apply f64_min_le_r].
    + split; [intros k Hk; rewrite set_rep_other by done; done|]. rewrite set_rep_same. split; [done|]. split; [done|]. by apply f64_max_ge_r.
    + done.
  - intros Hn. unfold process_arbitration, find_dispute. monad_unfold. destruct (dm_disputes s !! id) as [d|] eqn:Hd; [|by eexists]. cbn.
    destruct (dm_committees s !! id) as [c|] eqn:Hc; [|by eexists]. cbn. destruct (forallb _ _) eqn:Hf; [|by eexists].
    exfalso. apply Hn. exists d, c. split_and!; try done. intros a Ha. rewrite forallb_forall in Hf. apply (bool_decide_eq_true_1 (a ∈ c)), Hf. by apply list_elem_of_In.
Qed.
End facts.

(** ** Instances *)

Definition demo_task_id : TaskId := replicate 32 7.
Definition demo_result_id : Hash := replicate 32 8.
Definition demo_evidence : DisputeEvidence := InputOutputMismatch "expected" "actual".
Definition demo_disputes : DisputeManager :=
  disputes_new (set_reputation 0 bob (f64_of_Z 600) (set_reputation 0 alice (f64_of_Z 500) tracker_default)) dispute_config_default.
(** Alice challenges Bob's result. *)
Definition with_dispute : DisputeManager :=
  (dispute_submit_challenge no_hash hex_encode 9 demo_task_id demo_result_id bob alice (from_adic (f64_of_Z 10)) demo_evidence 2
    (open_challenge_window no_hash hex_encode demo_task_id demo_result_id 1 demo_disputes).2).2.
Definition dispute_key : Hash := generate_dispute_id no_hash 9 demo_task_id demo_result_id alice.
Definition reviewed : DisputeManager := (select_arbitration_committee no_hash dispute_key 3 with_dispute).2.
Definition verdict (arbitrators : list PublicKey) (o : DisputeOutcome) : ArbitrationDecision := mkDecision dispute_key arbitrators 0 7 o "" 4.

Definition juror : PublicKey := arbitrator_key no_hash dispute_key 3 0.

Lemma reviewed_dispute : dm_disputes reviewed !! dispute_key =
  Some (mkDispute dispute_key demo_task_id demo_result_id bob alice (from_adic (f64_of_Z 10)) demo_evidence UnderReview 9 26).
Proof. vm_compute. reflexivity. Qed.

Lemma process_arbitration_correct_witness :
  exists s1 s2, process_arbitration 9 dispute_key (verdict [juror] ChallengeRejected) reviewed = (Ok ChallengeRejected, s1) /\
    (di_status <$> dm_disputes s1 !! dispute_key) = Some DRejected /\
    get_reputation (dm_tracker s1) bob = f64_of_Z 600 /\ get_reputation (dm_tracker s1) alice = f64_of_Z 475 /\
    process_arbitration 9 dispute_key (verdict [juror] ChallengeAccepted) reviewed = (Ok ChallengeAccepted, s2) /\
    (di_status <$> dm_disputes s2 !! dispute_key) = Some DAccepted /\
    get_reputation (dm_tracker s2) bob = f64_of_Z 540.
Proof.
  assert (forall a, a ∈ [juror] -> a ∈ (arbitrator_key no_hash dispute_key 3 <$> seq 0 7)) as Hin.
  { intros a ->%list_elem_of_singleton. apply list_elem_of_fmap. exists 0%nat. split; [done|]. by left. }
  assert (dm_committees reviewed !! dispute_key = Some (arbitrator_key no_hash dispute_key 3 <$> seq 0 7)) as Hc by (vm_compute; reflexivity).
  destruct (process_arbitration_correct no_hash hex_encode 9 dispute_key (verdict [juror] ChallengeRejected) reviewed) as [H1 _].
  destruct (process_arbitration_correct no_hash hex_encode 9 dispute_key (verdict [juror] ChallengeAccepted) reviewed) as [H2 _].
  destruct (H1 _ _ reviewed_dispute Hc Hin) as (s1 & Hr1 & _ & _ & _ & Ho1 & Hs1 & Ha1 & _).
  destruct (H2 _ _ reviewed_dispute Hc Hin) as (s2 & Hr2 & _ & _ & _ & _ & Hs2 & Hb2 & _).
  exists s1, s2. split; [exact Hr1|]. split; [by rewrite Hs1, lookup_insert_eq|].
  split; [rewrite (Ho1 bob); [vm_compute; reflexivity|by simpl]|]. split; [etransitivity; [exact Ha1|vm_compute; reflexivity]|].
  split; [exact Hr2|]. split; [by rewrite Hs2, lookup_insert_eq|].
  destruct Hb2 as [Hb2 _]; [by simpl|]. etransitivity; [exact Hb2|vm_compute; reflexivity].
Defined.

(** The bonus of a challenger that wins is capped at ten points whatever it had: Alice, with 500,
    proves Bob wrong and is left with 10, while Bob loses a tenth. *)
Theorem winning_challenger_loses :
  let s := (process_arbitration 9 dispute_key (verdict [juror] ChallengeAccepted) reviewed).2 in
  get_reputation (dm_tracker reviewed) alice = f64_of_Z 500 /\ get_reputation (dm_tracker s) alice = f64_of_Z 10 /\
  get_reputation (dm_tracker s) bob = f64_of_Z 540.
Proof. vm_compute. repeat split. Qed.

(** A decision that no arbitrator signs is processed, against the votes that it reports, and again each
    time it is sent. *)
Theorem unsigned_decision_repeats :
  let decide_once := process_arbitration 9 dispute_key (verdict [] ChallengeAccepted) in
  let (r1, s1) := decide_once reviewed in
  let (r2, s2) := decide_once s1 in
  r1 = Ok ChallengeAccepted /\ r2 = Ok ChallengeAccepted /\ ad_votes_for_challenger (verdict [] ChallengeAccepted) = 0%nat /\
  ad_votes_for_worker (verdict [] ChallengeAccepted) = 7%nat /\ get_reputation (dm_tracker s2) bob = f64_of_Z 486.
Proof. vm_compute. repeat split. Qed.

(** Work of no cost that was claimed as such is no evidence, but any cost above a claim of one unit is
    ([1 / 2 = 0]), and a claim above [2^63] is negative for the check, so that any report on it is fraud. *)
Theorem metrics_fraud_boundaries :
  let metrics cpu := mkMetrics cpu 4 0 0 0 0 in
  let fraud claimed actual := dispute_verify_evidence (ResourceUsageFraud (metrics claimed) (metrics actual)) (mkWorkResult [] [] [] "" (mkExecutionProof MerkleTree [] [] []) (metrics 0) [] 0) in
  fraud 100 150 = false /\ fraud 100 151 = true /\ fraud 1 2 = true /\ fraud (2 ^ 64 - 4) (2 ^ 64 - 4) = true.
Proof. vm_compute. repeat split. Qed.
