(* ===== verification/AxisCatalog.v ===== *)
(** * The axis catalog

    [adic-governance/src/axis_catalog.rs]: the axes along which messages are compared, their
    proposal, migration ramps and deprecation, the weight of an axis at an epoch, and the checks of
    the documents of a proposed axis (which look at their identifiers only).

    A string is its UTF-8 bytes; [chars] groups them.  [axes_iter] is the order in which the map of
    axes is listed.  [propose_add_axis] releases the map between its checks and its write: it is
    [check_add_axis] and [store_axis] in a row.  The errors carry the data of their message. *)

From Stdlib Require Import Ascii.
From S2P Require Import Prelude F64 Message Encoders Voting Lifecycle.

(** ** Strings *)

Fixpoint str_contains (needle s : string) : bool :=
  String.prefix needle s || match s with EmptyString => false | String _ s' => str_contains needle s' end.
Definition str_len (s : string) : Z := Z.of_nat (String.length s).

(** The characters of a string: a byte with the continuation bytes that follow it. *)
Definition starts_inside (c : Bytes) : bool := match c with b :: _ => in_range 128 191 b | [] => false end.
Fixpoint chars (bs : Bytes) : list Bytes :=
  match bs with
  | [] => []
  | b :: bs' =>
      match chars bs' with
      | c :: cs => if starts_inside c then (b :: c) :: cs else [b] :: c :: cs
      | [] => [[b]]
      end
  end.

(** ** Data *)

Inductive AxisStatus := AxProposed | AxRamping | AxActive | AxDeprecating | AxDeprecated.
#[export] Instance AxisStatus_eq_dec : EqDecision AxisStatus.
Proof. solve_decision. Defined.

Record AxisEntry := mkAxis {
  ax_axis_id : Z;
  ax_encoder_spec_cid : string;
  ax_ultrametric_proof_cid : string;
  ax_security_analysis_cid : string;
  ax_status : AxisStatus;
  ax_migration_plan : option MigrationPlan;
  ax_added_epoch : Z;
  ax_deprecated_epoch : option Z;
}.

Record UltrametricValidation := mkValidation {
  uv_is_valid : bool;
  uv_distance_function_type : string;
  uv_max_distance : f64;
  uv_clopen_ball_count : Z;
  uv_violations : list string;
}.

Record IndependenceCheck := mkIndependence {
  ic_is_independent : bool;
  ic_correlations : list (Z * f64);
  ic_max_correlation : f64;
  ic_threshold : f64;
}.

Record AxisCatalogConfig := mkAxisConfig {
  xc_max_correlation_threshold : f64;
  xc_review_committee_min_reputation : f64;
  xc_default_ramp_epochs : Z;
}.
Definition axis_config_default : AxisCatalogConfig := mkAxisConfig (f64_lit 7 10) (f64_of_Z 1000) 1000.

Record AxisCatalogManager := mkCatalog {
  ca_config : AxisCatalogConfig;
  ca_axes : gmap Z AxisEntry;
  ca_active : list Z;
}.
Definition catalog_new (config : AxisCatalogConfig) : AxisCatalogManager := mkCatalog config ∅ [].

Inductive AxisError :=
  | AxisExists (id : Z)
  | UltrametricFailed (violations : list string)
  | HighCorrelation (id : Z) (max_correlation threshold : f64)
  | AxisNotFound (id : Z)
  | AlreadyDeprecated (id : Z)
  | NotProposed (id : Z) (current : AxisStatus)
  | NoMigrationPlan
  | EmptySecurityAnalysis
  | WeakSpoofCost
  | WeakSybilResistance
  | MissingMitigations.

Implicit Types s : AxisCatalogManager.
Abbreviation CM := (M AxisCatalogManager AxisError).

Definition with_axes (f : gmap Z AxisEntry -> gmap Z AxisEntry) s : AxisCatalogManager := mkCatalog (ca_config s) (f (ca_axes s)) (ca_active s).
Definition with_active (f : list Z -> list Z) s : AxisCatalogManager := mkCatalog (ca_config s) (ca_axes s) (f (ca_active s)).
Definition with_axis_status (st : AxisStatus) (e : AxisEntry) : AxisEntry :=
  mkAxis (ax_axis_id e) (ax_encoder_spec_cid e) (ax_ultrametric_proof_cid e) (ax_security_analysis_cid e) st
    (ax_migration_plan e) (ax_added_epoch e) (ax_deprecated_epoch e).
Definition with_plan (plan : option MigrationPlan) (e : AxisEntry) : AxisEntry :=
  mkAxis (ax_axis_id e) (ax_encoder_spec_cid e) (ax_ultrametric_proof_cid e) (ax_security_analysis_cid e) (ax_status e)
    plan (ax_added_epoch e) (ax_deprecated_epoch e).
Definition with_epochs (added : Z) (deprecated : option Z) (e : AxisEntry) : AxisEntry :=
  mkAxis (ax_axis_id e) (ax_encoder_spec_cid e) (ax_ultrametric_proof_cid e) (ax_security_analysis_cid e) (ax_status e)
    (ax_migration_plan e) added deprecated.

Definition default_axis (id : Z) (encoder proof security : string) : AxisEntry := mkAxis id encoder proof security AxActive None 0 None.
Definition initialize_default_axes s : AxisCatalogManager :=
  with_active (fun active => active ++ [0; 1; 2])
    (with_axes (fun axes =>
       <[2 := default_axis 2 "Qm_region_encoder_v1" "Qm_region_ultrametric_proof" "Qm_region_security"]>
      (<[1 := default_axis 1 "Qm_topic_encoder_v1" "Qm_topic_ultrametric_proof" "Qm_topic_security"]>
      (<[0 := default_axis 0 "Qm_time_encoder_v1" "Qm_time_ultrametric_proof" "Qm_time_security"]> axes))) s).

(** ** The checks of the documents *)

Definition extract_distance_function_type (proof_cid : string) : string :=
  if str_contains "padic" proof_cid || str_contains "p-adic" proof_cid then "p-adic"
  else if str_contains "hamming" proof_cid then "hamming"
  else if str_contains "levenstein" proof_cid then "levenstein"
  else "generic-ultrametric".
Definition validate_triangle_inequality (distance_type : string) : bool :=
  bool_decide (distance_type ∈ ["p-adic"; "hamming"; "discrete"; "generic-ultrametric"]).
Definition estimate_clopen_ball_count (distance_type : string) : Z :=
  if bool_decide (distance_type = "p-adic") then 1024
  else if bool_decide (distance_type = "hamming") then 512
  else if bool_decide (distance_type = "discrete") then 256
  else 128.
Definition validate_deterministic_encoding (encoder_cid : string) : bool :=
  str_contains "deterministic" encoder_cid || str_contains "pure" encoder_cid || (10 <=? str_len encoder_cid).
Definition compute_max_distance (distance_type : string) : f64 :=
  if bool_decide (distance_type = "p-adic") then f64_of_Z 100
  else if bool_decide (distance_type = "hamming") then f64_of_Z 256
  else if bool_decide (distance_type = "discrete") then f64_of_Z 1
  else f64_of_Z 1000.
Definition validate_proof_sketch (proof_cid : string) : bool :=
  negb (bool_decide (proof_cid = EmptyString)) && String.prefix "Qm" proof_cid && (10 <=? str_len proof_cid).

Definition violation (b : bool) (what : string) : list string := if b then [what] else [].
Definition validate_ultrametric (encoder_cid proof_cid : string) : UltrametricValidation :=
  if bool_decide (encoder_cid = EmptyString) || bool_decide (proof_cid = EmptyString)
  then mkValidation false "unknown" (f64_of_Z 0) 0 ["Empty encoder or proof CID"]
  else
    let distance_type := extract_distance_function_type proof_cid in
    let clopen_ball_count := estimate_clopen_ball_count distance_type in
    let max_distance := compute_max_distance distance_type in
    let violations :=
      violation (negb (validate_triangle_inequality distance_type)) "Triangle inequality not satisfied (not ultrametric)" ++
      violation (clopen_ball_count =? 0) "Invalid clopen ball structure" ++
      violation (negb (validate_deterministic_encoding encoder_cid)) "Encoder not provably deterministic" ++
      violation (negb (is_finite max_distance) || f64_leb max_distance (f64_of_Z 0)) "Invalid distance bounds (must be finite and positive)" ++
      violation (negb (validate_proof_sketch proof_cid)) "Proof sketch validation failed" in
    mkValidation (match violations with [] => true | _ => false end) distance_type max_distance clopen_ball_count violations.

Definition string_similarity (a b : string) : f64 :=
  if bool_decide (a = b) then f64_of_Z 1
  else
    let matches := length (List.filter (fun cc => bool_decide (cc.1 = cc.2)) (zip (chars (str_bytes a)) (chars (str_bytes b)))) in
    let max_len := f64_of_Z (Z.max (str_len a) (str_len b)) in
    if f64_eqb max_len (f64_of_Z 0) then f64_of_Z 0 else f64_div (f64_of_Z (Z.of_nat matches)) max_len.
Definition id_factor (axis_id_a axis_id_b : Z) : f64 :=
  f64_div (f64_of_Z 1) (f64_add (f64_of_Z 1) (f64_div (f64_of_Z (Z.abs (axis_id_a - axis_id_b))) (f64_of_Z 10))).
Definition compute_encoder_correlation (encoder_cid_a encoder_cid_b : string) (axis_id_a axis_id_b : Z) : f64 :=
  f64_min (f64_add (f64_mul (string_similarity encoder_cid_a encoder_cid_b) (f64_lit 7 10))
             (f64_mul (id_factor axis_id_a axis_id_b) (f64_lit 3 10))) (f64_lit 95 100).

Definition correlate (axes : gmap Z AxisEntry) (new_axis_id : Z) (encoder_cid : string)
    (acc : list (Z * f64) * f64) (existing_axis_id : Z) : list (Z * f64) * f64 :=
  match axes !! existing_axis_id with
  | None => acc
  | Some e =>
      let correlation := compute_encoder_correlation encoder_cid (ax_encoder_spec_cid e) existing_axis_id new_axis_id in
      (acc.1 ++ [(existing_axis_id, correlation)], if f64_gtb correlation acc.2 then correlation else acc.2)
  end.
Definition check_independence s (new_axis_id : Z) (encoder_cid : string) : IndependenceCheck :=
  let threshold := xc_max_correlation_threshold (ca_config s) in
  let acc := foldl (correlate (ca_axes s) new_axis_id encoder_cid) ([], f64_of_Z 0) (ca_active s) in
  mkIndependence (f64_ltb acc.2 threshold) acc.1 acc.2 threshold.

Definition validate_spoof_cost_analysis (cid : string) : bool :=
  str_contains "spoof" cid || str_contains "cost" cid || str_contains "security" cid || (40 <=? str_len cid).
Definition validate_sybil_resistance (cid : string) : bool :=
  str_contains "sybil" cid || str_contains "resistance" cid || str_contains "security" cid || (40 <=? str_len cid).
Definition validate_attack_mitigations (cid : string) : bool :=
  str_contains "attack" cid || str_contains "mitigation" cid || str_contains "security" cid || (40 <=? str_len cid).
Definition validate_security_analysis (analysis_cid : string) : result AxisError unit :=
  if bool_decide (analysis_cid = EmptyString) then Err EmptySecurityAnalysis
  else if negb (validate_spoof_cost_analysis analysis_cid) then Err WeakSpoofCost
  else if negb (validate_sybil_resistance analysis_cid) then Err WeakSybilResistance
  else if negb (validate_attack_mitigations analysis_cid) then Err MissingMitigations
  else Ok tt.

(** ** Proposals *)

Definition check_ultrametric (change : AxisCatalogChange) : CM unit :=
  let v := validate_ultrametric (ac_encoder_spec_cid change) (ac_ultrametric_proof_cid change) in
  mbail (negb (uv_is_valid v)) (UltrametricFailed (uv_violations v)).

Definition check_add_axis (change : AxisCatalogChange) : CM unit :=
  let axis_id := ac_axis_id change in
  axes ← mread ca_axes;
  mbail (bool_decide (is_Some (axes !! axis_id))) (AxisExists axis_id);;
  check_ultrametric change;;
  check ← mread (fun s => check_independence s axis_id (ac_encoder_spec_cid change));
  mbail (negb (ic_is_independent check)) (HighCorrelation axis_id (ic_max_correlation check) (ic_threshold check));;
  mresult (validate_security_analysis (ac_security_analysis_cid change)).

Definition new_axis (change : AxisCatalogChange) (current_epoch : Z) : AxisEntry :=
  mkAxis (ac_axis_id change) (ac_encoder_spec_cid change) (ac_ultrametric_proof_cid change) (ac_security_analysis_cid change)
    AxProposed (Some (ac_migration_plan change)) current_epoch None.
Definition store_axis (change : AxisCatalogChange) (current_epoch : Z) : CM unit :=
  mwrite (with_axes (insert (ac_axis_id change) (new_axis change current_epoch))).
Definition propose_add_axis (change : AxisCatalogChange) (current_epoch : Z) : CM unit :=
  check_add_axis change;; store_axis change current_epoch.

Definition find_axis (axis_id : Z) : CM AxisEntry :=
  axes ← mread ca_axes;
  mopt (axes !! axis_id) (AxisNotFound axis_id).

Definition modified_axis (change : AxisCatalogChange) (e : AxisEntry) : AxisEntry :=
  mkAxis (ax_axis_id e) (ac_encoder_spec_cid change) (ac_ultrametric_proof_cid change) (ac_security_analysis_cid change)
    (ax_status e) (Some (ac_migration_plan change)) (ax_added_epoch e) (ax_deprecated_epoch e).
Definition propose_modify_axis (change : AxisCatalogChange) : CM unit :=
  _ ← find_axis (ac_axis_id change);
  check_ultrametric change;;
  mwrite (with_axes (alter (modified_axis change) (ac_axis_id change))).

Definition deprecating_axis (change : AxisCatalogChange) (current_epoch : Z) (e : AxisEntry) : AxisEntry :=
  with_epochs (ax_added_epoch e) (Some current_epoch) (with_plan (Some (ac_migration_plan change)) (with_axis_status AxDeprecating e)).
Definition propose_deprecate_axis (change : AxisCatalogChange) (current_epoch : Z) : CM unit :=
  entry ← find_axis (ac_axis_id change);
  mbail (bool_decide (ax_status entry = AxDeprecated)) (AlreadyDeprecated (ac_axis_id change));;
  mwrite (with_axes (alter (deprecating_axis change current_epoch) (ac_axis_id change))).

Definition propose_axis_change (change : AxisCatalogChange) (current_epoch : Z) : CM unit :=
  match ac_action change with
  | AxisAdd => propose_add_axis change current_epoch
  | AxisModify => propose_modify_axis change
  | AxisDeprecate => propose_deprecate_axis change current_epoch
  end.

Definition activate_axis (axis_id current_epoch : Z) : CM unit :=
  entry ← find_axis axis_id;
  mbail (negb (bool_decide (ax_status entry = AxProposed))) (NotProposed axis_id (ax_status entry));;
  mwrite (with_axes (alter (fun e => with_epochs current_epoch (ax_deprecated_epoch e) (with_axis_status AxRamping e)) axis_id)).

(** ** Weights *)

Section weights.
Context (epoch_offset : Z).

(** The search for the neighbours: [break] at the first upper one. *)
Fixpoint neighbours (schedule : list (Z * f64)) (lower upper : Z * f64) : (Z * f64) * (Z * f64) :=
  match schedule with
  | [] => (lower, upper)
  | (epoch, weight) :: rest =>
      let lower := if epoch <=? epoch_offset then (epoch, weight) else lower in
      if (epoch_offset <=? epoch) && (epoch <? upper.1) then (lower, (epoch, weight))
      else neighbours rest lower upper
  end.

Definition interpolate_weight (schedule : list (Z * f64)) : f64 :=
  match schedule, last schedule with
  | first :: _, Some final =>
      let (lower, upper) := neighbours schedule (0, f64_of_Z 0) final in
      if epoch_offset <? first.1 then f64_of_Z 0
      else if final.1 <=? epoch_offset then final.2
      else if upper.1 =? lower.1 then lower.2
      else
        let progress := f64_div (f64_of_Z (epoch_offset - lower.1)) (f64_of_Z (to_u64 (upper.1 - lower.1))) in
        f64_add lower.2 (f64_mul (f64_sub upper.2 lower.2) progress)
  | _, _ => f64_of_Z 0
  end.
End weights.

Definition ramp_progress (t_start t_ramp current_epoch : Z) : f64 :=
  f64_div (f64_of_Z (current_epoch - t_start)) (f64_of_Z t_ramp).
Definition ramp_up (t_start : Z) (plan : MigrationPlan) (current_epoch : Z) : f64 :=
  let t_ramp := mp_ramp_epochs plan in
  if current_epoch <? t_start then f64_of_Z 0
  else if to_u64 (t_start + t_ramp) <=? current_epoch then f64_of_Z 1
  else if bool_decide (mp_weight_schedule plan = []) then f64_min (ramp_progress t_start t_ramp current_epoch) (f64_of_Z 1)
  else interpolate_weight (current_epoch - t_start) (mp_weight_schedule plan).
Definition ramp_down (t_start : Z) (plan : MigrationPlan) (current_epoch : Z) : f64 :=
  let t_ramp := mp_ramp_epochs plan in
  if current_epoch <? t_start then f64_of_Z 1
  else if to_u64 (t_start + t_ramp) <=? current_epoch then f64_of_Z 0
  else if bool_decide (mp_weight_schedule plan = []) then f64_max (f64_sub (f64_of_Z 1) (ramp_progress t_start t_ramp current_epoch)) (f64_of_Z 0)
  else f64_sub (f64_of_Z 1) (interpolate_weight (current_epoch - t_start) (mp_weight_schedule plan)).

Definition axis_weight (e : AxisEntry) (current_epoch : Z) : result AxisError f64 :=
  match ax_status e with
  | AxProposed => Ok (f64_of_Z 0)
  | AxRamping =>
      let? plan := result_of_option (ax_migration_plan e) NoMigrationPlan in
      Ok (ramp_up (ax_added_epoch e) plan current_epoch)
  | AxActive => Ok (f64_of_Z 1)
  | AxDeprecating =>
      let? plan := result_of_option (ax_migration_plan e) NoMigrationPlan in
      Ok (ramp_down (default current_epoch (ax_deprecated_epoch e)) plan current_epoch)
  | AxDeprecated => Ok (f64_of_Z 0)
  end.
Definition get_axis_weight s (axis_id current_epoch : Z) : result AxisError f64 :=
  let? entry := result_of_option (ca_axes s !! axis_id) (AxisNotFound axis_id) in
  axis_weight entry current_epoch.

(** ** Epochs and listings *)

Section iter.
Context (axes_iter : gmap Z AxisEntry -> list (Z * AxisEntry)).

Definition counts_for_routing (e : AxisEntry) : bool := negb (bool_decide (ax_status e = AxProposed)) && negb (bool_decide (ax_status e = AxDeprecated)).
Fixpoint collect_weights s (current_epoch : Z) (ids : list Z) (weights : list (Z * f64)) : result AxisError (list (Z * f64)) :=
  match ids with
  | [] => Ok weights
  | axis_id :: rest =>
      let? weight := get_axis_weight s axis_id current_epoch in
      collect_weights s current_epoch rest (if f64_gtb weight (f64_of_Z 0) then weights ++ [(axis_id, weight)] else weights)
  end.
Definition get_all_axis_weights s (current_epoch : Z) : result AxisError (list (Z * f64)) :=
  collect_weights s current_epoch (List.filter (fun ie => counts_for_routing ie.2) (axes_iter (ca_axes s))).*1 [].

Definition ramp_complete (t_start current_epoch : Z) (plan : option MigrationPlan) : bool :=
  match plan with Some p => to_u64 (t_start + mp_ramp_epochs p) <=? current_epoch | None => false end.
Definition process_axis (current_epoch : Z) s (ie : Z * AxisEntry) : AxisCatalogManager :=
  let (axis_id, entry) := ie in
  match ax_status entry with
  | AxRamping =>
      if ramp_complete (ax_added_epoch entry) current_epoch (ax_migration_plan entry)
      then with_active (fun active => if bool_decide (axis_id ∈ active) then active else active ++ [axis_id])
             (with_axes (alter (with_axis_status AxActive) axis_id) s)
      else s
  | AxDeprecating =>
      if ramp_complete (default current_epoch (ax_deprecated_epoch entry)) current_epoch (ax_migration_plan entry)
      then with_active (filter (fun id => id <> axis_id)) (with_axes (alter (with_axis_status AxDeprecated) axis_id) s)
      else s
  | _ => s
  end.
Definition process_axis_epoch (current_epoch : Z) s : AxisCatalogManager :=
  foldl (process_axis current_epoch) s (axes_iter (ca_axes s)).

Definition get_active_axes s : list Z := ca_active s.
Definition get_axis s (axis_id : Z) : option AxisEntry := ca_axes s !! axis_id.
Definition get_all_axes s : list AxisEntry := (axes_iter (ca_axes s)).*2.
End iter.

(** ** The life of an axis *)

Definition axis_next (a b : AxisStatus) : bool :=
  match a, b with
  | AxProposed, AxRamping | AxRamping, AxActive | AxDeprecating, AxDeprecated => true
  | AxDeprecated, AxDeprecating => false
  | _, AxDeprecating => true
  | _, _ => false
  end.

(** A stored axis: it has a plan when its weight needs one, and it is listed when it is active. *)
Definition axis_ok (active : list Z) (id : Z) (e : AxisEntry) : Prop :=
  ax_axis_id e = id /\
  match ax_status e with
  | AxProposed | AxRamping => is_Some (ax_migration_plan e) /\ id ∉ active
  | AxActive => id ∈ active
  | AxDeprecating => is_Some (ax_migration_plan e) /\ is_Some (ax_deprecated_epoch e)
  | AxDeprecated => id ∉ active
  end.
Definition catalog_ok s : Prop :=
  (forall id e, ca_axes s !! id = Some e -> axis_ok (ca_active s) id e) /\
  (forall id, id ∈ ca_active s -> is_Some (ca_axes s !! id)).

Definition axes_follow s s' : Prop :=
  forall id e, ca_axes s !! id = Some e ->
  exists e', ca_axes s' !! id = Some e' /\ rtc (fun a b => axis_next a b = true) (ax_status e) (ax_status e').

Inductive CatalogCall :=
  | CallPropose (change : AxisCatalogChange) (epoch : Z)
  | CallActivate (id epoch : Z)
  | CallProcess (epoch : Z).

#[local] Arguments validate_ultrametric : simpl never.
Ltac catalog_unfold :=
  unfold check_ultrametric, find_axis, store_axis, mbail, mopt, mread, mwrite, mresult, mret, M_ret, mbind, M_bind, mfail; cbn.

Section life.
Context (axes_iter : gmap Z AxisEntry -> list (Z * AxisEntry)).

Definition catalog_call s (c : CatalogCall) : AxisCatalogManager :=
  match c with
  | CallPropose change epoch => (propose_axis_change change epoch s).2
  | CallActivate id epoch => (activate_axis id epoch s).2
  | CallProcess epoch => process_axis_epoch axes_iter epoch s
  end.
Definition catalog_run s (calls : list CatalogCall) : AxisCatalogManager := foldl catalog_call s calls.

Lemma axes_follow_refl s : axes_follow s s.
Proof using Type. intros id e He. exists e. split; [done|apply rtc_refl]. Qed.

Lemma axes_follow_trans s1 s2 s3 : axes_follow s1 s2 -> axes_follow s2 s3 -> axes_follow s1 s3.
Proof using Type.
  intros H1 H2 id e He. destruct (H1 id e He) as (e' & He' & Hr). destruct (H2 id e' He') as (e'' & He'' & Hr').
  exists e''. split; [done|]. by etransitivity.
Qed.

(** A change of one axis, with the listing of that axis only. *)
Lemma axis_step id e e' (active' : list Z) s :
  catalog_ok s -> ca_axes s !! id = Some e -> axis_ok active' id e' ->
  (forall j, j <> id -> j ∈ active' <-> j ∈ ca_active s) ->
  (rtc (fun a b => axis_next a b = true) (ax_status e) (ax_status e')) ->
  let s' := mkCatalog (ca_config s) (<[id := e']> (ca_axes s)) active' in
  catalog_ok s' /\ axes_follow s s'.
Proof using Type.
  intros [Hok Hlist] He Hok' Hact Hmove s'. split; [split|].
  - intros j f. unfold s'. cbn [ca_axes ca_active]. destruct (decide (j = id)) as [->|Hj].
    + rewrite lookup_insert_eq. by intros [= <-].
    + rewrite lookup_insert_ne by done. intros Hf. destruct (Hok j f Hf) as [Hid Hst]. split; [done|].
      specialize (Hact j Hj). destruct (ax_status f); naive_solver.
  - intros j Hj. unfold s' in *. cbn [ca_axes ca_active] in *. destruct (decide (j = id)) as [->|Hne].
    + rewrite lookup_insert_eq. by eexists.
    + rewrite lookup_insert_ne by done. apply Hlist. by apply Hact.
  - intros j f Hf. unfold s'. cbn [ca_axes]. destruct (decide (j = id)) as [->|Hj].
    + rewrite lookup_insert_eq. exists e'. split; [done|]. by simplify_eq.
    + rewrite lookup_insert_ne by done. exists f. split; [done|apply rtc_refl].
Qed.

Lemma same_axes s : catalog_ok s -> catalog_ok s /\ axes_follow s s.
Proof using Type. intros H. split; [done|apply axes_follow_refl]. Qed.

Lemma check_add_axis_state change s : (check_add_axis change s).2 = s.
Proof.
  unfold check_add_axis. catalog_unfold. repeat (case_match; simplify_eq; cbn in *; try done).
Qed.

Lemma add_step change epoch s :
  catalog_ok s -> catalog_ok (propose_add_axis change epoch s).2 /\ axes_follow s (propose_add_axis change epoch s).2.
Proof using Type.
  intros Hs. unfold propose_add_axis, mbind, M_bind. pose proof (check_add_axis_state change s) as E.
  destruct (check_add_axis change s) as [[u|e|] s1] eqn:Ec; simpl in E; subst s1; [|by apply same_axes..].
  assert (ca_axes s !! ac_axis_id change = None) as Hnew.
  { apply eq_None_not_Some. intros H. revert Ec. unfold check_add_axis. catalog_unfold. by rewrite bool_decide_eq_true_2. }
  destruct Hs as [Hok Hlist]. cbn [store_axis mwrite snd]. unfold with_axes. split; [split|].
  - intros j f. cbn [ca_axes ca_active]. destruct (decide (j = ac_axis_id change)) as [->|Hj].
    + rewrite lookup_insert_eq. intros [= <-]. split; [done|]. cbn. split; [by eexists|]. intros [? ?]%Hlist. congruence.
    + rewrite lookup_insert_ne by done. by apply Hok.
  - intros j Hj%Hlist. cbn [ca_axes]. apply lookup_insert_is_Some'. by right.
  - intros j f Hf. cbn [ca_axes]. rewrite lookup_insert_ne by congruence. exists f. split; [done|apply rtc_refl].
Qed.

Lemma modify_step change s :
  catalog_ok s -> catalog_ok (propose_modify_axis change s).2 /\ axes_follow s (propose_modify_axis change s).2.
Proof using Type.
  intros Hs. unfold propose_modify_axis. catalog_unfold.
  destruct (ca_axes s !! ac_axis_id change) as [e|] eqn:He; [|by apply same_axes]. cbn.
  destruct (negb _); [by apply same_axes|]. cbn. unfold with_axes. rewrite (alter_is_insert _ _ _ _ He).
  apply (axis_step _ e); [done|done| |done|apply rtc_refl].
  destruct (proj1 Hs _ _ He) as [Hid Hst]. split; [done|]. cbn. destruct (ax_status e); naive_solver.
Qed.

Lemma deprecate_step change epoch s :
  catalog_ok s -> catalog_ok (propose_deprecate_axis change epoch s).2 /\ axes_follow s (propose_deprecate_axis change epoch s).2.
Proof using Type.
  intros Hs. unfold propose_deprecate_axis. catalog_unfold.
  destruct (ca_axes s !! ac_axis_id change) as [e|] eqn:He; [|by apply same_axes]. cbn.
  case_bool_decide as Hd; [by apply same_axes|]. cbn. unfold with_axes. rewrite (alter_is_insert _ _ _ _ He).
  destruct (proj1 Hs _ _ He) as [Hid Hst].
  apply (axis_step _ e); [done|done|split; [done|cbn; by split; eexists]|done|]. apply rtc_once. cbn. by destruct (ax_status e).
Qed.

Lemma activate_step id epoch s :
  catalog_ok s -> catalog_ok (activate_axis id epoch s).2 /\ axes_follow s (activate_axis id epoch s).2.
Proof using Type.
  intros Hs. unfold activate_axis. catalog_unfold.
  destruct (ca_axes s !! id) as [e|] eqn:He; [|by apply same_axes]. cbn.
  case_bool_decide as Hd; [|by apply same_axes]. cbn. unfold with_axes. rewrite (alter_is_insert _ _ _ _ He).
  destruct (proj1 Hs _ _ He) as [Hid Hst]. rewrite Hd in Hst.
  apply (axis_step _ e); [done|done|split; [done|exact Hst]|done|]. apply rtc_once. cbn. by rewrite Hd.
Qed.

(** What the end of an epoch makes of an axis. *)
Definition settled (epoch : Z) (e : AxisEntry) : AxisEntry :=
  match ax_status e with
  | AxRamping => if ramp_complete (ax_added_epoch e) epoch (ax_migration_plan e) then with_axis_status AxActive e else e
  | AxDeprecating =>
      if ramp_complete (default epoch (ax_deprecated_epoch e)) epoch (ax_migration_plan e) then with_axis_status AxDeprecated e else e
  | _ => e
  end.

Lemma process_axis_step epoch id e s :
  catalog_ok s -> ca_axes s !! id = Some e ->
  let s' := process_axis epoch s (id, e) in
  catalog_ok s' /\ axes_follow s s' /\ ca_axes s' = <[id := settled epoch e]> (ca_axes s).
Proof.
  intros Hs He s'. destruct (proj1 Hs _ _ He) as [Hid Hst]. unfold s', process_axis, settled, with_axes, with_active. cbn [ca_axes ca_active ca_config].
  assert (ca_axes s = <[id := e]> (ca_axes s)) as Hsame by (by rewrite insert_id).
  destruct (ax_status e) eqn:Est; try (split; [done|]; by split; [apply axes_follow_refl|]).
  - destruct (ramp_complete _ _ _); [|split; [done|]; by split; [apply axes_follow_refl|]].
    cbn [ca_axes ca_active ca_config]. rewrite (alter_is_insert _ _ _ _ He). apply and_assoc. split; [|done].
    apply (axis_step id e); [done|done| | |apply rtc_once; by rewrite Est].
    + split; [done|]. cbn. case_bool_decide; [done|]. set_solver.
    + intros j Hj. case_bool_decide; set_solver.
  - destruct (ramp_complete _ _ _); [|split; [done|]; by split; [apply axes_follow_refl|]].
    cbn [ca_axes ca_active ca_config]. rewrite (alter_is_insert _ _ _ _ He). apply and_assoc. split; [|done].
    apply (axis_step id e); [done|done| | |apply rtc_once; by rewrite Est].
    + split; [done|]. cbn. rewrite list_elem_of_filter. tauto.
    + intros j Hj. rewrite list_elem_of_filter. tauto.
Qed.

Lemma process_list epoch l s :
  NoDup l.*1 -> (forall id e, (id, e) ∈ l -> ca_axes s !! id = Some e) -> catalog_ok s ->
  let s' := foldl (process_axis epoch) s l in
  catalog_ok s' /\ axes_follow s s' /\
  (forall id e, (id, e) ∈ l -> ca_axes s' !! id = Some (settled epoch e)) /\
  (forall id, id ∉ l.*1 -> ca_axes s' !! id = ca_axes s !! id).
Proof.
  revert s. induction l as [|[id e] l IH]; intros s Hnd Hl Hs.
  { split; [done|]. split; [apply axes_follow_refl|]. split; [by intros ?? ?%elem_of_nil|done]. }
  rewrite fmap_cons in Hnd. apply NoDup_cons in Hnd as [Hid Hnd]. cbn [fst] in Hid. cbn [foldl].
  destruct (process_axis_step epoch id e s Hs (Hl id e ltac:(left))) as (Hs1 & Hf1 & Hax).
  destruct (IH (process_axis epoch s (id, e)) Hnd) as (Hs2 & Hf2 & Hin & Hout); [|done|].
  { intros j f Hj. rewrite Hax, lookup_insert_ne; [apply Hl; by right|]. intros ->. apply Hid. apply list_elem_of_fmap. by exists (j, f). }
  split; [done|]. split; [by eapply axes_follow_trans|]. split.
  - intros j f [[= -> ->]|Hj]%elem_of_cons; [|by apply Hin]. by rewrite Hout, Hax, lookup_insert_eq.
  - intros j Hj. rewrite fmap_cons, not_elem_of_cons in Hj. destruct Hj as [Hne Hj]. cbn [fst] in Hne. by rewrite Hout, Hax, lookup_insert_ne.
Qed.

Context (Hiter : forall m, axes_iter m ≡ₚ map_to_list m).

Lemma process_epoch_spec epoch s :
  catalog_ok s ->
  let s' := process_axis_epoch axes_iter epoch s in
  catalog_ok s' /\ axes_follow s s' /\ ca_axes s' = settled epoch <$> ca_axes s.
Proof.
  intros Hs s'. destruct (process_list epoch (axes_iter (ca_axes s)) s) as (Hs' & Hf & Hin & Hout).
  - rewrite Hiter. apply NoDup_fst_map_to_list.
  - intros id e. rewrite Hiter. apply elem_of_map_to_list.
  - done.
  - split; [done|]. split; [done|]. apply map_eq. intros id. rewrite lookup_fmap. fold s' in Hin, Hout.
    destruct (ca_axes s !! id) as [e|] eqn:He; cbn [fmap option_fmap option_map].
    + apply Hin. rewrite Hiter. by apply elem_of_map_to_list.
    + unfold s', process_axis_epoch. rewrite Hout; [done|]. rewrite Hiter, list_elem_of_fmap.
      intros ([j f] & -> & Hj%elem_of_map_to_list). cbn in He. congruence.
Qed.

Lemma call_step c s : catalog_ok s -> catalog_ok (catalog_call s c) /\ axes_follow s (catalog_call s c).
Proof.
  intros Hs. destruct c as [change epoch|id epoch|epoch]; cbn [catalog_call].
  - unfold propose_axis_change. destruct (ac_action change); [by apply add_step|by apply deprecate_step|by apply modify_step].
  - by apply activate_step.
  - destruct (process_epoch_spec epoch s Hs) as (H1 & H2 & _). done.
Qed.

Lemma run_step calls s : catalog_ok s -> catalog_ok (catalog_run s calls) /\ axes_follow s (catalog_run s calls).
Proof.
  revert s. induction calls as [|c calls IH]; intros s Hs; [by apply same_axes|].
  destruct (call_step c s Hs) as [Hs1 Hf1]. destruct (IH _ Hs1) as [Hs2 Hf2]. split; [done|]. by eapply axes_follow_trans.
Qed.

Lemma catalog_start_ok config : catalog_ok (initialize_default_axes (catalog_new config)).
Proof using Type.
  clear axes_iter Hiter.
  split.
  - intros id e. cbn. rewrite !lookup_insert_Some. intros H. repeat (destruct H as [[<- <-]|[? H]]; [split; [done|]; cbn; set_solver|]).
    done.
  - intros id. cbn. rewrite !elem_of_cons, elem_of_nil. intros [->|[->|[->|[]]]]; vm_compute; by eexists.
Qed.

Lemma catalog_weight s id e epoch : catalog_ok s -> ca_axes s !! id = Some e -> exists w, axis_weight e epoch = Ok w.
Proof using Type.
  intros [Hok _] He. destruct (Hok id e He) as [_ Hst]. unfold axis_weight.
  destruct (ax_status e); [by eexists| |by eexists| |by eexists]; destruct Hst as [[plan ->] _]; by eexists.
Qed.

(** C19: Under any proposals, activations and epochs no axis disappears and each only moves along
    Proposed, Ramping, Active, with Deprecating from any of them and then Deprecated; every active axis
    is listed as such, what is listed is active or being deprecated, and the weight of a stored axis is
    always defined. *)
Theorem axes_follow_lifecycle config calls more :
  let s := catalog_run (initialize_default_axes (catalog_new config)) calls in
  axes_follow s (catalog_run s more) /\
  (forall id e, ca_axes s !! id = Some e ->
    ax_axis_id e = id /\ (ax_status e = AxActive -> id ∈ get_active_axes s) /\
    (forall epoch, exists w, get_axis_weight s id epoch = Ok w)) /\
  (forall id, id ∈ get_active_axes s -> exists e, ca_axes s !! id = Some e /\ (ax_status e = AxActive \/ ax_status e = AxDeprecating)).
Proof.
  intros s. destruct (run_step calls _ (catalog_start_ok config)) as [Hs _]. fold s in Hs.
  split; [by apply run_step|]. split.
  - intros id e He. destruct (proj1 Hs id e He) as [Hid Hst]. split; [done|]. split; [by intros E; rewrite E in Hst|].
    intros epoch. unfold get_axis_weight. rewrite He. by apply (catalog_weight s id).
  - intros id Hid. destruct (proj2 Hs id Hid) as [e He]. exists e. split; [done|]. destruct (proj1 Hs id e He) as [_ Hst].
    destruct (ax_status e); tauto.
Qed.

(** Completing the ramps that are due at an epoch changes no weight at that epoch, as long as the
    ends of the ramps fit in [u64]. *)
Theorem process_epoch_keeps_weights epoch s id :
  catalog_ok s ->
  (forall id e plan, ca_axes s !! id = Some e -> ax_migration_plan e = Some plan ->
    0 <= ax_added_epoch e /\ ax_added_epoch e + mp_ramp_epochs plan <= u64_max /\ 0 <= mp_ramp_epochs plan /\
    forall t, ax_deprecated_epoch e = Some t -> 0 <= t /\ t + mp_ramp_epochs plan <= u64_max) ->
  get_axis_weight (process_axis_epoch axes_iter epoch s) id epoch = get_axis_weight s id epoch.
Proof.
  intros Hs Hfit. destruct (process_epoch_spec epoch s Hs) as (_ & _ & Hax). unfold get_axis_weight. rewrite Hax, lookup_fmap.
  destruct (ca_axes s !! id) as [e|] eqn:He; [|done]. cbn [fmap option_fmap option_map result_of_option result_bind].
  destruct (proj1 Hs id e He) as [_ Hst]. specialize (Hfit id e). unfold settled, ramp_complete.
  destruct (ax_status e) eqn:Est; try done; destruct Hst as [[plan Hp] Hst]; rewrite Hp;
    destruct (Hfit plan He Hp) as (Ha & Hr & Hn & Hd).
  - destruct (_ <=? epoch) eqn:E; [|done]. unfold axis_weight. rewrite Est, Hp. cbn. unfold ramp_up. rewrite E.
    ztest (epoch <? ax_added_epoch e); [|done]. unfold to_u64, u64_max in *. rewrite Z.mod_small in E by lia. lia.
  - destruct Hst as [t Ht]. rewrite Ht in *. change (default epoch (Some t)) with t. destruct (_ <=? epoch) eqn:E; [|done].
    unfold axis_weight. rewrite Est, Hp. cbn. rewrite Ht. cbn. unfold ramp_down. rewrite E.
    destruct (Hd t eq_refl). ztest (epoch <? t); [|done]. unfold to_u64, u64_max in *. rewrite Z.mod_small in E by lia. lia.
Qed.
End life.

(** ** Proposing an axis *)

Definition ultrametric_ok (encoder_cid proof_cid : string) : Prop :=
  encoder_cid <> EmptyString /\ proof_cid <> EmptyString /\ extract_distance_function_type proof_cid <> "levenstein" /\
  validate_deterministic_encoding encoder_cid = true /\ validate_proof_sketch proof_cid = true.
Definition security_ok (cid : string) : Prop :=
  cid <> EmptyString /\ validate_spoof_cost_analysis cid = true /\ validate_sybil_resistance cid = true /\
  validate_attack_mitigations cid = true.
(** No listed axis correlates with the encoder up to the threshold. *)
Definition independent s (id : Z) (encoder_cid : string) : Prop :=
  let threshold := xc_max_correlation_threshold (ca_config s) in
  f64_ltb (f64_of_Z 0) threshold = true /\
  forall j e, j ∈ ca_active s -> ca_axes s !! j = Some e ->
  f64_ltb (compute_encoder_correlation encoder_cid (ax_encoder_spec_cid e) j id) threshold = true.

Lemma distance_types proof_cid :
  extract_distance_function_type proof_cid ∈ ["p-adic"; "hamming"; "levenstein"; "generic-ultrametric"].
Proof. unfold extract_distance_function_type. repeat case_match; set_solver. Qed.

Lemma validate_ultrametric_ok encoder_cid proof_cid :
  uv_is_valid (validate_ultrametric encoder_cid proof_cid) = true <-> ultrametric_ok encoder_cid proof_cid.
Proof.
  unfold validate_ultrametric, ultrametric_ok. case_bool_decide; [cbn; split; [done|tauto]|]. case_bool_decide; [cbn; split; [done|tauto]|].
  cbn [orb uv_is_valid]. pose proof (distance_types proof_cid) as Hty. generalize dependent (extract_distance_function_type proof_cid).
  intros ty Hty. destruct (validate_deterministic_encoding encoder_cid), (validate_proof_sketch proof_cid);
    rewrite !elem_of_cons, elem_of_nil in Hty; destruct Hty as [->|[->|[->|[->|[]]]]]; vm_compute; naive_solver.
Qed.

Lemma validate_security_ok cid :
  (validate_security_analysis cid = Ok tt <-> security_ok cid) /\ validate_security_analysis cid <> Panic.
Proof.
  unfold validate_security_analysis, security_ok. case_bool_decide; [split; [|done]; split; [done|tauto]|].
  destruct (validate_spoof_cost_analysis cid); [|split; [|done]; split; [done|naive_solver]].
  destruct (validate_sybil_resistance cid); [|split; [|done]; split; [done|naive_solver]].
  destruct (validate_attack_mitigations cid); [|split; [|done]; split; [done|naive_solver]]. done.
Qed.

Lemma correlation_not_nan a b i j : is_nan (compute_encoder_correlation a b i j) = false.
Proof. unfold compute_encoder_correlation, f64_min. generalize (f64_add (f64_mul (string_similarity a b) (f64_lit 7 10)) (f64_mul (id_factor i j) (f64_lit 3 10))). intros x. destruct (is_nan x) eqn:E; [vm_compute; done|]. change (is_nan (f64_lit 95 100)) with false. cbv iota. by destruct (f64_ltb _ x). Qed.

(** The largest correlation is below a bound exactly when all are. *)
Lemma correlate_below axes id encoder_cid t l acc :
  is_nan acc.2 = false ->
  (f64_ltb (foldl (correlate axes id encoder_cid) acc l).2 t = true <->
   f64_ltb acc.2 t = true /\ forall j e, j ∈ l -> axes !! j = Some e -> f64_ltb (compute_encoder_correlation encoder_cid (ax_encoder_spec_cid e) j id) t = true).
Proof.
  revert acc. induction l as [|j l IH]; intros acc Hacc; cbn [foldl].
  { split; [|tauto]. intros H. split; [done|]. by intros ?? ?%elem_of_nil. }
  unfold correlate at 2. destruct (axes !! j) as [e|] eqn:He; cycle 1.
  { rewrite IH by done. split; intros [H1 H2]; (split; [done|]); intros i f Hi Hf; [|apply (H2 i f); [by right|done]].
    apply elem_of_cons in Hi as [->|Hi]; [congruence|]. by apply (H2 i f). }
  set (c := compute_encoder_correlation encoder_cid (ax_encoder_spec_cid e) j id).
  pose proof (correlation_not_nan encoder_cid (ax_encoder_spec_cid e) j id) as Hc. fold c in Hc.
  rewrite IH by (cbn; destruct (f64_gtb c acc.2); done). cbn [snd].
  assert (f64_ltb (if f64_gtb c acc.2 then c else acc.2) t = true <-> f64_ltb acc.2 t = true /\ f64_ltb c t = true) as Hm.
  { unfold f64_gtb. change (SFltb acc.2 c) with (f64_ltb acc.2 c). destruct (f64_ltb acc.2 c) eqn:E.
    - split; [|tauto]. intros H. split; [|done]. eapply f64_leb_ltb_trans; [by apply f64_ltb_le|done].
    - split; [|tauto]. intros H. split; [done|]. rewrite f64_ltb_leb in E by done. apply negb_false_iff in E. by eapply f64_leb_ltb_trans. }
  rewrite Hm. split.
  - intros [[H1 H2] H3]. split; [done|]. intros i f [->|Hi]%elem_of_cons Hf; [by simplify_eq|by apply (H3 i f)].
  - intros [H1 H2]. split; [split; [done|apply (H2 j e); [by left|done]]|]. intros i f Hi. apply (H2 i f). by right.
Qed.

Lemma check_independence_ok s id encoder_cid :
  ic_is_independent (check_independence s id encoder_cid) = true <-> independent s id encoder_cid.
Proof. unfold check_independence, independent. cbn [ic_is_independent]. by apply correlate_below. Qed.

(** An axis is accepted exactly when its number is new, its documents pass the checks and its encoder
    correlates with no active axis up to the threshold; it is then stored as proposed, and otherwise an
    error is returned and nothing changes. *)
Theorem propose_add_axis_correct change epoch s :
  let id := ac_axis_id change in
  let (r, s') := propose_add_axis change epoch s in
  (r = Ok tt <-> ca_axes s !! id = None /\ ultrametric_ok (ac_encoder_spec_cid change) (ac_ultrametric_proof_cid change) /\
     independent s id (ac_encoder_spec_cid change) /\ security_ok (ac_security_analysis_cid change)) /\
  (r = Ok tt -> s' = with_axes (insert id (new_axis change epoch)) s) /\
  (r <> Ok tt -> s' = s /\ exists e, r = Err e).
Proof.
  intros id. unfold propose_add_axis, check_add_axis. fold id. catalog_unfold.
  case_bool_decide as Hnew; cbn; [split; [split; [done|]; intros [E _]; rewrite E in Hnew; by destruct Hnew|split; [done|by eauto]]|].
  apply eq_None_not_Some in Hnew. pose proof (validate_ultrametric_ok (ac_encoder_spec_cid change) (ac_ultrametric_proof_cid change)) as Hu.
  destruct (uv_is_valid _); cbn; [|split; [split; [done|]; intros (_ & H & _); by apply Hu in H|split; [done|by eauto]]].
  pose proof (check_independence_ok s id (ac_encoder_spec_cid change)) as Hi. unfold check_independence in Hi |- *. cbn [ic_is_independent] in Hi.
  destruct (f64_ltb _ _); cbn; [|split; [split; [done|]; intros (_ & _ & H & _); by apply Hi in H|split; [done|by eauto]]].
  destruct (validate_security_ok (ac_security_analysis_cid change)) as [Hs Hp].
  destruct (validate_security_analysis _) as [[]|e|]; cbn; [| |done].
  - split; [|done]. split; [|done]. intros _. split; [done|]. split; [by apply Hu|]. split; [by apply Hi|by apply Hs].
  - split; [|split; [done|by eauto]]. split; [done|]. intros (_ & _ & _ & H). by apply Hs in H.
Qed.

Lemma same_encoder_correlates i j a :
  0 <= i <= u8_max -> 0 <= j <= u8_max -> f64_ltb (compute_encoder_correlation a a i j) (f64_lit 7 10) = false.
Proof.
  intros Hi Hj. unfold compute_encoder_correlation, string_similarity, id_factor. rewrite bool_decide_eq_true_2 by done.
  assert (exists n, (n < 256)%nat /\ Z.abs (i - j) = Z.of_nat n) as (n & Hn & ->).
  { exists (Z.to_nat (Z.abs (i - j))). unfold u8_max in *. lia. }
  set (check := fun n : nat => negb (f64_ltb (f64_min (f64_add (f64_mul (f64_of_Z 1) (f64_lit 7 10))
    (f64_mul (f64_div (f64_of_Z 1) (f64_add (f64_of_Z 1) (f64_div (f64_of_Z (Z.of_nat n)) (f64_of_Z 10)))) (f64_lit 3 10)))
    (f64_lit 95 100)) (f64_lit 7 10))).
  assert (forallb check (seq 0 256) = true) as Hall by (vm_compute; reflexivity).
  rewrite forallb_forall in Hall. apply negb_true_iff. apply (Hall n). apply in_seq. lia.
Qed.

(** With the default threshold an axis is never added with the encoder of an active axis. *)
Theorem duplicate_encoder_rejected change epoch s j e :
  ca_config s = axis_config_default -> is_u8 j -> is_u8 (ac_axis_id change) ->
  j ∈ get_active_axes s -> ca_axes s !! j = Some e -> ax_encoder_spec_cid e = ac_encoder_spec_cid change ->
  (propose_add_axis change epoch s).1 <> Ok tt /\ (propose_add_axis change epoch s).2 = s.
Proof.
  intros Hcfg Hj Hid Hin He Henc. pose proof (propose_add_axis_correct change epoch s) as H.
  destruct (propose_add_axis change epoch s) as [r s']. destruct H as (Hiff & _ & Hno). cbn [fst snd].
  assert (r <> Ok tt) as Hr; [|split; [done|by apply Hno]]. intros Hr. apply Hiff in Hr as (_ & _ & [_ Hind] & _).
  specialize (Hind j e Hin He). rewrite Hcfg, Henc in Hind. by rewrite same_encoder_correlates in Hind.
Qed.

(** A modification is not checked for independence: a stored axis can be given the encoder of
    another one. *)
Theorem modification_skips_independence change s e j e' :
  ca_axes s !! ac_axis_id change = Some e -> ca_axes s !! j = Some e' ->
  ac_encoder_spec_cid change = ax_encoder_spec_cid e' -> ultrametric_ok (ac_encoder_spec_cid change) (ac_ultrametric_proof_cid change) ->
  let (r, s') := propose_modify_axis change s in
  r = Ok tt /\ ax_encoder_spec_cid <$> get_axis s' (ac_axis_id change) = Some (ax_encoder_spec_cid e') /\
  ax_status <$> get_axis s' (ac_axis_id change) = Some (ax_status e).
Proof.
  intros He _ Henc Hok%validate_ultrametric_ok. unfold propose_modify_axis. catalog_unfold. rewrite He. cbn.
  rewrite Hok. cbn. unfold get_axis, with_axes. cbn [ca_axes].
  rewrite (alter_is_insert _ _ _ _ He), lookup_insert_eq. cbn. by rewrite Henc.
Qed.

(** The number of positions in which two words differ. *)
Definition hamming_distance (a b : list Z) : nat := length (List.filter (fun xy => negb (xy.1 =? xy.2)) (zip a b)).

(** A document that names the Hamming distance is accepted as an ultrametric, which that distance is
    not, and the Levenshtein distance is rejected only when its name is misspelt. *)
Theorem non_ultrametrics_accepted :
  uv_is_valid (validate_ultrametric "Qm_text_encoder_v1" "Qm_hamming_proof") = true /\
  Z.max (Z.of_nat (hamming_distance [0; 0] [0; 1])) (Z.of_nat (hamming_distance [0; 1] [1; 1])) < Z.of_nat (hamming_distance [0; 0] [1; 1]) /\
  uv_is_valid (validate_ultrametric "Qm_text_encoder_v1" "Qm_levenshtein_proof") = true /\
  uv_is_valid (validate_ultrametric "Qm_text_encoder_v1" "Qm_levenstein_proof") = false.
Proof. vm_compute. repeat split; lia. Qed.

(** ** Weights *)

Definition increasing (schedule : list (Z * f64)) : Prop := StronglySorted (fun a b => a.1 < b.1) schedule.

Lemma increasing_last schedule x final : increasing (x :: schedule) -> last (x :: schedule) = Some final -> x.1 <= final.1.
Proof.
  intros Hs%StronglySorted_inv Hl. destruct Hs as [_ Hall]. destruct schedule as [|y l]; [by injection Hl as ->|].
  rewrite last_cons_cons in Hl. apply last_Some_elem_of in Hl. rewrite Forall_forall in Hall. specialize (Hall final Hl). simpl in Hall. lia.
Qed.

Lemma neighbours_spec off schedule lower final i x y :
  increasing schedule -> last schedule = Some final -> schedule !! i = Some x -> schedule !! S i = Some y ->
  x.1 <= off < y.1 -> neighbours off schedule lower final = (x, if off =? x.1 then x else y).
Proof.
  revert lower i. induction schedule as [|[e w] l IH]; intros lower i Hs Hl Hx Hy Hoff; [done|].
  destruct l as [|[e' w'] l]; [by destruct i|]. rewrite last_cons_cons in Hl.
  pose proof (StronglySorted_inv Hs) as [Hs' Hall]. pose proof (increasing_last _ _ _ Hs' Hl) as Hlast.
  destruct i as [|i]; cbn [lookup list_lookup] in Hx, Hy.
  - injection Hx as <-. injection Hy as <-. cbn [fst] in Hoff, Hlast.
    unfold neighbours; fold neighbours. rewrite (proj2 (Z.leb_le e off)) by lia. cbn [fst].
    ztest (off =? e).
    + subst off. rewrite Z.leb_refl. by rewrite (proj2 (Z.ltb_lt e final.1)) by lia.
    + rewrite (proj2 (Z.leb_gt off e)) by lia. cbn [andb]. rewrite (proj2 (Z.leb_gt e' off)), (proj2 (Z.leb_le off e')) by lia. cbn [andb].
      ztest (e' <? final.1); [done|]. destruct l as [|z l]; [by injection Hl as <-|].
      rewrite last_cons_cons in Hl. pose proof (StronglySorted_inv Hs') as [Hs'' Hall'].
      pose proof (increasing_last _ _ _ Hs'' Hl). apply Forall_cons in Hall' as [Hz _]. cbn [fst] in Hz. lia.
  - assert (e < x.1) as He.
    { rewrite Forall_forall in Hall. apply (Hall x). by eapply list_elem_of_lookup_2. }
    unfold neighbours; fold neighbours. rewrite (proj2 (Z.leb_gt off e)) by lia. cbn [andb]. by apply (IH _ i).
Qed.

(** With an increasing schedule the weight at an offset is the given one at the points of the schedule,
    the linear interpolation of the two neighbours between them, zero before the first one and the last
    weight from the last one on. *)
Theorem interpolate_weight_correct off schedule first final :
  increasing schedule -> Forall (fun x => is_u64 x.1) schedule -> head schedule = Some first -> last schedule = Some final ->
  (off < first.1 -> interpolate_weight off schedule = f64_of_Z 0) /\
  (final.1 <= off -> interpolate_weight off schedule = final.2) /\
  (forall i x y, schedule !! i = Some x -> schedule !! S i = Some y -> x.1 <= off < y.1 ->
    interpolate_weight off schedule =
      if off =? x.1 then x.2
      else f64_add x.2 (f64_mul (f64_sub y.2 x.2) (f64_div (f64_of_Z (off - x.1)) (f64_of_Z (y.1 - x.1))))).
Proof.
  intros Hs Hu Hh Hl. destruct schedule as [|z l]; [done|]. injection Hh as ->.
  pose proof (increasing_last _ _ _ Hs Hl) as Hle. unfold interpolate_weight. rewrite Hl.
  split; [|split].
  - intros Hoff. destruct (neighbours _ _ _ _) as [lower upper]. by rewrite (proj2 (Z.ltb_lt off first.1)).
  - intros Hoff. destruct (neighbours _ _ _ _) as [lower upper]. rewrite (proj2 (Z.ltb_ge off first.1)) by lia.
    by rewrite (proj2 (Z.leb_le final.1 off)).
  - intros i x y Hx Hy Hoff. rewrite (neighbours_spec _ _ _ _ i x y) by done.
    assert (first.1 <= x.1 /\ y.1 <= final.1) as [H1 H2].
    { pose proof (StronglySorted_inv Hs) as [_ Hall]. rewrite Forall_forall in Hall. split.
      - destruct i as [|i]; [injection Hx as ->; lia|]. apply Z.lt_le_incl, Hall. by eapply list_elem_of_lookup_2.
      - rewrite last_lookup in Hl. destruct (decide (S i = Nat.pred (length (first :: l)))) as [E|E]; [rewrite <-E, Hy in Hl; simplify_eq; lia|].
        pose proof (lookup_lt_Some _ _ _ Hy). apply Z.lt_le_incl.
        apply (StronglySorted_lookup_lt (fun a b => a.1 < b.1) (first :: l) (S i) (Nat.pred (length (first :: l)))); [done..|lia]. }
    rewrite (proj2 (Z.ltb_ge off first.1)), (proj2 (Z.leb_gt final.1 off)) by lia.
    rewrite Forall_forall in Hu. pose proof (Hu x ltac:(by eapply list_elem_of_lookup_2)). pose proof (Hu y ltac:(by eapply list_elem_of_lookup_2)).
    ztest (off =? x.1); cbn [fst snd]; [by rewrite Z.eqb_refl|]. rewrite (proj2 (Z.eqb_neq y.1 x.1)) by lia.
    unfold to_u64. uint_unfold. by rewrite Z.mod_small by lia.
Qed.

Lemma ramp_up_range t_start plan epoch :
  0 <= mp_ramp_epochs plan -> mp_weight_schedule plan = [] ->
  let w := ramp_up t_start plan epoch in f64_leb (f64_of_Z 0) w = true /\ f64_leb w (f64_of_Z 1) = true.
Proof.
  intros Hr Hs w. unfold w, ramp_up. ztest (epoch <? t_start); [done|]. destruct (_ <=? epoch); [done|].
  rewrite bool_decide_eq_true_2 by done. split; [|by apply f64_min_le_r].
  unfold f64_min. destruct (is_nan _) eqn:En; [done|]. change (is_nan (f64_of_Z 1)) with false. cbv iota.
  destruct (f64_ltb _ _); [done|]. apply f64_zero_le; [done|]. unfold ramp_progress. apply f64_div_sign.
  - destruct (f64_of_Z_ok (epoch - t_start)) as [_ ->]. by rewrite (proj2 (Z.ltb_ge _ _)) by lia.
  - destruct (f64_of_Z_ok (mp_ramp_epochs plan)) as [_ ->]. by apply Z.ltb_ge.
Qed.

(** Without a schedule the weight of every axis that is not being deprecated lies between 0 and 1. *)
Theorem axis_weight_bounded s id epoch w :
  (forall e plan, ca_axes s !! id = Some e -> ax_migration_plan e = Some plan -> 0 <= mp_ramp_epochs plan /\ mp_weight_schedule plan = []) ->
  (forall e, ca_axes s !! id = Some e -> ax_status e <> AxDeprecating) ->
  get_axis_weight s id epoch = Ok w -> f64_leb (f64_of_Z 0) w = true /\ f64_leb w (f64_of_Z 1) = true.
Proof.
  intros Hp Hd. unfold get_axis_weight. destruct (ca_axes s !! id) as [e|]; [|done]. cbn. unfold axis_weight.
  specialize (Hp e). specialize (Hd e eq_refl). destruct (ax_status e); try done; try (intros [= <-]; done).
  destruct (ax_migration_plan e) as [plan|]; [|done]. intros [= <-]. destruct (Hp plan eq_refl eq_refl). by apply ramp_up_range.
Qed.

Section all_weights.
Context (axes_iter : gmap Z AxisEntry -> list (Z * AxisEntry)) (Hiter : forall m, axes_iter m ≡ₚ map_to_list m).

Lemma collect_weights_spec s epoch ids acc :
  (forall id, id ∈ ids -> exists w, get_axis_weight s id epoch = Ok w) ->
  exists l, collect_weights s epoch ids acc = Ok l /\
  (forall id w, (id, w) ∈ l <-> (id, w) ∈ acc \/ id ∈ ids /\ get_axis_weight s id epoch = Ok w /\ f64_gtb w (f64_of_Z 0) = true).
Proof.
  revert acc. induction ids as [|j ids IH]; intros acc Hids; cbn [collect_weights].
  { exists acc. split; [done|]. intros id w. set_solver. }
  destruct (Hids j ltac:(left)) as [v Hv]. rewrite Hv. cbn [result_bind].
  destruct (IH (if f64_gtb v (f64_of_Z 0) then acc ++ [(j, v)] else acc)) as (l & Hl & Hin); [intros; apply Hids; by right|].
  exists l. split; [done|]. intros id w. rewrite Hin, elem_of_cons. destruct (f64_gtb v (f64_of_Z 0)) eqn:E.
  - rewrite elem_of_app, list_elem_of_singleton. split; [intros [[H|[= -> ->]]|H]; tauto|]. intros [H|[[->|H] [H1 H2]]]; [tauto| |tauto].
    rewrite Hv in H1. injection H1 as <-. tauto.
  - split; [tauto|]. intros [H|[[->|H] [H1 H2]]]; [tauto| |tauto]. congruence.
Qed.

(** The weights listed for task routing are exactly the positive weights of the axes that are ramping,
    active or being deprecated. *)
Theorem all_axis_weights_correct s epoch :
  catalog_ok s ->
  exists l, get_all_axis_weights axes_iter s epoch = Ok l /\
  forall id w, (id, w) ∈ l <->
    f64_gtb w (f64_of_Z 0) = true /\ exists e, get_axis s id = Some e /\ ax_status e ∉ [AxProposed; AxDeprecated] /\ axis_weight e epoch = Ok w.
Proof.
  intros Hs. unfold get_all_axis_weights. destruct (collect_weights_spec s epoch (List.filter (fun ie => counts_for_routing ie.2) (axes_iter (ca_axes s))).*1 []) as (l & Hl & Hin).
  - intros id ([j e] & -> & Hj)%list_elem_of_fmap. rewrite list_filter_bool, list_elem_of_filter, Hiter, elem_of_map_to_list in Hj.
    destruct Hj as [_ Hj]. unfold get_axis_weight. cbn [fst]. rewrite Hj. by apply (catalog_weight s j).
  - exists l. split; [done|]. intros id w. rewrite Hin, elem_of_nil, list_elem_of_fmap. unfold get_axis, get_axis_weight.
    assert (forall e, counts_for_routing e = true <-> ax_status e ∉ [AxProposed; AxDeprecated]) as Hw.
    { intros e. unfold counts_for_routing. rewrite !not_elem_of_cons. repeat case_bool_decide; cbn; split; try done; try tauto. intros _. split_and!; [done..|apply not_elem_of_nil]. }
    split.
    + intros [[]|[([j e] & -> & Hj) [H1 H2]]]. rewrite list_filter_bool, list_elem_of_filter, Hiter, elem_of_map_to_list in Hj.
      destruct Hj as [Hj1 Hj2]. cbn [fst snd] in *. rewrite Hj2 in H1. split; [done|]. exists e. split; [done|]. split; [by apply Hw|done].
    + intros [H1 (e & He & Hst & H2)]. right. rewrite He. split; [|done]. exists (id, e). split; [done|].
      rewrite list_filter_bool, list_elem_of_filter, Hiter, elem_of_map_to_list. split; [by apply Hw|done].
Qed.
End all_weights.

(** Deprecating an axis that was only proposed gives it the full weight: it counts for nothing before
    and for everything after. *)
Theorem deprecating_proposed_gains_weight change epoch s e :
  ca_axes s !! ac_axis_id change = Some e -> ax_status e = AxProposed ->
  ac_migration_plan change = mkPlan 1000 [] -> 0 <= epoch -> epoch + 1000 <= u64_max ->
  let (r, s') := propose_deprecate_axis change epoch s in
  r = Ok tt /\ get_axis_weight s (ac_axis_id change) epoch = Ok (f64_of_Z 0) /\
  get_axis_weight s' (ac_axis_id change) epoch = Ok (f64_of_Z 1).
Proof.
  intros He Hst Hp H0 Hmax. unfold propose_deprecate_axis. catalog_unfold. rewrite He. cbn. rewrite Hst. cbn.
  split; [done|]. unfold get_axis_weight, with_axes. cbn [ca_axes]. rewrite (alter_is_insert _ _ _ _ He), lookup_insert_eq, He.
  cbn [result_of_option result_bind]. unfold axis_weight. rewrite Hst. split; [done|]. cbn [deprecating_axis with_epochs with_plan with_axis_status
    ax_status ax_migration_plan ax_deprecated_epoch result_of_option result_bind]. rewrite Hp. f_equal. unfold ramp_down. cbn [mp_ramp_epochs mp_weight_schedule default from_option Datatypes.id].
  rewrite Z.ltb_irrefl. unfold to_u64, u64_max in *. rewrite Z.mod_small by lia.
  rewrite (proj2 (Z.leb_gt _ _)) by lia. cbn [bool_decide]. unfold ramp_progress. rewrite Z.sub_diag. by vm_compute.
Qed.

(** The length of a ramp is not bounded: the end of one of [u64::MAX] epochs wraps around, so the axis
    has its full weight at once. *)
Theorem longest_ramp_is_immediate id epoch s e :
  ca_axes s !! id = Some e -> ax_status e = AxProposed -> ax_migration_plan e = Some (mkPlan u64_max []) -> 1 <= epoch <= u64_max ->
  let (r, s') := activate_axis id epoch s in
  r = Ok tt /\ get_axis_weight s' id epoch = Ok (f64_of_Z 1).
Proof.
  intros He Hst Hp He1. unfold activate_axis. catalog_unfold. rewrite He. cbn. rewrite Hst. cbn. split; [done|].
  unfold get_axis_weight, with_axes. cbn [ca_axes]. rewrite (alter_is_insert _ _ _ _ He), lookup_insert_eq. cbn. rewrite Hp. cbn [result_of_option result_bind].
  f_equal. unfold ramp_up. cbn [mp_ramp_epochs]. rewrite Z.ltb_irrefl. unfold to_u64, u64_max in *.
  replace (epoch + (2 ^ 64 - 1)) with (epoch - 1 + 1 * 2 ^ 64) by lia. rewrite Z.mod_add by lia. rewrite Z.mod_small by lia.
  by rewrite (proj2 (Z.leb_le _ _)) by lia.
Qed.

(** The checks of a proposal and its write are not atomic: a second proposal of a number that passed its
    checks before the first one was stored replaces the axis later, even when it has become active, which
    then has no weight but stays listed. *)
Theorem stale_proposal_replaces_axis change epoch s e :
  catalog_ok s -> ca_axes s !! ac_axis_id change = Some e -> ax_status e = AxActive ->
  let s' := (store_axis change epoch s).2 in
  get_axis s' (ac_axis_id change) = Some (new_axis change epoch) /\ ac_axis_id change ∈ get_active_axes s' /\
  get_axis_weight s (ac_axis_id change) epoch = Ok (f64_of_Z 1) /\ get_axis_weight s' (ac_axis_id change) epoch = Ok (f64_of_Z 0).
Proof.
  intros [Hok _] He Hst s'. destruct (Hok _ e He) as [_ Hin]. rewrite Hst in Hin.
  assert (ca_axes s' !! ac_axis_id change = Some (new_axis change epoch)) as Hs' by apply lookup_insert_eq.
  split; [exact Hs'|]. split; [exact Hin|]. unfold get_axis_weight, axis_weight. rewrite Hs', He. cbn [result_of_option result_bind]. by rewrite Hst.
Qed.

(** ** Witnesses *)

Definition demo_change (action : AxisAction) (id : Z) (encoder : string) (plan : MigrationPlan) : AxisCatalogChange :=
  mkAxisChange action id encoder "Qm_padic_proof" "Qm_full_security" plan.
Definition demo_catalog : AxisCatalogManager := initialize_default_axes (catalog_new axis_config_default).
Definition demo_language : AxisCatalogChange := demo_change AxisAdd 40 "Zx-language" (mkPlan 1000 [(0, f64_of_Z 0); (10, f64_lit 1 2); (30, f64_of_Z 1)]).
Definition demo_calls : list CatalogCall := [CallPropose demo_language 5; CallActivate 40 10; CallProcess 1010].

Example demo_language_active : ax_status <$> get_axis (catalog_run map_to_list demo_catalog demo_calls) 40 = Some AxActive.
Proof. vm_compute. reflexivity. Qed.

Lemma axes_follow_lifecycle_witness :
  let s := catalog_run map_to_list demo_catalog demo_calls in
  axes_follow s (catalog_run map_to_list s [CallPropose (demo_change AxisDeprecate 0 "" (mkPlan 10 [])) 2000; CallProcess 2010]) /\
  get_active_axes s = [0; 1; 2; 40].
Proof.
  cbv zeta. split; [|vm_compute; reflexivity].
  apply (axes_follow_lifecycle map_to_list (fun m => reflexivity _) axis_config_default demo_calls).
Defined.

Lemma demo_catalog_ok calls : catalog_ok (catalog_run map_to_list demo_catalog calls).
Proof. apply (run_step map_to_list (fun m => reflexivity _)). apply catalog_start_ok. Qed.

(** The ends of the ramps fit, as a test. *)
Definition ramp_fits (e : AxisEntry) : bool :=
  match ax_migration_plan e with
  | Some plan => (0 <=? ax_added_epoch e) && (ax_added_epoch e + mp_ramp_epochs plan <=? u64_max) && (0 <=? mp_ramp_epochs plan) &&
                 bool_decide (ax_deprecated_epoch e = None)
  | None => true
  end.
Lemma ramps_fit s :
  forallb (fun ie => ramp_fits ie.2) (map_to_list (ca_axes s)) = true ->
  forall id e plan, ca_axes s !! id = Some e -> ax_migration_plan e = Some plan ->
    0 <= ax_added_epoch e /\ ax_added_epoch e + mp_ramp_epochs plan <= u64_max /\ 0 <= mp_ramp_epochs plan /\
    forall t, ax_deprecated_epoch e = Some t -> 0 <= t /\ t + mp_ramp_epochs plan <= u64_max.
Proof.
  intros H id e plan He Hp. rewrite forallb_forall in H. apply elem_of_map_to_list, list_elem_of_In in He. specialize (H _ He).
  unfold ramp_fits in H. cbn [snd] in H. rewrite Hp in H. apply andb_true_iff in H as [H Hd]. apply bool_decide_eq_true_1 in Hd. rewrite Hd.
  zbool. split; [done|]. split; [done|]. by split.
Qed.

Lemma process_epoch_keeps_weights_witness :
  let s := catalog_run map_to_list demo_catalog [CallPropose demo_language 5; CallActivate 40 10] in
  get_axis_weight (process_axis_epoch map_to_list 1010 s) 40 1010 = get_axis_weight s 40 1010.
Proof.
  intros s. apply (process_epoch_keeps_weights map_to_list); [done|apply demo_catalog_ok|].
  apply ramps_fit. vm_compute. reflexivity.
Defined.

Lemma duplicate_encoder_rejected_witness :
  (propose_add_axis (demo_change AxisAdd 9 "Qm_time_encoder_v1" (mkPlan 10 [])) 5 demo_catalog).1 <> Ok tt /\
  (propose_add_axis (demo_change AxisAdd 9 "Qm_time_encoder_v1" (mkPlan 10 [])) 5 demo_catalog).2 = demo_catalog.
Proof.
  apply (duplicate_encoder_rejected (demo_change AxisAdd 9 "Qm_time_encoder_v1" (mkPlan 10 [])) 5 demo_catalog 0
    (default_axis 0 "Qm_time_encoder_v1" "Qm_time_ultrametric_proof" "Qm_time_security"));
    [reflexivity|done|done|vm_compute; left|vm_compute; reflexivity|reflexivity].
Defined.

Lemma modification_skips_independence_witness :
  let change := demo_change AxisModify 1 "Qm_time_encoder_v1" (mkPlan 10 []) in
  let (r, s') := propose_modify_axis change demo_catalog in
  r = Ok tt /\ ax_encoder_spec_cid <$> get_axis s' 1 = Some "Qm_time_encoder_v1" /\ ax_status <$> get_axis s' 1 = Some AxActive.
Proof.
  exact (modification_skips_independence (demo_change AxisModify 1 "Qm_time_encoder_v1" (mkPlan 10 [])) demo_catalog
    (default_axis 1 "Qm_topic_encoder_v1" "Qm_topic_ultrametric_proof" "Qm_topic_security") 0
    (default_axis 0 "Qm_time_encoder_v1" "Qm_time_ultrametric_proof" "Qm_time_security")
    eq_refl eq_refl eq_refl ltac:(split; [done|]; split; [done|]; vm_compute; done)).
Defined.

Lemma interpolate_weight_correct_witness :
  interpolate_weight 20 (mp_weight_schedule (ac_migration_plan demo_language)) =
    f64_add (f64_lit 1 2) (f64_mul (f64_sub (f64_of_Z 1) (f64_lit 1 2)) (f64_div (f64_of_Z 10) (f64_of_Z 20))).
Proof.
  apply (interpolate_weight_correct 20 (mp_weight_schedule (ac_migration_plan demo_language)) (0, f64_of_Z 0) (30, f64_of_Z 1)
    ltac:(repeat constructor) ltac:(repeat constructor; done) eq_refl eq_refl) with (i := 1%nat) (x := (10, f64_lit 1 2)) (y := (30, f64_of_Z 1)); done.
Defined.

Lemma axis_weight_bounded_witness :
  f64_leb (f64_of_Z 0) (f64_of_Z 1) = true /\ f64_leb (f64_of_Z 1) (f64_of_Z 1) = true.
Proof.
  apply (axis_weight_bounded demo_catalog 1 7 (f64_of_Z 1)); [intros e plan [= <-]; done|intros e [= <-]; done|vm_compute; reflexivity].
Defined.

Lemma all_axis_weights_correct_witness :
  exists l, get_all_axis_weights map_to_list demo_catalog 3 = Ok l /\
  forall id w, (id, w) ∈ l <->
    f64_gtb w (f64_of_Z 0) = true /\ exists e, get_axis demo_catalog id = Some e /\ ax_status e ∉ [AxProposed; AxDeprecated] /\ axis_weight e 3 = Ok w.
Proof. apply (all_axis_weights_correct map_to_list (fun m => reflexivity _)), (demo_catalog_ok []). Defined.

Lemma deprecating_proposed_gains_weight_witness :
  let s := catalog_run map_to_list demo_catalog [CallPropose demo_language 5] in
  let change := demo_change AxisDeprecate 40 "" (mkPlan 1000 []) in
  let (r, s') := propose_deprecate_axis change 6 s in
  r = Ok tt /\ get_axis_weight s 40 6 = Ok (f64_of_Z 0) /\ get_axis_weight s' 40 6 = Ok (f64_of_Z 1).
Proof.
  exact (deprecating_proposed_gains_weight (demo_change AxisDeprecate 40 "" (mkPlan 1000 [])) 6
    (catalog_run map_to_list demo_catalog [CallPropose demo_language 5]) (new_axis demo_language 5) ltac:(vm_compute; reflexivity) eq_refl eq_refl ltac:(lia) ltac:(done)).
Defined.

Lemma longest_ramp_is_immediate_witness :
  let s := catalog_run map_to_list demo_catalog [CallPropose (demo_change AxisAdd 40 "Zx-language" (mkPlan u64_max [])) 5] in
  let (r, s') := activate_axis 40 6 s in
  r = Ok tt /\ get_axis_weight s' 40 6 = Ok (f64_of_Z 1).
Proof.
  exact (longest_ramp_is_immediate 40 6 (catalog_run map_to_list demo_catalog [CallPropose (demo_change AxisAdd 40 "Zx-language" (mkPlan u64_max [])) 5])
    (new_axis (demo_change AxisAdd 40 "Zx-language" (mkPlan u64_max [])) 5) ltac:(vm_compute; reflexivity) eq_refl eq_refl ltac:(done)).
Defined.

Lemma stale_proposal_replaces_axis_witness :
  let s := catalog_run map_to_list demo_catalog demo_calls in
  let s' := (store_axis demo_language 1011 s).2 in
  get_axis s' 40 = Some (new_axis demo_language 1011) /\ 40 ∈ get_active_axes s' /\
  get_axis_weight s 40 1011 = Ok (f64_of_Z 1) /\ get_axis_weight s' 40 1011 = Ok (f64_of_Z 0).
Proof.
  destruct (ca_axes (catalog_run map_to_list demo_catalog demo_calls) !! 40) as [e|] eqn:E; [|vm_compute in E; discriminate E].
  apply (stale_proposal_replaces_axis demo_language 1011 (catalog_run map_to_list demo_catalog demo_calls) e); [apply demo_catalog_ok|exact E|].
  vm_compute in E. injection E as <-. reflexivity.
Defined.
