(* ===== verification/Conflicts.v ===== *)
(** * Conflicts between proposals

    [adic-governance/src/conflict_resolution.rs]: pairs of decided proposals that change the same
    parameter or axis or are enacted close to each other, the choice of a winner by priority, and the
    convergence metrics.

    [blake3] hashes, [timestamp] is the second of a time ([chrono]), [ln] the natural logarithm and
    [values_iter] the order of the values of a map.  [sort_by] gets two scores, as only pairs are
    stored: the insertion sort compares them as it does. *)

From S2P Require Import Prelude F64 Message Voting Lifecycle.

Inductive ConflictType := OverlappingParameters | OverlappingAxes | OverlappingEnactment.
Inductive ResolutionStatus := ResPending | ResResolving | ResResolved | ResAllRejected.
#[export] Instance ResolutionStatus_eq_dec : EqDecision ResolutionStatus.
Proof. solve_decision. Defined.

Record ConflictSet := mkConflict {
  cs_conflict_id : Hash;
  cs_proposals : list Hash;
  cs_type : ConflictType;
  cs_status : ResolutionStatus;
  cs_winner : option Hash;
}.

Record PriorityScore := mkScore {
  sc_proposal_id : Hash;
  sc_class_priority : Z;
  sc_finality_time : Z;
  sc_quorum_margin : f64;
}.

Record ConvergenceMetrics := mkMetrics {
  cm_total_energy : f64;
  cm_per_proposal_energy : gmap Hash f64;
  cm_entropy : f64;
  cm_rounds_since_change : Z;
  cm_converged : bool;
}.

Record ConflictResolver := mkResolver {
  cr_conflicts : gmap Hash ConflictSet;
  cr_proposal_to_conflicts : gmap Hash (list Hash);
}.
Definition resolver_new : ConflictResolver := mkResolver ∅ ∅.

Inductive ConflictError := ConflictNotFound | ConflictingProposalNotFound (id : Hash).

Abbreviation RM := (M ConflictResolver ConflictError).
Implicit Types s : ConflictResolver.

(** The order of byte arrays. *)
Fixpoint bytes_compare (a b : Bytes) : comparison :=
  match a, b with
  | [], [] => Eq
  | [], _ :: _ => Lt
  | _ :: _, [] => Gt
  | x :: a, y :: b => match x ?= y with Eq => bytes_compare a b | c => c end
  end.
Definition id_leb (a b : Bytes) : bool := match bytes_compare a b with Gt => false | _ => true end.

Definition score_compare (x y : PriorityScore) : comparison :=
  match sc_class_priority x ?= sc_class_priority y with
  | Gt => Gt
  | Lt => Lt
  | Eq =>
      match sc_finality_time x ?= sc_finality_time y with
      | Lt => Gt
      | Gt => Lt
      | Eq =>
          let margin_diff := f64_sub (sc_quorum_margin x) (sc_quorum_margin y) in
          if f64_gtb (f64_abs margin_diff) (f64_lit 1 10000)
          then if f64_gtb margin_diff (f64_of_Z 0) then Gt else Lt
          else bytes_compare (sc_proposal_id x) (sc_proposal_id y)
      end
  end.

(** [sort_by(|a, b| a.compare(b).reverse())]: [y] goes before [x] only when it is greater. *)
Definition priority_leb (x y : PriorityScore) : bool := match score_compare y x with Gt => false | _ => true end.

(** The proposals by number. *)
Definition Proposals (V : Type) : Type := gmap Hash (GovernanceProposal V).

Section resolver.
Context {V : Type} (blake3 : Bytes -> Bytes) (timestamp : Z -> Z).
Abbreviation Proposal := (GovernanceProposal V).

(** ** Detection *)

Definition is_decided (p : Proposal) : bool := bool_decide (gp_status p = Succeeded) || bool_decide (gp_status p = Enacting).

Definition check_pair_conflict (p1 p2 : Proposal) : option ConflictType :=
  if negb (bool_decide ((list_to_set (gp_param_keys p1) : gset string) ## list_to_set (gp_param_keys p2))) then Some OverlappingParameters
  else if (match gp_axis_changes p1, gp_axis_changes p2 with
           | Some axis1, Some axis2 => ac_axis_id axis1 =? ac_axis_id axis2
           | _, _ => false
           end) then Some OverlappingAxes
  else if Z.abs (gp_enact_epoch p1 - gp_enact_epoch p2) <? 100 then Some OverlappingEnactment
  else None.

Definition compute_conflict_id (proposal_ids : list Hash) : Hash := blake3 (concat (isort id_leb proposal_ids)).

Definition link (cid : Hash) (links : gmap Hash (list Hash)) (pid : Hash) : gmap Hash (list Hash) :=
  <[pid := default [] (links !! pid) ++ [cid]]> links.
Definition conflict_of (p1 p2 : Proposal) (t : ConflictType) : ConflictSet :=
  mkConflict (compute_conflict_id [gp_id p1; gp_id p2]) [gp_id p1; gp_id p2] t ResPending None.
Definition store_conflict (c : ConflictSet) s : ConflictResolver :=
  mkResolver (<[cs_conflict_id c := c]> (cr_conflicts s))
    (foldl (link (cs_conflict_id c)) (cr_proposal_to_conflicts s) (cs_proposals c)).

Definition detect_pair (p1 : Proposal) (st : ConflictResolver * list ConflictSet) (p2 : Proposal) : ConflictResolver * list ConflictSet :=
  match check_pair_conflict p1 p2 with
  | Some t => let c := conflict_of p1 p2 t in (store_conflict c st.1, st.2 ++ [c])
  | None => st
  end.
(** The pairs of the two loops, [i] before [j]. *)
Fixpoint detect_pairs (st : ConflictResolver * list ConflictSet) (active : list Proposal) : ConflictResolver * list ConflictSet :=
  match active with
  | [] => st
  | p1 :: rest => detect_pairs (foldl (detect_pair p1) st rest) rest
  end.
Definition detect_conflicts (proposals : list Proposal) s : ConflictResolver * list ConflictSet :=
  detect_pairs (s, []) (List.filter is_decided proposals).

(** ** Resolution *)

Definition with_conflict_sets (f : gmap Hash ConflictSet -> gmap Hash ConflictSet) s : ConflictResolver :=
  mkResolver (f (cr_conflicts s)) (cr_proposal_to_conflicts s).
Definition with_resolution (st : ResolutionStatus) (winner : option Hash) (c : ConflictSet) : ConflictSet :=
  mkConflict (cs_conflict_id c) (cs_proposals c) (cs_type c) st winner.

Definition class_priority (c : ProposalClass) : Z := match c with Constitutional => 2 | Operational => 1 end.
Definition priority_of (id : Hash) (p : Proposal) : PriorityScore :=
  mkScore id (class_priority (gp_class p)) (timestamp (gp_creation p)) (default (f64_of_Z 0) (vote_percentage p)).

Fixpoint collect_scores (proposals : Proposals V) (ids : list Hash) : result ConflictError (list PriorityScore) :=
  match ids with
  | [] => Ok []
  | id :: ids =>
      let? p := result_of_option (proposals !! id) (ConflictingProposalNotFound id) in
      let? scores := collect_scores proposals ids in
      Ok (priority_of id p :: scores)
  end.

Definition resolve_conflict_set (conflict_id : Hash) (proposals : Proposals V) : RM Hash :=
  conflicts ← mread cr_conflicts;
  conflict_set ← mopt (conflicts !! conflict_id) ConflictNotFound;
  mwrite (with_conflict_sets (alter (fun c => with_resolution ResResolving (cs_winner c) c) conflict_id));;
  scores ← mresult (collect_scores proposals (cs_proposals conflict_set));
  match isort priority_leb scores with
  | [] => mpanic
  | best :: _ =>
      mwrite (with_conflict_sets (alter (with_resolution ResResolved (Some (sc_proposal_id best))) conflict_id));;
      mret (sc_proposal_id best)
  end.

(** ** Queries *)

Definition get_conflict s (conflict_id : Hash) : option ConflictSet := cr_conflicts s !! conflict_id.
Definition get_proposal_conflicts s (proposal_id : Hash) : list ConflictSet :=
  omap (fun cid => cr_conflicts s !! cid) (default [] (cr_proposal_to_conflicts s !! proposal_id)).
Definition unresolved (c : ConflictSet) : bool := bool_decide (cs_status c = ResPending) || bool_decide (cs_status c = ResResolving).
Definition has_unresolved_conflicts s (proposal_id : Hash) : bool := existsb unresolved (get_proposal_conflicts s proposal_id).

Definition unlink (cid : Hash) (links : gmap Hash (list Hash)) (pid : Hash) : gmap Hash (list Hash) :=
  alter (filter (fun id => id <> cid)) pid links.
Definition remove_conflict (conflict_id : Hash) s : ConflictResolver :=
  match cr_conflicts s !! conflict_id with
  | Some c => mkResolver (delete conflict_id (cr_conflicts s)) (foldl (unlink conflict_id) (cr_proposal_to_conflicts s) (cs_proposals c))
  | None => s
  end.

(** ** Convergence *)

Section convergence.
Context (ln : f64 -> f64) (values_iter : gmap Hash f64 -> list f64).

(** The energies, their total and the total support. *)
Definition add_energy (acc : gmap Hash f64 * f64 * f64) (id : Hash) (p : Proposal) : gmap Hash f64 * f64 * f64 :=
  let '(energies, total_energy, total_support) := acc in
  let support := gp_yes p in
  let energy := f64_mul support support in
  (<[id := energy]> energies, f64_add total_energy energy, f64_add total_support support).
Fixpoint collect_energies (proposals : Proposals V) (acc : gmap Hash f64 * f64 * f64) (ids : list Hash)
    : result ConflictError (gmap Hash f64 * f64 * f64) :=
  match ids with
  | [] => Ok acc
  | id :: ids =>
      let? p := result_of_option (proposals !! id) (ConflictingProposalNotFound id) in
      collect_energies proposals (add_energy acc id p) ids
  end.

Definition add_entropy (total_energy entropy energy : f64) : f64 :=
  if f64_gtb energy (f64_of_Z 0)
  then let prob := f64_div energy total_energy in f64_sub entropy (f64_mul prob (ln prob))
  else entropy.

Definition calculate_convergence s (conflict_id : Hash) (proposals : Proposals V) (previous : option ConvergenceMetrics)
    : result ConflictError ConvergenceMetrics :=
  let? conflict_set := result_of_option (cr_conflicts s !! conflict_id) ConflictNotFound in
  let? totals := collect_energies proposals (∅, f64_of_Z 0, f64_of_Z 0) (cs_proposals conflict_set) in
  let '(energies, total_energy, total_support) := totals in
  let entropy :=
    if f64_gtb total_support (f64_of_Z 0) then foldl (add_entropy total_energy) (f64_of_Z 0) (values_iter energies) else f64_of_Z 0 in
  let rounds :=
    match previous with
    | Some prev =>
        if f64_ltb (f64_abs (f64_sub total_energy (cm_total_energy prev))) (f64_lit 1 100)
        then to_u64 (cm_rounds_since_change prev + 1) else 0
    | None => 0
    end in
  Ok (mkMetrics total_energy energies entropy rounds (f64_ltb entropy (f64_lit 1 2))).
End convergence.
End resolver.

(** ** The order of the scores *)

Lemma bytes_compare_antisym a b : bytes_compare b a = CompOpp (bytes_compare a b).
Proof.
  revert b. induction a as [|x a IH]; intros [|y b]; try done. cbn. rewrite (Z.compare_antisym x y).
  destruct (x ?= y); [apply IH|done..].
Qed.
Lemma bytes_compare_eq a b : bytes_compare a b = Eq <-> a = b.
Proof.
  revert b. induction a as [|x a IH]; intros [|y b]; try done. cbn. destruct (x ?= y) eqn:E.
  - apply Z.compare_eq_iff in E as ->. rewrite IH. split; [by intros ->|by intros [= ->]].
  - split; [done|]. intros [= -> ->]. by rewrite Z.compare_refl in E.
  - split; [done|]. intros [= -> ->]. by rewrite Z.compare_refl in E.
Qed.

Lemma f64_abs_neg x : f64_abs (f64_neg x) = f64_abs x.
Proof. by destruct x. Qed.
Lemma margin_swap d :
  f64_gtb (f64_abs d) (f64_lit 1 10000) = true -> f64_gtb (f64_neg d) (f64_of_Z 0) = negb (f64_gtb d (f64_of_Z 0)).
Proof. by destruct d as [[]|[]| |[]]. Qed.

Lemma score_compare_antisym x y : score_compare y x = CompOpp (score_compare x y).
Proof.
  unfold score_compare. rewrite (Z.compare_antisym (sc_class_priority x)). destruct (_ ?= sc_class_priority y); try done. cbn [CompOpp].
  rewrite (Z.compare_antisym (sc_finality_time x)). destruct (_ ?= sc_finality_time y); try done. cbn [CompOpp].
  destruct (f64_sub_swap (sc_quorum_margin x) (sc_quorum_margin y)) as [E|[-> ->]]; [|apply bytes_compare_antisym].
  rewrite E, f64_abs_neg. destruct (f64_gtb (f64_abs _) _) eqn:Em; [|apply bytes_compare_antisym].
  rewrite margin_swap by done. by destruct (f64_gtb _ (f64_of_Z 0)).
Qed.

Lemma score_compare_eq x y : score_compare x y = Eq -> sc_proposal_id x = sc_proposal_id y.
Proof. unfold score_compare. repeat case_match; try done. by intros ?%bytes_compare_eq. Qed.

(** The score that comes first of two. *)
Definition better (x y : PriorityScore) : PriorityScore := if priority_leb x y then x else y.
Lemma isort_two x y : exists l, isort priority_leb [x; y] = better x y :: l.
Proof. cbn. unfold better. destruct (priority_leb x y); by eexists. Qed.
Lemma better_swap x y : sc_proposal_id (better x y) = sc_proposal_id (better y x).
Proof.
  unfold better, priority_leb. rewrite (score_compare_antisym x y). destruct (score_compare x y) eqn:E; cbn; [by apply score_compare_eq|done..].
Qed.

Section facts.
Context {V : Type} (blake3 : Bytes -> Bytes) (timestamp : Z -> Z).
Abbreviation Proposal := (GovernanceProposal V).
Implicit Types p : Proposal.

(** ** Detection *)

Lemma check_pair_sym p q : check_pair_conflict p q = check_pair_conflict q p.
Proof.
  unfold check_pair_conflict.
  rewrite (bool_decide_ext (list_to_set (gp_param_keys p) ## list_to_set (gp_param_keys q)) (list_to_set (gp_param_keys q) ## (list_to_set (gp_param_keys p) : gset string))) by (by split).
  destruct (gp_axis_changes p) as [a|], (gp_axis_changes q) as [b|]; rewrite ?(Z.eqb_sym (ac_axis_id a));
    replace (gp_enact_epoch q - gp_enact_epoch p) with (- (gp_enact_epoch p - gp_enact_epoch q)) by lia; by rewrite Z.abs_opp.
Qed.

Lemma conflict_id_sym a b : compute_conflict_id blake3 [a; b] = compute_conflict_id blake3 [b; a].
Proof.
  unfold compute_conflict_id. f_equal. cbn. unfold id_leb. rewrite (bytes_compare_antisym a b).
  destruct (bytes_compare a b) eqn:E; cbn; [apply bytes_compare_eq in E as ->|..]; done.
Qed.

(** The pairs of the loops, in order. *)
Fixpoint ordered_pairs {A} (l : list A) : list (A * A) :=
  match l with [] => [] | x :: l => ((fun y => (x, y)) <$> l) ++ ordered_pairs l end.
Definition pair_conflict (pq : Proposal * Proposal) : option ConflictSet :=
  conflict_of blake3 pq.1 pq.2 <$> check_pair_conflict pq.1 pq.2.

Lemma detect_pair_spec p l s acc :
  foldl (detect_pair blake3 p) (s, acc) l =
  let found := omap pair_conflict ((fun q => (p, q)) <$> l) in (foldl (fun s c => store_conflict c s) s found, acc ++ found).
Proof.
  revert s acc. induction l as [|q l IH]; intros s acc; [by cbn; rewrite app_nil_r|]. cbn [foldl]. unfold detect_pair at 2. cbn [fst snd].
  cbn [fmap list_fmap omap list_omap]. assert (pair_conflict (p, q) = conflict_of blake3 p q <$> check_pair_conflict p q) as -> by done.
  destruct (check_pair_conflict p q) as [t|]; cbn [fmap option_fmap option_map]; rewrite IH; [|done].
  cbn zeta. cbn [foldl]. by rewrite <-app_assoc.
Qed.

Lemma detect_pairs_spec active s acc :
  detect_pairs blake3 (s, acc) active =
  let found := omap pair_conflict (ordered_pairs active) in (foldl (fun s c => store_conflict c s) s found, acc ++ found).
Proof.
  revert s acc. induction active as [|p l IH]; intros s acc; [by cbn; rewrite app_nil_r|]. cbn [detect_pairs]. rewrite detect_pair_spec. cbn zeta.
  rewrite IH. cbn [ordered_pairs]. rewrite omap_app, foldl_app, app_assoc. done.
Qed.

Lemma elem_of_ordered_pairs {A} (l : list A) x y :
  (x, y) ∈ ordered_pairs l <-> exists i j, (i < j)%nat /\ l !! i = Some x /\ l !! j = Some y.
Proof.
  induction l as [|z l IH]; cbn [ordered_pairs].
  { split; [by intros ?%elem_of_nil|]. by intros (i & j & _ & ? & _). }
  rewrite elem_of_app, IH, list_elem_of_fmap. split.
  - intros [(y' & [= -> ->] & Hy)|(i & j & Hij & Hi & Hj)].
    + apply list_elem_of_lookup in Hy as [j Hj]. exists 0%nat, (S j). split; [lia|]. done.
    + exists (S i), (S j). split; [lia|]. done.
  - intros ([|i] & [|j] & Hij & Hi & Hj); try lia; cbn in Hi, Hj.
    + left. injection Hi as ->. exists y. split; [done|]. by eapply list_elem_of_lookup_2.
    + right. exists i, j. split; [lia|]. done.
Qed.

(** What is stored after a list of conflicts: the last one under each number. *)
Lemma store_all_conflicts s found cid c :
  cr_conflicts (foldl (fun s c => store_conflict c s) s found) !! cid = Some c ->
  c ∈ found /\ cs_conflict_id c = cid \/ cr_conflicts s !! cid = Some c /\ cid ∉ cs_conflict_id <$> found.
Proof.
  revert s. induction found as [|d found IH]; intros s; cbn [foldl].
  { intros H. right. split; [done|apply not_elem_of_nil]. }
  intros [[H1 H2]|[H1 H2]]%IH; [left; split; [by right|done]|]. revert H1. cbn [store_conflict cr_conflicts].
  destruct (decide (cs_conflict_id d = cid)) as [E|E].
  - rewrite <-E, lookup_insert_eq. intros [= ->]. left. split; [by left|done].
  - rewrite lookup_insert_ne by done. intros H1. right. split; [done|]. rewrite fmap_cons. by apply not_elem_of_cons.
Qed.
Lemma store_all_present s found c :
  c ∈ found -> is_Some (cr_conflicts (foldl (fun s c => store_conflict c s) s found) !! cs_conflict_id c).
Proof.
  assert (forall found s cid, is_Some (cr_conflicts s !! cid) -> is_Some (cr_conflicts (foldl (fun s c => store_conflict c s) s found) !! cid)) as Hkeep.
  { clear. intros found. induction found as [|d found IH]; intros s cid H; [done|]. cbn. apply IH. cbn. apply lookup_insert_is_Some'. by right. }
  revert s. induction found as [|d found IH]; intros s; [by intros ?%elem_of_nil|]. intros [->|H]%elem_of_cons; cbn [foldl]; [|by apply IH].
  apply Hkeep. cbn. rewrite lookup_insert_eq. by eexists.
Qed.

(** The conflicts detected are exactly the pairs of decided proposals that share a parameter key, change
    the same axis or are enacted less than 100 epochs apart, each pair once and named by its first reason in
    that order; what the resolver then holds under a number is a pending pair just detected, or else what
    it held before. *)
Theorem detect_conflicts_correct proposals s :
  let (s', found) := detect_conflicts blake3 proposals s in
  (forall c, c ∈ found <-> exists i j p q t, (i < j)%nat /\
     List.filter is_decided proposals !! i = Some p /\ List.filter is_decided proposals !! j = Some q /\
     check_pair_conflict p q = Some t /\ c = conflict_of blake3 p q t) /\
  (length found <= length (ordered_pairs (List.filter is_decided proposals)))%nat /\
  (forall c, c ∈ found -> is_Some (get_conflict s' (cs_conflict_id c))) /\
  (forall cid c, get_conflict s' cid = Some c ->
     c ∈ found /\ cs_conflict_id c = cid \/ get_conflict s cid = Some c /\ cid ∉ cs_conflict_id <$> found).
Proof.
  unfold detect_conflicts. rewrite detect_pairs_spec. cbn zeta. rewrite app_nil_l. set (active := List.filter is_decided proposals).
  split; [|split; [|split]].
  - intros c. rewrite list_elem_of_omap. split.
    + intros ([p q] & (i & j & Hij & Hi & Hj)%elem_of_ordered_pairs & Hc). unfold pair_conflict in Hc. cbn [fst snd] in Hc.
      destruct (check_pair_conflict p q) as [t|] eqn:E; [|done]. injection Hc as <-. by exists i, j, p, q, t.
    + intros (i & j & p & q & t & Hij & Hi & Hj & Ht & ->). exists (p, q). split; [apply elem_of_ordered_pairs; by exists i, j|].
      unfold pair_conflict. cbn [fst snd]. by rewrite Ht.
  - generalize (ordered_pairs active). intros l. induction l as [|x l IH]; cbn; [lia|]. destruct (pair_conflict x); cbn; lia.
  - intros c Hc. by apply store_all_present.
  - intros cid c. apply store_all_conflicts.
Qed.

(** ** Resolution *)

(** The share of yes of [p] is more than 0.0001 above the one of [q]. *)
Definition clear_margin (p q : Proposal) : Prop :=
  f64_gtb (f64_sub (default (f64_of_Z 0) (vote_percentage p)) (default (f64_of_Z 0) (vote_percentage q))) (f64_lit 1 10000) = true.

(** [a] is the lower number: the first different byte is lower, or it is a proper prefix. *)
Definition lower_id (a b : Hash) : Prop :=
  exists l, (exists x y a' b', a = l ++ x :: a' /\ b = l ++ y :: b' /\ x < y) \/ (exists y b', a = l /\ b = l ++ y :: b').

(** [p], under the number [a], goes before [q], under [b]. *)
Inductive outranks (a b : Hash) (p q : Proposal) : Prop :=
  | higher_class : gp_class p = Constitutional -> gp_class q = Operational -> outranks a b p q
  | created_earlier : gp_class p = gp_class q -> timestamp (gp_creation p) < timestamp (gp_creation q) -> outranks a b p q
  | better_margin : gp_class p = gp_class q -> timestamp (gp_creation p) = timestamp (gp_creation q) -> clear_margin p q -> outranks a b p q
  | higher_id : gp_class p = gp_class q -> timestamp (gp_creation p) = timestamp (gp_creation q) ->
      ~ clear_margin p q -> ~ clear_margin q p -> lower_id b a -> outranks a b p q.

Lemma bytes_compare_lower a b : bytes_compare a b = Lt -> lower_id a b.
Proof.
  revert b. induction a as [|x a IH]; intros [|y b]; cbn; try done.
  { intros _. exists []. right. by exists y, b. }
  destruct (x ?= y) eqn:E; [|intros _; exists []; left; by exists x, y, a, b|done].
  apply Z.compare_eq_iff in E as ->. intros [l [(x' & y' & a' & b' & -> & -> & H)|(y' & b' & -> & ->)]]%IH; exists (y :: l).
  - left. by exists x', y', a', b'.
  - right. by exists y', b'.
Qed.

Lemma lower_compare a b : lower_id a b -> bytes_compare a b = Lt.
Proof.
  intros (l & [(x & y & a' & b' & -> & -> & H)|(y & b' & -> & ->)]); (induction l as [|z l IH]; cbn; [|by rewrite Z.compare_refl]).
  - by rewrite (proj2 (Z.compare_lt_iff _ _) H).
  - done.
Qed.

Lemma margin_gtb d :
  (f64_gtb (f64_abs d) (f64_lit 1 10000) = true -> f64_gtb d (f64_of_Z 0) = f64_gtb d (f64_lit 1 10000)) /\
  (f64_gtb (f64_abs d) (f64_lit 1 10000) = f64_gtb d (f64_lit 1 10000) || f64_gtb (f64_neg d) (f64_lit 1 10000)).
Proof.
  assert (exists m e, f64_lit 1 10000 = S754_finite false m e) as (m & e & ->) by (by eexists _, _; vm_compute).
  destruct d as [[]|[]| |[] m' e']; cbn; try done; split; try done; by rewrite ?orb_false_r.
Qed.

(** The comparison of two scores is the order of the proposals. *)
Lemma score_compare_outranks a b p q : score_compare (priority_of timestamp a p) (priority_of timestamp b q) = Gt <-> outranks a b p q.
Proof.
  unfold score_compare. cbn [priority_of sc_class_priority sc_finality_time sc_quorum_margin sc_proposal_id].
  set (m := default (f64_of_Z 0) (vote_percentage p)). set (n := default (f64_of_Z 0) (vote_percentage q)).
  assert (clear_margin q p <-> f64_gtb (f64_neg (f64_sub m n)) (f64_lit 1 10000) = true) as Hq.
  { unfold clear_margin. fold m n. destruct (f64_sub_swap m n) as [->|[-> ->]]; done. }
  assert (clear_margin p q <-> f64_gtb (f64_sub m n) (f64_lit 1 10000) = true) as Hp by done.
  destruct (margin_gtb (f64_sub m n)) as [Hd Ha].
  assert (gp_class p = gp_class q -> timestamp (gp_creation p) = timestamp (gp_creation q) ->
    (if f64_gtb (f64_abs (f64_sub m n)) (f64_lit 1 10000) then if f64_gtb (f64_sub m n) (f64_of_Z 0) then Gt else Lt else bytes_compare a b) = Gt
    <-> outranks a b p q) as Htie.
  { intros Hc Ht. destruct (f64_gtb (f64_abs _) _) eqn:Eabs.
    - rewrite Hd by done. destruct (f64_gtb (f64_sub m n) (f64_lit 1 10000)) eqn:Emn.
      + split; [intros _; apply better_margin; [done|done|by apply Hp]|done].
      + split; [done|]. intros [| |? ? H%Hp|? ? _ Hnq]; [congruence|lia|congruence|]. by destruct Hnq; apply Hq.
    - symmetry in Ha. apply orb_false_iff in Ha as [H1 H2]. rewrite bytes_compare_antisym.
      assert (~ clear_margin p q /\ ~ clear_margin q p) as [Hnp Hnq] by (split; intros H; [apply (proj1 Hp) in H|apply (proj1 Hq) in H]; congruence).
      split; [intros H; apply higher_id; try done; apply bytes_compare_lower; by destruct (bytes_compare b a)|].
      intros [| |? ? H|? ? _ _ H]; [congruence|lia|by destruct Hnp|by rewrite lower_compare]. }
  clear Hd Ha Hq Hp. revert Htie. generalize (if f64_gtb (f64_abs (f64_sub m n)) (f64_lit 1 10000) then if f64_gtb (f64_sub m n) (f64_of_Z 0) then Gt else Lt else bytes_compare a b).
  clear m n. intros tie Htie. destruct (gp_class p) eqn:Ep, (gp_class q) eqn:Eq; cbn; try (split; [done|intros []; congruence]); try (split; [intros _; by apply higher_class|done]).
  all: destruct (Z.compare_spec (timestamp (gp_creation p)) (timestamp (gp_creation q))) as [E|E|E]; [by apply Htie|..].
  all: split; try done; intros H; first [apply created_earlier; [congruence|done]|destruct H; first [congruence|lia]].
Qed.

Lemma outranks_better a b p q :
  outranks a b p q -> better (priority_of timestamp a p) (priority_of timestamp b q) = priority_of timestamp a p.
Proof. intros H%score_compare_outranks. unfold better, priority_leb. by rewrite score_compare_antisym, H. Qed.

Lemma outranks_total a b p q : a <> b -> outranks a b p q \/ outranks b a q p.
Proof.
  intros Hab. rewrite <-!score_compare_outranks, (score_compare_antisym (priority_of timestamp a p)).
  pose proof (score_compare_eq (priority_of timestamp a p) (priority_of timestamp b q)) as H.
  destruct (score_compare _ _); [by destruct Hab; apply H|by right|by left].
Qed.

Definition winner_of (a b : Hash) (p q : Proposal) : Hash :=
  sc_proposal_id (better (priority_of timestamp a p) (priority_of timestamp b q)).

Lemma winner_one_of a b p q : winner_of a b p q = a \/ winner_of a b p q = b.
Proof. unfold winner_of, better. destruct (priority_leb _ _); auto. Qed.

Definition put_conflict (cid : Hash) (c : ConflictSet) s : ConflictResolver := with_conflict_sets (insert cid c) s.

(** How a resolution of a stored set goes on from its scores. *)
Lemma resolve_unfold (cid : Hash) (c : ConflictSet) (proposals : Proposals V) s :
  get_conflict s cid = Some c ->
  resolve_conflict_set timestamp cid proposals s =
    match collect_scores timestamp proposals (cs_proposals c) with
    | Ok scores =>
        match isort priority_leb scores with
        | [] => (Panic, put_conflict cid (with_resolution ResResolving (cs_winner c) c) s)
        | best :: _ => (Ok (sc_proposal_id best), put_conflict cid (with_resolution ResResolved (Some (sc_proposal_id best)) c) s)
        end
    | Err e => (Err e, put_conflict cid (with_resolution ResResolving (cs_winner c) c) s)
    | Panic => (Panic, put_conflict cid (with_resolution ResResolving (cs_winner c) c) s)
    end.
Proof.
  intros Hc. unfold get_conflict in Hc. unfold resolve_conflict_set, mbind, M_bind, mread, mopt, mwrite, mresult, mpanic, mret, M_ret.
  rewrite Hc. unfold with_conflict_sets, put_conflict. rewrite (alter_is_insert _ _ _ _ Hc). cbn [cr_conflicts].
  destruct (collect_scores _ _ _) as [scores|e|]; [|done..]. destruct (isort priority_leb scores) as [|best l]; [done|].
  f_equal. unfold with_conflict_sets. cbn [cr_conflicts cr_proposal_to_conflicts]. f_equal.
  rewrite (alter_is_insert _ _ _ _ (lookup_insert_eq _ _ _)). by rewrite insert_insert_eq.
Qed.

(** C20: The resolution of a detected pair chooses one of its two proposals, the same whichever of them was
    listed first: a constitutional one before an operational one, of equal classes the one created earlier, of
    the same time the one whose share of yes is more than 0.0001 above the other's, and if neither is the one of
    the lexicographically higher number.  The set is resolved for it, and nothing else changes. *)
Theorem resolve_conflict_set_correct (cid : Hash) a b p q (c : ConflictSet) (proposals : Proposals V) s :
  get_conflict s cid = Some c -> cs_proposals c = [a; b] -> proposals !! a = Some p -> proposals !! b = Some q ->
  let (r, s') := resolve_conflict_set timestamp cid proposals s in
  let w := winner_of a b p q in
  r = Ok w /\ (w = a \/ w = b) /\ w = winner_of b a q p /\
  (outranks a b p q -> w = a) /\ (outranks b a q p -> w = b) /\ (a <> b -> outranks a b p q \/ outranks b a q p) /\
  s' = put_conflict cid (with_resolution ResResolved (Some w) c) s.
Proof.
  intros Hc Hab Hp Hq. rewrite (resolve_unfold _ _ _ _ Hc), Hab. cbn [collect_scores]. rewrite Hp, Hq. cbn [result_of_option result_bind].
  destruct (isort_two (priority_of timestamp a p) (priority_of timestamp b q)) as [l ->]. cbv zeta. fold (winner_of a b p q).
  assert (winner_of a b p q = winner_of b a q p) as Hsym by apply better_swap.
  split; [done|]. split; [apply winner_one_of|]. split; [done|]. split; [|split; [|split; [apply outranks_total|done]]].
  - intros H. unfold winner_of. by rewrite outranks_better.
  - intros H. rewrite Hsym. unfold winner_of. by rewrite outranks_better.
Qed.

(** A resolution that meets a proposal it cannot find fails and leaves the set in resolution, with the
    winner it had. *)
Theorem resolve_missing_proposal (cid : Hash) (c : ConflictSet) (proposals : Proposals V) s :
  get_conflict s cid = Some c -> (exists id, id ∈ cs_proposals c /\ proposals !! id = None) ->
  let (r, s') := resolve_conflict_set timestamp cid proposals s in
  (exists id, r = Err (ConflictingProposalNotFound id) /\ id ∈ cs_proposals c /\ proposals !! id = None) /\
  s' = put_conflict cid (with_resolution ResResolving (cs_winner c) c) s.
Proof.
  intros Hc (id & Hid & Hnone). rewrite (resolve_unfold _ _ _ _ Hc).
  assert (exists id, collect_scores timestamp proposals (cs_proposals c) = Err (ConflictingProposalNotFound id) /\ id ∈ cs_proposals c /\ proposals !! id = None)
    as (id' & -> & H'); [|split; [by exists id'|done]].
  clear Hc. induction (cs_proposals c) as [|j ids IH]; [by apply elem_of_nil in Hid|]. cbn [collect_scores].
  destruct (proposals !! j) as [p|] eqn:Ej; cbn [result_of_option result_bind]; [|exists j; split; [done|by split; [left|]]].
  apply elem_of_cons in Hid as [->|Hid]; [congruence|]. destruct (IH Hid) as (k & -> & Hk & Hk'). exists k. split; [done|]. by split; [right|].
Qed.

(** ** Links *)

(** Every stored set is linked from its two proposals. *)
Definition linked s : Prop :=
  forall cid c, cr_conflicts s !! cid = Some c ->
  cs_conflict_id c = cid /\ (exists a b, cs_proposals c = [a; b]) /\
  forall pid, pid ∈ cs_proposals c -> cid ∈ default [] (cr_proposal_to_conflicts s !! pid).

Inductive resolver_step : ConflictResolver -> ConflictResolver -> Prop :=
  | rs_detect (proposals : list Proposal) s : resolver_step s (detect_conflicts blake3 proposals s).1
  | rs_resolve cid (proposals : Proposals V) s : resolver_step s (resolve_conflict_set timestamp cid proposals s).2
  | rs_remove cid s : resolver_step s (remove_conflict cid s).

Lemma links_grow cid pids links pid x :
  x ∈ default [] (links !! pid) \/ x = cid /\ pid ∈ pids -> x ∈ default [] (foldl (link cid) links pids !! pid).
Proof.
  revert links. induction pids as [|j pids IH]; intros links H; cbn [foldl].
  { destruct H as [H|[_ []%elem_of_nil]]. done. }
  apply IH. destruct H as [H|[-> [->|H]%elem_of_cons]].
  - left. unfold link. destruct (decide (pid = j)) as [->|]; [rewrite lookup_insert_eq; cbn; apply elem_of_app; by left|by rewrite lookup_insert_ne].
  - left. unfold link. rewrite lookup_insert_eq. cbn. apply elem_of_app. right. by left.
  - by right.
Qed.

Lemma store_linked c s : (exists a b, cs_proposals c = [a; b]) -> linked s -> linked (store_conflict c s).
Proof.
  intros Hab Hs cid d. cbn [store_conflict cr_conflicts cr_proposal_to_conflicts]. destruct (decide (cs_conflict_id c = cid)) as [<-|Hne].
  - rewrite lookup_insert_eq. intros [= <-]. split; [done|]. split; [done|]. intros pid Hpid. apply links_grow. by right.
  - rewrite lookup_insert_ne by done. intros Hd. destruct (Hs cid d Hd) as (H1 & H2 & H3). split; [done|]. split; [done|].
    intros pid Hpid. apply links_grow. left. by apply H3.
Qed.

Lemma links_kept cid pids links pid x : x <> cid -> x ∈ default [] (links !! pid) -> x ∈ default [] (foldl (unlink cid) links pids !! pid).
Proof.
  intros Hx. revert links. induction pids as [|j pids IH]; intros links H; [done|]. cbn [foldl]. apply IH. unfold unlink.
  destruct (decide (pid = j)) as [->|]; [|by rewrite lookup_alter_ne]. rewrite lookup_alter_eq. destruct (links !! j); [|done]. cbn in *.
  by apply list_elem_of_filter.
Qed.

Lemma put_linked cid c c' s :
  cr_conflicts s !! cid = Some c -> cs_conflict_id c' = cs_conflict_id c -> cs_proposals c' = cs_proposals c -> linked s -> linked (put_conflict cid c' s).
Proof.
  intros Hc Hid Hps Hs j d. cbn [put_conflict with_conflict_sets cr_conflicts cr_proposal_to_conflicts]. destruct (decide (j = cid)) as [->|Hne].
  - rewrite lookup_insert_eq. intros [= <-]. rewrite Hid, Hps. by apply Hs.
  - rewrite lookup_insert_ne by done. apply Hs.
Qed.

Lemma step_linked s s' : resolver_step s s' -> linked s -> linked s'.
Proof.
  intros [proposals s0|cid proposals s0|cid s0] Hs.
  - unfold detect_conflicts. rewrite detect_pairs_spec. cbn zeta. cbn [fst].
    assert (forall c, c ∈ omap pair_conflict (ordered_pairs (List.filter is_decided proposals)) -> exists a b, cs_proposals c = [a; b]) as H.
    { intros c ([p q] & _ & Hc)%list_elem_of_omap. unfold pair_conflict in Hc. cbn [fst snd] in Hc. destruct (check_pair_conflict p q); [|done].
      injection Hc as <-. by eexists _, _. }
    revert s0 Hs. induction (omap _ _) as [|c l IH]; intros s0 Hs; [done|]. cbn [foldl]. apply IH; [intros; apply H; by right|].
    apply store_linked; [apply H; by left|done].
  - destruct (get_conflict s0 cid) as [c|] eqn:Hc.
    + rewrite (resolve_unfold _ _ _ _ Hc). destruct (collect_scores _ _ _) as [scores|e|]; [destruct (isort priority_leb scores)|..]; by apply (put_linked _ c).
    + unfold resolve_conflict_set, mbind, M_bind, mread, mopt. unfold get_conflict in Hc. by rewrite Hc.
  - unfold remove_conflict. destruct (cr_conflicts s0 !! cid) as [c|] eqn:Hc; [|done].
    intros j d. cbn [cr_conflicts cr_proposal_to_conflicts]. rewrite lookup_delete_Some. intros [Hne Hd]. destruct (Hs j d Hd) as (H1 & H2 & H3).
    split; [done|]. split; [done|]. intros pid Hpid. apply links_kept; [done|by apply H3].
Qed.

(** After any detections, resolutions and removals every stored conflict is found from both its
    proposals, so a proposal in an unresolved conflict is never reported to have none; what is found is
    stored. *)
Theorem proposal_conflicts_found s cid c pid :
  rtc resolver_step resolver_new s -> get_conflict s cid = Some c -> pid ∈ cs_proposals c ->
  c ∈ get_proposal_conflicts s pid /\ (unresolved c = true -> has_unresolved_conflicts s pid = true) /\
  (forall d, d ∈ get_proposal_conflicts s pid -> exists did, get_conflict s did = Some d).
Proof.
  intros Hr Hc Hpid. assert (linked s) as Hs.
  { assert (linked resolver_new) as H0 by (intros ?? H; done).
    clear Hc. revert H0. induction Hr as [|x y z Hxy _ IH]; [done|]. intros Hx. apply IH. by eapply step_linked. }
  destruct (Hs cid c Hc) as (_ & _ & Hl).
  assert (c ∈ get_proposal_conflicts s pid) as Hin. { apply list_elem_of_omap. exists cid. split; [by apply Hl|done]. }
  split; [done|]. split.
  - intros Hu. apply existsb_exists. exists c. split; [by apply list_elem_of_In|done].
  - intros d (did & _ & Hd)%list_elem_of_omap. by exists did.
Qed.

(** Detecting again opens a resolved conflict again and forgets its winner. *)
Theorem redetection_reopens p q t s :
  is_decided p = true -> is_decided q = true -> check_pair_conflict p q = Some t ->
  let cid := compute_conflict_id blake3 [gp_id p; gp_id q] in
  let s' := (detect_conflicts blake3 [p; q] s).1 in
  cs_status <$> get_conflict s' cid = Some ResPending /\ cs_winner <$> get_conflict s' cid = Some None /\
  has_unresolved_conflicts s' (gp_id p) = true.
Proof.
  intros Hp Hq Ht cid s'. unfold s', detect_conflicts. cbn [List.filter]. rewrite Hp, Hq. cbn [detect_pairs foldl]. unfold detect_pair. rewrite Ht.
  cbn [fst]. unfold get_conflict. cbn [store_conflict cr_conflicts conflict_of cs_conflict_id]. fold cid. rewrite lookup_insert_eq.
  split; [done|]. split; [done|]. apply existsb_exists. exists (conflict_of blake3 p q t). split; [|done].
  apply list_elem_of_In, list_elem_of_omap. exists cid. cbn [store_conflict cr_conflicts cr_proposal_to_conflicts conflict_of cs_conflict_id cs_proposals]. fold cid.
  rewrite lookup_insert_eq. split; [|done]. apply links_grow. right. split; [done|]. by left.
Qed.

(** ** Convergence *)

(** Without any yes vote the conflict counts as converged. *)
Theorem no_votes_converged (ln : f64 -> f64) values_iter cid a b p q (c : ConflictSet) (proposals : Proposals V) s previous :
  get_conflict s cid = Some c -> cs_proposals c = [a; b] -> proposals !! a = Some p -> proposals !! b = Some q ->
  gp_yes p = f64_of_Z 0 -> gp_yes q = f64_of_Z 0 ->
  exists m, calculate_convergence ln values_iter s cid proposals previous = Ok m /\ cm_converged m = true.
Proof.
  intros Hc Hab Hp Hq Hyp Hyq. unfold calculate_convergence, get_conflict in *. rewrite Hc. cbn [result_of_option result_bind]. rewrite Hab.
  cbn [collect_energies]. rewrite Hp, Hq. cbn [result_of_option result_bind add_energy]. rewrite Hyp, Hyq.
  eexists. split; [reflexivity|]. by vm_compute.
Qed.
End facts.

(** ** Witnesses *)

Definition demo_proposal_of (id : Hash) (class : ProposalClass) (keys : list string) (enact created : Z) : GovernanceProposal unit :=
  mkProposal id class [] keys tt None None enact EmptyString created 0 Succeeded (f64_of_Z 0) (f64_of_Z 0) (f64_of_Z 0).
Definition prop1 := demo_proposal_of [1] Operational ["k"] 0 50.
Definition prop2 := demo_proposal_of [2] Constitutional ["k"; "d"] 5000 60.
Definition demo_proposals : Proposals unit := <[[1] := prop1]> (<[[2] := prop2]> ∅).
Definition demo_hash (bs : Bytes) : Bytes := 9 :: bs.
Definition detected : ConflictResolver := (detect_conflicts demo_hash [prop1; prop2] resolver_new).1.
Definition demo_conflict : ConflictSet := conflict_of demo_hash prop1 prop2 OverlappingParameters.

(** Two operational proposals of one second without votes: the higher number wins. *)
Definition prop3 := demo_proposal_of [3] Operational ["k"] 0 50.
Lemma resolve_conflict_set_correct_witness :
  let s := (detect_conflicts demo_hash [prop1; prop2; prop3] resolver_new).1 in
  let proposals := <[[3] := prop3]> demo_proposals in
  (exists s', resolve_conflict_set id [9; 1; 2] proposals s = (Ok [2], s')) /\ exists s', resolve_conflict_set id [9; 1; 3] proposals s = (Ok [3], s').
Proof.
  intros s proposals. split.
  - pose proof (resolve_conflict_set_correct id [9; 1; 2] [1] [2] prop1 prop2 (conflict_of demo_hash prop1 prop2 OverlappingParameters) proposals s
      ltac:(vm_compute; reflexivity) eq_refl ltac:(vm_compute; reflexivity) ltac:(vm_compute; reflexivity)) as H.
    destruct (resolve_conflict_set _ _ _ _) as [r s']. destruct H as (-> & _ & _ & _ & H & _). exists s'. rewrite H; [done|by apply higher_class].
  - pose proof (resolve_conflict_set_correct id [9; 1; 3] [1] [3] prop1 prop3 (conflict_of demo_hash prop1 prop3 OverlappingParameters) proposals s
      ltac:(vm_compute; reflexivity) eq_refl ltac:(vm_compute; reflexivity) ltac:(vm_compute; reflexivity)) as H.
    destruct (resolve_conflict_set _ _ _ _) as [r s']. destruct H as (-> & _ & _ & _ & H & _). exists s'. rewrite H; [done|].
    apply higher_id; [done|done|by vm_compute|by vm_compute|]. exists []. left. exists 1, 3, [], []. split; [reflexivity|]. split; [reflexivity|lia].
Defined.
Example demo_winner : (resolve_conflict_set id [9; 1; 2] demo_proposals detected).1 = Ok [2].
Proof. vm_compute. reflexivity. Qed.

Lemma resolve_missing_proposal_witness :
  let (r, s') := resolve_conflict_set id [9; 1; 2] (delete [2] demo_proposals) detected in
  (exists i, r = Err (ConflictingProposalNotFound i) /\ i ∈ cs_proposals demo_conflict /\ (delete [2] demo_proposals : Proposals unit) !! i = None) /\
  s' = put_conflict [9; 1; 2] (with_resolution ResResolving None demo_conflict) detected.
Proof.
  apply (resolve_missing_proposal id [9; 1; 2] demo_conflict (delete [2] demo_proposals) detected); [vm_compute; reflexivity|].
  exists [2]. split; [right; left|vm_compute; reflexivity].
Defined.

Lemma proposal_conflicts_found_witness :
  demo_conflict ∈ get_proposal_conflicts detected [2] /\ (unresolved demo_conflict = true -> has_unresolved_conflicts detected [2] = true) /\
  (forall d, d ∈ get_proposal_conflicts detected [2] -> exists did, get_conflict detected did = Some d).
Proof.
  apply (proposal_conflicts_found (V := unit) demo_hash id detected [9; 1; 2] demo_conflict [2]);
    [apply rtc_once, (rs_detect demo_hash id [prop1; prop2])|vm_compute; reflexivity|right; left].
Defined.

Lemma redetection_reopens_witness :
  let s := (resolve_conflict_set id [9; 1; 2] demo_proposals detected).2 in
  let s' := (detect_conflicts demo_hash [prop1; prop2] s).1 in
  cs_status <$> get_conflict s [9; 1; 2] = Some ResResolved /\
  cs_status <$> get_conflict s' [9; 1; 2] = Some ResPending /\ cs_winner <$> get_conflict s' [9; 1; 2] = Some None /\
  has_unresolved_conflicts s' [1] = true.
Proof.
  cbv zeta. split; [vm_compute; reflexivity|].
  apply (redetection_reopens demo_hash prop1 prop2 OverlappingParameters); vm_compute; reflexivity.
Defined.

Lemma no_votes_converged_witness :
  exists m, calculate_convergence id (fun m => (map_to_list m).*2) detected [9; 1; 2] demo_proposals None = Ok m /\ cm_converged m = true.
Proof.
  apply (no_votes_converged id (fun m => (map_to_list m).*2) [9; 1; 2] [1] [2] prop1 prop2 demo_conflict); vm_compute; reflexivity.
Defined.
