(* ===== verification/Registry.v ===== *)
(** * The parameter registry of governance

    [adic-governance/src/parameters.rs]: the governable parameters with their types, classes, defaults and
    rules, the validation and application of a change, and the parameters exported to the applications.
    It is a second copy of the store of [ParamStore], with two parameters more; [GovernanceClass] and
    [ValidationRule] are the same types in both crates, and so are the two comparisons of values.

    Reading and writing the file is left out; [load_registry] is what [load_from_file] does with the
    values it has parsed, [values_iter] the order in which their map is iterated. *)

From S2P Require Import Prelude F64 Padic Message Admissibility ParamStore.

Inductive ParameterType := PTU8 | PTU32 | PTU64 | PTF64 | PTVecU8 | PTVecU32 | PTVecF64 | PTTupleF64F64.

Record GovParameter (V : Type) := mkParameter {
  pa_key : string;
  pa_param_type : ParameterType;
  pa_governance_class : GovernanceClass;
  pa_default_value : V;
  pa_validation : ValidationRule V;
  pa_description : string;
}.
Arguments mkParameter {V}.
Arguments pa_key {V}.
Arguments pa_param_type {V}.
Arguments pa_governance_class {V}.
Arguments pa_default_value {V}.
Arguments pa_validation {V}.
Arguments pa_description {V}.

Record ParameterRegistry (V : Type) := mkRegistry {
  rg_parameters : gmap string (GovParameter V);
  rg_current_values : gmap string V;
}.
Arguments mkRegistry {V}.
Arguments rg_parameters {V}.
Arguments rg_current_values {V}.

Inductive RegistryError :=
  | InvalidParameter (key : string)
  | ParameterOutOfRange (key : string) (reason : InvalidReason)
  | RegistryValidationFailed (key : string) (reason : InvalidReason).

Section registry.
Context {V : Type} `{!Json V}.
Abbreviation PR := (ParameterRegistry V).
Abbreviation RGM := (M PR RegistryError).
Implicit Types r : PR.

Definition register_parameter (r : PR) (param : GovParameter V) : PR :=
  mkRegistry (<[pa_key param := param]> (rg_parameters r)) (<[pa_key param := pa_default_value param]> (rg_current_values r)).

Definition registry_parameters : list (GovParameter V) :=
  [ mkParameter "p" PTU8 ClassConstitutional (json_u64 3) (InSet [json_u64 3; json_u64 5; json_u64 7])
      "Prime base for p-adic valuation";
    mkParameter "d" PTU8 ClassConstitutional (json_u64 3) (InSet [json_u64 3; json_u64 4])
      "Dimension of p-adic feature space";
    mkParameter "rho" PTVecU8 ClassConstitutional (json_array [json_u64 2; json_u64 2; json_u64 1]) (Custom "validate_rho")
      "Axis radii (must be length d, all >=1)";
    mkParameter "q" PTU8 ClassConstitutional (json_u64 3) (Range (json_u64 2) (json_u64 5))
      "Diversity requirement (distinct balls per axis)";
    mkParameter "k" PTU32 ClassOperational (json_u64 20) (GreaterThanOrEqual (json_u64 1)) "k-core threshold for F1 finality";
    mkParameter "D" PTU32 ClassOperational (json_u64 12) (GreaterThanOrEqual (json_u64 1)) "Depth threshold for F1 finality";
    mkParameter "Delta" PTU32 ClassOperational (json_u64 5) (GreaterThanOrEqual (json_u64 1)) "Window size for finality stabilization";
    mkParameter "lambda" PTF64 ClassOperational (json_float 1) (GreaterThanOrEqual (json_float 0)) "MRW proximity weight";
    mkParameter "mu" PTF64 ClassOperational (json_float 1) (GreaterThanOrEqual (json_float 0)) "MRW trust weight";
    mkParameter "alpha" PTF64 ClassOperational (json_float 1) (GreaterThanOrEqual (json_float 0)) "MRW proximity exponent";
    mkParameter "beta" PTF64 ClassOperational (json_float 1) (GreaterThanOrEqual (json_float 0)) "MRW trust exponent";
    mkParameter "Rmin" PTF64 ClassOperational (json_float 50) (GreaterThanOrEqual (json_float 0))
      "Minimum reputation for message submission";
    mkParameter "rmin" PTF64 ClassOperational (json_float 10) (GreaterThanOrEqual (json_float 0))
      "Minimum reputation weight for parents";
    mkParameter "m" PTU32 ClassOperational (json_u64 64) (GreaterThanOrEqual (json_u64 1)) "Quorum committee size";
    mkParameter "t_bls" PTU32 ClassOperational (json_u64 43) (Custom "validate_t_bls")
      "BLS threshold (must be >= m/2 rounded up, <= m)";
    mkParameter "replication_r" PTU32 ClassOperational (json_u64 5) (GreaterThanOrEqual (json_u64 1)) "Storage replication factor";
    mkParameter "replication_t" PTU32 ClassOperational (json_u64 4) (Custom "validate_replication_t")
      "Storage retrieval threshold (must be <= r)";
    mkParameter "challenge_depth" PTU32 ClassOperational (json_u64 5) (GreaterThanOrEqual (json_u64 1))
      "Challenge window depth in epochs";
    mkParameter "T_enact" PTF64 ClassOperational (json_float 1000) (GreaterThanOrEqual (json_float 0))
      "Timelock duration for governance enactment (seconds)";
    mkParameter "Rmax" PTF64 ClassOperational (json_float 100000) (GreaterThanOrEqual (json_float 1))
      "Maximum reputation cap for voting credits";
    mkParameter "f2_max_betti_d" PTU32 ClassOperational (json_u64 2) (Range (json_u64 1) (json_u64 10))
      "Maximum allowed Betti number for H_d stability check in F2 finality";
    mkParameter "f2_min_persistence" PTF64 ClassOperational (json_f64 (f64_lit 1 100)) (Range (json_f64 (f64_lit 1 1000)) (json_float 1))
      "Minimum persistence threshold for noise filtering in F2 finality stability check" ].

Definition registry_new : PR := foldl register_parameter (mkRegistry ∅ ∅) registry_parameters.

(** ** Reading *)

Definition registry_get r (key : string) : option V := rg_current_values r !! key.
Definition registry_get_metadata r (key : string) : option (GovParameter V) := rg_parameters r !! key.
Definition registry_get_by_class r (c : GovernanceClass) : list (GovParameter V) :=
  filter (fun p => pa_governance_class p = c) (map_to_list (rg_parameters r)).*2.
Definition get_all_values r : gmap string V := rg_current_values r.
(** [self.get(key).and_then(|v| v.as_u64()).unwrap_or(dflt)], and likewise for [f64]. *)
Definition u64_at r (key : string) (dflt : Z) : Z := default dflt (registry_get r key ≫= as_u64).
Definition f64_at r (key : string) (dflt : f64) : f64 := default dflt (registry_get r key ≫= as_f64).

(** ** Changes *)

Definition registry_validate_custom r (key : string) (value : V) (func : string) : result RegistryError unit :=
  let failed reason := RegistryValidationFailed key reason in
  if bool_decide (func = "validate_rho"%string) then
    let? arr := result_of_option (as_array value) (failed NotAnArray) in
    let d := u64_at r "d" 3 in
    if negb (Z.of_nat (length arr) =? d) then Err (failed (WrongLength d))
    else match bad_entry 0 arr with Some i => Err (failed (EntryTooSmall i)) | None => Ok tt end
  else if bool_decide (func = "validate_t_bls"%string) then
    let? t := result_of_option (as_u64 value) (failed NotANumber) in
    let m := u64_at r "m" 64 in
    let min_threshold := to_u64 (m + 1) / 2 in
    if (t <? min_threshold) || (m <? t) then Err (failed (ThresholdOutside min_threshold m)) else Ok tt
  else if bool_decide (func = "validate_replication_t"%string) then
    let? t := result_of_option (as_u64 value) (failed NotANumber) in
    let rr := u64_at r "replication_r" 5 in
    if rr <? t then Err (failed (AboveReplication rr)) else Ok tt
  else Ok tt.

Definition validate_change r (key : string) (new_value : V) : result RegistryError unit :=
  let? param := result_of_option (rg_parameters r !! key) (InvalidParameter key) in
  match pa_validation param with
  | InSet allowed => if existsb (value_eqb new_value) allowed then Ok tt else Err (ParameterOutOfRange key NotInSet)
  | Range lo hi => if value_in_range new_value lo hi then Ok tt else Err (ParameterOutOfRange key OutOfRange)
  | GreaterThanOrEqual lo => if value_gte new_value lo then Ok tt else Err (ParameterOutOfRange key TooSmall)
  | Custom func => registry_validate_custom r key new_value func
  | NoRule => Ok tt
  end.

Definition apply_change (key : string) (new_value : V) : RGM unit :=
  r ← mread (fun r => r);
  mresult (validate_change r key new_value);;
  match rg_current_values r !! key with
  | Some _ => mwrite (fun r => mkRegistry (rg_parameters r) (<[key := new_value]> (rg_current_values r)))
  | None => mfail (InvalidParameter key)
  end.

Fixpoint validate_all r (kvs : list (string * V)) : result RegistryError unit :=
  match kvs with
  | [] => Ok tt
  | (key, value) :: kvs => let? _ := validate_change r key value in validate_all r kvs
  end.
Definition load_registry (values_iter : gmap string V -> list (string * V)) (values : gmap string V) : RGM unit :=
  r ← mread (fun r => r);
  mresult (validate_all r (values_iter values));;
  mwrite (fun r => mkRegistry (rg_parameters r) values).

(** ** Export *)

(** The fields of the exported object that depend on the parameters; the others are constants. *)
Record AppParamsExport := mkExport {
  ap_min_committer_reputation : f64;
  ap_reveal_depth : Z;
  ap_min_arbitrator_reputation : f64;
  ap_members_per_axis : Z;
  ap_quorum_size : Z;
  ap_window_depth : Z;
  ap_min_timelock_epochs : Z;
}.
Definition export_app_params r : AppParamsExport :=
  mkExport (f64_at r "rmin" (f64_of_Z 10)) (u64_at r "challenge_depth" 5) (f64_at r "rmin" (f64_of_Z 10))
    (u64_at r "m" 64 / 4) (u64_at r "m" 64) (u64_at r "challenge_depth" 5)
    (f64_to_u64 (f64_at r "T_enact" (f64_of_Z 1000)) / 100).
End registry.

(** ** The registry and the store *)

Section facts.
Context {V : Type} `{!Json V} `{!JsonLaws V}.
Implicit Types r : ParameterRegistry V.

(** The store with the values of a registry. *)
Definition as_store r : ParameterStore V := mkParamStore (rg_current_values r) ∅ [] 0.

Lemma u64_at_store r key dflt : u64_at r key dflt = u64_or (as_store r) key dflt.
Proof. unfold u64_at, u64_or, get_u64, get_as, get, registry_get. cbn [as_store ps_values]. by destruct (rg_current_values r !! key ≫= as_u64). Qed.

Definition registry_error (e : RegistryError) : ParamError :=
  match e with
  | InvalidParameter key => ParameterNotFound key
  | ParameterOutOfRange key reason | RegistryValidationFailed key reason => ParameterValidationFailed key reason
  end.
Definition map_error {E F A} (f : E -> F) (x : result E A) : result F A :=
  match x with Ok a => Ok a | Err e => Err (f e) | Panic => Panic end.

(** The registry validates a value exactly as the parameter store of the applications does with the same
    rule and the same current values, down to the reason of a refusal. *)
Theorem registry_validates_as_store r key v :
  map_error registry_error (validate_change r key v) =
  match registry_get_metadata r key with
  | None => Err (ParameterNotFound key)
  | Some param => validate_value (as_store r) key v (pa_validation param)
  end.
Proof.
  unfold validate_change, registry_get_metadata. destruct (rg_parameters r !! key) as [param|]; [|done]. cbn [result_of_option result_bind].
  destruct (pa_validation param) as [allowed|lo hi|lo|func|]; cbn [validate_value]; [by destruct (existsb _ _)|by destruct (value_in_range _ _ _)|by destruct (value_gte _ _)| |done].
  unfold registry_validate_custom, validate_custom. rewrite !u64_at_store.
  case_bool_decide. { destruct (as_array v); [|done]. cbn. destruct (negb _); [done|]. by destruct (bad_entry 0 l). }
  case_bool_decide. { destruct (as_u64 v); [|done]. cbn [result_of_option result_bind]. by destruct (_ || _). }
  case_bool_decide; [|done]. destruct (as_u64 v); [|done]. cbn [result_of_option result_bind]. by destruct (_ <? _).
Qed.

(** What the two tables say of a parameter. *)
Definition entry_of (p : GovParameter V) : GovernanceClass * V * ValidationRule V := (pa_governance_class p, pa_default_value p, pa_validation p).
Definition store_entry (m : ParameterMetadata V) : GovernanceClass * V * ValidationRule V := (pm_class m, pm_default m, pm_rule m).

Lemma registered_in_store l (st : gmap string V * gmap string (ParameterMetadata V)) key m :
  (foldl register_param st l).2 !! key = Some m -> m ∈ l /\ pm_key m = key \/ st.2 !! key = Some m.
Proof.
  revert st. induction l as [|m0 l IH]; intros st; [by right|]. cbn [foldl]. intros [[H <-]|H]%IH; [left; split; [by right|done]|].
  unfold register_param in H. cbn [snd] in H. apply lookup_insert_Some in H as [[<- <-]|[_ H]]; [left; split; [by left|done]|by right].
Qed.
Lemma registered_in_registry l r key p :
  rg_parameters (foldl register_parameter r l) !! key = Some p -> p ∈ l /\ pa_key p = key \/ rg_parameters r !! key = Some p.
Proof.
  revert r. induction l as [|p0 l IH]; intros r; [by right|]. cbn [foldl]. intros [[H <-]|H]%IH; [left; split; [by right|done]|].
  unfold register_parameter in H. cbn [rg_parameters] in H. apply lookup_insert_Some in H as [[<- <-]|[_ H]]; [left; split; [by left|done]|by right].
Qed.

Lemma store_in_registry :
  Forall (fun m => entry_of <$> rg_parameters (registry_new (V := V)) !! pm_key m = Some (store_entry m)) default_parameters.
Proof. repeat (apply Forall_cons; split; [reflexivity|]). apply Forall_nil_2. Qed.
Lemma registry_in_store :
  Forall (fun p => pa_key p = "f2_max_betti_d"%string \/ pa_key p = "f2_min_persistence"%string \/
    ps_metadata (store_new (V := V)) !! pa_key p <> None) (registry_parameters (V := V)).
Proof.
  repeat (apply Forall_cons; split; [first [by left|right; by left|right; right; discriminate]|]). apply Forall_nil_2.
Qed.

(** Every parameter of the store is registered with the same class, default and rule; the two that the
    registry has besides cannot be changed in the store. *)
Theorem registry_extends_store key :
  (forall m, ps_metadata (store_new (V := V)) !! key = Some m -> entry_of <$> registry_get_metadata registry_new key = Some (store_entry m)) /\
  (forall p, registry_get_metadata (V := V) registry_new key = Some p -> ps_metadata (store_new (V := V)) !! key = None ->
    (key = "f2_max_betti_d"%string \/ key = "f2_min_persistence"%string) /\
    forall v pid, (apply_governance_change key v pid (store_new (V := V))).1 = Err (ParameterNotFound key)).
Proof.
  split.
  - intros m Hm. rewrite store_new_eq in Hm. unfold ps_metadata, register_default_parameters in Hm.
    destruct (registered_in_store _ _ _ _ Hm) as [[Hin <-]|H]; [|done].
    pose proof store_in_registry as Hall. rewrite Forall_forall in Hall. by apply Hall.
  - intros p Hp Hnone. split.
    + unfold registry_get_metadata, registry_new in Hp. destruct (registered_in_registry _ _ _ _ Hp) as [[Hin <-]|H]; [|done].
      pose proof registry_in_store as Hall. rewrite Forall_forall in Hall. destruct (Hall p Hin) as [?|[?|?]]; [by left|by right|done].
    + intros v pid. rewrite apply_change_eq. by rewrite Hnone.
Qed.

(** ** The values of a registry *)

Ltac small := unfold is_u64, u64_max; lia.

Definition entry_valid (e : GovernanceClass * V * ValidationRule V) : Prop := value_ok e.1.2 e.2.
Lemma registry_defaults_valid : Forall (fun p => value_ok (V := V) (pa_default_value p) (pa_validation p)) registry_parameters.
Proof.
  assert (Forall entry_valid (entry_of <$> registry_parameters)) as H; [|apply (proj1 (Forall_fmap _ _ _)) in H; eapply Forall_impl; [exact H|by intros m]].
  change (entry_of <$> registry_parameters) with ((store_entry <$> default_parameters (V := V)) ++ (entry_of <$> drop 20 registry_parameters)).
  apply Forall_app. split; [apply Forall_fmap; eapply Forall_impl; [exact defaults_valid|by intros m]|]. cbn [drop registry_parameters fmap list_fmap].
  repeat (apply Forall_cons; split); [..|apply Forall_nil_2]; unfold entry_valid; cbn [entry_of fst snd pa_default_value pa_validation value_ok]; unfold value_in_range.
  - rewrite !u64_f64 by small. by vm_compute.
  - unfold json_float. rewrite !f64_f64 by (by vm_compute). by vm_compute.
Qed.

Inductive registry_step : ParameterRegistry V -> ParameterRegistry V -> Prop :=
  | rs_change key v r : registry_step r (apply_change key v r).2
  | rs_load iter values r : (forall m, iter m ≡ₚ map_to_list m) -> registry_step r (load_registry iter values r).2.

Definition values_valid r : Prop :=
  rg_parameters r = rg_parameters registry_new /\
  forall key v, rg_current_values r !! key = Some v -> exists p, rg_parameters r !! key = Some p /\ value_ok v (pa_validation p).

Lemma validate_change_Ok r key v :
  validate_change r key v = Ok tt <-> exists p, rg_parameters r !! key = Some p /\ value_ok v (pa_validation p) /\ relation_ok (as_store r) v (pa_validation p).
Proof.
  pose proof (registry_validates_as_store r key v) as H. unfold registry_get_metadata in H.
  destruct (rg_parameters r !! key) as [p|] eqn:Ep.
  - destruct (validate_value_iff (as_store r) key v (pa_validation p)) as [Hiff _]. rewrite <-H in Hiff.
    destruct (validate_change r key v) as [[]|e|]; cbn [map_error] in Hiff; naive_solver.
  - destruct (validate_change r key v) as [[]|e|]; [done|naive_solver..].
Qed.

Lemma validate_all_Ok r kvs : validate_all r kvs = Ok tt <-> forall key v, (key, v) ∈ kvs -> validate_change r key v = Ok tt.
Proof.
  induction kvs as [|[k w] kvs IH]; cbn [validate_all]; [split; [by intros _ ?? ?%elem_of_nil|done]|].
  rewrite result_bind_Ok. split.
  - intros ([] & Hw & Hall) key v [[= -> ->]|Hin]%elem_of_cons; [done|]. by apply IH.
  - intros Hall. exists tt. split; [apply Hall; by left|]. apply IH. intros key v Hin. apply Hall. by right.
Qed.

Lemma apply_change_spec r key v :
  apply_change key v r =
  match validate_change r key v with
  | Ok _ => match rg_current_values r !! key with
            | Some _ => (Ok tt, mkRegistry (rg_parameters r) (<[key := v]> (rg_current_values r)))
            | None => (Err (InvalidParameter key), r)
            end
  | Err e => (Err e, r)
  | Panic => (Panic, r)
  end.
Proof.
  unfold apply_change, mbind, M_bind, mread, mresult, mwrite, mfail. destruct (validate_change r key v) as [[]|e|]; [|done..].
  by destruct (rg_current_values r !! key).
Qed.

Lemma registry_new_valid : values_valid registry_new.
Proof.
  split; [done|]. assert (forall l r, Forall (fun p => value_ok (V := V) (pa_default_value p) (pa_validation p)) l ->
    (forall key v, rg_current_values r !! key = Some v -> exists p, rg_parameters r !! key = Some p /\ value_ok v (pa_validation p)) ->
    forall key v, rg_current_values (foldl register_parameter r l) !! key = Some v ->
    exists p, rg_parameters (foldl register_parameter r l) !! key = Some p /\ value_ok v (pa_validation p)) as H.
  { intros l. induction l as [|p0 l IH]; intros r Hl Hr; [done|]. apply Forall_cons in Hl as [Hp Hl]. cbn [foldl]. apply IH; [done|].
    intros key v. cbn [register_parameter rg_parameters rg_current_values]. destruct (decide (pa_key p0 = key)) as [<-|Hne].
    - rewrite !lookup_insert_eq. intros [= <-]. by exists p0.
    - rewrite !lookup_insert_ne by done. apply Hr. }
  apply (H registry_parameters (mkRegistry ∅ ∅)); [apply registry_defaults_valid|done].
Qed.

(** However the registry is changed or loaded, every value it has belongs to a registered parameter and
    meets its rule by itself. *)
Theorem registry_values_valid r :
  rtc registry_step registry_new r ->
  rg_parameters r = rg_parameters registry_new /\
  forall key v, registry_get r key = Some v -> exists p, registry_get_metadata r key = Some p /\ value_ok v (pa_validation p).
Proof.
  intros Hr. assert (values_valid r) as H; [|exact H]. pose proof registry_new_valid as H0. revert H0.
  induction Hr as [|x y z Hxy _ IH]; [done|]. intros [Hx1 Hx2]. apply IH. clear IH. destruct Hxy as [key v r|iter values r Hiter].
  - rewrite apply_change_spec. destruct (validate_change r key v) as [[]|e|] eqn:Ev; [|done..].
    destruct (rg_current_values r !! key); [|done]. split; [done|]. cbn [snd rg_current_values rg_parameters]. intros key' v'.
    apply validate_change_Ok in Ev as (p & Hp & Hok & _). destruct (decide (key = key')) as [<-|Hne].
    + rewrite lookup_insert_eq. intros [= <-]. by exists p.
    + rewrite lookup_insert_ne by done. apply Hx2.
  - unfold load_registry, mbind, M_bind, mread, mresult, mwrite. destruct (validate_all r (iter values)) as [[]|e|] eqn:Ev; [|done..].
    split; [done|]. cbn [snd rg_current_values rg_parameters]. intros key v Hv.
    apply elem_of_map_to_list in Hv. rewrite <-Hiter in Hv. pose proof (proj1 (validate_all_Ok _ _) Ev key v Hv) as (p & Hp & Hok & _)%validate_change_Ok.
    by exists p.
Qed.

(** Loading a file replaces all values: a parameter that the file does not mention has no value any more,
    and can no longer be changed, although it is registered. *)
Theorem loading_drops_missing iter (values : gmap string V) r key :
  (forall m, iter m ≡ₚ map_to_list m) -> values !! key = None ->
  (load_registry iter values r).1 = Ok tt ->
  let r' := (load_registry iter values r).2 in
  registry_get r' key = None /\ registry_get_metadata r' key = registry_get_metadata r key /\
  forall v, (apply_change key v r').1 <> Ok tt.
Proof.
  intros Hiter Hnone Hok r'.
  assert (r' = mkRegistry (rg_parameters r) values) as ->.
  { unfold r'. revert Hok. unfold load_registry, mbind, M_bind, mread, mresult, mwrite. by destruct (validate_all r (iter values)) as [[]|e|]. }
  split; [exact Hnone|]. split; [done|]. intros v. rewrite apply_change_spec. destruct (validate_change _ _ _); [|done..].
  cbn [rg_current_values]. by rewrite Hnone.
Qed.

(** The type of a parameter is not checked: a fraction is accepted for [k], an integer, which then cannot
    be read as one. *)
Theorem types_not_checked x :
  is_finite x = true -> f64_leb (f64_of_Z 1) x = true ->
  let r' := (apply_change "k" (json_f64 x) (registry_new (V := V))).2 in
  (apply_change "k" (json_f64 x) (registry_new (V := V))).1 = Ok tt /\
  pa_param_type <$> registry_get_metadata r' "k" = Some PTU32 /\ registry_get r' "k" ≫= as_u64 = None.
Proof.
  intros Hx Hle. assert (validate_change registry_new "k" (json_f64 (V := V) x) = Ok tt) as Hv.
  { unfold validate_change. change (rg_parameters (registry_new (V := V)) !! "k"%string) with
      (Some (mkParameter (V := V) "k" PTU32 ClassOperational (json_u64 20) (GreaterThanOrEqual (json_u64 1)) "k-core threshold for F1 finality")).
    cbn [result_of_option result_bind pa_validation]. unfold value_gte. rewrite f64_f64, u64_f64 by (done || small).
    change (f64_geb x (f64_of_Z 1)) with (f64_leb (f64_of_Z 1) x). by rewrite Hle. }
  rewrite apply_change_spec, Hv. change (rg_current_values (registry_new (V := V)) !! "k"%string) with (Some (json_u64 (V := V) 20)).
  cbv zeta. cbn [fst snd]. split; [done|]. split; [reflexivity|]. unfold registry_get. cbn [rg_current_values].
  rewrite lookup_insert_eq. cbn. apply f64_u64.
Qed.

(** A change of [m] does not look at [t_bls]: with a committee of ten the threshold stays at 43. *)
Theorem threshold_above_committee :
  let r' := (apply_change "m" (json_u64 10) (registry_new (V := V))).2 in
  (apply_change "m" (json_u64 10) (registry_new (V := V))).1 = Ok tt /\
  u64_at r' "m" 64 = 10 /\ u64_at r' "t_bls" 0 = 43 /\ ap_quorum_size (export_app_params r') = 10.
Proof.
  assert (validate_change registry_new "m" (json_u64 (V := V) 10) = Ok tt) as Hv.
  { unfold validate_change. change (rg_parameters (registry_new (V := V)) !! "m"%string) with
      (Some (mkParameter (V := V) "m" PTU32 ClassOperational (json_u64 64) (GreaterThanOrEqual (json_u64 1)) "Quorum committee size")).
    cbn [result_of_option result_bind pa_validation]. unfold value_gte. by rewrite !u64_f64 by small. }
  rewrite apply_change_spec, Hv. change (rg_current_values (registry_new (V := V)) !! "m"%string) with (Some (json_u64 (V := V) 64)).
  cbv zeta. cbn [fst snd]. split; [done|]. set (r' := mkRegistry _ _).
  assert (registry_get r' "m" = Some (json_u64 10)) as Hm by (unfold r', registry_get; cbn [rg_current_values]; apply lookup_insert_eq).
  assert (registry_get r' "t_bls" = Some (json_u64 43)) as Ht.
  { unfold r', registry_get. cbn [rg_current_values]. rewrite lookup_insert_ne by done. reflexivity. }
  unfold export_app_params. cbn [ap_quorum_size]. unfold u64_at. rewrite Hm, Ht. cbn [mbind option_bind]. by rewrite !u64_u64 by small.
Qed.
End facts.

(** ** Witnesses *)

Abbreviation demo_registry := (registry_new (V := JsonValue)).

Lemma registry_values_valid_witness :
  let r := (apply_change "p" (json_u64 5) demo_registry).2 in
  u64_at r "p" 0 = 5 /\
  rg_parameters r = rg_parameters registry_new /\
  forall key v, registry_get r key = Some v -> exists p, registry_get_metadata r key = Some p /\ value_ok v (pa_validation p).
Proof.
  cbv zeta. split; [vm_compute; reflexivity|].
  apply (registry_values_valid (apply_change "p" (json_u64 5) demo_registry).2). apply rtc_once, rs_change.
Defined.

Lemma loading_drops_missing_witness :
  let r' := (load_registry map_to_list ∅ demo_registry).2 in
  registry_get r' "p" = None /\ registry_get_metadata r' "p" = registry_get_metadata demo_registry "p" /\
  forall v, (apply_change "p" v r').1 <> Ok tt.
Proof. apply (loading_drops_missing map_to_list ∅ demo_registry "p"); [done|reflexivity|vm_compute; reflexivity]. Defined.

Lemma types_not_checked_witness :
  let r' := (apply_change "k" (json_f64 (f64_lit 3 2)) demo_registry).2 in
  (apply_change "k" (json_f64 (f64_lit 3 2)) demo_registry).1 = Ok tt /\
  pa_param_type <$> registry_get_metadata r' "k" = Some PTU32 /\ registry_get r' "k" ≫= as_u64 = None.
Proof. apply (types_not_checked (f64_lit 3 2)); vm_compute; reflexivity. Defined.
