(* ===== verification/Retrieval.v ===== *)
(** * Retrievals of the storage market

    [adic-storage-market/src/retrieval.rs]: requests for stored data, the responses of the providers with
    their bandwidth and price, timeouts and statistics.

    [now] is the clock in seconds, [blake3] the hash, [sessions_iter] the order in which the sessions are
    listed.  The counts and the wrapping sums of the statistics do not depend on that order. *)

From S2P Require Import Prelude F64 Message Amount Voting MarketTypes.

(** ** Data *)

Record ByteRange := mkRange { br_start : Z; br_end : Z }.

Inductive RetrievalError :=
  | InvalidByteRange
  | PriceAboveMaximum (price maximum : AdicAmount)
  | BandwidthBelowMinimum (bandwidth minimum : Z)
  | DeadlineInThePast
  | RetrievalNotFound
  | UnauthorizedProvider.

Definition range_new (start end_ : Z) : result RetrievalError ByteRange :=
  if end_ <? start then Err InvalidByteRange else Ok (mkRange start end_).
Definition range_size (r : ByteRange) : Z := to_u64 (br_end r - br_start r + 1).

Record RetrievalRequest := mkRequestR {
  rq_protocol : Protocol;
  rq_request_id : Hash;
  rq_deal_id : Z;
  rq_client : AccountAddress;
  rq_provider : AccountAddress;
  rq_byte_range : option ByteRange;
  rq_max_price_per_gb : AdicAmount;
  rq_min_bandwidth_bps : Z;
  rq_deadline_epoch : Z;
  rq_finality_status : FinalityStatus;
  rq_finalized_at_epoch : option Z;
}.

Inductive RetrievalStatus := RetCompleted | RetFailed | RetSlaViolation | RetTimeout.
#[export] Instance RetrievalStatus_eq_dec : EqDecision RetrievalStatus.
Proof. solve_decision. Defined.

Record RetrievalResponse := mkResponse {
  rp_protocol : Protocol;
  rp_ref_request : Hash;
  rp_provider : AccountAddress;
  rp_bytes_transferred : Z;
  rp_transfer_duration_secs : Z;
  rp_actual_bandwidth_bps : Z;
  rp_price_per_gb : AdicAmount;
  rp_total_payment : AdicAmount;
  rp_status : RetrievalStatus;
  rp_finality_status : FinalityStatus;
  rp_finalized_at_epoch : option Z;
}.

Record RetrievalSession := mkSession {
  se_request : RetrievalRequest;
  se_response : option RetrievalResponse;
  se_created_epoch : Z;
  se_completed_epoch : option Z;
}.

Record RetrievalConfig := mkRetrievalConfig {
  rtc_default_timeout_epochs : Z;
  rtc_min_bandwidth_sla : Z;
  rtc_default_price_per_gb : AdicAmount;
  rtc_max_price_per_gb : AdicAmount;
}.
Definition retrieval_config_default : RetrievalConfig :=
  mkRetrievalConfig 100 (1024 * 1024) (from_adic (f64_lit 1 100)) (from_adic (f64_of_Z 1)).

Record RetrievalManager := mkRetrievals {
  rm_config : RetrievalConfig;
  rm_sessions : gmap Hash RetrievalSession;
}.
Definition retrieval_manager_new (config : RetrievalConfig) : RetrievalManager := mkRetrievals config ∅.

Record RetrievalStats := mkRetrievalStats {
  rst_total_requests : nat;
  rst_completed_retrievals : nat;
  rst_failed_retrievals : nat;
  rst_sla_violations : nat;
  rst_timeouts : nat;
  rst_pending_retrievals : nat;
  rst_total_bytes_transferred : Z;
  rst_total_payments : AdicAmount;
  rst_avg_bandwidth_bps : Z;
}.

Section retrieval.
Context (now : Z) (blake3 : Bytes -> Bytes) (sessions_iter : gmap Hash RetrievalSession -> list (Hash * RetrievalSession)).
Abbreviation RTM := (M RetrievalManager RetrievalError).
Implicit Types s : RetrievalManager.

Definition request_new (deal_id : Z) (client provider : AccountAddress) (byte_range : option ByteRange) (max_price_per_gb : AdicAmount)
    (min_bandwidth_bps deadline_epoch : Z) : RetrievalRequest :=
  mkRequestR (protocol_new now) (blake3 (to_le_bytes 8 deal_id ++ client ++ to_le_bytes 8 (to_u64 now))) deal_id client provider byte_range
    max_price_per_gb min_bandwidth_bps deadline_epoch Pending None.
Definition request_is_finalized (r : RetrievalRequest) : bool := is_finalized (rq_finality_status r).

Definition bandwidth_of (bytes_transferred transfer_duration_secs : Z) : Z :=
  if 0 <? transfer_duration_secs then bytes_transferred / transfer_duration_secs else 0.
Definition payment_of (price_per_gb : AdicAmount) (bytes_transferred : Z) : AdicAmount :=
  f64_to_u64 (f64_mul (f64_of_Z price_per_gb) (f64_div (f64_of_Z bytes_transferred) (f64_of_Z (1024 * 1024 * 1024)))).
Definition response_new (ref_request : Hash) (provider : AccountAddress) (bytes_transferred transfer_duration_secs : Z)
    (price_per_gb : AdicAmount) (status : RetrievalStatus) : RetrievalResponse :=
  mkResponse (protocol_new now) ref_request provider bytes_transferred transfer_duration_secs
    (bandwidth_of bytes_transferred transfer_duration_secs) price_per_gb (payment_of price_per_gb bytes_transferred) status Pending None.
Definition response_is_finalized (r : RetrievalResponse) : bool := is_finalized (rp_finality_status r).

Definition with_sessions (f : gmap Hash RetrievalSession -> gmap Hash RetrievalSession) s : RetrievalManager := mkRetrievals (rm_config s) (f (rm_sessions s)).

Definition submit_request (request : RetrievalRequest) (current_epoch : Z) : RTM Hash :=
  config ← mread rm_config;
  mbail (rtc_max_price_per_gb config <? rq_max_price_per_gb request) (PriceAboveMaximum (rq_max_price_per_gb request) (rtc_max_price_per_gb config));;
  mbail (rq_min_bandwidth_bps request <? rtc_min_bandwidth_sla config)
    (BandwidthBelowMinimum (rq_min_bandwidth_bps request) (rtc_min_bandwidth_sla config));;
  mbail (rq_deadline_epoch request <=? current_epoch) DeadlineInThePast;;
  mwrite (with_sessions (insert (rq_request_id request) (mkSession request None current_epoch None)));;
  mret (rq_request_id request).

(** A late response and one below the bandwidth asked for are logged only. *)
Definition submit_response (response : RetrievalResponse) (current_epoch : Z) : RTM unit :=
  sessions ← mread rm_sessions;
  session ← mopt (sessions !! rp_ref_request response) RetrievalNotFound;
  mbail (negb (bool_decide (rq_provider (se_request session) = rp_provider response))) UnauthorizedProvider;;
  mwrite (with_sessions (insert (rp_ref_request response)
    (mkSession (se_request session) (Some response) (se_created_epoch session) (Some current_epoch)))).

Definition get_session s (request_id : Hash) : option RetrievalSession := rm_sessions s !! request_id.
Definition is_pending (se : RetrievalSession) : bool := bool_decide (se_response se = None).
Definition get_active_sessions s : list RetrievalSession := List.filter is_pending (sessions_iter (rm_sessions s)).*2.

Definition timeout_response (request_id : Hash) (session : RetrievalSession) : RetrievalResponse :=
  mkResponse (protocol_new now) request_id (rq_provider (se_request session)) 0 0 0 ZERO ZERO RetTimeout Pending None.
Definition is_due (current_epoch : Z) (se : RetrievalSession) : bool :=
  is_pending se && (rq_deadline_epoch (se_request se) <? current_epoch).
Definition timed_out_session (current_epoch : Z) (request_id : Hash) (session : RetrievalSession) : RetrievalSession :=
  mkSession (se_request session) (Some (timeout_response request_id session)) (se_created_epoch session) (Some current_epoch).
Definition check_timeouts (current_epoch : Z) s : RetrievalManager * list Hash :=
  let (sessions, timed_out) :=
    loop_entries (is_due current_epoch) (timed_out_session current_epoch) (sessions_iter (rm_sessions s)) (rm_sessions s) in
  (with_sessions (fun _ => sessions) s, timed_out).

Definition has_status (st : RetrievalStatus) (se : RetrievalSession) : bool :=
  match se_response se with Some r => bool_decide (rp_status r = st) | None => false end.
Definition count_sessions (f : RetrievalSession -> bool) s : nat := size (filter (fun ise => f ise.2 = true) (rm_sessions s)).
(** [iter().sum()] of what the responses hold, which wraps around. *)
Definition sum_responses (f : RetrievalResponse -> Z) s : Z :=
  to_u64 (mapsum (fun ise => match se_response ise.2 with Some r => f r | None => 0 end) (rm_sessions s)).
Definition bandwidth_sample (r : RetrievalResponse) : Z := if bool_decide (rp_status r = RetCompleted) then rp_actual_bandwidth_bps r else 0.
Definition get_retrieval_stats s : RetrievalStats :=
  let completed := count_sessions (has_status RetCompleted) s in
  mkRetrievalStats (size (rm_sessions s)) completed (count_sessions (has_status RetFailed) s) (count_sessions (has_status RetSlaViolation) s)
    (count_sessions (has_status RetTimeout) s) (count_sessions is_pending s)
    (sum_responses rp_bytes_transferred s) (sum_responses rp_total_payment s)
    (if (completed =? 0)%nat then 0 else sum_responses bandwidth_sample s / Z.of_nat completed).
End retrieval.

(** ** Ranges *)

(** A range is made exactly when it does not end before it starts, and its size is the number of its
    bytes, except that the range of all [2^64] bytes has size 0. *)
Theorem range_size_correct start end_ :
  is_u64 start -> is_u64 end_ ->
  (range_new start end_ = Ok (mkRange start end_) <-> start <= end_) /\
  (range_new start end_ = Err InvalidByteRange <-> end_ < start) /\
  (start <= end_ -> range_size (mkRange start end_) = if (start =? 0) && (end_ =? u64_max) then 0 else end_ - start + 1).
Proof.
  intros Hs He. unfold range_new. split; [ztest (end_ <? start); split; (done || lia)|]. split; [ztest (end_ <? start); split; (done || lia)|].
  intros Hle. unfold range_size. cbn [br_start br_end]. unfold to_u64. uint_unfold.
  ztest (start =? 0); ztest (end_ =? 2 ^ 64 - 1); cbn [andb]; subst; [reflexivity|rewrite Z.mod_small; lia..].
Qed.

(** ** Sessions *)

Section facts.
Context (now : Z) (sessions_iter : gmap Hash RetrievalSession -> list (Hash * RetrievalSession)).
Context (Hiter : forall m, sessions_iter m ≡ₚ map_to_list m).
Implicit Types s : RetrievalManager.

(** A session: its request has its number, and a response is its provider's and dates from its completion. *)
Definition session_ok (id : Hash) (se : RetrievalSession) : Prop :=
  rq_request_id (se_request se) = id /\
  match se_response se with
  | Some r => rp_ref_request r = id /\ rp_provider r = rq_provider (se_request se) /\ is_Some (se_completed_epoch se)
  | None => se_completed_epoch se = None
  end.
Definition sessions_ok s : Prop := map_Forall session_ok (rm_sessions s).

Inductive retrieval_step : RetrievalManager -> RetrievalManager -> Prop :=
  | rt_request r epoch s : retrieval_step s (submit_request r epoch s).2
  | rt_response r epoch s : retrieval_step s (submit_response r epoch s).2
  | rt_timeouts epoch s : retrieval_step s (check_timeouts now sessions_iter epoch s).1.

Definition timed_out (epoch : Z) (id : Hash) (se : RetrievalSession) : RetrievalSession :=
  if is_due epoch se
  then mkSession (se_request se) (Some (timeout_response now id se)) (se_created_epoch se) (Some epoch) else se.

Lemma check_timeouts_spec epoch s :
  let (s', out) := check_timeouts now sessions_iter epoch s in
  (forall id, rm_sessions s' !! id = timed_out epoch id <$> rm_sessions s !! id) /\ NoDup out /\
  (forall id, id ∈ out <-> exists se, get_session s id = Some se /\ se_response se = None /\ rq_deadline_epoch (se_request se) < epoch).
Proof.
  unfold check_timeouts. pose proof (loop_entries_spec (is_due epoch) (timed_out_session now epoch) _ _ (Hiter (rm_sessions s))) as H.
  destruct (loop_entries _ _ _ _) as [m out]. destruct H as (Hm & Hnd & Hout). split; [exact Hm|]. split; [done|].
  intros id. rewrite Hout. unfold get_session, is_due, is_pending. setoid_rewrite andb_true_iff. setoid_rewrite bool_decide_eq_true. setoid_rewrite Z.ltb_lt. done.
Qed.

(** A check of the timeouts closes exactly the pending sessions whose deadline has passed, each with an
    empty response of its provider, and returns their numbers; every other session stays as it was. *)
Theorem check_timeouts_correct epoch s :
  let (s', out) := check_timeouts now sessions_iter epoch s in
  (forall id, rm_sessions s' !! id = timed_out epoch id <$> rm_sessions s !! id) /\ NoDup out /\
  (forall id, id ∈ out <-> exists se, get_session s id = Some se /\ se_response se = None /\ rq_deadline_epoch (se_request se) < epoch).
Proof. apply check_timeouts_spec. Qed.

Lemma submit_request_spec r epoch s :
  submit_request r epoch s =
  if rtc_max_price_per_gb (rm_config s) <? rq_max_price_per_gb r then (Err (PriceAboveMaximum (rq_max_price_per_gb r) (rtc_max_price_per_gb (rm_config s))), s)
  else if rq_min_bandwidth_bps r <? rtc_min_bandwidth_sla (rm_config s)
  then (Err (BandwidthBelowMinimum (rq_min_bandwidth_bps r) (rtc_min_bandwidth_sla (rm_config s))), s)
  else if rq_deadline_epoch r <=? epoch then (Err DeadlineInThePast, s)
  else (Ok (rq_request_id r), with_sessions (insert (rq_request_id r) (mkSession r None epoch None)) s).
Proof.
  unfold submit_request, mbind, M_bind, mread, mbail, mwrite, mfail, mret, M_ret.
  destruct (_ <? rq_max_price_per_gb r); [done|]. destruct (rq_min_bandwidth_bps r <? _); [done|]. by destruct (_ <=? epoch).
Qed.

Lemma submitted_state r epoch s :
  (submit_request r epoch s).1 = Ok (rq_request_id r) ->
  (submit_request r epoch s).2 = with_sessions (insert (rq_request_id r) (mkSession r None epoch None)) s.
Proof.
  rewrite submit_request_spec. destruct (_ <? rq_max_price_per_gb r); [done|]. destruct (rq_min_bandwidth_bps r <? _); [done|].
  by destruct (_ <=? epoch).
Qed.

Lemma submit_response_spec r epoch s :
  submit_response r epoch s =
  match rm_sessions s !! rp_ref_request r with
  | None => (Err RetrievalNotFound, s)
  | Some se =>
      if bool_decide (rq_provider (se_request se) = rp_provider r)
      then (Ok tt, with_sessions (insert (rp_ref_request r) (mkSession (se_request se) (Some r) (se_created_epoch se) (Some epoch))) s)
      else (Err UnauthorizedProvider, s)
  end.
Proof.
  unfold submit_response, mbind, M_bind, mread, mopt, mbail, mwrite, mfail, mret, M_ret. destruct (rm_sessions s !! _); [|done].
  by case_bool_decide.
Qed.

Lemma step_sessions_ok s s' : retrieval_step s s' -> sessions_ok s -> sessions_ok s'.
Proof.
  intros [r epoch s0|r epoch s0|epoch s0] Hs.
  - rewrite submit_request_spec. repeat (case_match; [done|]). by apply map_Forall_insert_2.
  - rewrite submit_response_spec. destruct (rm_sessions s0 !! _) as [se|] eqn:E; [|done]. case_bool_decide as Hp; [|done].
    apply map_Forall_insert_2; [|exact Hs]. destruct (Hs _ _ E) as [Hid _]. split; [done|]. cbn. by split_and!; [..|eexists].
  - pose proof (check_timeouts_spec epoch s0) as H. destruct (check_timeouts _ _ _ _) as [s1 out]. destruct H as [H _].
    intros id se. cbn [fst]. rewrite H. intros (se0 & E & ->)%fmap_Some. destruct (Hs _ _ E) as [Hid Hr]. unfold timed_out.
    destruct (is_due epoch se0); [|done]. split; [done|]. cbn. by split_and!; [..|eexists].
Qed.

(** In every reachable state a session carries its own request, and what is stored as its response
    names that request, comes from the provider that the request names, and came with its completion. *)
Theorem retrieval_sessions_sound config s id se :
  rtc retrieval_step (retrieval_manager_new config) s -> get_session s id = Some se ->
  rq_request_id (se_request se) = id /\
  (is_pending se = false <-> is_Some (se_completed_epoch se)) /\
  forall r, se_response se = Some r -> rp_ref_request r = id /\ rp_provider r = rq_provider (se_request se).
Proof.
  intros Hr Hse. assert (sessions_ok s) as Hs.
  { assert (sessions_ok (retrieval_manager_new config)) as H0 by done.
    clear Hse. revert H0. induction Hr as [|x y z Hxy _ IH]; [done|]. intros Hx. apply IH. by eapply step_sessions_ok. }
  destruct (Hs id se Hse) as [Hid Hresp]. split; [done|]. unfold is_pending. destruct (se_response se) as [r|].
  - destruct Hresp as (H1 & H2 & H3). split; [by rewrite bool_decide_eq_false_2|]. intros ? [= <-]. done.
  - rewrite bool_decide_eq_true_2, Hresp by done. split; [split; [done|by intros []]|done].
Qed.

(** A request is taken exactly when its price and bandwidth are within the limits and its deadline lies
    ahead, and then opens a pending session under its number. *)
Theorem submit_request_correct r epoch s :
  let (res, s') := submit_request r epoch s in
  (res = Ok (rq_request_id r) <-> rq_max_price_per_gb r <= rtc_max_price_per_gb (rm_config s) /\
     rtc_min_bandwidth_sla (rm_config s) <= rq_min_bandwidth_bps r /\ epoch < rq_deadline_epoch r) /\
  (res = Ok (rq_request_id r) -> get_session s' (rq_request_id r) = Some (mkSession r None epoch None) /\
     forall id, id <> rq_request_id r -> get_session s' id = get_session s id) /\
  (res <> Ok (rq_request_id r) -> s' = s /\ exists e, res = Err e).
Proof.
  rewrite submit_request_spec.
  ztest (rtc_max_price_per_gb (rm_config s) <? rq_max_price_per_gb r); [split; [split; [done|lia]|split; [done|by eauto]]|].
  ztest (rq_min_bandwidth_bps r <? rtc_min_bandwidth_sla (rm_config s)); [split; [split; [done|lia]|split; [done|by eauto]]|].
  ztest (rq_deadline_epoch r <=? epoch); [split; [split; [done|lia]|split; [done|by eauto]]|].
  split; [split; [intros _; lia|done]|]. split; [|done]. intros _. unfold get_session, with_sessions. cbn [rm_sessions].
  split; [by rewrite lookup_insert_eq|]. intros id Hid. by rewrite lookup_insert_ne.
Qed.

(** The price and the bandwidth that the client asked for do not bind the response: whatever the provider
    reports is stored, late or not, and replaces what was there before, a timeout included. *)
Theorem response_not_bound_by_request r epoch s se :
  get_session s (rp_ref_request r) = Some se -> rp_provider r = rq_provider (se_request se) ->
  let (res, s') := submit_response r epoch s in
  res = Ok tt /\ get_session s' (rp_ref_request r) = Some (mkSession (se_request se) (Some r) (se_created_epoch se) (Some epoch)).
Proof.
  intros Hse Hp. rewrite submit_response_spec. unfold get_session in Hse. rewrite Hse, bool_decide_eq_true_2 by done.
  split; [done|]. unfold get_session, with_sessions. cbn [rm_sessions]. by rewrite lookup_insert_eq.
Qed.

Context (blake3 : Bytes -> Bytes).
(** The number of a request covers neither its provider nor its range: a client's second request for a
    deal in the same second takes the place of the first, whose session is lost. *)
Theorem same_second_request_replaces deal client provider1 provider2 range1 range2 price1 price2 bps1 bps2 deadline1 deadline2 epoch s :
  let r1 := request_new now blake3 deal client provider1 range1 price1 bps1 deadline1 in
  let r2 := request_new now blake3 deal client provider2 range2 price2 bps2 deadline2 in
  (submit_request r1 epoch s).1 = Ok (rq_request_id r1) ->
  (submit_request r2 epoch (submit_request r1 epoch s).2).1 = Ok (rq_request_id r2) ->
  let s' := (submit_request r2 epoch (submit_request r1 epoch s).2).2 in
  se_request <$> get_session s' (rq_request_id r1) = Some r2 /\
  get_active_sessions sessions_iter s' ≡ₚ (mkSession r2 None epoch None) :: List.filter is_pending (map_to_list (delete (rq_request_id r1) (rm_sessions s))).*2.
Proof.
  intros r1 r2 H1 H2 s'. assert (s' = with_sessions (insert (rq_request_id r1) (mkSession r2 None epoch None)) s) as ->.
  { unfold s'. rewrite (submitted_state r2), (submitted_state r1) by done. unfold with_sessions. cbn [rm_sessions rm_config].
    change (rq_request_id r2) with (rq_request_id r1). by rewrite insert_insert_eq. }
  split.
  - unfold get_session, with_sessions. cbn [rm_sessions]. by rewrite lookup_insert_eq.
  - unfold get_active_sessions, with_sessions. cbn [rm_sessions]. rewrite !list_filter_bool, <-insert_delete_eq, Hiter.
    rewrite map_to_list_insert by apply lookup_delete_eq. rewrite fmap_cons, filter_cons. by case_decide.
Qed.
End facts.

(** ** Witnesses *)

Definition small_request (deadline : Z) : RetrievalRequest :=
  request_new 7 (fun bs => bs) 3 [1] [2] None (from_adic (f64_lit 1 2)) (2 * 1024 * 1024) deadline.
Definition one_session : RetrievalManager := (submit_request (small_request 9) 5 (retrieval_manager_new retrieval_config_default)).2.
Definition dear_response : RetrievalResponse := response_new 7 (rq_request_id (small_request 9)) [2] (1024 * 1024 * 1024) 10000 (from_adic (f64_of_Z 50)) RetCompleted.

Example dear_payment : rp_total_payment dear_response = 50000000000.
Proof. vm_compute. reflexivity. Qed.

Lemma range_size_correct_witness :
  (range_new 3 5 = Ok (mkRange 3 5) <-> 3 <= 5) /\ (range_new 3 5 = Err InvalidByteRange <-> 5 < 3) /\
  (3 <= 5 -> range_size (mkRange 3 5) = if (3 =? 0) && (5 =? u64_max) then 0 else 5 - 3 + 1).
Proof. apply (range_size_correct 3 5); done. Defined.

Lemma check_timeouts_correct_witness :
  let (s', out) := check_timeouts 8 map_to_list 10 one_session in
  (forall id, rm_sessions s' !! id = timed_out 8 10 id <$> rm_sessions one_session !! id) /\ NoDup out /\
  (forall id, id ∈ out <-> exists se, get_session one_session id = Some se /\ se_response se = None /\ rq_deadline_epoch (se_request se) < 10).
Proof. apply (check_timeouts_correct 8 map_to_list (fun m => reflexivity _) 10 one_session). Defined.
Example one_times_out : (check_timeouts 8 map_to_list 10 one_session).2 = [rq_request_id (small_request 9)].
Proof. vm_compute. reflexivity. Qed.

Lemma retrieval_sessions_sound_witness :
  let se := mkSession (small_request 9) None 5 None in
  get_session one_session (rq_request_id (small_request 9)) = Some se /\
  rq_request_id (se_request se) = rq_request_id (small_request 9) /\
  (is_pending se = false <-> is_Some (se_completed_epoch se)) /\
  forall r, se_response se = Some r -> rp_ref_request r = rq_request_id (small_request 9) /\ rp_provider r = rq_provider (se_request se).
Proof.
  cbv zeta. split; [vm_compute; reflexivity|].
  apply (retrieval_sessions_sound 8 map_to_list (fun m => reflexivity _) retrieval_config_default one_session);
    [apply rtc_once, rt_request|vm_compute; reflexivity].
Defined.

Lemma response_not_bound_by_request_witness :
  let se := mkSession (small_request 9) None 5 None in
  rq_max_price_per_gb (se_request se) < rp_price_per_gb dear_response /\
  rp_actual_bandwidth_bps dear_response < rq_min_bandwidth_bps (se_request se) /\
  let (res, s') := submit_response dear_response 100 one_session in
  res = Ok tt /\ get_session s' (rp_ref_request dear_response) = Some (mkSession (se_request se) (Some dear_response) (se_created_epoch se) (Some 100)).
Proof.
  cbv zeta. split; [vm_compute; reflexivity|]. split; [vm_compute; reflexivity|].
  apply (response_not_bound_by_request dear_response 100 one_session (mkSession (small_request 9) None 5 None)); vm_compute; reflexivity.
Defined.

Lemma same_second_request_replaces_witness :
  let r1 := request_new 7 (fun bs => bs) 3 [1] [2] None 10 (2 * 1024 * 1024) 9 in
  let r2 := request_new 7 (fun bs => bs) 3 [1] [4] (Some (mkRange 0 99)) 20 (2 * 1024 * 1024) 10 in
  let s := retrieval_manager_new retrieval_config_default in
  let s' := (submit_request r2 5 (submit_request r1 5 s).2).2 in
  se_request <$> get_session s' (rq_request_id r1) = Some r2 /\
  get_active_sessions map_to_list s' ≡ₚ (mkSession r2 None 5 None) :: List.filter is_pending (map_to_list (delete (rq_request_id r1) (rm_sessions s))).*2.
Proof.
  apply (same_second_request_replaces 7 map_to_list (fun m => reflexivity _) (fun bs => bs) 3 [1] [2] [4] None (Some (mkRange 0 99))
    10 20 (2 * 1024 * 1024) (2 * 1024 * 1024) 9 10 5 (retrieval_manager_new retrieval_config_default)); vm_compute; reflexivity.
Defined.
