(* ===== verification/Providers.v ===== *)
(** * Storage providers

    [adic-storage-market/src/provider.rs]: registrations, heartbeats, exits and the check that marks silent
    providers offline.

    [now] is the clock in seconds, [blake3] the hash, [providers_iter] the order in which the providers are
    listed.  [register_provider] releases the map between its test and its write: it is [check_registration]
    and [store_provider] in a row. *)

From S2P Require Import Prelude F64 Message Amount Voting MarketTypes.

(** ** Data *)

Record ProviderRegistration := mkRegistration {
  pr_protocol : Protocol;
  pr_provider : AccountAddress;
  pr_total_capacity : Z;
  pr_available_capacity : Z;
  pr_collateral : AdicAmount;
  pr_endpoint : string;
  pr_region : option string;
  pr_asn : option Z;
  pr_finality_status : FinalityStatus;
  pr_finalized_at_epoch : option Z;
  pr_registration_id : Hash;
}.

Inductive ProviderHealth := Healthy | Degraded | Offline | Exiting.
#[export] Instance ProviderHealth_eq_dec : EqDecision ProviderHealth.
Proof. solve_decision. Defined.

Record ProviderHeartbeat := mkHeartbeat {
  hb_protocol : Protocol;
  hb_provider : AccountAddress;
  hb_heartbeat_epoch : Z;
  hb_storage_used : Z;
  hb_available_capacity : Z;
  hb_active_deals : Z;
  hb_health : ProviderHealth;
  hb_finality_status : FinalityStatus;
  hb_finalized_at_epoch : option Z;
}.

Inductive ExitReason := Voluntary | PerformanceBreach | SlashedProvider | Maintenance.
Record ProviderExit := mkExit {
  ex_protocol : Protocol;
  ex_provider : AccountAddress;
  ex_exit_epoch : Z;
  ex_migration_deadline : Z;
  ex_exit_reason : ExitReason;
  ex_finality_status : FinalityStatus;
  ex_finalized_at_epoch : option Z;
}.

Record ProviderState := mkProvider {
  ps_provider : AccountAddress;
  ps_registration : ProviderRegistration;
  ps_health : ProviderHealth;
  ps_last_heartbeat_epoch : Z;
  ps_storage_used : Z;
  ps_available_capacity : Z;
  ps_active_deals : list Z;
  ps_exit_info : option ProviderExit;
}.

Record ProviderConfig := mkProviderConfig {
  pcf_min_collateral : AdicAmount;
  pcf_heartbeat_interval : Z;
  pcf_max_missed_heartbeats : Z;
  pcf_migration_grace_period : Z;
}.
Definition provider_config_default : ProviderConfig := mkProviderConfig (from_adic (f64_of_Z 100)) 100 3 1000.

Record ProviderManager := mkProviders {
  pv_config : ProviderConfig;
  pv_providers : gmap AccountAddress ProviderState;
}.
Definition provider_manager_new (config : ProviderConfig) : ProviderManager := mkProviders config ∅.

Inductive ProviderError :=
  | LowCollateral (required available : AdicAmount)
  | CapacityExceedsTotal
  | AlreadyRegistered
  | NotRegistered.

Record ProviderStats := mkProviderStats {
  pst_total_providers : nat;
  pst_healthy_providers : nat;
  pst_degraded_providers : nat;
  pst_offline_providers : nat;
  pst_exiting_providers : nat;
  pst_total_capacity_bytes : Z;
  pst_used_capacity_bytes : Z;
  pst_utilization_percent : Z;
}.

Section providers.
Context (now : Z) (blake3 : Bytes -> Bytes) (providers_iter : gmap AccountAddress ProviderState -> list (AccountAddress * ProviderState)).
Abbreviation PVM := (M ProviderManager ProviderError).
Implicit Types s : ProviderManager.

Definition registration_new (provider : AccountAddress) (total_capacity available_capacity : Z) (collateral : AdicAmount) (endpoint : string)
    (region : option string) (asn : option Z) : ProviderRegistration :=
  mkRegistration (protocol_new now) provider total_capacity available_capacity collateral endpoint region asn Pending None
    (blake3 (provider ++ to_le_bytes 8 total_capacity ++ to_le_bytes 8 (to_u64 now))).
Definition registration_is_finalized (r : ProviderRegistration) : bool := is_finalized (pr_finality_status r).
Definition heartbeat_new (provider : AccountAddress) (heartbeat_epoch storage_used available_capacity active_deals : Z) (health : ProviderHealth)
    : ProviderHeartbeat :=
  mkHeartbeat (protocol_new now) provider heartbeat_epoch storage_used available_capacity active_deals health Pending None.
Definition exit_new (provider : AccountAddress) (exit_epoch migration_deadline : Z) (exit_reason : ExitReason) : ProviderExit :=
  mkExit (protocol_new now) provider exit_epoch migration_deadline exit_reason Pending None.

Definition with_providers (f : gmap AccountAddress ProviderState -> gmap AccountAddress ProviderState) s : ProviderManager :=
  mkProviders (pv_config s) (f (pv_providers s)).

Definition check_registration (r : ProviderRegistration) : PVM unit :=
  config ← mread pv_config;
  mbail (pr_collateral r <? pcf_min_collateral config) (LowCollateral (pcf_min_collateral config) (pr_collateral r));;
  mbail (pr_total_capacity r <? pr_available_capacity r) CapacityExceedsTotal;;
  providers ← mread pv_providers;
  mbail (bool_decide (is_Some (providers !! pr_provider r))) AlreadyRegistered.
Definition provider_of (r : ProviderRegistration) : ProviderState :=
  mkProvider (pr_provider r) r Healthy 0 0 (pr_available_capacity r) [] None.
Definition store_provider (r : ProviderRegistration) : PVM unit := mwrite (with_providers (insert (pr_provider r) (provider_of r))).
Definition register_provider (r : ProviderRegistration) : PVM unit := check_registration r;; store_provider r.

(** A write through [get_mut]. *)
Definition update_provider (provider : AccountAddress) (f : ProviderState -> ProviderState) : PVM unit :=
  providers ← mread pv_providers;
  state ← mopt (providers !! provider) NotRegistered;
  mwrite (with_providers (insert provider (f state))).

Definition after_heartbeat (h : ProviderHeartbeat) (p : ProviderState) : ProviderState :=
  mkProvider (ps_provider p) (ps_registration p) (hb_health h) (hb_heartbeat_epoch h) (hb_storage_used h) (hb_available_capacity h)
    (ps_active_deals p) (ps_exit_info p).
Definition process_heartbeat (h : ProviderHeartbeat) : PVM unit := update_provider (hb_provider h) (after_heartbeat h).

Definition with_health (health : ProviderHealth) (p : ProviderState) : ProviderState :=
  mkProvider (ps_provider p) (ps_registration p) health (ps_last_heartbeat_epoch p) (ps_storage_used p) (ps_available_capacity p)
    (ps_active_deals p) (ps_exit_info p).
Definition with_exit (e : ProviderExit) (p : ProviderState) : ProviderState :=
  mkProvider (ps_provider p) (ps_registration p) Exiting (ps_last_heartbeat_epoch p) (ps_storage_used p) (ps_available_capacity p)
    (ps_active_deals p) (Some e).
Definition initiate_exit (e : ProviderExit) : PVM unit := update_provider (ex_provider e) (with_exit e).

Definition with_deals (deal_ids : list Z) (p : ProviderState) : ProviderState :=
  mkProvider (ps_provider p) (ps_registration p) (ps_health p) (ps_last_heartbeat_epoch p) (ps_storage_used p) (ps_available_capacity p)
    deal_ids (ps_exit_info p).
Definition update_active_deals (provider : AccountAddress) (deal_ids : list Z) : PVM unit := update_provider provider (with_deals deal_ids).

Definition is_silent (config : ProviderConfig) (current_epoch : Z) (p : ProviderState) : bool :=
  negb (bool_decide (ps_health p = Exiting)) &&
  (to_u64 (pcf_heartbeat_interval config * pcf_max_missed_heartbeats config) <? u64_saturating_sub current_epoch (ps_last_heartbeat_epoch p)) &&
  negb (bool_decide (ps_health p = Offline)).
Definition check_heartbeats (current_epoch : Z) s : ProviderManager * list AccountAddress :=
  let (providers, offline) :=
    loop_entries (is_silent (pv_config s) current_epoch) (fun _ => with_health Offline) (providers_iter (pv_providers s)) (pv_providers s) in
  (with_providers (fun _ => providers) s, offline).

Definition get_provider s (provider : AccountAddress) : option ProviderState := pv_providers s !! provider.
Definition get_all_providers s : list ProviderState := (providers_iter (pv_providers s)).*2.
Definition get_providers_by_health s (health : ProviderHealth) : list ProviderState :=
  List.filter (fun p => bool_decide (ps_health p = health)) (get_all_providers s).

Definition count_health (health : ProviderHealth) s : nat := size (filter (fun ap => ps_health ap.2 = health) (pv_providers s)).
Definition sum_providers (f : ProviderState -> Z) s : Z := to_u64 (mapsum (fun ap => f ap.2) (pv_providers s)).
Definition get_provider_stats s : ProviderStats :=
  let total_capacity := sum_providers (fun p => pr_total_capacity (ps_registration p)) s in
  let used_capacity := sum_providers ps_storage_used s in
  mkProviderStats (size (pv_providers s)) (count_health Healthy s) (count_health Degraded s) (count_health Offline s) (count_health Exiting s)
    total_capacity used_capacity
    (if 0 <? total_capacity
     then f64_to_uint u8_max (f64_mul (f64_div (f64_of_Z used_capacity) (f64_of_Z total_capacity)) (f64_of_Z 100)) else 0).
End providers.

(** ** Facts *)

Section facts.
Context (providers_iter : gmap AccountAddress ProviderState -> list (AccountAddress * ProviderState)).
Context (Hiter : forall m, providers_iter m ≡ₚ map_to_list m).
Implicit Types s : ProviderManager.

Lemma update_provider_spec a f s :
  update_provider a f s =
  match pv_providers s !! a with
  | Some p => (Ok tt, with_providers (insert a (f p)) s)
  | None => (Err NotRegistered, s)
  end.
Proof. unfold update_provider, mbind, M_bind, mread, mopt, mwrite, mfail, mret, M_ret. by destruct (pv_providers s !! a). Qed.

Lemma register_spec r s :
  register_provider r s =
  if pr_collateral r <? pcf_min_collateral (pv_config s) then (Err (LowCollateral (pcf_min_collateral (pv_config s)) (pr_collateral r)), s)
  else if pr_total_capacity r <? pr_available_capacity r then (Err CapacityExceedsTotal, s)
  else if bool_decide (is_Some (pv_providers s !! pr_provider r)) then (Err AlreadyRegistered, s)
  else (Ok tt, with_providers (insert (pr_provider r) (provider_of r)) s).
Proof.
  unfold register_provider, check_registration, store_provider, mbind, M_bind, mread, mbail, mwrite, mfail, mret, M_ret.
  destruct (_ <? pcf_min_collateral _); [done|]. destruct (_ <? pr_available_capacity r); [done|]. by destruct (bool_decide _).
Qed.

(** A provider is registered exactly when its collateral and capacities are within bounds and it is not
    registered yet; it starts healthy, with its declared capacity, no deals and heartbeat epoch 0. *)
Theorem register_provider_correct r s :
  let (res, s') := register_provider r s in
  (res = Ok tt <-> pcf_min_collateral (pv_config s) <= pr_collateral r /\ pr_available_capacity r <= pr_total_capacity r /\
     get_provider s (pr_provider r) = None) /\
  (res = Ok tt -> pv_providers s' = <[pr_provider r := mkProvider (pr_provider r) r Healthy 0 0 (pr_available_capacity r) [] None]> (pv_providers s)) /\
  (res <> Ok tt -> s' = s /\ exists e, res = Err e).
Proof.
  rewrite register_spec. unfold get_provider. ztest (pr_collateral r <? pcf_min_collateral (pv_config s)); [split; [split; [done|lia]|split; [done|by eauto]]|].
  ztest (pr_total_capacity r <? pr_available_capacity r); [split; [split; [done|lia]|split; [done|by eauto]]|].
  case_bool_decide as Hreg; [split; [split; [done|by intros (_ & _ & H); rewrite H in Hreg; destruct Hreg]|split; [done|by eauto]]|].
  apply eq_None_not_Some in Hreg. done.
Qed.

Definition silenced (config : ProviderConfig) (epoch : Z) (p : ProviderState) : ProviderState :=
  if is_silent config epoch p then with_health Offline p else p.

Lemma check_heartbeats_spec epoch s :
  let (s', out) := check_heartbeats providers_iter epoch s in
  pv_config s' = pv_config s /\
  (forall a, pv_providers s' !! a = silenced (pv_config s) epoch <$> pv_providers s !! a) /\ NoDup out /\
  (forall a, a ∈ out <-> exists p, pv_providers s !! a = Some p /\ is_silent (pv_config s) epoch p = true).
Proof.
  unfold check_heartbeats. pose proof (loop_entries_spec (is_silent (pv_config s) epoch) (fun _ => with_health Offline) _ _ (Hiter (pv_providers s))) as H.
  destruct (loop_entries _ _ _ _) as [m out]. by split.
Qed.

(** The check marks offline exactly the providers that are neither leaving nor offline already and whose
    last heartbeat is more epochs ago than the interval times the misses allowed; it returns them, and
    changes nothing else. *)
Theorem check_heartbeats_correct epoch s :
  let (s', out) := check_heartbeats providers_iter epoch s in
  let limit := to_u64 (pcf_heartbeat_interval (pv_config s) * pcf_max_missed_heartbeats (pv_config s)) in
  (forall a p, get_provider s a = Some p ->
     get_provider s' a = Some (if decide (a ∈ out) then with_health Offline p else p) /\
     (a ∈ out <-> ps_health p <> Exiting /\ ps_health p <> Offline /\ limit < epoch - ps_last_heartbeat_epoch p /\ 0 < epoch - ps_last_heartbeat_epoch p)) /\
  (forall a, get_provider s a = None -> get_provider s' a = None) /\ NoDup out.
Proof.
  pose proof (check_heartbeats_spec epoch s) as H. destruct (check_heartbeats _ _ _) as [s' out]. destruct H as (_ & Hm & Hnd & Hout).
  intros limit. unfold get_provider. split; [|split; [|done]].
  - intros a p Hp. assert (a ∈ out <-> is_silent (pv_config s) epoch p = true) as Ha.
    { rewrite Hout. split; [intros (q & Hq & Hs); congruence|intros Hs; by exists p]. }
    split.
    + rewrite Hm, Hp. cbn. f_equal. unfold silenced. destruct (decide (a ∈ out)) as [Hin|Hin]; [by rewrite (proj1 Ha Hin)|].
      destruct (is_silent _ _ p); [|done]. by destruct Hin; apply Ha.
    + rewrite Ha. unfold is_silent. rewrite !andb_true_iff, !negb_true_iff, !bool_decide_eq_false, Z.ltb_lt. fold limit.
      assert (0 <= limit) by (unfold limit, to_u64; apply Z.mod_pos_bound; lia). unfold u64_saturating_sub. split; [intros [[? ?] ?]|intros (? & ? & ? & ?)]; split_and!; (done || lia).
  - intros a Ha. by rewrite Hm, Ha.
Qed.

Inductive provider_step : ProviderManager -> ProviderManager -> Prop :=
  | pv_register r s : provider_step s (register_provider r s).2
  | pv_heartbeat h s : provider_step s (process_heartbeat h s).2
  | pv_exit e s : provider_step s (initiate_exit e s).2
  | pv_deals a l s : provider_step s (update_active_deals a l s).2
  | pv_check epoch s : provider_step s (check_heartbeats providers_iter epoch s).1.

(** A stored provider: what it registered with stands, under its own address. *)
Definition provider_ok (config : ProviderConfig) (a : AccountAddress) (p : ProviderState) : Prop :=
  ps_provider p = a /\ pr_provider (ps_registration p) = a /\ pcf_min_collateral config <= pr_collateral (ps_registration p) /\
  pr_available_capacity (ps_registration p) <= pr_total_capacity (ps_registration p) /\
  forall e, ps_exit_info p = Some e -> ex_provider e = a.
Definition kept (p p' : ProviderState) : Prop :=
  ps_registration p' = ps_registration p /\ (is_Some (ps_exit_info p) -> is_Some (ps_exit_info p')).
Definition providers_kept s s' : Prop :=
  pv_config s' = pv_config s /\ forall a p, get_provider s a = Some p -> exists p', get_provider s' a = Some p' /\ kept p p'.
Definition providers_ok s : Prop := map_Forall (provider_ok (pv_config s)) (pv_providers s).

Lemma kept_refl p : kept p p.
Proof. by split. Qed.
Lemma providers_same s : providers_ok s -> providers_ok s /\ providers_kept s s.
Proof. intros Hs. split; [done|]. split; [done|]. intros a p Hp. exists p. split; [done|apply kept_refl]. Qed.

Lemma put_provider_ok a p p' s :
  providers_ok s -> get_provider s a = Some p -> provider_ok (pv_config s) a p' -> kept p p' ->
  providers_ok (with_providers (insert a p') s) /\ providers_kept s (with_providers (insert a p') s).
Proof.
  intros Hs Hp Hok Hk. split; [by apply map_Forall_insert_2|]. split; [done|]. intros j q Hq.
  unfold get_provider, with_providers in *. cbn [pv_providers]. destruct (decide (j = a)) as [->|Hj].
  - rewrite lookup_insert_eq. exists p'. split; [done|]. by simplify_eq.
  - rewrite lookup_insert_ne by done. exists q. split; [done|apply kept_refl].
Qed.

Lemma update_step a f s :
  (forall p, provider_ok (pv_config s) a p -> provider_ok (pv_config s) a (f p) /\ kept p (f p)) ->
  providers_ok s -> providers_ok (update_provider a f s).2 /\ providers_kept s (update_provider a f s).2.
Proof.
  intros Hf Hs. rewrite update_provider_spec. destruct (pv_providers s !! a) as [p|] eqn:E; [|by apply providers_same].
  destruct (Hf p (Hs a p E)) as [Hok Hk]. by apply (put_provider_ok a p).
Qed.

Lemma provider_step_ok s s' : provider_step s s' -> providers_ok s -> providers_ok s' /\ providers_kept s s'.
Proof.
  intros [r s0|h s0|e s0|a l s0|epoch s0] Hs.
  - rewrite register_spec. ztest (pr_collateral r <? pcf_min_collateral (pv_config s0)); [by apply providers_same|].
    ztest (pr_total_capacity r <? pr_available_capacity r); [by apply providers_same|]. case_bool_decide as Hreg; [by apply providers_same|].
    apply eq_None_not_Some in Hreg. cbn [snd]. split; [by apply map_Forall_insert_2|]. split; [done|]. intros j q Hq. exists q. split; [|apply kept_refl].
    unfold get_provider, with_providers in *. cbn [pv_providers]. rewrite lookup_insert_ne; [done|]. intros <-. congruence.
  - apply update_step; [|done]. intros p Hp. by split.
  - apply update_step; [|done]. intros p (H1 & H2 & H3 & H4 & H5). split; [|by split; [|by eexists]]. split_and!; try done. by intros e' [= <-].
  - apply update_step; [|done]. intros p Hp. by split.
  - pose proof (check_heartbeats_spec epoch s0) as H. destruct (check_heartbeats _ _ _) as [s1 out]. destruct H as (Hc & Hm & _). cbn [fst].
    split.
    + intros a p'. rewrite Hm, Hc. intros (p & Hp & ->)%fmap_Some. unfold silenced. destruct (is_silent _ _ p); exact (Hs a p Hp).
    + split; [done|]. intros a p Hp. unfold get_provider in *. rewrite Hm, Hp. eexists. split; [done|]. unfold silenced.
      destruct (is_silent _ _ p); [by split|apply kept_refl].
Qed.

(** Whatever happens, a registered provider stays registered with its registration unchanged, whose
    collateral and capacities are within bounds, and an announced exit is never withdrawn. *)
Theorem providers_stay_registered config s s' :
  rtc provider_step (provider_manager_new config) s -> rtc provider_step s s' ->
  (forall a p, get_provider s a = Some p ->
     pr_provider (ps_registration p) = a /\ pcf_min_collateral config <= pr_collateral (ps_registration p) /\
     pr_available_capacity (ps_registration p) <= pr_total_capacity (ps_registration p)) /\
  (forall a p, get_provider s a = Some p -> exists p', get_provider s' a = Some p' /\ kept p p').
Proof.
  intros Hr Hr'.
  assert (forall x y, rtc provider_step x y -> providers_ok x -> providers_ok y /\ providers_kept x y) as Hrun.
  { induction 1 as [x|x y z Hxy _ IH]; intros Hx; [by apply providers_same|]. destruct (provider_step_ok x y Hxy Hx) as [Hy [Hc1 Hk1]].
    destruct (IH Hy) as [Hz [Hc2 Hk2]]. split; [done|]. split; [congruence|]. intros a p Hp. destruct (Hk1 a p Hp) as (p1 & Hp1 & [H1 H2]).
    destruct (Hk2 a p1 Hp1) as (p2 & Hp2 & [H3 H4]). exists p2. split; [done|]. split; [congruence|by auto]. }
  destruct (Hrun _ _ Hr) as [Hs [Hc _]]; [done|]. cbn [provider_manager_new pv_config] in Hc. split.
  - intros a p Hp. destruct (Hs a p Hp) as (_ & H2 & H3 & H4 & _). rewrite Hc in H3. done.
  - by apply Hrun.
Qed.

(** A provider registers with heartbeat epoch 0, so past the first epochs the next check marks it offline
    if it has not sent a heartbeat yet. *)
Theorem new_provider_marked_offline r epoch s :
  (register_provider r s).1 = Ok tt ->
  to_u64 (pcf_heartbeat_interval (pv_config s) * pcf_max_missed_heartbeats (pv_config s)) < epoch ->
  let (s', out) := check_heartbeats providers_iter epoch (register_provider r s).2 in
  pr_provider r ∈ out /\ ps_health <$> get_provider s' (pr_provider r) = Some Offline.
Proof.
  intros Hr Hepoch. assert ((register_provider r s).2 = with_providers (insert (pr_provider r) (provider_of r)) s) as ->.
  { revert Hr. rewrite register_spec. destruct (pr_collateral r <? pcf_min_collateral (pv_config s)); [done|].
    destruct (pr_total_capacity r <? pr_available_capacity r); [done|]. by case_bool_decide. }
  set (s1 := with_providers _ s). assert (pv_providers s1 !! pr_provider r = Some (provider_of r)) as Hp by apply lookup_insert_eq.
  assert (is_silent (pv_config s1) epoch (provider_of r) = true) as Hs.
  { unfold is_silent. cbn [provider_of ps_health ps_last_heartbeat_epoch]. rewrite !bool_decide_eq_false_2 by done. cbn [negb andb]. rewrite andb_true_r.
    apply Z.ltb_lt. unfold u64_saturating_sub. cbn [s1 with_providers pv_config]. lia. }
  pose proof (check_heartbeats_spec epoch s1) as H. destruct (check_heartbeats _ _ s1) as [s' out]. destruct H as (_ & Hm & _ & Hout). split.
  - apply Hout. by exists (provider_of r).
  - unfold get_provider. rewrite Hm, Hp. cbn [fmap option_fmap option_map]. unfold silenced. by rewrite Hs.
Qed.

(** A heartbeat overwrites the health of a provider that is leaving: it counts as healthy again while its
    exit stays announced. *)
Theorem heartbeat_hides_exit h s p e :
  get_provider s (hb_provider h) = Some p -> ps_health p = Exiting -> ps_exit_info p = Some e -> hb_health h = Healthy ->
  let (r, s') := process_heartbeat h s in
  r = Ok tt /\ exists p', get_provider s' (hb_provider h) = Some p' /\ ps_health p' = Healthy /\ ps_exit_info p' = Some e.
Proof.
  intros Hp _ He Hh. unfold process_heartbeat. rewrite update_provider_spec. unfold get_provider in *. rewrite Hp. split; [done|].
  exists (after_heartbeat h p). unfold with_providers. cbn [pv_providers]. rewrite lookup_insert_eq. done.
Qed.
End facts.

(** ** Witnesses *)

Definition demo_registration : ProviderRegistration := registration_new 7 (fun bs => bs) [1] 1000 800 (from_adic (f64_of_Z 100)) "host" None None.
Definition one_provider : ProviderManager := (register_provider demo_registration (provider_manager_new provider_config_default)).2.
Definition leaving : ProviderManager := (initiate_exit (exit_new 7 [1] 5 900 Voluntary) one_provider).2.

Lemma check_heartbeats_correct_witness :
  let (s', out) := check_heartbeats map_to_list 301 one_provider in
  let limit := to_u64 (pcf_heartbeat_interval (pv_config one_provider) * pcf_max_missed_heartbeats (pv_config one_provider)) in
  (forall a p, get_provider one_provider a = Some p ->
     get_provider s' a = Some (if decide (a ∈ out) then with_health Offline p else p) /\
     (a ∈ out <-> ps_health p <> Exiting /\ ps_health p <> Offline /\ limit < 301 - ps_last_heartbeat_epoch p /\ 0 < 301 - ps_last_heartbeat_epoch p)) /\
  (forall a, get_provider one_provider a = None -> get_provider s' a = None) /\ NoDup out.
Proof. apply (check_heartbeats_correct map_to_list (fun m => reflexivity _) 301 one_provider). Defined.
Example silent_provider : (check_heartbeats map_to_list 301 one_provider).2 = [[1]].
Proof. vm_compute. reflexivity. Qed.

Lemma providers_stay_registered_witness :
  (forall a p, get_provider one_provider a = Some p ->
     pr_provider (ps_registration p) = a /\ pcf_min_collateral provider_config_default <= pr_collateral (ps_registration p) /\
     pr_available_capacity (ps_registration p) <= pr_total_capacity (ps_registration p)) /\
  (forall a p, get_provider one_provider a = Some p -> exists p', get_provider leaving a = Some p' /\ kept p p').
Proof.
  apply (providers_stay_registered map_to_list (fun m => reflexivity _) provider_config_default one_provider leaving);
    [apply rtc_once, pv_register|apply rtc_once, pv_exit].
Defined.

Lemma new_provider_marked_offline_witness :
  let (s', out) := check_heartbeats map_to_list 301 (register_provider demo_registration (provider_manager_new provider_config_default)).2 in
  [1] ∈ out /\ ps_health <$> get_provider s' [1] = Some Offline.
Proof.
  apply (new_provider_marked_offline map_to_list (fun m => reflexivity _) demo_registration 301 (provider_manager_new provider_config_default));
    vm_compute; reflexivity.
Defined.

Lemma heartbeat_hides_exit_witness :
  let (r, s') := process_heartbeat (heartbeat_new 8 [1] 6 0 800 0 Healthy) leaving in
  r = Ok tt /\ exists p', get_provider s' [1] = Some p' /\ ps_health p' = Healthy /\ ps_exit_info p' = Some (exit_new 7 [1] 5 900 Voluntary).
Proof.
  apply (heartbeat_hides_exit (heartbeat_new 8 [1] 6 0 800 0 Healthy) leaving (with_exit (exit_new 7 [1] 5 900 Voluntary) (provider_of demo_registration))
    (exit_new 7 [1] 5 900 Voluntary)); vm_compute; reflexivity.
Defined.
