(* ===== verification/MarketDisputes.v ===== *)
(** * Disputes of the storage market

    [adic-storage-market/src/dispute.rs]: challenges of a provider by the client of a deal, their automatic
    resolution from the provider's health or measured performance, their resolution by the votes of a
    quorum, expiry and statistics.

    [now] and [now_nanos] are the clock in seconds and nanoseconds, [blake3] the hash, [disputes_iter] the
    order in which the disputes are listed. *)

From S2P Require Import Prelude F64 Message Amount Voting Escrow MarketTypes Providers.

(** ** Data *)

Inductive MarketDisputeType := DisDataCorruption | DisDataUnavailable | DisIncorrectProof | DisPerformanceBreach.
#[export] Instance MarketDisputeType_eq_dec : EqDecision MarketDisputeType.
Proof. solve_decision. Defined.
(** [dispute_type as u8]. *)
Definition dispute_type_number (t : MarketDisputeType) : Z :=
  match t with DisDataCorruption => 0 | DisDataUnavailable => 1 | DisIncorrectProof => 2 | DisPerformanceBreach => 3 end.

Inductive MarketDisputeRuling := ClientWins | ProviderWins | Inconclusive.
#[export] Instance MarketDisputeRuling_eq_dec : EqDecision MarketDisputeRuling.
Proof. solve_decision. Defined.

Record PerformanceMetrics := mkPerformanceMetrics {
  pm_bandwidth_bps : Z;
  pm_latency_ms : Z;
  pm_required_bandwidth_bps : Z;
  pm_required_latency_ms : Z;
}.

Record DisputeChallenge := mkDisputeChallenge {
  dch_protocol : Protocol;
  dch_dispute_id : Hash;
  dch_deal_id : Z;
  dch_client : AccountAddress;
  dch_provider : AccountAddress;
  dch_dispute_type : MarketDisputeType;
  dch_evidence_cid : option Hash;
  dch_claimed_chunk_index : option Z;
  dch_claimed_correct_data : option Bytes;
  dch_failed_request_id : option Hash;
  dch_measured_performance : option PerformanceMetrics;
  dch_finality_status : FinalityStatus;
  dch_finalized_at_epoch : option Z;
}.
Definition dch_deposit (c : DisputeChallenge) : AdicAmount := po_deposit (dch_protocol c).

Record DisputeResolution := mkDisputeResolution {
  drs_protocol : Protocol;
  drs_ref_dispute : Hash;
  drs_arbitrator : option AccountAddress;
  drs_quorum_members : list AccountAddress;
  drs_quorum_votes : list MarketDisputeRuling;
  drs_ruling : MarketDisputeRuling;
  drs_evidence_summary : string;
  drs_slash_amount : AdicAmount;
  drs_refund_amount : AdicAmount;
  drs_resolved_at_epoch : Z;
  drs_finality_status : FinalityStatus;
  drs_finalized_at_epoch : option Z;
}.

Record MarketDisputeConfig := mkMarketDisputeConfig {
  mdc_min_dispute_deposit : AdicAmount;
  mdc_min_arbitrator_reputation : f64;
  mdc_quorum_size : nat;
  mdc_ruling_threshold : f64;
  mdc_resolution_deadline : Z;
  mdc_client_loss_penalty : f64;
  mdc_provider_corruption_penalty : f64;
}.
Definition market_dispute_config_default : MarketDisputeConfig :=
  mkMarketDisputeConfig (from_adic (f64_lit 1 2)) (f64_of_Z 50) 15 (f64_lit 66 100) 100 (f64_lit 1 2) (f64_lit 3 10).

Inductive MarketDisputeStatus := DisPending | DisUnderReview | DisResolved | DisExpired.
#[export] Instance MarketDisputeStatus_eq_dec : EqDecision MarketDisputeStatus.
Proof. solve_decision. Defined.

Record DisputeState := mkDisputeState {
  dst_challenge : DisputeChallenge;
  dst_resolution : option DisputeResolution;
  dst_status : MarketDisputeStatus;
}.

Record MarketDisputeManager := mkMarketDisputes {
  md_config : MarketDisputeConfig;
  md_disputes : gmap Hash DisputeState;
  md_deal_disputes : gmap Z (list Hash);
}.
Definition market_disputes_new (config : MarketDisputeConfig) : MarketDisputeManager := mkMarketDisputes config ∅ ∅.

Inductive MarketDisputeError :=
  | ClientDoesNotMatch
  | ProviderDoesNotMatch
  | DepositTooLow (required available : AdicAmount)
  | MissingEvidence (t : MarketDisputeType)
  | MarketDisputeNotFound.

Record MarketDisputeStats := mkMarketDisputeStats {
  mds_total_disputes : nat;
  mds_pending_disputes : nat;
  mds_resolved_disputes : nat;
  mds_expired_disputes : nat;
  mds_client_wins : nat;
  mds_provider_wins : nat;
  mds_inconclusive : nat;
  mds_disputes_by_type : MarketDisputeType -> nat;
}.

Section disputes.
Context (now now_nanos : Z) (blake3 : Bytes -> Bytes) (disputes_iter : gmap Hash DisputeState -> list (Hash * DisputeState)).
Abbreviation MDM := (M MarketDisputeManager MarketDisputeError).
Implicit Types s : MarketDisputeManager.

Definition with_deposit (deposit : AdicAmount) (p : Protocol) : Protocol :=
  mkProtocol (po_approvals p) (po_features p) (po_signature p) deposit (po_timestamp p).
Definition challenge_new (deal_id : Z) (client provider : AccountAddress) (dispute_type : MarketDisputeType) (evidence_cid : option Hash)
    (deposit : AdicAmount) : DisputeChallenge :=
  mkDisputeChallenge (with_deposit deposit (protocol_new now))
    (blake3 (to_le_bytes 8 deal_id ++ client ++ provider ++ to_le_bytes 8 (to_u64 now_nanos) ++ [dispute_type_number dispute_type] ++
      default [] evidence_cid))
    deal_id client provider dispute_type evidence_cid None None None None Pending None.
Definition challenge_is_finalized (c : DisputeChallenge) : bool := is_finalized (dch_finality_status c).
Definition resolution_new (ref_dispute : Hash) (ruling : MarketDisputeRuling) (evidence_summary : string) (slash_amount refund_amount : AdicAmount)
    (resolved_at_epoch : Z) : DisputeResolution :=
  mkDisputeResolution (protocol_new now) ref_dispute None [] [] ruling evidence_summary slash_amount refund_amount resolved_at_epoch Pending None.
Definition resolution_is_finalized (r : DisputeResolution) : bool := is_finalized (drs_finality_status r).

Definition multiply_by_percentage (amount : AdicAmount) (percentage : f64) : AdicAmount := from_adic (f64_mul (to_adic amount) percentage).
Definition calculate_remaining_payment (d : StorageDeal) : AdicAmount := dl_client_payment_escrow d.

(** The field that the type of a dispute asks for. *)
Definition has_evidence (c : DisputeChallenge) : bool :=
  match dch_dispute_type c with
  | DisDataCorruption => bool_decide (is_Some (dch_claimed_chunk_index c))
  | DisDataUnavailable => bool_decide (is_Some (dch_failed_request_id c))
  | DisPerformanceBreach => match dch_measured_performance c with Some _ => true | None => false end
  | DisIncorrectProof => bool_decide (is_Some (dch_evidence_cid c))
  end.

Definition submit_dispute (challenge : DisputeChallenge) (deal : StorageDeal) : MDM Hash :=
  mbail (negb (bool_decide (dch_client challenge = dl_client deal))) ClientDoesNotMatch;;
  mbail (negb (bool_decide (dch_provider challenge = dl_provider deal))) ProviderDoesNotMatch;;
  config ← mread md_config;
  mbail (dch_deposit challenge <? mdc_min_dispute_deposit config) (DepositTooLow (mdc_min_dispute_deposit config) (dch_deposit challenge));;
  mbail (negb (has_evidence challenge)) (MissingEvidence (dch_dispute_type challenge));;
  let dispute_id := dch_dispute_id challenge in
  mwrite (fun s => mkMarketDisputes (md_config s) (<[dispute_id := mkDisputeState challenge None DisPending]> (md_disputes s)) (md_deal_disputes s));;
  mwrite (fun s => mkMarketDisputes (md_config s) (md_disputes s)
    (<[dch_deal_id challenge := default [] (md_deal_disputes s !! dch_deal_id challenge) ++ [dispute_id]]> (md_deal_disputes s)));;
  mret dispute_id.

Definition calculate_automatic_resolution (config : MarketDisputeConfig) (challenge : DisputeChallenge) (deal : StorageDeal)
    (provider_health : ProviderHealth) : MarketDisputeRuling * string * AdicAmount * AdicAmount :=
  match dch_dispute_type challenge with
  | DisDataUnavailable =>
      if bool_decide (provider_health = Offline) then
        (ClientWins, "Provider is offline, cannot retrieve data"%string,
         multiply_by_percentage (dl_provider_collateral deal) (mdc_provider_corruption_penalty config),
         amount_saturating_add (calculate_remaining_payment deal) (dch_deposit challenge))
      else (Inconclusive, "Provider is online, need more evidence"%string, ZERO, dch_deposit challenge)
  | DisPerformanceBreach =>
      match dch_measured_performance challenge with
      | Some metrics =>
          if pm_bandwidth_bps metrics <? pm_required_bandwidth_bps metrics then
            let slash := multiply_by_percentage (dl_provider_collateral deal) (f64_lit 1 10) in
            (ClientWins, ("Provider bandwidth " +:+ show_u64 (pm_bandwidth_bps metrics) +:+ "bps below required " +:+
               show_u64 (pm_required_bandwidth_bps metrics) +:+ "bps")%string, slash,
             amount_saturating_add (dch_deposit challenge) (multiply_by_percentage slash (f64_lit 1 2)))
          else (ProviderWins, "Provider met SLA requirements"%string,
                multiply_by_percentage (dch_deposit challenge) (mdc_client_loss_penalty config), ZERO)
      | None => (Inconclusive, "No performance metrics provided"%string, ZERO, dch_deposit challenge)
      end
  | DisDataCorruption | DisIncorrectProof => (Inconclusive, "Requires quorum verification"%string, ZERO, ZERO)
  end.

(** The two writes of a resolution; the entry is still there, as nothing removes one. *)
Definition record_resolution (dispute_id : Hash) (r : DisputeResolution) : MDM unit :=
  mwrite (fun s => mkMarketDisputes (md_config s)
    (alter (fun d => mkDisputeState (dst_challenge d) (Some r) (dst_status d)) dispute_id (md_disputes s)) (md_deal_disputes s));;
  mwrite (fun s => mkMarketDisputes (md_config s)
    (alter (fun d => mkDisputeState (dst_challenge d) (dst_resolution d) DisResolved) dispute_id (md_disputes s)) (md_deal_disputes s)).

Definition find_market_dispute (dispute_id : Hash) : MDM DisputeState :=
  disputes ← mread md_disputes;
  mopt (disputes !! dispute_id) MarketDisputeNotFound.

Definition resolve_dispute_automatic (dispute_id : Hash) (deal : StorageDeal) (provider_health : ProviderHealth) (current_epoch : Z)
    : MDM DisputeResolution :=
  state ← find_market_dispute dispute_id;
  config ← mread md_config;
  let '(ruling, evidence_summary, slash_amount, refund_amount) :=
    calculate_automatic_resolution config (dst_challenge state) deal provider_health in
  let resolution := resolution_new dispute_id ruling evidence_summary slash_amount refund_amount current_epoch in
  record_resolution dispute_id resolution;;
  mret resolution.

Definition count_votes (r : MarketDisputeRuling) (votes : list MarketDisputeRuling) : nat := length (List.filter (fun v => bool_decide (v = r)) votes).
Definition determine_majority_ruling (config : MarketDisputeConfig) (votes : list MarketDisputeRuling) : MarketDisputeRuling :=
  let total := f64_of_Z (Z.of_nat (length votes)) in
  let client_wins := f64_of_Z (Z.of_nat (count_votes ClientWins votes)) in
  let provider_wins := f64_of_Z (Z.of_nat (count_votes ProviderWins votes)) in
  if f64_geb (f64_div client_wins total) (mdc_ruling_threshold config) then ClientWins
  else if f64_geb (f64_div provider_wins total) (mdc_ruling_threshold config) then ProviderWins
  else Inconclusive.

(** What each side loses and gets after the vote. *)
Definition quorum_amounts (config : MarketDisputeConfig) (challenge : DisputeChallenge) (deal : StorageDeal) (ruling : MarketDisputeRuling)
    : AdicAmount * AdicAmount :=
  match ruling with
  | ClientWins =>
      (multiply_by_percentage (dl_provider_collateral deal) (mdc_provider_corruption_penalty config),
       amount_saturating_add (calculate_remaining_payment deal) (dch_deposit challenge))
  | ProviderWins => (multiply_by_percentage (dch_deposit challenge) (mdc_client_loss_penalty config), ZERO)
  | Inconclusive => (ZERO, dch_deposit challenge)
  end.

Definition resolve_dispute_via_quorum (dispute_id : Hash) (deal : StorageDeal) (quorum_votes : list (AccountAddress * MarketDisputeRuling))
    (current_epoch : Z) : MDM DisputeResolution :=
  state ← find_market_dispute dispute_id;
  config ← mread md_config;
  let ruling := determine_majority_ruling config quorum_votes.*2 in
  let (slash_amount, refund_amount) := quorum_amounts config (dst_challenge state) deal ruling in
  let base := resolution_new dispute_id ruling ("Quorum vote: " +:+ show_u64 (Z.of_nat (length quorum_votes)) +:+ " members voted")%string
                slash_amount refund_amount current_epoch in
  let resolution := mkDisputeResolution (drs_protocol base) (drs_ref_dispute base) (drs_arbitrator base) quorum_votes.*1 quorum_votes.*2
    (drs_ruling base) (drs_evidence_summary base) (drs_slash_amount base) (drs_refund_amount base) (drs_resolved_at_epoch base)
    (drs_finality_status base) (drs_finalized_at_epoch base) in
  record_resolution dispute_id resolution;;
  mret resolution.

Definition get_market_dispute s (dispute_id : Hash) : option DisputeState := md_disputes s !! dispute_id.
Definition get_deal_disputes s (deal_id : Z) : list Hash := default [] (md_deal_disputes s !! deal_id).

(** The subtraction wraps around. *)
Definition dispute_is_expired (config : MarketDisputeConfig) (current_epoch : Z) (d : DisputeState) : bool :=
  bool_decide (dst_status d = DisPending) &&
  match dch_finalized_at_epoch (dst_challenge d) with
  | Some finalized_epoch => mdc_resolution_deadline config <? to_u64 (current_epoch - finalized_epoch)
  | None => false
  end.
Definition check_expired_disputes (current_epoch : Z) s : MarketDisputeManager :=
  mkMarketDisputes (md_config s)
    (loop_entries (dispute_is_expired (md_config s) current_epoch) (fun _ d => mkDisputeState (dst_challenge d) (dst_resolution d) DisExpired)
      (disputes_iter (md_disputes s)) (md_disputes s)).1
    (md_deal_disputes s).

Definition count_states (f : DisputeState -> bool) s : nat := size (filter (fun id => f id.2 = true) (md_disputes s)).
Definition ruled (r : MarketDisputeRuling) (d : DisputeState) : bool :=
  bool_decide (dst_status d = DisResolved) && match dst_resolution d with Some x => bool_decide (drs_ruling x = r) | None => false end.
Definition get_market_dispute_stats s : MarketDisputeStats :=
  mkMarketDisputeStats (size (md_disputes s))
    (count_states (fun d => bool_decide (dst_status d = DisPending) || bool_decide (dst_status d = DisUnderReview)) s)
    (count_states (fun d => bool_decide (dst_status d = DisResolved)) s)
    (count_states (fun d => bool_decide (dst_status d = DisExpired)) s)
    (count_states (ruled ClientWins) s) (count_states (ruled ProviderWins) s) (count_states (ruled Inconclusive) s)
    (fun t => count_states (fun d => bool_decide (dch_dispute_type (dst_challenge d) = t)) s).
End disputes.

(** ** Facts *)

Section facts.
Context (now : Z) (disputes_iter : gmap Hash DisputeState -> list (Hash * DisputeState)).
Context (Hiter : forall m, disputes_iter m ≡ₚ map_to_list m).
Implicit Types s : MarketDisputeManager.

Definition put_dispute (id : Hash) (d : DisputeState) s : MarketDisputeManager :=
  mkMarketDisputes (md_config s) (<[id := d]> (md_disputes s)) (md_deal_disputes s).
Definition disputable s (c : DisputeChallenge) (deal : StorageDeal) : Prop :=
  dch_client c = dl_client deal /\ dch_provider c = dl_provider deal /\
  mdc_min_dispute_deposit (md_config s) <= dch_deposit c /\ has_evidence c = true.
Definition submitted_dispute (c : DisputeChallenge) s : MarketDisputeManager :=
  mkMarketDisputes (md_config s) (<[dch_dispute_id c := mkDisputeState c None DisPending]> (md_disputes s))
    (<[dch_deal_id c := get_deal_disputes s (dch_deal_id c) ++ [dch_dispute_id c]]> (md_deal_disputes s)).

Lemma submit_dispute_spec c deal s :
  (disputable s c deal /\ submit_dispute c deal s = (Ok (dch_dispute_id c), submitted_dispute c s)) \/
  (~ disputable s c deal /\ exists e, submit_dispute c deal s = (Err e, s)).
Proof.
  unfold disputable, submit_dispute, mbind, M_bind, mread, mbail, mwrite, mfail, mret, M_ret.
  case_bool_decide; cbn; [|right; split; [tauto|by eexists]]. case_bool_decide; cbn; [|right; split; [tauto|by eexists]].
  ztest (dch_deposit c <? mdc_min_dispute_deposit (md_config s)); cbn; [right; split; [lia|by eexists]|].
  destruct (has_evidence c); cbn; [left; by split_and!|right; split; [naive_solver|by eexists]].
Qed.

(** A dispute is taken exactly when its parties are those of the deal, its deposit suffices and it has
    the evidence that its type asks for; it is then pending and listed under the deal it names. *)
Theorem market_dispute_submitted c deal s :
  let (r, s') := submit_dispute c deal s in
  (r = Ok (dch_dispute_id c) <-> disputable s c deal) /\
  (r = Ok (dch_dispute_id c) -> get_market_dispute s' (dch_dispute_id c) = Some (mkDisputeState c None DisPending) /\
     get_deal_disputes s' (dch_deal_id c) = get_deal_disputes s (dch_deal_id c) ++ [dch_dispute_id c]) /\
  (r <> Ok (dch_dispute_id c) -> s' = s /\ exists e, r = Err e).
Proof.
  destruct (submit_dispute_spec c deal s) as [[H ->]|[H [e ->]]].
  - split; [done|]. split; [|done]. intros _. unfold get_market_dispute, get_deal_disputes, submitted_dispute. cbn [md_disputes md_deal_disputes].
    by rewrite !lookup_insert_eq.
  - split; [by split|]. split; [done|by eauto].
Qed.

(** ** Resolution *)

Lemma record_spec id r d s :
  get_market_dispute s id = Some d ->
  record_resolution id r s = (Ok tt, put_dispute id (mkDisputeState (dst_challenge d) (Some r) DisResolved) s).
Proof.
  intros Hd. unfold get_market_dispute in Hd. unfold record_resolution, mbind, M_bind, mwrite, put_dispute. cbn [md_config md_disputes md_deal_disputes].
  rewrite (alter_is_insert _ _ _ _ Hd). rewrite (alter_is_insert _ _ _ _ (lookup_insert_eq _ _ _)). by rewrite insert_insert_eq.
Qed.

(** What an automatic resolution says. *)
Definition automatic_of (config : MarketDisputeConfig) (id : Hash) (c : DisputeChallenge) (deal : StorageDeal) (h : ProviderHealth) (epoch : Z)
    : DisputeResolution :=
  let '(ruling, summary, slash, refund) := calculate_automatic_resolution config c deal h in resolution_new now id ruling summary slash refund epoch.

Lemma automatic_spec id deal h epoch s :
  resolve_dispute_automatic now id deal h epoch s =
  match get_market_dispute s id with
  | None => (Err MarketDisputeNotFound, s)
  | Some d =>
      let r := automatic_of (md_config s) id (dst_challenge d) deal h epoch in
      (Ok r, put_dispute id (mkDisputeState (dst_challenge d) (Some r) DisResolved) s)
  end.
Proof.
  destruct (get_market_dispute s id) as [d|] eqn:Hd.
  - unfold resolve_dispute_automatic, find_market_dispute. pose proof Hd as Hd'. unfold get_market_dispute in Hd'.
    cbn [mbind M_bind mread mopt mret M_ret]. unfold mbind, M_bind, mread, mopt, mret, M_ret. rewrite Hd'. unfold automatic_of.
    destruct (calculate_automatic_resolution _ _ _ _) as [[[ruling summary] slash] refund]. by rewrite (record_spec _ _ d).
  - unfold resolve_dispute_automatic, find_market_dispute, mbind, M_bind, mread, mopt. unfold get_market_dispute in Hd. by rewrite Hd.
Qed.

Definition quorum_of (config : MarketDisputeConfig) (id : Hash) (c : DisputeChallenge) (deal : StorageDeal)
    (votes : list (AccountAddress * MarketDisputeRuling)) (epoch : Z) : DisputeResolution :=
  let ruling := determine_majority_ruling config votes.*2 in
  let (slash, refund) := quorum_amounts config c deal ruling in
  mkDisputeResolution (protocol_new now) id None votes.*1 votes.*2 ruling
    ("Quorum vote: " +:+ show_u64 (Z.of_nat (length votes)) +:+ " members voted")%string slash refund epoch Pending None.

Lemma quorum_spec id deal votes epoch s :
  resolve_dispute_via_quorum now id deal votes epoch s =
  match get_market_dispute s id with
  | None => (Err MarketDisputeNotFound, s)
  | Some d =>
      let r := quorum_of (md_config s) id (dst_challenge d) deal votes epoch in
      (Ok r, put_dispute id (mkDisputeState (dst_challenge d) (Some r) DisResolved) s)
  end.
Proof.
  destruct (get_market_dispute s id) as [d|] eqn:Hd.
  - unfold resolve_dispute_via_quorum, find_market_dispute. pose proof Hd as Hd'. unfold get_market_dispute in Hd'.
    unfold mbind, M_bind, mread, mopt, mret, M_ret. rewrite Hd'. unfold quorum_of.
    destruct (quorum_amounts _ _ _ _) as [slash refund]. by rewrite (record_spec _ _ d).
  - unfold resolve_dispute_via_quorum, find_market_dispute, mbind, M_bind, mread, mopt. unfold get_market_dispute in Hd. by rewrite Hd.
Qed.

(** Every ratio of a committee of at most 64 compares with two thirds as the fractions do. *)
Definition ratio_check (n c : nat) : bool :=
  Bool.eqb (f64_geb (f64_div (f64_of_Z (Z.of_nat c)) (f64_of_Z (Z.of_nat n))) (f64_lit 66 100)) ((66 * n <=? 100 * c)%nat && (0 <? n)%nat).
Lemma ratios_exact n c : (n <= 64)%nat -> (c <= n)%nat ->
  f64_geb (f64_div (f64_of_Z (Z.of_nat c)) (f64_of_Z (Z.of_nat n))) (f64_lit 66 100) = (66 * n <=? 100 * c)%nat && (0 <? n)%nat.
Proof.
  intros Hn Hc. assert (forallb (fun n => forallb (ratio_check n) (seq 0 (S n))) (seq 0 65) = true) as Hall by (vm_compute; reflexivity).
  rewrite forallb_forall in Hall. specialize (Hall n ltac:(apply in_seq; lia)). rewrite forallb_forall in Hall.
  specialize (Hall c ltac:(apply in_seq; lia)). by apply eqb_prop in Hall.
Qed.
Lemma count_votes_le r votes : (count_votes r votes <= length votes)%nat.
Proof. unfold count_votes. rewrite list_filter_bool. apply length_filter. Qed.
Lemma count_votes_disjoint votes : (count_votes ClientWins votes + count_votes ProviderWins votes <= length votes)%nat.
Proof. unfold count_votes. induction votes as [|v votes IH]; [done|]. cbn [List.filter length]. destruct v; repeat case_bool_decide; simplify_eq; cbn [length]; lia. Qed.

Lemma side_of_majority (n c p : nat) :
  (c + p <= n)%nat ->
  let ruling := if (66 * n <=? 100 * c)%nat && (0 <? n)%nat then ClientWins
    else if (66 * n <=? 100 * p)%nat && (0 <? n)%nat then ProviderWins else Inconclusive in
  (ruling = ClientWins <-> (66 * n <= 100 * c)%nat /\ (0 < n)%nat) /\ (ruling = ProviderWins <-> (66 * n <= 100 * p)%nat /\ (0 < n)%nat).
Proof.
  intros H. destruct (66 * n <=? 100 * c)%nat eqn:E1; destruct (66 * n <=? 100 * p)%nat eqn:E2; destruct (0 <? n)%nat eqn:E3; zbool; cbn [andb];
    split; split; intros; (done || lia).
Qed.

(** With the default threshold and at most 64 votes, a quorum rules for a side exactly when at least 66 of
    100 of the votes cast, and at least one, are for it; then the loser is slashed and the deposit kept or
    returned with the escrow, and otherwise the deposit is returned. *)
Theorem quorum_ruling_correct id deal votes epoch s d :
  mdc_ruling_threshold (md_config s) = f64_lit 66 100 -> (length votes <= 64)%nat -> get_market_dispute s id = Some d ->
  let (res, s') := resolve_dispute_via_quorum now id deal votes epoch s in
  exists r, res = Ok r /\ s' = put_dispute id (mkDisputeState (dst_challenge d) (Some r) DisResolved) s /\
  drs_quorum_members r = votes.*1 /\ drs_quorum_votes r = votes.*2 /\
  (drs_ruling r = ClientWins <-> (66 * length votes <= 100 * count_votes ClientWins votes.*2)%nat /\ votes <> []) /\
  (drs_ruling r = ProviderWins <-> (66 * length votes <= 100 * count_votes ProviderWins votes.*2)%nat /\ votes <> []) /\
  (drs_slash_amount r, drs_refund_amount r) = quorum_amounts (md_config s) (dst_challenge d) deal (drs_ruling r).
Proof.
  intros Hth Hlen Hd. rewrite quorum_spec, Hd. eexists. split; [reflexivity|]. split; [reflexivity|]. unfold quorum_of.
  set (ruling := determine_majority_ruling _ _). destruct (quorum_amounts _ _ _ ruling) as [slash refund] eqn:Ea. cbn [drs_quorum_members drs_quorum_votes drs_ruling drs_slash_amount drs_refund_amount].
  split; [done|]. split; [done|]. pose proof (count_votes_le ClientWins votes.*2) as Hc. pose proof (count_votes_le ProviderWins votes.*2) as Hp.
  pose proof (count_votes_disjoint votes.*2) as Hdis.
  assert (votes <> [] <-> (0 < length votes)%nat) as Hne by (destruct votes; cbn; split; (done || lia)).
  rewrite !length_fmap in *. rewrite Hne. cut ((ruling = ClientWins <-> (66 * length votes <= 100 * count_votes ClientWins votes.*2)%nat /\ (0 < length votes)%nat) /\
    (ruling = ProviderWins <-> (66 * length votes <= 100 * count_votes ProviderWins votes.*2)%nat /\ (0 < length votes)%nat)); [by intros []|].
  unfold ruling, determine_majority_ruling. rewrite Hth, length_fmap. rewrite !ratios_exact by lia.
  by apply side_of_majority.
Qed.

(** ** Histories *)

Inductive dispute_step : MarketDisputeManager -> MarketDisputeManager -> Prop :=
  | md_submit c deal s : dispute_step s (submit_dispute c deal s).2
  | md_automatic id deal h epoch s : dispute_step s (resolve_dispute_automatic now id deal h epoch s).2
  | md_quorum id deal votes epoch s : dispute_step s (resolve_dispute_via_quorum now id deal votes epoch s).2
  | md_expire epoch s : dispute_step s (check_expired_disputes disputes_iter epoch s).

Definition dispute_ok s (id : Hash) (d : DisputeState) : Prop :=
  dch_dispute_id (dst_challenge d) = id /\ id ∈ get_deal_disputes s (dch_deal_id (dst_challenge d)) /\
  match dst_resolution d with
  | Some r => dst_status d = DisResolved /\ drs_ref_dispute r = id
  | None => dst_status d = DisPending \/ dst_status d = DisExpired
  end.
Definition disputes_ok s : Prop := forall id d, get_market_dispute s id = Some d -> dispute_ok s id d.

Lemma put_dispute_ok id d d' s :
  disputes_ok s -> get_market_dispute s id = Some d -> dispute_ok s id d' -> disputes_ok (put_dispute id d' s).
Proof.
  intros Hs Hd Hok j e. unfold get_market_dispute, put_dispute. cbn [md_disputes]. destruct (decide (j = id)) as [->|Hj].
  - rewrite lookup_insert_eq. intros [= <-]. exact Hok.
  - rewrite lookup_insert_ne by done. intros He. exact (Hs j e He).
Qed.

Lemma dispute_step_ok s s' : dispute_step s s' -> disputes_ok s -> disputes_ok s'.
Proof.
  intros [c deal s0|id deal h epoch s0|id deal votes epoch s0|epoch s0] Hs.
  - destruct (submit_dispute_spec c deal s0) as [[_ ->]|[_ [e ->]]]; [|done]. intros j d. unfold get_market_dispute, submitted_dispute. cbn [snd md_disputes].
    assert (forall x k, x ∈ get_deal_disputes s0 k -> x ∈ get_deal_disputes (submitted_dispute c s0) k) as Hgrow.
    { intros x k Hx. unfold get_deal_disputes, submitted_dispute. cbn [md_deal_disputes]. destruct (decide (k = dch_deal_id c)) as [->|Hk].
      - rewrite lookup_insert_eq. cbn. apply elem_of_app. by left.
      - by rewrite lookup_insert_ne. }
    destruct (decide (j = dch_dispute_id c)) as [->|Hj].
    + rewrite lookup_insert_eq. intros [= <-]. split; [done|]. split; [|by left]. unfold get_deal_disputes. cbn [md_deal_disputes dst_challenge].
      rewrite lookup_insert_eq. cbn. apply elem_of_app. right. by left.
    + rewrite lookup_insert_ne by done. intros Hd. destruct (Hs j d Hd) as (H1 & H2 & H3). split; [done|]. split; [by apply Hgrow|done].
  - rewrite automatic_spec. destruct (get_market_dispute s0 id) as [d|] eqn:Hd; [|done]. apply (put_dispute_ok id d); [done..|].
    destruct (Hs id d Hd) as (H1 & H2 & _). split; [done|]. split; [done|]. split; [done|]. unfold automatic_of.
    by destruct (calculate_automatic_resolution _ _ _ _) as [[[? ?] ?] ?].
  - rewrite quorum_spec. destruct (get_market_dispute s0 id) as [d|] eqn:Hd; [|done]. apply (put_dispute_ok id d); [done..|].
    destruct (Hs id d Hd) as (H1 & H2 & _). split; [done|]. split; [done|]. split; [done|]. unfold quorum_of. by destruct (quorum_amounts _ _ _ _).
  - intros j d. unfold get_market_dispute, check_expired_disputes. cbn [md_disputes].
    pose proof (loop_entries_spec (dispute_is_expired (md_config s0) epoch) (fun (_ : Hash) d => mkDisputeState (dst_challenge d) (dst_resolution d) DisExpired)
      _ _ (Hiter (md_disputes s0))) as H. destruct (loop_entries _ _ _ _) as [m out]. destruct H as [Hm _]. cbn [fst]. rewrite Hm.
    intros (d0 & Hd0 & ->)%fmap_Some. destruct (Hs j d0 Hd0) as (H1 & H2 & H3). destruct (dispute_is_expired _ _ d0) eqn:E; [|by split_and!].
    split; [done|]. split; [done|]. cbn [dst_resolution dst_status]. unfold dispute_is_expired in E. apply andb_true_iff in E as [E _]. apply bool_decide_eq_true in E.
    destruct (dst_resolution d0); [destruct H3; congruence|by right].
Qed.

(** In every reachable state a dispute is stored under its number and listed under its deal, and it has a
    resolution, of that dispute, exactly when it is resolved. *)
Theorem disputes_resolved_once_recorded config s id d :
  rtc dispute_step (market_disputes_new config) s -> get_market_dispute s id = Some d ->
  dch_dispute_id (dst_challenge d) = id /\ id ∈ get_deal_disputes s (dch_deal_id (dst_challenge d)) /\
  (dst_status d = DisResolved <-> is_Some (dst_resolution d)) /\ dst_status d <> DisUnderReview /\
  forall r, dst_resolution d = Some r -> drs_ref_dispute r = id.
Proof.
  intros Hr Hd. assert (disputes_ok s) as Hs.
  { assert (disputes_ok (market_disputes_new config)) as H0 by done. clear Hd. revert H0.
    induction Hr as [|x y z Hxy _ IH]; [done|]. intros Hx. apply IH. by eapply dispute_step_ok. }
  destruct (Hs id d Hd) as (H1 & H2 & H3). split; [done|]. split; [done|]. destruct (dst_resolution d) as [r|].
  - destruct H3 as [-> H3]. split; [by split|]. split; [done|]. by intros ? [= <-].
  - split; [split; [intros E; rewrite E in H3; naive_solver|by intros []]|]. split; [destruct H3; congruence|done].
Qed.

(** ** What goes wrong *)

(** The automatic resolution of a dispute about corrupted data or a wrong proof, which needs a quorum,
    resolves it all the same, and returns no deposit. *)
Theorem automatic_forfeits_deposit id deal h epoch s d :
  get_market_dispute s id = Some d ->
  dch_dispute_type (dst_challenge d) = DisDataCorruption \/ dch_dispute_type (dst_challenge d) = DisIncorrectProof ->
  let (res, s') := resolve_dispute_automatic now id deal h epoch s in
  exists r, res = Ok r /\ drs_ruling r = Inconclusive /\ drs_refund_amount r = ZERO /\
  dst_status <$> get_market_dispute s' id = Some DisResolved.
Proof.
  intros Hd Ht. rewrite automatic_spec, Hd. eexists. split; [reflexivity|]. unfold automatic_of, calculate_automatic_resolution.
  unfold get_market_dispute, put_dispute. cbn [md_disputes]. rewrite lookup_insert_eq. by destruct Ht as [-> | ->].
Qed.

(** A resolution is not final: another one of the same dispute, for whatever deal, replaces it, expired
    disputes included. *)
Theorem resolution_replaced id deal1 deal2 votes1 votes2 epoch1 epoch2 s d :
  get_market_dispute s id = Some d ->
  let s1 := (resolve_dispute_via_quorum now id deal1 votes1 epoch1 s).2 in
  let (res, s2) := resolve_dispute_via_quorum now id deal2 votes2 epoch2 s1 in
  exists r, res = Ok r /\ drs_ruling r = determine_majority_ruling (md_config s) votes2.*2 /\
  dst_resolution <$> get_market_dispute s2 id = Some (Some r).
Proof.
  intros Hd s1. assert (s1 = put_dispute id (mkDisputeState (dst_challenge d) (Some (quorum_of (md_config s) id (dst_challenge d) deal1 votes1 epoch1)) DisResolved) s) as ->.
  { unfold s1. by rewrite quorum_spec, Hd. }
  rewrite quorum_spec. unfold get_market_dispute, put_dispute. cbn [md_disputes md_config]. rewrite !lookup_insert_eq. cbn [dst_challenge].
  eexists. split; [reflexivity|]. split; [unfold quorum_of; by destruct (quorum_amounts _ _ _ _)|]. cbn [md_disputes]. by rewrite lookup_insert_eq.
Qed.

(** A dispute whose finality is recorded for a later epoch expires at once. *)
Theorem future_finality_expires id epoch finalized s d :
  get_market_dispute s id = Some d -> dst_status d = DisPending -> dch_finalized_at_epoch (dst_challenge d) = Some finalized ->
  0 <= epoch < finalized -> finalized <= u64_max -> 0 <= mdc_resolution_deadline (md_config s) < 2 ^ 64 - (finalized - epoch) ->
  dst_status <$> get_market_dispute (check_expired_disputes disputes_iter epoch s) id = Some DisExpired.
Proof.
  intros Hd Hst Hf He Hu Hdl. unfold get_market_dispute, check_expired_disputes in *. cbn [md_disputes].
  pose proof (loop_entries_spec (dispute_is_expired (md_config s) epoch) (fun (_ : Hash) d => mkDisputeState (dst_challenge d) (dst_resolution d) DisExpired)
      _ _ (Hiter (md_disputes s))) as H. destruct (loop_entries _ _ _ _) as [m out]. destruct H as [Hm _]. cbn [fst]. rewrite Hm, Hd.
  cbn [fmap option_fmap option_map]. unfold dispute_is_expired. rewrite Hst, Hf. rewrite bool_decide_eq_true_2 by done. cbn [andb].
  replace (to_u64 (epoch - finalized)) with (2 ^ 64 - (finalized - epoch)).
  - by rewrite (proj2 (Z.ltb_lt (mdc_resolution_deadline (md_config s)) (2 ^ 64 - (finalized - epoch)))) by lia.
  - unfold to_u64. rewrite <-(Z.mod_small (2 ^ 64 - (finalized - epoch)) (2 ^ 64)) by (uint_unfold; lia).
    replace (2 ^ 64 - (finalized - epoch)) with (epoch - finalized + 1 * 2 ^ 64) by lia. by rewrite Z.mod_add.
Qed.
End facts.

(** ** Witnesses *)

Definition dispute_deal : StorageDeal :=
  mkDeal (protocol_new 0) 4 [7] [8] [1] [2] [] 100 10 5 (from_adic (f64_of_Z 20)) (from_adic (f64_of_Z 8)) None (Some 3) 50 Active Pending None.
Definition corrupt_chunk : DisputeChallenge :=
  let c := challenge_new 7 7000 (fun bs => bs) 4 [1] [2] DisDataCorruption None (from_adic (f64_of_Z 1)) in
  mkDisputeChallenge (dch_protocol c) (dch_dispute_id c) 4 [1] [2] DisDataCorruption None (Some 2) None None None Pending (Some 50).
Definition one_dispute : MarketDisputeManager := (submit_dispute corrupt_chunk dispute_deal (market_disputes_new market_dispute_config_default)).2.
Definition demo_votes : list (AccountAddress * MarketDisputeRuling) := [([5], ClientWins); ([6], ClientWins); ([7], ProviderWins)].

Example demo_ruling : determine_majority_ruling market_dispute_config_default demo_votes.*2 = ClientWins.
Proof. vm_compute. reflexivity. Qed.

Lemma quorum_ruling_correct_witness :
  let d := mkDisputeState corrupt_chunk None DisPending in
  let (res, s') := resolve_dispute_via_quorum 9 (dch_dispute_id corrupt_chunk) dispute_deal demo_votes 60 one_dispute in
  exists r, res = Ok r /\ s' = put_dispute (dch_dispute_id corrupt_chunk) (mkDisputeState (dst_challenge d) (Some r) DisResolved) one_dispute /\
  drs_quorum_members r = demo_votes.*1 /\ drs_quorum_votes r = demo_votes.*2 /\
  (drs_ruling r = ClientWins <-> (66 * length demo_votes <= 100 * count_votes ClientWins demo_votes.*2)%nat /\ demo_votes <> []) /\
  (drs_ruling r = ProviderWins <-> (66 * length demo_votes <= 100 * count_votes ProviderWins demo_votes.*2)%nat /\ demo_votes <> []) /\
  (drs_slash_amount r, drs_refund_amount r) = quorum_amounts (md_config one_dispute) (dst_challenge d) dispute_deal (drs_ruling r).
Proof.
  apply (quorum_ruling_correct 9 (dch_dispute_id corrupt_chunk) dispute_deal demo_votes 60 one_dispute (mkDisputeState corrupt_chunk None DisPending));
    [vm_compute; reflexivity|apply Nat.leb_le; vm_compute; reflexivity|vm_compute; reflexivity].
Defined.

Lemma disputes_resolved_once_recorded_witness :
  let id := dch_dispute_id corrupt_chunk in let d := mkDisputeState corrupt_chunk None DisPending in
  dch_dispute_id (dst_challenge d) = id /\ id ∈ get_deal_disputes one_dispute (dch_deal_id (dst_challenge d)) /\
  (dst_status d = DisResolved <-> is_Some (dst_resolution d)) /\ dst_status d <> DisUnderReview /\
  forall r, dst_resolution d = Some r -> drs_ref_dispute r = id.
Proof.
  apply (disputes_resolved_once_recorded 9 map_to_list (fun m => reflexivity _) market_dispute_config_default one_dispute);
    [apply rtc_once, md_submit|vm_compute; reflexivity].
Defined.

Lemma automatic_forfeits_deposit_witness :
  let (res, s') := resolve_dispute_automatic 9 (dch_dispute_id corrupt_chunk) dispute_deal Offline 60 one_dispute in
  exists r, res = Ok r /\ drs_ruling r = Inconclusive /\ drs_refund_amount r = ZERO /\
  dst_status <$> get_market_dispute s' (dch_dispute_id corrupt_chunk) = Some DisResolved.
Proof.
  apply (automatic_forfeits_deposit 9 (dch_dispute_id corrupt_chunk) dispute_deal Offline 60 one_dispute (mkDisputeState corrupt_chunk None DisPending));
    [vm_compute; reflexivity|by left].
Defined.

Lemma resolution_replaced_witness :
  let id := dch_dispute_id corrupt_chunk in
  let s1 := (resolve_dispute_via_quorum 9 id dispute_deal demo_votes 60 one_dispute).2 in
  let (res, s2) := resolve_dispute_via_quorum 9 id dispute_deal [([5], ProviderWins)] 61 s1 in
  exists r, res = Ok r /\ drs_ruling r = determine_majority_ruling (md_config one_dispute) [ProviderWins] /\
  dst_resolution <$> get_market_dispute s2 id = Some (Some r).
Proof.
  apply (resolution_replaced 9 (dch_dispute_id corrupt_chunk) dispute_deal dispute_deal demo_votes [([5], ProviderWins)] 60 61 one_dispute
    (mkDisputeState corrupt_chunk None DisPending)). vm_compute. reflexivity.
Defined.

Lemma future_finality_expires_witness :
  dst_status <$> get_market_dispute (check_expired_disputes map_to_list 49 one_dispute) (dch_dispute_id corrupt_chunk) = Some DisExpired.
Proof.
  apply (future_finality_expires map_to_list (fun m => reflexivity _) (dch_dispute_id corrupt_chunk) 49 50 one_dispute (mkDisputeState corrupt_chunk None DisPending));
    [vm_compute; reflexivity|reflexivity|reflexivity|lia|done|].
  change (mdc_resolution_deadline (md_config one_dispute)) with 100. lia.
Defined.
