(* ===== verification/Aggregation.v ===== *)
(** * Batched proofs and checkpoints of the storage market

    [adic-storage-market/src/aggregation.rs]: batches of storage proofs under one Merkle root, checkpoints of
    the roots since the last one, and the queue of proofs waiting for a batch.

    [now] is the clock in seconds and [blake3] the hash.  A batch is made after the pending proofs were
    taken from the queue; an error does not put them back. *)

From S2P Require Import Prelude F64 Message Amount Voting MarketTypes.

(** ** Data *)

Record IndividualProof := mkIndividual {
  ip_deal_id : Z;
  ip_epoch : Z;
  ip_challenge_indices : list Z;
  ip_merkle_proofs : list MerkleProof;
}.

Record BatchedStorageProof := mkBatch {
  bp_protocol : Protocol;
  bp_provider : AccountAddress;
  bp_deal_ids : list Z;
  bp_epoch_range : Z * Z;
  bp_aggregated_merkle_root : Hash;
  bp_individual_proofs : list IndividualProof;
  bp_batch_id : Hash;
  bp_finality_status : FinalityStatus;
  bp_finalized_at_epoch : option Z;
}.

Record CheckpointProof := mkCheckpointProof {
  cp_protocol : Protocol;
  cp_deal_id : Z;
  cp_provider : AccountAddress;
  cp_checkpoint_epoch : Z;
  cp_merkle_roots_since_last : list Hash;
  cp_proofs_covered : Z;
  cp_combined_merkle_root : Hash;
  cp_checkpoint_id : Hash;
  cp_finality_status : FinalityStatus;
  cp_finalized_at_epoch : option Z;
}.

Record AggregationConfig := mkAggregationConfig {
  agc_max_proofs_per_batch : nat;
  agc_checkpoint_interval : Z;
  agc_min_batch_size : nat;
  agc_auto_batch : bool;
}.
Definition aggregation_config_default : AggregationConfig := mkAggregationConfig 100 1000 5 true.

Record AggregationManager := mkAggregations {
  ag_config : AggregationConfig;
  ag_batched_proofs : gmap Hash BatchedStorageProof;
  ag_checkpoints : gmap Hash CheckpointProof;
  ag_pending_proofs : gmap AccountAddress (list IndividualProof);
}.
Definition aggregations_new (config : AggregationConfig) : AggregationManager := mkAggregations config ∅ ∅ ∅.

Inductive AggregationError :=
  | NoPendingProofs
  | NotEnoughProofs (count minimum : nat)
  | EmptyBatch
  | BatchTooLarge (size maximum : nat)
  | AggregateRootMismatch
  | EmptyCheckpoint
  | CombinedRootMismatch.

Record AggregationStats := mkAggregationStats {
  ast_total_batches : nat;
  ast_total_checkpoints : nat;
  ast_total_proofs_batched : Z;
  ast_total_proofs_checkpointed : Z;
  ast_avg_batch_size : f64;
  ast_pending_proofs : Z;
}.

Section aggregation.
Context (now : Z) (blake3 : Bytes -> Bytes).
Abbreviation AGM := (M AggregationManager AggregationError).
Implicit Types s : AggregationManager.

(** ** Roots *)

(** One level of the tree: neighbours are hashed together, an odd last node moves up as it is. *)
Fixpoint next_level (level : list Hash) : list Hash :=
  match level with
  | l :: r :: rest => blake3 (l ++ r) :: next_level rest
  | _ => level
  end.
(** [while current_level.len() > 1], with fuel; the levels get shorter. *)
Fixpoint root_of_level (fuel : nat) (level : list Hash) : list Hash :=
  match fuel, level with
  | S fuel, _ :: _ :: _ => root_of_level fuel (next_level level)
  | _, _ => level
  end.
Definition compute_combined_root (roots : list Hash) : Hash :=
  match root_of_level (length roots) roots with
  | [] => replicate 32 0
  | root :: _ => root
  end.

Definition proof_leaf (p : IndividualProof) : Hash :=
  blake3 (to_le_bytes 8 (ip_deal_id p) ++ to_le_bytes 8 (ip_epoch p) ++ concat (mp_chunk_data <$> ip_merkle_proofs p)).
Definition compute_aggregate_root (proofs : list IndividualProof) : Hash := compute_combined_root (proof_leaf <$> proofs).

(** ** Messages *)

Definition batch_new (provider : AccountAddress) (deal_ids : list Z) (epoch_range : Z * Z) (individual_proofs : list IndividualProof)
    : BatchedStorageProof :=
  mkBatch (protocol_new now) provider deal_ids epoch_range (compute_aggregate_root individual_proofs) individual_proofs
    (blake3 (provider ++ to_le_bytes 8 epoch_range.1 ++ to_le_bytes 8 epoch_range.2 ++ to_le_bytes 8 (to_u64 now))) Pending None.
Definition batch_is_finalized (b : BatchedStorageProof) : bool := is_finalized (bp_finality_status b).
Definition proof_count (b : BatchedStorageProof) : nat := length (bp_individual_proofs b).
(** [1 - 1 / n], and 0 for no proofs. *)
Definition savings_ratio (n : Z) : f64 :=
  if n =? 0 then f64_of_Z 0 else f64_sub (f64_of_Z 1) (f64_div (f64_of_Z 1) (f64_of_Z n)).
Definition batch_savings_ratio (b : BatchedStorageProof) : f64 := savings_ratio (Z.of_nat (proof_count b)).

Definition checkpoint_proof_new (deal_id : Z) (provider : AccountAddress) (checkpoint_epoch : Z) (roots : list Hash) : CheckpointProof :=
  mkCheckpointProof (protocol_new now) deal_id provider checkpoint_epoch roots (Z.of_nat (length roots)) (compute_combined_root roots)
    (blake3 (to_le_bytes 8 deal_id ++ provider ++ to_le_bytes 8 checkpoint_epoch)) Pending None.
Definition checkpoint_is_finalized (c : CheckpointProof) : bool := is_finalized (cp_finality_status c).
Definition checkpoint_savings_ratio (c : CheckpointProof) : f64 := savings_ratio (cp_proofs_covered c).

(** ** The manager *)

Definition with_pending (f : gmap AccountAddress (list IndividualProof) -> gmap AccountAddress (list IndividualProof)) s : AggregationManager :=
  mkAggregations (ag_config s) (ag_batched_proofs s) (ag_checkpoints s) (f (ag_pending_proofs s)).
Definition with_batch (b : BatchedStorageProof) s : AggregationManager :=
  mkAggregations (ag_config s) (<[bp_batch_id b := b]> (ag_batched_proofs s)) (ag_checkpoints s) (ag_pending_proofs s).
Definition with_checkpoint (c : CheckpointProof) s : AggregationManager :=
  mkAggregations (ag_config s) (ag_batched_proofs s) (<[cp_checkpoint_id c := c]> (ag_checkpoints s)) (ag_pending_proofs s).

Definition pending_of s (provider : AccountAddress) : list IndividualProof := default [] (ag_pending_proofs s !! provider).
Definition add_pending_proof (provider : AccountAddress) (proof : IndividualProof) s : AggregationManager :=
  with_pending (insert provider (pending_of s provider ++ [proof])) s.

Definition create_batch (provider : AccountAddress) (epoch_range : Z * Z) : AGM BatchedStorageProof :=
  proofs ← mread (fun s => pending_of s provider);
  mwrite (with_pending (delete provider));;
  config ← mread ag_config;
  mbail (length proofs =? 0)%nat NoPendingProofs;;
  mbail (length proofs <? agc_min_batch_size config)%nat (NotEnoughProofs (length proofs) (agc_min_batch_size config));;
  let batch := batch_new provider (ip_deal_id <$> proofs) epoch_range proofs in
  mwrite (with_batch batch);;
  mret batch.

Definition submit_batch (batch : BatchedStorageProof) : AGM Hash :=
  config ← mread ag_config;
  mbail (proof_count batch =? 0)%nat EmptyBatch;;
  mbail (agc_max_proofs_per_batch config <? proof_count batch)%nat (BatchTooLarge (proof_count batch) (agc_max_proofs_per_batch config));;
  mbail (negb (bool_decide (compute_aggregate_root (bp_individual_proofs batch) = bp_aggregated_merkle_root batch))) AggregateRootMismatch;;
  mwrite (with_batch batch);;
  mret (bp_batch_id batch).

Definition create_checkpoint_proof (deal_id : Z) (provider : AccountAddress) (checkpoint_epoch : Z) (merkle_roots : list Hash) : AGM CheckpointProof :=
  mbail (length merkle_roots =? 0)%nat EmptyCheckpoint;;
  let checkpoint := checkpoint_proof_new deal_id provider checkpoint_epoch merkle_roots in
  mwrite (with_checkpoint checkpoint);;
  mret checkpoint.

Definition submit_checkpoint (checkpoint : CheckpointProof) : AGM Hash :=
  mbail (length (cp_merkle_roots_since_last checkpoint) =? 0)%nat EmptyCheckpoint;;
  mbail (negb (bool_decide (compute_combined_root (cp_merkle_roots_since_last checkpoint) = cp_combined_merkle_root checkpoint))) CombinedRootMismatch;;
  mwrite (with_checkpoint checkpoint);;
  mret (cp_checkpoint_id checkpoint).

Definition get_batch s (batch_id : Hash) : option BatchedStorageProof := ag_batched_proofs s !! batch_id.
Definition get_checkpoint_proof s (checkpoint_id : Hash) : option CheckpointProof := ag_checkpoints s !! checkpoint_id.

Definition get_aggregation_stats s : AggregationStats :=
  let total_proofs_batched := to_u64 (mapsum (fun ib => Z.of_nat (proof_count ib.2)) (ag_batched_proofs s)) in
  mkAggregationStats (size (ag_batched_proofs s)) (size (ag_checkpoints s)) total_proofs_batched
    (to_u64 (mapsum (fun ic => cp_proofs_covered ic.2) (ag_checkpoints s)))
    (if bool_decide (ag_batched_proofs s = ∅) then f64_of_Z 0
     else f64_div (f64_of_Z total_proofs_batched) (f64_of_Z (Z.of_nat (size (ag_batched_proofs s)))))
    (to_u64 (mapsum (fun ap => Z.of_nat (length ap.2)) (ag_pending_proofs s))).
End aggregation.

(** ** Roots *)

Section roots.
Context (blake3 : Bytes -> Bytes).

Lemma pair_induction {A} (P : list A -> Prop) :
  P [] -> (forall x, P [x]) -> (forall x y l, P l -> P (x :: y :: l)) -> forall l, P l.
Proof.
  intros H0 H1 H2 l. enough (P l /\ forall x, P (x :: l)) by tauto. induction l as [|y l [IH1 IH2]]; [done|]. split; [apply IH2|].
  intros x. by apply H2.
Qed.

Lemma next_level_length level : length (next_level blake3 level) = ((length level + 1) / 2)%nat.
Proof.
  induction level as [|x|x y l IH] using pair_induction; [done|done|]. cbn [next_level length]. rewrite IH.
  replace (S (S (length l)) + 1)%nat with ((length l + 1) + 1 * 2)%nat by lia. rewrite Nat.div_add by lia. lia.
Qed.
Lemma next_level_shorter x y l : (length (next_level blake3 (x :: y :: l)) < length (x :: y :: l))%nat.
Proof. rewrite next_level_length. cbn [length]. apply Nat.Div0.div_lt_upper_bound; lia. Qed.
Lemma next_level_nonempty level : level <> [] -> next_level blake3 level <> [].
Proof. destruct level as [|x [|y l]]; done. Qed.

(** The fuel is enough: one node is left. *)
Lemma root_of_level_single fuel level : (length level <= fuel)%nat -> level <> [] -> exists root, root_of_level blake3 fuel level = [root].
Proof.
  revert level. induction fuel as [|fuel IH]; intros level Hf Hne; [destruct level; [done|cbn in Hf; lia]|].
  destruct level as [|x [|y l]]; [done|by exists x|]. cbn [root_of_level].
  pose proof (next_level_shorter x y l). apply IH; [lia|]. by apply next_level_nonempty.
Qed.

(** Hashes of 32 bytes. *)
Definition hashes (l : list Hash) : Prop := Forall (fun h => length h = 32%nat) l.
Context (Hlen : forall bs, length (blake3 bs) = 32%nat).

Lemma next_level_hashes level : hashes level -> hashes (next_level blake3 level).
Proof.
  induction level as [|x|x y l IH] using pair_induction; [done|done|]. intros H. cbn [next_level]. inversion H as [|? ? _ H1]; subst.
  inversion H1; subst. constructor; [apply Hlen|]. by apply IH.
Qed.

(** What is hashed for one level, and for the root. *)
Fixpoint level_inputs (level : list Hash) : list Bytes :=
  match level with
  | l :: r :: rest => (l ++ r) :: level_inputs rest
  | _ => []
  end.
Fixpoint root_inputs (fuel : nat) (level : list Hash) : list Bytes :=
  match fuel with
  | O => []
  | S fuel => level_inputs level ++ root_inputs fuel (next_level blake3 level)
  end.
Definition combined_inputs (roots : list Hash) : list Bytes := root_inputs (length roots) roots.

Lemma next_level_binds l1 l2 : hashes l1 -> hashes l2 -> length l1 = length l2 -> next_level blake3 l1 = next_level blake3 l2 ->
  l1 = l2 \/ collides blake3 (level_inputs l1) (level_inputs l2).
Proof.
  revert l2. induction l1 as [|x|x y l1 IH] using pair_induction; intros [|x' [|y' l2]] H1 H2 Hl He; try done; [by left|cbn in He; left; congruence|].
  inversion H1 as [|? ? Hx H1']; subst. inversion H1' as [|? ? Hy H1'']; subst. inversion H2 as [|? ? Hx' H2']; subst. inversion H2' as [|? ? Hy' H2'']; subst.
  cbn [next_level level_inputs] in *. injection He as He Hr. destruct (decide (x ++ y = x' ++ y')) as [E|Hne].
  - apply app_inj_1 in E as [-> ->]; [|lia]. destruct (IH l2) as [->|Hc]; [done..|cbn in Hl; lia|done|by left|right].
    eapply collides_mono; [..|exact Hc]; set_solver.
  - right. exists (x ++ y), (x' ++ y'). split; [left|]. by split; [left|].
Qed.

Lemma root_of_level_binds fuel l1 l2 :
  hashes l1 -> hashes l2 -> length l1 = length l2 -> root_of_level blake3 fuel l1 = root_of_level blake3 fuel l2 ->
  l1 = l2 \/ collides blake3 (root_inputs fuel l1) (root_inputs fuel l2).
Proof.
  revert l1 l2. induction fuel as [|fuel IH]; intros l1 l2 H1 H2 Hl He; [by left|].
  destruct l1 as [|x [|y l1]], l2 as [|x' [|y' l2]]; try done; [by left|cbn in He; left; congruence|]. cbn [root_of_level root_inputs] in *.
  destruct (IH (next_level blake3 (x :: y :: l1)) (next_level blake3 (x' :: y' :: l2))) as [E|Hc]; [by apply next_level_hashes..|by rewrite !next_level_length, Hl|done| |].
  - destruct (next_level_binds (x :: y :: l1) (x' :: y' :: l2)) as [E'|Hc]; [done..|by left|right]. eapply collides_mono; [..|exact Hc]; intros z Hz; apply elem_of_app; by left.
  - right. eapply collides_mono; [..|exact Hc]; intros z Hz; apply elem_of_app; by right.
Qed.

(** C33: The combined root of a given number of roots binds them: two lists of the same length with the same
    combined root are the same, unless two different inputs that are hashed for them, one for each list, have
    the same hash. *)
Theorem combined_root_binds l1 l2 :
  hashes l1 -> hashes l2 -> length l1 = length l2 -> compute_combined_root blake3 l1 = compute_combined_root blake3 l2 ->
  l1 = l2 \/ collides blake3 (combined_inputs l1) (combined_inputs l2).
Proof.
  intros H1 H2 Hl. unfold compute_combined_root, combined_inputs. destruct l1 as [|x l1]; [destruct l2; [by left|done]|]. destruct l2 as [|x' l2]; [done|].
  destruct (root_of_level_single (length (x :: l1)) (x :: l1)) as [r1 E1]; [done..|].
  destruct (root_of_level_single (length (x' :: l2)) (x' :: l2)) as [r2 E2]; [done..|]. rewrite E1, E2. intros <-. rewrite <-Hl in *.
  apply (root_of_level_binds (length (x :: l1))); [done..|]. by rewrite E1.
Qed.
End roots.

(** The root depends on the hash at these inputs only. *)
Lemma next_level_ext blake3 blake3' level :
  (forall x, x ∈ level_inputs level -> blake3' x = blake3 x) -> next_level blake3' level = next_level blake3 level.
Proof.
  induction level as [|x|x y l IH] using pair_induction; intros H; [done|done|]. cbn [next_level level_inputs] in *.
  rewrite H by left. f_equal. apply IH. intros z Hz. apply H. by right.
Qed.
Lemma combined_root_ext blake3 blake3' roots :
  (forall x, x ∈ combined_inputs blake3 roots -> blake3' x = blake3 x) -> compute_combined_root blake3' roots = compute_combined_root blake3 roots.
Proof.
  unfold compute_combined_root, combined_inputs. intros H. assert (root_of_level blake3' (length roots) roots = root_of_level blake3 (length roots) roots) as ->; [|done].
  revert H. generalize roots at 2 4 6. induction (length roots) as [|fuel IH]; intros level H; [done|]. destruct level as [|x [|y l]]; [done..|].
  cbn [root_of_level root_inputs] in *. rewrite (next_level_ext blake3) by (intros z Hz; apply H, elem_of_app; by left).
  apply IH. intros z Hz. apply H, elem_of_app. by right.
Qed.

(** ** The queue and the messages *)

Section facts.
Context (now : Z) (blake3 : Bytes -> Bytes).
Implicit Types s : AggregationManager.

Definition without_pending (provider : AccountAddress) s : AggregationManager := with_pending (delete provider) s.

Lemma create_batch_spec provider range s :
  create_batch now blake3 provider range s =
  let proofs := pending_of s provider in
  if (length proofs =? 0)%nat then (Err NoPendingProofs, without_pending provider s)
  else if (length proofs <? agc_min_batch_size (ag_config s))%nat
  then (Err (NotEnoughProofs (length proofs) (agc_min_batch_size (ag_config s))), without_pending provider s)
  else let b := batch_new now blake3 provider (ip_deal_id <$> proofs) range proofs in (Ok b, with_batch b (without_pending provider s)).
Proof.
  unfold create_batch, mbind, M_bind, mread, mwrite, mbail, mfail, mret, M_ret. cbv zeta. destruct (length _ =? 0)%nat; [done|]. cbn [with_pending ag_config].
  by destruct (_ <? _)%nat.
Qed.

Lemma submit_batch_spec b s :
  submit_batch blake3 b s =
  if (proof_count b =? 0)%nat then (Err EmptyBatch, s)
  else if (agc_max_proofs_per_batch (ag_config s) <? proof_count b)%nat then (Err (BatchTooLarge (proof_count b) (agc_max_proofs_per_batch (ag_config s))), s)
  else if bool_decide (compute_aggregate_root blake3 (bp_individual_proofs b) = bp_aggregated_merkle_root b)
  then (Ok (bp_batch_id b), with_batch b s) else (Err AggregateRootMismatch, s).
Proof.
  unfold submit_batch, mbind, M_bind, mread, mbail, mwrite, mfail, mret, M_ret. destruct (proof_count b =? 0)%nat; [done|].
  destruct (_ <? proof_count b)%nat; [done|]. by case_bool_decide.
Qed.

(** A batch is made of all proofs that a provider has pending, in order, exactly when there are enough of
    them; it carries their root, passes the checks of a submission unless it is too large, and the queue of
    the provider is empty afterwards, while those of the others and the checkpoints stay as they were. *)
Theorem create_batch_correct provider range s :
  let proofs := pending_of s provider in
  let (r, s') := create_batch now blake3 provider range s in
  ((exists b, r = Ok b) <-> (1 <= length proofs)%nat /\ (agc_min_batch_size (ag_config s) <= length proofs)%nat) /\
  (forall b, r = Ok b ->
     bp_individual_proofs b = proofs /\ bp_deal_ids b = ip_deal_id <$> proofs /\ get_batch s' (bp_batch_id b) = Some b /\
     ((length proofs <= agc_max_proofs_per_batch (ag_config s))%nat <-> (submit_batch blake3 b s).1 = Ok (bp_batch_id b))) /\
  pending_of s' provider = [] /\ (forall p, p <> provider -> pending_of s' p = pending_of s p) /\ ag_checkpoints s' = ag_checkpoints s.
Proof.
  intros proofs. rewrite create_batch_spec. fold proofs. cbv zeta.
  assert (pending_of (without_pending provider s) provider = []) as Hp by (unfold pending_of, without_pending, with_pending; cbn [ag_pending_proofs]; by rewrite lookup_delete_eq).
  assert (forall p, p <> provider -> pending_of (without_pending provider s) p = pending_of s p) as Hq.
  { intros p H. unfold pending_of, without_pending, with_pending. cbn [ag_pending_proofs]. by rewrite lookup_delete_ne. }
  destruct (length proofs =? 0)%nat eqn:E0; zbool; [split; [split; [by intros []|lia]|by split]|].
  destruct (length proofs <? agc_min_batch_size (ag_config s))%nat eqn:E1; zbool; [split; [split; [by intros []|lia]|by split]|].
  split; [split; [lia|by eexists]|]. split; [|by split]. intros b [= <-]. split; [done|]. split; [done|]. split.
  - unfold get_batch, with_batch. cbn [ag_batched_proofs]. by rewrite lookup_insert_eq.
  - rewrite submit_batch_spec. unfold proof_count. cbn [batch_new bp_individual_proofs bp_aggregated_merkle_root bp_batch_id].
    rewrite (proj2 (Nat.eqb_neq (length proofs) 0)) by lia.
    destruct (agc_max_proofs_per_batch (ag_config s) <? length proofs)%nat eqn:E2; zbool; [split; [lia|done]|].
    rewrite bool_decide_eq_true_2 by done. split; [done|lia].
Qed.

(** A call with too few pending proofs fails and loses them. *)
Theorem short_batch_loses_proofs provider range s :
  pending_of s provider <> [] -> (length (pending_of s provider) < agc_min_batch_size (ag_config s))%nat ->
  let (r, s') := create_batch now blake3 provider range s in
  r = Err (NotEnoughProofs (length (pending_of s provider)) (agc_min_batch_size (ag_config s))) /\
  pending_of s' provider = [] /\ ag_batched_proofs s' = ag_batched_proofs s.
Proof.
  intros Hne Hlt. rewrite create_batch_spec. cbv zeta. rewrite (proj2 (Nat.eqb_neq (length (pending_of s provider)) 0)) by (by destruct (pending_of s provider)).
  rewrite (proj2 (Nat.ltb_lt _ _) Hlt). split; [done|]. split; [|done]. unfold pending_of, without_pending, with_pending. cbn [ag_pending_proofs]. by rewrite lookup_delete_eq.
Qed.

(** A checkpoint is taken exactly when it has roots and their combined root; how many proofs it says it
    covers, for which deal and from whom, is not looked at. *)
Theorem submit_checkpoint_correct c s :
  let (r, s') := submit_checkpoint blake3 c s in
  (r = Ok (cp_checkpoint_id c) <-> cp_merkle_roots_since_last c <> [] /\ compute_combined_root blake3 (cp_merkle_roots_since_last c) = cp_combined_merkle_root c) /\
  (r = Ok (cp_checkpoint_id c) -> get_checkpoint_proof s' (cp_checkpoint_id c) = Some c) /\ (r <> Ok (cp_checkpoint_id c) -> s' = s) /\
  forall n deal provider,
    let c' := mkCheckpointProof (cp_protocol c) deal provider (cp_checkpoint_epoch c) (cp_merkle_roots_since_last c) n (cp_combined_merkle_root c)
                (cp_checkpoint_id c) (cp_finality_status c) (cp_finalized_at_epoch c) in
    (submit_checkpoint blake3 c' s).1 = (submit_checkpoint blake3 c s).1.
Proof.
  unfold submit_checkpoint, mbind, M_bind, mbail, mwrite, mfail, mret, M_ret. cbn [cp_merkle_roots_since_last cp_combined_merkle_root cp_checkpoint_id].
  destruct (cp_merkle_roots_since_last c) as [|x l]; cbn [length Nat.eqb]; [split; [split; [done|by intros [? _]]|by split_and!]|].
  case_bool_decide; cbn [negb]; (split; [by split; [|intros []]|]); (split; [|by split]); [|done].
  intros _. unfold get_checkpoint_proof, with_checkpoint. cbn [ag_checkpoints]. by rewrite lookup_insert_eq.
Qed.

(** The combined root does not bind the number of roots: two roots have the root of their hash. *)
Theorem root_of_pair_is_root_of_hash a b :
  compute_combined_root blake3 [a; b] = compute_combined_root blake3 [blake3 (a ++ b)].
Proof. reflexivity. Qed.
End facts.

(** ** Witnesses *)

Definition root_a : Hash := replicate 32 1.
Definition root_b : Hash := replicate 32 2.

(** Thirty-two bytes that depend on every byte and its place, though not without collisions. *)
Definition mix_hash (bs : Bytes) : Bytes :=
  let n := foldl (fun a b => (a * 257 + b + 1) mod 2 ^ 256) 5 bs in (fun i => n / 256 ^ Z.of_nat i mod 256) <$> seq 0 32.
Definition root_c : Hash := replicate 32 3.
(** The hash of three roots, whose length alone would be the same for any three, tells their order. *)
Lemma combined_root_binds_witness :
  compute_combined_root mix_hash [root_a; root_b; root_c] <> compute_combined_root mix_hash [root_c; root_b; root_a] /\
  (compute_combined_root (fun _ => root_a) [root_a; root_b; root_c] = compute_combined_root (fun _ => root_a) [root_c; root_b; root_a] ->
   collides (fun _ => root_a) (combined_inputs (fun _ => root_a) [root_a; root_b; root_c]) (combined_inputs (fun _ => root_a) [root_c; root_b; root_a])).
Proof.
  split; [vm_compute; discriminate|]. intros H.
  destruct (combined_root_binds (fun _ => root_a) ltac:(done) [root_a; root_b; root_c] [root_c; root_b; root_a]) as [E|Hc]; [repeat constructor..|done|exact H|discriminate E|exact Hc].
Defined.

Definition demo_queue (n : nat) : AggregationManager :=
  Nat.iter n (add_pending_proof [1] (mkIndividual 4 9 [] [mkMerkle 0 [7] []])) (aggregations_new aggregation_config_default).

Lemma short_batch_loses_proofs_witness :
  let (r, s') := create_batch 3 mix_hash [1] (0, 10) (demo_queue 4) in
  r = Err (NotEnoughProofs 4 5) /\ pending_of s' [1] = [] /\ ag_batched_proofs s' = ag_batched_proofs (demo_queue 4).
Proof. apply (short_batch_loses_proofs 3 mix_hash [1] (0, 10) (demo_queue 4)); [by vm_compute|vm_compute; lia]. Defined.
